(* ===== verification/_CoqProject ===== *)
-Q . S2P
Prelude.v
Common.v
TinyMT.v
KPageBitmap.v
KPageHeap.v
KPageHeapUsage.v
BitField.v
KResourceLimit.v
KAutoObject.v
KHandleTable.v
KMemoryBlock.v
KMemoryBlockManager.v
KSlabHeap.v
KMemoryBlockSlab.v
KMemoryManager.v
KMemoryRegionType.v
KMemoryRegion.v
KMemoryLayout.v
InitSlabSetup.v
KernelBoot.v
KMemoryManagerInit.v
KCapabilities.v
KPageTableSpace.v
KPageTableCheck.v
HostPageTable.v
KPageTable.v
KPageTableLock.v
KPageTableHeap.v
KPriorityQueue.v
DmntCheatVm.v
CheatEngine.v
MacroInterpreter.v
MacroJit.v
