(* ===== verification/Prelude.v ===== *)
(** * A verified model of the kernel memory and object core of the emulator, and of its small machines

    The repository is an emulator of a game console: it reimplements the console's kernel, its
    services and its GPU on a host.  This development models the part of the reimplemented kernel
    that decides which memory and which kernel objects a program has, the queue the scheduler picks
    threads from, the machine that runs cheat programs, and the macro processor of the GPU.  All paths below are under src/src/.

    ** How the parts interact

    When the kernel starts, KernelBoot.v derives the map of the memory (KMemoryLayout.v, trees of regions of
    KMemoryRegion.v with the types of KMemoryRegionType.v), places the slab heaps of the kernel objects in it
    (InitSlabSetup.v), and hands the pool regions to the memory manager (KMemoryManagerInit.v).

    Physical pages come from the buddy heap (KPageHeap.v, counted in KPageHeapUsage.v), whose levels each keep a
    hierarchical bitmap of free blocks (KPageBitmap.v), searched with a random generator (TinyMT.v).  The memory
    manager (KMemoryManager.v) owns several such heaps, counts the references to each page and collects
    what it hands out in page groups.  The kernel's
    own objects come from slabs (KSlabHeap.v), which take their pages from a second user of the
    bitmap, the dynamic page manager.  The map of an address space (KMemoryBlockManager.v) is a
    sequence of blocks (KMemoryBlock.v), and takes new blocks from such a slab (KMemoryBlockSlab.v
    joins the two).  Handles name reference-counted objects (KHandleTable.v over KAutoObject.v);
    amounts of memory, threads and the like are accounted by resource limits (KResourceLimit.v).
    The capability words of a program decide what its process may do (KCapabilities.v).  A new process gets an
    address space with its regions at random places (KPageTableSpace.v).  To change it, the kernel checks the state of
    the range and counts the blocks the change needs (KPageTableCheck.v), enters the pages in the page table of the
    host (HostPageTable.v), opens or closes the references of the physical pages, and updates the map of
    the address space (KPageTable.v joins the three).  Memory that is lent to another process, used for transfer or
    reprotected is locked, reprotected or marked on the same way (KPageTableLock.v),
    and the heap of a process grows and shrinks, on the account of its resource limit (KPageTableHeap.v).
    The scheduler keeps runnable threads in KPriorityQueue.v.  The cheat engine (CheatEngine.v)
    parses cheat files, loads them into the cheat machine (DmntCheatVm.v) and runs it on each frame.  Programs for the
    GPU come with macros, which are interpreted (MacroInterpreter.v) or compiled to machine code (MacroJit.v).

    ** Files and sources

    - Prelude.v (this file): C++ integers, the outcome of a run, arrays, bits, tactics.
    - Common.v: common/alignment.h, bit_util.h, div_ceil.h, overflow.h.
    - TinyMT.v: common/tiny_mt.h.
    - KPageBitmap.v: core/hle/kernel/k_page_bitmap.h.
    - KPageHeap.v: core/hle/kernel/k_page_heap.h and .cpp.
    - KPageHeapUsage.v: the counts of free pages of the same class.
    - BitField.v: common/bit_field.h and the result codes of core/hle/result.h, svc_results.h.
    - KResourceLimit.v: k_resource_limit.h and .cpp, k_scoped_resource_reservation.h.
    - KAutoObject.v: k_class_token.h, k_auto_object.h and .cpp.
    - KHandleTable.v: k_handle_table.h and .cpp.
    - KMemoryBlock.v: k_memory_block.h and the memory enumerations of svc_types.h.
    - KMemoryBlockManager.v: k_memory_block_manager.h and .cpp, with the searches of common/tree.h.
    - KSlabHeap.v: k_slab_heap.h, k_dynamic_page_manager.h, k_dynamic_slab_heap.h,
      k_dynamic_resource_manager.h, k_page_table_slab_heap.h.
    - KMemoryBlockSlab.v: the slab of KSlabHeap.v as the block source of KMemoryBlockManager.v.
    - KMemoryManager.v: k_memory_manager.h and .cpp, k_page_group.h and .cpp.
    - KMemoryRegionType.v: k_memory_region_type.h and the device types of the board.
    - KMemoryRegion.v: k_memory_region.h and the region trees of k_memory_layout.cpp.
    - KMemoryLayout.v: k_memory_layout.h and .cpp.
    - InitSlabSetup.v: init/init_slab_setup.h and .cpp.
    - KernelBoot.v: DeriveInitialMemoryLayout of kernel.cpp, board/nintendo/nx/k_memory_layout.cpp, and the sizes of
      board/nintendo/nx/k_system_control.cpp.
    - KMemoryManagerInit.v: KMemoryManager::Initialize and InitializeMemoryLayout of kernel.cpp.
    - KCapabilities.v: k_capabilities.h and .cpp, with core/hardware_properties.h and svc_version.h.
    - KPageTableSpace.v: k_address_space_info.h and .cpp; of k_page_table_base.h and .cpp the regions of an address
      space: InitializeForKernel, InitializeForProcess, GetRegionAddress, GetRegionSize, CanContain.
    - KPageTableCheck.v: of the same class the checks of memory states, the queries, and the search for free areas.
    - HostPageTable.v: common/page_table.h and .cpp, the mapping of regions in core/memory.cpp, and the page groups of a
      range in k_page_table_base.cpp (MakePageGroup, IsValidPageGroup).
    - KPageTable.v: Operate, AllocateAndMapPagesImpl, MapPageGroupImpl, MapPages and UnmapPages of k_page_table_base.cpp.
    - KPageTableLock.v: LockMemoryAndOpen, UnlockMemory and the operations built on them, SetMemoryPermission,
      SetProcessMemoryPermission, SetMemoryAttribute, MapPageGroup, UnmapPageGroup and MakeAndOpenPageGroup of the same file.
    - KPageTableHeap.v: SetHeapSize and SetMaxHeapSize of the same file.
    - KPriorityQueue.v: k_priority_queue.h, k_affinity_mask.h.
    - DmntCheatVm.v: core/memory/dmnt_cheat_vm.h and .cpp, dmnt_cheat_types.h.
    - CheatEngine.v: core/memory/cheat_engine.h and .cpp.
    - MacroInterpreter.v: the opcodes of video_core/macro.h and MacroInterpreterImpl of macro.cpp.
    - MacroJit.v: of MacroJITx64Impl of macro.cpp the code generated for instructions that are not branches.

    A class of the source is a record with its member variables, a method is a function of the
    record that answers the new record; definitions keep the names of the source, inside a Module or
    with a prefix where two classes share one.

    ** The semantics of a run

    A method is a function into [outcome]: [Undef] is undefined behaviour of the C++ code (a read or
    write outside an array, a shift by the width of the type, a null pointer, a call of
    UNREACHABLE) or a run longer than the fuel of a loop, and [Done ok a] is a run that ends with [a],
    where [ok] says whether every ASSERT on the way held.  A theorem that says a method answers
    [Done true] therefore says that it terminates, that it is free of undefined behaviour and that all its
    assertions hold.  Integers are [Z]; every operation that can wrap is followed by [u8] to [u64] or
    [s32], [s64], and signed overflow is [Undef].

    ** Fuel

    Loops that are not structural take fuel computed from the data they work on: the depth of a
    bitmap, the length of the table, the words a skip can still read, the objects a slab still lacks,
    the characters of a text.  The theorems show [Done true], so the fuel is enough.  Only the
    main loop of the cheat machine, which a cheat can keep running for ever, takes its fuel as an
    argument and answers [None] when it is used up, and so does the main loop of the macro interpreter; the termination
    theorems are about programs without backward jumps.  The step of the macro interpreter calls itself for the
    instruction in a delay slot; a depth of two is enough when no delay slot holds a branch.

    ** What the theorems show

    - Page heap and bitmap: freeing and allocating change the set of available pages by exactly the
      pages concerned, at any mix of block sizes; an allocation fails only when nothing fits; the
      management area is large enough; the bitmap refines a set of free blocks at every depth.
    - Slabs: objects in use never overlap, an allocation leaves the memory of all others alone, slabs
      that share pages do not disturb each other, and a slab refines a counter of free objects.
    - Memory manager: references to pages are counted exactly, a page becomes available when its last
      reference is closed and not before, a group allocation takes exactly the pages asked for or
      gives everything back, and closing the group restores the memory.
    - Memory layout: inserting into a region tree overrides exactly its range, random places are aligned and can be
      inserted, the tests for typed addresses are exact, the linear translations are inverse to each other, the
      mask test on region types decides derivation, and the slab heaps fit their region for every outcome
      of the random numbers, on memory of their own.
    - Boot: in every memory mode the memory manager starts well-formed, with exactly the pages of the pool regions,
      for the given random words of the layout; from any tree of pool regions it is initialised so.
    - Capabilities: initialising refines the meaning of the decoded descriptors, the first bad descriptor decides
      the error, encoding is inverted by decoding, and no list of words exceeds what a process may have.
    - Address spaces: for every outcome of the random numbers the regions of a new process are aligned and inside the
      address space, and those that are placed at random are disjoint from each other and from the code; the containment test is exact; a free area that is
      found lies in its region, and in free memory with its guard pages; the check of a range decides uniformity and counts the
      blocks an update needs.
    - Page tables: a page group lists exactly the runs of physical pages behind a range and is recognised again;
      mapping gives a range fresh pages with one reference each, unmapping takes them back, both together restore
      everything, and a failure leaves the address space, the mapping and the references as they were.  Two defects of the code
      are part of these statements: a page that gets the physical page of its own address is shown as not mapped, and unmapping does not
      look at whether the group of the pages to close could be made; in both cases, and only then, unmapping loses pages.  Locking opens one
      more reference of exactly the pages behind a range and is undone by unlocking; locked memory is neither unmapped nor
      reprotected nor locked again; a page group is mapped in order.  Setting the size of the heap gives or frees exactly the
      pages of the difference and accounts for them on the resource limit, and is undone by setting the old size.
    - Memory blocks: flags and counters agree along every sequence of operations; updates of an
      address space change exactly the pages of their range and leave a gapless, merged map.
    - Handles and objects: the table refines a map from handles to objects, stale handles stay
      invalid, a destroyed object is never revived, class tokens decide derivation.
    - Resource limits: every interleaving of threads that release what they have reserved keeps the accounts, and no waiting thread whose
      request has become grantable is left unsignalled as long as no limit is raised.
    - Scheduler queue: the linked entries implement one sequence per core and priority.
    - Cheats: the documented format is decoded, up to the register of a loop, skipping respects nesting, a step stays inside the
      arrays, straight programs terminate, loading respects the size of the program memory, parsing
      inverts printing, and after every round of a frame, also of a cheat that never ends, all writes have started in the four regions of the process.
    - Macros: the interpreter has exactly the runs of the machine its delay slots are meant to be, forward programs end within one
      round per instruction,
      registers stay in range, carries chain to 64 bits, sends call consecutive methods; compiled instructions
      do what interpreted ones do, but for six cases that are proved to differ.

    Where a component talks to another one, the theorems of the client are proved against a class:
    [EntropySource] (the generator behind the bitmap), [FreeBitmap] (the bitmap behind the heap),
    [BlockSlab] (the slab behind the address space), [BlockInfoSource] (the slab behind page groups), [SlabObject] (the type of the objects of a slab),
    [ObjectLayout] (the sizes of the kernel objects behind the slab setup), [PageTable] (the page table behind the capabilities),
    [FastMemory] (the memory mapping of the host behind the page table),
    [Callbacks] and [EmulatedSystem] (the emulator behind the cheats),
    [Maxwell3D] and [Maxwell3DRegs] (the 3D engine behind the macros); the instances are given by the
    files above, or, for code outside this development, by a concrete example.

    ** Not modelled

    Of the page tables the alias mappings, physical memory, devices and message transfer, which need the
    other tables and the threads of a process, and the contents of the pages; of the macros the generated code of branches, whose labels are objects of the
    assembler library, the cache of compiled macros, which points into the uploaded code, and the replacements of known macros,
    which are calls to the renderers.  Threads and their synchronisation objects run on fibers of the host; sessions, system calls
    and services are built on them.  The CPU recompiler, the rest of the GPU, audio, file systems and the front ends are programs
    of their own or input and output.

    Locks are taken
    and released inside one method, so that a method is one step, except for the resource limit, whose
    waiting is modelled as a step relation.  Logging has no effect on the state and is left out.  The
    red-black trees of common/tree.h are their in-order sequences.  The assembler library emits the instruction each of its
    functions is named after, and the instructions have the effects of the processor manual on the registers and flags that are read. *)

(** ** Machine integers, outcomes, arrays and shared lemmas *)

From Stdlib Require Export ZArith Lia Bool.
From stdpp Require Export base tactics numbers list option.
#[global] Open Scope Z_scope.

(** ** Notations for the C++ bit operators *)

Declare Scope cpp_scope.
Delimit Scope cpp_scope with cpp.
Notation "x .& y" := (Z.land x y) (at level 41, left associativity) : cpp_scope.
Notation "x .^ y" := (Z.lxor x y) (at level 42, left associativity) : cpp_scope.
Notation "x .| y" := (Z.lor x y) (at level 43, left associativity) : cpp_scope.
Notation "x .<< y" := (Z.shiftl x y) (at level 39, left associativity) : cpp_scope.
Notation "x .>> y" := (Z.shiftr x y) (at level 39, left associativity) : cpp_scope.
#[global] Open Scope cpp_scope.

(** ** Machine integers *)

(** Unsigned [w]-bit wrap-around and the two's complement reading of a [w]-bit pattern. *)
Definition wrapu (w x : Z) : Z := x mod 2 ^ w.
Definition wraps (w x : Z) : Z :=
  let r := x mod 2 ^ w in if r <? 2 ^ (w - 1) then r else r - 2 ^ w.

Definition u8 : Z -> Z := wrapu 8.
Definition u16 : Z -> Z := wrapu 16.
Definition u32 : Z -> Z := wrapu 32.
Definition u64 : Z -> Z := wrapu 64.
Definition s16 : Z -> Z := wraps 16.
Definition s32 : Z -> Z := wraps 32.
Definition s64 : Z -> Z := wraps 64.

(** [~x] on an unsigned [w]-bit value. *)
Definition notu (w x : Z) : Z := Z.lxor x (Z.ones w).

(** Membership in the range of an unsigned or signed [w]-bit type. *)
Definition in_u (w x : Z) : Prop := 0 <= x < 2 ^ w.
Definition in_s (w x : Z) : Prop := - 2 ^ (w - 1) <= x < 2 ^ (w - 1).

(** ** Outcomes

    [ASSERT] is soft in this code base (common/assert.h): it logs, and the code after it runs
    unless debug asserts are enabled.  An [outcome] therefore keeps the value computed together
    with one boolean that says whether every assertion passed so far; [Undef] stands for
    undefined behaviour (an access outside an array, a division by zero, an oversized shift) and
    for a loop that exhausts the fuel the model gives it. *)

Inductive outcome (A : Type) : Type :=
| Undef
| Done (asserts_ok : bool) (a : A).
Arguments Undef {A}.
Arguments Done {A} _ _.

Definition outcome_bind {A B : Type} (f : A -> outcome B) (m : outcome A) : outcome B :=
  match m with
  | Undef => Undef
  | Done b a => match f a with Undef => Undef | Done b' r => Done (b && b') r end
  end.

#[export] Instance outcome_mret : MRet outcome := fun A a => Done true a.
#[export] Instance outcome_mbind : MBind outcome := @outcome_bind.

(** [ASSERT(cond)], a division (undefined for a zero divisor) and a 64-bit shift amount check. *)
Definition ASSERT (b : bool) : outcome unit := Done b tt.
Definition udiv (x y : Z) : outcome Z := if y =? 0 then Undef else mret (x / y).
Definition shl64 (x n : Z) : outcome Z :=
  if (0 <=? n) && (n <? 64) then mret (u64 (x .<< n)) else Undef.
Definition shr64 (x n : Z) : outcome Z :=
  if (0 <=? n) && (n <? 64) then mret (x .>> n) else Undef.

(** The result of a signed 64-bit operation: overflow is undefined. *)
Definition signed64 (z : Z) : outcome Z :=
  if (- 2 ^ 63 <=? z) && (z <? 2 ^ 63) then mret z else Undef.

(** Array accesses with a C++ index: out of range is undefined. *)
Definition arr_get {A : Type} (l : list A) (i : Z) : outcome A :=
  if 0 <=? i then match l !! Z.to_nat i with Some x => mret x | None => Undef end else Undef.
Definition arr_set {A : Type} (l : list A) (i : Z) (x : A) : outcome (list A) :=
  if (0 <=? i) && (i <? Z.of_nat (length l)) then mret (<[Z.to_nat i := x]> l) else Undef.

(** ** Lemmas about outcomes *)

Create HintDb zbits.
Create Rewrite HintDb outcome.
Create Rewrite HintDb zbits.

Lemma bind_ret {A B} (a : A) (f : A -> outcome B) : (mret a ≫= f) = f a.
Proof. unfold mbind, outcome_mbind, outcome_bind, mret, outcome_mret. by destruct (f a). Qed.

Lemma bind_Done_true {A B} (a : A) (f : A -> outcome B) : (Done true a ≫= f) = f a.
Proof. apply bind_ret. Qed.

Lemma bind_assert_true {B} (b : bool) (f : unit -> outcome B) :
  b = true -> (ASSERT b ≫= f) = f tt.
Proof. intros ->. apply bind_ret. Qed.

Lemma bind_assoc {A B C} (m : outcome A) (f : A -> outcome B) (g : B -> outcome C) :
  ((m ≫= f) ≫= g) = (m ≫= (fun a => f a ≫= g)).
Proof.
  destruct m as [|b a]; [done|]. unfold mbind, outcome_mbind, outcome_bind.
  destruct (f a) as [|b1 r]; [done|]. destruct (g r) as [|b2 r2]; [done|].
  by rewrite andb_assoc.
Qed.

Lemma bind_ret_r {A} (m : outcome A) : (m ≫= mret) = m.
Proof.
  destruct m as [|b a]; [done|]. unfold mbind, outcome_mbind, outcome_bind, mret, outcome_mret.
  by rewrite andb_true_r.
Qed.

Lemma bind_ext {A B} (m : outcome A) (f g : A -> outcome B) :
  (forall a, f a = g a) -> (m ≫= f) = (m ≫= g).
Proof. intros H. destruct m as [|b a]; [done|]. cbn. by rewrite H. Qed.

Lemma bind_Done_inv {A B} (m : outcome A) (f : A -> outcome B) r :
  (m ≫= f) = Done true r -> exists a, m = Done true a /\ f a = Done true r.
Proof.
  destruct m as [|b a]; [done|]. unfold mbind, outcome_mbind, outcome_bind.
  destruct (f a) as [|b' r'] eqn:E; [done|]. intros [= Hb ->].
  apply andb_true_iff in Hb as [-> ->]. eauto.
Qed.

Lemma bind_Done_weak_inv {A B} (m : outcome A) (f : A -> outcome B) c r :
  (m ≫= f) = Done c r -> exists b b' a, m = Done b a /\ f a = Done b' r /\ c = b && b'.
Proof.
  destruct m as [|b a]; [done|]. unfold mbind, outcome_mbind, outcome_bind.
  destruct (f a) as [|b' r'] eqn:E; [done|]. intros [= <- ->]. eauto 10.
Qed.

Lemma ASSERT_inv (b : bool) u : ASSERT b = Done true u -> b = true.
Proof. by intros [= ->]. Qed.

Lemma arr_get_Some {A} (l : list A) i x :
  0 <= i -> l !! Z.to_nat i = Some x -> arr_get l i = mret x.
Proof. intros Hi Hx. unfold arr_get. by rewrite (proj2 (Z.leb_le 0 i) Hi), Hx. Qed.

Lemma arr_get_inv {A} (l : list A) i c x :
  arr_get l i = Done c x -> 0 <= i /\ c = true /\ l !! Z.to_nat i = Some x.
Proof.
  unfold arr_get. destruct (Z.leb_spec 0 i); [|done].
  destruct (l !! Z.to_nat i); [|done]. by intros [= <- ->].
Qed.

Lemma arr_get_lt {A} (l : list A) i :
  0 <= i < Z.of_nat (length l) -> exists x, arr_get l i = mret x /\ l !! Z.to_nat i = Some x.
Proof.
  intros [H1 H2]. destruct (lookup_lt_is_Some_2 l (Z.to_nat i)) as [x Hx]; [lia|].
  exists x. split; [|done]. by apply arr_get_Some.
Qed.

Lemma arr_set_lt {A} (l : list A) i x :
  0 <= i < Z.of_nat (length l) -> arr_set l i x = mret (<[Z.to_nat i := x]> l).
Proof.
  intros [H1 H2]. unfold arr_set.
  by rewrite (proj2 (Z.leb_le 0 i)), (proj2 (Z.ltb_lt i _)) by lia.
Qed.

Lemma arr_set_inv {A} (l : list A) i x c l' :
  arr_set l i x = Done c l' ->
  0 <= i < Z.of_nat (length l) /\ c = true /\ l' = <[Z.to_nat i := x]> l.
Proof.
  unfold arr_set. destruct (Z.leb_spec 0 i), (Z.ltb_spec i (Z.of_nat (length l))); try done.
  by intros [= <- <-].
Qed.

Lemma shl64_ok x n : 0 <= n < 64 -> shl64 x n = mret (u64 (x .<< n)).
Proof.
  intros []. unfold shl64. by rewrite (proj2 (Z.leb_le 0 n)), (proj2 (Z.ltb_lt n 64)) by lia.
Qed.

Lemma shr64_ok x n : 0 <= n < 64 -> shr64 x n = mret (x .>> n).
Proof.
  intros []. unfold shr64. by rewrite (proj2 (Z.leb_le 0 n)), (proj2 (Z.ltb_lt n 64)) by lia.
Qed.

Lemma signed64_ok z : - 2 ^ 63 <= z < 2 ^ 63 -> signed64 z = mret z.
Proof.
  intros []. unfold signed64. by rewrite (proj2 (Z.leb_le _ z)), (proj2 (Z.ltb_lt z _)) by lia.
Qed.

#[export] Hint Rewrite @bind_ret @bind_Done_true @bind_assoc : outcome.

(** One step of symbolic execution under known facts, and inversion of a run that passed. *)
Ltac ostep := rewrite ?bind_ret, ?bind_Done_true; cbv beta.
Ltac run_inv H :=
  lazymatch type of H with
  | (_ ≫= _) = Done true _ =>
      let a := fresh "a" in let E := fresh "E" in
      apply bind_Done_inv in H as (a & E & H)
  end.

(** ** Lemmas about machine integers *)

Lemma wrapu_small w x : in_u w x -> wrapu w x = x.
Proof. intros. by apply Z.mod_small. Qed.

Lemma wrapu_range w x : 0 <= w -> in_u w (wrapu w x).
Proof. intros. apply Z.mod_pos_bound, Z.pow_pos_nonneg; lia. Qed.

Lemma wrapu_add_l w x y : wrapu w (wrapu w x + y) = wrapu w (x + y).
Proof. unfold wrapu. apply Zplus_mod_idemp_l. Qed.

Lemma wrapu_add_r w x y : wrapu w (x + wrapu w y) = wrapu w (x + y).
Proof. unfold wrapu. apply Zplus_mod_idemp_r. Qed.

Lemma u64_small x : 0 <= x < 2 ^ 64 -> u64 x = x.
Proof. apply wrapu_small. Qed.

Lemma u64_range x : 0 <= u64 x < 2 ^ 64.
Proof. by apply wrapu_range. Qed.

Lemma u32_small x : 0 <= x < 2 ^ 32 -> u32 x = x.
Proof. apply wrapu_small. Qed.

Lemma u32_range x : 0 <= u32 x < 2 ^ 32.
Proof. by apply wrapu_range. Qed.

Lemma u16_small x : 0 <= x < 2 ^ 16 -> u16 x = x.
Proof. apply wrapu_small. Qed.

Lemma u16_range x : 0 <= u16 x < 2 ^ 16.
Proof. by apply wrapu_range. Qed.

Lemma wraps_small w x : 0 < w -> in_s w x -> wraps w x = x.
Proof.
  intros Hw [H1 H2]. unfold wraps.
  assert (2 ^ w = 2 * 2 ^ (w - 1)) as Hp by (rewrite <- Z.pow_succ_r by lia; f_equal; lia).
  pose proof (Z.pow_pos_nonneg 2 (w - 1)) as Hpos.
  destruct (Z_lt_le_dec x 0).
  - replace (x mod 2 ^ w) with (x + 2 ^ w).
    + destruct (Z.ltb_spec (x + 2 ^ w) (2 ^ (w - 1))); lia.
    + rewrite <- (Z.mod_add x 1) by lia. rewrite Z.mul_1_l, Z.mod_small; lia.
  - rewrite Z.mod_small by lia. destruct (Z.ltb_spec x (2 ^ (w - 1))); lia.
Qed.

(** ** Lemmas about bits *)

Lemma testbit_wrapu w x i :
  0 <= w -> Z.testbit (wrapu w x) i = (i <? w) && Z.testbit x i.
Proof.
  intros. unfold wrapu. destruct (Z.ltb_spec i w).
  - by rewrite Z.mod_pow2_bits_low.
  - by rewrite Z.mod_pow2_bits_high by lia.
Qed.

Lemma testbit_ones w i : 0 <= w -> Z.testbit (Z.ones w) i = (0 <=? i) && (i <? w).
Proof.
  intros. destruct (Z.leb_spec 0 i), (Z.ltb_spec i w); simpl;
    rewrite ?Z.testbit_neg_r, ?Z.ones_spec_low, ?Z.ones_spec_high by lia; done.
Qed.

Lemma testbit_pow2 n i : 0 <= n -> Z.testbit (1 .<< n) i = (i =? n).
Proof.
  intros. rewrite Z.shiftl_1_l. destruct (Z.eqb_spec i n) as [->|].
  - by apply Z.pow2_bits_true.
  - by apply Z.pow2_bits_false.
Qed.

Lemma testbit_notu w x i :
  0 <= w -> Z.testbit (notu w x) i = xorb (Z.testbit x i) ((0 <=? i) && (i <? w)).
Proof. intros. unfold notu. by rewrite Z.lxor_spec, testbit_ones. Qed.

Lemma testbit_above w x i : 0 <= x < 2 ^ w -> 0 <= w <= i -> Z.testbit x i = false.
Proof.
  intros Hx Hi. rewrite <- (Z.mod_small x (2 ^ w)) by done. apply Z.mod_pow2_bits_high. lia.
Qed.

Lemma in_u_of_bits w x :
  0 <= w -> 0 <= x -> (forall i, w <= i -> Z.testbit x i = false) -> in_u w x.
Proof.
  intros Hw Hx Hb. split; [done|].
  destruct (Z.eq_dec x 0) as [->|]; [apply Z.pow_pos_nonneg; lia|].
  apply Z.log2_lt_pow2; [lia|]. apply Z.nle_gt. intros Hle.
  specialize (Hb (Z.log2 x) Hle). rewrite Z.bit_log2 in Hb by lia. done.
Qed.

Lemma nonzero_has_bit x : 0 <= x -> x <> 0 -> exists i, 0 <= i /\ Z.testbit x i = true.
Proof.
  intros. exists (Z.log2 x). split; [apply Z.log2_nonneg|]. apply Z.bit_log2; lia.
Qed.

Lemma zero_of_bits x : (forall i, 0 <= i -> Z.testbit x i = false) -> x = 0.
Proof. intros Hb. apply Z.bits_inj'. intros i Hi. by rewrite Z.bits_0, Hb. Qed.

Lemma in_u_land w x y : 0 <= w -> in_u w x -> 0 <= y -> in_u w (x .& y).
Proof.
  intros Hw Hx Hy. apply in_u_of_bits; [done|apply Z.land_nonneg; left; apply Hx|].
  intros i Hi. by rewrite Z.land_spec, (testbit_above w x i).
Qed.

Lemma in_u_lor w x y : 0 <= w -> in_u w x -> in_u w y -> in_u w (x .| y).
Proof.
  intros Hw Hx Hy. apply in_u_of_bits; [done|apply Z.lor_nonneg; split; [apply Hx|apply Hy]|].
  intros i Hi. by rewrite Z.lor_spec, (testbit_above w x i), (testbit_above w y i).
Qed.

Lemma in_u_lxor w x y : 0 <= w -> in_u w x -> in_u w y -> in_u w (x .^ y).
Proof.
  intros Hw Hx Hy.
  apply in_u_of_bits; [done|apply Z.lxor_nonneg; split; intros; [apply Hy|apply Hx]|].
  intros i Hi. by rewrite Z.lxor_spec, (testbit_above w x i), (testbit_above w y i).
Qed.

Lemma in_u_shiftr w x n : 0 <= n -> 0 <= w -> in_u w x -> in_u w (x .>> n).
Proof.
  intros Hn Hw [H1 H2]. split; [by apply Z.shiftr_nonneg|].
  rewrite Z.shiftr_div_pow2 by done. pose proof (Z.pow_pos_nonneg 2 n).
  apply Z.div_lt_upper_bound; nia.
Qed.

(** A boolean test holds on a whole interval, or there is an exception. *)
Lemma interval_dec (f : Z -> bool) lo n :
  (forall j, lo <= j < lo + n -> f j = true) \/ exists j, lo <= j < lo + n /\ f j = false.
Proof.
  destruct (Z_lt_le_dec n 0) as [|Hn]; [left; lia|]. revert n Hn. apply natlike_ind; [left; lia|].
  intros n Hn [IH|(j & Hj & Hf)].
  - destruct (f (lo + n)) eqn:E; [left|right; exists (lo + n); split; [lia|done]].
    intros j Hj. destruct (Z.eq_dec j (lo + n)) as [->|]; [done|]. apply IH. lia.
  - right. exists j. split; [lia|done].
Qed.

#[export] Hint Resolve in_u_land in_u_lor in_u_lxor in_u_shiftr wrapu_range : zbits.
#[export] Hint Rewrite Z.land_spec Z.lor_spec Z.lxor_spec Z.bits_0 : zbits.
