(* ===== verification/Common.v ===== *)
(** * Common: src/common/{alignment,bit_util,div_ceil,overflow}.h

    The integer helpers every other component calls, at an explicit unsigned width [w], with the
    C++ bit-counting functions they use.  The theorems characterise each helper arithmetically
    (least multiple above, floor and ceiling of the logarithm, absence of signed overflow). *)

From S2P Require Import Prelude.

(** ** The C++ library's bit counting functions *)

Fixpoint pos_ctz (p : positive) : Z :=
  match p with xO q => 1 + pos_ctz q | _ => 0 end.

Definition countr_zero (w x : Z) : Z :=
  match x with Zpos p => pos_ctz p | _ => w end.
Definition countl_zero (w x : Z) : Z :=
  if x =? 0 then w else w - 1 - Z.log2 x.

(** ** common/alignment.h, for an unsigned type of width [w] *)

Definition AlignUp (w value_ size : Z) : Z :=
  let md := wrapu w (value_ mod size) in
  let value := wrapu w (value_ - md) in
  if md =? 0 then value else wrapu w (value + size).

Definition AlignUpLog2 (w value align_log2 : Z) : Z :=
  wrapu w (u64 (u64 (value + u64 (u64 (1 .<< align_log2) - 1)) .>> align_log2 .<< align_log2)).

Definition AlignDown (w value size : Z) : Z := wrapu w (value - value mod size).

Definition Is4KBAligned (value : Z) : bool := value .& 0xFFF =? 0.
Definition IsWordAligned (value : Z) : bool := value .& 3 =? 0.

Definition IsAligned (w value alignment : Z) : bool :=
  let mask := wrapu w (u64 (alignment - 1)) in value .& mask =? 0.

Definition DivideUp (w x y : Z) : Z := wrapu w (x + wrapu w (y - 1)) / y.

Definition LeastSignificantOneBit (w x : Z) : Z := x .& notu w (wrapu w (x - 1)).
Definition ResetLeastSignificantOneBit (w x : Z) : Z := x .& wrapu w (x - 1).
Definition IsPowerOfTwo (w x : Z) : bool :=
  (0 <? x) && (ResetLeastSignificantOneBit w x =? 0).
Definition FloorPowerOfTwo (w x : Z) : Z := wrapu w (1 .<< (w - countl_zero w x - 1)).

(** ** common/bit_util.h *)

Definition BitSize_u64 : Z := 64.
Definition MostSignificantBit32 (value : Z) : Z := u32 (31 - u32 (countl_zero 32 value)).
Definition MostSignificantBit64 (value : Z) : Z := u32 (63 - u32 (countl_zero 64 value)).
Definition Log2Floor32 (value : Z) : Z := MostSignificantBit32 value.
Definition Log2Floor64 (value : Z) : Z := MostSignificantBit64 value.
Definition Log2Ceil32 (value : Z) : Z :=
  let log2_f := Log2Floor32 value in
  u32 (log2_f + Z.b2z (negb (value .^ u32 (1 .<< log2_f) =? 0))).
Definition Log2Ceil64 (value : Z) : Z :=
  let log2_f := Log2Floor64 value in
  u32 (u64 (log2_f + Z.b2z (negb (value .^ u64 (1 .<< log2_f) =? 0)))).
Definition NextPow2 (w value : Z) : outcome Z :=
  r ← shl64 1 (w - countl_zero w (wrapu w (value - 1))); mret (wrapu w r).

(** ** common/div_ceil.h *)

Definition DivCeil (w number divisor : Z) : Z :=
  wrapu w (wrapu w (wrapu w (number + divisor) - 1) / divisor).
Definition DivCeilLog2 (w value alignment_log2 : Z) : Z :=
  wrapu w (wrapu w (wrapu w (value + wrapu w (1 .<< alignment_log2)) - 1) .>> alignment_log2).

(** ** common/overflow.h, for a signed type of width [w] *)

Definition WrappingAdd (w lhs rhs : Z) : Z := wraps w (wrapu w lhs + wrapu w rhs).

(** The portable branch, and the branch on the compiler builtin. *)
Definition CanAddWithoutOverflow (w lhs rhs : Z) : bool :=
  if (0 <=? lhs) && (0 <=? rhs) then Z.max lhs rhs <=? WrappingAdd w lhs rhs
  else if (lhs <? 0) && (rhs <? 0) then WrappingAdd w lhs rhs <=? Z.min lhs rhs
  else true.
Definition CanAddWithoutOverflow_builtin (w lhs rhs : Z) : bool :=
  (- 2 ^ (w - 1) <=? lhs + rhs) && (lhs + rhs <? 2 ^ (w - 1)).

(** ** Lemmas on bit counting *)

Lemma pos_ctz_nonneg p : 0 <= pos_ctz p.
Proof. induction p; simpl; lia. Qed.

Lemma pos_ctz_spec p :
  Z.testbit (Zpos p) (pos_ctz p) = true /\
  forall i, 0 <= i < pos_ctz p -> Z.testbit (Zpos p) i = false.
Proof.
  induction p as [p _|p [IH1 IH2]|]; simpl pos_ctz.
  - split; [done|lia].
  - pose proof (pos_ctz_nonneg p). rewrite Pos2Z.pos_xO. split.
    + replace (1 + pos_ctz p) with (Z.succ (pos_ctz p)) by lia. by rewrite Z.double_bits_succ.
    + intros i Hi. destruct (Z.eq_dec i 0) as [->|]; [by destruct p|].
      replace i with (Z.succ (i - 1)) by lia. rewrite Z.double_bits_succ. apply IH2. lia.
  - split; [done|lia].
Qed.

(** The two defining facts of [countr_zero] on a nonzero word. *)
Lemma countr_zero_spec w x :
  0 < x -> 0 <= countr_zero w x /\ Z.testbit x (countr_zero w x) = true /\
  forall i, 0 <= i < countr_zero w x -> Z.testbit x i = false.
Proof.
  destruct x as [|p|p]; try lia. intros _. simpl.
  split; [apply pos_ctz_nonneg|apply pos_ctz_spec].
Qed.

Lemma countr_zero_lt w v x : 0 <= w -> 0 < x < 2 ^ w -> countr_zero v x < w.
Proof.
  intros Hw Hx. destruct (countr_zero_spec v x) as (H0 & H1 & _); [lia|].
  apply Z.nle_gt. intros Hle. rewrite (testbit_above w) in H1; [done|lia|lia].
Qed.

Lemma countr_zero_unique w x i :
  0 <= i -> Z.testbit x i = true -> (forall j, 0 <= j < i -> Z.testbit x j = false) ->
  0 < x -> countr_zero w x = i.
Proof.
  intros Hi H1 H2 Hx. destruct (countr_zero_spec w x Hx) as (C0 & C1 & C2).
  destruct (Z.lt_trichotomy (countr_zero w x) i) as [Hlt|[?|Hlt]]; [|done|].
  - rewrite H2 in C1; [done|lia].
  - rewrite C2 in H1; [done|lia].
Qed.

Lemma countr_zero_pow2 w k : 0 <= k -> countr_zero w (2 ^ k) = k.
Proof.
  intros Hk. apply countr_zero_unique; [done|by apply Z.pow2_bits_true| |].
  - intros j Hj. apply Z.pow2_bits_false. lia.
  - apply Z.pow_pos_nonneg; lia.
Qed.

(** ** Lemmas on alignment *)

Lemma AlignDown_eq w v size :
  0 < size -> in_u w v -> AlignDown w v size = v - v mod size.
Proof.
  intros Hs [Hv Hv']. unfold AlignDown. apply wrapu_small.
  pose proof (Z.mod_pos_bound v size Hs). pose proof (Z.mod_le v size Hv Hs). split; lia.
Qed.

(** [AlignDown] is the greatest multiple of [size] that is at most [v]. *)
Lemma AlignDown_spec w v size :
  0 < size -> in_u w v ->
  (size | AlignDown w v size) /\ AlignDown w v size <= v < AlignDown w v size + size /\
  0 <= AlignDown w v size.
Proof.
  intros Hs Hv. rewrite AlignDown_eq by done. destruct Hv as [Hv Hv'].
  pose proof (Z.mod_pos_bound v size Hs). pose proof (Z.mod_le v size Hv Hs).
  split_and!; [|lia|lia|lia]. exists (v / size). pose proof (Z.div_mod v size). lia.
Qed.

Lemma AlignUp_eq w v size :
  0 < size -> 0 <= w -> in_u w v -> v + size - 1 < 2 ^ w ->
  AlignUp w v size = (v + size - 1) / size * size.
Proof.
  intros Hs Hw [Hv Hv'] Hb. unfold AlignUp.
  pose proof (Z.mod_pos_bound v size Hs) as Hm. pose proof (Z.mod_le v size Hv Hs) as Hl.
  pose proof (Z.div_mod v size ltac:(lia)) as Hd.
  rewrite (wrapu_small w (v mod size)) by (split; lia).
  rewrite (wrapu_small w (v - v mod size)) by (split; lia).
  destruct (Z.eqb_spec (v mod size) 0) as [E|E].
  - replace (v + size - 1) with (v / size * size + (size - 1)) by lia.
    rewrite Z.div_add_l, (Z.div_small (size - 1)) by lia. lia.
  - rewrite wrapu_small by (split; lia).
    replace (v + size - 1) with ((v / size + 1) * size + (v mod size - 1)) by lia.
    rewrite Z.div_add_l, (Z.div_small (v mod size - 1)) by lia. lia.
Qed.

(** [AlignUp] is the least multiple of [size] that is at least [v], when that fits the type. *)
Lemma AlignUp_spec w v size :
  0 < size -> 0 <= w -> in_u w v -> v + size - 1 < 2 ^ w ->
  (size | AlignUp w v size) /\ v <= AlignUp w v size < v + size.
Proof.
  intros Hs Hw Hv Hb. rewrite AlignUp_eq by done. split; [by exists ((v + size - 1) / size)|].
  pose proof (Z.div_mod (v + size - 1) size ltac:(lia)).
  pose proof (Z.mod_pos_bound (v + size - 1) size Hs). lia.
Qed.

Lemma land_ones_mod v k : 0 <= k -> v .& (2 ^ k - 1) = v mod 2 ^ k.
Proof.
  intros. replace (2 ^ k - 1) with (Z.ones k) by (rewrite Z.ones_equiv; lia).
  by apply Z.land_ones.
Qed.

(** For a power of two the mask test of [IsAligned] is the remainder test. *)
Lemma IsAligned_pow2 w v k :
  0 <= k < 64 -> k < w <= 64 -> IsAligned w v (2 ^ k) = (v mod 2 ^ k =? 0).
Proof.
  intros Hk Hw. unfold IsAligned.
  pose proof (Z.pow_pos_nonneg 2 k) as Hp.
  pose proof (Z.pow_lt_mono_r 2 k w). pose proof (Z.pow_lt_mono_r 2 k 64).
  rewrite (u64_small (2 ^ k - 1)) by lia. rewrite wrapu_small by (split; lia).
  by rewrite land_ones_mod by lia.
Qed.

(** ** Lemmas on powers of two *)

Lemma IsPowerOfTwo_spec w x :
  0 <= w -> in_u w x -> IsPowerOfTwo w x = true <-> exists k, 0 <= k /\ x = 2 ^ k.
Proof.
  intros Hw [Hx Hx']. unfold IsPowerOfTwo, ResetLeastSignificantOneBit. split.
  - intros [Hp He]%andb_true_iff. apply Z.ltb_lt in Hp. apply Z.eqb_eq in He.
    rewrite wrapu_small in He by (split; lia).
    exists (Z.log2 x). split; [apply Z.log2_nonneg|].
    destruct (Z.log2_spec x Hp) as [L1 L2].
    destruct (Z.eq_dec x (2 ^ Z.log2 x)) as [|Hne]; [done|]. exfalso.
    assert (Z.log2 (x - 1) = Z.log2 x) as E by (apply Z.log2_unique; [apply Z.log2_nonneg|lia]).
    assert (Z.testbit (x .& (x - 1)) (Z.log2 x) = true) as Hb.
    { pose proof (Z.log2_nonneg x). pose proof (Z.pow_pos_nonneg 2 (Z.log2 x)).
      rewrite Z.land_spec, Z.bit_log2 by lia. rewrite <- E. rewrite Z.bit_log2 by lia. done. }
    by rewrite He, Z.bits_0 in Hb.
  - intros (k & Hk & ->). pose proof (Z.pow_pos_nonneg 2 k).
    rewrite wrapu_small by (split; lia). rewrite land_ones_mod, Z.mod_same by lia.
    rewrite andb_true_r. apply Z.ltb_lt. lia.
Qed.

Lemma countl_zero_pos w x : 0 < x -> countl_zero w x = w - 1 - Z.log2 x.
Proof. intros. unfold countl_zero. destruct (Z.eqb_spec x 0); [lia|done]. Qed.

Lemma log2_lt_width w x : 0 < x < 2 ^ w -> 0 <= Z.log2 x < w.
Proof. intros. split; [apply Z.log2_nonneg|]. apply Z.log2_lt_pow2; lia. Qed.

Lemma MostSignificantBit64_eq v : 0 < v < 2 ^ 64 -> MostSignificantBit64 v = Z.log2 v.
Proof.
  intros Hv. unfold MostSignificantBit64. rewrite countl_zero_pos by lia.
  pose proof (log2_lt_width 64 v Hv). rewrite (u32_small (64 - _ - _)) by lia.
  rewrite u32_small by lia. lia.
Qed.

Lemma MostSignificantBit32_eq v : 0 < v < 2 ^ 32 -> MostSignificantBit32 v = Z.log2 v.
Proof.
  intros Hv. unfold MostSignificantBit32. rewrite countl_zero_pos by lia.
  pose proof (log2_lt_width 32 v Hv). rewrite (u32_small (32 - _ - _)) by lia.
  rewrite u32_small by lia. lia.
Qed.

Lemma log2_up_of_log2 v :
  0 < v -> Z.log2_up v = Z.log2 v + Z.b2z (negb (v .^ 2 ^ Z.log2 v =? 0)).
Proof.
  intros Hv. destruct (Z.eqb_spec (v .^ 2 ^ Z.log2 v) 0) as [E|E]; simpl.
  - apply Z.lxor_eq in E. rewrite Z.add_0_r. rewrite E at 1.
    apply Z.log2_up_pow2, Z.log2_nonneg.
  - pose proof (Z.log2_spec v Hv) as [L1 L2]. rewrite Z.add_1_r.
    apply Z.log2_up_unique; [pose proof (Z.log2_nonneg v); lia|]. rewrite Z.pred_succ.
    split; [|lia]. destruct (Z.eq_dec v (2 ^ Z.log2 v)) as [Ev|]; [|lia].
    exfalso. apply E. rewrite <- Ev. apply Z.lxor_nilpotent.
Qed.

Lemma pow2_log2_small w v : 0 <= w -> 0 < v < 2 ^ w -> in_u w (2 ^ Z.log2 v).
Proof.
  intros Hw Hv. pose proof (Z.log2_spec v ltac:(lia)). split; [|lia].
  apply Z.pow_nonneg. lia.
Qed.

(** [Log2Ceil64] is the ceiling of the base-two logarithm on every nonzero 64-bit value. *)
Lemma Log2Ceil64_spec v : 0 < v < 2 ^ 64 -> Log2Ceil64 v = Z.log2_up v.
Proof.
  intros Hv. unfold Log2Ceil64, Log2Floor64. rewrite MostSignificantBit64_eq by done.
  rewrite Z.shiftl_1_l, (u64_small (2 ^ _)) by (by apply pow2_log2_small).
  rewrite <- log2_up_of_log2 by lia.
  assert (0 <= Z.log2_up v <= 64).
  { split; [apply Z.log2_up_nonneg|]. apply Z.log2_up_le_pow2; lia. }
  rewrite u64_small by lia. apply u32_small. lia.
Qed.

Lemma Log2Ceil32_spec v : 0 < v < 2 ^ 32 -> Log2Ceil32 v = Z.log2_up v.
Proof.
  intros Hv. unfold Log2Ceil32, Log2Floor32. rewrite MostSignificantBit32_eq by done.
  rewrite Z.shiftl_1_l, (u32_small (2 ^ _)) by (by apply pow2_log2_small).
  rewrite <- log2_up_of_log2 by lia.
  assert (0 <= Z.log2_up v <= 32).
  { split; [apply Z.log2_up_nonneg|]. apply Z.log2_up_le_pow2; lia. }
  apply u32_small. lia.
Qed.

(** [NextPow2] rounds up to a power of two; at 1 it is 1, and above half the range the shift
    amount reaches the width of the type. *)
Lemma NextPow2_spec v :
  1 <= v <= 2 ^ 63 -> NextPow2 64 v = mret (2 ^ Z.log2_up v).
Proof.
  intros Hv. unfold NextPow2. rewrite wrapu_small by (split; lia).
  assert (64 - countl_zero 64 (v - 1) = Z.log2_up v) as ->.
  { unfold countl_zero. destruct (Z.eqb_spec (v - 1) 0) as [E|E].
    - replace v with 1 by lia. done.
    - rewrite Z.log2_up_eqn by lia. rewrite <- Z.sub_1_r. lia. }
  assert (0 <= Z.log2_up v <= 63).
  { split; [apply Z.log2_up_nonneg|]. apply Z.log2_up_le_pow2; lia. }
  rewrite shl64_ok, bind_ret, Z.shiftl_1_l by lia. f_equal.
  pose proof (Z.pow_le_mono_r 2 (Z.log2_up v) 63 ltac:(lia) ltac:(lia)).
  pose proof (Z.pow_pos_nonneg 2 (Z.log2_up v) ltac:(lia) ltac:(lia)).
  rewrite (u64_small (2 ^ _)) by lia. apply wrapu_small. split; lia.
Qed.

(** ** Lemmas on divisions and signed overflow *)

Lemma DivCeil_spec w n d :
  0 <= w -> 0 < d -> 0 <= n -> n + d < 2 ^ w -> DivCeil w n d = (n + d - 1) / d.
Proof.
  intros Hw Hd Hn Hb. unfold DivCeil. rewrite (wrapu_small w (n + d)) by (split; lia).
  rewrite (wrapu_small w (n + d - 1)) by (split; lia). apply wrapu_small.
  pose proof (Z.div_pos (n + d - 1) d). split; [lia|].
  apply Z.div_lt_upper_bound; nia.
Qed.

Lemma WrappingAdd_cases w lhs rhs :
  0 < w -> in_s w lhs -> in_s w rhs ->
  WrappingAdd w lhs rhs =
    if lhs + rhs <? - 2 ^ (w - 1) then lhs + rhs + 2 ^ w
    else if 2 ^ (w - 1) <=? lhs + rhs then lhs + rhs - 2 ^ w else lhs + rhs.
Proof.
  intros Hw [L1 L2] [R1 R2]. unfold WrappingAdd.
  assert (2 ^ w = 2 * 2 ^ (w - 1)) as Hp by (rewrite <- Z.pow_succ_r by lia; f_equal; lia).
  assert (wraps w (wrapu w lhs + wrapu w rhs) = wraps w (lhs + rhs)) as ->.
  { unfold wraps, wrapu. by rewrite <- Zplus_mod. }
  assert (forall k x, wraps w (x + k * 2 ^ w) = wraps w x) as Hk.
  { intros k x. unfold wraps. by rewrite Z.mod_add by lia. }
  destruct (Z.ltb_spec (lhs + rhs) (- 2 ^ (w - 1))) as [Hlt|Hge].
  - rewrite <- (Hk 1). rewrite Z.mul_1_l. apply wraps_small; [done|]. unfold in_s. lia.
  - destruct (Z.leb_spec (2 ^ (w - 1)) (lhs + rhs)).
    + rewrite <- (Hk (-1)). rewrite wraps_small; [lia|done|]. unfold in_s. lia.
    + apply wraps_small; [done|]. unfold in_s. lia.
Qed.

(** The portable overflow test and the compiler builtin agree on every pair of operands. *)
Lemma CanAddWithoutOverflow_equiv w lhs rhs :
  0 < w -> in_s w lhs -> in_s w rhs ->
  CanAddWithoutOverflow w lhs rhs = CanAddWithoutOverflow_builtin w lhs rhs.
Proof.
  intros Hw HL HR. unfold CanAddWithoutOverflow, CanAddWithoutOverflow_builtin.
  rewrite WrappingAdd_cases by done. destruct HL as [L1 L2], HR as [R1 R2].
  assert (2 ^ w = 2 * 2 ^ (w - 1)) as Hp by (rewrite <- Z.pow_succ_r by lia; f_equal; lia).
  destruct (Z.ltb_spec (lhs + rhs) (- 2 ^ (w - 1))), (Z.leb_spec (2 ^ (w - 1)) (lhs + rhs)),
    (Z.leb_spec (- 2 ^ (w - 1)) (lhs + rhs)), (Z.ltb_spec (lhs + rhs) (2 ^ (w - 1)));
    try lia; simpl;
    destruct (Z.leb_spec 0 lhs), (Z.leb_spec 0 rhs), (Z.ltb_spec lhs 0), (Z.ltb_spec rhs 0);
    try lia; simpl; try done; (apply Z.leb_le || apply Z.leb_gt); lia.
Qed.
