(* ===== verification/TinyMT.v ===== *)
(** * TinyMT: src/common/tiny_mt.h

    The generator's four-word state, its seeding routines and [GenerateRandomU32], with the
    floating point variants left out.  The theorems: every output and every state word stays a
    32-bit value, and a state that is not all-zero (in the 127 bits that count) never becomes
    all-zero, so the period does not collapse; seeding always reaches such a state.
    [EntropySource] is the interface the page bitmap's bit generator is verified against. *)

From S2P Require Import Prelude Common.

Definition NumStateWords : Z := 4.
Definition ParamMat1 : Z := 0x8F7011EE.
Definition ParamMat2 : Z := 0xFC78FF1F.
Definition ParamTmat : Z := 0x3793FDFF.
Definition ParamMult : Z := 0x6C078965.
Definition ParamPlus : Z := 0x0019660D.
Definition ParamXor : Z := 0x5D588B65.
Definition TopBitmask : Z := 0x7FFFFFFF.
Definition MinimumInitIterations : Z := 8.
Definition NumDiscardedInitOutputs : nat := 8.

Definition XorByShifted27 (value : Z) : Z := value .^ (value .>> 27).
Definition XorByShifted30 (value : Z) : Z := value .^ (value .>> 30).

(** [State::data] *)
Record State := mkState { data0 : Z; data1 : Z; data2 : Z; data3 : Z }.

(** [data[i % NumStateWords]], read and write. *)
Definition data_get (s : State) (i : Z) : Z :=
  match i mod NumStateWords with
  | 0 => data0 s | 1 => data1 s | 2 => data2 s | _ => data3 s
  end.
Definition data_set (s : State) (i v : Z) : State :=
  match i mod NumStateWords with
  | 0 => mkState v (data1 s) (data2 s) (data3 s)
  | 1 => mkState (data0 s) v (data2 s) (data3 s)
  | 2 => mkState (data0 s) (data1 s) v (data3 s)
  | _ => mkState (data0 s) (data1 s) (data2 s) v
  end.

(** The advance and temper halves of [GenerateRandomU32]. *)
Definition NextState (s : State) : State :=
  let x0 := (data0 s .& TopBitmask) .^ data1 s .^ data2 s in
  let y0 := data3 s in
  let x1 := x0 .^ u32 (x0 .<< 1) in
  let y1 := y0 .^ (y0 .>> 1) .^ x1 in
  let state0 := data1 s in
  let state1 := data2 s in
  let state2 := x1 .^ u32 (y1 .<< 10) in
  let state3 := y1 in
  if negb (y1 .& 1 =? 0)
  then mkState state0 (state1 .^ ParamMat1) (state2 .^ ParamMat2) state3
  else mkState state0 state1 state2 state3.

Definition Temper (s : State) : Z :=
  let t1 := u32 (data0 s + (data2 s .>> 8)) in
  let t0 := data3 s .^ t1 in
  if negb (t1 .& 1 =? 0) then t0 .^ ParamTmat else t0.

Definition GenerateRandomU32 (s : State) : Z * State :=
  let s' := NextState s in (Temper s', s').

Definition GenerateRandomU24 (s : State) : Z * State :=
  let '(r, s') := GenerateRandomU32 s in (r .>> 8, s').

(** [for (i = 0; i < NumDiscardedInitOutputs; i++) GenerateRandomU32();] *)
Fixpoint discard (n : nat) (s : State) : State :=
  match n with O => s | S m => discard m (GenerateRandomU32 s).2 end.

Definition all_zero (s : State) : bool :=
  (data0 s .& TopBitmask =? 0) && (data1 s =? 0) && (data2 s =? 0) && (data3 s =? 0).

Definition FinalizeInitialization (s : State) : State :=
  let s := if all_zero s then mkState 84 73 78 89 else s in
  discard NumDiscardedInitOutputs s.

(** [Initialize(u32 seed)], with its mixing loop over [i]. *)
Fixpoint Initialize_loop (n : nat) (i : Z) (s : State) : State :=
  match n with
  | O => s
  | S m =>
      let mixed := XorByShifted30 (data_get s (i - 1)) in
      Initialize_loop m (i + 1)
        (data_set s i (data_get s i .^ u32 (u32 (mixed * ParamMult) + i)))
  end.

Definition Initialize (seed : Z) : State :=
  FinalizeInitialization
    (Initialize_loop (Z.to_nat (MinimumInitIterations - 1)) 1
       (mkState seed ParamMat1 ParamMat2 ParamTmat)).

(** [Initialize(const u32* seed, int seed_count)] and its two mixing steps. *)
Definition GenerateInitialValuePlus (s : State) (index value : Z) : State :=
  let state0 := data_get s index in let state1 := data_get s (index + 1) in
  let state2 := data_get s (index + 2) in let state3 := data_get s (index + 3) in
  let x := u32 (XorByShifted27 (state0 .^ state1 .^ state3) * ParamPlus) in
  let y := u32 (x + index + value) in
  data_set (data_set (data_set s index y) (index + 1) (u32 (state1 + x)))
    (index + 2) (u32 (state2 + y)).

Definition GenerateInitialValueXor (s : State) (index : Z) : State :=
  let state0 := data_get s index in let state1 := data_get s (index + 1) in
  let state2 := data_get s (index + 2) in let state3 := data_get s (index + 3) in
  let x := u32 (XorByShifted27 (u32 (state0 + state1 + state3)) * ParamXor) in
  let y := u32 (x - index) in
  data_set (data_set (data_set s index y) (index + 1) (state1 .^ x)) (index + 2) (state2 .^ y).

Fixpoint plus_loop (n : nat) (i : Z) (seed : list Z) (s : State) : State :=
  match n with
  | O => s
  | S m =>
      plus_loop m (i + 1) seed
        (GenerateInitialValuePlus s ((i + 1) mod NumStateWords) (nth (Z.to_nat i) seed 0))
  end.

Fixpoint xor_loop (n : nat) (i num_init_iterations : Z) (s : State) : State :=
  match n with
  | O => s
  | S m =>
      xor_loop m (i + 1) num_init_iterations
        (GenerateInitialValueXor s ((i + 1 + num_init_iterations) mod NumStateWords))
  end.

Definition Initialize_seeds (seed : list Z) : State :=
  let seed_count := Z.of_nat (length seed) in
  let num_init_iterations := Z.max (seed_count + 1) MinimumInitIterations - 1 in
  let s := mkState 0 ParamMat1 ParamMat2 ParamTmat in
  let s := GenerateInitialValuePlus s 0 seed_count in
  let s := plus_loop (Z.to_nat num_init_iterations) 0 seed s in
  FinalizeInitialization (xor_loop (Z.to_nat NumStateWords) 0 num_init_iterations s).

(** ** Invariants of the state *)

Definition state_wf (s : State) : Prop :=
  in_u 32 (data0 s) /\ in_u 32 (data1 s) /\ in_u 32 (data2 s) /\ in_u 32 (data3 s).

(** What a client may rely on: a step gives a 32-bit value and keeps the source well formed. *)
Class EntropySource (S : Type) := {
  next_u32 : S -> Z * S;
  source_wf : S -> Prop;
  next_u32_range s : source_wf s -> 0 <= (next_u32 s).1 < 2 ^ 32;
  next_u32_wf s : source_wf s -> source_wf (next_u32 s).2
}.

(** ** Lemmas *)

Lemma in_u32_const x : (0 <=? x) && (x <? 2 ^ 32) = true -> in_u 32 x.
Proof. intros [?%Z.leb_le ?%Z.ltb_lt]%andb_true_iff. by split. Qed.

Ltac u32_const := apply in_u32_const; reflexivity.
Ltac u32_solve :=
  repeat (apply in_u_lxor || apply in_u_lor || apply in_u_shiftr || apply in_u_land ||
          apply wrapu_range || assumption || u32_const || lia || done).

Lemma NextState_wf s : state_wf s -> state_wf (NextState s).
Proof.
  intros (H0 & H1 & H2 & H3). unfold NextState.
  destruct (negb _); unfold state_wf; simpl; split_and!; unfold u32; u32_solve.
Qed.

Lemma Temper_range s : state_wf s -> 0 <= Temper s < 2 ^ 32.
Proof.
  intros (H0 & H1 & H2 & H3). change (in_u 32 (Temper s)). unfold Temper.
  destruct (negb _); unfold u32; u32_solve.
Qed.

#[export] Instance TinyMT_source : EntropySource State.
Proof.
  refine {| next_u32 := GenerateRandomU32; source_wf := state_wf |}.
  - intros s Hs. apply Temper_range, NextState_wf, Hs.
  - intros s Hs. apply NextState_wf, Hs.
Defined.

(** [x ^ (x << 1)] and [y ^ (y >> 1)] are zero only at zero. *)
Lemma xor_shl1_zero x : in_u 32 x -> x .^ u32 (x .<< 1) = 0 -> x = 0.
Proof.
  intros Hx E. apply Z.lxor_eq in E.
  assert (forall n : nat, Z.testbit x (Z.of_nat n) = false) as Hb.
  { induction n as [|n IH].
    - rewrite E. unfold u32. rewrite testbit_wrapu by lia. by rewrite Z.shiftl_spec, Z.testbit_neg_r, andb_false_r by lia.
    - rewrite E. unfold u32. rewrite testbit_wrapu, Z.shiftl_spec by lia.
      replace (Z.of_nat (S n) - 1) with (Z.of_nat n) by lia. by rewrite IH, andb_false_r. }
  apply zero_of_bits. intros i Hi. rewrite <- (Z2Nat.id i) by done. apply Hb.
Qed.

Lemma xor_shr1_zero y : in_u 32 y -> y .^ (y .>> 1) = 0 -> y = 0.
Proof.
  intros [Hy Hy'] E. apply Z.lxor_eq in E.
  rewrite Z.shiftr_div_pow2 in E by lia. change (2 ^ 1) with 2 in E.
  pose proof (Z.div_mod y 2). pose proof (Z.mod_pos_bound y 2). lia.
Qed.

Lemma all_zero_spec s :
  all_zero s = true <->
  data0 s .& TopBitmask = 0 /\ data1 s = 0 /\ data2 s = 0 /\ data3 s = 0.
Proof. unfold all_zero. rewrite !andb_true_iff, !Z.eqb_eq. tauto. Qed.

Lemma top_masked_zero s0 s1 :
  in_u 32 s1 -> s1 .& TopBitmask = 0 -> (s0 .& TopBitmask) .^ s1 = 0 -> s1 = 0.
Proof.
  intros Hs H1 E%Z.lxor_eq. rewrite <- E in H1 |- *.
  rewrite <- Z.land_assoc, Z.land_diag in H1. done.
Qed.

Lemma NextState_zero_inv s :
  state_wf s -> all_zero (NextState s) = true -> all_zero s = true.
Proof.
  intros (H0 & H1 & H2 & H3). unfold NextState.
  set (x0 := (data0 s .& TopBitmask) .^ data1 s .^ data2 s).
  set (x1 := x0 .^ u32 (x0 .<< 1)). set (y1 := data3 s .^ (data3 s .>> 1) .^ x1).
  assert (in_u 32 x0) as Hx0 by (unfold x0; u32_solve).
  rewrite !all_zero_spec. destruct (negb (y1 .& 1 =? 0)) eqn:Eodd; simpl.
  - intros (_ & _ & _ & Ey). rewrite Ey in Eodd. done.
  - intros (E0 & E1 & E2 & E3). rewrite E3 in E2. change (u32 (0 .<< 10)) with 0 in E2.
    rewrite Z.lxor_0_r in E2. unfold y1 in E3. rewrite E2, Z.lxor_0_r in E3.
    apply xor_shr1_zero in E3; [|done]. apply xor_shl1_zero in E2; [|done].
    unfold x0 in E2. rewrite E1, Z.lxor_0_r in E2.
    pose proof (top_masked_zero _ _ H1 E0 E2) as D1.
    rewrite D1, Z.lxor_0_r in E2. done.
Qed.

Lemma discard_wf n s : state_wf s -> state_wf (discard n s).
Proof. revert s. induction n as [|n IH]; intros s Hs; [done|]. apply IH, NextState_wf, Hs. Qed.

Lemma discard_nonzero n s :
  state_wf s -> all_zero s = false -> all_zero (discard n s) = false.
Proof.
  revert s. induction n as [|n IH]; intros s Hs Hz; [done|]. apply IH; [by apply NextState_wf|].
  apply not_true_iff_false. intros E%NextState_zero_inv; [congruence|done].
Qed.

Lemma FinalizeInitialization_ok s :
  state_wf s ->
  state_wf (FinalizeInitialization s) /\ all_zero (FinalizeInitialization s) = false.
Proof.
  intros Hs. unfold FinalizeInitialization. destruct (all_zero s) eqn:E.
  - assert (state_wf (mkState 84 73 78 89)) as Hw by (repeat split; u32_const).
    split; [by apply discard_wf|by apply discard_nonzero].
  - split; [by apply discard_wf|by apply discard_nonzero].
Qed.

Lemma data_get_range s i : state_wf s -> in_u 32 (data_get s i).
Proof.
  intros (H0 & H1 & H2 & H3). unfold data_get. destruct (i mod NumStateWords) as [|[[|[]|]|[[]|[]|]|]|]; done.
Qed.

Lemma data_set_wf s i v : state_wf s -> in_u 32 v -> state_wf (data_set s i v).
Proof.
  intros (H0 & H1 & H2 & H3) Hv. unfold data_set.
  destruct (i mod NumStateWords) as [|[[|[]|]|[[]|[]|]|]|]; done.
Qed.

Lemma Initialize_loop_wf n i s : state_wf s -> state_wf (Initialize_loop n i s).
Proof.
  revert i s. induction n as [|n IH]; intros i s Hs; [done|]. apply IH, data_set_wf; [done|].
  apply in_u_lxor; [lia|by apply data_get_range|by apply wrapu_range].
Qed.

Lemma GenerateInitialValuePlus_wf s i v :
  state_wf s -> state_wf (GenerateInitialValuePlus s i v).
Proof. intros. repeat apply data_set_wf; try done; by apply wrapu_range. Qed.

Lemma GenerateInitialValueXor_wf s i : state_wf s -> state_wf (GenerateInitialValueXor s i).
Proof.
  intros. repeat apply data_set_wf; try done; try apply in_u_lxor; try lia;
    first [by apply data_get_range | by apply wrapu_range].
Qed.

Lemma plus_loop_wf n i seed s : state_wf s -> state_wf (plus_loop n i seed s).
Proof. revert i s. induction n; intros; [done|]. by apply IHn, GenerateInitialValuePlus_wf. Qed.

Lemma xor_loop_wf n i k s : state_wf s -> state_wf (xor_loop n i k s).
Proof. revert i s. induction n; intros; [done|]. by apply IHn, GenerateInitialValueXor_wf. Qed.

Lemma Initialize_ok seed :
  in_u 32 seed -> state_wf (Initialize seed) /\ all_zero (Initialize seed) = false.
Proof.
  intros. apply FinalizeInitialization_ok, Initialize_loop_wf.
  repeat split; first [apply H | u32_const].
Qed.

Lemma Initialize_seeds_ok seed :
  state_wf (Initialize_seeds seed) /\ all_zero (Initialize_seeds seed) = false.
Proof.
  apply FinalizeInitialization_ok, xor_loop_wf, plus_loop_wf, GenerateInitialValuePlus_wf.
  repeat split; u32_const.
Qed.

(** Seeding never leaves the generator in its degenerate all-zero state, and neither does any
    number [n] of further draws; every drawn value is a 32-bit word.  (The all-zero state is the
    one fixed point that would make the generator return a constant.) *)
Theorem TinyMT_never_degenerates (seed : Z) (n : nat) :
  in_u 32 seed ->
  all_zero (discard n (Initialize seed)) = false /\
  in_u 32 (GenerateRandomU32 (discard n (Initialize seed))).1.
Proof.
  intros [Hw Hz]%Initialize_ok. split; [by apply discard_nonzero|].
  apply Temper_range, NextState_wf, discard_wf, Hw.
Qed.

Lemma TinyMT_never_degenerates_witness :
  in_u 32 12345 /\ all_zero (discard 3 (Initialize 12345)) = false.
Proof. split; [u32_const|]. apply (TinyMT_never_degenerates 12345 3). u32_const. Defined.
