(* ===== verification/KPageBitmap.v ===== *)
(** * KPageBitmap: src/core/hle/kernel/k_page_bitmap.h

    The hierarchical bitmap of free blocks.  [m_bit_storages[d]] and [m_end_storages[d]] delimit
    the slice of words of depth [d]; the model keeps the slice itself, so the storage pointer that
    [Initialize] advances is the list of words not handed out yet.  A word of depth [d+1] is
    summarised by one bit of depth [d], set exactly when the word is not zero. *)

From S2P Require Import Prelude Common TinyMT.

(** ** KPageBitmap::RandomBitGenerator, over any 32-bit entropy source *)

Section RandomBits.
Context {S : Type} {ES : EntropySource S}.

Record RandomBitGenerator := mkRng {
  m_rng : S;
  m_entropy : Z;
  m_bits_available : Z
}.

Definition RefreshEntropy (g : RandomBitGenerator) : RandomBitGenerator :=
  let '(e, r) := next_u32 (m_rng g) in mkRng r e 32.

Definition GenerateRandomBit (g : RandomBitGenerator) : bool * RandomBitGenerator :=
  let g := if m_bits_available g =? 0 then RefreshEntropy g else g in
  (negb (m_entropy g .& 1 =? 0),
   mkRng (m_rng g) (m_entropy g .>> 1) (u32 (m_bits_available g - 1))).

(** One iteration per value of [cur_num_bits]: 32, 16, 8, 4, 2, 1. *)
Fixpoint SelectRandomBit_loop (fuel : nat) (cur_num_bits bitmap selected : Z)
    (g : RandomBitGenerator) : outcome (Z * RandomBitGenerator) :=
  if cur_num_bits =? 0 then mret (selected, g)
  else match fuel with
  | O => Undef
  | Datatypes.S fuel' =>
      let high := bitmap .>> cur_num_bits in
      let low := bitmap .& notu 64 (u64 (0xFFFFFFFFFFFFFFFF .<< cur_num_bits)) in
      let '(choose_high, g') :=
        if negb (high =? 0)
        then if low =? 0 then (true, g) else GenerateRandomBit g
        else (false, g) in
      if choose_high : bool
      then SelectRandomBit_loop fuel' (cur_num_bits / 2) high (u64 (selected + cur_num_bits)) g'
      else SelectRandomBit_loop fuel' (cur_num_bits / 2) low selected g'
  end.

Definition SelectRandomBit (bitmap : Z) (g : RandomBitGenerator) :
    outcome (Z * RandomBitGenerator) :=
  SelectRandomBit_loop 6 (64 / 2) bitmap 0 g.

(** Every iteration takes at least one bit, so [num_bits] iterations are enough.  Taking all 32 bits at once shifts the entropy, a [u32], by its width, which C++ leaves undefined; the shift is 0 here, and
    whatever the entropy is afterwards, none of its bits is available and it is replaced before it is used again. *)
Fixpoint GenerateRandomBits_loop (fuel : nat) (num_bits result : Z) (g : RandomBitGenerator) :
    outcome (Z * RandomBitGenerator) :=
  if num_bits <=? 0 then mret (result, g)
  else match fuel with
  | O => Undef
  | Datatypes.S fuel' =>
      let g := if m_bits_available g =? 0 then RefreshEntropy g else g in
      let cur_bits := Z.min num_bits (m_bits_available g) in
      m ← shl64 1 cur_bits;
      let mask := u64 (m - 1) in
      r ← shl64 result cur_bits;
      let result := r .| (m_entropy g .& mask) in
      let g := mkRng (m_rng g) (m_entropy g .>> cur_bits) (u32 (m_bits_available g - cur_bits)) in
      GenerateRandomBits_loop fuel' (num_bits - cur_bits) result g
  end.

Definition GenerateRandomBits (num_bits : Z) (g : RandomBitGenerator) :
    outcome (Z * RandomBitGenerator) :=
  GenerateRandomBits_loop (Z.to_nat num_bits) num_bits 0 g.

Definition GenerateRandom (max : Z) (g : RandomBitGenerator) :
    outcome (Z * RandomBitGenerator) :=
  let bits_needed := u64 (1 + u64 (64 - countl_zero 64 max)) in
  '(rnd, g') ← GenerateRandomBits (u32 bits_needed) g;
  q ← udiv rnd max;
  mret (u64 (rnd - u64 (q * max)), g').

(** ** KPageBitmap *)

Definition MaxDepth : nat := 4.

Record KPageBitmap := mkBitmap {
  m_bit_storages : list (list Z);
  m_gen : RandomBitGenerator;
  m_num_bits : Z;
  m_used_depths : nat
}.

Definition GetNumBits (b : KPageBitmap) : Z := m_num_bits b.
Definition GetHighestDepthIndex (b : KPageBitmap) : Z := Z.of_nat (m_used_depths b) - 1.

(** [GetRequiredDepth]: the loop divides by 64 at least once, so 64 iterations bound it. *)
Fixpoint GetRequiredDepth_loop (fuel : nat) (region_size : Z) (depth : nat) : nat :=
  match fuel with
  | O => depth
  | Datatypes.S fuel' =>
      let region_size := region_size / 64 in
      let depth := Datatypes.S depth in
      if region_size =? 0 then depth else GetRequiredDepth_loop fuel' region_size depth
  end.
Definition GetRequiredDepth (region_size : Z) : nat := GetRequiredDepth_loop 64 region_size 0.

(** [AlignUp(size, 64) / 64]: the words one depth needs. *)
Definition words_for (size : Z) : Z := AlignUp 64 size 64 / 64.

(** The loop of [Initialize], from depth [n - 1] to 0: take a slice of the storage for the depth
    and go on with the number of words taken. *)
Fixpoint Initialize_loop (n : nat) (storage : list Z) (size : Z) (acc : list (list Z)) :
    outcome (list (list Z) * list Z) :=
  match n with
  | O => mret (acc, storage)
  | Datatypes.S n' =>
      let size := words_for size in
      if Z.of_nat (length storage) <? size then Undef
      else Initialize_loop n' (drop (Z.to_nat size) storage) size
             (take (Z.to_nat size) storage :: acc)
  end.

Definition Initialize (storage : list Z) (size : Z) (g : RandomBitGenerator) :
    outcome (KPageBitmap * list Z) :=
  let used := GetRequiredDepth size in
  ASSERT (bool_decide (used <= MaxDepth)%nat);;
  '(sts, rest) ← Initialize_loop used storage size [];
  mret (mkBitmap sts g 0 used, rest).

Fixpoint CalculateManagementOverheadSize_loop (n : nat) (region_size overhead_bits : Z) : Z :=
  match n with
  | O => overhead_bits
  | Datatypes.S n' =>
      let region_size := words_for region_size in
      CalculateManagementOverheadSize_loop n' region_size (overhead_bits + region_size)
  end.
Definition CalculateManagementOverheadSize (region_size : Z) : Z :=
  CalculateManagementOverheadSize_loop (GetRequiredDepth region_size) region_size 0 * 8.

(** One word of a depth, read and written. *)
Definition get_word (sts : list (list Z)) (depth : nat) (ind : Z) : outcome Z :=
  row ← arr_get sts (Z.of_nat depth); arr_get row ind.
Definition set_word (sts : list (list Z)) (depth : nat) (ind v : Z) : outcome (list (list Z)) :=
  row ← arr_get sts (Z.of_nat depth);
  row' ← arr_set row ind v;
  arr_set sts (Z.of_nat depth) row'.

(** [SetBit(s32 depth, size_t offset)]; [n] is [depth + 1]. *)
Fixpoint SetBit_depth (n : nat) (sts : list (list Z)) (offset : Z) : outcome (list (list Z)) :=
  match n with
  | O => mret sts
  | Datatypes.S depth =>
      let ind := offset / 64 in
      let which := offset mod 64 in
      let mask := u64 (1 .<< which) in
      v ← get_word sts depth ind;
      ASSERT (v .& mask =? 0);;
      sts ← set_word sts depth ind (v .| mask);
      if negb (v =? 0) then mret sts else SetBit_depth depth sts ind
  end.

(** [ClearBit(s32 depth, size_t offset)]; [n] is [depth + 1]. *)
Fixpoint ClearBit_depth (n : nat) (sts : list (list Z)) (offset : Z) : outcome (list (list Z)) :=
  match n with
  | O => mret sts
  | Datatypes.S depth =>
      let ind := offset / 64 in
      let which := offset mod 64 in
      let mask := u64 (1 .<< which) in
      v ← get_word sts depth ind;
      ASSERT (negb (v .& mask =? 0));;
      let v := v .& notu 64 mask in
      sts ← set_word sts depth ind v;
      if negb (v =? 0) then mret sts else ClearBit_depth depth sts ind
  end.

Definition with_storages (b : KPageBitmap) (sts : list (list Z)) (num : Z) : KPageBitmap :=
  mkBitmap sts (m_gen b) num (m_used_depths b).

Definition SetBit (b : KPageBitmap) (offset : Z) : outcome KPageBitmap :=
  sts ← SetBit_depth (m_used_depths b) (m_bit_storages b) offset;
  mret (with_storages b sts (u64 (m_num_bits b + 1))).

Definition ClearBit (b : KPageBitmap) (offset : Z) : outcome KPageBitmap :=
  sts ← ClearBit_depth (m_used_depths b) (m_bit_storages b) offset;
  mret (with_storages b sts (u64 (m_num_bits b - 1))).

(** The two [do ... while] loops of [FindFreeBlock]; [n] depths are left, [depth] is current. *)
Fixpoint FindFreeBlock_loop (random : bool) (n depth : nat) (sts : list (list Z)) (offset : Z)
    (g : RandomBitGenerator) : outcome (Z * RandomBitGenerator) :=
  match n with
  | O => mret (offset, g)
  | Datatypes.S n' =>
      v ← get_word sts depth offset;
      if v =? 0 then ASSERT (bool_decide (depth = 0%nat));; mret (-1, g)
      else
        '(bit, g') ← (if random then SelectRandomBit v g else mret (countr_zero 64 v, g));
        FindFreeBlock_loop random n' (Datatypes.S depth) sts (u64 (offset * 64 + bit)) g'
  end.

Definition FindFreeBlock (b : KPageBitmap) (random : bool) : outcome (Z * KPageBitmap) :=
  '(r, g) ← FindFreeBlock_loop random (Nat.max 1 (m_used_depths b)) 0 (m_bit_storages b) 0 (m_gen b);
  mret (r, mkBitmap (m_bit_storages b) g (m_num_bits b) (m_used_depths b)).

(** The inner loop of [FindFreeRange] over the options of one word. *)
Fixpoint FindFreeRange_options (n : nat) (option count free_mask storage storage_index : Z)
    (num_valid_options chosen_offset : Z) (g : RandomBitGenerator) :
    outcome (Z * Z * RandomBitGenerator) :=
  match n with
  | O => mret (num_valid_options, chosen_offset, g)
  | Datatypes.S n' =>
      '(nv, ch, g) ←
        (if storage .& free_mask =? free_mask then
           let nv := num_valid_options + 1 in
           '(pick, g) ← (if nv =? 1 then mret (true, g)
                         else '(r, g) ← GenerateRandom nv g; mret (r =? 0, g));
           mret (nv, (if pick : bool then storage_index * 64 + option * count
                      else chosen_offset), g)
         else mret (num_valid_options, chosen_offset, g));
      FindFreeRange_options n' (option + 1) count free_mask (storage .>> count) storage_index
        nv ch g
  end.

Fixpoint FindFreeRange_words (words : list Z) (count free_mask options_per_storage : Z)
    (storage_index num_valid_options chosen_offset : Z) (g : RandomBitGenerator) :
    outcome (Z * Z * RandomBitGenerator) :=
  match words with
  | [] => mret (num_valid_options, chosen_offset, g)
  | w :: ws =>
      '(nv, ch, g) ← FindFreeRange_options (Z.to_nat options_per_storage) 0 count free_mask w
                       storage_index num_valid_options chosen_offset g;
      FindFreeRange_words ws count free_mask options_per_storage (storage_index + 1) nv ch g
  end.

Definition FindFreeRange (b : KPageBitmap) (count : Z) : outcome (Z * KPageBitmap) :=
  words ← arr_get (m_bit_storages b) (Z.of_nat (m_used_depths b) - 1);
  if negb ((0 <? Z.of_nat (length words)) && (count <=? 64)) then mret (-1, b)
  else
    q ← udiv 64 count;
    let options_per_storage := Z.max q 1 in
    m ← shl64 1 count;
    let free_mask := u64 (m - 1) in
    '(_, ch, g) ← FindFreeRange_words words count free_mask options_per_storage 0 0 (-1) (m_gen b);
    mret (ch, mkBitmap (m_bit_storages b) g (m_num_bits b) (m_used_depths b)).

(** The two [do ... while] loops of the long branch of [ClearRange].  Every iteration reads or
    writes the next word, so [fuel] beyond the number of words is never used up. *)
Fixpoint ClearRange_check (fuel : nat) (sts : list (list Z)) (depth : nat)
    (bit_ind remaining : Z) : outcome bool :=
  match fuel with
  | O => Undef
  | Datatypes.S fuel' =>
      w ← get_word sts depth bit_ind;
      if negb (w =? u64 (-1)) then mret false
      else
        let remaining := u64 (remaining - 64) in
        if 0 <? remaining then ClearRange_check fuel' sts depth (bit_ind + 1) remaining
        else mret true
  end.
Fixpoint ClearRange_clear (fuel : nat) (sts : list (list Z)) (depth : nat)
    (bit_ind remaining : Z) : outcome (list (list Z)) :=
  match fuel with
  | O => Undef
  | Datatypes.S fuel' =>
      sts ← set_word sts depth bit_ind 0;
      sts ← ClearBit_depth depth sts bit_ind;
      let remaining := u64 (remaining - 64) in
      if 0 <? remaining then ClearRange_clear fuel' sts depth (bit_ind + 1) remaining
      else mret sts
  end.

Definition ClearRange (b : KPageBitmap) (offset count : Z) : outcome (bool * KPageBitmap) :=
  let sts := m_bit_storages b in
  match m_used_depths b with
  | O => Undef
  | Datatypes.S depth =>
      let bit_ind := offset / 64 in
      if count <? 64 then
        let shift := offset mod 64 in
        ASSERT (shift + count <=? 64);;
        let mask := u64 (u64 ((1 .<< count) - 1) .<< shift) in
        v ← get_word sts depth bit_ind;
        if negb (v .& mask =? mask) then mret (false, b)
        else
          let v := v .& notu 64 mask in
          sts ← set_word sts depth bit_ind v;
          sts ← (if v =? 0 then ClearBit_depth depth sts bit_ind else mret sts);
          mret (true, with_storages b sts (u64 (m_num_bits b - count)))
      else
        ASSERT (offset mod 64 =? 0);;
        ASSERT (count mod 64 =? 0);;
        row ← arr_get sts (Z.of_nat depth);
        let fuel := Datatypes.S (length row) in
        all_set ← ClearRange_check fuel sts depth bit_ind count;
        if negb all_set then mret (false, b)
        else
          sts ← ClearRange_clear fuel sts depth bit_ind count;
          mret (true, with_storages b sts (u64 (m_num_bits b - count)))
  end.

(** ** Properties of the random bit generator *)

Definition rng_wf (g : RandomBitGenerator) : Prop :=
  source_wf (m_rng g) /\ in_u 32 (m_entropy g) /\ 0 <= m_bits_available g <= 32.

Lemma mkRng_wf r e a : source_wf r -> in_u 32 e -> 0 <= a <= 32 -> rng_wf (mkRng r e a).
Proof. intros. split; [done|by split]. Qed.

Lemma refresh_wf g :
  rng_wf g ->
  let g' := if m_bits_available g =? 0 then RefreshEntropy g else g in
  rng_wf g' /\ 1 <= m_bits_available g'.
Proof.
  intros (H1 & H2 & H3). destruct (Z.eqb_spec (m_bits_available g) 0) as [E|E]; simpl.
  - unfold RefreshEntropy. pose proof (next_u32_range _ H1). pose proof (next_u32_wf _ H1).
    destruct (next_u32 (m_rng g)) as [e r]. simpl in *. split; [by apply mkRng_wf|lia].
  - split; [done|lia].
Qed.

Lemma GenerateRandomBit_wf g : rng_wf g -> rng_wf (GenerateRandomBit g).2.
Proof.
  intros H. apply refresh_wf in H as [(H1 & H2 & H3) H4]. unfold GenerateRandomBit.
  set (g' := if m_bits_available g =? 0 then RefreshEntropy g else g) in *.
  apply mkRng_wf; [done|by apply in_u_shiftr|]. rewrite u32_small by lia. lia.
Qed.

Lemma select_mask k :
  0 <= k < 64 -> notu 64 (u64 (0xFFFFFFFFFFFFFFFF .<< k)) = Z.ones k.
Proof.
  intros Hk. apply Z.bits_inj'. intros i Hi.
  change 0xFFFFFFFFFFFFFFFF with (Z.ones 64).
  rewrite testbit_notu, testbit_ones by lia. unfold u64. rewrite testbit_wrapu by lia.
  rewrite Z.shiftl_spec, testbit_ones by lia.
  destruct (Z.leb_spec 0 i), (Z.ltb_spec i 64), (Z.ltb_spec i k), (Z.leb_spec 0 (i - k)),
    (Z.ltb_spec (i - k) 64); simpl; done || lia.
Qed.

Lemma SelectRandomBit_loop_spec (k : nat) bitmap selected g :
  (k <= 6)%nat -> rng_wf g -> 0 < bitmap < 2 ^ 2 ^ Z.of_nat k -> 0 <= selected ->
  selected + 2 ^ Z.of_nat k <= 64 ->
  exists r g', SelectRandomBit_loop k (2 ^ Z.of_nat k / 2) bitmap selected g = mret (r, g') /\
    selected <= r < selected + 2 ^ Z.of_nat k /\ Z.testbit bitmap (r - selected) = true /\
    rng_wf g'.
Proof.
  revert bitmap selected g. induction k as [|k IH]; intros bm sel g Hk Hg Hbm Hs Hs'.
  - exists sel, g. simpl. split_and!; try done; try lia.
    change (2 ^ 2 ^ Z.of_nat 0) with 2 in Hbm. replace bm with 1 by lia. by rewrite Z.sub_diag.
  - rewrite Nat2Z.inj_succ, Z.pow_succ_r in * by lia.
    set (c := 2 ^ Z.of_nat k) in *.
    assert (0 < c <= 32) as Hc.
    { unfold c. split; [apply Z.pow_pos_nonneg; lia|].
      change 32 with (2 ^ 5). apply Z.pow_le_mono_r; lia. }
    replace (2 * c / 2) with c by (rewrite Z.mul_comm, Z.div_mul; lia). cbn [SelectRandomBit_loop].
    destruct (Z.eqb_spec c 0) as [|_]; [lia|]. rewrite select_mask by lia.
    assert (2 ^ (2 * c) = 2 ^ c * 2 ^ c) as Hpow by (rewrite <- Z.pow_add_r by lia; f_equal; lia).
    pose proof (Z.pow_pos_nonneg 2 c ltac:(lia) ltac:(lia)) as Hpc.
    assert (0 <= bm .>> c < 2 ^ c) as Hhi.
    { split; [apply Z.shiftr_nonneg; lia|]. rewrite Z.shiftr_div_pow2 by lia.
      apply Z.div_lt_upper_bound; lia. }
    rewrite Z.land_ones by lia.
    pose proof (Z.mod_pos_bound bm (2 ^ c) Hpc) as Hlo.
    (* the two continuations *)
    assert (forall g', rng_wf g' -> bm .>> c <> 0 ->
      exists r g'', SelectRandomBit_loop k (c / 2) (bm .>> c) (u64 (sel + c)) g' = mret (r, g'') /\
        sel <= r < sel + 2 * c /\ Z.testbit bm (r - sel) = true /\ rng_wf g'') as High.
    { intros g' Hg' Hne. rewrite u64_small by lia.
      destruct (IH (bm .>> c) (sel + c) g') as (r & g'' & E & R & B & G); [lia|done|lia|lia|lia|].
      exists r, g''. split_and!; [done|lia|lia| |done].
      rewrite Z.shiftr_spec in B by lia. by replace (r - sel) with (r - (sel + c) + c) by lia. }
    assert (forall g', rng_wf g' -> bm mod 2 ^ c <> 0 ->
      exists r g'', SelectRandomBit_loop k (c / 2) (bm mod 2 ^ c) sel g' = mret (r, g'') /\
        sel <= r < sel + 2 * c /\ Z.testbit bm (r - sel) = true /\ rng_wf g'') as Low.
    { intros g' Hg' Hne.
      destruct (IH (bm mod 2 ^ c) sel g') as (r & g'' & E & R & B & G); [lia|done|lia|lia|lia|].
      exists r, g''. split_and!; [done|lia|lia| |done].
      rewrite Z.mod_pow2_bits_low in B by lia. done. }
    pose proof (GenerateRandomBit_wf g Hg) as Hg2.
    destruct (Z.eqb_spec (bm .>> c) 0) as [Ehi|Ehi]; simpl negb; cbv iota.
    + apply Low; [done|]. intros E. rewrite Z.shiftr_div_pow2 in Ehi by lia.
      pose proof (Z.div_mod bm (2 ^ c)). lia.
    + destruct (Z.eqb_spec (bm mod 2 ^ c) 0) as [Elo|Elo]; [by apply High|].
      destruct (GenerateRandomBit g) as [[] g']; [by apply High|by apply Low].
Qed.

Lemma SelectRandomBit_spec v g :
  rng_wf g -> 0 < v < 2 ^ 64 ->
  exists i g', SelectRandomBit v g = mret (i, g') /\ 0 <= i < 64 /\
    Z.testbit v i = true /\ rng_wf g'.
Proof.
  intros Hg Hv. destruct (SelectRandomBit_loop_spec 6 v 0 g) as (i & g' & E & R & B & G);
    [lia|done|done|lia|done|].
  exists i, g'. rewrite Z.sub_0_r in B. split_and!; try done; lia.
Qed.

Lemma GenerateRandomBits_loop_spec fuel n result g :
  rng_wf g -> in_u 64 result -> n <= Z.of_nat fuel ->
  exists r g', GenerateRandomBits_loop fuel n result g = mret (r, g') /\ in_u 64 r /\ rng_wf g'.
Proof.
  revert n result g. induction fuel as [|fuel IH]; intros n result g Hg Hr Hn;
    cbn [GenerateRandomBits_loop]; destruct (Z.leb_spec n 0) as [Hle|Hgt]; try lia;
    try (exists result, g; done).
  apply refresh_wf in Hg as [Hg Ha].
  set (g' := if m_bits_available g =? 0 then RefreshEntropy g else g) in *.
  destruct Hg as (G1 & G2 & G3).
  set (c := Z.min n (m_bits_available g')).
  assert (1 <= c <= 32) as Hc by lia.
  rewrite shl64_ok by lia. ostep. rewrite shl64_ok by lia. ostep.
  apply IH; [|..|lia].
  - apply mkRng_wf; [done|apply in_u_shiftr; [lia|lia|done]|]. rewrite u32_small by lia. lia.
  - apply in_u_lor; [lia|apply u64_range|].
    apply in_u_land; [lia| |apply u64_range]. destruct G2. split; lia.
Qed.

(** [GenerateRandom] always returns, with a value below its bound. *)
Lemma GenerateRandom_spec max g :
  rng_wf g -> 0 < max < 2 ^ 64 ->
  exists r g', GenerateRandom max g = mret (r, g') /\ 0 <= r < max /\ rng_wf g'.
Proof.
  intros Hg Hm. unfold GenerateRandom, GenerateRandomBits.
  destruct (GenerateRandomBits_loop_spec
    (Z.to_nat (u32 (u64 (1 + u64 (64 - countl_zero 64 max)))))
    (u32 (u64 (1 + u64 (64 - countl_zero 64 max)))) 0 g) as (r & g' & E & R & G);
    [done|done|pose proof (u32_range (u64 (1 + u64 (64 - countl_zero 64 max)))); lia|].
  rewrite E. ostep. unfold udiv. destruct (Z.eqb_spec max 0); [lia|]. ostep.
  exists (r mod max), g'. split_and!; [|apply Z.mod_pos_bound; lia..|done].
  destruct R as [R1 R2]. pose proof (Z.div_mod r max ltac:(lia)).
  pose proof (Z.mod_pos_bound r max ltac:(lia)). pose proof (Z.div_pos r max ltac:(lia) ltac:(lia)).
  do 2 f_equal. rewrite (u64_small (r / max * max)) by nia. rewrite u64_small by nia. nia.
Qed.

(** ** The abstract view: which blocks are free *)

(** Word [i] of a row and row [d] of the storages, zero or empty outside. *)
Definition word_at (row : list Z) (i : Z) : Z := if i <? 0 then 0 else default 0 (row !! Z.to_nat i).
Definition row_at (sts : list (list Z)) (d : nat) : list Z := default [] (sts !! d).
Definition bit_at (row : list Z) (i : Z) : bool := Z.testbit (word_at row (i / 64)) (i mod 64).
Definition len_at (sts : list (list Z)) (d : nat) : Z := Z.of_nat (length (row_at sts d)).

(** Bit [i] of depth [d] summarises word [i] of depth [d + 1]. *)
Definition linked (sts : list (list Z)) (d : nat) : Prop :=
  forall i, 0 <= i -> bit_at (row_at sts d) i = negb (word_at (row_at sts (Datatypes.S d)) i =? 0).

Definition words_ok (sts : list (list Z)) : Prop :=
  forall d i, in_u 64 (word_at (row_at sts d) i).

Definition shape_ok (sts : list (list Z)) : Prop :=
  len_at sts 0 = 1 /\
  forall d, (Datatypes.S d < length sts)%nat -> len_at sts (Datatypes.S d) <= 64 * len_at sts d.

(** The free blocks are the set bits of the deepest row. *)
Definition bottom (b : KPageBitmap) : list Z := row_at (m_bit_storages b) (m_used_depths b - 1).
Definition is_free (b : KPageBitmap) (i : Z) : bool := bit_at (bottom b) i.
Definition capacity (b : KPageBitmap) : Z := 64 * Z.of_nat (length (bottom b)).

(** The number of [i < n] with [f i]. *)
Fixpoint count_true (f : Z -> bool) (n : nat) : Z :=
  match n with O => 0 | Datatypes.S m => count_true f m + Z.b2z (f (Z.of_nat m)) end.

Record bitmap_wf (b : KPageBitmap) : Prop := {
  wf_depths : length (m_bit_storages b) = m_used_depths b;
  wf_depths_pos : (1 <= m_used_depths b <= MaxDepth)%nat;
  wf_words : words_ok (m_bit_storages b);
  wf_shape : shape_ok (m_bit_storages b);
  wf_linked : forall d, (Datatypes.S d < m_used_depths b)%nat -> linked (m_bit_storages b) d;
  wf_count : m_num_bits b = count_true (is_free b) (Z.to_nat (capacity b));
  wf_rng : rng_wf (m_gen b)
}.

(** ** Rows and words *)

Definition upd (sts : list (list Z)) (d : nat) (i v : Z) : list (list Z) :=
  <[d := <[Z.to_nat i := v]> (row_at sts d)]> sts.

Lemma row_at_lookup sts d : (d < length sts)%nat -> sts !! d = Some (row_at sts d).
Proof. intros H. unfold row_at. by destruct (lookup_lt_is_Some_2 sts d H) as [r ->]. Qed.

Lemma word_at_lookup row i :
  0 <= i < Z.of_nat (length row) -> row !! Z.to_nat i = Some (word_at row i).
Proof.
  intros H. unfold word_at. destruct (Z.ltb_spec i 0); [lia|].
  by destruct (lookup_lt_is_Some_2 row (Z.to_nat i)) as [r ->]; [lia|].
Qed.

Lemma word_at_out row i : ~ (0 <= i < Z.of_nat (length row)) -> word_at row i = 0.
Proof.
  intros H. unfold word_at. destruct (Z.ltb_spec i 0); [done|].
  by rewrite lookup_ge_None_2 by lia.
Qed.

Lemma get_word_eq sts d i :
  (d < length sts)%nat -> 0 <= i < len_at sts d ->
  get_word sts d i = mret (word_at (row_at sts d) i).
Proof.
  intros Hd Hi. unfold get_word.
  rewrite (arr_get_Some sts _ (row_at sts d)); [|lia|rewrite Nat2Z.id; by apply row_at_lookup].
  ostep. apply arr_get_Some; [lia|]. by apply word_at_lookup.
Qed.

Lemma set_word_eq sts d i v :
  (d < length sts)%nat -> 0 <= i < len_at sts d -> set_word sts d i v = mret (upd sts d i v).
Proof.
  intros Hd Hi. unfold set_word.
  rewrite (arr_get_Some sts _ (row_at sts d)); [|lia|rewrite Nat2Z.id; by apply row_at_lookup].
  ostep. rewrite arr_set_lt by (unfold len_at in Hi; lia). ostep.
  rewrite arr_set_lt by lia. by rewrite Nat2Z.id.
Qed.

Lemma length_upd sts d i v : length (upd sts d i v) = length sts.
Proof. apply length_insert. Qed.

Lemma row_at_upd_ne sts d i v d' : d <> d' -> row_at (upd sts d i v) d' = row_at sts d'.
Proof. intros. unfold row_at, upd. by rewrite list_lookup_insert_ne. Qed.

Lemma row_at_upd_eq sts d i v :
  (d < length sts)%nat -> row_at (upd sts d i v) d = <[Z.to_nat i := v]> (row_at sts d).
Proof. intros. unfold row_at at 1, upd. by rewrite list_lookup_insert_eq. Qed.

Lemma len_at_upd sts d i v d' : len_at (upd sts d i v) d' = len_at sts d'.
Proof.
  unfold len_at. destruct (decide (d = d')) as [<-|]; [|by rewrite row_at_upd_ne].
  destruct (decide (d < length sts)%nat).
  - by rewrite row_at_upd_eq, length_insert.
  - unfold row_at, upd. by rewrite list_insert_ge by lia.
Qed.

Lemma word_at_insert row i v j :
  0 <= i < Z.of_nat (length row) ->
  word_at (<[Z.to_nat i := v]> row) j = if j =? i then v else word_at row j.
Proof.
  intros Hi. unfold word_at. destruct (Z.ltb_spec j 0), (Z.eqb_spec j i); try lia; try done.
  - subst. by rewrite list_lookup_insert_eq by lia.
  - by rewrite list_lookup_insert_ne by lia.
Qed.

Lemma words_ok_upd sts d i v :
  words_ok sts -> in_u 64 v -> 0 <= i < len_at sts d -> words_ok (upd sts d i v).
Proof.
  intros Hw Hv Hi d' j. destruct (decide (d = d')) as [<-|]; [|rewrite row_at_upd_ne by done; apply Hw].
  destruct (decide (d < length sts)%nat) as [Hd|Hd].
  - rewrite row_at_upd_eq, word_at_insert by done. destruct (j =? i); [done|apply Hw].
  - unfold upd. rewrite list_insert_ge by lia. apply Hw.
Qed.

Lemma shape_ok_upd sts d i v : shape_ok sts -> shape_ok (upd sts d i v).
Proof.
  intros [H1 H2]. split; [by rewrite len_at_upd|]. intros d'. rewrite length_upd, !len_at_upd. apply H2.
Qed.

(** Flipping one bit of one word. *)
Lemma bit_at_insert row ind v i :
  0 <= ind < Z.of_nat (length row) -> 0 <= i ->
  bit_at (<[Z.to_nat ind := v]> row) i =
    if i / 64 =? ind then Z.testbit v (i mod 64) else bit_at row i.
Proof.
  intros Hi Hi'. unfold bit_at. rewrite word_at_insert by done. by destruct (i / 64 =? ind).
Qed.

Lemma offset_split off i :
  (i =? off) = (i / 64 =? off / 64) && (i mod 64 =? off mod 64).
Proof.
  pose proof (Z.div_mod i 64). pose proof (Z.div_mod off 64).
  destruct (Z.eqb_spec i off) as [->|Hne]; [by rewrite !Z.eqb_refl|].
  destruct (Z.eqb_spec (i / 64) (off / 64)), (Z.eqb_spec (i mod 64) (off mod 64)); try done. lia.
Qed.

Lemma mask_bit which i : 0 <= which < 64 -> 0 <= i -> Z.testbit (u64 (1 .<< which)) i = (i =? which).
Proof.
  intros Hw Hi. unfold u64. rewrite testbit_wrapu, testbit_pow2 by lia.
  destruct (Z.eqb_spec i which) as [->|]; [|by rewrite andb_false_r].
  by rewrite (proj2 (Z.ltb_lt which 64)) by lia.
Qed.

Lemma land_mask_zero v which :
  0 <= which < 64 -> (v .& u64 (1 .<< which) =? 0) = negb (Z.testbit v which).
Proof.
  intros Hw. destruct (Z.testbit v which) eqn:Hb; simpl.
  - apply Z.eqb_neq. intros E. apply (f_equal (fun z => Z.testbit z which)) in E.
    rewrite Z.land_spec, mask_bit, Hb, Z.eqb_refl, Z.bits_0 in E by lia. done.
  - apply Z.eqb_eq, zero_of_bits. intros i Hi. rewrite Z.land_spec, mask_bit by lia.
    destruct (Z.eqb_spec i which) as [->|]; [by rewrite Hb|by rewrite andb_false_r].
Qed.

Lemma in_u_mask x : in_u 64 (u64 x).
Proof. apply u64_range. Qed.

Lemma testbit_clear v m i :
  0 <= i -> in_u 64 v -> Z.testbit (v .& notu 64 m) i = Z.testbit v i && negb (Z.testbit m i).
Proof.
  intros Hi Hv. rewrite Z.land_spec, testbit_notu by lia.
  destruct (Z.ltb_spec i 64) as [|Hge].
  - destruct (Z.leb_spec 0 i); [|lia]. simpl. by rewrite xorb_true_r.
  - by rewrite (testbit_above 64 v) by (done || lia).
Qed.

Lemma notu_nonneg m : in_u 64 m -> 0 <= notu 64 m.
Proof. intros Hm. apply (in_u_lxor 64); [lia|done|]. by vm_compute. Qed.

(** A word is zero exactly when none of its bits is set. *)
Lemma word_zero_bits row ind :
  in_u 64 (word_at row ind) -> 0 <= ind ->
  word_at row ind = 0 <-> forall i, 0 <= i < 64 -> bit_at row (ind * 64 + i) = false.
Proof.
  intros Hv Hi. assert (forall i, 0 <= i < 64 -> bit_at row (ind * 64 + i) = Z.testbit (word_at row ind) i) as E.
  { intros i Hr. unfold bit_at. rewrite Z.div_add_l, Z.div_small, Z.add_0_r by lia.
    rewrite Z.add_comm, Z.mod_add, Z.mod_small by lia. done. }
  split.
  - intros H0 i Hr. by rewrite E, H0, Z.bits_0 by lia.
  - intros Hb. apply zero_of_bits. intros i Hr. destruct (Z_lt_le_dec i 64).
    + rewrite <- E by lia. apply Hb. lia.
    + apply (testbit_above 64); [done|lia].
Qed.

(** ** Setting and clearing a bit through the depths *)

(** What the loops of [SetBit] and [ClearBit] change, started at depth [n - 1]: bit [off] of that
    row gets the value [on], deeper rows are kept, and the rows above still summarise. *)
Record flipped (n : nat) (off : Z) (on : bool) (sts sts' : list (list Z)) : Prop := {
  fl_length : length sts' = length sts;
  fl_len d : len_at sts' d = len_at sts d;
  fl_words : words_ok sts';
  fl_deeper d : (n <= d)%nat -> row_at sts' d = row_at sts d;
  fl_bits : (0 < n)%nat -> forall i, 0 <= i ->
    bit_at (row_at sts' (n - 1)) i = if i =? off then on else bit_at (row_at sts (n - 1)) i;
  fl_linked d : (Datatypes.S d < n)%nat -> linked sts' d
}.

Lemma flipped_0 off on sts : words_ok sts -> flipped 0 off on sts sts.
Proof. intros. split; try done; lia. Qed.

Lemma off_div n off : 0 <= off < 64 * n -> 0 <= off / 64 < n /\ 0 <= off mod 64 < 64.
Proof.
  intros H. split; [|apply Z.mod_pos_bound; lia].
  split; [apply Z.div_pos; lia|apply Z.div_lt_upper_bound; lia].
Qed.

(** Writing one word of depth [depth] so that bit [off] becomes [on]. *)
Lemma write_bit sts depth off on v' :
  (depth < length sts)%nat -> 0 <= off < 64 * len_at sts depth ->
  (forall i, 0 <= i ->
     Z.testbit v' i = if i =? off mod 64 then on else Z.testbit (word_at (row_at sts depth) (off / 64)) i) ->
  forall i, 0 <= i ->
    bit_at (row_at (upd sts depth (off / 64) v') depth) i =
    if i =? off then on else bit_at (row_at sts depth) i.
Proof.
  intros Hd Hoff Hv i Hi. apply off_div in Hoff as [Hind Hwh].
  rewrite row_at_upd_eq, bit_at_insert by done. rewrite (offset_split off i).
  destruct (Z.eqb_spec (i / 64) (off / 64)) as [E|E]; [|done]. simpl.
  rewrite Hv by (apply Z.mod_pos_bound; lia). unfold bit_at. by rewrite E.
Qed.

(** The step both loops share: the word is written, and either it was (and stays) nonzero or the
    flip goes on one depth above with the index of the word. *)
Lemma flip_word sts depth off on v' :
  (depth < length sts)%nat -> words_ok sts -> in_u 64 v' ->
  0 <= off < 64 * len_at sts depth ->
  (forall d, (Datatypes.S d < Datatypes.S depth)%nat -> linked sts d) ->
  (forall i, 0 <= i ->
     Z.testbit v' i = if i =? off mod 64 then on else Z.testbit (word_at (row_at sts depth) (off / 64)) i) ->
  word_at (row_at sts depth) (off / 64) <> 0 -> v' <> 0 ->
  flipped (Datatypes.S depth) off on sts (upd sts depth (off / 64) v').
Proof.
  intros Hd Hw Hv' Hoff Hl Hb Hnz Hnz'. destruct (off_div _ _ Hoff) as [Hind _]. split.
  - apply length_upd.
  - intros. apply len_at_upd.
  - by apply words_ok_upd.
  - intros d Hd'. apply row_at_upd_ne. lia.
  - intros _. replace (Datatypes.S depth - 1)%nat with depth by lia. by apply write_bit.
  - intros d Hd' i Hi. rewrite (row_at_upd_ne _ _ _ _ d) by lia. rewrite (Hl d) by lia.
    destruct (decide (Datatypes.S d = depth)) as [E|E].
    + subst depth. rewrite row_at_upd_eq, word_at_insert by done.
      destruct (Z.eqb_spec i (off / 64)) as [->|]; [|done].
      rewrite (proj2 (Z.eqb_neq _ _) Hnz). by rewrite (proj2 (Z.eqb_neq _ _) Hnz').
    + by rewrite row_at_upd_ne by lia.
Qed.

Lemma flip_up sts depth off on v' sts' :
  (depth < length sts)%nat ->
  0 <= off < 64 * len_at sts depth ->
  (forall d, (Datatypes.S d < Datatypes.S depth)%nat -> linked sts d) ->
  (forall i, 0 <= i ->
     Z.testbit v' i = if i =? off mod 64 then on else Z.testbit (word_at (row_at sts depth) (off / 64)) i) ->
  (v' =? 0) = negb on ->
  flipped depth (off / 64) on (upd sts depth (off / 64) v') sts' ->
  flipped (Datatypes.S depth) off on sts sts'.
Proof.
  intros Hd Hoff Hl Hb Hz F. destruct (off_div _ _ Hoff) as [Hind _]. split.
  - rewrite (fl_length _ _ _ _ _ F). apply length_upd.
  - intros. rewrite (fl_len _ _ _ _ _ F). apply len_at_upd.
  - apply (fl_words _ _ _ _ _ F).
  - intros d Hd'. rewrite (fl_deeper _ _ _ _ _ F) by lia. apply row_at_upd_ne. lia.
  - intros _. replace (Datatypes.S depth - 1)%nat with depth by lia.
    intros i Hi. rewrite (fl_deeper _ _ _ _ _ F) by lia. by apply write_bit.
  - intros d Hd'. destruct (decide (Datatypes.S d = depth)) as [E|E].
    + subst depth. intros i Hi. rewrite (fl_deeper _ _ _ _ _ F (Datatypes.S d)) by lia.
      pose proof (fl_bits _ _ _ _ _ F ltac:(lia) i Hi) as Hbit.
      replace (Datatypes.S d - 1)%nat with d in Hbit by lia. rewrite Hbit.
      rewrite (row_at_upd_ne _ _ _ _ d) by lia. rewrite (Hl d) by lia.
      rewrite row_at_upd_eq, word_at_insert by done.
      destruct (Z.eqb_spec i (off / 64)); [|done]. rewrite Hz. by destruct on.
    + apply (fl_linked _ _ _ _ _ F). lia.
Qed.

Lemma linked_upd_above sts depth i v d :
  (Datatypes.S d < depth)%nat -> linked sts d -> linked (upd sts depth i v) d.
Proof. intros Hd Hl j Hj. rewrite !row_at_upd_ne by lia. by apply Hl. Qed.

(** The index of a word is a valid bit offset one depth above. *)
Lemma ind_bound sts depth ind :
  shape_ok sts -> (Datatypes.S depth < length sts)%nat ->
  0 <= ind < len_at sts (Datatypes.S depth) -> 0 <= ind < 64 * len_at sts depth.
Proof. intros [_ Hs] Hd Hi. specialize (Hs depth Hd). lia. Qed.

Lemma SetBit_depth_spec n sts off :
  (n <= length sts)%nat -> words_ok sts -> shape_ok sts ->
  (forall d, (Datatypes.S d < n)%nat -> linked sts d) ->
  ((0 < n)%nat -> 0 <= off < 64 * len_at sts (n - 1) /\ bit_at (row_at sts (n - 1)) off = false) ->
  exists sts', SetBit_depth n sts off = Done true sts' /\ flipped n off true sts sts'.
Proof.
  revert sts off. induction n as [|depth IH]; intros sts off Hn Hw Hs Hl Hoff.
  { exists sts. split; [done|by apply flipped_0]. }
  destruct (Hoff ltac:(lia)) as [Hr Hb]. replace (Datatypes.S depth - 1)%nat with depth in * by lia.
  destruct (off_div _ _ Hr) as [Hind Hwh]. cbn [SetBit_depth].
  rewrite get_word_eq by (done || lia). ostep.
  set (v := word_at (row_at sts depth) (off / 64)) in *.
  assert (Z.testbit v (off mod 64) = false) as Hvb by exact Hb.
  rewrite bind_assert_true; [|rewrite land_mask_zero by done; by rewrite Hvb].
  rewrite set_word_eq by (done || lia). ostep.
  set (v' := v .| u64 (1 .<< (off mod 64))).
  assert (in_u 64 v') as Hv' by (apply in_u_lor; [lia|apply Hw|apply in_u_mask]).
  assert (forall i, 0 <= i -> Z.testbit v' i = if i =? off mod 64 then true else Z.testbit v i) as Hbits.
  { intros i Hi. unfold v'. rewrite Z.lor_spec, mask_bit by lia.
    destruct (i =? off mod 64); [by rewrite orb_true_r|by rewrite orb_false_r]. }
  assert (v' <> 0) as Hnz'.
  { intros E. specialize (Hbits (off mod 64) ltac:(lia)). rewrite E, Z.eqb_refl, Z.bits_0 in Hbits. done. }
  destruct (Z.eqb_spec v 0) as [Ev|Ev]; simpl negb; cbv iota.
  - destruct (IH (upd sts depth (off / 64) v') (off / 64)) as (sts' & E & F).
    + rewrite length_upd. lia.
    + by apply words_ok_upd.
    + by apply shape_ok_upd.
    + intros d Hd. apply linked_upd_above; [done|]. apply Hl. lia.
    + intros Hpos. rewrite len_at_upd, row_at_upd_ne by lia. destruct depth as [|d]; [lia|].
      replace (Datatypes.S d - 1)%nat with d in * by lia.
      split; [by apply ind_bound|]. rewrite (Hl d) by lia. fold v. by rewrite Ev.
    + exists sts'. split; [done|]. eapply flip_up; try done. by apply Z.eqb_neq.
  - exists (upd sts depth (off / 64) v'). split; [done|]. by apply flip_word.
Qed.

Lemma ClearBit_depth_spec n sts off :
  (n <= length sts)%nat -> words_ok sts -> shape_ok sts ->
  (forall d, (Datatypes.S d < n)%nat -> linked sts d) ->
  ((0 < n)%nat -> 0 <= off < 64 * len_at sts (n - 1) /\ bit_at (row_at sts (n - 1)) off = true) ->
  exists sts', ClearBit_depth n sts off = Done true sts' /\ flipped n off false sts sts'.
Proof.
  revert sts off. induction n as [|depth IH]; intros sts off Hn Hw Hs Hl Hoff.
  { exists sts. split; [done|by apply flipped_0]. }
  destruct (Hoff ltac:(lia)) as [Hr Hb]. replace (Datatypes.S depth - 1)%nat with depth in * by lia.
  destruct (off_div _ _ Hr) as [Hind Hwh]. cbn [ClearBit_depth].
  rewrite get_word_eq by (done || lia). ostep.
  set (v := word_at (row_at sts depth) (off / 64)) in *.
  assert (Z.testbit v (off mod 64) = true) as Hvb by exact Hb.
  rewrite bind_assert_true; [|rewrite land_mask_zero by done; by rewrite Hvb].
  rewrite set_word_eq by (done || lia). ostep.
  set (v' := v .& notu 64 (u64 (1 .<< (off mod 64)))).
  assert (in_u 64 v') as Hv'
    by (apply in_u_land; [lia|apply Hw|apply notu_nonneg, in_u_mask]).
  assert (forall i, 0 <= i -> Z.testbit v' i = if i =? off mod 64 then false else Z.testbit v i) as Hbits.
  { intros i Hi. unfold v'. rewrite testbit_clear, mask_bit by (lia || apply Hw).
    destruct (i =? off mod 64); [by rewrite andb_false_r|by rewrite andb_true_r]. }
  assert (v <> 0) as Hnz by (intros E; by rewrite E, Z.bits_0 in Hvb).
  destruct (Z.eqb_spec v' 0) as [Ev|Ev]; simpl negb; cbv iota.
  - destruct (IH (upd sts depth (off / 64) v') (off / 64)) as (sts' & E & F).
    + rewrite length_upd. lia.
    + by apply words_ok_upd.
    + by apply shape_ok_upd.
    + intros d Hd. apply linked_upd_above; [done|]. apply Hl. lia.
    + intros Hpos. rewrite len_at_upd, row_at_upd_ne by lia. destruct depth as [|d]; [lia|].
      replace (Datatypes.S d - 1)%nat with d in * by lia.
      split; [by apply ind_bound|]. rewrite (Hl d) by lia. fold v.
      by rewrite (proj2 (Z.eqb_neq _ _) Hnz).
    + exists sts'. split; [done|]. eapply flip_up; try done. by rewrite Ev.
  - exists (upd sts depth (off / 64) v'). split; [done|]. by apply flip_word.
Qed.

(** ** Counting free blocks *)

Lemma count_true_ext f g n :
  (forall i, 0 <= i < Z.of_nat n -> f i = g i) -> count_true f n = count_true g n.
Proof.
  induction n as [|n IH]; intros H; [done|]. simpl.
  rewrite IH by (intros; apply H; lia). by rewrite H by lia.
Qed.

Lemma count_true_bounds f n : 0 <= count_true f n <= Z.of_nat n.
Proof. induction n; simpl count_true; [lia|]. destruct (f (Z.of_nat n)); simpl; lia. Qed.

Lemma count_true_flip f g n j :
  0 <= j < Z.of_nat n -> f j = false ->
  (forall i, 0 <= i < Z.of_nat n -> g i = if i =? j then true else f i) ->
  count_true g n = count_true f n + 1.
Proof.
  intros Hj Hf Hg. induction n as [|n IH]; [lia|]. simpl. rewrite (Hg (Z.of_nat n)) by lia.
  destruct (Z.eqb_spec (Z.of_nat n) j) as [E|E].
  - rewrite (count_true_ext g f n); [rewrite E, Hf; simpl; lia|].
    intros i Hi. rewrite Hg by lia. destruct (Z.eqb_spec i j); [lia|done].
  - rewrite IH; [lia|lia|]. intros. apply Hg. lia.
Qed.

(** Clearing [c] consecutive free blocks lowers the count by [c]. *)
Lemma count_true_clear_range f g n a (c : nat) :
  0 <= a -> a + Z.of_nat c <= Z.of_nat n ->
  (forall i, a <= i < a + Z.of_nat c -> f i = true) ->
  (forall i, 0 <= i < Z.of_nat n ->
     g i = if (a <=? i) && (i <? a + Z.of_nat c) then false else f i) ->
  count_true g n = count_true f n - Z.of_nat c.
Proof.
  revert g. induction c as [|c IH]; intros g Ha Hc Hf Hg.
  - rewrite (count_true_ext g f n); [lia|]. intros i Hi. rewrite Hg by lia.
    destruct (Z.leb_spec a i), (Z.ltb_spec i (a + Z.of_nat 0)); simpl; (done || lia).
  - set (h := fun i => if (a <=? i) && (i <? a + Z.of_nat c) then false else f i).
    assert (count_true h n = count_true g n + 1) as E.
    { apply (count_true_flip g h n (a + Z.of_nat c)); [lia| |].
      - rewrite Hg by lia. destruct (Z.leb_spec a (a + Z.of_nat c)); [|lia].
        by rewrite (proj2 (Z.ltb_lt _ _)) by lia.
      - intros i Hi. unfold h. rewrite Hg by lia.
        destruct (Z.eqb_spec i (a + Z.of_nat c)) as [->|].
        + rewrite (proj2 (Z.ltb_ge _ _)), andb_false_r by lia. apply Hf. lia.
        + destruct (Z.leb_spec a i), (Z.ltb_spec i (a + Z.of_nat c)),
            (Z.ltb_spec i (a + Z.of_nat (Datatypes.S c))); simpl; (done || lia). }
    assert (count_true h n = count_true f n - Z.of_nat c) as E2.
    { apply IH; [lia|lia| |done]. intros. apply Hf. lia. }
    lia.
Qed.

(** ** Capacity *)

Lemma len_at_bound sts d :
  shape_ok sts -> (d < length sts)%nat -> 0 <= len_at sts d <= 64 ^ Z.of_nat d.
Proof.
  intros [H0 Hs]. induction d as [|d IH]; intros Hd; [rewrite H0; simpl; lia|].
  specialize (Hs d Hd). rewrite Nat2Z.inj_succ, Z.pow_succ_r by lia.
  specialize (IH ltac:(lia)). unfold len_at in *. lia.
Qed.

Lemma capacity_bound b : bitmap_wf b -> 0 <= capacity b <= 2 ^ 24.
Proof.
  intros Hb. unfold capacity, bottom.
  pose proof (wf_depths _ Hb) as Hd. pose proof (wf_depths_pos _ Hb) as Hp. unfold MaxDepth in Hp.
  pose proof (len_at_bound _ (m_used_depths b - 1) (wf_shape _ Hb) ltac:(lia)) as [_ Hl].
  unfold len_at in Hl.
  assert (64 ^ Z.of_nat (m_used_depths b - 1) <= 64 ^ 3) by (apply Z.pow_le_mono_r; lia).
  change (64 ^ 3) with 262144 in *. lia.
Qed.

Lemma num_bits_bound b : bitmap_wf b -> 0 <= m_num_bits b <= capacity b.
Proof.
  intros Hb. rewrite (wf_count _ Hb). pose proof (capacity_bound _ Hb).
  pose proof (count_true_bounds (is_free b) (Z.to_nat (capacity b))). lia.
Qed.

(** [b'] is a well-formed bitmap over the same blocks whose free blocks are given by [f]. *)
Record becomes (b b' : KPageBitmap) (f : Z -> bool) : Prop := {
  bc_wf : bitmap_wf b';
  bc_capacity : capacity b' = capacity b;
  bc_free i : 0 <= i -> is_free b' i = f i
}.

(** New storages of the same shape whose rows still summarise each other. *)
Record reshaped (n : nat) (sts sts' : list (list Z)) : Prop := {
  rs_length : length sts' = length sts;
  rs_len d : len_at sts' d = len_at sts d;
  rs_words : words_ok sts';
  rs_linked d : (Datatypes.S d < n)%nat -> linked sts' d
}.

Lemma flipped_reshaped n off on sts sts' : flipped n off on sts sts' -> reshaped n sts sts'.
Proof. by intros [? ? ? ? ? ?]. Qed.

Lemma reshaped_shape n sts sts' : shape_ok sts -> reshaped n sts sts' -> shape_ok sts'.
Proof.
  intros [S0 S1] [R1 R2 _ _]. split; [by rewrite R2|]. intros d. rewrite R1, !R2. apply S1.
Qed.

Lemma reshaped_becomes b sts' num f :
  bitmap_wf b -> reshaped (m_used_depths b) (m_bit_storages b) sts' ->
  (forall i, 0 <= i -> bit_at (row_at sts' (m_used_depths b - 1)) i = f i) ->
  num = count_true f (Z.to_nat (capacity b)) ->
  becomes b (with_storages b sts' num) f.
Proof.
  intros Hb R Hf Hnum.
  assert (capacity (with_storages b sts' num) = capacity b) as Hcap.
  { unfold capacity, bottom. simpl. pose proof (rs_len _ _ _ R (m_used_depths b - 1)).
    unfold len_at in *. lia. }
  split; [|done|done]. split; simpl.
  - rewrite (rs_length _ _ _ R). apply (wf_depths _ Hb).
  - apply (wf_depths_pos _ Hb).
  - apply (rs_words _ _ _ R).
  - eapply reshaped_shape; [apply (wf_shape _ Hb)|done].
  - apply (rs_linked _ _ _ R).
  - rewrite Hcap, Hnum. apply count_true_ext. intros. symmetry. apply Hf. lia.
  - apply (wf_rng _ Hb).
Qed.

(** Storages changed as [flipped] says give a well-formed bitmap again. *)
Lemma flipped_becomes b off on sts' num f :
  bitmap_wf b -> flipped (m_used_depths b) off on (m_bit_storages b) sts' ->
  (forall i, 0 <= i -> f i = if i =? off then on else is_free b i) ->
  num = count_true f (Z.to_nat (capacity b)) ->
  becomes b (with_storages b sts' num) f.
Proof.
  intros Hb F Hf Hnum. pose proof (wf_depths_pos _ Hb) as Hp.
  apply reshaped_becomes; [done|by eapply flipped_reshaped| |done].
  intros i Hi. rewrite Hf by done. apply (fl_bits _ _ _ _ _ F); [lia|done].
Qed.

Lemma bottom_offset b off :
  bitmap_wf b -> 0 <= off < capacity b ->
  0 <= off < 64 * len_at (m_bit_storages b) (m_used_depths b - 1).
Proof. done. Qed.

Lemma SetBit_spec b off :
  bitmap_wf b -> 0 <= off < capacity b -> is_free b off = false ->
  exists b', SetBit b off = Done true b' /\
    becomes b b' (fun i => if i =? off then true else is_free b i).
Proof.
  intros Hb Ho Hf. unfold SetBit.
  destruct (SetBit_depth_spec (m_used_depths b) (m_bit_storages b) off) as (sts' & E & F).
  - rewrite (wf_depths _ Hb). lia.
  - apply (wf_words _ Hb).
  - apply (wf_shape _ Hb).
  - apply (wf_linked _ Hb).
  - intros _. split; [by apply bottom_offset|done].
  - rewrite E. ostep. eexists. split; [done|]. apply (flipped_becomes b off true); try done.
    pose proof (num_bits_bound _ Hb). pose proof (capacity_bound _ Hb).
    rewrite u64_small by lia. rewrite (wf_count _ Hb). symmetry.
    apply (count_true_flip _ _ _ off); [lia|done|done].
Qed.

Lemma ClearBit_spec b off :
  bitmap_wf b -> 0 <= off < capacity b -> is_free b off = true ->
  exists b', ClearBit b off = Done true b' /\
    becomes b b' (fun i => if i =? off then false else is_free b i).
Proof.
  intros Hb Ho Hf. unfold ClearBit.
  destruct (ClearBit_depth_spec (m_used_depths b) (m_bit_storages b) off) as (sts' & E & F).
  - rewrite (wf_depths _ Hb). lia.
  - apply (wf_words _ Hb).
  - apply (wf_shape _ Hb).
  - apply (wf_linked _ Hb).
  - intros _. split; [by apply bottom_offset|done].
  - rewrite E. ostep. eexists. split; [done|]. apply (flipped_becomes b off false); try done.
    pose proof (num_bits_bound _ Hb). pose proof (capacity_bound _ Hb).
    assert (m_num_bits b = count_true (fun i => if i =? off then false else is_free b i)
              (Z.to_nat (capacity b)) + 1) as Hn.
    { rewrite (wf_count _ Hb).
      apply (count_true_flip _ _ _ off); [lia|by rewrite Z.eqb_refl|].
      intros i Hi. destruct (Z.eqb_spec i off) as [->|]; done. }
    pose proof (count_true_bounds (fun i => if i =? off then false else is_free b i)
              (Z.to_nat (capacity b))).
    rewrite u64_small by lia. lia.
Qed.

(** ** Searching for a free block *)

Lemma bit_at_word row ind i :
  0 <= i < 64 -> bit_at row (ind * 64 + i) = Z.testbit (word_at row ind) i.
Proof.
  intros Hr. unfold bit_at. rewrite Z.div_add_l, Z.div_small, Z.add_0_r by lia.
  rewrite Z.add_comm, Z.mod_add, Z.mod_small by lia. done.
Qed.

(** The block [j] lies below word [off] of a row [k] depths above the deepest one. *)
Definition below (k : nat) (off j : Z) : Prop :=
  off * 64 ^ Z.of_nat (Datatypes.S k) <= j < (off + 1) * 64 ^ Z.of_nat (Datatypes.S k).

Lemma below_0 off j : below 0 off j <-> exists i, 0 <= i < 64 /\ j = off * 64 + i.
Proof.
  unfold below. change (64 ^ Z.of_nat 1) with 64. split.
  - intros H. exists (j - off * 64). lia.
  - intros (i & Hi & ->). lia.
Qed.

Lemma below_S k off j :
  below (Datatypes.S k) off j <-> exists i, 0 <= i < 64 /\ below k (off * 64 + i) j.
Proof.
  unfold below. rewrite (Nat2Z.inj_succ (Datatypes.S k)), (Z.pow_succ_r 64) by lia.
  set (p := 64 ^ Z.of_nat (Datatypes.S k)).
  assert (0 < p) as Hp by (apply Z.pow_pos_nonneg; lia). split.
  - intros H. exists (j / p - off * 64).
    pose proof (Z.div_mod j p). pose proof (Z.mod_pos_bound j p Hp). nia.
  - intros (i & Hi & H). nia.
Qed.

Lemma nonzero_in_range sts d off : word_at (row_at sts d) off <> 0 -> 0 <= off < len_at sts d.
Proof.
  intros Hne. unfold len_at.
  destruct (decide (0 <= off < Z.of_nat (length (row_at sts d)))) as [|H]; [done|].
  by rewrite word_at_out in Hne.
Qed.

Lemma select_bit (random : bool) v g :
  rng_wf g -> 0 < v < 2 ^ 64 ->
  exists bit g', (if random then SelectRandomBit v g else mret (countr_zero 64 v, g)) = mret (bit, g') /\
    0 <= bit < 64 /\ Z.testbit v bit = true /\ rng_wf g' /\
    (random = false -> forall i, 0 <= i < bit -> Z.testbit v i = false).
Proof.
  intros Hg Hv. destruct random.
  - destruct (SelectRandomBit_spec v g Hg Hv) as (i & g' & E & R & B & G).
    exists i, g'. split_and!; try done; lia.
  - exists (countr_zero 64 v), g. destruct (countr_zero_spec 64 v) as (C0 & C1 & C2); [lia|].
    pose proof (countr_zero_lt 64 64 v ltac:(lia) Hv). split_and!; try done.
Qed.

Section Search.
Context (sts : list (list Z)) (n : nat).
Context (Hlen : length sts = n) (Hn : (1 <= n <= MaxDepth)%nat).
Context (Hwords : words_ok sts) (Hshape : shape_ok sts).
Context (Hlinked : forall d, (Datatypes.S d < n)%nat -> linked sts d).

Lemma subtree_zero k d off j :
  (d + k = n - 1)%nat -> 0 <= off -> word_at (row_at sts d) off = 0 -> below k off j ->
  bit_at (row_at sts (n - 1)) j = false.
Proof using Hlen Hn Hwords Hlinked.
  revert d off. induction k as [|k IH]; intros d off Hd Ho Hz Hj.
  - apply below_0 in Hj as (i & Hi & ->). replace (n - 1)%nat with d by lia.
    by rewrite bit_at_word, Hz, Z.bits_0.
  - apply below_S in Hj as (i & Hi & Hj). apply (IH (Datatypes.S d) (off * 64 + i)); try done; try lia.
    pose proof (Hlinked d ltac:(lia) (off * 64 + i) ltac:(lia)) as L.
    rewrite bit_at_word, Hz, Z.bits_0 in L by done.
    by apply Z.eqb_eq, negb_false_iff.
Qed.

Lemma FindFreeBlock_loop_spec (random : bool) k d off g :
  (d + k = n - 1)%nat -> word_at (row_at sts d) off <> 0 -> rng_wf g ->
  exists r g', FindFreeBlock_loop random (Datatypes.S k) d sts off g = mret (r, g') /\
    rng_wf g' /\ below k off r /\ bit_at (row_at sts (n - 1)) r = true /\
    (random = false -> forall j, off * 64 ^ Z.of_nat (Datatypes.S k) <= j < r ->
       bit_at (row_at sts (n - 1)) j = false).
Proof using Hlen Hn Hwords Hlinked Hshape.
  revert d off g. induction k as [|k IH]; intros d off g Hd Hnz Hg;
    pose proof (nonzero_in_range sts d off Hnz) as Hoff;
    pose proof (Hwords d off) as Hv;
    pose proof (len_at_bound sts d Hshape ltac:(lia)) as Hlb;
    assert (64 ^ Z.of_nat d <= 64 ^ 3) as Hp by (apply Z.pow_le_mono_r; unfold MaxDepth in *; lia);
    change (64 ^ 3) with 262144 in Hp;
    cbn [FindFreeBlock_loop]; rewrite get_word_eq by (done || lia); ostep;
    set (v := word_at (row_at sts d) off) in *;
    destruct (Z.eqb_spec v 0) as [|_]; [done| |done|];
    destruct (select_bit random v g Hg) as (bit & g' & E & Hbit & Hb & Hg' & Hmin);
    [unfold in_u in Hv; lia| |unfold in_u in Hv; lia|]; rewrite E; ostep;
    rewrite u64_small by lia.
  - exists (off * 64 + bit), g'. replace (n - 1)%nat with d by lia.
    split_and!; [done|done|apply below_0; eauto|by rewrite bit_at_word|].
    intros Hr j Hj. change (64 ^ Z.of_nat 1) with 64 in Hj.
    replace j with (off * 64 + (j - off * 64)) by lia. rewrite bit_at_word by lia.
    apply Hmin; [done|lia].
  - assert (forall i, 0 <= i < 64 ->
      Z.testbit v i = negb (word_at (row_at sts (Datatypes.S d)) (off * 64 + i) =? 0)) as L.
    { intros i Hi. rewrite <- (Hlinked d) by lia. by rewrite bit_at_word. }
    destruct (IH (Datatypes.S d) (off * 64 + bit) g') as (r & g'' & E' & Hg'' & Hr & Hbr & Hmr);
      [lia| |done|].
    { rewrite L in Hb by done. intros E0. by rewrite E0 in Hb. }
    exists r, g''. split_and!; [done|done|apply below_S; eauto|done|].
    intros Hr0 j Hj.
    assert (below (Datatypes.S k) off j) as Hbj.
    { assert (below (Datatypes.S k) off r) as Hbr' by (apply below_S; eauto).
      unfold below in *. lia. }
    apply below_S in Hbj as (i & Hi & Hbj).
    destruct (Z_lt_le_dec i bit) as [Hlt|Hge].
    + apply (subtree_zero k (Datatypes.S d) (off * 64 + i)); try done; try lia.
      specialize (Hmin Hr0 i ltac:(lia)). rewrite L in Hmin by lia.
      by apply Z.eqb_eq, negb_false_iff.
    + apply Hmr; [done|]. split; [|lia]. unfold below in Hbj.
      pose proof (Z.pow_pos_nonneg 64 (Z.of_nat (Datatypes.S k))). nia.
Qed.
End Search.

Lemma is_free_range b i : bitmap_wf b -> 0 <= i -> is_free b i = true -> i < capacity b.
Proof.
  intros Hb Hi Hf. unfold is_free, bit_at, capacity in *. apply Z.nle_gt. intros Hle.
  rewrite word_at_out, Z.bits_0 in Hf; [done|].
  intros [_ H]. pose proof (Z.div_mod i 64). pose proof (Z.mod_pos_bound i 64). lia.
Qed.

Lemma all_below b j : bitmap_wf b -> 0 <= j < capacity b -> below (m_used_depths b - 1) 0 j.
Proof.
  intros Hb Hj. pose proof (wf_depths_pos _ Hb) as Hp. pose proof (wf_depths _ Hb) as Hd.
  pose proof (len_at_bound _ (m_used_depths b - 1) (wf_shape _ Hb) ltac:(lia)) as [_ Hl].
  unfold below. rewrite Nat2Z.inj_succ, Z.pow_succ_r by lia.
  unfold capacity, bottom in Hj. unfold len_at in Hl. lia.
Qed.

(** What [FindFreeBlock] returns on a well-formed bitmap: the state is unchanged but for the
    random generator, and the result is a free block, the first one in the linear search, or -1
    exactly when there is none.  No assertion fails. *)
Lemma FindFreeBlock_spec b (random : bool) :
  bitmap_wf b ->
  exists r g', FindFreeBlock b random =
      Done true (r, mkBitmap (m_bit_storages b) g' (m_num_bits b) (m_used_depths b)) /\
    rng_wf g' /\
    ((r = -1 /\ forall i, 0 <= i -> is_free b i = false) \/
     (0 <= r < capacity b /\ is_free b r = true /\
      (random = false -> forall i, 0 <= i < r -> is_free b i = false))).
Proof.
  intros Hb. pose proof (wf_depths_pos _ Hb) as Hp. pose proof (wf_depths _ Hb) as Hd.
  unfold FindFreeBlock. rewrite Nat.max_r by lia.
  destruct (m_used_depths b) as [|k] eqn:Ek; [lia|].
  destruct (decide (word_at (row_at (m_bit_storages b) 0) 0 = 0)) as [Hz|Hnz].
  - exists (-1), (m_gen b). destruct (wf_shape _ Hb) as [S0 _].
    cbn [FindFreeBlock_loop]. rewrite get_word_eq by lia. ostep. rewrite Hz. simpl.
    split_and!; [done|apply (wf_rng _ Hb)|]. left. split; [done|]. intros i Hi.
    apply not_true_iff_false. intros Hf. pose proof (is_free_range b i Hb Hi Hf) as Hlt.
    unfold is_free, bottom in Hf. rewrite Ek in Hf.
    rewrite (subtree_zero _ (Datatypes.S k) Hd Hp (wf_words _ Hb)
      ltac:(rewrite <- Ek; apply (wf_linked _ Hb)) k 0 0 i) in Hf; try done; try lia.
    pose proof (all_below b i Hb ltac:(lia)) as Hbl. rewrite Ek in Hbl.
    by replace (Datatypes.S k - 1)%nat with k in Hbl by lia.
  - destruct (FindFreeBlock_loop_spec (m_bit_storages b) (Datatypes.S k) Hd Hp (wf_words _ Hb)
      (wf_shape _ Hb) ltac:(rewrite <- Ek; apply (wf_linked _ Hb)) random k 0 0 (m_gen b))
      as (r & g' & E & Hg & Hbl & Hf & Hmin); [lia|done|apply (wf_rng _ Hb)|].
    rewrite E. ostep. exists r, g'. split_and!; [done|done|]. right.
    assert (is_free b r = true) as Hfr by (unfold is_free, bottom; by rewrite Ek).
    assert (0 <= r) as Hr by (unfold below in Hbl; lia).
    split_and!; [done|by apply is_free_range|done|].
    intros Hrd i Hi. unfold is_free, bottom. rewrite Ek. apply Hmin; [done|lia].
Qed.

(** ** Clearing a range *)

(** Word [ind] of depth [depth] replaced by [v'], the rows above brought up to date. *)
Record rewritten (depth : nat) (ind v' : Z) (sts sts' : list (list Z)) : Prop := {
  rw_reshaped : reshaped (Datatypes.S depth) sts sts';
  rw_row : row_at sts' depth = <[Z.to_nat ind := v']> (row_at sts depth)
}.

Lemma clear_word sts depth ind v' :
  (depth < length sts)%nat -> words_ok sts -> shape_ok sts -> in_u 64 v' ->
  (forall d, (Datatypes.S d < Datatypes.S depth)%nat -> linked sts d) ->
  0 <= ind < len_at sts depth -> word_at (row_at sts depth) ind <> 0 ->
  exists sts', (if v' =? 0 then ClearBit_depth depth (upd sts depth ind v') ind
                else mret (upd sts depth ind v')) = Done true sts' /\
    rewritten depth ind v' sts sts'.
Proof.
  intros Hd Hw Hs Hv Hl Hi Hnz. destruct (Z.eqb_spec v' 0) as [E|E].
  - destruct (ClearBit_depth_spec depth (upd sts depth ind v') ind) as (sts' & Er & F).
    + rewrite length_upd. lia.
    + by apply words_ok_upd.
    + by apply shape_ok_upd.
    + intros d Hd'. apply linked_upd_above; [done|]. apply Hl. lia.
    + intros Hpos. rewrite len_at_upd, row_at_upd_ne by lia. destruct depth as [|d]; [lia|].
      replace (Datatypes.S d - 1)%nat with d in * by lia. split; [by apply ind_bound|].
      rewrite (Hl d) by lia. by rewrite (proj2 (Z.eqb_neq _ _) Hnz).
    + exists sts'. split; [done|].
      assert (row_at sts' depth = <[Z.to_nat ind := v']> (row_at sts depth)) as Hrow.
      { rewrite (fl_deeper _ _ _ _ _ F) by lia. by apply row_at_upd_eq. }
      split; [|done]. split.
      * rewrite (fl_length _ _ _ _ _ F). apply length_upd.
      * intros d. rewrite (fl_len _ _ _ _ _ F). apply len_at_upd.
      * apply (fl_words _ _ _ _ _ F).
      * intros d Hd'. destruct (decide (Datatypes.S d = depth)) as [Ed|Ed];
          [|apply (fl_linked _ _ _ _ _ F); lia].
        subst depth. intros i Hi'. rewrite Hrow, word_at_insert by done.
        pose proof (fl_bits _ _ _ _ _ F ltac:(lia) i Hi') as Hbit.
        replace (Datatypes.S d - 1)%nat with d in Hbit by lia.
        rewrite Hbit, row_at_upd_ne, (Hl d) by lia.
        destruct (Z.eqb_spec i ind); [by rewrite E|done].
  - eexists. split; [done|]. split; [|by apply row_at_upd_eq]. split.
    + apply length_upd.
    + intros d. apply len_at_upd.
    + by apply words_ok_upd.
    + intros d Hd' i Hi'. destruct (decide (Datatypes.S d = depth)) as [Ed|Ed];
        [|by rewrite !row_at_upd_ne by lia; apply Hl; lia].
      subst depth. rewrite row_at_upd_ne, (Hl d), row_at_upd_eq, word_at_insert by (done || lia).
      destruct (Z.eqb_spec i ind) as [->|]; [|done].
      rewrite (proj2 (Z.eqb_neq _ _) Hnz). by rewrite (proj2 (Z.eqb_neq _ _) E).
Qed.

Lemma range_mask_bit count shift i :
  0 <= count < 64 -> 0 <= shift -> shift + count <= 64 -> 0 <= i ->
  Z.testbit (u64 (u64 ((1 .<< count) - 1) .<< shift)) i = (shift <=? i) && (i <? shift + count).
Proof.
  intros Hc Hs Hsc Hi. rewrite Z.shiftl_1_l.
  replace (2 ^ count - 1) with (Z.ones count) by (rewrite Z.ones_equiv; lia).
  assert (u64 (Z.ones count) = Z.ones count) as ->.
  { apply u64_small. rewrite Z.ones_equiv. pose proof (Z.pow_pos_nonneg 2 count).
    pose proof (Z.pow_lt_mono_r 2 count 64). lia. }
  unfold u64. rewrite testbit_wrapu, Z.shiftl_spec, testbit_ones by lia.
  destruct (Z.ltb_spec i 64), (Z.leb_spec 0 (i - shift)), (Z.ltb_spec (i - shift) count),
    (Z.leb_spec shift i), (Z.ltb_spec i (shift + count)); simpl; (done || lia).
Qed.

(** [(v & mask) == mask] says that every bit of the mask is set in [v]. *)
Lemma land_mask_full v mask :
  (v .& mask =? mask) = true <->
  forall i, 0 <= i -> Z.testbit mask i = true -> Z.testbit v i = true.
Proof.
  rewrite Z.eqb_eq. split.
  - intros E i Hi Hm. rewrite <- E, Z.land_spec in Hm. by apply andb_true_iff in Hm as [-> _].
  - intros H. apply Z.bits_inj'. intros i Hi. rewrite Z.land_spec.
    destruct (Z.testbit mask i) eqn:Hm; [by rewrite H|by rewrite andb_false_r].
Qed.

Definition in_range (off count i : Z) : bool := (off <=? i) && (i <? off + count).

Lemma in_range_true off count i : in_range off count i = true <-> off <= i < off + count.
Proof. unfold in_range. rewrite andb_true_iff, Z.leb_le, Z.ltb_lt. done. Qed.

Lemma range_in_word off count i :
  0 <= off -> 0 < count -> off mod 64 + count <= 64 -> 0 <= i ->
  in_range off count i =
    (i / 64 =? off / 64) && ((off mod 64 <=? i mod 64) && (i mod 64 <? off mod 64 + count)).
Proof.
  intros Ho Hc Hs Hi. pose proof (Z.div_mod i 64). pose proof (Z.div_mod off 64).
  pose proof (Z.mod_pos_bound i 64). pose proof (Z.mod_pos_bound off 64).
  apply eq_true_iff_eq. rewrite in_range_true, !andb_true_iff, Z.eqb_eq, Z.leb_le, Z.ltb_lt. nia.
Qed.

(** The contract of [ClearRange], for both of its branches. *)
Definition range_arg_ok (off count : Z) : Prop :=
  0 <= off /\ 0 < count /\
  (if count <? 64 then off mod 64 + count <= 64 else off mod 64 = 0 /\ count mod 64 = 0).

Lemma clear_count b off count :
  bitmap_wf b -> 0 <= off -> 0 <= count -> off + count <= capacity b ->
  (forall i, off <= i < off + count -> is_free b i = true) ->
  u64 (m_num_bits b - count) =
    count_true (fun i => if in_range off count i then false else is_free b i)
      (Z.to_nat (capacity b)).
Proof.
  intros Hb Ho Hc Hcap Hf. pose proof (capacity_bound _ Hb).
  assert (count_true (fun i => if in_range off count i then false else is_free b i)
    (Z.to_nat (capacity b)) = m_num_bits b - count) as E.
  { rewrite (wf_count _ Hb).
    replace (_ - count) with (count_true (is_free b) (Z.to_nat (capacity b)) - Z.of_nat (Z.to_nat count)) by lia.
    apply (count_true_clear_range _ _ _ off); [lia|lia|intros; apply Hf; lia|].
    intros i Hi. unfold in_range. by rewrite Z2Nat.id by done. }
  rewrite E. apply u64_small.
  pose proof (count_true_bounds (fun i => if in_range off count i then false else is_free b i)
    (Z.to_nat (capacity b))). lia.
Qed.

Lemma ClearRange_short b off count :
  bitmap_wf b -> 0 <= off -> 0 < count < 64 -> off mod 64 + count <= 64 ->
  off + count <= capacity b ->
  exists r b', ClearRange b off count = Done true (r, b') /\
    (r = true <-> forall i, off <= i < off + count -> is_free b i = true) /\
    (r = false -> b' = b) /\
    (r = true -> becomes b b' (fun i => if in_range off count i then false else is_free b i)).
Proof.
  intros Hb Ho Hc Hsh Hcap. unfold ClearRange.
  pose proof (wf_depths_pos _ Hb) as Hp. pose proof (wf_depths _ Hb) as Hd.
  destruct (m_used_depths b) as [|depth] eqn:Ed; [lia|].
  rewrite (proj2 (Z.ltb_lt count 64)) by lia.
  rewrite bind_assert_true by (by apply Z.leb_le).
  assert (bottom b = row_at (m_bit_storages b) depth) as Ebot
    by (unfold bottom; rewrite Ed; f_equal; lia).
  assert (0 <= off / 64 < len_at (m_bit_storages b) depth) as Hind.
  { apply (off_div (len_at (m_bit_storages b) depth)). unfold capacity in Hcap.
    rewrite Ebot in Hcap. unfold len_at. lia. }
  rewrite get_word_eq by (done || lia). ostep.
  set (v := word_at (row_at (m_bit_storages b) depth) (off / 64)).
  set (mask := u64 (u64 ((1 .<< count) - 1) .<< (off mod 64))).
  assert (forall i, 0 <= i -> Z.testbit mask i = (off mod 64 <=? i) && (i <? off mod 64 + count))
    as Hm by (intros; apply range_mask_bit; (done || pose proof (Z.mod_pos_bound off 64); lia)).
  assert (forall i, is_free b i = Z.testbit (word_at (row_at (m_bit_storages b) depth) (i / 64)) (i mod 64))
    as Hfree by (intros i; unfold is_free, bit_at; by rewrite Ebot).
  assert ((v .& mask =? mask) = true <-> forall i, off <= i < off + count -> is_free b i = true) as Hiff.
  { rewrite land_mask_full. split.
    - intros H i Hi. assert (in_range off count i = true) as Hr by (by apply in_range_true).
      rewrite range_in_word in Hr by lia. apply andb_true_iff in Hr as [Hq Hr].
      apply Z.eqb_eq in Hq. rewrite Hfree, Hq.
      apply H; [apply Z.mod_pos_bound; lia|]. by rewrite Hm by (apply Z.mod_pos_bound; lia).
    - intros H i Hi Hmi. rewrite Hm in Hmi by done. apply andb_true_iff in Hmi as [M1%Z.leb_le M2%Z.ltb_lt].
      specialize (H (off / 64 * 64 + i)). unfold is_free in H. rewrite bit_at_word, Ebot in H by lia.
      apply H. pose proof (Z.div_mod off 64). lia. }
  destruct (v .& mask =? mask) eqn:Ev; simpl negb; cbv iota.
  - assert (v <> 0) as Hnz.
    { intros E0. rewrite E0, Z.land_0_l in Ev. apply Z.eqb_eq in Ev. specialize (Hm (off mod 64)).
      rewrite <- Ev, Z.bits_0 in Hm. pose proof (Z.mod_pos_bound off 64).
      rewrite (proj2 (Z.leb_le _ _)), (proj2 (Z.ltb_lt _ _)) in Hm by lia. by specialize (Hm ltac:(lia)). }
    set (v' := v .& notu 64 mask).
    assert (in_u 64 v') as Hv'
      by (apply in_u_land; [lia|apply (wf_words _ Hb)|apply notu_nonneg, in_u_mask]).
    rewrite set_word_eq by (done || lia). ostep.
    destruct (clear_word (m_bit_storages b) depth (off / 64) v') as (sts' & E & R); try done.
    + lia.
    + apply (wf_words _ Hb).
    + apply (wf_shape _ Hb).
    + rewrite <- Ed. apply (wf_linked _ Hb).
    + rewrite E. ostep. eexists true, _. split; [done|]. split; [by rewrite <- Hiff|].
      split; [done|]. intros _. destruct R as [R Hrow].
      apply reshaped_becomes; [done|by rewrite Ed| |].
      * intros i Hi. rewrite Ed. replace (Datatypes.S depth - 1)%nat with depth by lia.
        rewrite Hrow, bit_at_insert by done. rewrite range_in_word by lia.
        destruct (Z.eqb_spec (i / 64) (off / 64)) as [Eq|Eq]; simpl.
        -- unfold v'. rewrite testbit_clear, Hm by (apply Z.mod_pos_bound || apply (wf_words _ Hb) || idtac; lia).
           rewrite Hfree, Eq. fold v.
           destruct ((off mod 64 <=? i mod 64) && _); [by rewrite andb_false_r|by rewrite andb_true_r].
        -- unfold is_free. by rewrite Ebot.
      * apply clear_count; try done; try lia. by apply Hiff.
  - exists false, b. split; [done|]. split; [|done]. split; [done|]. intros H. apply Hiff in H. done.
Qed.

Lemma full_word_bits w :
  in_u 64 w -> w = u64 (-1) <-> forall i, 0 <= i < 64 -> Z.testbit w i = true.
Proof.
  intros Hw. change (u64 (-1)) with (Z.ones 64). split.
  - intros -> i Hi. by apply Z.ones_spec_low.
  - intros H. apply Z.bits_inj'. intros i Hi. rewrite testbit_ones by lia.
    destruct (Z.ltb_spec i 64); rewrite (proj2 (Z.leb_le 0 i)) by done; simpl.
    + apply H. lia.
    + apply (testbit_above 64); [done|lia].
Qed.

(** The check loop over [m] whole words. *)
Lemma ClearRange_check_spec m fuel sts depth ind :
  (depth < length sts)%nat -> (0 < m <= fuel)%nat -> 0 <= ind ->
  ind + Z.of_nat m <= len_at sts depth -> 64 * Z.of_nat m < 2 ^ 64 ->
  exists r, ClearRange_check fuel sts depth ind (64 * Z.of_nat m) = Done true r /\
    (r = true <-> forall i, ind <= i < ind + Z.of_nat m -> word_at (row_at sts depth) i = u64 (-1)).
Proof.
  revert fuel ind. induction m as [|m IH]; intros fuel ind Hd Hf Hi Hl Hm; [lia|].
  destruct fuel as [|fuel]; [lia|]. cbn [ClearRange_check].
  rewrite get_word_eq by lia. ostep.
  destruct (Z.eqb_spec (word_at (row_at sts depth) ind) (u64 (-1))) as [E|E]; simpl negb; cbv iota.
  - rewrite u64_small by lia. destruct (Z.ltb_spec 0 (64 * Z.of_nat (Datatypes.S m) - 64)).
    + replace (64 * Z.of_nat (Datatypes.S m) - 64) with (64 * Z.of_nat m) by lia.
      destruct (IH fuel (ind + 1)) as (r & Er & Hr); [done|lia|lia|lia|lia|].
      exists r. split; [done|]. rewrite Hr. split; intros Ha i Hi'; [|apply Ha; lia].
      destruct (Z.eq_dec i ind) as [->|]; [done|]. apply Ha. lia.
    + exists true. split; [done|]. split; [|done]. intros _ i Hi'. by replace i with ind by lia.
  - exists false. split; [done|]. split; [done|]. intros Ha. by rewrite Ha in E by lia.
Qed.

(** The clearing loop over [m] whole nonzero words. *)
Lemma ClearRange_clear_spec m fuel sts depth ind :
  (depth < length sts)%nat -> words_ok sts -> shape_ok sts ->
  (forall d, (Datatypes.S d < Datatypes.S depth)%nat -> linked sts d) ->
  (0 < m <= fuel)%nat -> 0 <= ind -> ind + Z.of_nat m <= len_at sts depth ->
  64 * Z.of_nat m < 2 ^ 64 ->
  (forall i, ind <= i < ind + Z.of_nat m -> word_at (row_at sts depth) i <> 0) ->
  exists sts', ClearRange_clear fuel sts depth ind (64 * Z.of_nat m) = Done true sts' /\
    reshaped (Datatypes.S depth) sts sts' /\
    forall i, word_at (row_at sts' depth) i =
      if in_range ind (Z.of_nat m) i then 0 else word_at (row_at sts depth) i.
Proof.
  revert fuel sts ind. induction m as [|m IH]; intros fuel sts ind Hd Hw Hs Hlk Hf Hi Hl Hm Hnz; [lia|].
  destruct fuel as [|fuel]; [lia|]. cbn [ClearRange_clear].
  rewrite set_word_eq by (done || lia). ostep.
  destruct (clear_word sts depth ind 0) as (sts1 & E1 & [R1 Hrow]); try done; try lia.
  { apply Hnz. lia. }
  change (0 =? 0) with true in E1. cbv iota in E1. rewrite E1. ostep. rewrite u64_small by lia.
  assert (forall i, word_at (row_at sts1 depth) i = if i =? ind then 0 else word_at (row_at sts depth) i)
    as Hw1 by (intros i; rewrite Hrow, word_at_insert by (unfold len_at in Hl; lia); done).
  destruct (Z.ltb_spec 0 (64 * Z.of_nat (Datatypes.S m) - 64)).
  - replace (64 * Z.of_nat (Datatypes.S m) - 64) with (64 * Z.of_nat m) by lia.
    destruct (IH fuel sts1 (ind + 1)) as (sts' & E' & R' & Hw').
    + rewrite (rs_length _ _ _ R1). done.
    + apply (rs_words _ _ _ R1).
    + by eapply reshaped_shape.
    + apply (rs_linked _ _ _ R1).
    + lia.
    + lia.
    + rewrite (rs_len _ _ _ R1). lia.
    + lia.
    + intros i Hi'. rewrite Hw1. destruct (Z.eqb_spec i ind); [lia|]. apply Hnz. lia.
    + exists sts'. split; [done|]. split.
      { split.
        - by rewrite (rs_length _ _ _ R'), (rs_length _ _ _ R1).
        - intros d. by rewrite (rs_len _ _ _ R'), (rs_len _ _ _ R1).
        - apply (rs_words _ _ _ R').
        - apply (rs_linked _ _ _ R'). }
      intros i. rewrite Hw', Hw1. unfold in_range.
      destruct (Z.leb_spec (ind + 1) i), (Z.ltb_spec i (ind + 1 + Z.of_nat m)),
        (Z.leb_spec ind i), (Z.ltb_spec i (ind + Z.of_nat (Datatypes.S m))), (Z.eqb_spec i ind);
        simpl; (done || lia).
  - exists sts1. split; [done|]. split; [done|]. intros i. rewrite Hw1. unfold in_range.
    destruct (Z.leb_spec ind i), (Z.ltb_spec i (ind + Z.of_nat (Datatypes.S m))), (Z.eqb_spec i ind);
      simpl; (done || lia).
Qed.

Lemma word_range off m i :
  0 <= i -> off mod 64 = 0 -> in_range off (64 * m) i = in_range (off / 64) m (i / 64).
Proof.
  intros Hi Ho. pose proof (Z.div_mod off 64). pose proof (Z.div_mod i 64).
  pose proof (Z.mod_pos_bound i 64). apply eq_true_iff_eq. rewrite !in_range_true. lia.
Qed.

Lemma ClearRange_long b off count :
  bitmap_wf b -> 0 <= off -> 64 <= count -> off mod 64 = 0 -> count mod 64 = 0 ->
  off + count <= capacity b ->
  exists r b', ClearRange b off count = Done true (r, b') /\
    (r = true <-> forall i, off <= i < off + count -> is_free b i = true) /\
    (r = false -> b' = b) /\
    (r = true -> becomes b b' (fun i => if in_range off count i then false else is_free b i)).
Proof.
  intros Hb Ho Hc Hoff Hcnt Hcap. unfold ClearRange.
  pose proof (wf_depths_pos _ Hb) as Hp. pose proof (wf_depths _ Hb) as Hd.
  destruct (m_used_depths b) as [|depth] eqn:Ed; [lia|].
  rewrite (proj2 (Z.ltb_ge count 64)) by lia.
  rewrite bind_assert_true by (by apply Z.eqb_eq).
  rewrite bind_assert_true by (by apply Z.eqb_eq).
  set (row := row_at (m_bit_storages b) depth).
  rewrite (arr_get_Some _ _ row); [|lia|rewrite Nat2Z.id; apply row_at_lookup; lia]. ostep.
  assert (bottom b = row) as Ebot by (unfold bottom; rewrite Ed; f_equal; lia).
  unfold capacity in Hcap. rewrite Ebot in Hcap.
  pose proof (capacity_bound _ Hb) as Hcb. unfold capacity in Hcb. rewrite Ebot in Hcb.
  pose proof (Z.div_mod off 64). pose proof (Z.div_mod count 64).
  set (m := Z.to_nat (count / 64)).
  assert (count = 64 * Z.of_nat m) as Ec by lia.
  assert (off / 64 + Z.of_nat m <= len_at (m_bit_storages b) depth) as Hlen by (unfold len_at; fold row; lia).
  assert (0 < m <= Datatypes.S (length row))%nat as Hm by (unfold len_at in Hlen; fold row in Hlen; lia).
  rewrite Ec.
  destruct (ClearRange_check_spec m (Datatypes.S (length row)) (m_bit_storages b) depth (off / 64))
    as (r & E & Hr); [lia|done|lia|done|lia|].
  rewrite E. ostep.
  assert (r = true <-> forall i, off <= i < off + 64 * Z.of_nat m -> is_free b i = true) as Hiff.
  { rewrite Hr. unfold is_free. rewrite Ebot. split; intros Ha i Hi.
    - unfold bit_at. assert (in_range (off / 64) (Z.of_nat m) (i / 64) = true) as Hir
        by (rewrite <- word_range by lia; by apply in_range_true).
      apply in_range_true in Hir. fold row in Ha. rewrite Ha by done.
      change (u64 (-1)) with (Z.ones 64). apply Z.ones_spec_low, Z.mod_pos_bound. lia.
    - apply full_word_bits; [apply (wf_words _ Hb)|]. intros j Hj. fold row.
      rewrite <- bit_at_word by done. apply Ha. lia. }
  destruct r; simpl negb; cbv iota.
  - destruct (ClearRange_clear_spec m (Datatypes.S (length row)) (m_bit_storages b) depth (off / 64))
      as (sts' & E' & R & Hw); try done; try lia.
    + apply (wf_words _ Hb).
    + apply (wf_shape _ Hb).
    + rewrite <- Ed. apply (wf_linked _ Hb).
    + intros i Hi. rewrite (proj1 Hr eq_refl) by done. done.
    + rewrite E'. ostep. eexists true, _. split; [done|]. split; [done|]. split; [done|]. intros _.
      apply reshaped_becomes; [done|by rewrite Ed| |].
      * intros i Hi. rewrite Ed. replace (Datatypes.S depth - 1)%nat with depth by lia.
        unfold bit_at at 1. rewrite Hw, word_range by lia.
        destruct (in_range (off / 64) (Z.of_nat m) (i / 64)); [apply Z.bits_0|].
        unfold is_free. by rewrite Ebot.
      * apply clear_count; try done; try lia; [|by apply Hiff].
        unfold capacity. rewrite Ebot. lia.
  - exists false, b. done.
Qed.

(** Both branches of [ClearRange]: it succeeds exactly when the whole range is free, in which case
    it removes exactly that range; otherwise nothing changes.  No assertion fails. *)
Lemma ClearRange_spec b off count :
  bitmap_wf b -> range_arg_ok off count -> off + count <= capacity b ->
  exists r b', ClearRange b off count = Done true (r, b') /\
    (r = true <-> forall i, off <= i < off + count -> is_free b i = true) /\
    (r = false -> b' = b) /\
    (r = true -> becomes b b' (fun i => if in_range off count i then false else is_free b i)).
Proof.
  intros Hb (Ho & Hc & Ha) Hcap. destruct (Z.ltb_spec count 64).
  - by apply ClearRange_short.
  - destruct Ha. by apply ClearRange_long.
Qed.

(** ** Searching for a free range *)

(** Option [op] of word [w]: the [count] bits from [op * count] are all set. *)
Definition option_free (w count op : Z) : Prop :=
  forall j, 0 <= j < count -> Z.testbit w (op * count + j) = true.

Lemma option_mask w count op :
  0 < count < 64 -> 0 <= op ->
  ((w .>> (op * count)) .& u64 (u64 (1 .<< count) - 1) =? u64 (u64 (1 .<< count) - 1)) = true <->
  option_free w count op.
Proof.
  intros Hc Ho. rewrite land_mask_full.
  assert (u64 (u64 (1 .<< count) - 1) = Z.ones count) as ->.
  { rewrite Z.shiftl_1_l, Z.ones_equiv. pose proof (Z.pow_pos_nonneg 2 count).
    pose proof (Z.pow_lt_mono_r 2 count 64). rewrite (u64_small (2 ^ count)) by lia.
    rewrite u64_small by lia. lia. }
  unfold option_free. split; intros H.
  - intros j Hj. specialize (H j ltac:(lia)). rewrite Z.shiftr_spec in H by lia.
    rewrite (Z.add_comm (op * count)). apply H. by apply Z.ones_spec_low.
  - intros i Hi Hm. rewrite testbit_ones in Hm by lia.
    apply andb_true_iff in Hm as [_ Hm%Z.ltb_lt]. rewrite Z.shiftr_spec by lia.
    rewrite Z.add_comm. apply H. lia.
Qed.

(** A choice among the options seen so far: none, or one that satisfies [good]. *)
Definition chosen_ok (good : Z -> Prop) (nv ch : Z) : Prop :=
  (nv = 0 /\ ch = -1) \/ (0 < nv /\ good ch).

Lemma FindFreeRange_options_spec (good : Z -> Prop) n op count w si nv ch g :
  0 < count < 64 -> 0 <= op -> rng_wf g -> 0 <= nv -> nv + Z.of_nat n < 2 ^ 64 ->
  (forall o, op <= o < op + Z.of_nat n -> option_free w count o -> good (si * 64 + o * count)) ->
  chosen_ok good nv ch ->
  exists nv' ch' g',
    FindFreeRange_options n op count (u64 (u64 (1 .<< count) - 1)) (w .>> (op * count)) si nv ch g
      = mret (nv', ch', g') /\
    rng_wf g' /\ nv <= nv' <= nv + Z.of_nat n /\ chosen_ok good nv' ch' /\
    (nv' = nv -> forall o, op <= o < op + Z.of_nat n -> ~ option_free w count o).
Proof.
  intros Hc. revert op nv ch g. induction n as [|n IH]; intros op nv ch g Ho Hg Hnv Hb Hgood Hch.
  { exists nv, ch, g. split_and!; try done; try lia. }
  cbn [FindFreeRange_options].
  pose proof (option_mask w count op Hc Ho) as Hiff.
  set (mask := u64 (u64 (1 .<< count) - 1)) in *.
  assert ((w .>> (op * count)) .>> count = w .>> ((op + 1) * count)) as Hsh
    by (rewrite Z.shiftr_shiftr by lia; f_equal; lia).
  destruct ((w .>> (op * count)) .& mask =? mask) eqn:E.
  - assert (good (si * 64 + op * count)) as Hg0 by (apply Hgood; [lia|by apply Hiff]).
    assert (exists pick g1, (if nv + 1 =? 1 then mret (true, g)
      else '(r, g) ← GenerateRandom (nv + 1) g; mret (r =? 0, g)) = mret (pick, g1) /\
      rng_wf g1 /\ (nv = 0 -> pick = true)) as (pick & g1 & Ep & Hg1 & Hp).
    { destruct (Z.eqb_spec (nv + 1) 1).
      - by exists true, g.
      - destruct (GenerateRandom_spec (nv + 1) g Hg ltac:(lia)) as (r & g1 & Er & _ & Hg1).
        rewrite Er. ostep. exists (r =? 0), g1. split_and!; try done. lia. }
    rewrite Ep. ostep. rewrite Hsh.
    destruct (IH (op + 1) (nv + 1) (if pick then si * 64 + op * count else ch) g1)
      as (nv' & ch' & g' & E' & G' & B' & C' & N'); try done; try lia.
    + intros o Hoo. apply Hgood. lia.
    + right. split; [lia|]. destruct pick; [done|]. destruct Hch as [[-> _]|[_ ?]]; [|done].
      by specialize (Hp eq_refl).
    + exists nv', ch', g'. split_and!; try done; try lia.
  - ostep. rewrite Hsh.
    destruct (IH (op + 1) nv ch g) as (nv' & ch' & g' & E' & G' & B' & C' & N'); try done; try lia.
    + intros o Hoo. apply Hgood. lia.
    + exists nv', ch', g'. split_and!; try done; try lia.
      intros En o Hoo Hfo. destruct (Z.eq_dec o op) as [->|]; [by apply Hiff in Hfo|].
      apply (N' En o); [lia|done].
Qed.

Lemma FindFreeRange_words_spec (good : Z -> Prop) opts count words si nv ch g :
  0 < count < 64 -> 0 < opts <= 64 -> rng_wf g -> 0 <= nv ->
  nv + opts * Z.of_nat (length words) < 2 ^ 64 ->
  (forall (k : nat) w o, words !! k = Some w -> 0 <= o < opts -> option_free w count o ->
     good ((si + Z.of_nat k) * 64 + o * count)) ->
  chosen_ok good nv ch ->
  exists nv' ch' g',
    FindFreeRange_words words count (u64 (u64 (1 .<< count) - 1)) opts si nv ch g
      = mret (nv', ch', g') /\
    rng_wf g' /\ nv <= nv' /\ chosen_ok good nv' ch' /\
    (nv' = nv -> forall (k : nat) w o, words !! k = Some w -> 0 <= o < opts -> ~ option_free w count o).
Proof.
  intros Hc Hopts. revert si nv ch g.
  induction words as [|w ws IH]; intros si nv ch g Hg Hnv Hb Hgood Hch.
  { exists nv, ch, g. split_and!; try done; lia. }
  cbn [FindFreeRange_words]. simpl length in Hb.
  destruct (FindFreeRange_options_spec good (Z.to_nat opts) 0 count w si nv ch g)
    as (nv1 & ch1 & g1 & E1 & G1 & B1 & C1 & N1); try done; try lia.
  { intros o Ho Hf. replace si with (si + Z.of_nat 0) by lia. apply (Hgood 0%nat w); [done|lia|done]. }
  rewrite Z.mul_0_l, Z.shiftr_0_r in E1. rewrite E1. ostep.
  destruct (IH (si + 1) nv1 ch1 g1) as (nv' & ch' & g' & E' & G' & B' & C' & N'); try done; try lia.
  { intros k w' o Hk Ho Hf. replace (si + 1 + Z.of_nat k) with (si + Z.of_nat (Datatypes.S k)) by lia.
    by apply (Hgood (Datatypes.S k) w'). }
  exists nv', ch', g'. split_and!; try done; try lia.
  intros En [|k] w' o Hk Ho.
  - injection Hk as <-. apply N1; lia.
  - apply (N' ltac:(lia) k w'); done.
Qed.

(** [r] is an option of [FindFreeRange]: an option slot of one word, all free. *)
Definition free_option (b : KPageBitmap) (count r : Z) : Prop :=
  exists si op, 0 <= si < Z.of_nat (length (bottom b)) /\ 0 <= op < 64 / count /\
    r = si * 64 + op * count /\ forall j, 0 <= j < count -> is_free b (r + j) = true.

Lemma option_is_free b count (k : nat) w op :
  0 < count < 64 -> 0 <= op < 64 / count -> bottom b !! k = Some w ->
  option_free w count op <->
  forall j, 0 <= j < count -> is_free b (Z.of_nat k * 64 + op * count + j) = true.
Proof.
  intros Hc Ho Hk. assert (op * count + count <= 64) as Hfit.
  { pose proof (Z.mul_div_le 64 count). nia. }
  assert (word_at (bottom b) (Z.of_nat k) = w) as Hw.
  { unfold word_at. destruct (Z.ltb_spec (Z.of_nat k) 0); [lia|]. by rewrite Nat2Z.id, Hk. }
  unfold option_free, is_free.
  split; intros H j Hj; specialize (H j Hj); rewrite <- Z.add_assoc in *;
    rewrite bit_at_word in * by nia; by rewrite Hw in *.
Qed.

Lemma FindFreeRange_spec b count :
  bitmap_wf b -> 0 < count < 64 ->
  exists r g', FindFreeRange b count =
      Done true (r, mkBitmap (m_bit_storages b) g' (m_num_bits b) (m_used_depths b)) /\
    rng_wf g' /\
    ((r = -1 /\ forall r', ~ free_option b count r') \/ free_option b count r).
Proof.
  intros Hb Hc. unfold FindFreeRange. pose proof (wf_depths_pos _ Hb) as Hp.
  pose proof (wf_depths _ Hb) as Hd. pose proof (capacity_bound _ Hb) as Hcap.
  rewrite (arr_get_Some _ _ (bottom b)); [|lia|].
  2:{ unfold bottom. replace (Z.to_nat (Z.of_nat (m_used_depths b) - 1)) with (m_used_depths b - 1)%nat by lia.
      apply row_at_lookup. lia. }
  ostep. destruct (Z.ltb_spec 0 (Z.of_nat (length (bottom b)))) as [Hpos|Hz].
  - rewrite (proj2 (Z.leb_le count 64)) by lia. simpl negb. cbv iota.
    unfold udiv. rewrite (proj2 (Z.eqb_neq count 0)) by lia. ostep. rewrite shl64_ok by lia. ostep.
    assert (1 <= 64 / count <= 64) as Hq.
    { split; [apply Z.div_le_lower_bound; lia|apply Z.div_le_upper_bound; lia]. }
    rewrite Z.max_l by lia.
    destruct (FindFreeRange_words_spec (free_option b count) (64 / count) count (bottom b) 0 0 (-1) (m_gen b))
      as (nv & ch & g' & E & G & B & C & N); try done; try lia.
    + apply (wf_rng _ Hb).
    + unfold capacity in Hcap. nia.
    + intros k w o Hk Ho Hf. exists (Z.of_nat k), o. rewrite Z.add_0_l.
      apply lookup_lt_Some in Hk as Hlt. split_and!; try done; try lia.
      by eapply option_is_free.
    + by left.
    + rewrite E. ostep. exists ch, g'. split_and!; try done.
      destruct C as [[-> ->]|[_ Hgood]]; [left|by right]. split; [done|].
      intros r' (si & op & Hsi & Hop & -> & Hf).
      destruct (lookup_lt_is_Some_2 (bottom b) (Z.to_nat si)) as [w Hw]; [lia|].
      apply (N eq_refl (Z.to_nat si) w op Hw Hop). eapply option_is_free; try done.
      by rewrite Z2Nat.id by lia.
  - simpl. exists (-1), (m_gen b). split_and!; [by destruct b|apply (wf_rng _ Hb)|].
    left. split; [done|]. intros r' (si & _ & Hsi & _). lia.
Qed.

(** ** Initialisation *)

Lemma words_for_eq size : 0 <= size < 2 ^ 60 -> words_for size = (size + 63) / 64.
Proof.
  intros Hs. unfold words_for. rewrite AlignUp_eq by (unfold in_u; lia).
  rewrite Z.div_mul by lia. f_equal. lia.
Qed.

Lemma words_for_bounds size :
  0 < size < 2 ^ 60 -> 0 < words_for size <= size /\ size <= 64 * words_for size < size + 64.
Proof.
  intros Hs. rewrite words_for_eq by lia.
  pose proof (Z.div_mod (size + 63) 64). pose proof (Z.mod_pos_bound (size + 63) 64). lia.
Qed.

(** The depth found is the number of base-64 digits: [size < 64 ^ depth], and one is enough below 64. *)
Lemma GetRequiredDepth_loop_spec fuel size depth :
  0 <= size < 64 ^ Z.of_nat fuel ->
  exists k, GetRequiredDepth_loop fuel size depth = (depth + k)%nat /\
    size < 64 ^ Z.of_nat k /\ ((0 < fuel)%nat -> (0 < k)%nat).
Proof.
  revert size depth. induction fuel as [|fuel IH]; intros size depth Hs.
  - exists 0%nat. simpl. split_and!; [lia|lia|lia].
  - cbn [GetRequiredDepth_loop]. rewrite Nat2Z.inj_succ, Z.pow_succ_r in Hs by lia.
    pose proof (Z.div_mod size 64). pose proof (Z.mod_pos_bound size 64).
    destruct (Z.eqb_spec (size / 64) 0).
    + exists 1%nat. change (64 ^ Z.of_nat 1) with 64. split_and!; lia.
    + destruct (IH (size / 64) (Datatypes.S depth)) as (k & E & Hk & _).
      { split; [apply Z.div_pos; lia|apply Z.div_lt_upper_bound; lia]. }
      exists (Datatypes.S k). rewrite E. rewrite (Nat2Z.inj_succ k), Z.pow_succ_r by lia. split_and!; lia.
Qed.

Lemma GetRequiredDepth_spec size :
  0 <= size < 2 ^ 60 ->
  (0 < GetRequiredDepth size)%nat /\ size < 64 ^ Z.of_nat (GetRequiredDepth size).
Proof.
  intros Hs. unfold GetRequiredDepth.
  destruct (GetRequiredDepth_loop_spec 64 size 0) as (k & -> & H1 & H2).
  { split; [lia|]. apply Z.lt_trans with (2 ^ 60); [lia|by vm_compute]. }
  simpl. split; [apply H2; lia|done].
Qed.

Definition all_zero_rows (sts : list (list Z)) : Prop := Forall (Forall (fun w => w = 0)) sts.

(** Rows stacked by the loop: each one is at most 64 times the one above it. *)
Fixpoint stacked (sts : list (list Z)) : Prop :=
  match sts with
  | r1 :: (r2 :: _) as rest =>
      Z.of_nat (length r2) <= 64 * Z.of_nat (length r1) /\ stacked rest
  | _ => True
  end.

Lemma stacked_len sts d :
  stacked sts -> (Datatypes.S d < length sts)%nat -> len_at sts (Datatypes.S d) <= 64 * len_at sts d.
Proof.
  revert d. induction sts as [|r1 [|r2 rest] IH]; intros d Hs Hd; simpl in Hd; try lia.
  destruct Hs as [H1 H2]. destruct d as [|d]; [done|].
  apply (IH d H2). simpl. lia.
Qed.

Lemma overhead_loop_acc m s k :
  CalculateManagementOverheadSize_loop m s k = CalculateManagementOverheadSize_loop m s 0 + k.
Proof.
  revert s k. induction m as [|m IH]; intros s k; simpl; [lia|].
  rewrite (IH _ (k + words_for s)), (IH _ (words_for s)). lia.
Qed.

Lemma Initialize_loop_spec n storage size acc :
  0 < size < 2 ^ 60 -> Forall (fun w => w = 0) storage -> size <= 64 ^ Z.of_nat n ->
  (match acc with [] => True | r :: _ => Z.of_nat (length r) = size end) ->
  stacked acc -> all_zero_rows acc ->
  CalculateManagementOverheadSize_loop n size 0 <= Z.of_nat (length storage) ->
  exists sts rest, Initialize_loop n storage size acc = mret (sts, rest) /\
    length sts = (n + length acc)%nat /\ stacked sts /\ all_zero_rows sts /\
    ((0 < n)%nat \/ size = 1 /\ acc <> [] -> len_at sts 0 = 1) /\
    Z.of_nat (length storage) - Z.of_nat (length rest) = CalculateManagementOverheadSize_loop n size 0 /\
    (forall r, list.last acc = Some r -> list.last sts = Some r) /\
    (acc = [] -> (0 < n)%nat -> exists r, list.last sts = Some r /\ Z.of_nat (length r) = words_for size).
Proof.
  pose proof overhead_loop_acc as Hacc.
  revert storage size acc. induction n as [|n IH]; intros storage size acc Hs Hz Hn Ha Hst Haz Hov.
  - exists acc, storage. simpl in *. split_and!; try done; try lia.
    intros [?|[-> Hne]]; [lia|]. by destruct acc.
  - cbn [Initialize_loop CalculateManagementOverheadSize_loop] in *.
    rewrite Hacc in Hov |- *. pose proof (words_for_bounds size Hs) as [Hw Hw'].
    assert (0 <= CalculateManagementOverheadSize_loop n (words_for size) 0) as Hpos.
    { clear -Hacc Hw Hs. assert (0 < words_for size < 2 ^ 60) as H by lia. clear Hs Hw.
      revert H. generalize (words_for size). induction n as [|n IH]; intros s H; simpl; [lia|].
      pose proof (words_for_bounds s H). rewrite Hacc. specialize (IH (words_for s) ltac:(lia)). lia. }
    destruct (Z.ltb_spec (Z.of_nat (length storage)) (words_for size)); [lia|].
    set (row := take (Z.to_nat (words_for size)) storage).
    assert (length row = Z.to_nat (words_for size)) as Hrow by (unfold row; rewrite length_take; lia).
    destruct (IH (drop (Z.to_nat (words_for size)) storage) (words_for size) (row :: acc))
      as (sts & rest & E & L & S1 & Z1 & T1 & O1 & La & _).
    + lia.
    + by apply Forall_drop.
    + rewrite Nat2Z.inj_succ, Z.pow_succ_r in Hn by lia. lia.
    + lia.
    + simpl. destruct acc as [|r acc]; [done|]. split; [lia|done].
    + constructor; [by apply Forall_take|done].
    + rewrite length_drop. lia.
    + exists sts, rest. split_and!; try done.
      * rewrite L. simpl. lia.
      * intros _. apply T1. destruct n as [|n]; [right; split; [|done]|left; lia].
        change (64 ^ Z.of_nat 1) with 64 in Hn. lia.
      * rewrite length_drop in O1. lia.
      * intros r Hr. apply La. destruct acc; [done|]. done.
      * intros -> _. exists row. split; [by apply La|lia].
Qed.

Lemma zero_words sts d i : all_zero_rows sts -> word_at (row_at sts d) i = 0.
Proof.
  intros Hz. unfold word_at, row_at. destruct (i <? 0); [done|].
  destruct (sts !! d) as [r|] eqn:E; [|done]. simpl.
  apply (Forall_lookup_1 _ _ _ _ Hz) in E.
  destruct (r !! Z.to_nat i) as [w|] eqn:Ew; [|done]. by apply (Forall_lookup_1 _ _ _ _ E) in Ew.
Qed.

Lemma count_true_none f n : (forall i, 0 <= i -> f i = false) -> count_true f n = 0.
Proof. intros H. induction n; simpl; [done|]. rewrite H by lia. simpl. lia. Qed.

Lemma GetRequiredDepth_bound size : 0 < size < 2 ^ 24 -> (GetRequiredDepth size <= 4)%nat.
Proof.
  intros Hs. unfold GetRequiredDepth.
  change 64%nat with (4 + 60)%nat. generalize 60%nat as extra. intros extra.
  cbn [Nat.add GetRequiredDepth_loop].
  repeat match goal with |- context [?x =? 0] => destruct (Z.eqb_spec x 0); [lia|] end.
  exfalso. rewrite !Z.div_div in * by lia. change (64 * 64 * 64 * 64) with (2 ^ 24) in *.
  match goal with H : size / _ <> 0 |- _ => apply H; apply Z.div_small; lia end.
Qed.

Lemma Initialize_spec storage size g :
  0 < size < 2 ^ 24 -> rng_wf g -> Forall (fun w => w = 0) storage ->
  CalculateManagementOverheadSize size <= 8 * Z.of_nat (length storage) ->
  exists b rest, Initialize storage size g = Done true (b, rest) /\ bitmap_wf b /\
    (forall i, 0 <= i -> is_free b i = false) /\ size <= capacity b < size + 64 /\
    m_gen b = g /\ m_num_bits b = 0 /\
    8 * (Z.of_nat (length storage) - Z.of_nat (length rest)) = CalculateManagementOverheadSize size.
Proof.
  intros Hs Hg Hz Hov. unfold Initialize.
  destruct (GetRequiredDepth_spec size ltac:(lia)) as [Hd Hd'].
  pose proof (GetRequiredDepth_bound size Hs) as Hmax.
  rewrite bind_assert_true by (apply bool_decide_eq_true; unfold MaxDepth; lia).
  unfold CalculateManagementOverheadSize in *.
  set (n := GetRequiredDepth size) in *.
  destruct (Initialize_loop_spec n storage size []) as (sts & rest & E & L & S1 & Z1 & T1 & O1 & _ & B1);
    try done; try lia.
  { constructor. }
  rewrite E. ostep. simpl in L. rewrite Nat.add_0_r in L.
  destruct (B1 eq_refl Hd) as (r & Hr & Hlr).
  assert (row_at sts (n - 1) = r) as Hrow.
  { unfold row_at. rewrite last_lookup, L in Hr. replace (Nat.pred n) with (n - 1)%nat in Hr by lia. by rewrite Hr. }
  assert (forall i, 0 <= i -> is_free (mkBitmap sts g 0 n) i = false) as Hfree.
  { intros i Hi. unfold is_free, bit_at. unfold bottom. simpl. by rewrite zero_words, Z.bits_0. }
  assert (size <= capacity (mkBitmap sts g 0 n) < size + 64) as Hcap.
  { unfold capacity, bottom. simpl. rewrite Hrow, Hlr.
    pose proof (words_for_bounds size ltac:(lia)). lia. }
  eexists _, rest. split; [done|].
  split; [|by repeat (split; [done|]); lia].
  split; simpl; try done.
  - intros d i. by rewrite zero_words.
  - split; [by apply T1; left|]. intros d. rewrite L. intros. apply stacked_len; [done|lia].
  - intros d _ i _. unfold bit_at. by rewrite !zero_words, Z.bits_0.
  - by rewrite count_true_none.
Qed.

(** What [Initialize] leaves of the storage, and the overhead of a smaller region. *)
Lemma Initialize_loop_rest n : forall storage size acc sts rest,
  Initialize_loop n storage size acc = Done true (sts, rest) -> exists k, rest = drop k storage.
Proof.
  induction n as [|n IH]; intros storage size acc sts rest; simpl.
  - intros [= _ <-]. by exists 0%nat.
  - destruct (_ <? _); [done|]. intros [k ->]%IH. rewrite drop_drop. eauto.
Qed.

Lemma GetRequiredDepth_mono fuel : forall s s' d,
  0 <= s <= s' -> (GetRequiredDepth_loop fuel s d <= GetRequiredDepth_loop fuel s' d)%nat.
Proof.
  assert (forall f s d, (d <= GetRequiredDepth_loop f s d)%nat) as Hge.
  { induction f as [|f IHf]; intros s d; simpl; [lia|]. destruct (s / 64 =? 0); [lia|].
    specialize (IHf (s / 64) (Datatypes.S d)). lia. }
  induction fuel as [|fuel IH]; intros s s' d Hs; simpl; [lia|].
  pose proof (Z.div_le_mono s s' 64 ltac:(lia) ltac:(lia)). pose proof (Z.div_pos s 64 ltac:(lia) ltac:(lia)).
  destruct (Z.eqb_spec (s / 64) 0), (Z.eqb_spec (s' / 64) 0); [lia|apply Hge|lia|apply IH; lia].
Qed.

Lemma overhead_loop_mono n m : forall s s',
  (n <= m)%nat -> 0 < s <= s' -> s' < 2 ^ 60 ->
  0 <= CalculateManagementOverheadSize_loop n s 0 <= CalculateManagementOverheadSize_loop m s' 0.
Proof.
  revert n. induction m as [|m IH]; intros n s s' Hn Hs Hs'.
  { assert (n = 0)%nat as -> by lia. simpl. lia. }
  pose proof (words_for_bounds s ltac:(lia)). pose proof (words_for_bounds s' ltac:(lia)).
  assert (words_for s <= words_for s') by (rewrite !words_for_eq by lia; apply Z.div_le_mono; lia).
  destruct n as [|n]; simpl.
  - rewrite overhead_loop_acc. destruct (IH 0%nat (words_for s') (words_for s')); [lia|lia|lia|]. simpl in *. lia.
  - rewrite (overhead_loop_acc n), (overhead_loop_acc m). destruct (IH n (words_for s) (words_for s')); lia.
Qed.

Lemma overhead_mono s s' :
  0 < s <= s' -> s' < 2 ^ 60 ->
  0 <= CalculateManagementOverheadSize s <= CalculateManagementOverheadSize s'.
Proof.
  intros Hs Hs'. unfold CalculateManagementOverheadSize.
  destruct (overhead_loop_mono (GetRequiredDepth s) (GetRequiredDepth s') s s'); try lia.
  apply GetRequiredDepth_mono. lia.
Qed.
End RandomBits.

(** ** The properties *)

(** [Initialize] over zeroed storage of at least [CalculateManagementOverheadSize] bytes takes
    exactly that many bytes, passes its assertion and leaves a well-formed bitmap with no free
    block, large enough for the region and at most one word larger. *)
Theorem page_bitmap_initialize {S} `{EntropySource S} (storage : list Z) (size : Z) g :
  0 < size < 2 ^ 24 -> rng_wf g -> Forall (fun w => w = 0) storage ->
  CalculateManagementOverheadSize size <= 8 * Z.of_nat (length storage) ->
  exists b rest, KPageBitmap.Initialize storage size g = Done true (b, rest) /\ bitmap_wf b /\
    (forall i, 0 <= i -> is_free b i = false) /\ GetNumBits b = 0 /\
    size <= capacity b < size + 64 /\
    8 * (Z.of_nat (length storage) - Z.of_nat (length rest)) = CalculateManagementOverheadSize size.
Proof.
  intros Hs Hg Hz Ho. destruct (Initialize_spec storage size g Hs Hg Hz Ho)
    as (b & rest & E & W & F & C & _ & N & O). exists b, rest. done.
Qed.

(** C40: [SetBit] and [ClearBit] refine insertion into and removal from the set of free blocks:
    called on a block that is not free (respectively free) they pass every assertion at every
    depth they visit, keep the hierarchy and the counter consistent, and change the status of
    that block only. *)
Theorem page_bitmap_set_clear {S} `{EntropySource S} (b : KPageBitmap) (off : Z) :
  bitmap_wf b -> 0 <= off < capacity b ->
  (is_free b off = false ->
     exists b', SetBit b off = Done true b' /\ GetNumBits b' = GetNumBits b + 1 /\
       becomes b b' (fun i => if i =? off then true else is_free b i)) /\
  (is_free b off = true ->
     exists b', ClearBit b off = Done true b' /\ GetNumBits b' = GetNumBits b - 1 /\
       becomes b b' (fun i => if i =? off then false else is_free b i)).
Proof.
  intros Hb Ho. pose proof (num_bits_bound _ Hb). pose proof (capacity_bound _ Hb).
  split; intros Hf.
  - destruct (SetBit_spec b off Hb Ho Hf) as (b' & E & B). exists b'. split_and!; try done.
    unfold SetBit in E. run_inv E. injection E as <-. unfold GetNumBits. simpl. apply u64_small. lia.
  - destruct (ClearBit_spec b off Hb Ho Hf) as (b' & E & B). exists b'. split_and!; try done.
    unfold ClearBit in E. run_inv E. injection E as <-. unfold GetNumBits. simpl. apply u64_small.
    assert (m_num_bits b <> 0); [|lia]. intros En. rewrite (wf_count _ Hb) in En.
    assert (count_true (is_free b) (Z.to_nat (capacity b)) =
      count_true (fun i => if i =? off then false else is_free b i) (Z.to_nat (capacity b)) + 1) as Hn.
    { apply (count_true_flip _ _ _ off); [lia|by rewrite Z.eqb_refl|].
      intros i Hi. by destruct (Z.eqb_spec i off) as [->|]. }
    pose proof (count_true_bounds (fun i => if i =? off then false else is_free b i) (Z.to_nat (capacity b))).
    lia.
Qed.

(** [FindFreeBlock] is a correct search of the hierarchy: it changes nothing but the random
    generator, answers -1 exactly when no block is free, and otherwise a free block: any one for
    the random search whatever the entropy, the lowest one for the linear search.  The assertion
    that only the top row may be empty never fails. *)
Theorem page_bitmap_find_free_block {S} `{EntropySource S} (b : KPageBitmap) (random : bool) :
  bitmap_wf b ->
  exists r g', FindFreeBlock b random =
      Done true (r, mkBitmap (m_bit_storages b) g' (m_num_bits b) (m_used_depths b)) /\ rng_wf g' /\
    ((r = -1 /\ forall i, 0 <= i -> is_free b i = false) \/
     (0 <= r < capacity b /\ is_free b r = true /\
      (random = false -> forall i, 0 <= i < r -> is_free b i = false))).
Proof. apply FindFreeBlock_spec. Qed.

(** [ClearRange] takes a whole aligned range or nothing: it answers true exactly when every
    block of the range is free, and then removes exactly the range (with the counter lowered by
    its length and the rows above updated); otherwise the bitmap is returned unchanged. *)
Theorem page_bitmap_clear_range {S} `{EntropySource S} (b : KPageBitmap) (off count : Z) :
  bitmap_wf b -> range_arg_ok off count -> off + count <= capacity b ->
  exists r b', ClearRange b off count = Done true (r, b') /\
    (r = true <-> forall i, off <= i < off + count -> is_free b i = true) /\
    (r = false -> b' = b) /\
    (r = true -> becomes b b' (fun i => if in_range off count i then false else is_free b i)).
Proof. apply ClearRange_spec. Qed.

(** [FindFreeRange] for fewer than 64 blocks always returns (its reservoir sampling never
    draws below its bound), and its answer is a slot of one word whose [count] blocks are all
    free, or -1 exactly when no slot is free. *)
Theorem page_bitmap_find_free_range {S} `{EntropySource S} (b : KPageBitmap) (count : Z) :
  bitmap_wf b -> 0 < count < 64 ->
  exists r g', FindFreeRange b count =
      Done true (r, mkBitmap (m_bit_storages b) g' (m_num_bits b) (m_used_depths b)) /\ rng_wf g' /\
    ((r = -1 /\ forall r', ~ free_option b count r') \/ free_option b count r).
Proof. apply FindFreeRange_spec. Qed.

(** The guard of [FindFreeRange] lets [count] = 64 through, and the free mask is then built
    with a shift by the full width of the word: the call is undefined on every bitmap that has a
    word to search. *)
Theorem page_bitmap_find_free_range_64_undefined {S} `{EntropySource S} (b : KPageBitmap) :
  bitmap_wf b -> 0 < capacity b -> FindFreeRange b 64 = Undef.
Proof.
  intros Hb Hc. unfold FindFreeRange. pose proof (wf_depths_pos _ Hb). pose proof (wf_depths _ Hb).
  rewrite (arr_get_Some _ _ (bottom b)); [|lia|].
  2:{ unfold bottom. replace (Z.to_nat (Z.of_nat (m_used_depths b) - 1)) with (m_used_depths b - 1)%nat by lia.
      apply row_at_lookup. lia. }
  ostep. unfold capacity in Hc. by rewrite (proj2 (Z.ltb_lt 0 (Z.of_nat (length (bottom b))))) by lia.
Qed.

(** ** A concrete bitmap: two depths over a region of 100 blocks, with blocks 70 and 71 free *)

Definition demo_rng : RandomBitGenerator := mkRng (TinyMT.Initialize 7) 0 0.
Definition demo_empty : KPageBitmap := mkBitmap [[0]; [0; 0]] demo_rng 0 2.
Definition demo_bitmap : KPageBitmap := mkBitmap [[2]; [0; 192]] demo_rng 2 2.

Lemma demo_rng_wf : rng_wf demo_rng.
Proof.
  apply mkRng_wf; [|by vm_compute|lia].
  apply (proj1 (TinyMT.Initialize_ok 7 ltac:(by vm_compute))).
Qed.

Lemma demo_empty_wf : bitmap_wf demo_empty.
Proof.
  destruct (Initialize_spec (replicate 3 0) 100 demo_rng) as (b & rest & E & W & _);
    [lia|apply demo_rng_wf|by repeat constructor|by vm_compute|].
  assert (KPageBitmap.Initialize (replicate 3 0) 100 demo_rng = Done true (demo_empty, [])) as E' by reflexivity.
  rewrite E' in E. by injection E as <- <-.
Qed.

Lemma demo_set b b' off :
  bitmap_wf b -> (0 <=? off) && (off <? capacity b) = true -> is_free b off = false ->
  SetBit b off = Done true b' -> bitmap_wf b'.
Proof.
  intros Hb [H1%Z.leb_le H2%Z.ltb_lt]%andb_true_iff Hf E.
  destruct (SetBit_spec b off Hb ltac:(lia) Hf) as (b1 & E1 & B). rewrite E in E1.
  injection E1 as ->. apply B.
Qed.

Lemma demo_bitmap_wf : bitmap_wf demo_bitmap.
Proof.
  apply (demo_set (mkBitmap [[2]; [0; 64]] demo_rng 1 2) demo_bitmap 71); try reflexivity.
  apply (demo_set demo_empty (mkBitmap [[2]; [0; 64]] demo_rng 1 2) 70); try reflexivity.
  apply demo_empty_wf.
Qed.

Lemma page_bitmap_initialize_witness :
  exists b rest, KPageBitmap.Initialize (replicate 3 0) 100 demo_rng = Done true (b, rest) /\ bitmap_wf b.
Proof.
  destruct (page_bitmap_initialize (replicate 3 0) 100 demo_rng) as (b & rest & E & W & _);
    [lia|apply demo_rng_wf|by repeat constructor|by vm_compute|]. by exists b, rest.
Defined.

Lemma page_bitmap_set_clear_witness :
  is_free demo_bitmap 70 = true /\
  exists b', ClearBit demo_bitmap 70 = Done true b' /\ GetNumBits b' = 1.
Proof.
  split; [reflexivity|].
  destruct (page_bitmap_set_clear demo_bitmap 70 demo_bitmap_wf) as [_ H]; [by vm_compute|].
  destruct (H eq_refl) as (b' & E & N & _). by exists b'.
Defined.

Lemma page_bitmap_find_free_block_witness :
  exists r b', FindFreeBlock demo_bitmap false = Done true (r, b') /\ r = 70.
Proof.
  destruct (page_bitmap_find_free_block demo_bitmap false demo_bitmap_wf) as (r & g' & E & _).
  eexists r, _. split; [exact E|]. by injection E as <- _.
Defined.

Lemma page_bitmap_clear_range_witness :
  exists b', ClearRange demo_bitmap 70 2 = Done true (true, b') /\ bitmap_wf b'.
Proof.
  destruct (page_bitmap_clear_range demo_bitmap 70 2 demo_bitmap_wf) as (r & b' & E & _ & _ & B);
    [by split_and!|by vm_compute|].
  assert (r = true) as -> by (by injection E as <- _). exists b'. split; [done|]. by apply B.
Defined.

Lemma page_bitmap_find_free_range_witness :
  exists b', FindFreeRange demo_bitmap 2 = Done true (70, b').
Proof.
  destruct (page_bitmap_find_free_range demo_bitmap 2 demo_bitmap_wf) as (r & g' & E & _); [lia|].
  assert (r = 70) as -> by (by injection E as <- _). eexists. exact E.
Defined.

Lemma page_bitmap_find_free_range_64_undefined_witness : FindFreeRange demo_bitmap 64 = Undef.
Proof. apply page_bitmap_find_free_range_64_undefined; [apply demo_bitmap_wf|by vm_compute]. Defined.
