(* ===== verification/KPageHeap.v ===== *)
(** * KPageHeap: src/core/hle/kernel/k_page_heap.{h,cpp}

    The buddy allocator of physical pages: one [Block] level per block size, each with a bitmap of
    its free blocks.  The heap is verified against the interface [FreeBitmap] of a bitmap, which
    the theorems of KPageBitmap.v discharge.  The main results: [Free] adds exactly the freed range
    to the free memory, both allocators take out exactly what they return, they fail only when no
    suitable block exists, and the free memory is always maximally coalesced. *)

From S2P Require Import Prelude Common TinyMT KPageBitmap.

(** ** What the heap needs from a bitmap *)

Class FreeBitmap (B : Type) := {
  bm_init : B -> list Z -> Z -> outcome (B * list Z);
  bm_set : B -> Z -> outcome B;
  bm_clear : B -> Z -> outcome B;
  bm_clear_range : B -> Z -> Z -> outcome (bool * B);
  bm_find : B -> bool -> outcome (Z * B);
  bm_num : B -> Z;
  (* the abstract view *)
  bm_ready : B -> Prop;
  bm_wf : B -> Prop;
  bm_free : B -> Z -> bool;
  bm_cap : B -> Z;
  bm_same (b b' : B) (f : Z -> bool) : Prop :=
    bm_wf b' /\ bm_cap b' = bm_cap b /\ forall i, 0 <= i -> bm_free b' i = f i;
  (* the laws *)
  bm_init_law b storage size :
    bm_ready b -> 0 < size < 2 ^ 24 -> Forall (fun w => w = 0) storage ->
    CalculateManagementOverheadSize size <= 8 * Z.of_nat (length storage) ->
    exists b' n, bm_init b storage size = Done true (b', drop n storage) /\ bm_wf b' /\
      8 * Z.of_nat n = CalculateManagementOverheadSize size /\
      size <= bm_cap b' < size + 64 /\ forall i, 0 <= i -> bm_free b' i = false;
  bm_free_range b i : bm_wf b -> 0 <= i -> bm_free b i = true -> i < bm_cap b;
  bm_num_zero b : bm_wf b -> 0 <= bm_num b <= 2 ^ 24 /\ (bm_num b = 0 <-> forall i, 0 <= i -> bm_free b i = false);
  bm_num_count b : bm_wf b -> 0 <= bm_cap b /\ bm_num b = count_true (bm_free b) (Z.to_nat (bm_cap b));
  bm_set_law b off :
    bm_wf b -> 0 <= off < bm_cap b -> bm_free b off = false ->
    exists b', bm_set b off = Done true b' /\
      bm_same b b' (fun i => if i =? off then true else bm_free b i);
  bm_clear_law b off :
    bm_wf b -> 0 <= off < bm_cap b -> bm_free b off = true ->
    exists b', bm_clear b off = Done true b' /\
      bm_same b b' (fun i => if i =? off then false else bm_free b i);
  bm_clear_range_law b off count :
    bm_wf b -> range_arg_ok off count -> off + count <= bm_cap b ->
    exists r b', bm_clear_range b off count = Done true (r, b') /\
      (r = true <-> forall i, off <= i < off + count -> bm_free b i = true) /\
      (r = false -> b' = b) /\
      (r = true -> bm_same b b' (fun i => if in_range off count i then false else bm_free b i));
  bm_find_law b random :
    bm_wf b ->
    exists r b', bm_find b random = Done true (r, b') /\ bm_same b b' (bm_free b) /\
      ((r = -1 /\ forall i, 0 <= i -> bm_free b i = false) \/
       (0 <= r < bm_cap b /\ bm_free b r = true /\
        (random = false -> forall i, 0 <= i < r -> bm_free b i = false)))
}.

(** The bitmap of KPageBitmap.v keeps these promises. *)
Section Instance_KPageBitmap.
Context {S : Type} {ES : EntropySource S}.
Implicit Types b : KPageBitmap (S := S).

Lemma KPageBitmap_init_law b storage size :
  rng_wf (m_gen b) -> 0 < size < 2 ^ 24 -> Forall (fun w => w = 0) storage ->
  CalculateManagementOverheadSize size <= 8 * Z.of_nat (length storage) ->
  exists b' n, KPageBitmap.Initialize storage size (m_gen b) = Done true (b', drop n storage) /\
    bitmap_wf b' /\ 8 * Z.of_nat n = CalculateManagementOverheadSize size /\
    size <= capacity b' < size + 64 /\ forall i, 0 <= i -> is_free b' i = false.
Proof.
  intros Hg Hs Hz Ho.
  destruct (Initialize_spec storage size (m_gen b) Hs Hg Hz Ho) as (b' & rest & E & W & F & C & _ & _ & O).
  pose proof E as E'. unfold KPageBitmap.Initialize in E'. do 2 run_inv E'. destruct a0 as [sts rest'].
  injection E' as _ ->. apply Initialize_loop_rest in E1 as [n Hn].
  exists b', (length storage - length rest)%nat.
  assert (rest = drop (length storage - length rest) storage) as <-.
  { rewrite Hn, length_drop. destruct (decide (n <= length storage)%nat); [f_equal; lia|].
    rewrite !drop_ge by lia. done. }
  assert (length rest <= length storage)%nat by (rewrite Hn, length_drop; lia). split_and!; done || lia.
Qed.

Lemma KPageBitmap_num_zero b :
  bitmap_wf b -> 0 <= GetNumBits b <= 2 ^ 24 /\
    (GetNumBits b = 0 <-> forall i, 0 <= i -> is_free b i = false).
Proof.
  intros W. pose proof (num_bits_bound b W). pose proof (capacity_bound b W). unfold GetNumBits.
  split; [lia|]. rewrite (wf_count b W). split; [|apply count_true_none].
  intros E i Hi. apply not_true_iff_false. intros Hf. pose proof (is_free_range b i W Hi Hf).
  assert (count_true (is_free b) (Z.to_nat (capacity b)) =
    count_true (fun j => if j =? i then false else is_free b j) (Z.to_nat (capacity b)) + 1) as Hn.
  { apply (count_true_flip _ _ _ i); [lia|by rewrite Z.eqb_refl|].
    intros j Hj. by destruct (Z.eqb_spec j i) as [->|]. }
  pose proof (count_true_bounds (fun j => if j =? i then false else is_free b j) (Z.to_nat (capacity b))). lia.
Qed.

Lemma KPageBitmap_num_count b : bitmap_wf b -> 0 <= capacity b /\ GetNumBits b = count_true (is_free b) (Z.to_nat (capacity b)).
Proof. intros W. pose proof (num_bits_bound b W). split; [lia|apply (wf_count b W)]. Qed.

Definition bitmap_same b b' (f : Z -> bool) : Prop :=
  bitmap_wf b' /\ capacity b' = capacity b /\ forall i, 0 <= i -> is_free b' i = f i.

Lemma becomes_same b b' f : becomes b b' f -> bitmap_same b b' f.
Proof. intros []. by split_and!. Qed.

#[export] Program Instance KPageBitmap_FreeBitmap : FreeBitmap (KPageBitmap (S := S)) := {|
  bm_init b storage size := KPageBitmap.Initialize storage size (m_gen b);
  bm_set := SetBit; bm_clear := ClearBit; bm_clear_range := ClearRange; bm_find := FindFreeBlock;
  bm_num := GetNumBits; bm_ready b := rng_wf (m_gen b); bm_wf := bitmap_wf; bm_free := is_free;
  bm_cap := capacity; bm_init_law := KPageBitmap_init_law; bm_free_range := is_free_range;
  bm_num_zero := KPageBitmap_num_zero; bm_num_count := KPageBitmap_num_count |}.
Next Obligation.
  intros b off W Ho Hf. destruct (SetBit_spec b off W Ho Hf) as (b' & E & H%becomes_same). eauto.
Qed.
Next Obligation.
  intros b off W Ho Hf. destruct (ClearBit_spec b off W Ho Hf) as (b' & E & H%becomes_same). eauto.
Qed.
Next Obligation.
  intros b off count W Ha Hr. destruct (ClearRange_spec b off count W Ha Hr) as (r & b' & E & H1 & H2 & H3).
  exists r, b'. split_and!; try done; try apply H1. intros Hr'. by apply becomes_same, H3.
Qed.
Next Obligation.
  intros b random W. destruct (FindFreeBlock_spec b random W) as (r & g & E & Hg & Hr).
  eexists r, _. split; [exact E|]. split; [|exact Hr]. split_and!; try done. destruct W. by split.
Qed.
End Instance_KPageBitmap.

Section PageHeap.
Context {S : Type} {ES : EntropySource S} {B : Type} {FB : FreeBitmap B}.

(** ** Data *)

Definition PageBits : Z := 12.
Definition PageSize : Z := 4096.
Definition MemoryBlockPageShifts : list Z := [0xC; 0x10; 0x15; 0x16; 0x19; 0x1D; 0x1E].
Definition NumMemoryBlockPageShifts : Z := 7.

Record Block := mkBlock {
  m_bitmap : B;
  bk_heap_address : Z;
  m_end_offset : Z;
  m_block_shift : Z;
  m_next_block_shift : Z
}.

Record KPageHeap := mkHeap {
  m_heap_address : Z;
  m_heap_size : Z;
  m_initial_used_size : Z;
  m_num_blocks : Z;
  m_blocks : list Block;
  m_heap_rng : RandomBitGenerator (S := S)
}.

Definition with_blocks (h : KPageHeap) (bs : list Block) : KPageHeap :=
  mkHeap (m_heap_address h) (m_heap_size h) (m_initial_used_size h) (m_num_blocks h) bs (m_heap_rng h).
Definition with_rng (h : KPageHeap) (g : RandomBitGenerator) : KPageHeap :=
  mkHeap (m_heap_address h) (m_heap_size h) (m_initial_used_size h) (m_num_blocks h) (m_blocks h) g.
Definition with_bitmap (k : Block) (b : B) : Block :=
  mkBlock b (bk_heap_address k) (m_end_offset k) (m_block_shift k) (m_next_block_shift k).

(** ** KPageHeap::Block *)

Definition GetSize (k : Block) : Z := u64 (1 .<< m_block_shift k).
Definition GetNumPages (k : Block) : Z := GetSize k / PageSize.
Definition GetNumFreeBlocks (k : Block) : Z := bm_num (m_bitmap k).
Definition Block_GetNumFreePages (k : Block) : Z := u64 (GetNumFreeBlocks k * GetNumPages k).

Definition Block_Initialize (k : Block) (addr size bs nbs : Z) (bit_storage : list Z) :
    outcome (Block * list Z) :=
  let fin := u64 (addr + size) in
  let align := if negb (nbs =? 0) then u64 (1 .<< nbs) else u64 (1 .<< bs) in
  let addr := AlignDown 64 addr align in
  let fin := AlignUp 64 fin align in
  let end_offset := u64 (fin - addr) / u64 (1 .<< bs) in
  '(b, rest) ← bm_init (m_bitmap k) bit_storage end_offset;
  mret (mkBlock b addr end_offset bs nbs, rest).

(** [PushBlock] answers the address of the coalesced block, or 0. *)
Definition PushBlock (k : Block) (address : Z) : outcome (Z * Block) :=
  let offset := u64 (address - bk_heap_address k) .>> m_block_shift k in
  b ← bm_set (m_bitmap k) offset;
  if negb (m_next_block_shift k =? 0) then
    let diff := u64 (1 .<< u64 (m_next_block_shift k - m_block_shift k)) in
    let offset := AlignDown 64 offset diff in
    '(cleared, b) ← bm_clear_range b offset diff;
    if cleared : bool
    then mret (u64 (bk_heap_address k + u64 (offset .<< m_block_shift k)), with_bitmap k b)
    else mret (0, with_bitmap k b)
  else mret (0, with_bitmap k b).

Definition PopBlock (k : Block) (random : bool) : outcome (Z * Block) :=
  '(soffset, b) ← bm_find (m_bitmap k) random;
  if soffset <? 0 then mret (0, with_bitmap k b)
  else
    b ← bm_clear b soffset;
    mret (u64 (bk_heap_address k + u64 (soffset .<< m_block_shift k)), with_bitmap k b).

Definition Block_CalculateManagementOverheadSize (region_size cur_block_shift next_block_shift : Z) : Z :=
  let cur_block_size := u64 (1 .<< cur_block_shift) in
  let next_block_size := u64 (1 .<< next_block_shift) in
  let align := if negb (next_block_shift =? 0) then next_block_size else cur_block_size in
  KPageBitmap.CalculateManagementOverheadSize
    (u64 (u64 (align * 2) + AlignUp 64 region_size align) / cur_block_size).

(** ** KPageHeap *)

Definition GetAddress (h : KPageHeap) : Z := m_heap_address h.
Definition Heap_GetSize (h : KPageHeap) : Z := m_heap_size h.
Definition GetEndAddress (h : KPageHeap) : Z := u64 (GetAddress h + Heap_GetSize h).
Definition GetPageOffset (h : KPageHeap) (block : Z) : Z := u64 (block - GetAddress h) / PageSize.
Definition GetPageOffsetToEnd (h : KPageHeap) (block : Z) : Z :=
  u64 (GetEndAddress h - block) / PageSize.

(** The loop of [Initialize] over the block shifts. *)
Fixpoint Initialize_blocks (ks : list Block) (shifts : list Z) (addr size : Z) (storage : list Z) :
    outcome (list Block * list Z) :=
  match shifts with
  | [] => mret (ks, storage)
  | cur_block_shift :: rest =>
      match ks with
      | [] => Undef
      | k :: ks' =>
          let next_block_shift := match rest with [] => 0 | s :: _ => s end in
          '(k, storage) ← Block_Initialize k addr size cur_block_shift next_block_shift storage;
          '(ks', storage) ← Initialize_blocks ks' rest addr size storage;
          mret (k :: ks', storage)
      end
  end.

(** [management_data] is the host address the vector [m_management_data] allocates its words at:
    the final assertion compares a pointer into it with the end of the management region. *)
Definition Initialize (h : KPageHeap) (address size management_address management_size : Z)
    (block_shifts : list Z) (management_data : Z) : outcome KPageHeap :=
  let num_block_shifts := Z.of_nat (length block_shifts) in
  ASSERT (IsAligned 64 address PageSize);;
  ASSERT (IsAligned 64 size PageSize);;
  ASSERT ((0 <? num_block_shifts) && (num_block_shifts <=? NumMemoryBlockPageShifts));;
  (* [m_management_data.resize] zero-fills; writing past it is undefined *)
  let storage := replicate (Z.to_nat (management_size / 8)) 0 in
  '(ks, rest) ← Initialize_blocks (m_blocks h) block_shifts address size storage;
  let cur_bitmap_storage :=
    u64 (management_data + 8 * (Z.of_nat (length storage) - Z.of_nat (length rest))) in
  ASSERT (cur_bitmap_storage <=? u64 (management_address + management_size));;
  mret (mkHeap address size (m_initial_used_size h) num_block_shifts ks (m_heap_rng h)).

Fixpoint sum_free_pages (ks : list Block) (num_free : Z) : Z :=
  match ks with
  | [] => num_free
  | k :: ks' => sum_free_pages ks' (u64 (num_free + Block_GetNumFreePages k))
  end.
Definition GetNumFreePages (h : KPageHeap) : Z :=
  sum_free_pages (take (Z.to_nat (m_num_blocks h)) (m_blocks h)) 0.
Definition GetFreeSize (h : KPageHeap) : Z := u64 (GetNumFreePages h * PageSize).

Definition SetInitialUsedSize (h : KPageHeap) (reserved_size : Z) : outcome KPageHeap :=
  let free_size := u64 (GetNumFreePages h * PageSize) in
  ASSERT (u64 (free_size + reserved_size) <=? m_heap_size h);;
  mret (mkHeap (m_heap_address h) (m_heap_size h) (u64 (m_heap_size h - free_size - reserved_size))
          (m_num_blocks h) (m_blocks h) (m_heap_rng h)).

(** [FreeBlock]: the [do ... while] climbs one level per iteration and indexes [m_blocks], so the
    number of levels bounds it. *)
Fixpoint FreeBlock_loop (fuel : nat) (ks : list Block) (block index : Z) : outcome (list Block) :=
  match fuel with
  | O => Undef
  | Datatypes.S fuel' =>
      k ← arr_get ks index;
      '(block, k) ← PushBlock k block;
      ks ← arr_set ks index k;
      if negb (block =? 0) then FreeBlock_loop fuel' ks block (index + 1) else mret ks
  end.
Definition FreeBlock (h : KPageHeap) (block index : Z) : outcome KPageHeap :=
  ks ← FreeBlock_loop (Datatypes.S (length (m_blocks h))) (m_blocks h) block index;
  mret (with_blocks h ks).

(** The three inner loops of [Free]; the caller passes the number of blocks that fit as fuel. *)
Fixpoint free_big (fuel : nat) (h : KPageHeap) (block big_end block_size index : Z) :
    outcome KPageHeap :=
  if block <? big_end then
    match fuel with
    | O => Undef
    | Datatypes.S fuel' =>
        h ← FreeBlock h block index;
        free_big fuel' h (u64 (block + block_size)) big_end block_size index
    end
  else mret h.
Fixpoint free_before (fuel : nat) (h : KPageHeap) (before_start before_end block_size i : Z) :
    outcome (Z * KPageHeap) :=
  if u64 (before_start + block_size) <=? before_end then
    match fuel with
    | O => Undef
    | Datatypes.S fuel' =>
        let before_end := u64 (before_end - block_size) in
        h ← FreeBlock h before_end i;
        free_before fuel' h before_start before_end block_size i
    end
  else mret (before_end, h).
Fixpoint free_after (fuel : nat) (h : KPageHeap) (after_start after_end block_size i : Z) :
    outcome (Z * KPageHeap) :=
  if u64 (after_start + block_size) <=? after_end then
    match fuel with
    | O => Undef
    | Datatypes.S fuel' =>
        h ← FreeBlock h after_start i;
        free_after fuel' h (u64 (after_start + block_size)) after_end block_size i
    end
  else mret (after_start, h).

Definition iterations (lo hi size : Z) : nat := Z.to_nat ((hi - lo) / size).

(** [while (big_index >= 0)], with [n = big_index + 1]: the first level at which a whole block fits. *)
Fixpoint find_big (n : nat) (ks : list Block) (start fin : Z) : outcome (option (nat * Z * Z)) :=
  match n with
  | O => mret None
  | Datatypes.S big_index =>
      k ← arr_get ks (Z.of_nat big_index);
      let block_size := GetSize k in
      let big_start := AlignUp 64 start block_size in
      let big_end := AlignDown 64 fin block_size in
      if big_start <? big_end then mret (Some (big_index, big_start, big_end))
      else find_big big_index ks start fin
  end.

(** [for (i = big_index - 1; i >= 0; i--)], with [n = i + 1]. *)
Fixpoint free_before_levels (n : nat) (h : KPageHeap) (before_start before_end : Z) :
    outcome KPageHeap :=
  match n with
  | O => mret h
  | Datatypes.S i =>
      k ← arr_get (m_blocks h) (Z.of_nat i);
      let block_size := GetSize k in
      '(before_end, h) ← free_before (iterations before_start before_end block_size) h
                           before_start before_end block_size (Z.of_nat i);
      free_before_levels i h before_start before_end
  end.
Fixpoint free_after_levels (n : nat) (h : KPageHeap) (after_start after_end : Z) :
    outcome KPageHeap :=
  match n with
  | O => mret h
  | Datatypes.S i =>
      k ← arr_get (m_blocks h) (Z.of_nat i);
      let block_size := GetSize k in
      '(after_start, h) ← free_after (iterations after_start after_end block_size) h
                            after_start after_end block_size (Z.of_nat i);
      free_after_levels i h after_start after_end
  end.

Definition Free (h : KPageHeap) (addr num_pages : Z) : outcome KPageHeap :=
  if num_pages =? 0 then mret h
  else
    let start := addr in
    let fin := u64 (addr + u64 (num_pages * PageSize)) in
    big ← find_big (Z.to_nat (m_num_blocks h)) (m_blocks h) start fin;
    match big with
    | Some (big_index, big_start, big_end) =>
        k ← arr_get (m_blocks h) (Z.of_nat big_index);
        let block_size := GetSize k in
        h ← free_big (iterations big_start big_end block_size) h big_start big_end block_size
              (Z.of_nat big_index);
        ASSERT (0 <=? Z.of_nat big_index);;
        h ← free_before_levels big_index h start big_start;
        free_after_levels big_index h big_end fin
    | None => ASSERT false;; mret h
    end.

(** [for (i = index; i < m_num_blocks; i++)] of the linear search; [n] levels are left. *)
Fixpoint AllocateByLinearSearch_loop (n : nat) (h : KPageHeap) (needed_size i : Z) :
    outcome (Z * KPageHeap) :=
  match n with
  | O => mret (0, h)
  | Datatypes.S n' =>
      k ← arr_get (m_blocks h) i;
      '(addr, k) ← PopBlock k false;
      ks ← arr_set (m_blocks h) i k;
      let h := with_blocks h ks in
      if negb (addr =? 0) then
        let allocated_size := GetSize k in
        if needed_size <? allocated_size then
          h ← Free h (u64 (addr + needed_size)) (u64 (allocated_size - needed_size) / PageSize);
          mret (addr, h)
        else mret (addr, h)
      else AllocateByLinearSearch_loop n' h needed_size (i + 1)
  end.
Definition AllocateByLinearSearch (h : KPageHeap) (index : Z) : outcome (Z * KPageHeap) :=
  k ← arr_get (m_blocks h) index;
  AllocateByLinearSearch_loop (Z.to_nat (m_num_blocks h - index)) h (GetSize k) index.

(** ** The random allocator *)

(** The possible placements in the free blocks of one level. *)
Definition level_alignments (k : Block) (needed_size align_shift : Z) : outcome Z :=
  s ← shr64 (u64 (GetSize k - needed_size)) align_shift;
  mret (u64 (u64 (1 + s) * GetNumFreeBlocks k)).

Definition MinimumPossibleAlignmentsForRandomAllocation : Z := 4.

(** The first loop: count placements from level [i] on, [n] levels left, until there are enough;
    answers the count and the new [max_blocks]. *)
Fixpoint count_alignments (n : nat) (ks : list Block) (needed_size align_shift i possible : Z) :
    outcome (Z * Z) :=
  match n with
  | O => mret (possible, i)
  | Datatypes.S n' =>
      k ← arr_get ks i;
      a ← level_alignments k needed_size align_shift;
      let possible := u64 (possible + a) in
      if MinimumPossibleAlignmentsForRandomAllocation <=? possible then mret (possible, i + 1)
      else count_alignments n' ks needed_size align_shift (i + 1) possible
  end.

(** The second loop: the level that holds placement number [rnd]; [index] if none does. *)
Fixpoint pick_level (n : nat) (ks : list Block) (needed_size align_shift i possible rnd index : Z) :
    outcome Z :=
  match n with
  | O => mret index
  | Datatypes.S n' =>
      k ← arr_get ks i;
      a ← level_alignments k needed_size align_shift;
      let possible := u64 (possible + a) in
      if rnd <? possible then mret i
      else pick_level n' ks needed_size align_shift (i + 1) possible rnd index
  end.

Definition choose_level (h : KPageHeap) (index needed_size align_shift : Z) : outcome (Z * KPageHeap) :=
  '(possible, max_blocks) ← count_alignments (Z.to_nat (m_num_blocks h - index)) (m_blocks h)
                              needed_size align_shift index 0;
  if (0 <? possible) && (index + 1 <? max_blocks) then
    '(rnd, g) ← GenerateRandom possible (m_heap_rng h);
    index ← pick_level (Z.to_nat (max_blocks - index)) (m_blocks h) needed_size align_shift index 0
              rnd index;
    mret (index, with_rng h g)
  else mret (index, h).

Definition AllocateByRandom (h : KPageHeap) (index num_pages align_pages : Z) :
    outcome (Z * KPageHeap) :=
  let needed_size := u64 (num_pages * PageSize) in
  let align_size := u64 (align_pages * PageSize) in
  let align_shift := countr_zero 64 align_size in
  '(index, h) ← choose_level h index needed_size align_shift;
  k ← arr_get (m_blocks h) index;
  '(addr, k) ← PopBlock k true;
  ks ← arr_set (m_blocks h) index k;
  let h := with_blocks h ks in
  if negb (addr =? 0) then
    let leftover_size := u64 (GetSize k - needed_size) in
    if 0 <? leftover_size then
      s ← shr64 leftover_size align_shift;
      let possible_alignments := u64 (1 + s) in
      '(r, g) ← GenerateRandom possible_alignments (m_heap_rng h);
      let h := with_rng h g in
      random_offset ← shl64 r align_shift;
      h ← (if negb (random_offset =? 0) then Free h addr (random_offset / PageSize) else mret h);
      let addr := u64 (addr + random_offset) in
      h ← (if negb (random_offset =? leftover_size)
           then Free h (u64 (addr + needed_size)) (u64 (leftover_size - random_offset) / PageSize)
           else mret h);
      mret (addr, h)
    else mret (addr, h)
  else mret (0, h).

Definition AllocateBlock (h : KPageHeap) (index : Z) (random : bool) : outcome (Z * KPageHeap) :=
  if random then
    k ← arr_get (m_blocks h) index;
    AllocateByRandom h index (GetNumPages k) (GetNumPages k)
  else AllocateByLinearSearch h index.

Definition AllocateAligned (h : KPageHeap) (index num_pages align_pages : Z) :
    outcome (Z * KPageHeap) := AllocateByRandom h index num_pages align_pages.

(** ** The static size computations *)

Fixpoint GetAlignedBlockIndex_loop (shifts : list Z) (i target_pages : Z) : Z :=
  match shifts with
  | [] => -1
  | s :: rest =>
      if target_pages <=? u64 (1 .<< s) / PageSize then i
      else GetAlignedBlockIndex_loop rest (i + 1) target_pages
  end.
Definition GetAlignedBlockIndex (num_pages align_pages : Z) : Z :=
  GetAlignedBlockIndex_loop MemoryBlockPageShifts 0 (Z.max num_pages align_pages).

(** From the largest shift down; [n = i + 1]. *)
Fixpoint GetBlockIndex_loop (n : nat) (num_pages : Z) : Z :=
  match n with
  | O => -1
  | Datatypes.S i =>
      if u64 (1 .<< nth i MemoryBlockPageShifts 0) / PageSize <=? num_pages then Z.of_nat i
      else GetBlockIndex_loop i num_pages
  end.
Definition GetBlockIndex (num_pages : Z) : Z :=
  GetBlockIndex_loop (Z.to_nat NumMemoryBlockPageShifts) num_pages.

Definition GetBlockSize (index : Z) : outcome Z :=
  s ← arr_get MemoryBlockPageShifts index; mret (u64 (1 .<< s)).
Definition GetBlockNumPages (index : Z) : outcome Z :=
  s ← GetBlockSize index; mret (s / PageSize).

Fixpoint overhead_of_shifts (shifts : list Z) (region_size overhead_size : Z) : Z :=
  match shifts with
  | [] => overhead_size
  | cur_block_shift :: rest =>
      let next_block_shift := match rest with [] => 0 | s :: _ => s end in
      overhead_of_shifts rest region_size
        (u64 (overhead_size +
              Block_CalculateManagementOverheadSize region_size cur_block_shift next_block_shift))
  end.
Definition Heap_CalculateManagementOverheadSize (region_size : Z) (block_shifts : list Z) : Z :=
  AlignUp 64 (overhead_of_shifts block_shifts region_size 0) PageSize.

(** ** The abstract view: the free memory *)

Definition bsize (k : Block) : Z := 2 ^ m_block_shift k.

(** Address [a] lies in a free block of level [k]. *)
Definition covers (k : Block) (a : Z) : Prop :=
  bk_heap_address k <= a /\ bm_free (m_bitmap k) ((a - bk_heap_address k) / bsize k) = true.

Definition avail (ks : list Block) (a : Z) : Prop :=
  exists i k, ks !! i = Some k /\ covers k a.

(** The number of blocks of one level that make a block of the next. *)
Definition group (k : Block) : Z := 2 ^ (m_next_block_shift k - m_block_shift k).

(** No group of buddies is entirely free. *)
Definition coalesced (k : Block) : Prop :=
  m_next_block_shift k <> 0 ->
  forall g, 0 <= g -> exists j, 0 <= j < group k /\ bm_free (m_bitmap k) (g * group k + j) = false.

Section Layout.
(** The block shifts, and the first and last address of the heap. *)
Context (sh : list Z) (ha he : Z).

Definition shifts_ok : Prop :=
  sh !! 0%nat = Some PageBits /\ Forall (fun s => 12 <= s <= 40) sh /\
  forall i s s', sh !! i = Some s -> sh !! Datatypes.S i = Some s' -> s < s'.

Definition next_shift (i : nat) : Z := default 0 (sh !! Datatypes.S i).

(** The alignment of a level: the size of the next level's blocks. *)
Definition level_align (k : Block) : Z :=
  if m_next_block_shift k =? 0 then bsize k else 2 ^ m_next_block_shift k.

Record level_ok (i : nat) (k : Block) : Prop := {
  lv_shift : sh !! i = Some (m_block_shift k);
  lv_next : m_next_block_shift k = next_shift i;
  lv_bitmap : bm_wf (m_bitmap k);
  lv_align : (level_align k | bk_heap_address k);
  lv_base : 0 <= bk_heap_address k <= ha;
  lv_end_align : (level_align k | m_end_offset k * bsize k);
  lv_end : he <= bk_heap_address k + m_end_offset k * bsize k;
  lv_cap : 0 <= m_end_offset k <= bm_cap (m_bitmap k);
  lv_room : bk_heap_address k + bm_cap (m_bitmap k) * bsize k < 2 ^ 62
}.

Record blocks_wf (ks : list Block) : Prop := {
  bw_len : length ks = length sh;
  bw_level i k : ks !! i = Some k -> level_ok i k;
  bw_bounds i k a : ks !! i = Some k -> covers k a -> ha <= a < he;
  bw_disjoint i j k k' a :
    ks !! i = Some k -> ks !! j = Some k' -> covers k a -> covers k' a -> i = j;
  bw_coalesced i k : ks !! i = Some k -> coalesced k
}.
End Layout.

(** A heap over the range of its addresses, with page aligned bounds and the last address low
    enough that aligning it up cannot wrap. *)
Record heap_wf (sh : list Z) (h : KPageHeap) : Prop := {
  hw_shifts : shifts_ok sh;
  hw_num : m_num_blocks h = Z.of_nat (length sh);
  hw_addr : 0 < m_heap_address h;
  hw_size : 0 < m_heap_size h;
  hw_end : m_heap_address h + m_heap_size h < 2 ^ 62;
  hw_blocks : blocks_wf sh (m_heap_address h) (m_heap_address h + m_heap_size h) (m_blocks h);
  hw_rng : rng_wf (m_heap_rng h)
}.

Definition heap_avail (h : KPageHeap) (a : Z) : Prop := avail (m_blocks h) a.

(** ** Blocks and offsets *)

Lemma bsize_pos k : 0 <= m_block_shift k -> 0 < bsize k.
Proof. intros. apply Z.pow_pos_nonneg; lia. Qed.

Lemma div_interval x p o : 0 < p -> x / p = o <-> o * p <= x < (o + 1) * p.
Proof.
  intros Hp. split.
  - intros <-. pose proof (Z.div_mod x p). pose proof (Z.mod_pos_bound x p Hp). nia.
  - intros H. symmetry. apply Z.div_unique with (x - o * p); nia.
Qed.

(** The addresses of block [o] of a level are covered exactly when its bit is set. *)
Lemma covers_in_block k o x :
  0 < bsize k -> 0 <= o ->
  bk_heap_address k + o * bsize k <= x < bk_heap_address k + (o + 1) * bsize k ->
  covers k x <-> bm_free (m_bitmap k) o = true.
Proof.
  intros Hp Ho Hx. unfold covers.
  assert ((x - bk_heap_address k) / bsize k = o) as -> by (apply div_interval; nia).
  split; [by intros []|]. intros. split; [nia|done].
Qed.

Lemma covers_offset k x :
  0 < bsize k -> covers k x -> exists o, 0 <= o /\ bm_free (m_bitmap k) o = true /\
    bk_heap_address k + o * bsize k <= x < bk_heap_address k + (o + 1) * bsize k.
Proof.
  intros Hp [H1 H2]. exists ((x - bk_heap_address k) / bsize k).
  pose proof (proj1 (div_interval (x - bk_heap_address k) (bsize k) _ Hp) eq_refl).
  split_and!; [apply Z.div_pos; lia|done|lia|lia].
Qed.

(** A level's bitmap changed to [f] on whole blocks changes the cover accordingly. *)
Lemma covers_with_bitmap k b x :
  covers (with_bitmap k b) x <->
  bk_heap_address k <= x /\ bm_free b ((x - bk_heap_address k) / bsize k) = true.
Proof. done. Qed.

Lemma level_ok_with_bitmap sh ha he i k b f :
  level_ok sh ha he i k -> bm_same (m_bitmap k) b f -> level_ok sh ha he i (with_bitmap k b).
Proof.
  intros [? ? ? ? ? ? ? ? ?] (H1 & H2 & H3). split; simpl; try done; by rewrite H2.
Qed.

Section LevelFacts.
Context (sh : list Z) (ha he : Z) (Hsh : shifts_ok sh).

Lemma level_shift_range i k : level_ok sh ha he i k -> 12 <= m_block_shift k <= 40.
Proof using Hsh.
  intros H. destruct Hsh as (_ & Hf & _). eapply (Forall_lookup_1 _ _ _ _ Hf). apply (lv_shift _ _ _ _ _ H).
Qed.

Lemma level_bsize i k : level_ok sh ha he i k -> 4096 <= bsize k <= 2 ^ 40.
Proof using Hsh.
  intros H%level_shift_range. unfold bsize. change 4096 with (2 ^ 12).
  split; apply Z.pow_le_mono_r; lia.
Qed.

Lemma level_GetSize i k : level_ok sh ha he i k -> GetSize k = bsize k.
Proof using Hsh.
  intros H. pose proof (level_bsize i k H). unfold GetSize. rewrite Z.shiftl_1_l.
  apply u64_small. unfold bsize in *. lia.
Qed.

(** The next shift, when there is one, is larger. *)
Lemma level_next i k :
  level_ok sh ha he i k -> m_next_block_shift k <> 0 ->
  sh !! Datatypes.S i = Some (m_next_block_shift k) /\
  m_block_shift k < m_next_block_shift k <= 40 /\ 2 ^ m_next_block_shift k = group k * bsize k /\
  2 <= group k <= 2 ^ 28.
Proof using Hsh.
  intros H Hne. pose proof (level_shift_range i k H) as Hr. destruct Hsh as (_ & Hf & Hmono).
  pose proof (lv_next _ _ _ _ _ H) as Hn. unfold next_shift in Hn.
  destruct (sh !! Datatypes.S i) as [s'|] eqn:E; simpl in Hn; [|done]. rewrite Hn.
  pose proof (Hmono i _ _ (lv_shift _ _ _ _ _ H) E) as Hlt.
  pose proof (Forall_lookup_1 _ _ _ _ Hf E) as Hs'. simpl in Hs'.
  split; [done|]. split; [lia|]. unfold group, bsize. rewrite Hn.
  split; [rewrite <- Z.pow_add_r by lia; f_equal; lia|].
  change 2 with (2 ^ 1) at 1. split; apply Z.pow_le_mono_r; lia.
Qed.

Lemma level_align_bsize i k : level_ok sh ha he i k -> (bsize k | level_align k).
Proof using Hsh.
  intros H. unfold level_align. destruct (Z.eqb_spec (m_next_block_shift k) 0) as [|Hne]; [done|].
  destruct (level_next i k H Hne) as (_ & _ & -> & _). by exists (group k).
Qed.

Lemma base_aligned i k : level_ok sh ha he i k -> (bsize k | bk_heap_address k).
Proof using Hsh.
  intros H. eapply Z.divide_trans; [by eapply level_align_bsize|apply (lv_align _ _ _ _ _ H)].
Qed.

(** An aligned block of the heap has an offset in the level's bitmap. *)
Lemma block_offset i k a :
  level_ok sh ha he i k -> (bsize k | a) -> ha <= a -> a + bsize k <= he ->
  let o := (a - bk_heap_address k) / bsize k in
  a = bk_heap_address k + o * bsize k /\ 0 <= o < m_end_offset k /\
  u64 (a - bk_heap_address k) .>> m_block_shift k = o.
Proof using Hsh.
  intros H Ha Hlo Hhi o. pose proof (level_bsize i k H) as Hb. pose proof (lv_base _ _ _ _ _ H) as Hbase.
  pose proof (lv_end _ _ _ _ _ H) as Hend. pose proof (lv_room _ _ _ _ _ H) as Hroom.
  pose proof (lv_cap _ _ _ _ _ H) as Hcap. pose proof (level_shift_range i k H).
  assert (o * bsize k = a - bk_heap_address k) as Ho.
  { unfold o. rewrite Z.mul_comm, <- Z.divide_div_mul_exact, Z.mul_comm, Z.div_mul; try lia.
    apply Z.divide_sub_r; [done|by eapply base_aligned]. }
  assert (0 <= o) by (apply Z.div_pos; lia).
  assert (m_end_offset k * bsize k <= bm_cap (m_bitmap k) * bsize k) by nia.
  split_and!; [lia|done|nia|]. rewrite u64_small by nia. apply Z.shiftr_div_pow2. lia.
Qed.

Lemma u64_diff i k :
  level_ok sh ha he i k -> m_next_block_shift k <> 0 ->
  u64 (1 .<< u64 (m_next_block_shift k - m_block_shift k)) = group k.
Proof using Hsh.
  intros H Hne. destruct (level_next i k H Hne) as (_ & Hlt & _ & Hg).
  pose proof (level_shift_range i k H). rewrite (u64_small (_ - _)) by lia. rewrite Z.shiftl_1_l.
  apply u64_small. unfold group in *. lia.
Qed.

(** Aligning an offset down to its group gives arguments [ClearRange] accepts. *)
Lemma group_range i k o :
  level_ok sh ha he i k -> m_next_block_shift k <> 0 -> 0 <= o < m_end_offset k ->
  let o' := AlignDown 64 o (group k) in
  o' = o / group k * group k /\ o' <= o < o' + group k /\ range_arg_ok o' (group k) /\
  o' + group k <= m_end_offset k.
Proof using Hsh.
  intros H Hne Ho o'. destruct (level_next i k H Hne) as (_ & Hlt & Hpow & Hg).
  pose proof (lv_room _ _ _ _ _ H). pose proof (lv_cap _ _ _ _ _ H). pose proof (level_bsize i k H).
  pose proof (lv_base _ _ _ _ _ H). pose proof (level_shift_range i k H).
  assert (o < 2 ^ 62) by nia.
  assert (o' = o / group k * group k) as Eo.
  { unfold o'. rewrite AlignDown_eq by (unfold in_u; lia). pose proof (Z.div_mod o (group k)). lia. }
  pose proof (Z.div_mod o (group k) ltac:(lia)) as Hd. pose proof (Z.mod_pos_bound o (group k) ltac:(lia)).
  assert (0 <= o / group k) by (apply Z.div_pos; lia).
  assert (group k | m_end_offset k) as [e He].
  { pose proof (lv_end_align _ _ _ _ _ H) as D. unfold level_align in D.
    rewrite (proj2 (Z.eqb_neq _ _) Hne), Hpow in D. by apply Z.mul_divide_cancel_r in D; [|lia]. }
  split_and!; [done|lia|lia| |].
  - unfold range_arg_ok. split_and!; [nia|lia|].
    assert (group k = 2 ^ (m_next_block_shift k - m_block_shift k)) as Eg by done.
    set (d := m_next_block_shift k - m_block_shift k) in *.
    destruct (Z.ltb_spec (group k) 64) as [Hl|Hl].
    + assert (d < 6) as Hd6.
      { apply Z.nle_gt. intros Hle. assert (2 ^ 6 <= 2 ^ d) by (apply Z.pow_le_mono_r; lia). lia. }
      assert (64 = 2 ^ (6 - d) * group k) as E64 by (rewrite Eg, <- Z.pow_add_r by lia; replace (6 - d + d) with 6 by lia; done).
      rewrite Eo, E64, Z.mul_mod_distr_r by (pose proof (Z.pow_pos_nonneg 2 (6 - d)); lia).
      pose proof (Z.mod_pos_bound (o / group k) (2 ^ (6 - d)) ltac:(apply Z.pow_pos_nonneg; lia)). nia.
    + assert (6 <= d) as Hd6.
      { apply Z.nlt_ge. intros Hlt'. assert (2 ^ d < 2 ^ 6) by (apply Z.pow_lt_mono_r; lia). lia. }
      assert (group k = 2 ^ (d - 6) * 64) as E64 by (rewrite Eg; change 64 with (2 ^ 6); rewrite <- Z.pow_add_r by lia; f_equal; lia).
      rewrite Eo. split; rewrite E64.
      * rewrite Z.mul_assoc. by apply Z.mod_mul.
      * by apply Z.mod_mul.
  - assert (o / group k < e); [|nia]. apply Z.div_lt_upper_bound; lia.
Qed.
End LevelFacts.

(** ** Pushing and popping one block *)

(** What [PushBlock] does to its level: either the block is added, or its group was completed and
    is taken out as one block [r] of the next level. *)
Inductive pushed (k k' : Block) (a r : Z) : Prop :=
| pushed_kept :
    r = 0 -> (forall x, covers k' x <-> covers k x \/ a <= x < a + bsize k) -> pushed k k' a r
| pushed_merged :
    m_next_block_shift k <> 0 -> (2 ^ m_next_block_shift k | r) ->
    r <= a -> a + bsize k <= r + 2 ^ m_next_block_shift k ->
    (forall x, r <= x < r + 2 ^ m_next_block_shift k -> covers k x \/ a <= x < a + bsize k) ->
    (forall x, covers k' x <-> covers k x /\ ~ (r <= x < r + 2 ^ m_next_block_shift k)) ->
    pushed k k' a r.

Lemma covers_set k b o x :
  0 < bsize k -> 0 <= o ->
  (forall i, 0 <= i -> bm_free b i = if i =? o then true else bm_free (m_bitmap k) i) ->
  covers (with_bitmap k b) x <->
  covers k x \/ bk_heap_address k + o * bsize k <= x < bk_heap_address k + (o + 1) * bsize k.
Proof.
  intros Hp Ho Hb. rewrite covers_with_bitmap. unfold covers.
  set (q := (x - bk_heap_address k) / bsize k).
  assert (bk_heap_address k <= x -> 0 <= q) as Hq by (intros; apply Z.div_pos; lia).
  pose proof (div_interval (x - bk_heap_address k) (bsize k) o Hp) as Hiff. fold q in Hiff.
  split.
  - intros [H1 H2]. rewrite Hb in H2 by auto. destruct (Z.eqb_spec q o) as [E|E]; [|by left].
    right. apply Hiff in E. lia.
  - intros [[H1 H2]|H]; [|assert (q = o) as E by (apply Hiff; lia)].
    + split; [done|]. rewrite Hb by auto. by destruct (q =? o).
    + split; [nia|]. rewrite Hb by lia. by rewrite E, Z.eqb_refl.
Qed.

Lemma covers_cleared k b o n x :
  0 < bsize k -> 0 <= o ->
  (forall i, 0 <= i -> bm_free b i = if in_range o n i then false else bm_free (m_bitmap k) i) ->
  covers (with_bitmap k b) x <->
  covers k x /\ ~ (bk_heap_address k + o * bsize k <= x < bk_heap_address k + (o + n) * bsize k).
Proof.
  intros Hp Ho Hb. rewrite covers_with_bitmap. unfold covers.
  set (q := (x - bk_heap_address k) / bsize k).
  pose proof (proj1 (div_interval (x - bk_heap_address k) (bsize k) q Hp) eq_refl) as Hx.
  assert (in_range o n q = true <->
    bk_heap_address k + o * bsize k <= x < bk_heap_address k + (o + n) * bsize k) as Hr
    by (rewrite in_range_true; nia).
  assert (bk_heap_address k <= x -> 0 <= q) as Hq by (intros; apply Z.div_pos; lia).
  split.
  - intros [H1 H2]. rewrite Hb in H2 by auto. rewrite <- Hr. by destruct (in_range o n q).
  - intros [[H1 H2] H3]. split; [done|]. rewrite Hb by auto. rewrite <- Hr in H3.
    by destruct (in_range o n q).
Qed.

Section PushPop.
Context (sh : list Z) (ha he : Z) (Hsh : shifts_ok sh) (Hha : 0 < ha).

Lemma PushBlock_spec i k a :
  level_ok sh ha he i k -> coalesced k -> (bsize k | a) -> ha <= a -> a + bsize k <= he ->
  ~ covers k a -> (forall x, covers k x -> ha <= x < he) ->
  exists r k', PushBlock k a = Done true (r, k') /\ level_ok sh ha he i k' /\ coalesced k' /\
    m_block_shift k' = m_block_shift k /\ pushed k k' a r.
Proof using Hsh Hha.
  intros Hk Hco Ha Hlo Hhi Hnc Hbd.
  pose proof (level_bsize sh ha he Hsh i k Hk) as Hbs. pose proof (lv_cap _ _ _ _ _ Hk) as Hcap.
  destruct (block_offset sh ha he Hsh i k a Hk Ha Hlo Hhi) as (Ea & Ho & Eo).
  set (o := (a - bk_heap_address k) / bsize k) in *. unfold PushBlock. rewrite Eo.
  assert (bm_free (m_bitmap k) o = false) as Hfo.
  { apply not_true_iff_false. intros E. apply Hnc. apply (covers_in_block k o); try lia. done. }
  destruct (bm_set_law (m_bitmap k) o (lv_bitmap _ _ _ _ _ Hk) ltac:(lia) Hfo) as (b & Eb & Sb).
  rewrite Eb. ostep. pose proof (level_ok_with_bitmap _ _ _ _ _ _ _ Hk Sb) as Hkb.
  destruct Sb as (Wb & Cb & Fb).
  assert (forall x, covers (with_bitmap k b) x <-> covers k x \/ a <= x < a + bsize k) as Hcov.
  { intros x. rewrite (covers_set k b o x) by (done || lia).
    assert (bk_heap_address k + (o + 1) * bsize k = a + bsize k) as -> by nia. by rewrite <- Ea. }
  destruct (Z.eqb_spec (m_next_block_shift k) 0) as [Hn|Hn]; simpl negb; cbv iota.
  { exists 0, (with_bitmap k b). split_and!; try done; [by intros ?|]. by apply pushed_kept. }
  rewrite (u64_diff sh ha he Hsh i k Hk Hn).
  destruct (group_range sh ha he Hsh i k o Hk Hn Ho) as (Eg & Hog & Harg & Hfit).
  set (o' := AlignDown 64 o (group k)) in *.
  destruct (bm_clear_range_law b o' (group k) Wb Harg ltac:(lia)) as (c & b2 & E2 & Hc & Hc0 & Hc1).
  rewrite E2. ostep. destruct (level_next sh ha he Hsh i k Hk Hn) as (_ & _ & Hpow & Hgr).
  pose proof (level_shift_range sh ha he Hsh i k Hk) as Hs.
  assert (0 <= o') as Ho' by (destruct Harg; lia).
  destruct c.
  - pose proof (Hc1 eq_refl) as S2. pose proof (level_ok_with_bitmap _ _ _ _ _ _ _ Hkb S2) as Hk2.
    destruct S2 as (W2 & C2 & F2).
    set (r := bk_heap_address k + o' * bsize k).
    pose proof (lv_base _ _ _ _ _ Hk) as Hbase. pose proof (lv_room _ _ _ _ _ Hk) as Hroom.
    assert (u64 (bk_heap_address k + u64 (o' .<< m_block_shift k)) = r) as Er.
    { rewrite Z.shiftl_mul_pow2 by lia. change (2 ^ m_block_shift k) with (bsize k).
      assert (o' * bsize k <= bm_cap (m_bitmap k) * bsize k) by nia.
      rewrite (u64_small (o' * _)) by nia. apply u64_small. unfold r. nia. }
    assert (forall x, r <= x < r + 2 ^ m_next_block_shift k -> covers (with_bitmap k b) x) as Hall.
    { intros x Hx. destruct (proj1 (div_interval (x - bk_heap_address k) (bsize k) _ ltac:(lia)) eq_refl) as [D1 D2].
      split; [unfold r in Hx; simpl; nia|]. apply (proj1 Hc eq_refl). rewrite Hpow in Hx. unfold r in Hx.
      simpl. change (bsize (with_bitmap k b)) with (bsize k). nia. }
    exists r, (with_bitmap k b2). rewrite Er. split_and!; try done.
    + intros _ g Hg. simpl. change (group (with_bitmap k b2)) with (group k).
      destruct (Z.eq_dec g (o / group k)) as [->|Hne].
      * exists 0. split; [lia|]. rewrite F2 by nia. rewrite Z.add_0_r, <- Eg.
        by rewrite (proj2 (in_range_true o' (group k) o')) by lia.
      * destruct (Hco Hn g Hg) as (j & Hj & Hf). exists j. split; [done|]. rewrite F2 by nia.
        destruct (in_range o' (group k) (g * group k + j)); [done|]. rewrite Fb by nia.
        destruct (Z.eqb_spec (g * group k + j) o) as [E|]; [|done].
        exfalso. apply Hne. rewrite <- E. symmetry. apply div_interval; nia.
    + apply pushed_merged; try done.
      * rewrite Hpow. unfold r. rewrite Eg. pose proof (lv_align _ _ _ _ _ Hk) as D.
        unfold level_align in D. rewrite (proj2 (Z.eqb_neq _ _) Hn), Hpow in D.
        apply Z.divide_add_r; [done|]. rewrite <- Z.mul_assoc. apply Z.divide_factor_r.
      * unfold r. nia.
      * rewrite Hpow. unfold r. nia.
      * intros x Hx. apply Hcov. by apply Hall.
      * intros x. change (with_bitmap k b2) with (with_bitmap (with_bitmap k b) b2).
        assert (0 < bsize (with_bitmap k b)) by (change (0 < bsize k); lia).
        rewrite (covers_cleared (with_bitmap k b) b2 o' (group k)) by done.
        rewrite Hcov. change (bk_heap_address (with_bitmap k b)) with (bk_heap_address k).
        change (bsize (with_bitmap k b)) with (bsize k).
        assert (bk_heap_address k + (o' + group k) * bsize k = r + 2 ^ m_next_block_shift k) as ->
          by (rewrite Hpow; unfold r; nia). fold r.
        assert (r <= a /\ a + bsize k <= r + 2 ^ m_next_block_shift k) by (rewrite Hpow; unfold r; nia).
        split; [|tauto]. intros [[|] ?]; [done|lia].
  - rewrite (Hc0 eq_refl). exists 0, (with_bitmap k b). split_and!; try done; [|by apply pushed_kept].
    intros _ g Hg. simpl. change (group (with_bitmap k b)) with (group k).
    destruct (Z.eq_dec g (o / group k)) as [->|Hne].
    + rewrite <- Eg. destruct (interval_dec (bm_free b) o' (group k)) as [Hyes|(j & Hj & Hf)].
      * by apply Hc in Hyes.
      * exists (j - o'). split; [lia|]. by replace (o' + (j - o')) with j by lia.
    + destruct (Hco Hn g Hg) as (j & Hj & Hf). exists j. split; [done|]. rewrite Fb by nia.
      destruct (Z.eqb_spec (g * group k + j) o) as [E|]; [|done].
      exfalso. apply Hne. rewrite <- E. symmetry. apply div_interval; nia.
Qed.

(** [PopBlock] takes one free block out of the level, or finds it empty. *)
Lemma PopBlock_spec i k random :
  level_ok sh ha he i k -> coalesced k -> (forall x, covers k x -> ha <= x < he) ->
  exists a k', PopBlock k random = Done true (a, k') /\ level_ok sh ha he i k' /\ coalesced k' /\
    m_block_shift k' = m_block_shift k /\
    ((a = 0 /\ (forall x, ~ covers k x) /\ forall x, ~ covers k' x) \/
     (0 < a /\ (bsize k | a) /\ (forall x, a <= x < a + bsize k -> covers k x) /\
      forall x, covers k' x <-> covers k x /\ ~ (a <= x < a + bsize k))).
Proof using Hsh Hha.
  intros Hk Hco Hbd. unfold PopBlock.
  pose proof (level_bsize sh ha he Hsh i k Hk) as Hbs. pose proof (lv_cap _ _ _ _ _ Hk) as Hcap.
  pose proof (lv_base _ _ _ _ _ Hk) as Hbase. pose proof (lv_room _ _ _ _ _ Hk) as Hroom.
  pose proof (level_shift_range sh ha he Hsh i k Hk) as Hs.
  destruct (bm_find_law (m_bitmap k) random (lv_bitmap _ _ _ _ _ Hk)) as (o & b & E & Sb & Ho).
  rewrite E. ostep. pose proof (level_ok_with_bitmap _ _ _ _ _ _ _ Hk Sb) as Hkb.
  destruct Sb as (Wb & Cb & Fb). destruct Ho as [[-> Hnone]|(Ho & Hf & _)].
  - exists 0, (with_bitmap k b). split_and!; try done.
    + intros Hn g Hg. destruct (Hco Hn g Hg) as (j & Hj & Hfj). exists j. split; [done|]. simpl.
      change (group (with_bitmap k b)) with (group k). destruct (level_next sh ha he Hsh i k Hk Hn) as (_ & _ & _ & ?).
      rewrite Fb by nia. done.
    + left. split_and!; [done| |].
      * intros x (o & ? & Hfo & _)%covers_offset; [|lia]. by rewrite Hnone in Hfo.
      * intros x (o & ? & Hfo & _)%covers_offset; [|change (0 < bsize k); lia]. simpl in Hfo. by rewrite Fb, Hnone in Hfo.
  - destruct (Z.ltb_spec o 0) as [|_]; [lia|].
    destruct (bm_clear_law b o Wb ltac:(lia)) as (b2 & E2 & S2); [by rewrite Fb by lia|].
    rewrite E2. ostep. pose proof (level_ok_with_bitmap _ _ _ _ _ _ _ Hkb S2) as Hk2.
    destruct S2 as (W2 & C2 & F2).
    set (a := bk_heap_address k + o * bsize k).
    assert (u64 (bk_heap_address k + u64 (o .<< m_block_shift k)) = a) as Ea.
    { rewrite Z.shiftl_mul_pow2 by lia. change (2 ^ m_block_shift k) with (bsize k).
      rewrite (u64_small (o * _)) by nia. apply u64_small. unfold a. nia. }
    assert (forall x, a <= x < a + bsize k -> covers k x) as Hin.
    { intros x Hx. apply (covers_in_block k o); [lia|lia|unfold a in Hx; nia|done]. }
    pose proof (Hbd a (Hin a ltac:(lia))) as Hab.
    exists a, (with_bitmap k b2). rewrite Ea. split_and!; try done.
    + intros Hn g Hg. destruct (Hco Hn g Hg) as (j & Hj & Hfj). exists j. split; [done|]. simpl.
      change (group (with_bitmap k b2)) with (group k). destruct (level_next sh ha he Hsh i k Hk Hn) as (_ & _ & _ & ?).
      rewrite F2 by nia. destruct (_ =? o); [done|]. by rewrite Fb by nia.
    + right. split_and!; [lia| |done|].
      * unfold a. apply Z.divide_add_r; [by eapply base_aligned|apply Z.divide_factor_r].
      * intros x. rewrite (covers_cleared k b2 o 1) by (lia || idtac; intros j Hj; rewrite F2 by done;
          rewrite Fb by done; unfold in_range;
          destruct (Z.eqb_spec j o), (Z.leb_spec o j), (Z.ltb_spec j (o + 1)); simpl; (done || lia)).
        assert (bk_heap_address k + (o + 1) * bsize k = a + bsize k) as -> by (unfold a; nia). done.
Qed.
End PushPop.

(** ** Freeing *)

Section Freeing.
Context (sh : list Z) (ha he : Z) (Hsh : shifts_ok sh) (Hha : 0 < ha).

Lemma covers_dec k x : {covers k x} + {~ covers k x}.
Proof.
  destruct (Z_le_dec (bk_heap_address k) x), (bm_free (m_bitmap k) ((x - bk_heap_address k) / bsize k)) eqn:E;
    [by left|right..]; intros [? ?]; (congruence || lia).
Qed.

(** Replacing one level by one that covers no memory held by another level. *)
Lemma blocks_wf_insert ks i k k' :
  blocks_wf sh ha he ks -> ks !! i = Some k -> level_ok sh ha he i k' -> coalesced k' ->
  (forall x, covers k' x -> covers k x \/ (ha <= x < he /\ ~ avail ks x)) ->
  blocks_wf sh ha he (<[i := k']> ks).
Proof using.
  intros W Hk Hl Hc Hcov. assert (i < length ks)%nat as Hlt by (eapply lookup_lt_Some; eauto).
  assert (forall j kj x, ks !! j = Some kj -> covers kj x -> covers k' x -> i = j) as Hd.
  { intros j kj x Hj Hx Hx'. destruct (Hcov x Hx') as [|[_ Hna]]; [by eapply (bw_disjoint _ _ _ _ W)|].
    destruct Hna. by exists j, kj. }
  split.
  - rewrite length_insert. apply (bw_len _ _ _ _ W).
  - intros j kj [(-> & <- & _)|[Hne Hj]]%list_lookup_insert_Some; [done|]. by eapply (bw_level _ _ _ _ W).
  - intros j kj x [(-> & <- & _)|[Hne Hj]]%list_lookup_insert_Some Hx; [|by eapply (bw_bounds _ _ _ _ W)].
    destruct (Hcov x Hx) as [|[? _]]; [|done]. by eapply (bw_bounds _ _ _ _ W).
  - intros j1 j2 k1 k2 x [(-> & <- & _)|[Hne1 H1]]%list_lookup_insert_Some
      [(Hj2 & <- & _)|[Hne2 H2]]%list_lookup_insert_Some Hx1 Hx2; subst; [done|by eapply Hd|symmetry; by eapply Hd|].
    by eapply (bw_disjoint _ _ _ _ W).
  - intros j kj [(-> & <- & _)|[Hne Hj]]%list_lookup_insert_Some; [done|]. by eapply (bw_coalesced _ _ _ _ W).
Qed.

Lemma avail_insert ks i k k' x :
  blocks_wf sh ha he ks -> ks !! i = Some k ->
  avail (<[i := k']> ks) x <-> covers k' x \/ (avail ks x /\ ~ covers k x).
Proof using.
  intros W Hk. assert (i < length ks)%nat as Hlt by (eapply lookup_lt_Some; eauto). split.
  - intros (j & kj & [(-> & <- & _)|[Hne Hj]]%list_lookup_insert_Some & Hx); [by left|right].
    split; [by exists j, kj|]. intros Hx'. by apply Hne, (bw_disjoint _ _ _ _ W i j k kj x).
  - intros [Hx|[(j & kj & Hj & Hx) Hn]].
    + exists i, k'. split; [|done]. by apply list_lookup_insert_eq.
    + exists j, kj. split; [|done]. rewrite list_lookup_insert_ne; [done|]. intros ->. congruence.
Qed.

Lemma level_next_some ks i k :
  blocks_wf sh ha he ks -> ks !! i = Some k -> m_next_block_shift k <> 0 ->
  exists k2, ks !! Datatypes.S i = Some k2 /\ bsize k2 = 2 ^ m_next_block_shift k.
Proof using Hsh.
  intros W Hk Hn. destruct (level_next sh ha he Hsh i k (bw_level _ _ _ _ W _ _ Hk) Hn) as (Hs & _).
  destruct (lookup_lt_is_Some_2 ks (Datatypes.S i)) as [k2 Hk2].
  { rewrite (bw_len _ _ _ _ W). by eapply lookup_lt_Some. }
  exists k2. split; [done|]. pose proof (lv_shift _ _ _ _ _ (bw_level _ _ _ _ W _ _ Hk2)) as H2.
  unfold bsize. congruence.
Qed.

(** [FreeBlock] adds exactly the block, however far it coalesces. *)
Lemma FreeBlock_loop_spec fuel : forall ks i k a,
  blocks_wf sh ha he ks -> ks !! i = Some k -> (length ks < i + fuel)%nat ->
  (bsize k | a) -> ha <= a -> a + bsize k <= he ->
  (forall x, a <= x < a + bsize k -> ~ avail ks x) ->
  exists ks', FreeBlock_loop fuel ks a (Z.of_nat i) = Done true ks' /\ blocks_wf sh ha he ks' /\
    forall x, avail ks' x <-> avail ks x \/ a <= x < a + bsize k.
Proof using Hsh Hha.
  induction fuel as [|fuel IH]; intros ks i k a W Hk Hf Ha Hlo Hhi Hna.
  { apply lookup_lt_Some in Hk. lia. }
  pose proof (bw_level _ _ _ _ W _ _ Hk) as Hl. pose proof (level_bsize sh ha he Hsh i k Hl) as Hbs.
  assert (i < length ks)%nat as Hlt by (eapply lookup_lt_Some; eauto).
  destruct (PushBlock_spec sh ha he Hsh Hha i k a Hl (bw_coalesced _ _ _ _ W _ _ Hk) Ha Hlo Hhi)
    as (r & k' & Ep & Hl' & Hc' & Hs' & Hp).
  { intros Hx. apply (Hna a); [lia|]. by exists i, k. }
  { intros x. by eapply (bw_bounds _ _ _ _ W). }
  simpl. rewrite (arr_get_Some _ _ k) by (rewrite ?Nat2Z.id; done || lia). ostep. rewrite Ep. ostep.
  rewrite arr_set_lt by lia. ostep. rewrite Nat2Z.id.
  assert (forall x, covers k x -> avail ks x) as Hin by (intros x Hx; by exists i, k).
  destruct Hp as [-> Hcov|Hn Hr Hra Har Hall Hcov].
  - exists (<[i := k']> ks). simpl. split; [done|]. split.
    + apply (blocks_wf_insert ks i k); try done. intros x Hx%Hcov. destruct Hx as [|Hx]; [by left|right].
      split; [lia|by apply Hna].
    + intros x. rewrite (avail_insert ks i k) by done. rewrite Hcov. destruct (covers_dec k x); naive_solver.
  - set (p := 2 ^ m_next_block_shift k) in *. assert (blocks_wf sh ha he (<[i := k']> ks)) as W'.
    { apply (blocks_wf_insert ks i k); try done. intros x []%Hcov. by left. }
    assert (forall x, r <= x < r + p -> ha <= x < he) as Hbd.
    { intros x Hx. destruct (Hall x Hx) as [?|?]; [by eapply (bw_bounds _ _ _ _ W)|lia]. }
    assert (0 < p) as Hp0 by (apply Z.pow_pos_nonneg; pose proof (level_next sh ha he Hsh i k Hl Hn);
      pose proof (level_shift_range sh ha he Hsh i k Hl); lia).
    pose proof (Hbd r ltac:(lia)). pose proof (Hbd (r + p - 1) ltac:(lia)).
    destruct (Z.eqb_spec r 0) as [|_]; [lia|]. simpl negb. cbv iota.
    destruct (level_next_some _ i k' W') as (k2 & Hk2 & Eb2).
    { by apply list_lookup_insert_eq. }
    { rewrite (lv_next _ _ _ _ _ Hl'), <- (lv_next _ _ _ _ _ Hl). done. }
    rewrite (lv_next _ _ _ _ _ Hl'), <- (lv_next _ _ _ _ _ Hl) in Eb2. fold p in Eb2.
    assert (forall x, avail (<[i := k']> ks) x <-> avail ks x /\ ~ (r <= x < r + p)) as Hav.
    { intros x. rewrite (avail_insert ks i k) by done. rewrite Hcov.
      split; [intros [[Hx Hnx]|[Hx Hnx]]|intros [Hx Hnx]].
      - split; [by apply Hin|done].
      - split; [done|]. intros Hx'. destruct (Hall x Hx') as [|Ho]; [done|]. by apply (Hna x Ho).
      - destruct (covers_dec k x); [by left|by right]. }
    replace (Z.of_nat i + 1) with (Z.of_nat (Datatypes.S i)) by lia.
    destruct (IH (<[i := k']> ks) (Datatypes.S i) k2 r W' Hk2) as (ks' & E & W2 & Hav2);
      rewrite ?length_insert, ?Eb2; try done; try lia.
    { intros x Hx []%Hav. lia. }
    exists ks'. split; [done|]. split; [done|]. intros x. rewrite Hav2, Hav, Eb2.
    destruct (Z_le_dec r x), (Z_lt_dec x (r + p)); [|naive_solver lia..].
    split; [intros _|intros _; by right]. destruct (Hall x) as [Hx|Hx]; [lia|left; by apply Hin|by right].
Qed.
End Freeing.

(** ** The loops of [Free] *)

Section FreeRange.
Context (sh : list Z).

(** The block size of level [i]. *)
Definition lsize (i : nat) : Z := 2 ^ (sh !!! i).

(** [h'] is [h] with the addresses of [lo, hi) added to its free memory. *)
Definition frees (h h' : KPageHeap) (lo hi : Z) : Prop :=
  h' = with_blocks h (m_blocks h') /\ heap_wf sh h' /\
  forall x, heap_avail h' x <-> heap_avail h x \/ lo <= x < hi.

Definition unavailable (h : KPageHeap) (lo hi : Z) : Prop :=
  forall x, lo <= x < hi -> ~ heap_avail h x.

Lemma frees_nil h lo : heap_wf sh h -> frees h h lo lo.
Proof. intros W. split; [by destruct h|]. split; [done|]. intros x. split; [by left|intros [|]; [done|lia]]. Qed.

Lemma frees_app h h1 h2 lo mid hi :
  frees h h1 lo mid -> frees h1 h2 mid hi -> lo <= mid <= hi -> frees h h2 lo hi.
Proof.
  intros (E1 & W1 & H1) (E2 & W2 & H2) Hm. split; [rewrite E2, E1; done|]. split; [done|].
  intros x. rewrite H2, H1. destruct (Z_lt_dec x mid); intuition lia.
Qed.

Lemma frees_app_down h h1 h2 lo mid hi :
  frees h h1 mid hi -> frees h1 h2 lo mid -> lo <= mid <= hi -> frees h h2 lo hi.
Proof.
  intros (E1 & W1 & H1) (E2 & W2 & H2) Hm. split; [rewrite E2, E1; done|]. split; [done|].
  intros x. rewrite H2, H1. destruct (Z_lt_dec x mid); intuition lia.
Qed.

Lemma frees_unavailable h h1 lo hi lo' hi' :
  frees h h1 lo hi -> unavailable h lo' hi' -> hi <= lo' \/ hi' <= lo -> unavailable h1 lo' hi'.
Proof. intros (_ & _ & H) Hu Hd x Hx. rewrite H. intros [Hx'|Hx']; [by apply (Hu x)|lia]. Qed.

Lemma unavailable_sub h lo hi lo' hi' :
  unavailable h lo hi -> lo <= lo' -> hi' <= hi -> unavailable h lo' hi'.
Proof. intros Hu ? ? x Hx. apply Hu. lia. Qed.

Definition heap_end (h : KPageHeap) : Z := m_heap_address h + m_heap_size h.

Lemma heap_end_room h : heap_wf sh h -> 0 < m_heap_address h /\ heap_end h < 2 ^ 62.
Proof. intros W. split; [apply (hw_addr _ _ W)|apply (hw_end _ _ W)]. Qed.

Lemma frees_end h h1 lo hi :
  frees h h1 lo hi -> m_heap_address h1 = m_heap_address h /\ heap_end h1 = heap_end h.
Proof. intros (-> & _ & _). done. Qed.

Lemma lsize_bounds h i : heap_wf sh h -> (i < length sh)%nat -> 4096 <= lsize i <= 2 ^ 40.
Proof.
  intros W Hi. destruct (hw_shifts _ _ W) as (_ & Hf & _). unfold lsize.
  assert (12 <= sh !!! i <= 40).
  { eapply (Forall_lookup_1 _ _ _ _ Hf). by apply list_lookup_lookup_total_lt. }
  change 4096 with (2 ^ 12). split; apply Z.pow_le_mono_r; lia.
Qed.

Lemma lsize_0 h : heap_wf sh h -> (0 < length sh)%nat /\ lsize 0 = 4096.
Proof.
  intros W. destruct (hw_shifts _ _ W) as (H0 & _). split; [by eapply lookup_lt_Some|].
  unfold lsize. by rewrite (list_lookup_total_correct _ _ _ H0).
Qed.

Lemma lsize_divide h i : heap_wf sh h -> (Datatypes.S i < length sh)%nat -> (lsize i | lsize (Datatypes.S i)).
Proof.
  intros W Hi. destruct (hw_shifts _ _ W) as (_ & Hf & Hm).
  assert (sh !! i = Some (sh !!! i)) as E1 by (apply list_lookup_lookup_total_lt; lia).
  assert (sh !! Datatypes.S i = Some (sh !!! Datatypes.S i)) as E2 by by apply list_lookup_lookup_total_lt.
  pose proof (Hm _ _ _ E1 E2). pose proof (Forall_lookup_1 _ _ _ _ Hf E1) as H12. simpl in H12.
  exists (2 ^ (sh !!! Datatypes.S i - sh !!! i)). unfold lsize. rewrite <- Z.pow_add_r by lia. f_equal. lia.
Qed.

Lemma lsize_page h i : heap_wf sh h -> (i < length sh)%nat -> (4096 | lsize i).
Proof.
  intros W. induction i as [|i IH]; intros Hi; [by rewrite (proj2 (lsize_0 h W))|].
  eapply Z.divide_trans; [apply IH; lia|by eapply lsize_divide].
Qed.

Lemma heap_level h i :
  heap_wf sh h -> (i < length sh)%nat ->
  exists k, arr_get (m_blocks h) (Z.of_nat i) = mret k /\ m_blocks h !! i = Some k /\
    GetSize k = lsize i /\ bsize k = lsize i.
Proof.
  intros W Hi. pose proof (hw_blocks _ _ W) as WB.
  destruct (lookup_lt_is_Some_2 (m_blocks h) i) as [k Hk]; [by rewrite (bw_len _ _ _ _ WB)|].
  exists k. pose proof (bw_level _ _ _ _ WB _ _ Hk) as Hl.
  assert (bsize k = lsize i) as E.
  { unfold bsize, lsize. by rewrite (list_lookup_total_correct _ _ _ (lv_shift _ _ _ _ _ Hl)). }
  split_and!; try done.
  - apply arr_get_Some; [lia|by rewrite Nat2Z.id].
  - rewrite <- E. eapply level_GetSize; [apply (hw_shifts _ _ W)|done].
Qed.

Lemma FreeBlock_spec h i a :
  heap_wf sh h -> (i < length sh)%nat -> (lsize i | a) ->
  m_heap_address h <= a -> a + lsize i <= heap_end h -> unavailable h a (a + lsize i) ->
  exists h', FreeBlock h a (Z.of_nat i) = Done true h' /\ frees h h' a (a + lsize i).
Proof.
  intros W Hi Ha Hlo Hhi Hu. destruct (heap_level h i W Hi) as (k & _ & Hk & _ & Eb).
  rewrite <- Eb in *. pose proof (lookup_lt_Some _ _ _ Hk).
  destruct (FreeBlock_loop_spec sh _ _ (hw_shifts _ _ W) (hw_addr _ _ W)
    (Datatypes.S (length (m_blocks h))) (m_blocks h) i k a (hw_blocks _ _ W) Hk ltac:(lia) Ha Hlo Hhi Hu)
    as (ks & E & WB & Hav).
  unfold FreeBlock. rewrite E. ostep. exists (with_blocks h ks). split; [done|]. split; [done|].
  split; [|done]. destruct W. by split.
Qed.

Lemma free_big_spec i n : forall h a,
  heap_wf sh h -> (i < length sh)%nat -> (lsize i | a) ->
  m_heap_address h <= a -> a + Z.of_nat n * lsize i <= heap_end h ->
  unavailable h a (a + Z.of_nat n * lsize i) ->
  exists h', free_big n h a (a + Z.of_nat n * lsize i) (lsize i) (Z.of_nat i) = Done true h' /\
    frees h h' a (a + Z.of_nat n * lsize i).
Proof.
  induction n as [|n IH]; intros h a W Hi Ha Hlo Hhi Hu.
  { exists h. rewrite Z.mul_0_l, Z.add_0_r. simpl. rewrite Z.ltb_irrefl. split; [done|by apply frees_nil]. }
  pose proof (lsize_bounds h i W Hi) as Hb. destruct (heap_end_room h W) as [Hpos He].
  set (fin := a + Z.of_nat (Datatypes.S n) * lsize i) in *.
  assert (fin = a + lsize i + Z.of_nat n * lsize i) as Ef by (unfold fin; lia).
  destruct (FreeBlock_spec h i a W Hi Ha Hlo) as (h1 & E1 & F1);
    [lia|apply (unavailable_sub h a fin); [done|lia..]|].
  simpl. destruct (Z.ltb_spec a fin); [|lia]. rewrite E1. ostep.
  destruct (frees_end _ _ _ _ F1) as [Ea Ee].
  rewrite u64_small by nia.
  destruct (IH h1 (a + lsize i)) as (h2 & E2 & F2); rewrite <- ?Ef;
    [apply F1|done|by apply Z.divide_add_r|lia|lia|eapply frees_unavailable; [done|eapply unavailable_sub; [done|lia|lia]|lia]|].
  rewrite <- Ef in *. exists h2. split; [done|]. eapply frees_app; [done|done|lia].
Qed.

(** What is left between [lo] and [hi] after taking whole blocks off. *)
Lemma iterations_step lo hi size :
  0 < size -> lo + size <= hi ->
  iterations lo hi size = Datatypes.S (iterations lo (hi - size) size) /\
  iterations lo hi size = Datatypes.S (iterations (lo + size) hi size).
Proof.
  intros Hs Hh. unfold iterations.
  assert ((hi - lo) / size = (hi - size - lo) / size + 1) as E.
  { replace (hi - lo) with (hi - size - lo + 1 * size) by lia. by rewrite Z.div_add by lia. }
  assert (0 <= (hi - size - lo) / size) by (apply Z.div_pos; lia).
  replace (hi - (lo + size)) with (hi - size - lo) by lia. lia.
Qed.

Lemma free_before_spec i lo n : forall h hi,
  n = iterations lo hi (lsize i) ->
  heap_wf sh h -> (i < length sh)%nat -> (lsize i | hi) -> m_heap_address h <= lo <= hi ->
  hi <= heap_end h -> unavailable h lo hi ->
  exists h' hi', free_before n h lo hi (lsize i) (Z.of_nat i) = Done true (hi', h') /\
    frees h h' hi' hi /\ (lsize i | hi') /\ lo <= hi' <= hi /\ hi' < lo + lsize i.
Proof.
  induction n as [|n IH]; intros h hi En W Hi Ha Hlo Hhi Hu;
    pose proof (lsize_bounds h i W Hi) as Hb; destruct (heap_end_room h W) as [Hpos He]; simpl; rewrite u64_small by lia;
    (destruct (Z.leb_spec (lo + lsize i) hi) as [Hle|Hgt];
     [|exists h, hi; split_and!; try done; try lia; by apply frees_nil]);
    destruct (iterations_step lo hi (lsize i) ltac:(lia) Hle) as [Es _]; [congruence|].
  rewrite u64_small by lia. pose proof (Z.divide_sub_r _ _ _ Ha (Z.divide_refl (lsize i))) as Ha'.
  destruct (FreeBlock_spec h i (hi - lsize i) W Hi Ha') as (h1 & E1 & F1);
    [lia|lia|eapply unavailable_sub; [done|lia..]|].
  rewrite E1. ostep. replace (hi - lsize i + lsize i) with hi in F1 by lia.
  destruct (frees_end _ _ _ _ F1) as [Ea Ee].
  destruct (IH h1 (hi - lsize i)) as (h2 & hi2 & E2 & F2 & D2 & R2);
    [congruence|apply F1|done|done|lia|lia|eapply frees_unavailable; [done|eapply unavailable_sub; [done|lia|lia]|lia]|].
  exists h2, hi2. split; [done|]. split; [eapply frees_app_down; [done|done|lia]|]. split; [done|lia].
Qed.

Lemma free_after_spec i hi n : forall h lo,
  n = iterations lo hi (lsize i) ->
  heap_wf sh h -> (i < length sh)%nat -> (lsize i | lo) -> m_heap_address h <= lo <= hi ->
  hi <= heap_end h -> unavailable h lo hi ->
  exists h' lo', free_after n h lo hi (lsize i) (Z.of_nat i) = Done true (lo', h') /\
    frees h h' lo lo' /\ (lsize i | lo') /\ lo <= lo' <= hi /\ hi < lo' + lsize i.
Proof.
  induction n as [|n IH]; intros h lo En W Hi Ha Hlo Hhi Hu;
    pose proof (lsize_bounds h i W Hi) as Hb; destruct (heap_end_room h W) as [Hpos He]; simpl; rewrite u64_small by lia;
    (destruct (Z.leb_spec (lo + lsize i) hi) as [Hle|Hgt];
     [|exists h, lo; split_and!; try done; try lia; by apply frees_nil]);
    destruct (iterations_step lo hi (lsize i) ltac:(lia) Hle) as [_ Es]; [congruence|].
  pose proof (Z.divide_add_r _ _ _ Ha (Z.divide_refl (lsize i))) as Ha'.
  destruct (FreeBlock_spec h i lo W Hi Ha) as (h1 & E1 & F1);
    [lia|lia|eapply unavailable_sub; [done|lia..]|].
  rewrite E1. ostep. destruct (frees_end _ _ _ _ F1) as [Ea Ee].
  destruct (IH h1 (lo + lsize i)) as (h2 & lo2 & E2 & F2 & D2 & R2);
    [congruence|apply F1|done|done|lia|lia|eapply frees_unavailable; [done|eapply unavailable_sub; [done|lia|lia]|lia]|].
  exists h2, lo2. split; [done|]. split; [eapply frees_app; [done|done|lia]|]. split; [done|lia].
Qed.
End FreeRange.

Section FreeSpec.
Context (sh : list Z).
Local Abbreviation lsize := (lsize sh).
Local Abbreviation frees := (frees sh).

Lemma multiple_close p a b : (p | a) -> (p | b) -> a <= b < a + p -> b = a.
Proof. intros [m ->] [n ->] H. assert (0 < p) by lia. assert (n = m) as -> by nia. done. Qed.

Lemma free_before_levels_spec n : forall h lo hi,
  heap_wf sh h -> (n < length sh)%nat -> (4096 | lo) -> (lsize n | hi) -> lo <= hi < lo + lsize n ->
  m_heap_address h <= lo -> hi <= heap_end h -> unavailable h lo hi ->
  exists h', free_before_levels n h lo hi = Done true h' /\ frees h h' lo hi.
Proof.
  induction n as [|i IH]; intros h lo hi W Hn Hlo Hhi Hb Hl Hh Hu.
  - rewrite (proj2 (lsize_0 sh h W)) in *. rewrite (multiple_close 4096 lo hi) by (done || lia).
    exists h. split; [done|by apply frees_nil].
  - destruct (heap_level sh h i W ltac:(lia)) as (k & Ek & _ & Es & _). simpl. rewrite Ek. ostep. rewrite Es.
    destruct (free_before_spec sh i lo _ h hi eq_refl W ltac:(lia)) as (h1 & hi1 & E1 & F1 & D1 & R1 & R2);
      [eapply Z.divide_trans; [by eapply lsize_divide|done]|lia|done|done|].
    rewrite E1. ostep. destruct (frees_end _ _ _ _ _ F1) as [Ea Ee].
    destruct (IH h1 lo hi1) as (h2 & E2 & F2);
      [apply F1|lia|done|done|lia|lia|lia|eapply frees_unavailable; [done|eapply unavailable_sub; [done|lia|lia]|lia]|].
    exists h2. split; [done|]. eapply frees_app_down; [done|done|lia].
Qed.

Lemma free_after_levels_spec n : forall h lo hi,
  heap_wf sh h -> (n < length sh)%nat -> (4096 | hi) -> (lsize n | lo) -> lo <= hi < lo + lsize n ->
  m_heap_address h <= lo -> hi <= heap_end h -> unavailable h lo hi ->
  exists h', free_after_levels n h lo hi = Done true h' /\ frees h h' lo hi.
Proof.
  induction n as [|i IH]; intros h lo hi W Hn Hhi Hlo Hb Hl Hh Hu.
  - rewrite (proj2 (lsize_0 sh h W)) in *. rewrite (multiple_close 4096 lo hi) by (done || lia).
    exists h. split; [done|by apply frees_nil].
  - destruct (heap_level sh h i W ltac:(lia)) as (k & Ek & _ & Es & _). simpl. rewrite Ek. ostep. rewrite Es.
    destruct (free_after_spec sh i hi _ h lo eq_refl W ltac:(lia)) as (h1 & lo1 & E1 & F1 & D1 & R1 & R2);
      [eapply Z.divide_trans; [by eapply lsize_divide|done]|lia|done|done|].
    rewrite E1. ostep. destruct (frees_end _ _ _ _ _ F1) as [Ea Ee].
    destruct (IH h1 lo1 hi) as (h2 & E2 & F2);
      [apply F1|lia|done|done|lia|lia|lia|eapply frees_unavailable; [done|eapply unavailable_sub; [done|lia|lia]|lia]|].
    exists h2. split; [done|]. eapply frees_app; [done|done|lia].
Qed.

(** Some level takes a whole block of a non-empty page range: the smallest one does. *)
Lemma find_big_spec h lo hi n :
  heap_wf sh h -> (0 < n <= length sh)%nat -> (4096 | lo) -> (4096 | hi) -> 0 <= lo < hi -> hi < 2 ^ 62 ->
  exists i bs be, find_big n (m_blocks h) lo hi = Done true (Some (i, bs, be)) /\ (i < length sh)%nat /\
    (lsize i | bs) /\ (lsize i | be) /\ lo <= bs < lo + lsize i /\ bs < be /\ be <= hi < be + lsize i.
Proof.
  intros W [Hn Hn'] Hlo Hhi Hr Hroom. induction n as [|i IH]; [lia|].
  destruct (heap_level sh h i W ltac:(lia)) as (k & Ek & _ & Es & _). simpl. rewrite Ek. ostep. rewrite Es.
  pose proof (lsize_bounds sh h i W ltac:(lia)) as Hb.
  destruct (AlignUp_spec 64 lo (lsize i)) as [U1 U2]; [lia|lia|unfold in_u; lia|lia|].
  destruct (AlignDown_spec 64 hi (lsize i)) as [D1 D2]; [lia|unfold in_u; lia|].
  destruct (Z.ltb_spec (AlignUp 64 lo (lsize i)) (AlignDown 64 hi (lsize i))) as [Hlt|Hge].
  { eexists i, _, _. split; [done|]. split_and!; done || lia. }
  apply IH; [|lia]. destruct i; [exfalso|lia]. rewrite (proj2 (lsize_0 sh h W)) in *.
  assert (AlignUp 64 lo 4096 = lo) by (apply (multiple_close 4096); (done || lia)).
  assert (hi = AlignDown 64 hi 4096) by (apply (multiple_close 4096); (done || lia)). lia.
Qed.

Lemma whole_blocks p a b : 0 < p -> (p | a) -> (p | b) -> a <= b ->
  b = a + Z.of_nat (iterations a b p) * p.
Proof.
  intros Hp [m ->] [n ->] H. unfold iterations. rewrite <- Z.mul_sub_distr_r, Z.div_mul by lia. nia.
Qed.

(** [Free] adds exactly the page range it is given. *)
Lemma Free_spec h a n :
  heap_wf sh h -> (4096 | a) -> 0 <= n -> m_heap_address h <= a -> a + n * 4096 <= heap_end h ->
  unavailable h a (a + n * 4096) ->
  exists h', Free h a n = Done true h' /\ frees h h' a (a + n * 4096).
Proof.
  intros W Ha Hn Hlo Hhi Hu. destruct (heap_end_room sh h W) as [Hpos Hroom]. unfold Free.
  destruct (Z.eqb_spec n 0) as [->|Hne].
  { exists h. rewrite Z.mul_0_l, Z.add_0_r. split; [done|by apply frees_nil]. }
  unfold PageSize. rewrite (u64_small (n * 4096)), (u64_small (a + n * 4096)) by lia.
  set (fin := a + n * 4096) in *.
  assert (4096 | fin) as Hfin by (apply Z.divide_add_r; [done|apply Z.divide_factor_r]).
  assert (a < fin) by lia. clearbody fin.
  rewrite (hw_num _ _ W), Nat2Z.id. destruct (lsize_0 sh h W) as [Hlen _].
  destruct (find_big_spec h a fin (length sh) W ltac:(lia) Ha Hfin ltac:(lia) ltac:(lia))
    as (i & bs & be & Eb & Hi & D1 & D2 & R1 & R2 & R3).
  rewrite Eb. ostep. destruct (heap_level sh h i W Hi) as (k & Ek & _ & Es & _). rewrite Ek. ostep. rewrite Es.
  pose proof (lsize_bounds sh h i W Hi) as Hb.
  pose proof (whole_blocks (lsize i) bs be ltac:(lia) D1 D2 ltac:(lia)) as Ew.
  destruct (free_big_spec sh i (iterations bs be (lsize i)) h bs W Hi D1) as (h1 & E1 & F1); rewrite <- ?Ew;
    [lia|lia|eapply unavailable_sub; [done|lia|lia]|]. rewrite <- Ew in E1, F1.
  rewrite E1. ostep. rewrite bind_assert_true by (apply Z.leb_le; lia).
  destruct (frees_end _ _ _ _ _ F1) as [Ea1 Ee1].
  destruct (free_before_levels_spec i h1 a bs) as (h2 & E2 & F2);
    [apply F1|done|done|done|lia|lia|lia|eapply frees_unavailable; [done|eapply unavailable_sub; [done|lia|lia]|lia]|].
  rewrite E2. ostep. destruct (frees_end _ _ _ _ _ F2) as [Ea2 Ee2].
  assert (frees h h2 a be) as F12 by (eapply frees_app_down; [done|done|lia]).
  destruct (free_after_levels_spec i h2 be fin) as (h3 & E3 & F3);
    [apply F2|done|done|done|lia|lia|lia|eapply frees_unavailable; [done|eapply unavailable_sub; [done|lia|lia]|lia]|].
  exists h3. split; [done|]. eapply frees_app; [done|done|lia].
Qed.
End FreeSpec.

(** ** Allocation *)

Section Allocation.
Context (sh : list Z).
Local Abbreviation lsize := (lsize sh).

(** The members no allocation changes. *)
Definition same_frame (h h' : KPageHeap) : Prop :=
  m_heap_address h' = m_heap_address h /\ m_heap_size h' = m_heap_size h /\
  m_initial_used_size h' = m_initial_used_size h /\ m_num_blocks h' = m_num_blocks h.

(** [h'] is [h] with the available addresses of [lo, hi) taken out. *)
Definition takes (h h' : KPageHeap) (lo hi : Z) : Prop :=
  same_frame h h' /\ heap_wf sh h' /\ (forall x, lo <= x < hi -> heap_avail h x) /\
  forall x, heap_avail h' x <-> heap_avail h x /\ ~ (lo <= x < hi).

Definition level_empty (h : KPageHeap) (i : nat) : Prop :=
  forall k x, m_blocks h !! i = Some k -> ~ covers k x.

Lemma takes_nil h h' lo :
  same_frame h h' -> heap_wf sh h' -> (forall x, heap_avail h' x <-> heap_avail h x) -> takes h h' lo lo.
Proof. intros F W H. split_and!; try done; [lia|]. intros x. rewrite H. intuition lia. Qed.

Lemma same_frame_trans h h1 h2 : same_frame h h1 -> same_frame h1 h2 -> same_frame h h2.
Proof. intros (E1 & E2 & E3 & E4) (F1 & F2 & F3 & F4). split_and!; congruence. Qed.

Lemma takes_frees_above h h1 h2 lo mid hi :
  takes h h1 lo hi -> frees sh h1 h2 mid hi -> lo <= mid <= hi -> takes h h2 lo mid.
Proof.
  intros (F & W & Hin & H) (E & W2 & H2) Hm. split_and!; [by rewrite E|done|intros; apply Hin; lia|].
  intros x. rewrite H2, H. destruct (Z_le_dec mid x), (Z_lt_dec x hi); intuition (lia || (apply Hin; lia)).
Qed.

Lemma takes_frees_below h h1 h2 lo mid hi :
  takes h h1 lo hi -> frees sh h1 h2 lo mid -> lo <= mid <= hi -> takes h h2 mid hi.
Proof.
  intros (F & W & Hin & H) (E & W2 & H2) Hm. split_and!; [by rewrite E|done|intros; apply Hin; lia|].
  intros x. rewrite H2, H. destruct (Z_le_dec lo x), (Z_lt_dec x mid); intuition (lia || (apply Hin; lia)).
Qed.

Lemma takes_bounds h h1 lo hi :
  heap_wf sh h -> takes h h1 lo hi -> lo < hi -> m_heap_address h <= lo /\ hi <= heap_end h.
Proof.
  intros W (_ & _ & Hin & _) Hlt. pose proof (hw_blocks _ _ W) as WB.
  destruct (Hin lo ltac:(lia)) as (i & k & Hk & Hx). pose proof (bw_bounds _ _ _ _ WB _ _ _ Hk Hx).
  destruct (Hin (hi - 1) ltac:(lia)) as (j & k2 & Hk2 & Hx2). pose proof (bw_bounds _ _ _ _ WB _ _ _ Hk2 Hx2).
  unfold heap_end. lia.
Qed.

Lemma takes_unavailable h h1 lo hi : takes h h1 lo hi -> unavailable h1 lo hi.
Proof. intros (_ & _ & _ & H) x Hx []%H. done. Qed.

Lemma takes_end h h1 lo hi :
  takes h h1 lo hi -> m_heap_address h1 = m_heap_address h /\ heap_end h1 = heap_end h.
Proof. intros ((E1 & E2 & _) & _). unfold heap_end. by rewrite E1, E2. Qed.

Lemma heap_wf_with_rng h g : heap_wf sh h -> rng_wf g -> heap_wf sh (with_rng h g).
Proof. intros [] ?. by split. Qed.

Lemma takes_with_rng h h1 g lo hi : takes h h1 lo hi -> rng_wf g -> takes h (with_rng h1 g) lo hi.
Proof. intros (F & W & H) Hg. split; [done|]. split; [by apply heap_wf_with_rng|done]. Qed.

(** Popping a block at level [i] of the heap. *)
Lemma pop_level h i random k :
  heap_wf sh h -> m_blocks h !! i = Some k ->
  exists a k', PopBlock k random = Done true (a, k') /\
    arr_set (m_blocks h) (Z.of_nat i) k' = mret (<[i := k']> (m_blocks h)) /\
    GetSize k' = lsize i /\
    let h' := with_blocks h (<[i := k']> (m_blocks h)) in
    ((a = 0 /\ level_empty h i /\ takes h h' 0 0) \/
     (0 < a /\ ~ level_empty h i /\ (lsize i | a) /\ takes h h' a (a + lsize i))).
Proof.
  intros W Hk. pose proof (hw_blocks _ _ W) as WB. pose proof (lookup_lt_Some _ _ _ Hk) as Hlt.
  assert (i < length sh)%nat as Hi by by rewrite <- (bw_len _ _ _ _ WB).
  destruct (heap_level sh h i W Hi) as (k0 & _ & Hk0 & _ & Eb). rewrite Hk in Hk0. injection Hk0 as <-.
  pose proof (hw_shifts _ _ W) as Hsh.
  destruct (PopBlock_spec sh _ _ Hsh (hw_addr _ _ W) i k random (bw_level _ _ _ _ WB _ _ Hk)
    (bw_coalesced _ _ _ _ WB _ _ Hk)) as (a & k' & E & Hl & Hc & Es & Hcase).
  { intros x. by eapply (bw_bounds _ _ _ _ WB). }
  exists a, k'. split; [done|]. split; [rewrite arr_set_lt by lia; by rewrite Nat2Z.id|].
  split. { rewrite <- Eb. rewrite (level_GetSize sh _ _ Hsh i k' Hl). unfold bsize. by rewrite Es. }
  assert (blocks_wf sh (m_heap_address h) (m_heap_address h + m_heap_size h) (<[i := k']> (m_blocks h))) as WB'.
  { apply (blocks_wf_insert sh _ _ _ i k); try done. intros x Hx. left.
    destruct Hcase as [(_ & _ & Hno)|(_ & _ & _ & Hcov)]; [by destruct (Hno x)|by apply Hcov in Hx as []]. }
  assert (heap_wf sh (with_blocks h (<[i := k']> (m_blocks h)))) as W' by (destruct W; by split).
  assert (forall x, heap_avail (with_blocks h (<[i := k']> (m_blocks h))) x <->
    covers k' x \/ (heap_avail h x /\ ~ covers k x)) as Hav by (intros x; by eapply avail_insert).
  destruct Hcase as [(-> & Hno & Hno')|(Hpos & Hdiv & Hin & Hcov)]; [left|right].
  - split; [done|]. split; [intros k2 x Hk2; rewrite Hk in Hk2; injection Hk2 as <-; apply Hno|].
    apply takes_nil; try done. intros x. rewrite Hav. naive_solver.
  - rewrite <- Eb. pose proof (level_bsize sh _ _ Hsh i k (bw_level _ _ _ _ WB _ _ Hk)).
    split; [done|]. split; [intros He; eapply (He k a); [done|apply Hin; lia]|]. split; [done|].
    split; [done|]. split; [done|]. split.
    + intros x Hx. exists i, k. auto.
    + intros x. rewrite Hav, Hcov. assert (covers k x -> heap_avail h x) by (intros; by exists i, k).
      destruct (covers_dec k x); intuition.
Qed.

(** *** The buddy invariant: a free aligned block lies within some level at least as large. *)
Lemma aligned_free_level h j a :
  heap_wf sh h -> (j < length sh)%nat -> (lsize j | a) ->
  (forall x, a <= x < a + lsize j -> heap_avail h x) ->
  exists i k x, (j <= i)%nat /\ m_blocks h !! i = Some k /\ a <= x < a + lsize j /\ covers k x.
Proof.
  intros W. pose proof (hw_blocks _ _ W) as WB. pose proof (hw_shifts _ _ W) as Hsh.
  revert a. induction j as [|j IH]; intros a Hj Ha Hall.
  - pose proof (lsize_bounds sh h 0 W Hj). destruct (Hall a ltac:(lia)) as (i & k & Hk & Hx).
    exists i, k, a. split_and!; done || lia.
  - destruct (heap_level sh h j W ltac:(lia)) as (k & _ & Hk & _ & Eb).
    pose proof (bw_level _ _ _ _ WB _ _ Hk) as Hl. pose proof (lsize_bounds sh h (Datatypes.S j) W Hj).
    assert (m_next_block_shift k = sh !!! Datatypes.S j) as En.
    { rewrite (lv_next _ _ _ _ _ Hl). unfold next_shift. by rewrite (list_lookup_lookup_total_lt _ _ Hj). }
    assert (m_next_block_shift k <> 0) as Hne.
    { rewrite En. destruct Hsh as (_ & Hf & _).
      pose proof (Forall_lookup_1 _ _ _ _ Hf (list_lookup_lookup_total_lt _ _ Hj)) as Hr. simpl in Hr. lia. }
    destruct (level_next sh _ _ Hsh j k Hl Hne) as (_ & _ & Hpow & Hg).
    rewrite En in Hpow. change (2 ^ (sh !!! Datatypes.S j)) with (lsize (Datatypes.S j)) in Hpow.
    assert (lsize (Datatypes.S j) | bk_heap_address k) as Hbase.
    { pose proof (lv_align _ _ _ _ _ Hl) as D. unfold level_align in D.
      by rewrite (proj2 (Z.eqb_neq _ _) Hne), En in D. }
    destruct (Hall a ltac:(lia)) as (i0 & k0 & Hk0 & Hx0). pose proof (bw_bounds _ _ _ _ WB _ _ _ Hk0 Hx0).
    pose proof (lv_base _ _ _ _ _ Hl). destruct (Z.divide_sub_r _ _ _ Ha Hbase) as [g Hg'].
    assert (0 <= g) as Hg0 by nia.
    destruct (bw_coalesced _ _ _ _ WB _ _ Hk Hne g Hg0) as (b & Hb & Hf). pose proof (lsize_bounds sh h j W ltac:(lia)).
    set (o := g * group k + b) in *. set (s := bk_heap_address k + o * bsize k).
    assert (a <= s /\ s + bsize k <= a + lsize (Datatypes.S j)) as Hs by (unfold s, o; nia).
    destruct (IH s ltac:(lia)) as (i & ki & x & Hi & Hki & Hx & Hcx).
    { rewrite <- Eb. apply Z.divide_add_r; [by eapply base_aligned|apply Z.divide_factor_r]. }
    { intros x Hx. apply Hall. lia. }
    exists i, ki, x. split_and!; [|done|lia|lia|done]. destruct (decide (i = j)) as [->|]; [exfalso|lia].
    rewrite Hk in Hki. injection Hki as <-. apply (covers_in_block k o) in Hcx; [congruence|lia|nia|unfold s in *; nia].
Qed.
End Allocation.

Section Allocators.
Context (sh : list Z).
Local Abbreviation lsize := (lsize sh).
Local Abbreviation takes := (takes sh).

(** The answer of an allocator asked for [size] bytes aligned to [align] from levels [index] up. *)
Definition allocated (h h' : KPageHeap) (index : nat) (size align a : Z) : Prop :=
  (a = 0 /\ takes h h' 0 0 /\ forall i, (index <= i)%nat -> level_empty h i) \/
  (0 < a /\ (align | a) /\ takes h h' a (a + size)).

Lemma level_empty_beyond h i : heap_wf sh h -> (length sh <= i)%nat -> level_empty h i.
Proof.
  intros W Hi k x Hk. apply lookup_lt_Some in Hk. rewrite (bw_len _ _ _ _ (hw_blocks _ _ W)) in Hk. lia.
Qed.

Lemma level_empty_takes h h' i j k' :
  heap_wf sh h -> h' = with_blocks h (<[i := k']> (m_blocks h)) -> j <> i ->
  level_empty h' j -> level_empty h j.
Proof. intros W -> Hne He k x Hk. apply (He k x). simpl. by rewrite list_lookup_insert_ne. Qed.

Lemma takes_trans_nil h h1 h2 lo hi : takes h h1 0 0 -> takes h1 h2 lo hi -> takes h h2 lo hi.
Proof.
  intros (F & W & _ & H) (F2 & W2 & Hin & H2). split_and!; [by eapply same_frame_trans|done|..].
  - intros x Hx. apply Hin, H in Hx as []. done.
  - intros x. rewrite H2, H. intuition lia.
Qed.

(** Giving back the upper end of a block just taken. *)
Lemma free_leftover h h1 a need size :
  heap_wf sh h -> takes h h1 a (a + size) -> 0 < size -> 0 <= need <= size ->
  (4096 | a) -> (4096 | need) -> (4096 | size) ->
  exists h2, Free h1 (u64 (a + need)) (u64 (size - need) / PageSize) = Done true h2 /\
    takes h h2 a (a + need) /\ m_heap_rng h2 = m_heap_rng h1.
Proof.
  intros W T Hs Hn Da Dn Ds. destruct (takes_bounds _ _ _ _ _ W T ltac:(lia)) as [Hlo Hhi].
  destruct (heap_end_room _ _ W) as [Hpos Hroom]. destruct (takes_end _ _ _ _ _ T) as [Ea Ee].
  rewrite (u64_small (a + need)), u64_small by lia. unfold PageSize.
  pose proof (Z.divide_sub_r _ _ _ Ds Dn) as [q Hq].
  assert ((size - need) / 4096 = q) as -> by (rewrite Hq; by apply Z.div_mul).
  pose proof (takes_unavailable _ _ _ _ _ T) as Hu.
  destruct (Free_spec sh h1 (a + need) q) as (h2 & E & F);
    [apply T|by apply Z.divide_add_r|lia|lia|lia|eapply unavailable_sub; [done|lia|lia]|].
  exists h2. split; [done|]. replace (a + need + q * 4096) with (a + size) in F by lia.
  split; [eapply takes_frees_above; [done|done|lia]|]. destruct F as (-> & _). done.
Qed.

Lemma lsize_mono h i j : heap_wf sh h -> (i <= j < length sh)%nat -> (lsize i | lsize j).
Proof.
  intros W [Hij Hj]. induction Hij as [|j Hij IH]; [done|].
  eapply Z.divide_trans; [apply IH; lia|by eapply lsize_divide].
Qed.

Lemma AllocateByLinearSearch_loop_spec index n : forall h i,
  heap_wf sh h -> (index <= i)%nat -> (i + n = length sh)%nat -> (index < length sh)%nat ->
  exists a h', AllocateByLinearSearch_loop n h (lsize index) (Z.of_nat i) = Done true (a, h') /\
    allocated h h' i (lsize index) (lsize index) a.
Proof.
  induction n as [|n IH]; intros h i W Hi Hn Hx; simpl.
  { exists 0, h. split; [done|]. left. split_and!; [done|by apply takes_nil|].
    intros j Hj. apply level_empty_beyond; [done|lia]. }
  destruct (heap_level sh h i W ltac:(lia)) as (k & Ek & Hk & _ & _). rewrite Ek. ostep.
  destruct (pop_level sh h i false k W Hk) as (a & k' & Ep & Es & Eg & Hcase). rewrite Ep. ostep.
  rewrite Es. ostep. rewrite Eg. set (h1 := with_blocks h _) in *. cbv zeta in Hcase.
  destruct Hcase as [(-> & He & T)|(Hpos & _ & Hd & T)].
  - replace (Z.of_nat i + 1) with (Z.of_nat (Datatypes.S i)) by lia. simpl negb. cbv iota.
    destruct (IH h1 (Datatypes.S i)) as (a & h2 & E2 & H2); [apply T|lia|lia|done|].
    exists a, h2. split; [done|]. destruct H2 as [(-> & T2 & Hall)|(? & ? & T2)]; [left|right].
    + split_and!; [done|by eapply takes_trans_nil|]. intros j Hj. destruct (decide (j = i)) as [->|]; [done|].
      eapply (level_empty_takes h h1 i j k'); try done. apply Hall. lia.
    + split_and!; try done. by eapply takes_trans_nil.
  - destruct (Z.eqb_spec a 0); [lia|]. simpl negb. cbv iota.
    pose proof (lsize_bounds sh h i W ltac:(lia)). pose proof (lsize_bounds sh h index W ltac:(lia)).
    pose proof (lsize_mono h index i W ltac:(lia)) as Hdiv. pose proof (Z.divide_pos_le (lsize index) (lsize i) ltac:(lia) Hdiv).
    assert (lsize index | a) by by eapply Z.divide_trans.
    destruct (Z.ltb_spec (lsize index) (lsize i)).
    + destruct (free_leftover h h1 a (lsize index) (lsize i)) as (h2 & E2 & T2 & _);
        [done|done|lia|lia|eapply Z.divide_trans; [eapply (lsize_page sh h index)|]; done || lia|
         eapply lsize_page; done || lia|eapply lsize_page; done || lia|].
      rewrite E2. ostep. exists a, h2. split; [done|]. right. done.
    + exists a, h1. split; [done|]. right. replace (lsize index) with (lsize i) by lia. done.
Qed.

Lemma AllocateByLinearSearch_spec h index :
  heap_wf sh h -> (index < length sh)%nat ->
  exists a h', AllocateByLinearSearch h (Z.of_nat index) = Done true (a, h') /\
    allocated h h' index (lsize index) (lsize index) a.
Proof.
  intros W Hi. unfold AllocateByLinearSearch.
  destruct (heap_level sh h index W Hi) as (k & Ek & _ & Es & _). rewrite Ek. ostep. rewrite Es.
  rewrite (hw_num _ _ W). replace (Z.to_nat (Z.of_nat (length sh) - Z.of_nat index)) with (length sh - index)%nat by lia.
  apply AllocateByLinearSearch_loop_spec; (done || lia).
Qed.

(** *** The random allocator *)

Section Random.
Context (h : KPageHeap) (W : heap_wf sh h) (need shift : Z).
Context (Hshift : 12 <= shift < 64) (Hneed : 0 < need).

Lemma level_empty_num i k :
  m_blocks h !! i = Some k -> 0 <= GetNumFreeBlocks k <= 2 ^ 24 /\ (GetNumFreeBlocks k = 0 <-> level_empty h i).
Proof using W.
  intros Hk. pose proof (hw_blocks _ _ W) as WB. pose proof (bw_level _ _ _ _ WB _ _ Hk) as Hl.
  destruct (bm_num_zero (m_bitmap k) (lv_bitmap _ _ _ _ _ Hl)) as [Hr Hz]. split; [done|].
  unfold GetNumFreeBlocks. rewrite Hz. pose proof (level_bsize sh _ _ (hw_shifts _ _ W) i k Hl).
  split.
  - intros Hno k2 x Hk2. rewrite Hk in Hk2. injection Hk2 as <-.
    intros (o & Ho & Hf & _)%covers_offset; [|lia]. by rewrite Hno in Hf.
  - intros He o Ho. apply not_true_iff_false. intros Hf. apply (He k (bk_heap_address k + o * bsize k) Hk).
    apply (covers_in_block k o); [lia|done|nia|done].
Qed.

Lemma level_alignments_spec i k :
  m_blocks h !! i = Some k -> need <= lsize i -> (i < length sh)%nat ->
  exists a, level_alignments k need shift = mret a /\ 0 <= a < 2 ^ 53 /\ (a = 0 <-> level_empty h i).
Proof using W Hshift Hneed.
  intros Hk Hn Hi. destruct (heap_level sh h i W Hi) as (k0 & _ & Hk0 & Eg & _).
  rewrite Hk in Hk0. injection Hk0 as <-. pose proof (lsize_bounds sh h i W Hi).
  destruct (level_empty_num i k Hk) as [Hr Hz]. unfold level_alignments. rewrite Eg.
  rewrite u64_small by lia. rewrite shr64_ok by lia. ostep.
  assert (0 <= (lsize i - need) .>> shift < 2 ^ 28) as Hs.
  { rewrite Z.shiftr_div_pow2 by lia. assert (2 ^ 12 <= 2 ^ shift) by (apply Z.pow_le_mono_r; lia).
    split; [apply Z.div_pos; lia|]. apply Z.div_lt_upper_bound; nia. }
  rewrite (u64_small (1 + _)), u64_small by nia. eexists. split; [done|]. split; [nia|]. rewrite <- Hz. nia.
Qed.

(** Counting from level [i]: nothing found means all levels are empty, and a choice among what is
    found picks a level that is not. *)
Lemma count_pick_spec n : forall i p,
  (i + n = length sh)%nat -> (forall j, (i <= j < length sh)%nat -> need <= lsize j) -> 0 <= p < 4 ->
  exists possible m, count_alignments n (m_blocks h) need shift (Z.of_nat i) p = mret (possible, Z.of_nat m) /\
    p <= possible < 2 ^ 54 /\ (i <= m <= length sh)%nat /\
    (possible = p -> forall j, (i <= j)%nat -> level_empty h j) /\
    forall rnd idx, p <= rnd < possible ->
      exists j, pick_level (m - i) (m_blocks h) need shift (Z.of_nat i) p rnd idx = mret (Z.of_nat j) /\
        (i <= j < m)%nat /\ ~ level_empty h j.
Proof using W Hshift Hneed.
  induction n as [|n IH]; intros i p Hn Hsz Hp; simpl.
  { exists p, i. split; [done|]. split_and!; try lia. intros _ j Hj. apply level_empty_beyond; [done|lia]. }
  destruct (heap_level sh h i W ltac:(lia)) as (k & Ek & Hk & _ & _). rewrite Ek. ostep.
  destruct (level_alignments_spec i k Hk (Hsz i ltac:(lia)) ltac:(lia)) as (a & Ea & Hr & Hz). rewrite Ea. ostep.
  rewrite (u64_small (p + a)) by lia. unfold MinimumPossibleAlignmentsForRandomAllocation.
  replace (Z.of_nat i + 1) with (Z.of_nat (Datatypes.S i)) by lia.
  destruct (Z.leb_spec 4 (p + a)) as [Hge|Hlt].
  - exists (p + a), (Datatypes.S i). split; [done|]. split_and!; try lia. intros rnd idx Hrnd. exists i.
    replace (Datatypes.S i - i)%nat with 1%nat by lia. simpl. rewrite Ek. ostep. rewrite Ea. ostep.
    rewrite (u64_small (p + a)) by lia. destruct (Z.ltb_spec rnd (p + a)); [|lia].
    split; [done|]. split; [lia|]. rewrite <- Hz. lia.
  - destruct (IH (Datatypes.S i) (p + a)) as (possible & m & E & R1 & R2 & Hall & Hpick); [lia|intros; apply Hsz; lia|lia|].
    exists possible, m. split; [done|]. split; [lia|]. split; [lia|]. split.
    + intros -> j Hj. destruct (decide (j = i)) as [->|]; [apply Hz; lia|]. apply Hall; lia.
    + intros rnd idx Hrnd. destruct (decide (m = i)) as [->|]; [lia|].
      replace (m - i)%nat with (Datatypes.S (m - Datatypes.S i)) by lia. simpl. rewrite Ek. ostep. rewrite Ea. ostep.
      rewrite (u64_small (p + a)) by lia. replace (Z.of_nat i + 1) with (Z.of_nat (Datatypes.S i)) by lia.
      destruct (Z.ltb_spec rnd (p + a)).
      * exists i. split; [done|]. split; [lia|]. rewrite <- Hz. lia.
      * destruct (Hpick rnd idx ltac:(lia)) as (j & Ej & Rj & Hj). exists j. split_and!; done || lia.
Qed.

Lemma choose_level_spec index :
  (index < length sh)%nat -> (forall j, (index <= j < length sh)%nat -> need <= lsize j) ->
  exists i g, choose_level h (Z.of_nat index) need shift = Done true (Z.of_nat i, with_rng h g) /\
    rng_wf g /\ (index <= i < length sh)%nat /\
    (level_empty h i -> forall j, (index <= j)%nat -> level_empty h j).
Proof using W Hshift Hneed.
  intros Hi Hsz. unfold choose_level. rewrite (hw_num _ _ W).
  replace (Z.to_nat (Z.of_nat (length sh) - Z.of_nat index)) with (length sh - index)%nat by lia.
  destruct (count_pick_spec (length sh - index) index 0) as (possible & m & E & R1 & R2 & Hall & Hpick); [lia|done|lia|].
  rewrite E. ostep. pose proof (hw_rng _ _ W) as Hg.
  assert (h = with_rng h (m_heap_rng h)) as Eh by by destruct h.
  destruct (Z.ltb_spec 0 possible) as [Hp|Hp].
  2: { exists index, (m_heap_rng h). simpl. rewrite <- Eh. split_and!; try done; try lia. intros _. apply Hall. lia. }
  destruct (Z.ltb_spec (Z.of_nat index + 1) (Z.of_nat m)); simpl.
  - destruct (GenerateRandom_spec possible (m_heap_rng h) Hg ltac:(lia)) as (r & g & Er & Rr & Hg').
    rewrite Er. ostep. replace (Z.to_nat (Z.of_nat m - Z.of_nat index)) with (m - index)%nat by lia.
    destruct (Hpick r (Z.of_nat index) ltac:(lia)) as (j & Ej & Rj & Hne). rewrite Ej. ostep.
    exists j, g. split_and!; try done; lia.
  - exists index, (m_heap_rng h). rewrite <- Eh. split_and!; try done; try lia.
    destruct (Hpick 0 0 ltac:(lia)) as (j & _ & Rj & Hne). assert (j = index) as -> by lia. done.
Qed.
End Random.
End Allocators.

Section RandomAllocation.
Context (sh : list Z).
Local Abbreviation lsize := (lsize sh).

(** Choosing a page aligned place for [need] bytes in a block of [size] bytes. *)
Lemma random_offset_bounds size need shift r :
  0 <= need <= size -> 12 <= shift -> 0 <= r < 1 + ((size - need) .>> shift) ->
  0 <= r * 2 ^ shift <= size - need /\ (2 ^ shift | r * 2 ^ shift) /\ (4096 | r * 2 ^ shift).
Proof.
  intros Hn Hs Hr. pose proof (Z.pow_pos_nonneg 2 shift ltac:(lia) ltac:(lia)).
  rewrite Z.shiftr_div_pow2 in Hr by lia. pose proof (Z.mul_div_le (size - need) (2 ^ shift) ltac:(lia)).
  split; [nia|]. split; [apply Z.divide_factor_r|]. apply Z.divide_mul_r.
  exists (2 ^ (shift - 12)). change 4096 with (2 ^ 12). rewrite <- Z.pow_add_r by lia. f_equal. lia.
Qed.

Lemma countr_zero_pages n :
  0 < n * 4096 < 2 ^ 63 -> let s := countr_zero 64 (n * 4096) in 12 <= s < 63 /\ 2 ^ s <= n * 4096.
Proof.
  intros Hn s. destruct (countr_zero_spec 64 (n * 4096) ltac:(lia)) as (C0 & C1 & C2). fold s in C0, C1, C2.
  split; [split|].
  - apply Z.nlt_ge. intros Hlt. change 4096 with (2 ^ 12) in C1. rewrite Z.mul_pow2_bits_low in C1; [done|lia].
  - apply (countr_zero_lt 63 64); lia.
  - apply Z.nlt_ge. intros Hlt. rewrite (testbit_above s) in C1; [done|lia|lia].
Qed.

Lemma lsize_pow2_divide h i s :
  heap_wf sh h -> (i < length sh)%nat -> 0 <= s -> 2 ^ s <= lsize i -> (2 ^ s | lsize i).
Proof.
  intros W Hi Hs Hle. destruct (hw_shifts _ _ W) as (_ & Hf & _).
  pose proof (Forall_lookup_1 _ _ _ _ Hf (list_lookup_lookup_total_lt _ _ Hi)) as Hr. simpl in Hr.
  unfold PageHeap.lsize in *. apply Z.pow_le_mono_r_iff in Hle; [|lia|lia].
  exists (2 ^ (sh !!! i - s)). rewrite <- Z.pow_add_r by lia. f_equal. lia.
Qed.

(** Placing the allocation in a block just taken, and giving back both ends. *)
Lemma place_random h h1 a need size shift :
  heap_wf sh h -> takes sh h h1 a (a + size) -> 0 < need < size -> size <= 2 ^ 40 -> 12 <= shift < 64 ->
  (4096 | a) -> (4096 | need) -> (4096 | size) ->
  exists off h2,
    (s ← shr64 (u64 (size - need)) shift;
     '(r, g) ← GenerateRandom (u64 (1 + s)) (m_heap_rng h1);
     random_offset ← shl64 r shift;
     h2 ← (if negb (random_offset =? 0) then Free (with_rng h1 g) a (random_offset / PageSize)
           else mret (with_rng h1 g));
     let addr := u64 (a + random_offset) in
     h2 ← (if negb (random_offset =? u64 (size - need))
           then Free h2 (u64 (addr + need)) (u64 (u64 (size - need) - random_offset) / PageSize)
           else mret h2);
     mret (addr, h2)) = Done true (a + off, h2) /\
    (2 ^ shift | off) /\ 0 <= off /\ takes sh h h2 (a + off) (a + off + need).
Proof.
  intros W T Hn Hsz Hshift Da Dn Ds. destruct (takes_bounds _ _ _ _ _ W T ltac:(lia)) as [Hlo Hhi].
  destruct (heap_end_room _ _ W) as [Hpos Hroom]. destruct (takes_end _ _ _ _ _ T) as [Ea Ee].
  rewrite (u64_small (size - need)) by lia. rewrite shr64_ok by lia. ostep.
  assert (0 <= (size - need) .>> shift < 2 ^ 40) as Hs.
  { rewrite Z.shiftr_div_pow2 by lia. pose proof (Z.pow_pos_nonneg 2 shift ltac:(lia) ltac:(lia)).
    split; [apply Z.div_pos; lia|]. apply Z.div_lt_upper_bound; nia. }
  rewrite (u64_small (1 + _)) by lia.
  destruct (GenerateRandom_spec (1 + ((size - need) .>> shift)) (m_heap_rng h1)) as (r & g & Er & Rr & Hg);
    [apply T|lia|]. rewrite Er. ostep. rewrite shl64_ok by lia. ostep.
  destruct (random_offset_bounds size need shift r ltac:(lia) ltac:(lia) Rr) as (Ro & Do & Dp).
  rewrite Z.shiftl_mul_pow2 by lia. set (off := r * 2 ^ shift) in *. rewrite (u64_small off) by lia.
  pose proof (takes_with_rng _ _ _ _ _ _ T Hg) as Tg.
  assert (exists h2, (if negb (off =? 0) then Free (with_rng h1 g) a (off / PageSize) else mret (with_rng h1 g))
    = Done true h2 /\ takes sh h h2 (a + off) (a + size)) as (h2 & -> & T2).
  { destruct (Z.eqb_spec off 0) as [->|]; simpl; [exists (with_rng h1 g); by rewrite Z.add_0_r|].
    destruct Dp as [q Hq]. unfold PageSize. assert (off / 4096 = q) as -> by (rewrite Hq; by apply Z.div_mul).
    destruct (Free_spec sh (with_rng h1 g) a q) as (h2 & E2 & F2); [apply Tg|done|lia|simpl; lia| |..].
    - change (heap_end (with_rng h1 g)) with (heap_end h1). lia.
    - eapply unavailable_sub; [by eapply takes_unavailable|lia|lia].
    - exists h2. split; [done|]. rewrite <- Hq in F2. eapply takes_frees_below; [done|done|lia]. }
  ostep. rewrite (u64_small (a + off)) by lia. exists off.
  destruct (Z.eqb_spec off (size - need)) as [E|Hne]; simpl.
  - exists h2. split_and!; try done; try lia. replace (a + off + need) with (a + size) by lia. done.
  - destruct (free_leftover sh h h2 (a + off) need (size - off)) as (h3 & E3 & T3 & _);
      [done|by replace (a + off + (size - off)) with (a + size) by lia|lia|lia|by apply Z.divide_add_r|done|by apply Z.divide_sub_r|].
    replace (size - off - need) with (size - need - off) in E3 by lia. rewrite E3. ostep. exists h3. split_and!; [done|done|lia|done].
Qed.

Lemma AllocateByRandom_spec h index n al :
  heap_wf sh h -> (index < length sh)%nat -> 0 < n -> n * 4096 <= lsize index ->
  0 < al -> al * 4096 <= lsize index ->
  exists a h', AllocateByRandom h (Z.of_nat index) n al = Done true (a, h') /\
    allocated sh h h' index (n * 4096) (2 ^ countr_zero 64 (al * 4096)) a.
Proof.
  intros W Hi Hn Hns Hal Hals. pose proof (lsize_bounds sh h index W Hi) as Hb.
  unfold AllocateByRandom. change (n * PageSize) with (n * 4096). change (al * PageSize) with (al * 4096).
  rewrite (u64_small (n * 4096)), (u64_small (al * 4096)) by lia.
  destruct (countr_zero_pages al ltac:(lia)) as [Hshift Hpow]. set (shift := countr_zero 64 (al * 4096)) in *.
  assert (forall j, (index <= j < length sh)%nat -> lsize index <= lsize j) as Hmono.
  { intros j Hj. pose proof (lsize_bounds sh h j W ltac:(lia)).
    apply Z.divide_pos_le; [lia|]. eapply lsize_mono; [done|lia]. }
  destruct (choose_level_spec sh h W (n * 4096) shift ltac:(lia) ltac:(lia) index Hi) as (i & g & Ec & Hg & Ri & He).
  { intros j Hj. specialize (Hmono j Hj). lia. }
  rewrite Ec. ostep. specialize (Hmono i ltac:(lia)). pose proof (lsize_bounds sh h i W ltac:(lia)).
  pose proof (heap_wf_with_rng sh h g W Hg) as Wg.
  destruct (heap_level sh (with_rng h g) i Wg ltac:(lia)) as (k & Ek & Hk & _). rewrite Ek. ostep.
  destruct (pop_level sh (with_rng h g) i true k Wg Hk) as (a & k' & Ep & Es & Eg & Hcase).
  rewrite Ep. ostep. rewrite Es. ostep. rewrite Eg. set (h1 := with_blocks _ _) in *. cbv zeta in Hcase.
  assert (forall h2 lo hi, takes sh (with_rng h g) h2 lo hi <-> takes sh h h2 lo hi) as Htk by done.
  destruct Hcase as [(-> & Hem & T)|(Hpos & _ & Hd & T)]; simpl negb; cbv iota.
  { exists 0, h1. split; [done|]. left. split; [done|]. split; [done|]. by apply He. }
  destruct (Z.eqb_spec a 0); [lia|]. simpl negb. cbv iota.
  assert (2 ^ shift | lsize i) as Hdi by (eapply lsize_pow2_divide; [done|lia|lia|lia]).
  assert (2 ^ shift | a) as Hda by (by eapply Z.divide_trans).
  pose proof (lsize_page sh h i W ltac:(lia)) as Hpg.
  rewrite (u64_small (lsize i - n * 4096)) by lia.
  destruct (Z.ltb_spec 0 (lsize i - n * 4096)).
  - destruct (place_random h h1 a (n * 4096) (lsize i) shift) as (off & h2 & E2 & D2 & P2 & T2); try done; try lia.
    { by eapply Z.divide_trans. } { apply Z.divide_factor_r. }
    rewrite (u64_small (lsize i - n * 4096)) in E2 by lia.
    exists (a + off), h2. split; [exact E2|]. right. split_and!; [lia|by apply Z.divide_add_r|done..].
  - exists a, h1. split; [done|]. right. replace (n * 4096) with (lsize i) by lia. done.
Qed.

Lemma GetNumPages_level h i k : heap_wf sh h -> (i < length sh)%nat -> m_blocks h !! i = Some k ->
  0 < GetNumPages k /\ GetNumPages k * 4096 = lsize i.
Proof.
  intros W Hi Hk. destruct (heap_level sh h i W Hi) as (k0 & _ & Hk0 & Eg & _). rewrite Hk in Hk0. injection Hk0 as <-.
  unfold GetNumPages, PageSize. rewrite Eg. destruct (lsize_page sh h i W Hi) as [q Hq].
  pose proof (lsize_bounds sh h i W Hi). rewrite Hq, Z.div_mul by lia. lia.
Qed.

Lemma AllocateBlock_spec h index random :
  heap_wf sh h -> (index < length sh)%nat ->
  exists a h', AllocateBlock h (Z.of_nat index) random = Done true (a, h') /\
    allocated sh h h' index (lsize index) (lsize index) a.
Proof.
  intros W Hi. unfold AllocateBlock. destruct random; [|by apply AllocateByLinearSearch_spec].
  destruct (heap_level sh h index W Hi) as (k & Ek & Hk & _). rewrite Ek. ostep.
  destruct (GetNumPages_level h index k W Hi Hk) as [Hp Ep].
  destruct (AllocateByRandom_spec h index (GetNumPages k) (GetNumPages k)) as (a & h' & E & A); try done; try lia.
  rewrite Ep in A. unfold PageHeap.lsize at 2 in A. rewrite countr_zero_pow2 in A; [by exists a, h'|].
  destruct (hw_shifts _ _ W) as (_ & Hf & _).
  pose proof (Forall_lookup_1 _ _ _ _ Hf (list_lookup_lookup_total_lt _ _ Hi)) as Hr. simpl in Hr. lia.
Qed.

(** With no free block at a level or above, no aligned block of that size is free. *)
Lemma empty_levels_no_block h index a :
  heap_wf sh h -> (index < length sh)%nat -> (forall i, (index <= i)%nat -> level_empty h i) ->
  (lsize index | a) -> ~ (forall x, a <= x < a + lsize index -> heap_avail h x).
Proof.
  intros W Hi He Ha Hall. destruct (aligned_free_level sh h index a W Hi Ha Hall) as (i & k & x & Hij & Hk & _ & Hc).
  by apply (He i Hij k x Hk).
Qed.
End RandomAllocation.

(** ** Initialisation *)

Section Init.
Context (sh : list Z) (addr size : Z) (Hsh : shifts_ok sh).
Context (Haddr : 0 < addr) (Hsize : 0 < size <= 2 ^ 35) (Hroom : addr + size < 2 ^ 61).

(** Consecutive block sizes differ by a factor of at most 64. *)
Definition gaps_ok : Prop := forall i s s', sh !! i = Some s -> sh !! Datatypes.S i = Some s' -> s' <= s + 6.
Context (Hgap : gaps_ok).

Definition init_align (bs nbs : Z) : Z := if nbs =? 0 then 2 ^ bs else 2 ^ nbs.

Lemma init_align_spec i bs :
  sh !! i = Some bs -> 12 <= bs <= 40 /\
  let align := init_align bs (next_shift sh i) in
  2 ^ bs <= align <= 64 * 2 ^ bs /\ align <= 2 ^ 40 /\ (2 ^ bs | align) /\
  (if negb (next_shift sh i =? 0) then u64 (1 .<< next_shift sh i) else u64 (1 .<< bs)) = align /\
  u64 (1 .<< bs) = 2 ^ bs /\ 4096 <= 2 ^ bs <= 2 ^ 40.
Proof using Hsh Hgap.
  intros Hb. destruct Hsh as (_ & Hf & Hm). pose proof (Forall_lookup_1 _ _ _ _ Hf Hb) as Hr. simpl in Hr.
  assert (4096 <= 2 ^ bs <= 2 ^ 40) as Hp by (change 4096 with (2 ^ 12); split; apply Z.pow_le_mono_r; lia).
  split; [done|]. rewrite !Z.shiftl_1_l. unfold init_align, next_shift.
  destruct (sh !! Datatypes.S i) as [s'|] eqn:E; simpl.
  2: { rewrite u64_small by lia. split_and!; try done; lia. }
  pose proof (Forall_lookup_1 _ _ _ _ Hf E) as Hr'. simpl in Hr'. pose proof (Hm i bs s' Hb E). pose proof (Hgap i bs s' Hb E).
  destruct (Z.eqb_spec s' 0); [lia|]. simpl.
  assert (2 ^ s' = 2 ^ (s' - bs) * 2 ^ bs) as Ep by (rewrite <- Z.pow_add_r by lia; f_equal; lia).
  assert (2 ^ 0 <= 2 ^ (s' - bs) <= 2 ^ 6) by (split; apply Z.pow_le_mono_r; lia).
  assert (2 ^ s' <= 2 ^ 40) by (apply Z.pow_le_mono_r; lia).
  rewrite !u64_small by lia. split_and!; try done; try nia. rewrite Ep. apply Z.divide_factor_r.
Qed.

(** One level: it fits in the overhead computed for it, is well-formed and has no free block. *)
Lemma Block_Initialize_spec i bs k storage :
  sh !! i = Some bs -> bm_ready (m_bitmap k) -> Forall (fun w => w = 0) storage ->
  Block_CalculateManagementOverheadSize size bs (next_shift sh i) <= 8 * Z.of_nat (length storage) ->
  exists k' n, Block_Initialize k addr size bs (next_shift sh i) storage = Done true (k', drop n storage) /\
    8 * Z.of_nat n <= Block_CalculateManagementOverheadSize size bs (next_shift sh i) /\
    level_ok sh addr (addr + size) i k' /\ forall x, ~ covers k' x.
Proof using Hsh Hgap Haddr Hsize Hroom.
  intros Hb Hk Hz. destruct (init_align_spec i bs Hb) as (Hbs & A1 & A2 & A3 & A4 & A5 & A6).
  unfold Block_Initialize, Block_CalculateManagementOverheadSize. rewrite A4, A5.
  set (align := init_align bs (next_shift sh i)) in *.
  rewrite (u64_small (addr + size)) by lia.
  destruct (AlignDown_spec 64 addr align) as (D1 & D2 & D3); [lia|unfold in_u; lia|].
  destruct (AlignUp_spec 64 (addr + size) align) as (U1 & U2); [lia|lia|unfold in_u; lia|lia|].
  destruct (AlignUp_spec 64 size align) as (V1 & V2); [lia|lia|unfold in_u; lia|lia|].
  set (a0 := AlignDown 64 addr align) in *. set (fin := AlignUp 64 (addr + size) align) in *.
  rewrite (u64_small (fin - a0)), (u64_small (align * 2)), u64_small by lia.
  pose proof (Z.divide_sub_r _ _ _ U1 D1) as Hdiv. destruct (Z.divide_trans _ _ _ A3 Hdiv) as [e He].
  assert ((fin - a0) / 2 ^ bs = e) as -> by (rewrite He; apply Z.div_mul; lia).
  assert (0 < e) as He0 by nia.
  assert (e < 2 ^ 24) as He1 by nia.
  assert (e <= (align * 2 + AlignUp 64 size align) / 2 ^ bs) as Hle by (apply Z.div_le_lower_bound; lia).
  assert ((align * 2 + AlignUp 64 size align) / 2 ^ bs < 2 ^ 60) by (apply Z.div_lt_upper_bound; nia).
  destruct (overhead_mono e ((align * 2 + AlignUp 64 size align) / 2 ^ bs)) as [_ Hov]; [lia|lia|].
  intros Hst. destruct (bm_init_law (m_bitmap k) storage e Hk ltac:(lia) Hz ltac:(lia)) as (b & n & E & W & En & Hc & Hf).
  rewrite E. ostep. eexists _, n. split; [done|]. split; [lia|]. split.
  - assert (level_align (mkBlock b a0 e bs (next_shift sh i)) = align) as Ela by done.
    split; rewrite ?Ela; simpl; try done; try lia.
    + unfold bsize. simpl. by rewrite <- He.
    + unfold bsize. simpl. lia.
    + unfold bsize. simpl. nia.
  - intros x (o & Ho & Hfo & _)%covers_offset; [|unfold bsize; simpl; lia]. simpl in Hfo. by rewrite Hf in Hfo.
Qed.

Lemma level_overhead_bounds i bs :
  sh !! i = Some bs ->
  0 <= Block_CalculateManagementOverheadSize size bs (next_shift sh i) < 2 ^ 40.
Proof using Hsh Hgap Hsize Haddr Hroom.
  intros Hb. destruct (init_align_spec i bs Hb) as (Hbs & A1 & A2 & A3 & A4 & A5 & A6).
  unfold Block_CalculateManagementOverheadSize. rewrite A4, A5.
  set (align := init_align bs (next_shift sh i)) in *.
  destruct (AlignUp_spec 64 size align) as (V1 & V2); [lia|lia|unfold in_u; lia|lia|].
  rewrite (u64_small (align * 2)), u64_small by lia.
  set (e := (align * 2 + AlignUp 64 size align) / 2 ^ bs).
  assert (0 < e <= 2 ^ 24 - 1) as He.
  { split; [apply Z.div_str_pos; lia|]. assert (e < 2 ^ 24); [|lia]. apply Z.div_lt_upper_bound; nia. }
  destruct (overhead_mono e (2 ^ 24 - 1)) as [H1 H2]; [lia|lia|]. split; [done|].
  eapply Z.le_lt_trans; [exact H2|]. by vm_compute.
Qed.

(** The sum of the overheads of the levels from [i] on. *)
Lemma overhead_of_shifts_step i s rest acc :
  drop i sh = s :: rest -> 0 <= acc < 2 ^ 62 ->
  overhead_of_shifts (s :: rest) size acc =
    overhead_of_shifts rest size (acc + Block_CalculateManagementOverheadSize size s (next_shift sh i)).
Proof using Hsh Hgap Hsize Haddr Hroom.
  intros Hd Ha. simpl. assert (match rest with [] => 0 | s' :: _ => s' end = next_shift sh i) as ->.
  { unfold next_shift. rewrite <- Nat.add_1_r, <- lookup_drop, Hd. by destruct rest. }
  pose proof (level_overhead_bounds i s). rewrite u64_small; [done|].
  assert (sh !! i = Some s) as Hi by (rewrite <- (Nat.add_0_r i), <- lookup_drop, Hd; done).
  specialize (H Hi). lia.
Qed.

Lemma overhead_of_shifts_acc rest : forall i acc,
  drop i sh = rest -> 0 <= acc -> acc + 2 ^ 40 * Z.of_nat (length rest) < 2 ^ 61 ->
  overhead_of_shifts rest size acc = acc + overhead_of_shifts rest size 0 /\
  0 <= overhead_of_shifts rest size 0 <= 2 ^ 40 * Z.of_nat (length rest).
Proof using Hsh Hgap Hsize Haddr Hroom.
  induction rest as [|s rest IH]; intros i acc Hd Ha Hb; [simpl; lia|].
  assert (sh !! i = Some s) as Hi by (rewrite <- (Nat.add_0_r i), <- lookup_drop, Hd; done).
  pose proof (level_overhead_bounds i s Hi). rewrite length_cons in *.
  assert (drop (Datatypes.S i) sh = rest) as Hd' by (rewrite <- Nat.add_1_r, <- drop_drop, Hd; done).
  rewrite !(overhead_of_shifts_step i s rest) by (done || lia). rewrite Z.add_0_l.
  set (o := Block_CalculateManagementOverheadSize size s (next_shift sh i)) in *.
  destruct (IH (Datatypes.S i) (acc + o) Hd') as [-> ?]; [lia|lia|].
  destruct (IH (Datatypes.S i) o Hd') as [-> ?]; lia.
Qed.

Lemma Initialize_blocks_spec rest : forall i ks storage,
  drop i sh = rest -> (length rest <= 64)%nat -> length ks = length rest ->
  Forall (fun k => bm_ready (m_bitmap k)) ks -> Forall (fun w => w = 0) storage ->
  overhead_of_shifts rest size 0 <= 8 * Z.of_nat (length storage) ->
  exists ks' n, Initialize_blocks ks rest addr size storage = Done true (ks', drop n storage) /\
    8 * Z.of_nat n <= overhead_of_shifts rest size 0 /\ length ks' = length rest /\
    forall j k, ks' !! j = Some k -> level_ok sh addr (addr + size) (i + j) k /\ forall x, ~ covers k x.
Proof using Hsh Hgap Haddr Hsize Hroom.
  induction rest as [|s rest IH]; intros i ks storage Hd Hlen Hks Hr Hz Ho.
  { destruct ks; [|done]. exists [], 0%nat. simpl. rewrite drop_0. split_and!; [done|lia|done|].
    intros j k Hj. by rewrite lookup_nil in Hj. }
  destruct ks as [|k ks]; [done|]. apply Forall_cons_1 in Hr as [Hk Hr]. simpl in Hks, Hlen.
  assert (sh !! i = Some s) as Hi by (rewrite <- (Nat.add_0_r i), <- lookup_drop, Hd; done).
  assert (drop (Datatypes.S i) sh = rest) as Hd' by (rewrite <- Nat.add_1_r, <- drop_drop, Hd; done).
  rewrite (overhead_of_shifts_step i s rest 0), Z.add_0_l in * by (done || lia).
  pose proof (level_overhead_bounds i s Hi) as Hb.
  set (o := Block_CalculateManagementOverheadSize size s (next_shift sh i)) in *.
  destruct (overhead_of_shifts_acc rest (Datatypes.S i) o Hd' ltac:(lia) ltac:(lia)) as [Eo Ho'].
  destruct (Block_Initialize_spec i s k storage Hi Hk Hz ltac:(lia)) as (k' & n & E & Hn & Hl & Hc). fold o in Hn.
  destruct (IH (Datatypes.S i) ks (drop n storage) Hd' ltac:(lia) ltac:(lia) Hr) as (ks' & n' & E' & Hn' & L' & H').
  { by apply Forall_drop. } { rewrite length_drop. lia. }
  cbn [Initialize_blocks]. assert (match rest with [] => 0 | s' :: _ => s' end = next_shift sh i) as ->.
  { unfold next_shift. rewrite <- Nat.add_1_r, <- lookup_drop, Hd. by destruct rest. }
  rewrite E. ostep. rewrite E'. ostep. exists (k' :: ks'), (n + n')%nat. rewrite drop_drop.
  split_and!; [done|lia|simpl; lia|]. intros [|j] kj Hj; simpl in Hj.
  - injection Hj as <-. by rewrite Nat.add_0_r.
  - rewrite Nat.add_succ_r. by apply H'.
Qed.
End Init.

(** ** Initialisation of the whole heap *)

Lemma shifts_ok_MemoryBlockPageShifts : shifts_ok MemoryBlockPageShifts.
Proof.
  split_and!; [done|by repeat (constructor; [lia|])|].
  intros i s s'. do 7 (destruct i as [|i]; [simpl; intros [= <-] [= <-]; lia|]). done.
Qed.

Lemma gaps_ok_MemoryBlockPageShifts : gaps_ok MemoryBlockPageShifts.
Proof. intros i s s'. do 7 (destruct i as [|i]; [simpl; intros [= <-] [= <-]; lia|]). done. Qed.

Lemma IsAligned_page v : 0 <= v -> (PageSize | v) -> IsAligned 64 v PageSize = true.
Proof.
  intros Hv Hd. change PageSize with (2 ^ 12). rewrite IsAligned_pow2 by lia. apply Z.eqb_eq.
  by apply Z.mod_divide.
Qed.

Lemma Initialize_heap_spec sh h addr size ma ms data :
  shifts_ok sh -> gaps_ok sh -> (length sh <= 7)%nat ->
  0 < addr -> 0 < size <= 2 ^ 35 -> addr + size < 2 ^ 61 -> (4096 | addr) -> (4096 | size) ->
  length (m_blocks h) = length sh -> Forall (fun k => bm_ready (m_bitmap k)) (m_blocks h) -> rng_wf (m_heap_rng h) ->
  Heap_CalculateManagementOverheadSize size sh <= ms < 2 ^ 63 ->
  exists h' used, Initialize h addr size ma ms sh data =
      Done (u64 (data + used) <=? u64 (ma + ms)) h' /\ 0 <= used <= ms /\
    heap_wf sh h' /\ m_heap_address h' = addr /\ m_heap_size h' = size /\
    forall x, ~ heap_avail h' x.
Proof.
  intros Hsh Hgap H7 Ha Hs Hr Da Ds Hl Hk Hg Hms. unfold Initialize.
  do 2 rewrite bind_assert_true by (apply IsAligned_page; done || lia).
  assert (0 < length sh)%nat as H0 by (destruct Hsh as (H0 & _); by eapply lookup_lt_Some).
  rewrite bind_assert_true by (unfold NumMemoryBlockPageShifts; apply andb_true_iff; split; [apply Z.ltb_lt|apply Z.leb_le]; lia).
  destruct (overhead_of_shifts_acc sh addr size Hsh Ha Hs Hr Hgap sh 0 0)
    as [_ Hb]; [done|lia|lia|]. unfold Heap_CalculateManagementOverheadSize in Hms.
  set (o := overhead_of_shifts sh size 0) in *.
  destruct (AlignUp_spec 64 o PageSize) as [[q Hq] U]; [done|lia|unfold in_u; lia|unfold PageSize; lia|].
  set (storage := replicate (Z.to_nat (ms / 8)) 0). unfold PageSize in Hms, Hq, U.
  pose proof (Z.div_mod ms 8 ltac:(lia)). pose proof (Z.mod_pos_bound ms 8 ltac:(lia)).
  assert (Z.of_nat (length storage) = ms / 8) as Els.
  { unfold storage. rewrite length_replicate. rewrite Z2Nat.id; [done|apply Z.div_pos; lia]. }
  destruct (Initialize_blocks_spec sh addr size Hsh Ha Hs Hr Hgap sh 0
    (m_blocks h) storage) as (ks & n & E & Hn & L & Hks); [done|lia|done|done|by apply Forall_replicate|fold o; pose proof (Z.div_le_mono (q * 4096) ms 8 ltac:(lia) ltac:(lia)) as Hq8; replace (q * 4096) with (q * 512 * 8) in Hq8 by lia; rewrite Z.div_mul in Hq8 by lia; lia|].
  rewrite E. ostep. fold o in Hn. rewrite length_drop.
  replace (8 * (Z.of_nat (length storage) - Z.of_nat (length storage - n))) with (8 * Z.of_nat n) by lia.
  eexists _, (8 * Z.of_nat n). split; [simpl; by rewrite andb_true_r|]. split; [lia|].
  assert (forall x, ~ avail ks x) as Hav.
  { intros x (j & k & Hj & Hx). by apply (proj2 (Hks j k Hj) x). }
  split; [|done]. split; simpl; try done; try lia. split; try done.
  - intros j k Hj. by apply (Hks j k).
  - intros j k x Hj Hx. by destruct (proj2 (Hks j k Hj) x).
  - intros i j k k' x Hi Hj Hx. by destruct (proj2 (Hks i k Hi) x).
  - intros j k Hj Hne g Hg0. pose proof (proj1 (Hks j k Hj)) as Hlv. rewrite Nat.add_0_l in Hlv.
    destruct (level_next sh _ _ Hsh j k Hlv Hne) as (_ & _ & _ & Hgr).
    exists 0. split; [lia|]. apply not_true_iff_false. intros Hf. rewrite Z.add_0_r in Hf.
    pose proof (level_bsize sh _ _ Hsh j k Hlv).
    apply (proj2 (Hks j k Hj) (bk_heap_address k + g * group k * bsize k)).
    apply (covers_in_block k (g * group k)); [lia|nia|nia|done].
Qed.

(** ** The choice of a level *)

Lemma GetAlignedBlockIndex_loop_spec shifts : forall i n,
  Forall (fun s => 12 <= s <= 40) shifts ->
  let r := GetAlignedBlockIndex_loop shifts i n in
  (r = -1 /\ forall s, s ∈ shifts -> 2 ^ s < n * 4096) \/
  (exists j s, r = i + Z.of_nat j /\ shifts !! j = Some s /\ n * 4096 <= 2 ^ s /\
     forall j' s', (j' < j)%nat -> shifts !! j' = Some s' -> 2 ^ s' < n * 4096).
Proof.
  induction shifts as [|s shifts IH]; intros i n Hf; simpl; [left; split; [done|by intros s Hs%not_elem_of_nil]|].
  apply Forall_cons_1 in Hf as [Hs Hf]. rewrite Z.shiftl_1_l.
  assert (4096 <= 2 ^ s <= 2 ^ 40) by (change 4096 with (2 ^ 12); split; apply Z.pow_le_mono_r; lia).
  rewrite u64_small by lia. unfold PageSize.
  assert (2 ^ s = 2 ^ (s - 12) * 4096) as Ep by (change 4096 with (2 ^ 12); rewrite <- Z.pow_add_r by lia; f_equal; lia).
  rewrite Ep, Z.div_mul by lia. destruct (Z.leb_spec n (2 ^ (s - 12))).
  - right. exists 0%nat, s. split_and!; [lia|done|lia|intros; lia].
  - destruct (IH (i + 1) n Hf) as [[-> Hall]|(j & s' & -> & Hj & Hle & Hlt)]; [left|right].
    + split; [done|]. intros s' [->|Hs']%elem_of_cons; [lia|by apply Hall].
    + exists (Datatypes.S j), s'. split_and!; [lia|done|done|].
      intros [|j'] s2 Hj' Hs2; [injection Hs2 as <-; lia|]. apply (Hlt j' s2); [lia|done].
Qed.
End PageHeap.

(** ** The properties *)

Section Properties.
Context {S : Type} {ES : EntropySource S} {B : Type} {FB : FreeBitmap B}.
Implicit Types h : KPageHeap (S := S) (B := B).

(** [Initialize] with a management area of [CalculateManagementOverheadSize] bytes never writes
    outside it: every level's bitmap fits.  It leaves a well-formed heap over the given region with no
    available memory; its last assertion, and only that one, depends on where the host allocates
    the management vector. *)
Theorem page_heap_initialize h addr size ma ms data :
  0 < addr -> 0 < size <= 2 ^ 35 -> addr + size < 2 ^ 61 -> (4096 | addr) -> (4096 | size) ->
  length (m_blocks h) = 7%nat -> Forall (fun k => bm_ready (m_bitmap k)) (m_blocks h) ->
  rng_wf (m_heap_rng h) ->
  Heap_CalculateManagementOverheadSize size MemoryBlockPageShifts <= ms < 2 ^ 63 ->
  exists h' used, Initialize h addr size ma ms MemoryBlockPageShifts data =
      Done (u64 (data + used) <=? u64 (ma + ms)) h' /\ 0 <= used <= ms /\
    heap_wf MemoryBlockPageShifts h' /\ m_heap_address h' = addr /\ m_heap_size h' = size /\
    forall x, ~ heap_avail h' x.
Proof.
  intros. apply Initialize_heap_spec; try done;
    [apply shifts_ok_MemoryBlockPageShifts|apply gaps_ok_MemoryBlockPageShifts].
Qed.

(** C1: [Free] of a page range inside the heap that is not available adds exactly that range to
    the available memory, whatever mix of block sizes it is cut into and however far the blocks
    coalesce, and keeps the heap well-formed (levels disjoint, buddies coalesced); all its
    assertions and those of the bitmaps pass. *)
Theorem page_heap_free sh h a n :
  heap_wf sh h -> (4096 | a) -> 0 <= n -> m_heap_address h <= a -> a + n * 4096 <= heap_end h ->
  unavailable h a (a + n * 4096) ->
  exists h', Free h a n = Done true h' /\ h' = with_blocks h (m_blocks h') /\ heap_wf sh h' /\
    forall x, heap_avail h' x <-> heap_avail h x \/ a <= x < a + n * 4096.
Proof. apply Free_spec. Qed.

(** C2: [AllocateBlock], linear or random, answers a block of the size of level [index], aligned to
    that size, that was entirely available, and takes exactly it out of the available memory; it
    answers 0 only when no aligned block of that size is available anywhere in the heap, and then
    changes nothing available. *)
Theorem page_heap_allocate_block sh h index random :
  heap_wf sh h -> (index < length sh)%nat ->
  exists a h', AllocateBlock h (Z.of_nat index) random = Done true (a, h') /\
    ((a = 0 /\ takes sh h h' 0 0 /\
      forall p, (lsize sh index | p) -> ~ forall x, p <= x < p + lsize sh index -> heap_avail h x) \/
     (0 < a /\ (lsize sh index | a) /\ takes sh h h' a (a + lsize sh index))).
Proof.
  intros W Hi. destruct (AllocateBlock_spec sh h index random W Hi) as (a & h' & E & [(-> & T & He)|A]);
    eexists _, h'; (split; [exact E|]); [left|by right].
  split_and!; [done|apply T..|]. intros p Hp. by apply (empty_levels_no_block sh h index).
Qed.

(** [AllocateAligned] at the level [GetAlignedBlockIndex] chooses answers [num_pages] pages at
    an address aligned to the (power of two part of the) requested alignment, all available
    before and exactly them taken out, the rest of the block they were cut from given back; it
    fails only when every level from the chosen one up is empty. *)
Theorem page_heap_allocate_aligned h index n al :
  heap_wf MemoryBlockPageShifts h -> 0 < n -> 0 < al -> GetAlignedBlockIndex n al = Z.of_nat index ->
  exists a h', AllocateAligned h (Z.of_nat index) n al = Done true (a, h') /\
    ((a = 0 /\ takes MemoryBlockPageShifts h h' 0 0 /\ forall i, (index <= i)%nat -> level_empty h i) \/
     (0 < a /\ (2 ^ countr_zero 64 (al * 4096) | a) /\ takes MemoryBlockPageShifts h h' a (a + n * 4096))).
Proof.
  intros W Hn Hal Hix. unfold GetAlignedBlockIndex in Hix.
  destruct (GetAlignedBlockIndex_loop_spec MemoryBlockPageShifts 0 (Z.max n al)) as [[E _]|(j & s & E & Hj & Hle & _)].
  { apply shifts_ok_MemoryBlockPageShifts. } { lia. }
  rewrite Hix in E. assert (j = index) as -> by lia.
  assert (lsize MemoryBlockPageShifts index = 2 ^ s) as El by (unfold lsize; by rewrite (list_lookup_total_correct _ _ _ Hj)).
  apply AllocateByRandom_spec; rewrite ?El; try done; try lia. by eapply lookup_lt_Some.
Qed.

(** Freeing a block that was allocated restores the available memory: allocation and [Free]
    are inverse on what is available. *)
Theorem page_heap_allocate_free sh h index random a h1 :
  heap_wf sh h -> (index < length sh)%nat ->
  AllocateBlock h (Z.of_nat index) random = Done true (a, h1) -> 0 < a ->
  exists h2, Free h1 a (lsize sh index / PageSize) = Done true h2 /\ heap_wf sh h2 /\
    forall x, heap_avail h2 x <-> heap_avail h x.
Proof.
  intros W Hi E Ha. destruct (AllocateBlock_spec sh h index random W Hi) as (a' & h' & E' & A).
  rewrite E in E'. injection E' as <- <-. destruct A as [(-> & _)|(_ & Hd & T)]; [lia|].
  destruct (lsize_page sh h index W Hi) as [q Hq]. pose proof (lsize_bounds sh h index W Hi).
  destruct (takes_bounds _ _ _ _ _ W T ltac:(lia)) as [Hlo Hhi]. destruct (takes_end _ _ _ _ _ T) as [Ea Ee].
  unfold PageSize. rewrite Hq in *. rewrite Z.div_mul by lia.
  destruct (Free_spec sh h1 a q) as (h2 & E2 & _ & W2 & H2);
    [apply T|eapply Z.divide_trans; [|done]; apply Z.divide_factor_r|lia|lia|lia|by eapply takes_unavailable|].
  exists h2. split_and!; try done. intros x. rewrite H2. destruct T as (_ & _ & Hin & Hout). rewrite Hout.
  destruct (Z_le_dec a x), (Z_lt_dec x (a + q * 4096)); split; intuition (lia || (apply Hin; lia)).
Qed.
End Properties.

(** ** A concrete heap: 4 MiB at 0x80000000, first empty, then with its first 3 MiB freed *)

Definition demo_heap_raw : KPageHeap :=
  mkHeap 0 0 0 0 (replicate 7 (mkBlock demo_empty 0 0 0 0)) demo_rng.
Definition run {A} (d : A) (m : outcome A) : A := match m with Done _ a => a | Undef => d end.
Definition demo_heap_empty : KPageHeap :=
  run demo_heap_raw (Initialize demo_heap_raw 0x80000000 0x400000 0x90000000 0x2000 MemoryBlockPageShifts 0x10000).
Definition demo_heap : KPageHeap := run demo_heap_raw (Free demo_heap_empty 0x80000000 768).

Lemma demo_heap_empty_wf :
  heap_wf MemoryBlockPageShifts demo_heap_empty /\ m_heap_address demo_heap_empty = 0x80000000 /\
  m_heap_size demo_heap_empty = 0x400000 /\ forall x, ~ heap_avail demo_heap_empty x.
Proof.
  destruct (Initialize_heap_spec MemoryBlockPageShifts demo_heap_raw 0x80000000 0x400000 0x90000000 0x2000 0x10000)
    as (h & used & E & _ & H);
    [apply shifts_ok_MemoryBlockPageShifts|apply gaps_ok_MemoryBlockPageShifts|simpl; lia|lia|lia|lia|by exists 0x80000|
     by exists 0x400|reflexivity|apply Forall_replicate, demo_rng_wf|apply demo_rng_wf|by vm_compute|].
  unfold demo_heap_empty. rewrite E. exact H.
Qed.

Lemma demo_heap_wf :
  heap_wf MemoryBlockPageShifts demo_heap /\ m_heap_address demo_heap = 0x80000000 /\
  heap_end demo_heap = 0x80400000 /\ forall x, heap_avail demo_heap x <-> 0x80000000 <= x < 0x80300000.
Proof.
  destruct demo_heap_empty_wf as (W & Ea & Es & Hno).
  destruct (Free_spec MemoryBlockPageShifts demo_heap_empty 0x80000000 768) as (h & E & F);
    [exact W|by exists 0x80000|lia|lia|unfold heap_end; lia|intros x _; apply Hno|].
  - destruct (frees_end _ _ _ _ _ F) as [Ea' Ee']. destruct F as (_ & W' & H).
    unfold demo_heap. rewrite E. cbn [run]. split; [done|]. split; [lia|]. split.
    + rewrite Ee'. unfold heap_end. lia.
    + intros x. rewrite H. pose proof (Hno x) as Hn. split; [intros [Hx|Hx]; [exfalso; exact (Hn Hx)|lia]|]. right. lia.
Qed.

Lemma page_heap_initialize_witness :
  exists h, Initialize demo_heap_raw 0x80000000 0x400000 0x90000000 0x2000 MemoryBlockPageShifts 0x10000
    = Done true h /\ heap_wf MemoryBlockPageShifts h.
Proof.
  destruct (page_heap_initialize demo_heap_raw 0x80000000 0x400000 0x90000000 0x2000 0x10000)
    as (h & used & E & Hu & W & _);
    [lia|lia|lia|by exists 0x80000|by exists 0x400|reflexivity|apply Forall_replicate, demo_rng_wf|
     apply demo_rng_wf|by vm_compute|].
  exists h. split; [|done]. rewrite E. f_equal. apply Z.leb_le. rewrite !u64_small by lia. lia.
Defined.

Lemma page_heap_free_witness :
  exists h', Free demo_heap 0x80300000 2 = Done true h' /\ heap_avail h' 0x80301000.
Proof.
  destruct demo_heap_wf as (W & Ea & Ee & Hav).
  destruct (page_heap_free MemoryBlockPageShifts demo_heap 0x80300000 2) as (h' & E & _ & _ & H);
    [done|by exists 0x80300|lia|lia|lia|intros x Hx; rewrite Hav; lia|].
  exists h'. split; [done|]. apply H. right. lia.
Defined.

Lemma page_heap_allocate_block_witness :
  exists a h', AllocateBlock demo_heap 1 true = Done true (a, h') /\ (65536 | a).
Proof.
  destruct demo_heap_wf as (W & _).
  destruct (page_heap_allocate_block MemoryBlockPageShifts demo_heap 1 true W ltac:(simpl; lia))
    as (a & h' & E & [(-> & _)|(_ & D & _)]); exists a, h' || exists 0, h'; (split; [exact E|]); [by exists 0|exact D].
Defined.

Lemma page_heap_allocate_aligned_witness :
  exists a h', AllocateAligned demo_heap 1 3 2 = Done true (a, h') /\ (a = 0 \/ (8192 | a)).
Proof.
  destruct demo_heap_wf as (W & _).
  destruct (page_heap_allocate_aligned demo_heap 1 3 2 W ltac:(lia) ltac:(lia) ltac:(reflexivity))
    as (a & h' & E & [(-> & _)|(_ & D & _)]); eexists _, h'; (split; [exact E|]); [by left|right; exact D].
Defined.

Lemma page_heap_allocate_free_witness :
  exists h1 h2, AllocateBlock demo_heap 0 false = Done true (0x80200000, h1) /\
    Free h1 0x80200000 1 = Done true h2 /\ heap_avail h2 0x80200000.
Proof.
  destruct demo_heap_wf as (W & _ & _ & Hav).
  assert (exists h1, AllocateBlock demo_heap 0 false = Done true (0x80200000, h1)) as [h1 E]
    by (eexists; vm_compute; reflexivity).
  destruct (page_heap_allocate_free MemoryBlockPageShifts demo_heap 0 false 0x80200000 h1 W ltac:(simpl; lia) E ltac:(lia))
    as (h2 & E2 & _ & H). exists h1, h2. split_and!; [done|exact E2|]. apply H, Hav. lia.
Defined.
