(* ===== verification/KPageHeapUsage.v ===== *)
(** * KPageHeapUsage: the free pages of a heap, counted

    [GetNumFreePages] and [GetFreeSize] of core/hle/kernel/k_page_heap.h add up what the counters of the bitmaps say;
    [SetInitialUsedSize] relies on the sum.  The theorem says that the sum is the number of available pages of the
    heap: free blocks of different levels never share a page, and each lies inside the heap. *)

From S2P Require Import Prelude Common TinyMT KPageBitmap KPageHeap.
#[local] Open Scope Z_scope.

(** ** Counting *)

Lemma count_add f n m : count_true f (n + m) = count_true f n + count_true (fun i => f (Z.of_nat n + i)) m.
Proof.
  induction m as [|m IH]; [rewrite Nat.add_0_r; simpl; lia|]. rewrite Nat.add_succ_r. cbn [count_true]. rewrite IH, Nat2Z.inj_add. lia.
Qed.

Lemma count_const b n : count_true (fun _ => b) n = Z.of_nat n * Z.b2z b.
Proof. induction n as [|n IH]; [done|]. cbn [count_true]. rewrite IH. lia. Qed.

(** Blocks of [q] pages each. *)
Lemma count_blocks f q c : (0 < q)%nat -> count_true (fun j => f (j / Z.of_nat q)) (c * q) = Z.of_nat q * count_true f c.
Proof.
  intros Hq. induction c as [|c IH]; [simpl; lia|]. replace (Datatypes.S c * q)%nat with (c * q + q)%nat by lia.
  rewrite count_add, IH. cbn [count_true]. rewrite (count_true_ext _ (fun _ => f (Z.of_nat c)) q).
  - rewrite count_const. lia.
  - intros i Hi. f_equal. rewrite Nat2Z.inj_mul, Z.div_add_l by lia. rewrite Z.div_small by lia. lia.
Qed.

Lemma count_zero f n : (forall i, 0 <= i < Z.of_nat n -> f i = false) -> count_true f n = 0.
Proof. intros H. rewrite (count_true_ext f (fun _ => false) n H), count_const. simpl. lia. Qed.

(** Only the places of a window count. *)
Lemma count_window f d n m : (d + n <= m)%nat -> (forall i, 0 <= i < Z.of_nat m -> f i = true -> Z.of_nat d <= i < Z.of_nat (d + n)) ->
  count_true f m = count_true (fun j => f (Z.of_nat d + j)) n.
Proof.
  intros Hm Hf. replace m with (d + (n + (m - d - n)))%nat at 1 by lia. rewrite !count_add.
  rewrite (count_zero f d), (count_zero _ (m - d - n)); [lia| |]; intros i Hi; apply not_true_iff_false; intros E; apply Hf in E; lia.
Qed.

Lemma count_or f g n : (forall i, 0 <= i < Z.of_nat n -> f i && g i = false) -> count_true (fun i => f i || g i) n = count_true f n + count_true g n.
Proof.
  intros H. induction n as [|n IH]; [done|]. cbn [count_true]. rewrite IH by (intros; apply H; lia). specialize (H (Z.of_nat n) ltac:(lia)).
  destruct (f (Z.of_nat n)), (g (Z.of_nat n)); simpl in *; (done || lia).
Qed.

Section Counting.
Context {S : Type} {ES : EntropySource S} {B : Type} {FB : FreeBitmap B}.
Notation block := (@Block B).
Notation heap := (KPageHeap (S := S) (B := B)).

Definition coversb (k : block) (a : Z) : bool := (bk_heap_address k <=? a) && bm_free (m_bitmap k) ((a - bk_heap_address k) / bsize k).
Definition availb (ks : list block) (a : Z) : bool := existsb (fun k => coversb k a) ks.

Lemma coversb_spec k a : coversb k a = true <-> covers k a.
Proof. unfold coversb, covers. rewrite andb_true_iff, Z.leb_le. done. Qed.

Lemma availb_spec ks a : availb ks a = true <-> avail ks a.
Proof.
  unfold availb, avail. rewrite existsb_exists. split.
  - intros (k & Hk & Hc). apply list_elem_of_In, list_elem_of_lookup_1 in Hk as [i Hi]. exists i, k. split; [done|by apply coversb_spec].
  - intros (i & k & Hi & Hc). exists k. split; [by apply list_elem_of_In, (list_elem_of_lookup_2 _ i)|by apply coversb_spec].
Qed.

(** Sums over levels that share no page. *)
Lemma count_levels (ks : list block) (at_ : Z -> Z) n :
  (forall i j k k' x, ks !! i = Some k -> ks !! j = Some k' -> covers k x -> covers k' x -> i = j) ->
  count_true (fun j => availb ks (at_ j)) n = fold_right (fun k acc => count_true (fun j => coversb k (at_ j)) n + acc) 0 ks.
Proof.
  induction ks as [|k ks IH]; intros Hd.
  - apply count_zero. done.
  - simpl. rewrite <- IH by (intros i j k1 k2 x Hi Hj; intros; apply (f_equal pred) with (x := Datatypes.S i) (y := Datatypes.S j); by eapply (Hd (Datatypes.S i) (Datatypes.S j) k1 k2 x)).
    apply count_or. intros i _. apply not_true_iff_false. intros [Hc Ha]%andb_true_iff.
    apply coversb_spec in Hc. apply availb_spec in Ha as (j & k' & Hj & Hc').
    specialize (Hd 0%nat (Datatypes.S j) k k' (at_ i) eq_refl Hj Hc Hc'). done.
Qed.

(** One level. *)
Lemma count_level sh ha he ks i (k : block) n :
  shifts_ok sh -> blocks_wf sh ha he ks -> ks !! i = Some k -> (4096 | ha) -> he = ha + Z.of_nat n * 4096 ->
  count_true (fun j => coversb k (ha + j * 4096)) n = Block_GetNumFreePages k /\ 0 <= Block_GetNumFreePages k.
Proof.
  intros Hsh W Hi Ha He. pose proof (bw_level _ _ _ _ W _ _ Hi) as L. destruct (bm_num_count _ (lv_bitmap _ _ _ _ _ L)) as [Hcap Hnum].
  pose proof (lv_base _ _ _ _ _ L) as Hb. pose proof (lv_end _ _ _ _ _ L) as Hend. pose proof (lv_cap _ _ _ _ _ L) as Hc.
  pose proof (lv_room _ _ _ _ _ L) as Hroom. pose proof (base_aligned sh ha he Hsh i k L) as Hba.
  assert (12 <= m_block_shift k <= 40) as Hs.
  { destruct Hsh as (_ & Hf & _). apply (list.Forall_lookup_1 _ _ _ _ Hf (lv_shift _ _ _ _ _ L)). }
  set (q := 2 ^ (m_block_shift k - 12)). assert (0 < q) as Hq by (apply Z.pow_pos_nonneg; lia).
  assert (bsize k = q * 4096) as Eb by (unfold bsize, q; change 4096 with (2 ^ 12); rewrite <- Z.pow_add_r by lia; f_equal; lia).
  assert ((4096 | ha - bk_heap_address k)) as [d Hd].
  { apply Z.divide_sub_r; [done|]. eapply Z.divide_trans; [|exact Hba]. rewrite Eb. apply Z.divide_factor_r. }
  assert (bm_num (m_bitmap k) <= bm_cap (m_bitmap k)) as Hle
    by (rewrite Hnum; pose proof (count_true_bounds (bm_free (m_bitmap k)) (Z.to_nat (bm_cap (m_bitmap k)))); lia).
  assert (0 <= bm_num (m_bitmap k)) as H0 by (rewrite Hnum; apply count_true_bounds).
  assert (q * 4096 <= 2 ^ 40) as Hq40 by (rewrite <- Eb; apply Z.pow_le_mono_r; lia).
  assert (q * bm_num (m_bitmap k) < 2 ^ 62) as Hsmall by (rewrite Eb in Hroom; nia).
  assert (Block_GetNumFreePages k = q * bm_num (m_bitmap k)) as ->.
  { unfold Block_GetNumFreePages, GetNumFreeBlocks, GetNumPages, GetSize, PageSize. rewrite Z.shiftl_1_l. fold (bsize k).
    rewrite Eb, (u64_small (q * 4096)), Z.div_mul, u64_small by lia. lia. }
  split; [|nia]. rewrite Hnum, <- (Z2Nat.id q), <- count_blocks by lia.
  rewrite (count_window (fun j => bm_free (m_bitmap k) (j / Z.of_nat (Z.to_nat q))) (Z.to_nat d) n).
  - apply count_true_ext. intros j Hj. unfold coversb. rewrite (proj2 (Z.leb_le _ _)) by lia. cbn [andb]. f_equal.
    rewrite Eb, !Z2Nat.id by lia. replace (ha + j * 4096 - bk_heap_address k) with ((d + j) * 4096) by lia. apply Z.div_mul_cancel_r; lia.
  - apply Nat2Z.inj_le. rewrite Nat2Z.inj_add, Nat2Z.inj_mul, !Z2Nat.id by lia. rewrite Eb in Hend. nia.
  - intros x Hx Hf. assert (covers k (bk_heap_address k + x * 4096)) as Hcov.
    { split; [lia|]. rewrite Eb, Z2Nat.id in * by lia.
      replace (bk_heap_address k + x * 4096 - bk_heap_address k) with (x * 4096) by lia. rewrite Z.div_mul_cancel_r by lia. done. }
    pose proof (bw_bounds _ _ _ _ W _ _ _ Hi Hcov). rewrite Nat2Z.inj_add, Z2Nat.id by lia. lia.
Qed.

Lemma sum_free_pages_val (ks : list block) acc : 0 <= acc -> Forall (fun k => 0 <= Block_GetNumFreePages k) ks ->
  acc + fold_right (fun k n => Block_GetNumFreePages k + n) 0 ks < 2 ^ 64 ->
  sum_free_pages ks acc = acc + fold_right (fun k n => Block_GetNumFreePages k + n) 0 ks.
Proof.
  revert acc. induction ks as [|k ks IH]; intros acc Ha Hk Hs; simpl in *; [lia|]. apply Forall_cons_1 in Hk as [Hk Hks].
  assert (0 <= fold_right (fun k n => Block_GetNumFreePages k + n) 0 ks) by (clear -Hks; induction Hks; simpl; lia).
  rewrite u64_small by lia. rewrite IH; (done || lia).
Qed.

(** The pages of the heap that are available. *)
Definition free_pages (h : heap) : Z := count_true (fun j => availb (m_blocks h) (m_heap_address h + j * 4096)) (Z.to_nat (m_heap_size h / 4096)).

Lemma free_pages_bound h : 0 <= m_heap_size h -> 0 <= free_pages h * 4096 <= m_heap_size h.
Proof.
  intros Hs. pose proof (count_true_bounds (fun j => availb (m_blocks h) (m_heap_address h + j * 4096)) (Z.to_nat (m_heap_size h / 4096))) as Hb.
  fold (free_pages h) in Hb. rewrite Z2Nat.id in Hb by (apply Z.div_pos; lia). pose proof (Z.mul_div_le (m_heap_size h) 4096). lia.
Qed.

Lemma GetNumFreePages_val sh h : heap_wf sh h -> (4096 | m_heap_address h) -> (4096 | m_heap_size h) -> GetNumFreePages h = free_pages h.
Proof.
  intros W Ha [n Hn]. pose proof (hw_blocks _ _ W) as Wb. pose proof (hw_size _ _ W) as Hsz. pose proof (hw_end _ _ W) as He.
  pose proof (hw_addr _ _ W) as Hpos.
  pose proof (free_pages_bound h ltac:(lia)) as Hfb. unfold GetNumFreePages. rewrite (hw_num _ _ W), Nat2Z.id, <- (bw_len _ _ _ _ Wb), take_ge by lia.
  assert (free_pages h = fold_right (fun k n => Block_GetNumFreePages k + n) 0 (m_blocks h) /\ Forall (fun k => 0 <= Block_GetNumFreePages k) (m_blocks h)) as [E Hf].
  { assert (forall i k, m_blocks h !! i = Some k ->
      count_true (fun j => coversb k (m_heap_address h + j * 4096)) (Z.to_nat (m_heap_size h / 4096)) = Block_GetNumFreePages k /\ 0 <= Block_GetNumFreePages k) as Hl.
    { intros i k Hi. eapply (count_level sh); [apply W|exact Wb|exact Hi|done|]. rewrite Hn, Z.div_mul, Z2Nat.id by lia. lia. }
    unfold free_pages. rewrite count_levels by (intros *; by apply (bw_disjoint _ _ _ _ Wb)).
    clear -Hl. revert Hl. generalize (m_blocks h). intros ks Hl. induction ks as [|k ks IH]; [done|]. simpl.
    destruct IH as [-> Hf]; [intros i k' Hi; by apply (Hl (Datatypes.S i))|]. destruct (Hl 0%nat k eq_refl) as [-> H0]. split; [done|by constructor]. }
  rewrite sum_free_pages_val, <- E; [lia|lia|done|lia].
Qed.

Lemma SetInitialUsedSize_spec sh h reserved :
  heap_wf sh h -> (4096 | m_heap_address h) -> (4096 | m_heap_size h) -> 0 <= reserved -> free_pages h * 4096 + reserved <= m_heap_size h ->
  exists h', SetInitialUsedSize h reserved = Done true h' /\ m_initial_used_size h' = m_heap_size h - free_pages h * 4096 - reserved /\
    heap_wf sh h' /\ m_heap_address h' = m_heap_address h /\ m_heap_size h' = m_heap_size h /\ forall x, heap_avail h' x <-> heap_avail h x.
Proof.
  intros W Ha Hs Hr Hle. pose proof (GetNumFreePages_val sh h W Ha Hs) as E. pose proof (hw_size _ _ W). pose proof (hw_end _ _ W). pose proof (hw_addr _ _ W).
  pose proof (free_pages_bound h ltac:(lia)). assert (u64 (free_pages h * 4096) = free_pages h * 4096) as Eu by (apply u64_small; lia).
  unfold SetInitialUsedSize, PageSize. rewrite E, Eu.
  rewrite (u64_small (_ + reserved)) by lia. rewrite bind_assert_true by (apply Z.leb_le; lia). eexists. split; [done|]. simpl.
  split; [apply u64_small; lia|]. split; [|done]. destruct W. by split.
Qed.
End Counting.

(** The counters of the bitmaps add up to the number of available pages of the heap, so that [GetFreeSize] is
    their exact size in bytes; [SetInitialUsedSize] accepts any reservation that fits what is in use, and remembers
    the rest as used, with the available pages unchanged. *)
Theorem heap_free_size_exact {S} {ES : EntropySource S} {B} {FB : FreeBitmap B} sh (h : KPageHeap (S := S) (B := B)) reserved :
  heap_wf sh h -> (4096 | m_heap_address h) -> (4096 | m_heap_size h) -> 0 <= reserved -> free_pages h * 4096 + reserved <= m_heap_size h ->
  GetNumFreePages h = free_pages h /\ GetFreeSize h = free_pages h * 4096 /\
  exists h', SetInitialUsedSize h reserved = Done true h' /\ m_initial_used_size h' = m_heap_size h - free_pages h * 4096 - reserved /\
    heap_wf sh h' /\ forall x, heap_avail h' x <-> heap_avail h x.
Proof.
  intros W Ha Hs Hr Hle. pose proof (GetNumFreePages_val sh h W Ha Hs) as E. pose proof (hw_size _ _ W). pose proof (hw_end _ _ W). pose proof (hw_addr _ _ W).
  pose proof (free_pages_bound h ltac:(lia)). split; [done|]. split; [unfold GetFreeSize, PageSize; rewrite E; apply u64_small; lia|].
  destruct (SetInitialUsedSize_spec sh h reserved W Ha Hs Hr Hle) as (h' & E1 & E2 & W' & _ & _ & Hav). by exists h'.
Qed.

(** The demonstration heap has 768 free pages of 1024. *)
Lemma heap_free_size_exact_witness :
  GetFreeSize demo_heap = free_pages demo_heap * 4096 /\ free_pages demo_heap * 4096 + 0x1000 <= m_heap_size demo_heap.
Proof.
  assert (free_pages demo_heap * 4096 + 0x1000 <= m_heap_size demo_heap) as H by (vm_compute; discriminate).
  split; [|exact H]. apply (heap_free_size_exact MemoryBlockPageShifts demo_heap 0x1000); [exact (proj1 demo_heap_wf)| | |discriminate|exact H].
  - apply Z.mod_divide; [discriminate|reflexivity].
  - apply Z.mod_divide; [discriminate|reflexivity].
Defined.
