(* ===== verification/BitField.v ===== *)
(** * BitField: src/common/bit_field.h and src/core/hle/result.h

    The bit field template every packed kernel word is built from (error codes, handles,
    capability descriptors, message headers), for unsigned and for signed field types, and the
    error codes [Result] made with it, with the table of kernel results of
    src/core/hle/kernel/svc_results.h. *)

From S2P Require Import Prelude.

(** ** Fields *)

(** [BitField<Position, Bits, T>] over a storage of [width] bits. *)
Record BitField := mkField { position : Z; bits : Z; width : Z }.

Definition mask (f : BitField) : Z :=
  wrapu (width f) ((Z.ones (width f) .>> (width f - bits f)) .<< position f).

Definition FormatValue (f : BitField) (value : Z) : Z :=
  wrapu (width f) (wrapu (width f) value .<< position f) .& mask f.

Definition ExtractValue (f : BitField) (storage : Z) : Z := (storage .& mask f) .>> position f.

(** The branch for a signed field type: shift the field to the top, then arithmetic shift back. *)
Definition ExtractValue_signed (f : BitField) (storage : Z) : Z :=
  let shift := width f - bits f in
  wraps (width f) (wrapu (width f) (storage .<< (shift - position f))) .>> shift.

Definition Assign (f : BitField) (storage value : Z) : Z :=
  (storage .& notu (width f) (mask f)) .| FormatValue f value.

#[global] Arguments mask : simpl never.
#[global] Arguments FormatValue : simpl never.
#[global] Arguments ExtractValue : simpl never.
#[global] Arguments Assign : simpl never.

(** The static assertions at the end of the class. *)
Definition field_ok (f : BitField) : Prop :=
  0 <= position f /\ 0 < bits f /\ position f + bits f <= width f.

Definition disjoint_fields (f g : BitField) : Prop :=
  position f + bits f <= position g \/ position g + bits g <= position f.

Lemma testbit_mask f i :
  field_ok f -> 0 <= i -> Z.testbit (mask f) i = (position f <=? i) && (i <? position f + bits f).
Proof.
  intros (H1 & H2 & H3) Hi. unfold mask. rewrite testbit_wrapu by lia. rewrite Z.shiftl_spec by lia.
  destruct (Z.leb_spec (position f) i); simpl.
  - rewrite Z.shiftr_spec, testbit_ones by lia.
    destruct (Z.ltb_spec i (width f)), (Z.ltb_spec i (position f + bits f)),
      (Z.leb_spec 0 (i - position f + (width f - bits f))),
      (Z.ltb_spec (i - position f + (width f - bits f)) (width f)); simpl; (done || lia).
  - rewrite Z.testbit_neg_r by lia. by rewrite andb_false_r.
Qed.

Lemma mask_range f : field_ok f -> in_u (width f) (mask f).
Proof. intros (H1 & H2 & H3). apply wrapu_range. lia. Qed.

Lemma testbit_FormatValue f v i :
  field_ok f -> 0 <= i ->
  Z.testbit (FormatValue f v) i =
    (position f <=? i) && (i <? position f + bits f) && Z.testbit v (i - position f).
Proof.
  intros Hf Hi. unfold FormatValue. rewrite Z.land_spec, testbit_mask by done.
  destruct Hf as (H1 & H2 & H3). rewrite testbit_wrapu, Z.shiftl_spec, testbit_wrapu by lia.
  destruct (Z.leb_spec (position f) i), (Z.ltb_spec i (position f + bits f)),
    (Z.ltb_spec i (width f)), (Z.ltb_spec (i - position f) (width f)); simpl;
    rewrite ?andb_true_r, ?andb_false_r; (done || lia).
Qed.

Lemma testbit_ExtractValue f s i :
  field_ok f -> 0 <= i ->
  Z.testbit (ExtractValue f s) i = (i <? bits f) && Z.testbit s (i + position f).
Proof.
  intros Hf Hi. unfold ExtractValue. destruct Hf as (H1 & H2 & H3).
  rewrite Z.shiftr_spec, Z.land_spec, testbit_mask by (done || lia).
  destruct (Z.leb_spec (position f) (i + position f)), (Z.ltb_spec (i + position f) (position f + bits f)),
    (Z.ltb_spec i (bits f)); simpl; rewrite ?andb_true_r, ?andb_false_r; (done || lia).
Qed.

Lemma testbit_Assign f s v i :
  field_ok f -> 0 <= i ->
  Z.testbit (Assign f s v) i =
    if (position f <=? i) && (i <? position f + bits f) then Z.testbit v (i - position f)
    else (i <? width f) && Z.testbit s i.
Proof.
  intros Hf Hi. unfold Assign. rewrite Z.lor_spec, Z.land_spec, testbit_FormatValue by done.
  pose proof Hf as (H1 & H2 & H3). rewrite testbit_notu, testbit_mask by (done || lia).
  destruct (Z.leb_spec (position f) i), (Z.ltb_spec i (position f + bits f)), (Z.leb_spec 0 i),
    (Z.ltb_spec i (width f)), (Z.leb_spec (width f) i); simpl; rewrite ?andb_true_r, ?andb_false_r, ?orb_false_r; (done || lia).
Qed.

Lemma ExtractValue_nonneg f s : 0 <= s -> 0 <= position f -> 0 <= ExtractValue f s.
Proof. intros. apply Z.shiftr_nonneg, Z.land_nonneg. by left. Qed.

(** Reading the field just assigned. *)
Lemma Extract_Assign f s v : field_ok f -> ExtractValue f (Assign f s v) = wrapu (bits f) v.
Proof.
  intros Hf. pose proof Hf as (H1 & H2 & H3). apply Z.bits_inj'. intros i Hi.
  rewrite testbit_ExtractValue, testbit_Assign, testbit_wrapu by (done || lia).
  destruct (Z.ltb_spec i (bits f)); simpl; [|done].
  destruct (Z.leb_spec (position f) (i + position f)), (Z.ltb_spec (i + position f) (position f + bits f)); simpl; try lia.
  f_equal. lia.
Qed.

(** Reading another field. *)
Lemma Extract_Assign_other f g s v :
  field_ok f -> field_ok g -> width f = width g -> disjoint_fields f g ->
  ExtractValue g (Assign f s v) = ExtractValue g s.
Proof.
  intros Hf Hg Hw Hd. pose proof Hf as (H1 & H2 & H3). pose proof Hg as (G1 & G2 & G3).
  apply Z.bits_inj'. intros i Hi. rewrite !testbit_ExtractValue, testbit_Assign by (done || lia).
  destruct (Z.ltb_spec i (bits g)); simpl; [|done].
  destruct (Z.leb_spec (position f) (i + position g)), (Z.ltb_spec (i + position g) (position f + bits f)),
    (Z.ltb_spec (i + position g) (width f)); simpl; rewrite ?andb_false_r, ?orb_false_r;
    (done || (destruct Hd; lia)).
Qed.

Lemma Extract_Format f v : field_ok f -> ExtractValue f (FormatValue f v) = wrapu (bits f) v.
Proof.
  intros Hf. pose proof Hf as (H1 & H2 & H3). apply Z.bits_inj'. intros i Hi.
  rewrite testbit_ExtractValue, testbit_FormatValue, testbit_wrapu by (done || lia).
  destruct (Z.ltb_spec i (bits f)); simpl; [|done].
  destruct (Z.leb_spec (position f) (i + position f)), (Z.ltb_spec (i + position f) (position f + bits f)); simpl; try lia.
  f_equal. lia.
Qed.

(** Two's complement extends the sign bit. *)
Lemma testbit_wraps w x i :
  0 < w -> 0 <= i -> Z.testbit (wraps w x) i = Z.testbit x (Z.min i (w - 1)).
Proof.
  intros Hw Hi. unfold wraps. pose proof (wrapu_range w x ltac:(lia)) as Hr. unfold wrapu in Hr.
  set (r := x mod 2 ^ w) in *.
  assert (forall j, 0 <= j -> Z.testbit r j = (j <? w) && Z.testbit x j) as Hb
    by (intros; exact (testbit_wrapu w x j ltac:(lia))).
  assert (2 ^ w = 2 * 2 ^ (w - 1)) as Hp by (rewrite <- Z.pow_succ_r by lia; f_equal; lia).
  assert (Z.testbit r (w - 1) = Z.testbit x (w - 1)) as Hs by (rewrite Hb by lia; by rewrite (proj2 (Z.ltb_lt (w - 1) w)) by lia).
  destruct (Z.ltb_spec r (2 ^ (w - 1))) as [Hlt|Hge].
  - destruct (Z.min_spec i (w - 1)) as [[? ->]|[? ->]].
    + rewrite Hb by done. by rewrite (proj2 (Z.ltb_lt i w)) by lia.
    + rewrite <- Hs. rewrite !(testbit_above (w - 1) r) by (unfold in_u in Hr; lia). done.
  - assert (r - 2 ^ w = r .^ ((-1) .<< w)) as ->.
    { rewrite <- Z.add_nocarry_lxor; [rewrite Z.shiftl_mul_pow2 by lia; lia|].
      apply Z.bits_inj'. intros j Hj. rewrite Z.land_spec, Z.bits_0, Z.shiftl_spec, Hb by done.
      destruct (Z.ltb_spec j w); simpl; [|done]. by rewrite (Z.testbit_neg_r (-1)), andb_false_r by lia. }
    rewrite Z.lxor_spec, Z.shiftl_spec, Hb by done. destruct (Z.ltb_spec i w); simpl.
    + rewrite (Z.testbit_neg_r (-1)), xorb_false_r by lia. f_equal. lia.
    + rewrite Z.bits_m1 by lia. replace (Z.min i (w - 1)) with (w - 1) by lia. rewrite <- Hs. symmetry.
      apply Z.testbit_true; [lia|]. replace (r / 2 ^ (w - 1)) with 1; [done|].
      apply Z.div_unique with (r - 2 ^ (w - 1)); unfold in_u in Hr; lia.
Qed.

(** The signed branch is the two's complement reading of the unsigned one. *)
Lemma ExtractValue_signed_eq f s : field_ok f -> ExtractValue_signed f s = wraps (bits f) (ExtractValue f s).
Proof.
  intros Hf. pose proof Hf as (H1 & H2 & H3). unfold ExtractValue_signed. apply Z.bits_inj'. intros i Hi.
  rewrite Z.shiftr_spec, !testbit_wraps, testbit_wrapu, Z.shiftl_spec, testbit_ExtractValue by (done || lia).
  destruct (Z.ltb_spec (Z.min (i + (width f - bits f)) (width f - 1)) (width f)),
    (Z.ltb_spec (Z.min i (bits f - 1)) (bits f)); simpl; try lia. f_equal. lia.
Qed.

(** ** Error codes *)

Definition Module_ : BitField := mkField 0 9 32.
Definition Description : BitField := mkField 9 13 32.

Definition Result (module_ description_ : Z) : Z :=
  FormatValue Module_ module_ .| FormatValue Description description_.

Definition ResultSuccess : Z := 0.
Definition IsSuccess (raw : Z) : bool := raw =? 0.
Definition IsError (raw : Z) : bool := negb (IsSuccess raw).
Definition GetModule (raw : Z) : Z := ExtractValue Module_ raw.
Definition GetDescription (raw : Z) : Z := ExtractValue Description raw.

(** A method answers a result code and the new state; [R_UNLESS] and [R_TRY] leave it early. *)
Notation "'R_UNLESS' b 'ELSE' r 'AT' s ; k" := (if (b : bool) then k else mret (r, s)) (at level 100, b at level 99, r at level 99, s at level 99, k at level 200).
Definition R_TRY {A} (m : outcome (Z * A)) (k : A -> outcome (Z * A)) : outcome (Z * A) :=
  ra ← m; let '(r, a) := ra in if IsError r then mret (r, a) else k a.

(** [ResultRange]: a module and an inclusive range of descriptions. *)
Record ResultRange := mkRange { code : Z; description_end : Z }.
Definition make_range (module_ description_start description_end_ : Z) : ResultRange :=
  mkRange (Result module_ description_start) description_end_.
Definition Range_Includes (r : ResultRange) (other : Z) : bool :=
  (GetModule (code r) =? GetModule other) && (GetDescription (code r) <=? GetDescription other) &&
  (GetDescription other <=? description_end r).

(** The kernel's results. *)
Definition ErrorModule_Kernel : Z := 1.
Definition kernel_result (description_ : Z) : Z := Result ErrorModule_Kernel description_.

Definition ResultOutOfSessions := kernel_result 7.
Definition ResultInvalidArgument := kernel_result 14.
Definition ResultNotImplemented := kernel_result 33.
Definition ResultNoSynchronizationObject := kernel_result 57.
Definition ResultTerminationRequested := kernel_result 59.
Definition ResultInvalidSize := kernel_result 101.
Definition ResultInvalidAddress := kernel_result 102.
Definition ResultOutOfResource := kernel_result 103.
Definition ResultOutOfMemory := kernel_result 104.
Definition ResultOutOfHandles := kernel_result 105.
Definition ResultInvalidCurrentMemory := kernel_result 106.
Definition ResultInvalidNewMemoryPermission := kernel_result 108.
Definition ResultInvalidMemoryRegion := kernel_result 110.
Definition ResultInvalidPriority := kernel_result 112.
Definition ResultInvalidCoreId := kernel_result 113.
Definition ResultInvalidHandle := kernel_result 114.
Definition ResultInvalidPointer := kernel_result 115.
Definition ResultInvalidCombination := kernel_result 116.
Definition ResultTimedOut := kernel_result 117.
Definition ResultCancelled := kernel_result 118.
Definition ResultOutOfRange := kernel_result 119.
Definition ResultInvalidEnumValue := kernel_result 120.
Definition ResultNotFound := kernel_result 121.
Definition ResultBusy := kernel_result 122.
Definition ResultSessionClosed := kernel_result 123.
Definition ResultInvalidState := kernel_result 125.
Definition ResultReservedUsed := kernel_result 126.
Definition ResultPortClosed := kernel_result 131.
Definition ResultLimitReached := kernel_result 132.
Definition ResultReceiveListBroken := kernel_result 258.
Definition ResultOutOfAddressSpace := kernel_result 259.
Definition ResultMessageTooLarge := kernel_result 260.
Definition ResultInvalidId := kernel_result 519.

Lemma Module_ok : field_ok Module_.
Proof. by split_and!. Qed.
Lemma Description_ok : field_ok Description.
Proof. by split_and!. Qed.

Lemma Extract_lor f x y : field_ok f -> ExtractValue f (x .| y) = ExtractValue f x .| ExtractValue f y.
Proof. intros. unfold ExtractValue. by rewrite Z.land_lor_distr_l, Z.shiftr_lor. Qed.

Lemma Extract_Format_other f g v :
  field_ok f -> field_ok g -> disjoint_fields f g -> ExtractValue g (FormatValue f v) = 0.
Proof.
  intros Hf Hg Hd. pose proof Hf as (H1 & H2 & H3). pose proof Hg as (G1 & G2 & G3).
  apply zero_of_bits. intros i Hi. rewrite testbit_ExtractValue, testbit_FormatValue by (done || lia).
  destruct (Z.ltb_spec i (bits g)), (Z.leb_spec (position f) (i + position g)),
    (Z.ltb_spec (i + position g) (position f + bits f)); simpl; (done || (destruct Hd; lia)).
Qed.

Lemma GetModule_Result m d : GetModule (Result m d) = wrapu 9 m.
Proof.
  unfold GetModule, Result. rewrite Extract_lor by apply Module_ok.
  rewrite Extract_Format, (Extract_Format_other Description) by (apply Module_ok || apply Description_ok || by right).
  by rewrite Z.lor_0_r.
Qed.

Lemma GetDescription_Result m d : GetDescription (Result m d) = wrapu 13 d.
Proof.
  unfold GetDescription, Result. rewrite Extract_lor by apply Description_ok.
  rewrite Extract_Format, (Extract_Format_other Module_) by (apply Module_ok || apply Description_ok || by left).
  by rewrite Z.lor_0_l.
Qed.

(** ** The properties *)

(** A bit field reads back what was assigned to it, cut to its width, and assigning one field
    leaves every disjoint field of the word unchanged; the signed variant reads the same bits in
    two's complement. *)
Theorem bit_field_roundtrip (f g : BitField) (storage value : Z) :
  field_ok f -> field_ok g -> width f = width g -> disjoint_fields f g ->
  ExtractValue f (Assign f storage value) = wrapu (bits f) value /\
  ExtractValue_signed f (Assign f storage value) = wraps (bits f) (wrapu (bits f) value) /\
  ExtractValue g (Assign f storage value) = ExtractValue g storage.
Proof.
  intros Hf Hg Hw Hd. rewrite ExtractValue_signed_eq, Extract_Assign, Extract_Assign_other by done. done.
Qed.

Lemma bit_field_roundtrip_witness :
  ExtractValue (mkField 0 15 32) (Assign (mkField 15 15 32) 0xFFFFFFFF 5) = 0x7FFF.
Proof.
  destruct (bit_field_roundtrip (mkField 15 15 32) (mkField 0 15 32) 0xFFFFFFFF 5) as (_ & _ & E);
    [by split_and!|by split_and!|done|by right|]. rewrite E. reflexivity.
Defined.

(** A result made from a 9-bit module and a 13-bit description gives both back, so results
    made from different modules or descriptions differ, and it is an error unless both are 0. *)
Theorem result_roundtrip (m d m' d' : Z) :
  in_u 9 m -> in_u 13 d -> in_u 9 m' -> in_u 13 d' ->
  GetModule (Result m d) = m /\ GetDescription (Result m d) = d /\
  (Result m d = Result m' d' <-> m = m' /\ d = d') /\
  (IsError (Result m d) = false <-> m = 0 /\ d = 0).
Proof.
  intros Hm Hd Hm' Hd'. rewrite GetModule_Result, GetDescription_Result, !wrapu_small by done.
  assert (forall a b a' b', in_u 9 a -> in_u 13 b -> in_u 9 a' -> in_u 13 b' ->
    Result a b = Result a' b' -> a = a' /\ b = b') as Hinj.
  { intros a b a' b' ? ? ? ? E. pose proof (f_equal GetModule E) as E1. pose proof (f_equal GetDescription E) as E2.
    rewrite !GetModule_Result, !wrapu_small in E1 by done.
    rewrite !GetDescription_Result, !wrapu_small in E2 by done. done. }
  split_and!; try done.
  - split; [by apply Hinj|]. by intros [-> ->].
  - unfold IsError, IsSuccess. destruct (Z.eqb_spec (Result m d) 0) as [E|E]; simpl.
    + split; [intros _|done]. change 0 with (Result 0 0) in E. by apply Hinj in E.
    + split; [done|]. intros [-> ->]. done.
Qed.

Lemma result_roundtrip_witness : GetDescription ResultLimitReached = 132.
Proof.
  destruct (result_roundtrip 1 132 1 131) as (_ & E & _); [by split..|]. exact E.
Defined.

(** A module number of 512 or more does not survive in a [Result]: the field keeps 9 bits, so
    the enumeration's modules from [Nverpt] (520) to [Coral] (815) read back as other numbers
    and share their codes with the module 512 below. *)
Theorem result_module_truncated (m d : Z) :
  512 <= m < 1024 -> GetModule (Result m d) = m - 512 /\ Result m d = Result (m - 512) d.
Proof.
  intros Hm. rewrite GetModule_Result. unfold wrapu.
  assert (m mod 2 ^ 9 = m - 512) as E by (symmetry; apply Z.mod_unique_pos with 1; lia). split; [done|].
  unfold Result. f_equal. apply Z.bits_inj'. intros i Hi.
  rewrite !testbit_FormatValue by (done || apply Module_ok). change (position Module_) with 0. change (bits Module_) with 9.
  rewrite Z.sub_0_r, Z.add_0_l. destruct (Z.ltb_spec i 9); [|by rewrite !andb_false_r].
  rewrite <- E. rewrite Z.mod_pow2_bits_low by lia. done.
Qed.

Lemma result_module_truncated_witness : GetModule (Result 618 3) = 106.
Proof. destruct (result_module_truncated 618 3) as [E _]; [lia|]. exact E. Defined.
