(* ===== verification/KResourceLimit.v ===== *)
(** * KResourceLimit: src/core/hle/kernel/k_resource_limit.{h,cpp} and
      k_scoped_resource_reservation.h

    The limits a process holds on five kinds of kernel resources.  The operations under the light
    lock are pure functions; a reservation that cannot be met now waits on a condition variable,
    so whole reservations are steps of a transition system of threads.  The header
    k_scoped_resource_reservation.h adds the reservation that is released unless committed. *)

From S2P Require Import Prelude Common BitField.

(** ** Data *)

Inductive LimitableResource :=
| PhysicalMemoryMax | ThreadCountMax | EventCountMax | TransferMemoryCountMax | SessionCountMax.

#[export] Instance LimitableResource_eq_dec : EqDecision LimitableResource.
Proof. solve_decision. Defined.

Definition index (which : LimitableResource) : Z :=
  match which with
  | PhysicalMemoryMax => 0 | ThreadCountMax => 1 | EventCountMax => 2
  | TransferMemoryCountMax => 3 | SessionCountMax => 4
  end.
Definition Count : Z := 5.
(** [IsValidResourceType], on the raw value of the enumeration. *)
Definition IsValidResourceType (type : Z) : bool := type <? Count.

Record KResourceLimit := mkLimit {
  m_limit_values : list Z;
  m_current_values : list Z;
  m_current_hints : list Z;
  m_peak_values : list Z;
  m_waiter_count : Z
}.

Definition KResourceLimit_new : KResourceLimit :=
  mkLimit (replicate 5 0) (replicate 5 0) (replicate 5 0) (replicate 5 0) 0.

(** ** The getters *)

(** The assertions every getter makes on its resource. *)
Definition check_values (r : KResourceLimit) (i : Z) : outcome unit :=
  limit ← arr_get (m_limit_values r) i;
  current ← arr_get (m_current_values r) i;
  hint ← arr_get (m_current_hints r) i;
  ASSERT (current <=? limit);;
  ASSERT (hint <=? current).

Definition GetLimitValue (r : KResourceLimit) (which : LimitableResource) : outcome Z :=
  value ← arr_get (m_limit_values r) (index which);
  ASSERT (0 <=? value);;
  check_values r (index which);;
  mret value.

Definition GetCurrentValue (r : KResourceLimit) (which : LimitableResource) : outcome Z :=
  value ← arr_get (m_current_values r) (index which);
  ASSERT (0 <=? value);;
  check_values r (index which);;
  mret value.

Definition GetPeakValue (r : KResourceLimit) (which : LimitableResource) : outcome Z :=
  value ← arr_get (m_peak_values r) (index which);
  ASSERT (0 <=? value);;
  check_values r (index which);;
  mret value.

Definition GetFreeValue (r : KResourceLimit) (which : LimitableResource) : outcome Z :=
  current ← arr_get (m_current_values r) (index which);
  ASSERT (0 <=? current);;
  check_values r (index which);;
  limit ← arr_get (m_limit_values r) (index which);
  signed64 (limit - current).

(** ** The operations under the lock *)

Definition SetLimitValue (r : KResourceLimit) (which : LimitableResource) (value : Z) :
    outcome (Z * KResourceLimit) :=
  let i := index which in
  current ← arr_get (m_current_values r) i;
  if negb (current <=? value) then mret (ResultInvalidState, r)
  else
    limits ← arr_set (m_limit_values r) i value;
    peaks ← arr_set (m_peak_values r) i current;
    mret (ResultSuccess,
          mkLimit limits (m_current_values r) (m_current_hints r) peaks (m_waiter_count r)).

(** What one round of the loop of [Reserve] decides. *)
Inductive round := Reserved | GaveUp | Waits.

#[export] Instance round_eq_dec : EqDecision round.
Proof. solve_decision. Defined.

Definition with_waiters (r : KResourceLimit) (n : Z) : KResourceLimit :=
  mkLimit (m_limit_values r) (m_current_values r) (m_current_hints r) (m_peak_values r) n.

(** The body of [while (true)], up to [m_cond_var.Wait], with the tick the timer shows. *)
Definition Reserve_round (r : KResourceLimit) (which : LimitableResource) (value timeout tick : Z) :
    outcome (round * KResourceLimit) :=
  let i := index which in
  check_values r i;;
  limit ← arr_get (m_limit_values r) i;
  current ← arr_get (m_current_values r) i;
  hint ← arr_get (m_current_hints r) i;
  if WrappingAdd 64 current value <=? current then mret (GaveUp, r)
  else
    new_current ← signed64 (current + value);
    if new_current <=? limit then
      currents ← arr_set (m_current_values r) i new_current;
      new_hint ← signed64 (hint + value);
      hints ← arr_set (m_current_hints r) i new_hint;
      peak ← arr_get (m_peak_values r) i;
      peaks ← arr_set (m_peak_values r) i (Z.max peak new_current);
      mret (Reserved, mkLimit (m_limit_values r) currents hints peaks (m_waiter_count r))
    else
      new_hint ← signed64 (hint + value);
      if (new_hint <=? limit) && ((timeout <? 0) || (tick <? timeout)) then
        mret (Waits, with_waiters r (s32 (m_waiter_count r + 1)))
      else mret (GaveUp, r).

(** [Reserve] up to its first wait or its return. *)
Definition Reserve_enter (r : KResourceLimit) (which : LimitableResource) (value timeout tick : Z) :
    outcome (round * KResourceLimit) :=
  ASSERT (0 <=? value);;
  limit ← arr_get (m_limit_values r) (index which);
  current ← arr_get (m_current_values r) (index which);
  hint ← arr_get (m_current_hints r) (index which);
  ASSERT (hint <=? current);;
  if limit <=? hint then mret (GaveUp, r) else Reserve_round r which value timeout tick.

(** [Reserve] after a wait: one waiter less, and the next round. *)
Definition Reserve_resume (r : KResourceLimit) (which : LimitableResource) (value timeout tick : Z) :
    outcome (round * KResourceLimit) :=
  Reserve_round (with_waiters r (s32 (m_waiter_count r - 1))) which value timeout tick.

Definition DefaultTimeout : Z := 10000000000.

(** [Release], with whether it broadcasts. *)
Definition Release (r : KResourceLimit) (which : LimitableResource) (value hint : Z) :
    outcome (bool * KResourceLimit) :=
  ASSERT (0 <=? value);;
  ASSERT (0 <=? hint);;
  let i := index which in
  check_values r i;;
  current ← arr_get (m_current_values r) i;
  cur_hint ← arr_get (m_current_hints r) i;
  ASSERT (value <=? current);;
  ASSERT (hint <=? cur_hint);;
  new_current ← signed64 (current - value);
  new_hint ← signed64 (cur_hint - hint);
  currents ← arr_set (m_current_values r) i new_current;
  hints ← arr_set (m_current_hints r) i new_hint;
  mret (negb (m_waiter_count r =? 0),
        mkLimit (m_limit_values r) currents hints (m_peak_values r) (m_waiter_count r)).

(** [CreateResourceLimitForProcess]: the default limits. *)
Definition set_asserted (r : KResourceLimit) (which : LimitableResource) (value : Z) :
    outcome KResourceLimit :=
  '(res, r) ← SetLimitValue r which value;
  ASSERT (IsSuccess res);;
  mret r.
Definition CreateResourceLimitForProcess (physical_memory_size : Z) : outcome KResourceLimit :=
  let r := KResourceLimit_new in
  r ← set_asserted r PhysicalMemoryMax physical_memory_size;
  r ← set_asserted r ThreadCountMax 800;
  r ← set_asserted r EventCountMax 900;
  r ← set_asserted r TransferMemoryCountMax 200;
  set_asserted r SessionCountMax 1133.

(** ** KScopedResourceReservation

    [m_limit] is a pointer that is null for a process without a limit and after [Commit]; the
    object it points to is the state passed along. *)

Record KScopedResourceReservation := mkReservation {
  m_limit : bool;
  m_value : Z;
  m_resource : LimitableResource;
  m_succeeded : bool
}.

(** The constructor, for a reservation that is decided without waiting; [None] when it waits. *)
Definition Reservation_new (has_limit : bool) (r : KResourceLimit) (res : LimitableResource)
    (v timeout tick : Z) : outcome (option KScopedResourceReservation * KResourceLimit) :=
  if has_limit && negb (v =? 0) then
    '(d, r) ← Reserve_enter r res v timeout tick;
    match d with
    | Reserved => mret (Some (mkReservation has_limit v res true), r)
    | GaveUp => mret (Some (mkReservation has_limit v res false), r)
    | Waits => mret (None, r)
    end
  else mret (Some (mkReservation has_limit v res true), r).

Definition Commit (s : KScopedResourceReservation) : KScopedResourceReservation :=
  mkReservation false (m_value s) (m_resource s) (m_succeeded s).

(** The destructor. *)
Definition Reservation_destroy (s : KScopedResourceReservation) (r : KResourceLimit) :
    outcome KResourceLimit :=
  if m_limit s && negb (m_value s =? 0) && m_succeeded s then
    '(_, r) ← Release r (m_resource s) (m_value s) (m_value s);
    mret r
  else mret r.

(** The entry of an array for one resource. *)
Definition at_ (l : list Z) (which : LimitableResource) : Z := l !!! Z.to_nat (index which).
Definition limit_at (r : KResourceLimit) := at_ (m_limit_values r).
Definition current_at (r : KResourceLimit) := at_ (m_current_values r).
Definition hint_at (r : KResourceLimit) := at_ (m_current_hints r).
Definition peak_at (r : KResourceLimit) := at_ (m_peak_values r).

(** ** Threads

    A thread in [Reserve] is either running under the lock, which is one step, or waiting.
    [Broadcast] ends the wait of every thread in the list; a waiter also resumes when its timer
    fires or it is asked to terminate, so resuming is always possible.  The count of waiters is an
    [s32]: a step that would let more than 2^31 - 1 threads wait is not one of the relation. *)

Record waiter := mkWaiter {
  w_thread : nat; w_which : LimitableResource; w_value : Z; w_timeout : Z; w_signalled : bool }.

Record sys := mkSys { limit : KResourceLimit; waiting : list waiter }.

Definition signal (w : waiter) : waiter :=
  mkWaiter (w_thread w) (w_which w) (w_value w) (w_timeout w) true.

(** What a step did to the reserved amounts. *)
Inductive event :=
| EvReserved (which : LimitableResource) (value : Z)
| EvReleased (which : LimitableResource) (value hint : Z)
| EvNone.

Definition enqueue (d : round) (t : nat) (which : LimitableResource) (value timeout : Z)
    (ws : list waiter) : list waiter :=
  match d with Waits => ws ++ [mkWaiter t which value timeout false] | _ => ws end.
Definition reserve_event (d : round) (which : LimitableResource) (value : Z) : event :=
  match d with Reserved => EvReserved which value | _ => EvNone end.

Inductive step : sys -> event -> sys -> Prop :=
| step_reserve s t which value timeout tick d r :
    in_s 64 value -> 0 <= value -> ~ t ∈ (w_thread <$> waiting s) ->
    Z.of_nat (length (waiting s)) < 2 ^ 31 - 1 ->
    Reserve_enter (limit s) which value timeout tick = Done true (d, r) ->
    step s (reserve_event d which value)
      (mkSys r (enqueue d t which value timeout (waiting s)))
| step_resume s i w tick d r :
    waiting s !! i = Some w ->
    Reserve_resume (limit s) (w_which w) (w_value w) (w_timeout w) tick = Done true (d, r) ->
    step s (reserve_event d (w_which w) (w_value w))
      (mkSys r (enqueue d (w_thread w) (w_which w) (w_value w) (w_timeout w)
                  (delete i (waiting s))))
| step_release s which value hint b r :
    Release (limit s) which value hint = Done true (b, r) ->
    step s (EvReleased which value hint)
      (mkSys r (if b : bool then signal <$> waiting s else waiting s))
| step_set_limit s which value res r :
    in_s 64 value -> SetLimitValue (limit s) which value = Done true (res, r) ->
    step s EvNone (mkSys r (waiting s)).

(** Executions from the state [s0], with the events in order. *)
Inductive steps (s0 : sys) : list event -> sys -> Prop :=
| steps_nil : steps s0 [] s0
| steps_snoc es e s s' : steps s0 es s -> step s e s' -> steps s0 (es ++ [e]) s'.

(** ** The holders of a resource

    [Release] takes any value and hint that are not above the current ones: it does not check that the hint stays below the value.
    This is up to its callers, which give back what they have reserved: a part of it, its hint ahead of its value (as [KThread::Exit] and
    [KProcess::FinishTermination] do with [Release(which, 0, hint)]), or the rest of both ([KThread::PostDestroy], [KProcess::Finalize]). *)

Record holding := mkHolding { h_which : LimitableResource; h_value : Z; h_hint : Z }.

(** What a holder may release of its holding, and what is left of it. *)
Inductive gives_back (h : holding) : Z -> Z -> holding -> Prop :=
| back_part x : 0 <= x <= h_hint h -> gives_back h x x (mkHolding (h_which h) (h_value h - x) (h_hint h - x))
| back_hint x : 0 <= x <= h_hint h -> gives_back h 0 x (mkHolding (h_which h) (h_value h) (h_hint h - x))
| back_rest : gives_back h (h_value h) (h_hint h) (mkHolding (h_which h) 0 0).

(** The events of holders that release only what they have reserved, and their holdings. *)
Inductive holders : list event -> list holding -> Prop :=
| holders_nil : holders [] []
| holders_none es hs : holders es hs -> holders (es ++ [EvNone]) hs
| holders_reserved es hs which value : holders es hs -> holders (es ++ [EvReserved which value]) (hs ++ [mkHolding which value value])
| holders_released es hs i h h' value hint : holders es hs -> hs !! i = Some h -> gives_back h value hint h' ->
    holders (es ++ [EvReleased (h_which h) value hint]) (<[i := h']> hs).

(** What is held of a resource. *)
Definition held_value (which : LimitableResource) (hs : list holding) : Z := foldr (fun h n => (if decide (which = h_which h) then h_value h else 0) + n) 0 hs.
Definition held_hint (which : LimitableResource) (hs : list holding) : Z := foldr (fun h n => (if decide (which = h_which h) then h_hint h else 0) + n) 0 hs.

(** ** The invariant *)

Definition lengths_ok (r : KResourceLimit) : Prop :=
  length (m_limit_values r) = 5%nat /\ length (m_current_values r) = 5%nat /\
  length (m_current_hints r) = 5%nat /\ length (m_peak_values r) = 5%nat.

Definition values_ok (r : KResourceLimit) (which : LimitableResource) : Prop :=
  0 <= hint_at r which /\ hint_at r which <= current_at r which /\
  current_at r which <= peak_at r which /\ peak_at r which <= limit_at r which /\
  limit_at r which < 2 ^ 63.

Definition limit_wf (r : KResourceLimit) : Prop := lengths_ok r /\ forall which, values_ok r which.

(** ** Arrays indexed by a resource *)

Lemma index_range which : 0 <= index which < 5.
Proof. destruct which; simpl; lia. Qed.

Lemma index_inj w w' : Z.to_nat (index w) = Z.to_nat (index w') -> w = w'.
Proof. destruct w, w'; simpl; (done || lia). Qed.

Lemma arr_get_at l which : length l = 5%nat -> arr_get l (index which) = mret (at_ l which).
Proof.
  intros Hl. pose proof (index_range which). apply arr_get_Some; [lia|].
  apply list_lookup_lookup_total_lt. lia.
Qed.

Lemma arr_set_at (l : list Z) which v :
  length l = 5%nat -> arr_set l (index which) v = mret (<[Z.to_nat (index which) := v]> l).
Proof. intros Hl. pose proof (index_range which). apply arr_set_lt. lia. Qed.

Lemma at_insert (l : list Z) which v w' :
  length l = 5%nat ->
  at_ (<[Z.to_nat (index which) := v]> l) w' = if decide (w' = which) then v else at_ l w'.
Proof.
  intros Hl. pose proof (index_range which). unfold at_. destruct (decide (w' = which)) as [->|Hne].
  - apply list_lookup_total_insert_eq. lia.
  - apply list_lookup_total_insert_ne. intros E. by apply Hne, eq_sym, index_inj.
Qed.

(** Running an operation on a well-formed limit: the array accesses succeed. *)
Ltac limit_step :=
  repeat first
    [ rewrite arr_get_at by (done || by rewrite ?length_insert) | rewrite arr_set_at by (done || by rewrite ?length_insert)
    | rewrite bind_ret | rewrite bind_Done_true ]; cbv beta.

Lemma check_values_ok r which : limit_wf r -> check_values r (index which) = mret tt.
Proof.
  intros [(L1 & L2 & L3 & L4) Hv]. destruct (Hv which) as (H1 & H2 & H3 & H4 & H5).
  unfold check_values. limit_step. unfold limit_at, current_at, hint_at, peak_at in *.
  rewrite bind_assert_true by (apply Z.leb_le; lia).
  unfold ASSERT. by rewrite (proj2 (Z.leb_le _ _) H2).
Qed.

(** Changing one resource's values. *)
Lemma limit_wf_update r r' which :
  limit_wf r -> lengths_ok r' -> values_ok r' which ->
  (forall w, w <> which -> limit_at r' w = limit_at r w /\ current_at r' w = current_at r w /\
     hint_at r' w = hint_at r w /\ peak_at r' w = peak_at r w) ->
  limit_wf r'.
Proof.
  intros [_ Hv] Hl Hw Ho. split; [done|]. intros w. destruct (decide (w = which)) as [->|Hne]; [done|].
  destruct (Ho w Hne) as (E1 & E2 & E3 & E4). unfold values_ok. rewrite E1, E2, E3, E4. apply Hv.
Qed.

Lemma wrapping_guard cur v :
  in_s 64 cur -> 0 <= v < 2 ^ 63 -> 0 <= cur ->
  (WrappingAdd 64 cur v <=? cur) = (v =? 0) || (2 ^ 63 <=? cur + v).
Proof.
  intros Hc Hv Hc0. rewrite WrappingAdd_cases by (done || unfold in_s; lia). unfold in_s in Hc. change (64 - 1) with 63 in *.
  destruct (Z.ltb_spec (cur + v) (- 2 ^ 63)), (Z.leb_spec (2 ^ 63) (cur + v)), (Z.eqb_spec v 0); simpl;
    first [apply Z.leb_le; lia | apply Z.leb_gt; lia].
Qed.

(** ** The functional behaviour of the operations *)

(** What a round decides: the request fits now, could fit once the hints are gone, or neither. *)
Definition fits (r : KResourceLimit) (which : LimitableResource) (value : Z) : Prop :=
  0 < value /\ current_at r which + value <= limit_at r which.

Definition reserved_values (r r' : KResourceLimit) (which : LimitableResource) (value : Z) : Prop :=
  forall w, limit_at r' w = limit_at r w /\
    current_at r' w = current_at r w + (if decide (w = which) then value else 0) /\
    hint_at r' w = hint_at r w + (if decide (w = which) then value else 0) /\
    peak_at r' w = if decide (w = which) then Z.max (peak_at r w) (current_at r w + value) else peak_at r w.

Lemma reserved_values_wf r r' which value :
  limit_wf r -> lengths_ok r' -> fits r which value -> reserved_values r r' which value -> limit_wf r'.
Proof.
  intros W Hl [Hp Hf] Hr. apply (limit_wf_update r r' which); try done.
  - destruct (Hr which) as (E1 & E2 & E3 & E4). rewrite !decide_True in * by done.
    destruct W as [_ Hv]. destruct (Hv which) as (? & ? & ? & ? & ?).
    unfold values_ok. rewrite E1, E2, E3, E4. lia.
  - intros w Hne. destruct (Hr w) as (E1 & E2 & E3 & E4). rewrite decide_False in E2, E3, E4 by done. lia.
Qed.

Lemma Reserve_round_spec r which value timeout tick :
  limit_wf r -> 0 <= value < 2 ^ 63 ->
  exists d r', Reserve_round r which value timeout tick = Done true (d, r') /\
    (d = Reserved -> fits r which value /\ reserved_values r r' which value /\ lengths_ok r' /\
                     m_waiter_count r' = m_waiter_count r) /\
    (d = Waits -> ~ fits r which value /\ r' = with_waiters r (s32 (m_waiter_count r + 1)) /\
                  hint_at r which + value <= limit_at r which /\ (timeout < 0 \/ tick < timeout)) /\
    (d = GaveUp -> ~ fits r which value /\ r' = r).
Proof.
  intros W Hval. pose proof W as [(L1 & L2 & L3 & L4) Hv]. destruct (Hv which) as (H1 & H2 & H3 & H4 & H5).
  unfold Reserve_round. rewrite check_values_ok by done. limit_step.
  change (at_ (m_current_values r) which) with (current_at r which).
  change (at_ (m_limit_values r) which) with (limit_at r which).
  change (at_ (m_current_hints r) which) with (hint_at r which).
  change (at_ (m_peak_values r) which) with (peak_at r which).
  rewrite wrapping_guard by (unfold in_s; lia). unfold fits.
  destruct (Z.eqb_spec value 0) as [->|Hne]; simpl orb; cbv iota.
  { exists GaveUp, r. split_and!; try done. intros _. split; [lia|done]. }
  destruct (Z.leb_spec (2 ^ 63) (current_at r which + value)).
  { exists GaveUp, r. split_and!; try done. intros _. split; [lia|done]. }
  rewrite (signed64_ok (current_at r which + value)), (signed64_ok (hint_at r which + value)) by lia. limit_step.
  destruct (Z.leb_spec (current_at r which + value) (limit_at r which)).
  - eexists Reserved, _. split; [done|]. split_and!; try done. intros _.
    split; [lia|]. split; [|split; [split_and!; simpl; rewrite ?length_insert; done|done]].
    intros w. unfold limit_at, current_at, hint_at, peak_at. simpl. rewrite !at_insert by done.
    destruct (decide (w = which)) as [->|]; split_and!; lia.
  - destruct (Z.leb_spec (hint_at r which + value) (limit_at r which)), (Z.ltb_spec timeout 0), (Z.ltb_spec tick timeout);
      simpl; (eexists _, _; split; [done|]; split_and!; try done; intros _; split_and!; (done || lia)).
Qed.

Lemma with_waiters_wf r n : limit_wf r -> limit_wf (with_waiters r n).
Proof. done. Qed.

Lemma Reserve_round_wf r which value timeout tick d r' :
  limit_wf r -> 0 <= value < 2 ^ 63 ->
  Reserve_round r which value timeout tick = Done true (d, r') -> limit_wf r'.
Proof.
  intros W Hv E. destruct (Reserve_round_spec r which value timeout tick W Hv) as (d' & r2 & E' & H1 & H2 & H3).
  rewrite E in E'. injection E' as <- <-. destruct d.
  - destruct (H1 eq_refl) as (Hf & Hr & Hl & _). by eapply reserved_values_wf.
  - by destruct (H3 eq_refl) as (_ & ->).
  - destruct (H2 eq_refl) as (_ & -> & _). by apply with_waiters_wf.
Qed.

Lemma Reserve_enter_eq r which value timeout tick :
  limit_wf r -> 0 <= value ->
  Reserve_enter r which value timeout tick =
    if limit_at r which <=? hint_at r which then mret (GaveUp, r)
    else Reserve_round r which value timeout tick.
Proof.
  intros W Hval. pose proof W as [(L1 & L2 & L3 & L4) Hv]. destruct (Hv which) as (H1 & H2 & H3 & H4 & H5).
  unfold Reserve_enter. rewrite bind_assert_true by (apply Z.leb_le; lia). limit_step.
  rewrite bind_assert_true by (apply Z.leb_le; exact H2). done.
Qed.

(** What [Release] does when its assertions pass, and that it keeps the invariant when the hint stays below the value. *)
Lemma Release_values r which value hint :
  limit_wf r -> 0 <= value <= current_at r which -> 0 <= hint <= hint_at r which ->
  exists r', Release r which value hint = Done true (negb (m_waiter_count r =? 0), r') /\ lengths_ok r' /\
    m_waiter_count r' = m_waiter_count r /\
    forall w, limit_at r' w = limit_at r w /\ peak_at r' w = peak_at r w /\
      current_at r' w = current_at r w - (if decide (w = which) then value else 0) /\
      hint_at r' w = hint_at r w - (if decide (w = which) then hint else 0).
Proof.
  intros W Hval Hhint. pose proof W as [(L1 & L2 & L3 & L4) Hv]. destruct (Hv which) as (H1 & H2 & H3 & H4 & H5).
  unfold Release. do 2 rewrite bind_assert_true by (apply Z.leb_le; lia). rewrite check_values_ok by done. limit_step.
  change (at_ (m_current_values r) which) with (current_at r which).
  change (at_ (m_current_hints r) which) with (hint_at r which).
  do 2 rewrite bind_assert_true by (apply Z.leb_le; lia). rewrite !signed64_ok by lia. limit_step.
  match goal with |- context [mret (_, ?R)] => exists R; set (r' := R) end. split; [done|].
  split; [split_and!; simpl; by rewrite ?length_insert|]. split; [done|]. intros w. split; [done|]. split; [done|]. split.
  - unfold current_at, r'. simpl. rewrite at_insert by done. destruct (decide (w = which)) as [->|]; unfold current_at; lia.
  - unfold hint_at, r'. simpl. rewrite at_insert by done. destruct (decide (w = which)) as [->|]; unfold hint_at; lia.
Qed.

Lemma Release_spec r which value hint :
  limit_wf r -> 0 <= value <= current_at r which -> 0 <= hint <= hint_at r which ->
  hint_at r which - hint <= current_at r which - value ->
  exists r', Release r which value hint = Done true (negb (m_waiter_count r =? 0), r') /\ limit_wf r' /\
    m_waiter_count r' = m_waiter_count r /\
    forall w, limit_at r' w = limit_at r w /\ peak_at r' w = peak_at r w /\
      current_at r' w = current_at r w - (if decide (w = which) then value else 0) /\
      hint_at r' w = hint_at r w - (if decide (w = which) then hint else 0).
Proof.
  intros W Hval Hhint Hle. destruct (Release_values r which value hint W Hval Hhint) as (r' & E & Hl & Ec & Hw). exists r'. split; [done|]. split; [|done].
  pose proof W as [_ Hv]. pose proof (Hv which) as (H1 & H2 & H3 & H4 & H5). pose proof (Hw which) as (E1 & E2 & E3 & E4). rewrite decide_True in E3, E4 by done.
  apply (limit_wf_update r r' which); try done; [unfold values_ok; lia|].
  intros w Hne. destruct (Hw w) as (-> & -> & -> & ->). rewrite !decide_False by done. split_and!; (done || lia).
Qed.

(** ** Threads *)

Record sys_wf (s : sys) : Prop := {
  sw_limit : limit_wf (limit s);
  sw_count : m_waiter_count (limit s) = Z.of_nat (length (waiting s));
  sw_bound : Z.of_nat (length (waiting s)) < 2 ^ 31;
  sw_values : Forall (fun w => 0 <= w_value w < 2 ^ 63) (waiting s);
  sw_threads : NoDup (w_thread <$> waiting s)
}.

Lemma s32_small z : - 2 ^ 31 <= z < 2 ^ 31 -> s32 z = z.
Proof. intros H. apply wraps_small; [lia|exact H]. Qed.

Lemma step_reserve_wf r ws t which value timeout tick d r' :
  limit_wf r -> m_waiter_count r = Z.of_nat (length ws) -> Z.of_nat (length ws) < 2 ^ 31 - 1 ->
  Forall (fun w => 0 <= w_value w < 2 ^ 63) ws -> NoDup (w_thread <$> ws) -> ~ t ∈ (w_thread <$> ws) ->
  0 <= value < 2 ^ 63 -> Reserve_round r which value timeout tick = Done true (d, r') ->
  sys_wf (mkSys r' (enqueue d t which value timeout ws)).
Proof.
  intros W Hc Hb Hv Hn Ht Hval E. pose proof (Reserve_round_wf _ _ _ _ _ _ _ W Hval E) as W'.
  destruct (Reserve_round_spec r which value timeout tick W Hval) as (d' & r2 & E' & H1 & H2 & H3).
  rewrite E in E'. injection E' as <- <-. destruct d; simpl.
  - destruct (H1 eq_refl) as (_ & _ & _ & Ec). split; simpl; (done || lia).
  - destruct (H3 eq_refl) as (_ & ->). split; simpl; (done || lia).
  - destruct (H2 eq_refl) as (_ & -> & _). split; simpl; rewrite ?length_app; simpl; try (done || lia).
    + rewrite s32_small by lia. lia.
    + apply Forall_app. split; [done|]. by apply Forall_singleton.
    + rewrite fmap_app, list.NoDup_app. simpl. split_and!; [done| |apply NoDup_singleton].
      intros x Hx ->%list_elem_of_singleton. done.
Qed.

Lemma SetLimitValue_spec r which value :
  limit_wf r -> in_s 64 value ->
  (current_at r which <= value -> exists r', SetLimitValue r which value = Done true (ResultSuccess, r') /\
     limit_wf r' /\ m_waiter_count r' = m_waiter_count r /\
     forall w, current_at r' w = current_at r w /\ hint_at r' w = hint_at r w /\
       limit_at r' w = (if decide (w = which) then value else limit_at r w) /\
       peak_at r' w = (if decide (w = which) then current_at r w else peak_at r w)) /\
  (value < current_at r which -> SetLimitValue r which value = Done true (ResultInvalidState, r)).
Proof.
  intros W Hs. pose proof W as [(L1 & L2 & L3 & L4) Hv]. destruct (Hv which) as (H1 & H2 & H3 & H4 & H5).
  unfold SetLimitValue. limit_step. change (at_ (m_current_values r) which) with (current_at r which).
  split; intros Hle.
  - rewrite (proj2 (Z.leb_le _ _) Hle). simpl negb. cbv iota. limit_step.
    match goal with |- context [mret (_, ?R)] => exists R; set (r' := R) end. split; [done|].
    assert (forall w, limit_at r' w = if decide (w = which) then value else limit_at r w) as El
      by (intros w; unfold limit_at, r'; simpl; by rewrite at_insert).
    assert (forall w, peak_at r' w = if decide (w = which) then current_at r w else peak_at r w) as Ep.
    { intros w. unfold peak_at, r'. simpl. rewrite at_insert by done. by destruct (decide (w = which)) as [->|]. }
    split; [|done]. apply (limit_wf_update r r' which); try done.
    + split_and!; simpl; by rewrite ?length_insert.
    + unfold values_ok. rewrite El, Ep, !decide_True by done. unfold in_s in Hs.
      change (current_at r' which) with (current_at r which). change (hint_at r' which) with (hint_at r which). lia.
    + intros w Hne. rewrite El, Ep, !decide_False by done. done.
  - destruct (Z.leb_spec (current_at r which) value); [lia|]. done.
Qed.

Lemma Release_inv r which value hint b r' :
  limit_wf r -> Release r which value hint = Done true (b, r') ->
  0 <= value <= current_at r which /\ 0 <= hint <= hint_at r which.
Proof.
  intros W E. pose proof W as [(L1 & L2 & L3 & L4) Hv]. unfold Release in E.
  run_inv E. apply ASSERT_inv in E0. run_inv E. apply ASSERT_inv in E1.
  rewrite check_values_ok in E by done. revert E. limit_step. intros E.
  run_inv E. apply ASSERT_inv in E2. run_inv E. apply ASSERT_inv in E3. apply Z.leb_le in E0, E1, E2, E3. done.
Qed.

(** What an event adds to the current value and to the hint. *)
Definition event_amount (which : LimitableResource) (e : event) : Z :=
  match e with
  | EvReserved w v => if decide (which = w) then v else 0
  | EvReleased w v _ => if decide (which = w) then - v else 0
  | EvNone => 0
  end.
Definition event_hint (which : LimitableResource) (e : event) : Z :=
  match e with
  | EvReserved w v => if decide (which = w) then v else 0
  | EvReleased w _ h => if decide (which = w) then - h else 0
  | EvNone => 0
  end.

Lemma step_wf s e s' : sys_wf s -> step s e s' -> (forall w, hint_at (limit s) w + event_hint w e <= current_at (limit s) w + event_amount w e) -> sys_wf s'.
Proof.
  intros [W Hc Hb Hv Hn] Hst Hkeep. destruct Hst as [s t which value timeout tick d r Hs Hval Ht Hlen E
    | s i w tick d r Hw E | s which value hint b r E | s which value res r Hs E].
  - rewrite Reserve_enter_eq in E by done. unfold in_s in Hs.
    destruct (_ <=? _); [injection E as <- <-; by split|]. eapply step_reserve_wf; try done; lia.
  - pose proof (lookup_lt_Some _ _ _ Hw). unfold Reserve_resume in E.
    pose proof (delete_take_drop (waiting s) i) as Ed. pose proof (take_drop_middle _ _ _ Hw) as Et.
    rewrite <- Et, fmap_app, fmap_cons, list.NoDup_app in Hn. destruct Hn as (N1 & N2 & N3%list.NoDup_cons).
    eapply step_reserve_wf; [|..|exact E]; [exact W|..].
    + rewrite length_delete by eauto. cbn [m_waiter_count with_waiters]. rewrite s32_small; lia.
    + rewrite length_delete by eauto. lia.
    + rewrite Ed. apply Forall_app. rewrite <- Et, Forall_app, list.Forall_cons in Hv. tauto.
    + rewrite Ed, fmap_app, list.NoDup_app. split_and!; [done| |tauto]. intros x Hx Hx'. apply (N2 x Hx). by right.
    + rewrite Ed, fmap_app, elem_of_app. intros [Hx|Hx]; [|tauto]. apply (N2 _ Hx). by left.
    + by apply (Forall_lookup_1 _ _ _ _ Hv Hw).
  - destruct (Release_inv _ _ _ _ _ _ W E) as [Hval Hhint].
    assert (hint_at (limit s) which - hint <= current_at (limit s) which - value) as Hh by (specialize (Hkeep which); cbn in Hkeep; rewrite !decide_True in Hkeep by done; lia).
    destruct (Release_spec (limit s) which value hint W Hval Hhint Hh) as (r2 & E2 & W2 & Ec & _).
    rewrite E in E2. injection E2 as -> <-. destruct (negb _); [|split; simpl; (done || lia)].
    split; simpl; rewrite ?length_fmap; try (done || lia).
    + apply Forall_fmap. eapply Forall_impl; [|exact Hv]. by intros [].
    + rewrite <- list_fmap_compose. done.
  - destruct (SetLimitValue_spec (limit s) which value W Hs) as [H1 H2].
    destruct (Z_le_gt_dec (current_at (limit s) which) value) as [Hle|Hgt].
    + destruct (H1 Hle) as (r2 & E2 & W2 & Ec & _). rewrite E in E2. injection E2 as _ <-. split; simpl; (done || lia).
    + rewrite H2 in E by lia. injection E as _ <-. by split.
Qed.

Lemma round_amount r which value timeout tick d r' w :
  limit_wf r -> 0 <= value < 2 ^ 63 -> Reserve_round r which value timeout tick = Done true (d, r') ->
  current_at r' w = current_at r w + event_amount w (reserve_event d which value) /\
  hint_at r' w = hint_at r w + event_hint w (reserve_event d which value) /\ limit_at r' w = limit_at r w.
Proof.
  intros W Hv E. destruct (Reserve_round_spec r which value timeout tick W Hv) as (d' & r2 & E' & H1 & H2 & H3).
  rewrite E in E'. injection E' as <- <-. destruct d; simpl.
  - destruct (H1 eq_refl) as (_ & Hr & _). destruct (Hr w) as (-> & -> & -> & _). done.
  - destruct (H3 eq_refl) as (_ & ->). lia.
  - destruct (H2 eq_refl) as (_ & -> & _). change (current_at (with_waiters _ _) w) with (current_at r w).
    change (limit_at (with_waiters _ _) w) with (limit_at r w). change (hint_at (with_waiters _ _) w) with (hint_at r w). lia.
Qed.

Lemma step_amount s e s' w :
  sys_wf s -> step s e s' -> current_at (limit s') w = current_at (limit s) w + event_amount w e /\ hint_at (limit s') w = hint_at (limit s) w + event_hint w e.
Proof.
  intros [W Hc Hb Hv Hn]. destruct 1 as [s t which value timeout tick d r Hs Hval Ht Hlen E
    | s i x tick d r Hw E | s which value hint b r E | s which value res r Hs E]; cbn [limit].
  - rewrite Reserve_enter_eq in E by done. unfold in_s in Hs.
    destruct (_ <=? _); [injection E as <- <-; simpl; lia|]. assert (0 <= value < 2 ^ 63) as Hr by lia. destruct (round_amount _ _ _ _ _ _ _ w W Hr E) as (? & ? & _). done.
  - unfold Reserve_resume in E. apply (round_amount _ _ _ _ _ _ _ w) in E as (-> & -> & _); [done|done|].
    by apply (Forall_lookup_1 _ _ _ _ Hv Hw).
  - destruct (Release_inv _ _ _ _ _ _ W E) as [Hval Hhint].
    destruct (Release_values (limit s) which value hint W Hval Hhint) as (r2 & E2 & _ & _ & Hr).
    rewrite E in E2. injection E2 as -> <-. destruct (Hr w) as (_ & _ & -> & ->). simpl. destruct (decide (w = which)); lia.
  - destruct (SetLimitValue_spec (limit s) which value W Hs) as [H1 H2]. simpl.
    destruct (Z_le_gt_dec (current_at (limit s) which) value) as [Hle|Hgt].
    + destruct (H1 Hle) as (r2 & E2 & W2 & Ec & Hr). rewrite E in E2. injection E2 as _ <-.
      destruct (Hr w) as (-> & -> & _). lia.
    + rewrite H2 in E by lia. injection E as _ <-. lia.
Qed.

Definition sys_init (r : KResourceLimit) : sys := mkSys r [].

(** *** What the holders hold *)

Definition holding_ok (h : holding) : Prop := 0 <= h_hint h <= h_value h.

Lemma gives_back_range h value hint h' : holding_ok h -> gives_back h value hint h' ->
  0 <= value <= h_value h /\ 0 <= hint <= h_hint h /\ holding_ok h' /\ h_which h' = h_which h /\ h_value h' = h_value h - value /\ h_hint h' = h_hint h - hint.
Proof. unfold holding_ok. intros Hh []; cbn; split_and!; (done || lia). Qed.

Lemma held_app w hs hs' : held_value w (hs ++ hs') = held_value w hs + held_value w hs' /\ held_hint w (hs ++ hs') = held_hint w hs + held_hint w hs'.
Proof. induction hs as [|h hs [IH1 IH2]]; [done|]. cbn. fold (held_value w (hs ++ hs')) (held_hint w (hs ++ hs')) (held_value w hs) (held_hint w hs). lia. Qed.

Lemma held_nonneg w hs : Forall holding_ok hs -> 0 <= held_hint w hs <= held_value w hs.
Proof.
  induction 1 as [|h hs Hh _ IH]; [done|]. unfold holding_ok in Hh. cbn. fold (held_value w hs) (held_hint w hs). destruct (decide _); lia.
Qed.

Lemma held_insert w hs i h h' : hs !! i = Some h -> h_which h' = h_which h ->
  held_value w (<[i := h']> hs) = held_value w hs + (if decide (w = h_which h) then h_value h' - h_value h else 0) /\
  held_hint w (<[i := h']> hs) = held_hint w hs + (if decide (w = h_which h) then h_hint h' - h_hint h else 0).
Proof.
  intros Hi Ew. pose proof (take_drop_middle hs i h Hi) as Ehs. rewrite insert_take_drop by (by eapply lookup_lt_Some). revert Ehs. generalize (take i hs) (drop (S i) hs). intros a b <-.
  destruct (held_app w a (h' :: b)) as [-> ->], (held_app w a (h :: b)) as [-> ->]. cbn. rewrite Ew. destruct (decide _); lia.
Qed.

Lemma held_most hs i h : Forall holding_ok hs -> hs !! i = Some h -> h_value h <= held_value (h_which h) hs /\ h_hint h <= held_hint (h_which h) hs.
Proof.
  intros Hf Hi. pose proof (proj1 (Forall_lookup _ _) Hf i h Hi) as Hh. destruct (held_insert (h_which h) hs i h (mkHolding (h_which h) 0 0) Hi eq_refl) as [E1 E2].
  rewrite decide_True in E1, E2 by done. cbn in E1, E2.
  assert (Forall holding_ok (<[i := mkHolding (h_which h) 0 0]> hs)) as Hf' by (by apply Forall_insert). pose proof (held_nonneg (h_which h) _ Hf'). lia.
Qed.

(** The last event of holders. *)
Lemma holders_last es e hs : holders (es ++ [e]) hs -> exists hs0, holders es hs0 /\
  match e with
  | EvNone => hs = hs0
  | EvReserved which value => hs = hs0 ++ [mkHolding which value value]
  | EvReleased which value hint => exists i h h', hs0 !! i = Some h /\ which = h_which h /\ gives_back h value hint h' /\ hs = <[i := h']> hs0
  end.
Proof.
  inversion 1 as [E|es' hs' Hh E|es' hs' w v Hh E|es' hs' i h h' v x Hh Hi Hg E]; [by destruct es|..]; apply app_inj_tail in E as [<- <-].
  - by exists hs.
  - by exists hs'.
  - exists hs'. split; [done|]. by exists i, h, h'.
Qed.

Lemma reserved_nonneg s e s' which value : sys_wf s -> step s e s' -> e = EvReserved which value -> 0 <= value.
Proof.
  intros Hw. destruct 1 as [s t wh v timeout tick d r Hs Hval Ht Hlen E|s i w tick d r Hi E|s wh v h b r E|s wh v res r Hs E]; [| |done|done].
  - destruct d; cbn; [|done..]. by intros [= _ <-].
  - pose proof (proj1 (Forall_lookup _ _) (sw_values s Hw) i w Hi) as [? _]. destruct d; cbn; [|done..]. by intros [= _ <-].
Qed.

(** What an event does to the holdings, it does to the limit. *)
Lemma event_holdings s e s' hs0 hs : sys_wf s -> step s e s' -> Forall holding_ok hs0 ->
  match e with
  | EvNone => hs = hs0
  | EvReserved which value => hs = hs0 ++ [mkHolding which value value]
  | EvReleased which value hint => exists i h h', hs0 !! i = Some h /\ which = h_which h /\ gives_back h value hint h' /\ hs = <[i := h']> hs0
  end ->
  Forall holding_ok hs /\ forall w, held_value w hs = held_value w hs0 + event_amount w e /\ held_hint w hs = held_hint w hs0 + event_hint w e.
Proof.
  intros Hw Hst Hf He. destruct e as [which value|which value hint|]; [| |subst; split; [done|]; intros w; cbn; lia].
  - pose proof (reserved_nonneg s _ s' which value Hw Hst eq_refl). subst hs. split.
    + apply Forall_app. split; [done|]. apply Forall_singleton. unfold holding_ok. cbn. lia.
    + intros w. destruct (held_app w hs0 [mkHolding which value value]) as [-> ->]. cbn. destruct (decide _); lia.
  - destruct He as (i & h & h' & Hi & -> & Hg & ->). destruct (gives_back_range h value hint h' (proj1 (Forall_lookup _ _) Hf i h Hi) Hg) as (_ & _ & Hok & Ew & Ev & Eh).
    split; [by apply Forall_insert|]. intros w. destruct (held_insert w hs0 i h h' Hi Ew) as [-> ->]. cbn. rewrite Ev, Eh. destruct (decide _); lia.
Qed.

Lemma executions_ok r es s : limit_wf r -> m_waiter_count r = 0 -> steps (sys_init r) es s -> forall hs, holders es hs ->
  sys_wf s /\ Forall holding_ok hs /\ forall which, current_at (limit s) which = current_at r which + held_value which hs /\ hint_at (limit s) which = hint_at r which + held_hint which hs.
Proof.
  intros W Hc. induction 1 as [|es e s s' Hs IH Hst]; intros hs Hh.
  - inversion Hh as [|es hs' _ E|es hs' ? ? _ E|es hs' i h h' ? ? _ _ _ E]; [|by destruct es..]. split; [split; simpl; (done || lia || constructor)|]. split; [constructor|]. intros w. cbn. lia.
  - apply holders_last in Hh as (hs0 & Hh0 & He). destruct (IH hs0 Hh0) as (Hw & Hf & Hb). destruct (event_holdings s e s' hs0 hs Hw Hst Hf He) as [Hf' Hev].
    assert (forall w, current_at (limit s') w = current_at r w + held_value w hs /\ hint_at (limit s') w = hint_at r w + held_hint w hs) as Hb'.
    { intros w. destruct (step_amount s e s' w Hw Hst) as [-> ->], (Hev w) as [-> ->], (Hb w) as [-> ->]. lia. }
    split; [|done]. apply (step_wf s e s' Hw Hst). intros w. destruct (step_amount s e s' w Hw Hst) as [<- <-], (Hb' w) as [-> ->].
    pose proof W as [_ Hv]. destruct (Hv w) as (_ & ? & _). pose proof (held_nonneg w hs Hf'). lia.
Qed.

(** A sleeping thread that nobody has woken cannot be served. *)
Definition sleepers_blocked (s : sys) : Prop :=
  forall w, w ∈ waiting s -> w_signalled w = false -> ~ fits (limit s) (w_which w) (w_value w).

Lemma not_fits_mono r r' which value :
  ~ fits r which value -> current_at r which <= current_at r' which -> limit_at r' which <= limit_at r which ->
  ~ fits r' which value.
Proof. unfold fits. lia. Qed.

(** A round under the lock keeps the sleepers blocked, the caller included if it now waits. *)
Lemma round_blocked r ws t which value timeout tick d r' :
  limit_wf r -> 0 <= value < 2 ^ 63 -> Reserve_round r which value timeout tick = Done true (d, r') ->
  sleepers_blocked (mkSys r ws) -> sleepers_blocked (mkSys r' (enqueue d t which value timeout ws)).
Proof.
  intros W Hval E Hbl w Hin Hf. cbn [limit waiting] in *.
  pose proof (round_amount _ _ _ _ _ _ _ (w_which w) W Hval E) as (Ec & _ & El).
  destruct (Reserve_round_spec r which value timeout tick W Hval) as (d' & r2 & E' & H1 & H2 & H3).
  rewrite E in E'. injection E' as <- <-.
  assert (w ∈ ws \/ (d = Waits /\ w = mkWaiter t which value timeout false)) as [Hw|[-> ->]].
  { destruct d; simpl in Hin; [by left|by left|]. apply elem_of_app in Hin as [|Hin]; [by left|right].
    by apply list_elem_of_singleton in Hin. }
  - apply (not_fits_mono r); [exact (Hbl w Hw Hf)| |lia]. rewrite Ec.
    destruct d; simpl; [destruct (decide _)| |]; lia.
  - destruct (H2 eq_refl) as (Hno & -> & _). exact Hno.
Qed.

(** ** The properties *)

(** [Reserve] decides without overflow and on every branch: it grants the request exactly when
    it is positive and fits under the limit, raising the current value, the hint and the peak of
    that resource only; otherwise it changes nothing, and it waits only while the hints say the
    request may still fit and the time is not over.  Every assertion passes. *)
Theorem resource_limit_reserve (r : KResourceLimit) which value timeout tick :
  limit_wf r -> 0 <= value < 2 ^ 63 ->
  exists d r', Reserve_enter r which value timeout tick = Done true (d, r') /\ limit_wf r' /\
    (d = Reserved <-> fits r which value) /\
    match d with
    | Reserved => reserved_values r r' which value /\ m_waiter_count r' = m_waiter_count r
    | GaveUp => r' = r
    | Waits => r' = with_waiters r (s32 (m_waiter_count r + 1)) /\
        hint_at r which + value <= limit_at r which /\ (timeout < 0 \/ tick < timeout)
    end.
Proof.
  intros W Hv. pose proof W as [_ Hw]. destruct (Hw which) as (H1 & H2 & H3 & H4 & H5).
  rewrite Reserve_enter_eq by (done || lia). destruct (Z.leb_spec (limit_at r which) (hint_at r which)).
  { exists GaveUp, r. split; [done|]. split; [done|]. split; [|done]. split; [done|]. unfold fits. lia. }
  destruct (Reserve_round_spec r which value timeout tick W Hv) as (d & r' & E & R1 & R2 & R3).
  exists d, r'. split; [done|]. split; [by eapply Reserve_round_wf|]. destruct d.
  - destruct (R1 eq_refl) as (? & ? & ? & ?). done.
  - destruct (R3 eq_refl) as (? & ?). done.
  - destruct (R2 eq_refl) as (? & ? & ? & ?). done.
Qed.

(** Releasing what was reserved restores the current value, the hint and the limit of every
    resource; only the recorded peak keeps the trace of the reservation. *)
Theorem resource_limit_reserve_release (r r1 : KResourceLimit) which value timeout tick :
  limit_wf r -> 0 <= value < 2 ^ 63 -> Reserve_enter r which value timeout tick = Done true (Reserved, r1) ->
  exists b r2, Release r1 which value value = Done true (b, r2) /\ limit_wf r2 /\
    forall w, limit_at r2 w = limit_at r w /\ current_at r2 w = current_at r w /\ hint_at r2 w = hint_at r w.
Proof.
  intros W Hv E. rewrite Reserve_enter_eq in E by (done || lia). destruct (_ <=? _); [done|].
  pose proof (Reserve_round_wf _ _ _ _ _ _ _ W Hv E) as W1.
  destruct (Reserve_round_spec r which value timeout tick W Hv) as (d & r' & E' & R1 & _).
  rewrite E in E'. injection E' as <- <-. destruct (R1 eq_refl) as (_ & Hr & _).
  pose proof (Hr which) as (_ & C & Hh & _). rewrite decide_True in C, Hh by done.
  pose proof W as [_ Hw]. destruct (Hw which) as (? & ? & ? & ? & ?).
  destruct (Release_spec r1 which value value W1) as (r2 & E2 & W2 & _ & Hr2); [lia|lia|lia|].
  eexists _, r2. split; [exact E2|]. split; [done|]. intros w.
  destruct (Hr w) as (E3 & E4 & E5 & _). destruct (Hr2 w) as (E6 & _ & E7 & E8).
  destruct (decide (w = which)); split_and!; lia.
Qed.

(** C38: Executions.  Take any interleaving of any number of threads that reserve, wait, resume, change limits, and release what they have reserved: a part, the hint ahead of the value,
    or the rest, as the callers of [Release] do.  After every such execution 0 <= hint <= current <= peak <= limit holds for each resource, the waiter count is the number of waiting threads, and the current value and
    the hint of each resource exceed their first values by exactly what is held; then a waiting thread can be resumed and a holder can release, and all assertions pass. *)
Theorem resource_limit_executions (r : KResourceLimit) (es : list event) (s : sys) (hs : list holding) :
  limit_wf r -> m_waiter_count r = 0 -> steps (sys_init r) es s -> holders es hs ->
  sys_wf s /\
  (forall which, current_at (limit s) which = current_at r which + held_value which hs /\ hint_at (limit s) which = hint_at r which + held_hint which hs) /\
  (forall i w tick, waiting s !! i = Some w ->
    exists d r', Reserve_resume (limit s) (w_which w) (w_value w) (w_timeout w) tick = Done true (d, r')) /\
  (forall i h value hint h', hs !! i = Some h -> gives_back h value hint h' ->
    exists b r', Release (limit s) (h_which h) value hint = Done true (b, r')).
Proof.
  intros W Hc Hs Hh. destruct (executions_ok r es s W Hc Hs hs Hh) as (Hw & Ha & Hb). split; [done|]. split; [done|]. split.
  - intros i w tick Hi. unfold Reserve_resume.
    destruct (Reserve_round_spec (with_waiters (limit s) (s32 (m_waiter_count (limit s) - 1))) (w_which w) (w_value w)
      (w_timeout w) tick) as (d & r' & E & _); [apply Hw|by apply (Forall_lookup_1 _ _ _ _ (sw_values _ Hw) Hi)|].
    by exists d, r'.
  - intros i h value hint h' Hi Hg. destruct (gives_back_range h value hint h' (proj1 (Forall_lookup _ _) Ha i h Hi) Hg) as (R1 & R2 & _).
    destruct (held_most hs i h Ha Hi) as [M1 M2]. destruct (Hb (h_which h)) as [B1 B2]. pose proof W as [_ Hv]. destruct (Hv (h_which h)) as (? & ? & _).
    destruct (Release_values (limit s) (h_which h) value hint (sw_limit s Hw)) as (r' & E & _); [lia|lia|]. by eexists _, r'.
Qed.

(** C39: No wakeup is lost: a step that raises no limit keeps every waiting thread that has not been
    signalled one whose request does not fit; in particular [Release] signals all waiters. *)
Theorem resource_limit_no_lost_wakeup (s s' : sys) (e : event) :
  sys_wf s -> step s e s' -> (forall w, limit_at (limit s') w <= limit_at (limit s) w) ->
  sleepers_blocked s -> sleepers_blocked s'.
Proof.
  intros [W Hc Hb Hv Hn] Hst Hlim Hbl. destruct Hst as [s t which value timeout tick d r Hs Hval Ht Hlen E
    | s i x tick d r Hw E | s which value hint b r E | s which value res r Hs E]; cbn [limit waiting] in *.
  - rewrite Reserve_enter_eq in E by done. unfold in_s in Hs.
    destruct (_ <=? _); [injection E as <- <-; exact Hbl|]. destruct s. eapply round_blocked; [exact W| |exact E|exact Hbl]. lia.
  - eapply round_blocked; [|by apply (Forall_lookup_1 _ _ _ _ Hv Hw)|exact E|]; [exact W|].
    intros w Hin. apply Hbl. cbn [waiting] in Hin. rewrite delete_take_drop in Hin.
    rewrite <- (take_drop_middle _ _ _ Hw), elem_of_app, elem_of_cons.
    apply elem_of_app in Hin. tauto.
  - destruct (Release_inv _ _ _ _ _ _ W E) as [Hval Hhint].
    destruct (Release_values (limit s) which value hint W Hval Hhint) as (r2 & E2 & _).
    rewrite E in E2. injection E2 as -> <-. intros w Hin Hf. cbn [limit waiting] in *.
    destruct (Z.eqb_spec (m_waiter_count (limit s)) 0) as [E0|E0]; simpl in Hin.
    + assert (waiting s = []) as En by (apply length_zero_iff_nil; lia). rewrite En in Hin. by apply not_elem_of_nil in Hin.
    + apply list_elem_of_fmap in Hin as (y & -> & _). done.
  - intros w Hin Hf. apply (not_fits_mono (limit s)); [by apply Hbl| |by apply Hlim].
    destruct (SetLimitValue_spec (limit s) which value W Hs) as [H1 H2].
    destruct (Z_le_gt_dec (current_at (limit s) which) value) as [Hle|Hgt].
    + destruct (H1 Hle) as (r2 & E2 & W2 & Ec & Hr). rewrite E in E2. injection E2 as _ <-.
      destruct (Hr (w_which w)) as (E3 & _). cbn [limit]. lia.
    + rewrite H2 in E by lia. injection E as _ <-. cbn [limit]. lia.
Qed.

(** [CreateResourceLimitForProcess] passes its five assertions and sets the documented limits,
    with nothing reserved. *)
Theorem resource_limit_create (physical_memory_size : Z) :
  0 <= physical_memory_size < 2 ^ 63 ->
  exists r, CreateResourceLimitForProcess physical_memory_size = Done true r /\ limit_wf r /\
    m_waiter_count r = 0 /\ m_limit_values r = [physical_memory_size; 800; 900; 200; 1133] /\
    forall which, current_at r which = 0 /\ hint_at r which = 0 /\ peak_at r which = 0.
Proof.
  intros Hp. assert (limit_wf (mkLimit [physical_memory_size; 800; 900; 200; 1133] (replicate 5 0) (replicate 5 0)
    (replicate 5 0) 0)) as W.
  { split; [done|]. unfold values_ok, limit_at, current_at, hint_at, peak_at, at_. intros []; simpl; lia. }
  exists (mkLimit [physical_memory_size; 800; 900; 200; 1133] (replicate 5 0) (replicate 5 0) (replicate 5 0) 0).
  split; [|split; [done|]; split; [done|]; split; [done|]; by intros []].
  unfold CreateResourceLimitForProcess, set_asserted, SetLimitValue. simpl.
  rewrite (proj2 (Z.leb_le 0 physical_memory_size)) by lia. reflexivity.
Qed.

(** A scoped reservation that is not committed gives back what it took when it is destroyed, and
    a committed one, a failed one, one of nothing and one without a limit give nothing back. *)
Theorem scoped_reservation_release (r r1 : KResourceLimit) has_limit which value timeout tick res :
  limit_wf r -> 0 <= value < 2 ^ 63 ->
  Reservation_new has_limit r which value timeout tick = Done true (Some res, r1) ->
  (exists r2, Reservation_destroy res r1 = Done true r2 /\ limit_wf r2 /\
     forall w, limit_at r2 w = limit_at r w /\ current_at r2 w = current_at r w /\ hint_at r2 w = hint_at r w) /\
  Reservation_destroy (Commit res) r1 = Done true r1 /\
  (m_succeeded res = true -> current_at r1 which = current_at r which + (if has_limit then value else 0)) /\
  (m_succeeded res = false -> r1 = r).
Proof.
  intros W Hv E. unfold Reservation_new in E. destruct (has_limit && negb (value =? 0)) eqn:Eb.
  2: { injection E as <- <-. unfold Reservation_destroy. simpl. rewrite Eb. simpl. split_and!; try done.
       - by exists r.
       - intros _. destruct has_limit; [|lia]. simpl in Eb. apply negb_false_iff, Z.eqb_eq in Eb. lia. }
  apply andb_true_iff in Eb as [-> Hne%negb_true_iff%Z.eqb_neq].
  run_inv E. destruct a as [d r']. rewrite Reserve_enter_eq in E0 by (done || lia).
  assert (Reserve_round r which value timeout tick = Done true (d, r') \/ (d = GaveUp /\ r' = r)) as Hd
    by (destruct (_ <=? _); [right; by injection E0 as <- <-|by left]).
  assert (exists r2, Reserve_round r which value timeout tick = Done true r2) as [[d' r2] Er].
  { destruct (Reserve_round_spec r which value timeout tick W Hv) as (d2 & r2 & Er & _). by eexists. }
  destruct d; cbv [mret outcome_mret] in E; injection E; clear E; [intros <- <-|intros <- <-|done];
    unfold Reservation_destroy; simpl; rewrite ?(proj2 (Z.eqb_neq _ _) Hne); simpl.
  - destruct Hd as [E1|[? _]]; [|done]. pose proof (Reserve_round_wf _ _ _ _ _ _ _ W Hv E1) as W1.
    destruct (Reserve_round_spec r which value timeout tick W Hv) as (d & r3 & E3 & R1 & _).
    rewrite E1 in E3. injection E3 as <- <-. destruct (R1 eq_refl) as (_ & Hr & _).
    pose proof (Hr which) as (_ & C & Hh & _). rewrite decide_True in C, Hh by done.
    pose proof W as [_ Hw]. destruct (Hw which) as (? & ? & ? & ? & ?).
    destruct (Release_spec r' which value value W1) as (r4 & E4 & W4 & _ & Hr4); [lia|lia|lia|].
    split_and!; try done. exists r4. rewrite E4. split; [done|]. split; [done|]. intros w.
    destruct (Hr w) as (E5 & E6 & E7 & _). destruct (Hr4 w) as (E8 & _ & E9 & E10).
    destruct (decide (w = which)); split_and!; lia.
  - assert (r' = r) as ->.
    { destruct Hd as [E1|[_ ->]]; [|done].
      destruct (Reserve_round_spec r which value timeout tick W Hv) as (d & r3 & E3 & _ & _ & R3).
      rewrite E1 in E3. injection E3 as <- <-. by destruct (R3 eq_refl). }
    split_and!; try done. by exists r.
Qed.

(** ** A concrete limit: 10 threads allowed, 4 in use *)

Definition demo_limit : KResourceLimit :=
  mkLimit [0; 10; 0; 0; 0] [0; 4; 0; 0; 0] [0; 4; 0; 0; 0] [0; 7; 0; 0; 0] 0.

Lemma demo_limit_wf : limit_wf demo_limit.
Proof. split; [done|]. unfold values_ok, limit_at, current_at, hint_at, peak_at, at_. intros []; simpl; lia. Qed.

Lemma resource_limit_reserve_witness :
  exists r', Reserve_enter demo_limit ThreadCountMax 6 100 0 = Done true (Reserved, r') /\ limit_wf r'.
Proof.
  destruct (resource_limit_reserve demo_limit ThreadCountMax 6 100 0 demo_limit_wf ltac:(lia)) as (d & r' & E & W & _).
  assert (d = Reserved) as -> by (by injection E as <- _). by exists r'.
Defined.

Lemma resource_limit_reserve_release_witness :
  exists r1 r2, Reserve_enter demo_limit ThreadCountMax 6 100 0 = Done true (Reserved, r1) /\
    Release r1 ThreadCountMax 6 6 = Done true (false, r2) /\ current_at r2 ThreadCountMax = 4.
Proof.
  eexists _, _. split; [reflexivity|]. split; [reflexivity|].
  destruct (resource_limit_reserve_release demo_limit _ ThreadCountMax 6 100 0 demo_limit_wf ltac:(lia) eq_refl)
    as (b & r2 & E & _ & H). injection E as _ <-. apply (H ThreadCountMax).
Defined.

(** A thread asks for 7 more and waits (4 + 7 > 10, but only hints of 3 would remain). *)
Definition demo_hinted : KResourceLimit :=
  mkLimit [0; 10; 0; 0; 0] [0; 4; 0; 0; 0] [0; 3; 0; 0; 0] [0; 7; 0; 0; 0] 0.

Lemma demo_hinted_wf : limit_wf demo_hinted.
Proof. split; [done|]. unfold values_ok, limit_at, current_at, hint_at, peak_at, at_. intros []; simpl; lia. Qed.

Lemma demo_waits :
  step (sys_init demo_hinted) EvNone
    (mkSys (with_waiters demo_hinted 1) [mkWaiter 1 ThreadCountMax 7 100 false]).
Proof.
  apply (step_reserve (sys_init demo_hinted) 1 ThreadCountMax 7 100 0 Waits (with_waiters demo_hinted 1));
    [split; lia|lia|by intros ?%not_elem_of_nil|simpl; lia|reflexivity].
Qed.

(** One thread reserves six, gives the hint back, and another one waits for the value. *)
Definition demo_reserved : KResourceLimit := mkLimit [0; 10; 0; 0; 0] [0; 10; 0; 0; 0] [0; 10; 0; 0; 0] [0; 10; 0; 0; 0] 0.
Definition demo_hint_back : KResourceLimit := mkLimit [0; 10; 0; 0; 0] [0; 10; 0; 0; 0] [0; 4; 0; 0; 0] [0; 10; 0; 0; 0] 0.
Definition demo_run : list event := [] ++ [EvReserved ThreadCountMax 6] ++ [EvReleased ThreadCountMax 0 6] ++ [EvNone].

Lemma demo_steps : steps (sys_init demo_limit) demo_run (mkSys (with_waiters demo_hint_back 1) [mkWaiter 1 ThreadCountMax 5 100 false]).
Proof.
  unfold demo_run. rewrite !app_assoc. apply (steps_snoc _ _ _ (sys_init demo_hint_back)); [apply (steps_snoc _ _ _ (sys_init demo_reserved)); [apply (steps_snoc _ _ _ (sys_init demo_limit)); [constructor|]|]|].
  - by apply (step_reserve (sys_init demo_limit) 0 ThreadCountMax 6 100 0 Reserved demo_reserved); [split; lia|lia|intros ?%not_elem_of_nil|simpl; lia|].
  - by apply (step_release (sys_init demo_reserved) ThreadCountMax 0 6 false demo_hint_back).
  - by apply (step_reserve (sys_init demo_hint_back) 1 ThreadCountMax 5 100 0 Waits (with_waiters demo_hint_back 1)); [split; lia|lia|intros ?%not_elem_of_nil|simpl; lia|].
Qed.

Lemma demo_holders : holders demo_run [mkHolding ThreadCountMax 6 0].
Proof.
  unfold demo_run. rewrite !app_assoc. apply holders_none, (holders_released _ [mkHolding ThreadCountMax 6 6] 0 (mkHolding ThreadCountMax 6 6) (mkHolding ThreadCountMax 6 0) 0 6).
  - apply (holders_reserved [] []), holders_nil.
  - done.
  - by apply (back_hint (mkHolding ThreadCountMax 6 6) 6).
Qed.

Lemma resource_limit_executions_witness :
  exists b r', Release (with_waiters demo_hint_back 1) ThreadCountMax 6 0 = Done true (b, r') /\ current_at (with_waiters demo_hint_back 1) ThreadCountMax = 4 + held_value ThreadCountMax [mkHolding ThreadCountMax 6 0].
Proof.
  destruct (resource_limit_executions demo_limit demo_run _ _ demo_limit_wf eq_refl demo_steps demo_holders) as (_ & H & _ & Hr).
  destruct (Hr 0%nat (mkHolding ThreadCountMax 6 0) 6 0 (mkHolding ThreadCountMax 0 0) eq_refl (back_rest _)) as (b & r' & E). exists b, r'. split; [exact E|]. exact (proj1 (H ThreadCountMax)).
Defined.

Lemma resource_limit_no_lost_wakeup_witness :
  sleepers_blocked (mkSys (with_waiters demo_hinted 1) [mkWaiter 1 ThreadCountMax 7 100 false]).
Proof.
  apply (resource_limit_no_lost_wakeup (sys_init demo_hinted) _ EvNone).
  - split; simpl; (apply demo_hinted_wf || done || constructor).
  - apply demo_waits.
  - intros []; reflexivity || (vm_compute; discriminate).
  - intros w Hw. by apply not_elem_of_nil in Hw.
Defined.

Lemma resource_limit_create_witness :
  exists r, CreateResourceLimitForProcess 0x100000000 = Done true r /\ m_limit_values r = [0x100000000; 800; 900; 200; 1133].
Proof.
  destruct (resource_limit_create 0x100000000 ltac:(lia)) as (r & E & _ & _ & H & _). by exists r.
Defined.

Lemma scoped_reservation_release_witness :
  exists res r1 r2, Reservation_new true demo_limit ThreadCountMax 1 100 0 = Done true (Some res, r1) /\
    Reservation_destroy res r1 = Done true r2 /\ current_at r2 ThreadCountMax = 4.
Proof.
  eexists _, _. destruct (scoped_reservation_release demo_limit _ true ThreadCountMax 1 100 0 _ demo_limit_wf ltac:(lia) eq_refl)
    as ((r2 & E & _ & H) & _). exists r2. split; [reflexivity|]. split; [exact E|]. apply (H ThreadCountMax).
Defined.
