(* ===== verification/KAutoObject.v ===== *)
(** * KAutoObject: src/core/hle/kernel/k_class_token.{h,cpp} and k_auto_object.{h,cpp}

    Reference counted kernel objects and the class tokens that replace run-time type information:
    a token per class, with one bit per base class and a combination of three bits per final
    class, such that derivation is a test on bits. *)

From S2P Require Import Prelude.
From stdpp Require Import gmap.
#[local] Open Scope Z_scope.
#[local] Open Scope cpp_scope.

(** ** Class tokens *)

(** The classes that have a token (those declared with [KERNEL_AUTOOBJECT_TRAITS]). *)
Inductive ObjectType :=
| OT_KAutoObject
| OT_KSynchronizationObject | OT_KReadableEvent
| OT_KDebug | OT_KThread | OT_KServerPort | OT_KServerSession | OT_KClientPort | OT_KClientSession
| OT_KProcess | OT_KResourceLimit | OT_KLightSession | OT_KPort | OT_KSession | OT_KSharedMemory
| OT_KEvent | OT_KLightClientSession | OT_KLightServerSession | OT_KTransferMemory
| OT_KDeviceAddressSpace | OT_KSessionRequest | OT_KCodeMemory | OT_KSystemResource.

#[export] Instance ObjectType_eq_dec : EqDecision ObjectType.
Proof. solve_decision. Defined.

Definition all_classes : list ObjectType :=
  [OT_KAutoObject; OT_KSynchronizationObject; OT_KReadableEvent; OT_KDebug; OT_KThread;
   OT_KServerPort; OT_KServerSession; OT_KClientPort; OT_KClientSession; OT_KProcess;
   OT_KResourceLimit; OT_KLightSession; OT_KPort; OT_KSession; OT_KSharedMemory; OT_KEvent;
   OT_KLightClientSession; OT_KLightServerSession; OT_KTransferMemory; OT_KDeviceAddressSpace;
   OT_KSessionRequest; OT_KCodeMemory; OT_KSystemResource].

(** The values of the enumeration, with its markers. *)
Definition BaseClassesStart : nat := 1.
Definition BaseClassesEnd : nat := 3.
Definition FinalClassesStart : nat := 3.
Definition type_value (c : ObjectType) : nat :=
  match c with
  | OT_KAutoObject => 0
  | OT_KSynchronizationObject => 1 | OT_KReadableEvent => 2
  | OT_KDebug => 4 | OT_KThread => 5 | OT_KServerPort => 6 | OT_KServerSession => 7
  | OT_KClientPort => 8 | OT_KClientSession => 9 | OT_KProcess => 10 | OT_KResourceLimit => 11
  | OT_KLightSession => 12 | OT_KPort => 13 | OT_KSession => 14 | OT_KSharedMemory => 15
  | OT_KEvent => 16 | OT_KLightClientSession => 17 | OT_KLightServerSession => 18
  | OT_KTransferMemory => 19 | OT_KDeviceAddressSpace => 20 | OT_KSessionRequest => 21
  | OT_KCodeMemory => 22 | OT_KSystemResource => 23
  end.

(** The second argument of [KERNEL_AUTOOBJECT_TRAITS] in the header of each class. *)
Definition BaseClass (c : ObjectType) : ObjectType :=
  match c with
  | OT_KReadableEvent | OT_KThread | OT_KServerPort | OT_KServerSession | OT_KClientPort
  | OT_KProcess => OT_KSynchronizationObject
  | _ => OT_KAutoObject
  end.

Definition BaseClassBits : Z := 8.
Definition FinalClassBits : nat := 8.

Definition BaseClassToken (index : nat) : Z := 1 .<< Z.of_nat index.

(** The combinations [i < j < k] in the order the three nested loops visit them. *)
Definition final_combinations : list (nat * nat * nat) :=
  i ← seq 0 FinalClassBits;
  j ← seq (i + 1) (FinalClassBits - (i + 1));
  k ← seq (j + 1) (FinalClassBits - (j + 1));
  [(i, j, k)].
Definition NumFinalClasses : nat := length final_combinations.

Definition FinalClassToken (index : nat) : option Z :=
  match final_combinations !! index with
  | Some (i, j, k) =>
      Some (((1 .<< Z.of_nat i) .| (1 .<< Z.of_nat j) .| (1 .<< Z.of_nat k)) .<< BaseClassBits)
  | None => None
  end.

(** The bits of one class. *)
Definition own_token (c : ObjectType) : option Z :=
  let v := type_value c in
  if bool_decide (v = 0)%nat then Some 0
  else if bool_decide (BaseClassesStart <= v < BaseClassesEnd)%nat
  then Some (BaseClassToken (v - BaseClassesStart))
  else FinalClassToken (v - FinalClassesStart).

(** [GetClassToken]: the recursion over [BaseClass] ends at [KAutoObject]; no class is deeper than
    three below it. *)
Fixpoint GetClassToken (depth : nat) (c : ObjectType) : option Z :=
  match depth with
  | O => None
  | S depth' =>
      if bool_decide (c = OT_KAutoObject) then Some 0
      else t ← own_token c; b ← GetClassToken depth' (BaseClass c); Some (t .| b)
  end.
Definition ClassToken (c : ObjectType) : Z := default 0 (GetClassToken 4 c).

Definition IsClassTokenDerivedFrom (self base : Z) : bool := (self .| base) =? self.

(** Class derivation itself. *)
Inductive derives : ObjectType -> ObjectType -> Prop :=
| derives_refl c : derives c c
| derives_base c d : c <> OT_KAutoObject -> derives (BaseClass c) d -> derives c d.

(** ** Objects *)

(** [destroyed] records that [Destroy] and [UnregisterWithKernel] have run. *)
Record KAutoObject := mkObject { m_ref_count : Z; m_class_token : Z; destroyed : bool }.

(** [Create]: one reference, and the token of the dynamic type. *)
Definition Create (c : ObjectType) : KAutoObject := mkObject 1 (ClassToken c) false.

Definition GetReferenceCount (o : KAutoObject) : Z := m_ref_count o.
Definition IsDerivedFrom (o : KAutoObject) (c : ObjectType) : bool :=
  IsClassTokenDerivedFrom (m_class_token o) (ClassToken c).

(** [Open] and [Close] are compare-and-exchange loops on one atomic counter: each takes effect in
    one step.  [Close] of the last reference destroys the object. *)
Definition Open (o : KAutoObject) : outcome (bool * KAutoObject) :=
  if m_ref_count o =? 0 then mret (false, o)
  else
    ASSERT (m_ref_count o <? u32 (m_ref_count o + 1));;
    mret (true, mkObject (u32 (m_ref_count o + 1)) (m_class_token o) (destroyed o)).

Definition Close (o : KAutoObject) : outcome KAutoObject :=
  if m_ref_count o =? 0 then mret o
  else
    ASSERT (0 <? m_ref_count o);;
    mret (mkObject (u32 (m_ref_count o - 1)) (m_class_token o)
            (destroyed o || (m_ref_count o =? 1))).

(** Objects by address; 0 is the null pointer, and using a pointer to no object is undefined. *)
Notation store := (gmap Z KAutoObject).
Definition deref (st : store) (p : Z) : outcome KAutoObject :=
  match st !! p with Some o => mret o | None => Undef end.
Definition open_object (st : store) (p : Z) : outcome (bool * store) :=
  o ← deref st p; '(b, o) ← Open o; mret (b, <[p := o]> st).
Definition close_object (st : store) (p : Z) : outcome store :=
  o ← deref st p; o ← Close o; mret (<[p := o]> st).

(** [DynamicCast<T*>]: the same pointer, or null. *)
Definition DynamicCast (st : store) (p : Z) (c : ObjectType) : outcome Z :=
  o ← deref st p; mret (if IsDerivedFrom o c then p else 0).

(** An object is alive while it is referenced, and destroyed when the count reaches zero. *)
Definition object_wf (o : KAutoObject) : Prop :=
  0 <= m_ref_count o < 2 ^ 32 /\ destroyed o = (m_ref_count o =? 0).

(** ** Lemmas *)

Lemma all_classes_complete c : c ∈ all_classes.
Proof. destruct c; unfold all_classes; repeat first [apply list_elem_of_here | apply list_elem_of_further]. Qed.

(** The ancestors of a class, itself included. *)
Definition ancestors (c : ObjectType) : list ObjectType :=
  c :: (if bool_decide (c = OT_KAutoObject) then []
        else BaseClass c :: (if bool_decide (BaseClass c = OT_KAutoObject) then [] else [BaseClass (BaseClass c)])).

Lemma derives_ancestors c d : derives c d <-> d ∈ ancestors c.
Proof.
  split.
  - induction 1 as [c|c d Hc H IH]; [apply list_elem_of_here|].
    unfold ancestors. rewrite bool_decide_false by done. apply list_elem_of_further.
    destruct c; done || (simpl in *; unfold ancestors in IH; simpl in IH; exact IH).
  - assert (forall c, c <> OT_KAutoObject -> derives c (BaseClass c)) as Hb
      by (intros; apply derives_base; [done|apply derives_refl]).
    assert (derives OT_KSynchronizationObject OT_KAutoObject) as Hs by by apply (Hb OT_KSynchronizationObject).
    intros H. destruct c; unfold ancestors in H; simpl in H;
      repeat (apply elem_of_cons in H as [->|H]); try (by apply not_elem_of_nil in H); try apply derives_refl;
      first [by apply (Hb _) | by apply Hb | apply derives_base; [done|by apply Hb || apply Hs]].
Qed.

Lemma tokens_ok :
  forallb (fun c => forallb (fun d =>
    eqb (IsClassTokenDerivedFrom (ClassToken c) (ClassToken d)) (bool_decide (d ∈ ancestors c))) all_classes)
    all_classes = true.
Proof. vm_compute. reflexivity. Qed.

Lemma Open_spec o :
  object_wf o -> m_ref_count o < 2 ^ 32 - 1 ->
  exists o', Open o = Done true (negb (m_ref_count o =? 0), o') /\ object_wf o' /\
    m_class_token o' = m_class_token o /\
    m_ref_count o' = (if m_ref_count o =? 0 then 0 else m_ref_count o + 1).
Proof.
  intros [Hr Hd] Hm. unfold Open. destruct (Z.eqb_spec (m_ref_count o) 0) as [E|E].
  - exists o. split; [done|]. split; [split; [exact Hr|by rewrite Hd, E]|]. split; [done|lia].
  - rewrite u32_small by lia. rewrite bind_assert_true by (apply Z.ltb_lt; lia).
    eexists. split; [done|]. unfold object_wf. simpl. rewrite Hd.
    split_and!; (done || lia).
Qed.

Lemma Close_spec o :
  object_wf o ->
  exists o', Close o = Done true o' /\ object_wf o' /\ m_class_token o' = m_class_token o /\
    m_ref_count o' = Z.max 0 (m_ref_count o - 1).
Proof.
  intros [Hr Hd]. unfold Close. destruct (Z.eqb_spec (m_ref_count o) 0) as [E|E].
  - exists o. split; [done|]. split; [split; [exact Hr|by rewrite Hd, E]|]. split; [done|lia].
  - rewrite bind_assert_true by (apply Z.ltb_lt; lia). rewrite u32_small by lia.
    eexists. split; [done|]. unfold object_wf. simpl. rewrite Hd.
    split_and!; (done || lia).
Qed.

(** ** The properties *)

(** The bit test on class tokens decides derivation: the token of [c] contains the token of [d]
    exactly when [d] is [c] or one of its base classes, for every pair of classes; in particular
    no two classes share a token. *)
Theorem class_token_hierarchy (c d : ObjectType) :
  IsClassTokenDerivedFrom (ClassToken c) (ClassToken d) = true <-> derives c d.
Proof.
  rewrite derives_ancestors. pose proof tokens_ok as H. rewrite forallb_forall in H.
  specialize (H c (proj1 (list_elem_of_In _ _) (all_classes_complete c))). rewrite forallb_forall in H.
  specialize (H d (proj1 (list_elem_of_In _ _) (all_classes_complete d))). apply eqb_prop in H.
  rewrite H. apply bool_decide_eq_true.
Qed.

(** The absolute token values are the ones the static assertions of k_class_token.cpp list. *)
Theorem class_token_values :
  map ClassToken [OT_KAutoObject; OT_KSynchronizationObject; OT_KReadableEvent; OT_KThread; OT_KServerPort;
    OT_KServerSession; OT_KClientPort; OT_KClientSession; OT_KProcess; OT_KResourceLimit; OT_KPort; OT_KSession;
    OT_KSharedMemory; OT_KEvent; OT_KTransferMemory; OT_KCodeMemory] =
  [0x0000; 0x0001; 0x0003; 0x1301; 0x2301; 0x4301; 0x8301; 0x0D00; 0x1501; 0x2500; 0x8500; 0x1900; 0x2900;
   0x4900; 0x5100; 0xA100].
Proof. vm_compute. reflexivity. Qed.

(** A sequence of [Open]s (true) and [Close]s (false), with the answer of each [Open]. *)
Fixpoint run_refs (ops : list bool) (o : KAutoObject) : outcome (list bool * KAutoObject) :=
  match ops with
  | [] => mret ([], o)
  | true :: ops => '(b, o) ← Open o; '(bs, o) ← run_refs ops o; mret (b :: bs, o)
  | false :: ops => o ← Close o; run_refs ops o
  end.

(** An object is destroyed exactly when its last reference is closed, and never comes back: in
    every sequence of [Open]s and [Close]s on a destroyed object each [Open] fails and the count
    stays zero, and along any sequence the object is destroyed exactly when its count is zero. *)
Theorem auto_object_never_revived (ops : list bool) (o : KAutoObject) :
  object_wf o -> m_ref_count o + Z.of_nat (length ops) < 2 ^ 32 ->
  exists bs o', run_refs ops o = Done true (bs, o') /\ object_wf o' /\
    (destroyed o = true -> o' = o /\ Forall (fun b => b = false) bs).
Proof.
  revert o. induction ops as [|[] ops IH]; intros o W Hb; simpl in *.
  - exists [], o. done.
  - destruct (Open_spec o W ltac:(lia)) as (o1 & E & W1 & T1 & R1). rewrite E. ostep.
    destruct (IH o1 W1) as (bs & o2 & E2 & W2 & H2); [pose proof (proj1 W); rewrite R1; destruct (m_ref_count o =? 0); lia|]. rewrite E2. ostep.
    eexists _, o2. split; [done|]. split; [done|]. intros Hd. pose proof W as [Hr Hd']. rewrite Hd in Hd'. symmetry in Hd'.
    unfold Open in E. rewrite Hd' in E |- *. injection E as <-. destruct (H2 Hd) as [-> Hf]. split; [done|]. by constructor.
  - destruct (Close_spec o W) as (o1 & E & W1 & T1 & R1). rewrite E. ostep. pose proof W as [Hr Hd'].
    destruct (IH o1 W1) as (bs & o2 & E2 & W2 & H2); [lia|]. exists bs, o2. split; [done|]. split; [done|].
    intros Hd. rewrite Hd in Hd'. symmetry in Hd'. unfold Close in E. rewrite Hd' in E. injection E as <-. by apply H2.
Qed.

Lemma auto_object_never_revived_witness :
  exists bs o', run_refs [true; false; true] (mkObject 0 0 true) = Done true (bs, o') /\ bs = [false; false].
Proof.
  destruct (auto_object_never_revived [true; false; true] (mkObject 0 0 true)) as (bs & o' & E & _ & _);
    [by split|simpl; lia|]. exists bs, o'. split; [exact E|]. by injection E as <- _.
Defined.
