(* ===== verification/KHandleTable.v ===== *)
(** * KHandleTable: src/core/hle/kernel/k_handle_table.{h,cpp}

    The table that gives a process handles to kernel objects.  A slot's 16-bit entry is a union: the
    linear id of a live handle, or the index of the next free slot.  The theorems show the table
    refines a map from handles to objects, whatever the free list looks like. *)

From S2P Require Import Prelude BitField KAutoObject.
From stdpp Require Import gmap.
#[local] Open Scope Z_scope.
#[local] Open Scope cpp_scope.

(** ** Handles *)

Definition index : BitField := mkField 0 15 32.
Definition linear_id : BitField := mkField 15 15 32.
Definition reserved : BitField := mkField 30 2 32.

Definition EncodeHandle (index_ linear_id_ : Z) : Z :=
  let handle := Assign index 0 index_ in
  let handle := Assign linear_id handle linear_id_ in
  Assign reserved handle 0.

Definition CurrentThread : Z := 0xFFFF8000.
Definition CurrentProcess : Z := 0xFFFF8001.
Definition IsPseudoHandle (handle : Z) : bool := (handle =? CurrentProcess) || (handle =? CurrentThread).

(** ** The table *)

Definition MaxTableSize : Z := 1024.
Definition MinLinearId : Z := 1.
Definition MaxLinearId : Z := 0x7FFF.

(** [EntryInfo] is a 16-bit pattern read as [linear_id] or, signed, as [next_free_index]. *)
Definition GetLinearId (e : Z) : Z := e.
Definition GetNextFreeIndex (e : Z) : Z := s16 e.
Definition set_next_free_index (v : Z) : Z := u16 v.

Record KHandleTable := mkTable {
  m_entry_infos : list Z;
  m_objects : list Z;
  m_free_head_index : Z;
  m_table_size : Z;
  m_max_count : Z;
  m_next_linear_id : Z;
  m_count : Z
}.

(** The loop of [Initialize]: [n] slots are left, [i] is next. *)
Fixpoint Initialize_loop (n : nat) (i : Z) (t : KHandleTable) : outcome KHandleTable :=
  match n with
  | O => mret t
  | S n' =>
      objects ← arr_set (m_objects t) i 0;
      infos ← arr_set (m_entry_infos t) i (set_next_free_index (s16 (i - 1)));
      Initialize_loop n' (i + 1)
        (mkTable infos objects i (m_table_size t) (m_max_count t) (m_next_linear_id t) (m_count t))
  end.

Definition Initialize (t : KHandleTable) (size : Z) : outcome (Z * KHandleTable) :=
  if negb (size <=? MaxTableSize) then mret (ResultOutOfMemory, t)
  else
    let table_size := u16 (s16 (if size <=? 0 then MaxTableSize else size)) in
    t ← Initialize_loop (Z.to_nat table_size) 0
          (mkTable (m_entry_infos t) (m_objects t) (-1) table_size 0 MinLinearId 0);
    mret (ResultSuccess, t).

Definition GetTableSize (t : KHandleTable) : Z := m_table_size t.
Definition GetCount (t : KHandleTable) : Z := m_count t.
Definition GetMaxCount (t : KHandleTable) : Z := m_max_count t.

Definition AllocateEntry (t : KHandleTable) : outcome (Z * KHandleTable) :=
  ASSERT (m_count t <? m_table_size t);;
  let index_ := m_free_head_index t in
  e ← arr_get (m_entry_infos t) index_;
  let count := u16 (m_count t + 1) in
  mret (index_, mkTable (m_entry_infos t) (m_objects t) (GetNextFreeIndex e) (m_table_size t)
                  (Z.max (m_max_count t) count) (m_next_linear_id t) count).

Definition FreeEntry (t : KHandleTable) (index_ : Z) : outcome KHandleTable :=
  ASSERT (0 <? m_count t);;
  objects ← arr_set (m_objects t) index_ 0;
  infos ← arr_set (m_entry_infos t) index_ (set_next_free_index (s16 (m_free_head_index t)));
  mret (mkTable infos objects index_ (m_table_size t) (m_max_count t) (m_next_linear_id t)
          (u16 (m_count t - 1))).

Definition AllocateLinearId (t : KHandleTable) : Z * KHandleTable :=
  let id := m_next_linear_id t in
  let next := u16 (id + 1) in
  let next := if MaxLinearId <? next then MinLinearId else next in
  (id, mkTable (m_entry_infos t) (m_objects t) (m_free_head_index t) (m_table_size t) (m_max_count t)
         next (m_count t)).

Definition IsValidHandle (t : KHandleTable) (handle : Z) : outcome bool :=
  let raw_value := handle in
  let index_ := ExtractValue index handle in
  let linear_id_ := ExtractValue linear_id handle in
  ASSERT (ExtractValue reserved handle =? 0);;
  if raw_value =? 0 then mret false
  else if linear_id_ =? 0 then mret false
  else if m_table_size t <=? index_ then mret false
  else
    obj ← arr_get (m_objects t) index_;
    if obj =? 0 then mret false
    else
      e ← arr_get (m_entry_infos t) index_;
      if negb (GetLinearId e =? linear_id_) then mret false else mret true.

Definition GetObjectImpl (t : KHandleTable) (handle : Z) : outcome Z :=
  if negb (ExtractValue reserved handle =? 0) then mret 0
  else
    valid ← IsValidHandle t handle;
    if valid : bool then arr_get (m_objects t) (ExtractValue index handle) else mret 0.

Definition GetObjectByIndexImpl (t : KHandleTable) (index_ : Z) : outcome (option Z * Z) :=
  if m_table_size t <=? index_ then mret (None, 0)
  else
    obj ← arr_get (m_objects t) index_;
    if negb (obj =? 0) then
      e ← arr_get (m_entry_infos t) index_;
      mret (Some (EncodeHandle (u16 index_) (GetLinearId e)), obj)
    else mret (None, 0).

(** A [KScopedAutoObject] holds a reference to what it points to. *)
Definition scoped (st : store) (p : Z) : outcome (Z * store) :=
  if p =? 0 then mret (0, st) else '(_, st) ← open_object st p; mret (p, st).

Definition GetObjectWithoutPseudoHandle (T : ObjectType) (t : KHandleTable) (st : store) (handle : Z) :
    outcome (Z * store) :=
  obj ← GetObjectImpl t handle;
  if bool_decide (T = OT_KAutoObject) then scoped st obj
  else if obj =? 0 then mret (0, st)
  else p ← DynamicCast st obj T; scoped st p.

Definition GetObject (T : ObjectType) (t : KHandleTable) (st : store) (cur_process cur_thread handle : Z) :
    outcome (Z * store) :=
  if IsClassTokenDerivedFrom (ClassToken OT_KProcess) (ClassToken T) then
    if handle =? CurrentProcess
    then ASSERT (negb (cur_process =? 0));; scoped st cur_process
    else GetObjectWithoutPseudoHandle T t st handle
  else if IsClassTokenDerivedFrom (ClassToken OT_KThread) (ClassToken T) then
    if handle =? CurrentThread
    then ASSERT (negb (cur_thread =? 0));; scoped st cur_thread
    else GetObjectWithoutPseudoHandle T t st handle
  else GetObjectWithoutPseudoHandle T t st handle.

Definition GetObjectForIpc (t : KHandleTable) (st : store) (cur_thread owner_process handle : Z) :
    outcome (Z * store) :=
  ASSERT (negb (cur_thread =? 0));;
  if handle =? CurrentProcess then ASSERT (negb (owner_process =? 0));; scoped st owner_process
  else if handle =? CurrentThread then scoped st cur_thread
  else obj ← GetObjectImpl t handle; scoped st obj.

(** The objects [KernelCore] lists as in use. *)
Definition UnregisterInUseObject (in_use : gset Z) (p : Z) : gset Z := in_use ∖ {[p]}.

Fixpoint Finalize_loop (n : nat) (i : Z) (objects : list Z) (st : store) : outcome store :=
  match n with
  | O => mret st
  | S n' =>
      obj ← arr_get objects i;
      st ← (if negb (obj =? 0) then close_object st obj else mret st);
      Finalize_loop n' (i + 1) objects st
  end.
Definition Finalize (t : KHandleTable) (st : store) : outcome (KHandleTable * store) :=
  let saved_table_size := m_table_size t in
  let t := mkTable (m_entry_infos t) (m_objects t) (m_free_head_index t) 0 (m_max_count t)
             (m_next_linear_id t) (m_count t) in
  st ← Finalize_loop (Z.to_nat saved_table_size) 0 (m_objects t) st;
  mret (t, st).

Definition Remove (t : KHandleTable) (st : store) (in_use : gset Z) (handle : Z) :
    outcome (bool * KHandleTable * store * gset Z) :=
  if IsPseudoHandle handle then mret (false, t, st, in_use)
  else if negb (ExtractValue reserved handle =? 0) then mret (false, t, st, in_use)
  else
    valid ← IsValidHandle t handle;
    if valid : bool then
      let index_ := ExtractValue index handle in
      obj ← arr_get (m_objects t) index_;
      t ← FreeEntry t index_;
      let in_use := UnregisterInUseObject in_use obj in
      st ← close_object st obj;
      mret (true, t, st, in_use)
    else mret (false, t, st, in_use).

Definition with_entry (t : KHandleTable) (infos objects : list Z) : KHandleTable :=
  mkTable infos objects (m_free_head_index t) (m_table_size t) (m_max_count t) (m_next_linear_id t) (m_count t).

(** [Add] and [Reserve] write the handle only on success. *)
Definition Add (t : KHandleTable) (st : store) (obj : Z) :
    outcome (Z * option Z * KHandleTable * store) :=
  if negb (m_count t <? m_table_size t) then mret (ResultOutOfHandles, None, t, st)
  else
    let '(id, t) := AllocateLinearId t in
    '(index_, t) ← AllocateEntry t;
    infos ← arr_set (m_entry_infos t) index_ id;
    objects ← arr_set (m_objects t) index_ obj;
    '(_, st) ← open_object st obj;
    mret (ResultSuccess, Some (EncodeHandle (u16 index_) id), with_entry t infos objects, st).

Definition Reserve (t : KHandleTable) : outcome (Z * option Z * KHandleTable) :=
  if negb (m_count t <? m_table_size t) then mret (ResultOutOfHandles, None, t)
  else
    '(index_, t) ← AllocateEntry t;
    let '(id, t) := AllocateLinearId t in
    mret (ResultSuccess, Some (EncodeHandle (u16 index_) id), t).

Definition Unreserve (t : KHandleTable) (handle : Z) : outcome KHandleTable :=
  let index_ := ExtractValue index handle in
  ASSERT (ExtractValue reserved handle =? 0);;
  ASSERT (negb (ExtractValue linear_id handle =? 0));;
  if index_ <? m_table_size t then
    obj ← arr_get (m_objects t) index_;
    ASSERT (obj =? 0);;
    FreeEntry t index_
  else mret t.

Definition Register (t : KHandleTable) (st : store) (handle obj : Z) : outcome (KHandleTable * store) :=
  let index_ := ExtractValue index handle in
  let linear_id_ := ExtractValue linear_id handle in
  ASSERT (ExtractValue reserved handle =? 0);;
  ASSERT (negb (linear_id_ =? 0));;
  if index_ <? m_table_size t then
    old ← arr_get (m_objects t) index_;
    ASSERT (old =? 0);;
    infos ← arr_set (m_entry_infos t) index_ (u16 linear_id_);
    objects ← arr_set (m_objects t) index_ obj;
    '(_, st) ← open_object st obj;
    mret (with_entry t infos objects, st)
  else mret (t, st).

(** [GetMultipleObjects]: the pointers opened so far, and whether all handles were converted. *)
Fixpoint open_multiple (T : ObjectType) (t : KHandleTable) (st : store) (handles : list Z) (out : list Z) :
    outcome (list Z * bool * store) :=
  match handles with
  | [] => mret (out, true, st)
  | cur_handle :: rest =>
      cur_object ← GetObjectImpl t cur_handle;
      if cur_object =? 0 then mret (out, false, st)
      else
        cur_t ← DynamicCast st cur_object T;
        if cur_t =? 0 then mret (out, false, st)
        else
          '(_, st) ← open_object st cur_t;
          open_multiple T t st rest (out ++ [cur_t])
  end.
Fixpoint close_all (st : store) (out : list Z) : outcome store :=
  match out with [] => mret st | p :: rest => st ← close_object st p; close_all st rest end.
Definition GetMultipleObjects (T : ObjectType) (t : KHandleTable) (st : store) (handles : list Z) :
    outcome (bool * list Z * store) :=
  '(out, ok, st) ← open_multiple T t st handles [];
  if ok : bool then mret (true, out, st)
  else st ← close_all st out; mret (false, out, st).

#[local] Arguments EncodeHandle : simpl never.

Ltac tsimpl :=
  cbn [m_entry_infos m_objects m_table_size m_count m_next_linear_id m_free_head_index m_max_count with_entry].

(** ** Handles: encoding *)

Lemma index_ok : field_ok index.
Proof. by split_and!. Qed.
Lemma linear_id_ok : field_ok linear_id.
Proof. by split_and!. Qed.
Lemma reserved_ok : field_ok reserved.
Proof. by split_and!. Qed.
#[local] Hint Resolve index_ok linear_id_ok reserved_ok : core.

Lemma testbit_EncodeHandle i l b :
  0 <= b ->
  Z.testbit (EncodeHandle i l) b =
    if b <? 15 then Z.testbit i b else if b <? 30 then Z.testbit l (b - 15) else false.
Proof.
  intros Hb. unfold EncodeHandle. rewrite !testbit_Assign by done. simpl position. simpl bits. simpl width.
  rewrite !Z.bits_0, ?Z.sub_0_r.
  destruct (Z.ltb_spec b 15), (Z.ltb_spec b 30), (Z.leb_spec 30 b), (Z.ltb_spec b (30 + 2)), (Z.leb_spec 15 b),
    (Z.ltb_spec b (15 + 15)), (Z.leb_spec 0 b), (Z.ltb_spec b (0 + 15)), (Z.ltb_spec b 32); simpl; (done || lia).
Qed.

Lemma EncodeHandle_fields i l :
  in_u 15 i -> in_u 15 l ->
  ExtractValue index (EncodeHandle i l) = i /\ ExtractValue linear_id (EncodeHandle i l) = l /\
  ExtractValue reserved (EncodeHandle i l) = 0 /\ in_u 32 (EncodeHandle i l).
Proof.
  intros Hi Hl. split_and!.
  - apply Z.bits_inj'. intros b Hb. rewrite testbit_ExtractValue, testbit_EncodeHandle by (done || simpl; lia).
    simpl position. simpl bits. rewrite Z.add_0_r. destruct (Z.ltb_spec b 15); simpl; [done|].
    by rewrite (testbit_above 15 i) by (done || lia).
  - apply Z.bits_inj'. intros b Hb. rewrite testbit_ExtractValue, testbit_EncodeHandle by (done || simpl; lia).
    simpl position. simpl bits. destruct (Z.ltb_spec b 15), (Z.ltb_spec (b + 15) 15), (Z.ltb_spec (b + 15) 30); simpl; try lia.
    + f_equal. lia.
    + by rewrite (testbit_above 15 l) by (done || lia).
  - apply zero_of_bits. intros b Hb. rewrite testbit_ExtractValue, testbit_EncodeHandle by (done || simpl; lia).
    simpl position. simpl bits. destruct (Z.ltb_spec (b + 30) 15), (Z.ltb_spec (b + 30) 30); try lia.
  - apply in_u_of_bits; [lia| |].
    + unfold EncodeHandle, Assign. rewrite !Z.lor_nonneg, !Z.land_nonneg. unfold FormatValue. rewrite !Z.land_nonneg.
      pose proof (mask_range index index_ok). pose proof (mask_range linear_id linear_id_ok). pose proof (mask_range reserved reserved_ok).
      unfold in_u in *. tauto.
    + intros b Hb. rewrite testbit_EncodeHandle by lia.
      destruct (Z.ltb_spec b 15), (Z.ltb_spec b 30); (done || lia).
Qed.

Lemma handle_decompose h :
  in_u 32 h -> ExtractValue reserved h = 0 ->
  h = EncodeHandle (ExtractValue index h) (ExtractValue linear_id h).
Proof.
  intros Hh Hr. apply Z.bits_inj'. intros b Hb. rewrite testbit_EncodeHandle by done.
  destruct (Z.ltb_spec b 15); [|destruct (Z.ltb_spec b 30)].
  - rewrite testbit_ExtractValue by done. simpl. rewrite Z.add_0_r. by destruct (Z.ltb_spec b 15); [|lia].
  - rewrite testbit_ExtractValue by (done || lia). simpl. replace (b - 15 + 15) with b by lia.
    by destruct (Z.ltb_spec (b - 15) 15); [|lia].
  - destruct (Z_lt_le_dec b 32); [|by apply (testbit_above 32)].
    pose proof (testbit_ExtractValue reserved h (b - 30) reserved_ok ltac:(lia)) as E. rewrite Hr, Z.bits_0 in E.
    simpl in E. replace (b - 30 + 30) with b in E by lia. destruct (Z.ltb_spec (b - 30) 2); [done|lia].
Qed.

Lemma field_range f h : field_ok f -> 0 <= h -> 0 <= ExtractValue f h < 2 ^ bits f.
Proof.
  intros Hf Hh. pose proof Hf as (H1 & H2 & H3).
  apply (in_u_of_bits (bits f)); [lia|by apply ExtractValue_nonneg|].
  intros i Hi. rewrite testbit_ExtractValue by (done || lia). destruct (Z.ltb_spec i (bits f)); [lia|done].
Qed.

(** ** The invariant *)

(** The free list as the entries link it from [head]. *)
Fixpoint chain (infos : list Z) (head : Z) (fl : list Z) : Prop :=
  match fl with
  | [] => head = -1
  | i :: fl' => head = i /\ exists e, infos !! Z.to_nat i = Some e /\ chain infos (GetNextFreeIndex e) fl'
  end.

Record table_inv (t : KHandleTable) (fl : list Z) : Prop := {
  ti_infos : length (m_entry_infos t) = 1024%nat;
  ti_objects : length (m_objects t) = 1024%nat;
  ti_size : 0 <= m_table_size t <= 1024;
  ti_count : m_count t = m_table_size t - Z.of_nat (length fl);
  ti_max : m_count t <= m_max_count t <= m_table_size t;
  ti_next : MinLinearId <= m_next_linear_id t <= MaxLinearId;
  ti_chain : chain (m_entry_infos t) (m_free_head_index t) fl;
  ti_free i : i ∈ fl -> 0 <= i < m_table_size t /\ m_objects t !! Z.to_nat i = Some 0;
  ti_nodup : NoDup fl;
  ti_live i o : 0 <= i < m_table_size t -> m_objects t !! Z.to_nat i = Some o -> o <> 0 ->
    exists e, m_entry_infos t !! Z.to_nat i = Some e /\ MinLinearId <= e <= MaxLinearId
}.

Definition table_wf (t : KHandleTable) : Prop := exists fl, table_inv t fl.

(** The map from handles to objects the table stands for; 0 means none. *)
Definition lookup_handle (t : KHandleTable) (h : Z) : Z :=
  let i := ExtractValue index h in
  if (ExtractValue reserved h =? 0) && negb (ExtractValue linear_id h =? 0) && (i <? m_table_size t)
     && (default 0 (m_entry_infos t !! Z.to_nat i) =? ExtractValue linear_id h)
  then default 0 (m_objects t !! Z.to_nat i) else 0.

Lemma GetObjectImpl_eq t h :
  table_wf t -> in_u 32 h -> GetObjectImpl t h = Done true (lookup_handle t h).
Proof.
  intros [fl W] Hh. pose proof (field_range index h index_ok ltac:(unfold in_u in Hh; lia)) as Hi. simpl in Hi.
  pose proof (ti_size _ _ W) as Hs. unfold GetObjectImpl, IsValidHandle, lookup_handle.
  destruct (Z.eqb_spec (ExtractValue reserved h) 0) as [Hr|Hr]; simpl; [|done].
  destruct (Z.eqb_spec h 0) as [->|Hh0]; simpl; [done|].
  destruct (Z.eqb_spec (ExtractValue linear_id h) 0) as [Hl|Hl]; simpl; [done|].
  destruct (Z.leb_spec (m_table_size t) (ExtractValue index h)) as [Hge|Hlt], (Z.ltb_spec (ExtractValue index h) (m_table_size t)); simpl; try (done || lia).
  destruct (arr_get_lt (m_objects t) (ExtractValue index h)) as (o & Eo & Lo); [rewrite (ti_objects _ _ W); lia|].
  destruct (arr_get_lt (m_entry_infos t) (ExtractValue index h)) as (e & Ee & Le); [rewrite (ti_infos _ _ W); lia|].
  rewrite Eo, Ee, Lo, Le. rewrite !bind_ret. simpl.
  destruct (Z.eqb_spec o 0) as [->|Ho]; simpl; [by destruct (_ =? _)|]. unfold GetLinearId.
  by destruct (Z.eqb_spec e (ExtractValue linear_id h)).
Qed.

(** Two tables that agree outside one slot. *)
Lemma lookup_handle_other t t' i h :
  m_table_size t' = m_table_size t -> ExtractValue index h <> i -> 0 <= i -> 0 <= ExtractValue index h ->
  (forall j, j <> Z.to_nat i -> m_entry_infos t' !! j = m_entry_infos t !! j /\ m_objects t' !! j = m_objects t !! j) ->
  lookup_handle t' h = lookup_handle t h.
Proof.
  intros Es Hne Hi Hx Hj. unfold lookup_handle. rewrite Es.
  destruct (Hj (Z.to_nat (ExtractValue index h))) as [-> ->]; [lia|]. done.
Qed.

Lemma lookup_handle_null t h :
  m_objects t !! Z.to_nat (ExtractValue index h) = Some 0 -> lookup_handle t h = 0.
Proof. intros E. unfold lookup_handle. rewrite E. by destruct (_ && _). Qed.

Lemma chain_insert_other infos head fl i e :
  i ∉ fl -> (forall j, j ∈ fl -> 0 <= j) -> 0 <= i ->
  chain infos head fl -> chain (<[Z.to_nat i := e]> infos) head fl.
Proof.
  revert head. induction fl as [|j fl IH]; intros head Hn Hp Hi; [done|]. simpl.
  intros (-> & e' & He & Hc). apply not_elem_of_cons in Hn as [Hne Hn]. split; [done|]. exists e'.
  pose proof (Hp j (list_elem_of_here _ _)). rewrite list_lookup_insert_ne by lia. split; [done|].
  apply IH; try done. intros k Hk. apply Hp. by right.
Qed.

Lemma chain_nonneg t fl i : table_inv t fl -> i ∈ fl -> 0 <= i < 1024.
Proof. intros W Hi. pose proof (ti_free _ _ W i Hi). pose proof (ti_size _ _ W). lia. Qed.

(** ** Slots *)

Lemma next_free_roundtrip h : -1 <= h < 1024 -> GetNextFreeIndex (set_next_free_index (s16 h)) = h.
Proof.
  intros Hh. unfold GetNextFreeIndex, set_next_free_index.
  assert (s16 h = h) as -> by (apply wraps_small; [lia|unfold in_s; lia]). unfold s16, wraps, u16, wrapu. destruct (Z_lt_le_dec h 0).
  - assert (h = -1) as -> by lia. reflexivity.
  - rewrite (Z.mod_small h), (Z.mod_small h) by lia. by destruct (Z.ltb_spec h (2 ^ (16 - 1))); [|lia].
Qed.

Lemma chain_head t fl : table_inv t fl -> -1 <= m_free_head_index t < 1024.
Proof.
  intros W. pose proof (ti_chain _ _ W) as Hc. destruct fl as [|i fl]; simpl in Hc; [lia|].
  destruct Hc as [-> _]. pose proof (chain_nonneg t _ i W (list_elem_of_here _ _)). lia.
Qed.

(** At most [n] distinct slots below [n]. *)
Lemma nodup_bound (l : list Z) n : 0 <= n -> NoDup l -> (forall x, x ∈ l -> 0 <= x < n) -> Z.of_nat (length l) <= n.
Proof.
  intros Hn Hd Hb. assert (NoDup (Z.to_nat <$> l)) as Hd'.
  { clear Hn. induction Hd as [|x l Hx Hd IH]; [constructor|]. constructor; [|apply IH; intros; apply Hb; by right].
    intros (y & Ey & Hy)%list_elem_of_fmap. apply Hx. pose proof (Hb x (list_elem_of_here _ _)).
    pose proof (Hb y ltac:(by right)). by replace x with y by lia. }
  assert (length (Z.to_nat <$> l) <= length (seq 0 (Z.to_nat n)))%nat as Hle.
  { apply submseteq_length, NoDup_submseteq; [done|]. intros k (y & -> & Hy)%list_elem_of_fmap.
    pose proof (Hb y Hy). apply elem_of_seq. lia. }
  rewrite length_fmap, length_seq in Hle. lia.
Qed.

Lemma AllocateEntry_spec t i fl :
  table_inv t (i :: fl) ->
  exists t1, AllocateEntry t = Done true (i, t1) /\ table_inv t1 fl /\ i ∉ fl /\ 0 <= i < m_table_size t /\
    m_objects t !! Z.to_nat i = Some 0 /\ m_entry_infos t1 = m_entry_infos t /\ m_objects t1 = m_objects t /\
    m_table_size t1 = m_table_size t /\ m_next_linear_id t1 = m_next_linear_id t /\ m_count t1 = m_count t + 1.
Proof.
  intros W. pose proof (ti_count _ _ W) as Hc. simpl in Hc. pose proof (ti_size _ _ W). pose proof (ti_max _ _ W).
  pose proof (ti_chain _ _ W) as (Hh & e & He & Hch). pose proof (ti_nodup _ _ W) as Hnd.
  apply list.NoDup_cons in Hnd as [Hi Hnd]. destruct (ti_free _ _ W i (list_elem_of_here _ _)) as [Hr Ho].
  pose proof (nodup_bound (i :: fl) (m_table_size t) ltac:(lia) (ti_nodup _ _ W)
    (fun x Hx => proj1 (ti_free _ _ W x Hx))) as Hb. simpl in Hb.
  unfold AllocateEntry. rewrite bind_assert_true by (apply Z.ltb_lt; lia). rewrite Hh.
  rewrite (arr_get_Some _ _ e) by (done || lia). ostep. rewrite u16_small by lia.
  eexists. split; [done|]. split; [|split_and!; (done || lia)].
  split; simpl; try apply W; try done; try lia. intros j Hj. apply (ti_free _ _ W). by right.
Qed.

Lemma FreeEntry_spec t fl i :
  table_inv t fl -> i ∉ fl -> 0 <= i < m_table_size t ->
  exists t', FreeEntry t i = Done true t' /\ table_inv t' (i :: fl) /\ m_table_size t' = m_table_size t /\
    m_next_linear_id t' = m_next_linear_id t /\ m_count t' = m_count t - 1 /\
    m_objects t' !! Z.to_nat i = Some 0 /\
    forall j, j <> Z.to_nat i -> m_entry_infos t' !! j = m_entry_infos t !! j /\ m_objects t' !! j = m_objects t !! j.
Proof.
  intros W Hi Hr. pose proof (ti_size _ _ W) as Hs. pose proof (ti_infos _ _ W). pose proof (ti_objects _ _ W).
  pose proof (ti_count _ _ W) as Hc. pose proof (ti_max _ _ W).
  assert (NoDup (i :: fl)) as Hnd by (constructor; [done|apply (ti_nodup _ _ W)]).
  pose proof (nodup_bound (i :: fl) (m_table_size t) ltac:(lia) Hnd) as Hb. simpl in Hb.
  assert (Z.of_nat (S (length fl)) <= m_table_size t) as Hlen.
  { apply Hb. intros x [->|Hx]%elem_of_cons; [done|]. by apply (ti_free _ _ W). }
  unfold FreeEntry. rewrite bind_assert_true by (apply Z.ltb_lt; lia).
  rewrite !arr_set_lt by lia. rewrite !bind_ret. rewrite (u16_small (m_count t - 1)) by lia.
  eexists. split; [done|]. assert (forall j : nat, j <> Z.to_nat i ->
    <[Z.to_nat i := set_next_free_index (s16 (m_free_head_index t))]> (m_entry_infos t) !! j = m_entry_infos t !! j /\
    <[Z.to_nat i := 0]> (m_objects t) !! j = m_objects t !! j) as Hj by (intros; by rewrite !list_lookup_insert_ne).
  assert (<[Z.to_nat i := 0]> (m_objects t) !! Z.to_nat i = Some 0) as Ho by (apply list_lookup_insert_eq; lia).
  split; [|split_and!; (done || lia)]. split; simpl; rewrite ?length_insert; try apply W; try done; try lia.
  - split; [done|]. eexists. split; [apply list_lookup_insert_eq; lia|]. rewrite next_free_roundtrip by by eapply chain_head.
    apply chain_insert_other; [done| |lia|apply W]. intros j Hj'. pose proof (chain_nonneg t fl j W Hj'). lia.
  - intros j [->|Hj']%elem_of_cons; [done|]. destruct (ti_free _ _ W j Hj') as [? E]. split; [done|].
    destruct (decide (j = i)) as [->|]; [done|]. by rewrite list_lookup_insert_ne by lia.
  - intros j o Hj' Ej Hne. destruct (decide (j = i)) as [->|]; [congruence|].
    rewrite list_lookup_insert_ne in Ej |- * by lia. by apply (ti_live _ _ W j o).
Qed.

(** Writing a slot that is not on the free list. *)
Lemma set_entry_inv t fl i id obj :
  table_inv t fl -> i ∉ fl -> 0 <= i < m_table_size t -> MinLinearId <= id <= MaxLinearId ->
  table_inv (with_entry t (<[Z.to_nat i := id]> (m_entry_infos t)) (<[Z.to_nat i := obj]> (m_objects t))) fl.
Proof.
  intros W Hi Hr Hid. pose proof (ti_size _ _ W). pose proof (ti_infos _ _ W). pose proof (ti_objects _ _ W).
  split; simpl; rewrite ?length_insert; try apply W.
  - apply chain_insert_other; [done| |lia|apply W]. intros j Hj. pose proof (chain_nonneg t fl j W Hj). lia.
  - intros j Hj. destruct (ti_free _ _ W j Hj) as [? E]. split; [done|].
    destruct (decide (j = i)) as [->|]; [done|]. by rewrite list_lookup_insert_ne by lia.
  - intros j o Hj Ej Hne. destruct (decide (j = i)) as [->|].
    + exists id. rewrite list_lookup_insert_eq by lia. done.
    + rewrite list_lookup_insert_ne in Ej |- * by lia. by apply (ti_live _ _ W j o).
Qed.

Lemma AllocateLinearId_spec t fl :
  table_inv t fl ->
  exists t1, AllocateLinearId t = (m_next_linear_id t, t1) /\ table_inv t1 fl /\
    m_entry_infos t1 = m_entry_infos t /\ m_objects t1 = m_objects t /\ m_table_size t1 = m_table_size t /\
    m_count t1 = m_count t /\
    m_next_linear_id t1 = (if m_next_linear_id t =? MaxLinearId then MinLinearId else m_next_linear_id t + 1).
Proof.
  intros W. pose proof (ti_next _ _ W) as Hn. unfold MinLinearId, MaxLinearId in Hn.
  unfold AllocateLinearId. rewrite u16_small by lia. eexists. split; [done|].
  assert ((if MaxLinearId <? m_next_linear_id t + 1 then MinLinearId else m_next_linear_id t + 1) =
    (if m_next_linear_id t =? MaxLinearId then MinLinearId else m_next_linear_id t + 1)) as ->.
  { unfold MaxLinearId, MinLinearId. destruct (Z.ltb_spec 0x7FFF (m_next_linear_id t + 1)), (Z.eqb_spec (m_next_linear_id t) 0x7FFF); lia. }
  split; [|split_and!; (done || lia)]. split; simpl; try apply W.
  unfold MaxLinearId, MinLinearId in *. destruct (Z.eqb_spec (m_next_linear_id t) 0x7FFF); lia.
Qed.

(** What a table maps handles to after one slot has been given to [handle]. *)
Lemma lookup_handle_set t i id obj h :
  length (m_entry_infos t) = 1024%nat -> length (m_objects t) = 1024%nat -> m_table_size t <= 1024 ->
  0 <= i < m_table_size t -> MinLinearId <= id <= MaxLinearId -> m_objects t !! Z.to_nat i = Some 0 -> in_u 32 h ->
  lookup_handle (with_entry t (<[Z.to_nat i := id]> (m_entry_infos t)) (<[Z.to_nat i := obj]> (m_objects t))) h =
    if h =? EncodeHandle i id then obj else lookup_handle t h.
Proof.
  intros L1 L2 L3 Hi Hid Ho Hh. unfold MinLinearId, MaxLinearId in Hid.
  destruct (EncodeHandle_fields i id) as (F1 & F2 & F3 & F4); [unfold in_u; lia|unfold in_u; lia|].
  pose proof (field_range index h index_ok ltac:(unfold in_u in Hh; lia)) as Hx. simpl in Hx.
  destruct (Z.eqb_spec h (EncodeHandle i id)) as [->|Hne].
  - unfold lookup_handle. tsimpl. rewrite F1, F2, F3. rewrite !list_lookup_insert_eq by lia. cbn [from_option]; unfold Datatypes.id.
    destruct (Z.eqb_spec id 0), (Z.ltb_spec i (m_table_size t)); cbn [negb andb]; try lia. by rewrite !Z.eqb_refl.
  - destruct (decide (ExtractValue index h = i)) as [Ei|Ei].
    + rewrite (lookup_handle_null t h) by (by rewrite Ei). unfold lookup_handle. tsimpl. rewrite Ei.
      rewrite !list_lookup_insert_eq by lia. cbn [from_option]; unfold Datatypes.id.
      destruct (Z.eqb_spec (ExtractValue reserved h) 0) as [Er|]; cbn [andb]; [|done].
      destruct (Z.eqb_spec id (ExtractValue linear_id h)) as [El|]; [|by rewrite andb_false_r].
      exfalso. apply Hne. rewrite (handle_decompose h Hh Er). by rewrite Ei, El.
    + apply (lookup_handle_other _ _ i); try done; try lia. intros j Hj. tsimpl. by rewrite !list_lookup_insert_ne.
Qed.

Lemma open_object_spec st p o :
  st !! p = Some o -> object_wf o -> m_ref_count o < 2 ^ 32 - 1 ->
  exists b o', open_object st p = Done true (b, <[p := o']> st) /\ object_wf o' /\ m_class_token o' = m_class_token o /\
    b = negb (m_ref_count o =? 0) /\ m_ref_count o' = (if m_ref_count o =? 0 then 0 else m_ref_count o + 1).
Proof.
  intros Hp W Hr. destruct (Open_spec o W Hr) as (o' & E & W' & T' & R'). unfold open_object, deref. rewrite Hp. ostep.
  rewrite E. ostep. eexists _, o'. done.
Qed.

Lemma close_object_spec st p o :
  st !! p = Some o -> object_wf o ->
  exists o', close_object st p = Done true (<[p := o']> st) /\ object_wf o' /\ m_class_token o' = m_class_token o /\
    m_ref_count o' = Z.max 0 (m_ref_count o - 1).
Proof.
  intros Hp W. destruct (Close_spec o W) as (o' & E & H). unfold close_object, deref. rewrite Hp. ostep.
  rewrite E. ostep. exists o'. done.
Qed.

(** ** The operations *)

Lemma Add_spec t st obj o :
  table_wf t -> m_count t < m_table_size t -> st !! obj = Some o -> object_wf o -> m_ref_count o < 2 ^ 32 - 1 ->
  exists h t' o', Add t st obj = Done true (ResultSuccess, Some h, t', <[obj := o']> st) /\ table_wf t' /\
    in_u 32 h /\ ExtractValue reserved h = 0 /\ h <> 0 /\ lookup_handle t h = 0 /\ m_count t' = m_count t + 1 /\
    m_table_size t' = m_table_size t /\
    (forall h', in_u 32 h' -> lookup_handle t' h' = if h' =? h then obj else lookup_handle t h') /\
    m_ref_count o' = (if m_ref_count o =? 0 then 0 else m_ref_count o + 1) /\ object_wf o'.
Proof.
  intros [fl W] Hc Ho Wo Hr. unfold Add. rewrite (proj2 (Z.ltb_lt _ _) Hc). simpl negb. cbv iota.
  destruct (AllocateLinearId_spec t fl W) as (t1 & E1 & W1 & I1 & O1 & S1 & C1 & N1). rewrite E1.
  destruct fl as [|i fl]; [pose proof (ti_count _ _ W) as E; simpl in E; lia|].
  destruct (AllocateEntry_spec t1 i fl W1) as (t2 & E2 & W2 & Hi & Ri & Oi & I2 & O2 & S2 & N2 & C2).
  rewrite E2. ostep. pose proof (ti_size _ _ W) as Hs. pose proof (ti_next _ _ W) as Hn. pose proof (ti_infos _ _ W2). pose proof (ti_objects _ _ W2).
  rewrite !arr_set_lt by lia. rewrite !bind_ret.
  destruct (open_object_spec st obj o Ho Wo Hr) as (b & o' & E3 & Wo' & To' & _ & Ro'). rewrite E3. ostep.
  rewrite u16_small by lia. pose proof Hn as Hn'. unfold MinLinearId, MaxLinearId in Hn'.
  destruct (EncodeHandle_fields i (m_next_linear_id t)) as (F1 & F2 & F3 & F4); [unfold in_u; lia|unfold in_u; lia|].
  eexists _, _, o'. split; [done|]. split; [exists fl; apply set_entry_inv; (done || lia)|].
  split; [exact F4|]. split; [exact F3|].
  split; [intros E; rewrite E in F2; change (ExtractValue linear_id 0) with 0 in F2; lia|].
  split; [apply lookup_handle_null; by rewrite F1, <- O1|]. split; [tsimpl; lia|]. split; [tsimpl; lia|].
  split; [|done]. intros h' Hh'. rewrite lookup_handle_set; [|done|done|lia|lia|done|by rewrite O2|done].
  destruct (h' =? EncodeHandle i (m_next_linear_id t)); [done|]. unfold lookup_handle. by rewrite I2, O2, S2, I1, O1, S1.
Qed.

Lemma lookup_handle_live t h :
  in_u 32 h -> lookup_handle t h <> 0 ->
  let i := ExtractValue index h in
  ExtractValue reserved h = 0 /\ ExtractValue linear_id h <> 0 /\ 0 <= i < m_table_size t /\
  m_objects t !! Z.to_nat i = Some (lookup_handle t h) /\
  m_entry_infos t !! Z.to_nat i = Some (ExtractValue linear_id h).
Proof.
  intros Hh Hl i. pose proof (field_range index h index_ok ltac:(unfold in_u in Hh; lia)) as Hi.
  unfold lookup_handle in *. fold i in Hi, Hl |- *.
  destruct (Z.eqb_spec (ExtractValue reserved h) 0); cbn [andb negb] in *; [|done].
  destruct (Z.eqb_spec (ExtractValue linear_id h) 0); cbn [andb negb] in *; [done|].
  destruct (Z.ltb_spec i (m_table_size t)); cbn [andb] in *; [|done].
  destruct (Z.eqb_spec (default 0 (m_entry_infos t !! Z.to_nat i)) (ExtractValue linear_id h)) as [E|]; [|done].
  split_and!; try (done || lia).
  - destruct (m_objects t !! Z.to_nat i); [done|]. done.
  - destruct (m_entry_infos t !! Z.to_nat i) as [e0|]; [simpl in E; congruence|]. simpl in E. congruence.
Qed.

Lemma Remove_spec t st in_use h o :
  table_wf t -> in_u 32 h -> lookup_handle t h <> 0 -> st !! lookup_handle t h = Some o -> object_wf o ->
  exists t' o', Remove t st in_use h =
      Done true (true, t', <[lookup_handle t h := o']> st, in_use ∖ {[lookup_handle t h]}) /\ table_wf t' /\
    m_count t' = m_count t - 1 /\ m_table_size t' = m_table_size t /\
    (forall h', in_u 32 h' -> lookup_handle t' h' = if h' =? h then 0 else lookup_handle t h') /\
    m_ref_count o' = Z.max 0 (m_ref_count o - 1) /\ object_wf o'.
Proof.
  intros [fl W] Hh Hl Ho Wo. destruct (lookup_handle_live t h Hh Hl) as (Hr & Hli & Hi & Eo & Ee).
  set (i := ExtractValue index h) in *. set (p := lookup_handle t h) in *.
  assert (IsPseudoHandle h = false) as Hps.
  { unfold IsPseudoHandle. destruct (Z.eqb_spec h CurrentProcess) as [->|]; [by vm_compute in Hr|].
    destruct (Z.eqb_spec h CurrentThread) as [->|]; [by vm_compute in Hr|done]. }
  assert (h <> 0) as Hh0 by (intros ->; by vm_compute in Hli).
  assert (IsValidHandle t h = Done true true) as Hval.
  { unfold IsValidHandle. rewrite bind_assert_true by (apply Z.eqb_eq; done). fold i.
    destruct (Z.eqb_spec h 0); [done|]. destruct (Z.eqb_spec (ExtractValue linear_id h) 0); [done|].
    destruct (Z.leb_spec (m_table_size t) i); [lia|]. rewrite (arr_get_Some (m_objects t) i p) by (done || lia). ostep.
    destruct (Z.eqb_spec p 0); [done|]. rewrite (arr_get_Some (m_entry_infos t) i (ExtractValue linear_id h)) by (done || lia). ostep.
    unfold GetLinearId. by rewrite Z.eqb_refl. }
  assert (i ∉ fl) as Hfl by (intros Hx; destruct (ti_free _ _ W i Hx) as [_ E]; congruence).
  unfold Remove. rewrite Hps, (proj2 (Z.eqb_eq _ _) Hr), Hval. simpl negb. cbv iota. ostep. fold i.
  rewrite (arr_get_Some (m_objects t) i p) by (done || lia). ostep.
  destruct (FreeEntry_spec t fl i W Hfl Hi) as (t' & E1 & W' & S' & N' & C' & O' & Hj). rewrite E1. ostep.
  destruct (close_object_spec st p o Ho Wo) as (o' & E2 & Wo' & _ & Ro'). rewrite E2. ostep.
  exists t', o'. split; [done|]. split; [by exists (i :: fl)|]. split_and!; try done.
  intros h' Hh'. pose proof (field_range index h' index_ok ltac:(unfold in_u in Hh'; lia)) as Hi'.
  destruct (decide (ExtractValue index h' = i)) as [Ei|Ei].
  - rewrite (lookup_handle_null t' h') by (by rewrite Ei). destruct (Z.eqb_spec h' h) as [|Hne]; [done|].
    destruct (Z.eq_dec (lookup_handle t h') 0) as [->|Hnz]; [done|]. exfalso. apply Hne.
    destruct (lookup_handle_live t h' Hh' Hnz) as (Hr2 & _ & _ & _ & Ee2). rewrite Ei, Ee in Ee2. injection Ee2 as El.
    rewrite (handle_decompose h Hh Hr), (handle_decompose h' Hh' Hr2). fold i. by rewrite Ei, El.
  - destruct (Z.eqb_spec h' h) as [->|]; [done|]. apply (lookup_handle_other t t' i); (done || lia).
Qed.

Lemma Remove_invalid t st in_use h :
  table_wf t -> in_u 32 h -> lookup_handle t h = 0 ->
  Remove t st in_use h = Done true (false, t, st, in_use).
Proof.
  intros W Hh Hl. pose proof (GetObjectImpl_eq t h W Hh) as E. rewrite Hl in E. unfold Remove, GetObjectImpl in *.
  destruct (IsPseudoHandle h); [done|]. destruct (negb _) eqn:Er; [done|]. run_inv E. rewrite E0. ostep.
  destruct a; [|done]. exfalso. unfold IsValidHandle in E0. run_inv E0.
  destruct (h =? 0); [done|]. destruct (ExtractValue linear_id h =? 0); [done|]. destruct (_ <=? _); [done|].
  run_inv E0. rewrite E2 in E. injection E as ->. done.
Qed.

(** A slot taken by [Reserve] and not registered yet. *)
Definition slot_reserved (t : KHandleTable) (h : Z) : Prop :=
  exists fl, table_inv t fl /\ in_u 32 h /\ ExtractValue reserved h = 0 /\
    MinLinearId <= ExtractValue linear_id h <= MaxLinearId /\ ExtractValue index h ∉ fl /\
    0 <= ExtractValue index h < m_table_size t /\ m_objects t !! Z.to_nat (ExtractValue index h) = Some 0.

Lemma Reserve_spec t :
  table_wf t -> m_count t < m_table_size t ->
  exists h t', Reserve t = Done true (ResultSuccess, Some h, t') /\ slot_reserved t' h /\
    m_count t' = m_count t + 1 /\ m_table_size t' = m_table_size t /\
    forall h', lookup_handle t' h' = lookup_handle t h'.
Proof.
  intros [fl W] Hc. unfold Reserve. rewrite (proj2 (Z.ltb_lt _ _) Hc). simpl negb. cbv iota.
  destruct fl as [|i fl]; [pose proof (ti_count _ _ W) as E; simpl in E; lia|].
  destruct (AllocateEntry_spec t i fl W) as (t1 & E1 & W1 & Hi & Ri & Oi & I1 & O1 & S1 & N1 & C1). rewrite E1. ostep.
  destruct (AllocateLinearId_spec t1 fl W1) as (t2 & E2 & W2 & I2 & O2 & S2 & C2 & N2). rewrite E2.
  pose proof (ti_size _ _ W) as Hs. pose proof (ti_next _ _ W1) as Hn. pose proof Hn as Hn'. unfold MinLinearId, MaxLinearId in Hn'.
  rewrite u16_small by lia.
  destruct (EncodeHandle_fields i (m_next_linear_id t1)) as (F1 & F2 & F3 & F4); [unfold in_u; lia|unfold in_u; lia|].
  eexists _, t2. split; [done|]. split.
  - exists fl. rewrite F1, F2, F3. split; [done|]. split; [exact F4|]. split; [done|]. split; [exact Hn|]. split; [done|].
    split; [lia|]. by rewrite O2, O1.
  - split_and!; [lia|lia|]. intros h'. unfold lookup_handle. by rewrite I2, O2, S2, I1, O1, S1.
Qed.

Lemma Register_spec t st h obj o :
  slot_reserved t h -> st !! obj = Some o -> object_wf o -> m_ref_count o < 2 ^ 32 - 1 ->
  exists t' o', Register t st h obj = Done true (t', <[obj := o']> st) /\ table_wf t' /\ m_count t' = m_count t /\
    (forall h', in_u 32 h' -> lookup_handle t' h' = if h' =? h then obj else lookup_handle t h') /\
    m_ref_count o' = (if m_ref_count o =? 0 then 0 else m_ref_count o + 1) /\ object_wf o'.
Proof.
  intros (fl & W & Hh & Hr & Hl & Hfl & Hi & Eo) Ho Wo Hm. pose proof (ti_size _ _ W). pose proof (ti_infos _ _ W). pose proof (ti_objects _ _ W).
  pose proof Hl as Hl'. unfold MinLinearId, MaxLinearId in Hl'. unfold Register.
  rewrite bind_assert_true by by apply Z.eqb_eq. rewrite bind_assert_true by (apply negb_true_iff, Z.eqb_neq; lia).
  destruct (Z.ltb_spec (ExtractValue index h) (m_table_size t)); [|lia].
  rewrite (arr_get_Some (m_objects t) (ExtractValue index h) 0) by (done || lia). ostep. rewrite bind_assert_true by done.
  rewrite !arr_set_lt by lia. rewrite !bind_ret.
  destruct (open_object_spec st obj o Ho Wo Hm) as (b & o' & E3 & Wo' & To' & _ & Ro'). rewrite E3. ostep.
  rewrite u16_small by lia. eexists _, o'. split; [done|]. split; [exists fl; apply set_entry_inv; (done || lia)|].
  split_and!; try done. intros h' Hh'. rewrite lookup_handle_set by (done || lia).
  by rewrite <- (handle_decompose h Hh Hr).
Qed.

Lemma Unreserve_spec t h :
  slot_reserved t h ->
  exists t', Unreserve t h = Done true t' /\ table_wf t' /\ m_count t' = m_count t - 1 /\
    forall h', in_u 32 h' -> lookup_handle t' h' = lookup_handle t h'.
Proof.
  intros (fl & W & Hh & Hr & Hl & Hfl & Hi & Eo). pose proof Hl as Hl'. unfold MinLinearId, MaxLinearId in Hl'. unfold Unreserve.
  rewrite bind_assert_true by by apply Z.eqb_eq. rewrite bind_assert_true by (apply negb_true_iff, Z.eqb_neq; lia).
  destruct (Z.ltb_spec (ExtractValue index h) (m_table_size t)); [|lia].
  rewrite (arr_get_Some (m_objects t) (ExtractValue index h) 0) by (done || lia). ostep. rewrite bind_assert_true by done.
  destruct (FreeEntry_spec t fl _ W Hfl Hi) as (t' & E1 & W' & S' & N' & C' & O' & Hj).
  exists t'. split; [done|]. split; [by eexists|]. split; [done|]. intros h' Hh'.
  pose proof (field_range index h' index_ok ltac:(unfold in_u in Hh'; lia)) as Hi'.
  destruct (decide (ExtractValue index h' = ExtractValue index h)) as [Ei|Ei].
  - rewrite !lookup_handle_null by (by rewrite Ei). done.
  - apply (lookup_handle_other t t' (ExtractValue index h)); (done || lia).
Qed.

(** ** Initialisation *)

(** The free list [Initialize] builds: the last slot first. *)
Fixpoint down_from (n : nat) : list Z := match n with O => [] | S n' => Z.of_nat n' :: down_from n' end.

Lemma elem_of_down_from n x : x ∈ down_from n <-> 0 <= x < Z.of_nat n.
Proof.
  induction n as [|n IH]; simpl; [rewrite elem_of_nil; lia|]. rewrite elem_of_cons, IH. lia.
Qed.

Lemma length_down_from n : length (down_from n) = n.
Proof. induction n; simpl; congruence. Qed.

Lemma NoDup_down_from n : NoDup (down_from n).
Proof. induction n; simpl; constructor; [rewrite elem_of_down_from; lia|done]. Qed.

Lemma table_Initialize_loop_spec n : forall (i : nat) t,
  length (m_entry_infos t) = 1024%nat -> length (m_objects t) = 1024%nat -> (i + n <= 1024)%nat ->
  chain (m_entry_infos t) (m_free_head_index t) (down_from i) ->
  (forall j, (j < i)%nat -> m_objects t !! j = Some 0) ->
  exists t', Initialize_loop n (Z.of_nat i) t = Done true t' /\ length (m_entry_infos t') = 1024%nat /\
    length (m_objects t') = 1024%nat /\ chain (m_entry_infos t') (m_free_head_index t') (down_from (i + n)) /\
    (forall j, (j < i + n)%nat -> m_objects t' !! j = Some 0) /\
    m_table_size t' = m_table_size t /\ m_max_count t' = m_max_count t /\ m_count t' = m_count t /\
    m_next_linear_id t' = m_next_linear_id t.
Proof.
  induction n as [|n IH]; intros i t L1 L2 Hb Hc Ho.
  { exists t. rewrite Nat.add_0_r. split; [done|]. split_and!; done. }
  cbn [Initialize_loop]. rewrite !arr_set_lt by lia. rewrite !bind_ret. rewrite Nat2Z.id.
  replace (Z.of_nat i + 1) with (Z.of_nat (S i)) by lia.
  match goal with |- context [Initialize_loop n _ ?T] => set (t1 := T) end.
  destruct (IH (S i) t1) as (t' & E & M1 & M2 & Hc' & Ho' & H'); unfold t1; tsimpl; rewrite ?length_insert; try done; try lia.
  - simpl. split; [done|]. eexists. rewrite Nat2Z.id, list_lookup_insert_eq by lia. split; [done|].
    assert (m_free_head_index t = Z.of_nat i - 1) as Eh.
    { destruct i; simpl in Hc; [done|]. destruct Hc as [-> _]. lia. }
    rewrite next_free_roundtrip by lia. rewrite <- Eh. rewrite <- (Nat2Z.id i) at 1.
    apply chain_insert_other; [rewrite elem_of_down_from; lia|intros j; rewrite elem_of_down_from; lia|lia|done].
  - intros j Hj. destruct (decide (j = i)) as [->|]; [by rewrite list_lookup_insert_eq by lia|].
    rewrite list_lookup_insert_ne by done. apply Ho. lia.
  - exists t'. replace (i + S n)%nat with (S i + n)%nat by lia. done.
Qed.

Lemma table_Initialize_spec t size :
  length (m_entry_infos t) = 1024%nat -> length (m_objects t) = 1024%nat -> size <= MaxTableSize ->
  exists t', Initialize t size = Done true (ResultSuccess, t') /\ table_wf t' /\ m_count t' = 0 /\
    m_table_size t' = (if size <=? 0 then 1024 else size) /\ forall h, lookup_handle t' h = 0 \/ ~ in_u 32 h.
Proof.
  intros L1 L2 Hs. unfold MaxTableSize in Hs. unfold Initialize. rewrite (proj2 (Z.leb_le size MaxTableSize)) by done.
  simpl negb. cbv iota. unfold MaxTableSize. set (n := if size <=? 0 then 1024 else size).
  assert (0 < n <= 1024) as Hn by (unfold n; destruct (Z.leb_spec size 0); lia).
  assert (s16 n = n) as -> by (apply wraps_small; unfold in_s; lia). rewrite (u16_small n) by lia.
  match goal with |- context [Initialize_loop _ _ ?T] => set (t0 := T) end.
  destruct (table_Initialize_loop_spec (Z.to_nat n) 0 t0) as (t' & E & M1 & M2 & Hc & Ho & H1 & H2 & H3 & H4); try done; try lia.
  change (Z.of_nat 0) with 0 in E. rewrite E. ostep. exists t'. split; [done|]. simpl in H1, H2, H3, H4.
  rewrite Nat.add_0_l in Hc, Ho.
  assert (table_inv t' (down_from (Z.to_nat n))) as W.
  { split; rewrite ?length_down_from; try done; try lia.
    - rewrite H4. unfold MinLinearId, MaxLinearId. lia.
    - intros i. rewrite elem_of_down_from. intros Hi. split; [lia|]. apply Ho. lia.
    - apply NoDup_down_from.
    - intros i o Hi Ei Hne. rewrite Ho in Ei by lia. congruence. }
  split; [by eexists|]. split; [done|]. split; [lia|]. intros h.
  destruct (decide (0 <= h < 2 ^ 32)) as [Hh|]; [left|by right].
  destruct (Z.eq_dec (lookup_handle t' h) 0) as [|Hnz]; [done|exfalso].
  destruct (lookup_handle_live t' h Hh Hnz) as (_ & _ & Hi & Eo & _). rewrite Ho in Eo by lia. congruence.
Qed.

(** ** Linear ids *)

Fixpoint nth_linear_id (n : nat) (t : KHandleTable) : Z :=
  match n with O => fst (AllocateLinearId t) | S n' => nth_linear_id n' (snd (AllocateLinearId t)) end.

Lemma nth_linear_id_eq n : forall t fl,
  table_inv t fl -> nth_linear_id n t = (m_next_linear_id t - 1 + Z.of_nat n) mod 0x7FFF + 1.
Proof.
  induction n as [|n IH]; intros t fl W; pose proof (ti_next _ _ W) as Hn; unfold MinLinearId, MaxLinearId in Hn;
    destruct (AllocateLinearId_spec t fl W) as (t1 & E & W1 & _ & _ & _ & _ & N1); cbn [nth_linear_id]; rewrite E; cbn [fst snd].
  - rewrite Z.mod_small by lia. lia.
  - rewrite (IH t1 fl W1), N1. unfold MinLinearId, MaxLinearId. f_equal.
    destruct (Z.eqb_spec (m_next_linear_id t) 0x7FFF) as [Em|].
    + rewrite Em. replace (0x7FFF - 1 + Z.of_nat (S n)) with (Z.of_nat n + 1 * 0x7FFF) by lia.
      rewrite Z.mod_add by lia. done || (f_equal; lia).
    + f_equal. lia.
Qed.

(** ** Opening several objects *)

(** [k] more references to an object that has at least one. *)
Definition bump (k : Z) (o : KAutoObject) : KAutoObject :=
  if m_ref_count o =? 0 then o else mkObject (m_ref_count o + k) (m_class_token o) (destroyed o).

Definition occurrences (p : Z) (out : list Z) : Z := Z.of_nat (length (filter (fun q => q = p) out)).

Definition bumped (st : store) (out : list Z) (st' : store) : Prop :=
  forall p, st' !! p = bump (occurrences p out) <$> (st !! p).

Definition store_wf (st : store) (room : Z) : Prop :=
  forall p o, st !! p = Some o -> object_wf o /\ m_ref_count o + room < 2 ^ 32.

Lemma bump_0 o : bump 0 o = o.
Proof. unfold bump. destruct (_ =? 0); [done|]. rewrite Z.add_0_r. by destruct o. Qed.

Lemma bumped_nil st : bumped st [] st.
Proof. intros p. destruct (st !! p); simpl; [|done]. f_equal. symmetry. apply bump_0. Qed.

Lemma occurrences_app p l l' : occurrences p (l ++ l') = occurrences p l + occurrences p l'.
Proof. unfold occurrences. rewrite filter_app, length_app. lia. Qed.

Lemma occurrences_single p q : occurrences p [q] = if decide (q = p) then 1 else 0.
Proof. unfold occurrences. rewrite filter_cons. by destruct (decide (q = p)). Qed.

Lemma occurrences_nonneg p l : 0 <= occurrences p l <= Z.of_nat (length l).
Proof. unfold occurrences. pose proof (length_filter (fun q => q = p) l). lia. Qed.

Lemma bumped_open st out st' p o :
  bumped st out st' -> st !! p = Some o -> object_wf o -> m_ref_count o + Z.of_nat (length out) + 1 < 2 ^ 32 ->
  exists b st2, open_object st' p = Done true (b, st2) /\ bumped st (out ++ [p]) st2.
Proof.
  intros Hb Hp [Hr Hd] Hroom. pose proof (occurrences_nonneg p out) as Ho. pose proof (Hb p) as E. rewrite Hp in E. simpl in E.
  unfold open_object, deref. rewrite E. ostep. unfold Open, bump.
  destruct (Z.eqb_spec (m_ref_count o) 0) as [Ez|Ez].
  - rewrite Ez. ostep. eexists _, _. split; [done|]. intros q. destruct (decide (q = p)) as [->|].
    + rewrite lookup_insert_eq, Hp. simpl. unfold bump. by rewrite (proj2 (Z.eqb_eq _ _) Ez).
    + rewrite lookup_insert_ne by done. rewrite Hb, occurrences_app, occurrences_single, decide_False by done. by rewrite Z.add_0_r.
  - cbn [m_ref_count m_class_token destroyed]. destruct (Z.eqb_spec (m_ref_count o + occurrences p out) 0); [lia|].
    rewrite u32_small by lia. rewrite bind_assert_true by (apply Z.ltb_lt; lia). ostep. eexists _, _. split; [done|].
    intros q. destruct (decide (q = p)) as [->|].
    + rewrite lookup_insert_eq, Hp. simpl. unfold bump. rewrite (proj2 (Z.eqb_neq _ _) Ez).
      rewrite occurrences_app, occurrences_single, decide_True by done. do 2 f_equal. lia.
    + rewrite lookup_insert_ne by done. rewrite Hb, occurrences_app, occurrences_single, decide_False by done. by rewrite Z.add_0_r.
Qed.

Lemma bumped_close st p out st' o :
  bumped st (p :: out) st' -> st !! p = Some o -> object_wf o -> m_ref_count o + Z.of_nat (length (p :: out)) < 2 ^ 32 ->
  exists st2, close_object st' p = Done true st2 /\ bumped st out st2.
Proof.
  intros Hb Hp [Hr Hd] Hroom. rewrite length_cons in Hroom.
  pose proof (occurrences_nonneg p out) as Ho. pose proof (Hb p) as E. rewrite Hp in E. simpl in E.
  change (p :: out) with ([p] ++ out) in *.
  rewrite occurrences_app, occurrences_single, decide_True in E by done.
  assert (forall q, q <> p -> st' !! q = bump (occurrences q out) <$> st !! q) as Hq.
  { intros q Hne. rewrite Hb, occurrences_app, occurrences_single, decide_False by done. by rewrite Z.add_0_l. }
  unfold close_object, deref, Close. destruct (Z.eq_dec (m_ref_count o) 0) as [Ez|Ez].
  - assert (bump (1 + occurrences p out) o = o) as Eb by (unfold bump; by rewrite (proj2 (Z.eqb_eq _ _) Ez)).
    rewrite Eb in E. rewrite E. ostep. rewrite (proj2 (Z.eqb_eq _ _) Ez). ostep. eexists. split; [done|]. intros q. destruct (decide (q = p)) as [->|].
    + rewrite lookup_insert_eq, Hp. simpl. unfold bump. by rewrite (proj2 (Z.eqb_eq _ _) Ez).
    + rewrite lookup_insert_ne by done. by apply Hq.
  - assert (bump (1 + occurrences p out) o = mkObject (m_ref_count o + (1 + occurrences p out)) (m_class_token o) (destroyed o))
      as Eb by (unfold bump; by rewrite (proj2 (Z.eqb_neq _ _) Ez)).
    rewrite Eb in E. rewrite E. ostep. cbn [m_ref_count m_class_token destroyed]. destruct (Z.eqb_spec (m_ref_count o + (1 + occurrences p out)) 0); [lia|].
    rewrite bind_assert_true by (apply Z.ltb_lt; lia). rewrite u32_small by lia. ostep. eexists. split; [done|].
    intros q. destruct (decide (q = p)) as [->|].
    + rewrite lookup_insert_eq, Hp. simpl. unfold bump. rewrite (proj2 (Z.eqb_neq _ _) Ez).
      destruct (Z.eqb_spec (m_ref_count o + (1 + occurrences p out)) 1); [lia|]. rewrite orb_false_r. do 2 f_equal. lia.
    + rewrite lookup_insert_ne by done. by apply Hq.
Qed.

Lemma close_all_spec st out : forall st',
  bumped st out st' -> store_wf st (Z.of_nat (length out)) -> (forall p, p ∈ out -> is_Some (st !! p)) ->
  close_all st' out = Done true st.
Proof.
  induction out as [|p out IH]; intros st' Hb Hw Hin; simpl.
  - assert (st' = st) as ->; [|done]. apply map_eq. intros p. rewrite Hb. destruct (st !! p) as [o|]; simpl; [|done].
    f_equal. apply bump_0.
  - destruct (Hin p (list_elem_of_here _ _)) as [o Hp]. destruct (Hw p o Hp) as [Wo Ho].
    destruct (bumped_close st p out st' o Hb Hp Wo) as (st2 & E & Hb2); [done|]. rewrite E. ostep.
    apply IH; [done| |intros q Hq; apply Hin; by right].
    intros q oq Hq. destruct (Hw q oq Hq) as [? Hl]. simpl in Hl. split; [done|lia].
Qed.

(** The handle names an object of the wanted class. *)
Definition names_class (T : ObjectType) (t : KHandleTable) (st : store) (h : Z) : Prop :=
  lookup_handle t h <> 0 /\ exists o, st !! lookup_handle t h = Some o /\ IsDerivedFrom o T = true.

(** The objects of the table exist. *)
Definition table_objects (t : KHandleTable) (st : store) : Prop :=
  forall h, in_u 32 h -> lookup_handle t h <> 0 -> is_Some (st !! lookup_handle t h).

Lemma bump_token k o : m_class_token (bump k o) = m_class_token o.
Proof. unfold bump. by destruct (_ =? 0). Qed.

Lemma open_multiple_spec T t st handles : forall st' out,
  table_wf t -> table_objects t st -> store_wf st (Z.of_nat (length out) + Z.of_nat (length handles)) ->
  Forall (in_u 32) handles -> bumped st out st' -> (forall p, p ∈ out -> is_Some (st !! p)) ->
  exists out' (ok : bool) st2, open_multiple T t st' handles out = Done true (out', ok, st2) /\ bumped st out' st2 /\
    (forall p, p ∈ out' -> is_Some (st !! p)) /\ (length out' <= length out + length handles)%nat /\
    (ok = true <-> Forall (names_class T t st) handles) /\
    (ok = true -> out' = out ++ (lookup_handle t <$> handles)).
Proof.
  induction handles as [|h handles IH]; intros st' out W Hobj Hw Hh Hb Hin; cbn [open_multiple].
  { exists out, true, st'. split; [done|]. split; [done|]. split; [done|]. split; [lia|]. split; [by split|].
    intros _. simpl. by rewrite app_nil_r. }
  apply list.Forall_cons in Hh as [Hh Hhs]. rewrite GetObjectImpl_eq by done. ostep.
  assert (forall ok st2, bumped st out st2 -> ok = false -> ~ names_class T t st h ->
    exists out' (ok' : bool) st3, Done true (out, ok, st2) = Done true (out', ok', st3) /\ bumped st out' st3 /\
    (forall p, p ∈ out' -> is_Some (st !! p)) /\ (length out' <= length out + length (h :: handles))%nat /\
    (ok' = true <-> Forall (names_class T t st) (h :: handles)) /\
    (ok' = true -> out' = out ++ (lookup_handle t <$> h :: handles))) as Hstop.
  { intros ok st2 Hb2 -> Hno. exists out, false, st2. split; [done|]. split; [done|]. split; [done|]. split; [simpl; lia|].
    split; [|done]. split; [done|]. intros [Hy _]%list.Forall_cons. done. }
  destruct (Z.eqb_spec (lookup_handle t h) 0) as [Ez|Ez].
  { apply Hstop; [done|done|]. by intros [? _]. }
  destruct (Hobj h Hh Ez) as [o Ho]. destruct (Hw _ o Ho) as [Wo Hroom]. rewrite length_cons in Hroom.
  remember (lookup_handle t h) as p eqn:Hpdef.
  assert (st' !! p = Some (bump (occurrences p out) o)) as Hp by (rewrite (Hb p), Ho; done).
  unfold DynamicCast, deref. rewrite Hp. ostep. unfold IsDerivedFrom. rewrite bump_token. fold (IsDerivedFrom o T).
  destruct (IsDerivedFrom o T) eqn:Ed; cbn [negb].
  2: { rewrite Z.eqb_refl. apply Hstop; [done|done|]. intros (_ & o2 & Ho2 & Ed2). rewrite <- Hpdef in Ho2. congruence. }
  rewrite (proj2 (Z.eqb_neq _ _) Ez).
  destruct (bumped_open st out st' p o Hb Ho Wo ltac:(lia)) as (b & st2 & E2 & Hb2). rewrite E2. ostep.
  destruct (IH st2 (out ++ [p])) as (out' & ok & st3 & E3 & Hb3 & Hin3 & Hl3 & Hok & Heq); try done.
  - intros q oq Hq. destruct (Hw q oq Hq). rewrite length_app, length_cons in *. simpl. split; [done|lia].
  - intros q [Hq| ->%list_elem_of_singleton]%elem_of_app; [by apply Hin|by eexists].
  - exists out', ok, st3. split; [done|]. split; [done|]. split; [done|].
    rewrite length_app in Hl3. simpl in Hl3. split; [simpl; lia|]. rewrite list.Forall_cons, Hok. split.
    + assert (names_class T t st h) by (unfold names_class; rewrite <- Hpdef; split; [done|by exists o]). tauto.
    + intros Ht. rewrite (Heq (proj2 Hok Ht)), <- app_assoc, fmap_cons, <- Hpdef. done.
Qed.

(** ** The properties *)

(** Encoding an index and a linear id of 15 bits each is injective and decodes to them, with the
    reserved bits clear; so a table handle is never a pseudo handle, and not 0 when its id is not. *)
Theorem handle_encode_decode (i l : Z) :
  in_u 15 i -> in_u 15 l ->
  ExtractValue index (EncodeHandle i l) = i /\ ExtractValue linear_id (EncodeHandle i l) = l /\
  ExtractValue reserved (EncodeHandle i l) = 0 /\ IsPseudoHandle (EncodeHandle i l) = false /\
  (l <> 0 -> EncodeHandle i l <> 0) /\
  forall h, in_u 32 h -> ExtractValue reserved h = 0 ->
    EncodeHandle (ExtractValue index h) (ExtractValue linear_id h) = h.
Proof.
  intros Hi Hl. destruct (EncodeHandle_fields i l Hi Hl) as (F1 & F2 & F3 & F4). split_and!; try done.
  - unfold IsPseudoHandle. destruct (Z.eqb_spec (EncodeHandle i l) CurrentProcess) as [E|]; [by rewrite E in F3; vm_compute in F3|].
    destruct (Z.eqb_spec (EncodeHandle i l) CurrentThread) as [E|]; [by rewrite E in F3; vm_compute in F3|done].
  - intros Hl0 E. rewrite E in F2. change (ExtractValue linear_id 0) with 0 in F2. congruence.
  - intros h Hh Hr. symmetry. by apply handle_decompose.
Qed.

(** [Initialize] with a size of at most 1024 makes an empty well-formed table of that size (of
    1024 slots for a size that is not positive), and refuses a larger one unchanged. *)
Theorem handle_table_initialize (t : KHandleTable) (size : Z) :
  length (m_entry_infos t) = 1024%nat -> length (m_objects t) = 1024%nat ->
  (size <= MaxTableSize -> exists t', Initialize t size = Done true (ResultSuccess, t') /\ table_wf t' /\
     GetCount t' = 0 /\ GetTableSize t' = (if size <=? 0 then 1024 else size) /\
     forall h, in_u 32 h -> GetObjectImpl t' h = Done true 0) /\
  (MaxTableSize < size -> Initialize t size = Done true (ResultOutOfMemory, t)).
Proof.
  intros L1 L2. split; intros Hs.
  - destruct (table_Initialize_spec t size L1 L2 Hs) as (t' & E & W & C & S' & H). exists t'. split_and!; try done.
    intros h Hh. rewrite GetObjectImpl_eq by done. by destruct (H h) as [->|].
  - unfold Initialize. destruct (Z.leb_spec size MaxTableSize); [lia|done].
Qed.

(** [Add] refines insertion into the map of handles: with a free slot it answers a handle that
    named nothing, which now names the object, and no other handle changes its meaning; the object
    gains a reference.  A full table answers [ResultOutOfHandles] and changes nothing. *)
Theorem handle_table_add (t : KHandleTable) (st : store) (obj : Z) (o : KAutoObject) :
  table_wf t -> st !! obj = Some o -> object_wf o -> 0 < m_ref_count o < 2 ^ 32 - 1 ->
  (GetCount t < GetTableSize t ->
   exists h t' o', Add t st obj = Done true (ResultSuccess, Some h, t', <[obj := o']> st) /\ table_wf t' /\
     in_u 32 h /\ GetObjectImpl t h = Done true 0 /\ GetObjectImpl t' h = Done true obj /\
     (forall h', in_u 32 h' -> h' <> h -> GetObjectImpl t' h' = GetObjectImpl t h') /\
     GetCount t' = GetCount t + 1 /\ m_ref_count o' = m_ref_count o + 1) /\
  (GetTableSize t <= GetCount t -> Add t st obj = Done true (ResultOutOfHandles, None, t, st)).
Proof.
  intros W Ho Wo Hr. split; intros Hc.
  - destruct (Add_spec t st obj o W Hc Ho Wo ltac:(lia)) as (h & t' & o' & E & W' & Hh & _ & _ & Hl & C & _ & Hm & R & _).
    exists h, t', o'. split; [done|]. split; [done|]. split; [done|].
    split; [by rewrite GetObjectImpl_eq, Hl by done|].
    split; [rewrite GetObjectImpl_eq, Hm by done; by rewrite Z.eqb_refl|].
    split; [intros h' Hh' Hne; rewrite !GetObjectImpl_eq, Hm by done; by rewrite (proj2 (Z.eqb_neq _ _) Hne)|].
    split; [done|]. rewrite R. by destruct (Z.eqb_spec (m_ref_count o) 0); [lia|].
  - unfold Add. unfold GetTableSize, GetCount in Hc. by destruct (Z.ltb_spec (m_count t) (m_table_size t)); [lia|].
Qed.

(** C37: [Remove] refines removal from the map of handles: a handle that names an object stops naming
    it, no other handle changes, the slot is free again, the object is taken off the in-use list
    and loses one reference; any other handle, pseudo handles and stale ones included, is refused
    with nothing changed. *)
Theorem handle_table_remove (t : KHandleTable) (st : store) (in_use : gset Z) (h p : Z) :
  table_wf t -> table_objects t st -> store_wf st 0 -> in_u 32 h -> GetObjectImpl t h = Done true p ->
  (p = 0 -> Remove t st in_use h = Done true (false, t, st, in_use)) /\
  (p <> 0 -> exists t' o o', st !! p = Some o /\
     Remove t st in_use h = Done true (true, t', <[p := o']> st, in_use ∖ {[p]}) /\ table_wf t' /\
     GetObjectImpl t' h = Done true 0 /\
     (forall h', in_u 32 h' -> h' <> h -> GetObjectImpl t' h' = GetObjectImpl t h') /\
     GetCount t' = GetCount t - 1 /\ m_ref_count o' = Z.max 0 (m_ref_count o - 1)).
Proof.
  intros W Hobj Hw Hh Hp. rewrite GetObjectImpl_eq in Hp by done. injection Hp as Hp. subst p. split; intros Hz.
  - by apply Remove_invalid.
  - destruct (Hobj h Hh Hz) as [o Ho].
    destruct (Remove_spec t st in_use h o W Hh Hz Ho) as (t' & o' & E & W' & C & _ & Hm & R & _); [by apply (Hw _ o Ho)|].
    exists t', o, o'. split; [done|]. split; [done|]. split; [done|].
    split; [rewrite GetObjectImpl_eq, Hm by done; by rewrite Z.eqb_refl|].
    split; [intros h' Hh' Hne; rewrite !GetObjectImpl_eq, Hm by done; by rewrite (proj2 (Z.eqb_neq _ _) Hne)|]. done.
Qed.

(** [Reserve] takes a slot without making any handle valid; the handle it answers can then be
    given an object by [Register], exactly as [Add] would, or given back by [Unreserve], which
    restores the count; all assertions of the three pass. *)
Theorem handle_table_reserve (t : KHandleTable) (st : store) (obj : Z) (o : KAutoObject) :
  table_wf t -> GetCount t < GetTableSize t -> st !! obj = Some o -> object_wf o -> 0 < m_ref_count o < 2 ^ 32 - 1 ->
  exists h t1, Reserve t = Done true (ResultSuccess, Some h, t1) /\ GetCount t1 = GetCount t + 1 /\
    (forall h', in_u 32 h' -> GetObjectImpl t1 h' = GetObjectImpl t h') /\
    (exists t2 o', Register t1 st h obj = Done true (t2, <[obj := o']> st) /\ table_wf t2 /\
       m_ref_count o' = m_ref_count o + 1 /\ GetObjectImpl t2 h = Done true obj /\
       forall h', in_u 32 h' -> h' <> h -> GetObjectImpl t2 h' = GetObjectImpl t h') /\
    (exists t2, Unreserve t1 h = Done true t2 /\ table_wf t2 /\ GetCount t2 = GetCount t /\
       forall h', in_u 32 h' -> GetObjectImpl t2 h' = GetObjectImpl t h').
Proof.
  intros W Hc Ho Wo Hr. destruct (Reserve_spec t W Hc) as (h & t1 & E & Hres & C & _ & Hm).
  assert (table_wf t1 /\ in_u 32 h) as [W1 Hh] by (destruct Hres as (fl & ? & ? & _); split; [by exists fl|done]).
  exists h, t1. split; [done|]. split; [done|]. split; [intros; by rewrite !GetObjectImpl_eq, Hm by done|]. split.
  - destruct (Register_spec t1 st h obj o Hres Ho Wo ltac:(lia)) as (t2 & o' & E2 & W2 & _ & Hm2 & R & _).
    exists t2, o'. split; [done|]. split; [done|]. split; [rewrite R; by destruct (Z.eqb_spec (m_ref_count o) 0); [lia|]|].
    split; [rewrite GetObjectImpl_eq, Hm2 by done; by rewrite Z.eqb_refl|].
    intros h' Hh' Hne. rewrite !GetObjectImpl_eq, Hm2 by done. by rewrite (proj2 (Z.eqb_neq _ _) Hne), Hm.
  - destruct (Unreserve_spec t1 h Hres) as (t2 & E2 & W2 & C2 & Hm2). exists t2. split; [done|]. split; [done|].
    unfold GetCount in *. split; [lia|]. intros h' Hh'. by rewrite !GetObjectImpl_eq, Hm2, Hm by done.
Qed.

(** Linear ids are handed out in a cycle of 32767: of any 32767 consecutive allocations no two
    get the same id, so a stale handle stays invalid until the cycle has come round, even when
    its slot is reused at once. *)
Theorem handle_ids_distinct (t : KHandleTable) (n m : nat) :
  table_wf t -> Z.of_nat n < Z.of_nat m < Z.of_nat n + 0x7FFF -> nth_linear_id n t <> nth_linear_id m t.
Proof.
  intros [fl W] Hnm E. rewrite !(nth_linear_id_eq _ t fl W) in E.
  set (a := m_next_linear_id t - 1 + Z.of_nat n) in *.
  replace (m_next_linear_id t - 1 + Z.of_nat m) with (a + (Z.of_nat m - Z.of_nat n)) in E by lia.
  pose proof (Z.div_mod a 0x7FFF ltac:(lia)). pose proof (Z.mod_pos_bound a 0x7FFF ltac:(lia)).
  pose proof (Z.div_mod (a + (Z.of_nat m - Z.of_nat n)) 0x7FFF ltac:(lia)).
  pose proof (Z.mod_pos_bound (a + (Z.of_nat m - Z.of_nat n)) 0x7FFF ltac:(lia)). lia.
Qed.

(** [GetMultipleObjects] is all or nothing: it succeeds exactly when every handle names an object
    of the wanted class, answers those objects in order and opens each once per handle; otherwise
    every reference it opened is closed again and the objects are as before. *)
Theorem handle_table_get_multiple (T : ObjectType) (t : KHandleTable) (st : store) (handles : list Z) :
  table_wf t -> table_objects t st -> store_wf st (Z.of_nat (length handles)) -> Forall (in_u 32) handles ->
  exists (ok : bool) out st', GetMultipleObjects T t st handles = Done true (ok, out, st') /\
    (ok = true <-> Forall (names_class T t st) handles) /\
    (ok = true -> out = lookup_handle t <$> handles /\ bumped st out st') /\
    (ok = false -> st' = st).
Proof.
  intros W Hobj Hw Hh.
  destruct (open_multiple_spec T t st handles st [] W Hobj Hw Hh (bumped_nil st)) as (out & ok & st2 & E & Hb & Hin & Hl & Hok & Heq).
  { intros p Hp. by apply not_elem_of_nil in Hp. }
  unfold GetMultipleObjects. rewrite E. ostep. destruct ok.
  - exists true, out, st2. split; [done|]. split; [done|]. split; [|done]. intros _. split; [by apply Heq|done].
  - rewrite (close_all_spec st out st2 Hb); [|intros p o Hp; destruct (Hw p o Hp); simpl in Hl; split; [done|lia]|done].
    ostep. exists false, out, st. split; [done|]. split; [done|]. split; [done|]. done.
Qed.

(** ** A concrete table: four slots, one object (an event at address 16) *)

Definition demo_blank : KHandleTable := mkTable (replicate 1024 0) (replicate 1024 0) 0 0 0 0 0.
Definition demo_event : KAutoObject := Create OT_KEvent.
Definition demo_store : store := {[ 16 := demo_event ]}.

Lemma demo_event_wf : object_wf demo_event.
Proof. by split. Qed.

Lemma demo_table :
  exists t, Initialize demo_blank 4 = Done true (ResultSuccess, t) /\ table_wf t /\ m_count t = 0 /\ m_table_size t = 4.
Proof.
  destruct (table_Initialize_spec demo_blank 4) as (t & E & W & C & S' & _);
    [apply length_replicate|apply length_replicate|by vm_compute|]. by exists t.
Qed.

(** The table after adding the event. *)
Lemma demo_added :
  exists h t o', table_wf t /\ in_u 32 h /\ lookup_handle t h = 16 /\ table_objects t (<[16 := o']> demo_store) /\
    store_wf (<[16 := o']> demo_store) 100.
Proof.
  destruct demo_table as (t & _ & W & C & S').
  destruct (table_Initialize_spec demo_blank 4) as (t0 & E0 & W0 & C0 & S0 & H0);
    [apply length_replicate|apply length_replicate|by vm_compute|].
  destruct (Add_spec t0 demo_store 16 demo_event W0 ltac:(rewrite C0, S0; reflexivity)
    (lookup_singleton_eq 16 demo_event) demo_event_wf ltac:(reflexivity)) as (h & t' & o' & _ & W' & Hh & _ & _ & _ & _ & _ & Hm & R & Wo).
  exists h, t', o'. split; [done|]. split; [done|]. split; [rewrite Hm by done; by rewrite Z.eqb_refl|]. split.
  - intros h' Hh'. rewrite Hm by done. destruct (h' =? h); [|by destruct (H0 h') as [->|]].
    intros _. rewrite lookup_insert_eq. by eexists.
  - intros p o Hp. unfold demo_store in Hp. rewrite insert_singleton_eq in Hp. apply lookup_singleton_Some in Hp as [_ <-].
    split; [done|]. rewrite R. reflexivity.
Qed.

Lemma handle_encode_decode_witness : EncodeHandle 3 5 = 0x28003 /\ ExtractValue linear_id 0x28003 = 5.
Proof.
  split; [reflexivity|].
  destruct (handle_encode_decode 3 5) as (_ & E & _); [by split..|]. exact E.
Defined.

Lemma handle_table_initialize_witness :
  exists t, Initialize demo_blank 4 = Done true (ResultSuccess, t) /\ GetTableSize t = 4.
Proof.
  destruct (handle_table_initialize demo_blank 4) as [H _]; [apply length_replicate|apply length_replicate|].
  destruct (H ltac:(by vm_compute)) as (t & E & _ & _ & S' & _). by exists t.
Defined.

Lemma handle_table_add_witness :
  exists t h t' st', Add t demo_store 16 = Done true (ResultSuccess, Some h, t', st') /\ GetObjectImpl t' h = Done true 16.
Proof.
  destruct demo_table as (t & _ & W & C & S').
  destruct (handle_table_add t demo_store 16 demo_event W (lookup_singleton_eq 16 demo_event) demo_event_wf ltac:(by split))
    as [H _]. destruct H as (h & t' & o' & E & _ & _ & _ & G & _); [unfold GetCount, GetTableSize; rewrite C, S'; reflexivity|].
  eexists t, h, t', _. split; [exact E|exact G].
Defined.

Lemma handle_table_remove_witness :
  exists t st h t' st', Remove t st ∅ h = Done true (true, t', st', ∅ ∖ {[16]}) /\ GetObjectImpl t' h = Done true 0.
Proof.
  destruct demo_added as (h & t & o' & W & Hh & Hl & Hobj & Hw).
  destruct (handle_table_remove t _ ∅ h 16 W Hobj) as [_ H].
  { intros p o Hp. destruct (Hw p o Hp). split; [done|lia]. } { done. } { by rewrite GetObjectImpl_eq, Hl by done. }
  destruct (H ltac:(lia)) as (t' & o & o2 & _ & E & _ & G & _). eexists t, _, h, t', _. split; [exact E|exact G].
Defined.

Lemma handle_table_reserve_witness :
  exists t h t1, Reserve t = Done true (ResultSuccess, Some h, t1) /\ GetCount t1 = 1.
Proof.
  destruct demo_table as (t & _ & W & C & S').
  destruct (handle_table_reserve t demo_store 16 demo_event W) as (h & t1 & E & C1 & _);
    [unfold GetCount, GetTableSize; rewrite C, S'; reflexivity|apply lookup_singleton_eq|apply demo_event_wf|by split|].
  exists t, h, t1. split; [exact E|]. rewrite C1. unfold GetCount. by rewrite C.
Defined.

Lemma handle_ids_distinct_witness : exists t, table_wf t /\ nth_linear_id 0 t <> nth_linear_id 100 t.
Proof.
  destruct demo_table as (t & _ & W & _). exists t. split; [exact W|]. apply (handle_ids_distinct t 0 100 W). lia.
Defined.

Lemma handle_table_get_multiple_witness :
  exists t st h (ok : bool) out st', GetMultipleObjects OT_KEvent t st [h; h] = Done true (ok, out, st') /\ in_u 32 h.
Proof.
  destruct demo_added as (h & t & o' & W & Hh & Hl & Hobj & Hw).
  destruct (handle_table_get_multiple OT_KEvent t _ [h; h] W Hobj) as (ok & out & st' & E & _).
  { intros p o Hp. destruct (Hw p o Hp). simpl. split; [done|lia]. } { by repeat (apply list.Forall_cons; split). }
  eexists t, _, h, ok, out, st'. split; [exact E|exact Hh].
Defined.
