(* ===== verification/KMemoryBlock.v ===== *)
(** * KMemoryBlock: src/core/hle/kernel/k_memory_block.h

    One block of a process's address space: a run of pages with a state, a permission and
    attributes, and the counters that say how often the block is locked for IPC or shared with
    devices.  The enumerations are their underlying integers ([u32] for states, [u8] for the
    others), with the flag operators of common/common_funcs.h as the bit operations.  The
    theorems show that locking and unlocking, sharing and unsharing, splitting and adding undo
    one another, and which blocks may be merged. *)

From stdpp Require Import relations.
From S2P Require Import Prelude Common BitField KPageHeap.
#[local] Open Scope Z_scope.

Module MemoryState.

(** ** KMemoryState *)

Definition None_ : Z := 0.
Definition Mask : Z := 0xFF.
Definition All : Z := notu 32 None_.
Definition FlagCanReprotect : Z := 1 .<< 8.
Definition FlagCanDebug : Z := 1 .<< 9.
Definition FlagCanUseIpc : Z := 1 .<< 10.
Definition FlagCanUseNonDeviceIpc : Z := 1 .<< 11.
Definition FlagCanUseNonSecureIpc : Z := 1 .<< 12.
Definition FlagMapped : Z := 1 .<< 13.
Definition FlagCode : Z := 1 .<< 14.
Definition FlagCanAlias : Z := 1 .<< 15.
Definition FlagCanCodeAlias : Z := 1 .<< 16.
Definition FlagCanTransfer : Z := 1 .<< 17.
Definition FlagCanQueryPhysical : Z := 1 .<< 18.
Definition FlagCanDeviceMap : Z := 1 .<< 19.
Definition FlagCanAlignedDeviceMap : Z := 1 .<< 20.
Definition FlagCanIpcUserBuffer : Z := 1 .<< 21.
Definition FlagReferenceCounted : Z := 1 .<< 22.
Definition FlagCanMapProcess : Z := 1 .<< 23.
Definition FlagCanChangeAttribute : Z := 1 .<< 24.
Definition FlagCanCodeMemory : Z := 1 .<< 25.
Definition FlagLinearMapped : Z := 1 .<< 26.
Definition FlagCanPermissionLock : Z := 1 .<< 27.

Definition FlagsData : Z :=
  FlagCanReprotect .| FlagCanUseIpc .| FlagCanUseNonDeviceIpc .| FlagCanUseNonSecureIpc .|
  FlagMapped .| FlagCanAlias .| FlagCanTransfer .| FlagCanQueryPhysical .|
  FlagCanDeviceMap .| FlagCanAlignedDeviceMap .| FlagCanIpcUserBuffer .|
  FlagReferenceCounted .| FlagCanChangeAttribute .| FlagLinearMapped.
Definition FlagsCode : Z :=
  FlagCanDebug .| FlagCanUseIpc .| FlagCanUseNonDeviceIpc .| FlagCanUseNonSecureIpc .|
  FlagMapped .| FlagCode .| FlagCanQueryPhysical .| FlagCanDeviceMap .|
  FlagCanAlignedDeviceMap .| FlagReferenceCounted .| FlagLinearMapped.
Definition FlagsMisc : Z :=
  FlagMapped .| FlagReferenceCounted .| FlagCanQueryPhysical .| FlagCanDeviceMap .|
  FlagLinearMapped.

(** [Svc::MemoryState], the number a program sees. *)
Inductive Svc :=
| Free | Io | Static | Code | CodeData | Normal | Shared | Alias | AliasCode | AliasCodeData
| Ipc | Stack | ThreadLocal | Transferred | SharedTransferred | SharedCode | Inaccessible
| NonSecureIpc | NonDeviceIpc | Kernel | GeneratedCode | CodeOut | Coverage | Insecure.

Definition svc_value (s : Svc) : Z :=
  match s with
  | Free => 0x00 | Io => 0x01 | Static => 0x02 | Code => 0x03 | CodeData => 0x04
  | Normal => 0x05 | Shared => 0x06 | Alias => 0x07 | AliasCode => 0x08
  | AliasCodeData => 0x09 | Ipc => 0x0A | Stack => 0x0B | ThreadLocal => 0x0C
  | Transferred => 0x0D | SharedTransferred => 0x0E | SharedCode => 0x0F
  | Inaccessible => 0x10 | NonSecureIpc => 0x11 | NonDeviceIpc => 0x12 | Kernel => 0x13
  | GeneratedCode => 0x14 | CodeOut => 0x15 | Coverage => 0x16 | Insecure => 0x17
  end.

(** The flags each state has on top of its number.  Two states share [Io], [IoMemory] and
    [IoRegister], and none uses [Alias]. *)
Inductive KMemoryState :=
| KFree | KIoMemory | KIoRegister | KStatic | KCode | KCodeData | KNormal | KShared
| KAliasCode | KAliasCodeData | KIpc | KStack | KThreadLocal | KTransferred
| KSharedTransferred | KSharedCode | KInaccessible | KNonSecureIpc | KNonDeviceIpc | KKernel
| KGeneratedCode | KCodeOut | KCoverage | KInsecure.

#[export] Instance KMemoryState_eq_dec : EqDecision KMemoryState.
Proof. solve_decision. Defined.

Definition state_value (s : KMemoryState) : Z :=
  match s with
  | KFree => svc_value Free
  | KIoMemory => svc_value Io .| FlagMapped .| FlagCanDeviceMap .| FlagCanAlignedDeviceMap
  | KIoRegister => svc_value Io .| FlagCanDeviceMap .| FlagCanAlignedDeviceMap
  | KStatic => svc_value Static .| FlagMapped .| FlagCanQueryPhysical
  | KCode => svc_value Code .| FlagsCode .| FlagCanMapProcess
  | KCodeData => svc_value CodeData .| FlagsData .| FlagCanMapProcess .| FlagCanCodeMemory .|
      FlagCanPermissionLock
  | KNormal => svc_value Normal .| FlagsData .| FlagCanCodeMemory
  | KShared => svc_value Shared .| FlagMapped .| FlagReferenceCounted .| FlagLinearMapped
  | KAliasCode => svc_value AliasCode .| FlagsCode .| FlagCanMapProcess .| FlagCanCodeAlias
  | KAliasCodeData => svc_value AliasCodeData .| FlagsData .| FlagCanMapProcess .|
      FlagCanCodeAlias .| FlagCanCodeMemory .| FlagCanPermissionLock
  | KIpc => svc_value Ipc .| FlagsMisc .| FlagCanAlignedDeviceMap .| FlagCanUseIpc .|
      FlagCanUseNonSecureIpc .| FlagCanUseNonDeviceIpc
  | KStack => svc_value Stack .| FlagsMisc .| FlagCanAlignedDeviceMap .| FlagCanUseIpc .|
      FlagCanUseNonSecureIpc .| FlagCanUseNonDeviceIpc
  | KThreadLocal => svc_value ThreadLocal .| FlagLinearMapped
  | KTransferred => svc_value Transferred .| FlagsMisc .| FlagCanAlignedDeviceMap .|
      FlagCanChangeAttribute .| FlagCanUseIpc .| FlagCanUseNonSecureIpc .|
      FlagCanUseNonDeviceIpc
  | KSharedTransferred => svc_value SharedTransferred .| FlagsMisc .| FlagCanAlignedDeviceMap .|
      FlagCanUseNonSecureIpc .| FlagCanUseNonDeviceIpc
  | KSharedCode => svc_value SharedCode .| FlagMapped .| FlagReferenceCounted .|
      FlagLinearMapped .| FlagCanUseNonSecureIpc .| FlagCanUseNonDeviceIpc
  | KInaccessible => svc_value Inaccessible
  | KNonSecureIpc => svc_value NonSecureIpc .| FlagsMisc .| FlagCanAlignedDeviceMap .|
      FlagCanUseNonSecureIpc .| FlagCanUseNonDeviceIpc
  | KNonDeviceIpc => svc_value NonDeviceIpc .| FlagsMisc .| FlagCanUseNonDeviceIpc
  | KKernel => svc_value Kernel
  | KGeneratedCode => svc_value GeneratedCode .| FlagMapped .| FlagReferenceCounted .|
      FlagCanDebug .| FlagLinearMapped
  | KCodeOut => svc_value CodeOut .| FlagMapped .| FlagReferenceCounted .| FlagLinearMapped
  | KCoverage => svc_value Coverage .| FlagMapped
  | KInsecure => svc_value Insecure .| FlagMapped .| FlagReferenceCounted .| FlagLinearMapped .|
      FlagCanChangeAttribute .| FlagCanDeviceMap .| FlagCanAlignedDeviceMap .|
      FlagCanQueryPhysical .| FlagCanUseNonSecureIpc .| FlagCanUseNonDeviceIpc
  end.

(** The values the [static_assert]s of the header demand. *)
Definition asserted_value (s : KMemoryState) : Z :=
  match s with
  | KFree => 0x00000000 | KIoMemory => 0x00182001 | KIoRegister => 0x00180001
  | KStatic => 0x00042002 | KCode => 0x04DC7E03 | KCodeData => 0x0FFEBD04
  | KNormal => 0x077EBD05 | KShared => 0x04402006 | KAliasCode => 0x04DD7E08
  | KAliasCodeData => 0x0FFFBD09 | KIpc => 0x045C3C0A | KStack => 0x045C3C0B
  | KThreadLocal => 0x0400000C | KTransferred => 0x055C3C0D | KSharedTransferred => 0x045C380E
  | KSharedCode => 0x0440380F | KInaccessible => 0x00000010 | KNonSecureIpc => 0x045C3811
  | KNonDeviceIpc => 0x044C2812 | KKernel => 0x00000013 | KGeneratedCode => 0x04402214
  | KCodeOut => 0x04402015 | KCoverage => 0x00002016 | KInsecure => 0x055C3817
  end.

End MemoryState.

Module MemoryPermission.

(** ** Svc::MemoryPermission and KMemoryPermission *)

Definition Read : Z := 1 .<< 0.
Definition Write : Z := 1 .<< 1.
Definition Execute : Z := 1 .<< 2.
Definition DontCare : Z := 1 .<< 28.

Definition None_ : Z := 0.
Definition All : Z := notu 8 None_.
Definition KernelShift : Z := 3.
Definition KernelRead : Z := u8 (u8 Read .<< KernelShift).
Definition KernelWrite : Z := u8 (u8 Write .<< KernelShift).
Definition KernelExecute : Z := u8 (u8 Execute .<< KernelShift).
Definition NotMapped : Z := 1 .<< (2 * KernelShift).
Definition KernelReadWrite : Z := KernelRead .| KernelWrite.
Definition KernelReadExecute : Z := KernelRead .| KernelExecute.
Definition UserRead : Z := u8 Read .| KernelRead.
Definition UserWrite : Z := u8 Write .| KernelWrite.
Definition UserExecute : Z := u8 Execute.
Definition UserReadWrite : Z := UserRead .| UserWrite.
Definition UserReadExecute : Z := UserRead .| UserExecute.
Definition UserMask : Z := u8 (Read .| Write .| Execute).
Definition IpcLockChangeMask : Z := NotMapped .| UserReadWrite.

Definition ConvertToKMemoryPermission (perm : Z) : Z :=
  (u8 perm .& UserMask) .| KernelRead .|
  u8 ((u8 perm .& UserWrite) .<< KernelShift) .|
  (if perm =? None_ then NotMapped else None_).

End MemoryPermission.

Module MemoryAttribute.

(** ** KMemoryAttribute *)

Definition None_ : Z := 0x00.
Definition All : Z := 0xFF.
Definition UserMask : Z := All.
Definition Locked : Z := 1 .<< 0.
Definition IpcLocked : Z := 1 .<< 1.
Definition DeviceShared : Z := 1 .<< 2.
Definition Uncached : Z := 1 .<< 3.
Definition PermissionLocked : Z := 1 .<< 4.
Definition SetMask : Z := Uncached .| PermissionLocked.

End MemoryAttribute.

Module DisableMerge.

(** ** KMemoryBlockDisableMergeAttribute *)

Definition None_ : Z := 0.
Definition Normal : Z := 1 .<< 0.
Definition DeviceLeft : Z := 1 .<< 1.
Definition IpcLeft : Z := 1 .<< 2.
Definition Locked : Z := 1 .<< 3.
Definition DeviceRight : Z := 1 .<< 4.
Definition AllLeft : Z := Normal .| DeviceLeft .| IpcLeft .| Locked.
Definition AllRight : Z := DeviceRight.

End DisableMerge.

(** ** KMemoryBlock *)

Record KMemoryBlock := mkMemoryBlock {
  m_device_disable_merge_left_count : Z;
  m_device_disable_merge_right_count : Z;
  m_address : Z;
  m_num_pages : Z;
  m_memory_state : Z;
  m_ipc_lock_count : Z;
  m_device_use_count : Z;
  m_ipc_disable_merge_count : Z;
  m_permission : Z;
  m_original_permission : Z;
  m_attribute : Z;
  m_disable_merge_attribute : Z
}.

#[export] Instance KMemoryBlock_eq_dec : EqDecision KMemoryBlock.
Proof. solve_decision. Defined.

(** The default-constructed block, and the constructor with five arguments. *)
Definition KMemoryBlock_default : KMemoryBlock := mkMemoryBlock 0 0 0 0 0 0 0 0 0 0 0 0.
Definition KMemoryBlock_new (addr np ms p attr : Z) : KMemoryBlock :=
  mkMemoryBlock 0 0 addr np ms 0 0 0 p 0 attr 0.

(** Assignments to single members. *)
Definition set_device_left (c : Z) (b : KMemoryBlock) : KMemoryBlock :=
  let 'mkMemoryBlock _ r ad np st il du id pm op at_ dm := b in
  mkMemoryBlock c r ad np st il du id pm op at_ dm.
Definition set_device_right (c : Z) (b : KMemoryBlock) : KMemoryBlock :=
  let 'mkMemoryBlock l _ ad np st il du id pm op at_ dm := b in
  mkMemoryBlock l c ad np st il du id pm op at_ dm.
Definition set_address (a : Z) (b : KMemoryBlock) : KMemoryBlock :=
  let 'mkMemoryBlock l r _ np st il du id pm op at_ dm := b in
  mkMemoryBlock l r a np st il du id pm op at_ dm.
Definition set_num_pages (n : Z) (b : KMemoryBlock) : KMemoryBlock :=
  let 'mkMemoryBlock l r ad _ st il du id pm op at_ dm := b in
  mkMemoryBlock l r ad n st il du id pm op at_ dm.
Definition set_state (s : Z) (b : KMemoryBlock) : KMemoryBlock :=
  let 'mkMemoryBlock l r ad np _ il du id pm op at_ dm := b in
  mkMemoryBlock l r ad np s il du id pm op at_ dm.
Definition set_ipc_lock (c : Z) (b : KMemoryBlock) : KMemoryBlock :=
  let 'mkMemoryBlock l r ad np st _ du id pm op at_ dm := b in
  mkMemoryBlock l r ad np st c du id pm op at_ dm.
Definition set_device_use (c : Z) (b : KMemoryBlock) : KMemoryBlock :=
  let 'mkMemoryBlock l r ad np st il _ id pm op at_ dm := b in
  mkMemoryBlock l r ad np st il c id pm op at_ dm.
Definition set_ipc_disable_merge (c : Z) (b : KMemoryBlock) : KMemoryBlock :=
  let 'mkMemoryBlock l r ad np st il du _ pm op at_ dm := b in
  mkMemoryBlock l r ad np st il du c pm op at_ dm.
Definition set_permission (p : Z) (b : KMemoryBlock) : KMemoryBlock :=
  let 'mkMemoryBlock l r ad np st il du id _ op at_ dm := b in
  mkMemoryBlock l r ad np st il du id p op at_ dm.
Definition set_original_permission (p : Z) (b : KMemoryBlock) : KMemoryBlock :=
  let 'mkMemoryBlock l r ad np st il du id pm _ at_ dm := b in
  mkMemoryBlock l r ad np st il du id pm p at_ dm.
Definition set_attribute (a : Z) (b : KMemoryBlock) : KMemoryBlock :=
  let 'mkMemoryBlock l r ad np st il du id pm op _ dm := b in
  mkMemoryBlock l r ad np st il du id pm op a dm.
Definition set_disable_merge (d : Z) (b : KMemoryBlock) : KMemoryBlock :=
  let 'mkMemoryBlock l r ad np st il du id pm op at_ _ := b in
  mkMemoryBlock l r ad np st il du id pm op at_ d.

Definition GetAddress (b : KMemoryBlock) : Z := m_address b.
Definition GetNumPages (b : KMemoryBlock) : Z := m_num_pages b.
Definition GetSize (b : KMemoryBlock) : Z := u64 (GetNumPages b * PageSize).
Definition GetEndAddress (b : KMemoryBlock) : Z := u64 (GetAddress b + GetSize b).
Definition GetLastAddress (b : KMemoryBlock) : Z := u64 (GetEndAddress b - 1).

Definition Compare (lhs rhs : KMemoryBlock) : comparison :=
  if GetAddress lhs <? GetAddress rhs then Lt
  else if GetAddress lhs <=? GetLastAddress rhs then Eq
  else Gt.

Module MemoryInfo.

(** ** KMemoryInfo, the copy of a block handed to callers *)

Record KMemoryInfo := mkMemoryInfo {
  i_address : Z;
  i_size : Z;
  i_state : Z;
  i_device_disable_merge_left_count : Z;
  i_device_disable_merge_right_count : Z;
  i_ipc_lock_count : Z;
  i_device_use_count : Z;
  i_ipc_disable_merge_count : Z;
  i_permission : Z;
  i_attribute : Z;
  i_original_permission : Z;
  i_disable_merge_attribute : Z
}.

(** [Svc::MemoryInfo] without its padding. *)
Record SvcMemoryInfo := mkSvcMemoryInfo {
  base_address : Z;
  size : Z;
  state : Z;
  attribute : Z;
  permission : Z;
  ipc_count : Z;
  device_count : Z
}.

Definition GetSvcMemoryInfo (i : KMemoryInfo) : SvcMemoryInfo :=
  mkSvcMemoryInfo (i_address i) (i_size i) (i_state i .& MemoryState.Mask)
    (i_attribute i .& MemoryAttribute.UserMask) (i_permission i .& MemoryPermission.UserMask)
    (i_ipc_lock_count i) (i_device_use_count i).

Definition Info_GetAddress (i : KMemoryInfo) : Z := i_address i.
Definition Info_GetSize (i : KMemoryInfo) : Z := i_size i.
Definition Info_GetNumPages (i : KMemoryInfo) : Z := Info_GetSize i / PageSize.
Definition Info_GetEndAddress (i : KMemoryInfo) : Z := u64 (Info_GetAddress i + Info_GetSize i).
Definition Info_GetLastAddress (i : KMemoryInfo) : Z := u64 (Info_GetEndAddress i - 1).
Definition GetSvcState (i : KMemoryInfo) : Z := i_state i .& MemoryState.Mask.

End MemoryInfo.
Export MemoryInfo.

Definition GetMemoryInfo (b : KMemoryBlock) : KMemoryInfo :=
  mkMemoryInfo (GetAddress b) (GetSize b) (m_memory_state b)
    (m_device_disable_merge_left_count b) (m_device_disable_merge_right_count b)
    (m_ipc_lock_count b) (m_device_use_count b) (m_ipc_disable_merge_count b)
    (m_permission b) (m_attribute b) (m_original_permission b) (m_disable_merge_attribute b).

(** [Initialize] leaves [m_ipc_disable_merge_count] as it was. *)
Definition Initialize (addr np ms p attr : Z) (b : KMemoryBlock) : KMemoryBlock :=
  mkMemoryBlock 0 0 addr np ms 0 0 (m_ipc_disable_merge_count b) p MemoryPermission.None_ attr
    DisableMerge.None_.

Definition AttributeIgnoreMask : Z := MemoryAttribute.IpcLocked .| MemoryAttribute.DeviceShared.

Definition HasProperties (b : KMemoryBlock) (s p a : Z) : bool :=
  (m_memory_state b =? s) && (m_permission b =? p) &&
  ((m_attribute b .| AttributeIgnoreMask) =? (a .| AttributeIgnoreMask)).

Definition HasSameProperties (b rhs : KMemoryBlock) : bool :=
  (m_memory_state b =? m_memory_state rhs) && (m_permission b =? m_permission rhs) &&
  (m_original_permission b =? m_original_permission rhs) &&
  (m_attribute b =? m_attribute rhs) && (m_ipc_lock_count b =? m_ipc_lock_count rhs) &&
  (m_device_use_count b =? m_device_use_count rhs).

Definition CanMergeWith (b rhs : KMemoryBlock) : bool :=
  HasSameProperties b rhs &&
  ((m_disable_merge_attribute b .& DisableMerge.AllRight) =? DisableMerge.None_) &&
  ((m_disable_merge_attribute rhs .& DisableMerge.AllLeft) =? DisableMerge.None_).

(** The end address itself counts as contained. *)
Definition Contains (b : KMemoryBlock) (addr : Z) : bool :=
  (GetAddress b <=? addr) && (addr <=? GetEndAddress b).

Definition Add (b added_block : KMemoryBlock) : outcome KMemoryBlock :=
  ASSERT (0 <? GetNumPages added_block);;
  ASSERT (u64 (u64 (GetAddress b + GetSize added_block) - 1) <?
          u64 (u64 (GetEndAddress b + GetSize added_block) - 1));;
  mret (set_device_right (m_device_disable_merge_right_count added_block)
          (set_disable_merge (m_disable_merge_attribute b .| m_disable_merge_attribute added_block)
             (set_num_pages (u64 (m_num_pages b + GetNumPages added_block)) b))).

Definition Update (b : KMemoryBlock) (s p a : Z) (set_disable_merge_attr : bool)
    (set_mask clear_mask : Z) : outcome KMemoryBlock :=
  ASSERT (m_original_permission b =? MemoryPermission.None_);;
  ASSERT ((m_attribute b .& MemoryAttribute.IpcLocked) =? MemoryAttribute.None_);;
  let b := set_attribute (a .| (m_attribute b .&
                (MemoryAttribute.IpcLocked .| MemoryAttribute.DeviceShared)))
             (set_permission p (set_state s b)) in
  let b := if set_disable_merge_attr && negb (set_mask =? 0)
           then set_disable_merge (m_disable_merge_attribute b .| set_mask) b else b in
  mret (if negb (clear_mask =? 0)
        then set_disable_merge (m_disable_merge_attribute b .& notu 8 clear_mask) b else b).

Definition UpdateAttribute (b : KMemoryBlock) (mask attr : Z) : outcome KMemoryBlock :=
  ASSERT ((mask .& MemoryAttribute.IpcLocked) =? 0);;
  ASSERT ((mask .& MemoryAttribute.DeviceShared) =? 0);;
  mret (set_attribute ((m_attribute b .& notu 8 mask) .| attr) b).

(** [Split]: the block written through the pointer (every member is assigned), then this one. *)
Definition Split (b : KMemoryBlock) (addr : Z) : outcome (KMemoryBlock * KMemoryBlock) :=
  ASSERT (GetAddress b <? addr);;
  ASSERT (Contains b addr);;
  ASSERT (IsAligned 64 addr PageSize);;
  let block := mkMemoryBlock (m_device_disable_merge_left_count b) 0 (m_address b)
                 (u64 (addr - GetAddress b) / PageSize) (m_memory_state b) (m_ipc_lock_count b)
                 (m_device_use_count b) (m_ipc_disable_merge_count b) (m_permission b)
                 (m_original_permission b) (m_attribute b)
                 (m_disable_merge_attribute b .& DisableMerge.AllLeft) in
  let b := set_num_pages (u64 (m_num_pages b - m_num_pages block)) (set_address addr b) in
  mret (block,
        set_disable_merge (m_disable_merge_attribute b .& DisableMerge.AllRight)
          (set_device_left 0 (set_ipc_disable_merge 0 b))).

(** ** Sharing with devices *)

Definition UpdateDeviceDisableMergeStateForShareLeft (b : KMemoryBlock) (new_perm : Z)
    (left right : bool) : outcome KMemoryBlock :=
  if left then
    let b := set_disable_merge (m_disable_merge_attribute b .| DisableMerge.DeviceLeft) b in
    let c := u16 (m_device_disable_merge_left_count b + 1) in
    ASSERT (0 <? c);; mret (set_device_left c b)
  else mret b.

Definition UpdateDeviceDisableMergeStateForShareRight (b : KMemoryBlock) (new_perm : Z)
    (left right : bool) : outcome KMemoryBlock :=
  if right then
    let b := set_disable_merge (m_disable_merge_attribute b .| DisableMerge.DeviceRight) b in
    let c := u16 (m_device_disable_merge_right_count b + 1) in
    ASSERT (0 <? c);; mret (set_device_right c b)
  else mret b.

Definition UpdateDeviceDisableMergeStateForShare (b : KMemoryBlock) (new_perm : Z)
    (left right : bool) : outcome KMemoryBlock :=
  b ← UpdateDeviceDisableMergeStateForShareLeft b new_perm left right;
  UpdateDeviceDisableMergeStateForShareRight b new_perm left right.

Definition ShareToDevice (b : KMemoryBlock) (new_perm : Z) (left right : bool) :
    outcome KMemoryBlock :=
  ASSERT (((m_attribute b .& MemoryAttribute.DeviceShared) =? MemoryAttribute.DeviceShared) ||
          (m_device_use_count b =? 0));;
  let new_count := u16 (m_device_use_count b + 1) in
  ASSERT (0 <? new_count);;
  let b := set_attribute (m_attribute b .| MemoryAttribute.DeviceShared)
             (set_device_use new_count b) in
  UpdateDeviceDisableMergeStateForShare b new_perm left right.

(** The early return when the left count is already zero leaves everything as it is. *)
Definition UpdateDeviceDisableMergeStateForUnshareLeft (b : KMemoryBlock) (new_perm : Z)
    (left right : bool) : outcome KMemoryBlock :=
  if left && (m_device_disable_merge_left_count b =? 0) then mret b
  else
    let b := if left then set_device_left (u16 (m_device_disable_merge_left_count b - 1)) b
             else b in
    let b := set_device_left (Z.min (m_device_disable_merge_left_count b)
                                (m_device_use_count b)) b in
    mret (if m_device_disable_merge_left_count b =? 0
          then set_disable_merge
                 (m_disable_merge_attribute b .& notu 8 DisableMerge.DeviceLeft) b
          else b).

Definition UpdateDeviceDisableMergeStateForUnshareRight (b : KMemoryBlock) (new_perm : Z)
    (left right : bool) : outcome KMemoryBlock :=
  if right then
    let old := m_device_disable_merge_right_count b in
    let b := set_device_right (u16 (old - 1)) b in
    ASSERT (0 <? old);;
    mret (if old =? 1
          then set_disable_merge
                 (m_disable_merge_attribute b .& notu 8 DisableMerge.DeviceRight) b
          else b)
  else mret b.

Definition UpdateDeviceDisableMergeStateForUnshare (b : KMemoryBlock) (new_perm : Z)
    (left right : bool) : outcome KMemoryBlock :=
  b ← UpdateDeviceDisableMergeStateForUnshareLeft b new_perm left right;
  UpdateDeviceDisableMergeStateForUnshareRight b new_perm left right.

(** The part [UnshareToDevice] and [UnshareToDeviceRight] have in common. *)
Definition unshare (b : KMemoryBlock) : outcome KMemoryBlock :=
  ASSERT ((m_attribute b .& MemoryAttribute.DeviceShared) =? MemoryAttribute.DeviceShared);;
  let old_count := m_device_use_count b in
  let b := set_device_use (u16 (old_count - 1)) b in
  ASSERT (0 <? old_count);;
  mret (if old_count =? 1
        then set_attribute (m_attribute b .& notu 8 MemoryAttribute.DeviceShared) b else b).

Definition UnshareToDevice (b : KMemoryBlock) (new_perm : Z) (left right : bool) :
    outcome KMemoryBlock :=
  b ← unshare b; UpdateDeviceDisableMergeStateForUnshare b new_perm left right.

Definition UnshareToDeviceRight (b : KMemoryBlock) (new_perm : Z) (left right : bool) :
    outcome KMemoryBlock :=
  b ← unshare b; UpdateDeviceDisableMergeStateForUnshareRight b new_perm left right.

(** ** Locking for IPC *)

Definition LockForIpc (b : KMemoryBlock) (new_perm : Z) (left right : bool) :
    outcome KMemoryBlock :=
  ASSERT (((m_attribute b .& MemoryAttribute.IpcLocked) =? MemoryAttribute.IpcLocked) ||
          (m_ipc_lock_count b =? 0));;
  let new_lock_count := u16 (m_ipc_lock_count b + 1) in
  let b := set_ipc_lock new_lock_count b in
  ASSERT (0 <? new_lock_count);;
  b ← (if new_lock_count =? 1 then
         ASSERT (m_original_permission b =? MemoryPermission.None_);;
         ASSERT ((m_permission b .| new_perm .| MemoryPermission.NotMapped) =?
                 (m_permission b .| MemoryPermission.NotMapped));;
         ASSERT (negb ((m_permission b .& MemoryPermission.UserExecute) =?
                       MemoryPermission.UserExecute) ||
                 (new_perm =? MemoryPermission.UserRead));;
         let b := set_original_permission (m_permission b) b in
         mret (set_permission
                 ((new_perm .& MemoryPermission.IpcLockChangeMask) .|
                  (m_original_permission b .& notu 8 MemoryPermission.IpcLockChangeMask)) b)
       else mret b);
  let b := set_attribute (m_attribute b .| MemoryAttribute.IpcLocked) b in
  if left then
    let b := set_disable_merge (m_disable_merge_attribute b .| DisableMerge.IpcLeft) b in
    let c := u16 (m_ipc_disable_merge_count b + 1) in
    ASSERT (0 <? c);; mret (set_ipc_disable_merge c b)
  else mret b.

Definition UnlockForIpc (b : KMemoryBlock) (new_perm : Z) (left right : bool) :
    outcome KMemoryBlock :=
  ASSERT ((m_attribute b .& MemoryAttribute.IpcLocked) =? MemoryAttribute.IpcLocked);;
  let old_lock_count := m_ipc_lock_count b in
  let b := set_ipc_lock (u16 (old_lock_count - 1)) b in
  ASSERT (0 <? old_lock_count);;
  b ← (if old_lock_count =? 1 then
         ASSERT (negb (m_original_permission b =? MemoryPermission.None_));;
         mret (set_attribute (m_attribute b .& notu 8 MemoryAttribute.IpcLocked)
                 (set_original_permission MemoryPermission.None_
                    (set_permission (m_original_permission b) b)))
       else mret b);
  if left then
    let old := m_ipc_disable_merge_count b in
    let b := set_ipc_disable_merge (u16 (old - 1)) b in
    ASSERT (0 <? old);;
    mret (if old =? 1
          then set_disable_merge (m_disable_merge_attribute b .& notu 8 DisableMerge.IpcLeft) b
          else b)
  else mret b.

(** ** Flag bits *)

#[local] Arguments Z.testbit : simpl never.
#[local] Arguments Z.shiftl : simpl never.
#[local] Arguments Z.land : simpl never.
#[local] Arguments Z.lor : simpl never.
#[local] Arguments Z.pow : simpl never.

(** Testing, setting and clearing one flag of an 8-bit enumeration, as operations on bit [n]. *)
Lemma flag_test x n :
  0 <= n -> ((x .& (1 .<< n)) =? (1 .<< n)) = Z.testbit x n.
Proof.
  intros Hn. rewrite Z.shiftl_1_l. destruct (Z.testbit x n) eqn:E.
  - apply Z.eqb_eq, Z.bits_inj'. intros i Hi. rewrite Z.land_spec.
    destruct (Z.eq_dec i n) as [->|]; [by rewrite E|].
    by rewrite Z.pow2_bits_false, andb_false_r.
  - apply Z.eqb_neq. intros Heq. apply (f_equal (fun y => Z.testbit y n)) in Heq.
    by rewrite Z.land_spec, E, Z.pow2_bits_true in Heq.
Qed.

Lemma flag_test_none x n : 0 <= n -> ((x .& (1 .<< n)) =? 0) = negb (Z.testbit x n).
Proof.
  intros Hn. rewrite Z.shiftl_1_l. destruct (Z.testbit x n) eqn:E; simpl.
  - apply Z.eqb_neq. intros Heq. apply (f_equal (fun y => Z.testbit y n)) in Heq.
    by rewrite Z.land_spec, E, Z.pow2_bits_true, Z.bits_0 in Heq.
  - apply Z.eqb_eq, Z.bits_inj'. intros i Hi. rewrite Z.land_spec, Z.bits_0.
    destruct (Z.eq_dec i n) as [->|]; [by rewrite E|].
    by rewrite Z.pow2_bits_false, andb_false_r.
Qed.

Lemma flag_set_bit x n i : 0 <= n -> Z.testbit (x .| (1 .<< n)) i = Z.testbit x i || (i =? n).
Proof. intros. by rewrite Z.lor_spec, testbit_pow2. Qed.

Lemma flag_clear_bit x n i :
  0 <= n < 8 -> in_u 8 x ->
  Z.testbit (x .& notu 8 (1 .<< n)) i = Z.testbit x i && negb (i =? n).
Proof.
  intros Hn Hx. rewrite Z.land_spec, testbit_notu, testbit_pow2 by lia.
  destruct (Z.leb_spec 0 i), (Z.ltb_spec i 8), (Z.eqb_spec i n); simpl; try lia; try done;
    rewrite ?andb_false_r, ?andb_true_r; try done.
  - by rewrite (testbit_above 8) by (done || lia).
  - by rewrite Z.testbit_neg_r by lia.
Qed.

Lemma flag_in_u8 n : 0 <= n < 8 -> in_u 8 (1 .<< n).
Proof. intros. rewrite Z.shiftl_1_l. split; [lia|]. apply Z.pow_lt_mono_r; lia. Qed.

Lemma flag_set_clear x n :
  0 <= n < 8 -> in_u 8 x -> Z.testbit x n = false ->
  (x .| (1 .<< n)) .& notu 8 (1 .<< n) = x.
Proof.
  intros Hn Hx E. apply Z.bits_inj'. intros i Hi.
  rewrite flag_clear_bit, flag_set_bit; [|lia|lia|apply in_u_lor; [lia|done|by apply flag_in_u8]].
  destruct (Z.eqb_spec i n) as [->|]; [by rewrite E|].
  by rewrite orb_false_r, andb_true_r.
Qed.

Lemma flag_set_same x n : 0 <= n -> Z.testbit x n = true -> x .| (1 .<< n) = x.
Proof.
  intros Hn E. apply Z.bits_inj'. intros i Hi. rewrite flag_set_bit by done.
  destruct (Z.eqb_spec i n) as [->|]; [by rewrite E|]. by rewrite orb_false_r.
Qed.

Lemma notu8_range x : in_u 8 x -> in_u 8 (notu 8 x).
Proof. intros. apply in_u_lxor; [lia|done|]. by vm_compute. Qed.

#[export] Hint Resolve flag_in_u8 notu8_range : zbits.

Lemma u16_pred x : 0 < x < 2 ^ 16 -> u16 (x - 1) = x - 1.
Proof. intros. apply u16_small. lia. Qed.

(** A 16-bit increment that does not come back as zero did not overflow. *)
Lemma u16_succ_pos x :
  in_u 16 x -> (0 <? u16 (x + 1)) = true -> u16 (x + 1) = x + 1 /\ x + 1 < 2 ^ 16.
Proof.
  intros Hx H. unfold in_u in Hx. destruct (Z.eq_dec x (2 ^ 16 - 1)) as [->|].
  - by vm_compute in H.
  - split; [apply u16_small; lia|lia].
Qed.

(** ** The invariant of a block

    A lock or share flag is set exactly when its counter is positive, and a block not locked has
    no saved permission. *)

Record block_ok (b : KMemoryBlock) : Prop := {
  ok_left : in_u 16 (m_device_disable_merge_left_count b);
  ok_right : in_u 16 (m_device_disable_merge_right_count b);
  ok_lock : in_u 16 (m_ipc_lock_count b);
  ok_use : in_u 16 (m_device_use_count b);
  ok_ipc : in_u 16 (m_ipc_disable_merge_count b);
  ok_perm : in_u 8 (m_permission b);
  ok_attr : in_u 8 (m_attribute b);
  ok_merge : in_u 5 (m_disable_merge_attribute b);
  ok_locked : Z.testbit (m_attribute b) 1 = negb (m_ipc_lock_count b =? 0);
  ok_shared : Z.testbit (m_attribute b) 2 = negb (m_device_use_count b =? 0);
  ok_original : m_ipc_lock_count b = 0 -> m_original_permission b = 0;
  ok_device_left :
    Z.testbit (m_disable_merge_attribute b) 1 = negb (m_device_disable_merge_left_count b =? 0);
  ok_ipc_left :
    Z.testbit (m_disable_merge_attribute b) 2 = negb (m_ipc_disable_merge_count b =? 0);
  ok_device_right :
    Z.testbit (m_disable_merge_attribute b) 4 = negb (m_device_disable_merge_right_count b =? 0)
}.

Lemma in_u_5_8 x : in_u 5 x -> in_u 8 x.
Proof. unfold in_u. lia. Qed.
#[export] Hint Resolve in_u_5_8 : zbits.

Ltac flags :=
  repeat match goal with
  | |- context [Z.testbit (?x .| (1 .<< ?n)) ?i] => rewrite (flag_set_bit x n i) by lia
  | |- context [Z.testbit (?x .& notu 8 (1 .<< ?n)) ?i] =>
      rewrite (flag_clear_bit x n i) by (first [lia | auto with zbits])
  end.

(** ** Locking for IPC *)

(** When a lock may be taken: the counters do not overflow and a first lock only removes user
    permissions. *)
Definition lock_pre (b : KMemoryBlock) (new_perm : Z) : Prop :=
  m_ipc_lock_count b < 2 ^ 16 - 1 /\ m_ipc_disable_merge_count b < 2 ^ 16 - 1 /\
  (m_ipc_lock_count b = 0 ->
     m_permission b <> 0 /\
     m_permission b .| new_perm .| MemoryPermission.NotMapped =
       m_permission b .| MemoryPermission.NotMapped /\
     (Z.testbit (m_permission b) 2 = true -> new_perm = MemoryPermission.UserRead)).

Definition locked_permission (b : KMemoryBlock) (new_perm : Z) : Z :=
  if m_ipc_lock_count b =? 0
  then (new_perm .& MemoryPermission.IpcLockChangeMask) .|
       (m_permission b .& notu 8 MemoryPermission.IpcLockChangeMask)
  else m_permission b.

Definition lock_result (b : KMemoryBlock) (new_perm : Z) (left : bool) : KMemoryBlock :=
  mkMemoryBlock (m_device_disable_merge_left_count b) (m_device_disable_merge_right_count b)
    (m_address b) (m_num_pages b) (m_memory_state b) (m_ipc_lock_count b + 1)
    (m_device_use_count b) (m_ipc_disable_merge_count b + Z.b2z left)
    (locked_permission b new_perm)
    (if m_ipc_lock_count b =? 0 then m_permission b else m_original_permission b)
    (m_attribute b .| MemoryAttribute.IpcLocked)
    (if left then m_disable_merge_attribute b .| DisableMerge.IpcLeft
     else m_disable_merge_attribute b).

(** Reduces the outcome monad and the member assignments on an explicit block. *)
Ltac run_block :=
  unfold mbind, outcome_mbind, outcome_bind, ASSERT, mret, outcome_mret; simpl.

Lemma eqb_succ_1 x : (x + 1 =? 1) = (x =? 0).
Proof. destruct (Z.eqb_spec x 0), (Z.eqb_spec (x + 1) 1); lia. Qed.

Lemma ltb_0_succ x : 0 <= x -> (0 <? x + 1) = true.
Proof. intros. apply Z.ltb_lt. lia. Qed.

Lemma LockForIpc_eq b new_perm left right :
  block_ok b -> lock_pre b new_perm ->
  LockForIpc b new_perm left right = Done true (lock_result b new_perm left).
Proof.
  intros Hok (Hc1 & Hc2 & Hp). pose proof (ok_lock b Hok) as H1. pose proof (ok_ipc b Hok) as H2.
  unfold in_u in H1, H2. pose proof (ok_locked b Hok) as Hl. pose proof (ok_original b Hok) as Ho.
  destruct b as [l r ad np st il du id pm op at_ dm]; simpl in *.
  unfold LockForIpc, lock_result, locked_permission; run_block.
  unfold MemoryAttribute.IpcLocked, DisableMerge.IpcLeft. rewrite flag_test, Hl by lia.
  rewrite (u16_small (il + 1)), eqb_succ_1, ltb_0_succ by lia.
  change MemoryPermission.UserExecute with (1 .<< 2). rewrite flag_test by lia.
  destruct (Z.eqb_spec il 0) as [->|Hil].
  - destruct (Hp eq_refl) as (_ & Hsub & Hx). rewrite Ho, (proj2 (Z.eqb_eq _ _) Hsub) by done.
    destruct (Z.testbit pm 2); [rewrite Hx by done|]; destruct left; simpl;
      by rewrite ?Z.add_0_r, ?(u16_small (id + 1)), ?ltb_0_succ by lia.
  - destruct left; simpl; by rewrite ?Z.add_0_r, ?(u16_small (id + 1)), ?ltb_0_succ by lia.
Qed.

Lemma UnlockForIpc_eq b new_perm perm' left right :
  block_ok b -> lock_pre b new_perm ->
  UnlockForIpc (lock_result b new_perm left) perm' left right = Done true b.
Proof.
  intros Hok (Hc1 & Hc2 & Hp).
  pose proof (ok_lock b Hok) as H1. pose proof (ok_ipc b Hok) as H2. unfold in_u in H1, H2.
  pose proof (ok_locked b Hok) as Hl. pose proof (ok_original b Hok) as Ho.
  pose proof (ok_ipc_left b Hok) as Hi. pose proof (ok_attr b Hok) as Ha.
  pose proof (in_u_5_8 _ (ok_merge b Hok)) as Hm.
  destruct b as [l r ad np st il du id pm op at_ dm]; simpl in *.
  unfold UnlockForIpc, lock_result, locked_permission; run_block.
  unfold MemoryAttribute.IpcLocked, DisableMerge.IpcLeft. rewrite flag_test by lia.
  rewrite flag_set_bit, orb_true_r, ltb_0_succ, eqb_succ_1 by lia.
  rewrite (u16_pred (il + 1)) by lia. replace (il + 1 - 1) with il by lia.
  destruct (Z.eqb_spec il 0) as [->|Hil].
  - destruct (Hp eq_refl) as (Hpm & _ & _). change MemoryPermission.None_ with 0 in *.
    rewrite (proj2 (Z.eqb_neq pm _) Hpm), Ho by done. simpl.
    rewrite flag_set_clear by (try done; lia).
    destruct left; simpl; rewrite ?Z.add_0_r; [|done].
    rewrite ltb_0_succ, eqb_succ_1, (u16_pred (id + 1)) by lia.
    replace (id + 1 - 1) with id by lia. destruct (Z.eqb_spec id 0) as [->|]; simpl.
    + by rewrite flag_set_clear by (try done; lia).
    + by rewrite flag_set_same by (try done; lia).
  - simpl. rewrite flag_set_same by (done || lia).
    destruct left; simpl; rewrite ?Z.add_0_r; [|done].
    rewrite ltb_0_succ, eqb_succ_1, (u16_pred (id + 1)) by lia.
    replace (id + 1 - 1) with id by lia. destruct (Z.eqb_spec id 0) as [->|]; simpl.
    + by rewrite flag_set_clear by (try done; lia).
    + by rewrite flag_set_same by (try done; lia).
Qed.

(** Locking keeps the invariant. *)
Lemma lock_result_ok b new_perm left :
  block_ok b -> lock_pre b new_perm -> in_u 8 new_perm -> block_ok (lock_result b new_perm left).
Proof.
  intros [] (Hc1 & Hc2 & Hp) Hn. unfold in_u in *.
  assert (in_u 8 (locked_permission b new_perm)).
  { unfold locked_permission. destruct (_ =? 0); [|done].
    apply in_u_lor; [lia|apply in_u_land; [lia|done|by vm_compute]|].
    apply in_u_land; [lia|done|by vm_compute]. }
  constructor; simpl; try done.
  - unfold in_u. lia.
  - unfold in_u. destruct left; simpl; lia.
  - by apply in_u_lor; [lia| |apply flag_in_u8].
  - destruct left; [|done]. apply in_u_lor; [lia|done|by vm_compute].
  - unfold MemoryAttribute.IpcLocked. rewrite flag_set_bit, orb_true_r by lia.
    by destruct (Z.eqb_spec (m_ipc_lock_count b + 1) 0); [lia|].
  - unfold MemoryAttribute.IpcLocked. by rewrite flag_set_bit, orb_false_r by lia.
  - intros. lia.
  - destruct left; [|done]. unfold DisableMerge.IpcLeft.
    by rewrite flag_set_bit, orb_false_r by lia.
  - destruct left; simpl; [|by rewrite Z.add_0_r]. unfold DisableMerge.IpcLeft.
    rewrite flag_set_bit, orb_true_r by lia.
    by destruct (Z.eqb_spec (m_ipc_disable_merge_count b + 1) 0); [lia|].
  - destruct left; [|done]. unfold DisableMerge.IpcLeft.
    by rewrite flag_set_bit, orb_false_r by lia.
Qed.

(** Locking a block for IPC and unlocking it again restores the block exactly, at any nesting
    depth; no assertion fails in either call.  While it is locked the block keeps its invariant
    (lock flag set, counters in range), and its user permissions are among those it had before
    the lock or the "not mapped" mark. *)
Theorem ipc_lock_unlock b new_perm perm' left right :
  block_ok b -> lock_pre b new_perm -> in_u 8 new_perm ->
  exists b', LockForIpc b new_perm left right = Done true b' /\
    block_ok b' /\ UnlockForIpc b' perm' left right = Done true b /\
    m_ipc_lock_count b' = m_ipc_lock_count b + 1 /\
    (forall i, Z.testbit (m_permission b') i = true ->
       Z.testbit (m_permission b) i = true \/ i = 6).
Proof.
  intros Hok Hpre Hn. exists (lock_result b new_perm left).
  split_and!; [by apply LockForIpc_eq|by apply lock_result_ok|by apply (UnlockForIpc_eq _ new_perm)
              |done|].
  destruct Hpre as (_ & _ & Hp). simpl. unfold locked_permission. intros i.
  destruct (Z.eqb_spec (m_ipc_lock_count b) 0) as [Hc|]; [|by left].
  destruct (Hp Hc) as (_ & Hsub & _). apply (f_equal (fun x => Z.testbit x i)) in Hsub.
  change MemoryPermission.NotMapped with (1 .<< 6) in Hsub.
  rewrite !Z.lor_spec, !testbit_pow2 in Hsub by lia. rewrite Z.lor_spec, !Z.land_spec.
  destruct (Z.eqb_spec i 6); [by right|]. rewrite !orb_false_r in Hsub.
  destruct (Z.testbit (m_permission b) i); [by left|]. simpl in Hsub. by rewrite Hsub.
Qed.

Lemma ipc_lock_unlock_witness :
  let b := KMemoryBlock_new 0x8000000 4 0x077EBD05 MemoryPermission.UserReadWrite 0 in
  exists b', LockForIpc b MemoryPermission.UserRead true false = Done true b' /\
    block_ok b' /\ UnlockForIpc b' 0 true false = Done true b /\
    m_ipc_lock_count b' = m_ipc_lock_count b + 1 /\
    (forall i, Z.testbit (m_permission b') i = true ->
       Z.testbit (m_permission b) i = true \/ i = 6).
Proof.
  apply ipc_lock_unlock; [by constructor; vm_compute|split_and!; by vm_compute|by vm_compute].
Defined.

(** ** Sharing with devices *)

Definition share_pre (b : KMemoryBlock) : Prop :=
  m_device_use_count b < 2 ^ 16 - 1 /\ m_device_disable_merge_right_count b < 2 ^ 16 - 1 /\
  m_device_disable_merge_left_count b <= m_device_use_count b.

Definition share_result (b : KMemoryBlock) (left right : bool) : KMemoryBlock :=
  mkMemoryBlock (m_device_disable_merge_left_count b + Z.b2z left)
    (m_device_disable_merge_right_count b + Z.b2z right)
    (m_address b) (m_num_pages b) (m_memory_state b) (m_ipc_lock_count b)
    (m_device_use_count b + 1) (m_ipc_disable_merge_count b) (m_permission b)
    (m_original_permission b) (m_attribute b .| MemoryAttribute.DeviceShared)
    (let d := if left then m_disable_merge_attribute b .| DisableMerge.DeviceLeft
              else m_disable_merge_attribute b in
     if right then d .| DisableMerge.DeviceRight else d).

Lemma ShareToDevice_eq b new_perm left right :
  block_ok b -> share_pre b ->
  ShareToDevice b new_perm left right = Done true (share_result b left right).
Proof.
  intros Hok (Hc1 & Hc2 & Hc3).
  pose proof (ok_use b Hok) as H1. pose proof (ok_left b Hok) as H2.
  pose proof (ok_right b Hok) as H3. pose proof (ok_shared b Hok) as Hs. unfold in_u in *.
  destruct b as [l r ad np st il du id pm op at_ dm]; simpl in *.
  unfold ShareToDevice, UpdateDeviceDisableMergeStateForShare,
    UpdateDeviceDisableMergeStateForShareLeft, UpdateDeviceDisableMergeStateForShareRight,
    share_result; run_block.
  unfold MemoryAttribute.DeviceShared. rewrite flag_test, Hs by lia.
  rewrite (u16_small (du + 1)), ltb_0_succ by lia.
  replace (negb (du =? 0) || (du =? 0)) with true by (by destruct (du =? 0)).
  destruct left, right; simpl;
    by rewrite ?Z.add_0_r, ?(u16_small (l + 1)), ?(u16_small (r + 1)), ?ltb_0_succ by lia.
Qed.

(** The four combinations of setting and clearing the two device flags cancel out. *)
Lemma device_flags_cancel dm l r (left right : bool) :
  in_u 8 dm -> Z.testbit dm 1 = negb (l =? 0) -> Z.testbit dm 4 = negb (r =? 0) ->
  let set_l := if left then dm .| DisableMerge.DeviceLeft else dm in
  let set_lr := if right then set_l .| DisableMerge.DeviceRight else set_l in
  let clr_l := if l =? 0 then set_lr .& notu 8 DisableMerge.DeviceLeft else set_lr in
  (if right && (r =? 0) then clr_l .& notu 8 DisableMerge.DeviceRight else clr_l) = dm.
Proof.
  intros Hdm Hl Hr. unfold DisableMerge.DeviceLeft, DisableMerge.DeviceRight. cbv zeta.
  assert (H8 : forall x y, in_u 8 x -> in_u 8 y -> in_u 8 (x .| y)) by (intros; by apply in_u_lor).
  assert (H8' : forall x n, in_u 8 x -> 0 <= n < 8 -> in_u 8 (x .& notu 8 (1 .<< n))).
  { intros. apply in_u_land; [lia|done|]. apply notu8_range. by apply flag_in_u8. }
  destruct left, right, (Z.eqb_spec l 0) as [?|?], (Z.eqb_spec r 0) as [?|?]; simpl in *;
    try done; apply Z.bits_inj'; intros i Hi;
    rewrite ?flag_clear_bit, ?flag_set_bit by (first [lia | auto 6 using flag_in_u8 with lia]);
    destruct (Z.eqb_spec i 1) as [Hi1|], (Z.eqb_spec i 4) as [Hi4|]; try lia; rewrite ?Hi1, ?Hi4;
    rewrite ?Hl, ?Hr, ?orb_false_r, ?andb_true_r, ?andb_false_r; done.
Qed.

Lemma UnshareToDevice_eq b perm' left right :
  block_ok b -> share_pre b ->
  UnshareToDevice (share_result b left right) perm' left right = Done true b.
Proof.
  intros Hok (Hc1 & Hc2 & Hc3).
  pose proof (ok_use b Hok) as H1. pose proof (ok_left b Hok) as H2.
  pose proof (ok_right b Hok) as H3. pose proof (ok_shared b Hok) as Hs.
  pose proof (device_flags_cancel _ _ _ left right (in_u_5_8 _ (ok_merge b Hok))
    (ok_device_left b Hok) (ok_device_right b Hok)) as Hdm.
  pose proof (ok_attr b Hok) as Ha. unfold in_u in H1, H2, H3.
  destruct b as [l r ad np st il du id pm op at_ dm]; simpl in *.
  unfold UnshareToDevice, unshare, UpdateDeviceDisableMergeStateForUnshare,
    UpdateDeviceDisableMergeStateForUnshareLeft, UpdateDeviceDisableMergeStateForUnshareRight,
    share_result; run_block.
  unfold MemoryAttribute.DeviceShared in *. rewrite flag_test by lia.
  rewrite flag_set_bit, orb_true_r, ltb_0_succ, eqb_succ_1, (u16_pred (du + 1)) by lia.
  replace (du + 1 - 1) with du by lia. simpl.
  match goal with |- context [if du =? 0 then ?x else ?y] =>
    replace (if du =? 0 then x else y) with
    (mkMemoryBlock (l + Z.b2z left) (r + Z.b2z right) ad np st il du id pm op at_
      (let d := if left then dm .| DisableMerge.DeviceLeft else dm in
       if right then d .| DisableMerge.DeviceRight else d)) end.
  2: { destruct (Z.eqb_spec du 0) as [->|].
    - by rewrite flag_set_clear by (try done; lia).
    - by rewrite flag_set_same by (try done; lia). }
  assert (Hm : Z.min l du = l) by lia.
  assert (E1 : (l + 1 =? 0) = false) by (apply Z.eqb_neq; lia).
  cbv zeta in Hdm. match type of Hdm with ?E = _ =>
    trans (Done true (mkMemoryBlock l r ad np st il du id pm op at_ E)); [|by rewrite Hdm] end.
  destruct left, right; simpl; rewrite ?Z.add_0_r, ?E1; simpl;
    rewrite ?(u16_pred (l + 1)), ?(u16_pred (r + 1)), ?ltb_0_succ, ?eqb_succ_1 by lia;
    replace (l + 1 - 1) with l by lia; replace (r + 1 - 1) with r by lia; rewrite ?Hm;
    destruct (l =? 0); simpl; rewrite ?(u16_pred (r + 1)), ?ltb_0_succ, ?eqb_succ_1 by lia;
    replace (r + 1 - 1) with r by lia; by destruct (r =? 0).
Qed.

(** Sharing a block with a device and unsharing it again restores the block exactly, merge
    flags and counters included, whatever ends of the range the block lies at; no assertion fails
    in either call. *)
Theorem device_share_unshare b new_perm perm' left right :
  block_ok b -> share_pre b ->
  exists b', ShareToDevice b new_perm left right = Done true b' /\
    m_device_use_count b' = m_device_use_count b + 1 /\
    UnshareToDevice b' perm' left right = Done true b.
Proof.
  intros Hok Hpre. exists (share_result b left right).
  split_and!; [by apply ShareToDevice_eq|done|by apply UnshareToDevice_eq].
Qed.

Lemma device_share_unshare_witness :
  let b := KMemoryBlock_new 0x8000000 4 0x077EBD05 MemoryPermission.UserReadWrite 0 in
  exists b', ShareToDevice b 0 true true = Done true b' /\
    m_device_use_count b' = m_device_use_count b + 1 /\
    UnshareToDevice b' 0 true true = Done true b.
Proof. apply device_share_unshare; [by constructor; vm_compute|split_and!; by vm_compute]. Defined.

(** ** The pages of a block *)

(** A block lies on whole pages inside the 64-bit address space and is not empty. *)
Definition geom (b : KMemoryBlock) : Prop :=
  0 <= m_address b /\ (PageSize | m_address b) /\ 0 < m_num_pages b /\
  m_address b + m_num_pages b * PageSize < 2 ^ 64.

Definition block_end (b : KMemoryBlock) : Z := m_address b + m_num_pages b * PageSize.

Lemma GetSize_eq b : geom b -> GetSize b = m_num_pages b * PageSize.
Proof. intros (? & _ & ? & ?). apply u64_small. unfold GetNumPages, PageSize in *. lia. Qed.

Lemma GetEndAddress_eq b : geom b -> GetEndAddress b = block_end b.
Proof.
  intros Hg. unfold GetEndAddress. rewrite GetSize_eq by done. destruct Hg as (? & _ & ? & ?).
  apply u64_small. unfold block_end, PageSize, GetAddress in *. lia.
Qed.

Lemma GetLastAddress_eq b : geom b -> GetLastAddress b = block_end b - 1.
Proof.
  intros Hg. unfold GetLastAddress. rewrite GetEndAddress_eq by done. destruct Hg as (? & _ & ? & ?).
  apply u64_small. unfold block_end, PageSize in *. lia.
Qed.

(** ** Splitting and adding *)

Definition split_left (b : KMemoryBlock) (addr : Z) : KMemoryBlock :=
  mkMemoryBlock (m_device_disable_merge_left_count b) 0 (m_address b)
    ((addr - m_address b) / PageSize) (m_memory_state b) (m_ipc_lock_count b)
    (m_device_use_count b) (m_ipc_disable_merge_count b) (m_permission b)
    (m_original_permission b) (m_attribute b)
    (m_disable_merge_attribute b .& DisableMerge.AllLeft).

Definition split_right (b : KMemoryBlock) (addr : Z) : KMemoryBlock :=
  mkMemoryBlock 0 (m_device_disable_merge_right_count b) addr
    (m_num_pages b - (addr - m_address b) / PageSize) (m_memory_state b) (m_ipc_lock_count b)
    (m_device_use_count b) 0 (m_permission b) (m_original_permission b) (m_attribute b)
    (m_disable_merge_attribute b .& DisableMerge.AllRight).

Lemma page_multiple a : (PageSize | a) -> a = PageSize * (a / PageSize).
Proof. intros [k ->]. rewrite Z.div_mul by done. lia. Qed.

Lemma Split_eq b addr :
  geom b -> m_address b < addr < block_end b -> (PageSize | addr) ->
  Split b addr = Done true (split_left b addr, split_right b addr).
Proof.
  intros Hg Ha Hd. pose proof (GetEndAddress_eq b Hg) as He.
  destruct Hg as (H0 & Hd0 & Hn & H64). unfold block_end in *.
  assert (Hdiv : (addr - m_address b) / PageSize < m_num_pages b).
  { apply Z.div_lt_upper_bound; unfold PageSize in *; lia. }
  assert (Hdiv0 : 0 <= (addr - m_address b) / PageSize) by (apply Z.div_pos; unfold PageSize in *; lia).
  unfold Split, Contains. rewrite He. unfold GetAddress.
  rewrite (proj2 (Z.ltb_lt _ _) (proj1 Ha)), (proj2 (Z.leb_le (m_address b) addr)),
    (proj2 (Z.leb_le addr _)), IsAligned_page by (done || (unfold PageSize in *; lia)).
  unfold split_left, split_right.
  rewrite (u64_small (addr - _)) by lia. simpl.
  rewrite (u64_small (m_num_pages b - _)) by (unfold PageSize in *; lia). by destruct b.
Qed.

Lemma split_left_geom b addr :
  geom b -> m_address b < addr < block_end b -> (PageSize | addr) -> geom (split_left b addr).
Proof.
  intros (H0 & Hd0 & Hn & H64) Ha Hd. unfold block_end in *.
  pose proof (page_multiple _ Hd). pose proof (page_multiple _ Hd0).
  pose proof (page_multiple (addr - m_address b) (Z.divide_sub_r _ _ _ Hd Hd0)).
  unfold geom; simpl. unfold PageSize in *. split_and!; (done || lia).
Qed.

Lemma split_right_geom b addr :
  geom b -> m_address b < addr < block_end b -> (PageSize | addr) ->
  geom (split_right b addr) /\ block_end (split_right b addr) = block_end b /\
  block_end (split_left b addr) = addr.
Proof.
  intros (H0 & Hd0 & Hn & H64) Ha Hd. unfold block_end in *.
  pose proof (page_multiple (addr - m_address b) (Z.divide_sub_r _ _ _ Hd Hd0)).
  unfold geom; simpl. unfold PageSize in *. split_and!; (done || lia).
Qed.

Definition add_result (b added : KMemoryBlock) : KMemoryBlock :=
  mkMemoryBlock (m_device_disable_merge_left_count b) (m_device_disable_merge_right_count added)
    (m_address b) (m_num_pages b + m_num_pages added) (m_memory_state b) (m_ipc_lock_count b)
    (m_device_use_count b) (m_ipc_disable_merge_count b) (m_permission b)
    (m_original_permission b) (m_attribute b)
    (m_disable_merge_attribute b .| m_disable_merge_attribute added).

Lemma Add_eq b added :
  geom b -> geom added -> block_end b = m_address added ->
  Add b added = Done true (add_result b added).
Proof.
  intros Hg Hg' Hadj. unfold Add. rewrite (GetSize_eq added), (GetEndAddress_eq b) by done.
  destruct Hg as (H0 & _ & Hn & H64), Hg' as (H0' & _ & Hn' & H64').
  unfold block_end, GetAddress, GetNumPages, PageSize in *.
  rewrite (u64_small (m_address b + _)), (u64_small (m_address b + m_num_pages b * _ + _)) by lia.
  rewrite (u64_small (m_address b + m_num_pages added * _ - 1)),
    (u64_small (m_address b + m_num_pages b * _ + _ - 1)), (u64_small (m_num_pages b + _)) by lia.
  rewrite (proj2 (Z.ltb_lt 0 _)), (proj2 (Z.ltb_lt (_ - 1) _)) by lia.
  by destruct b.
Qed.

Lemma add_result_geom b added :
  geom b -> geom added -> block_end b = m_address added ->
  geom (add_result b added) /\ block_end (add_result b added) = block_end added.
Proof.
  unfold geom, block_end; simpl. intros (H0 & Hd & Hn & H64) (H0' & _ & Hn' & H64') Hadj.
  unfold PageSize in *. split_and!; (done || lia).
Qed.

(** The two masks part the five merge flags. *)
Lemma merge_masks d : in_u 5 d ->
  (d .& DisableMerge.AllLeft) .| (d .& DisableMerge.AllRight) = d.
Proof.
  intros Hd. rewrite <- Z.land_lor_distr_r. change (_ .| _) with (Z.ones 5).
  rewrite Z.land_ones by lia. by apply Z.mod_small.
Qed.

(** Splitting a block at a page boundary strictly inside it gives two adjacent blocks that
    cover its pages, that carry all its properties and that may be merged, and adding the second
    to the first restores the block exactly. *)
Theorem memory_block_split_add b addr :
  geom b -> block_ok b -> m_address b < addr < block_end b -> (PageSize | addr) ->
  exists l r, Split b addr = Done true (l, r) /\
    geom l /\ geom r /\ m_address l = m_address b /\ block_end l = addr /\ m_address r = addr /\
    block_end r = block_end b /\
    HasSameProperties b l = true /\ HasSameProperties b r = true /\
    CanMergeWith l r = true /\ Add l r = Done true b.
Proof.
  intros Hg Hok Ha Hd. exists (split_left b addr), (split_right b addr).
  pose proof (split_left_geom b addr Hg Ha Hd) as Hl.
  destruct (split_right_geom b addr Hg Ha Hd) as (Hr & E1 & E2).
  split_and!; try done; [by apply Split_eq| | | |].
  - unfold HasSameProperties; simpl. by rewrite !Z.eqb_refl.
  - unfold HasSameProperties; simpl. by rewrite !Z.eqb_refl.
  - unfold CanMergeWith, HasSameProperties; simpl. rewrite !Z.eqb_refl; simpl.
    by rewrite <- !Z.land_assoc, !Z.land_0_r.
  - rewrite Add_eq by done. unfold add_result; simpl.
    rewrite merge_masks by apply Hok. rewrite Zplus_minus. by destruct b.
Qed.

Lemma memory_block_split_add_witness :
  let b := KMemoryBlock_new 0x8000000 4 0x077EBD05 MemoryPermission.UserReadWrite 0 in
  exists l r, Split b 0x8001000 = Done true (l, r) /\
    geom l /\ geom r /\ m_address l = m_address b /\ block_end l = 0x8001000 /\
    m_address r = 0x8001000 /\ block_end r = block_end b /\
    HasSameProperties b l = true /\ HasSameProperties b r = true /\
    CanMergeWith l r = true /\ Add l r = Done true b.
Proof.
  apply memory_block_split_add.
  - split_and!; [by vm_compute|by exists 0x8000|by vm_compute|by vm_compute].
  - by constructor; vm_compute.
  - by vm_compute.
  - by exists 0x8001.
Defined.

(** Splitting at the end of a block passes every assertion, because [Contains] accepts the end
    address, and leaves an empty block behind. *)
Lemma Split_at_end_empty b :
  geom b -> exists l r, Split b (block_end b) = Done true (l, r) /\ m_num_pages r = 0.
Proof.
  intros Hg. pose proof (GetEndAddress_eq b Hg) as He. destruct Hg as (H0 & Hd0 & Hn & H64).
  assert (Hd : (PageSize | block_end b)) by (apply Z.divide_add_r; [done|apply Z.divide_factor_r]).
  unfold Split, Contains. rewrite He. unfold GetAddress, block_end in *.
  rewrite (proj2 (Z.ltb_lt (m_address b) _)), (proj2 (Z.leb_le (m_address b) _)), Z.leb_refl,
    IsAligned_page by (done || (unfold PageSize in *; lia)).
  eexists _, _. split; [done|]. destruct b as [l r ad np st il du id pm op at_ dm]; simpl in *.
  replace (ad + np * PageSize - ad) with (np * PageSize) by lia.
  rewrite (u64_small (np * PageSize)), Z.div_mul by (done || (unfold PageSize in *; lia)).
  by rewrite Z.sub_diag.
Qed.

(** ** The invariant is kept by every operation that passes its assertions *)

Inductive block_step (b : KMemoryBlock) : KMemoryBlock -> Prop :=
| step_lock p l r b' :
    in_u 8 p -> LockForIpc b p l r = Done true b' -> block_step b b'
| step_unlock p l r b' :
    in_u 8 (m_original_permission b) -> UnlockForIpc b p l r = Done true b' -> block_step b b'
| step_share p l r b' : ShareToDevice b p l r = Done true b' -> block_step b b'
| step_unshare p l r b' : UnshareToDevice b p l r = Done true b' -> block_step b b'
| step_unshare_right p l r b' : UnshareToDeviceRight b p l r = Done true b' -> block_step b b'
| step_update s p a sd set_mask clear_mask b' :
    in_u 8 p -> in_u 8 a -> a .& AttributeIgnoreMask = 0 ->
    set_mask .& 0x16 = 0 -> in_u 5 set_mask -> clear_mask .& 0x16 = 0 -> in_u 5 clear_mask ->
    Update b s p a sd set_mask clear_mask = Done true b' -> block_step b b'
| step_update_attribute mask a b' :
    in_u 8 mask -> in_u 8 a -> a .& AttributeIgnoreMask = 0 ->
    UpdateAttribute b mask a = Done true b' -> block_step b b'
| step_split_left addr l r : Split b addr = Done true (l, r) -> block_step b l
| step_split_right addr l r : Split b addr = Done true (l, r) -> block_step b r
| step_add c b' :
    block_ok c -> CanMergeWith b c = true -> Add b c = Done true b' -> block_step b b'.

(** Reads the conditions off a passing run on an explicit block. *)
Ltac run_block_in H :=
  unfold mbind, outcome_mbind, outcome_bind, ASSERT, mret, outcome_mret in H; simpl in H.

Lemma bit_of_disjoint x m n : 0 <= n -> x .& m = 0 -> Z.testbit m n = true -> Z.testbit x n = false.
Proof.
  intros Hn H Hm. apply (f_equal (fun y => Z.testbit y n)) in H.
  rewrite Z.land_spec, Hm, andb_true_r, Z.bits_0 in H. done.
Qed.

Lemma step_lock_ok b p l r b' :
  block_ok b -> in_u 8 p -> LockForIpc b p l r = Done true b' -> block_ok b'.
Proof.
  intros Hok Hp H. destruct Hok as [h1 h2 h3 h4 h5 h6 h7 h8 h9 h10 h11 h12 h13 h14].
  destruct b as [dl dr ad np st il du id pm op at_ dm]; simpl in *.
  unfold LockForIpc in H. run_block_in H.
  unfold MemoryAttribute.IpcLocked, DisableMerge.IpcLeft in H.
  destruct (0 <? u16 (il + 1)) eqn:Epos;
    [|exfalso; by destruct (u16 (il + 1) =? 1), l; simpl in H;
      injection H as H _; rewrite ?andb_false_r in H].
  destruct (u16_succ_pos il h3 Epos) as [Eu Hlt]. rewrite Eu in *.
  assert (Hperm : in_u 8 (p .& MemoryPermission.IpcLockChangeMask
    .| pm .& notu 8 MemoryPermission.IpcLockChangeMask)).
  { apply in_u_lor; [lia|apply in_u_land; [lia|done|by vm_compute]|].
    apply in_u_land; [lia|done|by vm_compute]. }
  assert (Ha : in_u 8 (at_ .| (1 .<< 1))) by (apply in_u_lor; [lia|done|by apply flag_in_u8]).
  assert (Hl : (il + 1 =? 0) = false) by (apply Z.eqb_neq; unfold in_u in h3; lia).
  destruct l.
  - destruct (0 <? u16 (id + 1)) eqn:Epos';
      [|exfalso; by destruct (il + 1 =? 1); simpl in H; rewrite Epos' in H;
        injection H as H _; rewrite ?andb_false_r in H].
    destruct (u16_succ_pos id h5 Epos') as [Eu' Hlt'].
    assert (Hd : in_u 5 (dm .| (1 .<< 2))) by (apply in_u_lor; [lia|done|by vm_compute]).
    assert (Hi : (id + 1 =? 0) = false) by (apply Z.eqb_neq; unfold in_u in h5; lia).
    destruct (il + 1 =? 1); simpl in H; rewrite Eu' in H; injection H as _ <-; constructor;
      simpl; rewrite ?flag_set_bit, ?Hl, ?Hi, ?orb_true_r, ?orb_false_r by lia; 
      unfold in_u in *; try done; try lia.
  - destruct (il + 1 =? 1); simpl in H; injection H as _ <-; constructor;
      simpl; rewrite ?flag_set_bit, ?Hl, ?orb_true_r, ?orb_false_r by lia;
      unfold in_u in *; try done; try lia.
Qed.

Lemma step_unlock_ok b p l r b' :
  block_ok b -> in_u 8 (m_original_permission b) ->
  UnlockForIpc b p l r = Done true b' -> block_ok b'.
Proof.
  intros Hok Hop H. destruct Hok as [h1 h2 h3 h4 h5 h6 h7 h8 h9 h10 h11 h12 h13 h14].
  destruct b as [dl dr ad np st il du id pm op at_ dm]; simpl in *.
  unfold UnlockForIpc in H. run_block_in H.
  unfold MemoryAttribute.IpcLocked, DisableMerge.IpcLeft in H.
  destruct (Z.ltb_spec 0 il) as [Hil|];
    [|exfalso; by destruct (il =? 1), l; simpl in H; injection H as H _;
      rewrite ?andb_false_r in H].
  unfold in_u in h3. rewrite (u16_pred il) in H by lia.
  assert (Ha : in_u 8 (at_ .& notu 8 (1 .<< 1))).
  { apply in_u_land; [lia|done|]. by vm_compute. }
  assert (Hd : in_u 5 (dm .& notu 8 (1 .<< 2))).
  { apply in_u_land; [lia|done|]. by vm_compute. }
  assert (H8 : in_u 8 dm) by auto with zbits.
  assert (E0 : (il =? 0) = false) by (apply Z.eqb_neq; lia). rewrite E0 in *.
  destruct l.
  - destruct (Z.ltb_spec 0 id) as [Hid|];
      [|exfalso; by destruct (il =? 1); simpl in H; destruct (Z.ltb_spec 0 id); try lia;
        injection H as H _; rewrite ?andb_false_r in H].
    unfold in_u in h5. assert (E1 : (id =? 0) = false) by (apply Z.eqb_neq; lia).
    rewrite E1 in *.
    destruct (Z.eqb_spec il 1) as [->|]; simpl in H; rewrite (u16_pred id) in H by lia;
      destruct (Z.eqb_spec id 1) as [->|]; injection H as _ <-; constructor; simpl;
      rewrite ?flag_clear_bit, ?andb_true_r, ?andb_false_r by (done || lia);
      unfold in_u in *; try done; try lia; 
      rewrite ?(proj2 (Z.eqb_neq (il - 1) 0)), ?(proj2 (Z.eqb_neq (id - 1) 0)) by lia; done.
  - destruct (Z.eqb_spec il 1) as [->|]; simpl in H; injection H as _ <-; constructor; simpl;
      rewrite ?flag_clear_bit, ?andb_true_r, ?andb_false_r by (done || lia);
      unfold in_u in *; try done; try lia; 
      rewrite ?(proj2 (Z.eqb_neq (il - 1) 0)) by lia; done.
Qed.

Lemma share_left_ok b p l r b' :
  block_ok b -> UpdateDeviceDisableMergeStateForShareLeft b p l r = Done true b' -> block_ok b'.
Proof.
  intros Hok H. destruct l; [|by injection H as <-].
  destruct Hok as [h1 h2 h3 h4 h5 h6 h7 h8 h9 h10 h11 h12 h13 h14].
  destruct b as [dl dr ad np st il du id pm op at_ dm]; simpl in *.
  unfold UpdateDeviceDisableMergeStateForShareLeft in H. run_block_in H. injection H as H <-.
  rewrite andb_true_r in H. destruct (u16_succ_pos dl h1 H) as [Eu Hlt].
  assert (Hl : (dl + 1 =? 0) = false) by (apply Z.eqb_neq; unfold in_u in h1; lia).
  assert (Hd : in_u 5 (dm .| (1 .<< 1))) by (apply in_u_lor; [lia|done|by vm_compute]).
  unfold DisableMerge.DeviceLeft. rewrite Eu. constructor; simpl;
    rewrite ?flag_set_bit, ?Hl, ?orb_true_r, ?orb_false_r by lia; unfold in_u in *; try done; lia.
Qed.

Lemma share_right_ok b p l r b' :
  block_ok b -> UpdateDeviceDisableMergeStateForShareRight b p l r = Done true b' -> block_ok b'.
Proof.
  intros Hok H. destruct r; [|by injection H as <-].
  destruct Hok as [h1 h2 h3 h4 h5 h6 h7 h8 h9 h10 h11 h12 h13 h14].
  destruct b as [dl dr ad np st il du id pm op at_ dm]; simpl in *.
  unfold UpdateDeviceDisableMergeStateForShareRight in H. run_block_in H. injection H as H <-.
  rewrite andb_true_r in H. destruct (u16_succ_pos dr h2 H) as [Eu Hlt].
  assert (Hl : (dr + 1 =? 0) = false) by (apply Z.eqb_neq; unfold in_u in h2; lia).
  assert (Hd : in_u 5 (dm .| (1 .<< 4))) by (apply in_u_lor; [lia|done|by vm_compute]).
  unfold DisableMerge.DeviceRight. rewrite Eu. constructor; simpl;
    rewrite ?flag_set_bit, ?Hl, ?orb_true_r, ?orb_false_r by lia; unfold in_u in *; try done; lia.
Qed.

Lemma step_share_ok b p l r b' :
  block_ok b -> ShareToDevice b p l r = Done true b' -> block_ok b'.
Proof.
  intros Hok H. unfold ShareToDevice, UpdateDeviceDisableMergeStateForShare in H.
  run_inv H. run_inv H. apply ASSERT_inv in E0. run_inv H.
  apply (share_right_ok _ _ _ _ _) in H; [done|]. apply (share_left_ok _ _ _ _ _) in E1; [done|].
  clear H E1. destruct Hok as [h1 h2 h3 h4 h5 h6 h7 h8 h9 h10 h11 h12 h13 h14].
  destruct b as [dl dr ad np st il du id pm op at_ dm]; simpl in *.
  destruct (u16_succ_pos du h4 E0) as [Eu Hlt].
  assert (Hl : (du + 1 =? 0) = false) by (apply Z.eqb_neq; unfold in_u in h4; lia).
  assert (Ha : in_u 8 (at_ .| (1 .<< 2))) by (apply in_u_lor; [lia|done|by vm_compute]).
  unfold MemoryAttribute.DeviceShared. rewrite Eu. constructor; simpl;
    rewrite ?flag_set_bit, ?Hl, ?orb_true_r, ?orb_false_r by lia; unfold in_u in *; try done; lia.
Qed.

Lemma unshare_left_ok b p l r b' :
  block_ok b -> UpdateDeviceDisableMergeStateForUnshareLeft b p l r = Done true b' -> block_ok b'.
Proof.
  intros Hok H. destruct Hok as [h1 h2 h3 h4 h5 h6 h7 h8 h9 h10 h11 h12 h13 h14].
  destruct b as [dl dr ad np st il du id pm op at_ dm]; simpl in *.
  unfold UpdateDeviceDisableMergeStateForUnshareLeft in H. run_block_in H.
  destruct (l && (dl =? 0)) eqn:El; [by injection H as <-; constructor|].
  set (dl' := Z.min (if l then u16 (dl - 1) else dl) du).
  assert (Hdl : 0 <= dl' <= dl).
  { unfold dl'. unfold in_u in *. destruct l; [|lia].
    simpl in El. apply Z.eqb_neq in El. rewrite u16_pred by lia. lia. }
  assert (Hd : in_u 5 (dm .& notu 8 (1 .<< 1))) by (apply in_u_land; [lia|done|by vm_compute]).
  assert (H8 : in_u 8 dm) by auto with zbits.
  assert (E : b' = mkMemoryBlock dl' dr ad np st il du id pm op at_
            (if dl' =? 0 then dm .& notu 8 (1 .<< 1) else dm)).
  { destruct l; simpl in H; fold dl' in H; injection H as <-; by destruct (dl' =? 0). }
  rewrite E. clear H E.
  destruct (Z.eqb_spec dl' 0); constructor; simpl;
    rewrite ?flag_clear_bit, ?andb_true_r, ?andb_false_r by (done || lia);
    unfold in_u in *; try done; try lia.
  all: rewrite h12; destruct (Z.eqb_spec dl' 0), (Z.eqb_spec dl 0); (done || lia).
Qed.

Lemma unshare_right_ok b p l r b' :
  block_ok b -> UpdateDeviceDisableMergeStateForUnshareRight b p l r = Done true b' -> block_ok b'.
Proof.
  intros Hok H. destruct r; [|by injection H as <-].
  destruct Hok as [h1 h2 h3 h4 h5 h6 h7 h8 h9 h10 h11 h12 h13 h14].
  destruct b as [dl dr ad np st il du id pm op at_ dm]; simpl in *.
  unfold UpdateDeviceDisableMergeStateForUnshareRight in H. run_block_in H. injection H as H <-.
  rewrite andb_true_r in H. apply Z.ltb_lt in H. unfold in_u in h2. rewrite u16_pred by lia.
  assert (Hd : in_u 5 (dm .& notu 8 (1 .<< 4))) by (apply in_u_land; [lia|done|by vm_compute]).
  assert (H8 : in_u 8 dm) by auto with zbits. unfold DisableMerge.DeviceRight.
  destruct (Z.eqb_spec dr 1) as [->|]; constructor; simpl;
    rewrite ?flag_clear_bit, ?andb_true_r, ?andb_false_r by (done || lia);
    unfold in_u in *; try done; try lia.
  all: rewrite h14; destruct (Z.eqb_spec dr 0), (Z.eqb_spec (dr - 1) 0); (done || lia).
Qed.

Lemma unshare_ok b b' : block_ok b -> unshare b = Done true b' -> block_ok b'.
Proof.
  intros Hok H. destruct Hok as [h1 h2 h3 h4 h5 h6 h7 h8 h9 h10 h11 h12 h13 h14].
  destruct b as [dl dr ad np st il du id pm op at_ dm]; simpl in *.
  unfold unshare in H. run_block_in H. injection H as H <-.
  apply andb_true_iff in H as [_ H]. rewrite andb_true_r in H. apply Z.ltb_lt in H.
  unfold in_u in h4. rewrite u16_pred by lia. unfold MemoryAttribute.DeviceShared.
  assert (Ha : in_u 8 (at_ .& notu 8 (1 .<< 2))) by (apply in_u_land; [lia|done|by vm_compute]).
  destruct (Z.eqb_spec du 1) as [->|]; constructor; simpl;
    rewrite ?flag_clear_bit, ?andb_true_r, ?andb_false_r by (done || lia);
    unfold in_u in *; try done; try lia.
  all: rewrite h10; destruct (Z.eqb_spec du 0), (Z.eqb_spec (du - 1) 0); (done || lia).
Qed.

Lemma step_unshare_ok b p l r b' :
  block_ok b -> UnshareToDevice b p l r = Done true b' -> block_ok b'.
Proof.
  intros Hok H. unfold UnshareToDevice, UpdateDeviceDisableMergeStateForUnshare in H.
  run_inv H. run_inv H. eauto using unshare_ok, unshare_left_ok, unshare_right_ok.
Qed.

Lemma step_unshare_right_ok b p l r b' :
  block_ok b -> UnshareToDeviceRight b p l r = Done true b' -> block_ok b'.
Proof.
  intros Hok H. unfold UnshareToDeviceRight in H. run_inv H.
  eauto using unshare_ok, unshare_right_ok.
Qed.

(** Masks that avoid the counted flags 1, 2 and 4 leave those flags alone. *)
Lemma set_mask_bit d m n : 0 <= n -> m .& 0x16 = 0 -> Z.testbit 0x16 n = true ->
  Z.testbit (d .| m) n = Z.testbit d n.
Proof.
  intros Hn Hm Hb. by rewrite Z.lor_spec, (bit_of_disjoint m 0x16 n), orb_false_r.
Qed.

Lemma clear_mask_bit d m n : 0 <= n < 8 -> m .& 0x16 = 0 -> Z.testbit 0x16 n = true ->
  Z.testbit (d .& notu 8 m) n = Z.testbit d n.
Proof.
  intros Hn Hm Hb. rewrite Z.land_spec, testbit_notu by lia.
  rewrite (bit_of_disjoint m 0x16 n) by (done || lia).
  rewrite (proj2 (Z.leb_le 0 n)), (proj2 (Z.ltb_lt n 8)) by lia. by rewrite andb_true_r.
Qed.

Lemma in_u_notu_land5 d m : in_u 5 d -> in_u 5 m -> in_u 5 (d .& notu 8 m).
Proof. intros. apply in_u_land; [lia|done|]. apply notu8_range. auto with zbits. Qed.

Lemma step_update_ok b s p a sd set_mask clear_mask b' :
  block_ok b -> in_u 8 p -> in_u 8 a -> a .& AttributeIgnoreMask = 0 ->
  set_mask .& 0x16 = 0 -> in_u 5 set_mask -> clear_mask .& 0x16 = 0 -> in_u 5 clear_mask ->
  Update b s p a sd set_mask clear_mask = Done true b' -> block_ok b'.
Proof.
  intros Hok Hp Ha Hai Hs Hs5 Hc Hc5 H.
  destruct Hok as [h1 h2 h3 h4 h5 h6 h7 h8 h9 h10 h11 h12 h13 h14].
  destruct b as [dl dr ad np st il du id pm op at_ dm]; simpl in *.
  unfold Update in H. run_block_in H.
  set (dm1 := if sd && negb (set_mask =? 0) then dm .| set_mask else dm).
  set (dm2 := if negb (clear_mask =? 0) then dm1 .& notu 8 clear_mask else dm1).
  assert (Hd1 : in_u 5 dm1) by (unfold dm1; destruct (sd && negb (set_mask =? 0)); [by apply in_u_lor|done]).
  assert (Hd2 : in_u 5 dm2) by (unfold dm2; destruct (negb (clear_mask =? 0)); [by apply in_u_notu_land5|done]).
  assert (Hb : forall n, 0 <= n < 8 -> Z.testbit 0x16 n = true -> Z.testbit dm2 n = Z.testbit dm n).
  { intros n Hn Hx. trans (Z.testbit dm1 n).
    - unfold dm2. destruct (negb (clear_mask =? 0)); [by apply clear_mask_bit|done].
    - unfold dm1. destruct (sd && negb (set_mask =? 0)); [apply set_mask_bit; (done || lia)|done]. }
  set (at' := a .| at_ .& (MemoryAttribute.IpcLocked .| MemoryAttribute.DeviceShared)).
  assert (Hat : in_u 8 at').
  { apply in_u_lor; [lia|done|]. apply in_u_land; [lia|done|by vm_compute]. }
  assert (Hab : forall n, 0 <= n -> Z.testbit AttributeIgnoreMask n = true ->
    Z.testbit at' n = Z.testbit at_ n).
  { intros n Hn Hx. unfold at'. rewrite Z.lor_spec, Z.land_spec.
    rewrite (bit_of_disjoint a AttributeIgnoreMask n) by done.
    unfold AttributeIgnoreMask in Hx. by rewrite Hx, andb_true_r. }
  assert (E : b' = mkMemoryBlock dl dr ad np s il du id p op at' dm2).
  { injection H as _ <-. unfold dm2, dm1. destruct (sd && negb (set_mask =? 0)); simpl;
      by destruct (negb (clear_mask =? 0)). }
  rewrite E. clear H E.
  constructor; simpl; rewrite ?Hb, ?Hab by (done || lia); done.
Qed.

Lemma step_update_attribute_ok b mask a b' :
  block_ok b -> in_u 8 mask -> in_u 8 a -> a .& AttributeIgnoreMask = 0 ->
  UpdateAttribute b mask a = Done true b' -> block_ok b'.
Proof.
  intros Hok Hm Ha Hai H. destruct Hok as [h1 h2 h3 h4 h5 h6 h7 h8 h9 h10 h11 h12 h13 h14].
  destruct b as [dl dr ad np st il du id pm op at_ dm]; simpl in *.
  unfold UpdateAttribute, MemoryAttribute.IpcLocked, MemoryAttribute.DeviceShared in H.
  run_block_in H. injection H as H <-. rewrite !flag_test_none in H by lia.
  apply andb_true_iff in H as [H1 H2]. rewrite andb_true_r in H2.
  apply negb_true_iff in H1, H2.
  assert (Hat : in_u 8 (at_ .& notu 8 mask .| a)).
  { apply in_u_lor; [lia| |done]. apply in_u_land; [lia|done|by apply notu8_range]. }
  assert (Hb : forall n, 0 <= n < 8 -> Z.testbit mask n = false ->
    Z.testbit AttributeIgnoreMask n = true -> Z.testbit (at_ .& notu 8 mask .| a) n = Z.testbit at_ n).
  { intros n Hn Hx Hy. rewrite Z.lor_spec, Z.land_spec, testbit_notu by lia.
    rewrite (bit_of_disjoint a AttributeIgnoreMask n), Hx by (done || lia).
    rewrite (proj2 (Z.leb_le 0 n)), (proj2 (Z.ltb_lt n 8)) by lia.
    by rewrite andb_true_r, orb_false_r. }
  constructor; simpl; rewrite ?Hb by (done || lia); done.
Qed.

Lemma step_split_ok b addr l r :
  block_ok b -> Split b addr = Done true (l, r) -> block_ok l /\ block_ok r.
Proof.
  intros Hok H. destruct Hok as [h1 h2 h3 h4 h5 h6 h7 h8 h9 h10 h11 h12 h13 h14].
  destruct b as [dl dr ad np st il du id pm op at_ dm]; simpl in *.
  unfold Split in H. run_block_in H. injection H as _ <- <-.
  assert (in_u 5 (dm .& DisableMerge.AllLeft)) by (apply in_u_land; [lia|done|by vm_compute]).
  assert (in_u 5 (dm .& DisableMerge.AllRight)) by (apply in_u_land; [lia|done|by vm_compute]).
  split; constructor; simpl; try done; rewrite Z.land_spec;
    change DisableMerge.AllLeft with 15; change DisableMerge.AllRight with 16;
    rewrite ?(andb_false_r _); try done; by rewrite andb_true_r.
Qed.

Lemma step_add_ok b c b' :
  block_ok b -> block_ok c -> CanMergeWith b c = true -> Add b c = Done true b' -> block_ok b'.
Proof.
  intros Hok Hc Hm H. destruct Hok as [h1 h2 h3 h4 h5 h6 h7 h8 h9 h10 h11 h12 h13 h14].
  destruct Hc as [c1 c2 c3 c4 c5 c6 c7 c8 c9 c10 c11 c12 c13 c14].
  unfold CanMergeWith in Hm. apply andb_true_iff in Hm as [Hm HL].
  apply andb_true_iff in Hm as [_ HR]. apply Z.eqb_eq in HR, HL.
  destruct b as [dl dr ad np st il du id pm op at_ dm],
    c as [dl' dr' ad' np' st' il' du' id' pm' op' at' dm']; simpl in *.
  unfold Add in H. run_block_in H. injection H as _ <-.
  assert (in_u 5 (dm .| dm')) by (by apply in_u_lor).
  constructor; simpl; try done; rewrite Z.lor_spec.
  - by rewrite (bit_of_disjoint dm' DisableMerge.AllLeft 1), orb_false_r.
  - by rewrite (bit_of_disjoint dm' DisableMerge.AllLeft 2), orb_false_r.
  - by rewrite (bit_of_disjoint dm DisableMerge.AllRight 4).
Qed.

Lemma block_step_ok b b' : block_ok b -> block_step b b' -> block_ok b'.
Proof.
  intros Hok Hs. destruct Hs as [| | | | | | |addr l r H|addr l r H|].
  - by eapply step_lock_ok.
  - by eapply step_unlock_ok.
  - by eapply step_share_ok.
  - by eapply step_unshare_ok.
  - by eapply step_unshare_right_ok.
  - eapply step_update_ok; [..|eassumption]; done.
  - eapply step_update_attribute_ok; [..|eassumption]; done.
  - apply (step_split_ok b addr l r Hok H).
  - apply (step_split_ok b addr l r Hok H).
  - eapply step_add_ok; [..|eassumption]; done.
Qed.

Lemma KMemoryBlock_new_ok addr np ms p : in_u 8 p -> block_ok (KMemoryBlock_new addr np ms p 0).
Proof. intros. constructor; simpl; done. Qed.

(** Along every sequence of operations on a block whose assertions pass, starting at a freshly
    initialised block, the block's flags and counters agree: it is marked IPC-locked exactly when
    its lock count is positive, device-shared exactly when its use count is, each merge-disable
    flag that is counted is set exactly when its counter is positive, no counter leaves 16 bits,
    and an unlocked block holds no saved permission. *)
Theorem memory_block_invariant fresh addr np ms p b :
  m_ipc_disable_merge_count fresh = 0 -> in_u 8 p ->
  rtc block_step (Initialize addr np ms p 0 fresh) b ->
  block_ok b.
Proof.
  intros Hf Hp. assert (H : block_ok (Initialize addr np ms p 0 fresh)).
  { unfold Initialize. rewrite Hf. by apply KMemoryBlock_new_ok. }
  revert H. generalize (Initialize addr np ms p 0 fresh). intros b0 H.
  induction 1; [done|]. eauto using block_step_ok.
Qed.

Lemma memory_block_invariant_witness :
  exists b, rtc block_step (Initialize 0x8000000 4 0x077EBD05 MemoryPermission.UserReadWrite 0
                              KMemoryBlock_default) b /\
    m_ipc_lock_count b = 1 /\ m_device_use_count b = 1 /\ block_ok b.
Proof.
  assert (Hsteps : exists b, rtc block_step
    (Initialize 0x8000000 4 0x077EBD05 MemoryPermission.UserReadWrite 0 KMemoryBlock_default) b /\
    m_ipc_lock_count b = 1 /\ m_device_use_count b = 1).
  { eexists. split.
    - eapply rtc_l; [apply (step_lock _ MemoryPermission.UserRead true false);
        [by vm_compute|by vm_compute]|].
      eapply rtc_l; [apply (step_share _ 0 true true); by vm_compute|]. apply rtc_refl.
    - done. }
  destruct Hsteps as (b & Hr & H1 & H2). exists b. split_and!; [done..|].
  refine (memory_block_invariant KMemoryBlock_default _ _ _ _ _ _ _ Hr); by vm_compute.
Defined.

(** ** The constants *)

Lemma state_values s : MemoryState.state_value s = MemoryState.asserted_value s.
Proof. by destruct s. Qed.

(** The state constants built from numbers and flags have the values the header's static
    assertions demand; distinct states have distinct values, the low byte of a state is the number
    programs see, and it tells the states apart except for the two kinds of I/O memory. *)
Theorem memory_state_constants s t :
  MemoryState.state_value s = MemoryState.asserted_value s /\
  (MemoryState.state_value s = MemoryState.state_value t -> s = t) /\
  (GetSvcState (GetMemoryInfo (KMemoryBlock_new 0 1 (MemoryState.state_value s) 0 0)) =
     GetSvcState (GetMemoryInfo (KMemoryBlock_new 0 1 (MemoryState.state_value t) 0 0)) ->
   s = t \/ (s = MemoryState.KIoMemory /\ t = MemoryState.KIoRegister) \/
             (s = MemoryState.KIoRegister /\ t = MemoryState.KIoMemory)).
Proof.
  split; [apply state_values|]. split.
  - rewrite !state_values. destruct s, t; simpl; intros H; (reflexivity || discriminate H).
  - unfold GetSvcState; simpl. rewrite !state_values.
    destruct s, t; simpl; intros H; vm_compute in H;
      first [by left | by right; left | by right; right | discriminate H].
Qed.

(** Converting a program's permission keeps exactly its user bits, always grants the kernel
    read access, grants the kernel write access exactly when the program may write, never grants
    the kernel execution, and marks the memory as not mapped exactly for the empty permission. *)
Theorem convert_permission perm :
  0 <= perm < 8 ->
  let k := MemoryPermission.ConvertToKMemoryPermission perm in
  in_u 8 k /\ k .& MemoryPermission.UserMask = perm /\
  Z.testbit k 3 = true /\ Z.testbit k 4 = Z.testbit perm 1 /\ Z.testbit k 5 = false /\
  Z.testbit k 6 = (perm =? 0).
Proof.
  intros Hp k. assert (H : In perm [0; 1; 2; 3; 4; 5; 6; 7]) by (simpl; lia).
  subst k. simpl in H. repeat (destruct H as [<-|H]; [by vm_compute|]). done.
Qed.

Lemma convert_permission_witness :
  let k := MemoryPermission.ConvertToKMemoryPermission 3 in
  in_u 8 k /\ k .& MemoryPermission.UserMask = 3 /\
  Z.testbit k 3 = true /\ Z.testbit k 4 = Z.testbit 3 1 /\ Z.testbit k 5 = false /\
  Z.testbit k 6 = (3 =? 0).
Proof. apply convert_permission. lia. Defined.
