(* ===== verification/KMemoryBlockManager.v ===== *)
(** * KMemoryBlockManager: src/core/hle/kernel/k_memory_block_manager.{h,cpp}

    The map of a process's address space: the blocks of the intrusive tree in address order, the
    allocator that hands an update the two blocks it may need, and the updates, which split the
    blocks at the ends of a range, change the blocks inside it and merge neighbours again.

    The tree (common/tree.h) is its in-order sequence; an iterator is a position in it, and the
    end iterator is its length.  [find] and [insert] search with [KMemoryBlock::Compare] as
    [RB_FIND] and [RB_INSERT] do.  The abstract view is [page_props], the properties of the page at
    an address; the theorems say what each operation does to it. *)

From S2P Require Import Prelude Common BitField KPageHeap KMemoryBlock.
#[local] Open Scope Z_scope.

(** ** The slab manager the blocks come from, as the manager sees it *)

Class BlockSlab (S : Type) := {
  slab_Allocate : S -> option KMemoryBlock * S;
  slab_Free : S -> KMemoryBlock -> S
}.

(** ** KMemoryBlockManagerUpdateAllocator *)

Definition MaxBlocks : Z := 2.

Record UpdateAllocator (S : Type) := mkAllocator {
  m_blocks : list (option KMemoryBlock);
  m_index : Z;
  m_slab_manager : S
}.
Arguments mkAllocator {S}.
Arguments m_blocks {S}.
Arguments m_index {S}.
Arguments m_slab_manager {S}.

Section Allocator.

Context {S : Type} `{!BlockSlab S}.

Fixpoint Allocator_Initialize_loop (n : nat) (i : Z) (al : UpdateAllocator S) :
    outcome (Z * UpdateAllocator S) :=
  match n with
  | O => mret (ResultSuccess, al)
  | Datatypes.S n' =>
      let '(block, sm) := slab_Allocate (m_slab_manager al) in
      blocks ← arr_set (m_blocks al) (u64 (m_index al + i)) block;
      let al := mkAllocator blocks (m_index al) sm in
      match block with
      | None => mret (ResultOutOfResource, al)
      | Some _ => Allocator_Initialize_loop n' (i + 1) al
      end
  end.

Definition Allocator_Initialize (num_blocks : Z) (al : UpdateAllocator S) :
    outcome (Z * UpdateAllocator S) :=
  ASSERT (num_blocks <=? MaxBlocks);;
  Allocator_Initialize_loop (Z.to_nat (Z.min num_blocks MaxBlocks)) 0
    (mkAllocator (m_blocks al) (u64 (MaxBlocks - num_blocks)) (m_slab_manager al)).

(** The constructor. *)
Definition Allocator_new (sm : S) (num_blocks : Z) : outcome (Z * UpdateAllocator S) :=
  Allocator_Initialize num_blocks (mkAllocator (replicate 2 None) MaxBlocks sm).

(** The destructor: the slab manager with the blocks left over freed. *)
Definition Allocator_destroy (al : UpdateAllocator S) : S :=
  foldl (fun sm block => match block with Some b => slab_Free sm b | None => sm end)
    (m_slab_manager al) (m_blocks al).

Definition Allocate (al : UpdateAllocator S) :
    outcome (option KMemoryBlock * UpdateAllocator S) :=
  ASSERT (m_index al <? MaxBlocks);;
  block ← arr_get (m_blocks al) (m_index al);
  ASSERT (bool_decide (block <> None));;
  blocks ← arr_set (m_blocks al) (m_index al) None;
  mret (block, mkAllocator blocks (u64 (m_index al + 1)) (m_slab_manager al)).

Definition Free (al : UpdateAllocator S) (block : KMemoryBlock) : outcome (UpdateAllocator S) :=
  ASSERT (m_index al <=? MaxBlocks);;
  if m_index al =? 0 then
    mret (mkAllocator (m_blocks al) (m_index al) (slab_Free (m_slab_manager al) block))
  else
    let index := u64 (m_index al - 1) in
    blocks ← arr_set (m_blocks al) index (Some block);
    mret (mkAllocator blocks index (m_slab_manager al)).

(** ** The tree *)

Fixpoint tree_find (key : KMemoryBlock) (t : list KMemoryBlock) : option nat :=
  match t with
  | [] => None
  | b :: r =>
      match Compare key b with
      | Lt => None
      | Eq => Some 0%nat
      | Gt => Datatypes.S <$> tree_find key r
      end
  end.

(** The tree and the position of the node; a node that compares equal is not inserted again. *)
Fixpoint tree_insert (node : KMemoryBlock) (t : list KMemoryBlock) : list KMemoryBlock * nat :=
  match t with
  | [] => ([node], 0%nat)
  | b :: r =>
      match Compare node b with
      | Lt => (node :: b :: r, 0%nat)
      | Eq => (b :: r, 0%nat)
      | Gt => let '(r', i) := tree_insert node r in (b :: r', Datatypes.S i)
      end
  end.

(** Dereferencing an iterator, and removing the node it points at. *)
Definition deref (t : list KMemoryBlock) (it : nat) : outcome KMemoryBlock :=
  match t !! it with Some b => mret b | None => Undef end.
Definition tree_erase (t : list KMemoryBlock) (it : nat) : list KMemoryBlock := delete it t.

(** ** KMemoryBlockManager *)

Record KMemoryBlockManager := mkManager {
  m_memory_block_tree : list KMemoryBlock;
  m_start_address : Z;
  m_end_address : Z
}.
Definition KMemoryBlockManager_new : KMemoryBlockManager := mkManager [] 0 0.

Definition FindIterator (t : list KMemoryBlock) (address : Z) : nat :=
  default (length t)
    (tree_find (KMemoryBlock_new address 1 (MemoryState.state_value MemoryState.KFree)
                  MemoryPermission.None_ MemoryAttribute.None_) t).

Definition FindBlock (t : list KMemoryBlock) (address : Z) : option KMemoryBlock :=
  t !! FindIterator t address.

Definition Initialize (m : KMemoryBlockManager) (st nd : Z) (slab_manager : S) :
    outcome (Z * KMemoryBlockManager * S) :=
  let '(start_block, sm) := slab_Allocate slab_manager in
  match start_block with
  | None => mret (ResultOutOfResource, m, sm)
  | Some start_block =>
      ASSERT (IsAligned 64 st PageSize);;
      ASSERT (IsAligned 64 nd PageSize);;
      let start_block := KMemoryBlock.Initialize st (u64 (nd - st) / PageSize)
                           (MemoryState.state_value MemoryState.KFree) MemoryPermission.None_
                           MemoryAttribute.None_ start_block in
      let '(tree, _) := tree_insert start_block (m_memory_block_tree m) in
      mret (ResultSuccess, mkManager tree st nd, sm)
  end.

(** The blocks the callback is called on, in order, with the slab manager afterwards. *)
Fixpoint Finalize_loop (t : list KMemoryBlock) (sm : S) : list (Z * Z) * S :=
  match t with
  | [] => ([], sm)
  | block :: r =>
      let '(calls, sm) := Finalize_loop r (slab_Free sm block) in
      ((GetAddress block, GetSize block) :: calls, sm)
  end.

Definition Finalize (m : KMemoryBlockManager) (slab_manager : S) :
    list (Z * Z) * KMemoryBlockManager * S :=
  let '(calls, sm) := Finalize_loop (m_memory_block_tree m) slab_manager in
  (calls, mkManager [] (m_start_address m) (m_end_address m), sm).

(** ** FindFreeArea *)

(** The candidate in one block: the area, and whether it fits. *)
Definition find_in_block (info : KMemoryInfo)
    (region_start region_last num_pages alignment offset guard_pages : Z) : Z * bool :=
  let area := if Info_GetAddress info <=? region_start then region_start
              else Info_GetAddress info in
  let area := u64 (area + u64 (guard_pages * PageSize)) in
  let offset_area := u64 (AlignDown 64 area alignment + offset) in
  let area := if area <=? offset_area then offset_area else u64 (offset_area + alignment) in
  let area_end := u64 (u64 (area + u64 (num_pages * PageSize)) + u64 (guard_pages * PageSize)) in
  let area_last := u64 (area_end - 1) in
  (area, (Info_GetAddress info <=? area) && (area <? area_last) && (area_last <=? region_last) &&
         (area_last <=? Info_GetLastAddress info)).

Fixpoint FindFreeArea_loop (t : list KMemoryBlock)
    (region_start region_last num_pages alignment offset guard_pages : Z) : outcome Z :=
  match t with
  | [] => mret 0
  | b :: r =>
      let info := GetMemoryInfo b in
      if region_last <? Info_GetAddress info then mret 0
      else if negb (i_state info =? MemoryState.state_value MemoryState.KFree) then
        FindFreeArea_loop r region_start region_last num_pages alignment offset guard_pages
      else if alignment =? 0 then Undef
      else
        let '(area, fits) :=
          find_in_block info region_start region_last num_pages alignment offset guard_pages in
        if fits then mret area
        else FindFreeArea_loop r region_start region_last num_pages alignment offset guard_pages
  end.

Definition FindFreeArea (m : KMemoryBlockManager)
    (region_start region_num_pages num_pages alignment offset guard_pages : Z) : outcome Z :=
  if 0 <? num_pages then
    let region_end := u64 (region_start + u64 (region_num_pages * PageSize)) in
    let region_last := u64 (region_end - 1) in
    let t := m_memory_block_tree m in
    FindFreeArea_loop (drop (FindIterator t region_start) t)
      region_start region_last num_pages alignment offset guard_pages
  else mret 0.

(** ** CoalesceForUpdate *)

Fixpoint Coalesce_loop (fuel : nat) (t : list KMemoryBlock) (it : nat) (limit : Z)
    (al : UpdateAllocator S) : outcome (list KMemoryBlock * UpdateAllocator S) :=
  match fuel with
  | O => Undef
  | Datatypes.S fuel' =>
      let prev := it in
      let it := Datatypes.S it in
      prev_block ← deref t prev;
      match t !! it with
      | None => mret (t, al)
      | Some block =>
          '(t, it, al) ←
            (if CanMergeWith prev_block block then
               let t := tree_erase t it in
               prev_block ← KMemoryBlock.Add prev_block block;
               al ← Free al block;
               mret (<[prev := prev_block]> t, prev, al)
             else mret (t, it, al));
          cur ← deref t it;
          if limit <? Info_GetEndAddress (GetMemoryInfo cur) then mret (t, al)
          else Coalesce_loop fuel' t it limit al
      end
  end.

Definition CoalesceForUpdate (m : KMemoryBlockManager) (t : list KMemoryBlock)
    (al : UpdateAllocator S) (address num_pages : Z) :
    outcome (list KMemoryBlock * UpdateAllocator S) :=
  let it := FindIterator t address in
  it ← (if negb (address =? m_start_address m)
        then (if (it =? 0)%nat then Undef else mret (it - 1)%nat) else mret it);
  Coalesce_loop (Datatypes.S (length t)) t it (u64 (address + u64 (num_pages * PageSize))) al.

(** ** The updates

    The four updates run one loop; they differ in the blocks they leave alone ([skip]) and in what
    they do to the others ([upd]). *)

(** "Create a new block before and insert it": the tree, the iterator and [cur_address]. *)
Definition split_before (t : list KMemoryBlock) (it : nat) (cur_address : Z)
    (al : UpdateAllocator S) : outcome (list KMemoryBlock * nat * Z * UpdateAllocator S) :=
  b ← deref t it;
  if negb (Info_GetAddress (GetMemoryInfo b) =? cur_address) then
    '(new_block, al) ← Allocate al;
    match new_block with
    | None => Undef
    | Some _ =>
        '(new_block, b) ← Split b cur_address;
        let '(t, it) := tree_insert new_block (<[it := b]> t) in
        let it := Datatypes.S it in
        b ← deref t it;
        mret (t, it, Info_GetAddress (GetMemoryInfo b), al)
    end
  else mret (t, it, cur_address, al).

(** "Create a new block after and insert it": the iterator is left at the part before. *)
Definition split_after (t : list KMemoryBlock) (it : nat) (cur_address remaining_size : Z)
    (al : UpdateAllocator S) : outcome (list KMemoryBlock * nat * UpdateAllocator S) :=
  b ← deref t it;
  if remaining_size <? Info_GetSize (GetMemoryInfo b) then
    '(new_block, al) ← Allocate al;
    match new_block with
    | None => Undef
    | Some _ =>
        '(new_block, b) ← Split b (u64 (cur_address + remaining_size));
        let '(t, it) := tree_insert new_block (<[it := b]> t) in
        mret (t, it, al)
    end
  else mret (t, it, al).

Fixpoint update_loop (fuel : nat) (skip : KMemoryBlock -> bool)
    (upd : KMemoryBlock -> outcome KMemoryBlock) (t : list KMemoryBlock) (it : nat)
    (cur_address remaining_pages : Z) (al : UpdateAllocator S) :
    outcome (list KMemoryBlock * UpdateAllocator S) :=
  match fuel with
  | O => Undef
  | Datatypes.S fuel' =>
      if 0 <? remaining_pages then
        let remaining_size := u64 (remaining_pages * PageSize) in
        b ← deref t it;
        let cur_info := GetMemoryInfo b in
        if skip b then
          if u64 (cur_address + remaining_size) <? Info_GetEndAddress cur_info then
            update_loop fuel' skip upd t (Datatypes.S it) (u64 (cur_address + remaining_size)) 0 al
          else
            update_loop fuel' skip upd t (Datatypes.S it) (Info_GetEndAddress cur_info)
              (u64 (u64 (cur_address + remaining_size) - Info_GetEndAddress cur_info) / PageSize) al
        else
          '(t, it, cur_address, al) ← split_before t it cur_address al;
          '(t, it, al) ← split_after t it cur_address remaining_size al;
          b ← deref t it;
          let cur_info := GetMemoryInfo b in
          b ← upd b;
          update_loop fuel' skip upd (<[it := b]> t) (Datatypes.S it)
            (u64 (cur_address + Info_GetSize cur_info))
            (u64 (remaining_pages - Info_GetNumPages cur_info)) al
      else mret (t, al)
  end.

(** The loop, then [CoalesceForUpdate]. *)
Definition run_update (skip : KMemoryBlock -> bool) (upd : KMemoryBlock -> outcome KMemoryBlock)
    (m : KMemoryBlockManager) (al : UpdateAllocator S) (address num_pages : Z) :
    outcome (KMemoryBlockManager * UpdateAllocator S) :=
  let t := m_memory_block_tree m in
  '(t, al) ← update_loop (Datatypes.S (length t)) skip upd t (FindIterator t address) address
               num_pages al;
  '(t, al) ← CoalesceForUpdate m t al address num_pages;
  mret (mkManager t (m_start_address m) (m_end_address m), al).

Definition Update (m : KMemoryBlockManager) (al : UpdateAllocator S)
    (address num_pages state perm attr set_disable_attr clear_disable_attr : Z) :
    outcome (KMemoryBlockManager * UpdateAllocator S) :=
  ASSERT (IsAligned 64 address PageSize);;
  ASSERT ((attr .& (MemoryAttribute.IpcLocked .| MemoryAttribute.DeviceShared)) =?
          MemoryAttribute.None_);;
  run_update (fun b => HasProperties b state perm attr)
    (fun b => KMemoryBlock.Update b state perm attr (GetAddress b =? address) set_disable_attr
                clear_disable_attr)
    m al address num_pages.

Definition UpdateIfMatch (m : KMemoryBlockManager) (al : UpdateAllocator S)
    (address num_pages test_state test_perm test_attr state perm attr
     set_disable_attr clear_disable_attr : Z) :
    outcome (KMemoryBlockManager * UpdateAllocator S) :=
  ASSERT (IsAligned 64 address PageSize);;
  ASSERT ((attr .& (MemoryAttribute.IpcLocked .| MemoryAttribute.DeviceShared)) =?
          MemoryAttribute.None_);;
  run_update (fun b => negb (HasProperties b test_state test_perm test_attr &&
                             negb (HasProperties b state perm attr)))
    (fun b => KMemoryBlock.Update b state perm attr false set_disable_attr clear_disable_attr)
    m al address num_pages.

(** [lock_func] is one of the member functions [LockForIpc], [UnlockForIpc], [ShareToDevice],
    [UnshareToDevice] and [UnshareToDeviceRight]. *)
Definition UpdateLock (m : KMemoryBlockManager) (al : UpdateAllocator S) (address num_pages : Z)
    (lock_func : KMemoryBlock -> Z -> bool -> bool -> outcome KMemoryBlock) (perm : Z) :
    outcome (KMemoryBlockManager * UpdateAllocator S) :=
  ASSERT (IsAligned 64 address PageSize);;
  let end_address := u64 (address + u64 (num_pages * PageSize)) in
  run_update (fun _ => false)
    (fun b => let cur_info := GetMemoryInfo b in
              lock_func b perm (Info_GetAddress cur_info =? address)
                (Info_GetEndAddress cur_info =? end_address))
    m al address num_pages.

Definition UpdateAttribute (m : KMemoryBlockManager) (al : UpdateAllocator S)
    (address num_pages mask attr : Z) : outcome (KMemoryBlockManager * UpdateAllocator S) :=
  ASSERT (IsAligned 64 address PageSize);;
  run_update (fun b => (m_attribute b .& mask) =? attr)
    (fun b => KMemoryBlock.UpdateAttribute b mask attr)
    m al address num_pages.

(** ** CheckState *)

(** The counts that go with the lock and share attributes. *)
Definition check_counts (info : KMemoryInfo) : bool :=
  negb (negb ((i_attribute info .& MemoryAttribute.IpcLocked) =? MemoryAttribute.None_) &&
        (i_ipc_lock_count info =? 0)) &&
  negb (negb ((i_attribute info .& MemoryAttribute.DeviceShared) =? MemoryAttribute.None_) &&
        (i_device_use_count info =? 0)).

Fixpoint CheckState_loop (prev : KMemoryBlock) (t : list KMemoryBlock) : bool :=
  match t with
  | [] => check_counts (GetMemoryInfo prev)
  | b :: r =>
      let prev_info := GetMemoryInfo prev in
      let cur_info := GetMemoryInfo b in
      if CanMergeWith prev b then false
      else if negb (Info_GetEndAddress prev_info =? Info_GetAddress cur_info) then false
      else if negb (check_counts cur_info) then false
      else CheckState_loop b r
  end.

(** On an empty tree the first increment already leaves the sequence. *)
Definition CheckState (m : KMemoryBlockManager) : outcome bool :=
  match m_memory_block_tree m with
  | [] => Undef
  | b :: r => mret (CheckState_loop b r)
  end.

End Allocator.

#[local] Arguments Z.testbit : simpl never.
#[local] Arguments Z.land : simpl never.
#[local] Arguments Z.pow : simpl never.

(** ** The abstract view: the properties of a page *)

Record PageProps := mkProps {
  p_state : Z;
  p_permission : Z;
  p_original : Z;
  p_attribute : Z;
  p_ipc_lock : Z;
  p_device_use : Z
}.

#[export] Instance PageProps_eq_dec : EqDecision PageProps.
Proof. solve_decision. Defined.

Definition props (b : KMemoryBlock) : PageProps :=
  mkProps (m_memory_state b) (m_permission b) (m_original_permission b) (m_attribute b)
    (m_ipc_lock_count b) (m_device_use_count b).

Definition covers (b : KMemoryBlock) (a : Z) : bool := (m_address b <=? a) && (a <? block_end b).

Fixpoint page_props (t : list KMemoryBlock) (a : Z) : option PageProps :=
  match t with
  | [] => None
  | b :: r => if covers b a then Some (props b) else page_props r a
  end.

(** [t] is a sequence of adjacent blocks from [s] to [e]. *)
Fixpoint chain (s : Z) (t : list KMemoryBlock) (e : Z) : Prop :=
  match t with
  | [] => s = e
  | b :: r => geom b /\ m_address b = s /\ chain (block_end b) r e
  end.

(** No two neighbours whose border satisfies [P] can be merged. *)
Fixpoint separated (P : Z -> Prop) (t : list KMemoryBlock) : Prop :=
  match t with
  | [] => True
  | b :: r =>
      match r with c :: _ => P (m_address c) -> CanMergeWith b c = false | [] => True end /\
      separated P r
  end.

(** A start or an end of a block of the tree. *)
Definition border (t : list KMemoryBlock) (a : Z) : bool :=
  existsb (fun b => (m_address b =? a) || (block_end b =? a)) t.

Lemma block_end_gt b : geom b -> m_address b < block_end b.
Proof. intros (? & _ & ? & _). unfold block_end, PageSize. lia. Qed.

Lemma chain_le s t e : chain s t e -> s <= e.
Proof.
  revert s. induction t as [|b t IH]; simpl; [lia|]. intros s (Hg & <- & Hc).
  pose proof (block_end_gt b Hg). pose proof (IH _ Hc). lia.
Qed.

Lemma chain_app s t1 t2 e :
  chain s (t1 ++ t2) e <-> exists c, chain s t1 c /\ chain c t2 e.
Proof.
  revert s. induction t1 as [|b t1 IH]; intros s; simpl.
  - split; [intros; by exists s|by intros (c & -> & H)].
  - rewrite IH. split.
    + intros (Hg & Ha & c & H1 & H2). by exists c.
    + intros (c & (Hg & Ha & H1) & H2). split_and!; [done..|]. by exists c.
Qed.

Lemma chain_geom s t e : chain s t e -> Forall geom t.
Proof. revert s. induction t; intros s; simpl; [done|]. intros (? & _ & ?). constructor; eauto. Qed.

Lemma covers_spec b a : covers b a = true <-> m_address b <= a < block_end b.
Proof. unfold covers. rewrite andb_true_iff, Z.leb_le, Z.ltb_lt. done. Qed.

Lemma page_props_app s t1 c t2 e a :
  chain s t1 c -> chain c t2 e ->
  page_props (t1 ++ t2) a = if a <? c then page_props t1 a else page_props t2 a.
Proof.
  revert s. induction t1 as [|b t1 IH]; simpl; intros s H1 H2.
  - subst s. destruct (Z.ltb_spec a c) as [Hlt|]; [|done].
    revert c H2 Hlt. induction t2 as [|b t2 IH]; intros c; simpl; [done|].
    intros (Hg & Ha & Hc) Hlt. pose proof (block_end_gt b Hg).
    destruct (covers b a) eqn:E; [apply covers_spec in E; lia|]. apply (IH _ Hc). lia.
  - destruct H1 as (Hg & Ha & H1). rewrite (IH _ H1 H2). pose proof (chain_le _ _ _ H1).
    destruct (Z.ltb_spec a c); [done|].
    destruct (covers b a) eqn:E; [apply covers_spec in E; lia|done].
Qed.

Lemma page_props_below s t e a : chain s t e -> a < s -> page_props t a = None.
Proof.
  revert s. induction t as [|b t IH]; simpl; [done|]. intros s (Hg & <- & Hc) Hlt.
  pose proof (block_end_gt b Hg).
  destruct (covers b a) eqn:E; [apply covers_spec in E; lia|]. apply (IH _ Hc). lia.
Qed.

(** The block that covers an address of a chain. *)
Lemma chain_cover s t e a :
  chain s t e -> s <= a < e ->
  exists d b r, t = d ++ b :: r /\ m_address b <= a < block_end b.
Proof.
  revert s. induction t as [|b t IH]; simpl; intros s; [lia|].
  intros (Hg & <- & Hc) Ha. destruct (Z_lt_le_dec a (block_end b)).
  - exists [], b, t. split; [done|lia].
  - destruct (IH _ Hc) as (d & b' & r & -> & H); [lia|]. by exists (b :: d), b', r.
Qed.

(** ** Searching a chain *)

Lemma Compare_eq key b :
  geom b ->
  Compare key b = if m_address key <? m_address b then Lt
                  else if m_address key <? block_end b then Eq else Gt.
Proof.
  intros Hg. unfold Compare. rewrite GetLastAddress_eq by done. unfold GetAddress.
  destruct (_ <? _); [done|].
  destruct (Z.leb_spec (m_address key) (block_end b - 1)), (Z.ltb_spec (m_address key) (block_end b));
    (done || lia).
Qed.

Lemma tree_find_chain s d b r e key :
  chain s (d ++ b :: r) e -> m_address b <= m_address key < block_end b ->
  tree_find key (d ++ b :: r) = Some (length d).
Proof.
  revert s. induction d as [|x d IH]; simpl; intros s (Hg & Hs & Hc) Hk; rewrite Compare_eq by done.
  - destruct (Z.ltb_spec (m_address key) (m_address b)), (Z.ltb_spec (m_address key) (block_end b));
      (done || lia).
  - apply chain_app in Hc as Hc'. destruct Hc' as (c & Hc1 & Hb & <- & _).
    pose proof (chain_le _ _ _ Hc1). pose proof (block_end_gt x Hg).
    destruct (Z.ltb_spec (m_address key) (m_address x)), (Z.ltb_spec (m_address key) (block_end x));
      try lia. by rewrite (IH _ Hc Hk).
Qed.

Lemma FindIterator_chain s d b r e a :
  chain s (d ++ b :: r) e -> m_address b <= a < block_end b ->
  FindIterator (d ++ b :: r) a = length d.
Proof. intros Hc Ha. unfold FindIterator. by rewrite (tree_find_chain s d b r e). Qed.

Lemma tree_insert_chain s d node b r :
  chain s d (m_address node) -> geom b -> m_address node < m_address b ->
  tree_insert node (d ++ b :: r) = (d ++ node :: b :: r, length d).
Proof.
  intros Hc Hg Hlt. revert s Hc. induction d as [|x d IH]; simpl; intros s.
  - intros _. rewrite Compare_eq by done.
    by destruct (Z.ltb_spec (m_address node) (m_address b)); [|lia].
  - intros (Hgx & Hs & Hc). rewrite Compare_eq by done. pose proof (chain_le _ _ _ Hc).
    pose proof (block_end_gt x Hgx).
    destruct (Z.ltb_spec (m_address node) (m_address x)), (Z.ltb_spec (m_address node) (block_end x));
      try lia. by rewrite (IH _ Hc).
Qed.

Lemma deref_app d b r : deref (d ++ b :: r) (length d) = mret b.
Proof. unfold deref. by rewrite list_lookup_middle. Qed.

Lemma insert_app_middle d (b b' : KMemoryBlock) r :
  <[length d := b']> (d ++ b :: r) = d ++ b' :: r.
Proof. rewrite insert_app_r_alt by done. by rewrite Nat.sub_diag. Qed.

Lemma Info_size b : geom b -> Info_GetSize (GetMemoryInfo b) = m_num_pages b * PageSize.
Proof. intros. by apply GetSize_eq. Qed.

Lemma Info_pages b : geom b -> Info_GetNumPages (GetMemoryInfo b) = m_num_pages b.
Proof. intros. unfold Info_GetNumPages. rewrite Info_size by done. by rewrite Z.div_mul. Qed.

Lemma Info_end b : geom b -> Info_GetEndAddress (GetMemoryInfo b) = block_end b.
Proof. intros. by apply GetEndAddress_eq. Qed.

Lemma chain_end_bound s t e : chain s t e -> t <> [] -> 0 <= s /\ e < 2 ^ 64.
Proof.
  intros Hc Hne. split.
  - destruct t as [|b t]; [done|]. destruct Hc as ((H0 & _) & <- & _). done.
  - destruct t as [|b t _] using rev_ind; [done|]. apply chain_app in Hc as (c & _ & Hg & _ & <-).
    apply Hg.
Qed.

(** ** Merging *)

Lemma CanMergeWith_spec b c :
  CanMergeWith b c = true <->
  props b = props c /\ m_disable_merge_attribute b .& DisableMerge.AllRight = 0 /\
  m_disable_merge_attribute c .& DisableMerge.AllLeft = 0.
Proof.
  unfold CanMergeWith, HasSameProperties, props. rewrite !andb_true_iff, !Z.eqb_eq. split.
  - intros [[[[[[[-> ->] ->] ->] ->] ->] H1] H2]. done.
  - intros ([= -> -> -> -> -> ->] & H1 & H2). by split_and!.
Qed.

(** Whether a pair can be merged depends on the right flags of the first and the left flags of the
    second block only. *)
Lemma CanMergeWith_congr b c b' c' :
  props b = props b' -> props c = props c' ->
  m_disable_merge_attribute b .& DisableMerge.AllRight =
    m_disable_merge_attribute b' .& DisableMerge.AllRight ->
  m_disable_merge_attribute c .& DisableMerge.AllLeft =
    m_disable_merge_attribute c' .& DisableMerge.AllLeft ->
  CanMergeWith b c = CanMergeWith b' c'.
Proof.
  intros H1 H2 H3 H4. apply eq_true_iff_eq. rewrite !CanMergeWith_spec.
  by rewrite H1, H2, H3, H4.
Qed.

Lemma merge_split_left x b a : CanMergeWith x (split_left b a) = CanMergeWith x b.
Proof.
  apply CanMergeWith_congr; try done. simpl.
  rewrite <- Z.land_assoc. by rewrite Z.land_diag.
Qed.

Lemma merge_split_right b a y : CanMergeWith (split_right b a) y = CanMergeWith b y.
Proof.
  apply CanMergeWith_congr; try done. simpl.
  rewrite <- Z.land_assoc. by rewrite Z.land_diag.
Qed.

Lemma merge_add_left x b c :
  CanMergeWith b c = true -> CanMergeWith x (add_result b c) = CanMergeWith x b.
Proof.
  intros (_ & _ & H)%CanMergeWith_spec. apply CanMergeWith_congr; try done. simpl.
  by rewrite Z.land_lor_distr_l, H, Z.lor_0_r.
Qed.

Lemma merge_add_right b c y :
  CanMergeWith b c = true -> CanMergeWith (add_result b c) y = CanMergeWith c y.
Proof.
  intros (Hp & H & _)%CanMergeWith_spec. apply CanMergeWith_congr; try done. simpl.
  by rewrite Z.land_lor_distr_l, H, Z.lor_0_l.
Qed.

Lemma separated_app P d t :
  separated P (d ++ t) ->
  separated P d /\ separated P t /\
  (forall x y, list.last d = Some x -> head t = Some y -> P (m_address y) ->
     CanMergeWith x y = false).
Proof.
  induction d as [|b d IH]; simpl; [intros H; by split_and!|].
  intros [H1 H2]. destruct (IH H2) as (Ha & Hb & Hc). destruct d as [|c d]; simpl in *.
  - split_and!; [done..|]. intros x y [= <-] Hy HP. destruct t; [done|]. injection Hy as ->. auto.
  - split_and!; auto; tauto.
Qed.

Lemma separated_app_2 P d t :
  separated P d -> separated P t ->
  (forall x y, list.last d = Some x -> head t = Some y -> P (m_address y) ->
     CanMergeWith x y = false) ->
  separated P (d ++ t).
Proof.
  induction d as [|b d IH]; simpl; [done|]. intros [H1 H2] Ht Hj.
  destruct d as [|c d].
  - simpl. split; [|done]. destruct t as [|y t]; [done|]. intros HP. by apply (Hj b y).
  - simpl. split; [done|]. apply IH; [done|done|]. intros x y Hx. by apply Hj.
Qed.

Lemma separated_weaken (P Q : Z -> Prop) t :
  (forall a, Q a -> P a) -> separated P t -> separated Q t.
Proof.
  intros HPQ. induction t as [|b t IH]; [done|]. intros [H1 H2]. split; [|auto].
  destruct t; [done|]. auto.
Qed.

Ltac ostepi := rewrite ?bind_ret, ?bind_Done_true; cbv beta iota zeta.

(** ** The allocator keeps its blocks at the end of its array *)

Section Proofs.

Context {S : Type} `{!BlockSlab S}.
Implicit Types al : UpdateAllocator S.

Definition alloc_ok al : Prop :=
  length (m_blocks al) = 2%nat /\ 0 <= m_index al <= 2 /\
  (forall i, m_index al <= Z.of_nat i < 2 -> exists b, m_blocks al !! i = Some (Some b)).

Lemma Allocate_ok al :
  alloc_ok al -> m_index al < 2 ->
  exists b al', Allocate al = Done true (Some b, al') /\ alloc_ok al' /\
    m_index al' = m_index al + 1.
Proof.
  intros (Hlen & Hi & Hb) Hlt. destruct (Hb (Z.to_nat (m_index al))) as [b Hx]; [lia|].
  unfold Allocate. rewrite (proj2 (Z.ltb_lt (m_index al) MaxBlocks)) by (unfold MaxBlocks; lia).
  rewrite bind_assert_true by done. rewrite (arr_get_Some _ _ (Some b)) by (done || lia). ostep.
  rewrite bind_assert_true by (by apply bool_decide_eq_true).
  rewrite arr_set_lt by lia. ostep. rewrite (u64_small (m_index al + 1)) by lia.
  eexists b, _. split; [done|]. split; [|done]. split_and!; simpl; [by rewrite length_insert|lia..|].
  intros i Hi'. rewrite list_lookup_insert_ne by lia. apply Hb. lia.
Qed.

Lemma Free_ok al b : alloc_ok al -> exists al', Free al b = Done true al' /\ alloc_ok al'.
Proof.
  intros (Hlen & Hi & Hb). unfold Free.
  rewrite (proj2 (Z.leb_le (m_index al) MaxBlocks)) by (unfold MaxBlocks; lia).
  rewrite bind_assert_true by done. destruct (Z.eqb_spec (m_index al) 0).
  - eexists. split; [done|]. unfold alloc_ok; simpl. split_and!; (done || lia).
  - rewrite (u64_small (m_index al - 1)) by lia. rewrite arr_set_lt by lia. ostep.
    eexists. split; [done|]. split_and!; simpl; [by rewrite length_insert|lia|lia|].
    intros i Hi'. destruct (Z.eq_dec (Z.of_nat i) (m_index al - 1)) as [He|].
    + replace (Z.to_nat (m_index al - 1)) with i by lia.
      rewrite list_lookup_insert_eq by lia. eauto.
    + rewrite list_lookup_insert_ne by lia. apply Hb. lia.
Qed.

(** A new allocator holds the blocks asked for when the slab manager can give them. *)
Lemma Allocator_new_ok (sm : S) b1 sm1 b2 sm2 :
  slab_Allocate sm = (Some b1, sm1) -> slab_Allocate sm1 = (Some b2, sm2) ->
  exists al, Allocator_new sm 2 = Done true (ResultSuccess, al) /\ alloc_ok al /\ m_index al = 0.
Proof.
  intros H1 H2. unfold Allocator_new, Allocator_Initialize. simpl. rewrite H1. simpl. rewrite H2.
  eexists. split; [done|]. split; [|done]. split_and!; simpl; [done|by vm_compute|by vm_compute|].
  intros [|[|i]] Hi; simpl; eauto. lia.
Qed.

(** ** The pieces an update cuts a block into *)

Definition before_part (b : KMemoryBlock) (cur : Z) : list KMemoryBlock :=
  if m_address b =? cur then [] else [split_left b cur].
Definition from_part (b : KMemoryBlock) (cur : Z) : KMemoryBlock :=
  if m_address b =? cur then b else split_right b cur.
Definition inside_part (b : KMemoryBlock) (fin : Z) : KMemoryBlock :=
  if fin <? block_end b then split_left b fin else b.
Definition after_part (b : KMemoryBlock) (fin : Z) : list KMemoryBlock :=
  if fin <? block_end b then [split_right b fin] else [].

Lemma from_part_geom b cur :
  geom b -> m_address b <= cur < block_end b -> (PageSize | cur) ->
  geom (from_part b cur) /\ m_address (from_part b cur) = cur /\
  block_end (from_part b cur) = block_end b /\ props (from_part b cur) = props b.
Proof.
  intros Hg Hc Hd. unfold from_part. destruct (Z.eqb_spec (m_address b) cur); [by subst|].
  destruct (split_right_geom b cur Hg) as (? & ? & _); [lia|done|]. done.
Qed.

Lemma inside_part_geom b fin :
  geom b -> m_address b < fin -> (PageSize | fin) ->
  geom (inside_part b fin) /\ m_address (inside_part b fin) = m_address b /\
  block_end (inside_part b fin) = Z.min fin (block_end b) /\ props (inside_part b fin) = props b.
Proof.
  intros Hg Hc Hd. unfold inside_part. destruct (Z.ltb_spec fin (block_end b)).
  - destruct (split_right_geom b fin Hg) as (_ & _ & E); [lia|done|].
    pose proof (split_left_geom b fin Hg) as Hl. split_and!; [apply Hl; [lia|done]|done|lia|done].
  - split_and!; [done..|lia|done].
Qed.

Lemma before_part_chain b cur :
  geom b -> m_address b <= cur < block_end b -> (PageSize | cur) ->
  chain (m_address b) (before_part b cur) cur.
Proof.
  intros Hg Hc Hd. unfold before_part. destruct (Z.eqb_spec (m_address b) cur); [done|].
  destruct (split_right_geom b cur Hg) as (_ & _ & E); [lia|done|].
  pose proof (split_left_geom b cur Hg) as Hl. split_and!; [apply Hl; [lia|done]|done|done].
Qed.

Lemma after_part_chain b fin :
  geom b -> m_address b < fin -> (PageSize | fin) ->
  chain (Z.min fin (block_end b)) (after_part b fin) (block_end b).
Proof.
  intros Hg Hc Hd. unfold after_part. destruct (Z.ltb_spec fin (block_end b)); simpl; [|lia].
  destruct (split_right_geom b fin Hg) as (? & ? & E); [lia|done|].
  split_and!; [done|lia|done].
Qed.

Lemma split_before_ok s d b r e cur al :
  chain s (d ++ b :: r) e -> m_address b <= cur < block_end b -> (PageSize | cur) ->
  alloc_ok al -> m_index al + (if m_address b =? cur then 0 else 1) <= 2 ->
  exists al', split_before (d ++ b :: r) (length d) cur al =
      Done true (d ++ before_part b cur ++ from_part b cur :: r,
                 length (d ++ before_part b cur), cur, al') /\
    alloc_ok al' /\ m_index al' = m_index al + (if m_address b =? cur then 0 else 1).
Proof.
  intros Hc Ha Hd Hal Hn. pose proof Hc as Hc'. apply chain_app in Hc' as (c & Hc1 & Hg & Hb & Hc2).
  unfold split_before, before_part, from_part. rewrite deref_app. ostep.
  change (Info_GetAddress (GetMemoryInfo b)) with (m_address b).
  destruct (Z.eqb_spec (m_address b) cur) as [He|]; cbv [negb].
  - exists al. rewrite app_nil_r. split_and!; [done..|lia].
  - destruct (Allocate_ok al Hal) as (x & al' & -> & Hal' & Hi); [lia|].
    ostepi. rewrite Split_eq by (done || lia). ostepi. rewrite insert_app_middle.
    destruct (split_right_geom b cur Hg) as (Hgr & _); [lia|done|].
    rewrite (tree_insert_chain s); [|simpl; by rewrite Hb|done|simpl; lia]. cbv beta iota zeta.
    replace (deref (d ++ split_left b cur :: split_right b cur :: r) (Datatypes.S (length d)))
      with (mret (M := outcome) (split_right b cur)).
    + ostep. exists al'. split_and!; [|done|done].
      by rewrite length_app, Nat.add_1_r.
    + unfold deref. rewrite lookup_app_r by lia.
      by replace (Datatypes.S (length d) - length d)%nat with 1%nat by lia.
Qed.

Lemma split_after_ok s d b r e fin al :
  chain s (d ++ b :: r) e -> m_address b < fin -> (PageSize | fin) -> fin <= e ->
  alloc_ok al -> m_index al + (if fin <? block_end b then 1 else 0) <= 2 ->
  exists al', split_after (d ++ b :: r) (length d) (m_address b) (fin - m_address b) al =
      Done true (d ++ inside_part b fin :: after_part b fin ++ r, length d, al') /\
    alloc_ok al' /\ m_index al' = m_index al + (if fin <? block_end b then 1 else 0).
Proof.
  intros Hc Ha Hd He Hal Hn. destruct (chain_end_bound _ _ _ Hc) as [_ H64]; [by destruct d|].
  pose proof Hc as Hc'. apply chain_app in Hc' as (c & Hc1 & Hg & Hb & Hc2).
  unfold split_after, inside_part, after_part. rewrite deref_app. ostep.
  rewrite Info_size by done.
  replace (fin - m_address b <? m_num_pages b * PageSize) with (fin <? block_end b).
  2: { unfold block_end.
       destruct (Z.ltb_spec fin (m_address b + m_num_pages b * PageSize)),
         (Z.ltb_spec (fin - m_address b) (m_num_pages b * PageSize)); lia. }
  destruct (Z.ltb_spec fin (block_end b)); cbv beta iota.
  - destruct (Allocate_ok al Hal) as (x & al' & -> & Hal' & Hi); [lia|].
    ostepi. rewrite Zplus_minus, (u64_small fin) by (destruct Hg as (? & _); lia).
    rewrite Split_eq by (done || lia). ostepi. rewrite insert_app_middle.
    destruct (split_right_geom b fin Hg) as (Hgr & _); [lia|done|].
    rewrite (tree_insert_chain s); [|simpl; by rewrite Hb|done|simpl; lia].
    exists al'. done.
  - exists al. split_and!; [done..|lia].
Qed.

End Proofs.

Lemma split_left_ok b a : block_ok b -> block_ok (split_left b a).
Proof.
  intros [h1 h2 h3 h4 h5 h6 h7 h8 h9 h10 h11 h12 h13 h14].
  assert (in_u 5 (m_disable_merge_attribute b .& DisableMerge.AllLeft))
    by (apply in_u_land; [lia|done|by vm_compute]).
  constructor; simpl; try done; rewrite Z.land_spec; change DisableMerge.AllLeft with 15.
  - by rewrite h12, andb_true_r.
  - by rewrite h13, andb_true_r.
  - by rewrite andb_false_r.
Qed.

Lemma split_right_ok b a : block_ok b -> block_ok (split_right b a).
Proof.
  intros [h1 h2 h3 h4 h5 h6 h7 h8 h9 h10 h11 h12 h13 h14].
  assert (in_u 5 (m_disable_merge_attribute b .& DisableMerge.AllRight))
    by (apply in_u_land; [lia|done|by vm_compute]).
  constructor; simpl; try done; rewrite Z.land_spec; change DisableMerge.AllRight with 16.
  - by rewrite andb_false_r.
  - by rewrite andb_false_r.
  - by rewrite h14, andb_true_r.
Qed.

(** ** The update loop *)

Definition same_place (b b' : KMemoryBlock) : Prop :=
  m_address b' = m_address b /\ m_num_pages b' = m_num_pages b.

Section UpdateLoop.

Context {S : Type} `{!BlockSlab S}.
Variables (skip : KMemoryBlock -> bool) (upd : KMemoryBlock -> outcome KMemoryBlock).
(** What an update does to the properties of a page: [sk] says which are left alone, [g] changes
    the others. *)
Variables (sk : PageProps -> bool) (g : PageProps -> PageProps).
(** The condition under which [upd] works, kept by splits. *)
Variable Pre : KMemoryBlock -> Prop.
Variables (address fin : Z).
Hypothesis skip_props : forall b, skip b = sk (props b).
Hypothesis upd_ok : forall b,
  geom b -> block_ok b -> Pre b -> address <= m_address b -> block_end b <= fin ->
  sk (props b) = false ->
  exists b', upd b = Done true b' /\ same_place b b' /\ props b' = g (props b) /\ block_ok b'.
Hypothesis Pre_left : forall b a, Pre b -> Pre (split_left b a).
Hypothesis Pre_right : forall b a, Pre b -> Pre (split_right b a).
Hypothesis fin_page : (PageSize | fin).

Definition new_props (lo a : Z) (o : option PageProps) : option PageProps :=
  if (lo <=? a) && (a <? fin) then (fun p => if sk p then p else g p) <$> o else o.

Lemma new_props_outside lo a o : a < lo \/ fin <= a -> new_props lo a o = o.
Proof.
  intros H. unfold new_props. destruct (Z.leb_spec lo a), (Z.ltb_spec a fin); (done || lia).
Qed.

Lemma new_props_inside lo a o :
  lo <= a < fin -> new_props lo a o = (fun p => if sk p then p else g p) <$> o.
Proof.
  intros H. unfold new_props. destruct (Z.leb_spec lo a), (Z.ltb_spec a fin); (done || lia).
Qed.

Lemma new_props_lo lo lo' a o : lo <= lo' <= a -> new_props lo a o = new_props lo' a o.
Proof.
  intros H. unfold new_props. by rewrite !(proj2 (Z.leb_le _ a)) by lia.
Qed.

(** What the loop has achieved when it stops, started at a block [b] with [r] after it. *)
Record loop_post (cur : Z) (b : KMemoryBlock) (r : list KMemoryBlock) (e : Z)
    (t' : list KMemoryBlock) : Prop := {
  lp_chain : chain (m_address b) t' e;
  lp_ok : Forall block_ok t';
  lp_props : forall a, page_props t' a = new_props cur a (page_props (b :: r) a);
  lp_sep : separated (fun a => fin < a) (b :: r) -> separated (fun a => fin < a) t';
  lp_head : m_address b < cur ->
    forall x y, head t' = Some y -> CanMergeWith x y = CanMergeWith x b;
  lp_cut : m_address b < cur -> sk (props b) = false ->
    exists u v, t' = u :: v /\ chain cur v e;
  lp_keep : sk (props b) = true -> head t' = Some b
}.

(** The pieces a block was cut into. *)
Record pieces_post (cur : Z) (b : KMemoryBlock) (ps : list KMemoryBlock) : Prop := {
  pp_chain : chain (m_address b) ps (block_end b);
  pp_ok : Forall block_ok ps;
  pp_props : forall a, page_props ps a = new_props cur a (page_props [b] a);
  pp_sep : separated (fun a => fin < a) ps;
  pp_last : fin < block_end b ->
    forall x y, list.last ps = Some x -> CanMergeWith x y = CanMergeWith b y;
  pp_head : m_address b < cur ->
    forall x y, head ps = Some y -> CanMergeWith x y = CanMergeWith x b;
  pp_cut : m_address b < cur -> sk (props b) = false ->
    exists u v, ps = u :: v /\ chain cur v (block_end b);
  pp_keep : sk (props b) = true -> head ps = Some b
}.

(** What the rest of the loop did to the blocks after the current one. *)
Record tail_post (cur bend : Z) (r t'' : list KMemoryBlock) (e : Z) : Prop := {
  tp_chain : chain bend t'' e;
  tp_ok : Forall block_ok t'';
  tp_props : forall a, bend <= a -> page_props t'' a = new_props cur a (page_props r a);
  tp_sep : separated (fun a => fin < a) r -> separated (fun a => fin < a) t'';
  tp_far : fin < bend -> t'' = r
}.

Lemma post_glue cur b r e ps t'' :
  geom b -> chain (block_end b) r e ->
  pieces_post cur b ps -> tail_post cur (block_end b) r t'' e ->
  loop_post cur b r e (ps ++ t'').
Proof.
  intros Hg Hr [Pc Po Pp Ps Pl Ph Pcut Pk] [Tc To Tp Ts Tf]. pose proof (block_end_gt b Hg) as Hbe.
  assert (Hne : ps <> []) by (intros ->; simpl in Pc; lia).
  constructor.
  - apply chain_app. by exists (block_end b).
  - by apply Forall_app.
  - intros a. rewrite (page_props_app _ _ _ _ _ a Pc Tc).
    change (b :: r) with ([b] ++ r).
    rewrite (page_props_app (m_address b) [b] (block_end b) r e a) by (simpl; done).
    destruct (Z.ltb_spec a (block_end b)); [apply Pp|by apply Tp].
  - intros Hsep. apply (separated_app _ [b] r) in Hsep as (_ & Hsr & Hj).
    apply separated_app_2; [done|by apply Ts|]. intros x y Hx Hy Hlt.
    assert (m_address y = block_end b).
    { destruct t''; [done|]. injection Hy as ->. by destruct Tc as (_ & <- & _). }
    assert (fin < block_end b) by lia. rewrite (Pl ltac:(done) x y Hx).
    rewrite (Tf ltac:(done)) in Hy. by apply (Hj b y).
  - intros Hlt x y Hy. apply (Ph Hlt). by destruct ps.
  - intros Hlt Hsk. destruct (Pcut Hlt Hsk) as (u & v & -> & Hv). exists u, (v ++ t'').
    split; [done|]. apply chain_app. by exists (block_end b).
  - intros Hsk. specialize (Pk Hsk). by destruct ps.
Qed.

Lemma tail_stop cur bend r e :
  chain bend r e -> Forall block_ok r -> fin <= bend -> tail_post cur bend r r e.
Proof.
  intros Hc Ho Hf. constructor; try done. intros a Ha. by rewrite new_props_outside by lia.
Qed.

Lemma tail_step cur bend c r e t'' :
  m_address c = bend -> cur <= bend <= fin -> loop_post bend c r e t'' ->
  tail_post cur bend (c :: r) t'' e.
Proof.
  intros Hc Hb [Pc Po Pp Ps _ _ _]. constructor; try done.
  - by rewrite <- Hc.
  - intros a Ha. rewrite Pp. symmetry. apply new_props_lo. lia.
  - lia.
Qed.

Lemma pieces_skip cur b :
  geom b -> block_ok b -> sk (props b) = true -> pieces_post cur b [b].
Proof.
  intros Hg Ho Hs. constructor; try done.
  - by constructor.
  - intros a. unfold new_props. simpl. destruct (covers b a); simpl; [rewrite Hs|];
      by destruct (_ && _).
  - by intros _ x y [= <-].
  - by intros _ x y [= <-].
  - intros _. by rewrite Hs.
Qed.

Lemma pieces_cut cur b b' :
  let mid := inside_part (from_part b cur) fin in
  geom b -> block_ok b -> m_address b <= cur < block_end b -> cur < fin -> (PageSize | cur) ->
  sk (props b) = false -> same_place mid b' -> props b' = g (props b) -> block_ok b' ->
  pieces_post cur b (before_part b cur ++ b' :: after_part (from_part b cur) fin).
Proof.
  intros mid Hg Ho Hc Hf Hd Hs (Ha' & Hn') Hp' Ho'.
  destruct (from_part_geom b cur Hg Hc Hd) as (Fg & Fa & Fe & Fp).
  destruct (inside_part_geom (from_part b cur) fin Fg) as (Mg & Ma & Me & Mp); [lia|done|].
  fold mid in Mg, Ma, Me, Mp.
  assert (Hb'a : m_address b' = cur) by (unfold same_place in *; lia).
  assert (Hb'e : block_end b' = Z.min fin (block_end b)) by (unfold block_end in *; rewrite Ha', Hn'; lia).
  assert (Hb'g : geom b') by (unfold geom in *; by rewrite Ha', Hn').
  pose proof (before_part_chain b cur Hg Hc Hd) as Cb.
  pose proof (after_part_chain (from_part b cur) fin Fg) as Ca. rewrite Fa, Fe in Ca.
  specialize (Ca Hf fin_page).
  assert (Cm : chain cur (b' :: after_part (from_part b cur) fin) (block_end b))
    by (simpl; split_and!; [done|done|by rewrite Hb'e]).
  constructor.
  - apply chain_app. by exists cur.
  - apply Forall_app. split.
    + unfold before_part. destruct (_ =? _); [done|].
      by apply Forall_singleton, split_left_ok.
    + constructor; [done|]. unfold after_part, from_part.
      destruct (_ <? _); [|done]. apply Forall_singleton.
      destruct (_ =? _); auto using split_right_ok.
  - intros a. rewrite (page_props_app _ _ _ _ _ a Cb Cm).
    destruct (Z.ltb_spec a cur).
    + rewrite new_props_outside by lia. unfold before_part.
      destruct (Z.eqb_spec (m_address b) cur) as [He|He]; simpl.
      * destruct (covers b a) eqn:E; [apply covers_spec in E; lia|done].
      * pose proof (split_right_geom b cur Hg ltac:(lia) Hd) as (_ & _ & El).
        unfold covers; simpl. rewrite El.
        destruct (Z.leb_spec (m_address b) a), (Z.ltb_spec a cur), (Z.ltb_spec a (block_end b));
          (done || lia).
    + simpl. unfold covers. rewrite Hb'a, Hb'e.
      destruct (Z.ltb_spec a (Z.min fin (block_end b))).
      * rewrite (proj2 (Z.leb_le cur a)), (proj2 (Z.leb_le (m_address b) a)),
          (proj2 (Z.ltb_lt a (block_end b))) by lia. simpl.
        rewrite new_props_inside by lia. simpl. by rewrite Hs, Hp'.
      * rewrite andb_false_r. unfold after_part. rewrite Fe.
        destruct (Z.ltb_spec fin (block_end b)); simpl.
        -- rewrite new_props_outside by lia.
           pose proof (split_right_geom (from_part b cur) fin Fg) as Hsr.
           rewrite Fa, Fe in Hsr. destruct Hsr as (_ & Er & _); [lia|done|].
           unfold covers; simpl. rewrite Er.
           destruct (Z.leb_spec fin a), (Z.ltb_spec a (block_end b)), (Z.leb_spec (m_address b) a);
             try lia; simpl; [by rewrite <- Fp|done].
        -- rewrite (proj2 (Z.ltb_ge a (block_end b))) by lia. by rewrite andb_false_r;
             unfold new_props; destruct (_ && _).
  - apply separated_app_2.
    + unfold before_part. by destruct (_ =? _).
    + unfold after_part. destruct (_ <? _); simpl; [|done]. split; [lia|done].
    + intros x y _ [= <-]. lia.
  - intros Hlt x y. unfold after_part. rewrite Fe, (proj2 (Z.ltb_lt fin _)) by lia.
    rewrite last_app. simpl. intros [= <-]. rewrite merge_split_right. unfold from_part.
    destruct (_ =? _); [done|apply merge_split_right].
  - intros Hlt x y. unfold before_part. rewrite (proj2 (Z.eqb_neq (m_address b) cur)) by lia.
    simpl. intros [= <-]. apply merge_split_left.
  - intros Hlt _. unfold before_part. rewrite (proj2 (Z.eqb_neq (m_address b) cur)) by lia.
    eexists _, _. split; [done|]. done.
  - by rewrite Hs.
Qed.

Lemma update_loop_zero fuel t it cur (al : UpdateAllocator S) :
  update_loop (Datatypes.S fuel) skip upd t it cur 0 al = Done true (t, al).
Proof. done. Qed.

(** The blocks an update may need to allocate: one for each end of the range that lies inside a
    block. *)
Definition needed (b : KMemoryBlock) (r : list KMemoryBlock) (cur : Z) : Z :=
  (if m_address b =? cur then 0 else 1) + (if border (b :: r) fin then 0 else 1).

Lemma border_far bend r e : chain bend r e -> fin < bend -> border r fin = false.
Proof.
  revert bend. induction r as [|c r IH]; intros bend; simpl; [done|].
  intros (Hg & Hc & Hr) Hf. pose proof (block_end_gt c Hg). rewrite (IH _ Hr) by lia.
  rewrite (proj2 (Z.eqb_neq (m_address c) fin)), (proj2 (Z.eqb_neq (block_end c) fin)) by lia.
  done.
Qed.

(** The state of the loop between two iterations, at block [b]. *)
Record loop_pre (b : KMemoryBlock) (r : list KMemoryBlock) (e cur rem : Z)
    (al : UpdateAllocator S) : Prop := {
  li_chain : chain (m_address b) (b :: r) e;
  li_cur : m_address b <= cur < block_end b;
  li_page : (PageSize | cur);
  li_rem : 0 < rem /\ cur + rem * PageSize = fin;
  li_fin : address <= cur /\ fin <= e;
  li_ok : Forall block_ok (b :: r);
  li_pre : Forall (fun x => m_address x < fin -> Pre x) (b :: r);
  li_alloc : alloc_ok al /\ m_index al + needed b r cur <= 2
}.

(** After block [b] the loop is at the next block, unless it is done. *)
Lemma loop_pre_next b c r e cur rem al rem' al' :
  loop_pre b (c :: r) e cur rem al -> block_end b < fin ->
  block_end b + rem' * PageSize = fin ->
  alloc_ok al' -> m_index al' <= m_index al + (if m_address b =? cur then 0 else 1) ->
  loop_pre c r e (block_end b) rem' al'.
Proof.
  intros [(Hg & _ & Hc) Hcur Hd [Hr He] [Ha Hf] Ho Hp [Hal Hn]] Hlt Hrem Hal' Hi.
  destruct Hc as (Hgc & Hcb & Hc). pose proof (block_end_gt c Hgc).
  apply Forall_cons_1 in Ho as [_ Ho]. apply Forall_cons_1 in Hp as [_ Hp].
  constructor; [by split_and!|lia| |split; [unfold PageSize in *; lia|done]|lia|done|done|].
  - rewrite <- Hcb. apply Hgc.
  - split; [done|]. unfold needed in *. rewrite (proj2 (Z.eqb_eq (m_address c) _) Hcb).
    assert (Hbc : border (b :: c :: r) fin = border (c :: r) fin).
    { simpl. pose proof (block_end_gt b Hg).
      by rewrite (proj2 (Z.eqb_neq (m_address b) fin)), (proj2 (Z.eqb_neq (block_end b) fin)) by lia. }
    rewrite Hbc in Hn. lia.
Qed.

Lemma chain_cons_or_end b r e :
  chain (m_address b) (b :: r) e -> block_end b < e -> exists c r', r = c :: r' /\ m_address c = block_end b.
Proof.
  intros (_ & _ & Hc) Hlt. destruct r as [|c r']; simpl in Hc; [lia|].
  destruct Hc as (_ & Hc & _). eauto.
Qed.

Lemma loop_pre_bounds b r e cur rem al :
  loop_pre b r e cur rem al -> 0 <= cur /\ 0 <= m_address b /\ e < 2 ^ 64 /\ block_end b <= e.
Proof.
  intros [Hc Hcur _ _ _ _ _ _]. destruct (chain_end_bound _ _ _ Hc) as [? ?]; [done|].
  destruct Hc as (_ & _ & Hc). pose proof (chain_le _ _ _ Hc). lia.
Qed.

(** One iteration that changes the block. *)
Lemma iteration_cut d s b r e cur rem al :
  chain s (d ++ b :: r) e -> loop_pre b r e cur rem al -> sk (props b) = false ->
  exists b' al',
    let mid := inside_part (from_part b cur) fin in
    let t1 := d ++ before_part b cur in
    let rest := after_part (from_part b cur) fin in
    same_place mid b' /\ props b' = g (props b) /\ block_ok b' /\ alloc_ok al' /\
    (block_end b < fin -> m_index al' = m_index al + (if m_address b =? cur then 0 else 1)) /\
    forall fuel, update_loop (Datatypes.S fuel) skip upd (d ++ b :: r) (length d) cur rem al =
      update_loop fuel skip upd (t1 ++ b' :: rest ++ r) (Datatypes.S (length t1))
        (Z.min fin (block_end b)) ((fin - Z.min fin (block_end b)) / PageSize) al'.
Proof.
  intros Hch Hpre Hsk. destruct (loop_pre_bounds _ _ _ _ _ _ Hpre) as (B0 & B1 & B2 & B3).
  destruct Hpre as [Hcb Hcur Hd [Hr He] [Ha Hf] Ho Hp [Hal Hn]].
  pose proof Hcb as (Hg & _ & Hc).
  destruct (from_part_geom b cur Hg Hcur Hd) as (Fg & Fa & Fe & Fp).
  destruct (inside_part_geom (from_part b cur) fin Fg) as (Mg & Ma & Me & Mp);
    [unfold PageSize in *; lia|done|].
  set (mid := inside_part (from_part b cur) fin) in *.
  apply Forall_cons_1 in Ho as [Hob _]. apply Forall_cons_1 in Hp as [Hpb _].
  destruct (upd_ok mid) as (b' & Hupd & Hsame & Hprops & Hok'); [done| | |lia|lia| |].
  { unfold mid, inside_part, from_part. destruct (_ <? _), (_ =? _);
      auto using split_left_ok, split_right_ok. }
  { assert (Pre b) by (apply Hpb; unfold PageSize in *; lia).
    unfold mid, inside_part, from_part. destruct (_ <? _), (_ =? _); auto. }
  { by rewrite Mp, Fp. }
  destruct (split_before_ok s d b r e cur al Hch Hcur Hd Hal) as (al1 & E1 & Hal1 & Hi1).
  { unfold needed in Hn. destruct (border (b :: r) fin); lia. }
  assert (Hch1 : chain s ((d ++ before_part b cur) ++ from_part b cur :: r) e).
  { apply chain_app in Hch as (c & Hc1 & _ & <- & _). apply chain_app. exists cur. split.
    - apply chain_app. exists (m_address b). split; [done|by apply before_part_chain].
    - simpl. by rewrite Fe. }
  destruct (split_after_ok s (d ++ before_part b cur) (from_part b cur) r e fin al1 Hch1)
    as (al2 & E2 & Hal2 & Hi2); [unfold PageSize in *; lia|done|done|done| |].
  { rewrite Hi1, Fe. destruct (Z.ltb_spec fin (block_end b)) as [Hlt|]; [|unfold needed in Hn;
      destruct (border (b :: r) fin); lia].
    unfold needed in Hn. simpl in Hn. rewrite (border_far _ _ _ Hc Hlt) in Hn.
    rewrite (proj2 (Z.eqb_neq (m_address b) fin)), (proj2 (Z.eqb_neq (block_end b) fin)) in Hn
      by (unfold PageSize in *; lia). simpl in Hn. lia. }
  exists b', al2. cbv zeta. split_and!; [done|by rewrite Hprops, Mp, Fp|done|done| |].
  - intros Hlt. rewrite Hi2, Fe, (proj2 (Z.ltb_ge fin (block_end b))) by lia. lia.
  - intros fuel. cbn [update_loop]. rewrite (proj2 (Z.ltb_lt 0 rem)) by lia.
    rewrite deref_app. ostep. rewrite skip_props, Hsk, E1. ostepi.
    rewrite app_assoc. rewrite Fa in E2. replace (fin - cur) with (u64 (rem * PageSize)) in E2
      by (rewrite u64_small by (unfold PageSize in *; lia); lia).
    rewrite E2. ostepi. rewrite deref_app. ostep. fold mid. rewrite Hupd. ostep.
    rewrite insert_app_middle, Info_size, Info_pages by done.
    assert (Hmp : m_num_pages mid * PageSize = Z.min fin (block_end b) - cur)
      by (rewrite Fe in Me; rewrite Fa in Ma; unfold block_end in *; lia).
    destruct Mg as (_ & _ & Mn & _).
    f_equal.
    + rewrite u64_small by (unfold PageSize in *; lia). lia.
    + rewrite u64_small by (unfold PageSize in *; lia).
      replace (fin - Z.min fin (block_end b)) with ((rem - m_num_pages mid) * PageSize) by lia.
      by rewrite Z.div_mul.
Qed.
(** One iteration that leaves the block alone. *)
Lemma iteration_skip d s b r e cur rem al fuel :
  chain s (d ++ b :: r) e -> loop_pre b r e cur rem al -> sk (props b) = true ->
  exists next, (block_end b <= fin -> next = block_end b) /\
    update_loop (Datatypes.S fuel) skip upd (d ++ b :: r) (length d) cur rem al =
    update_loop fuel skip upd (d ++ b :: r) (Datatypes.S (length d)) next
      ((fin - Z.min fin (block_end b)) / PageSize) al.
Proof.
  intros Hch Hpre Hsk. destruct (loop_pre_bounds _ _ _ _ _ _ Hpre) as (B0 & B1 & B2 & B3).
  destruct Hpre as [Hcb Hcur Hd [Hr He] [Ha Hf] _ _ _]. pose proof Hcb as (Hg & _ & _).
  cbn [update_loop]. rewrite (proj2 (Z.ltb_lt 0 rem)) by lia.
  rewrite deref_app. ostep. rewrite skip_props, Hsk, Info_end by done.
  rewrite (u64_small (rem * PageSize)) by (unfold PageSize in *; lia). rewrite He.
  rewrite (u64_small fin) by (unfold PageSize in *; lia).
  destruct (Z.ltb_spec fin (block_end b)).
  - exists fin. split; [lia|]. by rewrite Z.min_l, Z.sub_diag by lia.
  - exists (block_end b). split; [done|]. rewrite (u64_small (fin - _)) by lia.
    by rewrite Z.min_r by lia.
Qed.

Lemma page_aligned_end b : geom b -> (PageSize | block_end b).
Proof. intros (_ & H & _). apply Z.divide_add_r; [done|apply Z.divide_factor_r]. Qed.

Lemma remaining_after b :
  geom b -> block_end b < fin ->
  block_end b + (fin - Z.min fin (block_end b)) / PageSize * PageSize = fin.
Proof.
  intros Hg Hlt. rewrite Z.min_r by lia.
  pose proof (page_multiple _ (Z.divide_sub_r _ _ _ fin_page (page_aligned_end b Hg))). lia.
Qed.

(** The loop terminates with enough fuel, fails no assertion and has the effect described. *)
Lemma update_loop_ok fuel d s b r e cur rem al :
  chain s (d ++ b :: r) e -> loop_pre b r e cur rem al -> (length (b :: r) < fuel)%nat ->
  exists t' al', update_loop fuel skip upd (d ++ b :: r) (length d) cur rem al =
      Done true (d ++ t', al') /\ alloc_ok al' /\ loop_post cur b r e t'.
Proof.
  revert d b r cur rem al. induction fuel as [|fuel IH]; [simpl; lia|].
  intros d b r cur rem al Hch Hpre Hfuel. destruct fuel as [|fuel]; [simpl in Hfuel; lia|].
  pose proof Hpre as [Hcb Hcur Hd [Hr He] [Ha Hf] Ho Hp [Hal Hn]].
  pose proof Hcb as (Hg & _ & Hc). apply Forall_cons_1 in Ho as [Hob Hor].
  destruct (sk (props b)) eqn:Hsk.
  - destruct (iteration_skip d s b r e cur rem al (Datatypes.S fuel) Hch Hpre Hsk)
      as (next & Hnext & ->).
    pose proof (pieces_skip cur b Hg Hob Hsk) as Hpp.
    destruct (Z_lt_le_dec (block_end b) fin) as [Hlt|Hge].
    + rewrite Hnext by lia. destruct (chain_cons_or_end b r e Hcb) as (c & r' & -> & Hcc); [lia|].
      rewrite cons_middle, app_assoc in *.
      replace (Datatypes.S (length d)) with (length (d ++ [b])) by (rewrite length_app; simpl; lia).
      destruct (IH (d ++ [b]) c r' (block_end b) ((fin - Z.min fin (block_end b)) / PageSize) al)
        as (t'' & al' & -> & Hal' & Hpost); [done| |simpl in *; lia|].
      { apply (loop_pre_next b c r' e cur rem al); [done|done|by apply remaining_after|done|].
        destruct (m_address b =? cur); lia. }
      exists (b :: t''), al'. rewrite <- app_assoc. split_and!; [done|done|].
      apply (post_glue cur b (c :: r') e [b] t''); [done|done|done|].
      apply tail_step; [done|lia|done].
    + rewrite Z.min_l, Z.sub_diag by lia. rewrite Z.div_0_l, update_loop_zero by done.
      exists (b :: r), al. split_and!; [done|done|].
      apply (post_glue cur b r e [b] r); [done|done|done|]. by apply tail_stop.
  - destruct (iteration_cut d s b r e cur rem al Hch Hpre Hsk)
      as (b' & al1 & Hsame & Hprops & Hob' & Hal1 & Hi1 & Eq). cbv zeta in Eq. rewrite Eq. clear Eq.
    assert (Hpp := pieces_cut cur b b' Hg Hob Hcur ltac:(unfold PageSize in *; lia) Hd Hsk Hsame
      Hprops Hob').
    destruct (Z_lt_le_dec (block_end b) fin) as [Hlt|Hge].
    + destruct (chain_cons_or_end b r e Hcb) as (c & r' & -> & Hcc); [lia|].
      set (ps := before_part b cur ++ b' :: after_part (from_part b cur) fin) in *.
      assert (Hap : after_part (from_part b cur) fin = []).
      { destruct (from_part_geom b cur Hg Hcur Hd) as (_ & _ & Fe & _). unfold after_part.
        by rewrite Fe, (proj2 (Z.ltb_ge fin (block_end b))) by lia. }
      replace ((d ++ before_part b cur) ++ b' :: after_part (from_part b cur) fin ++ c :: r')
        with ((d ++ ps) ++ c :: r') by (unfold ps; by rewrite Hap, <- !app_assoc).
      replace (Datatypes.S (length (d ++ before_part b cur))) with (length (d ++ ps))
        by (unfold ps; rewrite Hap, !length_app; simpl; lia).
      destruct (IH (d ++ ps) c r' (block_end b) ((fin - Z.min fin (block_end b)) / PageSize) al1)
        as (t'' & al' & E & Hal' & Hpost); [| |simpl in *; lia|].
      { apply chain_app in Hch as (x & Hc1 & _ & <- & _). rewrite <- app_assoc. apply chain_app.
        exists (m_address b). split; [done|]. apply chain_app. exists (block_end b).
        split; [apply Hpp|done]. }
      { apply (loop_pre_next b c r' e cur rem al); [done|done|by apply remaining_after|done|].
        by rewrite Hi1. }
      rewrite Z.min_r by lia. rewrite Z.min_r in E by lia. rewrite E.
      exists (ps ++ t''), al'. rewrite <- app_assoc. split_and!; [done|done|].
      apply post_glue; [done|done|done|]. apply tail_step; [done|lia|done].
    + rewrite Z.min_l, Z.sub_diag by lia. rewrite Z.div_0_l, update_loop_zero by done.
      eexists (_ ++ r), al1. split_and!; [|done|].
      2: { apply post_glue; [done|done|exact Hpp|]. by apply tail_stop. }
      by rewrite <- !app_assoc.
Qed.
End UpdateLoop.

(** ** Coalescing *)

Lemma page_props_replace s d x c y e ps qs a :
  chain s d x -> chain x ps c -> chain x qs c -> chain c y e ->
  page_props ps a = page_props qs a ->
  page_props (d ++ ps ++ y) a = page_props (d ++ qs ++ y) a.
Proof.
  intros Hd Hp Hq Hy He.
  assert (Hpy : chain x (ps ++ y) e) by (apply chain_app; by exists c).
  assert (Hqy : chain x (qs ++ y) e) by (apply chain_app; by exists c).
  rewrite (page_props_app _ _ _ _ _ a Hd Hpy), (page_props_app _ _ _ _ _ a Hd Hqy).
  by rewrite (page_props_app _ _ _ _ _ a Hp Hy), (page_props_app _ _ _ _ _ a Hq Hy), He.
Qed.

Lemma add_result_props b c a :
  geom b -> geom c -> block_end b = m_address c -> props b = props c ->
  page_props [add_result b c] a = page_props [b; c] a.
Proof.
  intros Hb Hc Hadj Hp. destruct (add_result_geom b c Hb Hc Hadj) as [_ He].
  pose proof (block_end_gt b Hb). pose proof (block_end_gt c Hc).
  simpl. unfold covers. rewrite He, Hp. simpl.
  destruct (Z.leb_spec (m_address b) a), (Z.ltb_spec a (block_end c)),
    (Z.ltb_spec a (block_end b)), (Z.leb_spec (m_address c) a); simpl; try lia;
    try done; by rewrite <- Hp.
Qed.

Lemma separated_finish s d x r e limit :
  chain s (d ++ x :: r) e -> separated (fun _ => True) (d ++ [x]) ->
  separated (fun a => limit < a) (x :: r) -> limit < block_end x ->
  separated (fun _ => True) (d ++ x :: r).
Proof.
  intros Hc Hd Hs Hlt.
  assert (Hall : forall x r, chain (m_address x) (x :: r) e -> limit < block_end x ->
    separated (fun a => limit < a) (x :: r) -> separated (fun _ => True) (x :: r)).
  { clear. intros x r. revert x. induction r as [|c r IH]; intros x Hc Hlt Hs; [done|].
    destruct Hc as (Hg & _ & Hgc & Hca & Hc), Hs as [H1 H2]. pose proof (block_end_gt c Hgc).
    split; [intros _; apply H1; lia|]. apply IH; [by split_and!|lia|done]. }
  apply chain_app in Hc as (c & _ & Hg & Hx & Hc).
  apply separated_app in Hd as (Hd & _ & Hj).
  apply separated_app_2; [done|apply Hall; [by split_and!|done|done]|].
  intros u v Hu [= <-]. by apply (Hj u x).
Qed.

Record coalesced (s : Z) (t : list KMemoryBlock) (e : Z) (t' : list KMemoryBlock) : Prop := {
  co_chain : chain s t' e;
  co_ok : Forall block_ok t';
  co_props : forall a, page_props t' a = page_props t a;
  co_sep : separated (fun _ => True) t'
}.

(** Merging two neighbours in the middle of a chain. *)
Lemma merge_pair s d b c r e limit :
  chain s (d ++ b :: c :: r) e -> Forall block_ok (d ++ b :: c :: r) ->
  separated (fun _ => True) (d ++ [b]) -> separated (fun a => limit < a) (b :: c :: r) ->
  CanMergeWith b c = true ->
  Add b c = Done true (add_result b c) /\
  chain s (d ++ add_result b c :: r) e /\ Forall block_ok (d ++ add_result b c :: r) /\
  separated (fun _ => True) (d ++ [add_result b c]) /\
  separated (fun a => limit < a) (add_result b c :: r) /\
  (forall a, page_props (d ++ add_result b c :: r) a = page_props (d ++ b :: c :: r) a).
Proof.
  intros Hc Ho Hd Hs Hm. pose proof Hc as Hc'.
  apply chain_app in Hc' as (x & Hcd & Hgb & Hbx & Hgc & Hbc & Hcr).
  pose proof (Add_eq b c Hgb Hgc (eq_sym Hbc)) as HA.
  destruct (add_result_geom b c Hgb Hgc (eq_sym Hbc)) as [Hga Hae].
  pose proof (proj1 (CanMergeWith_spec b c) Hm) as (Hp & _ & _).
  apply Forall_app in Ho as [Hod Ho]. apply Forall_cons_1 in Ho as [Hob Ho].
  apply Forall_cons_1 in Ho as [Hoc Hor].
  split_and!.
  - done.
  - apply chain_app. exists x. split; [done|]. split_and!; [done|done|by rewrite Hae].
  - apply Forall_app. split; [done|]. constructor; [|done].
    by apply (step_add_ok b c).
  - apply separated_app in Hd as (Hd & _ & Hj). apply separated_app_2; [done|done|].
    intros u v Hu [= <-] _. rewrite merge_add_left by done. by apply (Hj u b).
  - destruct Hs as [_ Hs]. destruct r as [|z r]; [done|]. destruct Hs as [H1 H2].
    split; [|done]. intros Hz. rewrite merge_add_right by done. auto.
  - intros a. apply (page_props_replace s d x (block_end c) r e [add_result b c] [b; c] a);
      [done|by split_and!|by split_and!|done|].
    by apply add_result_props.
Qed.

Lemma Coalesce_loop_ok {S : Type} `{!BlockSlab S} fuel d b r s e limit (al : UpdateAllocator S) :
  chain s (d ++ b :: r) e -> Forall block_ok (d ++ b :: r) ->
  separated (fun _ => True) (d ++ [b]) -> separated (fun a => limit < a) (b :: r) ->
  alloc_ok al -> (length r < fuel)%nat ->
  exists t' al', Coalesce_loop fuel (d ++ b :: r) (length d) limit al = Done true (t', al') /\
    alloc_ok al' /\ coalesced s (d ++ b :: r) e t'.
Proof.
  revert d b r al. induction fuel as [|fuel IH]; [simpl; lia|].
  intros d b r al Hc Ho Hd Hs Hal Hfuel. cbn [Coalesce_loop]. rewrite deref_app. ostep.
  replace ((d ++ b :: r) !! Datatypes.S (length d)) with (head r)
    by (rewrite lookup_app_r by lia;
        replace (Datatypes.S (length d) - length d)%nat with 1%nat by lia; by destruct r).
  destruct r as [|c r]; [exists (d ++ [b]), al; done|]. cbn [head].
  destruct (CanMergeWith b c) eqn:Hm.
  - destruct (merge_pair s d b c r e limit Hc Ho Hd Hs Hm) as (HA & Hc' & Ho' & Hd' & Hs' & Hp').
    destruct (Free_ok al c Hal) as (al1 & HF & Hal1). rewrite HA. ostep. rewrite HF. do 3 ostepi.
    replace (tree_erase (d ++ b :: c :: r) (Datatypes.S (length d))) with (d ++ b :: r).
    2: { unfold tree_erase. symmetry. rewrite (cons_middle b), app_assoc.
         replace (Datatypes.S (length d)) with (length (d ++ [b])) by (rewrite length_app; simpl; lia).
         by rewrite delete_middle, <- app_assoc. }
    rewrite insert_app_middle, deref_app. ostep. rewrite Info_end.
    2: { apply chain_app in Hc' as (? & _ & Hg & _). done. }
    destruct (Z.ltb_spec limit (block_end (add_result b c))).
    + eexists _, al1. split_and!; [done|done|]. constructor; [done|done|done|].
      by apply (separated_finish s _ _ _ e limit).
    + destruct (IH d (add_result b c) r al1) as (t' & al' & -> & Hal' & [X1 X2 X3 X4]);
        [done|done|done|done|done|simpl in *; lia|].
      exists t', al'. split_and!; [done|done|]. constructor; [done|done| |done].
      intros a. by rewrite X3.
  - ostepi. rewrite cons_middle, app_assoc in *.
    replace (Datatypes.S (length d)) with (length (d ++ [b])) by (rewrite length_app; simpl; lia).
    rewrite deref_app. ostep. rewrite Info_end.
    2: { apply chain_app in Hc as (? & _ & Hg & _). done. }
    assert (Hd' : separated (fun _ => True) ((d ++ [b]) ++ [c])).
    { rewrite app_nil_r in Hd. apply separated_app_2; [done|done|].
      intros x y. rewrite last_snoc. by intros [= <-] [= <-]. }
    destruct Hs as [_ Hs]. destruct (Z.ltb_spec limit (block_end c)).
    + eexists _, al. split_and!; [done|done|]. constructor; [done|done|done|].
      by apply (separated_finish s _ _ _ e limit).
    + apply IH; (done || (simpl in *; lia)).
Qed.

(** ** The invariant of the manager *)

Record manager_ok (m : KMemoryBlockManager) : Prop := {
  mo_chain : chain (m_start_address m) (m_memory_block_tree m) (m_end_address m);
  mo_nonempty : m_memory_block_tree m <> [];
  mo_ok : Forall block_ok (m_memory_block_tree m);
  mo_sep : separated (fun _ => True) (m_memory_block_tree m)
}.

Lemma check_counts_ok b : block_ok b -> check_counts (GetMemoryInfo b) = true.
Proof.
  intros Hok. unfold check_counts; simpl. unfold MemoryAttribute.None_.
  change MemoryAttribute.IpcLocked with (1 .<< 1). change MemoryAttribute.DeviceShared with (1 .<< 2).
  rewrite !flag_test_none by lia. rewrite (ok_locked b Hok), (ok_shared b Hok).
  by destruct (_ =? 0), (_ =? 0).
Qed.

Lemma CheckState_loop_ok prev t s e :
  chain s (prev :: t) e -> Forall block_ok (prev :: t) -> separated (fun _ => True) (prev :: t) ->
  CheckState_loop prev t = true.
Proof.
  revert prev s. induction t as [|b t IH]; intros prev s Hc Ho Hs; simpl.
  - apply check_counts_ok. by apply Forall_cons_1 in Ho as [? _].
  - destruct Hs as [H1 H2]. rewrite (H1 I). destruct Hc as (Hg & Hp & Hc).
    apply Forall_cons_1 in Ho as [_ Ho]. rewrite Info_end by done.
    destruct Hc as (Hgb & Hb & Hc). change (GetAddress b) with (m_address b).
    rewrite (proj2 (Z.eqb_eq (block_end prev) (m_address b))) by lia. simpl.
    rewrite check_counts_ok by (by apply Forall_cons_1 in Ho as [? _]). simpl.
    apply (IH b (block_end prev)); [by split_and!|done|done].
Qed.

Lemma CheckState_ok m : manager_ok m -> CheckState m = Done true true.
Proof.
  intros [Hc Hne Ho Hs]. unfold CheckState. destruct (m_memory_block_tree m) as [|b t]; [done|].
  by rewrite (CheckState_loop_ok b t (m_start_address m) (m_end_address m)).
Qed.

Section RunUpdate.

Context {S : Type} `{!BlockSlab S}.
Variables (skip : KMemoryBlock -> bool) (upd : KMemoryBlock -> outcome KMemoryBlock).
Variables (sk : PageProps -> bool) (g : PageProps -> PageProps).
Variable Pre : KMemoryBlock -> Prop.
Variables (address fin : Z).
Hypothesis skip_props : forall b, skip b = sk (props b).
Hypothesis upd_ok : forall b,
  geom b -> block_ok b -> Pre b -> address <= m_address b -> block_end b <= fin ->
  sk (props b) = false ->
  exists b', upd b = Done true b' /\ same_place b b' /\ props b' = g (props b) /\ block_ok b'.
Hypothesis Pre_left : forall b a, Pre b -> Pre (split_left b a).
Hypothesis Pre_right : forall b a, Pre b -> Pre (split_right b a).

(** The range of an update, the blocks it may change and the blocks it may need.  An update that
    leaves the first block of the address space alone must not start strictly inside it: the
    search for a block to merge with would step in front of the first block. *)
Record update_pre (m : KMemoryBlockManager) (al : UpdateAllocator S) (num_pages : Z) : Prop := {
  up_page : (PageSize | address);
  up_range : 0 < num_pages /\ m_start_address m <= address /\ fin <= m_end_address m;
  up_fin : address + num_pages * PageSize = fin;
  up_pre : Forall (fun b => address < block_end b -> m_address b < fin -> Pre b)
             (m_memory_block_tree m);
  up_alloc : alloc_ok al /\
    m_index al + (if border (m_memory_block_tree m) address then 0 else 1) +
      (if border (m_memory_block_tree m) fin then 0 else 1) <= 2;
  up_first : forall b, head (m_memory_block_tree m) = Some b ->
    address = m_start_address m \/ block_end b <= address \/ sk (props b) = false
}.

(** The block where coalescing starts. *)
Lemma coalesce_start m d b r t' :
  m_memory_block_tree m = d ++ b :: r -> manager_ok m ->
  m_address b <= address < block_end b -> address < fin <= m_end_address m ->
  (d = [] -> address = m_start_address m \/ sk (props b) = false) ->
  loop_post sk g fin address b r (m_end_address m) t' ->
  exists x p y, d ++ t' = x ++ p :: y /\
    (if negb (address =? m_start_address m)
     then (if (FindIterator (d ++ t') address =? 0)%nat then Undef
           else mret (FindIterator (d ++ t') address - 1)%nat)
     else mret (FindIterator (d ++ t') address)) = mret (M := outcome) (length x) /\
    separated (fun _ => True) (x ++ [p]) /\ separated (fun a => fin < a) (p :: y).
Proof.
  intros Ht [Hc _ Ho Hs] Ha Hf Hfirst [Pc Po Pp Ps Ph Pcut Pk]. rewrite Ht in *.
  apply chain_app in Hc as (c & Hcd & Hgb & <- & Hcr).
  apply separated_app in Hs as (Hsd & Hsr & Hj).
  assert (HT : chain (m_start_address m) (d ++ t') (m_end_address m))
    by (apply chain_app; by exists (m_address b)).
  assert (Hsep : separated (fun a => fin < a) t').
  { apply Ps. by apply (separated_weaken (fun _ => True)). }
  destruct t' as [|y v]; [simpl in Pc; pose proof (chain_le _ _ _ Hcr); lia|].
  pose proof Pc as (Hgy & Hya & Hcv). pose proof (block_end_gt y Hgy) as Hye.
  destruct (Z.eqb_spec address (m_start_address m)) as [Heq|Hneq]; cbv [negb].
  - (* at the start of the address space *)
    destruct d as [|z d].
    + exists [], y, v. split_and!; [done| |done|done].
      rewrite (FindIterator_chain (m_start_address m) [] y v (m_end_address m)); [done|done|].
      simpl in Hcd. lia.
    + destruct Hcd as (Hgz & Hz & Hcd). pose proof (chain_le _ _ _ Hcd).
      pose proof (block_end_gt z Hgz). lia.
  - destruct (Z_lt_le_dec (m_address b) address) as [Hlt|Hge];
      [destruct (sk (props b)) eqn:Hsk|].
    + (* strictly inside a block left alone *)
      specialize (Pk eq_refl). injection Pk as ->.
      destruct d as [|z d _] using rev_ind; [destruct (Hfirst eq_refl); congruence|].
      exists d, z, (b :: v). rewrite (FindIterator_chain (m_start_address m) _ b v (m_end_address m))
        by (done || lia).
      rewrite length_app, Nat.add_1_r. cbn [Nat.eqb]. rewrite Nat.sub_1_r. cbn [Nat.pred].
      split_and!; [by rewrite <- app_assoc|done|done|split; [lia|done]].
    + (* strictly inside a block that was split *)
      destruct (Pcut Hlt eq_refl) as (u & v' & [= <- <-] & Hv).
      destruct v as [|w v]; [simpl in Hv; lia|].
      exists d, y, (w :: v). rewrite cons_middle, app_assoc in *.
      destruct Hv as (Hgw & Hwa & _). pose proof (block_end_gt w Hgw).
      rewrite (FindIterator_chain (m_start_address m) _ w v (m_end_address m)) by (done || lia).
      rewrite length_app, Nat.add_1_r. cbn [Nat.eqb]. rewrite Nat.sub_1_r. cbn [Nat.pred].
      split_and!; [by rewrite <- app_assoc|done| |apply Hsep].
      apply separated_app_2; [done|done|].
      intros p q Hp [= <-] _. rewrite (Ph Hlt p y) by done. by apply (Hj p b).
    + (* at the start of a block *)
      destruct d as [|z d _] using rev_ind; [simpl in Hcd; lia|].
      exists d, z, (y :: v). rewrite (FindIterator_chain (m_start_address m) _ y v (m_end_address m))
        by (done || lia).
      rewrite length_app, Nat.add_1_r. cbn [Nat.eqb]. rewrite Nat.sub_1_r. cbn [Nat.pred].
      split_and!; [by rewrite <- app_assoc|done|done|split; [lia|done]].
Qed.

Lemma border_head b r a : m_address b = a -> border (b :: r) a = true.
Proof. intros <-. simpl. by rewrite Z.eqb_refl. Qed.

(** An address strictly inside a block is no border of a chain. *)
Lemma border_inside s d b r e a :
  chain s (d ++ b :: r) e -> m_address b < a < block_end b -> border (d ++ b :: r) a = false.
Proof.
  intros Hc Ha. apply not_true_iff_false. unfold border. rewrite existsb_exists.
  intros (x & Hx & Hxa). apply orb_true_iff in Hxa. rewrite !Z.eqb_eq in Hxa.
  apply chain_app in Hc as (c & Hcd & Hg & <- & Hcr). apply in_app_or in Hx as [Hx|[->|Hx]]; [|lia|].
  - apply list_elem_of_In, list_elem_of_split in Hx as (d1 & d2 & ->).
    apply chain_app in Hcd as (y & _ & Hgx & _ & Hc2). pose proof (chain_le _ _ _ Hc2).
    pose proof (block_end_gt x Hgx). lia.
  - apply list_elem_of_In, list_elem_of_split in Hx as (d1 & d2 & ->).
    apply chain_app in Hcr as (y & Hc1 & Hgx & <- & _). pose proof (chain_le _ _ _ Hc1).
    pose proof (block_end_gt x Hgx). lia.
Qed.

Lemma chain_ends_after s t e a : chain s t e -> a < s -> Forall (fun x => a < block_end x) t.
Proof.
  revert s. induction t as [|x t IH]; [constructor|]. intros s (Hg & <- & Hc) Ha.
  pose proof (block_end_gt x Hg). constructor; [lia|]. apply (IH _ Hc). lia.
Qed.

Lemma update_pre_loop m al num_pages d b r :
  manager_ok m -> update_pre m al num_pages -> m_memory_block_tree m = d ++ b :: r ->
  m_address b <= address < block_end b ->
  loop_pre Pre address fin b r (m_end_address m) address num_pages al.
Proof.
  intros [Hc _ Ho _] [Hd [Hn [Hs He]] Hf Hp [Hal Hi] _] Ht Ha. rewrite Ht in *.
  pose proof Hc as Hc'. apply chain_app in Hc' as (c & Hcd & Hgb & <- & Hcr).
  apply Forall_app in Ho as [_ Ho]. apply Forall_app in Hp as [_ Hp].
  constructor; [by split_and!|done|done|done|lia|done| |].
  - (* every block from here on ends after the start of the range *)
    assert (Hall : Forall (fun x => address < block_end x) (b :: r)).
    { constructor; [lia|]. apply (chain_ends_after _ _ _ _ Hcr). lia. }
    apply Forall_forall. intros x Hx. rewrite Forall_forall in Hp, Hall. auto.
  - split; [done|]. unfold needed.
    assert (Hb1 : (if m_address b =? address then 0 else 1) <=
      (if border (d ++ b :: r) address then 0 else 1)).
    { destruct (Z.eqb_spec (m_address b) address); [by destruct (border _ _)|].
      by rewrite (border_inside _ _ _ _ _ _ Hc) by lia. }
    assert (Hb2 : border (d ++ b :: r) fin = true -> border (b :: r) fin = true).
    { unfold border. rewrite existsb_app, orb_true_iff. intros [Hx|]; [|done].
      apply existsb_exists in Hx as (x & Hx & Hxa). apply orb_true_iff in Hxa.
      rewrite !Z.eqb_eq in Hxa. apply list_elem_of_In, list_elem_of_split in Hx as (d1 & d2 & ->).
      apply chain_app in Hcd as (y & _ & Hgx & _ & Hc2). pose proof (chain_le _ _ _ Hc2).
      pose proof (block_end_gt x Hgx). unfold PageSize in *. lia. }
    destruct (border (d ++ b :: r) fin); [rewrite Hb2 by done; lia|].
    destruct (border (b :: r) fin); lia.
Qed.

(** The whole update: it terminates, fails no assertion, keeps the invariant and changes exactly
    the pages of its range. *)
Lemma run_update_ok m al num_pages :
  manager_ok m -> update_pre m al num_pages ->
  exists m' al', run_update skip upd m al address num_pages = Done true (m', al') /\
    alloc_ok al' /\ manager_ok m' /\ m_start_address m' = m_start_address m /\
    m_end_address m' = m_end_address m /\
    forall a, page_props (m_memory_block_tree m') a =
              new_props sk g fin address a (page_props (m_memory_block_tree m) a).
Proof.
  intros Hm Hpre. pose proof Hm as [Hc Hne Ho Hs].
  pose proof Hpre as [Hd [Hn [Hst He]] Hf Hp Hal Hfirst].
  assert (Hfp : (PageSize | fin)) by (rewrite <- Hf; apply Z.divide_add_r; [done|apply Z.divide_factor_r]).
  assert (Hlt : address < fin) by (unfold PageSize in *; lia).
  destruct (chain_cover _ _ _ address Hc) as (d & b & r & Ht & Ha); [lia|].
  pose proof (update_pre_loop m al num_pages d b r Hm Hpre Ht Ha) as Hlp.
  destruct (update_loop_ok skip upd sk g Pre address fin skip_props upd_ok Pre_left Pre_right Hfp
    (Datatypes.S (length (m_memory_block_tree m))) d (m_start_address m) b r (m_end_address m)
    address num_pages al) as (t' & al1 & E1 & Hal1 & Hpost); [by rewrite <- Ht|done| |].
  { rewrite Ht, length_app. simpl. lia. }
  destruct (coalesce_start m d b r t' Ht Hm Ha ltac:(lia)) as (x & p & y & Exy & Eit & Hs1 & Hs2);
    [|done|].
  { intros ->. destruct (Hfirst b) as [?|[?|?]]; [by rewrite Ht|by left|lia|by right]. }
  pose proof Hpost as [Pc Po Pp _ _ _ _].
  assert (HT : chain (m_start_address m) (d ++ t') (m_end_address m)).
  { rewrite Ht in Hc. apply chain_app in Hc as (c & Hcd & _ & <- & _). apply chain_app.
    by exists (m_address b). }
  assert (HO : Forall block_ok (d ++ t')).
  { rewrite Ht in Ho. apply Forall_app in Ho as [? _]. by apply Forall_app. }
  rewrite Exy in HT, HO.
  destruct (Coalesce_loop_ok (Datatypes.S (length (x ++ p :: y))) x p y (m_start_address m)
    (m_end_address m) fin al1 HT HO Hs1 Hs2 Hal1) as (t2 & al2 & E2 & Hal2 & [X1 X2 X3 X4]).
  { rewrite length_app. simpl. lia. }
  destruct (chain_end_bound _ _ _ Hc Hne) as [B0 B1].
  exists (mkManager t2 (m_start_address m) (m_end_address m)), al2. split_and!; [|done| |done|done|].
  - unfold run_update. rewrite Ht at 2 3.
    rewrite (FindIterator_chain (m_start_address m) d b r (m_end_address m))
      by (done || by rewrite <- Ht).
    rewrite E1. ostepi. unfold CoalesceForUpdate. rewrite Eit. ostep.
    rewrite (u64_small (num_pages * _)) by (unfold PageSize in *; lia).
    rewrite Hf, (u64_small fin) by lia. rewrite Exy, E2. done.
  - constructor; simpl; [done| |done|done].
    intros ->. simpl in X1. lia.
  - intros a. simpl. rewrite X3, <- Exy.
    assert (Hcd : chain (m_start_address m) d (m_address b)).
    { rewrite Ht in Hc. by apply chain_app in Hc as (c & Hcd & _ & <- & _). }
    assert (Hcb : chain (m_address b) (b :: r) (m_end_address m)) by apply Hlp.
    rewrite (page_props_app _ _ _ _ _ a Hcd Pc). rewrite Ht, (page_props_app _ _ _ _ _ a Hcd Hcb).
    destruct (Z.ltb_spec a (m_address b)); [|apply Pp]. by rewrite new_props_outside by lia.
Qed.
End RunUpdate.

(** ** The effect of each update on the properties of a page *)

Definition props_has (state perm attr : Z) (p : PageProps) : bool :=
  (p_state p =? state) && (p_permission p =? perm) &&
  ((p_attribute p .| AttributeIgnoreMask) =? (attr .| AttributeIgnoreMask)).

Definition props_update (state perm attr : Z) (p : PageProps) : PageProps :=
  mkProps state perm (p_original p) (attr .| (p_attribute p .& AttributeIgnoreMask))
    (p_ipc_lock p) (p_device_use p).

Definition props_set_attribute (mask attr : Z) (p : PageProps) : PageProps :=
  mkProps (p_state p) (p_permission p) (p_original p) ((p_attribute p .& notu 8 mask) .| attr)
    (p_ipc_lock p) (p_device_use p).

Definition props_lock (perm : Z) (p : PageProps) : PageProps :=
  mkProps (p_state p)
    (if p_ipc_lock p =? 0
     then (perm .& MemoryPermission.IpcLockChangeMask) .|
          (p_permission p .& notu 8 MemoryPermission.IpcLockChangeMask)
     else p_permission p)
    (if p_ipc_lock p =? 0 then p_permission p else p_original p)
    (p_attribute p .| MemoryAttribute.IpcLocked) (p_ipc_lock p + 1) (p_device_use p).

(** The pages of a range changed by [f], the others as they were. *)
Definition on_range (lo hi : Z) (f : PageProps -> PageProps) (a : Z) (o : option PageProps) :
    option PageProps :=
  if (lo <=? a) && (a <? hi) then f <$> o else o.

Lemma new_props_on_range (sk : PageProps -> bool) (g f : PageProps -> PageProps) fin lo a o :
  (forall p, o = Some p -> (if sk p then p else g p) = f p) ->
  new_props sk g fin lo a o = on_range lo fin f a o.
Proof.
  intros H. unfold new_props, on_range. destruct (_ && _); [|done].
  destruct o; [|done]. simpl. by rewrite H.
Qed.

(** A page that has the properties already is not changed by setting them. *)
Lemma props_has_update state perm attr p :
  attr .& AttributeIgnoreMask = 0 -> props_has state perm attr p = true ->
  props_update state perm attr p = p.
Proof.
  intros Ha. unfold props_has. rewrite !andb_true_iff, !Z.eqb_eq. intros [[<- <-] H].
  destruct p as [st pm op at_ il du]; simpl in *. unfold props_update; simpl. f_equal.
  apply Z.bits_inj'. intros i Hi.
  apply (f_equal (fun x => Z.testbit x i)) in H. apply (f_equal (fun x => Z.testbit x i)) in Ha.
  rewrite Z.bits_0, Z.land_spec in Ha. rewrite !Z.lor_spec in H. rewrite Z.lor_spec, Z.land_spec.
  by destruct (Z.testbit at_ i), (Z.testbit attr i), (Z.testbit AttributeIgnoreMask i).
Qed.

Lemma props_attribute_same mask attr p :
  in_u 8 (p_attribute p) -> in_u 8 mask -> p_attribute p .& mask = attr ->
  props_set_attribute mask attr p = p.
Proof.
  destruct p as [st pm op at_ il du]; simpl. intros Hat Hm <-. unfold props_set_attribute; simpl.
  f_equal. apply Z.bits_inj'. intros i Hi. rewrite Z.lor_spec, !Z.land_spec, testbit_notu by lia.
  destruct (Z_lt_le_dec i 8).
  - rewrite (proj2 (Z.leb_le 0 i)), (proj2 (Z.ltb_lt i 8)) by lia.
    by destruct (Z.testbit at_ i), (Z.testbit mask i).
  - by rewrite (testbit_above 8 at_ i) by (done || lia).
Qed.

Lemma page_props_attr s t e a p :
  chain s t e -> Forall block_ok t -> page_props t a = Some p -> in_u 8 (p_attribute p).
Proof.
  revert s. induction t as [|b t IH]; intros s; simpl; [done|]. intros (_ & _ & Hc) Ho.
  apply Forall_cons_1 in Ho as [Hob Ho]. destruct (covers b a); [intros [= <-]; apply Hob|].
  by apply (IH _ Hc).
Qed.

Lemma IgnoreMask_eq : MemoryAttribute.IpcLocked .| MemoryAttribute.DeviceShared = AttributeIgnoreMask.
Proof. done. Qed.

(** The flag masks an update may change: none of the counted flags. *)
Definition merge_mask_ok (m : Z) : Prop := in_u 5 m /\ m .& 0x16 = 0.

(** [KMemoryBlock::Update] on a block that is not locked. *)
Lemma block_update_ok b state perm attr sd set_mask clear_mask :
  block_ok b -> m_ipc_lock_count b = 0 -> in_u 8 perm -> in_u 8 attr ->
  attr .& AttributeIgnoreMask = 0 -> merge_mask_ok set_mask -> merge_mask_ok clear_mask ->
  exists b', KMemoryBlock.Update b state perm attr sd set_mask clear_mask = Done true b' /\
    same_place b b' /\ props b' = props_update state perm attr (props b) /\ block_ok b'.
Proof.
  intros Hok Hl Hp Ha Hai [Hs1 Hs2] [Hc1 Hc2].
  assert (E : exists b', KMemoryBlock.Update b state perm attr sd set_mask clear_mask = Done true b' /\
    same_place b b' /\ props b' = props_update state perm attr (props b)).
  { unfold KMemoryBlock.Update. unfold MemoryPermission.None_, MemoryAttribute.None_.
    rewrite (proj2 (Z.eqb_eq (m_original_permission b) 0)) by (by apply (ok_original b Hok)).
    rewrite bind_assert_true by done. change (m_attribute b .& MemoryAttribute.IpcLocked) with (m_attribute b .& (1 .<< 1)).
    rewrite flag_test_none, (ok_locked b Hok), Hl by lia. rewrite bind_assert_true by done.
    eexists. split; [done|].
    destruct b; by destruct (sd && _), (negb (clear_mask =? 0)). }
  destruct E as (b' & E & Hsame & Hprops). exists b'. split_and!; [done..|].
  by apply (step_update_ok b state perm attr sd set_mask clear_mask).
Qed.

(** [KMemoryBlock::UpdateAttribute] with masks off the counted attributes. *)
Lemma block_update_attribute_ok b mask attr :
  block_ok b -> in_u 8 mask -> in_u 8 attr -> mask .& AttributeIgnoreMask = 0 ->
  attr .& AttributeIgnoreMask = 0 ->
  exists b', KMemoryBlock.UpdateAttribute b mask attr = Done true b' /\
    same_place b b' /\ props b' = props_set_attribute mask attr (props b) /\ block_ok b'.
Proof.
  intros Hok Hm Ha Hmi Hai.
  assert (E : KMemoryBlock.UpdateAttribute b mask attr =
    Done true (set_attribute ((m_attribute b .& notu 8 mask) .| attr) b)).
  { unfold KMemoryBlock.UpdateAttribute.
    change MemoryAttribute.IpcLocked with (1 .<< 1). change MemoryAttribute.DeviceShared with (1 .<< 2).
    rewrite !flag_test_none by lia.
    rewrite (bit_of_disjoint mask AttributeIgnoreMask 1), (bit_of_disjoint mask AttributeIgnoreMask 2)
      by (done || lia). done. }
  eexists. split; [exact E|]. split_and!; [by destruct b..|].
  by apply (step_update_attribute_ok b mask attr).
Qed.

(** A slab of [n] free objects, which constructs a block in each object it hands out. *)
#[export] Instance counted_slab : BlockSlab nat := {
  slab_Allocate n :=
    match n with O => (None, O) | Datatypes.S n' => (Some KMemoryBlock_default, n') end;
  slab_Free n _ := Datatypes.S n
}.

(** An address space and an allocator for the witnesses: sixteen pages from 0x8000000. *)
Definition example_manager : KMemoryBlockManager :=
  mkManager [KMemoryBlock_new 0x8000000 16 0 0 0] 0x8000000 0x8010000.
Definition example_allocator : UpdateAllocator nat :=
  mkAllocator [Some KMemoryBlock_default; Some KMemoryBlock_default] 0 0%nat.

Lemma example_manager_ok : manager_ok example_manager.
Proof.
  constructor; [|done| |done].
  - split_and!; [split_and!; [by vm_compute|by exists 0x8000|by vm_compute..]|done|done].
  - apply Forall_singleton. by constructor; vm_compute.
Qed.

Lemma example_allocator_ok : alloc_ok example_allocator.
Proof.
  split_and!; [done|done|done|]. intros [|[|i]] Hi; simpl in *; eauto. lia.
Qed.

Section Updates.

Context {S : Type} `{!BlockSlab S}.

(** The preconditions of each update, with what the blocks in its range must satisfy. *)
Definition update_conditions (state perm attr : Z) :=
  update_pre (S := S) (props_has state perm attr)
    (fun b => props_has state perm attr (props b) = false -> m_ipc_lock_count b = 0).

(** What [Update] does, for the clients of the manager. *)
Lemma Update_ok m (al : UpdateAllocator S) address num_pages state perm attr
    set_attr clear_attr :
  manager_ok m -> in_u 8 perm -> in_u 8 attr -> attr .& AttributeIgnoreMask = 0 ->
  merge_mask_ok set_attr -> merge_mask_ok clear_attr ->
  update_conditions state perm attr address (address + num_pages * PageSize) m al num_pages ->
  exists m' al',
    Update m al address num_pages state perm attr set_attr clear_attr = Done true (m', al') /\
    alloc_ok al' /\ manager_ok m' /\ CheckState m' = Done true true /\
    m_start_address m' = m_start_address m /\ m_end_address m' = m_end_address m /\
    forall a, page_props (m_memory_block_tree m') a =
      on_range address (address + num_pages * PageSize) (props_update state perm attr) a
        (page_props (m_memory_block_tree m) a).
Proof.
  intros Hm Hp Ha Hai Hs Hc Hpre.
  destruct (run_update_ok (fun b => HasProperties b state perm attr)
    (fun b => KMemoryBlock.Update b state perm attr (GetAddress b =? address) set_attr clear_attr)
    (props_has state perm attr) (props_update state perm attr)
    (fun b => props_has state perm attr (props b) = false -> m_ipc_lock_count b = 0)
    address (address + num_pages * PageSize)) with (m := m) (al := al) (num_pages := num_pages)
    as (m' & al' & E & Hal' & Hm' & Es & Ee & Hprops); [done| |done|done|done|done|].
  { intros b _ Hok Hpb _ _ Hsk. apply block_update_ok; auto. }
  exists m', al'. split_and!; [|done|done|by apply CheckState_ok|done|done|].
  - unfold Update. destruct (chain_end_bound _ _ _ (mo_chain m Hm) (mo_nonempty m Hm)) as [B0 B1].
    destruct Hpre as [Hd [Hn [Hst He]] Hf _ _ _].
    rewrite IsAligned_page by (done || (unfold PageSize in *; lia)).
    rewrite bind_assert_true by done. rewrite IgnoreMask_eq, Hai, bind_assert_true by done. exact E.
  - intros a. rewrite Hprops. apply new_props_on_range. intros p _.
    destruct (props_has state perm attr p) eqn:Ep; [|done]. by rewrite props_has_update.
Qed.

(** C6: [Update] on a range of pages of a well-formed address space terminates without failing an
    assertion and with the blocks its allocator holds; afterwards every page of the range has the
    new state, permission and attributes (lock and share marks kept), every other page is as it
    was, the blocks still cover the address space without gaps or overlaps, and [CheckState]
    succeeds: neighbours that can be merged have been. *)
Theorem memory_manager_update m (al : UpdateAllocator S) address num_pages state perm attr
    set_attr clear_attr :
  manager_ok m -> in_u 8 perm -> in_u 8 attr -> attr .& AttributeIgnoreMask = 0 ->
  merge_mask_ok set_attr -> merge_mask_ok clear_attr ->
  update_conditions state perm attr address (address + num_pages * PageSize) m al num_pages ->
  exists m' al',
    Update m al address num_pages state perm attr set_attr clear_attr = Done true (m', al') /\
    alloc_ok al' /\ manager_ok m' /\ CheckState m' = Done true true /\
    m_start_address m' = m_start_address m /\ m_end_address m' = m_end_address m /\
    forall a, page_props (m_memory_block_tree m') a =
      on_range address (address + num_pages * PageSize) (props_update state perm attr) a
        (page_props (m_memory_block_tree m) a).
Proof. apply Update_ok. Qed.

(** [UpdateIfMatch] changes exactly the pages of its range that have the tested properties;
    every other page is as it was, and the address space stays well-formed and merged. *)
Theorem memory_manager_update_if_match m (al : UpdateAllocator S) address num_pages
    tstate tperm tattr state perm attr set_attr clear_attr :
  manager_ok m -> in_u 8 perm -> in_u 8 attr -> attr .& AttributeIgnoreMask = 0 ->
  merge_mask_ok set_attr -> merge_mask_ok clear_attr ->
  update_pre (fun p => negb (props_has tstate tperm tattr p && negb (props_has state perm attr p)))
    (fun b => props_has tstate tperm tattr (props b) = true -> m_ipc_lock_count b = 0)
    address (address + num_pages * PageSize) m al num_pages ->
  exists m' al',
    UpdateIfMatch m al address num_pages tstate tperm tattr state perm attr set_attr clear_attr =
      Done true (m', al') /\
    alloc_ok al' /\ manager_ok m' /\ CheckState m' = Done true true /\
    forall a, page_props (m_memory_block_tree m') a =
      on_range address (address + num_pages * PageSize)
        (fun p => if props_has tstate tperm tattr p then props_update state perm attr p else p) a
        (page_props (m_memory_block_tree m) a).
Proof.
  intros Hm Hp Ha Hai Hs Hc Hpre.
  destruct (run_update_ok
    (fun b => negb (HasProperties b tstate tperm tattr && negb (HasProperties b state perm attr)))
    (fun b => KMemoryBlock.Update b state perm attr false set_attr clear_attr)
    (fun p => negb (props_has tstate tperm tattr p && negb (props_has state perm attr p)))
    (props_update state perm attr)
    (fun b => props_has tstate tperm tattr (props b) = true -> m_ipc_lock_count b = 0)
    address (address + num_pages * PageSize)) with (m := m) (al := al) (num_pages := num_pages)
    as (m' & al' & E & Hal' & Hm' & Es & Ee & Hprops); [done| |done|done|done|done|].
  { intros b _ Hok Hpb _ _ Hsk. apply negb_false_iff, andb_true_iff in Hsk as [Hsk _].
    apply block_update_ok; auto. }
  exists m', al'. split_and!; [|done|done|by apply CheckState_ok|].
  - unfold UpdateIfMatch.
    destruct (chain_end_bound _ _ _ (mo_chain m Hm) (mo_nonempty m Hm)) as [B0 B1].
    destruct Hpre as [Hd [Hn [Hst He]] Hf _ _ _].
    rewrite IsAligned_page by (done || (unfold PageSize in *; lia)).
    rewrite bind_assert_true by done. rewrite IgnoreMask_eq, Hai, bind_assert_true by done. exact E.
  - intros a. rewrite Hprops. apply new_props_on_range. intros p _.
    destruct (props_has tstate tperm tattr p), (props_has state perm attr p) eqn:Ep; simpl;
      try done. by rewrite props_has_update.
Qed.

(** [UpdateAttribute] gives every page of its range the masked attributes, leaves every other
    page and every other property as they were, and keeps the address space well-formed. *)
Theorem memory_manager_update_attribute m (al : UpdateAllocator S) address num_pages mask attr :
  manager_ok m -> in_u 8 mask -> in_u 8 attr -> mask .& AttributeIgnoreMask = 0 ->
  attr .& AttributeIgnoreMask = 0 ->
  update_pre (fun p => (p_attribute p .& mask) =? attr) (fun _ => True)
    address (address + num_pages * PageSize) m al num_pages ->
  exists m' al', UpdateAttribute m al address num_pages mask attr = Done true (m', al') /\
    alloc_ok al' /\ manager_ok m' /\ CheckState m' = Done true true /\
    forall a, page_props (m_memory_block_tree m') a =
      on_range address (address + num_pages * PageSize) (props_set_attribute mask attr) a
        (page_props (m_memory_block_tree m) a).
Proof.
  intros Hm Hmask Ha Hmi Hai Hpre.
  destruct (run_update_ok (fun b => (m_attribute b .& mask) =? attr)
    (fun b => KMemoryBlock.UpdateAttribute b mask attr)
    (fun p => (p_attribute p .& mask) =? attr) (props_set_attribute mask attr) (fun _ => True)
    address (address + num_pages * PageSize)) with (m := m) (al := al) (num_pages := num_pages)
    as (m' & al' & E & Hal' & Hm' & Es & Ee & Hprops); [done| |done|done|done|done|].
  { intros b _ Hok _ _ _ _. by apply block_update_attribute_ok. }
  exists m', al'. split_and!; [|done|done|by apply CheckState_ok|].
  - unfold UpdateAttribute.
    destruct (chain_end_bound _ _ _ (mo_chain m Hm) (mo_nonempty m Hm)) as [B0 B1].
    destruct Hpre as [Hd [Hn [Hst He]] Hf _ _ _].
    rewrite IsAligned_page by (done || (unfold PageSize in *; lia)).
    rewrite bind_assert_true by done. exact E.
  - intros a. rewrite Hprops. apply new_props_on_range. intros p Hp.
    destruct (Z.eqb_spec (p_attribute p .& mask) attr); [|done]. symmetry.
    apply props_attribute_same; [|done|done].
    by apply (page_props_attr _ _ _ _ _ (mo_chain m Hm) (mo_ok m Hm) Hp).
Qed.

(** Locking a range for IPC with [UpdateLock] locks exactly the pages of the range: each gets
    one more lock, the lock mark and, at its first lock, the restricted permission with its
    previous permission saved; the address space stays well-formed and merged. *)
Theorem memory_manager_lock_ipc m (al : UpdateAllocator S) address num_pages perm :
  manager_ok m -> in_u 8 perm ->
  update_pre (fun _ => false) (fun b => lock_pre b perm)
    address (address + num_pages * PageSize) m al num_pages ->
  exists m' al', UpdateLock m al address num_pages LockForIpc perm = Done true (m', al') /\
    alloc_ok al' /\ manager_ok m' /\ CheckState m' = Done true true /\
    forall a, page_props (m_memory_block_tree m') a =
      on_range address (address + num_pages * PageSize) (props_lock perm) a
        (page_props (m_memory_block_tree m) a).
Proof.
  intros Hm Hp Hpre.
  destruct (run_update_ok (fun _ => false)
    (fun b => LockForIpc b perm (Info_GetAddress (GetMemoryInfo b) =? address)
       (Info_GetEndAddress (GetMemoryInfo b) =? u64 (address + u64 (num_pages * PageSize))))
    (fun _ => false) (props_lock perm) (fun b => lock_pre b perm)
    address (address + num_pages * PageSize)) with (m := m) (al := al) (num_pages := num_pages)
    as (m' & al' & E & Hal' & Hm' & Es & Ee & Hprops); [done| | | |done|done|].
  { intros b _ Hok Hpb _ _ _. eexists. split; [by apply LockForIpc_eq|].
    split_and!; [done|done|by apply lock_result_ok]. }
  { intros b a (H1 & H2 & H3). by split_and!. }
  { intros b a (H1 & H2 & H3). by split_and!. }
  exists m', al'. split_and!; [|done|done|by apply CheckState_ok|].
  - unfold UpdateLock.
    destruct (chain_end_bound _ _ _ (mo_chain m Hm) (mo_nonempty m Hm)) as [B0 B1].
    destruct Hpre as [Hd [Hn [Hst He]] Hf _ _ _].
    rewrite IsAligned_page by (done || (unfold PageSize in *; lia)).
    rewrite bind_assert_true by done. exact E.
  - intros a. rewrite Hprops. by apply new_props_on_range.
Qed.

(** [Initialize] of an empty manager either reports that no block was to be had and changes
    nothing, or makes one free block of the whole address space, well-formed and accepted by
    [CheckState]. *)
Theorem memory_manager_initialize st nd (sm : S) :
  (PageSize | st) -> (PageSize | nd) -> 0 <= st < nd -> nd < 2 ^ 64 ->
  (forall b sm', slab_Allocate sm = (Some b, sm') -> m_ipc_disable_merge_count b = 0) ->
  match slab_Allocate sm with
  | (None, sm') => Initialize KMemoryBlockManager_new st nd sm =
      Done true (ResultOutOfResource, KMemoryBlockManager_new, sm')
  | (Some _, sm') =>
      exists m, Initialize KMemoryBlockManager_new st nd sm = Done true (ResultSuccess, m, sm') /\
        manager_ok m /\ CheckState m = Done true true /\
        m_start_address m = st /\ m_end_address m = nd /\
        forall a, page_props (m_memory_block_tree m) a =
          if (st <=? a) && (a <? nd)
          then Some (mkProps (MemoryState.state_value MemoryState.KFree) 0 0 0 0 0) else None
  end.
Proof.
  intros Hst Hnd Hr H64 Hfresh. unfold Initialize.
  destruct (slab_Allocate sm) as [[b|] sm'] eqn:E; [|done].
  rewrite !IsAligned_page by (done || lia). rewrite !bind_assert_true by done. simpl.
  rewrite (u64_small (nd - st)) by lia.
  pose proof (page_multiple (nd - st) (Z.divide_sub_r _ _ _ Hnd Hst)) as Hmul.
  set (b' := KMemoryBlock.Initialize st ((nd - st) / PageSize) _ _ _ b).
  assert (Hg : geom b').
  { unfold geom, b'; simpl. unfold PageSize in *. split_and!; (done || lia). }
  assert (He : block_end b' = nd) by (unfold block_end, b'; simpl; lia).
  assert (Hm : manager_ok (mkManager [b'] st nd)).
  { constructor; simpl; [done|done| |done]. apply Forall_singleton. unfold b', KMemoryBlock.Initialize.
    rewrite (Hfresh b sm') by done. by apply KMemoryBlock_new_ok. }
  exists (mkManager [b'] st nd). split_and!; [done|done|by apply CheckState_ok|done|done|].
  intros a. simpl. unfold covers. by rewrite He.
Qed.
End Updates.

Lemma memory_manager_update_witness :
  exists m' al',
    Update example_manager example_allocator 0x8002000 3 0x077EBD05
      MemoryPermission.UserReadWrite 0 DisableMerge.Normal 0 = Done true (m', al') /\
    alloc_ok al' /\ manager_ok m' /\ CheckState m' = Done true true /\
    m_start_address m' = 0x8000000 /\ m_end_address m' = 0x8010000 /\
    forall a, page_props (m_memory_block_tree m') a =
      on_range 0x8002000 (0x8002000 + 3 * PageSize)
        (props_update 0x077EBD05 MemoryPermission.UserReadWrite 0) a
        (page_props (m_memory_block_tree example_manager) a).
Proof.
  apply memory_manager_update; [exact example_manager_ok|by vm_compute|by vm_compute|by vm_compute
    |by vm_compute|by vm_compute|].
  constructor.
  - by exists 0x8002.
  - by vm_compute.
  - done.
  - by apply Forall_singleton.
  - split; [exact example_allocator_ok|by vm_compute].
  - intros b [= <-]. right. right. by vm_compute.
Defined.

Lemma memory_manager_update_if_match_witness :
  exists m' al',
    UpdateIfMatch example_manager example_allocator 0x8002000 3 0 0 0 0x077EBD05
      MemoryPermission.UserReadWrite 0 0 0 = Done true (m', al') /\
    alloc_ok al' /\ manager_ok m' /\ CheckState m' = Done true true /\
    forall a, page_props (m_memory_block_tree m') a =
      on_range 0x8002000 (0x8002000 + 3 * PageSize)
        (fun p => if props_has 0 0 0 p
                  then props_update 0x077EBD05 MemoryPermission.UserReadWrite 0 p else p) a
        (page_props (m_memory_block_tree example_manager) a).
Proof.
  apply memory_manager_update_if_match; [exact example_manager_ok|by vm_compute|by vm_compute
    |by vm_compute|by vm_compute|by vm_compute|].
  constructor.
  - by exists 0x8002.
  - by vm_compute.
  - done.
  - by apply Forall_singleton.
  - split; [exact example_allocator_ok|by vm_compute].
  - intros b [= <-]. right. right. by vm_compute.
Defined.

Lemma memory_manager_update_attribute_witness :
  exists m' al', UpdateAttribute example_manager example_allocator 0x8000000 3
      MemoryAttribute.Uncached MemoryAttribute.Uncached = Done true (m', al') /\
    alloc_ok al' /\ manager_ok m' /\ CheckState m' = Done true true /\
    forall a, page_props (m_memory_block_tree m') a =
      on_range 0x8000000 (0x8000000 + 3 * PageSize)
        (props_set_attribute MemoryAttribute.Uncached MemoryAttribute.Uncached) a
        (page_props (m_memory_block_tree example_manager) a).
Proof.
  apply memory_manager_update_attribute; [exact example_manager_ok|by vm_compute|by vm_compute
    |by vm_compute|by vm_compute|].
  constructor.
  - by exists 0x8000.
  - by vm_compute.
  - done.
  - by apply Forall_singleton.
  - split; [exact example_allocator_ok|by vm_compute].
  - intros b [= <-]. by left.
Defined.

(** The address space of the examples with every page readable and writable. *)
Definition example_mapped : KMemoryBlockManager :=
  mkManager [KMemoryBlock_new 0x8000000 16 0x077EBD05 MemoryPermission.UserReadWrite 0]
    0x8000000 0x8010000.

Lemma example_mapped_ok : manager_ok example_mapped.
Proof.
  constructor; [|done| |done].
  - split_and!; [split_and!; [by vm_compute|by exists 0x8000|by vm_compute..]|done|done].
  - apply Forall_singleton. by constructor; vm_compute.
Qed.

Lemma memory_manager_lock_ipc_witness :
  exists m' al', UpdateLock example_mapped example_allocator 0x8004000 2 LockForIpc
      MemoryPermission.UserRead = Done true (m', al') /\
    alloc_ok al' /\ manager_ok m' /\ CheckState m' = Done true true /\
    forall a, page_props (m_memory_block_tree m') a =
      on_range 0x8004000 (0x8004000 + 2 * PageSize) (props_lock MemoryPermission.UserRead) a
        (page_props (m_memory_block_tree example_mapped) a).
Proof.
  apply memory_manager_lock_ipc; [exact example_mapped_ok|by vm_compute|].
  constructor.
  - by exists 0x8004.
  - by vm_compute.
  - done.
  - apply Forall_singleton. intros _ _. split_and!; by vm_compute.
  - split; [exact example_allocator_ok|by vm_compute].
  - intros b _. by right; right.
Defined.

Lemma memory_manager_initialize_witness :
  exists m, Initialize KMemoryBlockManager_new 0x8000000 0x8010000 1%nat =
      Done true (ResultSuccess, m, 0%nat) /\
    manager_ok m /\ CheckState m = Done true true /\
    m_start_address m = 0x8000000 /\ m_end_address m = 0x8010000 /\
    forall a, page_props (m_memory_block_tree m) a =
      if (0x8000000 <=? a) && (a <? 0x8010000)
      then Some (mkProps (MemoryState.state_value MemoryState.KFree) 0 0 0 0 0) else None.
Proof.
  refine (memory_manager_initialize 0x8000000 0x8010000 1%nat _ _ _ _ _);
    [by exists 0x8000|by exists 0x8010|lia|lia|]. by intros b sm' [= <- _].
Defined.

(** An update that finds the properties already there, strictly inside the first block of the
    address space, steps in front of the first block when it looks for a block to merge with. *)
Lemma update_inside_first_block_undefined :
  Update example_manager example_allocator 0x8001000 1 0 0 0 0 0 = Undef.
Proof. by vm_compute. Qed.

(** ** FindFreeArea *)

Section FreeArea.

Variables (region_start region_end num_pages alignment offset guard_pages : Z).

(** [a] is a place for the pages: congruent to the offset, with the guard pages on both sides
    inside the free block [b] and inside the region. *)
Definition fits (b : KMemoryBlock) (a : Z) : Prop :=
  m_memory_state b = MemoryState.state_value MemoryState.KFree /\
  m_address b + guard_pages * PageSize <= a /\ region_start + guard_pages * PageSize <= a /\
  a + (num_pages + guard_pages) * PageSize <= block_end b /\
  a + (num_pages + guard_pages) * PageSize <= region_end /\
  (alignment | a - offset).

Hypothesis num_pos : 0 < num_pages.
Hypothesis guard_nonneg : 0 <= guard_pages.
Hypothesis offset_small : 0 <= offset < alignment.
Hypothesis region_pos : 0 < region_start < region_end.
Hypothesis no_overflow :
  region_end + (num_pages + 2 * guard_pages) * PageSize + 2 * alignment < 2 ^ 64.

(** The least address from [lo] on that is congruent to the offset. *)
Definition candidate (lo : Z) : Z :=
  let oa := lo - lo mod alignment + offset in if lo <=? oa then oa else oa + alignment.

Lemma candidate_spec lo :
  0 <= lo ->
  lo <= candidate lo < lo + 2 * alignment /\ (alignment | candidate lo - offset) /\
  forall a, lo <= a -> (alignment | a - offset) -> candidate lo <= a.
Proof.
  intros Hlo. pose proof (Z.mod_pos_bound lo alignment ltac:(lia)) as Hm.
  pose proof (Z.div_mod lo alignment ltac:(lia)) as Hdiv.
  set (j := lo / alignment) in *. unfold candidate.
  replace (lo - lo mod alignment + offset) with (j * alignment + offset) by lia.
  destruct (Z.leb_spec lo (j * alignment + offset)).
  - split_and!; [lia|lia|exists j; lia|]. intros a Ha [k Hk].
    assert (j <= k) by nia. nia.
  - split_and!; [lia|lia|exists (j + 1); lia|]. intros a Ha [k Hk].
    assert (j + 1 <= k) by nia. nia.
Qed.

Lemma find_in_block_ok b :
  geom b -> m_address b < region_end ->
  m_memory_state b = MemoryState.state_value MemoryState.KFree ->
  exists area ok,
    find_in_block (GetMemoryInfo b) region_start (region_end - 1) num_pages alignment offset
      guard_pages = (area, ok) /\
    (if ok then fits b area /\ forall a, fits b a -> area <= a
     else forall a, ~ fits b a).
Proof.
  intros Hg Hreg Hfree. pose proof (block_end_gt b Hg) as Hgt. pose proof Hg as (H0 & _ & _ & H64).
  unfold find_in_block. unfold Info_GetLastAddress. rewrite Info_end by done.
  change (Info_GetAddress (GetMemoryInfo b)) with (m_address b).
  set (st := if m_address b <=? region_start then region_start else m_address b).
  assert (Hst : st = Z.max region_start (m_address b)).
  { unfold st. destruct (Z.leb_spec (m_address b) region_start); lia. }
  set (gs := guard_pages * PageSize). set (ns := num_pages * PageSize).
  assert (0 <= gs /\ 0 < ns /\ 4096 <= ns) by (unfold gs, ns, PageSize; lia).
  assert (Hno : region_end + ns + 2 * gs + 2 * alignment < 2 ^ 64) by (unfold gs, ns; lia).
  rewrite (u64_small gs), (u64_small ns), (u64_small (st + gs)) by lia.
  rewrite AlignDown_eq by (lia || (split; lia)).
  pose proof (Z.mod_pos_bound (st + gs) alignment ltac:(lia)) as Hm.
  pose proof (Z.mod_le (st + gs) alignment ltac:(lia) ltac:(lia)) as Hm'.
  rewrite (u64_small (st + gs - _ + offset)) by lia.
  rewrite (u64_small (st + gs - _ + offset + alignment)) by lia.
  fold (candidate (st + gs)). destruct (candidate_spec (st + gs)) as (Hc1 & Hc2 & Hc3); [lia|].
  set (area := candidate (st + gs)) in *.
  rewrite (u64_small (area + ns)), (u64_small (area + ns + gs)), (u64_small (area + ns + gs - 1)),
    (u64_small (block_end b - 1)) by (unfold block_end in *; lia).
  eexists area, _. split; [done|].
  assert (Hsum : forall a, a + (num_pages + guard_pages) * PageSize = a + ns + gs)
    by (intros; unfold ns, gs; lia).
  destruct (_ && _) eqn:Eok.
  - rewrite !andb_true_iff, !Z.leb_le, !Z.ltb_lt in Eok. split.
    + unfold fits. rewrite Hsum. fold gs. split_and!; (done || lia).
    + intros a (_ & Ha1 & Ha2 & _ & _ & Hd). apply Hc3; [fold gs in Ha1, Ha2; lia|done].
  - intros a (_ & Ha1 & Ha2 & Ha3 & Ha4 & Hd). rewrite Hsum in Ha3, Ha4. fold gs in Ha1, Ha2.
    assert (area <= a) by (apply Hc3; [lia|done]).
    assert (Hx : (m_address b <=? area) && (area <? area + ns + gs - 1) &&
      (area + ns + gs - 1 <=? region_end - 1) && (area + ns + gs - 1 <=? block_end b - 1) = true)
      by (rewrite !andb_true_iff, !Z.leb_le, !Z.ltb_lt; lia).
    congruence.
Qed.

(** The result: the least place, or none. *)
Definition least_place (t : list KMemoryBlock) (r : Z) : Prop :=
  (r = 0 /\ forall b a, b ∈ t -> ~ fits b a) \/
  (exists b, b ∈ t /\ fits b r) /\ forall b a, b ∈ t -> fits b a -> r <= a.

Lemma FindFreeArea_loop_ok s t e :
  chain s t e ->
  exists r, FindFreeArea_loop t region_start (region_end - 1) num_pages alignment offset
      guard_pages = Done true r /\ least_place t r.
Proof.
  revert s. induction t as [|b t IH]; intros s; cbn [FindFreeArea_loop].
  { intros _. exists 0. split; [done|]. left. split; [done|]. intros b a []%not_elem_of_nil. }
  intros (Hg & Hs & Hc). destruct (IH _ Hc) as (r & Er & Hr). clear IH.
  pose proof (block_end_gt b Hg) as Hgt.
  assert (Hlater : forall c, c ∈ t -> block_end b <= m_address c).
  { intros c Hin. apply list_elem_of_split in Hin as (d1 & d2 & ->).
    apply chain_app in Hc as (x & Hc1 & _ & <- & _). by apply chain_le in Hc1. }
  assert (Hsize : 0 < (num_pages + guard_pages) * PageSize) by (unfold PageSize; lia).
  assert (Hgp : 0 <= guard_pages * PageSize) by (unfold PageSize; lia).
  assert (Hskip : (forall a, ~ fits b a) -> least_place (b :: t) r).
  { intros Hno. destruct Hr as [[-> Hn]|[(c & Hc1 & Hc2) Hl]].
    - left. split; [done|]. intros c a [->|Hin]%elem_of_cons; [apply Hno|by apply Hn].
    - right. split; [exists c; split; [by apply list_elem_of_further|done]|].
      intros c' a [->|Hin]%elem_of_cons Hf; [by apply Hno in Hf|by apply (Hl c')]. }
  change (Info_GetAddress (GetMemoryInfo b)) with (m_address b).
  change (i_state (GetMemoryInfo b)) with (m_memory_state b).
  destruct (Z.ltb_spec (region_end - 1) (m_address b)) as [Hout|Hin].
  - exists 0. split; [done|]. left. split; [done|].
    intros c a Hc' (_ & Ha1 & _ & _ & Ha4 & _).
    assert (region_end <= m_address c) by
      (apply elem_of_cons in Hc' as [->|Hc']; [lia|specialize (Hlater c Hc'); lia]). lia.
  - destruct (Z.eqb_spec (m_memory_state b) (MemoryState.state_value MemoryState.KFree))
      as [Hfree|Hnf]; cbn [negb].
    + rewrite (proj2 (Z.eqb_neq alignment 0)) by lia.
      destruct (find_in_block_ok b Hg ltac:(lia) Hfree) as (area & ok & -> & Hok).
      destruct ok; [|exists r; split; [done|by apply Hskip]].
      destruct Hok as [Hf Hl]. exists area. split; [done|]. right. split.
      * exists b. split; [by apply list_elem_of_here|done].
      * intros c a [->|Hin']%elem_of_cons; [by apply Hl|]. intros (_ & Ha1 & _).
        specialize (Hlater c Hin'). destruct Hf as (_ & _ & _ & Hf4 & _). lia.
    + exists r. split; [done|]. apply Hskip. by intros a (H & _).
Qed.

End FreeArea.

(** What [FindFreeArea] answers, for the clients of the manager. *)
Lemma FindFreeArea_least m region_start region_num_pages num_pages alignment offset
    guard_pages :
  let region_end := region_start + region_num_pages * PageSize in
  manager_ok m -> 0 < num_pages -> 0 <= guard_pages -> 0 <= offset < alignment ->
  0 < region_start < region_end -> m_start_address m <= region_start < m_end_address m ->
  region_end + (num_pages + 2 * guard_pages) * PageSize + 2 * alignment < 2 ^ 64 ->
  exists r, FindFreeArea m region_start region_num_pages num_pages alignment offset guard_pages =
      Done true r /\
    least_place region_start region_end num_pages alignment offset guard_pages
      (m_memory_block_tree m) r.
Proof.
  intros region_end Hm Hn Hg Ho Hr Hin Hno. pose proof (mo_chain m Hm) as Hc.
  destruct (chain_cover _ _ _ region_start Hc Hin) as (d & b & r & Ht & Hb). rewrite Ht in Hc.
  unfold FindFreeArea. rewrite (proj2 (Z.ltb_lt 0 num_pages)) by done. rewrite Ht.
  rewrite (FindIterator_chain _ d b r _ _ Hc Hb).
  rewrite drop_app_length.
  assert (0 < PageSize) by done.
  rewrite (u64_small (region_num_pages * PageSize)) by (unfold region_end in *; nia).
  fold region_end. rewrite (u64_small region_end) by nia. rewrite (u64_small (region_end - 1)) by nia.
  pose proof Hc as Hc'. apply chain_app in Hc' as (c & Hcd & Hcb).
  destruct (FindFreeArea_loop_ok region_start region_end num_pages alignment offset guard_pages
    Hn Hg Ho Hr Hno c (b :: r) _ Hcb) as (res & -> & Hres).
  exists res. split; [done|].
  assert (Hbefore : forall x a, x ∈ d -> ~ fits region_start region_end num_pages alignment offset
    guard_pages x a).
  { intros x a Hx (_ & _ & Ha2 & Ha3 & _). apply list_elem_of_split in Hx as (d1 & d2 & ->).
    apply chain_app in Hcd as (y & _ & _ & _ & Hc2). apply chain_le in Hc2.
    destruct Hcb as (_ & Hcb & _). nia. }
  destruct Hres as [[-> Hno']|[(x & Hx & Hfx) Hl]].
  - left. split; [done|]. intros x a [Hx|Hx]%elem_of_app; [by apply Hbefore|by apply Hno'].
  - right. split.
    + exists x. split; [|done]. apply elem_of_app. by right.
    + intros y a [Hy|Hy]%elem_of_app Hf; [by apply Hbefore in Hf|by apply (Hl y)].
Qed.

(** [FindFreeArea] returns the least address in the region at which the pages fit into one
    free block with the guard pages before and after them and with the wanted alignment and
    offset, or 0 when there is none. *)
Theorem memory_manager_find_free_area m region_start region_num_pages num_pages alignment offset
    guard_pages :
  let region_end := region_start + region_num_pages * PageSize in
  manager_ok m -> 0 < num_pages -> 0 <= guard_pages -> 0 <= offset < alignment ->
  0 < region_start < region_end -> m_start_address m <= region_start < m_end_address m ->
  region_end + (num_pages + 2 * guard_pages) * PageSize + 2 * alignment < 2 ^ 64 ->
  exists r, FindFreeArea m region_start region_num_pages num_pages alignment offset guard_pages =
      Done true r /\
    least_place region_start region_end num_pages alignment offset guard_pages
      (m_memory_block_tree m) r.
Proof. apply FindFreeArea_least. Qed.

Lemma memory_manager_find_free_area_witness :
  exists r, FindFreeArea example_manager 0x8000000 16 2 0x2000 0x1000 1 = Done true r /\
    least_place 0x8000000 (0x8000000 + 16 * PageSize) 2 0x2000 0x1000 1
      (m_memory_block_tree example_manager) r.
Proof.
  apply memory_manager_find_free_area; [exact example_manager_ok|lia|lia|lia|by vm_compute
    |by vm_compute|by vm_compute].
Defined.
