(* ===== verification/KSlabHeap.v ===== *)
(** * KSlabHeap: core/hle/kernel/k_slab_heap.h, k_dynamic_page_manager.h, k_dynamic_slab_heap.h,
      k_dynamic_resource_manager.h and k_page_table_slab_heap.h

    The allocators the kernel takes its own objects from: the free list [KSlabHeapImpl], the slab
    over a fixed area [KSlabHeapBase]/[KSlabHeap], the page allocator [KDynamicPageManager] over
    the bitmap of KPageBitmap.v, the growing slab [KDynamicSlabHeap] on top of it, and the page
    table heap with its reference counts.  The free lists live in the memory of the objects
    themselves: a memory is a store of 64-bit words by host address, zero where nothing was written.

    The theorems say that the pages of the page manager and the objects of a slab are handed out
    without overlap and to the last one, that an allocation leaves the memory of all other objects
    alone, and that a growing slab refines the counter of free objects that KMemoryBlockManager.v
    draws its blocks from. *)

From stdpp Require Import gmap.
From S2P Require Import Prelude Common TinyMT KPageBitmap KPageHeap BitField.
#[local] Open Scope Z_scope.

(** ** Memory *)

Notation memory := (gmap Z Z).

Definition load (m : memory) (a : Z) : Z := default 0 (m !! a).
Definition store (a v : Z) (m : memory) : memory := <[a := v]> m.

(** [memset(p, 0, PageSize)]. *)
Definition zero_page (p : Z) (m : memory) : memory :=
  filter (fun '(a, _) => ~ (p <= a < p + PageSize)) m.

(** What the slabs use of the type of their objects: its size, a multiple of a word, and its
    default constructor, which writes only to the object. *)
Class SlabObject := {
  sizeof : Z;
  construct : Z -> memory -> memory;
  sizeof_bounds : 8 <= sizeof <= PageSize;
  sizeof_words : (8 | sizeof);
  construct_elsewhere : forall a m x, ~ (a <= x < a + sizeof) -> load (construct a m) x = load m x
}.

(** ** The free list *)

Module KSlabHeapImpl.

Definition Initialize (m_head : Z) : outcome unit := ASSERT (m_head =? 0).

Definition Allocate (m : memory) (m_head : Z) : Z * Z :=
  let ret := m_head in
  if negb (ret =? 0) then (ret, load m ret) else (ret, m_head).

(** The node is written to, so it must not be null. *)
Definition Free (obj : Z) (m : memory) (m_head : Z) : outcome (memory * Z) :=
  if obj =? 0 then Undef else mret (store obj m_head m, obj).

End KSlabHeapImpl.

(** ** The slab over a fixed area *)

Module KSlabHeapBase.

Record KSlabHeapBase := mkBase {
  m_head : Z;
  m_obj_size : Z;
  m_peak : Z;
  m_start : Z;
  m_end : Z
}.

Definition with_head (head : Z) (h : KSlabHeapBase) : KSlabHeapBase :=
  mkBase head (m_obj_size h) (m_peak h) (m_start h) (m_end h).

Definition GetObjectSize (h : KSlabHeapBase) : Z := m_obj_size h.
Definition GetSlabHeapAddress (h : KSlabHeapBase) : Z := m_start h.
Definition GetSlabHeapSize (h : KSlabHeapBase) : outcome Z :=
  udiv (u64 (m_end h - m_start h)) (GetObjectSize h).
Definition Contains (h : KSlabHeapBase) (address : Z) : bool :=
  (m_start h <=? address) && (address <? m_end h).

(** The compare-and-swap loop succeeds at once when no other thread interferes. *)
Definition UpdatePeakImpl (obj : Z) (h : KSlabHeapBase) : KSlabHeapBase :=
  let alloc_peak := u64 (obj + GetObjectSize h) in
  if alloc_peak <=? m_peak h then h
  else mkBase (m_head h) (m_obj_size h) alloc_peak (m_start h) (m_end h).

Fixpoint Initialize_loop (num_obj : nat) (obj_size cur : Z) (m : memory) (head : Z) :
    outcome (memory * Z) :=
  match num_obj with
  | O => mret (m, head)
  | S n =>
      let cur := u64 (cur - obj_size) in
      '(m, head) ← KSlabHeapImpl.Free cur m head;
      Initialize_loop n obj_size cur m head
  end.

Definition Initialize (obj_size ptr memory_size : Z) (h : KSlabHeapBase) (m : memory) :
    outcome (KSlabHeapBase * memory) :=
  ASSERT (negb (ptr =? 0));;
  KSlabHeapImpl.Initialize (m_head h);;
  num_obj ← udiv memory_size obj_size;
  let stop := u64 (ptr + u64 (num_obj * obj_size)) in
  '(m, head) ← Initialize_loop (Z.to_nat num_obj) obj_size stop m (m_head h);
  mret (mkBase head obj_size ptr ptr stop, m).

Definition Allocate (h : KSlabHeapBase) (m : memory) : Z * KSlabHeapBase :=
  let '(obj, head) := KSlabHeapImpl.Allocate m (m_head h) in (obj, with_head head h).

Definition Free (obj : Z) (h : KSlabHeapBase) (m : memory) : outcome (KSlabHeapBase * memory) :=
  ASSERT (Contains h obj);;
  '(m, head) ← KSlabHeapImpl.Free obj m (m_head h);
  mret (with_head head h, m).

(** [expansion] is the template parameter [SupportDynamicExpansion]. *)
Definition GetObjectIndex (expansion : bool) (obj : Z) (h : KSlabHeapBase) : outcome Z :=
  if expansion && negb (Contains h obj) then mret (u64 (-1))
  else udiv (u64 (obj - m_start h)) (GetObjectSize h).

Definition GetPeakIndex (expansion : bool) (h : KSlabHeapBase) : outcome Z :=
  GetObjectIndex expansion (m_peak h) h.

End KSlabHeapBase.

(** [KSlabHeap<T>] constructs the objects it hands out. *)
Module KSlabHeap.
Section KSlabHeap.
Context {T : SlabObject}.

Definition Initialize (ptr memory_size : Z) (h : KSlabHeapBase.KSlabHeapBase) (m : memory) :
    outcome (KSlabHeapBase.KSlabHeapBase * memory) :=
  KSlabHeapBase.Initialize sizeof ptr memory_size h m.

Definition Allocate (h : KSlabHeapBase.KSlabHeapBase) (m : memory) :
    Z * KSlabHeapBase.KSlabHeapBase * memory :=
  let '(obj, h) := KSlabHeapBase.Allocate h m in
  if negb (obj =? 0) then (obj, h, construct obj m) else (obj, h, m).

Definition Free (obj : Z) (h : KSlabHeapBase.KSlabHeapBase) (m : memory) :
    outcome (KSlabHeapBase.KSlabHeapBase * memory) := KSlabHeapBase.Free obj h m.

End KSlabHeap.
End KSlabHeap.

(** ** The page manager *)

Module KDynamicPageManager.
Section KDynamicPageManager.
Context {S : Type} {ES : EntropySource S}.

(** [m_backing] is the host address of the backing memory. *)
Record KDynamicPageManager := mkPages {
  m_page_bitmap : KPageBitmap (S := S);
  m_used : Z;
  m_peak : Z;
  m_count : Z;
  m_address : Z;
  m_aligned_address : Z;
  m_size : Z;
  m_backing : Z;
  m_backing_size : Z
}.

Definition with_bitmap (b : KPageBitmap) (used peak : Z) (pm : KDynamicPageManager) :
    KDynamicPageManager :=
  mkPages b used peak (m_count pm) (m_address pm) (m_aligned_address pm) (m_size pm) (m_backing pm)
    (m_backing_size pm).

Definition GetPointer (pm : KDynamicPageManager) (addr : Z) : Z :=
  u64 (m_backing pm + u64 (addr - m_address pm)).

Definition GetAddress (pm : KDynamicPageManager) : Z := m_address pm.
Definition GetSize (pm : KDynamicPageManager) : Z := m_size pm.
Definition GetUsed (pm : KDynamicPageManager) : Z := m_used pm.
Definition GetPeak (pm : KDynamicPageManager) : Z := m_peak pm.
Definition GetCount (pm : KDynamicPageManager) : Z := m_count pm.

(** The loop that gives page [i] to the bitmap. *)
Fixpoint Initialize_loop (n : nat) (i : Z) (pm : KDynamicPageManager) (m : memory) :
    outcome (KDynamicPageManager * memory) :=
  match n with
  | O => mret (pm, m)
  | Datatypes.S n' =>
      let m := zero_page (u64 (GetPointer pm (m_address pm) + i * PageSize)) m in
      b ← SetBit (m_page_bitmap pm)
            (u64 (u64 (m_address pm + u64 (i * PageSize)) - m_aligned_address pm) / PageSize);
      Initialize_loop n' (i + 1) (with_bitmap b (m_used pm) (m_peak pm) pm) m
  end.

(** [host] is where the resized backing memory lies.  The management area behind the pages is only
    the storage of the bitmap. *)
Definition Initialize (host address size align : Z) (pm : KDynamicPageManager) (m : memory) :
    outcome (Z * KDynamicPageManager * memory) :=
  if negb (0 <? size) then mret (ResultOutOfMemory, pm, m)
  else
    let aligned := AlignDown 64 address align in
    let managed_size := u64 (address + size - aligned) in
    let overhead_size := AlignUp 64 (CalculateManagementOverheadSize (managed_size / PageSize)) PageSize in
    if negb (overhead_size <? size) then
      mret (ResultOutOfMemory,
            mkPages (m_page_bitmap pm) (m_used pm) (m_peak pm) (m_count pm) address aligned
              (m_size pm) host size, m)
    else
      let m_size := AlignDown 64 (u64 (size - overhead_size)) PageSize in
      let m_count := m_size / PageSize in
      let storage := replicate (Z.to_nat (overhead_size / 8)) 0 in
      let allocatable := u64 (u64 (address + size - overhead_size) - aligned) in
      ASSERT (PageSize <=? allocatable);;
      '(b, _) ← KPageBitmap.Initialize storage (allocatable / PageSize) (m_gen (m_page_bitmap pm));
      '(pm, m) ← Initialize_loop (Z.to_nat m_count) 0
                   (mkPages b (m_used pm) (m_peak pm) m_count address aligned m_size host size) m;
      mret (ResultSuccess, pm, m).

Definition Allocate (pm : KDynamicPageManager) : outcome (Z * KDynamicPageManager) :=
  '(soffset, b) ← FindFreeBlock (m_page_bitmap pm) true;
  if soffset <? 0 then mret (0, with_bitmap b (m_used pm) (m_peak pm) pm)
  else
    b ← ClearBit b soffset;
    let used := u64 (m_used pm + 1) in
    let pm := with_bitmap b used (Z.max (m_peak pm) used) pm in
    mret (u64 (GetPointer pm (m_aligned_address pm) + soffset * PageSize), pm).

Definition Allocate_range (count : Z) (pm : KDynamicPageManager) : outcome (Z * KDynamicPageManager) :=
  '(soffset, b) ← FindFreeRange (m_page_bitmap pm) count;
  if soffset <? 0 then mret (0, with_bitmap b (m_used pm) (m_peak pm) pm)
  else
    '(_, b) ← ClearRange b soffset count;
    let used := u64 (m_used pm + count) in
    let pm := with_bitmap b used (Z.max (m_peak pm) used) pm in
    mret (u64 (GetPointer pm (m_aligned_address pm) + soffset * PageSize), pm).

(** The offset is the host address of the page less an address of the emulated kernel. *)
Definition Free (pb : Z) (pm : KDynamicPageManager) (m : memory) :
    outcome (KDynamicPageManager * memory) :=
  let m := zero_page pb m in
  let offset := u64 (pb - m_aligned_address pm) / PageSize in
  b ← SetBit (m_page_bitmap pm) offset;
  mret (with_bitmap b (u64 (m_used pm - 1)) (m_peak pm) pm, m).

End KDynamicPageManager.
Arguments KDynamicPageManager : clear implicits.
End KDynamicPageManager.

(** ** The growing slab *)

Module KDynamicSlabHeap.
Section KDynamicSlabHeap.
Context {S : Type} {ES : EntropySource S} {T : SlabObject}.
Notation pages := (KDynamicPageManager.KDynamicPageManager S).

Record KDynamicSlabHeap := mkSlab {
  m_head : Z;
  m_used : Z;
  m_peak : Z;
  m_count : Z;
  m_address : Z;
  m_size : Z
}.

Definition KDynamicSlabHeap_new : KDynamicSlabHeap := mkSlab 0 0 0 0 0 0.

Definition GetAddress (h : KDynamicSlabHeap) : Z := m_address h.
Definition GetSize (h : KDynamicSlabHeap) : Z := m_size h.
Definition GetUsed (h : KDynamicSlabHeap) : Z := m_used h.
Definition GetPeak (h : KDynamicSlabHeap) : Z := m_peak h.
Definition GetCount (h : KDynamicSlabHeap) : Z := m_count h.

Definition IsInRange (h : KDynamicSlabHeap) (addr : Z) : bool :=
  (GetAddress h <=? addr) && (addr <=? u64 (u64 (GetAddress h + GetSize h) - 1)).

(** [sizeof(PageBuffer) / sizeof(T)]. *)
Definition per_page : Z := PageSize / sizeof.

Definition with_list (head count : Z) (h : KDynamicSlabHeap) : KDynamicSlabHeap :=
  mkSlab head (m_used h) (m_peak h) count (m_address h) (m_size h).

(** [n] objects of a page, from number [i] on, go to the free list. *)
Fixpoint free_objects (n : nat) (i allocated : Z) (m : memory) (head : Z) : outcome (memory * Z) :=
  match n with
  | O => mret (m, head)
  | Datatypes.S n' =>
      '(m, head) ← KSlabHeapImpl.Free (u64 (allocated + i * sizeof)) m head;
      free_objects n' (i + 1) allocated m head
  end.

(** Every round adds [per_page] objects, so [num_objects] rounds are enough. *)
Fixpoint Initialize_loop (fuel : nat) (num_objects : Z) (h : KDynamicSlabHeap) (pm : pages)
    (m : memory) : outcome (KDynamicSlabHeap * pages * memory) :=
  if negb (m_count h <? num_objects) then mret (h, pm, m)
  else
    match fuel with
    | O => Undef
    | Datatypes.S fuel' =>
        '(allocated, pm) ← KDynamicPageManager.Allocate pm;
        ASSERT (negb (allocated =? 0));;
        '(m, head) ← free_objects (Z.to_nat per_page) 0 allocated m (m_head h);
        Initialize_loop fuel' num_objects (with_list head (u64 (m_count h + per_page)) h) pm m
    end.

Definition Initialize (num_objects : Z) (h : KDynamicSlabHeap) (pm : pages) (m : memory) :
    outcome (KDynamicSlabHeap * pages * memory) :=
  let h := mkSlab (m_head h) (m_used h) (m_peak h) (m_count h) (KDynamicPageManager.GetAddress pm)
             (KDynamicPageManager.GetSize pm) in
  KSlabHeapImpl.Initialize (m_head h);;
  Initialize_loop (Z.to_nat num_objects) num_objects h pm m.

(** The page of [refill]: its first object is answered, the others go to the free list. *)
Definition refill (h : KDynamicSlabHeap) (pm : pages) (m : memory) :
    outcome (Z * KDynamicSlabHeap * pages * memory) :=
  '(allocated, pm) ← KDynamicPageManager.Allocate pm;
  if negb (allocated =? 0) then
    '(m, head) ← free_objects (Z.to_nat (per_page - 1)) 1 allocated m (m_head h);
    mret (allocated, with_list head (u64 (m_count h + per_page)) h, pm, m)
  else mret (allocated, h, pm, m).

(** A new object is constructed and counted; the compare-and-swap loop on the peak succeeds at once
    when no other thread interferes. *)
Definition finish (allocated : Z) (h : KDynamicSlabHeap) (m : memory) : KDynamicSlabHeap * memory :=
  if negb (allocated =? 0) then
    let m := construct allocated m in
    let used := u64 (m_used h + 1) in
    let peak := if m_peak h <? used then used else m_peak h in
    (mkSlab (m_head h) used peak (m_count h) (m_address h) (m_size h), m)
  else (h, m).

(** [clear_node] is the template parameter; the page allocator may be null. *)
Definition Allocate (clear_node : bool) (h : KDynamicSlabHeap) (page_allocator : option pages)
    (m : memory) : outcome (Z * KDynamicSlabHeap * option pages * memory) :=
  let '(allocated, head) := KSlabHeapImpl.Allocate m (m_head h) in
  let h := with_list head (m_count h) h in
  let m := if clear_node && negb (allocated =? 0) then store allocated 0 m else m in
  '(allocated, h, page_allocator, m) ←
    (if allocated =? 0 then
       match page_allocator with
       | None => mret (allocated, h, None, m)
       | Some pm => '(allocated, h, pm, m) ← refill h pm m; mret (allocated, h, Some pm, m)
       end
     else mret (allocated, h, page_allocator, m));
  let '(h, m) := finish allocated h m in
  mret (allocated, h, page_allocator, m).

Definition Free (t : Z) (h : KDynamicSlabHeap) (m : memory) : outcome (KDynamicSlabHeap * memory) :=
  '(m, head) ← KSlabHeapImpl.Free t m (m_head h);
  mret (mkSlab head (u64 (m_used h - 1)) (m_peak h) (m_count h) (m_address h) (m_size h), m).

End KDynamicSlabHeap.
End KDynamicSlabHeap.

(** ** The resource manager: a slab with the page allocator it grows from *)

Module KDynamicResourceManager.
Section KDynamicResourceManager.
Context {S : Type} {ES : EntropySource S} {T : SlabObject}.
Notation pages := (KDynamicPageManager.KDynamicPageManager S).

Record KDynamicResourceManager := mkManager {
  m_page_allocator : option pages;
  m_slab_heap : KDynamicSlabHeap.KDynamicSlabHeap
}.

Definition Initialize (page_allocator : option pages) (slab_heap : KDynamicSlabHeap.KDynamicSlabHeap) :
    KDynamicResourceManager := mkManager page_allocator slab_heap.

Definition GetSize (r : KDynamicResourceManager) : Z := KDynamicSlabHeap.GetSize (m_slab_heap r).
Definition GetUsed (r : KDynamicResourceManager) : Z := KDynamicSlabHeap.GetUsed (m_slab_heap r).
Definition GetPeak (r : KDynamicResourceManager) : Z := KDynamicSlabHeap.GetPeak (m_slab_heap r).
Definition GetCount (r : KDynamicResourceManager) : Z := KDynamicSlabHeap.GetCount (m_slab_heap r).

Definition Allocate (clear_node : bool) (r : KDynamicResourceManager) (m : memory) :
    outcome (Z * KDynamicResourceManager * memory) :=
  '(p, h, pm, m) ← KDynamicSlabHeap.Allocate clear_node (m_slab_heap r) (m_page_allocator r) m;
  mret (p, mkManager pm h, m).

Definition Free (t : Z) (r : KDynamicResourceManager) (m : memory) :
    outcome (KDynamicResourceManager * memory) :=
  '(h, m) ← KDynamicSlabHeap.Free t (m_slab_heap r) m;
  mret (mkManager (m_page_allocator r) h, m).

End KDynamicResourceManager.
End KDynamicResourceManager.

(** ** The page table heap *)

Module KPageTableSlabHeap.

(** The slab of page table pages, and a 16-bit reference count for each of its pages. *)
Record KPageTableSlabHeap := mkTables {
  base_heap : KDynamicSlabHeap.KDynamicSlabHeap;
  m_ref_counts : list Z
}.

Definition CalculateReferenceCountSize (size : Z) : Z := u64 (size / PageSize * 2).

Definition Initialize_counts (h : KDynamicSlabHeap.KDynamicSlabHeap) : KPageTableSlabHeap :=
  mkTables h (replicate (Z.to_nat (KDynamicSlabHeap.GetSize h / PageSize)) 0).

Definition ref_index (t : KPageTableSlabHeap) (addr : Z) : Z :=
  u64 (addr - KDynamicSlabHeap.GetAddress (base_heap t)) / PageSize.

Definition GetRefCount (t : KPageTableSlabHeap) (addr : Z) : outcome Z :=
  ASSERT (KDynamicSlabHeap.IsInRange (base_heap t) addr);;
  arr_get (m_ref_counts t) (ref_index t addr).

(** [*GetRefCountPointer(addr) += count], in 16 bits. *)
Definition add_count (t : KPageTableSlabHeap) (addr count : Z) : outcome KPageTableSlabHeap :=
  c ← arr_get (m_ref_counts t) (ref_index t addr);
  counts ← arr_set (m_ref_counts t) (ref_index t addr) (u16 (c + count));
  mret (mkTables (base_heap t) counts).

Definition Open (t : KPageTableSlabHeap) (addr count : Z) : outcome KPageTableSlabHeap :=
  ASSERT (KDynamicSlabHeap.IsInRange (base_heap t) addr);;
  t ← add_count t addr (u16 count);
  c ← GetRefCount t addr;
  ASSERT (0 <? c);;
  mret t.

(** The comparison of the count with an [int] is in [int]. *)
Definition Close (t : KPageTableSlabHeap) (addr count : Z) : outcome (bool * KPageTableSlabHeap) :=
  ASSERT (KDynamicSlabHeap.IsInRange (base_heap t) addr);;
  c ← GetRefCount t addr;
  ASSERT (count <=? c);;
  t ← add_count t addr (- u16 count);
  c ← GetRefCount t addr;
  mret (c =? 0, t).

Definition IsInPageTableHeap (t : KPageTableSlabHeap) (addr : Z) : bool :=
  KDynamicSlabHeap.IsInRange (base_heap t) addr.

End KPageTableSlabHeap.

(** ** Memory and free lists *)

Lemma load_store_eq m a v : load (store a v m) a = v.
Proof. unfold load, store. by rewrite lookup_insert_eq. Qed.

Lemma load_store_ne m a v x : x <> a -> load (store a v m) x = load m x.
Proof. intros H. unfold load, store. by rewrite lookup_insert_ne. Qed.

Lemma load_zero_page p m x :
  load (zero_page p m) x = if in_range p PageSize x then 0 else load m x.
Proof.
  unfold load, zero_page, in_range. destruct (Z.leb_spec p x), (Z.ltb_spec x (p + PageSize)); cbn [andb].
  1: by rewrite map_lookup_filter_None_2 by (right; intros y _ Hy; lia).
  all: f_equal; destruct (m !! x) as [v|] eqn:E;
    [apply map_lookup_filter_Some_2; [done|lia]|apply map_lookup_filter_None_2; by left].
Qed.

(** The nodes of a free list, from its head on. *)
Fixpoint chain (m : memory) (head : Z) (l : list Z) : Prop :=
  match l with
  | [] => head = 0
  | a :: l' => head = a /\ a <> 0 /\ chain m (load m a) l'
  end.

Lemma chain_frame m m' l : forall head,
  chain m head l -> (forall a, a ∈ l -> load m' a = load m a) -> chain m' head l.
Proof.
  induction l as [|a l IH]; intros head; [done|]. intros (-> & Ha & Hc) Hf. split; [done|]. split; [done|].
  rewrite Hf by left. apply IH; [done|]. intros b Hb. apply Hf. by right.
Qed.

Lemma chain_push m head l a :
  chain m head l -> a <> 0 -> a ∉ l -> chain (store a head m) a (a :: l).
Proof.
  intros Hc Ha Hn. split; [done|]. split; [done|]. rewrite load_store_eq.
  eapply chain_frame; [exact Hc|]. intros b Hb. apply load_store_ne. by intros ->.
Qed.

Lemma impl_Allocate_nil m head : chain m head [] -> KSlabHeapImpl.Allocate m head = (0, 0).
Proof. by intros ->. Qed.

Lemma impl_Allocate_cons m head a l :
  chain m head (a :: l) -> KSlabHeapImpl.Allocate m head = (a, load m a) /\ chain m (load m a) l.
Proof.
  intros (-> & Ha & Hc). split; [|done]. unfold KSlabHeapImpl.Allocate.
  by rewrite (proj2 (Z.eqb_neq a 0)).
Qed.

Lemma impl_Free_ok a m head l :
  chain m head l -> a <> 0 -> a ∉ l ->
  KSlabHeapImpl.Free a m head = mret (store a head m, a) /\ chain (store a head m) a (a :: l).
Proof.
  intros Hc Ha Hn. split; [|by apply chain_push]. unfold KSlabHeapImpl.Free.
  by rewrite (proj2 (Z.eqb_neq a 0)).
Qed.

(** ** Objects *)

Section Objects.
Context {T : SlabObject}.
Notation per_page := KDynamicSlabHeap.per_page.

(** The objects number [i] to [i + n - 1] of the page at [p]. *)
Definition objects_from (p i : Z) (n : nat) : list Z :=
  map (fun k => p + (i + Z.of_nat k) * sizeof) (seq 0 n).

Definition page_objects (p : Z) : list Z := objects_from p 0 (Z.to_nat per_page).
Definition objects (ps : list Z) : list Z := concat (map page_objects ps).

Lemma per_page_bounds : 1 <= per_page <= 512 /\ per_page * sizeof <= PageSize.
Proof.
  pose proof sizeof_bounds as Hs. unfold KDynamicSlabHeap.per_page. unfold PageSize in *.
  assert (Hp : 0 < sizeof) by lia. pose proof (Z.mul_div_le 4096 sizeof Hp).
  assert (1 <= 4096 / sizeof) by (apply Z.div_le_lower_bound; lia).
  assert (4096 / sizeof <= 512) by (apply Z.div_le_upper_bound; lia). lia.
Qed.

Lemma objects_from_S p i n :
  objects_from p i (S n) = (p + i * sizeof) :: objects_from p (i + 1) n.
Proof.
  unfold objects_from. cbn [seq map]. f_equal; [f_equal; f_equal; lia|].
  rewrite <- seq_shift, map_map. apply map_ext. intros k. f_equal. f_equal. lia.
Qed.

Lemma elem_of_objects_from p i n a :
  a ∈ objects_from p i n <-> exists k, i <= k < i + Z.of_nat n /\ a = p + k * sizeof.
Proof.
  unfold objects_from. rewrite list_elem_of_fmap. setoid_rewrite elem_of_seq. split.
  - intros (k & -> & Hk). exists (i + Z.of_nat k). split; [lia|done].
  - intros (k & Hk & ->). exists (Z.to_nat (k - i)). split; [f_equal; f_equal; lia|lia].
Qed.

Lemma objects_from_NoDup p i n : NoDup (objects_from p i n).
Proof.
  pose proof sizeof_bounds. unfold objects_from. apply NoDup_fmap_2_strong; [|apply NoDup_seq].
  intros x y _ _ Hxy. nia.
Qed.

Lemma elem_of_page_objects p a :
  a ∈ page_objects p <-> exists k, 0 <= k < per_page /\ a = p + k * sizeof.
Proof.
  unfold page_objects. rewrite elem_of_objects_from. pose proof per_page_bounds.
  by rewrite Z2Nat.id by lia.
Qed.

Lemma page_objects_inside p a : a ∈ page_objects p -> p <= a /\ a + sizeof <= p + PageSize.
Proof.
  intros (k & Hk & ->)%elem_of_page_objects. pose proof sizeof_bounds. pose proof per_page_bounds. nia.
Qed.

(** Two objects of a page, or of pages that do not overlap, do not overlap. *)
Lemma page_objects_apart p a b :
  a ∈ page_objects p -> b ∈ page_objects p -> a <> b -> a + sizeof <= b \/ b + sizeof <= a.
Proof.
  intros (k & Hk & ->)%elem_of_page_objects (j & Hj & ->)%elem_of_page_objects Hn.
  pose proof sizeof_bounds. destruct (Z.lt_trichotomy k j) as [|[->|]]; [left; nia|done|right; nia].
Qed.

(** Pages of one area, which begins at [host]. *)
Definition area_page (host p : Z) : Prop :=
  exists k, 0 <= k /\ p = host + k * PageSize /\ p + PageSize <= 2 ^ 64.

Lemma area_pages_apart host p q :
  area_page host p -> area_page host q -> p <> q -> p + PageSize <= q \/ q + PageSize <= p.
Proof. intros (k & Hk & -> & _) (j & Hj & -> & _) Hn. unfold PageSize in *. lia. Qed.

Lemma elem_of_objects ps a : a ∈ objects ps <-> exists p, p ∈ ps /\ a ∈ page_objects p.
Proof.
  unfold objects. induction ps as [|q ps IH]; cbn [map concat].
  - split; [by intros ?%elem_of_nil|]. by intros (p & ?%elem_of_nil & _).
  - rewrite elem_of_app, IH. setoid_rewrite elem_of_cons. naive_solver.
Qed.

(** At most [n] pages have numbers below [n]. *)
Lemma pages_pigeonhole host ps n :
  NoDup ps -> 0 <= n -> (forall p, p ∈ ps -> exists k, 0 <= k < n /\ p = host + k * PageSize) ->
  Z.of_nat (length ps) <= n.
Proof.
  intros Hnd Hn Hps. set (all := map (fun k => host + Z.of_nat k * PageSize) (seq 0 (Z.to_nat n))).
  assert (Hsub : ps ⊆+ all).
  { apply NoDup_submseteq; [done|]. intros p Hp. destruct (Hps p Hp) as (k & Hk & ->).
    apply list_elem_of_fmap. exists (Z.to_nat k). rewrite elem_of_seq, Z2Nat.id by lia. split; [done|lia]. }
  apply submseteq_length in Hsub. unfold all in Hsub. rewrite length_map, length_seq in Hsub. lia.
Qed.

Section Area.
Context (host : Z) (ps : list Z).
Context (Hhost : 0 < host) (Hpages : Forall (area_page host) ps) (Hnd : NoDup ps).

Lemma area_length : Z.of_nat (length ps) <= 2 ^ 52.
Proof.
  apply (pages_pigeonhole host); [done|lia|]. intros p Hp. rewrite list.Forall_forall in Hpages.
  destruct (Hpages p Hp) as (k & Hk & -> & Hm). exists k. split; [|done]. unfold PageSize in *. lia.
Qed.

Lemma objects_range a : a ∈ objects ps -> 0 < a /\ a + sizeof <= 2 ^ 64.
Proof.
  intros (p & Hp & Ha)%elem_of_objects. rewrite list.Forall_forall in Hpages.
  destruct (Hpages p Hp) as (k & Hk & Ep & Hm). apply page_objects_inside in Ha. unfold PageSize in *. lia.
Qed.

Lemma objects_apart a b :
  a ∈ objects ps -> b ∈ objects ps -> a <> b -> a + sizeof <= b \/ b + sizeof <= a.
Proof.
  rewrite list.Forall_forall in Hpages. intros (p & Hp & Ha)%elem_of_objects (q & Hq & Hb)%elem_of_objects Hn.
  destruct (decide (p = q)) as [->|Hpq]; [by apply (page_objects_apart q)|].
  apply page_objects_inside in Ha, Hb.
  destruct (area_pages_apart host p q (Hpages p Hp) (Hpages q Hq) Hpq); lia.
Qed.

Lemma objects_length : Z.of_nat (length (objects ps)) = per_page * Z.of_nat (length ps).
Proof.
  clear. unfold objects. pose proof per_page_bounds. induction ps as [|p l IH]; [simpl; lia|].
  cbn [map concat length]. rewrite length_app. unfold page_objects at 1, objects_from.
  rewrite length_map, length_seq. lia.
Qed.
End Area.

Lemma objects_NoDup host ps : Forall (area_page host) ps -> NoDup ps -> NoDup (objects ps).
Proof.
  induction ps as [|p ps IH]; intros Hf Hnd; [constructor|]. apply Forall_cons_1 in Hf as [Hp Hf].
  apply list.NoDup_cons in Hnd as [Hn Hnd]. unfold objects. cbn [map concat]. apply list.NoDup_app.
  split_and!; [apply objects_from_NoDup| |by apply IH].
  intros a Ha (q & Hq & Hb)%elem_of_objects. assert (p <> q) by (by intros ->).
  rewrite list.Forall_forall in Hf. apply page_objects_inside in Ha, Hb.
  pose proof sizeof_bounds. destruct (area_pages_apart host p q Hp (Hf q Hq)); [done|lia..].
Qed.
End Objects.

(** ** The pages of the page manager *)

Section Pages.
Import KDynamicPageManager.
Context {S : Type} {ES : EntropySource S}.
Notation pages := (KDynamicPageManager S).
Implicit Types pm : pages.

Lemma set_count (b b' : KPageBitmap (S := S)) off :
  bitmap_wf b -> 0 <= off < capacity b -> is_free b off = false ->
  becomes b b' (fun i => if i =? off then true else is_free b i) -> GetNumBits b' = GetNumBits b + 1.
Proof.
  intros W Ho Hf [W' Hc Hb]. unfold GetNumBits. rewrite (wf_count b W), (wf_count b' W'), Hc.
  apply (count_true_flip _ _ _ off); [lia|done|]. intros i Hi. apply Hb. lia.
Qed.

Lemma clear_count1 (b b' : KPageBitmap (S := S)) off :
  bitmap_wf b -> 0 <= off < capacity b -> is_free b off = true ->
  becomes b b' (fun i => if i =? off then false else is_free b i) -> GetNumBits b = GetNumBits b' + 1.
Proof.
  intros W Ho Hf [W' Hc Hb]. unfold GetNumBits. rewrite (wf_count b W), (wf_count b' W'), Hc.
  apply (count_true_flip _ _ _ off); [lia|by rewrite Hb, Z.eqb_refl by lia|].
  intros i Hi. rewrite Hb by lia. by destruct (Z.eqb_spec i off) as [->|].
Qed.

(** The number of the first managed page in the bitmap. *)
Definition first_page pm : Z := (m_address pm - m_aligned_address pm) / PageSize.
Definition page_ptr pm (k : Z) : Z := m_backing pm + k * PageSize.
Definition page_free pm (k : Z) : bool := is_free (m_page_bitmap pm) (first_page pm + k).
Definition free_pages pm : Z := m_count pm - m_used pm.

(** A page that has been handed out. *)
Definition page_taken pm (p : Z) : Prop :=
  exists k, 0 <= k < m_count pm /\ p = page_ptr pm k /\ page_free pm k = false.

Record pages_wf pm : Prop := {
  pw_bitmap : bitmap_wf (m_page_bitmap pm);
  pw_backing : 0 < m_backing pm /\ m_backing pm + m_backing_size pm <= 2 ^ 64;
  pw_address : 0 <= m_aligned_address pm <= m_address pm /\ m_address pm + m_backing_size pm <= 2 ^ 64;
  pw_first : m_address pm = m_aligned_address pm + first_page pm * PageSize;
  pw_count : 0 <= m_count pm /\ m_count pm * PageSize <= m_backing_size pm /\
    first_page pm + m_count pm <= capacity (m_page_bitmap pm);
  pw_slots : forall i, 0 <= i -> is_free (m_page_bitmap pm) i = true ->
    first_page pm <= i < first_page pm + m_count pm;
  pw_used : 0 <= m_used pm <= m_peak pm /\ m_peak pm <= m_count pm /\
    m_used pm + GetNumBits (m_page_bitmap pm) = m_count pm
}.

(** The area stays where it is. *)
Definition same_area pm pm' : Prop :=
  m_count pm' = m_count pm /\ m_address pm' = m_address pm /\
  m_aligned_address pm' = m_aligned_address pm /\ m_size pm' = m_size pm /\
  m_backing pm' = m_backing pm /\ m_backing_size pm' = m_backing_size pm.

Lemma with_bitmap_area b u p pm : same_area pm (with_bitmap b u p pm).
Proof. done. Qed.

Lemma first_page_nonneg pm : pages_wf pm -> 0 <= first_page pm.
Proof. intros W. destruct (pw_address pm W). apply Z.div_pos; unfold PageSize; lia. Qed.

Lemma area_page_ptr pm k : pages_wf pm -> 0 <= k < m_count pm -> area_page (m_backing pm) (page_ptr pm k).
Proof.
  intros W Hk. destruct (pw_backing pm W), (pw_count pm W) as (_ & ? & _).
  exists k. unfold page_ptr, PageSize in *. split_and!; lia.
Qed.

Lemma page_taken_area pm p : pages_wf pm -> page_taken pm p -> area_page (m_backing pm) p.
Proof. intros W (k & Hk & -> & _). by apply area_page_ptr. Qed.

Lemma page_ptr_inj pm j k : page_ptr pm j = page_ptr pm k -> j = k.
Proof. unfold page_ptr, PageSize. lia. Qed.

Lemma pointer_of_page pm k :
  pages_wf pm -> 0 <= k < m_count pm ->
  u64 (GetPointer pm (m_aligned_address pm) + (first_page pm + k) * PageSize) = page_ptr pm k.
Proof.
  intros W Hk. destruct (pw_backing pm W), (pw_address pm W), (pw_count pm W) as (_ & ? & _).
  pose proof (pw_first pm W) as Hf. unfold GetPointer, page_ptr, u64 in *.
  rewrite wrapu_add_r, wrapu_add_l. rewrite wrapu_small; [lia|]. unfold in_u, PageSize in *. lia.
Qed.

Lemma with_bitmap_wf pm b' f u p :
  pages_wf pm -> becomes (m_page_bitmap pm) b' f ->
  (forall i, 0 <= i -> f i = true -> first_page pm <= i < first_page pm + m_count pm) ->
  0 <= u <= p -> p <= m_count pm -> u + GetNumBits b' = m_count pm -> pages_wf (with_bitmap b' u p pm).
Proof.
  intros [] [W' Hc Hf] Hs Hu Hp Hn. split; try done.
  - change (0 <= m_count pm /\ m_count pm * PageSize <= m_backing_size pm /\
      first_page pm + m_count pm <= capacity b'). by rewrite Hc.
  - intros i Hi. cbn [m_page_bitmap with_bitmap]. rewrite Hf by done. by apply Hs.
Qed.

(** The pages taken after page [k] has been. *)
Lemma page_taken_clear pm b' u p k :
  pages_wf pm -> 0 <= k < m_count pm ->
  (forall i, 0 <= i -> is_free b' i = if i =? first_page pm + k then false else is_free (m_page_bitmap pm) i) ->
  forall q, page_taken (with_bitmap b' u p pm) q <-> page_taken pm q \/ q = page_ptr pm k.
Proof.
  intros W Hk Hf q. pose proof (first_page_nonneg pm W) as Hf0.
  assert (Hpf : forall j, 0 <= j -> page_free (with_bitmap b' u p pm) j =
    if j =? k then false else page_free pm j).
  { intros j Hj. unfold page_free. change (first_page (with_bitmap b' u p pm)) with (first_page pm).
    cbn [m_page_bitmap with_bitmap]. rewrite Hf by lia.
    destruct (Z.eqb_spec j k), (Z.eqb_spec (first_page pm + j) (first_page pm + k)); done || lia. }
  unfold page_taken. cbn [m_count with_bitmap]. split.
  - intros (j & Hj & -> & Hfj). rewrite Hpf in Hfj by lia.
    destruct (Z.eqb_spec j k) as [->|]; [by right|left; eauto].
  - intros [(j & Hj & -> & Hfj)| ->].
    + exists j. rewrite Hpf by lia. by destruct (j =? k).
    + exists k. rewrite Hpf, Z.eqb_refl by lia. done.
Qed.

(** What an allocation of one page does. *)
Definition allocated_page pm (p : Z) pm' : Prop :=
  exists k, 0 <= k < m_count pm /\ p = page_ptr pm k /\ page_free pm k = true /\
    free_pages pm' = free_pages pm - 1 /\ forall q, page_taken pm' q <-> page_taken pm q \/ q = p.

Definition no_page_left pm pm' : Prop :=
  free_pages pm = 0 /\ free_pages pm' = 0 /\ forall q, page_taken pm' q <-> page_taken pm q.

Lemma pages_Allocate_ok pm :
  pages_wf pm ->
  exists p pm', Allocate pm = Done true (p, pm') /\ pages_wf pm' /\ same_area pm pm' /\
    (p = 0 /\ no_page_left pm pm' \/ allocated_page pm p pm').
Proof.
  intros W. destruct (pw_used pm W) as (Hu & Hp & Hn). pose proof (first_page_nonneg pm W) as Hf0.
  pose proof (capacity_bound _ (pw_bitmap pm W)) as Hcap. destruct (pw_count pm W) as (Hc0 & Hcs & Hcc).
  destruct (FindFreeBlock_spec (m_page_bitmap pm) true (pw_bitmap pm W)) as (r & g & E & Hg & Hr).
  unfold Allocate. rewrite E. ostep. set (b := mkBitmap _ g _ _) in *.
  assert (Wb : bitmap_wf b) by (destruct (pw_bitmap pm W); by split).
  destruct Hr as [[-> Hnone]|(Hr & Hfree & _)].
  - exists 0, (with_bitmap b (m_used pm) (m_peak pm) pm). split; [done|]. split; [by destruct W; split|].
    split; [done|]. left. split; [done|].
    assert (GetNumBits (m_page_bitmap pm) = 0) by (apply (KPageBitmap_num_zero _ (pw_bitmap pm W)); done).
    unfold no_page_left, free_pages. cbn [m_count m_used with_bitmap]. split_and!; [lia|lia|done].
  - rewrite (proj2 (Z.ltb_ge r 0)) by lia. pose proof (pw_slots pm W r ltac:(lia) Hfree) as Hs.
    destruct (ClearBit_spec b r Wb Hr Hfree) as (b' & Ec & Hb'). rewrite Ec. ostep.
    pose proof (clear_count1 b b' r Wb Hr Hfree Hb') as Hcount.
    change (GetNumBits b) with (GetNumBits (m_page_bitmap pm)) in Hcount.
    pose proof (num_bits_bound b' (bc_wf _ _ _ Hb')) as Hnb. unfold GetNumBits in *.
    rewrite (u64_small (m_used pm + 1)) by lia.
    assert (Hb2 : becomes (m_page_bitmap pm) b' (fun i => if i =? r then false else is_free (m_page_bitmap pm) i))
      by (destruct Hb'; by split).
    assert (Hk : 0 <= r - first_page pm < m_count pm) by lia.
    assert (Er : r = first_page pm + (r - first_page pm)) by lia.
    assert (W2 : pages_wf (with_bitmap b' (m_used pm + 1) (Z.max (m_peak pm) (m_used pm + 1)) pm)).
    { eapply (with_bitmap_wf pm); [done|exact Hb2| |unfold GetNumBits; lia..].
      intros i Hi. cbv beta. destruct (i =? r); [done|]. by apply (pw_slots pm W). }
    eexists (page_ptr pm (r - first_page pm)), _. split; [|split; [exact W2|split; [done|right]]].
    + pose proof (pointer_of_page _ _ W2 Hk) as Hptr.
      change (first_page (with_bitmap _ _ _ pm)) with (first_page pm) in Hptr. rewrite <- Er in Hptr.
      by rewrite Hptr.
    + exists (r - first_page pm). split_and!; [lia|lia|done|unfold page_free; by rewrite <- Er| |].
      * unfold free_pages. cbn [m_count m_used with_bitmap]. lia.
      * apply page_taken_clear; [done|done|]. rewrite <- Er. apply (bc_free _ _ _ Hb2).
Qed.
End Pages.

(** ** The state of a growing slab *)

Section Slab.
Import KDynamicSlabHeap.
Context {S : Type} {ES : EntropySource S} {T : SlabObject}.
Notation pages := (KDynamicPageManager.KDynamicPageManager S).
Implicit Types (h : KDynamicSlabHeap) (pm : pages) (m : memory).

Lemma free_objects_ok n : forall p i m head l,
  0 < p -> p + PageSize <= 2 ^ 64 -> 0 <= i -> i + Z.of_nat n <= per_page -> chain m head l ->
  (forall a, a ∈ objects_from p i n -> a ∉ l) ->
  exists m' head', free_objects n i p m head = mret (m', head') /\
    chain m' head' (rev (objects_from p i n) ++ l) /\
    forall x, x ∉ objects_from p i n -> load m' x = load m x.
Proof.
  pose proof sizeof_bounds as Hs. pose proof per_page_bounds as [Hpp Hps].
  induction n as [|n IH]; intros p i m head l Hp Hp2 Hi Hn Hc Hd.
  { exists m, head. done. }
  rewrite objects_from_S in *. cbn [free_objects].
  rewrite u64_small by (unfold PageSize in *; nia).
  destruct (impl_Free_ok (p + i * sizeof) m head l Hc) as [E Hc']; [nia|apply Hd; left|]. rewrite E. ostep.
  destruct (IH p (i + 1) _ _ _ Hp Hp2 ltac:(lia) ltac:(lia) Hc') as (m' & head' & E' & Hc2 & Hf).
  { intros a Ha. rewrite not_elem_of_cons. split; [|apply Hd; by right].
    intros ->. apply elem_of_objects_from in Ha as (k & Hk & Ek). nia. }
  exists m', head'. split; [done|]. split; [cbn [rev]; by rewrite <- app_assoc|].
  intros x Hx. rewrite not_elem_of_cons in Hx. destruct Hx as [Hx1 Hx2].
  rewrite Hf by done. by rewrite load_store_ne.
Qed.

(** When a slab can grow, its pages are taken from the page manager. *)
Definition taken_from (host : Z) (pa : option pages) (ps : list Z) : Prop :=
  match pa with
  | None => True
  | Some pm => pages_wf pm /\ host = KDynamicPageManager.m_backing pm /\ Forall (page_taken pm) ps
  end.

(** The slab [h] owns the pages [ps]; of their objects those of [used] are handed out and the
    others are in the free list. *)
Record slab_state h (pa : option pages) m (ps used : list Z) : Prop := {
  ss_area : exists host, 0 < host /\ Forall (area_page host) ps /\ taken_from host pa ps;
  ss_pages : NoDup ps;
  ss_free : exists free, chain m (m_head h) free /\ free ++ used ≡ₚ objects ps;
  ss_used : m_used h = Z.of_nat (length used);
  ss_count : m_count h = per_page * Z.of_nat (length ps);
  ss_peak : m_used h <= m_peak h <= m_count h
}.

(** How many objects can still be allocated. *)
Definition available h (pa : option pages) : Z :=
  m_count h - m_used h + match pa with None => 0 | Some pm => per_page * free_pages pm end.

Lemma available_nonneg h pa m ps used : slab_state h pa m ps used -> 0 <= available h pa.
Proof.
  intros W. pose proof (ss_peak _ _ _ _ _ W). unfold available. destruct pa as [pm|]; [|lia].
  destruct (ss_area _ _ _ _ _ W) as (host & _ & _ & Wp & _). destruct (pw_used pm Wp).
  pose proof per_page_bounds. unfold free_pages. nia.
Qed.

(** The length of the free list is the number of objects that are not in use. *)
Lemma free_length h pa m ps used free :
  slab_state h pa m ps used -> free ++ used ≡ₚ objects ps ->
  Z.of_nat (length free) = m_count h - m_used h.
Proof.
  intros W Hp. apply Permutation_length in Hp. rewrite length_app in Hp.
  pose proof (objects_length ps) as Ho. rewrite (ss_count _ _ _ _ _ W), (ss_used _ _ _ _ _ W). lia.
Qed.

(** The end of an allocation: object [a], which is neither free nor in use, is put into use. *)
Lemma finish_ok h pa m ps used a l host :
  0 < host -> Forall (area_page host) ps -> taken_from host pa ps -> NoDup ps ->
  chain m (m_head h) l -> l ++ a :: used ≡ₚ objects ps ->
  m_used h = Z.of_nat (length used) -> m_count h = per_page * Z.of_nat (length ps) ->
  m_used h <= m_peak h <= m_count h ->
  exists h' m', finish a h m = (h', m') /\ slab_state h' pa m' ps (a :: used) /\
    m_count h' = m_count h /\ m_used h' = m_used h + 1 /\
    forall x, ~ (a <= x < a + sizeof) -> load m' x = load m x.
Proof.
  intros Hh Ha Hl Hnd Hc Hp Hu Hn Hk. pose proof (area_length host ps Hh Ha Hnd) as Hlen.
  pose proof per_page_bounds as [Hpp _]. pose proof (objects_length ps) as Hol.
  pose proof (Permutation_length Hp) as Hpl. rewrite length_app in Hpl. cbn [length] in Hpl.
  assert (Hao : a ∈ objects ps) by (rewrite <- Hp; apply elem_of_app; right; left).
  destruct (objects_range host ps Hh Ha a Hao) as [Ha0 _].
  assert (Hnd2 : NoDup (l ++ a :: used)) by (rewrite Hp; by apply (objects_NoDup host)).
  unfold finish. rewrite (proj2 (Z.eqb_neq a 0)) by lia. cbn [negb].
  assert (per_page * Z.of_nat (length ps) <= 512 * 2 ^ 52) by (apply Z.mul_le_mono_nonneg; lia).
  rewrite u64_small by lia. eexists _, _. split; [reflexivity|]. cbn [m_count m_used].
  split; [|split; [done|split; [done|apply construct_elsewhere]]]. split; cbn [m_head m_used m_peak m_count].
  - exists host. done.
  - done.
  - exists l. split; [|done]. eapply chain_frame; [exact Hc|]. intros b Hb. apply construct_elsewhere.
    pose proof sizeof_bounds. apply list.NoDup_app in Hnd2 as (_ & Hd & _).
    assert (b <> a) by (intros ->; apply (Hd a Hb); left).
    assert (Hbo : b ∈ objects ps) by (rewrite <- Hp; apply elem_of_app; by left).
    destruct (objects_apart host ps Ha a b); [done..|lia|lia].
  - cbn [length]. lia.
  - done.
  - destruct (Z.ltb_spec (m_peak h) (m_used h + 1)); nia.
Qed.

(** The memory of the pages that the manager has not handed out. *)
Definition in_free_page (pa : option pages) (x : Z) : Prop :=
  match pa with
  | None => False
  | Some pm => exists k, 0 <= k < KDynamicPageManager.m_count pm /\ page_free pm k = true /\
      page_ptr pm k <= x < page_ptr pm k + PageSize
  end.

(** How the pages of a slab may change: not at all, or by one page that was free. *)
Inductive grows : option pages -> list Z -> option pages -> list Z -> Prop :=
| grows_same pa ps : grows pa ps pa ps
| grows_page pm pm' k ps : allocated_page pm (page_ptr pm k) pm' -> page_free pm k = true ->
    0 <= k < KDynamicPageManager.m_count pm -> pages_wf pm' -> same_area pm pm' ->
    grows (Some pm) ps (Some pm') (page_ptr pm k :: ps).

(** What a successful allocation of object [p] gives. *)
Record allocated (p : Z) h pa m ps used h' pa' m' ps' : Prop := {
  al_state : slab_state h' pa' m' ps' (p :: used);
  al_available : available h' pa' = available h pa - 1;
  al_grows : grows pa ps pa' ps';
  al_frame : forall x, ~ (p <= x < p + sizeof) -> ~ in_free_page pa x -> load m' x = load m x
}.

Lemma slab_pop clear h pa m ps used a l :
  slab_state h pa m ps used -> chain m (m_head h) (a :: l) -> (a :: l) ++ used ≡ₚ objects ps ->
  exists h' m', Allocate clear h pa m = Done true (a, h', pa, m') /\
    allocated a h pa m ps used h' pa m' ps.
Proof.
  intros W Hc Hp. destruct (ss_area _ _ _ _ _ W) as (host & Hh & Ha & Hl).
  pose proof (impl_Allocate_cons m (m_head h) a l Hc) as [E Hc'].
  assert (Ha0 : a <> 0) by apply Hc. unfold Allocate. rewrite E, (proj2 (Z.eqb_neq a 0)) by done.
  rewrite andb_true_r. ostep.
  set (h1 := with_list (load m a) (m_count h) h). set (m1 := if clear then store a 0 m else m).
  assert (Hm1 : forall x, x <> a -> load m1 x = load m x).
  { intros x Hx. unfold m1. destruct clear; [by apply load_store_ne|done]. }
  assert (Hnd : NoDup ((a :: l) ++ used)) by (rewrite Hp; apply (objects_NoDup host); by destruct W).
  destruct (finish_ok h1 pa m1 ps used a l host) as (h' & m' & Ef & W' & Hcn & Hun & Hfr); try done;
    try (by destruct W).
  - eapply chain_frame; [exact Hc'|]. intros b Hb. apply Hm1. intros ->.
    cbn [app] in Hnd. apply list.NoDup_cons in Hnd as [Hn _]. apply Hn, elem_of_app. by left.
  - rewrite <- Hp. by rewrite <- Permutation_middle.
  - exists h', m'. change (with_list (load m a) (m_count h) h) with h1. cbn [negb]. fold m1.
    rewrite Ef. split; [done|]. split; [done| |constructor|].
    + unfold available. rewrite Hcn, Hun. cbn. lia.
    + intros x Hx _. rewrite Hfr by done. apply Hm1. pose proof sizeof_bounds. lia.
Qed.

(** The objects of a free page, from number [i] on, are put into the free list. *)
Lemma free_page_objects h pm m ps used free k n i :
  slab_state h (Some pm) m ps used -> chain m (m_head h) free -> free ++ used ≡ₚ objects ps ->
  0 <= k < KDynamicPageManager.m_count pm -> page_free pm k = true ->
  0 <= i -> i + Z.of_nat n <= per_page ->
  page_ptr pm k <> 0 /\ page_ptr pm k ∉ ps /\
  exists m' head', free_objects n i (page_ptr pm k) m (m_head h) = mret (m', head') /\
    chain m' head' (rev (objects_from (page_ptr pm k) i n) ++ free) /\
    forall x, ~ in_free_page (Some pm) x -> load m' x = load m x.
Proof.
  intros W Hc Hp Hk Hkf Hi Hn. destruct (ss_area _ _ _ _ _ W) as (host & Hh & Ha & Wp & -> & Ht).
  pose proof (area_page_ptr pm k Wp Hk) as Hap. pose proof Hap as (j & Hj & Ej & Hje).
  assert (Hp0 : 0 < page_ptr pm k) by (unfold page_ptr, PageSize in *; lia).
  assert (Hnew : page_ptr pm k ∉ ps).
  { intros Hin. rewrite list.Forall_forall in Ht. destruct (Ht _ Hin) as (j' & _ & Ei & Hif).
    apply page_ptr_inj in Ei. congruence. }
  split; [lia|]. split; [done|].
  assert (Hin : forall a, a ∈ objects_from (page_ptr pm k) i n ->
    page_ptr pm k <= a /\ a + sizeof <= page_ptr pm k + PageSize).
  { intros a (l & Hl & ->)%elem_of_objects_from. apply page_objects_inside, elem_of_page_objects.
    exists l. split; [lia|done]. }
  pose proof sizeof_bounds as Hs.
  destruct (free_objects_ok n (page_ptr pm k) i m (m_head h) free) as (m' & head' & E & Hc' & Hf);
    [done|done|done|done|done| |].
  - intros a Hao%Hin Haf. assert (Ho : a ∈ objects ps) by (rewrite <- Hp; apply elem_of_app; by left).
    apply elem_of_objects in Ho as (q & Hq & Haq%page_objects_inside).
    rewrite list.Forall_forall in Ha. assert (page_ptr pm k <> q) by (intros E; apply Hnew; by rewrite E).
    destruct (area_pages_apart _ (page_ptr pm k) q Hap (Ha q Hq)); [done|lia..].
  - exists m', head'. split; [done|]. split; [done|]. intros x Hx. apply Hf. intros Hxo%Hin.
    apply Hx. exists k. split_and!; done || lia.
Qed.

Lemma refill_ok h pm m ps used :
  slab_state h (Some pm) m ps used -> chain m (m_head h) [] -> used ≡ₚ objects ps ->
  exists p h' pm' m' l, refill h pm m = Done true (p, h', pm', m') /\
    (free_pages pm = 0 /\ p = 0 /\ m' = m /\ h' = h /\ no_page_left pm pm' /\ pages_wf pm' /\ same_area pm pm' \/
     chain m' (m_head h') l /\ l ++ p :: used ≡ₚ objects (p :: ps) /\ m_count h' = m_count h + per_page /\
     m_used h' = m_used h /\ m_peak h' = m_peak h /\ p ∉ ps /\ allocated_page pm p pm' /\
     grows (Some pm) ps (Some pm') (p :: ps) /\
     forall x, ~ in_free_page (Some pm) x -> load m' x = load m x).
Proof.
  intros W Hc Hp. destruct (ss_area _ _ _ _ _ W) as (host & Hh & Ha & Wp & -> & Ht).
  pose proof per_page_bounds as [Hpp _]. pose proof (area_length _ ps Hh Ha (ss_pages _ _ _ _ _ W)) as Hlen.
  destruct (pages_Allocate_ok pm Wp) as (p & pm' & E & Wp' & Hs & [[-> Hno]|Hal]); unfold refill; rewrite E; ostep.
  { exists 0, h, pm', m, []. split; [done|]. left. destruct Hno. by split_and!. }
  pose proof Hal as (k & Hk & -> & Hkf & Hfr & Htk).
  destruct (free_page_objects h pm m ps used [] k (Z.to_nat (per_page - 1)) 1)
    as (Hp0 & Hnew & m' & head' & E' & Hc' & Hf); [done|done|done|done|done|lia|lia|].
  rewrite (proj2 (Z.eqb_neq (page_ptr pm k) 0)) by done. cbn [negb].
  rewrite E'. ostep. rewrite (ss_count _ _ _ _ _ W).
  assert (per_page * Z.of_nat (length ps) <= 512 * 2 ^ 52) by (apply Z.mul_le_mono_nonneg; lia).
  rewrite u64_small by lia. eexists _, _, _, _, _. split; [reflexivity|]. right.
  cbn [m_head m_count m_used m_peak with_list]. split; [exact Hc'|].
  split; [|split_and!; [done..| |]].
  - rewrite app_nil_r, <- Permutation_rev, <- Permutation_middle, Hp. unfold objects. cbn [map concat].
    unfold page_objects at 2. replace (Z.to_nat per_page) with (Datatypes.S (Z.to_nat (per_page - 1))) by lia.
    rewrite objects_from_S. cbn [app]. by rewrite Z.mul_0_l, Z.add_0_r.
  - by apply grows_page.
  - exact Hf.
Qed.

(** Pages stay taken. *)
Definition keeps_pages (pa pa' : option pages) : Prop :=
  forall host ps, taken_from host pa ps -> taken_from host pa' ps.

Lemma keeps_pages_of pm pm' :
  pages_wf pm' -> same_area pm pm' -> (forall q, page_taken pm q -> page_taken pm' q) ->
  keeps_pages (Some pm) (Some pm').
Proof.
  intros Wp' (_ & _ & _ & _ & Hb & _) Ht host ps (Wp & -> & Hf). split; [done|]. split; [congruence|].
  eapply list.Forall_impl; [exact Hf|]. exact Ht.
Qed.

Lemma grows_keeps pa ps pa' ps' : grows pa ps pa' ps' -> keeps_pages pa pa'.
Proof.
  intros [pa0 ps0|pm pm' k ps0 Hal Hkf Hk Wp' Hs]; [by intros host l|]. apply keeps_pages_of; [done|done|].
  destruct Hal as (_ & _ & _ & _ & _ & Ht). intros q Hq. apply Ht. by left.
Qed.

Lemma grows_taken host pa ps pa' ps' :
  grows pa ps pa' ps' -> 0 < host -> Forall (area_page host) ps -> taken_from host pa ps ->
  Forall (area_page host) ps' /\ taken_from host pa' ps'.
Proof.
  intros Hg. pose proof (grows_keeps _ _ _ _ Hg) as Hk. destruct Hg as [pa0 ps0|pm pm' k ps0 Hal Hkf Hk' Wp' Hs]; [done|].
  intros Hh Ha Hl. specialize (Hk _ _ Hl) as (_ & Hb & Ht). destruct Hl as (Wp & -> & _).
  split; [by apply list.Forall_cons; split; [apply area_page_ptr|]|]. split_and!; [done|done|].
  apply list.Forall_cons. split; [|done]. destruct Hal as (_ & _ & _ & _ & _ & Htk). apply Htk. by right.
Qed.

Lemma slab_Allocate_ok clear h pa m ps used :
  slab_state h pa m ps used ->
  exists p h' pa' m', Allocate clear h pa m = Done true (p, h', pa', m') /\
    ((keeps_pages pa pa' /\ available h pa = 0 /\ p = 0 /\ m' = m /\ available h' pa' = 0 /\ slab_state h' pa' m ps used) \/
     exists ps', 0 < available h pa /\ allocated p h pa m ps used h' pa' m' ps').
Proof.
  intros W. pose proof (ss_free _ _ _ _ _ W) as ([|a l] & Hc & Hp).
  2:{ destruct (slab_pop clear h pa m ps used a l W Hc Hp) as (h' & m' & E & Hal).
      exists a, h', pa, m'. split; [done|]. right. exists ps. split; [|done].
      pose proof (available_nonneg _ _ _ _ _ (al_state _ _ _ _ _ _ _ _ _ _ Hal)).
      rewrite (al_available _ _ _ _ _ _ _ _ _ _ Hal) in H. lia. }
  pose proof (free_length h pa m ps used [] W Hp) as Hfl. cbn [length] in Hfl. cbn [app] in Hp.
  assert (Hh0 : with_list 0 (m_count h) h = h) by (destruct h; cbn in Hc |- *; by rewrite <- Hc).
  unfold Allocate. rewrite (impl_Allocate_nil m (m_head h) Hc), Hh0. cbn [negb andb]. rewrite Z.eqb_refl.
  rewrite andb_false_r. destruct pa as [pm|].
  2:{ ostep. exists 0, h, None, m. split; [done|]. left. unfold available. split_and!; [by intros ? ?|lia|done|done|lia|done]. }
  destruct (refill_ok h pm m ps used W Hc Hp) as (p & h1 & pm' & m1 & l & E & Hcase). rewrite E.
  cbn [mbind outcome_mbind outcome_bind mret outcome_mret andb].
  destruct (ss_area _ _ _ _ _ W) as (host & Hh & Ha & Hl). pose proof per_page_bounds as [Hpp _].
  destruct Hcase as [(Hf0 & -> & -> & -> & Hno & Wp' & Hs)|(Hc1 & Hp1 & Hn1 & Hu1 & Hk1 & Hnew & Hal & Hg & Hfr)].
  - exists 0, h, (Some pm'), m. split; [done|]. left. destruct Hno as (_ & Hf' & Htk). unfold available.
    assert (Hkeep : keeps_pages (Some pm) (Some pm')) by (apply keeps_pages_of; [done|done|intros q; apply Htk]).
    rewrite Hf0, Hf'. split_and!; [done|lia|done|done|lia|]. destruct W. split; try done. exists host. eauto.
  - destruct (grows_taken host _ _ _ _ Hg Hh Ha Hl) as [Ha' Hl'].
    destruct Hal as (k & Hk & -> & _ & Hfree & _).
    destruct (finish_ok h1 (Some pm') m1 (page_ptr pm k :: ps) used (page_ptr pm k) l host)
      as (h' & m' & Ef & W' & Hcn & Hun & Hff); try done.
    + apply list.NoDup_cons. split; [done|]. by destruct W.
    + rewrite Hu1. by destruct W.
    + rewrite Hn1, (ss_count _ _ _ _ _ W). cbn [length]. lia.
    + destruct W. lia.
    + rewrite Ef. cbn [andb]. exists (page_ptr pm k), h', (Some pm'), m'. split; [done|]. right.
      exists (page_ptr pm k :: ps). assert (Hav : available h' (Some pm') = available h (Some pm) - 1).
      { unfold available. rewrite Hcn, Hun, Hn1, Hu1, Hfree. lia. }
      pose proof (available_nonneg _ _ _ _ _ W'). split; [lia|]. split; [done..|].
      intros x Hx Hxf. by rewrite Hff, Hfr.
Qed.

Lemma slab_Free_ok h pa m ps used k p :
  slab_state h pa m ps used -> used !! k = Some p ->
  exists h' m', Free p h m = Done true (h', m') /\ slab_state h' pa m' ps (delete k used) /\
    available h' pa = available h pa + 1 /\ forall x, x <> p -> load m' x = load m x.
Proof.
  intros W Hk. destruct (ss_area _ _ _ _ _ W) as (host & Hh & Ha & Hl).
  destruct (ss_free _ _ _ _ _ W) as (free & Hc & Hp). pose proof (ss_pages _ _ _ _ _ W) as Hnd.
  assert (Hnd2 : NoDup (free ++ used)) by (rewrite Hp; by apply (objects_NoDup host)).
  assert (Hpu : p ∈ used) by (by eapply list_elem_of_lookup_2).
  assert (Hpo : p ∈ objects ps) by (rewrite <- Hp; apply elem_of_app; by right).
  destruct (objects_range host ps Hh Ha p Hpo) as [Hp0 _].
  apply list.NoDup_app in Hnd2 as (_ & Hd & _).
  destruct (impl_Free_ok p m (m_head h) free Hc) as [E Hc']; [lia|by intros ?%Hd|].
  pose proof (length_delete used k (ex_intro _ p Hk)) as Hlen. apply lookup_lt_Some in Hk as Hlt.
  pose proof (ss_used _ _ _ _ _ W) as Hu. pose proof (ss_peak _ _ _ _ _ W) as Hpk.
  pose proof (area_length host ps Hh Ha Hnd). pose proof per_page_bounds as [Hpp _].
  assert (m_count h <= 512 * 2 ^ 52).
  { rewrite (ss_count _ _ _ _ _ W). apply Z.mul_le_mono_nonneg; lia. }
  unfold Free. rewrite E. ostep. rewrite u64_small by lia. eexists _, _. split; [reflexivity|].
  split; [|split].
  - split; cbn [m_head m_used m_count m_peak]; [by exists host|done| |lia|by destruct W|lia].
    exists (p :: free). split; [done|]. rewrite <- Hp. cbn [app].
    rewrite Permutation_middle. apply Permutation_app_head. symmetry. by apply delete_Permutation.
  - unfold available. cbn [m_count m_used]. lia.
  - intros x Hx. by apply load_store_ne.
Qed.

(** ** A new slab *)

Lemma in_free_page_shrinks pm p pm' x :
  same_area pm pm' -> allocated_page pm p pm' -> in_free_page (Some pm') x -> in_free_page (Some pm) x.
Proof.
  intros (Hc & _ & _ & _ & Hb & _) (k & Hk & -> & Hkf & _ & Ht) (j & Hj & Hjf & Hx).
  rewrite Hc in Hj. unfold page_ptr in Hx. rewrite Hb in Hx. exists j. split; [done|]. split; [|done].
  destruct (page_free pm j) eqn:E; [done|].
  assert (Htj : page_taken pm' (page_ptr pm j)) by (apply Ht; left; by exists j).
  destruct Htj as (i & _ & Ei & Hi). unfold page_ptr in Ei. rewrite Hb in Ei.
  assert (i = j) as -> by (unfold PageSize in *; lia). congruence.
Qed.

Lemma Initialize_loop_ok fuel : forall n h pm m ps,
  slab_state h (Some pm) m ps [] -> n - m_count h <= Z.of_nat fuel ->
  n - m_count h <= per_page * free_pages pm ->
  exists h' pm' m' ps', Initialize_loop fuel n h pm m = Done true (h', pm', m') /\
    slab_state h' (Some pm') m' ps' [] /\ n <= m_count h' /\
    available h' (Some pm') = available h (Some pm) /\
    forall x, ~ in_free_page (Some pm) x -> load m' x = load m x.
Proof.
  pose proof per_page_bounds as [Hpp _].
  induction fuel as [|fuel IH]; intros n h pm m ps W Hf Hn; cbn [Initialize_loop];
    destruct (Z.ltb_spec (m_count h) n); cbn [negb]; try lia; try (by exists h, pm, m, ps).
  destruct (ss_area _ _ _ _ _ W) as (host & Hh & Ha & Wp & -> & Ht).
  destruct (ss_free _ _ _ _ _ W) as (free & Hc & Hp). pose proof (ss_pages _ _ _ _ _ W) as Hnd.
  destruct (pages_Allocate_ok pm Wp) as (p & pm' & E & Wp' & Hs & [[-> Hno]|Hal]); rewrite E; ostep.
  { destruct Hno as (Hno & _). rewrite Hno in Hn. lia. }
  pose proof Hal as (k & Hk & -> & Hkf & Hfr & Htk).
  destruct (free_page_objects h pm m ps [] free k (Z.to_nat per_page) 0)
    as (Hp0 & Hnew & m1 & head & E' & Hc' & Hfr'); [done|done|done|done|done|lia|lia|].
  rewrite (proj2 (Z.eqb_neq (page_ptr pm k) 0)), bind_assert_true by done. rewrite E'. ostep.
  pose proof (area_length _ ps Hh Ha Hnd) as Hlen.
  assert (m_count h <= 512 * 2 ^ 52).
  { rewrite (ss_count _ _ _ _ _ W). apply Z.mul_le_mono_nonneg; lia. }
  assert (Hg : grows (Some pm) ps (Some pm') (page_ptr pm k :: ps)) by (by apply grows_page).
  destruct (grows_taken _ _ _ _ _ Hg Hh Ha) as [Ha' Hl']; [done|].
  rewrite u64_small by (destruct W; lia).
  assert (W' : slab_state (with_list head (m_count h + per_page) h) (Some pm') m1 (page_ptr pm k :: ps) []).
  { destruct W. split; cbn [m_head m_used m_count m_peak with_list length]; [eauto| | |done|nia|lia].
    - by apply list.NoDup_cons.
    - eexists. split; [exact Hc'|]. rewrite app_nil_r in *. rewrite <- Permutation_rev, Hp. done. }
  destruct (IH n _ pm' m1 _ W') as (h' & pm2 & m' & ps' & E2 & W2 & Hn2 & Hav & Hf2);
    [cbn; lia|cbn; rewrite Hfr; lia|].
  exists h', pm2, m', ps'. split_and!; [done..| |].
  - rewrite Hav. unfold available. cbn [m_count m_used with_list]. rewrite Hfr. lia.
  - intros x Hx. rewrite Hf2; [by apply Hfr'|]. intros Hin. apply Hx. by eapply in_free_page_shrinks.
Qed.
End Slab.

(** ** A new page manager *)

Section NewPages.
Import KDynamicPageManager.
Context {S : Type} {ES : EntropySource S}.
Notation pages := (KDynamicPageManager S).
Implicit Types pm : pages.

(** Where the managed pages lie. *)
Record area_ok pm : Prop := {
  ar_backing : 0 < m_backing pm /\ m_backing pm + m_backing_size pm <= 2 ^ 64;
  ar_address : 0 <= m_aligned_address pm <= m_address pm /\ m_address pm + m_backing_size pm <= 2 ^ 64;
  ar_first : m_address pm = m_aligned_address pm + first_page pm * PageSize;
  ar_count : 0 <= m_count pm /\ m_count pm * PageSize <= m_backing_size pm /\
    first_page pm + m_count pm <= capacity (m_page_bitmap pm)
}.

Lemma in_range_grow p i x :
  0 <= i -> in_range p (i + 1) x = (if x =? p + i then true else in_range p i x).
Proof.
  intros Hi. unfold in_range. destruct (Z.eqb_spec x (p + i)), (Z.leb_spec p x), (Z.ltb_spec x (p + (i + 1))),
    (Z.ltb_spec x (p + i)); done || lia.
Qed.

Lemma zero_pages_split p n x m :
  0 <= n ->
  (if in_range (p + PageSize) (n * PageSize) x then 0 else load (zero_page p m) x) =
  (if in_range p ((n + 1) * PageSize) x then 0 else load m x).
Proof.
  intros Hn. rewrite load_zero_page. unfold in_range, PageSize.
  destruct (Z.leb_spec (p + 4096) x), (Z.ltb_spec x (p + 4096 + n * 4096)), (Z.leb_spec p x),
    (Z.ltb_spec x (p + 4096)), (Z.ltb_spec x (p + (n + 1) * 4096)); done || lia.
Qed.

Lemma pages_Initialize_loop_ok n : forall i pm m,
  area_ok pm -> bitmap_wf (m_page_bitmap pm) -> 0 <= i -> i + Z.of_nat n = m_count pm ->
  (forall j, 0 <= j -> is_free (m_page_bitmap pm) j = in_range (first_page pm) i j) ->
  exists b m', Initialize_loop n i pm m = Done true (with_bitmap b (m_used pm) (m_peak pm) pm, m') /\
    bitmap_wf b /\ capacity b = capacity (m_page_bitmap pm) /\
    (forall j, 0 <= j -> is_free b j = in_range (first_page pm) (m_count pm) j) /\
    GetNumBits b = GetNumBits (m_page_bitmap pm) + Z.of_nat n /\
    forall x, load m' x = if in_range (page_ptr pm i) (Z.of_nat n * PageSize) x then 0 else load m x.
Proof.
  induction n as [|n IH]; intros i pm m Ar Wb Hi Hn Hf.
  { exists (m_page_bitmap pm), m. split; [by destruct pm|]. split; [done|]. split; [done|].
    split; [by rewrite <- Hn, Z.add_0_r|]. split; [lia|]. intros x. unfold in_range.
    destruct (Z.leb_spec (page_ptr pm i) x), (Z.ltb_spec x (page_ptr pm i + Z.of_nat 0 * PageSize)); done || lia. }
  destruct (ar_backing pm Ar), (ar_address pm Ar) as [Ha1 Ha2], (ar_count pm Ar) as (Hc0 & Hc1 & Hc2).
  pose proof (ar_first pm Ar) as Hf1. cbn [Initialize_loop].
  assert (Hfp : 0 <= first_page pm) by (apply Z.div_pos; unfold PageSize; lia).
  assert (Hoff : u64 (u64 (m_address pm + u64 (i * PageSize)) - m_aligned_address pm) / PageSize = first_page pm + i).
  { rewrite (u64_small (i * PageSize)), (u64_small (m_address pm + _)), u64_small by (unfold PageSize in *; lia).
    replace (_ - _) with ((first_page pm + i) * PageSize) by (unfold PageSize in *; lia).
    apply Z.div_mul. unfold PageSize. lia. }
  assert (Hptr : u64 (GetPointer pm (m_address pm) + i * PageSize) = page_ptr pm i).
  { unfold GetPointer. rewrite Z.sub_diag. change (u64 0) with 0. rewrite Z.add_0_r.
    by rewrite (u64_small (m_backing pm)), u64_small by (unfold PageSize in *; lia). }
  rewrite Hoff, Hptr.
  assert (Hnf : is_free (m_page_bitmap pm) (first_page pm + i) = false).
  { rewrite Hf by lia. unfold in_range. lia. }
  assert (Hofc : 0 <= first_page pm + i < capacity (m_page_bitmap pm)) by lia.
  destruct (SetBit_spec _ _ Wb Hofc Hnf) as (b & E & Hb). rewrite E. ostep.
  pose proof (set_count _ _ _ Wb Hofc Hnf Hb) as Hcount. destruct Hb as [Wb' Hcap Hfree].
  destruct (IH (i + 1) (with_bitmap b (m_used pm) (m_peak pm) pm) (zero_page (page_ptr pm i) m))
    as (b' & m' & E' & W' & Hcap' & Hf' & Hn' & Hm').
  - destruct Ar. split; try done. change (0 <= m_count pm /\ m_count pm * PageSize <= m_backing_size pm /\
      first_page pm + m_count pm <= capacity b). by rewrite Hcap.
  - done.
  - lia.
  - cbn [m_count with_bitmap]. lia.
  - intros j Hj. cbn [m_page_bitmap with_bitmap]. rewrite Hfree, Hf by done.
    change (first_page (with_bitmap _ _ _ pm)) with (first_page pm). by rewrite in_range_grow.
  - exists b', m'. cbn [m_page_bitmap with_bitmap] in *. split; [exact E'|]. split; [done|].
    split; [congruence|]. split; [done|]. split; [lia|]. intros x. rewrite Hm'.
    change (page_ptr (with_bitmap _ _ _ pm) (i + 1)) with (page_ptr pm (i + 1)).
    replace (page_ptr pm (i + 1)) with (page_ptr pm i + PageSize) by (unfold page_ptr; lia).
    rewrite zero_pages_split by lia. by replace (Z.of_nat n + 1) with (Z.of_nat (Datatypes.S n)) by lia.
Qed.

(** The bytes the bitmap takes from the end of the area. *)
Definition management_size (address size align : Z) : Z :=
  AlignUp 64 (CalculateManagementOverheadSize ((address + size - AlignDown 64 address align) / PageSize))
    PageSize.

(** What [Initialize] is called with: an area of whole pages, which fits the bitmap. *)
Record area_arg (host address size align : Z) : Prop := {
  aa_host : 0 < host /\ host + size <= 2 ^ 64;
  aa_address : 0 <= address /\ address + size < 2 ^ 64;
  aa_pages : (PageSize | address) /\ (PageSize | size) /\ (PageSize | align);
  aa_size : 0 < size /\ 0 < align /\ align + size < 2 ^ 36
}.

Lemma whole_pages x : (PageSize | x) -> x = x / PageSize * PageSize.
Proof. intros [k ->]. rewrite Z.div_mul by (unfold PageSize; lia). done. Qed.

Section Argument.
Context (host address size align : Z) (Aa : area_arg host address size align).
Notation aligned := (AlignDown 64 address align).
Notation overhead := (management_size address size align).

Lemma aligned_facts : (PageSize | aligned) /\ 0 <= aligned <= address /\ address < aligned + align.
Proof.
  destruct Aa as [_ [Ha1 Ha2] (Hp1 & Hp2 & Hp3) (Hs1 & Hs2 & _)].
  destruct (AlignDown_spec 64 address align Hs2) as (Hd & Hr & H0); [split; lia|].
  split; [by transitivity align|]. lia.
Qed.

Lemma managed_pages : 0 < (address + size - aligned) / PageSize < 2 ^ 24.
Proof.
  destruct aligned_facts as (Hd & Hr & Hl), Aa as [_ _ (_ & Hp2 & _) (Hs1 & _ & Hs3)].
  destruct Hp2 as [k Hk]. unfold PageSize in *. split.
  - apply Z.div_str_pos. lia.
  - apply Z.div_lt_upper_bound; lia.
Qed.

Lemma overhead_facts n :
  0 < n <= (address + size - aligned) / PageSize ->
  (PageSize | overhead) /\ 0 <= CalculateManagementOverheadSize n <= overhead /\ overhead < 2 ^ 30.
Proof.
  pose proof managed_pages as Hm. intros Hn. unfold management_size.
  destruct (overhead_mono n _ Hn) as [H0 H1]; [lia|].
  destruct (overhead_mono ((address + size - aligned) / PageSize) (2 ^ 24)) as [_ H2]; [lia|lia|].
  assert (H3 : CalculateManagementOverheadSize (2 ^ 24) < 2 ^ 29) by (by vm_compute).
  destruct (AlignUp_spec 64 (CalculateManagementOverheadSize ((address + size - aligned) / PageSize)) PageSize)
    as [Hd Hr]; [unfold PageSize; lia|lia|split; lia|unfold PageSize in *; lia|].
  unfold PageSize in *. split; [done|]. lia.
Qed.

(** The pages left for allocation. *)
Lemma allocatable_facts :
  overhead < size ->
  let n := (address - aligned) / PageSize in
  let count := (size - overhead) / PageSize in
  0 <= n /\ 0 < count /\ address = aligned + n * PageSize /\ size - overhead = count * PageSize /\
  (address + size - overhead - aligned) / PageSize = n + count /\
  n + count <= (address + size - aligned) / PageSize.
Proof.
  intros Ho n count. destruct aligned_facts as (Hd & Hr & Hl). pose proof managed_pages as Hm.
  destruct (overhead_facts 1) as (Hod & Ho0 & _); [lia|]. destruct Aa as [_ _ (Hp1 & Hp2 & _) _].
  assert (Hn : address - aligned = n * PageSize) by (apply whole_pages; by apply Z.divide_sub_r).
  assert (Hc : size - overhead = count * PageSize) by (apply whole_pages; by apply Z.divide_sub_r).
  assert (He : address + size - overhead - aligned = (n + count) * PageSize) by lia.
  split; [apply Z.div_pos; unfold PageSize; lia|]. split; [unfold PageSize in *; lia|].
  split; [lia|]. split; [done|]. rewrite He, Z.div_mul by (unfold PageSize; lia). split; [done|].
  apply Z.div_le_lower_bound; unfold PageSize in *; lia.
Qed.
End Argument.

Lemma pages_Initialize_ok host address size align pm m :
  area_arg host address size align -> rng_wf (m_gen (m_page_bitmap pm)) -> m_used pm = 0 -> m_peak pm = 0 ->
  management_size address size align < size ->
  exists pm' m', Initialize host address size align pm m = Done true (ResultSuccess, pm', m') /\
    pages_wf pm' /\ m_count pm' = (size - management_size address size align) / PageSize /\ m_used pm' = 0 /\
    m_backing pm' = host /\ m_address pm' = address /\ (forall q, ~ page_taken pm' q) /\
    forall x, load m' x = if in_range host (m_count pm' * PageSize) x then 0 else load m x.
Proof.
  intros Aa Hg Hu Hp Ho. pose proof (aligned_facts _ _ _ _ Aa) as (Hd & Hr & Hl).
  pose proof (managed_pages _ _ _ _ Aa) as Hm.
  destruct (allocatable_facts _ _ _ _ Aa Ho) as (Hn0 & Hc0 & Hn & Hc & Hbits & Hle).
  destruct (overhead_facts _ _ _ _ Aa _ (conj (Z.add_nonneg_pos _ _ Hn0 Hc0) Hle)) as (Hod & Hoh & Hob).
  destruct Aa as [Hh [Ha1 Ha2] _ (Hs1 & Hs2 & Hs3)].
  set (al := AlignDown 64 address align) in *. set (o := management_size address size align) in *.
  set (first := (address - al) / PageSize) in *. set (count := (size - o) / PageSize) in *.
  unfold Initialize. rewrite (proj2 (Z.ltb_lt 0 size) Hs1). cbn [negb]. fold al.
  rewrite (u64_small (address + size - al)) by lia. change (AlignUp 64 _ PageSize) with o.
  rewrite (proj2 (Z.ltb_lt o size) Ho). cbn [negb].
  rewrite (u64_small (size - o)), (u64_small (address + size - o)), (u64_small (_ - al)) by lia.
  assert (Hsz : AlignDown 64 (size - o) PageSize = size - o).
  { rewrite AlignDown_eq by (unfold PageSize, in_u; lia). rewrite Hc, Z.mod_mul by (unfold PageSize; lia). lia. }
  rewrite Hsz, bind_assert_true by (apply Z.leb_le; unfold PageSize in *; lia). rewrite Hbits. fold count.
  destruct (Initialize_spec (replicate (Z.to_nat (o / 8)) 0) (first + count) (m_gen (m_page_bitmap pm)))
    as (b & rest & E & Wb & Hfb & Hcap & _ & Hnb & _); [lia|done|by apply Forall_replicate| |].
  { rewrite length_replicate, Z2Nat.id by (apply Z.div_pos; lia).
    rewrite <- Z_div_exact_full_2; [lia|lia|]. destruct Hod as [j ->]. unfold PageSize.
    replace (j * 4096) with (j * 512 * 8) by lia. apply Z.mod_mul. lia. }
  rewrite E. ostep.
  set (pm1 := mkPages b (m_used pm) (m_peak pm) count address al (size - o) host size).
  assert (Ar : area_ok pm1).
  { split; cbn; [lia|lia| |]; change (first_page pm1) with first; unfold PageSize in *; lia. }
  destruct (pages_Initialize_loop_ok (Z.to_nat count) 0 pm1 m Ar) as (b' & m' & E' & W' & Hcap' & Hf' & Hnum & Hm');
    [done|lia|cbn; lia|intros j Hj; cbn; rewrite Hfb by done; unfold in_range; lia|].
  change (first_page pm1) with first in *. cbn [m_page_bitmap m_count pm1] in *. unfold GetNumBits in *.
  rewrite E'. ostep. eexists _, m'. split; [reflexivity|]. split_and!; try done.
  - destruct Ar. split; try done.
    + change (0 <= count /\ count * PageSize <= size /\ first + count <= capacity b'). unfold PageSize in *. lia.
    + intros i Hi. cbn [m_page_bitmap with_bitmap]. rewrite Hf' by done. apply in_range_true.
    + unfold GetNumBits. cbn. lia.
  - intros q (k & Hk & _ & Hfk). unfold page_free in Hfk. cbn [m_page_bitmap with_bitmap m_count pm1] in *.
    change (first_page _) with first in Hfk. rewrite Hf' in Hfk by lia.
    apply not_true_iff_false in Hfk. destruct Hfk. apply in_range_true. lia.
  - intros x. rewrite Hm'. cbn [m_count with_bitmap pm1]. rewrite Z2Nat.id by lia. unfold page_ptr. cbn [m_backing pm1].
    by rewrite Z.mul_0_l, Z.add_0_r.
Qed.
End NewPages.

(** ** The properties *)

Section Properties.
Context {S : Type} {ES : EntropySource S}.
Notation pages := (KDynamicPageManager.KDynamicPageManager S).

(** [Initialize] over an area of whole pages keeps as many pages at its end as the bitmap needs and
    makes all the others available: the manager is well-formed, no page is taken, and exactly the
    memory of its pages is cleared.  When the bitmap would take the whole area it answers
    [ResultOutOfMemory]. *)
Theorem page_manager_initialize host address size align (pm : pages) m :
  area_arg host address size align -> rng_wf (m_gen (KDynamicPageManager.m_page_bitmap pm)) ->
  KDynamicPageManager.m_used pm = 0 -> KDynamicPageManager.m_peak pm = 0 ->
  exists r pm' m', KDynamicPageManager.Initialize host address size align pm m = Done true (r, pm', m') /\
    if management_size address size align <? size then
      r = ResultSuccess /\ pages_wf pm' /\
      KDynamicPageManager.GetCount pm' = (size - management_size address size align) / PageSize /\
      free_pages pm' = KDynamicPageManager.GetCount pm' /\ (forall q, ~ page_taken pm' q) /\
      forall x, load m' x =
        if in_range host (KDynamicPageManager.GetCount pm' * PageSize) x then 0 else load m x
    else r = ResultOutOfMemory /\ m' = m.
Proof.
  intros Aa Hg Hu Hp. destruct (Z.ltb_spec (management_size address size align) size) as [Ho|Ho].
  - destruct (pages_Initialize_ok host address size align pm m Aa Hg Hu Hp Ho)
      as (pm' & m' & E & W & Hc & Hu' & _ & _ & Ht & Hm).
    exists ResultSuccess, pm', m'. unfold free_pages, KDynamicPageManager.GetCount. rewrite Hu', Z.sub_0_r.
    by split_and!.
  - pose proof (aligned_facts _ _ _ _ Aa) as (_ & Hr & _).
    unfold KDynamicPageManager.Initialize. destruct Aa as [_ [Ha1 Ha2] _ (Hs & _)].
    rewrite (proj2 (Z.ltb_lt 0 size) Hs). cbn [negb]. rewrite (u64_small (address + size - _)) by lia.
    fold (management_size address size align). rewrite (proj2 (Z.ltb_ge _ size) Ho). by do 3 eexists.
Qed.

(** [Allocate] of a page answers null exactly when no page is left; otherwise the page lies in the
    backing memory, was not taken before, and is the only one taken in addition. *)
Theorem page_manager_allocate (pm : pages) :
  pages_wf pm ->
  exists p pm', KDynamicPageManager.Allocate pm = Done true (p, pm') /\ pages_wf pm' /\ same_area pm pm' /\
    (p = 0 <-> free_pages pm = 0) /\ (forall q, page_taken pm' q <-> page_taken pm q \/ p <> 0 /\ q = p) /\
    (p <> 0 -> ~ page_taken pm p /\ free_pages pm' = free_pages pm - 1 /\
       KDynamicPageManager.m_backing pm <= p /\
       p + PageSize <= KDynamicPageManager.m_backing pm + KDynamicPageManager.m_backing_size pm).
Proof.
  intros W. destruct (pages_Allocate_ok pm W) as (p & pm' & E & W' & Hs & Hc). exists p, pm'.
  split; [done|]. split; [done|]. split; [done|].
  destruct Hc as [(-> & Hf & Hf' & Ht)|(k & Hk & -> & Hkf & Hf & Ht)].
  - split_and!; [done| |done]. intros q. rewrite Ht. tauto.
  - pose proof (pw_backing pm W). destruct (pw_count pm W) as (_ & Hcs & _). destruct (pw_used pm' W') as (Hu & Hp & _).
    destruct Hs as (Hcc & _). assert (page_ptr pm k <> 0) by (unfold page_ptr, PageSize in *; lia).
    assert (free_pages pm <> 0) by (unfold free_pages in *; lia).
    split; [tauto|]. split; [intros q; rewrite Ht; tauto|]. intros _. split_and!; [|done|unfold page_ptr, PageSize in *; lia..].
    intros (j & _ & Ej & Hjf). apply page_ptr_inj in Ej. congruence.
Qed.

Context {T : SlabObject}.

(** C25: [Allocate] of a slab fails exactly when neither the free list nor the page manager has
    anything left.  Otherwise it answers an object that overlaps none of those in use, and it
    changes no word of memory outside this object and the pages that nobody had taken: in
    particular all objects of all slabs keep their contents. *)
Theorem dynamic_slab_allocate clear h (pa : option pages) m ps used :
  slab_state h pa m ps used ->
  exists p h' pa' m', KDynamicSlabHeap.Allocate clear h pa m = Done true (p, h', pa', m') /\
    (p = 0 <-> available h pa = 0) /\
    (p = 0 -> slab_state h' pa' m' ps used /\ m' = m) /\
    (p <> 0 -> exists ps', slab_state h' pa' m' ps' (p :: used) /\ grows pa ps pa' ps' /\
       available h' pa' = available h pa - 1 /\
       (forall q, q ∈ used -> p + sizeof <= q \/ q + sizeof <= p) /\
       (forall x, ~ (p <= x < p + sizeof) -> ~ in_free_page pa x -> load m' x = load m x)).
Proof.
  intros W. destruct (slab_Allocate_ok clear h pa m ps used W) as (p & h' & pa' & m' & E & Hc).
  exists p, h', pa', m'. split; [done|].
  destruct Hc as [(_ & Ha & -> & -> & _ & W')|(ps' & Ha & [W' Hav Hg Hf])]; [by split_and!|].
  destruct (ss_area _ _ _ _ _ W') as (host & Hh & Har & _). destruct (ss_free _ _ _ _ _ W') as (free & _ & Hp).
  pose proof (objects_NoDup host ps' Har (ss_pages _ _ _ _ _ W')) as Hnd. rewrite <- Hp in Hnd.
  assert (Ho : forall q, q ∈ p :: used -> q ∈ objects ps') by
    (intros q Hq; rewrite <- Hp; apply elem_of_app; by right).
  destruct (objects_range host ps' Hh Har p (Ho p (list_elem_of_here p used))) as [Hp0 _].
  split; [lia|]. split; [lia|]. intros _. exists ps'. split_and!; try done.
  intros q Hq. apply (objects_apart host ps' Har); [apply Ho; left|apply Ho; by right|].
  intros ->. apply list.NoDup_app in Hnd as (_ & _ & Hnd). apply list.NoDup_cons in Hnd as [Hn _]. done.
Qed.

(** [Free] of an object in use makes it available again and touches only the link inside it. *)
Theorem dynamic_slab_free h (pa : option pages) m ps used k p :
  slab_state h pa m ps used -> used !! k = Some p ->
  exists h' m', KDynamicSlabHeap.Free p h m = Done true (h', m') /\
    slab_state h' pa m' ps (delete k used) /\ available h' pa = available h pa + 1 /\
    forall x, x <> p -> load m' x = load m x.
Proof. apply slab_Free_ok. Qed.

(** The pages of two slabs of one manager stay disjoint when one of them grows. *)
Lemma grows_disjoint (pm : pages) ps pa' ps' ps2 host :
  grows (Some pm) ps pa' ps' -> taken_from host (Some pm) ps2 -> ps ## ps2 -> ps' ## ps2.
Proof.
  intros Hg (_ & _ & Ht) Hd. inversion Hg as [|? pm' k ? _ Hkf Hk]; subst; [done|].
  intros q [-> |Hq]%elem_of_cons Hq2; [|by apply (Hd q)]. rewrite list.Forall_forall in Ht.
  destruct (Ht _ Hq2) as (j & _ & Ej & Hj). apply page_ptr_inj in Ej. congruence.
Qed.

(** The objects of a slab lie apart from what an allocation in another slab may change. *)
Lemma other_objects_kept (pm : pages) host ps' ps2 p a x :
  0 < host -> Forall (area_page host) ps' -> Forall (area_page host) ps2 -> taken_from host (Some pm) ps2 ->
  ps' ## ps2 -> p ∈ objects ps' -> a ∈ objects ps2 -> a <= x < a + sizeof ->
  ~ (p <= x < p + sizeof) /\ ~ in_free_page (Some pm) x.
Proof.
  intros Hh H1 H2 (Wp & -> & Ht) Hd (q1 & Hq1 & Hp)%elem_of_objects (q2 & Hq2 & Ha)%elem_of_objects Hx.
  rewrite list.Forall_forall in H1, H2, Ht. apply page_objects_inside in Hp, Ha. split.
  - assert (q1 <> q2) by (intros ->; by apply (Hd q2)).
    destruct (area_pages_apart _ q1 q2 (H1 _ Hq1) (H2 _ Hq2)); [done|lia..].
  - intros (k & Hk & Hkf & Hin). destruct (Ht _ Hq2) as (j & Hj & Ej & Hjf).
    assert (page_ptr pm k <> q2) by (intros E; rewrite Ej in E; apply page_ptr_inj in E; congruence).
    destruct (area_pages_apart _ (page_ptr pm k) q2 (area_page_ptr pm k Wp Hk) (H2 _ Hq2)); [done|lia..].
Qed.

(** Slabs that share a page manager do not disturb each other: an allocation in one of them keeps
    the state of another, free list and objects in use alike, and their pages stay disjoint. *)
Theorem dynamic_slabs_share_pages clear h1 h2 (pm : pages) m ps1 ps2 used1 used2 :
  slab_state h1 (Some pm) m ps1 used1 -> slab_state h2 (Some pm) m ps2 used2 -> ps1 ## ps2 ->
  exists p h1' pa' m' ps1' used1', KDynamicSlabHeap.Allocate clear h1 (Some pm) m = Done true (p, h1', pa', m') /\
    slab_state h1' pa' m' ps1' used1' /\ slab_state h2 pa' m' ps2 used2 /\ ps1' ## ps2 /\
    forall q x, q ∈ used2 -> q <= x < q + sizeof -> load m' x = load m x.
Proof.
  intros W1 W2 Hd. destruct (ss_area _ _ _ _ _ W2) as (host & Hh & Ha & Ht).
  destruct (slab_Allocate_ok clear h1 (Some pm) m ps1 used1 W1) as (p & h' & pa' & m' & E & Hc).
  destruct Hc as [(Hk & _ & -> & -> & _ & W')|(ps' & _ & [W' _ Hg Hf])].
  { exists 0, h', pa', m, ps1, used1. split_and!; try done. destruct W2. split; try done. exists host. auto. }
  pose proof (grows_disjoint _ _ _ _ _ _ Hg Ht Hd) as Hd'.
  exists p, h', pa', m', ps', (p :: used1). split; [done|]. split; [done|].
  destruct (ss_area _ _ _ _ _ W1) as (host1 & Hh1 & Ha1 & Ht1).
  assert (host1 = host) as -> by (destruct Ht as (_ & -> & _), Ht1 as (_ & -> & _); done).
  destruct (grows_taken _ _ _ _ _ Hg Hh1 Ha1 Ht1) as [Ha' _].
  destruct (ss_free _ _ _ _ _ W') as (free1 & _ & Hp1).
  assert (Hp : p ∈ objects ps') by (rewrite <- Hp1; apply elem_of_app; right; left).
  assert (Hkeep : forall a x, a ∈ objects ps2 -> a <= x < a + sizeof -> load m' x = load m x).
  { intros a x Hao Hx. destruct (other_objects_kept pm host ps' ps2 p a x); try done. by apply Hf. }
  pose proof sizeof_bounds as Hs. destruct (ss_free _ _ _ _ _ W2) as (free & Hch & Hp2). split; [|split; [done|]].
  - pose proof (grows_keeps _ _ _ _ Hg) as Hkp. destruct W2. split; try done; [exists host; auto|].
    exists free. split; [|done]. eapply chain_frame; [exact Hch|]. intros a Haf. apply (Hkeep a); [|lia].
    rewrite <- Hp2. apply elem_of_app. by left.
  - intros q x Hq. apply Hkeep. rewrite <- Hp2. apply elem_of_app. by right.
Qed.

Lemma new_slab_state (pa : option pages) m a n :
  match pa with None => True | Some pm => pages_wf pm end ->
  slab_state (KDynamicSlabHeap.mkSlab 0 0 0 0 a n) pa m [] [].
Proof.
  intros Hpa. pose proof per_page_bounds as [Hpp _].
  split; cbn [KDynamicSlabHeap.m_used KDynamicSlabHeap.m_count KDynamicSlabHeap.m_peak length]; try done; try lia.
  - destruct pa as [pm|]; [|exists 1; split_and!; [lia|constructor|done]].
    exists (KDynamicPageManager.m_backing pm). split; [apply (pw_backing pm Hpa)|].
    split; [constructor|]. by split_and!.
  - constructor.
  - by exists [].
Qed.

(** [Initialize] of a new slab takes pages until it holds as many objects as asked for, when the
    pages are enough for them: every object is then free, and the number of objects that can be
    allocated is what the pages were good for. *)
Theorem dynamic_slab_initialize num_objects (pm : pages) m :
  pages_wf pm -> num_objects <= KDynamicSlabHeap.per_page * free_pages pm ->
  exists h' pm' m' ps', KDynamicSlabHeap.Initialize num_objects KDynamicSlabHeap.KDynamicSlabHeap_new pm m =
      Done true (h', pm', m') /\
    slab_state h' (Some pm') m' ps' [] /\ num_objects <= KDynamicSlabHeap.GetCount h' /\
    available h' (Some pm') = KDynamicSlabHeap.per_page * free_pages pm /\
    forall x, ~ in_free_page (Some pm) x -> load m' x = load m x.
Proof.
  intros W Hn. unfold KDynamicSlabHeap.Initialize, KSlabHeapImpl.Initialize.
  cbn [KDynamicSlabHeap.m_head KDynamicSlabHeap.KDynamicSlabHeap_new]. rewrite Z.eqb_refl, bind_assert_true by done.
  destruct (Initialize_loop_ok (Z.to_nat num_objects) num_objects _ pm m []
    (new_slab_state (Some pm) m (KDynamicPageManager.GetAddress pm) (KDynamicPageManager.GetSize pm) W))
    as (h' & pm' & m' & ps' & E & W' & Hc & Ha & Hf); [cbn; lia|cbn; lia|].
  exists h', pm', m', ps'. split; [exact E|]. by split_and!.
Qed.
End Properties.


(** ** Reference counts of page tables *)

Section PageTables.
Import KPageTableSlabHeap.

(** Every page of the heap has a count. *)
Definition tables_wf (t : KPageTableSlabHeap) : Prop :=
  let h := base_heap t in
  0 <= KDynamicSlabHeap.m_address h /\ 0 < KDynamicSlabHeap.m_size h /\
  KDynamicSlabHeap.m_address h + KDynamicSlabHeap.m_size h < 2 ^ 64 /\ (PageSize | KDynamicSlabHeap.m_size h) /\
  length (m_ref_counts t) = Z.to_nat (KDynamicSlabHeap.m_size h / PageSize) /\
  Forall (in_u 16) (m_ref_counts t).

(** Opening a page table [count] times raises its own count and no other; closing it as often tells
    whether nobody else holds it and restores the counts. *)
Theorem page_table_references t addr count c :
  tables_wf t -> IsInPageTableHeap t addr = true -> 0 < count -> c + count < 2 ^ 16 ->
  GetRefCount t addr = Done true c ->
  exists t', Open t addr count = Done true t' /\ tables_wf t' /\ GetRefCount t' addr = Done true (c + count) /\
    (forall b, IsInPageTableHeap t b = true -> ref_index t b <> ref_index t addr ->
       GetRefCount t' b = GetRefCount t b) /\
    Close t' addr count = Done true (c =? 0, t).
Proof.
  intros (H0 & Hs & Hb & Hd & Hl & Hf) Hr Hc Hlt Hg. unfold IsInPageTableHeap in *. unfold GetRefCount in Hg.
  rewrite Hr, bind_assert_true in Hg by done. apply arr_get_inv in Hg as (Hi & _ & Hci).
  pose proof (Forall_lookup_1 _ _ _ _ Hf Hci) as Hcu. unfold in_u in Hcu. apply lookup_lt_Some in Hci as Hlen.
  set (i := ref_index t addr) in *. set (t' := mkTables (base_heap t) (<[Z.to_nat i := c + count]> (m_ref_counts t))).
  assert (Hget : GetRefCount t' addr = Done true (c + count)).
  { unfold GetRefCount. cbn [base_heap t']. rewrite Hr, bind_assert_true by done.
    change (ref_index t' addr) with i. apply arr_get_Some; [lia|]. by apply list_lookup_insert_eq. }
  exists t'. split; [|split; [|split; [done|split]]].
  - unfold Open, add_count. rewrite Hr, bind_assert_true by done. fold i.
    rewrite (arr_get_Some _ _ c) by (done || lia). ostep. rewrite arr_set_lt by lia. ostep.
    rewrite !(u16_small count), u16_small by lia. fold t'. rewrite Hget. ostep.
    by rewrite bind_assert_true by (apply Z.ltb_lt; lia).
  - split_and!; try done; cbn [m_ref_counts t']; [by rewrite length_insert|].
    apply Forall_insert; [done|]. unfold in_u. lia.
  - intros b Hrb Hne. unfold GetRefCount. cbn [base_heap t']. rewrite Hrb, !bind_assert_true by done.
    change (ref_index t' b) with (ref_index t b). cbn [m_ref_counts t']. unfold arr_get.
    destruct (Z.leb_spec 0 (ref_index t b)); [|done]. rewrite list_lookup_insert_ne by lia. done.
  - unfold Close, add_count. cbn [base_heap t']. rewrite Hr, bind_assert_true by done. fold t'. rewrite Hget. ostep.
    rewrite bind_assert_true by (apply Z.leb_le; lia). change (ref_index t' addr) with i.
    rewrite (arr_get_Some _ _ (c + count)) by (lia || (by apply list_lookup_insert_eq)). ostep.
    rewrite arr_set_lt by (cbn [m_ref_counts t']; rewrite length_insert; lia). ostep.
    rewrite (u16_small count) by lia. replace (c + count + - count) with c by lia. rewrite u16_small by lia.
    cbn [m_ref_counts t']. rewrite list_insert_insert_eq, list_insert_id by done.
    replace (mkTables (base_heap t) (m_ref_counts t)) with t by (by destruct t).
    unfold GetRefCount. rewrite Hr, bind_assert_true by done. fold i. by rewrite (arr_get_Some _ _ c).
Qed.
End PageTables.

(** ** The slab over a fixed area *)

Section FixedSlab.
Import KSlabHeapBase.
Implicit Types (h : KSlabHeapBase) (m : memory).

(** The first [n] objects of size [sz] behind [ptr]. *)
Definition slots (ptr sz : Z) (n : nat) : list Z := map (fun i => ptr + Z.of_nat i * sz) (seq 0 n).

Lemma slots_S ptr sz n : slots ptr sz (S n) = slots ptr sz n ++ [ptr + Z.of_nat n * sz].
Proof. unfold slots. by rewrite seq_S, map_app. Qed.

Lemma elem_of_slots ptr sz n a : a ∈ slots ptr sz n <-> exists i, (i < n)%nat /\ a = ptr + Z.of_nat i * sz.
Proof.
  unfold slots. rewrite list_elem_of_fmap. setoid_rewrite elem_of_seq. split.
  - intros (i & -> & Hi). exists i. split; [lia|done].
  - intros (i & Hi & ->). exists i. split; [done|lia].
Qed.

Lemma base_Initialize_loop_ok n : forall ptr sz m head l,
  0 < ptr -> 0 < sz -> ptr + Z.of_nat n * sz < 2 ^ 64 -> chain m head l ->
  (forall a, a ∈ l -> ptr + Z.of_nat n * sz <= a) ->
  exists m' head', Initialize_loop n sz (ptr + Z.of_nat n * sz) m head = mret (m', head') /\
    chain m' head' (slots ptr sz n ++ l) /\ forall x, x ∉ slots ptr sz n -> load m' x = load m x.
Proof.
  induction n as [|n IH]; intros ptr sz m head l Hp Hs Hb Hc Hl; cbn [Initialize_loop].
  { by exists m, head. }
  replace (ptr + Z.of_nat (S n) * sz - sz) with (ptr + Z.of_nat n * sz) by lia.
  rewrite u64_small by nia.
  destruct (impl_Free_ok (ptr + Z.of_nat n * sz) m head l Hc) as [E Hc']; [nia|intros Ha%Hl; nia|].
  rewrite E. ostep. destruct (IH ptr sz _ _ _ Hp Hs ltac:(nia) Hc') as (m' & head' & E' & Hc2 & Hf).
  { intros a [-> |Ha%Hl]%elem_of_cons; nia. }
  exists m', head'. split; [done|]. rewrite slots_S, <- app_assoc. split; [done|].
  intros x [Hx1 Hx2]%not_elem_of_app. rewrite Hf by done. apply load_store_ne.
  intros ->. apply Hx2. by left.
Qed.

(** [Initialize] cuts the area into [memory_size / obj_size] objects, which the free list holds by
    ascending address; each is contained in the heap and has the index of its place, and only the
    links inside the objects are written. *)
Theorem slab_heap_initialize obj_size ptr memory_size h m :
  0 < ptr -> 0 < obj_size -> 0 <= memory_size -> ptr + memory_size < 2 ^ 64 -> m_head h = 0 ->
  let n := Z.to_nat (memory_size / obj_size) in
  exists h' m', Initialize obj_size ptr memory_size h m = Done true (h', m') /\
    chain m' (m_head h') (slots ptr obj_size n) /\ GetSlabHeapSize h' = Done true (memory_size / obj_size) /\
    (forall i, (i < n)%nat -> let a := ptr + Z.of_nat i * obj_size in
       Contains h' a = true /\ forall e, GetObjectIndex e a h' = Done true (Z.of_nat i)) /\
    forall x, x ∉ slots ptr obj_size n -> load m' x = load m x.
Proof.
  intros Hp Hs Hm Hb Hh n. pose proof (Z.mul_div_le memory_size obj_size Hs) as Hle.
  assert (Hn0 : 0 <= memory_size / obj_size) by (by apply Z.div_pos).
  assert (Hn : Z.of_nat n = memory_size / obj_size) by (unfold n; lia).
  unfold Initialize. rewrite (proj2 (Z.eqb_neq ptr 0)), bind_assert_true by (done || lia).
  unfold KSlabHeapImpl.Initialize. rewrite Hh, bind_assert_true by done. unfold udiv.
  rewrite (proj2 (Z.eqb_neq obj_size 0)) by lia. ostep.
  rewrite (u64_small (_ * _)), (u64_small (ptr + _)) by lia. fold n. rewrite <- Hn.
  destruct (base_Initialize_loop_ok n ptr obj_size m 0 []) as (m' & head' & E & Hc & Hf);
    [done|done|lia|done|by intros a ?%elem_of_nil|].
  rewrite E. ostep. rewrite app_nil_r in Hc. eexists _, _. split; [reflexivity|].
  split; [done|]. unfold GetSlabHeapSize, GetObjectIndex, Contains, GetObjectSize. cbn [m_start m_end m_obj_size].
  unfold udiv. rewrite (proj2 (Z.eqb_neq obj_size 0)) by lia.
  split; [|split; [|done]].
  - rewrite Z.add_simpl_l, u64_small, Z.div_mul by lia. done.
  - intros i Hi. assert (Hc1 : (ptr <=? ptr + Z.of_nat i * obj_size) &&
      (ptr + Z.of_nat i * obj_size <? ptr + Z.of_nat n * obj_size) = true).
    { apply andb_true_iff. split; [apply Z.leb_le; lia|apply Z.ltb_lt; nia]. }
    split; [done|]. intros e. rewrite Hc1, andb_false_r. rewrite Z.add_simpl_l, u64_small, Z.div_mul by nia. done.
Qed.
End FixedSlab.

(** ** Examples *)

(** Eight pages at a host address, of which the bitmap keeps one. *)
Definition demo_raw : KDynamicPageManager.KDynamicPageManager TinyMT.State :=
  KDynamicPageManager.mkPages demo_empty 0 0 0 0 0 0 0 0.
Definition demo_host : Z := 0x70000000.
Definition demo_pages : KDynamicPageManager.KDynamicPageManager TinyMT.State :=
  match KDynamicPageManager.Initialize demo_host 0x10000 0x8000 4096 demo_raw ∅ with
  | Done _ (_, pm, _) => pm
  | Undef => demo_raw
  end.

(** Objects of 64 bytes with a constructor that writes their first word. *)
#[export] Program Instance demo_object : SlabObject := {|
  sizeof := 64; construct a m := store a 0x55 m |}.
Next Obligation. unfold PageSize. lia. Qed.
Next Obligation. by exists 8. Qed.
Next Obligation. intros a m x Hx. apply load_store_ne. lia. Qed.

Lemma demo_area : area_arg demo_host 0x10000 0x8000 4096.
Proof.
  split; unfold demo_host; [lia|lia| |lia]. split_and!; [by exists 16|by exists 8|by exists 1].
Qed.

Lemma page_manager_initialize_witness :
  exists r pm' m', KDynamicPageManager.Initialize demo_host 0x10000 0x8000 4096 demo_raw ∅ = Done true (r, pm', m') /\
    r = ResultSuccess /\ pages_wf pm' /\ KDynamicPageManager.GetCount pm' = 7.
Proof.
  destruct (page_manager_initialize demo_host 0x10000 0x8000 4096 demo_raw ∅ demo_area demo_rng_wf eq_refl eq_refl)
    as (r & pm' & m' & E & H).
  change (management_size 0x10000 0x8000 4096 <? 0x8000) with true in H. destruct H as (Hr & W & Hc & _).
  exists r, pm', m'. by split_and!.
Defined.

Lemma demo_pages_wf : pages_wf demo_pages.
Proof.
  destruct (pages_Initialize_ok demo_host 0x10000 0x8000 4096 demo_raw ∅ demo_area demo_rng_wf eq_refl eq_refl)
    as (pm' & m' & E & W & _); [by vm_compute|]. unfold demo_pages. by rewrite E.
Qed.

Lemma page_manager_allocate_witness :
  exists p pm', KDynamicPageManager.Allocate demo_pages = Done true (p, pm') /\ p <> 0 /\ ~ page_taken demo_pages p.
Proof.
  destruct (page_manager_allocate demo_pages demo_pages_wf) as (p & pm' & E & _ & _ & H0 & _ & H).
  assert (Hp : p <> 0). { intros Hp%H0. by vm_compute in Hp. }
  exists p, pm'. split; [exact E|]. split; [exact Hp|]. apply (H Hp).
Defined.

Definition demo_slab : KDynamicSlabHeap.KDynamicSlabHeap := KDynamicSlabHeap.KDynamicSlabHeap_new.

Lemma demo_slab_state : slab_state demo_slab (Some demo_pages) ∅ [] [].
Proof. apply (new_slab_state (Some demo_pages)), demo_pages_wf. Qed.

Lemma dynamic_slab_allocate_witness :
  exists p h' pa' m', KDynamicSlabHeap.Allocate true demo_slab (Some demo_pages) ∅ = Done true (p, h', pa', m') /\
    p <> 0 /\ available h' pa' = 447.
Proof.
  destruct (dynamic_slab_allocate true demo_slab (Some demo_pages) ∅ [] [] demo_slab_state)
    as (p & h' & pa' & m' & E & H0 & _ & H).
  assert (Hp : p <> 0). { intros Hp%H0. by vm_compute in Hp. }
  exists p, h', pa', m'. split; [exact E|]. split; [exact Hp|].
  destruct (H Hp) as (ps' & _ & _ & Ha & _). rewrite Ha. by vm_compute.
Defined.

Lemma dynamic_slab_initialize_witness :
  exists h' pm' m', KDynamicSlabHeap.Initialize 100 demo_slab demo_pages ∅ = Done true (h', pm', m') /\
    100 <= KDynamicSlabHeap.GetCount h' /\ available h' (Some pm') = 448.
Proof.
  destruct (dynamic_slab_initialize 100 demo_pages ∅ demo_pages_wf) as (h' & pm' & m' & ps' & E & _ & Hc & Ha & _);
    [by vm_compute|]. exists h', pm', m'. by split_and!.
Defined.

Lemma dynamic_slabs_share_pages_witness :
  exists p h1' pa' m' ps1' used1',
    KDynamicSlabHeap.Allocate false demo_slab (Some demo_pages) ∅ = Done true (p, h1', pa', m') /\
    slab_state h1' pa' m' ps1' used1' /\ slab_state demo_slab pa' m' [] [].
Proof.
  destruct (dynamic_slabs_share_pages false demo_slab demo_slab demo_pages ∅ [] [] [] [] demo_slab_state demo_slab_state)
    as (p & h1' & pa' & m' & ps1' & used1' & E & W1 & W2 & _); [by intros x Hx; apply elem_of_nil in Hx|].
  exists p, h1', pa', m', ps1', used1'. split; [exact E|]. split; [exact W1|exact W2].
Defined.

Lemma slab_heap_initialize_witness :
  exists h' m', KSlabHeapBase.Initialize 64 0x1000 200 (KSlabHeapBase.mkBase 0 0 0 0 0) ∅ = Done true (h', m') /\
    chain m' (KSlabHeapBase.m_head h') [0x1000; 0x1040; 0x1080].
Proof.
  destruct (slab_heap_initialize 64 0x1000 200 (KSlabHeapBase.mkBase 0 0 0 0 0) ∅) as (h' & m' & E & Hc & _); try lia; try done.
  by exists h', m'.
Defined.

Definition demo_tables : KPageTableSlabHeap.KPageTableSlabHeap :=
  KPageTableSlabHeap.Initialize_counts (KDynamicSlabHeap.mkSlab 0 0 0 0 0x10000 0x3000).

Lemma page_table_references_witness :
  exists t', KPageTableSlabHeap.Open demo_tables 0x11008 2 = Done true t' /\
    KPageTableSlabHeap.GetRefCount t' 0x11008 = Done true 2 /\
    KPageTableSlabHeap.Close t' 0x11008 2 = Done true (true, demo_tables).
Proof.
  destruct (page_table_references demo_tables 0x11008 2 0) as (t' & E & _ & Hg & _ & Hc); try done; try lia.
  - split_and!; [by vm_compute..|by exists 3|done|]. apply Forall_replicate. by vm_compute.
  - exists t'. split; [exact E|]. split; [exact Hg|exact Hc].
Defined.

(** [Free] subtracts an address of the emulated kernel from a host address: giving back the page
    that was just handed out is refused by the bitmap. *)
Lemma page_free_outside_bitmap :
  ('(p, pm) ← KDynamicPageManager.Allocate demo_pages; KDynamicPageManager.Free p pm ∅) = Undef.
Proof. vm_compute. reflexivity. Qed.
