(* ===== verification/KMemoryBlockSlab.v ===== *)
(** * KMemoryBlockSlab: the growing slab as the source of memory blocks

    KMemoryBlockManager.v is written against the interface [BlockSlab], of which it uses the counter
    of free objects as an instance.  Here the growing slab of KSlabHeap.v, with the page manager it
    draws from, is shown to refine that counter: along every sequence of allocations and releases
    the two give the same answers, and the slab never fails an assertion nor leaves its memory. *)

From S2P Require Import Prelude TinyMT KPageBitmap KMemoryBlock KMemoryBlockManager KSlabHeap.
#[local] Open Scope Z_scope.

(** A call of the slab: an allocation, or the release of the object in use number [k]. *)
Inductive slab_call :=
| call_Allocate
| call_Free (k : nat).

Section Refinement.
Context {S : Type} {ES : EntropySource S} {T : SlabObject}.
Notation manager := (KDynamicResourceManager.KDynamicResourceManager (S := S)).

(** The resource manager with the memory and the objects in use. *)
Record world := mkWorld { w_manager : manager; w_memory : memory; w_used : list Z }.

(** One call; the answer says whether it did something. *)
Definition slab_do (clear : bool) (c : slab_call) (w : world) : outcome (bool * world) :=
  match c with
  | call_Allocate =>
      '(p, r, m) ← KDynamicResourceManager.Allocate clear (w_manager w) (w_memory w);
      mret (negb (p =? 0), mkWorld r m (if p =? 0 then w_used w else p :: w_used w))
  | call_Free k =>
      match w_used w !! k with
      | None => mret (false, w)
      | Some p =>
          '(r, m) ← KDynamicResourceManager.Free p (w_manager w) (w_memory w);
          mret (true, mkWorld r m (delete k (w_used w)))
      end
  end.

Fixpoint slab_run (clear : bool) (cs : list slab_call) (w : world) : outcome (list bool * world) :=
  match cs with
  | [] => mret ([], w)
  | c :: r =>
      '(a, w) ← slab_do clear c w;
      '(rest, w) ← slab_run clear r w;
      mret (a :: rest, w)
  end.

(** The same calls on the counter, with the number of objects in use. *)
Definition counter_do (c : slab_call) (n u : nat) : bool * nat * nat :=
  match c with
  | call_Allocate =>
      let '(b, n') := slab_Allocate n in
      match b with None => (false, n', u) | Some _ => (true, n', Datatypes.S u) end
  | call_Free k => if decide (k < u)%nat then (true, slab_Free n KMemoryBlock_default, Nat.pred u) else (false, n, u)
  end.

Fixpoint counter_run (cs : list slab_call) (n u : nat) : list bool :=
  match cs with
  | [] => []
  | c :: r => let '(a, n, u) := counter_do c n u in a :: counter_run r n u
  end.

(** The abstraction: the counter holds the number of objects that can still be allocated. *)
Definition represents (w : world) (n u : nat) : Prop :=
  exists ps, slab_state (KDynamicResourceManager.m_slab_heap (w_manager w))
    (KDynamicResourceManager.m_page_allocator (w_manager w)) (w_memory w) ps (w_used w) /\
  available (KDynamicResourceManager.m_slab_heap (w_manager w))
    (KDynamicResourceManager.m_page_allocator (w_manager w)) = Z.of_nat n /\
  length (w_used w) = u.

Lemma slab_do_simulates clear c w n u :
  represents w n u ->
  exists a w', slab_do clear c w = Done true (a, w') /\
    let '(a', n', u') := counter_do c n u in a = a' /\ represents w' n' u'.
Proof.
  intros (ps & W & Ha & Hu). destruct w as [[pa h] m used]. cbn [w_manager w_memory w_used
    KDynamicResourceManager.m_slab_heap KDynamicResourceManager.m_page_allocator] in *.
  destruct c as [|k]; cbn [slab_do counter_do].
  - unfold KDynamicResourceManager.Allocate. cbn [w_manager w_memory w_used
      KDynamicResourceManager.m_slab_heap KDynamicResourceManager.m_page_allocator].
    destruct (slab_Allocate_ok clear h pa m ps used W) as (p & h' & pa' & m' & E & Hc). rewrite E. ostep.
    cbv beta iota. ostep. cbv beta iota.
    destruct Hc as [(_ & Ha0 & -> & -> & Ha' & W')|(ps' & Ha0 & [W' Hav _ _])].
    + assert (n = 0%nat) as -> by lia. cbn [slab_Allocate counted_slab].
      eexists _, _. split; [reflexivity|]. split; [done|]. by exists ps.
    + destruct n as [|n']; [lia|]. cbn [slab_Allocate counted_slab].
      destruct (ss_area _ _ _ _ _ W') as (host & Hh & Har & _), (ss_free _ _ _ _ _ W') as (free & _ & Hp).
      assert (Ho : p ∈ objects ps') by (rewrite <- Hp; apply elem_of_app; right; left).
      destruct (objects_range host ps' Hh Har p Ho) as [Hp0 _].
      rewrite (proj2 (Z.eqb_neq p 0)) by lia. eexists _, _. split; [reflexivity|]. split; [done|].
      exists ps'. split_and!; [done|cbn; lia|cbn; lia].
  - cbn [w_used]. destruct (decide (k < u)%nat) as [Hk|Hk].
    + destruct (lookup_lt_is_Some_2 used k) as [p Hp]; [lia|]. rewrite Hp.
      destruct (slab_Free_ok h pa m ps used k p W Hp) as (h' & m' & E & W' & Hav & _).
      unfold KDynamicResourceManager.Free. cbn [w_manager w_memory KDynamicResourceManager.m_slab_heap
        KDynamicResourceManager.m_page_allocator]. rewrite E. ostep. eexists _, _. split; [reflexivity|].
      split; [done|]. exists ps. split_and!; [done|cbn; lia|].
      cbn [w_used]. rewrite length_delete by (by eexists). lia.
    + rewrite lookup_ge_None_2 by lia. eexists _, _. split; [reflexivity|]. split; [done|]. by exists ps.
Qed.

(** C26: The growing slab refines the counter of free objects: along every sequence of allocations and
    releases it gives the answers of the counter, so that an allocation fails only when the number of
    objects its pages are good for is used up, and at the end it still represents the counter. *)
Theorem dynamic_slab_refines_counter clear cs w n u :
  represents w n u ->
  exists w' n' u', slab_run clear cs w = Done true (counter_run cs n u, w') /\ represents w' n' u'.
Proof.
  revert w n u. induction cs as [|c cs IH]; intros w n u R; cbn [slab_run counter_run]; [by exists w, n, u|].
  destruct (slab_do_simulates clear c w n u R) as (a & w1 & E & H). rewrite E. ostep.
  destruct (counter_do c n u) as [[a' n1] u1]. destruct H as [-> R1].
  destruct (IH w1 n1 u1 R1) as (w' & n' & u' & E' & R'). rewrite E'. ostep. by exists w', n', u'.
Qed.
End Refinement.

Definition demo_world : world :=
  mkWorld (KDynamicResourceManager.mkManager (Some demo_pages) demo_slab) ∅ [].

Lemma dynamic_slab_refines_counter_witness :
  exists w' n' u', slab_run true [call_Allocate; call_Allocate; call_Free 1; call_Free 5; call_Allocate] demo_world =
    Done true ([true; true; true; false; true], w') /\ represents w' n' u'.
Proof.
  apply (dynamic_slab_refines_counter true
    [call_Allocate; call_Allocate; call_Free 1; call_Free 5; call_Allocate] demo_world 448 0).
  exists []. split; [apply demo_slab_state|]. split; [by vm_compute|done].
Defined.
