(* ===== verification/KMemoryManager.v ===== *)
(** * KMemoryManager: core/hle/kernel/k_memory_manager.{h,cpp} and k_page_group.{h,cpp}

    The owner of the physical pages: several managers, each with a page heap (KPageHeap.v) and a
    reference count per page, chained into pools, and the page groups that collect what was
    allocated.  The memory layout, which says to which manager an address belongs, and the source of
    the block records of a group are parameters; the map of optimised pages, which lies in device
    memory, is a member of its manager; what is written to device memory is recorded.

    The theorems say that closing references gives back exactly the pages whose count drops to zero,
    that a contiguous allocation takes pages nobody has and opens them once, that allocating a
    group takes exactly the number of pages asked for, and that a failed allocation gives back
    everything it took, unless a block runs across two adjacent managers. *)

From S2P Require Import Prelude Common TinyMT KPageBitmap KPageHeap BitField.
#[local] Open Scope Z_scope.

(** ** Pools and directions *)

Module Pool.
Definition Application : Z := 0.
Definition Applet : Z := 1.
Definition System : Z := 2.
Definition SystemNonSecure : Z := 3.
Definition Count : Z := 4.
Definition Shift : Z := 4.
Definition Mask : Z := u32 (0xF .<< Shift).
End Pool.

Module Direction.
Definition FromFront : Z := 0.
Definition FromBack : Z := 1.
Definition Shift : Z := 0.
Definition Mask : Z := u32 (0xF .<< Shift).
End Direction.

Definition MaxManagerCount : Z := 10.

Definition EncodeOption (pool dir : Z) : Z :=
  u32 (pool .<< Pool.Shift) .| u32 (dir .<< Direction.Shift).
Definition GetPool (option : Z) : Z := (option .& Pool.Mask) .>> Pool.Shift.
Definition GetDirection (option : Z) : Z := (option .& Direction.Mask) .>> Direction.Shift.
Definition DecodeOption (option : Z) : Z * Z := (GetPool option, GetDirection option).

(** ** Blocks of pages *)

(** The link to the next block is the order of the list the block is in. *)
Record KBlockInfo := mkInfo { m_page_index : Z; m_num_pages : Z }.

Definition KBlockInfo_Initialize (addr np : Z) : outcome KBlockInfo :=
  ASSERT (IsAligned 64 addr PageSize);;
  ASSERT (u32 np =? np);;
  mret (mkInfo (u32 (addr / PageSize)) (u32 np)).

Definition Info_GetAddress (b : KBlockInfo) : Z := u64 (m_page_index b * PageSize).
Definition Info_GetNumPages (b : KBlockInfo) : Z := m_num_pages b.
Definition Info_GetSize (b : KBlockInfo) : Z := u64 (Info_GetNumPages b * PageSize).
(** The sum of the two 32-bit members is formed in 32 bits. *)
Definition Info_GetEndAddress (b : KBlockInfo) : Z := u64 (u32 (m_page_index b + m_num_pages b) * PageSize).
Definition Info_GetLastAddress (b : KBlockInfo) : Z := u64 (Info_GetEndAddress b - 1).

Definition Info_IsEquivalentTo (b rhs : KBlockInfo) : bool :=
  (m_page_index b =? m_page_index rhs) && (m_num_pages b =? m_num_pages rhs).

Definition IsStrictlyBefore (b : KBlockInfo) (addr : Z) : bool :=
  let end_ := Info_GetEndAddress b in
  if negb (m_page_index b =? 0) && (end_ =? 0) then false else end_ <? addr.

(** [None] when the pages do not follow the block. *)
Definition TryConcatenate (b : KBlockInfo) (addr np : Z) : option KBlockInfo :=
  if negb (addr =? 0) && (addr =? Info_GetEndAddress b)
  then Some (mkInfo (m_page_index b) (u32 (m_num_pages b + u32 np))) else None.

(** ** Page groups *)

(** Where the records of the blocks come from. *)
Class BlockInfoSource (M : Type) := {
  info_Allocate : M -> bool * M;
  info_Free : M -> M
}.

Section PageGroup.
Context {M : Type} `{!BlockInfoSource M}.

Record KPageGroup := mkGroup { g_blocks : list KBlockInfo; m_manager : M }.

Definition empty (g : KPageGroup) : bool := match g_blocks g with [] => true | _ => false end.

Fixpoint free_infos (l : list KBlockInfo) (m : M) : M :=
  match l with [] => m | _ :: r => free_infos r (info_Free m) end.

Definition Finalize (g : KPageGroup) : KPageGroup := mkGroup [] (free_infos (g_blocks g) (m_manager g)).

Definition Group_GetNumPages (g : KPageGroup) : Z :=
  fold_left (fun n b => u64 (n + Info_GetNumPages b)) (g_blocks g) 0.

(** The list with its last block replaced, [None] when there is none or it does not concatenate. *)
Fixpoint concat_last (l : list KBlockInfo) (addr np : Z) : option (list KBlockInfo) :=
  match l with
  | [] => None
  | [b] => match TryConcatenate b addr np with Some b' => Some [b'] | None => None end
  | b :: r => match concat_last r addr np with Some r' => Some (b :: r') | None => None end
  end.

Definition AddBlock (addr num_pages : Z) (g : KPageGroup) : outcome (Z * KPageGroup) :=
  if num_pages =? 0 then mret (ResultSuccess, g)
  else
    ASSERT (addr <? u64 (addr + u64 (num_pages * PageSize)));;
    match concat_last (g_blocks g) addr num_pages with
    | Some l => mret (ResultSuccess, mkGroup l (m_manager g))
    | None =>
        let '(ok, m) := info_Allocate (m_manager g) in
        if negb ok then mret (ResultOutOfResource, mkGroup (g_blocks g) m)
        else
          new_block ← KBlockInfo_Initialize addr num_pages;
          mret (ResultSuccess, mkGroup (g_blocks g ++ [new_block]) m)
    end.

Fixpoint equivalent_blocks (l r : list KBlockInfo) : bool :=
  match l, r with
  | [], [] => true
  | a :: l', b :: r' => if negb (Info_IsEquivalentTo a b) then false else equivalent_blocks l' r'
  | _, _ => false
  end.
Definition Group_IsEquivalentTo (g rhs : KPageGroup) : bool := equivalent_blocks (g_blocks g) (g_blocks rhs).

End PageGroup.
Arguments KPageGroup : clear implicits.

(** ** One manager *)

Section Managers.
Context {S : Type} {ES : EntropySource S} {B : Type} {FB : FreeBitmap B}.
Notation heap := (KPageHeap (S := S) (B := B)).

Record Impl := mkImpl {
  m_heap : heap;
  m_page_reference_counts : list Z;
  m_management_region : Z;
  m_pool : Z;
  m_next : option nat;
  m_prev : option nat;
  optimize_map : list Z
}.

Definition with_heap (h : heap) (p : Impl) : Impl :=
  mkImpl h (m_page_reference_counts p) (m_management_region p) (m_pool p) (m_next p) (m_prev p) (optimize_map p).
Definition with_counts (c : list Z) (p : Impl) : Impl :=
  mkImpl (m_heap p) c (m_management_region p) (m_pool p) (m_next p) (m_prev p) (optimize_map p).
Definition with_map (c : list Z) (p : Impl) : Impl :=
  mkImpl (m_heap p) (m_page_reference_counts p) (m_management_region p) (m_pool p) (m_next p) (m_prev p) c.

Definition Impl_AllocateBlock (index : Z) (random : bool) (p : Impl) : outcome (Z * Impl) :=
  '(a, h) ← AllocateBlock (m_heap p) index random; mret (a, with_heap h p).
Definition Impl_AllocateAligned (index num_pages align_pages : Z) (p : Impl) : outcome (Z * Impl) :=
  '(a, h) ← AllocateAligned (m_heap p) index num_pages align_pages; mret (a, with_heap h p).
Definition Impl_Free (addr num_pages : Z) (p : Impl) : outcome Impl :=
  h ← Free (m_heap p) addr num_pages; mret (with_heap h p).
Definition SetInitialUsedHeapSize (reserved_size : Z) (p : Impl) : outcome Impl :=
  h ← SetInitialUsedSize (m_heap p) reserved_size; mret (with_heap h p).

Definition Impl_GetPool (p : Impl) : Z := m_pool p.
Definition Impl_GetSize (p : Impl) : Z := Heap_GetSize (m_heap p).
Definition Impl_GetEndAddress (p : Impl) : Z := GetEndAddress (m_heap p).
Definition Impl_GetFreeSize (p : Impl) : Z := GetFreeSize (m_heap p).
Definition Impl_GetPageOffset (p : Impl) (address : Z) : Z := GetPageOffset (m_heap p) address.
Definition Impl_GetPageOffsetToEnd (p : Impl) (address : Z) : Z := GetPageOffsetToEnd (m_heap p) address.

(** [n] pages from number [index] on get one more reference; [check] is what is asserted of the
    new count. *)
Fixpoint open_loop (check : Z -> bool) (n : nat) (index : Z) (counts : list Z) : outcome (list Z) :=
  match n with
  | O => mret counts
  | Datatypes.S n' =>
      c ← arr_get counts index;
      let ref_count := u16 (c + 1) in
      counts ← arr_set counts index ref_count;
      ASSERT (check ref_count);;
      open_loop check n' (index + 1) counts
  end.

(** The number of rounds of [while (index < end)]. *)
Definition rounds (index num_pages : Z) : nat := Z.to_nat (u64 (index + num_pages) - index).

Definition Impl_OpenFirst (address num_pages : Z) (p : Impl) : outcome Impl :=
  let index := Impl_GetPageOffset p address in
  c ← open_loop (fun r => r =? 1) (rounds index num_pages) index (m_page_reference_counts p);
  mret (with_counts c p).

Definition Impl_Open (address num_pages : Z) (p : Impl) : outcome Impl :=
  let index := Impl_GetPageOffset p address in
  c ← open_loop (fun r => 1 <? r) (rounds index num_pages) index (m_page_reference_counts p);
  mret (with_counts c p).

Definition free_run (free_start free_count : Z) (p : Impl) : outcome Impl :=
  if 0 <? free_count
  then Impl_Free (u64 (GetAddress (m_heap p) + u64 (free_start * PageSize))) free_count p
  else mret p.

Fixpoint close_loop (n : nat) (index free_start free_count : Z) (p : Impl) : outcome Impl :=
  match n with
  | O => free_run free_start free_count p
  | Datatypes.S n' =>
      c ← arr_get (m_page_reference_counts p) index;
      ASSERT (0 <? c);;
      let ref_count := u16 (c - 1) in
      counts ← arr_set (m_page_reference_counts p) index ref_count;
      let p := with_counts counts p in
      if ref_count =? 0 then
        if 0 <? free_count then close_loop n' (index + 1) free_start (free_count + 1) p
        else close_loop n' (index + 1) index 1 p
      else
        p ← free_run free_start free_count p;
        close_loop n' (index + 1) free_start 0 p
  end.

Definition Impl_Close (address num_pages : Z) (p : Impl) : outcome Impl :=
  let index := Impl_GetPageOffset p address in
  close_loop (rounds index num_pages) index 0 0 p.

(** *** The map of optimised pages *)

Definition CalculateOptimizedProcessOverheadSize (region_size : Z) : Z :=
  u64 (AlignUp 64 (region_size / PageSize) 64 / 64 * 8).

Definition Impl_InitializeOptimizedMemory (p : Impl) : Impl :=
  with_map (replicate (Z.to_nat (CalculateOptimizedProcessOverheadSize (Heap_GetSize (m_heap p)) / 8)) 0) p.

Definition mark_bit (set : bool) (offset w : Z) : Z :=
  let bit := u64 (1 .<< (offset mod 64)) in
  if set then w .| bit else w .& notu 64 bit.

(** [n] pages from [offset] on are marked as optimised or not. *)
Fixpoint track_loop (set : bool) (n : nat) (offset : Z) (map : list Z) : outcome (list Z) :=
  match n with
  | O => mret map
  | Datatypes.S n' =>
      w ← arr_get map (offset / 64);
      map ← arr_set map (offset / 64) (mark_bit set offset w);
      track_loop set n' (offset + 1) map
  end.

(** [while (offset <= last)], with [last = offset + num_pages - 1]. *)
Definition track_rounds (offset num_pages : Z) : nat :=
  Z.to_nat (u64 (u64 (offset + num_pages) - 1) + 1 - offset).

Definition track (set : bool) (block num_pages : Z) (p : Impl) : outcome Impl :=
  let offset := Impl_GetPageOffset p block in
  m ← track_loop set (track_rounds offset num_pages) offset (optimize_map p);
  mret (with_map m p).

Definition TrackUnoptimizedAllocation := track false.
Definition TrackOptimizedAllocation := track true.

(** A fill of device memory: address, size, pattern. *)
Notation fill := (Z * Z * Z)%type.

Fixpoint process_loop (n : nat) (offset base fill_pattern : Z) (map : list Z) (any_new : bool)
    (fills : list fill) : outcome (bool * list fill) :=
  match n with
  | O => mret (any_new, fills)
  | Datatypes.S n' =>
      w ← arr_get map (offset / 64);
      if w .& u64 (1 .<< (offset mod 64)) =? 0 then
        process_loop n' (offset + 1) base fill_pattern map true
          (fills ++ [(u64 (base + offset * PageSize), PageSize, fill_pattern)])
      else process_loop n' (offset + 1) base fill_pattern map any_new fills
  end.

Definition ProcessOptimizedAllocation (block num_pages fill_pattern : Z) (p : Impl) (fills : list fill) :
    outcome (bool * list fill) :=
  let offset := Impl_GetPageOffset p block in
  process_loop (track_rounds offset num_pages) offset (GetAddress (m_heap p)) fill_pattern
    (optimize_map p) false fills.

Definition Impl_CalculateManagementOverheadSize (region_size : Z) : Z :=
  let ref_count_size := u64 (region_size / PageSize * 2) in
  let optimize_map_size := u64 (AlignUp 64 (region_size / PageSize) 64 / 64 * 8) in
  let manager_meta_size := AlignUp 64 (u64 (optimize_map_size + ref_count_size)) PageSize in
  u64 (manager_meta_size + Heap_CalculateManagementOverheadSize region_size MemoryBlockPageShifts).

(** [intended] is the memory size of the board, [host] where the heap keeps its bitmaps. *)
Definition Impl_Initialize (intended host address size management management_end pool : Z) (p : Impl) :
    outcome (Z * Impl) :=
  let ref_count_size := u64 (size / PageSize * 2) in
  let optimize_map_size := CalculateOptimizedProcessOverheadSize size in
  let manager_size := AlignUp 64 (u64 (optimize_map_size + ref_count_size)) PageSize in
  let page_heap_size := Heap_CalculateManagementOverheadSize size MemoryBlockPageShifts in
  let total := u64 (manager_size + page_heap_size) in
  ASSERT (manager_size <=? total);;
  ASSERT (u64 (management + total) <=? management_end);;
  ASSERT (IsAligned 64 total PageSize);;
  ASSERT (IsAligned 64 management PageSize);;
  h ← Initialize (m_heap p) address size (u64 (management + manager_size)) page_heap_size
        MemoryBlockPageShifts host;
  let n := Z.to_nat (intended / PageSize) in
  let counts := take n (m_page_reference_counts p) ++ replicate (n - length (m_page_reference_counts p)) 0 in
  mret (total, mkImpl h counts management pool (m_next p) (m_prev p) (optimize_map p)).

(** ** All managers *)

Record KMemoryManager := mkMemory {
  m_pool_managers_head : list (option nat);
  m_pool_managers_tail : list (option nat);
  m_managers : list Impl;
  m_num_managers : nat;
  m_optimized_process_ids : list Z;
  m_has_optimized_process : list bool
}.

Definition with_managers (l : list Impl) (mm : KMemoryManager) : KMemoryManager :=
  mkMemory (m_pool_managers_head mm) (m_pool_managers_tail mm) l (m_num_managers mm)
    (m_optimized_process_ids mm) (m_has_optimized_process mm).
Definition with_process (ids : list Z) (has : list bool) (mm : KMemoryManager) : KMemoryManager :=
  mkMemory (m_pool_managers_head mm) (m_pool_managers_tail mm) (m_managers mm) (m_num_managers mm) ids has.

(** The memory layout: the attribute of the region of an address is the number of its manager. *)
Variable layout : Z -> Z.

Definition manager_at (mm : KMemoryManager) (i : nat) : outcome Impl := arr_get (m_managers mm) (Z.of_nat i).
Definition set_manager (i : nat) (p : Impl) (mm : KMemoryManager) : KMemoryManager :=
  with_managers (<[i := p]> (m_managers mm)) mm.

Definition GetManager (address : Z) : nat := Z.to_nat (layout address).

Definition GetFirstManager (mm : KMemoryManager) (pool dir : Z) : outcome (option nat) :=
  if dir =? Direction.FromBack then arr_get (m_pool_managers_tail mm) pool
  else arr_get (m_pool_managers_head mm) pool.

Definition GetNextManager (p : Impl) (dir : Z) : option nat :=
  if dir =? Direction.FromBack then m_prev p else m_next p.

(** The loop of [Open], [OpenFirst] and [Close]: the range is cut at the ends of the managers.  A
    round that makes no progress would loop for ever. *)
Fixpoint over_range (op : Z -> Z -> Impl -> outcome Impl) (fuel : nat) (address num_pages : Z)
    (mm : KMemoryManager) : outcome KMemoryManager :=
  if num_pages =? 0 then mret mm
  else
    match fuel with
    | O => Undef
    | Datatypes.S fuel' =>
        let i := GetManager address in
        p ← manager_at mm i;
        let cur_pages := Z.min num_pages (Impl_GetPageOffsetToEnd p address) in
        p ← op address cur_pages p;
        over_range op fuel' (u64 (address + u64 (cur_pages * PageSize))) (u64 (num_pages - cur_pages))
          (set_manager i p mm)
    end.

Definition Open (address num_pages : Z) (mm : KMemoryManager) : outcome KMemoryManager :=
  over_range Impl_Open (Z.to_nat num_pages) address num_pages mm.
Definition OpenFirst (address num_pages : Z) (mm : KMemoryManager) : outcome KMemoryManager :=
  over_range Impl_OpenFirst (Z.to_nat num_pages) address num_pages mm.
Definition Close (address num_pages : Z) (mm : KMemoryManager) : outcome KMemoryManager :=
  over_range Impl_Close (Z.to_nat num_pages) address num_pages mm.

Definition GetSize (mm : KMemoryManager) : Z :=
  fold_left (fun total p => u64 (total + Impl_GetSize p)) (take (m_num_managers mm) (m_managers mm)) 0.
Definition GetFreeSize (mm : KMemoryManager) : Z :=
  fold_left (fun total p => u64 (total + Impl_GetFreeSize p)) (take (m_num_managers mm) (m_managers mm)) 0.

(** The sum of [f] over the managers of a pool; there are at most [MaxManagerCount] of them. *)
Fixpoint sum_pool (f : Impl -> Z) (fuel : nat) (cur : option nat) (total : Z) (mm : KMemoryManager) : outcome Z :=
  match cur, fuel with
  | None, _ => mret total
  | Some i, O => Undef
  | Some i, Datatypes.S fuel' =>
      p ← manager_at mm i;
      sum_pool f fuel' (GetNextManager p Direction.FromFront) (u64 (total + f p)) mm
  end.

Definition GetSize_pool (pool : Z) (mm : KMemoryManager) : outcome Z :=
  first ← GetFirstManager mm pool Direction.FromFront;
  sum_pool Impl_GetSize (Z.to_nat MaxManagerCount) first 0 mm.
Definition GetFreeSize_pool (pool : Z) (mm : KMemoryManager) : outcome Z :=
  first ← GetFirstManager mm pool Direction.FromFront;
  sum_pool Impl_GetFreeSize (Z.to_nat MaxManagerCount) first 0 mm.

Definition Memory_GetPool (address : Z) (mm : KMemoryManager) : outcome Z :=
  p ← manager_at mm (GetManager address); mret (Impl_GetPool p).

(** *** Optimised processes *)

Fixpoint clear_maps (fuel : nat) (cur : option nat) (mm : KMemoryManager) : outcome KMemoryManager :=
  match cur, fuel with
  | None, _ => mret mm
  | Some i, O => Undef
  | Some i, Datatypes.S fuel' =>
      p ← manager_at mm i;
      clear_maps fuel' (GetNextManager p Direction.FromFront) (set_manager i (Impl_InitializeOptimizedMemory p) mm)
  end.

Definition InitializeOptimizedMemory (process_id pool : Z) (mm : KMemoryManager) :
    outcome (Z * KMemoryManager) :=
  has ← arr_get (m_has_optimized_process mm) pool;
  if has : bool then mret (ResultBusy, mm)
  else
    ids ← arr_set (m_optimized_process_ids mm) pool process_id;
    hass ← arr_set (m_has_optimized_process mm) pool true;
    let mm := with_process ids hass mm in
    first ← GetFirstManager mm pool Direction.FromFront;
    mm ← clear_maps (Z.to_nat MaxManagerCount) first mm;
    mret (ResultSuccess, mm).

Definition FinalizeOptimizedMemory (process_id pool : Z) (mm : KMemoryManager) : outcome KMemoryManager :=
  has ← arr_get (m_has_optimized_process mm) pool;
  id ← arr_get (m_optimized_process_ids mm) pool;
  if has && (id =? process_id) then
    hass ← arr_set (m_has_optimized_process mm) pool false;
    mret (with_process (m_optimized_process_ids mm) hass mm)
  else mret mm.

(** *** Contiguous allocation *)

(** The first manager of the chain that has the pages. *)
Fixpoint find_manager (fuel : nat) (cur : option nat) (dir heap_index num_pages align_pages : Z)
    (mm : KMemoryManager) : outcome (option (nat * Z) * KMemoryManager) :=
  match cur, fuel with
  | None, _ => mret (None, mm)
  | Some i, O => Undef
  | Some i, Datatypes.S fuel' =>
      p ← manager_at mm i;
      '(block, p') ← Impl_AllocateAligned heap_index num_pages align_pages p;
      let mm := set_manager i p' mm in
      if negb (block =? 0) then mret (Some (i, block), mm)
      else find_manager fuel' (GetNextManager p' dir) dir heap_index num_pages align_pages mm
  end.

Definition AllocateAndOpenContinuous (num_pages align_pages option : Z) (mm : KMemoryManager) :
    outcome (Z * KMemoryManager) :=
  if num_pages =? 0 then mret (0, mm)
  else
    let '(pool, dir) := DecodeOption option in
    let heap_index := GetAlignedBlockIndex num_pages align_pages in
    first ← GetFirstManager mm pool dir;
    '(r, mm) ← find_manager (Z.to_nat MaxManagerCount) first dir heap_index num_pages align_pages mm;
    match r with
    | None => mret (0, mm)
    | Some (i, block) =>
        has ← arr_get (m_has_optimized_process mm) pool;
        p ← manager_at mm i;
        p ← (if has : bool then TrackUnoptimizedAllocation block num_pages p else mret p);
        p ← Impl_OpenFirst block num_pages p;
        mret (block, set_manager i p mm)
    end.

(** *** Allocation of groups *)

Context {M : Type} `{!BlockInfoSource M}.
Notation group := (KPageGroup M).

(** [while (num_pages >= pages_per_alloc)] on one manager.  The first component is the error of a
    failed [AddBlock], after the block has been given back. *)
Fixpoint alloc_while (fuel : nat) (i : nat) (index pages_per_alloc : Z) (unoptimized random : bool)
    (num_pages : Z) (out : group) (mm : KMemoryManager) : outcome (option Z * Z * group * KMemoryManager) :=
  if num_pages <? pages_per_alloc then mret (None, num_pages, out, mm)
  else
    match fuel with
    | O => Undef
    | Datatypes.S fuel' =>
        p ← manager_at mm i;
        '(block, p) ← Impl_AllocateBlock index random p;
        if block =? 0 then mret (None, num_pages, out, set_manager i p mm)
        else
          '(r, out) ← AddBlock block pages_per_alloc out;
          if negb (r =? ResultSuccess) then
            p ← Impl_Free block pages_per_alloc p;
            mret (Some r, num_pages, out, set_manager i p mm)
          else
            p ← (if unoptimized then TrackUnoptimizedAllocation block pages_per_alloc p else mret p);
            alloc_while fuel' i index pages_per_alloc unoptimized random (num_pages - pages_per_alloc) out
              (set_manager i p mm)
    end.

(** The managers of a chain, one after the other; every block takes at least a page. *)
Fixpoint alloc_managers (fuel : nat) (cur : option nat) (dir index pages_per_alloc : Z)
    (unoptimized random : bool) (num_pages : Z) (out : group) (mm : KMemoryManager) :
    outcome (option Z * Z * group * KMemoryManager) :=
  match cur, fuel with
  | None, _ => mret (None, num_pages, out, mm)
  | Some i, O => Undef
  | Some i, Datatypes.S fuel' =>
      '(err, num_pages, out, mm) ← alloc_while (Z.to_nat num_pages) i index pages_per_alloc unoptimized random
                                     num_pages out mm;
      match err with
      | Some r => mret (Some r, num_pages, out, mm)
      | None =>
          p ← manager_at mm i;
          alloc_managers fuel' (GetNextManager p dir) dir index pages_per_alloc unoptimized random num_pages out mm
      end
  end.

(** The levels from [n - 1] down to 0. *)
Fixpoint alloc_levels (n : nat) (pool dir : Z) (unoptimized random : bool) (num_pages : Z) (out : group)
    (mm : KMemoryManager) : outcome (option Z * Z * group * KMemoryManager) :=
  match n with
  | O => mret (None, num_pages, out, mm)
  | Datatypes.S n' =>
      if negb (0 <? num_pages) then mret (None, num_pages, out, mm)
      else
        let index := Z.of_nat n' in
        pages_per_alloc ← GetBlockNumPages index;
        first ← GetFirstManager mm pool dir;
        '(err, num_pages, out, mm) ← alloc_managers (Z.to_nat MaxManagerCount) first dir index pages_per_alloc
                                       unoptimized random num_pages out mm;
        match err with
        | Some r => mret (Some r, num_pages, out, mm)
        | None => alloc_levels n' pool dir unoptimized random num_pages out mm
        end
  end.

(** The blocks of a group go back to the managers of their first pages. *)
Fixpoint free_blocks (l : list KBlockInfo) (mm : KMemoryManager) : outcome KMemoryManager :=
  match l with
  | [] => mret mm
  | b :: r =>
      let i := GetManager (Info_GetAddress b) in
      p ← manager_at mm i;
      let node_num_pages := Z.min (Info_GetNumPages b) (u64 (Impl_GetEndAddress p - Info_GetAddress b) / PageSize) in
      p ← Impl_Free (Info_GetAddress b) node_num_pages p;
      free_blocks r (set_manager i p mm)
  end.

Definition AllocatePageGroupImpl (num_pages pool dir : Z) (unoptimized random : bool) (out : group)
    (mm : KMemoryManager) : outcome (Z * group * KMemoryManager) :=
  let heap_index := GetBlockIndex num_pages in
  if negb (0 <=? heap_index) then mret (ResultOutOfMemory, out, mm)
  else
    '(err, remaining, out, mm) ← alloc_levels (Z.to_nat (heap_index + 1)) pool dir unoptimized random num_pages out mm;
    let r := match err with
             | Some r => r
             | None => if remaining =? 0 then ResultSuccess else ResultOutOfMemory
             end in
    if r =? ResultSuccess then mret (r, out, mm)
    else
      mm ← free_blocks (g_blocks out) mm;
      mret (r, Finalize out, mm).

(** A loop over the managers of the pages of one block. *)
Fixpoint over_blocks (op : Z -> Z -> Impl -> outcome Impl) (l : list KBlockInfo) (mm : KMemoryManager) :
    outcome KMemoryManager :=
  match l with
  | [] => mret mm
  | b :: r =>
      mm ← over_range op (Z.to_nat (Info_GetNumPages b)) (Info_GetAddress b) (Info_GetNumPages b) mm;
      over_blocks op r mm
  end.

Definition AllocateAndOpen (num_pages option : Z) (out : group) (mm : KMemoryManager) :
    outcome (Z * group * KMemoryManager) :=
  ASSERT (Group_GetNumPages out =? 0);;
  if num_pages =? 0 then mret (ResultSuccess, out, mm)
  else
    let '(pool, dir) := DecodeOption option in
    unoptimized ← arr_get (m_has_optimized_process mm) pool;
    '(r, out, mm) ← AllocatePageGroupImpl num_pages pool dir unoptimized true out mm;
    if negb (r =? ResultSuccess) then mret (r, out, mm)
    else
      mm ← over_blocks Impl_OpenFirst (g_blocks out) mm;
      mret (ResultSuccess, out, mm).

(** The pages of one block are filled where they are new; [any_new] is that of the last manager. *)
Fixpoint fill_range (fuel : nat) (address remaining fill_pattern : Z) (any_new : bool) (mm : KMemoryManager)
    (fills : list (Z * Z * Z)) : outcome (bool * list (Z * Z * Z)) :=
  if remaining =? 0 then mret (any_new, fills)
  else
    match fuel with
    | O => Undef
    | Datatypes.S fuel' =>
        p ← manager_at mm (GetManager address);
        let cur_pages := Z.min remaining (Impl_GetPageOffsetToEnd p address) in
        '(any_new, fills) ← ProcessOptimizedAllocation address cur_pages fill_pattern p fills;
        fill_range fuel' (u64 (address + u64 (cur_pages * PageSize))) (u64 (remaining - cur_pages)) fill_pattern
          any_new mm fills
    end.

Fixpoint optimize_blocks (l : list KBlockInfo) (fill_pattern : Z) (mm : KMemoryManager) (fills : list (Z * Z * Z)) :
    outcome (KMemoryManager * list (Z * Z * Z)) :=
  match l with
  | [] => mret (mm, fills)
  | b :: r =>
      let pages := Info_GetNumPages b in
      if pages =? 0 then optimize_blocks r fill_pattern mm fills
      else
        '(any_new, fills) ← fill_range (Z.to_nat pages) (Info_GetAddress b) pages fill_pattern false mm fills;
        mm ← (if any_new : bool
              then over_range TrackOptimizedAllocation (Z.to_nat pages) (Info_GetAddress b) pages mm
              else mret mm);
        optimize_blocks r fill_pattern mm fills
  end.

(** The fills are the writes to device memory, by physical address. *)
Definition AllocateForProcess (num_pages option process_id fill_pattern : Z) (out : group) (mm : KMemoryManager) :
    outcome (Z * group * KMemoryManager * list (Z * Z * Z)) :=
  ASSERT (Group_GetNumPages out =? 0);;
  let '(pool, dir) := DecodeOption option in
  has_optimized ← arr_get (m_has_optimized_process mm) pool;
  id ← arr_get (m_optimized_process_ids mm) pool;
  let is_optimized := id =? process_id in
  '(r, out, mm) ← AllocatePageGroupImpl num_pages pool dir (has_optimized && negb is_optimized) false out mm;
  if negb (r =? ResultSuccess) then mret (r, out, mm, [])
  else if has_optimized && is_optimized then
    '(mm, fills) ← optimize_blocks (g_blocks out) fill_pattern mm [];
    mret (ResultSuccess, out, mm, fills)
  else
    mret (ResultSuccess, out, mm,
          map (fun b => (Info_GetAddress b, Info_GetSize b, fill_pattern)) (g_blocks out)).

(** *** References of a group *)

Definition Group_Open (g : group) (mm : KMemoryManager) : outcome KMemoryManager :=
  over_blocks Impl_Open (g_blocks g) mm.
Definition Group_OpenFirst (g : group) (mm : KMemoryManager) : outcome KMemoryManager :=
  over_blocks Impl_OpenFirst (g_blocks g) mm.
Definition Group_Close (g : group) (mm : KMemoryManager) : outcome KMemoryManager :=
  over_blocks Impl_Close (g_blocks g) mm.
Definition CloseAndReset (g : group) (mm : KMemoryManager) : outcome (group * KMemoryManager) :=
  mm ← over_blocks Impl_Close (g_blocks g) mm;
  mret (mkGroup [] (free_infos (g_blocks g) (m_manager g)), mm).

(** KScopedPageGroup: the group it holds, if any, is opened when it is made and closed when it ends. *)
Definition Scoped_enter (m_pg : option group) (not_first : bool) (mm : KMemoryManager) : outcome KMemoryManager :=
  match m_pg with
  | Some g => if not_first then Group_Open g mm else Group_OpenFirst g mm
  | None => mret mm
  end.
Definition Scoped_leave (m_pg : option group) (mm : KMemoryManager) : outcome KMemoryManager :=
  match m_pg with Some g => Group_Close g mm | None => mret mm end.
Definition CancelClose (m_pg : option group) : option group := None.

End Managers.

(** ** The abstract view: reference counts and available pages *)

Local Abbreviation MS := MemoryBlockPageShifts.

Section OneManager.
Context {S : Type} {ES : EntropySource S} {B : Type} {FB : FreeBitmap B}.
Implicit Types p : Impl (S := S) (B := B).

Definition base p : Z := m_heap_address (m_heap p).
Definition limit p : Z := heap_end (m_heap p).
Definition page_no p (x : Z) : Z := (x - base p) / 4096.
Definition count_at (counts : list Z) (i : Z) : Z := default 0 (counts !! Z.to_nat i).
(** The reference count of the page of an address, and whether the page is free. *)
Definition refcount p (x : Z) : Z := count_at (m_page_reference_counts p) (page_no p x).
Definition impl_avail p (x : Z) : Prop := heap_avail (m_heap p) x.
Definition in_impl p (x : Z) : Prop := base p <= x < limit p.

(** The heap is well-formed, lies below the addresses that 32-bit page numbers reach, every page has
    a 16-bit reference count, and a free page has none. *)
Record impl_wf p : Prop := {
  iw_heap : heap_wf MS (m_heap p);
  iw_base : (4096 | base p);
  iw_limit : (4096 | limit p);
  iw_low : limit p < 2 ^ 44;
  iw_len : limit p - base p <= Z.of_nat (length (m_page_reference_counts p)) * 4096;
  iw_counts : Forall (in_u 16) (m_page_reference_counts p);
  iw_free x : impl_avail p x -> refcount p x = 0
}.

(** What no operation on pages changes. *)
Definition same_impl p p' : Prop :=
  base p' = base p /\ limit p' = limit p /\ m_pool p' = m_pool p /\ m_next p' = m_next p /\
  m_prev p' = m_prev p /\ length (optimize_map p') = length (optimize_map p).

(** The counts of the pages of [lo, hi) change by [f]; those that satisfy [g] become available. *)
Definition updated (f : Z -> Z) (g : Z -> Prop) p p' (lo hi : Z) : Prop :=
  impl_wf p' /\ same_impl p p' /\
  (forall x, in_impl p x -> refcount p' x = if decide (lo <= x < hi) then f (refcount p x) else refcount p x) /\
  forall x, impl_avail p' x <-> impl_avail p x \/ lo <= x < hi /\ g (refcount p x).

Lemma same_impl_refl p : same_impl p p.
Proof. by split_and!. Qed.

Lemma same_impl_trans p q r : same_impl p q -> same_impl q r -> same_impl p r.
Proof. intros (?&?&?&?&?&?) (?&?&?&?&?&?). split_and!; congruence. Qed.

Lemma impl_bounds p : impl_wf p -> 0 < base p < limit p.
Proof. intros W. pose proof (hw_addr _ _ (iw_heap _ W)). pose proof (hw_size _ _ (iw_heap _ W)). unfold base, limit, heap_end. lia. Qed.

Lemma avail_in_impl p x : impl_wf p -> impl_avail p x -> in_impl p x.
Proof.
  intros W (i & k & Hk & Hx). apply (bw_bounds _ _ _ _ (hw_blocks _ _ (iw_heap _ W)) _ _ _ Hk Hx).
Qed.

Lemma page_no_range p x : impl_wf p -> in_impl p x ->
  0 <= page_no p x < Z.of_nat (length (m_page_reference_counts p)).
Proof.
  intros W [H1 H2]. pose proof (iw_len _ W). unfold page_no. split; [apply Z.div_pos; lia|].
  apply Z.div_lt_upper_bound; lia.
Qed.

(** Page numbers and addresses. *)
Lemma page_between p x i n : base p + i * 4096 <= x < base p + (i + n) * 4096 <-> i <= page_no p x < i + n.
Proof. unfold page_no. pose proof (Z.div_mod (x - base p) 4096). pose proof (Z.mod_pos_bound (x - base p) 4096). lia. Qed.

Lemma page_of p a i : page_no p a = i -> (4096 | base p) -> (4096 | a) -> a = base p + i * 4096.
Proof.
  intros <- [b Hb] [q ->]. unfold page_no. rewrite Hb. rewrite <- Z.mul_sub_distr_r, Z.div_mul by lia. lia.
Qed.

Lemma GetPageOffset_eq p a : impl_wf p -> in_impl p a -> Impl_GetPageOffset p a = page_no p a.
Proof.
  intros W [H1 H2]. pose proof (iw_low _ W). pose proof (impl_bounds _ W).
  unfold Impl_GetPageOffset, GetPageOffset, page_no, GetAddress. fold (base p). by rewrite u64_small by lia.
Qed.

Lemma GetPageOffsetToEnd_eq p a : impl_wf p -> in_impl p a -> Impl_GetPageOffsetToEnd p a = (limit p - a) / 4096.
Proof.
  intros W [H1 H2]. pose proof (iw_low _ W). pose proof (impl_bounds _ W).
  unfold Impl_GetPageOffsetToEnd, GetPageOffsetToEnd, GetEndAddress, GetAddress, Heap_GetSize.
  change (m_heap_address (m_heap p) + m_heap_size (m_heap p)) with (limit p).
  rewrite (u64_small (limit p)), u64_small by lia. done.
Qed.

(** *** Counting *)

Lemma count_at_insert c i j v : 0 <= i < Z.of_nat (length c) -> 0 <= j ->
  count_at (<[Z.to_nat i := v]> c) j = if decide (j = i) then v else count_at c j.
Proof.
  intros Hi Hj. unfold count_at. destruct (decide (j = i)) as [->|Hne].
  - by rewrite list_lookup_insert_eq by lia.
  - by rewrite list_lookup_insert_ne by lia.
Qed.

Lemma count_at_get c i : 0 <= i < Z.of_nat (length c) -> arr_get c i = mret (count_at c i).
Proof. intros H. destruct (arr_get_lt c i H) as (x & -> & Hx). unfold count_at. by rewrite Hx. Qed.

Lemma count_at_range c i : Forall (in_u 16) c -> 0 <= count_at c i < 2 ^ 16.
Proof.
  intros Hf. unfold count_at. destruct (c !! Z.to_nat i) eqn:E; simpl; [|lia].
  apply (Forall_lookup_1 _ _ _ _ Hf E).
Qed.

Lemma open_loop_spec check n : forall index c,
  Forall (in_u 16) c -> 0 <= index -> index + Z.of_nat n <= Z.of_nat (length c) ->
  (forall i, index <= i < index + Z.of_nat n -> count_at c i < 65535 /\ check (count_at c i + 1) = true) ->
  exists c', open_loop check n index c = Done true c' /\ length c' = length c /\ Forall (in_u 16) c' /\
    forall i, 0 <= i -> count_at c' i = if decide (index <= i < index + Z.of_nat n) then count_at c i + 1 else count_at c i.
Proof.
  induction n as [|n IH]; intros index c Hf Hi Hlen Hc; cbn [open_loop].
  { exists c. split_and!; try done. intros i _. rewrite decide_False by lia. done. }
  rewrite count_at_get by lia. ostep. destruct (Hc index ltac:(lia)) as [Hlt Hck].
  pose proof (count_at_range c index Hf). rewrite (u16_small (count_at c index + 1)) by lia.
  rewrite arr_set_lt by lia. ostep. rewrite bind_assert_true by done.
  set (c1 := <[Z.to_nat index := count_at c index + 1]> c).
  assert (forall j, 0 <= j -> count_at c1 j = if decide (j = index) then count_at c index + 1 else count_at c j) as E1
    by (intros; apply count_at_insert; lia).
  destruct (IH (index + 1) c1) as (c' & E & El & F' & H').
  - apply Forall_insert; [done|]. unfold in_u. lia.
  - lia.
  - unfold c1. rewrite length_insert. lia.
  - intros i Hr. rewrite E1, decide_False by lia. apply Hc. lia.
  - exists c'. split_and!; [done|unfold c1 in El; by rewrite length_insert in El|done|].
    intros i Hr. rewrite H', E1 by done.
    destruct (decide (index <= i < index + Z.of_nat (Datatypes.S n))), (decide (index + 1 <= i < index + 1 + Z.of_nat n)),
      (decide (i = index)) as [->|]; lia.
Qed.

Lemma rounds_eq index n : 0 <= index -> 0 <= n -> index + n < 2 ^ 64 -> Z.of_nat (rounds index n) = n.
Proof. intros. unfold rounds. rewrite u64_small by lia. lia. Qed.

(** A page range of the manager, by page numbers. *)
Lemma range_pages p a n :
  impl_wf p -> (4096 | a) -> 0 < n -> base p <= a -> a + n * 4096 <= limit p ->
  Impl_GetPageOffset p a = page_no p a /\ Z.of_nat (rounds (page_no p a) n) = n /\ 0 <= page_no p a /\
  page_no p a + n <= Z.of_nat (length (m_page_reference_counts p)) /\
  (forall x, a <= x < a + n * 4096 <-> page_no p a <= page_no p x < page_no p a + n).
Proof.
  intros W Ha Hn H1 H2. pose proof (impl_bounds _ W). pose proof (iw_low _ W). pose proof (iw_len _ W).
  pose proof (page_of p a _ eq_refl (iw_base _ W) Ha) as Ea.
  assert (0 <= page_no p a) by (apply Z.div_pos; lia).
  split_and!; [apply GetPageOffset_eq; [done|split; lia]|apply rounds_eq; lia|done|lia|].
  intros x. rewrite <- page_between. lia.
Qed.

(** The two ways of opening: [pre] holds of the availability and the count of every page. *)
Lemma open_spec (check : Z -> bool) p a n :
  impl_wf p -> (4096 | a) -> 0 < n -> base p <= a -> a + n * 4096 <= limit p ->
  (forall x, a <= x < a + n * 4096 -> ~ impl_avail p x /\ refcount p x < 65535 /\ check (refcount p x + 1) = true) ->
  exists p', (c ← open_loop check (rounds (Impl_GetPageOffset p a) n) (Impl_GetPageOffset p a) (m_page_reference_counts p);
              mret (with_counts c p)) = Done true p' /\ updated Z.succ (fun _ => False) p p' a (a + n * 4096).
Proof.
  intros W Ha Hn H1 H2 Hpre. destruct (range_pages p a n W Ha Hn H1 H2) as (-> & Er & Hi & Hlen & Hpg).
  destruct (open_loop_spec check (rounds (page_no p a) n) (page_no p a) (m_page_reference_counts p))
    as (c' & E & El & F' & H'); [apply (iw_counts _ W)|done|lia|..]; rewrite ?Er in *.
  { intros i Hr. assert (page_no p (base p + i * 4096) = i) as Ep
      by (unfold page_no; rewrite Z.add_simpl_l, Z.div_mul; lia).
    destruct (Hpre (base p + i * 4096)) as (_ & ? & ?); [apply Hpg; lia|]. unfold refcount in *. by rewrite Ep in *. }
  rewrite E. ostep. exists (with_counts c' p). split; [done|].
  assert (forall x, in_impl p x -> refcount (with_counts c' p) x =
    if decide (a <= x < a + n * 4096) then Z.succ (refcount p x) else refcount p x) as Href.
  { intros x Hx. unfold refcount. simpl. rewrite H' by (apply (page_no_range p x W Hx)).
    change (page_no (with_counts c' p) x) with (page_no p x). specialize (Hpg x).
    destruct (decide (a <= x < a + n * 4096)), (decide (page_no p a <= page_no p x < page_no p a + n)); (done || tauto || lia). }
  split; [|split; [by split_and!|split; [done|]]].
  - destruct W as [W1 W2 W3 W4 W5 W6 W7]. split; try done. { simpl. by rewrite El. }
    intros x Hx. rewrite Href by (by apply avail_in_impl). destruct (decide _); [|by apply W7].
    exfalso. by apply (Hpre x).
  - intros x. split; [by left|]. intros [?|[_ []]]. done.
Qed.

Lemma Impl_OpenFirst_spec p a n :
  impl_wf p -> (4096 | a) -> 0 < n -> base p <= a -> a + n * 4096 <= limit p ->
  (forall x, a <= x < a + n * 4096 -> ~ impl_avail p x /\ refcount p x = 0) ->
  exists p', Impl_OpenFirst a n p = Done true p' /\ updated Z.succ (fun _ => False) p p' a (a + n * 4096).
Proof.
  intros W Ha Hn H1 H2 Hpre. apply open_spec; try done. intros x Hx. destruct (Hpre x Hx) as [? ->]. by split_and!.
Qed.

Lemma Impl_Open_spec p a n :
  impl_wf p -> (4096 | a) -> 0 < n -> base p <= a -> a + n * 4096 <= limit p ->
  (forall x, a <= x < a + n * 4096 -> 0 < refcount p x < 65535) ->
  exists p', Impl_Open a n p = Done true p' /\ updated Z.succ (fun _ => False) p p' a (a + n * 4096).
Proof.
  intros W Ha Hn H1 H2 Hpre. apply open_spec; try done. intros x Hx. specialize (Hpre x Hx). split_and!.
  - intros Hav%(iw_free _ W). lia.
  - lia.
  - apply Z.ltb_lt. lia.
Qed.

(** *** Giving pages back *)

(** [p'] is [p] with the free pages of [lo, hi) added. *)
Definition gives p p' (lo hi : Z) : Prop := updated id (fun _ => True) p p' lo hi.

Lemma Impl_Free_spec p a n :
  impl_wf p -> (4096 | a) -> 0 <= n -> base p <= a -> a + n * 4096 <= limit p ->
  (forall x, a <= x < a + n * 4096 -> ~ impl_avail p x /\ refcount p x = 0) ->
  exists p', Impl_Free a n p = Done true p' /\ gives p p' a (a + n * 4096) /\
    m_page_reference_counts p' = m_page_reference_counts p.
Proof.
  intros W Ha Hn H1 H2 Hpre.
  destruct (Free_spec MS (m_heap p) a n) as (h & E & F); [apply W|done|done|done|done|intros x Hx; by apply Hpre|].
  unfold Impl_Free. rewrite E. ostep. exists (with_heap h p). split; [done|]. split; [|done].
  destruct (frees_end _ _ _ _ _ F) as [Eb Ee]. destruct F as (Eh & Wh & Hav).
  assert (forall x, refcount (with_heap h p) x = refcount p x) as Href
    by (intros x; unfold refcount, page_no, base; simpl; by rewrite Eb).
  split; [|split; [by split_and!|split]].
  - destruct W as [W1 W2 W3 W4 W5 W6 W7].
    split; unfold base, limit; cbn [with_heap m_heap m_page_reference_counts]; rewrite ?Eb, ?Ee; try done.
    intros x Hx. rewrite Href. apply Hav in Hx as [Hx|Hx]; [by apply W7|by apply Hpre].
  - intros x _. rewrite Href. by destruct (decide _).
  - intros x. unfold impl_avail. cbn [with_heap m_heap]. rewrite Hav. tauto.
Qed.

Lemma page_start p x : impl_wf p -> (4096 | base p + page_no p x * 4096).
Proof. intros W. apply Z.divide_add_r; [apply W|apply Z.divide_factor_r]. Qed.

Lemma free_run_spec p fs fc :
  impl_wf p -> 0 <= fs -> 0 <= fc -> (0 < fc -> base p + (fs + fc) * 4096 <= limit p) ->
  (forall x, fs <= page_no p x < fs + fc -> ~ impl_avail p x /\ refcount p x = 0) ->
  exists p', free_run fs fc p = Done true p' /\ impl_wf p' /\ same_impl p p' /\
    m_page_reference_counts p' = m_page_reference_counts p /\
    forall x, impl_avail p' x <-> impl_avail p x \/ fs <= page_no p x < fs + fc.
Proof.
  intros W Hs Hc Hhi Hpre. unfold free_run. destruct (Z.ltb_spec 0 fc).
  - pose proof (impl_bounds _ W). pose proof (iw_low _ W).
    change (GetAddress (m_heap p)) with (base p). unfold PageSize. rewrite (u64_small (fs * 4096)), u64_small by lia.
    destruct (Impl_Free_spec p (base p + fs * 4096) fc) as (p' & E & (W' & Sm & _ & Hav) & Ec); try done; try lia.
    { apply Z.divide_add_r; [apply W|apply Z.divide_factor_r]. }
    { intros x Hx. apply Hpre, page_between. lia. }
    exists p'. split_and!; try done; [apply Sm..|]. intros x. rewrite Hav, <- page_between. split; intros [?|?]; [tauto|right; lia|tauto|right; split; [lia|done]].
  - exists p. split_and!; try done. intros x. split; [tauto|]. intros [?|?]; [done|lia].
Qed.

(** The state of [close_loop]: the pages of the pending run have no references left and are not
    free yet. *)
Definition pending p (index fs fc : Z) : Prop :=
  0 <= fs /\ 0 <= fc /\ (0 < fc -> fs + fc = index) /\
  forall x, fs <= page_no p x < fs + fc -> ~ impl_avail p x /\ refcount p x = 0.

Lemma refcount_page p i : refcount p (base p + i * 4096) = count_at (m_page_reference_counts p) i.
Proof. unfold refcount, page_no. by rewrite Z.add_simpl_l, Z.div_mul by lia. Qed.

Lemma drop_count p index :
  impl_wf p -> 0 <= index < Z.of_nat (length (m_page_reference_counts p)) ->
  0 < count_at (m_page_reference_counts p) index ->
  let p1 := with_counts (<[Z.to_nat index := count_at (m_page_reference_counts p) index - 1]> (m_page_reference_counts p)) p in
  impl_wf p1 /\ same_impl p p1 /\
  (forall x, in_impl p x -> refcount p1 x = if decide (page_no p x = index) then refcount p x - 1 else refcount p x).
Proof.
  intros W Hi Hpos p1.
  assert (forall x, in_impl p x -> refcount p1 x = if decide (page_no p x = index) then refcount p x - 1 else refcount p x) as Href.
  { intros x Hx. unfold refcount, p1. cbn [with_counts m_page_reference_counts].
    change (page_no (with_counts _ p) x) with (page_no p x).
    rewrite count_at_insert; [|done|apply (page_no_range p x W Hx)]. by destruct (decide _) as [->|]. }
  split; [|split; [by split_and!|done]]. pose proof (count_at_range _ index (iw_counts _ W)).
  pose proof (avail_in_impl p) as Hin. destruct W as [W1 W2 W3 W4 W5 W6 W7].
  split; try done; cbn [p1 with_counts m_page_reference_counts].
  - by rewrite length_insert.
  - apply Forall_insert; [done|]. unfold in_u. lia.
  - intros x Hx. rewrite Href by (by apply Hin). destruct (decide _) as [E|]; [|by apply W7].
    specialize (W7 x Hx). unfold refcount in W7. rewrite E in W7. lia.
Qed.

Lemma free_run_count p p' x : same_impl p p' -> m_page_reference_counts p' = m_page_reference_counts p ->
  page_no p' x = page_no p x /\ refcount p' x = refcount p x.
Proof. intros (Eb & _) Ec. unfold refcount, page_no. by rewrite Eb, Ec. Qed.

Definition closed p p' (index n fs fc : Z) : Prop :=
  impl_wf p' /\ same_impl p p' /\
  (forall x, in_impl p x -> refcount p' x = if decide (index <= page_no p x < index + n) then refcount p x - 1 else refcount p x) /\
  forall x, impl_avail p' x <-> impl_avail p x \/ fs <= page_no p x < fs + fc \/
                                index <= page_no p x < index + n /\ refcount p x = 1.

(** The run after the page [index] of [p] has lost its last reference. *)
Lemma closed_last p p1 p' index n fs fc fs' fc' :
  impl_wf p -> 0 <= index -> base p + (index + (1 + n)) * 4096 <= limit p -> 0 <= n -> same_impl p p1 ->
  (forall x, impl_avail p1 x <-> impl_avail p x) ->
  (forall x, in_impl p x -> refcount p1 x = if decide (page_no p x = index) then refcount p x - 1 else refcount p x) ->
  (forall x, page_no p x = index -> refcount p x = 1) ->
  (forall x, fs' <= page_no p x < fs' + fc' <-> fs <= page_no p x < fs + fc \/ page_no p x = index) ->
  closed p1 p' (index + 1) n fs' fc' -> closed p p' index (1 + n) fs fc.
Proof.
  intros W Hi Hhi Hn Sm Hav Href H1 Hrun (W' & Sm' & Hr' & Ha').
  assert (forall x, page_no p1 x = page_no p x) as Ep by (intros x; unfold page_no; by rewrite (proj1 Sm)).
  assert (forall x, in_impl p1 x <-> in_impl p x) as Ei by (intros x; unfold in_impl; destruct Sm as (-> & -> & _); done).
  assert (forall x, index <= page_no p x < index + (1 + n) -> in_impl p x) as Hin.
  { intros x Hx. pose proof (proj2 (page_between p x index (1 + n)) Hx). split; lia. }
  split; [done|]. split; [by eapply same_impl_trans|]. split.
  - intros x Hx. rewrite Hr' by (by apply Ei). rewrite Href, Ep by done.
    repeat destruct (decide _); try lia; done.
  - intros x. rewrite Ha', Hav, Ep, Hrun. destruct (Z.eq_dec (page_no p x) index) as [E|].
    + specialize (H1 x E). assert (index <= page_no p x < index + (1 + n) /\ refcount p x = 1) by (split; [lia|done]).
      tauto.
    + split; intros [?|[?|[? Hc]]]; try tauto; right; right; (split; [lia|]).
      * rewrite Href in Hc by (apply Hin; lia). by rewrite decide_False in Hc.
      * rewrite Href by (apply Hin; lia). by rewrite decide_False.
Qed.

(** The run when the page [index] keeps references: the pending run has been freed. *)
Lemma closed_kept p p1 p2 p' index n fs fc :
  impl_wf p -> 0 <= index -> base p + (index + (1 + n)) * 4096 <= limit p -> 0 <= n -> same_impl p p1 -> same_impl p1 p2 ->
  (forall x, page_no p2 x = page_no p x /\ refcount p2 x = refcount p1 x) ->
  (forall x, in_impl p x -> refcount p1 x = if decide (page_no p x = index) then refcount p x - 1 else refcount p x) ->
  (forall x, impl_avail p2 x <-> impl_avail p x \/ fs <= page_no p x < fs + fc) ->
  (forall x, page_no p x = index -> refcount p x <> 1) ->
  closed p2 p' (index + 1) n fs 0 -> closed p p' index (1 + n) fs fc.
Proof.
  intros W Hi Hhi Hn Sm1 Sm2 H2 Href1 Hav2 Hne (W' & Sm' & Hr' & Ha').
  assert (forall x, in_impl p2 x <-> in_impl p x) as Ei
    by (intros x; unfold in_impl; destruct Sm2 as (-> & -> & _), Sm1 as (-> & -> & _); done).
  assert (forall x, index <= page_no p x < index + (1 + n) -> in_impl p x) as Hin.
  { intros x Hx. pose proof (proj2 (page_between p x index (1 + n)) Hx). split; lia. }
  split; [done|]. split; [by eapply same_impl_trans, same_impl_trans|]. split.
  - intros x Hx. rewrite Hr' by (by apply Ei). destruct (H2 x) as [-> ->]. rewrite Href1 by done.
    repeat destruct (decide _); try lia; done.
  - intros x. rewrite Ha', Hav2. destruct (H2 x) as [-> ->]. destruct (Z.eq_dec (page_no p x) index) as [Ex|].
    + specialize (Hne x Ex). split; [intros [[?|?]|[?|[? _]]]; (tauto || lia)|]. intros [?|[?|[_ ?]]]; (tauto || lia).
    + split; [intros [[?|?]|[?|[? Hc']]]|intros [?|[?|[? Hc']]]]; try tauto; try lia; right; right; (split; [lia|]).
      * rewrite Href1 in Hc' by (apply Hin; lia). by rewrite decide_False in Hc'.
      * rewrite Href1 by (apply Hin; lia). by rewrite decide_False.
Qed.

Lemma close_loop_spec n : forall p index fs fc,
  impl_wf p -> 0 <= index -> base p + (index + Z.of_nat n) * 4096 <= limit p -> pending p index fs fc ->
  (forall x, index <= page_no p x < index + Z.of_nat n -> 0 < refcount p x) ->
  exists p', close_loop n index fs fc p = Done true p' /\ closed p p' index (Z.of_nat n) fs fc.
Proof.
  induction n as [|n IH]; intros p index fs fc W Hi Hhi (P1 & P2 & P3 & P4) Hpos; cbn [close_loop].
  { destruct (free_run_spec p fs fc) as (p' & E & W' & Sm & Ec & Hav); try done.
    { intros Hc. specialize (P3 Hc). lia. }
    exists p'. split; [done|]. split; [done|]. split; [done|]. split.
    - intros x _. rewrite decide_False by lia. by apply free_run_count.
    - intros x. rewrite Hav. split; [tauto|]. intros [?|[?|[? _]]]; [tauto..|lia]. }
  pose proof (iw_len _ W). rewrite count_at_get by lia. ostep.
  assert (forall x, page_no p x = index -> refcount p x = count_at (m_page_reference_counts p) index) as Hix
    by (intros x <-; done).
  assert (0 < count_at (m_page_reference_counts p) index) as Hc.
  { rewrite <- refcount_page. apply Hpos, page_between. lia. }
  rewrite bind_assert_true by (by apply Z.ltb_lt). pose proof (count_at_range _ index (iw_counts _ W)).
  rewrite u16_small by lia. rewrite arr_set_lt by lia. ostep.
  destruct (drop_count p index W ltac:(lia) Hc) as (W1 & Sm1 & Href1). set (p1 := with_counts _ p) in *.
  assert (forall x, page_no p1 x = page_no p x) as Ep by done.
  assert (forall x, impl_avail p1 x <-> impl_avail p x) as Ea by done.
  assert (forall x, page_no p x = index -> ~ impl_avail p x) as Hna.
  { intros x Ex Hav%(iw_free _ W). rewrite (Hix x Ex) in Hav. lia. }
  assert (forall fs', 0 <= fs' -> forall x, fs' <= page_no p x < index + Z.of_nat (Datatypes.S n) -> in_impl p x) as Hin.
  { intros fs' ? x Hx. pose proof (proj2 (page_between p x fs' (index + Z.of_nat (Datatypes.S n) - fs')) ltac:(lia)). split; lia. }
  replace (Z.of_nat (Datatypes.S n)) with (1 + Z.of_nat n) in * by lia.
  destruct (Z.eqb_spec (count_at (m_page_reference_counts p) index - 1) 0) as [Ez|Ez].
  - assert (forall fs' fc', 0 <= fs' -> fs' + fc' = index + 1 -> 0 < fc' ->
        (forall x, fs' <= page_no p x < fs' + fc' <-> fs <= page_no p x < fs + fc \/ page_no p x = index) ->
        exists p', close_loop n (index + 1) fs' fc' p1 = Done true p' /\ closed p p' index (1 + Z.of_nat n) fs fc) as Hgo.
    { intros fs' fc' Q1 Q2 Q3 Hrun. destruct (IH p1 (index + 1) fs' fc') as (p' & E & Hcl); try done; try lia.
      - destruct Sm1 as (-> & -> & _). lia.
      - split_and!; [lia..|]. intros x Hx. rewrite Ep in Hx. rewrite Ea.
        rewrite Href1 by (apply (Hin fs'); lia). apply Hrun in Hx as [Hx|Hx].
        + destruct (P4 x Hx) as [? Hz]. destruct (decide _) as [Ex|]; [|done]. rewrite (Hix x Ex) in Hz. lia.
        + rewrite decide_True by done. split; [by apply Hna|]. rewrite (Hix x Hx). lia.
      - intros x Hx. rewrite Ep in Hx. rewrite Href1, decide_False by (lia || (apply (Hin index); lia)). apply Hpos. lia.
      - exists p'. split; [done|]. eapply closed_last; try done; [lia|]. intros x Ex. rewrite (Hix x Ex). lia. }
    destruct (Z.ltb_spec 0 fc) as [Hfc|Hfc].
    + specialize (P3 Hfc). apply Hgo; [lia..|]. intros x. lia.
    + apply Hgo; [lia..|]. intros x. lia.
  - destruct (free_run_spec p1 fs fc) as (p2 & E & W2 & Sm2 & Ec & Hav2); try done.
    { destruct Sm1 as (-> & -> & _). intros Hfc. specialize (P3 Hfc). lia. }
    { intros x Hx. rewrite Ep in Hx. destruct (P4 x Hx) as [? Hz]. rewrite Ea.
      rewrite Href1 by (apply (Hin fs); [done|]; specialize (P3 ltac:(lia)); lia).
      destruct (decide _) as [Ex|]; [rewrite (Hix x Ex) in Hz; lia|done]. }
    rewrite E. ostep. assert (forall x, page_no p2 x = page_no p x /\ refcount p2 x = refcount p1 x) as H2.
    { intros x. rewrite <- (Ep x). by apply free_run_count. }
    destruct (IH p2 (index + 1) fs 0) as (p' & E' & Hcl); try done; try lia.
    { destruct Sm2 as (-> & -> & _), Sm1 as (-> & -> & _). lia. }
    { split_and!; [lia..|]. intros; lia. }
    { intros x Hx. rewrite (proj2 (H2 x)). rewrite (proj1 (H2 x)) in Hx.
      rewrite Href1, decide_False by (lia || (apply (Hin index); lia)). apply Hpos. lia. }
    exists p'. split; [done|]. apply (closed_kept p p1 p2); try done; try lia.
    intros x Ex. rewrite (Hix x Ex). lia.
Qed.

Lemma Impl_Close_spec p a n :
  impl_wf p -> (4096 | a) -> 0 < n -> base p <= a -> a + n * 4096 <= limit p ->
  (forall x, a <= x < a + n * 4096 -> 0 < refcount p x) ->
  exists p', Impl_Close a n p = Done true p' /\ updated Z.pred (fun c => c = 1) p p' a (a + n * 4096).
Proof.
  intros W Ha Hn H1 H2 Hpre. destruct (range_pages p a n W Ha Hn H1 H2) as (Eo & Er & Hi & Hlen & Hpg).
  unfold Impl_Close. rewrite Eo.
  destruct (close_loop_spec (rounds (page_no p a) n) p (page_no p a) 0 0) as (p' & E & W' & Sm & Hr & Hav); try done.
  - rewrite Er. pose proof (page_of p a _ eq_refl (iw_base _ W) Ha). lia.
  - split_and!; [lia..|]. intros; lia.
  - rewrite Er. intros x Hx%Hpg. by apply Hpre.
  - rewrite Er in *. exists p'. split; [done|]. split; [done|]. split; [done|]. split.
    + intros x Hx. rewrite Hr by done. specialize (Hpg x). unfold Z.pred. repeat destruct (decide _); (done || tauto || lia).
    + intros x. rewrite Hav, Hpg. split; [intros [?|[?|?]]; (tauto || lia)|tauto].
Qed.
End OneManager.

(** ** Blocks of pages *)

Definition bstart (b : KBlockInfo) : Z := m_page_index b * 4096.
Definition bstop (b : KBlockInfo) : Z := (m_page_index b + m_num_pages b) * 4096.
Definition in_block (b : KBlockInfo) (x : Z) : Prop := bstart b <= x < bstop b.
Definition in_blocks (l : list KBlockInfo) (x : Z) : Prop := exists b, b ∈ l /\ in_block b x.
Definition sum_pages (l : list KBlockInfo) : Z := fold_right (fun b n => m_num_pages b + n) 0 l.

Definition block_wf (b : KBlockInfo) : Prop :=
  0 <= m_page_index b /\ 0 < m_num_pages b /\ m_page_index b + m_num_pages b < 2 ^ 32.

Fixpoint disjoint_blocks (l : list KBlockInfo) : Prop :=
  match l with
  | [] => True
  | b :: r => (forall x, in_block b x -> ~ in_blocks r x) /\ disjoint_blocks r
  end.

Lemma in_blocks_nil x : ~ in_blocks [] x.
Proof. by intros (b & []%not_elem_of_nil & _). Qed.

Lemma in_blocks_cons b l x : in_blocks (b :: l) x <-> in_block b x \/ in_blocks l x.
Proof.
  unfold in_blocks. split.
  - intros (c & [->|Hc]%elem_of_cons & Hx); [by left|right; by exists c].
  - intros [Hx|(c & Hc & Hx)]; [exists b|exists c]; (split; [|done]); apply elem_of_cons; tauto.
Qed.

Lemma in_blocks_snoc l b x : in_blocks (l ++ [b]) x <-> in_blocks l x \/ in_block b x.
Proof.
  induction l as [|c l IH]; [rewrite app_nil_l, in_blocks_cons; tauto|]. simpl. rewrite !in_blocks_cons, IH. tauto.
Qed.

Lemma in_blocks_dec l x : in_blocks l x \/ ~ in_blocks l x.
Proof.
  induction l as [|b l IH]; [right; apply in_blocks_nil|]. rewrite in_blocks_cons.
  unfold in_block. destruct (Z_le_dec (bstart b) x), (Z_lt_dec x (bstop b)), IH; tauto.
Qed.

Lemma disjoint_blocks_snoc l b :
  disjoint_blocks (l ++ [b]) <-> disjoint_blocks l /\ forall x, in_block b x -> ~ in_blocks l x.
Proof.
  induction l as [|c l IH]; simpl.
  - pose proof in_blocks_nil. naive_solver.
  - rewrite IH. setoid_rewrite in_blocks_snoc. setoid_rewrite in_blocks_cons. firstorder.
Qed.

Lemma sum_pages_snoc l b : sum_pages (l ++ [b]) = sum_pages l + m_num_pages b.
Proof. induction l as [|c l IH]; simpl; [lia|]. rewrite IH. lia. Qed.

Lemma Info_address b : block_wf b -> Info_GetAddress b = bstart b /\ Info_GetEndAddress b = bstop b.
Proof.
  intros (H1 & H2 & H3). unfold Info_GetAddress, Info_GetEndAddress, bstart, bstop, PageSize.
  rewrite (u32_small (m_page_index b + m_num_pages b)), !u64_small by lia. done.
Qed.

(** *** Adding a block to a list of blocks *)

(** The pages of [a] are in the list's last block or in one of their own. *)
Inductive added (a np : Z) (l : list KBlockInfo) : list KBlockInfo -> Prop :=
| added_new : added a np l (l ++ [mkInfo (a / 4096) np])
| added_last l0 b : l = l0 ++ [b] -> bstop b = a -> added a np l (l0 ++ [mkInfo (m_page_index b) (m_num_pages b + np)]).

Section Added.
Context (a np : Z) (l l' : list KBlockInfo) (Hadd : added a np l l') (Ha : (4096 | a)) (Hpos : 0 <= a) (Hnp : 0 < np).

Lemma added_in x : Forall block_wf l -> in_blocks l' x <-> in_blocks l x \/ a <= x < a + np * 4096.
Proof.
  intros Hf. destruct Ha as [q ->]. destruct Hadd as [|l0 b -> Hb]; rewrite !in_blocks_snoc; unfold in_block, bstart, bstop; simpl.
  - rewrite Z.div_mul by lia. split; (intros [?|?]; [by left|right; lia]).
  - apply Forall_app in Hf as [_ (Hw & _)%Forall_cons_1]. unfold bstop in Hb.
    destruct Hw as (H1 & H2 & H3). split; [intros [?|?]|intros [[?|?]|?]]; try tauto; try (right; lia).
    destruct (Z_lt_le_dec x (q * 4096)); [left; right; lia|right; lia].
Qed.

Lemma added_wf : a + np * 4096 < 2 ^ 44 -> Forall block_wf l -> Forall block_wf l'.
Proof.
  intros Hlow Hf. destruct Ha as [q Hq]. subst a. destruct Hadd as [|l0 b -> Hb].
  - apply Forall_app. split; [done|]. apply Forall_singleton. unfold block_wf. simpl. rewrite Z.div_mul by lia. lia.
  - apply Forall_app in Hf as [Hf (Hw & _)%Forall_cons_1]. apply Forall_app. split; [done|].
    apply Forall_singleton. unfold block_wf, bstop in *. simpl. lia.
Qed.

Lemma added_disjoint : Forall block_wf l -> disjoint_blocks l -> (forall x, a <= x < a + np * 4096 -> ~ in_blocks l x) ->
  disjoint_blocks l'.
Proof.
  intros Hf Hd Hn. destruct Ha as [q Hq]. subst a. destruct Hadd as [|l0 b -> Hb]; apply disjoint_blocks_snoc.
  - split; [done|]. intros x Hx. apply Hn. unfold in_block, bstart, bstop in Hx. simpl in Hx. rewrite Z.div_mul in Hx by lia. lia.
  - apply disjoint_blocks_snoc in Hd as [Hd Hx0]. split; [done|]. intros x Hx Hl.
    destruct (Z_lt_le_dec x (q * 4096)).
    + apply (Hx0 x); [|done]. unfold in_block, bstart, bstop in *. simpl in Hx. lia.
    + apply (Hn x); [|apply in_blocks_snoc; by left]. unfold in_block, bstart, bstop in *. simpl in Hx. lia.
Qed.

Lemma added_sum : sum_pages l' = sum_pages l + np.
Proof. destruct Hadd as [|l0 b El _]; rewrite ?El, !sum_pages_snoc; simpl; lia. Qed.
End Added.

(** ** The memory of all managers *)

Section AllManagers.
Context {S : Type} {ES : EntropySource S} {B : Type} {FB : FreeBitmap B}.
Variable layout : Z -> Z.
Implicit Types (mm : KMemoryManager (S := S) (B := B)) (p : Impl (S := S) (B := B)).

(** The managers in use are well-formed, and the layout knows the addresses of each. *)
Record mm_wf mm : Prop := {
  mw_num : (m_num_managers mm <= length (m_managers mm))%nat;
  mw_impl i p : (i < m_num_managers mm)%nat -> m_managers mm !! i = Some p -> impl_wf p;
  mw_layout i p x : (i < m_num_managers mm)%nat -> m_managers mm !! i = Some p -> in_impl p x ->
    GetManager layout x = i
}.

Definition manages mm (i : nat) p : Prop := (i < m_num_managers mm)%nat /\ m_managers mm !! i = Some p.
Definition owned mm (x : Z) : Prop := exists i p, manages mm i p /\ in_impl p x.
Definition mm_avail mm (x : Z) : Prop := exists i p, manages mm i p /\ impl_avail p x.
Definition mm_refs mm (x : Z) : Z :=
  match m_managers mm !! GetManager layout x with Some p => refcount p x | None => 0 end.

(** Only the managers' memory differs. *)
Definition same_mm mm mm' : Prop :=
  m_pool_managers_head mm' = m_pool_managers_head mm /\ m_pool_managers_tail mm' = m_pool_managers_tail mm /\
  m_num_managers mm' = m_num_managers mm /\ m_optimized_process_ids mm' = m_optimized_process_ids mm /\
  m_has_optimized_process mm' = m_has_optimized_process mm /\ Forall2 same_impl (m_managers mm) (m_managers mm').

Lemma same_mm_refl mm : same_mm mm mm.
Proof. split_and!; try done. apply Forall_Forall2_diag, Forall_true. apply same_impl_refl. Qed.

Lemma same_mm_trans a b c : same_mm a b -> same_mm b c -> same_mm a c.
Proof.
  intros (?&?&?&?&?&F1) (?&?&?&?&?&F2). split_and!; try congruence.
  eapply Forall2_trans; [|done..]. intros ???. apply same_impl_trans.
Qed.

Lemma same_mm_manages mm mm' i p :
  same_mm mm mm' -> manages mm i p -> exists p', manages mm' i p' /\ same_impl p p'.
Proof.
  intros (_&_&En&_&_&F) [Hi Hp]. destruct (Forall2_lookup_l _ _ _ _ _ F Hp) as (p' & Hp' & Sm).
  exists p'. split; [split; [by rewrite En|done]|done].
Qed.

Lemma same_mm_manages_inv mm mm' i p' :
  same_mm mm mm' -> manages mm' i p' -> exists p, manages mm i p /\ same_impl p p'.
Proof.
  intros (_&_&En&_&_&F) [Hi Hp]. destruct (Forall2_lookup_r _ _ _ _ _ F Hp) as (p & Hp' & Sm).
  exists p. split; [split; [by rewrite <- En|done]|done].
Qed.

Lemma same_impl_in p p' x : same_impl p p' -> in_impl p' x <-> in_impl p x.
Proof. intros (Eb & El & _). unfold in_impl. by rewrite Eb, El. Qed.

Lemma same_mm_owned mm mm' x : same_mm mm mm' -> owned mm' x <-> owned mm x.
Proof.
  intros Sm. split; intros (i & p & Hp & Hx).
  - destruct (same_mm_manages_inv _ _ _ _ Sm Hp) as (q & Hq & Si). exists i, q. split; [done|]. by apply (same_impl_in q p).
  - destruct (same_mm_manages _ _ _ _ Sm Hp) as (q & Hq & Si). exists i, q. split; [done|]. by apply (same_impl_in p q).
Qed.

Section Wf.
Context mm (W : mm_wf mm).

Lemma manages_wf i p : manages mm i p -> impl_wf p.
Proof. intros [? ?]. by eapply mw_impl. Qed.

Lemma manages_at i p x : manages mm i p -> in_impl p x -> GetManager layout x = i.
Proof. intros [? ?] ?. by eapply mw_layout. Qed.

Lemma manages_unique i j p q x : manages mm i p -> manages mm j q -> in_impl p x -> in_impl q x -> i = j /\ p = q.
Proof.
  intros Hp Hq Hx Hy. pose proof (manages_at _ _ _ Hp Hx). pose proof (manages_at _ _ _ Hq Hy).
  assert (i = j) as -> by congruence. split; [done|]. destruct Hp as [_ Hp], Hq as [_ Hq]. congruence.
Qed.

Lemma refs_in i p x : manages mm i p -> in_impl p x -> mm_refs mm x = refcount p x.
Proof. intros Hp Hx. unfold mm_refs. rewrite (manages_at _ _ _ Hp Hx). destruct Hp as [_ ->]. done. Qed.

Lemma avail_in i p x : manages mm i p -> in_impl p x -> mm_avail mm x <-> impl_avail p x.
Proof.
  intros Hp Hx. split; [|by exists i, p]. intros (j & q & Hq & Hav).
  destruct (manages_unique i j p q x Hp Hq Hx) as [_ ->]; [|done]. apply avail_in_impl; [by eapply manages_wf|done].
Qed.

Lemma avail_owned x : mm_avail mm x -> owned mm x.
Proof. intros (i & p & Hp & Hav). exists i, p. split; [done|]. apply avail_in_impl; [by eapply manages_wf|done]. Qed.

Lemma manager_at_eq i p : manages mm i p -> manager_at mm i = Done true p.
Proof. intros [_ H]. unfold manager_at. apply arr_get_Some; [lia|]. by rewrite Nat2Z.id. Qed.

(** Replacing one manager. *)
Lemma set_manager_manages i p p' : manages mm i p ->
  manages (set_manager i p' mm) i p' /\
  forall j q, j <> i -> manages (set_manager i p' mm) j q <-> manages mm j q.
Proof.
  intros [Hi Hp]. unfold manages, set_manager. cbn [with_managers m_num_managers m_managers]. split.
  - split; [done|]. apply list_lookup_insert_eq. by eapply lookup_lt_Some.
  - intros j q Hj. by rewrite list_lookup_insert_ne.
Qed.

Lemma set_manager_wf i p p' : manages mm i p -> impl_wf p' -> same_impl p p' ->
  mm_wf (set_manager i p' mm) /\ same_mm mm (set_manager i p' mm).
Proof.
  intros Hp Wp Sm. destruct (set_manager_manages i p p' Hp) as [H1 H2]. split.
  - split; [unfold set_manager; simpl; rewrite length_insert; apply W|..].
    + intros j q Hj Hq. destruct (decide (j = i)) as [->|]; [|apply (manages_wf j), H2; by try split].
      destruct H1 as [_ H1]. rewrite H1 in Hq. by injection Hq as <-.
    + intros j q x Hj Hq Hx. destruct (decide (j = i)) as [->|]; [|apply (manages_at j q); [apply H2; by try split|done]].
      destruct H1 as [_ H1]. rewrite H1 in Hq. injection Hq as <-. apply (manages_at i p); [done|]. by apply (same_impl_in p p').
  - split_and!; try done. unfold set_manager. cbn [with_managers m_managers].
    destruct Hp as [_ Hp]. rewrite <- (list_insert_id (m_managers mm) i p Hp) at 1.
    apply Forall2_insert; [|done]. apply Forall_Forall2_diag, Forall_true, same_impl_refl.
Qed.

Lemma set_manager_out i p p' x : manages mm i p -> same_impl p p' -> owned mm x -> ~ in_impl p x ->
  mm_refs (set_manager i p' mm) x = mm_refs mm x /\ GetManager layout x <> i.
Proof.
  intros Hp Sm (j & q & Hq & Hx) Hout.
  assert (j <> i) as Hne. { intros ->. destruct Hp as [_ Hp], Hq as [_ Hq]. rewrite Hp in Hq. by injection Hq as ->. }
  unfold mm_refs. rewrite (manages_at _ _ _ Hq Hx). split; [|done]. simpl. by rewrite list_lookup_insert_ne.
Qed.

Lemma set_manager_avail_out i p p' x : manages mm i p -> impl_wf p' -> same_impl p p' -> ~ in_impl p x ->
  mm_avail (set_manager i p' mm) x <-> mm_avail mm x.
Proof.
  intros Hp Wp Sm Hout. destruct (set_manager_manages i p p' Hp) as [H1 H2].
  split; intros (j & q & Hq & Hav); destruct (decide (j = i)) as [->|Hne].
  - exfalso. apply Hout, (same_impl_in p p' x Sm). destruct H1 as [_ H1], Hq as [_ Hq]. rewrite H1 in Hq.
    injection Hq as <-. by apply avail_in_impl.
  - exists j, q. split; [by apply H2|done].
  - exfalso. apply Hout. pose proof (manages_wf _ _ Hp). destruct Hp as [_ Hp], Hq as [_ Hq]. rewrite Hp in Hq.
    injection Hq as <-. by apply avail_in_impl.
  - exists j, q. split; [by apply H2|done].
Qed.
End Wf.

(** *** Ranges that cross managers *)

Definition mm_updated (f : Z -> Z) (g : Z -> Prop) mm mm' (lo hi : Z) : Prop :=
  mm_wf mm' /\ same_mm mm mm' /\
  (forall x, owned mm x -> mm_refs mm' x = if decide (lo <= x < hi) then f (mm_refs mm x) else mm_refs mm x) /\
  forall x, mm_avail mm' x <-> mm_avail mm x \/ lo <= x < hi /\ owned mm x /\ g (mm_refs mm x).

Lemma mm_updated_nil f g mm lo : mm_wf mm -> mm_updated f g mm mm lo lo.
Proof.
  intros W. split_and!; try done; [by apply same_mm_refl..| |].
  - intros x _. rewrite decide_False by lia. done.
  - intros x. split; [tauto|]. intros [?|[? _]]; [done|lia].
Qed.

Lemma mm_updated_app f g mm mm1 mm2 lo mid hi :
  mm_updated f g mm mm1 lo mid -> mm_updated f g mm1 mm2 mid hi -> lo <= mid <= hi -> mm_updated f g mm mm2 lo hi.
Proof.
  intros (W1 & S1 & R1 & A1) (W2 & S2 & R2 & A2) Hm.
  split; [done|]. split; [by eapply same_mm_trans|]. split.
  - intros x Hx. rewrite R2, R1 by (done || by apply (same_mm_owned mm mm1)). repeat destruct (decide _); (done || lia).
  - intros x. rewrite A2, A1, (same_mm_owned mm mm1 x S1). destruct (Z_lt_le_dec x mid).
    + intuition lia.
    + split; [intros [[?|?]|(? & Ho & Hg)]|intros [?|(? & Ho & Hg)]]; try tauto; try lia; right; (split; [lia|split; [done|]]).
      * rewrite R1, decide_False in Hg by (done || lia). done.
      * rewrite R1, decide_False by (done || lia). done.
Qed.

Lemma set_manager_updated f g mm i p p' lo hi :
  mm_wf mm -> manages mm i p -> base p <= lo -> hi <= limit p -> updated f g p p' lo hi ->
  mm_updated f g mm (set_manager i p' mm) lo hi.
Proof.
  intros W Hp H1 H2 (Wp & Sm & R & A). destruct (set_manager_wf mm W i p p' Hp Wp Sm) as [W' Sm'].
  destruct (set_manager_manages mm i p p' Hp) as [Hp' _].
  assert (forall x, in_impl p x \/ ~ in_impl p x) as Hdec by (intros x; unfold in_impl; lia).
  split; [done|]. split; [done|]. split.
  - intros x Hx. destruct (Hdec x) as [Hin|Hout].
    + rewrite (refs_in _ W' i p' x Hp') by (by apply (same_impl_in p p')). rewrite (refs_in _ W i p x Hp Hin). by apply R.
    + rewrite (proj1 (set_manager_out _ W i p p' x Hp Sm Hx Hout)). rewrite decide_False; [done|]. unfold in_impl in Hout. lia.
  - intros x. destruct (Hdec x) as [Hin|Hout].
    + rewrite (avail_in _ W' i p' x Hp') by (by apply (same_impl_in p p')). rewrite (avail_in _ W i p x Hp Hin), (refs_in _ W i p x Hp Hin), A.
      assert (owned mm x) by (by exists i, p). tauto.
    + rewrite (set_manager_avail_out _ W i p p' x) by done. unfold in_impl in Hout. split; [tauto|]. intros [?|[? _]]; [done|lia].
Qed.

(** An operation on the pages of one manager that are not free. *)
Definition page_op (pre : Z -> Prop) (f : Z -> Z) (g : Z -> Prop) (op : Z -> Z -> Impl -> outcome Impl) : Prop :=
  forall p a n, impl_wf p -> (4096 | a) -> 0 < n -> base p <= a -> a + n * 4096 <= limit p ->
    (forall x, a <= x < a + n * 4096 -> ~ impl_avail p x /\ pre (refcount p x)) ->
    exists p', op a n p = Done true p' /\ updated f g p p' a (a + n * 4096).

Lemma over_range_spec pre f g op fuel : page_op pre f g op -> forall mm a n,
  mm_wf mm -> (4096 | a) -> 0 <= n < 2 ^ 64 -> (Z.to_nat n <= fuel)%nat ->
  (forall x, a <= x < a + n * 4096 -> owned mm x /\ ~ mm_avail mm x /\ pre (mm_refs mm x)) ->
  exists mm', over_range layout op fuel a n mm = Done true mm' /\ mm_updated f g mm mm' a (a + n * 4096).
Proof.
  intros Hop. induction fuel as [|fuel IH]; intros mm a n W Ha Hn Hf Hpre; cbn [over_range].
  { assert (n = 0) as -> by lia. exists mm. split; [done|]. rewrite Z.add_0_r. by apply mm_updated_nil. }
  destruct (Z.eqb_spec n 0) as [->|Hne]. { exists mm. split; [done|]. rewrite Z.add_0_r. by apply mm_updated_nil. }
  destruct (Hpre a ltac:(lia)) as ((i & p & Hp & Hx) & _ & _).
  rewrite (manages_at _ W _ _ _ Hp Hx), (manager_at_eq _ i p Hp). ostep.
  pose proof (manages_wf _ W _ _ Hp) as Wp. rewrite GetPageOffsetToEnd_eq by done.
  pose proof (impl_bounds _ Wp). pose proof (iw_low _ Wp).
  assert ((limit p - a) / 4096 * 4096 = limit p - a) as El.
  { destruct Ha as [q ->], (iw_limit _ Wp) as [l ->]. rewrite <- Z.mul_sub_distr_r, Z.div_mul by lia. lia. }
  destruct Hx as [Hx1 Hx2]. set (cur := Z.min n ((limit p - a) / 4096)).
  assert (0 < cur <= n /\ a + cur * 4096 <= limit p) as [Hcur Hend] by (unfold cur; nia).
  destruct (Hop p a cur Wp Ha ltac:(lia) Hx1 Hend) as (p' & E & U).
  { intros x Hr. destruct (Hpre x ltac:(lia)) as (_ & Hna & Hpr).
    assert (in_impl p x) as Hin by (unfold in_impl; lia). rewrite (refs_in _ W i p x Hp Hin) in Hpr.
    rewrite (avail_in _ W i p x Hp Hin) in Hna. done. }
  rewrite E. ostep. clearbody cur. unfold PageSize. rewrite (u64_small (cur * 4096)), (u64_small (a + cur * 4096)), (u64_small (n - cur)) by lia.
  pose proof (set_manager_updated f g mm i p p' a (a + cur * 4096) W Hp Hx1 Hend U) as U1.
  destruct (IH (set_manager i p' mm) (a + cur * 4096) (n - cur)) as (mm' & E' & U'); try lia.
  - apply U1.
  - apply Z.divide_add_r; [done|apply Z.divide_factor_r].
  - intros x Hr. destruct (Hpre x ltac:(lia)) as (Ho & Hna & Hpr). destruct U1 as (_ & Sm & R & A).
    rewrite A, R, decide_False by (done || lia). split; [by apply (same_mm_owned mm _ x Sm)|]. split; [|done].
    intros [?|[? _]]; [done|lia].
  - exists mm'. split; [done|]. replace (a + cur * 4096 + (n - cur) * 4096) with (a + n * 4096) in U' by lia.
    eapply mm_updated_app; [done..|lia].
Qed.

Lemma OpenFirst_op : page_op (fun c => c = 0) Z.succ (fun _ => False) Impl_OpenFirst.
Proof. intros p a n W Ha Hn H1 H2 Hpre. by apply Impl_OpenFirst_spec. Qed.
Lemma Open_op : page_op (fun c => 0 < c < 65535) Z.succ (fun _ => False) Impl_Open.
Proof. intros p a n W Ha Hn H1 H2 Hpre. apply Impl_Open_spec; try done. intros x Hx. by apply Hpre. Qed.
Lemma Close_op : page_op (fun c => 0 < c) Z.pred (fun c => c = 1) Impl_Close.
Proof. intros p a n W Ha Hn H1 H2 Hpre. apply Impl_Close_spec; try done. intros x Hx. by apply Hpre. Qed.

(** A page with references is not free. *)
Lemma counted_not_avail mm x : mm_wf mm -> 0 < mm_refs mm x -> ~ mm_avail mm x.
Proof.
  intros W Hpos (i & p & Hp & Hav). pose proof (manages_wf _ W _ _ Hp) as Wp.
  rewrite (refs_in _ W i p x Hp) in Hpos by (by apply avail_in_impl). rewrite (iw_free _ Wp x Hav) in Hpos. lia.
Qed.

Lemma free_no_refs mm x : mm_wf mm -> mm_avail mm x -> mm_refs mm x = 0.
Proof.
  intros W (i & p & Hp & Hav). pose proof (manages_wf _ W _ _ Hp) as Wp.
  rewrite (refs_in _ W i p x Hp) by (by apply avail_in_impl). by apply (iw_free _ Wp).
Qed.

(** *** Taking pages *)

(** [mm'] is [mm] with the free pages of [lo, hi) taken out; the counts stay. *)
Definition mm_takes mm mm' (lo hi : Z) : Prop :=
  mm_wf mm' /\ same_mm mm mm' /\ (forall x, owned mm x -> mm_refs mm' x = mm_refs mm x) /\
  (forall x, lo <= x < hi -> mm_avail mm x) /\
  forall x, mm_avail mm' x <-> mm_avail mm x /\ ~ lo <= x < hi.

Lemma mm_takes_trans_nil mm mm1 mm2 lo hi : mm_takes mm mm1 0 0 -> mm_takes mm1 mm2 lo hi -> mm_takes mm mm2 lo hi.
Proof.
  intros (W1 & S1 & R1 & _ & A1) (W2 & S2 & R2 & In2 & A2). split_and!; [done|by eapply same_mm_trans..| | |].
  - intros x Hx. rewrite R2 by (by apply (same_mm_owned mm mm1)). by apply R1.
  - intros x Hx. apply A1. by apply In2.
  - intros x. rewrite A2, A1. intuition lia.
Qed.

Lemma impl_takes p h lo hi :
  impl_wf p -> takes MS (m_heap p) h lo hi ->
  impl_wf (with_heap h p) /\ same_impl p (with_heap h p) /\ forall x, refcount (with_heap h p) x = refcount p x.
Proof.
  intros W T. destruct (takes_end _ _ _ _ _ T) as [Eb Ee]. destruct T as (_ & Wh & _ & Hav).
  assert (forall x, refcount (with_heap h p) x = refcount p x) as Href
    by (intros x; unfold refcount, page_no, base; simpl; by rewrite Eb).
  split; [|split; [by split_and!|done]]. destruct W as [W1 W2 W3 W4 W5 W6 W7].
  split; unfold base, limit; cbn [with_heap m_heap m_page_reference_counts]; rewrite ?Eb, ?Ee; try done.
  intros x Hx. rewrite Href. apply Hav in Hx as [Hx _]. by apply W7.
Qed.

Lemma set_manager_takes mm i p h lo hi :
  mm_wf mm -> manages mm i p -> takes MS (m_heap p) h lo hi -> mm_takes mm (set_manager i (with_heap h p) mm) lo hi.
Proof.
  intros W Hp T. pose proof (manages_wf _ W _ _ Hp) as Wp. destruct (impl_takes p h lo hi Wp T) as (Wp' & Sm & R).
  destruct (set_manager_wf mm W i p _ Hp Wp' Sm) as [W' Sm']. destruct (set_manager_manages mm i p (with_heap h p) Hp) as [Hp' _].
  destruct T as (_ & _ & Hin & Hav).
  assert (forall x, in_impl p x \/ ~ in_impl p x) as Hdec by (intros x; unfold in_impl; lia).
  split; [done|]. split; [done|]. split_and!.
  - intros x Hx. destruct (Hdec x) as [Hi|Hout]; [|by apply (set_manager_out _ W i p)].
    rewrite (refs_in _ W' i _ x Hp') by (by apply (same_impl_in p)). by rewrite (refs_in _ W i p x Hp Hi).
  - intros x Hx. exists i, p. split; [done|]. by apply Hin.
  - intros x. destruct (Hdec x) as [Hi|Hout].
    + rewrite (avail_in _ W' i _ x Hp') by (by apply (same_impl_in p)). rewrite (avail_in _ W i p x Hp Hi). apply Hav.
    + rewrite (set_manager_avail_out _ W i p _ x) by done. split; [|tauto]. intros Hx. split; [done|].
      intros Hr. apply Hout, avail_in_impl; [done|]. by apply Hin.
Qed.

(** A pool's managers, in the order of a direction. *)
Inductive chain mm (dir : Z) : option nat -> list nat -> Prop :=
| chain_end : chain mm dir None []
| chain_next i p l : manages mm i p -> chain mm dir (GetNextManager p dir) l -> chain mm dir (Some i) (i :: l).

Lemma chain_same mm mm' dir cur l : same_mm mm mm' -> chain mm dir cur l -> chain mm' dir cur l.
Proof.
  intros Sm. induction 1 as [|i p l Hp _ IH]; [constructor|].
  destruct (same_mm_manages _ _ _ _ Sm Hp) as (p' & Hp' & (_&_&_&E1&E2&_)).
  econstructor; [done|]. unfold GetNextManager in *. by rewrite E1, E2.
Qed.

(** The managers of the pool [pool] in direction [dir] are those of [l]. *)
Definition pool_chain mm (pool dir : Z) (l : list nat) : Prop :=
  exists first, GetFirstManager mm pool dir = Done true first /\ chain mm dir first l /\ NoDup l /\ (length l <= 10)%nat.

Lemma pool_chain_same mm mm' pool dir l : same_mm mm mm' -> pool_chain mm pool dir l -> pool_chain mm' pool dir l.
Proof.
  intros Sm (first & E & Hc & Hnd & Hl). exists first. split_and!; try done; [|by eapply chain_same].
  destruct Sm as (E1 & E2 & _). unfold GetFirstManager in *. by rewrite E1, E2.
Qed.

(** *** The map of optimised pages *)

(** The map has a bit for every page. *)
Definition map_ok p : Prop := limit p - base p <= Z.of_nat (length (optimize_map p)) * 64 * 4096.

Lemma track_loop_spec set n : forall offset m,
  0 <= offset -> offset + Z.of_nat n <= Z.of_nat (length m) * 64 ->
  exists m', track_loop set n offset m = Done true m' /\ length m' = length m.
Proof.
  induction n as [|n IH]; intros offset m H0 Hl; cbn [track_loop]; [by exists m|].
  assert (0 <= offset / 64 < Z.of_nat (length m)) by (split; [apply Z.div_pos; lia|apply Z.div_lt_upper_bound; lia]).
  destruct (arr_get_lt m (offset / 64)) as (w & -> & _); [done|]. ostep. rewrite arr_set_lt by done. ostep.
  destruct (IH (offset + 1) (<[Z.to_nat (offset / 64):=mark_bit set offset w]> m)) as (m' & E & El).
  - lia.
  - rewrite length_insert. lia.
  - exists m'. split; [done|]. by rewrite El, length_insert.
Qed.

Lemma track_spec set p a n :
  impl_wf p -> map_ok p -> (4096 | a) -> 0 < n -> base p <= a -> a + n * 4096 <= limit p ->
  exists m, track set a n p = Done true (with_map m p) /\ length m = length (optimize_map p).
Proof.
  intros W Hm Ha Hn H1 H2. destruct (range_pages p a n W Ha Hn H1 H2) as (Eo & Er & Hi & Hlen & Hpg).
  pose proof (iw_low _ W). pose proof (impl_bounds _ W). unfold map_ok in Hm.
  pose proof (page_of p a _ eq_refl (iw_base _ W) Ha).
  unfold track. rewrite Eo. unfold track_rounds. rewrite (u64_small (page_no p a + n)), u64_small by lia.
  destruct (track_loop_spec set (Z.to_nat (page_no p a + n - 1 + 1 - page_no p a)) (page_no p a) (optimize_map p))
    as (m & E & El); [lia|lia|]. exists m. rewrite E. ostep. done.
Qed.

Lemma with_map_spec m p lo : impl_wf p -> length m = length (optimize_map p) ->
  updated id (fun _ => False) p (with_map m p) lo lo.
Proof.
  intros W E. split; [destruct W; by split|]. split; [by split_and!|]. split.
  - intros x _. rewrite decide_False by lia. done.
  - intros x. split; [tauto|]. intros [?|[_ []]]. done.
Qed.

(** *** Contiguous allocation *)

Lemma Impl_AllocateAligned_spec p index n al :
  impl_wf p -> 0 < n -> 0 < al -> GetAlignedBlockIndex n al = Z.of_nat index ->
  exists a h, Impl_AllocateAligned (Z.of_nat index) n al p = Done true (a, with_heap h p) /\
    allocated MS (m_heap p) h index (n * 4096) (2 ^ countr_zero 64 (al * 4096)) a.
Proof.
  intros W Hn Hal Hix. unfold GetAlignedBlockIndex in Hix.
  destruct (GetAlignedBlockIndex_loop_spec MS 0 (Z.max n al)) as [[E _]|(j & s & E & Hj & Hle & _)].
  { apply shifts_ok_MemoryBlockPageShifts. } { lia. }
  rewrite Hix in E. assert (j = index) as -> by lia.
  assert (lsize MS index = 2 ^ s) as El by (unfold lsize; by rewrite (list_lookup_total_correct _ _ _ Hj)).
  destruct (AllocateByRandom_spec MS (m_heap p) index n al) as (a & h & Ea & A); rewrite ?El; try done; try lia.
  { apply W. } { by eapply lookup_lt_Some. }
  exists a, h. unfold Impl_AllocateAligned, AllocateAligned. rewrite Ea. ostep. done.
Qed.

(** No manager of [l] has a free block of level [index], at any aligned address. *)
Definition exhausted mm (l : list nat) (index : nat) : Prop :=
  forall i p b, i ∈ l -> manages mm i p -> (lsize MS index | b) ->
    ~ (forall x, b <= x < b + lsize MS index -> impl_avail p x).

Lemma level_index n al index : GetAlignedBlockIndex n al = Z.of_nat index -> (index < length MS)%nat.
Proof.
  intros Hix. unfold GetAlignedBlockIndex in Hix.
  destruct (GetAlignedBlockIndex_loop_spec MS 0 (Z.max n al)) as [[E _]|(j & s & E & Hj & _)].
  { apply shifts_ok_MemoryBlockPageShifts. } { lia. }
  rewrite Hix in E. assert (j = index) as -> by lia. by eapply lookup_lt_Some.
Qed.

Lemma find_manager_spec dir index n al fuel : 0 < n -> 0 < al -> GetAlignedBlockIndex n al = Z.of_nat index ->
  forall mm cur l, mm_wf mm -> chain mm dir cur l -> NoDup l -> (length l <= fuel)%nat ->
  exists r mm', find_manager fuel cur dir (Z.of_nat index) n al mm = Done true (r, mm') /\
    match r with
    | None => mm_takes mm mm' 0 0 /\ exhausted mm l index
    | Some (i, a) => 0 < a /\ (2 ^ countr_zero 64 (al * 4096) | a) /\ mm_takes mm mm' a (a + n * 4096) /\
        exists p, i ∈ l /\ manages mm' i p /\ base p <= a /\ a + n * 4096 <= limit p
    end.
Proof.
  intros Hn Hal Hix. induction fuel as [|fuel IH]; intros mm cur l W Hc Hnd Hl; inversion Hc as [|i p l' Hp Hc']; subst;
    cbn [find_manager]; simpl in Hl; try lia.
  1,2: exists None, mm; split; [done|]; split; [|intros i p b []%not_elem_of_nil]; (split; [done|]);
    split; [by apply same_mm_refl|]; split_and!; [done|lia|intros x; intuition lia].
  rewrite (manager_at_eq _ i p Hp). ostep. pose proof (manages_wf _ W _ _ Hp) as Wp.
  destruct (Impl_AllocateAligned_spec p index n al Wp Hn Hal Hix) as (a & h & E & A). rewrite E. ostep. cbv iota.
  pose proof (set_manager_manages mm i p (with_heap h p) Hp) as [Hp' Hother].
  destruct A as [(-> & T & He)|(Hpos & Hd & T)].
  - pose proof (set_manager_takes mm i p h _ _ W Hp T) as T1. simpl negb. cbv iota.
    apply list.NoDup_cons in Hnd as [Hni Hnd].
    destruct (IH (set_manager i (with_heap h p) mm) (GetNextManager (with_heap h p) dir) l') as (r & mm' & E' & Hr);
      [apply T1|eapply chain_same; [apply T1|done]|done|lia|].
    exists r, mm'. split; [done|]. destruct r as [[j a]|].
    + destruct Hr as (Ha & Hd & T2 & q & Hj & Hq). split_and!; [done|done|by eapply mm_takes_trans_nil|].
      exists q. split; [by apply elem_of_cons; right|done].
    + destruct Hr as [T2 Hex]. split; [by eapply mm_takes_trans_nil|].
      intros j q b [->|Hj]%elem_of_cons Hq Hb.
      * destruct Hp as [Hi Hp], Hq as [_ Hq]. rewrite Hp in Hq. injection Hq as <-.
        apply (empty_levels_no_block MS (m_heap p) index); try done; [apply Wp|by eapply level_index].
      * apply (Hex j q b Hj); [|done]. apply Hother; [|done]. intros ->. done.
  - pose proof (set_manager_takes mm i p h _ _ W Hp T) as T1. destruct (Z.eqb_spec a 0) as [->|]; [lia|]. simpl negb. cbv iota.
    exists (Some (i, a)), (set_manager i (with_heap h p) mm). split; [done|]. split_and!; try done; [apply T1..|].
    exists (with_heap h p). split; [by left|]. split; [done|].
    destruct (takes_bounds MS (m_heap p) h a (a + n * 4096)) as [? ?]; [apply Wp|done|lia|].
    destruct (takes_end _ _ _ _ _ T) as [Eb Ee]. unfold base, limit. simpl. rewrite Eb, Ee. done.
Qed.

(** [mm'] is [mm] with the free pages of [R] taken and given one reference each. *)
Definition mm_opened mm mm' (R : Z -> Prop) : Prop :=
  mm_wf mm' /\ same_mm mm mm' /\ (forall x, R x -> mm_avail mm x /\ mm_refs mm' x = 1) /\
  (forall x, owned mm x -> ~ R x -> mm_refs mm' x = mm_refs mm x) /\
  forall x, mm_avail mm' x <-> mm_avail mm x /\ ~ R x.

Lemma updated_map f g p m p' lo hi :
  length m = length (optimize_map p) -> updated f g (with_map m p) p' lo hi -> updated f g p p' lo hi.
Proof.
  intros E (W & Sm & R & A). split; [done|]. split; [|done]. destruct Sm as (?&?&?&?&?&?). split_and!; try done. by rewrite <- E.
Qed.

Lemma page_alignment al n index : 0 < n -> 0 < al -> GetAlignedBlockIndex n al = Z.of_nat index ->
  (4096 | 2 ^ countr_zero 64 (al * 4096)).
Proof.
  intros Hn Hal Hix. unfold GetAlignedBlockIndex in Hix.
  destruct (GetAlignedBlockIndex_loop_spec MS 0 (Z.max n al)) as [[E _]|(j & s & E & Hj & Hle & _)].
  { apply shifts_ok_MemoryBlockPageShifts. } { lia. }
  assert (2 ^ s <= 2 ^ 40).
  { apply Z.pow_le_mono_r; [lia|]. destruct shifts_ok_MemoryBlockPageShifts as (_ & Hf & _).
    pose proof (Forall_lookup_1 _ _ _ _ Hf Hj) as Hr. simpl in Hr. lia. }
  destruct (countr_zero_pages al) as [Hs _]; [lia|]. change 4096 with (2 ^ 12) at 1.
  exists (2 ^ (countr_zero 64 (al * 4096) - 12)). rewrite <- Z.pow_add_r by lia. f_equal. lia.
Qed.

(** Where the pages of a process are tracked, the managers of the pool have their maps. *)
Definition tracked mm (pool : Z) (l : list nat) : Prop :=
  exists has, arr_get (m_has_optimized_process mm) pool = Done true has /\
    (has = true -> forall i p, i ∈ l -> manages mm i p -> map_ok p).

Lemma map_ok_same p p' : same_impl p p' -> map_ok p -> map_ok p'.
Proof. intros (Eb & El & _ & _ & _ & Em). unfold map_ok. by rewrite Eb, El, Em. Qed.

Lemma tracked_same mm mm' pool l : same_mm mm mm' -> tracked mm pool l -> tracked mm' pool l.
Proof.
  intros Sm (has & E & Hm). exists has. pose proof Sm as (_&_&_&_&Eh&_). rewrite Eh. split; [done|].
  intros Ht i p Hi Hp. destruct (same_mm_manages_inv _ _ _ _ Sm Hp) as (q & Hq & Si). eapply map_ok_same; [done|]. by eapply Hm.
Qed.

(** Tracking, when asked for, changes nothing but the map. *)
Lemma track_if_spec (has set : bool) p a n :
  impl_wf p -> (has = true -> map_ok p) -> (4096 | a) -> 0 < n -> base p <= a -> a + n * 4096 <= limit p ->
  exists m, (if has then track set a n p else mret p) = Done true (with_map m p) /\ length m = length (optimize_map p).
Proof.
  intros W Hm Ha Hn H1 H2. destruct has; [apply track_spec; try done; by apply Hm|].
  exists (optimize_map p). split; [|done]. by destruct p.
Qed.

Lemma set_manager_twice mm i p p' : set_manager i p' (set_manager i p mm) = set_manager i p' mm.
Proof. unfold set_manager, with_managers. simpl. by rewrite list_insert_insert_eq. Qed.

Lemma AllocateAndOpenContinuous_spec mm n al option pool dir l index :
  mm_wf mm -> DecodeOption option = (pool, dir) -> pool_chain mm pool dir l -> tracked mm pool l ->
  0 < n -> 0 < al -> GetAlignedBlockIndex n al = Z.of_nat index ->
  exists a mm', AllocateAndOpenContinuous n al option mm = Done true (a, mm') /\
    ((a = 0 /\ mm_opened mm mm' (fun _ => False) /\ exhausted mm l index) \/
     (0 < a /\ (2 ^ countr_zero 64 (al * 4096) | a) /\ mm_opened mm mm' (fun x => a <= x < a + n * 4096))).
Proof.
  intros W Ed (first & Ef & Hc & Hnd & Hl) Ht Hn Hal Hix. unfold AllocateAndOpenContinuous.
  destruct (Z.eqb_spec n 0); [lia|]. rewrite Ed, Hix, Ef. ostep.
  destruct (find_manager_spec dir index n al (Z.to_nat MaxManagerCount) Hn Hal Hix mm first l W Hc Hnd Hl)
    as (r & mm1 & E & Hr). rewrite E. ostep. cbv iota. destruct r as [[i a]|].
  - destruct Hr as (Hpos & Hd & T & p & Hi & Hp & H1 & H2). pose proof T as (W1 & S1 & R1 & In1 & A1).
    destruct (tracked_same _ _ _ _ S1 Ht) as (has & -> & Hm). ostep. rewrite (manager_at_eq _ i p Hp). ostep.
    pose proof (manages_wf _ W1 _ _ Hp) as Wp.
    assert (4096 | a) as Ha by (exact (Z.divide_trans _ _ _ (page_alignment al n index Hn Hal Hix) Hd)).
    destruct (track_if_spec has false p a n Wp (fun Ht => Hm Ht i p Hi Hp) Ha Hn H1 H2) as (m & Em & Elm).
    unfold TrackUnoptimizedAllocation. rewrite Em. ostep.
    assert (forall x, a <= x < a + n * 4096 -> in_impl p x) as Hin by (intros x Hx; unfold in_impl; lia).
    assert (forall x, a <= x < a + n * 4096 -> owned mm x) as Ho by (intros x Hx; by apply avail_owned, In1).
    destruct (Impl_OpenFirst_spec (with_map m p) a n) as (p' & Eo & U); try done.
    { apply (with_map_spec m p 0 Wp Elm). }
    { intros x Hx. change (refcount (with_map m p) x) with (refcount p x). change (impl_avail (with_map m p) x) with (impl_avail p x).
      rewrite <- (avail_in _ W1 i p x Hp), <- (refs_in _ W1 i p x Hp) by (by apply Hin). rewrite A1, R1 by (by apply Ho).
      split; [tauto|]. apply free_no_refs; [done|]. by apply In1. }
    rewrite Eo. ostep. exists a, (set_manager i p' mm1). split; [done|]. right. split; [done|]. split; [done|].
    destruct (set_manager_updated _ _ mm1 i p p' a (a + n * 4096) W1 Hp H1 H2 (updated_map _ _ _ _ _ _ _ Elm U)) as (W2 & S2 & R2 & A2).
    split; [done|]. split; [by eapply same_mm_trans|]. split_and!.
    + intros x Hx. split; [by apply In1|]. rewrite R2, decide_True, R1 by (done || (apply (same_mm_owned mm mm1 x S1); by apply Ho) || by apply Ho).
      rewrite (free_no_refs mm x W (In1 x Hx)). done.
    + intros x Hx Hout. rewrite R2, decide_False, R1 by (done || by apply (same_mm_owned mm mm1 x S1)). done.
    + intros x. rewrite A2, A1. tauto.
  - destruct Hr as [(W1 & S1 & R1 & In1 & A1) Hex]. exists 0, mm1. split; [done|]. left. split; [done|]. split; [|done].
    split; [done|]. split; [done|]. split; [by intros x []|]. split; [by intros x Hx _; apply R1|].
    intros x. rewrite A1. intuition lia.
Qed.

(** *** Sets of pages *)

(** [mm_updated] for any set of pages. *)
Definition mm_on (f : Z -> Z) (g : Z -> Prop) mm mm' (R : Z -> Prop) : Prop :=
  mm_wf mm' /\ same_mm mm mm' /\ (forall x, owned mm x -> R x -> mm_refs mm' x = f (mm_refs mm x)) /\
  (forall x, owned mm x -> ~ R x -> mm_refs mm' x = mm_refs mm x) /\
  forall x, mm_avail mm' x <-> mm_avail mm x \/ R x /\ owned mm x /\ g (mm_refs mm x).

Lemma mm_updated_on f g mm mm' lo hi (R : Z -> Prop) :
  mm_updated f g mm mm' lo hi -> (forall x, R x <-> lo <= x < hi) -> mm_on f g mm mm' R.
Proof.
  intros (W & Sm & Hr & A) HR. split; [done|]. split; [done|]. split_and!.
  - intros x Ho Hx%HR. by rewrite Hr, decide_True.
  - intros x Ho Hx. rewrite HR in Hx. by rewrite Hr, decide_False.
  - intros x. rewrite A, HR. done.
Qed.

Lemma mm_on_nil f g mm (R : Z -> Prop) : mm_wf mm -> (forall x, ~ R x) -> mm_on f g mm mm R.
Proof.
  intros W HR. split; [done|]. split; [by apply same_mm_refl|]. split_and!; [by intros x _ []%HR|done|].
  intros x. specialize (HR x). tauto.
Qed.

Lemma mm_on_app f g mm mm1 mm2 (R1 R2 R : Z -> Prop) :
  mm_on f g mm mm1 R1 -> mm_on f g mm1 mm2 R2 -> (forall x, R1 x -> ~ R2 x) ->
  (forall x, R1 x \/ ~ R1 x) -> (forall x, R x <-> R1 x \/ R2 x) -> mm_on f g mm mm2 R.
Proof.
  intros (W1 & S1 & C1 & D1 & A1) (W2 & S2 & C2 & D2 & A2) Hd Hdec HR.
  assert (forall x, owned mm1 x <-> owned mm x) as Ho by (intros; by apply same_mm_owned).
  split; [done|]. split; [by eapply same_mm_trans|]. split_and!.
  - intros x Hx [H1|H2]%HR.
    + rewrite D2 by (by apply Hd || by apply Ho). by apply C1.
    + rewrite C2 by (done || by apply Ho). f_equal. apply D1; [done|]. intros H1. by apply (Hd x).
  - intros x Hx Hn. rewrite HR in Hn. rewrite D2 by (tauto || by apply Ho). apply D1; tauto.
  - intros x. rewrite A2, A1, HR, Ho. specialize (Hd x). destruct (Hdec x) as [H1|H1]; [tauto|].
    split; [intros [[?|?]|(H2 & Hx & Hg)]; [tauto|tauto|]|intros [?|([?|H2] & Hx & Hg)]; [tauto|tauto|]].
    + rewrite D1 in Hg by done. tauto.
    + right. split_and!; try done. by rewrite D1.
Qed.


(** ** Page groups *)

Section Groups.
Context {M : Type} {BS : BlockInfoSource M}.
Implicit Types out : KPageGroup M.

(** The source of block records can refuse. *)
Definition source_refuses : Prop := exists m : M, fst (info_Allocate m) = false.

Lemma concat_last_spec l a np :
  Forall block_wf l -> 0 <= np < 2 ^ 32 -> 0 < a -> a + np * 4096 < 2 ^ 44 ->
  match concat_last l a np with Some l' => added a np l l' | None => True end.
Proof.
  intros Hf Hnp Ha Hlow.
  assert (match concat_last l a np with
          | Some l' => exists l0 b, l = l0 ++ [b] /\ bstop b = a /\
              l' = l0 ++ [mkInfo (m_page_index b) (m_num_pages b + np)]
          | None => True end) as H.
  { induction l as [|b l IH]; [done|]. apply Forall_cons_1 in Hf as [Hb Hf]. specialize (IH Hf).
    destruct l as [|c l].
    - simpl. unfold TryConcatenate. rewrite (proj2 (Info_address b Hb)). destruct (Z.eqb_spec a 0); [lia|].
      destruct (Z.eqb_spec a (bstop b)) as [->|]; [|done]. simpl. exists [], b. split_and!; try done.
      f_equal. f_equal. destruct Hb as (? & ? & ?). unfold bstop in *. rewrite (u32_small np), u32_small by lia. done.
    - change (concat_last (b :: c :: l) a np) with
        (match concat_last (c :: l) a np with Some r' => Some (b :: r') | None => None end).
      destruct (concat_last (c :: l) a np) as [l'|]; [|done]. destruct IH as (l0 & d & -> & Hd & ->).
      exists (b :: l0), d. done. }
  destruct (concat_last l a np); [|done]. destruct H as (l1 & b & -> & Hb & ->). by eapply added_last.
Qed.

Lemma AddBlock_spec out a np :
  Forall block_wf (g_blocks out) -> (4096 | a) -> 0 < a -> 0 < np -> a + np * 4096 < 2 ^ 44 ->
  exists r out', AddBlock a np out = Done true (r, out') /\
    ((r = ResultSuccess /\ added a np (g_blocks out) (g_blocks out')) \/
     (r = ResultOutOfResource /\ g_blocks out' = g_blocks out /\ source_refuses)).
Proof.
  intros Hf Ha Hpos Hnp Hlow. unfold AddBlock. destruct (Z.eqb_spec np 0); [lia|].
  unfold PageSize. rewrite (u64_small (np * 4096)), (u64_small (a + np * 4096)) by lia.
  rewrite bind_assert_true by (apply Z.ltb_lt; lia).
  pose proof (concat_last_spec (g_blocks out) a np Hf ltac:(lia) Hpos Hlow) as Hc.
  destruct (concat_last (g_blocks out) a np) as [l|].
  - exists ResultSuccess, (mkGroup l (m_manager out)). split; [done|]. left. done.
  - destruct (info_Allocate (m_manager out)) as [ok m] eqn:Em. destruct ok; simpl negb; cbv iota.
    + unfold KBlockInfo_Initialize. rewrite bind_assert_true by (apply IsAligned_page; [lia|done]).
      rewrite bind_assert_true by (apply Z.eqb_eq, u32_small; lia). ostep. unfold PageSize.
      exists ResultSuccess, (mkGroup (g_blocks out ++ [mkInfo (u32 (a / 4096)) (u32 np)]) m). split; [done|]. left.
      split; [done|]. simpl. assert (0 <= a / 4096 < 2 ^ 32).
      { split; [apply Z.div_pos; lia|apply Z.div_lt_upper_bound; lia]. }
      rewrite !u32_small by lia. constructor.
    + eexists _, _. split; [done|]. right. split; [done|]. split; [done|]. exists (m_manager out). by rewrite Em.
Qed.

(** *** Blocks and managers *)

(** The block lies in one manager of [ids]. *)
Definition within mm (ids : list nat) (b : KBlockInfo) : Prop :=
  exists i p, i ∈ ids /\ manages mm i p /\ base p <= bstart b /\ bstop b <= limit p.

(** No manager begins where another one ends. *)
Definition apart mm (ids : list nat) : Prop :=
  forall i j p q, i ∈ ids -> j ∈ ids -> manages mm i p -> manages mm j q -> i <> j -> limit p <> base q.

Lemma within_same mm mm' ids b : same_mm mm mm' -> within mm ids b -> within mm' ids b.
Proof.
  intros Sm (i & p & Hi & Hp & H1 & H2). destruct (same_mm_manages _ _ _ _ Sm Hp) as (q & Hq & Eb & El & _).
  exists i, q. by rewrite Eb, El.
Qed.

Lemma apart_same mm mm' ids : same_mm mm mm' -> apart mm ids -> apart mm' ids.
Proof.
  intros Sm Ha i j p q Hi Hj Hp Hq Hne.
  destruct (same_mm_manages_inv _ _ _ _ Sm Hp) as (p0 & Hp0 & Eb & El & _).
  destruct (same_mm_manages_inv _ _ _ _ Sm Hq) as (q0 & Hq0 & Eb' & El' & _). rewrite El, Eb'. by apply (Ha i j).
Qed.

Lemma added_within mm ids a np l l' i p :
  mm_wf mm -> apart mm ids -> added a np l l' -> Forall block_wf l -> (4096 | a) -> 0 < np ->
  i ∈ ids -> manages mm i p -> base p <= a -> a + np * 4096 <= limit p ->
  Forall (within mm ids) l -> Forall (within mm ids) l'.
Proof.
  intros W Hap Hadd Hf [k Hk] Hnp Hi Hp H1 H2 Hw. destruct Hadd as [|l0 b -> Hb].
  - apply Forall_app. split; [done|]. apply Forall_singleton. exists i, p. unfold bstart, bstop. simpl.
    rewrite Hk, Z.div_mul by lia. split_and!; try done; lia.
  - apply Forall_app in Hw as [Hw (Hwb & _)%Forall_cons_1]. apply Forall_app in Hf as [_ (Hfb & _)%Forall_cons_1].
    apply Forall_app. split; [done|]. apply Forall_singleton.
    destruct Hwb as (j & q & Hj & Hq & G1 & G2), Hfb as (F1 & F2 & F3).
    destruct (decide (i = j)) as [<-|Hne].
    + destruct Hp as [Hlt Hp], Hq as [_ Hq]. rewrite Hp in Hq. injection Hq as <-.
      exists i, p. unfold bstart, bstop in *. simpl. split_and!; try done; lia.
    + exfalso. apply (Hap j i q p); try done.
      assert (~ in_impl q a) as Hq0. { intros Hx. destruct (manages_unique mm W i j p q a); try done. unfold in_impl. lia. }
      assert (~ in_impl p (a - 1)) as Hp0. { intros Hx. destruct (manages_unique mm W i j p q (a - 1)); try done. unfold in_impl, bstart, bstop in *. lia. }
      unfold in_impl, bstart, bstop in *. lia.
Qed.

(** The pages of a block that lie in the manager of its first page. *)
Definition first_part mm (b : KBlockInfo) (x : Z) : Prop :=
  exists i p, manages mm i p /\ in_impl p (bstart b) /\ in_block b x /\ x < limit p.
Definition first_parts mm (l : list KBlockInfo) (x : Z) : Prop := exists b, b ∈ l /\ first_part mm b x.

Lemma first_part_same mm mm' b x : same_mm mm mm' -> first_part mm' b x <-> first_part mm b x.
Proof.
  intros Sm. split; intros (i & p & Hp & H1 & H2 & H3).
  - destruct (same_mm_manages_inv _ _ _ _ Sm Hp) as (q & Hq & Si). exists i, q. rewrite (same_impl_in q p _ Si) in H1.
    destruct Si as (_ & El & _). rewrite El in H3. done.
  - destruct (same_mm_manages _ _ _ _ Sm Hp) as (q & Hq & Si). exists i, q. rewrite (same_impl_in p q _ Si).
    destruct Si as (_ & El & _). rewrite El. done.
Qed.

Lemma first_parts_cons mm b l x : first_parts mm (b :: l) x <-> first_part mm b x \/ first_parts mm l x.
Proof.
  unfold first_parts. split.
  - intros (c & [->|Hc]%elem_of_cons & Hx); [by left|right; by exists c].
  - intros [Hx|(c & Hc & Hx)]; [exists b|exists c]; (split; [|done]); apply elem_of_cons; tauto.
Qed.

Lemma first_parts_in mm l x : first_parts mm l x -> in_blocks l x.
Proof. intros (b & Hb & _ & _ & _ & _ & Hx & _). by exists b. Qed.

Lemma within_first_part mm ids b x : mm_wf mm -> within mm ids b -> first_part mm b x <-> in_block b x.
Proof.
  intros W (i & p & _ & Hp & H1 & H2). split; [by intros (_ & _ & _ & _ & Hx & _)|]. intros Hx.
  exists i, p. unfold in_block in *. split_and!; try done; [unfold in_impl|..]; lia.
Qed.

Lemma within_first_parts mm ids l x : mm_wf mm -> Forall (within mm ids) l -> first_parts mm l x <-> in_blocks l x.
Proof.
  intros W Hw. rewrite list.Forall_forall in Hw. split; [apply first_parts_in|]. intros (b & Hb & Hx). exists b. split; [done|].
  by apply (within_first_part mm ids); [|apply Hw|].
Qed.

Lemma first_part_dec mm b x : mm_wf mm -> first_part mm b x \/ ~ first_part mm b x.
Proof.
  intros W. destruct (m_managers mm !! GetManager layout (bstart b)) as [p|] eqn:Ep.
  2: { right. intros (i & q & Hq & Hi & _). rewrite (manages_at _ W i q _ Hq Hi) in Ep. destruct Hq as [_ Hq]. by rewrite Hq in Ep. }
  assert ((GetManager layout (bstart b) < m_num_managers mm)%nat /\ base p <= bstart b < limit p /\ bstart b <= x < bstop b /\ x < limit p \/
          ~ ((GetManager layout (bstart b) < m_num_managers mm)%nat /\ base p <= bstart b < limit p /\ bstart b <= x < bstop b /\ x < limit p)) as [H|H] by lia.
  - left. exists (GetManager layout (bstart b)), p. unfold in_block, in_impl. destruct H as (? & ? & ? & ?). split_and!; try done; lia.
  - right. intros (i & q & Hq & Hi & Hx & Hl). pose proof (manages_at _ W i q _ Hq Hi) as <-. destruct Hq as [Hlt Hq].
    rewrite Ep in Hq. injection Hq as <-. apply H. done.
Qed.

Lemma first_parts_dec mm l x : mm_wf mm -> first_parts mm l x \/ ~ first_parts mm l x.
Proof.
  intros W. induction l as [|b l IH]; [right; by intros Hx%first_parts_in%in_blocks_nil|]. rewrite first_parts_cons.
  destruct (first_part_dec mm b x W); tauto.
Qed.

(** The part of the block [b] in its first manager is given back. *)
Lemma free_block_spec mm b i p :
  mm_wf mm -> block_wf b -> manages mm i p -> in_impl p (bstart b) ->
  (forall x, in_block b x -> ~ mm_avail mm x /\ mm_refs mm x = 0) ->
  exists p', Impl_Free (bstart b) (Z.min (Info_GetNumPages b) (u64 (Impl_GetEndAddress p - bstart b) / PageSize)) p = Done true p' /\
    mm_on id (fun _ => True) mm (set_manager i p' mm) (first_part mm b).
Proof.
  intros W Hb Hp Hin Hpre. pose proof (manages_wf _ W _ _ Hp) as Wp. pose proof Hb as (B1 & B2 & B3).
  assert (bstop b = bstart b + m_num_pages b * 4096) as Es by (unfold bstart, bstop; lia).
  assert (4096 | bstart b) as Ha by apply Z.divide_factor_r.
  pose proof (iw_low _ Wp). pose proof (impl_bounds _ Wp). pose proof Hin as [H1 H2].
  assert (Impl_GetEndAddress p = limit p) as El.
  { unfold Impl_GetEndAddress, GetEndAddress, GetAddress, Heap_GetSize. apply u64_small. unfold base, limit, heap_end in *. lia. }
  rewrite El, u64_small by lia. unfold Info_GetNumPages, PageSize.
  assert ((limit p - bstart b) / 4096 * 4096 = limit p - bstart b) as Eq.
  { destruct Ha as [q ->], (iw_limit _ Wp) as [k ->]. rewrite <- Z.mul_sub_distr_r, Z.div_mul by lia. lia. }
  set (n := Z.min (m_num_pages b) ((limit p - bstart b) / 4096)).
  assert (0 < n /\ bstart b + n * 4096 <= limit p /\ bstart b + n * 4096 = Z.min (bstop b) (limit p)) as (Hn & Hend & Emin) by (unfold n; lia).
  clearbody n. destruct (Impl_Free_spec p (bstart b) n) as (p' & E & U & _); try done; try lia.
  { intros x Hr. assert (in_impl p x) as Hx by (unfold in_impl; lia).
    rewrite <- (avail_in _ W i p x Hp Hx), <- (refs_in _ W i p x Hp Hx). apply Hpre. unfold in_block. lia. }
  exists p'. split; [done|]. eapply mm_updated_on; [by eapply set_manager_updated|]. intros x. split.
  - intros (j & q & Hq & Hi & Hx & Hlt). destruct (manages_unique mm W i j p q (bstart b)) as [_ <-]; try done. unfold in_block in Hx. lia.
  - intros Hx. exists i, p. unfold in_block. split_and!; try done; lia.
Qed.

Lemma free_blocks_spec l : forall mm,
  mm_wf mm -> Forall block_wf l -> disjoint_blocks l -> (forall x, in_blocks l x -> owned mm x /\ ~ mm_avail mm x /\ mm_refs mm x = 0) ->
  exists mm', free_blocks layout l mm = Done true mm' /\ mm_on id (fun _ => True) mm mm' (first_parts mm l).
Proof.
  induction l as [|b l IH]; intros mm W Hf Hd Hpre; cbn [free_blocks].
  { exists mm. split; [done|]. apply mm_on_nil; [done|]. by intros x Hx%first_parts_in%in_blocks_nil. }
  apply Forall_cons_1 in Hf as [Hb Hf]. destruct Hd as [Hx Hd]. pose proof Hb as (B1 & B2 & B3).
  rewrite (proj1 (Info_address b Hb)).
  assert (in_block b (bstart b)) as Hfirst by (unfold in_block, bstart, bstop; lia).
  destruct (Hpre (bstart b)) as ((i & p & Hp & Hin) & _); [apply in_blocks_cons; by left|].
  rewrite (manages_at _ W i p _ Hp Hin), (manager_at_eq _ i p Hp). ostep.
  destruct (free_block_spec mm b i p W Hb Hp Hin) as (p' & E & O1).
  { intros x Hxb. apply Hpre, in_blocks_cons. by left. }
  rewrite E. ostep. pose proof O1 as (W1 & S1 & C1 & D1 & A1).
  assert (forall x, first_part mm b x -> ~ in_blocks l x) as Hsep by (intros x (_ & _ & _ & _ & Hxb & _); by apply Hx).
  destruct (IH (set_manager i p' mm) W1 Hf Hd) as (mm' & E' & O').
  { intros x Hl. destruct (Hpre x) as (Ho & ? & ?); [apply in_blocks_cons; by right|].
    assert (~ first_part mm b x) by (intros Hxb; by apply (Hsep x)).
    rewrite A1, D1 by done. split; [by apply (same_mm_owned mm _ x S1)|]. tauto. }
  exists mm'. split; [done|].
  assert (forall x, first_parts (set_manager i p' mm) l x <-> first_parts mm l x) as Hsame.
  { intros x. unfold first_parts. split; intros (c & Hc & Hxc); exists c; (split; [done|]); by apply (first_part_same mm _ c x S1). }
  eapply mm_on_app; [exact O1|exact O'| | |].
  - intros x Hx1 Hx2%first_parts_in. by apply (Hsep x).
  - intros x. by apply first_part_dec.
  - intros x. rewrite first_parts_cons, Hsame. done.
Qed.

Lemma over_blocks_spec pre f g op l : page_op pre f g op -> forall mm,
  mm_wf mm -> Forall block_wf l -> disjoint_blocks l ->
  (forall x, in_blocks l x -> owned mm x /\ ~ mm_avail mm x /\ pre (mm_refs mm x)) ->
  exists mm', over_blocks layout op l mm = Done true mm' /\ mm_on f g mm mm' (in_blocks l).
Proof.
  intros Hop. induction l as [|b l IH]; intros mm W Hf Hd Hpre; cbn [over_blocks].
  { exists mm. split; [done|]. apply mm_on_nil; [done|]. apply in_blocks_nil. }
  apply Forall_cons_1 in Hf as [Hb Hf]. destruct Hd as [Hx Hd]. rewrite (proj1 (Info_address b Hb)).
  pose proof Hb as (B1 & B2 & B3). assert (bstop b = bstart b + m_num_pages b * 4096) as Es by (unfold bstart, bstop; lia).
  unfold Info_GetNumPages.
  destruct (over_range_spec pre f g op (Z.to_nat (m_num_pages b)) Hop mm (bstart b) (m_num_pages b)) as (mm1 & E & U1);
    [done|apply Z.divide_factor_r|lia|done|intros x Hr; apply Hpre, in_blocks_cons; left; unfold in_block; lia|].
  rewrite E. ostep. rewrite <- Es in U1. pose proof (mm_updated_on _ _ _ _ _ _ (in_block b) U1 (fun x => ltac:(done))) as O1.
  destruct (IH mm1) as (mm' & E' & O').
  - apply O1.
  - done.
  - done.
  - intros x Hl. assert (~ in_block b x) by (intros Hxb; by apply (Hx x)).
    destruct (Hpre x) as (Ho & ? & ?); [apply in_blocks_cons; by right|]. destruct O1 as (W1 & S1 & C1 & D1 & A1).
    rewrite A1, D1 by done. split; [by apply (same_mm_owned mm mm1 x S1)|]. tauto.
  - exists mm'. split; [done|]. eapply mm_on_app; [exact O1|exact O'|done| |].
    + intros x. unfold in_block. lia.
    + intros x. apply in_blocks_cons.
Qed.

(** *** Allocating a group *)

(** What was free in [mm0] is free in [mm] or in one of the blocks, which are disjoint, and each in one
    manager of [ids] when no two of them are adjacent. *)
Record grabbed (ids : list nat) mm0 mm (l : list KBlockInfo) : Prop := {
  gr_wf : mm_wf mm;
  gr_same : same_mm mm0 mm;
  gr_refs x : owned mm0 x -> mm_refs mm x = mm_refs mm0 x;
  gr_blocks : Forall block_wf l;
  gr_disjoint : disjoint_blocks l;
  gr_within : apart mm0 ids -> Forall (within mm ids) l;
  gr_avail x : mm_avail mm0 x <-> mm_avail mm x \/ in_blocks l x;
  gr_out x : in_blocks l x -> ~ mm_avail mm x
}.

Lemma grabbed_nil ids mm : mm_wf mm -> grabbed ids mm mm [].
Proof.
  intros W. pose proof in_blocks_nil as Hn. split; try done; [by apply same_mm_refl| |].
  - intros x. specialize (Hn x). tauto.
  - intros x Hx. exfalso. by apply (Hn x).
Qed.

(** A heap operation that leaves what is available. *)
Lemma grabbed_keep ids mm0 mm mm' l :
  grabbed ids mm0 mm l -> mm_wf mm' -> same_mm mm mm' ->
  (forall x, owned mm x -> mm_refs mm' x = mm_refs mm x) -> (forall x, mm_avail mm' x <-> mm_avail mm x) ->
  grabbed ids mm0 mm' l.
Proof.
  intros [G1 G2 G3 G4 G5 G6 G7 G8] W Sm R A. split; try done.
  - by eapply same_mm_trans.
  - intros x Hx. rewrite R by (by apply (same_mm_owned mm0 mm)). by apply G3.
  - intros Hap. eapply list.Forall_impl; [exact (G6 Hap)|]. intros b. by apply within_same.
  - intros x. rewrite A. apply G7.
  - intros x Hx. rewrite A. by apply G8.
Qed.

Lemma grabbed_add ids mm0 mm mm' l l' a np i p :
  grabbed ids mm0 mm l -> mm_takes mm mm' a (a + np * 4096) -> added a np l l' ->
  (4096 | a) -> 0 < np -> i ∈ ids -> manages mm i p -> base p <= a -> a + np * 4096 <= limit p ->
  grabbed ids mm0 mm' l'.
Proof.
  intros [G1 G2 G3 G4 G5 G6 G7 G8] (W' & S' & R' & In' & A') Hadd Ha Hnp Hi Hp H1 H2.
  pose proof (manages_wf _ G1 _ _ Hp) as Wp. pose proof (iw_low _ Wp). pose proof (impl_bounds _ Wp).
  assert (forall x, a <= x < a + np * 4096 -> ~ in_blocks l x) as Hnew.
  { intros x Hx Hl. by apply (G8 x Hl), In'. }
  assert (forall x, in_blocks l' x <-> in_blocks l x \/ a <= x < a + np * 4096) as Hin
    by (intros x; apply (added_in a np l l'); (done || lia)).
  split; try done.
  - by eapply same_mm_trans.
  - intros x Hx. rewrite R' by (by apply (same_mm_owned mm0 mm)). by apply G3.
  - apply (added_wf a np l l'); (done || lia).
  - apply (added_disjoint a np l l'); (done || lia).
  - intros Hap. eapply list.Forall_impl; [|intros b; by apply within_same].
    eapply added_within; [exact G1|by eapply apart_same|done..|by apply G6].
  - intros x. rewrite G7, A', Hin. specialize (In' x). destruct (Z_le_dec a x), (Z_lt_dec x (a + np * 4096)); intuition lia.
  - intros x. rewrite Hin, A'. specialize (G8 x). tauto.
Qed.

(** The pages of a level's blocks. *)
Definition level_pages (index : nat) : Z := lsize MS index / 4096.

Lemma level_pages_eq index : (index < length MS)%nat ->
  0 < level_pages index /\ lsize MS index = level_pages index * 4096 /\
  GetBlockNumPages (Z.of_nat index) = Done true (level_pages index) /\ (4096 | lsize MS index).
Proof.
  intros H. assert (index = 0 \/ index = 1 \/ index = 2 \/ index = 3 \/ index = 4 \/ index = 5 \/ index = 6)%nat as Hc
    by (simpl in H; lia).
  assert (forall q, lsize MS index = q * 4096 -> 0 < q -> GetBlockNumPages (Z.of_nat index) = Done true q ->
    0 < level_pages index /\ lsize MS index = level_pages index * 4096 /\
    GetBlockNumPages (Z.of_nat index) = Done true (level_pages index) /\ (4096 | lsize MS index)) as Hq.
  { intros q E Hq Eg. unfold level_pages. rewrite E, Z.div_mul by lia. split_and!; try done. by exists q. }
  destruct Hc as [->|[->|[->|[->|[->|[->| ->]]]]]];
    [apply (Hq 1)|apply (Hq 16)|apply (Hq 512)|apply (Hq 1024)|apply (Hq 8192)|apply (Hq 131072)|apply (Hq 262144)];
    (reflexivity || lia).
Qed.

Lemma Impl_AllocateBlock_spec p index random :
  impl_wf p -> (index < length MS)%nat ->
  exists a h, Impl_AllocateBlock (Z.of_nat index) random p = Done true (a, with_heap h p) /\
    allocated MS (m_heap p) h index (lsize MS index) (lsize MS index) a.
Proof.
  intros W Hi. destruct (AllocateBlock_spec MS (m_heap p) index random) as (a & h & E & A); [apply W|done|].
  exists a, h. unfold Impl_AllocateBlock. rewrite E. ostep. done.
Qed.

(** No page of the managers of [l] is free. *)
Definition drained mm (l : list nat) : Prop := forall i p x, i ∈ l -> manages mm i p -> ~ impl_avail p x.

Lemma drained_shrink mm mm' l : mm_wf mm -> mm_wf mm' -> same_mm mm mm' ->
  (forall x, mm_avail mm' x -> mm_avail mm x) -> drained mm l -> drained mm' l.
Proof.
  intros W W' Sm Hs Hd i p x Hi Hp Hx. destruct (same_mm_manages_inv _ _ _ _ Sm Hp) as (q & Hq & Si).
  apply (Hd i q x Hi Hq). rewrite <- (avail_in mm W i q x Hq); [apply Hs; by exists i, p|].
  apply (same_impl_in q p x Si), avail_in_impl; [by apply (manages_wf mm' W' i)|done].
Qed.

(** The outcome of the loops: what has been taken, what remains to be taken, and why it stopped. *)
Definition took (ids : list nat) mm0 mm out num (err : option Z) (rem : Z) out' mm' : Prop :=
  grabbed ids mm0 mm' (g_blocks out') /\ same_mm mm mm' /\ (forall x, mm_avail mm' x -> mm_avail mm x) /\
  sum_pages (g_blocks out') + rem = sum_pages (g_blocks out) + num /\ 0 <= rem <= num /\
  (err = None \/ err = Some ResultOutOfResource /\ source_refuses).

Lemma took_trans ids mm0 mm out num rem1 out1 mm1 err rem out' mm' :
  took ids mm0 mm out num None rem1 out1 mm1 -> took ids mm0 mm1 out1 rem1 err rem out' mm' ->
  took ids mm0 mm out num err rem out' mm'.
Proof.
  intros (_ & S1 & H1 & E1 & B1 & _) (G & S2 & H2 & E2 & B2 & Er). split; [done|]. split; [by eapply same_mm_trans|].
  split; [intros x Hx; by apply H1, H2|]. split; [lia|]. split; [lia|done].
Qed.

Section Loops.
Context (ids : list nat) (mm0 : KMemoryManager (S := S) (B := B)).
Context (index : nat) (Hix : (index < length MS)%nat) (unoptimized random : bool).
Context (Hmap : unoptimized = true -> forall i p, i ∈ ids -> manages mm0 i p -> map_ok p).

Lemma map_ok_later mm i p : same_mm mm0 mm -> unoptimized = true -> i ∈ ids -> manages mm i p -> map_ok p.
Proof.
  intros Sm Hu Hi Hp. destruct (same_mm_manages_inv _ _ _ _ Sm Hp) as (q & Hq & Si). eapply map_ok_same; [done|]. by eapply Hmap.
Qed.

(** The map is updated for a block that was taken. *)
Lemma alloc_track mm l i p a np :
  grabbed ids mm0 mm l -> i ∈ ids -> manages mm i p -> (4096 | a) -> 0 < np -> base p <= a -> a + np * 4096 <= limit p ->
  exists m, (if unoptimized then TrackUnoptimizedAllocation a np p else mret p) = Done true (with_map m p) /\
    let mm' := set_manager i (with_map m p) mm in
    grabbed ids mm0 mm' l /\ same_mm mm mm' /\ forall x, mm_avail mm' x <-> mm_avail mm x.
Proof.
  intros G Hi Hp Ha Hnp H1 H2. pose proof (gr_wf _ _ _ _ G) as W. pose proof (manages_wf _ W _ _ Hp) as Wp.
  destruct (track_if_spec unoptimized false p a np Wp (fun Hu => map_ok_later mm i p (gr_same _ _ _ _ G) Hu Hi Hp) Ha Hnp H1 H2)
    as (m & E & El). exists m. split; [exact E|]. pose proof (impl_bounds _ Wp).
  destruct (set_manager_updated _ _ mm i p _ (base p) (base p) W Hp ltac:(lia) ltac:(lia) (with_map_spec m p (base p) Wp El))
    as (W' & S' & R' & A').
  assert (forall x, mm_avail (set_manager i (with_map m p) mm) x <-> mm_avail mm x) as A2 by (intros x; rewrite A'; tauto).
  split; [|done]. eapply grabbed_keep; [done..| |done]. intros x Hx. rewrite R' by done. rewrite decide_False by lia. done.
Qed.

(** A block that could not be recorded is given back. *)
Lemma alloc_give_back mm l i p h a np :
  grabbed ids mm0 mm l -> manages mm i p -> takes MS (m_heap p) h a (a + np * 4096) -> (4096 | a) -> 0 < np ->
  exists p', Impl_Free a np (with_heap h p) = Done true p' /\
    let mm' := set_manager i p' mm in
    grabbed ids mm0 mm' l /\ same_mm mm mm' /\ forall x, mm_avail mm' x <-> mm_avail mm x.
Proof.
  intros G Hp T Ha Hnp. pose proof (gr_wf _ _ _ _ G) as W. pose proof (manages_wf _ W _ _ Hp) as Wp.
  pose proof (set_manager_takes mm i p h _ _ W Hp T) as (W1 & S1 & R1 & In1 & A1).
  destruct (set_manager_manages mm i p (with_heap h p) Hp) as [Hp' _].
  destruct (impl_takes p h _ _ Wp T) as (Wh & (Eb & El & _) & Rh).
  destruct (takes_bounds MS (m_heap p) h a (a + np * 4096)) as [H1 H2]; [apply Wp|done|lia|].
  fold (base p) in H1. fold (limit p) in H2. rewrite <- Eb in H1. rewrite <- El in H2.
  destruct (Impl_Free_spec (with_heap h p) a np Wh Ha ltac:(lia) H1 H2) as (p' & E & U & _).
  { intros x Hx. split; [by apply (takes_unavailable _ _ _ _ _ T)|]. rewrite Rh. apply (iw_free _ Wp). destruct T as (_ & _ & Hin & _). by apply Hin. }
  exists p'. split; [done|]. destruct (set_manager_updated _ _ _ i _ p' _ _ W1 Hp' H1 H2 U) as (W2 & S2 & R2 & A2).
  rewrite set_manager_twice in *. cbv zeta.
  assert (forall x, mm_avail (set_manager i p' mm) x <-> mm_avail mm x) as A3.
  { intros x. rewrite A2, A1. specialize (In1 x).
    assert (a <= x < a + np * 4096 -> owned (set_manager i (with_heap h p) mm) x) as Ho
      by (intros Hx; exists i, (with_heap h p); split; [done|unfold in_impl; lia]).
    destruct (Z_le_dec a x), (Z_lt_dec x (a + np * 4096)); intuition lia. }
  assert (same_mm mm (set_manager i p' mm)) as S3 by (by eapply same_mm_trans).
  split; [|done]. eapply grabbed_keep; [done..| |done].
  intros x Hx. rewrite R2 by (by apply (same_mm_owned mm _ x S1)). unfold id. rewrite R1 by done. by destruct (decide _).
Qed.

Lemma alloc_while_spec i fuel : i ∈ ids -> forall num out mm p,
  grabbed ids mm0 mm (g_blocks out) -> manages mm i p -> 0 <= num -> (Z.to_nat num <= fuel)%nat ->
  exists err rem out' mm', alloc_while fuel i (Z.of_nat index) (level_pages index) unoptimized random num out mm
      = Done true (err, rem, out', mm') /\
    took ids mm0 mm out num err rem out' mm' /\
    (err = None -> rem < level_pages index \/ (index = 0%nat -> drained mm' [i])).
Proof.
  intros Hi. destruct (level_pages_eq index Hix) as (Hpp & Els & _ & Hdv).
  induction fuel as [|fuel IH]; intros num out mm p G Hp Hn Hf; cbn [alloc_while].
  { destruct (Z.ltb_spec num (level_pages index)); [|lia]. exists None, num, out, mm. split; [done|].
    split; [|intros _; by left]. split; [done|]. split; [by apply same_mm_refl|]. split_and!; try done; try lia. by left. }
  destruct (Z.ltb_spec num (level_pages index)) as [Hlt|Hge].
  { exists None, num, out, mm. split; [done|].
    split; [|intros _; by left]. split; [done|]. split; [by apply same_mm_refl|]. split_and!; try done; try lia. by left. }
  rewrite (manager_at_eq _ i p Hp). ostep. pose proof (gr_wf _ _ _ _ G) as W. pose proof (manages_wf _ W _ _ Hp) as Wp.
  destruct (Impl_AllocateBlock_spec p index random Wp Hix) as (a & h & E & A). rewrite E. ostep. cbv iota.
  pose proof (set_manager_manages mm i p (with_heap h p) Hp) as [Hp' Hother].
  destruct A as [(-> & T & He)|(Hpos & Hd & T)].
  - pose proof (set_manager_takes mm i p h _ _ W Hp T) as (W1 & S1 & R1 & _ & A1). simpl. 
    assert (forall x, mm_avail (set_manager i (with_heap h p) mm) x <-> mm_avail mm x) as A2 by (intros x; rewrite A1; intuition lia).
    exists None, num, out, (set_manager i (with_heap h p) mm). split; [done|]. split.
    + split; [by eapply grabbed_keep|]. split; [done|]. split; [intros x; apply A2|]. split_and!; (lia || by left).
    + intros _. right. intros -> j q x ->%list_elem_of_singleton Hq Hx. destruct Hp' as [_ Hp'], Hq as [_ Hq].
      rewrite Hp' in Hq. injection Hq as <-. destruct T as (_ & _ & _ & Hav). apply Hav in Hx as [(k & bk & Hk & Hx) _].
      by apply (He k ltac:(lia) bk x).
  - rewrite Els in T. pose proof (set_manager_takes mm i p h _ _ W Hp T) as T1. destruct (Z.eqb_spec a 0) as [->|]; [lia|].
    assert (4096 | a) as Ha by (by eapply Z.divide_trans).
    destruct (takes_bounds MS (m_heap p) h a (a + level_pages index * 4096)) as [H1 H2]; [apply Wp|done|lia|].
    pose proof (iw_low _ Wp). fold (base p) in H1. fold (limit p) in H2.
    destruct (AddBlock_spec out a (level_pages index)) as (r & out1 & Er & Hr); [apply G|done|done|done|lia|].
    rewrite Er. ostep. cbv iota. destruct Hr as [(-> & Hadd)|(-> & Eb & Hsrc)].
    + simpl negb. cbv iota. destruct (takes_end _ _ _ _ _ T) as [Eb Ee].
      pose proof (grabbed_add ids mm0 mm _ _ _ a (level_pages index) i p G T1 Hadd Ha Hpp Hi Hp H1 H2) as G1.
      destruct (alloc_track _ _ i (with_heap h p) a (level_pages index) G1 Hi Hp' Ha Hpp) as (m & Em & G2 & S2 & A2);
        [unfold base; simpl; rewrite Eb; done|unfold limit; simpl; rewrite Ee; done|].
      rewrite Em. ostep. rewrite set_manager_twice in *.
      destruct (set_manager_manages mm i p (with_map m (with_heap h p)) Hp) as [Hp2 _].
      destruct (IH (num - level_pages index) out1 _ _ G2 Hp2 ltac:(lia) ltac:(lia)) as (err & rem & out' & mm' & E' & K & He').
      exists err, rem, out', mm'. split; [done|]. split; [|done]. eapply took_trans; [|exact K].
      split; [done|]. destruct T1 as (_ & S1 & _ & _ & A1). split; [by eapply same_mm_trans|].
      split; [intros x Hx; by apply A2, A1 in Hx as []|]. rewrite (added_sum _ _ _ _ Hadd). split_and!; (lia || by left).
    + destruct (alloc_give_back mm _ i p h a (level_pages index) G Hp T Ha Hpp) as (p' & Ef & G2 & S2 & A2).
      change (negb (ResultOutOfResource =? ResultSuccess)) with true. cbv iota. rewrite Ef. ostep.
      exists (Some ResultOutOfResource), num, out1, (set_manager i p' mm). split; [done|]. split; [|done].
      split; [by rewrite Eb|]. split; [done|]. split; [intros x; apply A2|]. rewrite Eb. split_and!; try lia. by right.
Qed.

Lemma alloc_managers_spec dir l : forall fuel cur num out mm,
  grabbed ids mm0 mm (g_blocks out) -> chain mm dir cur l -> (length l <= fuel)%nat -> l ⊆ ids -> 0 <= num ->
  exists err rem out' mm', alloc_managers fuel cur dir (Z.of_nat index) (level_pages index) unoptimized random num out mm
      = Done true (err, rem, out', mm') /\
    took ids mm0 mm out num err rem out' mm' /\
    (err = None -> rem < level_pages index \/ (index = 0%nat -> drained mm' l)).
Proof.
  induction l as [|i l IH]; intros fuel cur num out mm G Hc Hl Hsub Hn; inversion Hc as [|i' p l' Hp Hc']; subst.
  { exists None, num, out, mm. split; [by destruct fuel|]. split.
    - split; [done|]. split; [by apply same_mm_refl|]. split_and!; try done; try lia. by left.
    - intros _. right. by intros _ i p x []%not_elem_of_nil. }
  destruct fuel as [|fuel]; [simpl in Hl; lia|]. cbn [alloc_managers].
  destruct (alloc_while_spec i (Z.to_nat num) (Hsub i ltac:(by left)) num out mm p G Hp Hn ltac:(lia))
    as (err & rem & out1 & mm1 & E & K & He). rewrite E. ostep. cbv iota. destruct err as [r|].
  { exists (Some r), rem, out1, mm1. done. }
  pose proof K as (G1 & S1 & H1 & _ & Hb1 & _). destruct (same_mm_manages _ _ _ _ S1 Hp) as (p1 & Hp1 & Si).
  rewrite (manager_at_eq _ i p1 Hp1). ostep.
  assert (GetNextManager p1 dir = GetNextManager p dir) as En.
  { destruct Si as (_&_&_&E1&E2&_). unfold GetNextManager. by rewrite E1, E2. }
  rewrite En. destruct (IH fuel (GetNextManager p dir) rem out1 mm1 G1) as (err & rem' & out' & mm' & E' & K' & He');
    [by eapply chain_same|simpl in Hl; lia|intros j Hj; apply Hsub; by right|lia|].
  exists err, rem', out', mm'. split; [done|]. split; [by eapply took_trans|]. intros Hnone.
  pose proof K' as (G' & S' & H' & _ & Hb' & _).
  destruct (He eq_refl) as [Hlt|Hd1]; [left; lia|]. destruct (He' Hnone) as [?|Hd']; [by left|]. right. intros H0.
  intros j q x [->|Hj]%elem_of_cons; [|by apply (Hd' H0)].
  apply (drained_shrink mm1 mm' [i]); try done; [apply G1|apply G'|by apply Hd1|by left].
Qed.
End Loops.

Section Levels.
Context (ids : list nat) (mm0 : KMemoryManager (S := S) (B := B)).
Context (pool dir : Z) (Hpool : pool_chain mm0 pool dir ids) (unoptimized random : bool).
Context (Hmap : unoptimized = true -> forall i p, i ∈ ids -> manages mm0 i p -> map_ok p).

Lemma alloc_levels_spec n : (n <= length MS)%nat -> forall num out mm,
  grabbed ids mm0 mm (g_blocks out) -> 0 <= num ->
  exists err rem out' mm', alloc_levels n pool dir unoptimized random num out mm = Done true (err, rem, out', mm') /\
    took ids mm0 mm out num err rem out' mm' /\
    (err = None -> (0 < n)%nat -> rem = 0 \/ drained mm' ids).
Proof.
  induction n as [|n IH]; intros Hn num out mm G Hnum; cbn [alloc_levels].
  { exists None, num, out, mm. split; [done|]. split; [|lia]. split; [done|]. split; [by apply same_mm_refl|].
    split_and!; try done; try lia. by left. }
  destruct (Z.ltb_spec 0 num) as [Hpos|Hz]; simpl negb; cbv iota.
  2: { exists None, num, out, mm. split; [done|]. split; [|intros; left; lia]. split; [done|]. split; [by apply same_mm_refl|].
    split_and!; try done; try lia. by left. }
  destruct (level_pages_eq n ltac:(lia)) as (Hpp & _ & Eg & _). rewrite Eg. ostep.
  destruct (pool_chain_same _ _ _ _ _ (gr_same _ _ _ _ G) Hpool) as (first & Ef & Hc & _ & Hl). rewrite Ef. ostep.
  destruct (alloc_managers_spec ids mm0 n ltac:(lia) unoptimized random Hmap dir ids (Z.to_nat MaxManagerCount) first num out mm G Hc Hl)
    as (err & rem & out1 & mm1 & E & K & He); [done|lia|]. rewrite E. ostep. cbv iota. destruct err as [r|].
  { exists (Some r), rem, out1, mm1. done. }
  pose proof K as (G1 & S1 & H1 & _ & Hb1 & _).
  destruct (IH ltac:(lia) rem out1 mm1 G1) as (err & rem' & out' & mm' & E' & K' & He'); [lia|].
  exists err, rem', out', mm'. split; [done|]. split; [by eapply took_trans|]. intros Hnone _.
  destruct n as [|n]; [|by apply He'; [|lia]]. cbn [alloc_levels] in E'. injection E' as <- <- <- <-.
  destruct (He eq_refl) as [Hlt|Hd]; [left|right; by apply Hd]. change (level_pages 0) with 1 in Hlt. lia.
Qed.
End Levels.

Lemma GetBlockIndex_range num : 0 < num -> 0 <= GetBlockIndex num < 7.
Proof.
  intros H. unfold GetBlockIndex. change (Z.to_nat NumMemoryBlockPageShifts) with 7%nat.
  assert (forall n, (0 < n)%nat -> 0 <= GetBlockIndex_loop n num < Z.of_nat n) as Hl; [|by apply (Hl 7%nat); lia].
  induction n as [|n IH]; [lia|]. intros _. cbn [GetBlockIndex_loop]. destruct (Z.leb_spec (u64 (1 .<< nth n MS 0) / PageSize) num); [lia|].
  destruct n as [|n]; [|specialize (IH ltac:(lia)); lia]. exfalso. change (u64 (1 .<< nth 0 MS 0) / PageSize) with 1 in *. lia.
Qed.

(** *** Too few pages *)

Definition block_pages (b : KBlockInfo) : list Z := map (fun k => (m_page_index b + k) * 4096) (seqZ 0 (m_num_pages b)).

Lemma in_blocks_pages l x : (4096 | x) -> in_blocks l x -> x ∈ concat (map block_pages l).
Proof.
  intros [q ->] (b & Hb & Hx). apply list_elem_of_In, in_concat. exists (block_pages b).
  split; [apply in_map; by apply list_elem_of_In|]. apply list_elem_of_In. unfold block_pages. apply list_elem_of_fmap.
  exists (q - m_page_index b). unfold in_block, bstart, bstop in Hx. split; [lia|]. apply elem_of_seqZ. lia.
Qed.

Lemma length_block_pages l : Forall block_wf l -> Z.of_nat (length (concat (map block_pages l))) = sum_pages l.
Proof.
  induction 1 as [|b l (H1 & H2 & H3) Hl IH]; [done|]. simpl. rewrite length_app. unfold block_pages at 1.
  rewrite length_map, length_seqZ. lia.
Qed.

(** Fewer than [num] pages of the managers of [ids] are free. *)
Definition shortage mm (ids : list nat) (num : Z) : Prop :=
  forall pages : list Z, NoDup pages ->
    (forall x, x ∈ pages -> (4096 | x) /\ exists i p, i ∈ ids /\ manages mm i p /\ impl_avail p x) ->
    Z.of_nat (length pages) < num.

Lemma drained_shortage ids mm0 mm l num rem :
  mm_wf mm0 -> grabbed ids mm0 mm l -> drained mm ids -> sum_pages l + rem = num -> 0 < rem -> shortage mm0 ids num.
Proof.
  intros W G Hd Hs Hr pages Hnd Hp.
  assert (pages ⊆ concat (map block_pages l)) as Hsub.
  { intros x Hx. destruct (Hp x Hx) as (Hdv & i & p & Hi & Hm & Hav). apply in_blocks_pages; [done|].
    destruct (proj1 (gr_avail _ _ _ _ G x)) as [Hx'|]; [by exists i, p| |done]. exfalso.
    destruct (same_mm_manages _ _ _ _ (gr_same _ _ _ _ G) Hm) as (q & Hq & Si). apply (Hd i q x Hi Hq).
    apply (avail_in mm (gr_wf _ _ _ _ G) i q x Hq); [|done]. apply (same_impl_in p q x Si), avail_in_impl; [|done].
    by apply (manages_wf mm0 W i). }
  pose proof (submseteq_length _ _ (NoDup_submseteq _ _ Hnd Hsub)). pose proof (length_block_pages l (gr_blocks _ _ _ _ G)). lia.
Qed.

(** *** The whole group *)

Lemma sum_pages_nonneg l : Forall block_wf l -> 0 <= sum_pages l.
Proof. induction 1 as [|b l (_ & ? & _) _ IH]; simpl; lia. Qed.

Lemma Group_GetNumPages_eq out :
  Forall block_wf (g_blocks out) -> sum_pages (g_blocks out) < 2 ^ 64 -> Group_GetNumPages out = sum_pages (g_blocks out).
Proof.
  assert (forall l acc, Forall block_wf l -> 0 <= acc -> acc + sum_pages l < 2 ^ 64 ->
    fold_left (fun n b => u64 (n + Info_GetNumPages b)) l acc = acc + sum_pages l) as Hfold; [|intros; by apply (Hfold _ 0)].
  induction l as [|b l IH]; intros acc Hf H0 Hs; simpl in *; [lia|]. apply Forall_cons_1 in Hf as [(H1 & H2 & H3) Hf].
  pose proof (sum_pages_nonneg l Hf). unfold Info_GetNumPages. rewrite u64_small by lia. rewrite IH by (done || lia). lia.
Qed.

(** After a failure no page has been invented and no count changed, and nothing is lost when no two
    managers are adjacent. *)
Definition given_back (ids : list nat) mm mm' : Prop :=
  mm_wf mm' /\ same_mm mm mm' /\ (forall x, owned mm x -> mm_refs mm' x = mm_refs mm x) /\
  (forall x, mm_avail mm' x -> mm_avail mm x) /\ (apart mm ids -> forall x, mm_avail mm x -> mm_avail mm' x).

Lemma AllocatePageGroupImpl_spec mm num pool dir ids unoptimized random out :
  mm_wf mm -> pool_chain mm pool dir ids ->
  (unoptimized = true -> forall i p, i ∈ ids -> manages mm i p -> map_ok p) -> g_blocks out = [] -> 0 < num ->
  exists r out' mm', AllocatePageGroupImpl layout num pool dir unoptimized random out mm = Done true (r, out', mm') /\
    ((r = ResultSuccess /\ grabbed ids mm mm' (g_blocks out') /\ sum_pages (g_blocks out') = num) \/
     ((r = ResultOutOfMemory /\ shortage mm ids num \/ r = ResultOutOfResource /\ source_refuses) /\
      g_blocks out' = [] /\ given_back ids mm mm')).
Proof.
  intros W Hpool Hmap Eo Hnum. unfold AllocatePageGroupImpl. pose proof (GetBlockIndex_range num Hnum) as Hb.
  rewrite (proj2 (Z.leb_le _ _) (proj1 Hb)). simpl negb. cbv iota.
  assert (grabbed ids mm mm (g_blocks out)) as G0 by (rewrite Eo; by apply grabbed_nil).
  destruct (alloc_levels_spec ids mm pool dir Hpool unoptimized random Hmap (Z.to_nat (GetBlockIndex num + 1)) ltac:(simpl; lia) num out mm G0)
    as (err & rem & out1 & mm1 & E & (G & S1 & H1 & Es & Hr & Herr) & Hd); [lia|]. rewrite E. ostep. cbv iota zeta.
  rewrite Eo in Es. simpl in Es.
  assert (forall x, in_blocks (g_blocks out1) x -> mm_avail mm x) as Hav by (intros x Hx; apply (gr_avail _ _ _ _ G); by right).
  destruct (free_blocks_spec (g_blocks out1) mm1) as (mm2 & Ef & W2 & S2 & C2 & D2 & A2); [apply G..| |].
  { intros x Hx. specialize (Hav x Hx). split; [apply (same_mm_owned mm mm1 x S1); by apply avail_owned|].
    split; [by apply (gr_out _ _ _ _ G)|]. rewrite (gr_refs _ _ _ _ G) by (by apply avail_owned). by apply free_no_refs. }
  assert (forall x, owned mm1 x <-> owned mm x) as Ho by (intros x; by apply same_mm_owned).
  assert (given_back ids mm mm2) as Hback.
  { split; [done|]. split; [by eapply same_mm_trans|]. split_and!.
    - intros x Hx. rewrite <- (gr_refs _ _ _ _ G x Hx).
      assert (first_parts mm1 (g_blocks out1) x \/ ~ first_parts mm1 (g_blocks out1) x) as [Hp|Hp] by apply first_parts_dec, G.
      + by rewrite C2 by (done || by apply Ho).
      + by rewrite D2 by (done || by apply Ho).
    - intros x [Hx|(Hx & _)]%A2; [apply (gr_avail _ _ _ _ G); by left|]. by apply Hav, (first_parts_in mm1).
    - intros Hap x Hx. apply A2. pose proof (avail_owned _ W x Hx) as Hox. apply (gr_avail _ _ _ _ G) in Hx as [Hx|Hx]; [by left|]. right.
      split; [|split; [by apply Ho|done]]. apply (within_first_parts mm1 ids); [apply G|by apply (gr_within _ _ _ _ G)|done]. }
  destruct Herr as [->|[-> Hsrc]].
  - destruct (Z.eqb_spec rem 0) as [->|Hne].
    + simpl. exists ResultSuccess, out1, mm1. split; [done|]. left. split; [done|]. split; [done|lia].
    + change (ResultOutOfMemory =? ResultSuccess) with false. cbv iota. rewrite Ef. ostep.
      exists ResultOutOfMemory, (Finalize out1), mm2. split; [done|]. right. split; [|done]. left. split; [done|].
      destruct (Hd eq_refl ltac:(lia)) as [?|Hd']; [done|]. eapply drained_shortage; [done..|lia].
  - change (ResultOutOfResource =? ResultSuccess) with false. cbv iota. rewrite Ef. ostep.
    exists ResultOutOfResource, (Finalize out1), mm2. split; [done|]. right. split; [|done]. by right.
Qed.

Lemma AllocateAndOpen_spec mm num option pool dir ids out :
  mm_wf mm -> DecodeOption option = (pool, dir) -> pool_chain mm pool dir ids -> tracked mm pool ids ->
  g_blocks out = [] -> 0 < num ->
  exists r out' mm', AllocateAndOpen layout num option out mm = Done true (r, out', mm') /\
    ((r = ResultSuccess /\ Forall block_wf (g_blocks out') /\ disjoint_blocks (g_blocks out') /\
      sum_pages (g_blocks out') = num /\ mm_opened mm mm' (in_blocks (g_blocks out'))) \/
     ((r = ResultOutOfMemory /\ shortage mm ids num \/ r = ResultOutOfResource /\ source_refuses) /\
      g_blocks out' = [] /\ given_back ids mm mm')).
Proof.
  intros W Ed Hpool (has & Eh & Hm) Eo Hnum. unfold AllocateAndOpen.
  rewrite bind_assert_true by (unfold Group_GetNumPages; by rewrite Eo).
  destruct (Z.eqb_spec num 0); [lia|]. rewrite Ed, Eh. ostep.
  destruct (AllocatePageGroupImpl_spec mm num pool dir ids has true out) as (r & out1 & mm1 & E & Hr); try done.
  rewrite E. ostep. cbv iota. destruct Hr as [(-> & G & Es)|(Hr & Eb & O)].
  - simpl negb. cbv iota.
    assert (forall x, in_blocks (g_blocks out1) x -> mm_avail mm x) as Hav
      by (intros x Hx; apply (gr_avail _ _ _ _ G); by right).
    assert (forall x, in_blocks (g_blocks out1) x -> mm_refs mm1 x = 0) as Hz.
    { intros x Hx. rewrite (gr_refs _ _ _ _ G) by (by apply avail_owned, Hav). apply free_no_refs; [done|by apply Hav]. }
    assert (forall x, owned mm1 x <-> owned mm x) as Ho by (intros x; apply same_mm_owned, G).
    destruct (over_blocks_spec _ _ _ _ (g_blocks out1) OpenFirst_op mm1) as (mm2 & E2 & W2 & S2 & C2 & D2 & A2); try apply G.
    { intros x Hx. split_and!; [by apply Ho, avail_owned, Hav|by apply (gr_out _ _ _ _ G)|by apply Hz]. }
    rewrite E2. ostep. exists ResultSuccess, out1, mm2. split; [done|]. left. split; [done|]. split; [apply G|]. split; [apply G|].
    split; [done|]. split; [done|]. split; [eapply same_mm_trans; [apply G|done]|]. split_and!.
    + intros x Hx. split; [by apply Hav|]. rewrite C2 by (done || by apply Ho, avail_owned, Hav). by rewrite Hz.
    + intros x Hx Hn. rewrite D2 by (done || by apply Ho). by apply (gr_refs _ _ _ _ G).
    + intros x. rewrite A2, (gr_avail _ _ _ _ G x). pose proof (gr_out _ _ _ _ G x). tauto.
  - assert (negb (r =? ResultSuccess) = true) as -> by (destruct Hr as [[-> _]|[-> _]]; reflexivity).
    exists r, out1, mm1. split; [done|]. right. split; [done|]. split; done.
Qed.
End Groups.
End AllManagers.

(** ** Initialisation *)

Section Init.
Context {S : Type} {ES : EntropySource S} {B : Type} {FB : FreeBitmap B}.
Implicit Types (mm : KMemoryManager (S := S) (B := B)) (p : Impl (S := S) (B := B)).

Lemma CalculateOptimized_eq size : 0 <= size < 2 ^ 44 -> (4096 | size) ->
  exists w, CalculateOptimizedProcessOverheadSize size = w * 8 /\ 0 <= w <= 2 ^ 32 /\ size <= w * 64 * 4096.
Proof.
  intros Hs [q ->]. unfold CalculateOptimizedProcessOverheadSize, PageSize. rewrite Z.div_mul by lia.
  destruct (AlignUp_spec 64 q 64) as [[w ->] Hb]; [lia|lia|unfold in_u; lia|lia|].
  exists w. rewrite Z.div_mul, u64_small by lia. lia.
Qed.

(** The map of a manager after [InitializeOptimizedMemory]. *)
Lemma Impl_InitializeOptimizedMemory_ok p : impl_wf p -> map_ok (Impl_InitializeOptimizedMemory p).
Proof.
  intros W. pose proof (impl_bounds _ W). pose proof (iw_low _ W).
  assert (limit p - base p = m_heap_size (m_heap p)) as Es by (unfold limit, base, heap_end; lia).
  destruct (CalculateOptimized_eq (m_heap_size (m_heap p))) as (w & Ew & Hw & Hl).
  { lia. } { rewrite <- Es. apply Z.divide_sub_r; apply W. }
  unfold map_ok, Impl_InitializeOptimizedMemory, Heap_GetSize. cbn [with_map optimize_map]. rewrite length_replicate, Ew, Z.div_mul by lia.
  change (limit (with_map _ p)) with (limit p). change (base (with_map _ p)) with (base p). lia.
Qed.

Lemma Impl_Initialize_spec p intended host address size management management_end pool :
  0 < address -> 0 < size <= 2 ^ 35 -> size <= intended -> address + size < 2 ^ 44 -> (4096 | address) -> (4096 | size) ->
  length (m_blocks (m_heap p)) = 7%nat -> Forall (fun k => bm_ready (m_bitmap k)) (m_blocks (m_heap p)) ->
  rng_wf (m_heap_rng (m_heap p)) -> m_page_reference_counts p = [] -> 0 <= management -> (4096 | management) ->
  management + Impl_CalculateManagementOverheadSize size <= management_end < 2 ^ 64 ->
  exists used p', Impl_Initialize intended host address size management management_end pool p =
      Done (u64 (host + used) <=? management + Impl_CalculateManagementOverheadSize size)
           (Impl_CalculateManagementOverheadSize size, p') /\
    0 <= used <= Impl_CalculateManagementOverheadSize size /\ impl_wf p' /\
    base p' = address /\ limit p' = address + size /\ m_pool p' = pool /\ m_next p' = m_next p /\ m_prev p' = m_prev p /\
    (4096 | Impl_CalculateManagementOverheadSize size) /\
    (forall x, ~ impl_avail p' x) /\ forall x, refcount p' x = 0.
Proof.
  intros Ha Hs Hi Hr Da Ds Hb Hk Hg Ec Hm Dm Hend. unfold Impl_Initialize.
  destruct (CalculateOptimized_eq size ltac:(lia) Ds) as (w & Ew & Hw & _). destruct Ds as [q ->].
  unfold Impl_CalculateManagementOverheadSize in *. fold (CalculateOptimizedProcessOverheadSize (q * 4096)) in *.
  rewrite Ew in *. unfold PageSize in *. rewrite Z.div_mul in * by lia. rewrite (u64_small (q * 2)), (u64_small (w * 8 + q * 2)) in * by lia.
  destruct (AlignUp_spec 64 (w * 8 + q * 2) 4096) as [[k Hk1] Hb1]; [lia|lia|unfold in_u; lia|lia|]. rewrite Hk1 in *.
  assert (exists o, Heap_CalculateManagementOverheadSize (q * 4096) MS = o * 4096 /\ 0 <= o < 2 ^ 40) as (o & Eo & Ho).
  { destruct (overhead_of_shifts_acc MS address (q * 4096) shifts_ok_MemoryBlockPageShifts Ha Hs ltac:(lia) gaps_ok_MemoryBlockPageShifts MS 0 0)
      as [_ Hov]; [done|lia|simpl; lia|]. change (Z.of_nat (length MS)) with 7 in Hov. unfold Heap_CalculateManagementOverheadSize.
    destruct (AlignUp_spec 64 (overhead_of_shifts MS (q * 4096) 0) PageSize) as [[o Eo] Hb2]; [done|lia|unfold in_u; lia|unfold PageSize; lia|].
    exists o. rewrite Eo. unfold PageSize in *. split; [done|]. lia. }
  rewrite Eo in *. rewrite (u64_small (k * 4096 + o * 4096)), (u64_small (management + (k * 4096 + o * 4096))) in * by lia.
  rewrite bind_assert_true by (apply Z.leb_le; lia). rewrite bind_assert_true by (apply Z.leb_le; lia).
  rewrite bind_assert_true by (apply IsAligned_page; [lia|exists (k + o); unfold PageSize; lia]).
  rewrite bind_assert_true by (apply IsAligned_page; done).
  rewrite (u64_small (management + k * 4096)) by lia.
  destruct (Initialize_heap_spec MS (m_heap p) address (q * 4096) (management + k * 4096) (o * 4096) host)
    as (h & used & E & Hu & Wh & Ea & Esz & Hno); try done; try lia.
  { apply shifts_ok_MemoryBlockPageShifts. } { apply gaps_ok_MemoryBlockPageShifts. } { by exists q. }
  rewrite E. eexists used, _. split.
  { cbn [mbind outcome_mbind outcome_bind mret outcome_mret]. rewrite andb_true_r. f_equal. rewrite (u64_small (management + k * 4096 + o * 4096)) by lia. f_equal. lia. }
  split; [lia|]. rewrite Ec, take_nil, Nat.sub_0_r, app_nil_l.
  set (p' := mkImpl _ _ _ _ _ _ _). assert (base p' = address) as Eb by done. assert (limit p' = address + q * 4096) as El
    by (unfold limit, heap_end; simpl; lia).
  assert (forall x, refcount p' x = 0) as Href.
  { intros x. unfold refcount, count_at. simpl. destruct (replicate _ _ !! _) eqn:Er; [|done]. by apply lookup_replicate in Er as [-> _]. }
  split; [|split_and!; try done; by exists (k + o); lia]. split; rewrite ?Eb, ?El; try done.
  - apply Z.divide_add_r; [done|by exists q].
  - simpl. rewrite length_replicate. pose proof (Z.div_le_mono (q * 4096) intended 4096 ltac:(lia) Hi) as Hd. rewrite Z.div_mul in Hd by lia. lia.
  - apply Forall_replicate. unfold in_u. lia.
Qed.
End Init.

(** ** The properties *)

Section Properties.
Context {S : Type} {ES : EntropySource S} {B : Type} {FB : FreeBitmap B} {M : Type} {BS : BlockInfoSource M}.
Implicit Types (mm : KMemoryManager (S := S) (B := B)) (out : KPageGroup M).

(** [Impl::Initialize] with a management area of [CalculateManagementOverheadSize] bytes stays inside
    it and answers its size: the manager is well-formed over the given region, no page is free and
    none has references; the only assertion that can fail is the page heap's last one, which depends
    on where the host puts the bitmaps. *)
Theorem manager_initialize (p : Impl (S := S) (B := B)) intended host address size management management_end pool :
  0 < address -> 0 < size <= 2 ^ 35 -> size <= intended -> address + size < 2 ^ 44 -> (4096 | address) -> (4096 | size) ->
  length (m_blocks (m_heap p)) = 7%nat -> Forall (fun k => bm_ready (m_bitmap k)) (m_blocks (m_heap p)) ->
  rng_wf (m_heap_rng (m_heap p)) -> m_page_reference_counts p = [] -> 0 <= management -> (4096 | management) ->
  management + Impl_CalculateManagementOverheadSize size <= management_end < 2 ^ 64 ->
  exists used p', Impl_Initialize intended host address size management management_end pool p =
      Done (u64 (host + used) <=? management + Impl_CalculateManagementOverheadSize size)
           (Impl_CalculateManagementOverheadSize size, p') /\
    0 <= used <= Impl_CalculateManagementOverheadSize size /\ impl_wf p' /\
    base p' = address /\ limit p' = address + size /\ m_pool p' = pool /\ m_next p' = m_next p /\ m_prev p' = m_prev p /\
    (4096 | Impl_CalculateManagementOverheadSize size) /\
    (forall x, ~ impl_avail p' x) /\ forall x, refcount p' x = 0.
Proof. apply Impl_Initialize_spec. Qed.

(** C4: [Close] of a range of pages that all have references, through however many managers the range
    runs, takes one reference from each page of the range and from no other, and makes available
    exactly those whose last reference it was: no page is freed early and none is lost.  No
    assertion fails and no count wraps. *)
Theorem memory_manager_close layout mm a n :
  mm_wf layout mm -> (4096 | a) -> 0 <= n < 2 ^ 64 ->
  (forall x, a <= x < a + n * 4096 -> owned mm x /\ 0 < mm_refs layout mm x) ->
  exists mm', Close layout a n mm = Done true mm' /\ mm_wf layout mm' /\ same_mm mm mm' /\
    (forall x, owned mm x ->
       mm_refs layout mm' x = if decide (a <= x < a + n * 4096) then mm_refs layout mm x - 1 else mm_refs layout mm x) /\
    forall x, mm_avail mm' x <-> mm_avail mm x \/ a <= x < a + n * 4096 /\ mm_refs layout mm x = 1.
Proof.
  intros W Ha Hn Hpre.
  destruct (over_range_spec layout _ _ _ _ (Z.to_nat n) Close_op mm a n W Ha Hn ltac:(lia)) as (mm' & E & W' & Sm & R & A).
  { intros x Hx. destruct (Hpre x Hx) as [Ho Hr]. split_and!; try done. by apply (counted_not_avail layout). }
  exists mm'. split; [done|]. split; [done|]. split; [done|]. split; [done|].
  intros x. rewrite A. split; [tauto|]. intros [?|[Hx Hr]]; [tauto|]. right. by destruct (Hpre x Hx).
Qed.

(** [Open] adds one reference to each page of a range in use and makes no page available, and a
    [Close] of the same range afterwards restores every count, without freeing anything. *)
Theorem memory_manager_open_close layout mm a n :
  mm_wf layout mm -> (4096 | a) -> 0 <= n < 2 ^ 64 ->
  (forall x, a <= x < a + n * 4096 -> owned mm x /\ 0 < mm_refs layout mm x < 65535) ->
  exists mm1 mm2, Open layout a n mm = Done true mm1 /\ Close layout a n mm1 = Done true mm2 /\
    (forall x, owned mm x -> mm_refs layout mm1 x = if decide (a <= x < a + n * 4096) then mm_refs layout mm x + 1 else mm_refs layout mm x) /\
    (forall x, mm_avail mm1 x <-> mm_avail mm x) /\
    (forall x, owned mm x -> mm_refs layout mm2 x = mm_refs layout mm x) /\ (forall x, mm_avail mm2 x <-> mm_avail mm x).
Proof.
  intros W Ha Hn Hpre.
  destruct (over_range_spec layout _ _ _ _ (Z.to_nat n) Open_op mm a n W Ha Hn ltac:(lia)) as (mm1 & E1 & W1 & S1 & R1 & A1).
  { intros x Hx. destruct (Hpre x Hx) as [Ho Hr]. split_and!; try lia; [done|]. apply (counted_not_avail layout); [done|lia]. }
  assert (forall x, a <= x < a + n * 4096 -> mm_refs layout mm1 x = mm_refs layout mm x + 1) as Hup
    by (intros x Hx; rewrite R1, decide_True by (done || by apply Hpre); done).
  destruct (over_range_spec layout _ _ _ _ (Z.to_nat n) Close_op mm1 a n W1 Ha Hn ltac:(lia)) as (mm2 & E2 & W2 & S2 & R2 & A2).
  { intros x Hx. destruct (Hpre x Hx) as [Ho Hr]. rewrite Hup by done.
    split; [by apply (same_mm_owned mm mm1 x S1)|]. split; [|lia]. rewrite A1. intros [Hx'|(_ & _ & [])].
    revert Hx'. apply (counted_not_avail layout); [done|lia]. }
  assert (forall x, mm_avail mm1 x <-> mm_avail mm x) as A1' by (intros x; rewrite A1; tauto).
  exists mm1, mm2. split; [done|]. split; [done|]. split; [intros x Hx; by rewrite R1|]. split; [done|]. split.
  - intros x Hx. rewrite R2, R1 by (done || by apply (same_mm_owned mm mm1 x S1)). unfold Z.pred, Z.succ. destruct (decide _); lia.
  - intros x. rewrite A2, A1'. split; [|tauto]. intros [?|(Hx & _ & Hone)]; [done|]. exfalso.
    rewrite Hup in Hone by done. destruct (Hpre x Hx). lia.
Qed.

(** [AllocateAndOpenContinuous] answers pages in a row, aligned as asked, that were all free before,
    gives each exactly one reference and touches no other page; it answers 0 only when no manager of
    the pool has a free block of the size it looks for, and then changes nothing. *)
Theorem memory_manager_allocate_continuous layout mm n al option pool dir ids index :
  mm_wf layout mm -> DecodeOption option = (pool, dir) -> pool_chain mm pool dir ids -> tracked mm pool ids ->
  0 < n -> 0 < al -> GetAlignedBlockIndex n al = Z.of_nat index ->
  exists a mm', AllocateAndOpenContinuous n al option mm = Done true (a, mm') /\
    ((a = 0 /\ mm_opened layout mm mm' (fun _ => False) /\ exhausted mm ids index) \/
     (0 < a /\ (2 ^ countr_zero 64 (al * 4096) | a) /\ mm_opened layout mm mm' (fun x => a <= x < a + n * 4096))).
Proof. apply AllocateAndOpenContinuous_spec. Qed.

(** C3: [AllocateAndOpen] into an empty group either succeeds with disjoint blocks of exactly the number of
    pages asked for, each of them free before and now with one reference, or leaves the group empty,
    every count as it was and no page available that was not before; when no two managers of the
    pool are adjacent, a failure also leaves every page available that was.  It fails only when the
    pool has fewer free pages than asked for, or when the source of block records refuses.  All
    assertions pass. *)
Theorem memory_manager_allocate_group layout mm num option pool dir ids out :
  mm_wf layout mm -> DecodeOption option = (pool, dir) -> pool_chain mm pool dir ids -> tracked mm pool ids ->
  g_blocks out = [] -> 0 < num < 2 ^ 64 ->
  exists r out' mm', AllocateAndOpen layout num option out mm = Done true (r, out', mm') /\
    ((r = ResultSuccess /\ Group_GetNumPages out' = num /\ disjoint_blocks (g_blocks out') /\
      mm_opened layout mm mm' (in_blocks (g_blocks out'))) \/
     ((r = ResultOutOfMemory /\ shortage mm ids num \/ r = ResultOutOfResource /\ source_refuses (M := M)) /\
      g_blocks out' = [] /\ given_back layout ids mm mm')).
Proof.
  intros W Ed Hc Ht Eo Hnum.
  destruct (AllocateAndOpen_spec layout mm num option pool dir ids out W Ed Hc Ht Eo ltac:(lia)) as (r & out' & mm' & E & Hr).
  exists r, out', mm'. split; [done|]. destruct Hr as [(-> & Hf & Hd & Es & Hop)|Hr]; [left|by right].
  split; [done|]. split; [|done]. rewrite Group_GetNumPages_eq by (done || lia). done.
Qed.

(** C5: Closing a group that [AllocateAndOpen] has just filled gives back every page: the available
    memory and all counts are as before the allocation, and the group is empty. *)
Theorem memory_manager_group_round_trip layout mm num option pool dir ids out out1 mm1 :
  mm_wf layout mm -> DecodeOption option = (pool, dir) -> pool_chain mm pool dir ids -> tracked mm pool ids ->
  g_blocks out = [] -> 0 < num < 2 ^ 64 ->
  AllocateAndOpen layout num option out mm = Done true (ResultSuccess, out1, mm1) ->
  exists out2 mm2, CloseAndReset layout out1 mm1 = Done true (out2, mm2) /\ g_blocks out2 = [] /\ mm_wf layout mm2 /\
    (forall x, owned mm x -> mm_refs layout mm2 x = mm_refs layout mm x) /\ forall x, mm_avail mm2 x <-> mm_avail mm x.
Proof.
  intros W Ed Hc Ht Eo Hnum E1.
  destruct (AllocateAndOpen_spec layout mm num option pool dir ids out W Ed Hc Ht Eo ltac:(lia)) as (r & out' & mm' & E & Hr).
  rewrite E1 in E. injection E as <- <- <-.
  destruct Hr as [(_ & Hf & Hd & Es & W1 & S1 & In1 & D1 & A1)|([[? _]|[? _]] & _)]; [|done..].
  destruct (over_blocks_spec layout _ _ _ _ (g_blocks out1) Close_op mm1 W1 Hf Hd) as (mm2 & E2 & W2 & S2 & C2 & D2 & A2).
  { intros x Hx. destruct (In1 x Hx) as [Hav Hone]. split_and!; [|rewrite A1; tauto|lia].
    apply (same_mm_owned mm mm1 x S1), (avail_owned layout); done. }
  unfold CloseAndReset. rewrite E2. ostep. eexists _, mm2. split; [done|]. split; [done|]. split; [done|].
  assert (forall x, owned mm x -> mm_refs layout mm2 x = mm_refs layout mm x) as Href.
  { intros x Hx. pose proof (proj2 (same_mm_owned mm mm1 x S1) Hx). destruct (in_blocks_dec (g_blocks out1) x) as [Hin|Hout].
    - rewrite C2 by done. destruct (In1 x Hin) as [Hav ->]. by rewrite (free_no_refs layout mm x W Hav).
    - rewrite D2, D1 by done. done. }
  split; [done|]. intros x. rewrite A2, A1. split.
  - intros [?|(Hin & _)]; [tauto|]. by apply In1.
  - intros Hav. destruct (in_blocks_dec (g_blocks out1) x) as [Hin|?]; [|tauto]. right. split; [done|].
    split; [apply (same_mm_owned mm mm1 x S1), (avail_owned layout); done|]. by apply In1.
Qed.

(** [AllocateForProcess] in a pool with no optimised process fills exactly the blocks it allocated,
    completely, and opens none of them; a failure fills nothing and gives the pages back.  A
    request for no pages at all is refused as out of memory. *)
Theorem memory_manager_allocate_for_process layout mm num option pool dir ids out process_id fill :
  mm_wf layout mm -> DecodeOption option = (pool, dir) -> pool_chain mm pool dir ids ->
  arr_get (m_has_optimized_process mm) pool = Done true false -> 0 <= pool < Z.of_nat (length (m_optimized_process_ids mm)) ->
  g_blocks out = [] -> 0 <= num < 2 ^ 64 ->
  exists r out' mm' fills, AllocateForProcess layout num option process_id fill out mm = Done true (r, out', mm', fills) /\
    ((r = ResultSuccess /\ Group_GetNumPages out' = num /\ 0 < num /\ grabbed layout ids mm mm' (g_blocks out') /\
      fills = map (fun b => (bstart b, bstop b - bstart b, fill)) (g_blocks out')) \/
     ((r = ResultOutOfMemory /\ (num = 0 \/ shortage mm ids num) \/ r = ResultOutOfResource /\ source_refuses (M := M)) /\
      g_blocks out' = [] /\ fills = [] /\ given_back layout ids mm mm')).
Proof.
  intros W Ed Hc Eh Hid Eo Hnum. unfold AllocateForProcess.
  rewrite bind_assert_true by (unfold Group_GetNumPages; by rewrite Eo). rewrite Ed, Eh. ostep.
  destruct (arr_get_lt (m_optimized_process_ids mm) pool Hid) as (id & -> & _). ostep. simpl andb.
  destruct (Z.eq_dec num 0) as [->|Hne].
  { exists ResultOutOfMemory, out, mm, []. split; [reflexivity|]. right. split; [left; tauto|]. split; [done|].
    split; [done|]. split; [done|]. split; [by apply same_mm_refl|done]. }
  destruct (AllocatePageGroupImpl_spec layout mm num pool dir ids false false out) as (r & out1 & mm1 & E & Hr); try done; try lia.
  rewrite E. ostep. cbv iota. destruct Hr as [(-> & G & Es)|(Hr & Eb & O)].
  - exists ResultSuccess, out1, mm1. eexists. split; [done|]. left. pose proof (gr_blocks _ _ _ _ _ G) as Hf.
    split; [done|]. split; [rewrite Group_GetNumPages_eq by (done || lia); done|]. split; [lia|]. split; [done|].
    apply map_ext_in. intros b Hb. apply list_elem_of_In in Hb. rewrite list.Forall_forall in Hf. specialize (Hf b Hb).
    rewrite (proj1 (Info_address b Hf)). unfold Info_GetSize, Info_GetNumPages, PageSize. destruct Hf as (? & ? & ?).
    rewrite u64_small by lia. unfold bstart, bstop. f_equal. f_equal. lia.
  - assert (negb (r =? ResultSuccess) = true) as -> by (destruct Hr as [[-> _]|[-> _]]; reflexivity).
    exists r, out1, mm1, []. split; [done|]. right. split; [tauto|]. split; [done|]. split; done.
Qed.
End Properties.

(** ** A concrete memory: one manager, its first 3 MiB free, two pages in use *)

Definition demo_counts : list Z := <[Z.to_nat 768 := 2]> (<[Z.to_nat 769 := 1]> (replicate 1024 0)).
Definition demo_impl : Impl := mkImpl demo_heap demo_counts 0 Pool.Application None None [].
Definition demo_layout (_ : Z) : Z := 0.
Definition demo_mm : KMemoryManager :=
  mkMemory [Some 0%nat; None; None; None] [Some 0%nat; None; None; None] [demo_impl] 1 [0; 0; 0; 0]
    [false; false; false; false].

(** Block records from a counter. *)
Definition counter_source : BlockInfoSource nat := {|
  info_Allocate n := match n with O => (false, O) | Datatypes.S n' => (true, n') end;
  info_Free n := Datatypes.S n
|}.
#[local] Existing Instance counter_source.
#[local] Opaque demo_heap.

Lemma demo_base : base demo_impl = 0x80000000 /\ limit demo_impl = 0x80400000.
Proof. destruct demo_heap_wf as (_ & Ea & Ee & _). split; [exact Ea|exact Ee]. Qed.

Lemma demo_counts_at i : 0 <= i -> count_at demo_counts i = if decide (i = 768) then 2 else if decide (i = 769) then 1 else 0.
Proof.
  intros Hi. unfold demo_counts.
  rewrite count_at_insert by (rewrite ?length_insert, ?length_replicate; lia). destruct (decide (i = 768)); [done|].
  rewrite count_at_insert by (rewrite ?length_insert, ?length_replicate; lia). destruct (decide (i = 769)); [done|].
  unfold count_at. destruct (replicate _ _ !! _) eqn:Er; [|done]. by apply lookup_replicate in Er as [-> _].
Qed.

Lemma demo_impl_wf : impl_wf demo_impl.
Proof.
  destruct demo_heap_wf as (W & Ea & Ee & Hav), demo_base as [Eb El]. split.
  - exact W.
  - rewrite Eb. by exists 0x80000.
  - rewrite El. by exists 0x80400.
  - rewrite El. lia.
  - rewrite Eb, El. change (m_page_reference_counts demo_impl) with demo_counts. unfold demo_counts.
    rewrite !length_insert, length_replicate. lia.
  - apply Forall_insert; [apply Forall_insert; [apply Forall_replicate|]|]; unfold in_u; lia.
  - intros x Hx%Hav. unfold refcount. change (m_page_reference_counts demo_impl) with demo_counts.
    assert (0 <= page_no demo_impl x < 0 + 768) as Hp by (apply page_between; rewrite Eb; lia).
    rewrite demo_counts_at by lia. by rewrite !decide_False by lia.
Qed.

Lemma demo_manages : manages demo_mm 0 demo_impl.
Proof. split; [simpl; lia|reflexivity]. Qed.

Lemma demo_mm_wf : mm_wf demo_layout demo_mm.
Proof.
  split; [simpl; lia|..].
  - intros i p Hi Hp. assert (i = 0%nat) as -> by (simpl in Hi; lia). injection Hp as <-. exact demo_impl_wf.
  - intros i p x Hi _ _. simpl in Hi. unfold GetManager, demo_layout. simpl. lia.
Qed.

Lemma demo_pool : pool_chain demo_mm 0 0 [0%nat].
Proof.
  exists (Some 0%nat). split; [reflexivity|]. split; [|split; [apply NoDup_singleton|simpl; lia]].
  apply (chain_next _ _ 0%nat demo_impl); [exact demo_manages|constructor].
Qed.

Lemma demo_tracked : tracked demo_mm 0 [0%nat].
Proof. exists false. split; [reflexivity|]. intros H. discriminate H. Qed.

Lemma demo_avail x : mm_avail demo_mm x <-> 0x80000000 <= x < 0x80300000.
Proof.
  destruct demo_heap_wf as (_ & _ & _ & Hav). rewrite <- Hav. split.
  - intros (i & p & [Hi Hp] & Hx). assert (i = 0%nat) as -> by (simpl in Hi; lia). injection Hp as <-. exact Hx.
  - intros Hx. exists 0%nat, demo_impl. split; [exact demo_manages|exact Hx].
Qed.

Lemma demo_in_use x : 0x80300000 <= x < 0x80302000 ->
  owned demo_mm x /\ mm_refs demo_layout demo_mm x = if decide (x < 0x80301000) then 2 else 1.
Proof.
  intros Hx. destruct demo_base as [Eb El]. split.
  { exists 0%nat, demo_impl. split; [exact demo_manages|]. unfold in_impl. rewrite Eb, El. lia. }
  change (mm_refs demo_layout demo_mm x) with (count_at demo_counts (page_no demo_impl x)).
  destruct (decide (x < 0x80301000)).
  - assert (768 <= page_no demo_impl x < 768 + 1) by (apply page_between; rewrite Eb; lia).
    rewrite demo_counts_at by lia. by rewrite decide_True by lia.
  - assert (769 <= page_no demo_impl x < 769 + 1) by (apply page_between; rewrite Eb; lia).
    rewrite demo_counts_at by lia. by rewrite decide_False, decide_True by lia.
Qed.

Lemma manager_initialize_witness :
  exists b p', Impl_Initialize 0x100000000 0x10000 0x80000000 0x400000 0x90000000 0x90100000 Pool.Application
      (mkImpl demo_heap_raw [] 0 0 None None []) = Done b (0x2000, p') /\ impl_wf p' /\ limit p' = 0x80400000.
Proof.
  destruct (manager_initialize (mkImpl demo_heap_raw [] 0 0 None None []) 0x100000000 0x10000 0x80000000 0x400000 0x90000000 0x90100000 Pool.Application)
    as (used & p' & E & _ & W & _ & El & _);
    [lia|lia|lia|lia|by exists 0x80000|by exists 0x400|reflexivity|apply Forall_replicate, demo_rng_wf|apply demo_rng_wf|reflexivity|lia|by exists 0x90000|by vm_compute|].
  eexists _, p'. split; [exact E|]. split; [exact W|exact El].
Defined.

Lemma memory_manager_close_witness :
  exists mm', Close demo_layout 0x80300000 2 demo_mm = Done true mm' /\ mm_avail mm' 0x80301000 /\
    ~ mm_avail mm' 0x80300000 /\ mm_refs demo_layout mm' 0x80300000 = 1.
Proof.
  destruct (memory_manager_close demo_layout demo_mm 0x80300000 2 demo_mm_wf) as (mm' & E & _ & _ & R & A).
  { by exists 0x80300. } { lia. }
  { intros x Hx. destruct (demo_in_use x ltac:(lia)) as [Ho ->]. split; [exact Ho|]. destruct (decide _); lia. }
  exists mm'. split; [exact E|]. rewrite !A, !demo_avail.
  destruct (demo_in_use 0x80301000 ltac:(lia)) as [_ E1], (demo_in_use 0x80300000 ltac:(lia)) as [Ho E2].
  rewrite R by exact Ho. rewrite E1, E2. rewrite decide_False, !decide_True by lia. split_and!; lia.
Defined.

Lemma memory_manager_open_close_witness :
  exists mm1 mm2, Open demo_layout 0x80300000 2 demo_mm = Done true mm1 /\ mm_refs demo_layout mm1 0x80300000 = 3 /\
    Close demo_layout 0x80300000 2 mm1 = Done true mm2 /\ mm_refs demo_layout mm2 0x80300000 = 2.
Proof.
  destruct (memory_manager_open_close demo_layout demo_mm 0x80300000 2 demo_mm_wf) as (mm1 & mm2 & E1 & E2 & R1 & _ & R2 & _).
  { by exists 0x80300. } { lia. }
  { intros x Hx. destruct (demo_in_use x ltac:(lia)) as [Ho ->]. split; [exact Ho|]. destruct (decide _); lia. }
  exists mm1, mm2. destruct (demo_in_use 0x80300000 ltac:(lia)) as [Ho E]. rewrite R1, R2, E by exact Ho.
  split; [exact E1|]. split; [by rewrite !decide_True by lia|]. split; [exact E2|]. by rewrite decide_True by lia.
Defined.

Lemma memory_manager_allocate_continuous_witness :
  exists a mm', AllocateAndOpenContinuous 3 2 (EncodeOption Pool.Application Direction.FromFront) demo_mm = Done true (a, mm') /\
    (a = 0 \/ mm_refs demo_layout mm' a = 1).
Proof.
  destruct (memory_manager_allocate_continuous demo_layout demo_mm 3 2 0 0 0 [0%nat] 1 demo_mm_wf eq_refl demo_pool demo_tracked)
    as (a & mm' & E & [(-> & _)|(_ & _ & (_ & _ & In1 & _))]); [lia|lia|reflexivity|..]; eexists _, mm'; (split; [exact E|]); [by left|].
  right. apply In1. lia.
Defined.

Lemma memory_manager_allocate_group_witness :
  exists r out' mm', AllocateAndOpen demo_layout 20 0 (mkGroup [] 5%nat) demo_mm = Done true (r, out', mm') /\
    (r = ResultSuccess -> Group_GetNumPages out' = 20).
Proof.
  destruct (memory_manager_allocate_group demo_layout demo_mm 20 0 0 0 [0%nat] (mkGroup [] 5%nat) demo_mm_wf eq_refl demo_pool
    demo_tracked eq_refl ltac:(lia)) as (r & out' & mm' & E & Hr).
  exists r, out', mm'. split; [exact E|]. intros ->. destruct Hr as [(_ & Hn & _)|([[Hr _]|[Hr _]] & _)]; [exact Hn|discriminate Hr..].
Defined.

Lemma memory_manager_group_round_trip_witness :
  exists out1 mm1 out2 mm2, AllocateAndOpen demo_layout 20 0 (mkGroup [] 5%nat) demo_mm = Done true (ResultSuccess, out1, mm1) /\
    CloseAndReset demo_layout out1 mm1 = Done true (out2, mm2) /\ mm_avail mm2 0x80200000.
Proof.
  assert (exists out1 mm1, AllocateAndOpen demo_layout 20 0 (mkGroup [] 5%nat) demo_mm = Done true (ResultSuccess, out1, mm1)) as (out1 & mm1 & E)
    by (do 2 eexists; vm_compute; reflexivity).
  destruct (memory_manager_group_round_trip demo_layout demo_mm 20 0 0 0 [0%nat] (mkGroup [] 5%nat) out1 mm1 demo_mm_wf eq_refl demo_pool
    demo_tracked eq_refl ltac:(lia) E) as (out2 & mm2 & E2 & _ & _ & _ & A).
  exists out1, mm1, out2, mm2. split; [exact E|]. split; [exact E2|]. apply A, demo_avail. lia.
Defined.

Lemma memory_manager_allocate_for_process_witness :
  exists r out' mm' fills, AllocateForProcess demo_layout 20 0 7 0 (mkGroup [] 5%nat) demo_mm = Done true (r, out', mm', fills) /\
    length fills = length (g_blocks out').
Proof.
  destruct (memory_manager_allocate_for_process demo_layout demo_mm 20 0 0 0 [0%nat] (mkGroup [] 5%nat) 7 0 demo_mm_wf eq_refl demo_pool
    eq_refl ltac:(simpl; lia) eq_refl ltac:(lia)) as (r & out' & mm' & fills & E & Hr).
  exists r, out', mm', fills. split; [exact E|]. destruct Hr as [(_ & _ & _ & _ & ->)|(_ & -> & -> & _)]; [apply length_map|reflexivity].
Defined.

(** ** Adjacent managers

    When a group's block runs across the end of a manager, the clean-up after a failed allocation
    frees only the part in the first one: two adjacent managers with one free page each lose a page
    when three are asked for.  The layout of the board makes two adjacent managers of the application
    pool when the middle of the memory is inside it. *)

Definition adjacent_impl (base free : Z) (next prev : option nat) : Impl :=
  mkImpl
    (run demo_heap_raw
       (h ← Initialize demo_heap_raw base 0x400000 0x90000000 0x2000 MS 0x10000; Free h free 1))
    (replicate 1024 0) 0 Pool.Application next prev [].
Definition adjacent_layout (x : Z) : Z := if x <? 0x80400000 then 0 else 1.
Definition adjacent_mm : KMemoryManager :=
  mkMemory [Some 0%nat; None; None; None] [Some 1%nat; None; None; None]
    [adjacent_impl 0x80000000 0x803FF000 (Some 1%nat) None; adjacent_impl 0x80400000 0x80400000 None (Some 0%nat)] 2
    [0; 0; 0; 0] [false; false; false; false].

(** A failed allocation that leaks. *)
Lemma group_failure_leaks :
  GetFreeSize adjacent_mm = 0x2000 /\
  exists out' mm', AllocateAndOpen adjacent_layout 3 0 (mkGroup [] 5%nat) adjacent_mm = Done true (ResultOutOfMemory, out', mm') /\
    g_blocks out' = [] /\ GetFreeSize mm' = 0x1000.
Proof.
  split; [vm_compute; reflexivity|].
  assert (match AllocateAndOpen adjacent_layout 3 0 (mkGroup [] 5%nat) adjacent_mm with
          | Done true (r, out', mm') => r = ResultOutOfMemory /\ g_blocks out' = [] /\ GetFreeSize mm' = 0x1000
          | _ => False end) as H by (vm_compute; repeat split).
  revert H. generalize (AllocateAndOpen adjacent_layout 3 0 (mkGroup [] 5%nat) adjacent_mm) as o.
  intros [|[] [[r out'] mm']] H; [destruct H| |destruct H]. destruct H as (-> & Hb & Hf). exists out', mm'. done.
Qed.
