(* ===== verification/KMemoryRegionType.v ===== *)
(** * KMemoryRegionType: core/hle/kernel/k_memory_region_type.h and the device types of the board

    The types of memory regions.  A type is a 32-bit word; a type derived from another one sets
    more bits, so that one mask test decides whether a region is of a type or of one derived from it.
    The low bits are handed out by the derivation functions, the bits from 25 on are attributes.

    The theorem says that the mask test decides derivation between the branches of a type: whatever
    is derived from one of them passes the test for this branch and for no other. *)

From S2P Require Import Prelude.
#[local] Open Scope Z_scope.

Definition KMemoryRegionAttr_CarveoutProtected : Z := 0x02000000.
Definition KMemoryRegionAttr_Uncached : Z := 0x04000000.
Definition KMemoryRegionAttr_DidKernelMap : Z := 0x08000000.
Definition KMemoryRegionAttr_ShouldKernelMap : Z := 0x10000000.
Definition KMemoryRegionAttr_UserReadOnly : Z := 0x20000000.
Definition KMemoryRegionAttr_NoUserMap : Z := 0x40000000.
Definition KMemoryRegionAttr_LinearMapped : Z := 0x80000000.

(** ** Derivation *)

Definition BitsForDeriveSparse (n : Z) : Z := n + 1.

(** [low] and [high] after [i] rounds of the loops of [BitsForDeriveDense] and [Derive]. *)
Fixpoint dense_pair (i : nat) : Z * Z :=
  match i with
  | O => (0, 1)
  | Datatypes.S i' =>
      let '(low, high) := dense_pair i' in
      let low := low + 1 in
      if low =? high then (0, high + 1) else (low, high)
  end.

Definition BitsForDeriveDense (n : Z) : Z := snd (dense_pair (Z.to_nat (n - 1))) + 1.

Record KMemoryRegionTypeValue := mkTypeValue {
  m_value : Z;
  m_next_bit : Z;
  m_finalized : bool;
  m_sparse_only : bool;
  m_dense_only : bool
}.
Definition KMemoryRegionTypeValue_new : KMemoryRegionTypeValue := mkTypeValue 0 0 false false false.

(** The value of a type where a number is expected. *)
Definition GetValue (t : KMemoryRegionTypeValue) : Z := m_value t.
Coercion GetValue : KMemoryRegionTypeValue >-> Z.

Definition with_value (v next : Z) (t : KMemoryRegionTypeValue) : KMemoryRegionTypeValue :=
  mkTypeValue v next (m_finalized t) (m_sparse_only t) (m_dense_only t).

Definition Finalize (t : KMemoryRegionTypeValue) : KMemoryRegionTypeValue :=
  mkTypeValue (m_value t) (m_next_bit t) true (m_sparse_only t) (m_dense_only t).
Definition SetSparseOnly (t : KMemoryRegionTypeValue) : KMemoryRegionTypeValue :=
  mkTypeValue (m_value t) (m_next_bit t) (m_finalized t) true (m_dense_only t).
Definition SetDenseOnly (t : KMemoryRegionTypeValue) : KMemoryRegionTypeValue :=
  mkTypeValue (m_value t) (m_next_bit t) (m_finalized t) (m_sparse_only t) true.

Definition SetAttribute (attr : Z) (t : KMemoryRegionTypeValue) : KMemoryRegionTypeValue :=
  with_value (m_value t .| attr) (m_next_bit t) t.

Definition DeriveInitial (i next : Z) (t : KMemoryRegionTypeValue) : KMemoryRegionTypeValue :=
  with_value (u32 (1 .<< i)) next t.

Definition DeriveAttribute (attr : Z) (t : KMemoryRegionTypeValue) : KMemoryRegionTypeValue :=
  with_value (m_value t .| attr) (m_next_bit t) t.

Definition DeriveTransition (ofs adv : Z) (t : KMemoryRegionTypeValue) : KMemoryRegionTypeValue :=
  with_value (m_value t .| u32 (1 .<< (m_next_bit t + ofs))) (m_next_bit t + adv) t.

Definition DeriveSparse (ofs n i : Z) (t : KMemoryRegionTypeValue) : KMemoryRegionTypeValue :=
  with_value (m_value t .| u32 (1 .<< (m_next_bit t + ofs)) .| u32 (1 .<< (m_next_bit t + ofs + 1 + i)))
    (m_next_bit t + (ofs + n + 1)) t.

Definition Derive (n i : Z) (t : KMemoryRegionTypeValue) : KMemoryRegionTypeValue :=
  let '(low, high) := dense_pair (Z.to_nat i) in
  with_value (m_value t .| u32 (1 .<< (m_next_bit t + low)) .| u32 (1 .<< (m_next_bit t + high)))
    (m_next_bit t + BitsForDeriveDense n) t.

Definition Advance (n : Z) (t : KMemoryRegionTypeValue) : KMemoryRegionTypeValue :=
  with_value (m_value t) (m_next_bit t + n) t.

Definition IsAncestorOf (t : KMemoryRegionTypeValue) (v : Z) : bool := (m_value t .| v) =? v.

(** ** The types *)

Definition KMemoryRegionType_None : KMemoryRegionTypeValue := KMemoryRegionTypeValue_new.
Definition KMemoryRegionType_Kernel : KMemoryRegionTypeValue := DeriveInitial 0 2 KMemoryRegionType_None.
Definition KMemoryRegionType_Dram : KMemoryRegionTypeValue := DeriveInitial 1 2 KMemoryRegionType_None.
Definition KMemoryRegionType_DramKernelBase : KMemoryRegionTypeValue :=
  SetAttribute KMemoryRegionAttr_CarveoutProtected (SetAttribute KMemoryRegionAttr_NoUserMap (DeriveSparse 0 3 0 KMemoryRegionType_Dram)).
Definition KMemoryRegionType_DramReservedBase : KMemoryRegionTypeValue := DeriveSparse 0 3 1 KMemoryRegionType_Dram.
Definition KMemoryRegionType_DramHeapBase : KMemoryRegionTypeValue :=
  SetAttribute KMemoryRegionAttr_LinearMapped (DeriveSparse 0 3 2 KMemoryRegionType_Dram).
Definition KMemoryRegionType_DramKernelCode : KMemoryRegionTypeValue :=
  DeriveSparse 0 4 0 KMemoryRegionType_DramKernelBase.
Definition KMemoryRegionType_DramKernelSlab : KMemoryRegionTypeValue :=
  DeriveSparse 0 4 1 KMemoryRegionType_DramKernelBase.
Definition KMemoryRegionType_DramKernelPtHeap : KMemoryRegionTypeValue :=
  SetAttribute KMemoryRegionAttr_LinearMapped (DeriveSparse 0 4 2 KMemoryRegionType_DramKernelBase).
Definition KMemoryRegionType_DramKernelInitPt : KMemoryRegionTypeValue :=
  SetAttribute KMemoryRegionAttr_LinearMapped (DeriveSparse 0 4 3 KMemoryRegionType_DramKernelBase).
Definition KMemoryRegionType_DramKernelSecureAppletMemory : KMemoryRegionTypeValue :=
  SetAttribute KMemoryRegionAttr_LinearMapped (DeriveSparse 1 3 0 KMemoryRegionType_DramKernelBase).
Definition KMemoryRegionType_DramKernelSecureUnknown : KMemoryRegionTypeValue :=
  SetAttribute KMemoryRegionAttr_LinearMapped (DeriveSparse 1 3 1 KMemoryRegionType_DramKernelBase).
Definition KMemoryRegionType_DramReservedEarly : KMemoryRegionTypeValue :=
  DeriveAttribute KMemoryRegionAttr_NoUserMap KMemoryRegionType_DramReservedBase.
Definition KMemoryRegionType_KernelTraceBuffer : KMemoryRegionTypeValue :=
  SetAttribute KMemoryRegionAttr_UserReadOnly (SetAttribute KMemoryRegionAttr_LinearMapped (DeriveSparse 0 3 0 KMemoryRegionType_DramReservedBase)).
Definition KMemoryRegionType_OnMemoryBootImage : KMemoryRegionTypeValue :=
  DeriveSparse 0 3 1 KMemoryRegionType_DramReservedBase.
Definition KMemoryRegionType_DTB : KMemoryRegionTypeValue := DeriveSparse 0 3 2 KMemoryRegionType_DramReservedBase.
Definition KMemoryRegionType_DramPoolPartition : KMemoryRegionTypeValue :=
  DeriveAttribute KMemoryRegionAttr_NoUserMap KMemoryRegionType_DramHeapBase.
Definition KMemoryRegionType_DramPoolManagement : KMemoryRegionTypeValue :=
  SetAttribute KMemoryRegionAttr_CarveoutProtected (Derive 4 0 KMemoryRegionType_DramPoolPartition).
Definition KMemoryRegionType_DramUserPool : KMemoryRegionTypeValue := Derive 4 3 KMemoryRegionType_DramPoolPartition.
Definition KMemoryRegionType_DramApplicationPool : KMemoryRegionTypeValue :=
  Derive 4 0 KMemoryRegionType_DramUserPool.
Definition KMemoryRegionType_DramAppletPool : KMemoryRegionTypeValue := Derive 4 1 KMemoryRegionType_DramUserPool.
Definition KMemoryRegionType_DramSystemNonSecurePool : KMemoryRegionTypeValue :=
  Derive 4 2 KMemoryRegionType_DramUserPool.
Definition KMemoryRegionType_DramSystemPool : KMemoryRegionTypeValue :=
  SetAttribute KMemoryRegionAttr_CarveoutProtected (Derive 4 3 KMemoryRegionType_DramUserPool).
Definition KMemoryRegionType_VirtualDramHeapBase : KMemoryRegionTypeValue :=
  DeriveSparse 1 4 0 KMemoryRegionType_Dram.
Definition KMemoryRegionType_VirtualDramKernelPtHeap : KMemoryRegionTypeValue :=
  DeriveSparse 1 4 1 KMemoryRegionType_Dram.
Definition KMemoryRegionType_VirtualDramKernelTraceBuffer : KMemoryRegionTypeValue :=
  DeriveSparse 1 4 2 KMemoryRegionType_Dram.
Definition KMemoryRegionType_VirtualDramUnknownDebug : KMemoryRegionTypeValue :=
  Derive 4 0 (Advance 2 KMemoryRegionType_Dram).
Definition KMemoryRegionType_VirtualDramKernelSecureAppletMemory : KMemoryRegionTypeValue :=
  Derive 4 1 (Advance 2 KMemoryRegionType_Dram).
Definition KMemoryRegionType_VirtualDramKernelSecureUnknown : KMemoryRegionTypeValue :=
  Derive 4 3 (Advance 2 KMemoryRegionType_Dram).
Definition KMemoryRegionType_VirtualDramKernelInitPt : KMemoryRegionTypeValue :=
  Derive 4 0 KMemoryRegionType_VirtualDramHeapBase.
Definition KMemoryRegionType_VirtualDramPoolManagement : KMemoryRegionTypeValue :=
  Derive 4 1 KMemoryRegionType_VirtualDramHeapBase.
Definition KMemoryRegionType_VirtualDramUserPool : KMemoryRegionTypeValue :=
  Derive 4 2 KMemoryRegionType_VirtualDramHeapBase.
Definition KMemoryRegionType_VirtualDramApplicationPool : KMemoryRegionTypeValue :=
  Derive 4 0 KMemoryRegionType_VirtualDramUserPool.
Definition KMemoryRegionType_VirtualDramAppletPool : KMemoryRegionTypeValue :=
  Derive 4 1 KMemoryRegionType_VirtualDramUserPool.
Definition KMemoryRegionType_VirtualDramSystemNonSecurePool : KMemoryRegionTypeValue :=
  Derive 4 2 KMemoryRegionType_VirtualDramUserPool.
Definition KMemoryRegionType_VirtualDramSystemPool : KMemoryRegionTypeValue :=
  Derive 4 3 KMemoryRegionType_VirtualDramUserPool.
Definition KMemoryRegionType_ArchDeviceBase : KMemoryRegionTypeValue :=
  SetSparseOnly (DeriveTransition 0 1 KMemoryRegionType_Kernel).
Definition KMemoryRegionType_BoardDeviceBase : KMemoryRegionTypeValue :=
  SetDenseOnly (DeriveTransition 0 2 KMemoryRegionType_Kernel).
Definition NumArchitectureDeviceRegions : Z := 3.
Definition KMemoryRegionType_Uart : KMemoryRegionTypeValue :=
  DeriveSparse 0 NumArchitectureDeviceRegions 0 KMemoryRegionType_ArchDeviceBase.
Definition KMemoryRegionType_InterruptCpuInterface : KMemoryRegionTypeValue :=
  SetAttribute KMemoryRegionAttr_NoUserMap (DeriveSparse 0 NumArchitectureDeviceRegions 1 KMemoryRegionType_ArchDeviceBase).
Definition KMemoryRegionType_InterruptDistributor : KMemoryRegionTypeValue :=
  SetAttribute KMemoryRegionAttr_NoUserMap (DeriveSparse 0 NumArchitectureDeviceRegions 2 KMemoryRegionType_ArchDeviceBase).
Definition NumBoardDeviceRegions : Z := 6.
Definition KMemoryRegionType_MemoryController : KMemoryRegionTypeValue :=
  SetAttribute KMemoryRegionAttr_NoUserMap (Derive NumBoardDeviceRegions 1 KMemoryRegionType_BoardDeviceBase).
Definition KMemoryRegionType_MemoryController1 : KMemoryRegionTypeValue :=
  SetAttribute KMemoryRegionAttr_NoUserMap (Derive NumBoardDeviceRegions 2 KMemoryRegionType_BoardDeviceBase).
Definition KMemoryRegionType_MemoryController0 : KMemoryRegionTypeValue :=
  SetAttribute KMemoryRegionAttr_NoUserMap (Derive NumBoardDeviceRegions 3 KMemoryRegionType_BoardDeviceBase).
Definition KMemoryRegionType_PowerManagementController : KMemoryRegionTypeValue :=
  DeriveTransition 0 1 (Derive NumBoardDeviceRegions 4 KMemoryRegionType_BoardDeviceBase).
Definition KMemoryRegionType_LegacyLpsDevices : KMemoryRegionTypeValue :=
  Derive NumBoardDeviceRegions 5 KMemoryRegionType_BoardDeviceBase.
Definition NumLegacyLpsDevices : Z := 7.
Definition KMemoryRegionType_LegacyLpsExceptionVectors : KMemoryRegionTypeValue :=
  Derive NumLegacyLpsDevices 0 KMemoryRegionType_LegacyLpsDevices.
Definition KMemoryRegionType_LegacyLpsIram : KMemoryRegionTypeValue :=
  Derive NumLegacyLpsDevices 1 KMemoryRegionType_LegacyLpsDevices.
Definition KMemoryRegionType_LegacyLpsFlowController : KMemoryRegionTypeValue :=
  Derive NumLegacyLpsDevices 2 KMemoryRegionType_LegacyLpsDevices.
Definition KMemoryRegionType_LegacyLpsPrimaryICtlr : KMemoryRegionTypeValue :=
  Derive NumLegacyLpsDevices 3 KMemoryRegionType_LegacyLpsDevices.
Definition KMemoryRegionType_LegacyLpsSemaphore : KMemoryRegionTypeValue :=
  Derive NumLegacyLpsDevices 4 KMemoryRegionType_LegacyLpsDevices.
Definition KMemoryRegionType_LegacyLpsAtomics : KMemoryRegionTypeValue :=
  Derive NumLegacyLpsDevices 5 KMemoryRegionType_LegacyLpsDevices.
Definition KMemoryRegionType_LegacyLpsClkRst : KMemoryRegionTypeValue :=
  Derive NumLegacyLpsDevices 6 KMemoryRegionType_LegacyLpsDevices.
Definition KMemoryRegionType_KernelCode : KMemoryRegionTypeValue := DeriveSparse 1 4 0 KMemoryRegionType_Kernel.
Definition KMemoryRegionType_KernelStack : KMemoryRegionTypeValue := DeriveSparse 1 4 1 KMemoryRegionType_Kernel.
Definition KMemoryRegionType_KernelMisc : KMemoryRegionTypeValue := DeriveSparse 1 4 2 KMemoryRegionType_Kernel.
Definition KMemoryRegionType_KernelSlab : KMemoryRegionTypeValue := DeriveSparse 1 4 3 KMemoryRegionType_Kernel.
Definition KMemoryRegionType_KernelMiscDerivedBase : KMemoryRegionTypeValue :=
  DeriveTransition 0 1 KMemoryRegionType_KernelMisc.
Definition KMemoryRegionType_KernelMiscMainStack : KMemoryRegionTypeValue :=
  Derive 7 1 KMemoryRegionType_KernelMiscDerivedBase.
Definition KMemoryRegionType_KernelMiscMappedDevice : KMemoryRegionTypeValue :=
  Derive 7 2 KMemoryRegionType_KernelMiscDerivedBase.
Definition KMemoryRegionType_KernelMiscExceptionStack : KMemoryRegionTypeValue :=
  Derive 7 3 KMemoryRegionType_KernelMiscDerivedBase.
Definition KMemoryRegionType_KernelMiscUnknownDebug : KMemoryRegionTypeValue :=
  Derive 7 4 KMemoryRegionType_KernelMiscDerivedBase.
Definition KMemoryRegionType_KernelMiscIdleStack : KMemoryRegionTypeValue :=
  Derive 7 6 KMemoryRegionType_KernelMiscDerivedBase.
Definition KMemoryRegionType_KernelTemp : KMemoryRegionTypeValue := Derive 2 0 (Advance 2 KMemoryRegionType_Kernel).

Definition GetTypeForVirtualLinearMapping (type_id : Z) : Z :=
  if IsAncestorOf KMemoryRegionType_DramKernelPtHeap type_id then KMemoryRegionType_VirtualDramKernelPtHeap
  else if IsAncestorOf KMemoryRegionType_DramKernelSecureAppletMemory type_id then
    KMemoryRegionType_VirtualDramKernelSecureAppletMemory
  else if IsAncestorOf KMemoryRegionType_DramKernelSecureUnknown type_id then
    KMemoryRegionType_VirtualDramKernelSecureUnknown
  else if IsAncestorOf KMemoryRegionType_KernelTraceBuffer type_id then
    KMemoryRegionType_VirtualDramKernelTraceBuffer
  else if (type_id .| KMemoryRegionAttr_ShouldKernelMap) =? type_id then KMemoryRegionType_VirtualDramUnknownDebug
  else KMemoryRegionType_Dram.

(** The static assertions of the header. *)
Definition static_asserts : list (KMemoryRegionTypeValue * Z) :=
  [(KMemoryRegionType_Kernel, 0x1);
   (KMemoryRegionType_Dram, 0x2);
   (KMemoryRegionType_DramKernelBase, 0xE .| KMemoryRegionAttr_CarveoutProtected .| KMemoryRegionAttr_NoUserMap);
   (KMemoryRegionType_DramReservedBase, 0x16);
   (KMemoryRegionType_DramHeapBase, 0x26 .| KMemoryRegionAttr_LinearMapped);
   (KMemoryRegionType_DramKernelCode, 0xCE .| KMemoryRegionAttr_CarveoutProtected .| KMemoryRegionAttr_NoUserMap);
   (KMemoryRegionType_DramKernelSlab, 0x14E .| KMemoryRegionAttr_CarveoutProtected .| KMemoryRegionAttr_NoUserMap);
   (KMemoryRegionType_DramKernelPtHeap, 0x24E .| KMemoryRegionAttr_CarveoutProtected .| KMemoryRegionAttr_NoUserMap .| KMemoryRegionAttr_LinearMapped);
   (KMemoryRegionType_DramKernelInitPt, 0x44E .| KMemoryRegionAttr_CarveoutProtected .| KMemoryRegionAttr_NoUserMap .| KMemoryRegionAttr_LinearMapped);
   (KMemoryRegionType_DramKernelSecureAppletMemory, 0x18E .| KMemoryRegionAttr_CarveoutProtected .| KMemoryRegionAttr_NoUserMap .| KMemoryRegionAttr_LinearMapped);
   (KMemoryRegionType_DramKernelSecureUnknown, 0x28E .| KMemoryRegionAttr_CarveoutProtected .| KMemoryRegionAttr_NoUserMap .| KMemoryRegionAttr_LinearMapped);
   (KMemoryRegionType_DramReservedEarly, 0x16 .| KMemoryRegionAttr_NoUserMap);
   (KMemoryRegionType_KernelTraceBuffer, 0xD6 .| KMemoryRegionAttr_LinearMapped .| KMemoryRegionAttr_UserReadOnly);
   (KMemoryRegionType_OnMemoryBootImage, 0x156);
   (KMemoryRegionType_DTB, 0x256);
   (KMemoryRegionType_DramPoolPartition, 0x26 .| KMemoryRegionAttr_LinearMapped .| KMemoryRegionAttr_NoUserMap);
   (KMemoryRegionType_DramPoolManagement, 0xE6 .| KMemoryRegionAttr_LinearMapped .| KMemoryRegionAttr_NoUserMap .| KMemoryRegionAttr_CarveoutProtected);
   (KMemoryRegionType_DramUserPool, 0x266 .| KMemoryRegionAttr_LinearMapped .| KMemoryRegionAttr_NoUserMap);
   (KMemoryRegionType_DramApplicationPool, 0xE66 .| KMemoryRegionAttr_LinearMapped .| KMemoryRegionAttr_NoUserMap);
   (KMemoryRegionType_DramAppletPool, 0x1666 .| KMemoryRegionAttr_LinearMapped .| KMemoryRegionAttr_NoUserMap);
   (KMemoryRegionType_DramSystemNonSecurePool, 0x1A66 .| KMemoryRegionAttr_LinearMapped .| KMemoryRegionAttr_NoUserMap);
   (KMemoryRegionType_DramSystemPool, 0x2666 .| KMemoryRegionAttr_LinearMapped .| KMemoryRegionAttr_NoUserMap .| KMemoryRegionAttr_CarveoutProtected);
   (KMemoryRegionType_VirtualDramHeapBase, 0x1A);
   (KMemoryRegionType_VirtualDramKernelPtHeap, 0x2A);
   (KMemoryRegionType_VirtualDramKernelTraceBuffer, 0x4A);
   (KMemoryRegionType_VirtualDramUnknownDebug, 0x32);
   (KMemoryRegionType_VirtualDramKernelSecureAppletMemory, 0x52);
   (KMemoryRegionType_VirtualDramKernelSecureUnknown, 0x92);
   (KMemoryRegionType_VirtualDramKernelInitPt, 0x31A);
   (KMemoryRegionType_VirtualDramPoolManagement, 0x51A);
   (KMemoryRegionType_VirtualDramUserPool, 0x61A);
   (KMemoryRegionType_VirtualDramApplicationPool, 0x361A);
   (KMemoryRegionType_VirtualDramAppletPool, 0x561A);
   (KMemoryRegionType_VirtualDramSystemNonSecurePool, 0x661A);
   (KMemoryRegionType_VirtualDramSystemPool, 0x961A);
   (KMemoryRegionType_ArchDeviceBase, 0x5);
   (KMemoryRegionType_BoardDeviceBase, 0x5);
   (KMemoryRegionType_Uart, 0x1D);
   (KMemoryRegionType_InterruptCpuInterface, 0x2D .| KMemoryRegionAttr_NoUserMap);
   (KMemoryRegionType_InterruptDistributor, 0x4D .| KMemoryRegionAttr_NoUserMap);
   (KMemoryRegionType_MemoryController, 0x55 .| KMemoryRegionAttr_NoUserMap);
   (KMemoryRegionType_MemoryController1, 0x65 .| KMemoryRegionAttr_NoUserMap);
   (KMemoryRegionType_MemoryController0, 0x95 .| KMemoryRegionAttr_NoUserMap);
   (KMemoryRegionType_PowerManagementController, 0x1A5);
   (KMemoryRegionType_LegacyLpsDevices, 0xC5);
   (KMemoryRegionType_LegacyLpsExceptionVectors, 0x3C5);
   (KMemoryRegionType_LegacyLpsIram, 0x5C5);
   (KMemoryRegionType_LegacyLpsFlowController, 0x6C5);
   (KMemoryRegionType_LegacyLpsPrimaryICtlr, 0x9C5);
   (KMemoryRegionType_LegacyLpsSemaphore, 0xAC5);
   (KMemoryRegionType_LegacyLpsAtomics, 0xCC5);
   (KMemoryRegionType_LegacyLpsClkRst, 0x11C5);
   (KMemoryRegionType_KernelCode, 0x19);
   (KMemoryRegionType_KernelStack, 0x29);
   (KMemoryRegionType_KernelMisc, 0x49);
   (KMemoryRegionType_KernelSlab, 0x89);
   (KMemoryRegionType_KernelMiscDerivedBase, 0x149);
   (KMemoryRegionType_KernelMiscMainStack, 0xB49);
   (KMemoryRegionType_KernelMiscMappedDevice, 0xD49);
   (KMemoryRegionType_KernelMiscExceptionStack, 0x1349);
   (KMemoryRegionType_KernelMiscUnknownDebug, 0x1549);
   (KMemoryRegionType_KernelMiscIdleStack, 0x2349);
   (KMemoryRegionType_KernelTemp, 0x31)].
Lemma static_asserts_hold : Forall (fun a => GetValue (fst a) = snd a) static_asserts.
Proof. repeat (apply Forall_cons_2; [reflexivity|]). apply Forall_nil_2. Qed.

(** ** Correctness of the encoding *)

(** Attributes only have bits from 25 on. *)
Definition is_attribute (a : Z) : Prop := 0 <= a /\ forall i, 0 <= i < 25 -> Z.testbit a i = false.

(** The bits a type may still hand out are clear. *)
Definition type_wf (t : KMemoryRegionTypeValue) : Prop :=
  0 <= m_next_bit t <= 25 /\ 0 <= m_value t /\ forall i, m_next_bit t <= i < 25 -> Z.testbit (m_value t) i = false.

(** Derivation in any number of steps. *)
Inductive derives (t : KMemoryRegionTypeValue) : KMemoryRegionTypeValue -> Prop :=
| derives_refl : derives t t
| derives_transition u ofs adv : derives t u -> 0 <= ofs < adv -> m_next_bit u + adv <= 25 ->
    derives t (DeriveTransition ofs adv u)
| derives_sparse u ofs n i : derives t u -> 0 <= ofs -> 0 <= i < n -> m_next_bit u + (ofs + n + 1) <= 25 ->
    derives t (DeriveSparse ofs n i u)
| derives_dense u n i : derives t u -> 0 <= i < n -> m_next_bit u + BitsForDeriveDense n <= 25 -> derives t (Derive n i u)
| derives_advance u n : derives t u -> 0 <= n -> m_next_bit u + n <= 25 -> derives t (Advance n u)
| derives_attribute u a : derives t u -> is_attribute a -> derives t (DeriveAttribute a u)
| derives_set u a : derives t u -> is_attribute a -> derives t (SetAttribute a u).

(** The pairs are those with the smaller number first, in the order of the larger one. *)
Lemma dense_pair_spec i : let '(low, high) := dense_pair i in 0 <= low < high /\ 2 * Z.of_nat i = high * (high - 1) + 2 * low.
Proof.
  induction i as [|i IH]; [simpl; lia|]. cbn [dense_pair]. destruct (dense_pair i) as [low high]. destruct IH as [IH1 IH2].
  destruct (Z.eqb_spec (low + 1) high); split; lia.
Qed.

Lemma dense_pair_mono i j : (i <= j)%nat -> snd (dense_pair i) <= snd (dense_pair j).
Proof.
  intros H. pose proof (dense_pair_spec i) as Hi. pose proof (dense_pair_spec j) as Hj.
  destruct (dense_pair i) as [l h], (dense_pair j) as [l' h']. simpl. nia.
Qed.

Lemma dense_pair_inj i j : dense_pair i = dense_pair j -> i = j.
Proof.
  intros H. pose proof (dense_pair_spec i) as Hi. pose proof (dense_pair_spec j) as Hj. rewrite H in Hi.
  destruct (dense_pair j) as [l h]. lia.
Qed.

Lemma testbit_u32_pow2 n i : 0 <= n < 32 -> Z.testbit (u32 (1 .<< n)) i = (i =? n).
Proof.
  intros. unfold u32. rewrite testbit_wrapu, testbit_pow2 by lia. destruct (Z.eqb_spec i n) as [->|]; [|by rewrite andb_false_r].
  by rewrite (proj2 (Z.ltb_lt n 32)) by lia.
Qed.

(** One step of a derivation: [a] only has bits of the range [m_next_bit u, next) and attributes. *)
Definition fresh_bits (u : KMemoryRegionTypeValue) (a next : Z) : Prop :=
  0 <= a /\ m_next_bit u <= next <= 25 /\ forall i, 0 <= i < 25 -> Z.testbit a i = true -> m_next_bit u <= i < next.

(** What stays of [t] in a type derived from it. *)
Definition extends (t u : KMemoryRegionTypeValue) : Prop :=
  type_wf u /\ m_next_bit t <= m_next_bit u /\
  (forall i, 0 <= i < m_next_bit t -> Z.testbit (m_value u) i = Z.testbit (m_value t) i) /\
  forall i, Z.testbit (m_value t) i = true -> Z.testbit (m_value u) i = true.

Lemma extends_step t u a next : type_wf t -> extends t u -> fresh_bits u a next -> extends t (with_value (m_value u .| a) next u).
Proof.
  intros (Ht & _) ((Hu & Hv & Hc) & Hle & Hlow & Hsub) (Ha & Hn & Hf). split; [split|split]; simpl.
  - lia.
  - split; [by apply Z.lor_nonneg|]. intros i Hi. rewrite Z.lor_spec, Hc by lia. simpl.
    destruct (Z.testbit a i) eqn:E; [|done]. specialize (Hf i ltac:(lia) E). lia.
  - lia.
  - split.
    + intros i Hi. rewrite Z.lor_spec, Hlow by done. destruct (Z.testbit a i) eqn:E; [|by rewrite orb_false_r].
      specialize (Hf i ltac:(lia) E). lia.
    + intros i Hi. by rewrite Z.lor_spec, (Hsub i Hi).
Qed.

Lemma fresh_attribute u a : type_wf u -> is_attribute a -> fresh_bits u a (m_next_bit u).
Proof. intros (Hu & _) [Ha Hb]. split; [done|]. split; [lia|]. intros i Hi E. by rewrite Hb in E. Qed.

Lemma fresh_pow2 u n next : type_wf u -> m_next_bit u <= n < next -> next <= 25 -> fresh_bits u (u32 (1 .<< n)) next.
Proof.
  intros (Hu & _) Hn Hx. split; [apply wrapu_range; lia|]. split; [lia|].
  intros i Hi. rewrite testbit_u32_pow2 by lia. intros ->%Z.eqb_eq. lia.
Qed.

Lemma fresh_or u a b next : fresh_bits u a next -> fresh_bits u b next -> fresh_bits u (a .| b) next.
Proof.
  intros (A1 & A2 & A3) (B1 & B2 & B3). split; [by apply Z.lor_nonneg|]. split; [done|].
  intros i Hi. rewrite Z.lor_spec. intros [H|H]%orb_true_iff; auto.
Qed.

(** The bits of a branch in front of the bits of its own branches. *)
Lemma fresh_sparse u ofs n i : type_wf u -> 0 <= ofs -> 0 <= i < n -> m_next_bit u + (ofs + n + 1) <= 25 ->
  fresh_bits u (u32 (1 .<< (m_next_bit u + ofs)) .| u32 (1 .<< (m_next_bit u + ofs + 1 + i))) (m_next_bit u + (ofs + n + 1)).
Proof. intros W ? ? ?. apply fresh_or; apply fresh_pow2; (done || lia). Qed.

Lemma dense_pair_range n i : 0 <= i < n -> let '(low, high) := dense_pair (Z.to_nat i) in
  0 <= low < high /\ high < BitsForDeriveDense n.
Proof.
  intros Hi. pose proof (dense_pair_spec (Z.to_nat i)) as H. pose proof (dense_pair_mono (Z.to_nat i) (Z.to_nat (n - 1)) ltac:(lia)) as Hm.
  unfold BitsForDeriveDense. destruct (dense_pair (Z.to_nat i)) as [l h]. simpl in Hm. lia.
Qed.

Lemma fresh_dense u n i : type_wf u -> 0 <= i < n -> m_next_bit u + BitsForDeriveDense n <= 25 ->
  let '(low, high) := dense_pair (Z.to_nat i) in
  fresh_bits u (u32 (1 .<< (m_next_bit u + low)) .| u32 (1 .<< (m_next_bit u + high))) (m_next_bit u + BitsForDeriveDense n).
Proof.
  intros W Hi Hn. pose proof (dense_pair_range n i Hi) as Hr. destruct (dense_pair (Z.to_nat i)) as [l h].
  apply fresh_or; apply fresh_pow2; (done || lia).
Qed.

Lemma derives_extends t u : type_wf t -> derives t u -> extends t u.
Proof.
  intros W. induction 1 as [|u ofs adv H IH ? ?|u ofs n i H IH ? ? ?|u n i H IH ? ?|u n H IH ? ?|u a H IH Ha|u a H IH Ha].
  - split; [done|]. split; [lia|done].
  - apply extends_step; try done. apply fresh_pow2; [apply IH|lia|lia].
  - unfold DeriveSparse. rewrite <- Z.lor_assoc. apply extends_step; try done. apply fresh_sparse; try done. apply IH.
  - unfold Derive. pose proof (fresh_dense u n i (proj1 IH) ltac:(done) ltac:(done)) as Hf.
    destruct (dense_pair (Z.to_nat i)) as [l h]. rewrite <- Z.lor_assoc. by apply extends_step.
  - unfold Advance. rewrite <- (Z.lor_0_r (m_value u)). apply extends_step; try done. destruct IH as ((Hu & _) & _).
    split; [lia|]. split; [lia|]. intros i _. by rewrite Z.bits_0.
  - apply extends_step; try done. apply fresh_attribute; [apply IH|done].
  - apply extends_step; try done. apply fresh_attribute; [apply IH|done].
Qed.

Lemma IsAncestorOf_bits t v : IsAncestorOf t v = true <-> forall i, Z.testbit (m_value t) i = true -> Z.testbit v i = true.
Proof.
  unfold IsAncestorOf. rewrite Z.eqb_eq. split.
  - intros E i Hi. rewrite <- E, Z.lor_spec, Hi. done.
  - intros H. apply Z.bits_inj. intros i. rewrite Z.lor_spec. destruct (Z.testbit (m_value t) i) eqn:E; [|done]. by rewrite (H i E).
Qed.

(** A branch whose bits are [a] is not an ancestor of a type derived from the branch with the bits [b], when a
    bit of [a] is missing in [b]. *)
Lemma branch_excluded t a b next u k :
  type_wf t -> fresh_bits t b next -> extends (with_value (m_value t .| b) next t) u ->
  m_next_bit t <= k < next -> Z.testbit a k = true -> Z.testbit b k = false -> 0 <= a ->
  IsAncestorOf (with_value (m_value t .| a) next t) (m_value u) = false.
Proof.
  intros (Ht & _ & Hc) (_ & Hnx & _) (_ & _ & Hlow & _) Hk Ha Hb H0. apply not_true_iff_false. rewrite IsAncestorOf_bits. intros Hall.
  specialize (Hall k). simpl in Hall. rewrite Z.lor_spec, Ha, orb_true_r in Hall. specialize (Hall eq_refl).
  rewrite Hlow in Hall by (simpl; lia). simpl in Hall. rewrite Z.lor_spec, Hc, Hb in Hall by lia. done.
Qed.

(** Whatever is derived, in any number of steps, from the branch [i] of a type passes the mask test for
    this branch and for none of its siblings, for the dense and for the sparse encoding of branches;
    so the test on the value of a region decides derivation. *)
Theorem region_type_branches t n i j u :
  type_wf t -> 0 <= i < n -> 0 <= j < n ->
  (m_next_bit t + BitsForDeriveDense n <= 25 -> derives (Derive n i t) u ->
     IsAncestorOf (Derive n j t) (GetValue u) = (i =? j)) /\
  (forall ofs, 0 <= ofs -> m_next_bit t + (ofs + n + 1) <= 25 -> derives (DeriveSparse ofs n i t) u ->
     IsAncestorOf (DeriveSparse ofs n j t) (GetValue u) = (i =? j)).
Proof.
  intros W Hi Hj. assert (derives t t) as Hr by constructor. split.
  - intros Hn Hd. assert (type_wf (Derive n i t)) as Wi by (apply (derives_extends t); [done|by apply derives_dense]).
    pose proof (derives_extends _ _ Wi Hd) as Hx. destruct (Z.eqb_spec i j) as [<-|Hne].
    { apply IsAncestorOf_bits. apply Hx. }
    pose proof (fresh_dense t n i W Hi Hn) as Fi. pose proof (dense_pair_range n i Hi) as Ri. pose proof (dense_pair_range n j Hj) as Rj.
    assert (dense_pair (Z.to_nat i) <> dense_pair (Z.to_nat j)) as Hp by (intros E%dense_pair_inj; lia).
    unfold Derive in Hx |- *. destruct (dense_pair (Z.to_nat i)) as [l h], (dense_pair (Z.to_nat j)) as [l' h'].
    rewrite <- Z.lor_assoc in Hx |- *.
    assert (exists k, (k = l' \/ k = h') /\ k <> l /\ k <> h) as (k & Hk & Hk1 & Hk2).
    { destruct (decide (h' = h)) as [->|]; [exists l'|].
      - split_and!; [tauto| |lia]. intros ->. by apply Hp.
      - destruct (decide (h' = l)) as [->|]; [exists l'|exists h']; split_and!; (tauto || lia). }
    eapply (branch_excluded t _ _ _ u (m_next_bit t + k)); [done|exact Fi|exact Hx|lia| | |].
    + rewrite Z.lor_spec, !testbit_u32_pow2 by (destruct W; lia). destruct Hk as [-> | ->]; rewrite Z.eqb_refl; [done|by rewrite orb_true_r].
    + rewrite Z.lor_spec, !testbit_u32_pow2 by (destruct W; lia). apply orb_false_iff. split; apply Z.eqb_neq; lia.
    + apply Z.lor_nonneg. split; apply wrapu_range; lia.
  - intros ofs Ho Hn Hd. assert (type_wf (DeriveSparse ofs n i t)) as Wi by (apply (derives_extends t); [done|by apply derives_sparse]).
    pose proof (derives_extends _ _ Wi Hd) as Hx. destruct (Z.eqb_spec i j) as [<-|Hne].
    { apply IsAncestorOf_bits. apply Hx. }
    pose proof (fresh_sparse t ofs n i W Ho Hi Hn) as Fi. unfold DeriveSparse in Hx |- *. rewrite <- Z.lor_assoc in Hx |- *.
    eapply (branch_excluded t _ _ _ u (m_next_bit t + ofs + 1 + j)); [done|exact Fi|exact Hx|lia| | |].
    + rewrite Z.lor_spec, !testbit_u32_pow2 by (destruct W; lia). by rewrite Z.eqb_refl, orb_true_r.
    + rewrite Z.lor_spec, !testbit_u32_pow2 by (destruct W; lia). apply orb_false_iff. split; apply Z.eqb_neq; lia.
    + apply Z.lor_nonneg. split; apply wrapu_range; lia.
Qed.

(** The system pool is a branch of the user pools and not of the pool management, also with its attribute. *)
Lemma region_type_branches_witness :
  IsAncestorOf (Derive 4 3 KMemoryRegionType_DramPoolPartition) KMemoryRegionType_DramSystemPool = (3 =? 3) /\
  IsAncestorOf (Derive 4 0 KMemoryRegionType_DramPoolPartition) KMemoryRegionType_DramSystemPool = (3 =? 0).
Proof.
  assert (type_wf KMemoryRegionType_DramPoolPartition) as W.
  { split; [vm_compute; split; discriminate|]. split; [vm_compute; discriminate|]. intros i Hi.
    change (m_next_bit KMemoryRegionType_DramPoolPartition) with 6 in Hi.
    assert (Forall (fun i => Z.testbit (m_value KMemoryRegionType_DramPoolPartition) i = false) (seqZ 6 19)) as Hall
      by (repeat (apply Forall_cons_2; [reflexivity|]); apply Forall_nil_2).
    apply (proj1 (list.Forall_forall _ _) Hall). apply elem_of_seqZ. lia. }
  assert (derives (Derive 4 3 KMemoryRegionType_DramPoolPartition) KMemoryRegionType_DramSystemPool) as D.
  { apply derives_set; [apply derives_dense; [apply derives_refl|lia|vm_compute; discriminate]|]. split; [vm_compute; discriminate|].
    intros i Hi. change KMemoryRegionAttr_CarveoutProtected with (2 ^ 25). rewrite Z.pow2_bits_eqb by lia. apply Z.eqb_neq. lia. }
  split; (eapply (region_type_branches KMemoryRegionType_DramPoolPartition 4); [exact W|lia|lia|vm_compute; discriminate|exact D]).
Defined.
