(* ===== verification/KMemoryRegion.v ===== *)
(** * KMemoryRegion: core/hle/kernel/k_memory_region.h and the trees of k_memory_layout.cpp

    Regions of the address space of the kernel and the trees that hold them.  A tree starts as one
    region; inserting splits the region that contains the address.  The nodes come from an array that
    all trees share, so the operations that add nodes take the number of nodes in use.

    The red-black tree is its in-order sequence; [tree_find] and [tree_insert] are the searches of
    common/tree.h along it.  Random numbers are the sequence of words the host generators
    answer; an operation hands back the words it has not used, and is [Undef] when they run out.

    The theorems say that an insertion overrides the attributes of exactly its range in the map from
    addresses to attributes, that it succeeds exactly when the region found allows it, and that a random
    place is aligned, inside one region of the type asked for, and can be inserted. *)

From S2P Require Import Prelude Common KMemoryRegionType.
#[local] Open Scope Z_scope.

Definition u64_max : Z := 2 ^ 64 - 1.

(** ** Regions *)

Record KMemoryRegion := mkRegion {
  m_address : Z;
  m_last_address : Z;
  m_pair_address : Z;
  m_attributes : Z;
  m_type_id : Z
}.

#[export] Instance KMemoryRegion_eq_dec : EqDecision KMemoryRegion.
Proof. solve_decision. Defined.

(** The constructor without a pair address. *)
Definition KMemoryRegion_new (address last_address attributes type_id : Z) : KMemoryRegion :=
  mkRegion address last_address u64_max attributes type_id.

(** [-1], [0] and [1] are [Lt], [Eq] and [Gt]. *)
Definition Compare (lhs rhs : KMemoryRegion) : comparison :=
  if m_address lhs <? m_address rhs then Lt
  else if m_address lhs <=? m_last_address rhs then Eq
  else Gt.

Definition GetEndAddress (r : KMemoryRegion) : Z := u64 (m_last_address r + 1).
Definition GetSize (r : KMemoryRegion) : Z := u64 (GetEndAddress r - m_address r).

Definition CanDerive (r : KMemoryRegion) (type : Z) : bool := (m_type_id r .| type) =? type.
Definition IsDerivedFrom (r : KMemoryRegion) (type : Z) : bool := (m_type_id r .| type) =? m_type_id r.
Definition HasTypeAttribute (r : KMemoryRegion) (attr : Z) : bool := (m_type_id r .| attr) =? m_type_id r.

Definition SetType (type : Z) (r : KMemoryRegion) : outcome KMemoryRegion :=
  ASSERT (CanDerive r type) ≫= fun _ =>
  mret (mkRegion (m_address r) (m_last_address r) (m_pair_address r) (m_attributes r) type).
Definition Contains (r : KMemoryRegion) (addr : Z) : outcome bool :=
  ASSERT (negb (GetEndAddress r =? 0)) ≫= fun _ =>
  mret ((m_address r <=? addr) && (addr <=? m_last_address r)).
Definition SetPairAddress (a : Z) (r : KMemoryRegion) : KMemoryRegion :=
  mkRegion (m_address r) (m_last_address r) a (m_attributes r) (m_type_id r).
Definition SetTypeAttribute (attr : Z) (r : KMemoryRegion) : KMemoryRegion :=
  mkRegion (m_address r) (m_last_address r) (m_pair_address r) (m_attributes r) (m_type_id r .| attr).
Definition Reset (a la p r t : Z) (region : KMemoryRegion) : KMemoryRegion := mkRegion a la p r t.

(** ** The tree *)

Notation tree := (list KMemoryRegion).

Fixpoint tree_find (key : KMemoryRegion) (t : tree) : option nat :=
  match t with
  | [] => None
  | r :: t' =>
      match Compare key r with
      | Lt => None
      | Eq => Some 0%nat
      | Gt => Datatypes.S <$> tree_find key t'
      end
  end.

(** A node with an equal one in the tree is not inserted. *)
Fixpoint tree_insert (node : KMemoryRegion) (t : tree) : tree :=
  match t with
  | [] => [node]
  | r :: t' =>
      match Compare node r with
      | Lt => node :: t
      | Eq => t
      | Gt => r :: tree_insert node t'
      end
  end.

Definition tree_erase (i : nat) (t : tree) : tree := delete i t.

(** [find] of [Find] and [FindModifiable]: the position of the node. *)
Definition FindModifiable (address : Z) (t : tree) : option nat := tree_find (KMemoryRegion_new address address 0 0) t.
Definition Find (address : Z) (t : tree) : option KMemoryRegion := FindModifiable address t ≫= fun i => t !! i.

Fixpoint find_first (f : KMemoryRegion -> bool) (t : tree) : option KMemoryRegion :=
  match t with
  | [] => None
  | r :: t' => if f r then Some r else find_first f t'
  end.

Definition FindByType (type_id : Z) (t : tree) : option KMemoryRegion := find_first (fun r => m_type_id r =? type_id) t.
Definition FindByTypeAndAttribute (type_id attr : Z) (t : tree) : option KMemoryRegion :=
  find_first (fun r => (m_type_id r =? type_id) && (m_attributes r =? attr)) t.
Definition FindFirstDerived (type_id : Z) (t : tree) : option KMemoryRegion :=
  find_first (fun r => IsDerivedFrom r type_id) t.

Fixpoint last_derived (type_id : Z) (region : option KMemoryRegion) (t : tree) : option KMemoryRegion :=
  match t with
  | [] => region
  | r :: t' => last_derived type_id (if IsDerivedFrom r type_id then Some r else region) t'
  end.
Definition FindLastDerived (type_id : Z) (t : tree) : option KMemoryRegion := last_derived type_id None t.

(** [DerivedRegionExtents]; the methods that read the extents dereference both pointers. *)
Record DerivedRegionExtents := mkExtents { first_region : KMemoryRegion; last_region : KMemoryRegion }.

Definition Extents_GetAddress (e : DerivedRegionExtents) : Z := m_address (first_region e).
Definition Extents_GetLastAddress (e : DerivedRegionExtents) : Z := m_last_address (last_region e).
Definition Extents_GetEndAddress (e : DerivedRegionExtents) : Z := u64 (Extents_GetLastAddress e + 1).
Definition Extents_GetSize (e : DerivedRegionExtents) : Z := u64 (Extents_GetEndAddress e - Extents_GetAddress e).

(** The loop of [GetDerivedRegionExtents] with its two pointers. *)
Fixpoint extents_loop (type_id : Z) (first last : option KMemoryRegion) (t : tree) :
    option KMemoryRegion * option KMemoryRegion :=
  match t with
  | [] => (first, last)
  | r :: t' =>
      if IsDerivedFrom r type_id then
        extents_loop type_id (match first with None => Some r | _ => first end) (Some r) t'
      else extents_loop type_id first last t'
  end.

(** Without a region of the type the assertions fail and the caller reads through a null pointer. *)
Definition GetDerivedRegionExtents (type_id : Z) (t : tree) : outcome DerivedRegionExtents :=
  match extents_loop type_id None None t with
  | (Some f, Some l) => mret (mkExtents f l)
  | _ => Undef
  end.

(** ** The allocator of nodes *)

Definition MaxMemoryRegions : Z := 200.

(** [KMemoryRegionAllocator::Allocate]: past the end of the array there is no node. *)
Definition Allocate (m_num_regions : Z) : outcome Z :=
  ASSERT (m_num_regions <? MaxMemoryRegions) ≫= fun _ =>
  if m_num_regions <? MaxMemoryRegions then mret (m_num_regions + 1) else Undef.

Definition InsertDirectly (address last_address attr type_id : Z) (t : tree) (num : Z) : outcome (tree * Z) :=
  num ← Allocate num; mret (tree_insert (KMemoryRegion_new address last_address attr type_id) t, num).

(** The pair address of a part that starts [ofs] bytes into the old region. *)
Definition shift_pair (old_pair ofs : Z) : Z := if negb (old_pair =? u64_max) then u64 (old_pair + ofs) else old_pair.

Definition Insert (address size type_id new_attr old_attr : Z) (t : tree) (num : Z) : outcome (bool * tree * Z) :=
  match FindModifiable address t with
  | None => Undef
  | Some i =>
      match t !! i with
      | None => Undef
      | Some found =>
          if negb (m_attributes found =? old_attr) then mret (false, t, num)
          else
            let inserted_region_end := u64 (address + size) in
            let inserted_region_last := u64 (inserted_region_end - 1) in
            if m_last_address found <? inserted_region_last then mret (false, t, num)
            else if negb (CanDerive found type_id) then mret (false, t, num)
            else
              let old_address := m_address found in
              let old_last := m_last_address found in
              let old_pair := m_pair_address found in
              let old_type := m_type_id found in
              let t := tree_erase i t in
              tn ← (if old_address =? address then
                      let found := Reset address inserted_region_last old_pair new_attr type_id found in
                      mret (tree_insert found t, num)
                    else
                      let found := Reset old_address (u64 (address - 1)) old_pair old_attr old_type found in
                      let t := tree_insert found t in
                      let new_pair := shift_pair old_pair (u64 (address - old_address)) in
                      num ← Allocate num;
                      mret (tree_insert (mkRegion address inserted_region_last new_pair new_attr type_id) t, num));
              let '(t, num) := tn in
              if negb (old_last =? inserted_region_last) then
                let after_pair := shift_pair old_pair (u64 (inserted_region_end - old_address)) in
                num ← Allocate num;
                mret (true, tree_insert (mkRegion inserted_region_end old_last after_pair old_attr old_type) t, num)
              else mret (true, t, num)
      end
  end.

(** ** Random places *)

(** The loop of [GenerateUniformRange]: the words are what the generator answers. *)
Fixpoint uniform_loop (min range_size effective_max : Z) (words : list Z) : outcome (Z * list Z) :=
  match words with
  | [] => Undef
  | rnd :: words' =>
      if rnd <? effective_max then mret (u64 (min + rnd mod range_size), words')
      else uniform_loop min range_size effective_max words'
  end.

Definition GenerateUniformRange (min max : Z) (words : list Z) : outcome (Z * list Z) :=
  if (max =? u64_max) && (min =? 0) then
    match words with [] => Undef | rnd :: words' => mret (rnd, words') end
  else
    let range_size := u64 (u64 (max + 1) - min) in
    q ← udiv u64_max range_size;
    uniform_loop min range_size (u64 (q * range_size)) words.

Definition GenerateRandomRange (min max : Z) (words : list Z) : outcome (Z * list Z) := GenerateUniformRange min max words.

(** The loop of [GetRandomAlignedRegion]; every round uses at least one word, so the number of words
    is fuel enough. *)
Fixpoint random_region_loop (fuel : nat) (first_index last_index last_address size alignment type_id : Z) (t : tree)
    (words : list Z) : outcome (Z * list Z) :=
  match fuel with
  | O => Undef
  | Datatypes.S fuel =>
      rw ← GenerateRandomRange first_index last_index words;
      let '(rnd, words) := rw in
      let again := random_region_loop fuel first_index last_index last_address size alignment type_id t words in
      let candidate := u64 (rnd * alignment) in
      if negb (candidate <? u64 (candidate + size)) then again
      else
        let candidate_last := u64 (u64 (candidate + size) - 1) in
        if last_address <? candidate_last then again
        else
          match Find candidate t with
          | None => Undef
          | Some candidate_region =>
              if negb ((candidate_last <=? m_last_address candidate_region) && (m_type_id candidate_region =? type_id)) then again
              else mret (candidate, words)
          end
  end.

Definition GetRandomAlignedRegion (size alignment type_id : Z) (t : tree) (words : list Z) : outcome (Z * list Z) :=
  extents ← GetDerivedRegionExtents type_id t;
  ASSERT (IsAligned 64 (Extents_GetAddress extents) alignment) ≫= fun _ =>
  let first_address := Extents_GetAddress extents in
  let last_address := Extents_GetLastAddress extents in
  first_index ← udiv first_address alignment;
  last_index ← udiv last_address alignment;
  random_region_loop (length words) first_index last_index last_address size alignment type_id t words.

Definition GetRandomAlignedRegionWithGuard (size alignment type_id guard_size : Z) (t : tree) (words : list Z) :
    outcome (Z * list Z) :=
  rw ← GetRandomAlignedRegion (u64 (size + u64 (2 * guard_size))) alignment type_id t words;
  mret (u64 (fst rw + guard_size), snd rw).

(** ** The map a tree stands for *)

(** A pair address is absent, or its whole range stays below the value that says so. *)
Definition region_wf (r : KMemoryRegion) : Prop :=
  0 <= m_address r <= m_last_address r /\ m_last_address r < 2 ^ 64 /\ 0 <= m_pair_address r /\
  (m_pair_address r = u64_max \/ m_pair_address r + (m_last_address r - m_address r) < u64_max).

(** Regions in order and without overlap, from [lo] on. *)
Fixpoint regions_from (lo : Z) (t : tree) : Prop :=
  match t with
  | [] => True
  | r :: t' => lo <= m_address r /\ region_wf r /\ regions_from (m_last_address r + 1) t'
  end.
Notation tree_wf := (regions_from 0).

Definition in_region (r : KMemoryRegion) (x : Z) : bool := (m_address r <=? x) && (x <=? m_last_address r).

(** Type, attribute and pair of the address [x]. *)
Definition info (r : KMemoryRegion) (x : Z) : Z * Z * option Z :=
  (m_type_id r, m_attributes r,
   if m_pair_address r =? u64_max then None else Some (m_pair_address r + (x - m_address r))).

Definition region_of (t : tree) (x : Z) : option KMemoryRegion := find_first (fun r => in_region r x) t.
Definition info_at (t : tree) (x : Z) : option (Z * Z * option Z) := (fun r => info r x) <$> region_of t x.

Lemma in_region_spec r x : in_region r x = true <-> m_address r <= x <= m_last_address r.
Proof. unfold in_region. rewrite andb_true_iff, !Z.leb_le. done. Qed.
Lemma in_region_out r x : x < m_address r \/ m_last_address r < x -> in_region r x = false.
Proof. intros H. apply not_true_iff_false. rewrite in_region_spec. lia. Qed.

Lemma regions_from_weaken lo lo' t : lo' <= lo -> regions_from lo t -> regions_from lo' t.
Proof. destruct t; [done|]. simpl. intros ? (? & ? & ?). split; [lia|done]. Qed.

Lemma regions_from_app lo d t :
  regions_from lo (d ++ t) <->
  regions_from lo d /\ exists mid, Forall (fun r => m_last_address r < mid) d /\ lo <= mid /\ regions_from mid t.
Proof.
  revert lo. induction d as [|r d IH]; intros lo; simpl.
  - split; [intros H; split; [done|]; exists lo; done|]. intros (_ & mid & _ & H & Ht). by eapply regions_from_weaken.
  - rewrite IH. split.
    + intros (H1 & H2 & H3 & mid & H4 & H5 & H6). split_and!; try done. exists mid. split_and!; try done.
      * constructor; [lia|done].
      * destruct H2. lia.
    + intros ((H1 & H2 & H3) & mid & H4 & H5 & H6). apply list.Forall_cons in H4 as [H4 H4']. split_and!; try done.
      exists mid. split_and!; try done. lia.
Qed.

Lemma region_of_below lo t x : regions_from lo t -> x < lo -> region_of t x = None.
Proof.
  revert lo. induction t as [|r t IH]; [done|]. intros lo (H1 & H2 & H3) Hx. unfold region_of. simpl.
  rewrite in_region_out by lia. apply (IH (m_last_address r + 1)); [done|]. destruct H2. lia.
Qed.

Lemma region_of_above d x : Forall (fun r => m_last_address r < x) d -> region_of d x = None.
Proof.
  induction 1 as [|r d H _ IH]; [done|]. unfold region_of. simpl. by rewrite in_region_out by lia.
Qed.

Lemma find_first_app f d t : find_first f (d ++ t) = match find_first f d with Some r => Some r | None => find_first f t end.
Proof. induction d as [|r d IH]; [done|]. simpl. by destruct (f r). Qed.

Lemma find_first_Some f t r : find_first f t = Some r -> exists d u, t = d ++ r :: u /\ f r = true /\ Forall (fun r => f r = false) d.
Proof.
  induction t as [|r' t IH]; [done|]. simpl. destruct (f r') eqn:E.
  - intros [= ->]. exists [], t. done.
  - intros (d & u & -> & Hr & Hd)%IH. exists (r' :: d), u. split_and!; try done. by constructor.
Qed.

Lemma find_first_None f t : find_first f t = None <-> Forall (fun r => f r = false) t.
Proof.
  induction t as [|r t IH]; [done|]. simpl. rewrite list.Forall_cons. destruct (f r) eqn:E; [naive_solver|]. by rewrite IH; intuition.
Qed.

(** What the searches find. *)
Lemma tree_find_split lo d r t x :
  regions_from lo (d ++ r :: t) -> in_region r x = true -> FindModifiable x (d ++ r :: t) = Some (length d).
Proof.
  unfold FindModifiable. revert lo. induction d as [|r' d IH]; intros lo Hw Hx.
  - simpl. unfold Compare. simpl. apply in_region_spec in Hx. rewrite (proj2 (Z.ltb_ge _ _)) by lia. by rewrite (proj2 (Z.leb_le _ _)) by lia.
  - destruct Hw as (H1 & H2 & H3). assert (m_last_address r' < x) as Hl.
    { apply regions_from_app in H3 as (_ & mid & _ & Hm & (H4 & _)). apply in_region_spec in Hx. lia. }
    simpl. unfold Compare at 1. simpl. destruct H2 as (H2 & _).
    rewrite (proj2 (Z.ltb_ge _ _)), (proj2 (Z.leb_gt _ _)) by lia. by rewrite (IH _ H3 Hx).
Qed.

Lemma tree_find_None lo t x : regions_from lo t -> region_of t x = None -> FindModifiable x t = None.
Proof.
  unfold FindModifiable. revert lo. induction t as [|r t IH]; [done|]. intros lo (H1 & H2 & H3). unfold region_of. simpl.
  destruct (in_region r x) eqn:E; [done|]. intros Hn. unfold Compare at 1. simpl. unfold in_region in E.
  destruct (Z.ltb_spec x (m_address r)) as [|]; [done|]. rewrite (proj2 (Z.leb_le (m_address r) x)) in E by lia. simpl in E. rewrite E.
  by rewrite (IH _ H3 Hn).
Qed.

Lemma Find_region_of lo t x : regions_from lo t -> Find x t = region_of t x.
Proof.
  intros W. unfold Find. destruct (region_of t x) as [r|] eqn:E.
  - apply find_first_Some in E as (d & u & -> & Hr & _). rewrite (tree_find_split lo d r u x) by done. simpl. by apply list_lookup_middle.
  - by rewrite (tree_find_None lo).
Qed.

Lemma tree_insert_split d node u :
  Forall (fun r => m_address r <= m_last_address r < m_address node) d ->
  match u with [] => True | r :: _ => m_address node < m_address r end -> tree_insert node (d ++ u) = d ++ node :: u.
Proof.
  intros Hd Hu. induction Hd as [|r d Hr Hd IH]; simpl.
  - destruct u as [|r u]; [done|]. simpl. unfold Compare. by rewrite (proj2 (Z.ltb_lt _ _) Hu).
  - unfold Compare. rewrite (proj2 (Z.ltb_ge _ _)), (proj2 (Z.leb_gt _ _)) by lia. by rewrite IH.
Qed.

Lemma regions_ordered lo t : regions_from lo t -> Forall (fun r => lo <= m_address r <= m_last_address r) t.
Proof.
  revert lo. induction t as [|r t IH]; intros lo; [constructor|]. intros (H1 & (H2 & _) & H3). constructor; [lia|].
  eapply list.Forall_impl; [by apply IH|]. simpl. intros. lia.
Qed.

(** ** Insertion *)

(** What becomes of the region [r] when [a] to [l] is inserted. *)
Definition parts (r : KMemoryRegion) (a l type_id attr : Z) : tree :=
  (if m_address r =? a then [] else [mkRegion (m_address r) (a - 1) (m_pair_address r) (m_attributes r) (m_type_id r)]) ++
  mkRegion a l (shift_pair (m_pair_address r) (a - m_address r)) attr type_id ::
  (if m_last_address r =? l then []
   else [mkRegion (l + 1) (m_last_address r) (shift_pair (m_pair_address r) (l + 1 - m_address r)) (m_attributes r) (m_type_id r)]).

Lemma shift_pair_val p n : 0 <= p -> 0 <= n -> p = u64_max \/ p + n < u64_max -> shift_pair p n = if p =? u64_max then p else p + n.
Proof.
  intros Hp Hn H. unfold shift_pair, u64_max in *. destruct (Z.eqb_spec p (2 ^ 64 - 1)); [done|]. simpl. apply u64_small. lia.
Qed.

Lemma shift_pair_0 p : 0 <= p < 2 ^ 64 -> shift_pair p 0 = p.
Proof. intros H. unfold shift_pair. destruct (p =? u64_max); [done|]. simpl. rewrite Z.add_0_r. by apply u64_small. Qed.

Lemma parts_wf r a l type_id attr : region_wf r -> m_address r <= a <= l -> l <= m_last_address r ->
  regions_from (m_address r) (parts r a l type_id attr) /\ Forall (fun q => m_last_address q <= m_last_address r) (parts r a l type_id attr).
Proof.
  intros ((H1 & H2) & H3 & H4 & H5) Ha Hl. unfold parts.
  destruct (Z.eqb_spec (m_address r) a), (Z.eqb_spec (m_last_address r) l);
    rewrite !shift_pair_val by (unfold u64_max in *; lia); destruct (Z.eqb_spec (m_pair_address r) u64_max);
    simpl; unfold region_wf, u64_max in *; simpl; (split; [split_and!; try done; lia|repeat (apply Forall_cons_2; [simpl; lia|]); by apply Forall_nil_2]).
Qed.

Lemma parts_info r a l type_id attr x : region_wf r -> m_address r <= a <= l -> l <= m_last_address r ->
  info_at (parts r a l type_id attr) x =
    if (a <=? x) && (x <=? l) then Some (type_id, attr, snd (info r x))
    else if in_region r x then Some (info r x) else None.
Proof.
  intros ((H1 & H2) & H3 & H4 & H5) Ha Hl. unfold parts.
  unfold info_at, region_of, in_region.
  destruct (Z.leb_spec a x), (Z.leb_spec x l), (Z.leb_spec (m_address r) x), (Z.leb_spec x (m_last_address r)); simpl; try lia;
  destruct (Z.eqb_spec (m_address r) a), (Z.eqb_spec (m_last_address r) l);
    rewrite !shift_pair_val by (unfold u64_max in *; lia); simpl; unfold in_region; simpl; try lia;
  repeat (first [rewrite (proj2 (Z.leb_le _ _)) by lia | rewrite (proj2 (Z.leb_gt _ _)) by lia]; simpl); try done;
  unfold info; simpl; destruct (Z.eqb_spec (m_pair_address r) u64_max) as [->|]; simpl; try done;
  try (by rewrite (proj2 (Z.eqb_eq u64_max u64_max)));
  try (rewrite (proj2 (Z.eqb_neq _ _)) by lia); repeat (f_equal; try lia).
Qed.

Lemma parts_cons r a l type_id attr : m_address r <= a -> exists p q, parts r a l type_id attr = p :: q /\ m_address p = m_address r.
Proof.
  intros H. unfold parts. destruct (Z.eqb_spec (m_address r) a); simpl; eauto.
Qed.

(** How many nodes an insertion needs. *)
Definition extra_nodes (r : KMemoryRegion) (a l : Z) : Z :=
  (if m_address r =? a then 0 else 1) + (if m_last_address r =? l then 0 else 1).

Lemma node_Allocate_ok n : n < MaxMemoryRegions -> Allocate n = mret (n + 1).
Proof. intros H. unfold Allocate. by rewrite (proj2 (Z.ltb_lt _ _) H). Qed.

Definition accepts (r : KMemoryRegion) (l type_id old_attr : Z) : bool :=
  (m_attributes r =? old_attr) && (l <=? m_last_address r) && CanDerive r type_id.

Section Insertion.
Context (d : tree) (r : KMemoryRegion) (u : tree) (Hw : tree_wf (d ++ r :: u)).
Context (a size type_id new_attr old_attr num : Z) (Ha : in_region r a = true) (Hs : 0 < size) (Hn : a + size <= 2 ^ 64).
#[local] Notation l := (a + size - 1).

Lemma inserted_last : u64 (u64 (a + size) - 1) = l.
Proof.
  apply in_region_spec in Ha. apply regions_from_app in Hw as (_ & mid & _ & _ & (_ & ((H1 & _) & _) & _)).
  destruct (decide (a + size = 2 ^ 64)) as [->|]; [done|]. rewrite (u64_small (a + size)) by lia. apply u64_small. lia.
Qed.

Lemma Insert_refused : accepts r l type_id old_attr = false -> Insert a size type_id new_attr old_attr (d ++ r :: u) num = Done true (false, d ++ r :: u, num).
Proof.
  intros H. unfold Insert. rewrite (tree_find_split 0 d r u a Hw Ha), list_lookup_middle by done.
  cbv zeta. rewrite inserted_last. unfold accepts in H. destruct (m_attributes r =? old_attr); [|done].
  rewrite Z.leb_antisym in H. simpl in H |- *. destruct (m_last_address r <? l); [done|]. simpl in H. by rewrite H.
Qed.

Lemma before_after :
  Forall (fun q => m_address q <= m_last_address q < m_address r) d /\
  match u with [] => True | q :: _ => m_last_address r < m_address q end.
Proof.
  pose proof Hw as H. apply regions_from_app in H as (H1 & mid & H2 & _ & (H3 & _ & H4)). split.
  - apply regions_ordered in H1. rewrite list.Forall_forall in *. intros q Hq. specialize (H1 q Hq). specialize (H2 q Hq). simpl in *. lia.
  - destruct u; [done|]. simpl in H4. lia.
Qed.

Lemma Insert_accepted : accepts r l type_id old_attr = true -> num + extra_nodes r a l <= MaxMemoryRegions ->
  Insert a size type_id new_attr old_attr (d ++ r :: u) num =
    Done true (true, d ++ parts r a l type_id new_attr ++ u, num + extra_nodes r a l).
Proof.
  intros [[Hat%Z.eqb_eq Hl%Z.leb_le]%andb_true_iff Hc]%andb_true_iff Hm. destruct before_after as [Bd Bu].
  pose proof Ha as Ha'. apply in_region_spec in Ha'.
  pose proof Hw as H. apply regions_from_app in H as (_ & mid & _ & _ & (_ & ((Hr1 & Hr2) & Hr3 & Hr4 & Hr5) & _)).
  unfold Insert. rewrite (tree_find_split 0 d r u a Hw Ha), list_lookup_middle by done. cbv zeta.
  rewrite inserted_last, Hat, Z.eqb_refl, Hc. cbn [negb]. rewrite (proj2 (Z.ltb_ge _ _)) by lia.
  unfold tree_erase. rewrite delete_middle. unfold parts, extra_nodes, Reset in *. rewrite (u64_small (a - m_address r)) by lia.
  assert (Forall (fun q => m_address q <= m_last_address q < a) d) as Bd'
    by (eapply list.Forall_impl; [exact Bd|]; simpl; intros; lia).
  assert (match u with [] => True | q :: _ => a < m_address q end) as Bu' by (destruct u; [done|]; lia).
  rewrite Hat. destruct (Z.eqb_spec (m_address r) a) as [Ea|Ea].
  - ostep. rewrite tree_insert_split by done. rewrite Ea, Z.sub_diag, shift_pair_0 by (unfold u64_max in *; lia).
    destruct (Z.eqb_spec (m_last_address r) l) as [El|El]; simpl negb; cbv iota; [by rewrite Z.add_0_r|].
    rewrite node_Allocate_ok by lia. ostep. rewrite !(u64_small (a + size)) by lia.
    rewrite (cons_middle _ d u), app_assoc, tree_insert_split; [|..].
    + rewrite (u64_small (a + size - a)) by lia. rewrite <- app_assoc. by replace (l + 1) with (a + size) by lia.
    + apply Forall_app_2; [eapply list.Forall_impl; [exact Bd|]; simpl; intros; lia|]. apply Forall_singleton. simpl. lia.
    + destruct u; [done|]. simpl. lia.
  - rewrite (u64_small (a - 1)) by lia. rewrite node_Allocate_ok by (destruct (_ =? l); lia). ostep.
    rewrite (tree_insert_split d); [|done|by (destruct u; [|simpl; lia])].
    rewrite (cons_middle _ d u), app_assoc, tree_insert_split; [|..].
    2: { apply Forall_app_2; [done|]. apply Forall_singleton. simpl. lia. }
    2: { destruct u; [done|]. simpl. lia. }
    destruct (Z.eqb_spec (m_last_address r) l) as [El|El]; simpl negb; cbv iota; [by rewrite <- app_assoc, Z.add_0_r|].
    rewrite node_Allocate_ok by lia. ostep. rewrite !(u64_small (a + size)), (u64_small (a + size - m_address r)) by lia.
    rewrite (cons_middle _ (d ++ _) u), app_assoc, tree_insert_split; [|..].
    + rewrite <- !app_assoc. replace (l + 1) with (a + size) by lia. by rewrite <- Z.add_assoc.
    + apply Forall_app_2; [apply Forall_app_2|]; [eapply list.Forall_impl; [exact Bd|]; simpl; intros; lia| |];
        apply Forall_singleton; simpl; lia.
    + destruct u; [done|]. simpl. lia.
Qed.
End Insertion.

Lemma region_of_split d r u x : tree_wf (d ++ r :: u) ->
  info_at (d ++ r :: u) x = if in_region r x then Some (info r x) else info_at (d ++ u) x.
Proof.
  intros W. unfold info_at, region_of. rewrite !find_first_app. simpl. destruct (in_region r x) eqn:E.
  - assert (find_first (fun r => in_region r x) d = None) as ->; [|done]. apply region_of_above.
    apply regions_from_app in W as (_ & mid & H & _ & (Hr & _)). apply in_region_spec in E.
    eapply list.Forall_impl; [exact H|]. simpl. intros. lia.
  - done.
Qed.

Lemma replace_wf d r u l :
  tree_wf (d ++ r :: u) -> regions_from (m_address r) l -> Forall (fun q => m_last_address q <= m_last_address r) l ->
  tree_wf (d ++ l ++ u).
Proof.
  intros W Hl Hle. apply regions_from_app in W as (Wd & mid & H1 & H2 & (H3 & (H4 & _) & H5)).
  apply regions_from_app. split; [done|]. exists mid. split_and!; try done. apply regions_from_app.
  split; [by eapply regions_from_weaken|]. exists (m_last_address r + 1). split_and!; [|lia|done].
  eapply list.Forall_impl; [exact Hle|]. simpl. intros. lia.
Qed.

Lemma replace_info d r u l x :
  tree_wf (d ++ r :: u) -> (in_region r x = false -> info_at l x = None) -> (in_region r x = true -> info_at l x <> None) ->
  info_at (d ++ l ++ u) x = if in_region r x then info_at l x else info_at (d ++ u) x.
Proof.
  intros W Hout Hin. unfold info_at, region_of in *. rewrite !find_first_app. destruct (in_region r x) eqn:E.
  - assert (find_first (fun r => in_region r x) d = None) as ->.
    { apply region_of_above. apply regions_from_app in W as (_ & mid & H & _ & (Hr & _)). apply in_region_spec in E.
      eapply list.Forall_impl; [exact H|]. simpl. intros. lia. }
    specialize (Hin eq_refl). by destruct (find_first _ l).
  - specialize (Hout eq_refl). destruct (find_first _ d); [done|]. by destruct (find_first _ l).
Qed.

Lemma Insert_spec d r u a size type_id new_attr old_attr num :
  tree_wf (d ++ r :: u) -> in_region r a = true -> 0 < size -> a + size <= 2 ^ 64 -> num + 2 <= MaxMemoryRegions ->
  accepts r (a + size - 1) type_id old_attr = true ->
  exists t', Insert a size type_id new_attr old_attr (d ++ r :: u) num = Done true (true, t', num + extra_nodes r a (a + size - 1)) /\
    tree_wf t' /\ Z.of_nat (length t') = Z.of_nat (length (d ++ r :: u)) + extra_nodes r a (a + size - 1) /\
    forall x, info_at t' x = if (a <=? x) && (x <? a + size) then Some (type_id, new_attr, snd (info r x)) else info_at (d ++ r :: u) x.
Proof.
  intros W Ha Hs Hn Hm Hc. exists (d ++ parts r a (a + size - 1) type_id new_attr ++ u).
  assert (region_wf r) as Wr by (apply regions_from_app in W as (_ & ? & _ & _ & (_ & ? & _)); done).
  pose proof Ha as Ha'. apply in_region_spec in Ha'.
  assert (a + size - 1 <= m_last_address r) as Hl by (apply andb_true_iff in Hc as [[_ ?%Z.leb_le]%andb_true_iff _]; lia).
  destruct (parts_wf r a (a + size - 1) type_id new_attr Wr) as [P1 P2]; [lia|lia|]. split_and!.
  - apply Insert_accepted; try done. unfold extra_nodes. destruct (_ =? _), (_ =? _); lia.
  - by eapply replace_wf.
  - unfold parts, extra_nodes. rewrite !length_app. simpl.
    destruct (m_address r =? a), (m_last_address r =? a + size - 1); simpl; lia.
  - intros x. pose proof (parts_info r a (a + size - 1) type_id new_attr x Wr ltac:(lia) ltac:(lia)) as HP.
    replace (x <? a + size) with (x <=? a + size - 1) by (destruct (Z.leb_spec x (a + size - 1)), (Z.ltb_spec x (a + size)); lia).
    rewrite (replace_info d r), (region_of_split d r u), HP by (done || (intros E; rewrite HP, E; destruct (_ && _) eqn:E';
      [try done; exfalso; apply andb_true_iff in E' as [?%Z.leb_le ?%Z.leb_le]; unfold in_region in E;
       apply andb_false_iff in E as [?%Z.leb_gt|?%Z.leb_gt]; lia|done])).
    destruct ((a <=? x) && (x <=? a + size - 1)) eqn:E; [|by destruct (in_region r x)].
    apply andb_true_iff in E as [?%Z.leb_le ?%Z.leb_le]. by rewrite (proj2 (in_region_spec r x)) by lia.
Qed.

(** C19: Inserting the range [a, a + size) into a tree.  Without a region that contains [a] the code dereferences the end
    of the tree.  When the region found reaches far enough, has the expected attributes and a type the new one derives
    from, the insertion succeeds, keeps the tree sorted and disjoint, takes at most two nodes, one for each region the tree
    gains, and overrides type and attributes of exactly the addresses of the range, with the pair address moved along;
    otherwise it answers false and changes nothing. *)
Theorem region_tree_insert t num a size type_id new_attr old_attr :
  tree_wf t -> 0 < size -> a + size <= 2 ^ 64 -> num + 2 <= MaxMemoryRegions ->
  match region_of t a with
  | None => Insert a size type_id new_attr old_attr t num = Undef
  | Some r =>
      if accepts r (a + size - 1) type_id old_attr then
        exists t' num', Insert a size type_id new_attr old_attr t num = Done true (true, t', num') /\ tree_wf t' /\
          num' - num = Z.of_nat (length t') - Z.of_nat (length t) /\ num <= num' <= num + 2 /\
          forall x, info_at t' x = if (a <=? x) && (x <? a + size) then Some (type_id, new_attr, snd (info r x)) else info_at t x
      else Insert a size type_id new_attr old_attr t num = Done true (false, t, num)
  end.
Proof.
  intros W Hs Hn Hm. destruct (region_of t a) as [r|] eqn:E.
  - apply find_first_Some in E as (d & u & -> & Ha & _). destruct (accepts r _ type_id old_attr) eqn:Hc.
    + destruct (Insert_spec d r u a size type_id new_attr old_attr num) as (t' & H1 & H2 & H3 & H4); try done.
      exists t', (num + extra_nodes r a (a + size - 1)). split_and!; try done; unfold extra_nodes in *;
        destruct (_ =? _), (_ =? _); lia.
    + by apply Insert_refused.
  - unfold Insert. by rewrite (tree_find_None 0).
Qed.

(** ** Random places *)

Lemma extents_loop_spec type_id t first last :
  extents_loop type_id first last t =
    (match first with Some _ => first | None => FindFirstDerived type_id t end, last_derived type_id last t).
Proof.
  revert first last. induction t as [|r t IH]; intros first last; [by destruct first|]. simpl. unfold FindFirstDerived. simpl.
  destruct (IsDerivedFrom r type_id); rewrite IH; by destruct first.
Qed.

Lemma last_derived_Some type_id t r0 : exists r, last_derived type_id (Some r0) t = Some r.
Proof. revert r0. induction t as [|r t IH]; intros r0; [by eauto|]. simpl. destruct (IsDerivedFrom r type_id); apply IH. Qed.

Lemma extents_spec type_id t first last :
  FindFirstDerived type_id t = Some first -> FindLastDerived type_id t = Some last ->
  GetDerivedRegionExtents type_id t = mret (mkExtents first last).
Proof. intros H1 H2. unfold GetDerivedRegionExtents. rewrite extents_loop_spec, H1. unfold FindLastDerived in H2. by rewrite H2. Qed.

(** A draw answers a number in the range with the words that are left. *)
Lemma uniform_loop_spec min n emax words :
  uniform_loop min n emax words = Undef \/
  exists skipped rnd rest, words = skipped ++ rnd :: rest /\ Forall (fun w => emax <= w) skipped /\ rnd < emax /\
    uniform_loop min n emax words = Done true (u64 (min + rnd mod n), rest).
Proof.
  induction words as [|w words IH]; [by left|]. simpl. destruct (Z.ltb_spec w emax).
  - right. exists [], w, words. done.
  - destruct IH as [->|(s & rnd & rest & -> & Hs & Hr & ->)]; [by left|]. right. exists (w :: s), rnd, rest. split_and!; try done. by constructor.
Qed.

(** With the word [v - min] among the words, the draw ends, and with [v] if this word is not left over. *)
Lemma uniform_loop_hits min n emax v words : 0 <= v < n -> n <= emax -> v ∈ words -> 
  exists rnd rest, uniform_loop min n emax words = Done true (u64 (min + rnd mod n), rest) /\ (rnd = v \/ v ∈ rest).
Proof.
  intros Hv Hn. induction words as [|w words IH]; [by intros ?%not_elem_of_nil|]. intros [->|Hin]%elem_of_cons; simpl.
  - rewrite (proj2 (Z.ltb_lt _ _)) by lia. eauto.
  - destruct (Z.ltb_spec w emax); [by eauto|]. by apply IH.
Qed.

Lemma GenerateRandomRange_val lo hi words : 0 <= lo <= hi -> hi < u64_max -> exists emax, 2 ^ 64 - 1 - (hi - lo) <= emax /\ hi - lo < emax /\
  GenerateRandomRange lo hi words = uniform_loop lo (hi + 1 - lo) emax words.
Proof.
  intros H1 H2. unfold GenerateRandomRange, GenerateUniformRange.
  rewrite (proj2 (Z.eqb_neq hi u64_max)) by lia. cbv zeta. cbn [andb]. unfold u64_max in H2.
  assert (u64 (u64 (hi + 1) - lo) = hi + 1 - lo) as ->.
  { unfold u64, wrapu. rewrite Zminus_mod_idemp_l. apply Z.mod_small. lia. }
  unfold udiv. rewrite (proj2 (Z.eqb_neq _ 0)) by lia. ostep.
  exists (u64 (u64_max / (hi + 1 - lo) * (hi + 1 - lo))). apply and_assoc. split; [|done]. unfold u64_max.
  pose proof (Z.mul_div_le (2 ^ 64 - 1) (hi + 1 - lo) ltac:(lia)).
  assert (1 <= (2 ^ 64 - 1) / (hi + 1 - lo)) by (apply Z.div_le_lower_bound; lia).
  pose proof (Z.mod_pos_bound (2 ^ 64 - 1) (hi + 1 - lo) ltac:(lia)). pose proof (Z.div_mod (2 ^ 64 - 1) (hi + 1 - lo) ltac:(lia)).
  rewrite u64_small by nia. split; nia.
Qed.

(** A draw answers a number in the range. *)
Lemma draw_spec lo hi words : 0 <= lo <= hi -> hi < u64_max ->
  GenerateRandomRange lo hi words = Undef \/
  exists used v rest, words = used ++ rest /\ used <> [] /\ lo <= v <= hi /\ GenerateRandomRange lo hi words = Done true (v, rest).
Proof.
  intros H1 H2. destruct (GenerateRandomRange_val lo hi words H1 H2) as (emax & _ & He & ->). unfold u64_max in H2.
  destruct (uniform_loop_spec lo (hi + 1 - lo) emax words) as [->|(s & rnd & rest & -> & _ & Hr & ->)]; [by left|]. right.
  pose proof (Z.mod_pos_bound rnd (hi + 1 - lo) ltac:(lia)).
  exists (s ++ [rnd]), (lo + rnd mod (hi + 1 - lo)), rest. split_and!; [by rewrite <- app_assoc|by destruct s|lia|lia|].
  by rewrite u64_small by lia.
Qed.

(** The word [v] makes a draw end, and with [lo + v] unless an earlier word was taken. *)
Lemma draw_hits lo hi words v : 0 <= lo <= hi -> hi < u64_max -> v ∈ words -> 0 <= v <= hi - lo ->
  exists w rest, GenerateRandomRange lo hi words = Done true (w, rest) /\ (w = lo + v \/ v ∈ rest).
Proof.
  intros H1 H2 Hv Hr. destruct (GenerateRandomRange_val lo hi words H1 H2) as (emax & _ & He & ->). unfold u64_max in H2.
  destruct (uniform_loop_hits lo (hi + 1 - lo) emax v words) as (rnd & rest & -> & Hh); [lia|lia|done|].
  do 2 eexists. split; [done|]. destruct Hh as [->|]; [left|by right]. rewrite Z.mod_small, u64_small by lia. done.
Qed.

Section RandomRegion.
Context (t : tree) (W : tree_wf t) (size k type_id : Z) (first last : KMemoryRegion).
#[local] Notation alignment := (2 ^ k).
Context (Hfirst : FindFirstDerived type_id t = Some first) (Hlast : FindLastDerived type_id t = Some last).
Context (Hcover : forall x, m_address first <= x <= m_last_address last -> region_of t x <> None).
Context (Hk : 0 <= k < 64) (Hdiv : (alignment | m_address first)) (Hsize : 0 < size).
Context (Hpos : 0 < m_address first <= m_last_address last) (Hend : m_last_address last < u64_max) (Hsz : size < 2 ^ 64).

(** The place [c] can hold [size] bytes of one region of the type. *)
Definition fits (c : Z) : Prop :=
  exists r, region_of t c = Some r /\ m_type_id r = type_id /\ c + size - 1 <= m_last_address r.

#[local] Notation lo := (m_address first / alignment).
#[local] Notation hi := (m_last_address last / alignment).

Lemma align_pos : 0 < alignment.
Proof. apply Z.pow_pos_nonneg; lia. Qed.

Lemma index_bounds : 0 <= lo <= hi /\ hi < u64_max /\ lo * alignment = m_address first /\ hi * alignment <= m_last_address last.
Proof.
  pose proof align_pos. destruct Hdiv as [q Hq]. rewrite Hq, Z.div_mul by lia. split_and!; try done.
  - nia.
  - apply Z.div_le_lower_bound; nia.
  - unfold u64_max in *. apply Z.div_lt_upper_bound; nia.
  - rewrite Z.mul_comm. apply Z.mul_div_le. lia.
Qed.

(** One round of the loop. *)
Lemma candidate_ok v : lo <= v <= hi -> let c := v * alignment in
  u64 c = c /\ (alignment | c) /\ m_address first <= c <= m_last_address last /\ exists r, Find c t = Some r /\ region_of t c = Some r.
Proof.
  intros Hv c. destruct index_bounds as (H1 & H2 & H3 & H4). pose proof align_pos.
  assert (m_address first <= c <= m_last_address last) as Hc by (unfold c; nia). split_and!; try (apply Hc).
  - unfold u64_max in Hend. apply u64_small. lia.
  - apply Z.divide_factor_r.
  - specialize (Hcover c Hc). destruct (region_of t c) as [r|] eqn:E; [|done]. exists r. split; [|done]. by rewrite (Find_region_of 0).
Qed.

#[local] Notation loop fuel words := (random_region_loop fuel lo hi (m_last_address last) size alignment type_id t words).

(** A round either answers a place that fits or goes on. *)
Lemma round_spec fuel v words rest : lo <= v <= hi -> GenerateRandomRange lo hi words = Done true (v, rest) ->
  (loop (Datatypes.S fuel) words = Done true (v * alignment, rest) /\ fits (v * alignment)) \/
  (loop (Datatypes.S fuel) words = loop fuel rest /\ ~ (fits (v * alignment) /\ v * alignment + size - 1 <= m_last_address last)).
Proof.
  intros Hv Hd. cbn [random_region_loop]. rewrite Hd. ostep. destruct (candidate_ok v Hv) as (Hc & _ & Hr & r & Hf & Hro). rewrite Hc, Hf.
  unfold u64_max in Hend. destruct (Z.le_gt_cases (2 ^ 64) (v * alignment + size)) as [Hov|Hov].
  { right. assert (u64 (v * alignment + size) = v * alignment + size - 2 ^ 64) as ->.
    { unfold u64, wrapu. symmetry. apply Z.mod_unique with 1; lia. }
    rewrite (proj2 (Z.ltb_ge _ _)) by lia. split; [done|]. intros [_ ?]. lia. }
  rewrite (u64_small (v * alignment + size)), (u64_small (v * alignment + size - 1)), (proj2 (Z.ltb_lt (v * alignment) _)) by lia. cbn [negb].
  destruct (Z.ltb_spec (m_last_address last) (v * alignment + size - 1)); [right; split; [done|]; lia|].
  destruct (Z.leb_spec (v * alignment + size - 1) (m_last_address r)), (Z.eqb_spec (m_type_id r) type_id); cbn [negb andb];
    [left; split; [done|by exists r]|right; split; [done|]; intros [(r' & E & ? & ?) _]; rewrite Hro in E; injection E as <-; (done || lia)..].
Qed.

Lemma loop_sound fuel words : loop fuel words = Undef \/
  exists c used rest, words = used ++ rest /\ used <> [] /\ loop fuel words = Done true (c, rest) /\ (alignment | c) /\ fits c.
Proof.
  revert words. induction fuel as [|fuel IH]; intros words; [by left|]. destruct index_bounds as (H1 & H2 & _).
  destruct (draw_spec lo hi words H1 H2) as [E|(used & v & rest & Hw & Hu & Hv & E)].
  { left. cbn [random_region_loop]. by rewrite E. }
  destruct (round_spec fuel v words rest Hv E) as [[-> Hf]|[-> _]].
  - right. exists (v * alignment), used, rest. split_and!; try done. apply Z.divide_factor_r.
  - destruct (IH rest) as [?|(c & used' & rest' & Hr' & Hu' & H)]; [by left|]. right. exists c, (used ++ used'), rest'.
    split; [by rewrite <- app_assoc, <- Hr'|]. split; [|done]. by destruct used.
Qed.

Lemma loop_complete fuel words c : (length words <= fuel)%nat -> (alignment | c) -> fits c -> c + size - 1 <= m_last_address last ->
  m_address first <= c -> c / alignment - lo ∈ words -> loop fuel words <> Undef.
Proof.
  intros Hlen Hc Hf Hl Hge. revert words Hlen. induction fuel as [|fuel IH]; intros words Hlen Hin.
  { destruct words; [by apply not_elem_of_nil in Hin|simpl in Hlen; lia]. }
  destruct index_bounds as (H1 & H2 & H3 & H4). pose proof align_pos.
  assert (lo <= c / alignment <= hi) by (split; apply Z.div_le_mono; lia).
  destruct (draw_hits lo hi words (c / alignment - lo) H1 H2 Hin) as (w & rest & E & Hh); [lia|].
  destruct (draw_spec lo hi words H1 H2) as [E'|(used & w' & rest' & Hw & Hu & Hv & E')]; rewrite E in E'; [done|]. injection E' as <- <-.
  destruct (round_spec fuel w words rest Hv E) as [[-> _]|[-> Hn]]; [done|]. apply IH.
  - subst words. rewrite length_app in Hlen. destruct used; [done|simpl in Hlen; lia].
  - destruct Hh as [->|]; [|done]. exfalso. apply Hn. replace (lo + (c / alignment - lo)) with (c / alignment) by lia.
    destruct Hc as [q ->]. rewrite Z.div_mul by lia. done.
Qed.

Lemma GetRandomAlignedRegion_val words : GetRandomAlignedRegion size alignment type_id t words = loop (length words) words.
Proof.
  pose proof align_pos. unfold GetRandomAlignedRegion. rewrite (extents_spec type_id t first last) by done. ostep.
  unfold Extents_GetAddress, Extents_GetLastAddress. cbn [first_region last_region]. rewrite IsAligned_pow2 by lia.
  rewrite (proj2 (Z.mod_divide (m_address first) alignment ltac:(lia)) Hdiv), bind_assert_true by done. unfold udiv. rewrite (proj2 (Z.eqb_neq _ 0)) by lia. by do 2 ostep.
Qed.
End RandomRegion.

(** A random place for a region.  Whenever the search returns, its answer is aligned and a region can be
    inserted there at once, whatever derivable type it has; the search only consumes random words from the front of
    the sequence.  It does return as soon as the words contain one that names a fitting place. *)
Theorem random_aligned_region t size k type_id first last :
  tree_wf t -> FindFirstDerived type_id t = Some first -> FindLastDerived type_id t = Some last ->
  (forall x, m_address first <= x <= m_last_address last -> region_of t x <> None) ->
  0 <= k < 64 -> (2 ^ k | m_address first) -> 0 < size < 2 ^ 64 ->
  0 < m_address first <= m_last_address last -> m_last_address last < u64_max ->
  (forall words, GetRandomAlignedRegion size (2 ^ k) type_id t words = Undef \/
     exists c used rest r, GetRandomAlignedRegion size (2 ^ k) type_id t words = Done true (c, rest) /\ words = used ++ rest /\
       (2 ^ k | c) /\ region_of t c = Some r /\
       forall type' attr num, CanDerive r type' = true -> num + 2 <= MaxMemoryRegions ->
         exists t' num', Insert c size type' attr (m_attributes r) t num = Done true (true, t', num') /\ tree_wf t') /\
  (forall c words, (2 ^ k | c) -> m_address first <= c -> c + size - 1 <= m_last_address last -> fits t size type_id c ->
     c / 2 ^ k - m_address first / 2 ^ k ∈ words -> GetRandomAlignedRegion size (2 ^ k) type_id t words <> Undef).
Proof.
  intros W Hf Hl Hcov Hk Hd Hs Hpos Hend. split.
  - intros words. rewrite (GetRandomAlignedRegion_val t size k type_id first last) by done.
    destruct (loop_sound t W size k type_id first last Hcov) with (fuel := length words) (words := words)
      as [?|(c & used & rest & Hw & _ & E & Hc & (r & Hr & Ht & Hle))]; try (done || lia); [by left|].
    right. exists c, used, rest, r. split_and!; try done. intros type' attr num Hcan Hm.
    apply find_first_Some in Hr as (d & u & -> & Hin & _). 
    assert (m_last_address r < 2 ^ 64) by (apply regions_from_app in W as (_ & ? & _ & _ & (_ & (_ & ? & _) & _)); done).
    destruct (Insert_spec d r u c size type' attr (m_attributes r) num) as (t' & H1 & H2 & _); try (done || lia); [|by eauto].
    unfold accepts. by rewrite Z.eqb_refl, (proj2 (Z.leb_le _ _) Hle), Hcan.
  - intros c words Hc Hge Hle Hfit Hin. rewrite (GetRandomAlignedRegion_val t size k type_id first last) by done.
    by apply (loop_complete t W size k type_id first last Hcov) with (c := c); try (done || lia).
Qed.

Definition demo_region : KMemoryRegion := mkRegion 0x10000 0x1FFFF 0x500000 7 KMemoryRegionType_Kernel.
Definition demo_tree : tree := [demo_region; KMemoryRegion_new 0x20000 0x2FFFF 0 KMemoryRegionType_Dram].

Lemma demo_tree_wf : tree_wf demo_tree.
Proof. repeat split; try (vm_compute; (discriminate || reflexivity)); [right; reflexivity|left; reflexivity]. Qed.

(** A middle part of the first region becomes the slab of the kernel, with its share of the pair; with a wrong attribute nothing changes. *)
Lemma region_tree_insert_witness :
  (exists t' num', Insert 0x13000 0x2000 KMemoryRegionType_KernelSlab 9 7 demo_tree 2 = Done true (true, t', num') /\
     info_at t' 0x13FFF = Some (GetValue KMemoryRegionType_KernelSlab, 9, Some 0x503FFF) /\ info_at t' 0x15000 = info_at demo_tree 0x15000) /\
  Insert 0x13000 0x2000 KMemoryRegionType_KernelSlab 9 0 demo_tree 2 = Done true (false, demo_tree, 2).
Proof.
  split.
  - destruct (region_tree_insert demo_tree 2 0x13000 0x2000 KMemoryRegionType_KernelSlab 9 7 demo_tree_wf) as (t' & num' & E & _ & _ & _ & Hi);
      [lia|lia|unfold MaxMemoryRegions; lia|].
    exists t', num'. split; [exact E|]. split; rewrite Hi; reflexivity.
  - apply (region_tree_insert demo_tree 2 0x13000 0x2000 KMemoryRegionType_KernelSlab 9 0 demo_tree_wf);
      [lia|lia|unfold MaxMemoryRegions; lia].
Defined.

(** Word 15 is past the end of the region and is passed over, word 3 is taken. *)
Lemma random_aligned_region_witness :
  GetRandomAlignedRegion 0x2000 (2 ^ 12) KMemoryRegionType_Kernel demo_tree [15; 3; 8] = Done true (0x13000, [8]) /\
  GetRandomAlignedRegion 0x2000 (2 ^ 12) KMemoryRegionType_Kernel demo_tree [15; 3; 8] <> Undef.
Proof.
  split; [vm_compute; reflexivity|].
  destruct (random_aligned_region demo_tree 0x2000 12 KMemoryRegionType_Kernel demo_region demo_region demo_tree_wf) as [_ H];
    [reflexivity|reflexivity| |lia|exists 0x10; reflexivity|lia|simpl; lia|reflexivity|].
  - intros x Hx. unfold region_of. simpl find_first. rewrite (proj2 (in_region_spec demo_region x)) by exact Hx. discriminate.
  - apply (H 0x13000); [exists 0x13; reflexivity|simpl; lia|simpl; lia| |].
    + exists demo_region. split; [reflexivity|]. split; [reflexivity|simpl; lia].
    + right. left.
Defined.
