(* ===== verification/KMemoryLayout.v ===== *)
(** * KMemoryLayout: core/hle/kernel/k_memory_layout.h and .cpp

    The map of the memory of the kernel: a tree of the virtual and one of the physical address space,
    and two trees with the parts that are mapped linearly, all of them with nodes from one array.

    A pointer to a region of a tree is its position in the tree; the positions kept in the caches of
    [IsTypedAddress] belong to the linear trees, which do not change once they are built.

    The theorems say that the address tests, cached or not, decide whether an address or a whole range is
    of a type, and that the linear addresses of the two sides are inverse to each other. *)

From S2P Require Import Prelude Common KMemoryRegionType KMemoryRegion.
#[local] Open Scope Z_scope.

Definition KiB (n : Z) : Z := n * 2 ^ 10.
Definition MiB (n : Z) : Z := n * 2 ^ 20.
Definition GiB (n : Z) : Z := n * 2 ^ 30.

Definition PageSize : Z := 0x1000.
Definition L1BlockSize : Z := GiB 1.
Definition L2BlockSize : Z := MiB 2.

Definition GetMaximumOverheadSize (size : Z) : Z :=
  u64 (u64 (DivideUp 64 size L1BlockSize + DivideUp 64 size L2BlockSize) * PageSize).

Definition MainMemorySize : Z := GiB 4.
Definition MainMemorySizeMax : Z := GiB 8.
Definition ReservedEarlyDramSize : Z := KiB 384.
Definition DramPhysicalAddress : Z := 0x80000000.
Definition KernelAslrAlignment : Z := MiB 2.
Definition KernelVirtualAddressSpaceWidth : Z := u64 (1 .<< 39).
Definition KernelPhysicalAddressSpaceWidth : Z := u64 (1 .<< 48).
Definition KernelVirtualAddressSpaceBase : Z := u64 (0 - KernelVirtualAddressSpaceWidth).
Definition KernelVirtualAddressSpaceEnd : Z :=
  u64 (KernelVirtualAddressSpaceBase + u64 (KernelVirtualAddressSpaceWidth - KernelAslrAlignment)).
Definition KernelVirtualAddressSpaceLast : Z := u64 (KernelVirtualAddressSpaceEnd - 1).
Definition KernelVirtualAddressSpaceSize : Z := u64 (KernelVirtualAddressSpaceEnd - KernelVirtualAddressSpaceBase).
Definition KernelVirtualAddressCodeBase : Z := KernelVirtualAddressSpaceBase.
Definition KernelVirtualAddressCodeSize : Z := KiB 392.
Definition KernelVirtualAddressCodeEnd : Z := u64 (KernelVirtualAddressCodeBase + KernelVirtualAddressCodeSize).
Definition KernelPhysicalAddressSpaceBase : Z := 0.
Definition KernelPhysicalAddressSpaceEnd : Z := u64 (KernelPhysicalAddressSpaceBase + KernelPhysicalAddressSpaceWidth).
Definition KernelPhysicalAddressSpaceLast : Z := u64 (KernelPhysicalAddressSpaceEnd - 1).
Definition KernelPhysicalAddressSpaceSize : Z := u64 (KernelPhysicalAddressSpaceEnd - KernelPhysicalAddressSpaceBase).
Definition KernelPhysicalAddressCodeBase : Z := DramPhysicalAddress + ReservedEarlyDramSize.
Definition KernelPageTableHeapSize : Z := GetMaximumOverheadSize MainMemorySizeMax.
Definition KernelInitialPageHeapSize : Z := KiB 128.
Definition KernelSlabHeapDataSize : Z := MiB 5.
Definition KernelSlabHeapGapsSizeMax : Z := MiB 2 - KiB 64.
Definition KernelSlabHeapSize : Z := KernelSlabHeapDataSize + KernelSlabHeapGapsSizeMax.
Definition KernelPageBufferHeapSize : Z := 0x3E0000.
Definition KernelSlabHeapAdditionalSize : Z := 0x148000.
Definition KernelPageBufferAdditionalSize : Z := 0x33C000.
Definition KernelResourceSize : Z :=
  KernelPageTableHeapSize + KernelInitialPageHeapSize + KernelSlabHeapSize + KernelPageBufferHeapSize.

Definition IsKernelAddress (address : Z) : bool :=
  (KernelVirtualAddressSpaceBase <=? address) && (address <? KernelVirtualAddressSpaceEnd).

(** [KSystemControl::SecureAppletMemorySize]. *)
Definition SecureAppletMemorySize : Z := 4 * 1024 * 1024.

(** ** The layout *)

Record KMemoryLayout := mkLayout {
  m_linear_phys_to_virt_diff : Z;
  m_linear_virt_to_phys_diff : Z;
  m_num_regions : Z;
  m_virtual_tree : tree;
  m_physical_tree : tree;
  m_virtual_linear_tree : tree;
  m_physical_linear_tree : tree
}.
Definition KMemoryLayout_new : KMemoryLayout := mkLayout 0 0 0 [] [] [] [].

Definition with_virtual (t : tree) (n : Z) (l : KMemoryLayout) : KMemoryLayout :=
  mkLayout (m_linear_phys_to_virt_diff l) (m_linear_virt_to_phys_diff l) n t (m_physical_tree l)
    (m_virtual_linear_tree l) (m_physical_linear_tree l).
Definition with_physical (t : tree) (n : Z) (l : KMemoryLayout) : KMemoryLayout :=
  mkLayout (m_linear_phys_to_virt_diff l) (m_linear_virt_to_phys_diff l) n (m_virtual_tree l) t
    (m_virtual_linear_tree l) (m_physical_linear_tree l).

Definition GetLinearVirtualAddress (l : KMemoryLayout) (address : Z) : Z := u64 (address + m_linear_phys_to_virt_diff l).
Definition GetLinearPhysicalAddress (l : KMemoryLayout) (address : Z) : Z := u64 (address + m_linear_virt_to_phys_diff l).

Definition FindVirtual (l : KMemoryLayout) (address : Z) : option KMemoryRegion := Find address (m_virtual_tree l).
Definition FindPhysical (l : KMemoryLayout) (address : Z) : option KMemoryRegion := Find address (m_physical_tree l).
Definition FindVirtualLinear (l : KMemoryLayout) (address : Z) : option KMemoryRegion := Find address (m_virtual_linear_tree l).
Definition FindPhysicalLinear (l : KMemoryLayout) (address : Z) : option KMemoryRegion := Find address (m_physical_linear_tree l).

(** [Dereference]: the assertion fails on a null pointer and the reference is then invalid. *)
Definition Dereference (region : option KMemoryRegion) : outcome KMemoryRegion :=
  match region with Some r => mret r | None => Undef end.

Definition GetStackTopAddress (l : KMemoryLayout) (core_id type : Z) : outcome Z :=
  region ← Dereference (FindByTypeAndAttribute type (u32 core_id) (m_virtual_tree l));
  ASSERT (negb (GetEndAddress region =? 0)) ≫= fun _ => mret (GetEndAddress region).
Definition GetMainStackTopAddress (l : KMemoryLayout) (core_id : Z) : outcome Z :=
  GetStackTopAddress l core_id KMemoryRegionType_KernelMiscMainStack.
Definition GetIdleStackTopAddress (l : KMemoryLayout) (core_id : Z) : outcome Z :=
  GetStackTopAddress l core_id KMemoryRegionType_KernelMiscIdleStack.
Definition GetExceptionStackTopAddress (l : KMemoryLayout) (core_id : Z) : outcome Z :=
  GetStackTopAddress l core_id KMemoryRegionType_KernelMiscExceptionStack.

Definition GetSlabRegion (l : KMemoryLayout) : outcome KMemoryRegion :=
  Dereference (FindByType KMemoryRegionType_KernelSlab (m_virtual_tree l)).
Definition GetDeviceRegion (l : KMemoryLayout) (type : Z) : outcome KMemoryRegion :=
  Dereference (FindFirstDerived type (m_physical_tree l)).
Definition GetDevicePhysicalAddress (l : KMemoryLayout) (type : Z) : outcome Z := r ← GetDeviceRegion l type; mret (m_address r).
Definition GetDeviceVirtualAddress (l : KMemoryLayout) (type : Z) : outcome Z := r ← GetDeviceRegion l type; mret (m_pair_address r).
Definition GetPoolManagementRegion (l : KMemoryLayout) : outcome KMemoryRegion :=
  Dereference (FindByType KMemoryRegionType_VirtualDramPoolManagement (m_virtual_tree l)).
Definition GetPageTableHeapRegion (l : KMemoryLayout) : outcome KMemoryRegion :=
  Dereference (FindByType KMemoryRegionType_VirtualDramKernelPtHeap (m_virtual_tree l)).
Definition GetKernelStackRegion (l : KMemoryLayout) : outcome KMemoryRegion :=
  Dereference (FindByType KMemoryRegionType_KernelStack (m_virtual_tree l)).
Definition GetTempRegion (l : KMemoryLayout) : outcome KMemoryRegion :=
  Dereference (FindByType KMemoryRegionType_KernelTemp (m_virtual_tree l)).
Definition GetKernelTraceBufferRegion (l : KMemoryLayout) : outcome KMemoryRegion :=
  Dereference (FindByType KMemoryRegionType_VirtualDramKernelTraceBuffer (m_virtual_linear_tree l)).
Definition GetSecureAppletMemoryRegion (l : KMemoryLayout) : outcome KMemoryRegion :=
  Dereference (FindByType KMemoryRegionType_VirtualDramKernelSecureAppletMemory (m_virtual_tree l)).
Definition GetVirtualLinearRegion (l : KMemoryLayout) (address : Z) : outcome KMemoryRegion := Dereference (FindVirtualLinear l address).
Definition GetPhysicalLinearRegion (l : KMemoryLayout) (address : Z) : outcome KMemoryRegion := Dereference (FindPhysicalLinear l address).
Definition GetPhysicalKernelTraceBufferRegion (l : KMemoryLayout) : option KMemoryRegion :=
  FindFirstDerived KMemoryRegionType_KernelTraceBuffer (m_physical_tree l).
Definition GetPhysicalOnMemoryBootImageRegion (l : KMemoryLayout) : option KMemoryRegion :=
  FindFirstDerived KMemoryRegionType_OnMemoryBootImage (m_physical_tree l).
Definition GetPhysicalDTBRegion (l : KMemoryLayout) : option KMemoryRegion :=
  FindFirstDerived KMemoryRegionType_DTB (m_physical_tree l).

(** *** Typed addresses *)

(** Whether the cached region contains the address. *)
Definition cache_contains (region : option nat) (address : Z) (t : tree) : outcome bool :=
  match region with
  | None => mret false
  | Some i => match t !! i with Some r => Contains r address | None => Undef end
  end.

Definition IsTypedAddress (region : option nat) (address : Z) (t : tree) (type : Z) : outcome (bool * option nat) :=
  cached ← cache_contains region address t;
  if (cached : bool) then mret (true, region)
  else
    match FindModifiable address t with
    | Some i => match t !! i with
                | Some found => if IsDerivedFrom found type then mret (true, Some i) else mret (false, region)
                | None => Undef
                end
    | None => mret (false, region)
    end.

(** The walk along [GetNext] from the region at position [i]. *)
Fixpoint walk (i : nat) (rest : tree) (last_address type : Z) : option nat :=
  match rest with
  | [] => None
  | cur :: rest' =>
      if IsDerivedFrom cur type then
        if last_address <=? m_last_address cur then Some i else walk (Datatypes.S i) rest' last_address type
      else None
  end.

Definition IsTypedAddressRange (region : option nat) (address size : Z) (t : tree) (type : Z) : outcome (bool * option nat) :=
  let last_address := u64 (u64 (address + size) - 1) in
  cached ← cache_contains region address t;
  let cur := if (cached : bool) then region else FindModifiable address t in
  match cur with
  | None => mret (false, region)
  | Some i => match walk i (drop i t) last_address type with
              | Some j => mret (true, Some j)
              | None => mret (false, region)
              end
  end.

Definition IsHeapPhysicalAddress (l : KMemoryLayout) (region : option nat) (address : Z) :=
  IsTypedAddress region address (m_physical_linear_tree l) KMemoryRegionType_DramUserPool.
Definition IsHeapVirtualAddress (l : KMemoryLayout) (region : option nat) (address : Z) :=
  IsTypedAddress region address (m_virtual_linear_tree l) KMemoryRegionType_VirtualDramUserPool.
Definition IsHeapPhysicalAddressRange (l : KMemoryLayout) (region : option nat) (address size : Z) :=
  IsTypedAddressRange region address size (m_physical_linear_tree l) KMemoryRegionType_DramUserPool.
Definition IsHeapVirtualAddressRange (l : KMemoryLayout) (region : option nat) (address size : Z) :=
  IsTypedAddressRange region address size (m_virtual_linear_tree l) KMemoryRegionType_VirtualDramUserPool.
Definition IsLinearMappedPhysicalAddress (l : KMemoryLayout) (region : option nat) (address : Z) :=
  IsTypedAddress region address (m_physical_linear_tree l) KMemoryRegionAttr_LinearMapped.
Definition IsLinearMappedPhysicalAddressRange (l : KMemoryLayout) (region : option nat) (address size : Z) :=
  IsTypedAddressRange region address size (m_physical_linear_tree l) KMemoryRegionAttr_LinearMapped.

Definition GetTotalAndKernelMemorySizes (l : KMemoryLayout) : Z * Z :=
  fold_left (fun '(total_size, kernel_size) region =>
    if IsDerivedFrom region KMemoryRegionType_Dram then
      (u64 (total_size + GetSize region),
       if negb (IsDerivedFrom region KMemoryRegionType_DramUserPool) then u64 (kernel_size + GetSize region) else kernel_size)
    else (total_size, kernel_size)) (m_physical_tree l) (0, 0).

Definition GetResourceRegionSizeForInit (use_extra_resource : bool) : Z :=
  u64 (KernelResourceSize + SecureAppletMemorySize +
       (if use_extra_resource then KernelSlabHeapAdditionalSize + KernelPageBufferAdditionalSize else 0)).

(** *** The linear trees *)

(** [f] for the regions that pass the test, into the tree [t]. *)
Fixpoint insert_matching (test : KMemoryRegion -> bool) (source t : tree) (num : Z) : outcome (tree * Z) :=
  match source with
  | [] => mret (t, num)
  | region :: source =>
      if test region then
        tn ← InsertDirectly (m_address region) (m_last_address region) (m_attributes region) (m_type_id region) t num;
        insert_matching test source (fst tn) (snd tn)
      else insert_matching test source t num
  end.

Definition InitializeLinearMemoryRegionTrees (aligned_linear_phys_start linear_virtual_start : Z) (l : KMemoryLayout) :
    outcome KMemoryLayout :=
  let phys_to_virt := u64 (linear_virtual_start - aligned_linear_phys_start) in
  let virt_to_phys := u64 (aligned_linear_phys_start - linear_virtual_start) in
  pn ← insert_matching (fun r => HasTypeAttribute r KMemoryRegionAttr_LinearMapped) (m_physical_tree l) (m_physical_linear_tree l)
         (m_num_regions l);
  vn ← insert_matching (fun r => IsDerivedFrom r KMemoryRegionType_Dram) (m_virtual_tree l) (m_virtual_linear_tree l) (snd pn);
  mret (mkLayout phys_to_virt virt_to_phys (snd vn) (m_virtual_tree l) (m_physical_tree l) (fst vn) (fst pn)).

(** *** Extents *)

Definition GetKernelRegionExtents (l : KMemoryLayout) := GetDerivedRegionExtents KMemoryRegionType_Kernel (m_virtual_tree l).
Definition GetKernelCodeRegionExtents (l : KMemoryLayout) := GetDerivedRegionExtents KMemoryRegionType_KernelCode (m_virtual_tree l).
Definition GetKernelStackRegionExtents (l : KMemoryLayout) := GetDerivedRegionExtents KMemoryRegionType_KernelStack (m_virtual_tree l).
Definition GetKernelMiscRegionExtents (l : KMemoryLayout) := GetDerivedRegionExtents KMemoryRegionType_KernelMisc (m_virtual_tree l).
Definition GetKernelSlabRegionExtents (l : KMemoryLayout) := GetDerivedRegionExtents KMemoryRegionType_KernelSlab (m_virtual_tree l).
Definition GetLinearRegionPhysicalExtents (l : KMemoryLayout) := GetDerivedRegionExtents KMemoryRegionAttr_LinearMapped (m_physical_tree l).
Definition GetLinearRegionVirtualExtents (l : KMemoryLayout) : outcome KMemoryRegion :=
  physical ← GetLinearRegionPhysicalExtents l;
  mret (KMemoryRegion_new (GetLinearVirtualAddress l (Extents_GetAddress physical))
          (GetLinearVirtualAddress l (Extents_GetLastAddress physical)) 0 KMemoryRegionType_None).
Definition GetMainMemoryPhysicalExtents (l : KMemoryLayout) := GetDerivedRegionExtents KMemoryRegionType_Dram (m_physical_tree l).
Definition GetCarveoutRegionExtents (l : KMemoryLayout) := GetDerivedRegionExtents KMemoryRegionAttr_CarveoutProtected (m_physical_tree l).
Definition GetKernelRegionPhysicalExtents (l : KMemoryLayout) := GetDerivedRegionExtents KMemoryRegionType_DramKernelBase (m_physical_tree l).
Definition GetKernelCodeRegionPhysicalExtents (l : KMemoryLayout) := GetDerivedRegionExtents KMemoryRegionType_DramKernelCode (m_physical_tree l).
Definition GetKernelSlabRegionPhysicalExtents (l : KMemoryLayout) := GetDerivedRegionExtents KMemoryRegionType_DramKernelSlab (m_physical_tree l).
Definition GetKernelSecureAppletMemoryRegionPhysicalExtents (l : KMemoryLayout) :=
  GetDerivedRegionExtents KMemoryRegionType_DramKernelSecureAppletMemory (m_physical_tree l).
Definition GetKernelPageTableHeapRegionPhysicalExtents (l : KMemoryLayout) :=
  GetDerivedRegionExtents KMemoryRegionType_DramKernelPtHeap (m_physical_tree l).
Definition GetKernelInitPageTableRegionPhysicalExtents (l : KMemoryLayout) :=
  GetDerivedRegionExtents KMemoryRegionType_DramKernelInitPt (m_physical_tree l).
Definition GetKernelPoolManagementRegionPhysicalExtents (l : KMemoryLayout) :=
  GetDerivedRegionExtents KMemoryRegionType_DramPoolManagement (m_physical_tree l).
Definition GetKernelPoolPartitionRegionPhysicalExtents (l : KMemoryLayout) :=
  GetDerivedRegionExtents KMemoryRegionType_DramPoolPartition (m_physical_tree l).
Definition GetKernelSystemPoolRegionPhysicalExtents (l : KMemoryLayout) :=
  GetDerivedRegionExtents KMemoryRegionType_DramSystemPool (m_physical_tree l).
Definition GetKernelSystemNonSecurePoolRegionPhysicalExtents (l : KMemoryLayout) :=
  GetDerivedRegionExtents KMemoryRegionType_DramSystemNonSecurePool (m_physical_tree l).
Definition GetKernelAppletPoolRegionPhysicalExtents (l : KMemoryLayout) :=
  GetDerivedRegionExtents KMemoryRegionType_DramAppletPool (m_physical_tree l).
Definition GetKernelApplicationPoolRegionPhysicalExtents (l : KMemoryLayout) :=
  GetDerivedRegionExtents KMemoryRegionType_DramApplicationPool (m_physical_tree l).
Definition GetKernelTraceBufferRegionPhysicalExtents (l : KMemoryLayout) :=
  GetDerivedRegionExtents KMemoryRegionType_KernelTraceBuffer (m_physical_tree l).

(** ** Typed addresses *)

Definition typed (t : tree) (type x : Z) : Prop := exists r, region_of t x = Some r /\ IsDerivedFrom r type = true.

(** The position in a cache is one of a region of the type. *)
Definition cache_ok (t : tree) (type : Z) (region : option nat) : Prop :=
  match region with None => True | Some i => exists r, t !! i = Some r /\ IsDerivedFrom r type = true end.

(** No region reaches the last address there is. *)
Definition below_end (t : tree) : Prop := Forall (fun r => m_last_address r < u64_max) t.

(** Each region starts where the one before it ends. *)
Fixpoint gapless (t : tree) : Prop :=
  match t with
  | r :: ((r' :: _) as t') => m_address r' = m_last_address r + 1 /\ gapless t'
  | _ => True
  end.

Lemma lookup_region_of lo t i r x : regions_from lo t -> t !! i = Some r -> in_region r x = true -> region_of t x = Some r.
Proof.
  intros W Hi Hx. apply list_elem_of_split_length in Hi as (d & u & -> & _).
  unfold region_of. rewrite find_first_app. simpl. rewrite Hx.
  assert (find_first (fun r => in_region r x) d = None) as ->; [|done]. apply region_of_above.
  apply regions_from_app in W as (_ & mid & H & _ & (Hr & _)). apply in_region_spec in Hx.
  eapply list.Forall_impl; [exact H|]. simpl. intros. lia.
Qed.

Lemma region_of_inv lo t x r : regions_from lo t -> region_of t x = Some r -> exists i, t !! i = Some r /\ FindModifiable x t = Some i.
Proof.
  intros W H. apply find_first_Some in H as (d & u & -> & Hr & _). exists (length d). split; [by apply list_lookup_middle|].
  by eapply tree_find_split.
Qed.

Lemma cache_contains_spec lo t type region x : regions_from lo t -> below_end t -> cache_ok t type region ->
  exists b, cache_contains region x t = Done true b /\
    (if b then exists i r, region = Some i /\ t !! i = Some r /\ IsDerivedFrom r type = true /\ in_region r x = true else True).
Proof.
  intros W He Hc. destruct region as [i|]; [|by exists false]. destruct Hc as (r & Hi & Hd). simpl. rewrite Hi.
  unfold Contains. pose proof (list.Forall_lookup_1 _ _ _ _ He Hi) as Hl. simpl in Hl.
  pose proof (regions_ordered lo t W) as Ho. assert (0 <= m_address r) as H0.
  { apply list_elem_of_split_length in Hi as (d & u & -> & _). apply regions_from_app in W as (_ & ? & _ & _ & (_ & ((? & _) & _) & _)). done. }
  pose proof (list.Forall_lookup_1 _ _ _ _ Ho Hi) as [_ Hr]. unfold u64_max in Hl.
  unfold GetEndAddress. rewrite u64_small, (proj2 (Z.eqb_neq _ 0)) by lia. cbn [negb]. rewrite bind_assert_true by done.
  exists (in_region r x). split; [done|]. destruct (in_region r x) eqn:E; [|done]. by exists i, r.
Qed.

(** One address. *)
Lemma IsTypedAddress_spec t type region x : tree_wf t -> below_end t -> cache_ok t type region ->
  exists b region', IsTypedAddress region x t type = Done true (b, region') /\ cache_ok t type region' /\ (b = true <-> typed t type x).
Proof.
  intros W He Hc. unfold IsTypedAddress. destruct (cache_contains_spec 0 t type region x W He Hc) as ([] & -> & Hb); ostep.
  - destruct Hb as (i & r & -> & Hi & Hd & Hx). exists true, (Some i). split_and!; [done|by exists r|]. split; [|done]. intros _. exists r. 
    split; [|done]. by eapply lookup_region_of.
  - destruct (region_of t x) as [r|] eqn:E.
    + destruct (region_of_inv 0 t x r W E) as (i & Hi & ->). rewrite Hi. destruct (IsDerivedFrom r type) eqn:Hd.
      * exists true, (Some i). split_and!; [done|by exists r|]. split; [|done]. intros _. by exists r.
      * exists false, region. split_and!; try done. split; [done|]. intros (r' & Hr' & Hd'). naive_solver.
    + rewrite (tree_find_None 0) by done. exists false, region. split_and!; try done. split; [done|]. intros (r' & Hr' & _). naive_solver.
Qed.

(** The walk from the region of [a]. *)
Lemma walk_spec i rest lo a l type : regions_from lo rest -> gapless rest -> a <= l ->
  match rest with [] => True | r :: _ => in_region r a = true end ->
  match walk i rest l type with
  | Some j => (i <= j)%nat /\ (exists r, rest !! (j - i)%nat = Some r /\ IsDerivedFrom r type = true) /\ forall x, a <= x <= l -> typed rest type x
  | None => exists x, a <= x <= l /\ ~ typed rest type x
  end.
Proof.
  revert i lo a. induction rest as [|r rest IH]; intros i lo a W G Hal Ha; simpl.
  { exists a. split; [lia|]. intros (r & Hr & _). done. }
  pose proof W as (_ & Wr & Wt). pose proof Ha as Ha'. apply in_region_spec in Ha'.
  assert (forall x, in_region r x = true -> region_of (r :: rest) x = Some r) as Hhere by (intros x Hx; unfold region_of; simpl; by rewrite Hx).
  destruct (IsDerivedFrom r type) eqn:Hd; [|exists a; split; [lia|]; intros (r' & Hr' & Hd'); rewrite Hhere in Hr' by done; congruence].
  destruct (Z.leb_spec l (m_last_address r)) as [Hl|Hl].
  { split; [lia|]. rewrite Nat.sub_diag. split; [by exists r|]. intros x Hx. exists r. split; [|done]. apply Hhere, in_region_spec. lia. }
  assert (forall x, m_last_address r < x -> region_of (r :: rest) x = region_of rest x) as Hthere.
  { intros x Hx. unfold region_of. simpl. by rewrite in_region_out by lia. }
  destruct rest as [|r' rest].
  { simpl. exists l. split; [lia|]. intros (r'' & Hr'' & _). by rewrite Hthere in Hr'' by lia. }
  destruct G as [G1 G2]. destruct Wt as (W1 & W2 & W3).
  specialize (IH (Datatypes.S i) (m_last_address r + 1) (m_last_address r + 1) ltac:(done) G2 ltac:(lia)).
  destruct (walk _ _ _ _) as [j|].
  - destruct IH as (H1 & (q & Hq & Hqd) & H2); [apply in_region_spec; destruct W2; lia|]. split; [lia|]. split.
    + exists q. split; [|done]. replace (j - i)%nat with (Datatypes.S (j - Datatypes.S i)) by lia. done.
    + intros x Hx. destruct (Z.le_gt_cases x (m_last_address r)).
      * exists r. split; [|done]. apply Hhere, in_region_spec. lia.
      * unfold typed. rewrite Hthere by lia. apply H2. lia.
  - destruct IH as (x & Hx & Hn); [apply in_region_spec; destruct W2; lia|]. exists x. split; [lia|]. unfold typed. by rewrite Hthere by lia.
Qed.

Lemma gapless_app d u : gapless (d ++ u) -> gapless u.
Proof. induction d as [|r d IH]; [done|]. simpl. destruct (d ++ u) eqn:E; [by destruct d, u|]. intros [_ ?]. by apply IH. Qed.

(** A whole range. *)
Lemma IsTypedAddressRange_spec t type region a size : tree_wf t -> gapless t -> below_end t -> cache_ok t type region ->
  0 <= a -> 0 < size -> a + size < 2 ^ 64 ->
  exists b region', IsTypedAddressRange region a size t type = Done true (b, region') /\ cache_ok t type region' /\
    (b = true <-> forall x, a <= x < a + size -> typed t type x).
Proof.
  intros W G He Hc H0 Hs Hn. unfold IsTypedAddressRange. rewrite (u64_small (a + size)), (u64_small (a + size - 1)) by lia.
  destruct (cache_contains_spec 0 t type region a W He Hc) as (b & -> & Hb). ostep.
  assert (forall i r, t !! i = Some r -> in_region r a = true ->
    exists b region', match walk i (drop i t) (a + size - 1) type with Some j => mret (true, Some j) | None => mret (false, region) end
        = Done true (b, region') /\ cache_ok t type region' /\ (b = true <-> forall x, a <= x < a + size -> typed t type x)) as Hwalk.
  { intros i r Hi Hx. pose proof (drop_S t r i Hi) as Hdr. pose proof (take_drop i t) as Htd. set (d := take i t) in *.
    rewrite Hdr in Htd. assert (regions_from (m_address r) (r :: drop (Datatypes.S i) t)) as Wd.
    { rewrite <- Htd in W. apply regions_from_app in W as (_ & mid & _ & _ & (? & ? & ?)). split_and!; (done || lia). }
    assert (forall x, a <= x -> region_of (drop i t) x = region_of t x) as Hsame.
    { intros x Hax. rewrite Hdr. rewrite <- Htd at 2. unfold region_of. rewrite find_first_app.
      assert (find_first (fun r => in_region r x) d = None) as ->; [|done]. apply region_of_above. rewrite <- Htd in W.
      apply regions_from_app in W as (_ & mid & H & _ & (Hr & _)). apply in_region_spec in Hx.
      eapply list.Forall_impl; [exact H|]. simpl. intros. lia. }
    rewrite Hdr. pose proof (walk_spec i (r :: drop (Datatypes.S i) t) (m_address r) a (a + size - 1) type Wd) as Hw.
    rewrite <- Htd in G. specialize (Hw (gapless_app _ _ G) ltac:(lia) Hx). rewrite <- Hdr in Hw |- *.
    destruct (walk i _ _ _) as [j|].
    - destruct Hw as (Hij & (q & Hq & Hqd) & Hall). exists true, (Some j). split_and!; [done| |].
      + exists q. split; [|done]. rewrite lookup_drop in Hq. by replace (i + (j - i))%nat with j in Hq by lia.
      + split; [|done]. intros _ x Hx'. unfold typed. rewrite <- Hsame by lia. apply Hall. lia.
    - destruct Hw as (x & Hx' & Hnot). exists false, region. split_and!; try done. split; [done|]. intros Hall. exfalso. apply Hnot.
      unfold typed. rewrite Hsame by lia. apply Hall. lia. }
  destruct b.
  - destruct Hb as (i & r & -> & Hi & _ & Hx). by apply (Hwalk i r).
  - destruct (region_of t a) as [r|] eqn:E.
    + destruct (region_of_inv 0 t a r W E) as (i & Hi & ->). apply (Hwalk i r Hi).
      apply find_first_Some in E as (? & ? & _ & ? & _). done.
    + rewrite (tree_find_None 0) by done. exists false, region. split_and!; try done. split; [done|]. intros Hall.
      destruct (Hall a ltac:(lia)) as (r & Hr & _). naive_solver.
Qed.

(** The tests for typed addresses.  Whatever region of the type the cache names, the test of one address
    answers whether the address belongs to a region of the type, and the test of a range, in a tree without gaps, whether all
    of its addresses do; the region left in the cache is one of the type again. *)
Theorem typed_address_tests t type region x size :
  tree_wf t -> below_end t -> cache_ok t type region ->
  (exists b region', IsTypedAddress region x t type = Done true (b, region') /\ cache_ok t type region' /\ (b = true <-> typed t type x)) /\
  (gapless t -> 0 <= x -> 0 < size -> x + size < 2 ^ 64 ->
   exists b region', IsTypedAddressRange region x size t type = Done true (b, region') /\ cache_ok t type region' /\
     (b = true <-> forall y, x <= y < x + size -> typed t type y)).
Proof. intros W He Hc. split; [by apply IsTypedAddress_spec|]. intros. by apply IsTypedAddressRange_spec. Qed.

(** The two pools of the demonstration are one after the other, so a range over both is in the heap; a
    range that leaves them is not. *)
Definition demo_heap_tree : tree :=
  [KMemoryRegion_new 0x1000 0x1FFF 0 KMemoryRegionType_DramSystemPool; KMemoryRegion_new 0x2000 0x3FFF 1 KMemoryRegionType_DramAppletPool].

Lemma typed_address_tests_witness :
  IsTypedAddressRange (Some 0%nat) 0x1800 0x1000 demo_heap_tree KMemoryRegionType_DramUserPool = Done true (true, Some 1%nat) /\
  (exists b region', IsTypedAddressRange (Some 0%nat) 0x1800 0x1000 demo_heap_tree KMemoryRegionType_DramUserPool = Done true (b, region') /\
     (b = true <-> forall y, 0x1800 <= y < 0x2800 -> typed demo_heap_tree KMemoryRegionType_DramUserPool y)).
Proof.
  split; [vm_compute; reflexivity|].
  destruct (typed_address_tests demo_heap_tree KMemoryRegionType_DramUserPool (Some 0%nat) 0x1800 0x1000) as [_ H].
  - repeat split; try (vm_compute; (discriminate || reflexivity)); left; reflexivity.
  - repeat (apply Forall_cons_2; [reflexivity|]). apply Forall_nil_2.
  - exists (KMemoryRegion_new 0x1000 0x1FFF 0 KMemoryRegionType_DramSystemPool). split; reflexivity.
  - destruct H as (b & region' & E & _ & Hb); [split; [reflexivity|exact I]|lia|lia|lia|]. exists b, region'. split; [exact E|exact Hb].
Defined.

(** ** The linear trees *)

(** The copy a linear tree keeps of a region. *)
Definition copy (r : KMemoryRegion) : KMemoryRegion := KMemoryRegion_new (m_address r) (m_last_address r) (m_attributes r) (m_type_id r).

Fixpoint select (test : KMemoryRegion -> bool) (t : tree) : tree :=
  match t with [] => [] | r :: t' => if test r then copy r :: select test t' else select test t' end.

Lemma insert_matching_spec test source d num lo : regions_from lo source ->
  Forall (fun q => m_address q <= m_last_address q < lo) d -> num + Z.of_nat (length (select test source)) <= MaxMemoryRegions ->
  insert_matching test source d num = Done true (d ++ select test source, num + Z.of_nat (length (select test source))).
Proof.
  revert d num lo. induction source as [|r source IH]; intros d num lo W Hd Hn; simpl in *.
  { by rewrite app_nil_r, Z.add_0_r. }
  destruct W as (H1 & (H2 & _) & H3). assert (Forall (fun q => m_address q <= m_last_address q < m_last_address r + 1) d) as Hd'
    by (eapply list.Forall_impl; [exact Hd|]; simpl; intros; lia).
  destruct (test r); [|by apply (IH _ _ _ H3)]. simpl in Hn. unfold InsertDirectly. rewrite node_Allocate_ok by lia. ostep.
  rewrite <- (app_nil_r d) at 1. rewrite tree_insert_split; [|eapply list.Forall_impl; [exact Hd|]; simpl; intros; lia|done].
  cbn [fst snd]. rewrite (IH _ _ _ H3); [| |lia].
  - rewrite <- app_assoc. simpl. do 2 f_equal. lia.
  - apply Forall_app_2; [done|]. apply Forall_singleton. simpl. lia.
Qed.

Lemma select_wf test t lo : regions_from lo t -> regions_from lo (select test t).
Proof.
  revert lo. induction t as [|r t IH]; intros lo; [done|]. intros (H1 & (H2 & H3 & H4) & H5). simpl. destruct (test r).
  - split; [done|]. split; [|by apply IH]. unfold region_wf. simpl. unfold u64_max. lia.
  - apply IH. eapply regions_from_weaken; [|done]. lia.
Qed.

Lemma select_at test t lo x : regions_from lo t ->
  region_of (select test t) x = (r ← region_of t x; if test r then Some (copy r) else None).
Proof.
  revert lo. induction t as [|r t IH]; intros lo; [done|]. intros (H1 & H2 & H3). unfold region_of in *. simpl.
  destruct (in_region r x) eqn:E; destruct (test r) eqn:T; simpl.
  - unfold in_region in *. simpl. rewrite E. simpl. by rewrite T.
  - rewrite T. apply in_region_spec in E. apply (region_of_below (m_last_address r + 1)); [by apply select_wf|lia].
  - unfold in_region at 1. simpl. unfold in_region in E. rewrite E. by apply (IH _ H3).
  - by apply (IH _ H3).
Qed.

(** The linear trees.  Building them succeeds when there are nodes enough, leaves the full trees as they are, and
    the searches in the linear trees answer a copy of exactly those regions that are linearly mapped, or main memory.  The
    translations between linear physical and virtual addresses are inverse to each other and take the start of the
    physical region to the start of the virtual one. *)
Theorem linear_trees l start virt :
  tree_wf (m_physical_tree l) -> tree_wf (m_virtual_tree l) -> m_physical_linear_tree l = [] -> m_virtual_linear_tree l = [] ->
  m_num_regions l + Z.of_nat (length (m_physical_tree l)) + Z.of_nat (length (m_virtual_tree l)) <= MaxMemoryRegions ->
  exists l', InitializeLinearMemoryRegionTrees start virt l = Done true l' /\
    m_physical_tree l' = m_physical_tree l /\ m_virtual_tree l' = m_virtual_tree l /\
    tree_wf (m_physical_linear_tree l') /\ tree_wf (m_virtual_linear_tree l') /\
    (forall x, FindPhysicalLinear l' x =
       (r ← FindPhysical l x; if HasTypeAttribute r KMemoryRegionAttr_LinearMapped then Some (copy r) else None)) /\
    (forall x, FindVirtualLinear l' x =
       (r ← FindVirtual l x; if IsDerivedFrom r KMemoryRegionType_Dram then Some (copy r) else None)) /\
    (forall a, 0 <= a < 2 ^ 64 -> GetLinearPhysicalAddress l' (GetLinearVirtualAddress l' a) = a /\
                                 GetLinearVirtualAddress l' (GetLinearPhysicalAddress l' a) = a) /\
    GetLinearVirtualAddress l' start = u64 virt.
Proof.
  intros Wp Wv Ep Ev Hn.
  assert (forall test t, (length (select test t) <= length t)%nat) as Hlen.
  { intros test t. induction t as [|r t IH]; [done|]. simpl. destruct (test r); simpl; lia. }
  set (tp := fun r => HasTypeAttribute r KMemoryRegionAttr_LinearMapped). set (tv := fun r => IsDerivedFrom r KMemoryRegionType_Dram).
  pose proof (Hlen tp (m_physical_tree l)). pose proof (Hlen tv (m_virtual_tree l)).
  unfold InitializeLinearMemoryRegionTrees. rewrite Ep, Ev.
  rewrite (insert_matching_spec tp (m_physical_tree l) [] _ 0 Wp) by (apply Forall_nil_2 || lia). ostep. cbn [fst snd].
  rewrite (insert_matching_spec tv (m_virtual_tree l) [] _ 0 Wv) by (apply Forall_nil_2 || lia). ostep. cbn [fst snd].
  eexists. split; [done|]. cbn [m_physical_tree m_virtual_tree m_physical_linear_tree m_virtual_linear_tree app].
  split_and!; try done; try by apply select_wf.
  - intros x. unfold FindPhysicalLinear, FindPhysical. cbn [m_physical_linear_tree].
    rewrite !(Find_region_of 0) by (done || by apply select_wf). by apply (select_at tp _ 0).
  - intros x. unfold FindVirtualLinear, FindVirtual. cbn [m_virtual_linear_tree].
    rewrite !(Find_region_of 0) by (done || by apply select_wf). by apply (select_at tv _ 0).
  - intros a Ha. unfold GetLinearPhysicalAddress, GetLinearVirtualAddress, u64. cbn.
    rewrite !wrapu_add_l, <- !Z.add_assoc. unfold wrapu. rewrite <- !(Zplus_mod_idemp_r (_ + _) a), <- !Zplus_mod.
    replace (virt - start + (start - virt)) with 0 by lia. replace (start - virt + (virt - start)) with 0 by lia.
    rewrite Zmod_0_l, Z.add_0_r. split; by apply Z.mod_small.
  - unfold GetLinearVirtualAddress, u64. cbn. rewrite wrapu_add_r. f_equal. lia.
Qed.

Definition demo_layout_trees : KMemoryLayout := mkLayout 0 0 4 demo_tree demo_heap_tree [] [].

Lemma linear_trees_witness :
  exists l', InitializeLinearMemoryRegionTrees 0x1000 0x20000 demo_layout_trees = Done true l' /\
    FindVirtualLinear l' 0x10000 = None /\ FindPhysicalLinear l' 0x2000 = FindPhysical demo_layout_trees 0x2000 /\
    GetLinearVirtualAddress l' 0x1000 = u64 0x20000.
Proof.
  destruct (linear_trees demo_layout_trees 0x1000 0x20000) as (l' & E & _ & _ & _ & _ & Hp & Hv & _ & Ha).
  - repeat split; try (vm_compute; (discriminate || reflexivity)); left; reflexivity.
  - exact demo_tree_wf.
  - reflexivity.
  - reflexivity.
  - vm_compute. discriminate.
  - exists l'. split; [exact E|]. split; [rewrite Hv; vm_compute; reflexivity|]. split; [rewrite Hp; vm_compute; reflexivity|exact Ha].
Defined.
