(* ===== verification/InitSlabSetup.v ===== *)
(** * InitSlabSetup: core/hle/kernel/init/init_slab_setup.h and .cpp

    How many objects of each kind the kernel has room for, how large the region of their slab heaps is, and
    how the heaps are laid out in it: in a random order, with random gaps whose sizes are the differences of
    sorted random numbers.

    Size and alignment of the object types are decided by the compiler; they are the class [ObjectLayout],
    with the guarantees of the language as its laws.

    The theorem says that for every outcome of the random numbers each heap is set up once, aligned, behind
    the one before it, and inside the slab region. *)

From S2P Require Import Prelude Common KMemoryRegionType KMemoryRegion KMemoryLayout.
From Stdlib Require Import Permutation Sorted.
#[local] Open Scope Z_scope.

(** ** The kinds of slabs and their counts *)

Inductive KSlabType :=
| KSlabType_KProcess | KSlabType_KThread | KSlabType_KEvent | KSlabType_KPort | KSlabType_KSessionRequest
| KSlabType_KSharedMemory | KSlabType_KSharedMemoryInfo | KSlabType_KTransferMemory | KSlabType_KCodeMemory
| KSlabType_KDeviceAddressSpace | KSlabType_KSession | KSlabType_KThreadLocalPage | KSlabType_KObjectName
| KSlabType_KResourceLimit | KSlabType_KEventInfo | KSlabType_KDebug | KSlabType_KSecureSystemResource
| KSlabType_KThreadLockInfo.

(** The order of FOREACH_SLAB_TYPE. *)
Definition all_slab_types : list KSlabType :=
  [KSlabType_KProcess; KSlabType_KThread; KSlabType_KEvent; KSlabType_KPort; KSlabType_KSessionRequest;
   KSlabType_KSharedMemory; KSlabType_KSharedMemoryInfo; KSlabType_KTransferMemory; KSlabType_KCodeMemory;
   KSlabType_KDeviceAddressSpace; KSlabType_KSession; KSlabType_KThreadLocalPage; KSlabType_KObjectName;
   KSlabType_KResourceLimit; KSlabType_KEventInfo; KSlabType_KDebug; KSlabType_KSecureSystemResource;
   KSlabType_KThreadLockInfo].

Definition KSlabType_Count : Z := 18.

(** The members of [KSlabResourceCounts] that a slab count uses, and the rest. *)
Record KSlabResourceCounts := mkCounts {
  num_KProcess : Z;
  num_KThread : Z;
  num_KEvent : Z;
  num_KInterruptEvent : Z;
  num_KPort : Z;
  num_KSharedMemory : Z;
  num_KTransferMemory : Z;
  num_KCodeMemory : Z;
  num_KDeviceAddressSpace : Z;
  num_KSession : Z;
  num_KLightSession : Z;
  num_KObjectName : Z;
  num_KResourceLimit : Z;
  num_KDebug : Z;
  num_KIoPool : Z;
  num_KIoRegion : Z;
  num_KSessionRequestMappings : Z
}.

Definition NUM_CPU_CORES : Z := 4.
Definition SlabCountKProcess : Z := 80.
Definition SlabCountKThread : Z := 800.
Definition SlabCountExtraKThread : Z := (1024 + 256 + 256) - SlabCountKThread.

Definition CreateDefault : KSlabResourceCounts := {|
  num_KProcess := SlabCountKProcess;
  num_KThread := SlabCountKThread;
  num_KEvent := 900;
  num_KInterruptEvent := 100;
  num_KPort := 384;
  num_KSharedMemory := 80;
  num_KTransferMemory := 200;
  num_KCodeMemory := 10;
  num_KDeviceAddressSpace := 300;
  num_KSession := 1133;
  num_KLightSession := 100;
  num_KObjectName := 7;
  num_KResourceLimit := 5;
  num_KDebug := NUM_CPU_CORES;
  num_KIoPool := 1;
  num_KIoRegion := 6;
  num_KSessionRequestMappings := 40
|}.

(** [KSystemControl::Init::ShouldIncreaseThreadResourceLimit]. *)
Definition ShouldIncreaseThreadResourceLimit : bool := true.

Definition InitializeSlabResourceCounts : KSlabResourceCounts :=
  let c := CreateDefault in
  if ShouldIncreaseThreadResourceLimit then
    mkCounts (num_KProcess c) (u64 (num_KThread c + SlabCountExtraKThread)) (num_KEvent c) (num_KInterruptEvent c) (num_KPort c)
      (num_KSharedMemory c) (num_KTransferMemory c) (num_KCodeMemory c) (num_KDeviceAddressSpace c) (num_KSession c)
      (num_KLightSession c) (num_KObjectName c) (num_KResourceLimit c) (num_KDebug c) (num_KIoPool c) (num_KIoRegion c)
      (num_KSessionRequestMappings c)
  else c.

(** The second argument of the lines of FOREACH_SLAB_TYPE. *)
Definition slab_count (c : KSlabResourceCounts) (t : KSlabType) : Z :=
  match t with
  | KSlabType_KProcess => num_KProcess c
  | KSlabType_KThread => num_KThread c
  | KSlabType_KEvent => num_KEvent c
  | KSlabType_KPort => num_KPort c
  | KSlabType_KSessionRequest => u64 (num_KSession c * 2)
  | KSlabType_KSharedMemory => num_KSharedMemory c
  | KSlabType_KSharedMemoryInfo => u64 (num_KSharedMemory c * 8)
  | KSlabType_KTransferMemory => num_KTransferMemory c
  | KSlabType_KCodeMemory => num_KCodeMemory c
  | KSlabType_KDeviceAddressSpace => num_KDeviceAddressSpace c
  | KSlabType_KSession => num_KSession c
  | KSlabType_KThreadLocalPage => u64 (num_KProcess c + u64 (num_KProcess c + num_KThread c) / 8)
  | KSlabType_KObjectName => num_KObjectName c
  | KSlabType_KResourceLimit => num_KResourceLimit c
  | KSlabType_KEventInfo => u64 (num_KThread c + num_KDebug c)
  | KSlabType_KDebug => num_KDebug c
  | KSlabType_KSecureSystemResource => num_KProcess c
  | KSlabType_KThreadLockInfo => num_KThread c
  end.

(** [sizeof] and [alignof]. *)
Class ObjectLayout := {
  size_of : KSlabType -> Z;
  align_of : KSlabType -> Z;
  size_of_pos : forall t, 0 < size_of t;
  align_of_pow2 : forall t, exists k, 0 <= k /\ align_of t = 2 ^ k
}.

Definition alignof_ptr : Z := 8.

Definition CalculateSlabHeapGapSize : Z := MiB 2 - KiB 356.

Section Slabs.
Context `{ObjectLayout}.

(** The bytes of the heap of a type. *)
Definition heap_bytes (c : KSlabResourceCounts) (t : KSlabType) : Z :=
  AlignUp 64 (u64 (size_of t * slab_count c t)) alignof_ptr.

Definition CalculateTotalSlabHeapSize (c : KSlabResourceCounts) : Z :=
  let size := fold_left (fun size t => u64 (u64 (size + align_of t) + heap_bytes c t)) all_slab_types 0 in
  u64 (size + CalculateSlabHeapGapSize).

(** ** Setting up the heaps *)

(** A heap handed to [T::InitializeSlabHeap]: its kind, its virtual start, its backing memory, its size. *)
Record slab_heap := mkHeap { heap_type : KSlabType; heap_start : Z; heap_backing : Z; heap_size : Z }.

(** [Core::DramMemoryMap]. *)
Definition DramBase : Z := 0x80000000.
Definition KernelReserveBase : Z := DramBase + 0x60000.
Definition SlabHeapBase : Z := KernelReserveBase + 0x85000.

Definition TranslateSlabAddrToPhysical (l : KMemoryLayout) (slab_addr : Z) : outcome Z :=
  region ← GetSlabRegion l;
  mret (u64 (u64 (slab_addr - m_address region) + SlabHeapBase)).

Definition InitializeSlabHeap (c : KSlabResourceCounts) (l : KMemoryLayout) (t : KSlabType) (address : Z) (heaps : list slab_heap) :
    outcome (Z * list slab_heap) :=
  let size := heap_bytes c t in
  let start := AlignUp 64 address (align_of t) in
  heaps ← (if 0 <? size then
             backing ← TranslateSlabAddrToPhysical l start;
             match FindVirtual l (u64 (u64 (start + size) - 1)) with
             | None => Undef
             | Some region =>
                 ASSERT (IsDerivedFrom region KMemoryRegionType_KernelSlab) ≫= fun _ =>
                 mret (heaps ++ [mkHeap t start backing size])
             end
           else mret heaps);
  mret (u64 (start + size), heaps).

(** [std::swap] of two entries. *)
Definition swap {A} (i j : Z) (l : list A) : outcome (list A) :=
  x ← arr_get l i; y ← arr_get l j; l ← arr_set l i y; arr_set l j x.

Fixpoint shuffle (n : nat) (i : Z) (l : list KSlabType) (words : list Z) : outcome (list KSlabType * list Z) :=
  match n with
  | O => mret (l, words)
  | Datatypes.S n =>
      rw ← GenerateRandomRange 0 (u64 (Z.of_nat (length l) - 1)) words;
      l ← swap i (fst rw) l;
      shuffle n (i + 1) l (snd rw)
  end.

Fixpoint draw_gaps (n : nat) (total_gap_size : Z) (words : list Z) : outcome (list Z * list Z) :=
  match n with
  | O => mret ([], words)
  | Datatypes.S n =>
      rw ← GenerateRandomRange 0 total_gap_size words;
      gw ← draw_gaps n total_gap_size (snd rw);
      mret (fst rw :: fst gw, snd gw)
  end.

(** The inner loop of the sort: the entry [j] moves to the front while the one before it is larger. *)
Fixpoint sink (j : nat) (g : list Z) : outcome (list Z) :=
  match j with
  | O => mret g
  | Datatypes.S j' =>
      a ← arr_get g (Z.of_nat j');
      b ← arr_get g (Z.of_nat j);
      if b <? a then g ← swap (Z.of_nat j) (Z.of_nat j') g; sink j' g else mret g
  end.

Fixpoint sort_gaps (n i : nat) (g : list Z) : outcome (list Z) :=
  match n with O => mret g | Datatypes.S n => g ← sink i g; sort_gaps n (Datatypes.S i) g end.

(** The loop over the slabs; [gap_start] and [gap_size] are the gap the loop tracks. *)
Fixpoint place_slabs (c : KSlabResourceCounts) (l : KMemoryLayout) (types : list KSlabType) (gaps : list Z) (prev : option Z)
    (address gap_start gap_size : Z) (heaps : list slab_heap) : outcome (Z * list slab_heap) :=
  match types, gaps with
  | t :: types, g :: gaps =>
      let cur_gap := match prev with None => g | Some p => u64 (g - p) end in
      let address := u64 (address + cur_gap) in
      let gap_size := u64 (gap_size + cur_gap) in
      ah ← (if 0 <? slab_count c t then InitializeSlabHeap c l t address heaps else mret (address, heaps));
      let '(address, heaps) := ah in
      let '(gap_start, gap_size) :=
        if negb (u64 (gap_start + gap_size) =? address) then (address, 0) else (gap_start, gap_size) in
      place_slabs c l types gaps (Some g) address gap_start gap_size heaps
  | _, _ => mret (address, heaps)
  end.

(** The answer keeps the end of the last heap, which the code drops. *)
Definition InitializeSlabHeaps (c : KSlabResourceCounts) (l : KMemoryLayout) (words : list Z) :
    outcome (Z * list slab_heap * list Z) :=
  slab_region ← GetSlabRegion l;
  let address := m_address slab_region in
  tw ← shuffle (length all_slab_types) 0 all_slab_types words;
  let total_gap_size := CalculateSlabHeapGapSize in
  gw ← draw_gaps (length all_slab_types) total_gap_size (snd tw);
  gaps ← sort_gaps (length (fst gw) - 1) 1 (fst gw);
  ah ← place_slabs c l (fst tw) gaps None address address 0 [];
  mret (fst ah, snd ah, snd gw).

End Slabs.

(** ** The random order and the gaps *)

(** Exchanging two entries. *)
Lemma swap_permutes {A} (l : list A) i j : 0 <= i < Z.of_nat (length l) -> 0 <= j < Z.of_nat (length l) ->
  exists l', swap i j l = Done true l' /\ Permutation l' l.
Proof.
  intros Hi Hj. destruct (arr_get_lt l i Hi) as (x & Ex & Lx). destruct (arr_get_lt l j Hj) as (y & Ey & Ly).
  unfold swap. rewrite Ex, Ey. do 2 ostep. rewrite arr_set_lt by done. ostep. rewrite arr_set_lt by (rewrite length_insert; done).
  eexists. split; [done|]. clear -Lx Ly.
  apply list_elem_of_split_length in Lx as (a & b & -> & Hi). rewrite Hi in *. clear Hi i.
  rewrite insert_app_r_alt, Nat.sub_diag by lia. simpl.
  destruct (decide (Z.to_nat j = length a)) as [E|E].
  - rewrite E in *. rewrite list_lookup_middle in Ly by done. injection Ly as ->. by rewrite insert_app_r_alt, Nat.sub_diag by lia.
  - destruct (decide (Z.to_nat j < length a)%nat) as [H|H].
    + rewrite lookup_app_l in Ly by done. apply list_elem_of_split_length in Ly as (a1 & a2 & -> & Hj). rewrite Hj in *.
      rewrite <- app_assoc, insert_app_r_alt, Nat.sub_diag by lia. simpl. rewrite <- app_assoc. simpl. apply Permutation_app_head.
      rewrite <- !Permutation_middle. apply perm_swap.
    + replace (Z.to_nat j) with (length a + Datatypes.S (Z.to_nat j - length a - 1))%nat in * by lia.
      rewrite lookup_app_r in Ly by lia. rewrite Nat.add_comm, Nat.add_sub in Ly. simpl in Ly.
      apply list_elem_of_split_length in Ly as (b1 & b2 & -> & Hj). rewrite Hj.
      rewrite insert_app_r. simpl. rewrite insert_app_r_alt, Nat.sub_diag by lia. simpl. apply Permutation_app_head.
      rewrite <- !Permutation_middle. apply perm_swap.
Qed.

(** The words of a 32-bit generator. *)
Definition word32 (w : Z) : Prop := 0 <= w < 2 ^ 32.

(** A small range takes the first word. *)
Lemma draw_first hi w words : 0 <= hi < 2 ^ 32 -> word32 w ->
  exists v, GenerateRandomRange 0 hi (w :: words) = Done true (v, words) /\ 0 <= v <= hi.
Proof.
  intros Hh Hw. destruct (GenerateRandomRange_val 0 hi (w :: words)) as (emax & He & _ & ->); [lia|unfold u64_max; lia|].
  unfold word32 in Hw. simpl. rewrite (proj2 (Z.ltb_lt _ _)) by lia. exists (w mod (hi + 1)). rewrite Z.sub_0_r.
  pose proof (Z.mod_pos_bound w (hi + 1) ltac:(lia)). split; [|lia]. by rewrite u64_small by lia.
Qed.

Lemma shuffle_spec n i l words : 0 <= i -> i + Z.of_nat n <= Z.of_nat (length l) -> Z.of_nat (length l) <= 2 ^ 32 ->
  (n <= length words)%nat -> Forall word32 words ->
  exists l', shuffle n i l words = Done true (l', drop n words) /\ Permutation l' l.
Proof.
  revert i l words. induction n as [|n IH]; intros i l words Hi Hn Hl Hw Hf; [by exists l|].
  destruct words as [|w words]; [simpl in Hw; lia|]. apply Forall_cons_1 in Hf as [Hf1 Hf]. cbn [shuffle].
  rewrite (u64_small (Z.of_nat (length l) - 1)) by lia.
  destruct (draw_first (Z.of_nat (length l) - 1) w words) as (v & -> & Hv); [lia|done|]. ostep. cbn [fst snd].
  destruct (swap_permutes l i v) as (l1 & -> & Hp); [lia|lia|]. ostep. pose proof (Permutation_length Hp) as Hlen.
  simpl in Hw. destruct (IH (i + 1) l1 words) as (l' & -> & Hp'); try (done || lia).
  exists l'. split; [done|]. by rewrite Hp'.
Qed.

Lemma draw_gaps_spec n total words : 0 <= total < 2 ^ 32 -> (n <= length words)%nat -> Forall word32 words ->
  exists g, draw_gaps n total words = Done true (g, drop n words) /\ length g = n /\ Forall (fun x => 0 <= x <= total) g.
Proof.
  revert words. induction n as [|n IH]; intros words Ht Hw Hf; [by exists []|].
  destruct words as [|w words]; [simpl in Hw; lia|]. apply Forall_cons_1 in Hf as [Hf1 Hf]. cbn [draw_gaps].
  destruct (draw_first total w words) as (v & -> & Hv); [lia|done|]. ostep. cbn [fst snd]. simpl in Hw.
  destruct (IH words) as (g & -> & Hg & Hb); [done|lia|done|]. ostep. exists (v :: g). simpl. split_and!; [done|lia|]. by constructor.
Qed.

(** *** The sort *)

Lemma sorted_snoc (l : list Z) x : StronglySorted Z.le (l ++ [x]) <-> StronglySorted Z.le l /\ Forall (fun y => y <= x) l.
Proof.
  induction l as [|y l IH]; simpl.
  - split; [intros _; split; [apply SSorted_nil|apply Forall_nil_2]|]. intros _. apply SSorted_cons; constructor.
  - split.
    + intros H. apply StronglySorted_inv in H as [Hs Hf]. apply IH in Hs as [Hs Hl]. apply Forall_app in Hf as [Hf Hx]. apply Forall_cons_1 in Hx as [Hx _].
      split; [by apply SSorted_cons|apply Forall_cons_2; [exact Hx|exact Hl]].
    + intros [H Hf]. apply StronglySorted_inv in H as [Hs Hf']. apply Forall_cons_1 in Hf as [Hy Hl]. apply SSorted_cons; [by apply IH|].
      apply Forall_app_2; [done|by apply Forall_singleton].
Qed.

Lemma sink_spec a : forall x r, StronglySorted Z.le a ->
  exists b, sink (length a) (a ++ x :: r) = Done true (b ++ r) /\ Permutation b (a ++ [x]) /\ StronglySorted Z.le b.
Proof.
  induction a as [|y a IH] using rev_ind; intros x r Hs.
  { exists [x]. split_and!; [done|done|]. apply SSorted_cons; constructor. }
  apply sorted_snoc in Hs as [Hs Hy]. rewrite length_app, Nat.add_comm. cbn [length Nat.add sink].
  rewrite <- (app_assoc a [y]). cbn [app].
  rewrite (arr_get_Some _ (Z.of_nat (length a)) y), (arr_get_Some _ (Z.of_nat (Datatypes.S (length a))) x); try lia.
  2: { rewrite Nat2Z.id, lookup_app_r by lia. replace (Datatypes.S (length a) - length a)%nat with 1%nat by lia. done. }
  2: { rewrite Nat2Z.id. by apply list_lookup_middle. }
  do 2 ostep. destruct (Z.ltb_spec x y) as [Hlt|Hge].
  - unfold swap. rewrite (arr_get_Some _ (Z.of_nat (length a)) y), (arr_get_Some _ (Z.of_nat (Datatypes.S (length a))) x); try lia.
    2: { rewrite Nat2Z.id, lookup_app_r by lia. replace (Datatypes.S (length a) - length a)%nat with 1%nat by lia. done. }
    2: { rewrite Nat2Z.id. by apply list_lookup_middle. }
    do 2 ostep. rewrite arr_set_lt by (rewrite length_app; simpl; lia). ostep. rewrite arr_set_lt by (rewrite length_insert, length_app; simpl; lia).
    ostep. rewrite !Nat2Z.id, (insert_app_r_alt _ _ (Datatypes.S _)), (insert_app_r_alt _ _ (length a)), Nat.sub_diag by lia.
    replace (Datatypes.S (length a) - length a)%nat with 1%nat by lia. simpl.
    destruct (IH x (y :: r) Hs) as (b & -> & Hp & Hb). exists (b ++ [y]). split_and!.
    + by rewrite <- app_assoc.
    + rewrite Hp. rewrite <- !app_assoc. apply Permutation_app_head. apply perm_swap.
    + apply sorted_snoc. split; [done|]. rewrite Hp. apply Forall_app_2; [done|]. apply Forall_singleton. lia.
  - exists ((a ++ [y]) ++ [x]). split_and!; [by rewrite <- !app_assoc|done|]. apply sorted_snoc. split; [by apply sorted_snoc|].
    apply Forall_app_2; [|by apply Forall_singleton]. eapply list.Forall_impl; [exact Hy|]. simpl. intros. lia.
Qed.

Lemma sort_gaps_spec n : forall a r, length r = n -> StronglySorted Z.le a ->
  exists g, sort_gaps n (length a) (a ++ r) = Done true g /\ Permutation g (a ++ r) /\ StronglySorted Z.le g.
Proof.
  induction n as [|n IH]; intros a r Hr Ha.
  { destruct r; [|done]. rewrite app_nil_r. by exists a. }
  destruct r as [|x r]; [done|]. simpl in Hr. cbn [sort_gaps]. destruct (sink_spec a x r Ha) as (b & -> & Hp & Hb). ostep.
  pose proof (Permutation_length Hp) as Hl. rewrite length_app in Hl. simpl in Hl.
  replace (Datatypes.S (length a)) with (length b) by lia. destruct (IH b r ltac:(lia) Hb) as (g & -> & Hpg & Hg).
  exists g. split_and!; try done. rewrite Hpg, Hp, <- app_assoc. done.
Qed.

(** ** The heaps in the region *)

Section Layout.
Context {OL : ObjectLayout}.
Context (c : KSlabResourceCounts) (l : KMemoryLayout) (r : KMemoryRegion).
Context (W : tree_wf (m_virtual_tree l)) (Hr : FindByType KMemoryRegionType_KernelSlab (m_virtual_tree l) = Some r).
Context (Hend : m_last_address r < u64_max) (Hcount : forall t, 0 < slab_count c t).

(** The most a heap can take. *)
Definition room (t : KSlabType) : Z := align_of t + (size_of t * slab_count c t + alignof_ptr).
Definition sum_over (f : KSlabType -> Z) (l : list KSlabType) : Z := fold_right (fun t n => f t + n) 0 l.
Context (Hroom : sum_over room all_slab_types + CalculateSlabHeapGapSize < 2 ^ 64).

Lemma align_of_pos t : 0 < align_of t.
Proof. destruct (align_of_pow2 t) as (k & Hk & ->). apply Z.pow_pos_nonneg; lia. Qed.

Lemma room_pos t : 0 < room t.
Proof. pose proof (align_of_pos t). pose proof (size_of_pos t). pose proof (Hcount t). unfold room, alignof_ptr. nia. Qed.

Lemma sum_over_le f g ts : (forall t, f t <= g t) -> sum_over f ts <= sum_over g ts.
Proof. intros Hfg. induction ts as [|t ts IH]; [done|]. simpl. specialize (Hfg t). lia. Qed.

Lemma sum_over_perm f ts ts' : Permutation ts ts' -> sum_over f ts = sum_over f ts'.
Proof. induction 1; simpl in *; lia. Qed.

Lemma sum_over_nonneg f ts : (forall t, 0 < f t) -> 0 <= sum_over f ts.
Proof. intros Hf. induction ts as [|t ts IH]; simpl; [lia|]. specialize (Hf t). lia. Qed.

Lemma sum_over_In f t ts : (forall t, 0 < f t) -> In t ts -> f t <= sum_over f ts.
Proof.
  intros Hf. induction ts as [|t' ts IH]; [done|]. intros [->|Hin]; simpl.
  - pose proof (sum_over_nonneg f ts Hf). lia.
  - specialize (IH Hin). specialize (Hf t'). lia.
Qed.

Lemma room_bound t : room t + CalculateSlabHeapGapSize < 2 ^ 64.
Proof.
  assert (room t <= sum_over room all_slab_types); [|lia]. apply sum_over_In; [exact room_pos|].
  destruct t; simpl; tauto.
Qed.

Lemma heap_bytes_bounds t : 0 < heap_bytes c t /\ align_of t + heap_bytes c t <= room t.
Proof.
  pose proof (room_bound t) as Hb. pose proof (align_of_pos t). pose proof (size_of_pos t). pose proof (Hcount t). unfold room, heap_bytes in *.
  assert (0 < CalculateSlabHeapGapSize) by done. assert (0 < size_of t * slab_count c t) by nia. unfold alignof_ptr in *.
  rewrite u64_small by lia.
  destruct (AlignUp_spec 64 (size_of t * slab_count c t) 8) as [_ Hu]; [lia|lia|split; lia|lia|]. lia.
Qed.

Definition use (t : KSlabType) : Z := align_of t + heap_bytes c t.

Lemma use_pos t : 0 < use t.
Proof. unfold use. pose proof (heap_bytes_bounds t). pose proof (align_of_pos t). lia. Qed.

Lemma CalculateTotalSlabHeapSize_val : CalculateTotalSlabHeapSize c = sum_over use all_slab_types + CalculateSlabHeapGapSize.
Proof.
  assert (0 < CalculateSlabHeapGapSize) by done.
  assert (forall t, use t <= room t) as Hur by (intros t; unfold use; apply heap_bytes_bounds).
  assert (forall ts acc, 0 <= acc -> acc + sum_over use ts < 2 ^ 64 ->
    fold_left (fun size t => u64 (u64 (size + align_of t) + heap_bytes c t)) ts acc = acc + sum_over use ts) as Hfold.
  { induction ts as [|t ts IH]; intros acc Ha Hs; simpl in *; [lia|]. pose proof (use_pos t). pose proof (align_of_pos t).
    pose proof (heap_bytes_bounds t).
    pose proof (sum_over_nonneg use ts use_pos).
    unfold use in Hs at 1. rewrite (u64_small (acc + align_of t)), (u64_small (acc + align_of t + heap_bytes c t)) by lia.
    rewrite IH; unfold use in *; lia. }
  pose proof (sum_over_le use room all_slab_types Hur). unfold CalculateTotalSlabHeapSize. cbv zeta. rewrite Hfold by lia.
  rewrite Z.add_0_l. apply u64_small. split; [|lia]. pose proof (sum_over_nonneg use all_slab_types use_pos). lia.
Qed.

(** The heaps follow each other from [lo] to [hi]. *)
Fixpoint laid (lo : Z) (hs : list slab_heap) (hi : Z) : Prop :=
  match hs with
  | [] => lo <= hi
  | h :: hs' => lo <= heap_start h /\ (align_of (heap_type h) | heap_start h) /\ heap_size h = heap_bytes c (heap_type h) /\
      0 < heap_size h /\ laid (heap_start h + heap_size h) hs' hi
  end.

(** The memory behind the heaps: each byte of a heap has its own, from [SlabHeapBase] on. *)
Definition backs (h : slab_heap) : Prop := heap_backing h = SlabHeapBase + (heap_start h - m_address r).
Fixpoint backed (lo : Z) (hs : list slab_heap) (hi : Z) : Prop :=
  match hs with
  | [] => lo <= hi
  | h :: hs' => lo <= heap_backing h /\ backed (heap_backing h + heap_size h) hs' hi
  end.

Lemma laid_backed hs : forall lo hi, Forall backs hs -> laid lo hs hi -> backed (SlabHeapBase + (lo - m_address r)) hs (SlabHeapBase + (hi - m_address r)).
Proof.
  induction hs as [|h hs IH]; intros lo hi Hb Hl; cbn [backed laid] in *; [lia|]. apply Forall_cons_1 in Hb as [Hb Hbs]. destruct Hl as (L1 & _ & _ & _ & L5). unfold backs in Hb. rewrite Hb. split; [lia|].
  replace (SlabHeapBase + (heap_start h - m_address r) + heap_size h) with (SlabHeapBase + (heap_start h + heap_size h - m_address r)) by lia. by apply IH.
Qed.

Lemma backed_weaken lo hs : forall hi hi', hi <= hi' -> backed lo hs hi -> backed lo hs hi'.
Proof. revert lo. induction hs as [|h hs IH]; intros lo hi hi' Hh Hb; cbn [backed] in *; [lia|]. destruct Hb as [? Hb]. split; [done|]. by apply (IH _ hi). Qed.

Lemma laid_weaken lo lo' hs hi : lo' <= lo -> laid lo hs hi -> laid lo' hs hi.
Proof. destruct hs; simpl; [lia|]. intros ? (? & ?). split; [lia|done]. Qed.

Lemma slab_region_type : IsDerivedFrom r KMemoryRegionType_KernelSlab = true /\ region_wf r.
Proof.
  unfold FindByType in Hr. apply find_first_Some in Hr as (d & u & E & Ht%Z.eqb_eq & _). split.
  - unfold IsDerivedFrom. rewrite Ht. done.
  - rewrite E in W. apply regions_from_app in W as (_ & ? & _ & _ & (_ & ? & _)). done.
Qed.

Lemma find_in_slab_region x : m_address r <= x <= m_last_address r -> FindVirtual l x = Some r.
Proof.
  intros Hx. unfold FindVirtual. rewrite (Find_region_of 0) by done. unfold FindByType in Hr.
  apply find_first_Some in Hr as (d & u & E & _ & _). apply (lookup_region_of 0 _ (length d)); [done| |].
  - rewrite E. by apply list_lookup_middle.
  - by apply in_region_spec.
Qed.

Lemma InitializeSlabHeap_spec t a heaps : m_address r <= a -> a + use t <= m_last_address r + 1 -> SlabHeapBase + (a + use t - m_address r) < 2 ^ 64 ->
  exists h, InitializeSlabHeap c l t a heaps = Done true (heap_start h + heap_size h, heaps ++ [h]) /\ heap_type h = t /\
    laid a [h] (a + use t) /\ backs h.
Proof.
  intros Ha Hf Hb64. destruct slab_region_type as [Ht ((Hp & _) & _)]. pose proof (align_of_pos t). pose proof (heap_bytes_bounds t) as [Hb _].
  unfold use, u64_max in *. destruct (AlignUp_spec 64 a (align_of t)) as [Hdiv Hup]; [lia|lia|split; lia|lia|].
  unfold InitializeSlabHeap. cbv zeta. set (start := AlignUp 64 a (align_of t)) in *. set (size := heap_bytes c t) in *.
  rewrite (proj2 (Z.ltb_lt 0 size)) by lia. unfold TranslateSlabAddrToPhysical, GetSlabRegion. rewrite Hr. cbn [Dereference]. do 2 ostep.
  rewrite (u64_small (start + size)), (u64_small (start + size - 1)) by lia. rewrite find_in_slab_region, Ht by lia.
  rewrite bind_assert_true by done. ostep. exists (mkHeap t start (u64 (u64 (start - m_address r) + SlabHeapBase)) size).
  split; [reflexivity|]. unfold backs. simpl. assert (0 <= SlabHeapBase) by (by vm_compute). rewrite (u64_small (start - m_address r)), u64_small by lia. split_and!; (done || lia).
Qed.

Lemma place_slabs_spec ts : forall gaps prev a gs gz heaps G,
  length gaps = length ts -> StronglySorted Z.le gaps -> Forall (fun g => default 0 prev <= g <= G) gaps ->
  0 <= default 0 prev -> m_address r <= a -> a + (G - default 0 prev) + sum_over use ts <= m_last_address r + 1 -> default 0 prev <= G ->
  SlabHeapBase + (a + (G - default 0 prev) + sum_over use ts - m_address r) < 2 ^ 64 ->
  exists hs a', place_slabs c l ts gaps prev a gs gz heaps = Done true (a', heaps ++ hs) /\ map heap_type hs = ts /\
    laid a hs a' /\ a' <= a + (G - default 0 prev) + sum_over use ts /\ Forall backs hs.
Proof.
  induction ts as [|t ts IH]; intros gaps prev a gs gz heaps G Hlen Hs Hg Hp Ha Hf HG H64.
  { destruct gaps; [|done]. simpl in *. exists [], a. rewrite app_nil_r. split_and!; try done; simpl; lia. }
  destruct gaps as [|g gaps]; [done|]. apply Forall_cons_1 in Hg as [Hg Hgs]. apply StronglySorted_inv in Hs as [Hs Hle].
  cbn [place_slabs]. cbv zeta. destruct slab_region_type as [_ ((Hr0 & _) & _)]. unfold u64_max in Hend.
  pose proof (sum_over_nonneg use ts use_pos). pose proof (use_pos t). cbn [sum_over fold_right] in Hf, H64. fold (sum_over use ts) in Hf, H64.
  assert (match prev with None => g | Some p => u64 (g - p) end = g - default 0 prev) as ->.
  { destruct prev as [p|]; simpl in *; [|lia]. apply u64_small. lia. }
  rewrite (u64_small (a + _)), (proj2 (Z.ltb_lt 0 _) (Hcount t)) by lia.
  destruct (InitializeSlabHeap_spec t (a + (g - default 0 prev)) heaps) as (h & -> & Hty & Hl & Hbk); [lia|lia|lia|]. ostep.
  simpl in Hl. destruct Hl as (L1 & L2 & L3 & L4 & L5).
  destruct (if negb _ then _ else _) as [gs' gz'].
  destruct (IH gaps (Some g) (heap_start h + heap_size h) gs' gz' (heaps ++ [h]) G) as (hs & a' & -> & Hm & Hlaid & Hle' & Hbs); simpl default in *; try lia; try done.
  { simpl in Hlen. lia. }
  { rewrite list.Forall_forall in Hle, Hgs |- *. intros x Hx. specialize (Hle x Hx). specialize (Hgs x Hx). simpl in *. lia. }
  exists (h :: hs), a'. rewrite <- app_assoc. split_and!; try done.
  - simpl. by rewrite Hm, Hty.
  - simpl. split_and!; (done || lia).
  - cbn [sum_over fold_right]. fold (sum_over use ts). lia.
  - by apply Forall_cons_2.
Qed.

End Layout.

(** C20: The slab heaps.  When the slab region is as large as the size computed for it, setting up the heaps succeeds for
    every outcome of the random numbers: each kind of object gets one heap, the heaps are laid out in order, aligned and
    without overlap, and the last one ends inside the region.  The memory they are given has the same layout from [SlabHeapBase] on: the backing of a heap is as far from there as the heap is from the
    start of the region, no two backings overlap, and the last one ends within the computed size. *)
Theorem slab_heaps_fit {OL : ObjectLayout} c l r words :
  tree_wf (m_virtual_tree l) -> FindByType KMemoryRegionType_KernelSlab (m_virtual_tree l) = Some r -> m_last_address r < u64_max ->
  (forall t, 0 < slab_count c t) -> SlabHeapBase + (sum_over (room c) all_slab_types + CalculateSlabHeapGapSize) < 2 ^ 64 ->
  m_address r + CalculateTotalSlabHeapSize c <= m_last_address r + 1 ->
  (36 <= length words)%nat -> Forall word32 words ->
  exists fin hs, InitializeSlabHeaps c l words = Done true (fin, hs, drop 36 words) /\
    Permutation (map heap_type hs) all_slab_types /\ laid c (m_address r) hs fin /\ fin <= m_address r + CalculateTotalSlabHeapSize c /\
    Forall (backs r) hs /\ backed SlabHeapBase hs (SlabHeapBase + CalculateTotalSlabHeapSize c).
Proof.
  intros W Hr Hend Hc Hroom64 Hfit Hw Hf. assert (0 <= SlabHeapBase) as Hb0 by (by vm_compute). assert (sum_over (room c) all_slab_types + CalculateSlabHeapGapSize < 2 ^ 64) as Hroom by lia.
  pose proof (CalculateTotalSlabHeapSize_val c Hc Hroom) as Etotal.
  assert (SlabHeapBase + CalculateTotalSlabHeapSize c < 2 ^ 64) as Ht64.
  { rewrite Etotal. assert (forall t, use c t <= room c t) as Hur by (intros t; unfold use; by apply heap_bytes_bounds). pose proof (sum_over_le (use c) (room c) all_slab_types Hur). lia. }
  unfold InitializeSlabHeaps, GetSlabRegion. rewrite Hr. cbn [Dereference]. ostep.
  destruct (shuffle_spec (length all_slab_types) 0 all_slab_types words) as (ts & -> & Hts); [lia|simpl; lia|simpl; lia|simpl; lia|done|].
  ostep. cbn [fst snd].
  destruct (draw_gaps_spec (length all_slab_types) CalculateSlabHeapGapSize (drop (length all_slab_types) words)) as (g & -> & Hg & Hgb);
    [done|rewrite length_drop; simpl; lia|by apply Forall_drop|]. ostep. cbn [fst snd].
  destruct g as [|g0 g]; [done|]. simpl in Hg. injection Hg as Hg.
  destruct (sort_gaps_spec (length g) [g0] g) as (g' & Eg & Hp & Hs); [done|apply SSorted_cons; constructor|].
  assert (sum_over (use c) ts = sum_over (use c) all_slab_types) as Esum by (first [by apply sum_over_perm|symmetry; by apply sum_over_perm]).
  replace (length (g0 :: g) - 1)%nat with (length g) by (simpl; lia). cbn [length app] in Eg. rewrite Eg. ostep. cbn [app] in Hp.
  destruct (place_slabs_spec c l r W Hr Hend Hc Hroom ts g' None (m_address r) (m_address r) 0 [] CalculateSlabHeapGapSize)
    as (hs & fin & -> & Hm & Hlaid & Hle & Hbs); try done; simpl default.
  - rewrite (Permutation_length Hp), (Permutation_length Hts). simpl. lia.
  - by rewrite Hp.
  - lia.
  - lia.
  - ostep. exists fin, hs. rewrite drop_drop. simpl default in Hle. split_and!; [done|by rewrite Hm|done|lia|done|].
    apply (laid_backed c r hs _ _ Hbs) in Hlaid. rewrite Z.sub_diag, Z.add_0_r in Hlaid. revert Hlaid. apply backed_weaken. lia.
Qed.

(** Objects of 256 bytes, and random words that repeat. *)
Definition demo_objects : ObjectLayout.
Proof.
  refine {| size_of := fun _ => 256; align_of := fun _ => 16 |}; [reflexivity|intros _; exists 4; split; [discriminate|reflexivity]].
Defined.

Definition demo_slab_region : KMemoryRegion := KMemoryRegion_new 0x2000 0x901FFF 0 KMemoryRegionType_KernelSlab.
Definition demo_slab_layout : KMemoryLayout := mkLayout 0 0 1 [demo_slab_region] [] [] [].
Definition demo_words : list Z := concat (replicate 4 [5; 1234567; 77; 4000000000; 17; 900001; 3; 42; 65536; 12]).

Lemma slab_heaps_fit_witness :
  exists fin hs, InitializeSlabHeaps (H := demo_objects) InitializeSlabResourceCounts demo_slab_layout demo_words = Done true (fin, hs, drop 36 demo_words) /\
    laid (OL := demo_objects) InitializeSlabResourceCounts 0x2000 hs fin /\ fin <= 0x902000 /\ backed SlabHeapBase hs (SlabHeapBase + CalculateTotalSlabHeapSize (H := demo_objects) InitializeSlabResourceCounts).
Proof.
  destruct (slab_heaps_fit (OL := demo_objects) InitializeSlabResourceCounts demo_slab_layout demo_slab_region demo_words) as (fin & hs & E & _ & L & Hf & _ & Hb).
  - repeat split; try (vm_compute; (discriminate || reflexivity)). left. reflexivity.
  - reflexivity.
  - reflexivity.
  - intros []; vm_compute; reflexivity.
  - vm_compute. reflexivity.
  - vm_compute. discriminate.
  - vm_compute. repeat constructor.
  - repeat (apply Forall_cons_2; [split; [discriminate|reflexivity]|]). apply Forall_nil_2.
  - exists fin, hs. split; [exact E|]. split; [exact L|]. split; [|exact Hb]. eapply Z.le_trans; [exact Hf|]. vm_compute. discriminate.
Defined.
