(* ===== verification/KernelBoot.v ===== *)
(** * KernelBoot: how the kernel divides its memory

    Models core/hle/kernel/kernel.cpp (DeriveInitialMemoryLayout), board/nintendo/nx/k_memory_layout.cpp and the
    initialization part of board/nintendo/nx/k_system_control.h and .cpp: the size of the memory and of the pools in
    each memory mode, the regions of devices and of the main memory, the random places of the regions of the
    kernel, the linear mapping and the partition of the rest into pools.

    The theorems are about concrete runs, one for each memory mode: with a given object layout and given
    random words the whole setup passes all its assertions and leaves the trees in the state the rest of the
    kernel relies on. *)

From S2P Require Import Prelude Common KMemoryManager KMemoryRegionType KMemoryRegion KMemoryLayout InitSlabSetup.
#[local] Open Scope Z_scope.

(** ** KSystemControl::Init *)

(** [Settings::MemoryLayout]. *)
Inductive MemoryMode := Memory_4Gb | Memory_6Gb | Memory_8Gb | Memory_10Gb | Memory_12Gb.

Inductive MemorySize := MemorySize_4GB | MemorySize_6GB | MemorySize_8GB | MemorySize_10GB | MemorySize_12GB.
Inductive MemoryArrangement :=
| MemoryArrangement_4GB | MemoryArrangement_4GBForAppletDev | MemoryArrangement_4GBForSystemDev
| MemoryArrangement_6GB | MemoryArrangement_6GBForAppletDev
| MemoryArrangement_8GB | MemoryArrangement_10GB | MemoryArrangement_12GB.

Definition GetMemorySizeForInit (m : MemoryMode) : MemorySize :=
  match m with
  | Memory_4Gb => MemorySize_4GB
  | Memory_6Gb => MemorySize_6GB
  | Memory_8Gb => MemorySize_8GB
  | Memory_10Gb => MemorySize_10GB
  | Memory_12Gb => MemorySize_12GB
  end.

Definition GetMemoryArrangeForInit (m : MemoryMode) : MemoryArrangement :=
  match m with
  | Memory_4Gb => MemoryArrangement_4GB
  | Memory_6Gb => MemoryArrangement_6GB
  | Memory_8Gb => MemoryArrangement_8GB
  | Memory_10Gb => MemoryArrangement_10GB
  | Memory_12Gb => MemoryArrangement_12GB
  end.

Definition GetIntendedMemorySize (m : MemoryMode) : Z :=
  match GetMemorySizeForInit m with
  | MemorySize_4GB => GiB 4
  | MemorySize_6GB => GiB 6
  | MemorySize_8GB => GiB 8
  | MemorySize_10GB => GiB 10
  | MemorySize_12GB => GiB 12
  end.
Definition GetRealMemorySize (m : MemoryMode) : Z := GetIntendedMemorySize m.

Definition GetKernelPhysicalBaseAddress (m : MemoryMode) (base_address : Z) : Z :=
  let real_dram_size := GetRealMemorySize m in
  let intended_dram_size := GetIntendedMemorySize m in
  if u64 (intended_dram_size * 2) <? real_dram_size then base_address
  else u64 (base_address + u64 (real_dram_size - intended_dram_size) / 2).

Definition GetApplicationPoolSize (m : MemoryMode) : Z :=
  match GetMemoryArrangeForInit m with
  | MemoryArrangement_4GB => MiB 3285
  | MemoryArrangement_4GBForAppletDev => MiB 2048
  | MemoryArrangement_4GBForSystemDev => MiB 3285
  | MemoryArrangement_6GB => MiB 4916
  | MemoryArrangement_6GBForAppletDev => MiB 3285
  | MemoryArrangement_8GB => MiB 6547
  | MemoryArrangement_10GB => MiB 8178
  | MemoryArrangement_12GB => MiB 9809
  end.

Definition IsKTraceEnabled : bool := false.
Definition KTraceBufferSize : Z := if IsKTraceEnabled then MiB 16 else 0.

Definition GetAppletPoolSize (m : MemoryMode) : Z :=
  let base_pool_size :=
    match GetMemoryArrangeForInit m with
    | MemoryArrangement_4GB => MiB 507
    | MemoryArrangement_4GBForAppletDev => MiB 1554
    | MemoryArrangement_4GBForSystemDev => MiB 448
    | MemoryArrangement_6GB => MiB 562
    | MemoryArrangement_6GBForAppletDev => MiB 2193
    | MemoryArrangement_8GB => MiB 562
    | MemoryArrangement_10GB => MiB 562
    | MemoryArrangement_12GB => MiB 562
    end in
  let ExtraSystemMemoryForAtmosphere := MiB 33 in
  u64 (base_pool_size - ExtraSystemMemoryForAtmosphere - KTraceBufferSize).

Definition RequiredNonSecureSystemMemorySizeVi : Z := 0x2280 * KiB 4.
Definition RequiredNonSecureSystemMemorySizeViFatal : Z := 0x200 * KiB 4.
Definition RequiredNonSecureSystemMemorySizeNvservices : Z := 0x704 * KiB 4.
Definition RequiredNonSecureSystemMemorySizeMisc : Z := 0x80 * KiB 4.
Definition RequiredNonSecureSystemMemorySize : Z :=
  RequiredNonSecureSystemMemorySizeVi + RequiredNonSecureSystemMemorySizeNvservices + RequiredNonSecureSystemMemorySizeMisc.
Definition RequiredNonSecureSystemMemorySizeWithFatal : Z :=
  RequiredNonSecureSystemMemorySize + RequiredNonSecureSystemMemorySizeViFatal.
Definition GetMinimumNonSecureSystemPoolSize : Z := RequiredNonSecureSystemMemorySizeWithFatal.

(** ** Insertions of the layout *)

(** [GetPhysicalMemoryRegionTree().Insert] and its virtual counterpart, on the layout. *)
Definition InsertPhysical (address size type_id attr : Z) (l : KMemoryLayout) : outcome (bool * KMemoryLayout) :=
  r ← Insert address size type_id attr 0 (m_physical_tree l) (m_num_regions l);
  let '(ok, t, n) := r in mret (ok, with_physical t n l).
Definition InsertVirtual (address size type_id attr : Z) (l : KMemoryLayout) : outcome (bool * KMemoryLayout) :=
  r ← Insert address size type_id attr 0 (m_virtual_tree l) (m_num_regions l);
  let '(ok, t, n) := r in mret (ok, with_virtual t n l).

(** [ASSERT(tree.Insert(...))]. *)
Definition assert_ok (m : outcome (bool * KMemoryLayout)) : outcome KMemoryLayout :=
  r ← m; ASSERT (fst r) ≫= fun _ => mret (snd r).

(** Assertions on a list of physical insertions with attribute 0, in order. *)
Fixpoint insert_all (l : list (Z * Z * Z)) (lay : KMemoryLayout) : outcome KMemoryLayout :=
  match l with
  | [] => mret lay
  | (address, size, type) :: l => lay ← assert_ok (InsertPhysical address size type 0 lay); insert_all l lay
  end.

(** ** The board *)

Definition CarveoutAlignment : Z := 0x20000.
Definition CarveoutSizeMax : Z := MiB 512 - CarveoutAlignment.

Definition SetupPowerManagementControllerMemoryRegion (l : KMemoryLayout) : outcome (bool * KMemoryLayout) :=
  r ← InsertPhysical 0x7000E000 0x400 (KMemoryRegionType_None .| KMemoryRegionAttr_NoUserMap) 0 l;
  let '(ok, l) := r in
  if (ok : bool) then
    InsertPhysical 0x7000E400 0xC00 (KMemoryRegionType_PowerManagementController .| KMemoryRegionAttr_NoUserMap) 0 l
  else mret (false, l).

Definition SetupDevicePhysicalMemoryRegions (l : KMemoryLayout) : outcome KMemoryLayout :=
  l ← assert_ok (SetupPowerManagementControllerMemoryRegion l);
  insert_all
    [(0x70019000, 0x1000, KMemoryRegionType_MemoryController .| KMemoryRegionAttr_NoUserMap);
     (0x7001C000, 0x1000, KMemoryRegionType_MemoryController0 .| KMemoryRegionAttr_NoUserMap);
     (0x7001D000, 0x1000, KMemoryRegionType_MemoryController1 .| KMemoryRegionAttr_NoUserMap);
     (0x50040000, 0x1000, KMemoryRegionType_None .| KMemoryRegionAttr_NoUserMap);
     (0x50041000, 0x1000, KMemoryRegionType_InterruptDistributor .| KMemoryRegionAttr_ShouldKernelMap);
     (0x50042000, 0x1000, KMemoryRegionType_InterruptCpuInterface .| KMemoryRegionAttr_ShouldKernelMap);
     (0x50043000, 0x1D000, KMemoryRegionType_None .| KMemoryRegionAttr_NoUserMap);
     (0x40000000, 0x40000, KMemoryRegionType_LegacyLpsIram .| KMemoryRegionAttr_ShouldKernelMap);
     (0x6000F000, 0x1000, KMemoryRegionType_None .| KMemoryRegionAttr_NoUserMap);
     (0x6001DC00, 0x400, KMemoryRegionType_None .| KMemoryRegionAttr_NoUserMap)] l.

Definition SetupDramPhysicalMemoryRegions (m : MemoryMode) (l : KMemoryLayout) : outcome KMemoryLayout :=
  let intended_memory_size := GetIntendedMemorySize m in
  let physical_memory_base_address := GetKernelPhysicalBaseAddress m DramPhysicalAddress in
  l ← insert_all
        [(physical_memory_base_address, intended_memory_size, GetValue KMemoryRegionType_Dram);
         (physical_memory_base_address, ReservedEarlyDramSize, GetValue KMemoryRegionType_DramReservedEarly)] l;
  if IsKTraceEnabled then
    let ktrace_buffer_phys_addr := u64 (physical_memory_base_address + intended_memory_size - KTraceBufferSize) in
    insert_all [(ktrace_buffer_phys_addr, KTraceBufferSize, GetValue KMemoryRegionType_KernelTraceBuffer)] l
  else mret l.

(** The region with its attribute, and the next attribute. *)
Definition InsertPoolPartitionRegionIntoBothTrees (start size phys_type virt_type cur_attr : Z) (l : KMemoryLayout) :
    outcome (KMemoryLayout * Z) :=
  let attr := cur_attr in
  l ← assert_ok (InsertPhysical start size phys_type attr l);
  match FindByTypeAndAttribute phys_type attr (m_physical_tree l) with
  | None => Undef
  | Some phys =>
      ASSERT (negb (GetEndAddress phys =? 0)) ≫= fun _ =>
      l ← assert_ok (InsertVirtual (m_pair_address phys) size virt_type attr l);
      mret (l, u32 (cur_attr + 1))
  end.

(** [KMemoryManager::CalculateManagementOverheadSize]. *)
Definition CalculateManagementOverheadSize (region_size : Z) : Z := Impl_CalculateManagementOverheadSize region_size.

(** The part of [SetupPoolPartitionMemoryRegions] for the application pool, one region or two around the middle of the memory: the layout, the next
    attribute and the overhead of the managers. *)
Definition setup_application_pool (dram_extents : DerivedRegionExtents) (application_pool_start application_pool_size : Z) (l : KMemoryLayout) :
    outcome (KMemoryLayout * Z * Z) :=
  let dram_midpoint := u64 (Extents_GetAddress dram_extents + Extents_GetEndAddress dram_extents) / 2 in
  if (Extents_GetEndAddress dram_extents <=? dram_midpoint) || (dram_midpoint <=? application_pool_start) then
    la ← InsertPoolPartitionRegionIntoBothTrees application_pool_start application_pool_size KMemoryRegionType_DramApplicationPool
           KMemoryRegionType_VirtualDramApplicationPool 0 l;
    mret (fst la, snd la, CalculateManagementOverheadSize application_pool_size)
  else
    let first_application_pool_size := u64 (dram_midpoint - application_pool_start) in
    let second_application_pool_size := u64 (u64 (application_pool_start + application_pool_size) - dram_midpoint) in
    la ← InsertPoolPartitionRegionIntoBothTrees application_pool_start first_application_pool_size KMemoryRegionType_DramApplicationPool
           KMemoryRegionType_VirtualDramApplicationPool 0 l;
    la ← InsertPoolPartitionRegionIntoBothTrees dram_midpoint second_application_pool_size KMemoryRegionType_DramApplicationPool
           KMemoryRegionType_VirtualDramApplicationPool (snd la) (fst la);
    mret (fst la, snd la,
          u64 (CalculateManagementOverheadSize first_application_pool_size + CalculateManagementOverheadSize second_application_pool_size)).

Definition SetupPoolPartitionMemoryRegions (m : MemoryMode) (l : KMemoryLayout) : outcome KMemoryLayout :=
  dram_extents ← GetMainMemoryPhysicalExtents l;
  ASSERT (negb (Extents_GetEndAddress dram_extents =? 0)) ≫= fun _ =>
  let pool_end := u64 (Extents_GetEndAddress dram_extents - KTraceBufferSize) in
  kernel_dram_region ← Dereference (FindFirstDerived KMemoryRegionType_DramKernelBase (m_physical_tree l));
  let kernel_dram_start := m_address kernel_dram_region in
  ASSERT (IsAligned 64 kernel_dram_start CarveoutAlignment) ≫= fun _ =>
  pool_partitions_region ← Dereference (FindByTypeAndAttribute KMemoryRegionType_DramPoolPartition 0 (m_physical_tree l));
  let pool_partitions_start := m_address pool_partitions_region in
  let application_pool_size := GetApplicationPoolSize m in
  let applet_pool_size := GetAppletPoolSize m in
  let unsafe_system_pool_min_size := GetMinimumNonSecureSystemPoolSize in
  let application_pool_start := u64 (pool_end - application_pool_size) in
  let applet_pool_start := u64 (application_pool_start - applet_pool_size) in
  let unsafe_system_pool_start :=
    Z.min (u64 (kernel_dram_start + CarveoutSizeMax))
      (AlignDown 64 (u64 (applet_pool_start - unsafe_system_pool_min_size)) CarveoutAlignment) in
  let unsafe_system_pool_size := u64 (applet_pool_start - unsafe_system_pool_start) in
  lao ← setup_application_pool dram_extents application_pool_start application_pool_size l;
  let '(l, cur_pool_attr, total_overhead_size) := lao in
  la ← InsertPoolPartitionRegionIntoBothTrees applet_pool_start applet_pool_size KMemoryRegionType_DramAppletPool
         KMemoryRegionType_VirtualDramAppletPool cur_pool_attr l;
  let '(l, cur_pool_attr) := la in
  let total_overhead_size := u64 (total_overhead_size + CalculateManagementOverheadSize applet_pool_size) in
  la ← InsertPoolPartitionRegionIntoBothTrees unsafe_system_pool_start unsafe_system_pool_size KMemoryRegionType_DramSystemNonSecurePool
         KMemoryRegionType_VirtualDramSystemNonSecurePool cur_pool_attr l;
  let '(l, cur_pool_attr) := la in
  let total_overhead_size := u64 (total_overhead_size + CalculateManagementOverheadSize unsafe_system_pool_size) in
  let total_overhead_size :=
    u64 (total_overhead_size +
         CalculateManagementOverheadSize (u64 (u64 (unsafe_system_pool_start - pool_partitions_start) - total_overhead_size))) in
  let pool_management_start := u64 (unsafe_system_pool_start - total_overhead_size) in
  let pool_management_size := total_overhead_size in
  la ← InsertPoolPartitionRegionIntoBothTrees pool_management_start pool_management_size KMemoryRegionType_DramPoolManagement
         KMemoryRegionType_VirtualDramPoolManagement 0 l;
  let l := fst la in
  let system_pool_size := u64 (pool_management_start - pool_partitions_start) in
  la ← InsertPoolPartitionRegionIntoBothTrees pool_partitions_start system_pool_size KMemoryRegionType_DramSystemPool
         KMemoryRegionType_VirtualDramSystemPool cur_pool_attr l;
  mret (fst la).

(** ** DeriveInitialMemoryLayout *)

Section Boot.
Context {OL : ObjectLayout}.
Variable mode : MemoryMode.

(** A region of a random place in the virtual tree. *)
Definition place_virtual (size alignment within : Z) (l : KMemoryLayout) (words : list Z) : outcome (Z * list Z) :=
  GetRandomAlignedRegion size alignment within (m_virtual_tree l) words.

Definition code_start_virt_addr : Z := KernelVirtualAddressCodeBase.
Definition code_end_virt_addr : Z := KernelVirtualAddressCodeEnd.
Definition code_region_start : Z := AlignDown 64 code_start_virt_addr PageSize.
Definition code_region_end : Z := AlignUp 64 code_end_virt_addr PageSize.
Definition code_region_size : Z := u64 (code_region_end - code_region_start).

(** The roots, the kernel and its code, the devices. *)
Definition setup_kernel_region (l : KMemoryLayout) : outcome KMemoryLayout :=
  vn ← InsertDirectly KernelVirtualAddressSpaceBase (u64 (KernelVirtualAddressSpaceBase + KernelVirtualAddressSpaceSize - 1)) 0 0
         (m_virtual_tree l) (m_num_regions l);
  let l := with_virtual (fst vn) (snd vn) l in
  pn ← InsertDirectly KernelPhysicalAddressSpaceBase (u64 (KernelPhysicalAddressSpaceBase + KernelPhysicalAddressSpaceSize - 1)) 0 0
         (m_physical_tree l) (m_num_regions l);
  let l := with_physical (fst pn) (snd pn) l in
  let KernelRegionSize := GiB 1 in
  let kernel_region_start := AlignDown 64 code_start_virt_addr (GiB 1) in
  let kernel_region_size :=
    if negb (u64 (kernel_region_start + KernelRegionSize - 1) <=? KernelVirtualAddressSpaceLast)
    then u64 (KernelVirtualAddressSpaceEnd - kernel_region_start) else KernelRegionSize in
  l ← assert_ok (InsertVirtual kernel_region_start kernel_region_size KMemoryRegionType_Kernel 0 l);
  l ← assert_ok (InsertVirtual code_region_start code_region_size KMemoryRegionType_KernelCode 0 l);
  SetupDevicePhysicalMemoryRegions l.

(** The size of the misc region: three times the stacks of the cores and the devices to be mapped. *)
Fixpoint device_sizes (t : tree) (needed : Z) : outcome Z :=
  match t with
  | [] => mret needed
  | region :: t =>
      if HasTypeAttribute region KMemoryRegionAttr_ShouldKernelMap then
        ASSERT (negb (GetEndAddress region =? 0)) ≫= fun _ =>
        device_sizes t (u64 (needed + u64 (PageSize + u64 (AlignUp 64 (m_last_address region) PageSize - AlignDown 64 (m_address region) PageSize))))
      else device_sizes t needed
  end.

Definition misc_region_size (l : KMemoryLayout) : outcome Z :=
  needed ← device_sizes (m_physical_tree l) (u64 (NUM_CPU_CORES * (3 * (PageSize + PageSize))));
  let needed := u64 (needed * 3) in
  let size := AlignUp 64 (Z.max needed (MiB 32)) KernelAslrAlignment in
  ASSERT (0 <? size) ≫= fun _ => mret size.

(** The random places of the misc, stack, slab and temporary regions. *)
Definition setup_random_regions (slab_region_size : Z) (l : KMemoryLayout) (words : list Z) : outcome (KMemoryLayout * list Z) :=
  misc_size ← misc_region_size l;
  aw ← place_virtual misc_size KernelAslrAlignment KMemoryRegionType_Kernel l words;
  l ← assert_ok (InsertVirtual (fst aw) misc_size KMemoryRegionType_KernelMisc 0 l);
  let StackRegionSize := MiB 14 in
  aw ← place_virtual StackRegionSize KernelAslrAlignment KMemoryRegionType_Kernel l (snd aw);
  l ← assert_ok (InsertVirtual (fst aw) StackRegionSize KMemoryRegionType_KernelStack 0 l);
  ASSERT (slab_region_size <=? GetResourceRegionSizeForInit ShouldIncreaseThreadResourceLimit) ≫= fun _ =>
  let code_end_phys_addr := u64 (KernelPhysicalAddressCodeBase + code_region_size) in
  let slab_region_needed_size :=
    u64 (AlignUp 64 (u64 (code_end_phys_addr + slab_region_size)) KernelAslrAlignment - AlignDown 64 code_end_phys_addr KernelAslrAlignment) in
  aw ← place_virtual slab_region_needed_size KernelAslrAlignment KMemoryRegionType_Kernel l (snd aw);
  let slab_region_start := u64 (fst aw + code_end_phys_addr mod KernelAslrAlignment) in
  l ← assert_ok (InsertVirtual slab_region_start slab_region_size KMemoryRegionType_KernelSlab 0 l);
  let TempRegionSize := MiB 128 in
  aw ← place_virtual TempRegionSize KernelAslrAlignment KMemoryRegionType_Kernel l (snd aw);
  l ← assert_ok (InsertVirtual (fst aw) TempRegionSize KMemoryRegionType_KernelTemp 0 l);
  mret (l, snd aw).

(** The loop that maps devices: over the physical tree, changing its regions, and inserting into the virtual one. *)
Fixpoint map_devices (t : tree) (l : KMemoryLayout) (words : list Z) : outcome (tree * KMemoryLayout * list Z) :=
  match t with
  | [] => mret ([], l, words)
  | region :: t =>
      if negb (IsDerivedFrom region KMemoryRegionType_Kernel) || negb (HasTypeAttribute region KMemoryRegionAttr_ShouldKernelMap)
         || HasTypeAttribute region KMemoryRegionAttr_DidKernelMap
      then r ← map_devices t l words; let '(t, l, words) := r in mret (region :: t, l, words)
      else
        ASSERT (negb (GetEndAddress region =? 0)) ≫= fun _ =>
        let region := SetTypeAttribute KMemoryRegionAttr_DidKernelMap region in
        let map_phys_addr := AlignDown 64 (m_address region) PageSize in
        let map_size := u64 (AlignUp 64 (GetEndAddress region) PageSize - map_phys_addr) in
        aw ← GetRandomAlignedRegionWithGuard map_size PageSize KMemoryRegionType_KernelMisc PageSize (m_virtual_tree l) words;
        let map_virt_addr := fst aw in
        l ← assert_ok (InsertVirtual map_virt_addr map_size KMemoryRegionType_KernelMiscMappedDevice 0 l);
        let region := SetPairAddress (u64 (u64 (map_virt_addr + m_address region) - map_phys_addr)) region in
        r ← map_devices t l (snd aw);
        let '(t, l, words) := r in mret (region :: t, l, words)
  end.

(** The physical regions of the kernel in the main memory; the answer has the end of the resource region. *)
Definition setup_kernel_dram (slab_region_size : Z) (l : KMemoryLayout) : outcome (KMemoryLayout * Z) :=
  let code_start_phys_addr := KernelPhysicalAddressCodeBase in
  let code_end_phys_addr := u64 (code_start_phys_addr + code_region_size) in
  let slab_start_phys_addr := code_end_phys_addr in
  let slab_end_phys_addr := u64 (slab_start_phys_addr + slab_region_size) in
  let resource_region_size := GetResourceRegionSizeForInit ShouldIncreaseThreadResourceLimit in
  l ← insert_all [(code_start_phys_addr, code_region_size, GetValue KMemoryRegionType_DramKernelCode);
                  (slab_start_phys_addr, slab_region_size, GetValue KMemoryRegionType_DramKernelSlab)] l;
  let secure_applet_end_phys_addr := u64 (slab_end_phys_addr + SecureAppletMemorySize) in
  l ← (if 0 <? SecureAppletMemorySize
       then insert_all [(slab_end_phys_addr, SecureAppletMemorySize, GetValue KMemoryRegionType_DramKernelSecureAppletMemory)] l
       else mret l);
  let SecureUnknownRegionSize := 0 in
  let secure_unknown_end_phys_addr := u64 (secure_applet_end_phys_addr + SecureUnknownRegionSize) in
  l ← (if 0 <? SecureUnknownRegionSize
       then insert_all [(secure_applet_end_phys_addr, SecureUnknownRegionSize, GetValue KMemoryRegionType_DramKernelSecureUnknown)] l
       else mret l);
  let resource_end_phys_addr := u64 (slab_start_phys_addr + resource_region_size) in
  let page_table_heap_size := u64 (resource_end_phys_addr - secure_unknown_end_phys_addr) in
  ASSERT (2 <? page_table_heap_size / MiB 4) ≫= fun _ =>
  l ← insert_all [(secure_unknown_end_phys_addr, page_table_heap_size, GetValue KMemoryRegionType_DramKernelPtHeap)] l;
  mret (l, resource_end_phys_addr).

(** The main memory without a tag is mapped linearly. *)
Fixpoint tag_linear (t : tree) : outcome tree :=
  match t with
  | [] => mret []
  | region :: t =>
      region ← (if m_type_id region =? KMemoryRegionType_Dram then
                  ASSERT (negb (GetEndAddress region =? 0)) ≫= fun _ => mret (SetTypeAttribute KMemoryRegionAttr_LinearMapped region)
                else mret region);
      t ← tag_linear t;
      mret (region :: t)
  end.

(** [FindModifiable] followed by [SetPairAddress] on what it finds. *)
Definition set_virtual_pair (address pair : Z) (l : KMemoryLayout) : outcome KMemoryLayout :=
  match FindModifiable address (m_virtual_tree l) with
  | None => Undef
  | Some i => match m_virtual_tree l !! i with
              | None => Undef
              | Some r => mret (with_virtual (<[i := SetPairAddress pair r]> (m_virtual_tree l)) (m_num_regions l) l)
              end
  end.

(** The loop over the linearly mapped regions; the running extents [cur_phys_addr] and [cur_size] are not read
    after it. *)
Fixpoint map_linear (diff : Z) (t : tree) (l : KMemoryLayout) : outcome (tree * KMemoryLayout) :=
  match t with
  | [] => mret ([], l)
  | region :: t =>
      if negb (HasTypeAttribute region KMemoryRegionAttr_LinearMapped) then
        r ← map_linear diff t l; mret (region :: fst r, snd r)
      else
        ASSERT (negb (GetEndAddress region =? 0)) ≫= fun _ =>
        let region_virt_addr := u64 (m_address region + diff) in
        l ← assert_ok (InsertVirtual region_virt_addr (GetSize region) (GetTypeForVirtualLinearMapping (m_type_id region)) 0 l);
        let region := SetPairAddress region_virt_addr region in
        l ← set_virtual_pair region_virt_addr (m_address region) l;
        r ← map_linear diff t l;
        mret (region :: fst r, snd r)
  end.

(** What is mapped linearly and has no tag belongs to the pools. *)
Fixpoint tag_pools (t : tree) : outcome tree :=
  match t with
  | [] => mret []
  | region :: t =>
      region ← (if m_type_id region =? (KMemoryRegionType_Dram .| KMemoryRegionAttr_LinearMapped)
                then SetType KMemoryRegionType_DramPoolPartition region else mret region);
      t ← tag_pools t;
      mret (region :: t)
  end.

(** The linear mapping: its place, the virtual regions of it, and the initial page tables; the answer has
    the aligned physical start and the virtual start. *)
Definition setup_linear (resource_end_phys_addr : Z) (l : KMemoryLayout) (words : list Z) : outcome (KMemoryLayout * Z * Z * list Z) :=
  linear_extents ← GetDerivedRegionExtents KMemoryRegionAttr_LinearMapped (m_physical_tree l);
  ASSERT (negb (Extents_GetEndAddress linear_extents =? 0)) ≫= fun _ =>
  let LinearRegionAlign := GiB 1 in
  let aligned_linear_phys_start := AlignDown 64 (Extents_GetAddress linear_extents) LinearRegionAlign in
  let linear_region_size := u64 (AlignUp 64 (Extents_GetEndAddress linear_extents) LinearRegionAlign - aligned_linear_phys_start) in
  aw ← GetRandomAlignedRegionWithGuard linear_region_size LinearRegionAlign KMemoryRegionType_None LinearRegionAlign (m_virtual_tree l) words;
  let linear_region_start := fst aw in
  let linear_region_phys_to_virt_diff := u64 (linear_region_start - aligned_linear_phys_start) in
  r ← map_linear linear_region_phys_to_virt_diff (m_physical_tree l) l;
  let l := with_physical (fst r) (m_num_regions (snd r)) (snd r) in
  l ← assert_ok (InsertPhysical resource_end_phys_addr KernelPageTableHeapSize KMemoryRegionType_DramKernelInitPt 0 l);
  l ← assert_ok (InsertVirtual (u64 (resource_end_phys_addr + linear_region_phys_to_virt_diff)) KernelPageTableHeapSize
                   KMemoryRegionType_VirtualDramKernelInitPt 0 l);
  mret (l, aligned_linear_phys_start, linear_region_start, snd aw).

Definition DeriveInitialMemoryLayout (words : list Z) : outcome (KMemoryLayout * list Z) :=
  let slab_region_size := AlignUp 64 (CalculateTotalSlabHeapSize InitializeSlabResourceCounts) PageSize in
  l ← setup_kernel_region KMemoryLayout_new;
  lw ← setup_random_regions slab_region_size l words;
  tlw ← map_devices (m_physical_tree (fst lw)) (fst lw) (snd lw);
  let '(t, l, words) := tlw in
  let l := with_physical t (m_num_regions l) l in
  l ← SetupDramPhysicalMemoryRegions mode l;
  le ← setup_kernel_dram slab_region_size l;
  let '(l, resource_end_phys_addr) := le in
  t ← tag_linear (m_physical_tree l);
  lsw ← setup_linear resource_end_phys_addr (with_physical t (m_num_regions l) l) words;
  let '(l, aligned_linear_phys_start, linear_region_start, words) := lsw in
  t ← tag_pools (m_physical_tree l);
  l ← SetupPoolPartitionMemoryRegions mode (with_physical t (m_num_regions l) l);
  l ← InitializeLinearMemoryRegionTrees aligned_linear_phys_start linear_region_start l;
  mret (l, words).

End Boot.

(** ** What a layout must be *)

Fixpoint tree_check (lo : Z) (t : tree) : bool :=
  match t with
  | [] => true
  | r :: t' => (lo <=? m_address r) && (0 <=? m_address r) && (m_address r <=? m_last_address r) && (m_last_address r <? 2 ^ 64) &&
      (0 <=? m_pair_address r) &&
      ((m_pair_address r =? u64_max) || (m_pair_address r + (m_last_address r - m_address r) <? u64_max)) && tree_check (m_last_address r + 1) t'
  end.

Lemma tree_check_sound lo t : tree_check lo t = true -> regions_from lo t.
Proof.
  revert lo. induction t as [|r t IH]; intros lo; [done|]. cbn [tree_check]. rewrite !andb_true_iff, orb_true_iff, !Z.leb_le, !Z.ltb_lt, Z.eqb_eq.
  intros ((((((H1 & H2) & H3) & H4) & H5) & H6) & H7). split; [done|]. split; [|by apply IH]. unfold region_wf. tauto.
Qed.

Fixpoint gapless_check (t : tree) : bool :=
  match t with
  | r :: ((r' :: _) as t') => (m_address r' =? m_last_address r + 1) && gapless_check t'
  | _ => true
  end.

Lemma gapless_check_sound t : gapless_check t = true -> gapless t.
Proof.
  induction t as [|r [|r' t] IH]; [done..|]. cbn [gapless_check gapless]. rewrite andb_true_iff, Z.eqb_eq. intros [H1 H2]. split; [done|by apply IH].
Qed.

(** A tree without gaps has a region for every address between its ends. *)
Lemma gapless_covers lo t first last x : regions_from lo t -> gapless t -> head t = Some first -> list.last t = Some last ->
  m_address first <= x <= m_last_address last -> region_of t x <> None.
Proof.
  revert lo first. induction t as [|r t IH]; intros lo first W G; [done|]. intros [= <-] Hl Hx. destruct W as (W1 & W2 & W3).
  unfold region_of. simpl. destruct (in_region r x) eqn:E; [done|]. destruct t as [|r' t].
  - injection Hl as <-. apply not_true_iff_false in E. rewrite in_region_spec in E. lia.
  - destruct G as [G1 G2]. apply (IH (m_last_address r + 1) r'); try done. apply not_true_iff_false in E. rewrite in_region_spec in E. lia.
Qed.

(** The bytes of the regions of a type. *)
Definition bytes_of (type : Z) (t : tree) : Z :=
  fold_right (fun r n => (if IsDerivedFrom r type then m_last_address r + 1 - m_address r else 0) + n) 0 t.

(** The virtual region that mirrors a physical one. *)
Definition mirrors (l : KMemoryLayout) (r v : KMemoryRegion) : Prop :=
  m_address v = m_pair_address r /\ m_address v = GetLinearVirtualAddress l (m_address r) /\ m_pair_address v = m_address r /\
  m_last_address v - m_address v = m_last_address r - m_address r /\ m_attributes v = m_attributes r.
Definition mirrors_check (l : KMemoryLayout) (r : KMemoryRegion) : bool :=
  match Find (m_pair_address r) (m_virtual_tree l) with
  | None => false
  | Some v => (m_address v =? m_pair_address r) && (m_address v =? GetLinearVirtualAddress l (m_address r)) && (m_pair_address v =? m_address r) &&
      (m_last_address v - m_address v =? m_last_address r - m_address r) && (m_attributes v =? m_attributes r)
  end.

Record layout_ok (mode : MemoryMode) (l : KMemoryLayout) : Prop := {
  lo_virtual : tree_wf (m_virtual_tree l) /\ gapless (m_virtual_tree l);
  lo_physical : tree_wf (m_physical_tree l) /\ gapless (m_physical_tree l);
  lo_linear : tree_wf (m_physical_linear_tree l) /\ gapless (m_physical_linear_tree l) /\ below_end (m_physical_linear_tree l);
  lo_virtual_linear : tree_wf (m_virtual_linear_tree l) /\ gapless (m_virtual_linear_tree l) /\ below_end (m_virtual_linear_tree l);
  lo_all_virtual x : KernelVirtualAddressSpaceBase <= x <= KernelVirtualAddressSpaceLast -> region_of (m_virtual_tree l) x <> None;
  lo_all_physical x : 0 <= x <= KernelPhysicalAddressSpaceLast -> region_of (m_physical_tree l) x <> None;
  lo_total : fst (GetTotalAndKernelMemorySizes l) = GetIntendedMemorySize mode;
  lo_application : bytes_of KMemoryRegionType_DramApplicationPool (m_physical_tree l) = GetApplicationPoolSize mode;
  lo_applet : bytes_of KMemoryRegionType_DramAppletPool (m_physical_tree l) = GetAppletPoolSize mode;
  lo_nonsecure : GetMinimumNonSecureSystemPoolSize <= bytes_of KMemoryRegionType_DramSystemNonSecurePool (m_physical_tree l);
  lo_mirror r : r ∈ m_physical_tree l -> HasTypeAttribute r KMemoryRegionAttr_LinearMapped = true ->
    exists v, Find (m_pair_address r) (m_virtual_tree l) = Some v /\ mirrors l r v
}.

Definition span_check (lo hi : Z) (t : tree) : bool :=
  match head t, list.last t with Some f, Some l => (m_address f <=? lo) && (hi <=? m_last_address l) | _, _ => false end.
Definition linear_check (t : tree) : bool := tree_check 0 t && gapless_check t && forallb (fun r => m_last_address r <? u64_max) t.

Definition layout_check (mode : MemoryMode) (l : KMemoryLayout) : bool :=
  tree_check 0 (m_virtual_tree l) && gapless_check (m_virtual_tree l) && tree_check 0 (m_physical_tree l) && gapless_check (m_physical_tree l) &&
  linear_check (m_physical_linear_tree l) && linear_check (m_virtual_linear_tree l) &&
  span_check KernelVirtualAddressSpaceBase KernelVirtualAddressSpaceLast (m_virtual_tree l) &&
  span_check 0 KernelPhysicalAddressSpaceLast (m_physical_tree l) &&
  (fst (GetTotalAndKernelMemorySizes l) =? GetIntendedMemorySize mode) &&
  (bytes_of KMemoryRegionType_DramApplicationPool (m_physical_tree l) =? GetApplicationPoolSize mode) &&
  (bytes_of KMemoryRegionType_DramAppletPool (m_physical_tree l) =? GetAppletPoolSize mode) &&
  (GetMinimumNonSecureSystemPoolSize <=? bytes_of KMemoryRegionType_DramSystemNonSecurePool (m_physical_tree l)) &&
  forallb (fun r => negb (HasTypeAttribute r KMemoryRegionAttr_LinearMapped) || mirrors_check l r) (m_physical_tree l).

Lemma span_check_sound lo hi t x : tree_wf t -> gapless t -> span_check lo hi t = true -> lo <= x <= hi -> region_of t x <> None.
Proof.
  unfold span_check. intros W G. destruct (head t) as [f|] eqn:Ef; [|done]. destruct (list.last t) as [la|] eqn:El; [|done].
  intros [H1%Z.leb_le H2%Z.leb_le]%andb_true_iff Hx. apply (gapless_covers 0 t f la); (done || lia).
Qed.

Lemma linear_check_sound t : linear_check t = true -> tree_wf t /\ gapless t /\ below_end t.
Proof.
  unfold linear_check. intros [[H1 H2]%andb_true_iff H3]%andb_true_iff. split; [by apply tree_check_sound|]. split; [by apply gapless_check_sound|].
  unfold below_end. rewrite list.Forall_forall. intros r Hr. rewrite forallb_forall in H3. apply Z.ltb_lt, H3. by apply list_elem_of_In.
Qed.

Lemma layout_check_sound mode l : layout_check mode l = true -> layout_ok mode l.
Proof.
  unfold layout_check. rewrite !andb_true_iff. intros ((((((((((((H1 & H2) & H3) & H4) & H5) & H6) & H7) & H8) & H9) & H10) & H11) & H12) & H13).
  apply tree_check_sound in H1, H3. apply gapless_check_sound in H2, H4. apply linear_check_sound in H5, H6.
  split; try done; try (by apply Z.eqb_eq); try (by apply Z.leb_le).
  - intros x. by apply span_check_sound.
  - intros x. by apply span_check_sound.
  - intros r Hr Hl. rewrite forallb_forall in H13. specialize (H13 r). rewrite Hl in H13. cbn [negb orb] in H13.
    unfold mirrors_check in H13. specialize (H13 ltac:(by apply list_elem_of_In)). destruct (Find _ _) as [v|]; [|done]. exists v. split; [done|].
    rewrite !andb_true_iff, !Z.eqb_eq in H13. unfold mirrors. tauto.
Qed.

(** ** Booting *)

Definition boot_words : list Z := [100; 200; 300; 400; 5; 77; 99; 1000; 120; 555; 333; 222; 31; 8; 7; 6].

Definition boot (mode : MemoryMode) : outcome (KMemoryLayout * list Z) := DeriveInitialMemoryLayout (OL := demo_objects) mode boot_words.
Definition booted (mode : MemoryMode) : KMemoryLayout := match boot mode with Done _ (l, _) => l | Undef => KMemoryLayout_new end.

Lemma booted_check mode : match boot mode with Done true (l, _) => layout_check mode l | _ => false end = true.
Proof. destruct mode; vm_compute; reflexivity. Qed.

Lemma booted_run mode : exists rest, boot mode = Done true (booted mode, rest) /\ layout_ok mode (booted mode).
Proof.
  pose proof (booted_check mode) as H. unfold booted. destruct (boot mode) as [|[] [l rest]]; [done| |done]. exists rest. split; [done|].
  by apply layout_check_sound.
Qed.

(** The memory layout in each memory mode: with the given random words the whole derivation passes its assertions and
    the layout has all the properties of [layout_ok]. *)
Theorem boot_layout mode : exists l rest, boot mode = Done true (l, rest) /\ layout_ok mode l.
Proof. destruct (booted_run mode) as (rest & H). exists (booted mode), rest. exact H. Qed.

(** The memory of the slab heaps is not the memory the layout reserves for them: the translation of the start of the
    virtual slab region is 140 KiB past the start of the physical one, so the heaps reach into the region behind it. *)
Lemma slab_memory_outside_region : let l := booted Memory_4Gb in
  match GetSlabRegion l, FindByType KMemoryRegionType_DramKernelSlab (m_physical_tree l) with
  | Done true slab, Some r =>
      KMemoryRegion.GetSize r = KMemoryRegion.GetSize slab /\ TranslateSlabAddrToPhysical l (m_address slab) = Done true (m_address r + KiB 140)
  | _, _ => False
  end.
Proof. vm_compute. split; reflexivity. Qed.
