(* ===== verification/KMemoryManagerInit.v ===== *)
(** * KMemoryManagerInit: how the memory manager takes over the pools

    Models [KMemoryManager::Initialize] and [GetPoolFromMemoryRegionType] of core/hle/kernel/k_memory_manager.cpp and
    initial_process.h: one manager for each attribute of a pool region of the physical tree, in the order of the
    attributes, linked into the list of its pool; then the memory of the regions is freed into the heaps of their
    managers, except for the image of the initial processes.

    The theorem says that afterwards the memory manager satisfies the invariant that the theorems of
    KMemoryManager.v start from: the available pages are exactly those of the pool regions, no page has references, and
    the lists of each pool hold its managers in order, forwards and backwards. *)

From S2P Require Import Prelude Common TinyMT KPageBitmap KPageHeap KPageHeapUsage KMemoryManager KMemoryRegionType KMemoryRegion KMemoryLayout.
From S2P Require Import InitSlabSetup KernelBoot.
#[local] Open Scope Z_scope.

Definition InitialProcessBinarySizeMax : Z := MiB 12.
Definition MainMemoryAddress : Z := 0x80000000.
Definition GetInitialProcessBinaryPhysicalAddress (mode : MemoryMode) : Z := GetKernelPhysicalBaseAddress mode MainMemoryAddress.
Definition GetInitialProcessBinarySize : Z := InitialProcessBinarySizeMax.

(** The last case is UNREACHABLE. *)
Definition GetPoolFromMemoryRegionType (type : Z) : outcome Z :=
  if (type .| KMemoryRegionType_DramApplicationPool) =? type then mret Pool.Application
  else if (type .| KMemoryRegionType_DramAppletPool) =? type then mret Pool.Applet
  else if (type .| KMemoryRegionType_DramSystemPool) =? type then mret Pool.System
  else if (type .| KMemoryRegionType_DramSystemNonSecurePool) =? type then mret Pool.SystemNonSecure
  else Undef.

(** The inner loop of the first part: address, size and pool of the memory of manager [num]. *)
Fixpoint find_region (num : Z) (t : tree) (region_address region_size region_pool : Z) : outcome (Z * Z * Z) :=
  match t with
  | [] => mret (region_address, region_size, region_pool)
  | it :: t =>
      if negb (IsDerivedFrom it KMemoryRegionType_DramUserPool) then find_region num t region_address region_size region_pool
      else if negb (m_attributes it =? num) then find_region num t region_address region_size region_pool
      else
        let cur_start := m_address it in
        let cur_end := KMemoryRegion.GetEndAddress it in
        ASSERT (negb (cur_end =? 0));;
        ASSERT (negb (cur_start =? 0));;
        ASSERT (0 <? KMemoryRegion.GetSize it);;
        if region_address =? 0 then
          pool ← GetPoolFromMemoryRegionType (m_type_id it);
          find_region num t cur_start (KMemoryRegion.GetSize it) pool
        else
          ASSERT (cur_start =? u64 (region_address + region_size));;
          let region_size := u64 (cur_end - region_address) in
          pool ← GetPoolFromMemoryRegionType (m_type_id it);
          ASSERT (pool =? region_pool);;
          find_region num t region_address region_size region_pool
  end.

Section Initialize.
Context {S : Type} {ES : EntropySource S} {B : Type} {FB : FreeBitmap B}.
Notation impl := (Impl (S := S) (B := B)).
Notation manager := (KMemoryManager (S := S) (B := B)).

Definition SetNext (n : option nat) (p : impl) : impl :=
  mkImpl (m_heap p) (m_page_reference_counts p) (m_management_region p) (m_pool p) n (m_prev p) (optimize_map p).
Definition SetPrev (n : option nat) (p : impl) : impl :=
  mkImpl (m_heap p) (m_page_reference_counts p) (m_management_region p) (m_pool p) (m_next p) n (optimize_map p).

(** Manager [i] becomes the last one of its pool. *)
Definition append_manager (pool : Z) (i : nat) (mm : manager) : outcome manager :=
  tail ← arr_get (m_pool_managers_tail mm) pool;
  hm ← match tail with
       | None => heads ← arr_set (m_pool_managers_head mm) pool (Some i); mret (heads, m_managers mm)
       | Some last =>
           p ← arr_get (m_managers mm) (Z.of_nat last);
           l ← arr_set (m_managers mm) (Z.of_nat last) (SetNext (Some i) p);
           p ← arr_get l (Z.of_nat i);
           l ← arr_set l (Z.of_nat i) (SetPrev (Some last) p);
           mret (m_pool_managers_head mm, l)
       end;
  tails ← arr_set (m_pool_managers_tail mm) pool (Some i);
  mret (mkMemory (fst hm) tails (snd hm) (m_num_managers mm) (m_optimized_process_ids mm) (m_has_optimized_process mm)).

(** The first part; [hosts] says where the host puts the bitmaps of each manager. *)
Fixpoint init_managers (fuel : nat) (intended : Z) (hosts : nat -> Z) (t : tree) (management_region management_region_end : Z) (mm : manager) :
    outcome (Z * manager) :=
  match fuel with
  | O => mret (management_region, mm)
  | Datatypes.S fuel =>
      r ← find_region (Z.of_nat (m_num_managers mm)) t 0 0 Pool.Count;
      let '(region_address, region_size, region_pool) := r in
      if region_size =? 0 then mret (management_region, mm)
      else
        let i := m_num_managers mm in
        p ← arr_get (m_managers mm) (Z.of_nat i);
        ASSERT (Z.of_nat (Datatypes.S i) <=? Z.of_nat (length (m_managers mm)));;
        sp ← Impl_Initialize intended (hosts i) region_address region_size management_region management_region_end region_pool p;
        let '(cur_size, p) := sp in
        let management_region := u64 (management_region + cur_size) in
        ASSERT (management_region <=? management_region_end);;
        mm ← append_manager region_pool i
               (mkMemory (m_pool_managers_head mm) (m_pool_managers_tail mm) (<[i := p]> (m_managers mm)) (Datatypes.S i)
                  (m_optimized_process_ids mm) (m_has_optimized_process mm));
        init_managers fuel intended hosts t management_region management_region_end mm
  end.

(** The second part: the memory goes to the heaps, and the image of the initial processes is reserved. *)
Fixpoint free_regions (ini_start ini_size : Z) (t : tree) (mm : manager) (reserved_sizes : list Z) : outcome (manager * list Z) :=
  match t with
  | [] => mret (mm, reserved_sizes)
  | it :: t =>
      if IsDerivedFrom it KMemoryRegionType_DramUserPool then
        let ini_end := u64 (ini_start + ini_size) in
        let ini_last := u64 (ini_end - 1) in
        p ← arr_get (m_managers mm) (m_attributes it);
        let cur_start := m_address it in
        let cur_last := m_last_address it in
        let cur_end := KMemoryRegion.GetEndAddress it in
        pr ← (if (cur_start <=? ini_start) && (ini_last <=? cur_last) then
                p ← (if negb (cur_start =? ini_start) then Impl_Free cur_start (u64 (ini_start - cur_start) / PageSize) p else mret p);
                p ← Impl_OpenFirst ini_start (ini_size / PageSize) p;
                res ← arr_get reserved_sizes (m_attributes it);
                reserved_sizes ← arr_set reserved_sizes (m_attributes it) (u64 (res + ini_size));
                p ← (if negb (ini_last =? cur_last) then
                       ASSERT (negb (cur_end =? 0));; Impl_Free ini_end (u64 (cur_end - ini_end) / PageSize) p
                     else mret p);
                mret (p, reserved_sizes)
              else
                ASSERT (if cur_start <=? ini_last then cur_last <? ini_start else negb (cur_end =? 0));;
                p ← Impl_Free cur_start (KMemoryRegion.GetSize it / PageSize) p;
                mret (p, reserved_sizes));
        free_regions ini_start ini_size t (set_manager (Z.to_nat (m_attributes it)) (fst pr) mm) (snd pr)
      else free_regions ini_start ini_size t mm reserved_sizes
  end.

(** The third part: the memory that is in use from the start. *)
Fixpoint set_used (n i : nat) (reserved_sizes : list Z) (mm : manager) : outcome manager :=
  match n with
  | O => mret mm
  | Datatypes.S n =>
      p ← arr_get (m_managers mm) (Z.of_nat i);
      res ← arr_get reserved_sizes (Z.of_nat i);
      p ← SetInitialUsedHeapSize res p;
      set_used n (Datatypes.S i) reserved_sizes (set_manager i p mm)
  end.

Definition KMemoryManager_Initialize (mode : MemoryMode) (hosts : nat -> Z) (t : tree) (management_region management_region_size : Z)
    (mm : manager) : outcome manager :=
  let management_region_end := u64 (management_region + management_region_size) in
  let mm := mkMemory (m_pool_managers_head mm) (m_pool_managers_tail mm) (m_managers mm) 0
              (m_optimized_process_ids mm) (m_has_optimized_process mm) in
  r ← init_managers (Z.to_nat MaxManagerCount) (GetIntendedMemorySize mode) hosts t management_region management_region_end mm;
  fr ← free_regions (GetInitialProcessBinaryPhysicalAddress mode) GetInitialProcessBinarySize t (snd r)
         (replicate (Z.to_nat MaxManagerCount) 0);
  set_used (m_num_managers (fst fr)) 0 (snd fr) (fst fr).

End Initialize.

(** ** The pools as the tree has them *)

(** Regions are different from each other. *)
Lemma regions_NoDup lo t : regions_from lo t -> NoDup t.
Proof.
  revert lo. induction t as [|r t IH]; intros lo; [constructor|]. intros (H1 & (H2 & _) & H3). apply NoDup_cons_2; [|by eapply IH].
  intros Hin. pose proof (regions_ordered _ _ H3) as Ho. rewrite list.Forall_forall in Ho. specialize (Ho r Hin). simpl in Ho. lia.
Qed.

Lemma elem_region_wf t r : tree_wf t -> r ∈ t -> region_wf r.
Proof.
  intros W Hr. apply list_elem_of_split in Hr as (d & u & ->). apply regions_from_app in W as (_ & ? & _ & _ & (_ & ? & _)). done.
Qed.

Section Pools.
(** The tree, the number of managers, and the region and pool of each; the overhead of the managers fits
    the management region and the initial processes lie outside the pools. *)
Context (t : tree) (n : nat) (reg : nat -> KMemoryRegion) (pool : nat -> Z).
Context (intended ini_start ini_size management management_end : Z) (hosts : nat -> Z).

Definition reg_size (i : nat) : Z := m_last_address (reg i) + 1 - m_address (reg i).

Fixpoint overhead (k : nat) : Z :=
  match k with O => 0 | Datatypes.S k => overhead k + Impl_CalculateManagementOverheadSize (reg_size k) end.

Record pools_ok : Prop := {
  po_tree : tree_wf t;
  po_num : (n <= 10)%nat;
  po_reg i : (i < n)%nat -> reg i ∈ t /\ IsDerivedFrom (reg i) KMemoryRegionType_DramUserPool = true /\ m_attributes (reg i) = Z.of_nat i;
  po_all r : r ∈ t -> IsDerivedFrom r KMemoryRegionType_DramUserPool = true -> exists i, (i < n)%nat /\ r = reg i;
  po_pool i : (i < n)%nat -> GetPoolFromMemoryRegionType (m_type_id (reg i)) = Done true (pool i) /\ 0 <= pool i < 4;
  po_size i : (i < n)%nat -> 0 < m_address (reg i) /\ (4096 | m_address (reg i)) /\ (4096 | reg_size i) /\ reg_size i <= 2 ^ 35 /\
    reg_size i <= intended /\ m_last_address (reg i) < 2 ^ 44 - 1;
  po_ini i : (i < n)%nat -> ini_start + ini_size <= m_address (reg i) \/ m_last_address (reg i) < ini_start;
  po_ini_range : 0 <= ini_start /\ 0 < ini_size /\ ini_start + ini_size < 2 ^ 64;
  po_mgmt : 0 <= management /\ (4096 | management) /\ management + overhead n <= management_end < 2 ^ 64;
  po_hosts i : (i < n)%nat -> 0 <= hosts i /\ hosts i + Impl_CalculateManagementOverheadSize (reg_size i) <= management
}.

Context (PO : pools_ok).

Lemma reg_bounds i : (i < n)%nat -> 0 < m_address (reg i) <= m_last_address (reg i) /\ m_last_address (reg i) < 2 ^ 44 - 1 /\
  KMemoryRegion.GetEndAddress (reg i) = m_last_address (reg i) + 1 /\ KMemoryRegion.GetSize (reg i) = reg_size i.
Proof.
  intros Hi. destruct (po_reg PO i Hi) as (Hr & _). destruct (po_size PO i Hi) as (H1 & _ & _ & _ & _ & H2).
  destruct (elem_region_wf _ _ (po_tree PO) Hr) as ((H3 & H4) & _).
  assert (KMemoryRegion.GetEndAddress (reg i) = m_last_address (reg i) + 1) as E by (apply u64_small; lia).
  split_and!; try (done || lia). unfold KMemoryRegion.GetSize. rewrite E. apply u64_small. unfold reg_size. lia.
Qed.

Lemma find_region_skip num l a s p : (forall r, r ∈ l -> IsDerivedFrom r KMemoryRegionType_DramUserPool = true -> m_attributes r <> num) ->
  forall rest, find_region num (l ++ rest) a s p = find_region num rest a s p.
Proof.
  intros Hl rest. induction l as [|r l IH]; [done|]. cbn [find_region app].
  destruct (IsDerivedFrom r KMemoryRegionType_DramUserPool) eqn:E; cbn [negb].
  - rewrite (proj2 (Z.eqb_neq (m_attributes r) num)) by (apply Hl; [left|done]). cbn [negb]. apply IH. intros r' Hr'. apply Hl. by right.
  - apply IH. intros r' Hr'. apply Hl. by right.
Qed.

(** The search finds the region of manager [k]. *)
Lemma find_region_spec k : find_region (Z.of_nat k) t 0 0 Pool.Count =
  if decide (k < n)%nat then Done true (m_address (reg k), reg_size k, pool k) else Done true (0, 0, Pool.Count).
Proof.
  destruct (decide (k < n)%nat) as [Hk|Hk].
  - destruct (po_reg PO k Hk) as (Hin & Hd & Ha). destruct (reg_bounds k Hk) as (H1 & H2 & H3 & H4).
    pose proof (regions_NoDup _ _ (po_tree PO)) as Hnd. apply list_elem_of_split in Hin as (d & u & E).
    assert (forall r, r ∈ d ++ u -> IsDerivedFrom r KMemoryRegionType_DramUserPool = true -> m_attributes r <> Z.of_nat k) as Hother.
    { intros r Hr Hrd Hra. destruct (po_all PO r) as (i & Hi & ->); [|done|].
      - rewrite E. apply elem_of_app in Hr as [?|?]; apply elem_of_app; [by left|right; by right].
      - destruct (po_reg PO i Hi) as (_ & _ & Hai). assert (i = k) as -> by lia. rewrite E in Hnd.
        apply list.NoDup_app in Hnd as (_ & Hdis & Hnd). apply list.NoDup_cons in Hnd as [Hnd _]. apply elem_of_app in Hr as [Hr|Hr]; [|done].
        apply (Hdis _ Hr). by left. }
    rewrite E, find_region_skip by (intros r Hr; apply Hother, elem_of_app; by left). cbn [find_region].
    rewrite Hd, Ha, Z.eqb_refl. cbn [negb]. rewrite H3, H4. unfold reg_size in *.
    do 3 (rewrite bind_assert_true by (try apply negb_true_iff, Z.eqb_neq; try apply Z.ltb_lt; lia)). 
    rewrite Z.eqb_refl, (proj1 (po_pool PO k Hk)). ostep.
    rewrite <- (app_nil_r u), find_region_skip; [done|]. intros r Hr. apply Hother, elem_of_app. by right.
  - rewrite <- (app_nil_r t), find_region_skip; [done|]. intros r Hr Hd Ha. destruct (po_all PO r Hr Hd) as (i & Hi & ->).
    destruct (po_reg PO i Hi) as (_ & _ & Hai). lia.
Qed.

Lemma pool_overhead_mono k k' : (k <= k')%nat -> overhead k <= overhead k'.
Proof.
  induction 1 as [|k' _ IH]; [lia|]. cbn [overhead]. unfold Impl_CalculateManagementOverheadSize.
  pose proof (u64_range (AlignUp 64 (u64 (u64 (AlignUp 64 (reg_size k' / KPageHeap.PageSize) 64 / 64 * 8) + u64 (reg_size k' / KPageHeap.PageSize * 2)))
    KPageHeap.PageSize + Heap_CalculateManagementOverheadSize (reg_size k') MemoryBlockPageShifts)). lia.
Qed.

(** *** The managers of a pool *)

#[local] Notation last := list.last.

Definition ids (P : Z) (a m : nat) : list nat := filter (fun j => pool j = P) (seq a m).
Definition next_id (i k : nat) : option nat := head (ids (pool i) (Datatypes.S i) (k - Datatypes.S i)).
Definition prev_id (i : nat) : option nat := last (ids (pool i) 0 i).

Lemma ids_app P a m m' : ids P a (m + m') = ids P a m ++ ids P (a + m) m'.
Proof. unfold ids. by rewrite seq_app, list.filter_app. Qed.

Lemma ids_snoc P a m : ids P a (Datatypes.S m) = ids P a m ++ (if decide (pool (a + m) = P) then [(a + m)%nat] else []).
Proof.
  replace (Datatypes.S m) with (m + 1)%nat by lia. rewrite ids_app. f_equal.
Qed.

Lemma ids_elem P a m j : j ∈ ids P a m -> (a <= j < a + m)%nat /\ pool j = P.
Proof. unfold ids. rewrite list_elem_of_filter, elem_of_seq. lia. Qed.

(** The last manager of a pool is the one of the pool without a next one. *)
Lemma last_id i k : (i < k)%nat -> last (ids (pool i) 0 k) = Some i <-> ids (pool i) (Datatypes.S i) (k - Datatypes.S i) = [].
Proof.
  intros Hi. replace k with (Datatypes.S i + (k - Datatypes.S i))%nat at 1 by lia.
  rewrite ids_app, ids_snoc, decide_True by (by f_equal). cbn [Nat.add].
  destruct (ids (pool i) (Datatypes.S i) (k - Datatypes.S i)) as [|j l] eqn:E.
  - rewrite app_nil_r, list.last_snoc. done.
  - split; [|done]. rewrite list.last_app_cons. intros Hl. apply list.last_Some_elem_of in Hl. rewrite <- E in Hl. apply ids_elem in Hl. lia.
Qed.

Lemma last_id_inv P k i : last (ids P 0 k) = Some i -> (i < k)%nat /\ pool i = P.
Proof. intros H%list.last_Some_elem_of%ids_elem. lia. Qed.

(** Adding manager [k]. *)
Lemma next_id_step i k : (i < k)%nat ->
  next_id i (Datatypes.S k) = if decide (last (ids (pool k) 0 k) = Some i) then Some k else next_id i k.
Proof.
  intros Hi. unfold next_id. replace (Datatypes.S k - Datatypes.S i)%nat with (Datatypes.S (k - Datatypes.S i)) by lia. rewrite ids_snoc.
  replace (Datatypes.S i + (k - Datatypes.S i))%nat with k by lia. destruct (decide (last (ids (pool k) 0 k) = Some i)) as [H|H].
  - destruct (last_id_inv _ _ _ H) as [_ Hp]. rewrite <- Hp in H. apply last_id in H; [|done]. rewrite H, decide_True by done. done.
  - destruct (decide (pool k = pool i)) as [E|E]; [|by rewrite app_nil_r]. rewrite E in H. rewrite (last_id i k Hi) in H.
    by destruct (ids (pool i) (Datatypes.S i) (k - Datatypes.S i)).
Qed.

Section Phase1.
Context {S : Type} {ES : EntropySource S} {B : Type} {FB : FreeBitmap B}.
Implicit Types (mm : KMemoryManager (S := S) (B := B)) (p : Impl (S := S) (B := B)).

(** A manager as its constructor leaves it. *)
Definition fresh_impl p : Prop :=
  length (m_blocks (m_heap p)) = 7%nat /\ Forall (fun k => bm_ready (m_bitmap k)) (m_blocks (m_heap p)) /\ rng_wf (m_heap_rng (m_heap p)) /\
  m_page_reference_counts p = [] /\ m_next p = None /\ m_prev p = None.

(** Manager [i] over its region, with [used] the pages that are available. *)
Definition ready (i : nat) (used : bool) p : Prop :=
  impl_wf p /\ base p = m_address (reg i) /\ limit p = m_last_address (reg i) + 1 /\ m_pool p = pool i /\
  (forall x, impl_avail p x <-> used = true /\ in_region (reg i) x = true) /\ forall x, refcount p x = 0.

Record built (k : nat) (mm : KMemoryManager (S := S) (B := B)) : Prop := {
  bu_num : m_num_managers mm = k;
  bu_len : length (m_managers mm) = 10%nat /\ length (m_pool_managers_head mm) = 10%nat /\ length (m_pool_managers_tail mm) = 10%nat;
  bu_ready i p : (i < k)%nat -> m_managers mm !! i = Some p -> ready i false p /\ m_next p = next_id i k /\ m_prev p = prev_id i;
  bu_fresh i p : (k <= i)%nat -> m_managers mm !! i = Some p -> fresh_impl p;
  bu_lists P : (P < 4)%nat -> m_pool_managers_head mm !! P = Some (head (ids (Z.of_nat P) 0 k)) /\
    m_pool_managers_tail mm !! P = Some (last (ids (Z.of_nat P) 0 k))
}.

Lemma ready_links i b p nx pv : ready i b p -> ready i b (SetPrev pv (SetNext nx p)).
Proof. intros ([W1 W2 W3 W4 W5 W6 W7] & H). split; [|exact H]. by split. Qed.

Lemma append_manager_spec k mm p : (k < n)%nat -> built k mm -> ready k false p -> m_next p = None -> m_prev p = None ->
  exists mm', append_manager (pool k) k (mkMemory (m_pool_managers_head mm) (m_pool_managers_tail mm) (<[k := p]> (m_managers mm)) (Datatypes.S k)
                (m_optimized_process_ids mm) (m_has_optimized_process mm)) = Done true mm' /\ built (Datatypes.S k) mm'.
Proof.
  intros Hk Bu Hp Hnx Hpv. destruct (bu_len _ _ Bu) as (L1 & L2 & L3). destruct (po_pool PO k Hk) as [_ Hpool]. pose proof (po_num PO) as H10.
  set (P := Z.to_nat (pool k)). assert (pool k = Z.of_nat P) as EP by (unfold P; lia). assert (P < 4)%nat as HP by lia.
  destruct (bu_lists _ _ Bu P HP) as [Hh Ht].
  unfold append_manager. cbn [m_pool_managers_tail m_pool_managers_head m_managers m_num_managers m_optimized_process_ids m_has_optimized_process].
  rewrite EP, (arr_get_Some _ (Z.of_nat P) (last (ids (Z.of_nat P) 0 k))) by (rewrite ?Nat2Z.id; (done || lia)). ostep.
  assert (forall Q, ids (Z.of_nat Q) 0 (Datatypes.S k) = ids (Z.of_nat Q) 0 k ++ (if decide (Q = P) then [k] else [])) as Hids.
  { intros Q. rewrite ids_snoc. cbn [Nat.add]. rewrite EP. destruct (decide (Q = P)) as [->|]; [by rewrite decide_True|rewrite decide_False by lia; done]. }
  assert (forall heads M, length M = 10%nat -> length heads = 10%nat ->
    (forall q, M !! k = Some q -> ready k false q /\ m_next q = None /\ m_prev q = last (ids (Z.of_nat P) 0 k)) ->
    (forall i q, i <> k -> M !! i = Some q -> exists q0, m_managers mm !! i = Some q0 /\
       q = if decide (last (ids (Z.of_nat P) 0 k) = Some i) then SetNext (Some k) q0 else q0) ->
    (forall Q, heads !! Q = if decide (Q = P) then Some (match last (ids (Z.of_nat P) 0 k) with None => Some k | Some _ => head (ids (Z.of_nat P) 0 k) end)
       else m_pool_managers_head mm !! Q) ->
    built (Datatypes.S k) (mkMemory heads (<[P := Some k]> (m_pool_managers_tail mm)) M (Datatypes.S k)
      (m_optimized_process_ids mm) (m_has_optimized_process mm))) as Hclose.
  { intros heads M HM Hheads Hnew Hold Hhd. split; cbn [m_num_managers m_managers m_pool_managers_head m_pool_managers_tail].
    - done.
    - by rewrite length_insert.
    - intros i q Hi Hq. destruct (decide (i = k)) as [->|Hik].
      + destruct (Hnew q Hq) as (R & E1 & E2). split; [done|]. rewrite E1, E2. unfold next_id, prev_id. rewrite Nat.sub_diag, EP. done.
      + destruct (Hold i q Hik Hq) as (q0 & Hq0 & ->). destruct (bu_ready _ _ Bu i q0 ltac:(lia) Hq0) as (R & E1 & E2).
        rewrite next_id_step, EP by lia. case_decide as Hl; [|by rewrite E1, E2]. split; [|by simpl].
        by apply (ready_links i false q0 (Some k) (m_prev q0)).
    - intros i q Hi Hq. destruct (Hold i q ltac:(lia) Hq) as (q0 & Hq0 & ->). rewrite decide_False; [by apply (bu_fresh _ _ Bu i); [lia|]|].
      intros [? _]%last_id_inv. lia.
    - intros Q HQ. destruct (bu_lists _ _ Bu Q HQ) as [E1 E2]. rewrite Hids, Hhd. destruct (decide (Q = P)) as [->|HQP].
      + rewrite list_lookup_insert_eq by lia. rewrite list.last_snoc. split; [|done]. f_equal.
        destruct (ids (Z.of_nat P) 0 k) as [|j l] eqn:El; [done|]. destruct (last (j :: l)) eqn:El'; [done|]. by apply list.last_None in El'.
      + rewrite list_lookup_insert_ne, app_nil_r by done. done. }
  destruct (last (ids (Z.of_nat P) 0 k)) as [t0|] eqn:El.
  - destruct (last_id_inv _ _ _ El) as [Ht0 _]. destruct (lookup_lt_is_Some_2 (m_managers mm) t0) as [q Hq]; [lia|].
    rewrite (arr_get_Some _ _ q); [|lia|rewrite Nat2Z.id, list_lookup_insert_ne by lia; done]. ostep.
    rewrite (arr_set_lt (<[k:=p]> _)) by (rewrite length_insert; lia). ostep. rewrite Nat2Z.id.
    rewrite (arr_get_Some _ _ p); [|lia|rewrite Nat2Z.id, list_lookup_insert_ne, list_lookup_insert_eq by lia; done]. ostep.
    rewrite (arr_set_lt (<[t0:=_]> _)) by (rewrite !length_insert; lia). ostep. rewrite arr_set_lt by lia. ostep. rewrite !Nat2Z.id. cbn [fst snd].
    eexists. split; [done|]. apply Hclose.
    + by rewrite !length_insert.
    + done.
    + intros q'. rewrite list_lookup_insert_eq by (rewrite !length_insert; lia). intros [= <-]. split; [|by simpl].
      by apply (ready_links k false p (m_next p) (Some t0)).
    + intros i q' Hik. rewrite list_lookup_insert_ne by done. destruct (decide (Some t0 = Some i)) as [[= <-]|Hne].
      * rewrite list_lookup_insert_eq by (rewrite length_insert; lia). intros [= <-]. by exists q.
      * rewrite list_lookup_insert_ne, list_lookup_insert_ne by congruence. by exists q'.
    + intros Q. destruct (decide (Q = P)) as [->|]; [done|done].
  - ostep. rewrite arr_set_lt by lia. ostep. rewrite arr_set_lt by lia. ostep. rewrite !Nat2Z.id. cbn [fst snd]. eexists. split; [done|]. apply Hclose.
    + by rewrite !length_insert.
    + by rewrite length_insert.
    + intros q'. rewrite list_lookup_insert_eq by lia. intros [= <-]. done.
    + intros i q' Hik. rewrite list_lookup_insert_ne by done. intros Hq'. exists q'. by rewrite decide_False.
    + intros Q. destruct (decide (Q = P)) as [->|]; [by rewrite list_lookup_insert_eq by lia|by rewrite list_lookup_insert_ne].
Qed.

(** The first part builds the managers of all regions. *)
Lemma init_managers_spec fuel : forall k mm, (fuel + k = 10)%nat -> (k <= n)%nat -> built k mm -> (4096 | overhead k) ->
  exists mg mm', init_managers fuel intended hosts t (management + overhead k) management_end mm = Done true (mg, mm') /\ built n mm'.
Proof.
  destruct (po_mgmt PO) as (M1 & M2 & M3). pose proof (po_num PO) as H10.
  induction fuel as [|fuel IH]; intros k mm Hf Hk Bu Ho; cbn [init_managers].
  { assert (k = n) as -> by lia. eauto. }
  rewrite (bu_num _ _ Bu), find_region_spec. destruct (decide (k < n)%nat) as [Hkn|Hkn]; ostep.
  2: { rewrite Z.eqb_refl. assert (k = n) as -> by lia. eauto. }
  destruct (reg_bounds k Hkn) as (R1 & R2 & R3 & R4). destruct (po_size PO k Hkn) as (S1 & S2 & S3 & S4 & S5 & S6).
  assert (0 < reg_size k) as S0 by (unfold reg_size; lia). rewrite (proj2 (Z.eqb_neq (reg_size k) 0)) by lia.
  destruct (bu_len _ _ Bu) as (L1 & _ & _). destruct (lookup_lt_is_Some_2 (m_managers mm) k) as [p Hp]; [lia|].
  rewrite (arr_get_Some _ _ p) by (rewrite ?Nat2Z.id; (done || lia)). ostep. rewrite bind_assert_true by (apply Z.leb_le; lia).
  destruct (bu_fresh _ _ Bu k p ltac:(lia) Hp) as (F1 & F2 & F3 & F4 & F5 & F6).
  pose proof (pool_overhead_mono (Datatypes.S k) n Hkn) as Hmono. cbn [overhead] in Hmono.
  destruct (Impl_Initialize_spec p intended (hosts k) (m_address (reg k)) (reg_size k) (management + overhead k) management_end (pool k))
    as (used & p' & E & Hu & W & Eb & El & Ep & En & Ev & Hdiv & Hno & Href); try done; try (unfold reg_size in *; lia).
  { pose proof (pool_overhead_mono 0 k ltac:(lia)) as H0. cbn [overhead] in H0. lia. }
  { by apply Z.divide_add_r. }
  destruct (po_hosts PO k Hkn) as [Hh1 Hh2]. pose proof (pool_overhead_mono 0 k ltac:(lia)) as H0. cbn [overhead] in H0.
  rewrite E. rewrite (u64_small (hosts k + used)), (proj2 (Z.leb_le (hosts k + used) _)) by lia. ostep.
  rewrite (u64_small (management + overhead k + _)) by lia. rewrite bind_assert_true by (apply Z.leb_le; lia).
  destruct (append_manager_spec k mm p' Hkn Bu) as (mm' & -> & Bu'); [|congruence|congruence|].
  { split_and!; try done; [rewrite El; unfold reg_size; lia|]. intros x. split; [by intros ?%Hno|by intros [? _]]. }
  ostep. replace (management + overhead k + Impl_CalculateManagementOverheadSize (reg_size k)) with (management + overhead (Datatypes.S k)) by (cbn [overhead]; lia).
  apply IH; [lia|lia|done|]. cbn [overhead]. by apply Z.divide_add_r.
Qed.

(** The managers with the regions of [D] freed. *)
Record opened (D : nat -> bool) (mm : KMemoryManager (S := S) (B := B)) : Prop := {
  op_num : m_num_managers mm = n;
  op_len : length (m_managers mm) = 10%nat;
  op_ready i p : (i < n)%nat -> m_managers mm !! i = Some p -> ready i (D i) p /\ m_next p = next_id i n /\ m_prev p = prev_id i;
  op_lists P : (P < 4)%nat -> m_pool_managers_head mm !! P = Some (head (ids (Z.of_nat P) 0 n)) /\
    m_pool_managers_tail mm !! P = Some (last (ids (Z.of_nat P) 0 n))
}.

Lemma opened_set D D' mm i p p' : (i < n)%nat -> opened D mm -> m_managers mm !! i = Some p -> ready i (D' i) p' -> m_next p' = m_next p ->
  m_prev p' = m_prev p -> (forall j, (j < n)%nat -> j <> i -> D' j = D j) -> opened D' (set_manager i p' mm).
Proof.
  intros Hi Op Hp Hr Hn Hv HD. destruct Op as [H1 H2 H3 H4]. split; simpl; try done; [by rewrite length_insert|].
  intros j q Hj. destruct (decide (j = i)) as [->|Hji].
  - rewrite list_lookup_insert_eq by (by eapply lookup_lt_Some). intros [= <-]. rewrite Hn, Hv. split; [done|]. by apply (H3 i p).
  - rewrite list_lookup_insert_ne by done. intros Hq. rewrite (HD j) by done. by apply H3.
Qed.

(** One region is freed. *)
Lemma free_region_spec i p : (i < n)%nat -> ready i false p ->
  exists p', Impl_Free (m_address (reg i)) (reg_size i / PageSize) p = Done true p' /\ ready i true p' /\ m_next p' = m_next p /\ m_prev p' = m_prev p.
Proof.
  intros Hi (W & Hb & Hl & Hpo & Hav & Href). destruct (po_size PO i Hi) as (S1 & S2 & S3 & S4 & S5 & S6). destruct S3 as [q Hq].
  change PageSize with 4096. rewrite Hq, Z.div_mul by lia. destruct (reg_bounds i Hi) as (R1 & R2 & _). unfold reg_size in Hq.
  destruct (Impl_Free_spec p (m_address (reg i)) q) as (p' & E & (W' & Sm & Hr' & Hav') & Ec); try done; try lia.
  { intros x _. split; [rewrite Hav; intros [? _]; done|apply Href]. }
  destruct Sm as (B1 & B2 & B3 & B4 & B5 & _). exists p'. split; [done|]. split; [|done]. split_and!; try congruence; try done.
  - intros x. rewrite Hav', Hav, in_region_spec. split; [intros [[? _]|[? _]]; [done|]; split; [done|lia]|]. intros [_ ?]. right. split; [lia|done].
  - intros x. unfold refcount, page_no. rewrite Ec, B1. apply Href.
Qed.

Lemma free_regions_spec l : forall d mm res, t = d ++ l -> opened (fun i => bool_decide (reg i ∈ d)) mm -> 
  exists mm', free_regions ini_start ini_size l mm res = Done true (mm', res) /\ opened (fun i => bool_decide (reg i ∈ t)) mm'.
Proof.
  destruct (po_ini_range PO) as (I1 & I2 & I3). induction l as [|it l IH]; intros d mm res Et Op; cbn [free_regions].
  { rewrite app_nil_r in Et. subst d. eauto. }
  assert (t = (d ++ [it]) ++ l) as Et' by (by rewrite <- app_assoc).
  destruct (IsDerivedFrom it KMemoryRegionType_DramUserPool) eqn:Hd.
  - destruct (po_all PO it) as (i & Hi & ->); [rewrite Et; apply elem_of_app; right; left|done|].
    destruct (po_reg PO i Hi) as (_ & _ & Ha). destruct (reg_bounds i Hi) as (R1 & R2 & R3 & R4).
    assert (reg i ∉ d) as Hnot. { pose proof (regions_NoDup _ _ (po_tree PO)) as Hnd. rewrite Et in Hnd. apply list.NoDup_app in Hnd as (_ & Hdis & _).
      intros Hin. apply (Hdis _ Hin). left. }
    pose proof (po_num PO). destruct (lookup_lt_is_Some_2 (m_managers mm) i) as [p Hp]; [rewrite (op_len _ _ Op); lia|].
    destruct (op_ready _ _ Op i p Hi Hp) as (Hr & Hn & Hv). rewrite bool_decide_eq_false_2 in Hr by done.
    destruct (free_region_spec i p Hi Hr) as (p' & E & Hr' & En & Ev). rewrite Ha, Nat2Z.id, (arr_get_Some _ _ p) by (rewrite ?Nat2Z.id; (done || lia)). ostep.
    rewrite (u64_small (ini_start + ini_size)), (u64_small (ini_start + ini_size - 1)), R3, R4 by lia.
    assert ((m_address (reg i) <=? ini_start) && (ini_start + ini_size - 1 <=? m_last_address (reg i)) = false) as ->.
    { apply andb_false_iff. destruct (po_ini PO i Hi); [left|right]; apply Z.leb_gt; lia. }
    rewrite bind_assert_true.
    2: { destruct (Z.leb_spec (m_address (reg i)) (ini_start + ini_size - 1)); [apply Z.ltb_lt; destruct (po_ini PO i Hi); lia|].
         apply negb_true_iff, Z.eqb_neq. lia. }
    rewrite E. do 2 ostep. cbn [fst snd]. apply (IH (d ++ [reg i])); [done|].
    eapply (opened_set (fun i => bool_decide (reg i ∈ d)) _ mm i p); try done.
    + rewrite bool_decide_eq_true_2; [done|]. apply elem_of_app. right. left.
    + intros j Hj Hji. apply bool_decide_ext. rewrite elem_of_app, list_elem_of_singleton. split; [|tauto]. intros [?|Eji]; [done|].
      destruct (po_reg PO j Hj) as (_ & _ & Haj). rewrite Eji in Haj. lia.
  - apply (IH (d ++ [it])); [done|]. destruct Op as [H1 H2 H3 H4]. split; try done. intros j q Hj Hq.
    destruct (H3 j q Hj Hq) as (Hr & ? & ?). split; [|done].
    replace (bool_decide (reg j ∈ d ++ [it])) with (bool_decide (reg j ∈ d)); [done|]. apply bool_decide_ext.
    rewrite elem_of_app, list_elem_of_singleton. split; [tauto|]. intros [?|Eji]; [done|]. subst it.
    destruct (po_reg PO j Hj) as (_ & Hdj & _). congruence.
Qed.

(** The used sizes. *)
Lemma set_used_spec m : forall i res mm, (i + m = n)%nat -> (n <= length res)%nat -> Forall (fun x => x = 0) res -> opened (fun _ => true) mm ->
  exists mm', set_used m i res mm = Done true mm' /\ opened (fun _ => true) mm'.
Proof.
  pose proof (po_num PO). induction m as [|m IH]; intros i res mm Him Hlen Hres Op; cbn [set_used]; [by eauto|].
  destruct (lookup_lt_is_Some_2 (m_managers mm) i) as [p Hp]; [rewrite (op_len _ _ Op); lia|].
  rewrite (arr_get_Some _ _ p) by (rewrite ?Nat2Z.id; (done || lia)). ostep.
  destruct (lookup_lt_is_Some_2 res i) as [x Hx]; [lia|]. pose proof (list.Forall_lookup_1 _ _ _ _ Hres Hx) as ->.
  rewrite (arr_get_Some _ _ 0) by (rewrite ?Nat2Z.id; (done || lia)). ostep.
  destruct (op_ready _ _ Op i p ltac:(lia) Hp) as ((W & Hb & Hl & Hpo & Hav & Href) & Hn & Hv).
  assert (m_heap_size (m_heap p) = limit p - base p) as Es by (unfold limit, base, heap_end; lia). pose proof (hw_size _ _ (iw_heap _ W)).
  destruct (SetInitialUsedSize_spec MemoryBlockPageShifts (m_heap p) 0) as (h & E & _ & Wh & Ea & Esz & Hh); [apply W|apply W| |lia| |].
  { rewrite Es. apply Z.divide_sub_r; apply W. } { pose proof (free_pages_bound (m_heap p)). lia. }
  unfold SetInitialUsedHeapSize. rewrite E. do 2 ostep. apply IH; [lia|done|done|]. eapply (opened_set (fun _ => true) _ mm i p); try done; [lia|].
  destruct W as [W1 W2 W3 W4 W5 W6 W7]. unfold base, limit, heap_end in *.
  split_and!; try done; unfold base, limit, heap_end; cbn [with_heap m_heap]; rewrite ?Ea, ?Esz; try done.
  - split; unfold base, limit, heap_end, refcount, page_no, impl_avail in *; cbn [with_heap m_heap m_page_reference_counts]; rewrite ?Ea, ?Esz; try done.
    intros x Hxa. unfold base. cbn [with_heap m_heap]. rewrite Ea. apply W7. by apply Hh.
  - intros x. unfold impl_avail. cbn [with_heap m_heap]. rewrite Hh. apply Hav.
  - intros x. unfold refcount, page_no, base. cbn [with_heap m_heap m_page_reference_counts]. rewrite Ea. apply Href.
Qed.
End Phase1.

(** *** The lists of a pool *)

Lemma ids_NoDup P a m : NoDup (ids P a m) /\ (length (ids P a m) <= m)%nat.
Proof. split; [apply list.NoDup_filter, NoDup_seq|]. unfold ids. rewrite length_filter, length_seq. lia. Qed.

Section Lists.
Context {S : Type} {ES : EntropySource S} {B : Type} {FB : FreeBitmap B}.
Implicit Types (mm : KMemoryManager (S := S) (B := B)).

Lemma opened_manages D mm i : opened D mm -> (i < n)%nat -> exists p, manages mm i p /\ ready i (D i) p /\ m_next p = next_id i n /\ m_prev p = prev_id i.
Proof.
  intros Op Hi. pose proof (po_num PO). destruct (lookup_lt_is_Some_2 (m_managers mm) i) as [p Hp]; [rewrite (op_len _ _ Op); lia|].
  exists p. split; [split; [rewrite (op_num _ _ Op); lia|done]|]. by apply (op_ready _ _ Op).
Qed.

(** The list forwards. *)
Lemma chain_front D mm P m : forall a, opened D mm -> (a + m = n)%nat -> chain mm Direction.FromFront (head (ids P a m)) (ids P a m).
Proof.
  induction m as [|m IH]; intros a Op Ham; [constructor|]. assert (ids P a (Datatypes.S m) = (if decide (pool a = P) then [a] else []) ++ ids P (Datatypes.S a) m) as ->.
  { change (Datatypes.S m) with (1 + m)%nat. rewrite ids_app. replace (a + 1)%nat with (Datatypes.S a) by lia. f_equal. }
  specialize (IH (Datatypes.S a) Op ltac:(lia)). destruct (decide (pool a = P)) as [E|E]; [|done]. simpl.
  destruct (opened_manages D mm a Op ltac:(lia)) as (p & Hp & _ & Hn & _). apply (chain_next mm _ a p); [done|].
  change (GetNextManager p Direction.FromFront) with (m_next p). rewrite Hn. unfold next_id. rewrite E. by replace (n - Datatypes.S a)%nat with m by lia.
Qed.

(** The list backwards. *)
Lemma chain_back D mm P m : opened D mm -> (m <= n)%nat -> chain mm Direction.FromBack (last (ids P 0 m)) (reverse (ids P 0 m)).
Proof.
  intros Op. induction m as [|m IH]; intros Hm; [constructor|]. rewrite ids_snoc. cbn [Nat.add].
  destruct (decide (pool m = P)) as [E|E]; [|rewrite app_nil_r; apply IH; lia]. rewrite list.last_snoc, reverse_snoc.
  destruct (opened_manages D mm m Op ltac:(lia)) as (p & Hp & _ & _ & Hv). apply (chain_next mm _ m p); [done|].
  change (GetNextManager p Direction.FromBack) with (m_prev p). rewrite Hv. unfold prev_id. rewrite E. apply IH. lia.
Qed.

Lemma pool_chains D mm P : opened D mm -> (P < 4)%nat ->
  pool_chain mm (Z.of_nat P) Direction.FromFront (ids (Z.of_nat P) 0 n) /\
  pool_chain mm (Z.of_nat P) Direction.FromBack (reverse (ids (Z.of_nat P) 0 n)).
Proof.
  intros Op HP. destruct (op_lists _ _ Op P HP) as [Hh Ht]. destruct (ids_NoDup (Z.of_nat P) 0 n) as [Hnd Hlen]. pose proof (po_num PO). split.
  - eexists. split; [|split; [by apply (chain_front D)|split; [done|lia]]].
    unfold GetFirstManager. simpl. apply arr_get_Some; [lia|]. by rewrite Nat2Z.id.
  - eexists. split; [|split; [by apply (chain_back D)|split; [by rewrite reverse_Permutation|rewrite length_reverse; lia]]].
    unfold GetFirstManager. simpl. apply arr_get_Some; [lia|]. by rewrite Nat2Z.id.
Qed.

Lemma opened_wf layout mm : opened (fun _ => true) mm ->
  (forall i x, (i < n)%nat -> in_region (reg i) x = true -> layout x = Z.of_nat i) ->
  mm_wf layout mm /\ (forall x, mm_avail mm x <-> exists i, (i < n)%nat /\ in_region (reg i) x = true) /\ (forall x, owned mm x -> mm_refs layout mm x = 0).
Proof.
  intros Op Hlay. pose proof (po_num PO). assert (forall i p, manages mm i p -> (i < n)%nat /\ ready i true p) as Hman.
  { intros i p [Hi Hp]. rewrite (op_num _ _ Op) in Hi. split; [done|]. by apply (op_ready _ _ Op). }
  assert (forall i p x, manages mm i p -> in_impl p x -> layout x = Z.of_nat i) as Hin.
  { intros i p x Hp Hx. destruct (Hman i p Hp) as (Hi & _ & Eb & El & _). apply (Hlay i x Hi), in_region_spec. unfold in_impl in Hx. lia. }
  split_and!.
  - split.
    + rewrite (op_num _ _ Op), (op_len _ _ Op). lia.
    + intros i p Hi Hp. by apply (Hman i p).
    + intros i p x Hi Hp Hx. unfold GetManager. rewrite (Hin i p x) by done. lia.
  - intros x. split.
    + intros (i & p & Hp & Hx). destruct (Hman i p Hp) as (Hi & _ & _ & _ & _ & Hav & _). apply Hav in Hx as [_ Hx]. eauto.
    + intros (i & Hi & Hx). destruct (opened_manages _ _ i Op Hi) as (p & Hp & (_ & _ & _ & _ & Hav & _) & _). exists i, p. split; [done|]. by apply Hav.
  - intros x (i & p & Hp & Hx). unfold mm_refs, GetManager. rewrite (Hin i p x Hp Hx), Nat2Z.id.
    destruct Hp as [Hi Hp]. rewrite Hp. destruct (Hman i p (conj Hi Hp)) as (_ & _ & _ & _ & _ & _ & Href). apply Href.
Qed.
End Lists.
End Pools.

(** The number of the manager of an address, as [GetManager] reads it from the layout. *)
Definition layout_of (l : KMemoryLayout) (x : Z) : Z := match FindPhysicalLinear l x with Some r => m_attributes r | None => 0 end.

(** The memory manager as its constructor leaves it. *)
Definition fresh_mm {S} {ES : EntropySource S} {B} {FB : FreeBitmap B} (mm : KMemoryManager (S := S) (B := B)) : Prop :=
  length (m_managers mm) = 10%nat /\ Forall fresh_impl (m_managers mm) /\
  m_pool_managers_head mm = replicate 10 None /\ m_pool_managers_tail mm = replicate 10 None.

Lemma KMemoryManager_Initialize_spec {S} {ES : EntropySource S} {B} {FB : FreeBitmap B} l mode hosts management size n reg pool
    (mm : KMemoryManager (S := S) (B := B)) :
  pools_ok (m_physical_tree l) n reg pool (GetIntendedMemorySize mode) (GetInitialProcessBinaryPhysicalAddress mode) GetInitialProcessBinarySize
    management (management + size) hosts ->
  (forall x, FindPhysicalLinear l x = (r ← FindPhysical l x; if HasTypeAttribute r KMemoryRegionAttr_LinearMapped then Some (copy r) else None)) ->
  fresh_mm mm ->
  exists mm', KMemoryManager_Initialize mode hosts (m_physical_tree l) management size mm = Done true mm' /\
    mm_wf (layout_of l) mm' /\ m_num_managers mm' = n /\
    (forall x, mm_avail mm' x <-> exists i, (i < n)%nat /\ in_region (reg i) x = true) /\
    (forall x, owned mm' x -> mm_refs (layout_of l) mm' x = 0) /\
    forall P, (P < 4)%nat -> pool_chain mm' (Z.of_nat P) Direction.FromFront (ids pool (Z.of_nat P) 0 n) /\
      pool_chain mm' (Z.of_nat P) Direction.FromBack (reverse (ids pool (Z.of_nat P) 0 n)).
Proof.
  intros PO Hlin (L1 & Hf & Eh & Et). unfold KMemoryManager_Initialize. destruct (po_mgmt _ _ _ _ _ _ _ _ _ _ PO) as (M1 & M2 & M3).
  pose proof (pool_overhead_mono reg 0 n ltac:(lia)) as H0. cbn [overhead] in H0. pose proof (po_num _ _ _ _ _ _ _ _ _ _ PO) as H10.
  rewrite (u64_small (management + size)) by lia. set (mm0 := mkMemory _ _ _ _ _ _).
  assert (built reg pool 0 mm0) as B0.
  { split; simpl; try done.
    - by rewrite Eh, Et.
    - intros; lia.
    - intros i p _ Hp. apply (list.Forall_lookup_1 _ _ _ _ Hf Hp).
    - intros P HP. rewrite Eh, Et, lookup_replicate_2 by lia. done. }
  destruct (init_managers_spec _ _ _ _ _ _ _ _ _ _ PO 10 0 mm0) as (mg & mm1 & E1 & B1); [done|lia|done|apply Z.divide_0_r|].
  cbn [overhead] in E1. rewrite Z.add_0_r in E1. change (Z.to_nat MaxManagerCount) with 10%nat. rewrite E1. ostep. cbn [snd].
  destruct (free_regions_spec _ _ _ _ _ _ _ _ _ _ PO (m_physical_tree l) [] mm1 (replicate 10 0)) as (mm2 & -> & O2); [done| |].
  { destruct B1 as [b1 b2 b3 b4 b5]. split; try done. by apply b2. }
  ostep. cbn [fst snd].
  assert (opened n reg pool (fun _ => true) mm2) as O2'.
  { destruct O2 as [o1 o2 o3 o4]. split; try done. intros i p Hi Hp. destruct (o3 i p Hi Hp) as (Hr & ? & ?). split; [|done].
    rewrite bool_decide_eq_true_2 in Hr; [done|]. by apply (po_reg _ _ _ _ _ _ _ _ _ _ PO). }
  rewrite (op_num _ _ _ _ _ O2').
  destruct (set_used_spec _ _ _ _ _ _ _ _ _ _ PO n 0 (replicate 10 0) mm2) as (mm3 & E3 & O3); [done|rewrite length_replicate; lia|by apply Forall_replicate|done|].
  exists mm3. split; [done|].
  destruct (opened_wf _ _ _ _ _ _ _ _ _ _ PO (layout_of l) mm3 O3) as (W & Hav & Href).
  { intros i x Hi Hx. destruct (po_reg _ _ _ _ _ _ _ _ _ _ PO i Hi) as (Hin & Hd & Ha). unfold layout_of. rewrite Hlin.
    apply list_elem_of_lookup_1 in Hin as [j Hj]. pose proof (po_tree _ _ _ _ _ _ _ _ _ _ PO) as Wt. unfold FindPhysical.
    rewrite (Find_region_of 0) by done. rewrite (lookup_region_of 0 _ j (reg i) x Wt Hj Hx). simpl.
    assert (HasTypeAttribute (reg i) KMemoryRegionAttr_LinearMapped = true) as ->; [|done].
    unfold IsDerivedFrom in Hd. unfold HasTypeAttribute. apply Z.eqb_eq in Hd. apply Z.eqb_eq. rewrite <- Hd, <- Z.lor_assoc. f_equal. }
  split_and!; try done; [apply (op_num _ _ _ _ _ O3)|]. intros P HP. by eapply (pool_chains _ _ _ _ _ _ _ _ _ _ PO).
Qed.

(** C18: The memory manager takes over the pools.  Initialising a fresh manager from a tree with [n] pool regions passes
    all assertions and leaves a well-formed manager of [n] parts: the available pages are exactly those of the pool
    regions, no page has references, and the list of each pool holds its parts in the order of their attributes,
    forwards and backwards. *)
Theorem memory_manager_takes_pools {S} {ES : EntropySource S} {B} {FB : FreeBitmap B} l mode hosts management size n reg pool
    (mm : KMemoryManager (S := S) (B := B)) :
  pools_ok (m_physical_tree l) n reg pool (GetIntendedMemorySize mode) (GetInitialProcessBinaryPhysicalAddress mode) GetInitialProcessBinarySize
    management (management + size) hosts ->
  (forall x, FindPhysicalLinear l x = (r ← FindPhysical l x; if HasTypeAttribute r KMemoryRegionAttr_LinearMapped then Some (copy r) else None)) ->
  fresh_mm mm ->
  exists mm', KMemoryManager_Initialize mode hosts (m_physical_tree l) management size mm = Done true mm' /\
    mm_wf (layout_of l) mm' /\ m_num_managers mm' = n /\
    (forall x, mm_avail mm' x <-> exists i, (i < n)%nat /\ in_region (reg i) x = true) /\
    (forall x, owned mm' x -> mm_refs (layout_of l) mm' x = 0) /\
    forall P, (P < 4)%nat -> pool_chain mm' (Z.of_nat P) Direction.FromFront (ids pool (Z.of_nat P) 0 n) /\
      pool_chain mm' (Z.of_nat P) Direction.FromBack (reverse (ids pool (Z.of_nat P) 0 n)).
Proof. apply KMemoryManager_Initialize_spec. Qed.

(** ** From the layout to the managers *)

(** [InitializeMemoryLayout] of kernel.cpp, the part that sets up the memory manager. *)
Definition InitializeMemoryLayout {S} {ES : EntropySource S} {B} {FB : FreeBitmap B} (mode : MemoryMode) (hosts : nat -> Z) (l : KMemoryLayout)
    (mm : KMemoryManager (S := S) (B := B)) : outcome (KMemoryManager (S := S) (B := B)) :=
  management_region ← GetPoolManagementRegion l;
  ASSERT (negb (KMemoryRegion.GetEndAddress management_region =? 0));;
  KMemoryManager_Initialize mode hosts (m_physical_tree l) (m_address management_region) (KMemoryRegion.GetSize management_region) mm.

Definition is_pool (r : KMemoryRegion) : bool := IsDerivedFrom r KMemoryRegionType_DramUserPool.
Definition reg_of (t : tree) (i : nat) : KMemoryRegion :=
  default (mkRegion 0 0 0 0 0) (find_first (fun r => is_pool r && (m_attributes r =? Z.of_nat i)) t).
Definition pool_of (t : tree) (i : nat) : Z := match GetPoolFromMemoryRegionType (m_type_id (reg_of t i)) with Done _ p => p | Undef => 0 end.
Definition num_of (t : tree) : nat := length (List.filter is_pool t).

(** Decides [pools_ok] for these. *)
Definition reg_check (t : tree) (intended ini_start ini_size management : Z) (hosts : nat -> Z) (i : nat) : bool :=
  let r := reg_of t i in
  let size := m_last_address r + 1 - m_address r in
  existsb (fun q => bool_decide (r = q)) t && is_pool r && (m_attributes r =? Z.of_nat i) &&
  match GetPoolFromMemoryRegionType (m_type_id r) with Done true p => (0 <=? p) && (p <? 4) | _ => false end &&
  (0 <? m_address r) && (m_address r mod 4096 =? 0) && (size mod 4096 =? 0) && (size <=? 2 ^ 35) && (size <=? intended) &&
  (m_last_address r <? 2 ^ 44 - 1) && ((ini_start + ini_size <=? m_address r) || (m_last_address r <? ini_start)) &&
  (0 <=? hosts i) && (hosts i + Impl_CalculateManagementOverheadSize size <=? management).

Definition pools_check (t : tree) (intended ini_start ini_size management management_end : Z) (hosts : nat -> Z) : bool :=
  tree_check 0 t && (num_of t <=? 10)%nat && forallb (reg_check t intended ini_start ini_size management hosts) (seq 0 (num_of t)) &&
  forallb (fun r => negb (is_pool r) || (0 <=? m_attributes r) && (m_attributes r <? Z.of_nat (num_of t)) &&
                    bool_decide (r = reg_of t (Z.to_nat (m_attributes r)))) t &&
  (0 <=? ini_start) && (0 <? ini_size) && (ini_start + ini_size <? 2 ^ 64) && (0 <=? management) && (management mod 4096 =? 0) &&
  (management + overhead (reg_of t) (num_of t) <=? management_end) && (management_end <? 2 ^ 64).

Lemma reg_check_sound t intended ini_start ini_size management hosts i : reg_check t intended ini_start ini_size management hosts i = true ->
  let r := reg_of t i in
  (r ∈ t /\ IsDerivedFrom r KMemoryRegionType_DramUserPool = true /\ m_attributes r = Z.of_nat i) /\
  (GetPoolFromMemoryRegionType (m_type_id r) = Done true (pool_of t i) /\ 0 <= pool_of t i < 4) /\
  (0 < m_address r /\ (4096 | m_address r) /\ (4096 | reg_size (reg_of t) i) /\ reg_size (reg_of t) i <= 2 ^ 35 /\ reg_size (reg_of t) i <= intended /\
   m_last_address r < 2 ^ 44 - 1) /\
  (ini_start + ini_size <= m_address r \/ m_last_address r < ini_start) /\
  (0 <= hosts i /\ hosts i + Impl_CalculateManagementOverheadSize (reg_size (reg_of t) i) <= management).
Proof.
  unfold reg_check, reg_size, pool_of. cbv zeta. generalize (reg_of t i). intros r. rewrite !andb_true_iff.
  intros ((((((((((((H1 & H2) & H3) & H4) & H5) & H6) & H7) & H8) & H9) & H10) & H11) & H12) & H13).
  apply existsb_exists in H1 as (q & Hq & ->%bool_decide_eq_true). apply Z.eqb_eq in H3, H6, H7. apply Z.ltb_lt in H5, H10.
  apply Z.leb_le in H8, H9, H12, H13. apply orb_true_iff in H11. rewrite Z.leb_le, Z.ltb_lt in H11.
  destruct (GetPoolFromMemoryRegionType (m_type_id q)) as [|[] p]; [done| |done]. apply andb_true_iff in H4 as [?%Z.leb_le ?%Z.ltb_lt].
  split_and!; try done; try (by apply Z.mod_divide). by apply list_elem_of_In.
Qed.

Lemma pools_check_sound t intended ini_start ini_size management management_end hosts :
  pools_check t intended ini_start ini_size management management_end hosts = true ->
  pools_ok t (num_of t) (reg_of t) (pool_of t) intended ini_start ini_size management management_end hosts.
Proof.
  unfold pools_check. rewrite !andb_true_iff. intros ((((((((((H1 & H2) & H3) & H4) & H5) & H6) & H7) & H8) & H9) & H10) & H11).
  apply tree_check_sound in H1. apply Nat.leb_le in H2. rewrite forallb_forall in H3, H4.
  apply Z.leb_le in H5, H8, H10. apply Z.ltb_lt in H6, H7, H11. apply Z.eqb_eq in H9.
  assert (forall i, (i < num_of t)%nat -> reg_check t intended ini_start ini_size management hosts i = true) as Hreg
    by (intros i Hi; apply H3, in_seq; lia).
  split; try done; try (intros i Hi; by apply (reg_check_sound _ _ _ _ _ _ _ (Hreg i Hi))).
  - intros r Hr Hd. apply list_elem_of_In in Hr. specialize (H4 r Hr). unfold is_pool in H4. rewrite Hd in H4. cbn [negb orb] in H4.
    apply andb_true_iff in H4 as [[?%Z.leb_le ?%Z.ltb_lt]%andb_true_iff ->%bool_decide_eq_true]. eexists. split; [|done]. lia.
  - split_and!; try done. by apply Z.mod_divide.
Qed.

Lemma pools_ok_hosts t n reg pool intended ini_start ini_size management management_end hosts hosts' :
  (forall i, 0 <= hosts i <= hosts' i) -> pools_ok t n reg pool intended ini_start ini_size management management_end hosts' ->
  pools_ok t n reg pool intended ini_start ini_size management management_end hosts.
Proof. intros Hh [H1 H2 H3 H4 H5 H6 H7 H8 H9 H10]. split; try done. intros i Hi. specialize (H10 i Hi). specialize (Hh i). lia. Qed.

(** What the boot layout of a mode gives the memory manager. *)
Definition boot_check (mode : MemoryMode) (l : KMemoryLayout) : bool :=
  bool_decide (m_physical_linear_tree l = select (fun r => HasTypeAttribute r KMemoryRegionAttr_LinearMapped) (m_physical_tree l)) &&
  match FindByType KMemoryRegionType_VirtualDramPoolManagement (m_virtual_tree l) with
  | None => false
  | Some r => negb (KMemoryRegion.GetEndAddress r =? 0) &&
      pools_check (m_physical_tree l) (GetIntendedMemorySize mode) (GetInitialProcessBinaryPhysicalAddress mode) GetInitialProcessBinarySize
        (m_address r) (m_address r + KMemoryRegion.GetSize r) (fun _ => 2 ^ 62)
  end.

Lemma boot_check_ok mode : boot_check mode (booted mode) = true.
Proof. destruct mode; vm_compute; reflexivity. Qed.

Section FromBoot.
Context {S : Type} {ES : EntropySource S} {B : Type} {FB : FreeBitmap B}.
Implicit Types (mm : KMemoryManager (S := S) (B := B)).

Lemma InitializeMemoryLayout_spec mode l hosts mm : boot_check mode l = true -> tree_wf (m_physical_tree l) -> (forall i, 0 <= hosts i <= 2 ^ 62) -> fresh_mm mm ->
  exists mm', InitializeMemoryLayout mode hosts l mm = Done true mm' /\ mm_wf (layout_of l) mm' /\
    (forall x, mm_avail mm' x <-> exists r, r ∈ m_physical_tree l /\ is_pool r = true /\ in_region r x = true) /\
    (forall x, owned mm' x -> mm_refs (layout_of l) mm' x = 0).
Proof.
  unfold boot_check. intros [Hsel Hb]%andb_true_iff W Hh Hf. apply bool_decide_eq_true in Hsel.
  unfold InitializeMemoryLayout, GetPoolManagementRegion. destruct (FindByType _ _) as [r|]; [|done].
  apply andb_true_iff in Hb as [He Hb]. apply pools_check_sound in Hb. cbn [Dereference]. ostep. rewrite bind_assert_true by done.
  pose proof (pools_ok_hosts _ _ _ _ _ _ _ _ _ hosts _ Hh Hb) as PO.
  destruct (KMemoryManager_Initialize_spec l mode hosts _ _ _ _ _ mm PO) as (mm' & E & W' & _ & Hav & Href & _); [|done|].
  { intros x. unfold FindPhysicalLinear, FindPhysical. rewrite Hsel, !(Find_region_of 0) by (done || by apply select_wf). by apply (select_at _ _ 0). }
  exists mm'. split_and!; try done. intros x. rewrite Hav. split.
  - intros (i & Hi & Hx). exists (reg_of (m_physical_tree l) i). destruct (po_reg _ _ _ _ _ _ _ _ _ _ PO i Hi) as (H1 & H2 & _). done.
  - intros (q & Hq & Hp & Hx). destruct (po_all _ _ _ _ _ _ _ _ _ _ PO q Hq Hp) as (i & Hi & ->). by exists i.
Qed.
End FromBoot.

(** Booting to the memory manager.  In every memory mode the manager initialised from the layout the boot has derived is
    well-formed, its available pages are those of the pool regions of the physical tree, and no page has references,
    wherever the host puts the memory of the managers. *)
Theorem boot_memory_manager {S} {ES : EntropySource S} {B} {FB : FreeBitmap B} mode hosts (mm : KMemoryManager (S := S) (B := B)) :
  (forall i, 0 <= hosts i <= 2 ^ 62) -> fresh_mm mm ->
  exists mm', InitializeMemoryLayout mode hosts (booted mode) mm = Done true mm' /\ mm_wf (layout_of (booted mode)) mm' /\
    (forall x, mm_avail mm' x <-> exists r, r ∈ m_physical_tree (booted mode) /\ is_pool r = true /\ in_region r x = true) /\
    (forall x, owned mm' x -> mm_refs (layout_of (booted mode)) mm' x = 0).
Proof.
  destruct (booted_run mode) as (rest & _ & Hl). apply InitializeMemoryLayout_spec; [apply boot_check_ok|]. exact (proj1 (lo_physical _ _ Hl)).
Qed.

Definition demo_fresh_impl : Impl := mkImpl demo_heap_raw [] 0 0 None None [].
Definition demo_fresh_mm : KMemoryManager := mkMemory (replicate 10 None) (replicate 10 None) (replicate 10 demo_fresh_impl) 0 (replicate 4 0) (replicate 4 false).

Lemma demo_fresh : fresh_mm demo_fresh_mm.
Proof.
  split; [reflexivity|]. split; [|done]. apply Forall_replicate.
  split; [reflexivity|]. split; [apply Forall_replicate, demo_rng_wf|]. split; [apply demo_rng_wf|]. done.
Qed.

Lemma boot_memory_manager_witness :
  exists mm', InitializeMemoryLayout Memory_12Gb (fun _ => 0x10000) (booted Memory_12Gb) demo_fresh_mm = Done true mm' /\ mm_avail mm' 0xB0000000.
Proof.
  destruct (boot_memory_manager Memory_12Gb (fun _ => 0x10000) demo_fresh_mm) as (mm' & E & _ & Hav & _); [intros _; split; discriminate|exact demo_fresh|].
  exists mm'. split; [exact E|]. apply Hav.
  assert (existsb (fun r => is_pool r && in_region r 0xB0000000) (m_physical_tree (booted Memory_12Gb)) = true) as H by (vm_compute; reflexivity).
  apply existsb_exists in H as (r & Hr & [Hp Hx]%andb_true_iff). exists r. split; [apply list_elem_of_In; exact Hr|]. split; [exact Hp|exact Hx].
Defined.

(** Three regions of a small tree, two of the application pool around one of the system pool. *)
Definition demo_pools : tree :=
  [KMemoryRegion_new 0x80000000 0x80FFFFFF 0 KMemoryRegionType_DramKernelCode; KMemoryRegion_new 0x81000000 0x810FFFFF 0 KMemoryRegionType_DramApplicationPool;
   KMemoryRegion_new 0x81100000 0x811FFFFF 1 KMemoryRegionType_DramSystemPool; KMemoryRegion_new 0x81200000 0x812FFFFF 2 KMemoryRegionType_DramApplicationPool].
Definition demo_pool_layout : KMemoryLayout :=
  mkLayout 0 0 4 [] demo_pools [] (select (fun r => HasTypeAttribute r KMemoryRegionAttr_LinearMapped) demo_pools).

Lemma memory_manager_takes_pools_witness :
  exists mm', KMemoryManager_Initialize Memory_4Gb (fun _ => 0x10000) demo_pools 0x7000000000000000 0x100000 demo_fresh_mm = Done true mm' /\
    pool_chain mm' Pool.Application Direction.FromBack [2%nat; 0%nat] /\ mm_avail mm' 0x81150000.
Proof.
  destruct (memory_manager_takes_pools demo_pool_layout Memory_4Gb (fun _ => 0x10000) 0x7000000000000000 0x100000 3 (reg_of demo_pools) (pool_of demo_pools)
    demo_fresh_mm) as (mm' & E & _ & _ & Hav & _ & Hch).
  - change 3%nat with (num_of demo_pools). apply pools_check_sound. vm_compute. reflexivity.
  - intros x. unfold FindPhysicalLinear, FindPhysical. assert (tree_wf demo_pools) as W by (apply tree_check_sound; vm_compute; reflexivity).
    rewrite !(Find_region_of 0) by (exact W || (apply select_wf; exact W)). apply (select_at _ _ 0). exact W.
  - exact demo_fresh.
  - exists mm'. split; [exact E|]. split; [exact (proj2 (Hch 0%nat ltac:(lia)))|]. apply Hav. exists 1%nat. split; [lia|vm_compute; reflexivity].
Defined.
