(* ===== verification/KCapabilities.v ===== *)
(** * KCapabilities: core/hle/kernel/k_capabilities.h and .cpp, svc_version.h

    The capability descriptors of a process: 32-bit words that say on which cores and priorities it may run, which
    system calls it may use and which memory is mapped into its address space.  The number of trailing ones of a word
    is its type; the rest are bit fields.

    The page table the descriptors are mapped into is the class [PageTable], with the three operations they call.

    The theorems say that initialising from a list of words does what the decoded descriptors say, with the error of the
    first descriptor that is refused; that decoding inverts encoding; and that no list of descriptors gives a process
    kernel priorities, system calls nobody listed, or physical memory outside the permitted range. *)

From S2P Require Import Prelude Common BitField KMemoryBlock KMemoryRegionType KMemoryRegion KMemoryLayout KernelBoot.
#[local] Open Scope Z_scope.

(** ** core/hardware_properties.h *)

Definition VirtualToPhysicalCoreMap : list Z := [0; 1; 2; 3] ++ replicate 59 0 ++ [3].
Definition NumVirtualCores : Z := BitSize_u64.

Fixpoint VirtualCoreMask_loop (n : nat) (i mask : Z) : Z :=
  match n with O => mask | S n => VirtualCoreMask_loop n (i + 1) (mask .| u64 (1 .<< i)) end.
Definition VirtualCoreMask : Z := VirtualCoreMask_loop (Z.to_nat NumVirtualCores) 0 0.

(** Every round clears one bit of the mask, so that 64 rounds are enough. *)
Fixpoint convert_loop (fuel : nat) (v_core_mask p_core_mask : Z) : outcome Z :=
  if v_core_mask =? 0 then mret p_core_mask
  else match fuel with
       | O => Undef
       | S fuel =>
           let next := countr_zero 64 v_core_mask in
           bit ← shl64 1 next;
           core ← arr_get VirtualToPhysicalCoreMap next;
           pbit ← shl64 1 core;
           convert_loop fuel (v_core_mask .& notu 64 bit) (p_core_mask .| pbit)
       end.
Definition ConvertVirtualCoreMaskToPhysical (v_core_mask : Z) : outcome Z := convert_loop 64 v_core_mask 0.

(** ** svc_version.h *)

Definition ConvertToSvcMajorVersion (sdk : Z) : Z := u32 (sdk + 4).
Definition ConvertToSvcMinorVersion (sdk : Z) : Z := sdk.
Definition SupportedKernelMajorVersion : Z := ConvertToSvcMajorVersion 22.
Definition SupportedKernelMinorVersion : Z := ConvertToSvcMinorVersion 2.

(** ** Descriptors *)

Module CapabilityType.
Definition CorePriority : Z := (1 .<< 3) - 1.
Definition SyscallMask : Z := (1 .<< 4) - 1.
Definition MapRange : Z := (1 .<< 6) - 1.
Definition MapIoPage : Z := (1 .<< 7) - 1.
Definition MapRegion : Z := (1 .<< 10) - 1.
Definition InterruptPair : Z := (1 .<< 11) - 1.
Definition ProgramType : Z := (1 .<< 13) - 1.
Definition KernelVersion : Z := (1 .<< 14) - 1.
Definition HandleTable : Z := (1 .<< 15) - 1.
Definition DebugFlags : Z := (1 .<< 16) - 1.
Definition Invalid : Z := 0.
Definition Padding : Z := notu 32 0.
End CapabilityType.

Definition GetCapabilityType (value : Z) : Z := u32 ((notu 32 value .& u32 (value + 1)) - 1).
Definition GetCapabilityFlag (type : Z) : Z := u32 (type + 1).

Module CorePriority.
Definition lowest_thread_priority := mkField 4 6 32.
Definition highest_thread_priority := mkField 10 6 32.
Definition minimum_core_id := mkField 16 8 32.
Definition maximum_core_id := mkField 24 8 32.
End CorePriority.

Module SyscallMask.
Definition mask := mkField 5 24 32.
Definition index := mkField 29 3 32.
End SyscallMask.

Definition PhysicalMapAllowedMask : Z := (1 .<< 36) - 1.

Module MapRange.
Definition address := mkField 7 24 32.
Definition read_only := mkField 31 1 32.
End MapRange.

Module MapRangeSize.
Definition pages := mkField 7 20 32.
Definition reserved := mkField 27 4 32.
Definition normal := mkField 31 1 32.
End MapRangeSize.

Module MapIoPage.
Definition address := mkField 8 24 32.
End MapIoPage.

Module RegionType.
Definition NoMapping : Z := 0.
Definition KernelTraceBuffer : Z := 1.
Definition OnMemoryBootImage : Z := 2.
Definition DTB : Z := 3.
End RegionType.

Module MapRegion.
Definition region0 := mkField 11 6 32.
Definition read_only0 := mkField 17 1 32.
Definition region1 := mkField 18 6 32.
Definition read_only1 := mkField 24 1 32.
Definition region2 := mkField 25 6 32.
Definition read_only2 := mkField 31 1 32.
End MapRegion.

Module InterruptPair.
Definition interrupt_id0 := mkField 12 10 32.
Definition interrupt_id1 := mkField 22 10 32.
End InterruptPair.

Module ProgramType.
Definition type := mkField 14 3 32.
Definition reserved := mkField 17 15 32.
End ProgramType.

Module KernelVersion.
Definition minor_version := mkField 15 4 32.
Definition major_version := mkField 19 13 32.
End KernelVersion.

Module HandleTable.
Definition size := mkField 16 10 32.
Definition reserved := mkField 26 6 32.
End HandleTable.

Module DebugFlags.
Definition allow_debug := mkField 17 1 32.
Definition force_debug := mkField 18 1 32.
Definition reserved := mkField 19 13 32.
End DebugFlags.

Definition InitializeOnceFlags : Z :=
  GetCapabilityFlag CapabilityType.CorePriority .| GetCapabilityFlag CapabilityType.ProgramType .|
  GetCapabilityFlag CapabilityType.KernelVersion .| GetCapabilityFlag CapabilityType.HandleTable .|
  GetCapabilityFlag CapabilityType.DebugFlags.
Definition PaddingInterruptId : Z := 0x3FF.
Definition NumSupervisorCalls : Z := 0xC0.
Definition InterruptIdCount : Z := 0x400.

(** ** The class *)

(** The two bit sets are words of [NumSupervisorCalls] and [InterruptIdCount] bits. *)
Record KCapabilities := mkCaps {
  m_svc_access_flags : Z;
  m_irq_access_flags : Z;
  m_core_mask : Z;
  m_phys_core_mask : Z;
  m_priority_mask : Z;
  m_debug_capabilities : Z;
  m_handle_table_size : Z;
  m_intended_kernel_version : Z;
  m_program_type : Z
}.

Definition GetCoreMask (c : KCapabilities) : Z := m_core_mask c.
Definition GetPhysicalCoreMask (c : KCapabilities) : Z := m_phys_core_mask c.
Definition GetPriorityMask (c : KCapabilities) : Z := m_priority_mask c.
Definition GetHandleTableSize (c : KCapabilities) : Z := m_handle_table_size c.
Definition IsPermittedSvc (id : Z) (c : KCapabilities) : bool := (id <? NumSupervisorCalls) && Z.testbit (m_svc_access_flags c) id.
Definition IsPermittedInterrupt (id : Z) (c : KCapabilities) : bool := (id <? InterruptIdCount) && Z.testbit (m_irq_access_flags c) id.
Definition IsPermittedDebug (c : KCapabilities) : bool := negb (ExtractValue DebugFlags.allow_debug (m_debug_capabilities c) =? 0).
Definition CanForceDebug (c : KCapabilities) : bool := negb (ExtractValue DebugFlags.force_debug (m_debug_capabilities c) =? 0).
Definition GetIntendedKernelMajorVersion (c : KCapabilities) : Z := ExtractValue KernelVersion.major_version (m_intended_kernel_version c).
Definition GetIntendedKernelMinorVersion (c : KCapabilities) : Z := ExtractValue KernelVersion.minor_version (m_intended_kernel_version c).

(** Assignments to one member. *)
Definition with_svc (v : Z) (c : KCapabilities) : KCapabilities :=
  mkCaps v (m_irq_access_flags c) (m_core_mask c) (m_phys_core_mask c) (m_priority_mask c) (m_debug_capabilities c) (m_handle_table_size c)
    (m_intended_kernel_version c) (m_program_type c).
Definition with_cores (core phys prio : Z) (c : KCapabilities) : KCapabilities :=
  mkCaps (m_svc_access_flags c) (m_irq_access_flags c) core phys prio (m_debug_capabilities c) (m_handle_table_size c) (m_intended_kernel_version c)
    (m_program_type c).
Definition with_debug (v : Z) (c : KCapabilities) : KCapabilities :=
  mkCaps (m_svc_access_flags c) (m_irq_access_flags c) (m_core_mask c) (m_phys_core_mask c) (m_priority_mask c) v (m_handle_table_size c)
    (m_intended_kernel_version c) (m_program_type c).
Definition with_handles (v : Z) (c : KCapabilities) : KCapabilities :=
  mkCaps (m_svc_access_flags c) (m_irq_access_flags c) (m_core_mask c) (m_phys_core_mask c) (m_priority_mask c) (m_debug_capabilities c) v
    (m_intended_kernel_version c) (m_program_type c).
Definition with_version (v : Z) (c : KCapabilities) : KCapabilities :=
  mkCaps (m_svc_access_flags c) (m_irq_access_flags c) (m_core_mask c) (m_phys_core_mask c) (m_priority_mask c) (m_debug_capabilities c)
    (m_handle_table_size c) v (m_program_type c).
Definition with_program_type (v : Z) (c : KCapabilities) : KCapabilities :=
  mkCaps (m_svc_access_flags c) (m_irq_access_flags c) (m_core_mask c) (m_phys_core_mask c) (m_priority_mask c) (m_debug_capabilities c)
    (m_handle_table_size c) (m_intended_kernel_version c) v.

(** [SetSvcAllowed]: whether the number is in range, and the new set. *)
Definition SetSvcAllowed (id : Z) (c : KCapabilities) : bool * KCapabilities :=
  if id <? NumSupervisorCalls then (true, with_svc (m_svc_access_flags c .| (1 .<< id)) c) else (false, c).

(** Nothing calls this one: interrupts are not permitted to anyone yet. *)
Definition SetInterruptPermitted (id : Z) (c : KCapabilities) : bool * KCapabilities :=
  if id <? InterruptIdCount then
    (true, mkCaps (m_svc_access_flags c) (m_irq_access_flags c .| (1 .<< id)) (m_core_mask c) (m_phys_core_mask c) (m_priority_mask c) (m_debug_capabilities c)
             (m_handle_table_size c) (m_intended_kernel_version c) (m_program_type c))
  else (false, c).

(** What the descriptors ask of the page table: [MapIo], [MapStatic] and [MapRegion] of KProcessPageTable. *)
Class PageTable (P : Type) := {
  pt_MapIo : Z -> Z -> Z -> P -> outcome (Z * P);
  pt_MapStatic : Z -> Z -> Z -> P -> outcome (Z * P);
  pt_MapRegion : Z -> Z -> P -> outcome (Z * P)
}.

(** The loops over core numbers and priorities: [mask |= 1ULL << i] for [i] up to [last]. *)
Fixpoint set_bits (fuel : nat) (i last mask : Z) : outcome Z :=
  if i <=? last then
    match fuel with
    | O => Undef
    | S fuel => bit ← shl64 1 i; set_bits fuel (u32 (i + 1)) last (mask .| bit)
    end
  else mret mask.

Definition SetCorePriorityCapability (cap : Z) (c : KCapabilities) : outcome (Z * KCapabilities) :=
  R_UNLESS m_core_mask c =? 0 ELSE ResultInvalidArgument AT c;
  R_UNLESS m_priority_mask c =? 0 ELSE ResultInvalidArgument AT c;
  let min_core := ExtractValue CorePriority.minimum_core_id cap in
  let max_core := ExtractValue CorePriority.maximum_core_id cap in
  let max_prio := ExtractValue CorePriority.lowest_thread_priority cap in
  let min_prio := ExtractValue CorePriority.highest_thread_priority cap in
  R_UNLESS min_core <=? max_core ELSE ResultInvalidCombination AT c;
  R_UNLESS min_prio <=? max_prio ELSE ResultInvalidCombination AT c;
  R_UNLESS max_core <? NumVirtualCores ELSE ResultInvalidCoreId AT c;
  ASSERT (max_prio <? BitSize_u64);;
  core_mask ← set_bits 64 min_core max_core (m_core_mask c);
  ASSERT (core_mask .& VirtualCoreMask =? core_mask);;
  phys ← ConvertVirtualCoreMaskToPhysical core_mask;
  priority_mask ← set_bits 64 min_prio max_prio (m_priority_mask c);
  let c := with_cores core_mask phys priority_mask c in
  R_UNLESS negb (m_core_mask c =? 0) ELSE ResultInvalidArgument AT c;
  R_UNLESS negb (m_priority_mask c =? 0) ELSE ResultInvalidArgument AT c;
  R_UNLESS m_priority_mask c .& 0xF =? 0 ELSE ResultInvalidArgument AT c;
  mret (ResultSuccess, c).

(** The loop over the bits of the mask. *)
Fixpoint set_svcs (n : nat) (i mask index : Z) (c : KCapabilities) : outcome (Z * KCapabilities) :=
  match n with
  | O => mret (ResultSuccess, c)
  | S n =>
      let svc_id := u32 (bits SyscallMask.mask * index + i) in
      if negb (mask .& u32 (1 .<< i) =? 0) then
        let '(allowed, c) := SetSvcAllowed svc_id c in
        R_UNLESS allowed ELSE ResultOutOfRange AT c;
        set_svcs n (i + 1) mask index c
      else set_svcs n (i + 1) mask index c
  end.

Definition SetSyscallMaskCapability (cap : Z) (set_svc : Z) (c : KCapabilities) : outcome (Z * (Z * KCapabilities)) :=
  let mask := ExtractValue SyscallMask.mask cap in
  let index := ExtractValue SyscallMask.index cap in
  let index_flag := u32 (1 .<< index) in
  R_UNLESS set_svc .& index_flag =? 0 ELSE ResultInvalidCombination AT (set_svc, c);
  let set_svc := set_svc .| index_flag in
  rc ← set_svcs (Z.to_nat (bits SyscallMask.mask)) 0 mask index c;
  mret (fst rc, (set_svc, snd rc)).

Section PageTableUser.
Context {P : Type} {PT : PageTable P}.

Definition perm_of (read_only : Z) : Z := if negb (read_only =? 0) then MemoryPermission.UserRead else MemoryPermission.UserReadWrite.

Definition MapRange_ (cap size_cap : Z) (pt : P) : outcome (Z * P) :=
  let phys_addr := u64 (ExtractValue MapRange.address cap * PageSize) in
  R_UNLESS ExtractValue MapRangeSize.reserved size_cap =? 0 ELSE ResultOutOfRange AT pt;
  let num_pages := ExtractValue MapRangeSize.pages size_cap in
  let size := u64 (num_pages * PageSize) in
  R_UNLESS negb (num_pages =? 0) ELSE ResultInvalidSize AT pt;
  R_UNLESS phys_addr <? u64 (phys_addr + size) ELSE ResultInvalidAddress AT pt;
  R_UNLESS u64 (phys_addr + size - 1) .& notu 64 PhysicalMapAllowedMask =? 0 ELSE ResultInvalidAddress AT pt;
  let perm := perm_of (ExtractValue MapRange.read_only cap) in
  if negb (ExtractValue MapRangeSize.normal size_cap =? 0) then pt_MapStatic phys_addr size perm pt
  else pt_MapIo phys_addr size perm pt.

Definition MapIoPage_ (cap : Z) (pt : P) : outcome (Z * P) :=
  let phys_addr := u64 (ExtractValue MapIoPage.address cap * PageSize) in
  let num_pages := 1 in
  let size := u64 (num_pages * PageSize) in
  R_UNLESS phys_addr <? u64 (phys_addr + size) ELSE ResultInvalidAddress AT pt;
  R_UNLESS u64 (phys_addr + size - 1) .& notu 64 PhysicalMapAllowedMask =? 0 ELSE ResultInvalidAddress AT pt;
  pt_MapIo phys_addr size MemoryPermission.UserReadWrite pt.
End PageTableUser.

Definition MemoryRegions : list Z :=
  [GetValue KMemoryRegionType_None; GetValue KMemoryRegionType_KernelTraceBuffer; GetValue KMemoryRegionType_OnMemoryBootImage; GetValue KMemoryRegionType_DTB].

(** The loop of [ProcessMapRegionCapability], for the callback [f] and the state it works on. *)
Fixpoint process_regions {T} (f : Z -> Z -> T -> outcome (Z * T)) (l : list (Z * Z)) (s : T) : outcome (Z * T) :=
  match l with
  | [] => mret (ResultSuccess, s)
  | (type, ro) :: l =>
      let perm := perm_of ro in
      let call := region ← arr_get MemoryRegions type; R_TRY (f region perm s) (process_regions f l) in
      if type =? RegionType.NoMapping then process_regions f l s
      else if type =? RegionType.KernelTraceBuffer then if negb IsKTraceEnabled then process_regions f l s else call
      else if (type =? RegionType.OnMemoryBootImage) || (type =? RegionType.DTB) then call
      else mret (ResultNotFound, s)
  end.
Definition ProcessMapRegionCapability {T} (cap : Z) (f : Z -> Z -> T -> outcome (Z * T)) (s : T) : outcome (Z * T) :=
  process_regions f [(ExtractValue MapRegion.region0 cap, ExtractValue MapRegion.read_only0 cap);
                     (ExtractValue MapRegion.region1 cap, ExtractValue MapRegion.read_only1 cap);
                     (ExtractValue MapRegion.region2 cap, ExtractValue MapRegion.read_only2 cap)] s.

Definition MapRegion_ {P} {PT : PageTable P} (cap : Z) (pt : P) : outcome (Z * P) := ProcessMapRegionCapability cap pt_MapRegion pt.

Definition CheckMapRegion (l : KMemoryLayout) (cap : Z) : outcome (Z * unit) :=
  ProcessMapRegionCapability cap (fun region_type _ u =>
    R_UNLESS match FindFirstDerived region_type (m_physical_tree l) with Some _ => true | None => false end ELSE ResultOutOfRange AT u;
    mret (ResultSuccess, u)) tt.

(** Permitting interrupts is not implemented: the loop body only reports so. *)
Definition SetInterruptPairCapability (cap : Z) (c : KCapabilities) : outcome (Z * KCapabilities) :=
  ASSERT (ExtractValue InterruptPair.interrupt_id0 cap =? PaddingInterruptId);;
  ASSERT (ExtractValue InterruptPair.interrupt_id1 cap =? PaddingInterruptId);;
  mret (ResultSuccess, c).

Definition SetProgramTypeCapability (cap : Z) (c : KCapabilities) : outcome (Z * KCapabilities) :=
  R_UNLESS ExtractValue ProgramType.reserved cap =? 0 ELSE ResultReservedUsed AT c;
  mret (ResultSuccess, with_program_type (ExtractValue ProgramType.type cap) c).

Definition SetKernelVersionCapability (cap : Z) (c : KCapabilities) : outcome (Z * KCapabilities) :=
  R_UNLESS GetIntendedKernelMajorVersion c =? 0 ELSE ResultInvalidArgument AT c;
  let c := with_version cap c in
  R_UNLESS negb (GetIntendedKernelMajorVersion c =? 0) ELSE ResultInvalidArgument AT c;
  mret (ResultSuccess, c).

Definition SetHandleTableCapability (cap : Z) (c : KCapabilities) : outcome (Z * KCapabilities) :=
  R_UNLESS ExtractValue HandleTable.reserved cap =? 0 ELSE ResultReservedUsed AT c;
  mret (ResultSuccess, with_handles (s32 (ExtractValue HandleTable.size cap)) c).

Definition SetDebugFlagsCapability (cap : Z) (c : KCapabilities) : outcome (Z * KCapabilities) :=
  let raw := m_debug_capabilities c in
  let raw := Assign DebugFlags.allow_debug raw (ExtractValue DebugFlags.allow_debug cap) in
  let raw := Assign DebugFlags.force_debug raw (ExtractValue DebugFlags.force_debug cap) in
  mret (ResultSuccess, with_debug raw c).

Section SetCapabilities.
Context {P : Type} {PT : PageTable P}.

(** The state of a run: the two words that say what was set already, the object and the page table. *)
Record run := mkRun { set_flags : Z; set_svc : Z; caps : KCapabilities; page_table : P }.

Definition on_caps (f : KCapabilities -> outcome (Z * KCapabilities)) (s : run) : outcome (Z * run) :=
  rc ← f (caps s); mret (fst rc, mkRun (set_flags s) (set_svc s) (snd rc) (page_table s)).
Definition on_page_table (f : P -> outcome (Z * P)) (s : run) : outcome (Z * run) :=
  rp ← f (page_table s); mret (fst rp, mkRun (set_flags s) (set_svc s) (caps s) (snd rp)).

Definition SetCapability (cap : Z) (s : run) : outcome (Z * run) :=
  let type := GetCapabilityType cap in
  R_UNLESS negb (type =? CapabilityType.Invalid) ELSE ResultInvalidArgument AT s;
  R_UNLESS negb (type =? CapabilityType.Padding) ELSE ResultSuccess AT s;
  let flag := GetCapabilityFlag type in
  R_UNLESS (set_flags s .& InitializeOnceFlags) .& flag =? 0 ELSE ResultInvalidCombination AT s;
  let s := mkRun (set_flags s .| flag) (set_svc s) (caps s) (page_table s) in
  if type =? CapabilityType.CorePriority then on_caps (SetCorePriorityCapability cap) s
  else if type =? CapabilityType.SyscallMask then
    rc ← SetSyscallMaskCapability cap (set_svc s) (caps s);
    mret (fst rc, mkRun (set_flags s) (fst (snd rc)) (snd (snd rc)) (page_table s))
  else if type =? CapabilityType.MapIoPage then on_page_table (MapIoPage_ cap) s
  else if type =? CapabilityType.MapRegion then on_page_table (MapRegion_ cap) s
  else if type =? CapabilityType.InterruptPair then on_caps (SetInterruptPairCapability cap) s
  else if type =? CapabilityType.ProgramType then on_caps (SetProgramTypeCapability cap) s
  else if type =? CapabilityType.KernelVersion then on_caps (SetKernelVersionCapability cap) s
  else if type =? CapabilityType.HandleTable then on_caps (SetHandleTableCapability cap) s
  else if type =? CapabilityType.DebugFlags then on_caps (SetDebugFlagsCapability cap) s
  else mret (ResultInvalidArgument, s).

Fixpoint SetCapabilities_loop (words : list Z) (s : run) : outcome (Z * run) :=
  match words with
  | [] => mret (ResultSuccess, s)
  | cap :: words =>
      if GetCapabilityType cap =? CapabilityType.MapRange then
        match words with
        | [] => mret (ResultInvalidCombination, s)
        | size_cap :: words =>
            R_UNLESS GetCapabilityType size_cap =? CapabilityType.MapRange ELSE ResultInvalidCombination AT s;
            R_TRY (on_page_table (MapRange_ cap size_cap) s) (SetCapabilities_loop words)
        end
      else R_TRY (SetCapability cap s) (SetCapabilities_loop words)
  end.
Definition SetCapabilities (words : list Z) (c : KCapabilities) (pt : P) : outcome (Z * (KCapabilities * P)) :=
  rs ← SetCapabilities_loop words (mkRun 0 0 c pt); mret (fst rs, (caps (snd rs), page_table (snd rs))).

Definition InitializeForKip (kern_caps : list Z) (c : KCapabilities) (pt : P) : outcome (Z * (KCapabilities * P)) :=
  phys ← ConvertVirtualCoreMaskToPhysical VirtualCoreMask;
  let intended_kernel_version := Assign KernelVersion.major_version 0 SupportedKernelMajorVersion in
  let intended_kernel_version := Assign KernelVersion.minor_version intended_kernel_version SupportedKernelMinorVersion in
  SetCapabilities kern_caps (mkCaps 0 0 VirtualCoreMask phys (notu 64 0xF) 0 0 intended_kernel_version 0) pt.

Definition InitializeForUser (user_caps : list Z) (c : KCapabilities) (pt : P) : outcome (Z * (KCapabilities * P)) :=
  SetCapabilities user_caps (mkCaps 0 0 0 (m_phys_core_mask c) 0 0 0 0 0) pt.
End SetCapabilities.

Fixpoint CheckCapabilities (l : KMemoryLayout) (words : list Z) : outcome (Z * unit) :=
  match words with
  | [] => mret (ResultSuccess, tt)
  | cap :: words =>
      if GetCapabilityType cap =? CapabilityType.MapRegion then R_TRY (CheckMapRegion l cap) (fun _ => CheckCapabilities l words)
      else CheckCapabilities l words
  end.

(** ** The meaning of descriptors *)

(** A decoded descriptor; [UnpairedCap] is an address word without the size word that belongs behind it. *)
Inductive Cap :=
| CorePriorityCap (lowest highest min_core max_core : Z)
| SyscallMaskCap (mask index : Z)
| MapRangeCap (address read_only pages reserved normal : Z)
| MapIoPageCap (address : Z)
| MapRegionCap (region0 read_only0 region1 read_only1 region2 read_only2 : Z)
| InterruptPairCap (id0 id1 : Z)
| ProgramTypeCap (type reserved : Z)
| KernelVersionCap (minor major : Z)
| HandleTableCap (size reserved : Z)
| DebugFlagsCap (allow force reserved : Z)
| PaddingCap
| UnpairedCap (word : Z)
| UnknownCap (word : Z).

Definition trailing_ones (w : Z) : Z := countr_zero 32 (notu 32 w).

Definition decode_word (w : Z) : Cap :=
  let x f := ExtractValue f w in
  let k := trailing_ones w in
  if k =? 3 then CorePriorityCap (x CorePriority.lowest_thread_priority) (x CorePriority.highest_thread_priority) (x CorePriority.minimum_core_id) (x CorePriority.maximum_core_id)
  else if k =? 4 then SyscallMaskCap (x SyscallMask.mask) (x SyscallMask.index)
  else if k =? 7 then MapIoPageCap (x MapIoPage.address)
  else if k =? 10 then MapRegionCap (x MapRegion.region0) (x MapRegion.read_only0) (x MapRegion.region1) (x MapRegion.read_only1) (x MapRegion.region2) (x MapRegion.read_only2)
  else if k =? 11 then InterruptPairCap (x InterruptPair.interrupt_id0) (x InterruptPair.interrupt_id1)
  else if k =? 13 then ProgramTypeCap (x ProgramType.type) (x ProgramType.reserved)
  else if k =? 14 then KernelVersionCap (x KernelVersion.minor_version) (x KernelVersion.major_version)
  else if k =? 15 then HandleTableCap (x HandleTable.size) (x HandleTable.reserved)
  else if k =? 16 then DebugFlagsCap (x DebugFlags.allow_debug) (x DebugFlags.force_debug) (x DebugFlags.reserved)
  else if k =? 32 then PaddingCap
  else UnknownCap w.

Definition decode_pair (w s : Z) : Cap :=
  MapRangeCap (ExtractValue MapRange.address w) (ExtractValue MapRange.read_only w)
    (ExtractValue MapRangeSize.pages s) (ExtractValue MapRangeSize.reserved s) (ExtractValue MapRangeSize.normal s).

Fixpoint decode (words : list Z) : list Cap :=
  match words with
  | [] => []
  | w :: words =>
      if trailing_ones w =? 6 then
        match words with
        | s :: words => if trailing_ones s =? 6 then decode_pair w s :: decode words else [UnpairedCap w]
        | [] => [UnpairedCap w]
        end
      else decode_word w :: decode words
  end.

(** The words of a descriptor: its fields side by side, behind as many ones as its type says. *)
Fixpoint pack (l : list (BitField * Z)) : Z := match l with [] => 0 | (f, v) :: l => FormatValue f v .| pack l end.
Definition tag (k : Z) : BitField * Z := (mkField 0 (k + 1) 32, Z.ones k).

Definition cap_fields (c : Cap) : list (list (BitField * Z)) :=
  match c with
  | CorePriorityCap lo hi mn mx =>
      [[tag 3; (CorePriority.lowest_thread_priority, lo); (CorePriority.highest_thread_priority, hi); (CorePriority.minimum_core_id, mn); (CorePriority.maximum_core_id, mx)]]
  | SyscallMaskCap m i => [[tag 4; (SyscallMask.mask, m); (SyscallMask.index, i)]]
  | MapRangeCap a ro p r n =>
      [[tag 6; (MapRange.address, a); (MapRange.read_only, ro)]; [tag 6; (MapRangeSize.pages, p); (MapRangeSize.reserved, r); (MapRangeSize.normal, n)]]
  | MapIoPageCap a => [[tag 7; (MapIoPage.address, a)]]
  | MapRegionCap r0 o0 r1 o1 r2 o2 =>
      [[tag 10; (MapRegion.region0, r0); (MapRegion.read_only0, o0); (MapRegion.region1, r1); (MapRegion.read_only1, o1); (MapRegion.region2, r2); (MapRegion.read_only2, o2)]]
  | InterruptPairCap i j => [[tag 11; (InterruptPair.interrupt_id0, i); (InterruptPair.interrupt_id1, j)]]
  | ProgramTypeCap t r => [[tag 13; (ProgramType.type, t); (ProgramType.reserved, r)]]
  | KernelVersionCap mi ma => [[tag 14; (KernelVersion.minor_version, mi); (KernelVersion.major_version, ma)]]
  | HandleTableCap s r => [[tag 15; (HandleTable.size, s); (HandleTable.reserved, r)]]
  | DebugFlagsCap a f r => [[tag 16; (DebugFlags.allow_debug, a); (DebugFlags.force_debug, f); (DebugFlags.reserved, r)]]
  | PaddingCap => [[(mkField 0 32 32, Z.ones 32)]]
  | UnpairedCap w | UnknownCap w => [[(mkField 0 32 32, w)]]
  end.
Definition encode (c : Cap) : list Z := map pack (cap_fields c).

Definition cap_kind (c : Cap) : Z :=
  match c with
  | CorePriorityCap _ _ _ _ => 3 | SyscallMaskCap _ _ => 4 | MapRangeCap _ _ _ _ _ | UnpairedCap _ => 6 | MapIoPageCap _ => 7
  | MapRegionCap _ _ _ _ _ _ => 10 | InterruptPairCap _ _ => 11 | ProgramTypeCap _ _ => 13 | KernelVersionCap _ _ => 14
  | HandleTableCap _ _ => 15 | DebugFlagsCap _ _ _ => 16 | PaddingCap => 32 | UnknownCap w => trailing_ones w
  end.
Definition known_kinds : list Z := [3; 4; 6; 7; 10; 11; 13; 14; 15; 16; 32].
Definition once_kinds : list Z := [3; 13; 14; 15; 16].

(** What a descriptor may hold: fields that fit, and no type of its own for an unknown word. *)
Definition cap_ok (c : Cap) : Prop :=
  Forall (Forall (fun fv => in_u (bits (fst fv)) (snd fv))) (cap_fields c) /\
  match c with UnpairedCap _ => False | UnknownCap w => cap_kind c ∉ known_kinds | _ => True end.

(** Whether a descriptor is refused after the ones before it, and with which result. *)
Definition refusal (kip : bool) (seen : list Cap) (c : Cap) : option Z :=
  if existsb (Z.eqb (cap_kind c)) once_kinds && existsb (fun d => cap_kind d =? cap_kind c) seen then Some ResultInvalidCombination
  else match c with
  | CorePriorityCap lo hi mn mx =>
      if kip then Some ResultInvalidArgument
      else if (mx <? mn) || (lo <? hi) then Some ResultInvalidCombination
      else if 64 <=? mx then Some ResultInvalidCoreId
      else if hi <? 4 then Some ResultInvalidArgument
      else None
  | SyscallMaskCap _ i =>
      if existsb (fun d => match d with SyscallMaskCap _ j => j =? i | _ => false end) seen then Some ResultInvalidCombination else None
  | MapRangeCap a _ p r _ =>
      if negb (r =? 0) then Some ResultOutOfRange
      else if p =? 0 then Some ResultInvalidSize
      else if 2 ^ 24 <? a + p then Some ResultInvalidAddress
      else None
  | ProgramTypeCap _ r | HandleTableCap _ r => if negb (r =? 0) then Some ResultReservedUsed else None
  | KernelVersionCap _ ma => if kip || (ma =? 0) then Some ResultInvalidArgument else None
  | UnpairedCap _ => Some ResultInvalidCombination
  | UnknownCap _ => Some ResultInvalidArgument
  | MapIoPageCap _ | MapRegionCap _ _ _ _ _ _ | InterruptPairCap _ _ | DebugFlagsCap _ _ _ | PaddingCap => None
  end.

(** The regions a descriptor asks for, in order; a type without meaning ends them. *)
Fixpoint map_regions {P} {PT : PageTable P} (l : list (Z * Z)) (pt : P) : outcome (Z * P) :=
  match l with
  | [] => mret (ResultSuccess, pt)
  | (t, ro) :: l =>
      if t <=? 1 then map_regions l pt
      else if t <=? 3 then
        rp ← pt_MapRegion (if t =? 2 then GetValue KMemoryRegionType_OnMemoryBootImage else GetValue KMemoryRegionType_DTB) (perm_of ro) pt;
        if fst rp =? 0 then map_regions l (snd rp) else mret rp
      else mret (ResultNotFound, pt)
  end.

(** What a descriptor that is not refused does to the page table. *)
Definition perform {P} {PT : PageTable P} (c : Cap) (pt : P) : outcome (Z * P) :=
  match c with
  | MapRangeCap a ro p _ n => (if n =? 0 then pt_MapIo else pt_MapStatic) (a * 4096) (p * 4096) (perm_of ro) pt
  | MapIoPageCap a => pt_MapIo (a * 4096) 4096 MemoryPermission.UserReadWrite pt
  | MapRegionCap r0 o0 r1 o1 r2 o2 => map_regions [(r0, o0); (r1, o1); (r2, o2)] pt
  | InterruptPairCap i j => ASSERT ((i =? 0x3FF) && (j =? 0x3FF));; mret (ResultSuccess, pt)
  | _ => mret (ResultSuccess, pt)
  end.

Fixpoint grant {P} {PT : PageTable P} (kip : bool) (seen cs : list Cap) (pt : P) : outcome (Z * P) :=
  match cs with
  | [] => mret (ResultSuccess, pt)
  | c :: cs =>
      match refusal kip seen c with
      | Some e => mret (e, pt)
      | None => rp ← perform c pt; if fst rp =? 0 then grant kip (seen ++ [c]) cs (snd rp) else mret rp
      end
  end.

(** The words of the object once the descriptors [cs] are granted. *)
Definition range_mask (lo hi : Z) : Z := Z.ones (hi - lo + 1) .<< lo.
Definition phys_of (v : Z) : Z :=
  foldr (fun n m => (if Z.testbit v n then 1 .<< default 0 (VirtualToPhysicalCoreMap !! Z.to_nat n) else 0) .| m) 0 (seqZ 0 64).
Definition first_of {A} (f : Cap -> option A) (cs : list Cap) (d : A) : A := default d (head (omap f cs)).

(** The system calls of a mask descriptor, as a set. *)
Definition svc_bits (c : Cap) : Z := match c with SyscallMaskCap k i => k .<< (24 * i) | _ => 0 end.

Definition meaning (start : KCapabilities) (cs : list Cap) : KCapabilities :=
  mkCaps (foldl (fun m c => m .| svc_bits c) (m_svc_access_flags start) cs)
    (m_irq_access_flags start)
    (first_of (fun c => match c with CorePriorityCap _ _ mn mx => Some (range_mask mn mx) | _ => None end) cs (m_core_mask start))
    (first_of (fun c => match c with CorePriorityCap _ _ mn mx => Some (phys_of (range_mask mn mx)) | _ => None end) cs (m_phys_core_mask start))
    (first_of (fun c => match c with CorePriorityCap lo hi _ _ => Some (range_mask hi lo) | _ => None end) cs (m_priority_mask start))
    (first_of (fun c => match c with DebugFlagsCap a f _ => Some ((a .<< 17) .| (f .<< 18)) | _ => None end) cs (m_debug_capabilities start))
    (first_of (fun c => match c with HandleTableCap s _ => Some s | _ => None end) cs (m_handle_table_size start))
    (first_of (fun c => match c with KernelVersionCap mi ma => Some (0x3FFF + mi * 2 ^ 15 + ma * 2 ^ 19) | _ => None end) cs (m_intended_kernel_version start))
    (first_of (fun c => match c with ProgramTypeCap t _ => Some t | _ => None end) cs (m_program_type start)).

Definition user_start (phys : Z) : KCapabilities := mkCaps 0 0 0 phys 0 0 0 0 0.
Definition kip_start : KCapabilities := mkCaps 0 0 (Z.ones 64) 0xF (notu 64 0xF) 0 0 (2 * 2 ^ 15 + 26 * 2 ^ 19) 0.
Definition start_of (kip : bool) (phys : Z) : KCapabilities := if kip then kip_start else user_start phys.

(** ** Bits *)

Lemma land_pow2_zero x k : 0 <= k -> (x .& (1 .<< k) =? 0) = negb (Z.testbit x k).
Proof.
  intros Hk. destruct (Z.testbit x k) eqn:E; simpl.
  - apply Z.eqb_neq. intros H. assert (Z.testbit (x .& (1 .<< k)) k = true) as H1 by (rewrite Z.land_spec, testbit_pow2, E by done; by rewrite Z.eqb_refl).
    rewrite H, Z.bits_0 in H1. done.
  - apply Z.eqb_eq, zero_of_bits. intros i Hi. rewrite Z.land_spec, testbit_pow2 by done. destruct (Z.eqb_spec i k) as [->|]; [by rewrite E|apply andb_false_r].
Qed.

Lemma testbit_range_mask lo hi i : 0 <= lo <= hi -> 0 <= i -> Z.testbit (range_mask lo hi) i = (lo <=? i) && (i <=? hi).
Proof.
  intros H Hi. unfold range_mask. rewrite Z.shiftl_spec, testbit_ones by lia.
  destruct (Z.leb_spec 0 (i - lo)), (Z.ltb_spec (i - lo) (hi - lo + 1)), (Z.leb_spec lo i), (Z.leb_spec i hi); (done || lia).
Qed.

Lemma ones_nonneg n : 0 <= n -> 0 <= Z.ones n.
Proof. intros. rewrite Z.ones_equiv. pose proof (Z.pow_pos_nonneg 2 n). lia. Qed.

Lemma range_mask_range lo hi w : 0 <= lo <= hi -> hi < w -> in_u w (range_mask lo hi).
Proof.
  intros H Hw. apply in_u_of_bits; [lia|apply Z.shiftl_nonneg, ones_nonneg; lia|]. intros i Hi.
  rewrite testbit_range_mask by lia. rewrite (proj2 (Z.leb_gt i hi)) by lia. apply andb_false_r.
Qed.

Lemma notu_word_nonneg w x : 0 <= w -> 0 <= x -> 0 <= notu w x.
Proof. intros. apply Z.lxor_nonneg. split; intros; [by apply ones_nonneg|done]. Qed.

Lemma trailing_ones_spec w : in_u 32 w -> w <> Z.ones 32 -> 0 <= trailing_ones w < 32 /\ Z.testbit w (trailing_ones w) = false /\
  forall i, 0 <= i < trailing_ones w -> Z.testbit w i = true.
Proof.
  intros Hw Hne. assert (in_u 32 (notu 32 w)) as Hn by (apply in_u_lxor; done).
  assert (0 < notu 32 w) as Hpos.
  { destruct (Z.eq_dec (notu 32 w) 0) as [E|]; [|unfold in_u in Hn; lia]. destruct Hne. unfold notu in E. by apply Z.lxor_eq in E. }
  destruct (countr_zero_spec 32 (notu 32 w) Hpos) as (H0 & H1 & H2). pose proof (countr_zero_lt 32 32 (notu 32 w) ltac:(lia) ltac:(unfold in_u in Hn; lia)) as H3.
  fold (trailing_ones w) in *. split; [lia|]. rewrite testbit_notu in H1 by lia.
  rewrite (proj2 (Z.leb_le 0 _)), (proj2 (Z.ltb_lt _ 32)) in H1 by lia. split; [by destruct (Z.testbit w _)|].
  intros i Hi. specialize (H2 i Hi). rewrite testbit_notu in H2 by lia. rewrite (proj2 (Z.leb_le 0 _)), (proj2 (Z.ltb_lt i 32)) in H2 by lia. by destruct (Z.testbit w i).
Qed.

Lemma trailing_ones_unique w k : in_u 32 w -> 0 <= k < 32 -> Z.testbit w k = false -> (forall i, 0 <= i < k -> Z.testbit w i = true) -> trailing_ones w = k.
Proof.
  intros Hw Hk H1 H2. destruct (Z.eq_dec w (Z.ones 32)) as [->|Hne]; [rewrite Z.ones_spec_low in H1 by lia; done|].
  destruct (trailing_ones_spec w Hw Hne) as (T0 & T1 & T2). destruct (Z.lt_trichotomy (trailing_ones w) k) as [Hlt|[?|Hlt]]; [|done|].
  - rewrite H2 in T1 by lia. done.
  - rewrite T2 in H1 by lia. done.
Qed.

Lemma trailing_ones_range w : in_u 32 w -> 0 <= trailing_ones w <= 32.
Proof.
  intros Hw. destruct (Z.eq_dec w (Z.ones 32)) as [->|Hne]; [by vm_compute|]. destruct (trailing_ones_spec w Hw Hne). lia.
Qed.

Lemma trailing_ones_full w : in_u 32 w -> trailing_ones w = 32 -> w = Z.ones 32.
Proof. intros Hw H. destruct (Z.eq_dec w (Z.ones 32)) as [|Hne]; [done|]. destruct (trailing_ones_spec w Hw Hne). lia. Qed.

(** The mask computation of the code finds the trailing ones. *)
Lemma GetCapabilityType_spec w : in_u 32 w -> GetCapabilityType w = Z.ones (trailing_ones w).
Proof.
  intros Hw. destruct (Z.eq_dec w (Z.ones 32)) as [->|Hne]; [by vm_compute|]. destruct (trailing_ones_spec w Hw Hne) as (T0 & T1 & T2).
  set (k := trailing_ones w) in *. set (hi := Z.ldiff w (Z.ones k)).
  assert (forall i, 0 <= i -> Z.testbit hi i = (k <=? i) && Z.testbit w i) as Hhi.
  { intros i Hi. unfold hi. rewrite Z.ldiff_spec, testbit_ones by lia. rewrite (proj2 (Z.leb_le 0 i) Hi). simpl.
    destruct (Z.leb_spec k i), (Z.ltb_spec i k); try lia; rewrite ?andb_true_r, ?andb_false_r; done. }
  assert (w = hi + Z.ones k) as Ew.
  { rewrite Z.add_nocarry_lxor; [|apply zero_of_bits; intros i Hi; rewrite Z.land_spec, Hhi, testbit_ones by lia;
      destruct (Z.leb_spec k i), (Z.leb_spec 0 i), (Z.ltb_spec i k); try lia; simpl; rewrite ?andb_false_r; done].
    apply Z.bits_inj'. intros i Hi. rewrite Z.lxor_spec, Hhi, testbit_ones by lia. rewrite (proj2 (Z.leb_le 0 i) Hi). simpl.
    destruct (Z.leb_spec k i), (Z.ltb_spec i k); try lia; simpl; [by rewrite xorb_false_r|]. by rewrite T2 by lia. }
  assert (w + 1 = hi .| (1 .<< k)) as Ew1.
  { assert (Z.land hi (1 .<< k) = 0) as Hnc.
    { apply zero_of_bits. intros i Hi. rewrite Z.land_spec, Hhi, testbit_pow2 by lia. destruct (Z.eqb_spec i k) as [->|]; [by rewrite T1, andb_false_r|apply andb_false_r]. }
    rewrite Ew at 1. rewrite Z.ones_equiv, <- Z.lxor_lor by done. rewrite <- Z.add_nocarry_lxor by done. rewrite Z.shiftl_1_l. lia. }
  unfold GetCapabilityType. assert (notu 32 w .& u32 (w + 1) = 2 ^ k) as ->.
  - apply Z.bits_inj'. intros i Hi. rewrite Z.land_spec, testbit_notu by lia. unfold u32. rewrite testbit_wrapu, Ew1, Z.lor_spec, Hhi, testbit_pow2 by lia.
    rewrite <- Z.shiftl_1_l, testbit_pow2 by lia. rewrite (proj2 (Z.leb_le 0 i) Hi). simpl.
    destruct (Z.eqb_spec i k) as [->|Hik].
    + rewrite T1. rewrite (proj2 (Z.ltb_lt k 32)) by lia. by rewrite orb_true_r.
    + rewrite orb_false_r. destruct (Z.ltb_spec i 32); simpl; [|by rewrite andb_false_r]. destruct (Z.leb_spec k i); simpl; [|by rewrite andb_false_r]. by destruct (Z.testbit w i).
  - rewrite Z.ones_equiv. unfold u32. rewrite wrapu_small; [lia|]. pose proof (Z.pow_pos_nonneg 2 k ltac:(lia) ltac:(lia)).
    pose proof (Z.pow_lt_mono_r 2 k 32 ltac:(lia) ltac:(lia) ltac:(lia)). unfold in_u. lia.
Qed.

(** ** The loops *)

Lemma set_bits_spec fuel : forall i last mask, 0 <= i -> last < 64 -> (Z.to_nat (last + 1 - i) <= fuel)%nat ->
  set_bits fuel i last mask = mret (if i <=? last then mask .| range_mask i last else mask).
Proof.
  induction fuel as [|fuel IH]; intros i last mask Hi Hl Hf; simpl; destruct (Z.leb_spec i last) as [H|H]; try done; try lia.
  rewrite shl64_ok by lia. rewrite bind_ret. unfold u32, u64. rewrite (wrapu_small 32), (wrapu_small 64); [| |unfold in_u; lia].
  - rewrite IH by lia. f_equal. destruct (Z.leb_spec (i + 1) last) as [H1|H1].
    + rewrite <- Z.lor_assoc. f_equal. apply Z.bits_inj'. intros j Hj. rewrite Z.lor_spec, testbit_pow2, !testbit_range_mask by lia.
      destruct (Z.eqb_spec j i), (Z.leb_spec (i + 1) j), (Z.leb_spec i j), (Z.leb_spec j last); (done || lia).
    + f_equal. assert (i = last) as -> by lia. unfold range_mask. by rewrite Z.sub_diag.
  - rewrite Z.shiftl_1_l. split; [apply Z.pow_nonneg; lia|]. apply Z.pow_lt_mono_r; lia.
Qed.

Definition core_of (n : Z) : Z := default 0 (VirtualToPhysicalCoreMap !! Z.to_nat n).

Lemma core_of_range n : 0 <= n < 64 -> VirtualToPhysicalCoreMap !! Z.to_nat n = Some (core_of n) /\ 0 <= core_of n < 64.
Proof.
  intros Hn. destruct (lookup_lt_is_Some_2 VirtualToPhysicalCoreMap (Z.to_nat n)) as [x Hx]; [change (length VirtualToPhysicalCoreMap) with 64%nat; lia|].
  unfold core_of. rewrite Hx. split; [done|]. simpl.
  assert (Forall (fun x => 0 <= x < 64) VirtualToPhysicalCoreMap) as HF by (apply (bool_decide_unpack _); vm_compute; exact I).
  rewrite list.Forall_forall in HF. apply HF. by eapply list_elem_of_lookup_2.
Qed.

Lemma testbit_phys_of v p : 0 <= p -> Z.testbit (phys_of v) p = existsb (fun n => Z.testbit v n && (p =? core_of n)) (seqZ 0 64).
Proof.
  intros Hp. unfold phys_of. assert (Forall (fun n => 0 <= n < 64) (seqZ 0 64)) as HF by (apply list.Forall_forall; intros n Hn; apply elem_of_seqZ in Hn; lia).
  induction HF as [|n l Hn _ IH]; [apply Z.bits_0|]. simpl. rewrite Z.lor_spec, IH. f_equal. fold (core_of n). destruct (Z.testbit v n); [|apply Z.bits_0].
  simpl. apply testbit_pow2. apply core_of_range; lia.
Qed.

Lemma phys_of_clear v n : 0 <= n < 64 -> Z.testbit v n = true -> phys_of v = (1 .<< core_of n) .| phys_of (v .& notu 64 (1 .<< n)).
Proof.
  intros Hn Hv. apply Z.bits_inj'. intros p Hp. rewrite Z.lor_spec, testbit_pow2, !testbit_phys_of by (done || apply core_of_range; lia).
  apply eq_true_iff_eq. rewrite orb_true_iff, !existsb_exists, Z.eqb_eq. split.
  - intros (m & Hm & [H1 H2%Z.eqb_eq]%andb_true_iff). destruct (Z.eq_dec m n) as [->|Hne]; [by left|]. right. exists m. split; [done|].
    apply list_elem_of_In, elem_of_seqZ in Hm. rewrite Z.land_spec, testbit_notu, testbit_pow2, H1 by lia.
    rewrite (proj2 (Z.eqb_neq m n) Hne), (proj2 (Z.leb_le 0 m)), (proj2 (Z.ltb_lt m 64)) by lia. simpl. by apply Z.eqb_eq.
  - intros [->|(m & Hm & [H1 H2]%andb_true_iff)].
    + exists n. split; [apply list_elem_of_In, elem_of_seqZ; lia|]. by rewrite Hv, Z.eqb_refl.
    + exists m. split; [done|]. rewrite Z.land_spec in H1. apply andb_true_iff in H1 as [-> _]. done.
Qed.

Lemma convert_loop_spec fuel : forall v p, in_u 64 v -> (fuel <= 64)%nat -> (forall i, 0 <= i < 64 - Z.of_nat fuel -> Z.testbit v i = false) ->
  convert_loop fuel v p = mret (p .| phys_of v).
Proof.
  induction fuel as [|fuel IH]; intros v p Hv Hf Hlow; simpl; destruct (Z.eqb_spec v 0) as [->|Hne].
  1,3: replace (phys_of 0) with 0 by (vm_compute; reflexivity); by rewrite Z.lor_0_r.
  - destruct (nonzero_has_bit v) as (i & Hi & Hb); [unfold in_u in Hv; lia|done|]. destruct (Z_lt_le_dec i 64); [rewrite Hlow in Hb; [done|lia]|].
    rewrite (testbit_above 64) in Hb by (done || lia). done.
  - assert (0 < v) as Hpos by (unfold in_u in Hv; lia). destruct (countr_zero_spec 64 v Hpos) as (H0 & H1 & H2).
    pose proof (countr_zero_lt 64 64 v ltac:(lia) ltac:(unfold in_u in Hv; lia)) as H3. set (n := countr_zero 64 v) in *.
    destruct (core_of_range n ltac:(lia)) as [Hc Hr]. rewrite !shl64_ok, !bind_ret by lia. rewrite (arr_get_Some _ _ (core_of n)), bind_ret by (done || lia).
    rewrite shl64_ok, bind_ret by lia. assert (forall k, 0 <= k < 64 -> u64 (1 .<< k) = 1 .<< k) as Hu.
    { intros k Hk. apply u64_small. rewrite Z.shiftl_1_l. split; [apply Z.pow_nonneg; lia|]. apply Z.pow_lt_mono_r; lia. }
    rewrite !Hu by lia. rewrite IH.
    + by rewrite <- Z.lor_assoc, <- phys_of_clear by (done || lia).
    + apply in_u_land; [lia|done|]. apply notu_word_nonneg; [lia|]. apply Z.shiftl_nonneg. lia.
    + lia.
    + intros i Hi. rewrite Z.land_spec, testbit_notu, testbit_pow2 by lia. destruct (Z.eqb_spec i n) as [->|Hin].
      * rewrite (proj2 (Z.leb_le 0 n)), (proj2 (Z.ltb_lt n 64)) by lia. apply andb_false_r.
      * destruct (Z_lt_le_dec i n); [by rewrite H2 by lia|]. assert (i < 64 - Z.of_nat (S fuel)) as Hlt.
        { destruct (Z_lt_le_dec n (64 - Z.of_nat (S fuel))); [rewrite Hlow in H1 by lia; done|]. lia. }
        by rewrite Hlow by lia.
Qed.

Lemma ConvertVirtualCoreMaskToPhysical_spec v : in_u 64 v -> ConvertVirtualCoreMaskToPhysical v = mret (phys_of v).
Proof. intros Hv. unfold ConvertVirtualCoreMaskToPhysical. rewrite convert_loop_spec; [done|done|lia|]. intros i Hi. lia. Qed.

Lemma with_svc_id c : with_svc (m_svc_access_flags c) c = c.
Proof. by destruct c. Qed.

Lemma set_svcs_spec n : forall i mask index c, 0 <= i -> i + Z.of_nat n = 24 -> in_u 24 mask -> 0 <= index < 8 ->
  set_svcs n i mask index c = mret (ResultSuccess, with_svc (m_svc_access_flags c .| ((mask .>> i .<< i) .<< (24 * index))) c).
Proof.
  induction n as [|n IH]; intros i mask index c Hi Hn Hm Hx.
  - assert (mask .>> i = 0) as ->.
    { apply zero_of_bits. intros j Hj. rewrite Z.shiftr_spec by done. apply (testbit_above 24); [done|lia]. }
    rewrite !Z.shiftl_0_l, Z.lor_0_r, with_svc_id. done.
  - cbn [set_svcs]. change (bits SyscallMask.mask) with 24. assert (u32 (1 .<< i) = 1 .<< i) as ->.
    { apply u32_small. rewrite Z.shiftl_1_l. split; [apply Z.pow_nonneg; lia|]. apply Z.pow_lt_mono_r; lia. }
    rewrite land_pow2_zero, negb_involutive by lia. rewrite u32_small by lia. unfold SetSvcAllowed, NumSupervisorCalls.
    rewrite (proj2 (Z.ltb_lt _ _)) by lia.
    assert ((mask .>> i .<< i) = (if Z.testbit mask i then 1 .<< i else 0) .| (mask .>> (i + 1) .<< (i + 1))) as E.
    { apply Z.bits_inj'. intros j Hj. rewrite Z.lor_spec, !Z.shiftl_spec by done.
      destruct (Z_lt_le_dec j i) as [H1|H1].
      - rewrite (Z.testbit_neg_r _ (j - i)), (Z.testbit_neg_r _ (j - (i + 1))) by lia. destruct (Z.testbit mask i); rewrite ?testbit_pow2, ?Z.bits_0 by lia; [|done]. by rewrite (proj2 (Z.eqb_neq j i)) by lia.
      - rewrite Z.shiftr_spec by lia. replace (j - i + i) with j by lia. destruct (Z.eq_dec j i) as [->|Hne].
        + rewrite (Z.testbit_neg_r _ (i - (i + 1))) by lia. destruct (Z.testbit mask i); rewrite ?testbit_pow2, ?Z.bits_0, ?Z.eqb_refl by lia; done.
        + rewrite Z.shiftr_spec by lia. replace (j - (i + 1) + (i + 1)) with j by lia. destruct (Z.testbit mask i); rewrite ?testbit_pow2, ?Z.bits_0 by lia; [|done].
          by rewrite (proj2 (Z.eqb_neq j i)) by lia. }
    revert E. destruct (Z.testbit mask i); intros E; rewrite IH by (done || lia); rewrite E; [|by rewrite Z.lor_0_l].
    match goal with |- context [with_svc ?a (with_svc ?b c)] => change (with_svc a (with_svc b c)) with (with_svc a c) end. cbn [m_svc_access_flags with_svc].
    rewrite Z.shiftl_lor. rewrite Z.lor_assoc, (Z.shiftl_shiftl 1 i) by lia. by replace (i + 24 * index) with (24 * index + i) by lia.
Qed.

(** ** Fields *)

Lemma Extract_range f w : field_ok f -> in_u (width f) w -> in_u (bits f) (ExtractValue f w).
Proof.
  intros Hf Hw. pose proof Hf as (H1 & H2 & H3). apply in_u_of_bits; [lia|apply ExtractValue_nonneg; [apply Hw|done]|].
  intros i Hi. rewrite testbit_ExtractValue by (done || lia). by rewrite (proj2 (Z.ltb_ge i (bits f))) by lia.
Qed.

(** Fields side by side from a position to the end of the word. *)
Fixpoint tiled (pos : Z) (l : list BitField) : Prop :=
  match l with
  | [] => pos = 32
  | f :: l => position f = pos /\ 0 < bits f /\ width f = 32 /\ pos + bits f <= 32 /\ tiled (pos + bits f) l
  end.

Lemma tiled_bound l : forall pos, tiled pos l -> pos <= 32.
Proof. induction l as [|f l IH]; intros pos H; simpl in H; [lia|]. destruct H as (? & ? & ? & ? & _). lia. Qed.

Lemma tiled_ok l : forall pos f, 0 <= pos -> tiled pos l -> f ∈ l -> field_ok f /\ pos <= position f /\ width f = 32.
Proof.
  induction l as [|g l IH]; intros pos f Hp H Hf; [by apply not_elem_of_nil in Hf|]. destruct H as (H1 & H2 & H3 & H4 & H5).
  apply elem_of_cons in Hf as [->|Hf].
  - unfold field_ok. rewrite H3. split; lia.
  - destruct (IH (pos + bits g) f ltac:(lia) H5 Hf) as (? & ? & ?). split; [done|]. split; [lia|done].
Qed.

(** A packed word has the bits of its fields. *)
Lemma testbit_pack_low l : forall pos i, 0 <= pos -> tiled pos (l.*1) -> 0 <= i < pos -> Z.testbit (pack l) i = false.
Proof.
  induction l as [|[f v] l IH]; intros pos i Hp H Hi; [apply Z.bits_0|]. destruct (tiled_ok _ pos f Hp H (list_elem_of_here _ _)) as (Hok & Hpos & _).
  destruct H as (H1 & H2 & H3 & H4 & H5). simpl in *. rewrite Z.lor_spec, testbit_FormatValue by (done || lia).
  rewrite (proj2 (Z.leb_gt (position f) i)) by lia. simpl. apply (IH (pos + bits f)); (done || lia).
Qed.

Lemma pack_range l : forall pos, 0 <= pos -> tiled pos (l.*1) -> in_u 32 (pack l).
Proof.
  induction l as [|[f v] l IH]; intros pos Hp H; [done|]. destruct (tiled_ok _ pos f Hp H (list_elem_of_here _ _)) as (Hok & _ & Hw).
  destruct H as (H1 & H2 & H3 & H4 & H5). cbn [fst] in *. apply in_u_lor; [lia| |apply (IH (pos + bits f)); (done || lia)].
  unfold FormatValue. rewrite Hw. apply in_u_land; [lia|by apply wrapu_range|]. apply mask_range. done.
Qed.

Lemma Extract_pack l : forall pos f v, 0 <= pos -> tiled pos (l.*1) -> (f, v) ∈ l -> in_u (bits f) v -> ExtractValue f (pack l) = v.
Proof.
  induction l as [|[g x] l IH]; intros pos f v Hp H Hin Hv; [by apply not_elem_of_nil in Hin|].
  destruct (tiled_ok _ pos g Hp H (list_elem_of_here _ _)) as (Hok & _ & Hw). pose proof H as (H1 & H2 & H3 & H4 & H5). cbn [fst] in *. cbn [pack].
  apply elem_of_cons in Hin as [[= -> ->]|Hin].
  - rewrite Extract_lor, Extract_Format by done. assert (ExtractValue g (pack l) = 0) as ->; [|by rewrite Z.lor_0_r, wrapu_small].
    apply zero_of_bits. intros i Hi. rewrite testbit_ExtractValue by done. destruct (Z.ltb_spec i (bits g)); [|done]. simpl in *.
    apply (testbit_pack_low _ (pos + bits g)); (done || lia).
  - assert (f ∈ l.*1) as Hf by (apply list_elem_of_fmap; by exists (f, v)).
    destruct (tiled_ok _ (pos + bits g) f ltac:(lia) H5 Hf) as (Hof & Hpf & Hwf).
    rewrite Extract_lor by done. rewrite Extract_Format_other; [|done|done|left; lia]. rewrite Z.lor_0_l.
    apply (IH (pos + bits g)); (done || lia).
Qed.

(** Packing the fields of a word gives the word back. *)
Lemma pack_Extract fs : forall pos w i, 0 <= pos -> tiled pos fs -> in_u 32 w -> 0 <= i ->
  Z.testbit (pack (map (fun f => (f, ExtractValue f w)) fs)) i = (pos <=? i) && Z.testbit w i.
Proof.
  induction fs as [|f fs IH]; intros pos w i Hp H Hw Hi.
  - simpl in *. subst pos. rewrite Z.bits_0. destruct (Z.leb_spec 32 i); [|done]. by rewrite (testbit_above 32).
  - destruct (tiled_ok _ pos f Hp H (list_elem_of_here _ _)) as (Hok & _ & Hwf). destruct H as (H1 & H2 & H3 & H4 & H5). cbn [map pack].
    rewrite Z.lor_spec, testbit_FormatValue, (IH (pos + bits f)) by (done || lia).
    destruct (Z.leb_spec (position f) i) as [Ha|Ha], (Z.ltb_spec i (position f + bits f)) as [Hb|Hb], (Z.leb_spec (pos + bits f) i), (Z.leb_spec pos i); simpl; try lia; try done.
    rewrite testbit_ExtractValue by (done || lia). rewrite (proj2 (Z.ltb_lt _ (bits f))) by lia. replace (i - position f + position f) with i by lia. by rewrite orb_false_r.
Qed.

Lemma pack_whole fs w : tiled 0 fs -> in_u 32 w -> pack (map (fun f => (f, ExtractValue f w)) fs) = w.
Proof.
  intros H Hw. apply Z.bits_inj'. intros i Hi. rewrite (pack_Extract fs 0) by (done || lia). by rewrite (proj2 (Z.leb_le 0 i) Hi).
Qed.

(** ** One descriptor *)

Lemma foldl_lor_bits (g : Cap -> Z) cs : forall m i, Z.testbit (foldl (fun m c => m .| g c) m cs) i = Z.testbit m i || existsb (fun c => Z.testbit (g c) i) cs.
Proof.
  induction cs as [|c cs IH]; intros m i; simpl; [by rewrite orb_false_r|]. by rewrite IH, Z.lor_spec, orb_assoc.
Qed.

Lemma testbit_one_shift j i : 0 <= i -> Z.testbit (1 .<< j) i = (j =? i).
Proof.
  intros Hi. destruct (Z_lt_le_dec j 0).
  - rewrite Z.shiftl_spec by done. rewrite (proj2 (Z.eqb_neq j i)) by lia. apply (testbit_above 1); lia.
  - rewrite testbit_pow2 by done. apply Z.eqb_sym.
Qed.

Lemma cap_kind_nonneg c : 0 <= cap_kind c.
Proof.
  destruct c; simpl; try lia. unfold trailing_ones, countr_zero. destruct (notu 32 word); [lia|apply pos_ctz_nonneg|lia].
Qed.

(** What [set_flags] and [set_svc] hold after the descriptors [seen]. *)
Definition cap_flag (c : Cap) : Z :=
  match c with MapRangeCap _ _ _ _ _ | PaddingCap | UnpairedCap _ => 0 | _ => 1 .<< cap_kind c end.
Definition index_flag (c : Cap) : Z := match c with SyscallMaskCap _ i => 1 .<< i | _ => 0 end.
Definition flags_of (seen : list Cap) : Z := foldl (fun m c => m .| cap_flag c) 0 seen.
Definition svcs_of (seen : list Cap) : Z := foldl (fun m c => m .| index_flag c) 0 seen.

Lemma existsb_ext {A} (f g : A -> bool) l : (forall x, f x = g x) -> existsb f l = existsb g l.
Proof. intros H. induction l as [|x l IH]; [done|]. simpl. by rewrite H, IH. Qed.

Lemma flags_once k seen : existsb (Z.eqb k) once_kinds = true -> Z.testbit (flags_of seen) k = existsb (fun d => cap_kind d =? k) seen.
Proof.
  intros Hk. assert (0 <= k /\ k <> 6 /\ k <> 32) as (H0 & H6 & H32) by (apply existsb_exists in Hk as (x & Hx & ->%Z.eqb_eq); repeat destruct Hx as [<-|Hx]; (lia || done)).
  unfold flags_of. rewrite foldl_lor_bits, Z.bits_0. apply existsb_ext. intros d.
  destruct d; cbn [cap_flag]; try (apply testbit_one_shift; exact H0); rewrite Z.bits_0; symmetry; apply Z.eqb_neq; simpl; lia.
Qed.

Lemma svcs_seen i seen : 0 <= i -> Z.testbit (svcs_of seen) i = existsb (fun d => match d with SyscallMaskCap _ j => j =? i | _ => false end) seen.
Proof.
  intros Hi. unfold svcs_of. rewrite foldl_lor_bits, Z.bits_0. apply existsb_ext. intros d.
  destruct d; cbn [index_flag]; try apply Z.bits_0. by apply testbit_one_shift.
Qed.

Lemma first_of_none {A} (f : Cap -> option A) k seen :
  existsb (fun d => cap_kind d =? k) seen = false -> (forall d x, f d = Some x -> cap_kind d = k) -> omap f seen = [].
Proof.
  intros H Hf. induction seen as [|d seen IH]; [done|]. simpl in H. apply orb_false_iff in H as [H1 H2]. cbn.
  destruct (f d) eqn:E; [|by apply IH]. apply Hf in E. apply Z.eqb_neq in H1. done.
Qed.

Lemma first_of_other {A} (f : Cap -> option A) seen c v : f c = None -> first_of f (seen ++ [c]) v = first_of f seen v.
Proof. intros H. unfold first_of. rewrite omap_app. cbn. by rewrite H, app_nil_r. Qed.

Lemma first_of_new {A} (f : Cap -> option A) k seen c v x : existsb (fun d => cap_kind d =? k) seen = false -> (forall d x, f d = Some x -> cap_kind d = k) ->
  f c = Some x -> first_of f (seen ++ [c]) v = x.
Proof. intros H Hf Hc. unfold first_of. rewrite omap_app, (first_of_none f k) by done. cbn. by rewrite Hc. Qed.

Lemma first_of_unseen {A} (f : Cap -> option A) k seen v : existsb (fun d => cap_kind d =? k) seen = false -> (forall d x, f d = Some x -> cap_kind d = k) ->
  first_of f seen v = v.
Proof. intros H Hf. unfold first_of. by rewrite (first_of_none f k). Qed.

(** A descriptor of a kind that was not seen before sets the members its kind names, and no others. *)
Ltac first_of_solve :=
  repeat first
    [ done
    | rewrite first_of_other by done
    | match goal with H : existsb (fun d => cap_kind d =? ?k) ?seen = false |- context [first_of ?f (?seen ++ [?c]) ?v] =>
        erewrite (first_of_new f k seen c v) by (first [exact H | by intros [] ? | reflexivity]) end
    | rewrite foldl_app; cbn [foldl svc_bits]; rewrite ?Z.lor_0_r ].

Section Meaning.
Context (start : KCapabilities) (seen : list Cap).

Lemma meaning_cores lo hi mn mx : existsb (fun d => cap_kind d =? 3) seen = false ->
  meaning start (seen ++ [CorePriorityCap lo hi mn mx]) = with_cores (range_mask mn mx) (phys_of (range_mask mn mx)) (range_mask hi lo) (meaning start seen).
Proof. intros H. unfold meaning, with_cores. cbn [m_svc_access_flags m_irq_access_flags m_debug_capabilities m_handle_table_size m_intended_kernel_version m_program_type]. first_of_solve. Qed.

Lemma meaning_debug a f r : existsb (fun d => cap_kind d =? 16) seen = false ->
  meaning start (seen ++ [DebugFlagsCap a f r]) = with_debug ((a .<< 17) .| (f .<< 18)) (meaning start seen).
Proof. intros H. unfold meaning, with_debug. cbn [m_svc_access_flags m_irq_access_flags m_core_mask m_phys_core_mask m_priority_mask m_handle_table_size m_intended_kernel_version m_program_type]. first_of_solve. Qed.

Lemma meaning_handles n r : existsb (fun d => cap_kind d =? 15) seen = false ->
  meaning start (seen ++ [HandleTableCap n r]) = with_handles n (meaning start seen).
Proof. intros H. unfold meaning, with_handles. cbn [m_svc_access_flags m_irq_access_flags m_core_mask m_phys_core_mask m_priority_mask m_debug_capabilities m_intended_kernel_version m_program_type]. first_of_solve. Qed.

Lemma meaning_version mi ma : existsb (fun d => cap_kind d =? 14) seen = false ->
  meaning start (seen ++ [KernelVersionCap mi ma]) = with_version (0x3FFF + mi * 2 ^ 15 + ma * 2 ^ 19) (meaning start seen).
Proof. intros H. unfold meaning, with_version. cbn [m_svc_access_flags m_irq_access_flags m_core_mask m_phys_core_mask m_priority_mask m_debug_capabilities m_handle_table_size m_program_type]. first_of_solve. Qed.

Lemma meaning_program n r : existsb (fun d => cap_kind d =? 13) seen = false ->
  meaning start (seen ++ [ProgramTypeCap n r]) = with_program_type n (meaning start seen).
Proof. intros H. unfold meaning, with_program_type. cbn [m_svc_access_flags m_irq_access_flags m_core_mask m_phys_core_mask m_priority_mask m_debug_capabilities m_handle_table_size m_intended_kernel_version]. first_of_solve. Qed.

Lemma meaning_svc k i : meaning start (seen ++ [SyscallMaskCap k i]) = with_svc (m_svc_access_flags (meaning start seen) .| (k .<< (24 * i))) (meaning start seen).
Proof. unfold meaning, with_svc. cbn [m_svc_access_flags m_irq_access_flags m_core_mask m_phys_core_mask m_priority_mask m_debug_capabilities m_handle_table_size m_intended_kernel_version m_program_type]. first_of_solve. Qed.

Lemma meaning_same c : existsb (Z.eqb (cap_kind c)) [6; 7; 10; 11; 32] = true -> (forall w, c <> UnknownCap w) -> meaning start (seen ++ [c]) = meaning start seen.
Proof. intros H Hu. destruct c; simpl in H; try discriminate H; try (by destruct (Hu word)); unfold meaning; first_of_solve. Qed.
End Meaning.

Lemma ones_eqb k n : 0 <= k -> 0 <= n -> (Z.ones k =? (1 .<< n) - 1) = (k =? n).
Proof.
  intros Hk Hn. rewrite Z.ones_equiv, Z.shiftl_1_l. destruct (Z.eqb_spec k n) as [->|Hne]; [apply Z.eqb_eq; lia|].
  apply Z.eqb_neq. intros H. destruct Hne. apply (Z.pow_inj_r 2); lia.
Qed.

Section OneWord.
Context {P : Type} {PT : PageTable P}.

(** The switch over the types, by the number of trailing ones. *)
Lemma SetCapability_dispatch w (s : run (P := P)) : in_u 32 w -> let k := trailing_ones w in
  SetCapability w s =
    if k =? 0 then mret (ResultInvalidArgument, s) else if k =? 32 then mret (ResultSuccess, s)
    else if existsb (Z.eqb k) once_kinds && Z.testbit (set_flags s) k then mret (ResultInvalidCombination, s)
    else let s := mkRun (set_flags s .| (1 .<< k)) (set_svc s) (caps s) (page_table s) in
      if k =? 3 then on_caps (SetCorePriorityCapability w) s
      else if k =? 4 then
        rc ← SetSyscallMaskCapability w (set_svc s) (caps s);
        mret (fst rc, mkRun (set_flags s) (fst (snd rc)) (snd (snd rc)) (page_table s))
      else if k =? 7 then on_page_table (MapIoPage_ w) s
      else if k =? 10 then on_page_table (MapRegion_ w) s
      else if k =? 11 then on_caps (SetInterruptPairCapability w) s
      else if k =? 13 then on_caps (SetProgramTypeCapability w) s
      else if k =? 14 then on_caps (SetKernelVersionCapability w) s
      else if k =? 15 then on_caps (SetHandleTableCapability w) s
      else if k =? 16 then on_caps (SetDebugFlagsCapability w) s
      else mret (ResultInvalidArgument, s).
Proof.
  intros Hw k. unfold SetCapability. rewrite (GetCapabilityType_spec w Hw). pose proof (trailing_ones_range w Hw) as Hk. fold k in Hk |- *.
  change CapabilityType.Invalid with ((1 .<< 0) - 1). change CapabilityType.Padding with ((1 .<< 32) - 1). rewrite !ones_eqb by lia.
  destruct (Z.eqb_spec k 0); [done|]. destruct (Z.eqb_spec k 32); [done|]. cbn [negb].
  assert (GetCapabilityFlag (Z.ones k) = 1 .<< k) as ->.
  { unfold GetCapabilityFlag. rewrite Z.ones_equiv, Z.shiftl_1_l. replace (Z.pred (2 ^ k) + 1) with (2 ^ k) by lia. apply u32_small.
    split; [apply Z.pow_nonneg; lia|]. apply Z.pow_lt_mono_r; lia. }
  rewrite land_pow2_zero, Z.land_spec by lia. assert (Z.testbit InitializeOnceFlags k = existsb (Z.eqb k) once_kinds) as ->.
  { assert (forallb (fun i => eqb (Z.testbit InitializeOnceFlags i) (existsb (Z.eqb i) once_kinds)) (seqZ 0 32) = true) as H by (vm_compute; reflexivity).
    rewrite forallb_forall in H. apply eqb_prop, H. apply list_elem_of_In, elem_of_seqZ. lia. }
  rewrite andb_comm. destruct (existsb (Z.eqb k) once_kinds && Z.testbit (set_flags s) k); [done|]. cbn [negb].
  unfold CapabilityType.CorePriority, CapabilityType.SyscallMask, CapabilityType.MapIoPage, CapabilityType.MapRegion, CapabilityType.InterruptPair,
    CapabilityType.ProgramType, CapabilityType.KernelVersion, CapabilityType.HandleTable, CapabilityType.DebugFlags.
  rewrite !ones_eqb by lia. done.
Qed.

Definition state_of (kip : bool) (phys : Z) (seen : list Cap) (pt : P) : run := mkRun (flags_of seen) (svcs_of seen) (meaning (start_of kip phys) seen) pt.

(** What one word must do after the descriptors [seen]. *)
Definition step_ok (kip : bool) (phys : Z) (seen : list Cap) (pt : P) (c : Cap) (m : outcome (Z * run)) : Prop :=
  match refusal kip seen c with
  | Some e => exists s', m = Done true (e, s') /\ page_table s' = pt
  | None => m = (rp ← perform c pt; mret (fst rp, state_of kip phys (seen ++ [c]) (snd rp)))
  end.

Lemma flags_snoc seen c : flags_of (seen ++ [c]) = flags_of seen .| cap_flag c.
Proof. unfold flags_of. by rewrite foldl_app. Qed.
Lemma svcs_snoc seen c : svcs_of (seen ++ [c]) = svcs_of seen .| index_flag c.
Proof. unfold svcs_of. by rewrite foldl_app. Qed.

Context (kip : bool) (phys : Z) (seen : list Cap) (pt : P).

Lemma SetCorePriority_ok w : in_u 32 w -> existsb (fun d => cap_kind d =? 3) seen = false ->
  let lo := ExtractValue CorePriority.lowest_thread_priority w in let hi := ExtractValue CorePriority.highest_thread_priority w in
  let mn := ExtractValue CorePriority.minimum_core_id w in let mx := ExtractValue CorePriority.maximum_core_id w in
  let c := meaning (start_of kip phys) seen in
  match refusal kip seen (CorePriorityCap lo hi mn mx) with
  | Some e => exists c', SetCorePriorityCapability w c = Done true (e, c')
  | None => SetCorePriorityCapability w c = mret (ResultSuccess, meaning (start_of kip phys) (seen ++ [CorePriorityCap lo hi mn mx]))
  end.
Proof.
  intros Hw H lo hi mn mx c. unfold refusal. cbn [cap_kind]. rewrite H, andb_false_r. cbn [existsb]. unfold SetCorePriorityCapability.
  assert (m_core_mask c = m_core_mask (start_of kip phys) /\ m_priority_mask c = m_priority_mask (start_of kip phys)) as [-> ->].
  { unfold c, meaning. cbn [m_core_mask m_priority_mask]. rewrite !(first_of_unseen _ 3) by (exact H || by intros [] ?). done. }
  destruct kip; [eexists; reflexivity|]. fold lo hi mn mx. cbn [start_of user_start m_core_mask m_priority_mask Z.eqb].
  assert (in_u 6 lo) as Hlo by (apply (Extract_range CorePriority.lowest_thread_priority); [by split_and!|done]).
  assert (in_u 6 hi) as Hhi by (apply (Extract_range CorePriority.highest_thread_priority); [by split_and!|done]).
  assert (in_u 8 mn) as Hmn by (apply (Extract_range CorePriority.minimum_core_id); [by split_and!|done]).
  clearbody lo hi mn mx. unfold in_u in Hlo, Hhi, Hmn. change NumVirtualCores with 64. change BitSize_u64 with 64.
  rewrite (Z.leb_antisym mx mn), (Z.leb_antisym lo hi), (Z.ltb_antisym 64 mx).
  destruct (Z.ltb_spec mx mn); [eexists; reflexivity|]. destruct (Z.ltb_spec lo hi); [eexists; reflexivity|].
  destruct (Z.leb_spec 64 mx); [eexists; reflexivity|]. cbn [negb orb].
  rewrite bind_assert_true by (apply Z.ltb_lt; lia). cbv beta. rewrite (set_bits_spec 64 mn mx), bind_ret by lia. rewrite (proj2 (Z.leb_le mn mx)), Z.lor_0_l by lia.
  pose proof (range_mask_range mn mx 64 ltac:(lia) ltac:(lia)) as Hcm. rewrite bind_assert_true.
  2: { apply Z.eqb_eq. change VirtualCoreMask with (Z.ones 64). rewrite Z.land_ones by lia. by apply Z.mod_small. }
  rewrite ConvertVirtualCoreMaskToPhysical_spec, bind_ret by done. rewrite (set_bits_spec 64 hi lo), bind_ret by lia. rewrite (proj2 (Z.leb_le hi lo)), Z.lor_0_l by lia.
  cbn [with_cores m_core_mask m_priority_mask].
  assert (forall a b, 0 <= a <= b -> (range_mask a b =? 0) = false) as Hnz.
  { intros a b Hab. apply Z.eqb_neq. intros E. pose proof (testbit_range_mask a b a Hab ltac:(lia)) as Hb. rewrite E, Z.bits_0 in Hb.
    rewrite (proj2 (Z.leb_le a a)), (proj2 (Z.leb_le a b)) in Hb by lia. done. }
  rewrite !Hnz by lia. cbn [negb].
  assert ((range_mask hi lo .& 0xF =? 0) = negb (hi <? 4)) as ->.
  { destruct (Z.ltb_spec hi 4); cbn [negb].
    - apply Z.eqb_neq. intros E. assert (Z.testbit (range_mask hi lo .& 0xF) hi = true) as Hb; [|by rewrite E, Z.bits_0 in Hb].
      rewrite Z.land_spec, testbit_range_mask by lia. rewrite (proj2 (Z.leb_le hi hi)), (proj2 (Z.leb_le hi lo)) by lia. change 0xF with (Z.ones 4).
      apply Z.ones_spec_low. lia.
    - apply Z.eqb_eq, zero_of_bits. intros i Hi. rewrite Z.land_spec, testbit_range_mask by lia. change 0xF with (Z.ones 4). rewrite testbit_ones by lia.
      destruct (Z.leb_spec hi i), (Z.ltb_spec i 4); try lia; rewrite ?andb_false_r; done. }
  destruct (hi <? 4); [eexists; reflexivity|]. cbn [negb]. by rewrite meaning_cores.
Qed.

Lemma Extract_divmod f w : field_ok f -> in_u (width f) w -> ExtractValue f w = (w / 2 ^ position f) mod 2 ^ bits f.
Proof.
  intros Hf Hw. pose proof Hf as (H1 & H2 & H3). rewrite <- Z.shiftr_div_pow2 by lia. change ((w .>> position f) mod 2 ^ bits f) with (wrapu (bits f) (w .>> position f)).
  apply Z.bits_inj'. intros i Hi. rewrite testbit_ExtractValue, testbit_wrapu, Z.shiftr_spec by (done || lia). done.
Qed.

Lemma version_word w : in_u 32 w -> trailing_ones w = 14 ->
  w = 0x3FFF + ExtractValue KernelVersion.minor_version w * 2 ^ 15 + ExtractValue KernelVersion.major_version w * 2 ^ 19.
Proof.
  intros Hw Hk. rewrite !Extract_divmod by (done || by split_and!). cbn [position bits KernelVersion.minor_version KernelVersion.major_version].
  assert (w mod 2 ^ 15 = 0x3FFF) as Hlow.
  { destruct (trailing_ones_spec w Hw) as (_ & T1 & T2); [by intros ->|]. rewrite Hk in T1, T2. apply Z.bits_inj'. intros i Hi.
    change 0x3FFF with (Z.ones 14). rewrite testbit_ones by lia. change (w mod 2 ^ 15) with (wrapu 15 w). rewrite testbit_wrapu by lia.
    destruct (Z.ltb_spec i 15), (Z.leb_spec 0 i), (Z.ltb_spec i 14); simpl; try lia; try done; [by apply T2|]. assert (i = 14) as -> by lia. done. }
  unfold in_u in Hw. change (2 ^ 15) with 32768 in *. change (2 ^ 19) with 524288. change (2 ^ 4) with 16. change (2 ^ 13) with 8192. change (2 ^ 32) with 4294967296 in Hw.
  pose proof (Z.div_mod w 32768 ltac:(lia)). pose proof (Z.div_mod (w / 32768) 16 ltac:(lia)) as H2. rewrite Z.div_div in H2 by lia. change (32768 * 16) with 524288 in H2.
  rewrite (Z.mod_small (w / 524288)); [lia|]. split; [apply Z.div_pos; lia|]. apply Z.div_lt_upper_bound; lia.
Qed.

Lemma SetSyscallMask_ok w : in_u 32 w -> let k := ExtractValue SyscallMask.mask w in let i := ExtractValue SyscallMask.index w in
  SetSyscallMaskCapability w (svcs_of seen) (meaning (start_of kip phys) seen) =
    match refusal kip seen (SyscallMaskCap k i) with
    | Some e => mret (e, (svcs_of seen, meaning (start_of kip phys) seen))
    | None => mret (ResultSuccess, (svcs_of (seen ++ [SyscallMaskCap k i]), meaning (start_of kip phys) (seen ++ [SyscallMaskCap k i])))
    end.
Proof.
  intros Hw k i. unfold SetSyscallMaskCapability. fold k i.
  assert (in_u 24 k) as Hk by (apply (Extract_range SyscallMask.mask); [by split_and!|done]).
  assert (in_u 3 i) as Hi by (apply (Extract_range SyscallMask.index); [by split_and!|done]). clearbody k i. unfold in_u in Hi.
  assert (u32 (1 .<< i) = 1 .<< i) as ->.
  { apply u32_small. rewrite Z.shiftl_1_l. split; [apply Z.pow_nonneg; lia|]. apply Z.pow_lt_mono_r; lia. }
  rewrite land_pow2_zero, svcs_seen by lia. unfold refusal. cbn [cap_kind existsb once_kinds Z.eqb orb andb].
  destruct (existsb _ seen); [done|]. cbn [negb]. rewrite set_svcs_spec by (done || lia). rewrite bind_ret. cbn [fst snd].
  rewrite svcs_snoc, meaning_svc, Z.shiftr_0_r, Z.shiftl_0_r. done.
Qed.

Lemma SetDebugFlags_ok w : in_u 32 w -> existsb (fun d => cap_kind d =? 16) seen = false ->
  SetDebugFlagsCapability w (meaning (start_of kip phys) seen) = mret (ResultSuccess, meaning (start_of kip phys)
    (seen ++ [DebugFlagsCap (ExtractValue DebugFlags.allow_debug w) (ExtractValue DebugFlags.force_debug w) (ExtractValue DebugFlags.reserved w)])).
Proof.
  intros Hw H. rewrite meaning_debug by done. unfold SetDebugFlagsCapability. do 3 f_equal. set (a := ExtractValue DebugFlags.allow_debug w). set (f := ExtractValue DebugFlags.force_debug w).
  assert (in_u 1 a) as Ha by (apply (Extract_range DebugFlags.allow_debug); [by split_and!|done]).
  assert (in_u 1 f) as Hf by (apply (Extract_range DebugFlags.force_debug); [by split_and!|done]).
  assert (m_debug_capabilities (meaning (start_of kip phys) seen) = 0) as ->.
  { unfold meaning. cbn [m_debug_capabilities]. rewrite (first_of_unseen _ 16) by (exact H || by intros [] ?). by destruct kip. }
  assert (a = 0 \/ a = 1) as [-> | ->] by (unfold in_u in Ha; lia); assert (f = 0 \/ f = 1) as [-> | ->] by (unfold in_u in Hf; lia); reflexivity.
Qed.

Lemma allowed_mask x : 0 <= x < 2 ^ 64 -> (x .& notu 64 PhysicalMapAllowedMask =? 0) = (x <? 2 ^ 36).
Proof.
  intros Hx. change PhysicalMapAllowedMask with (Z.ones 36). destruct (Z.ltb_spec x (2 ^ 36)) as [H|H].
  - apply Z.eqb_eq, zero_of_bits. intros i Hi. rewrite Z.land_spec, testbit_notu, testbit_ones by lia.
    destruct (Z_lt_le_dec i 36); [|by rewrite (testbit_above 36) by lia].
    rewrite (proj2 (Z.leb_le 0 i)), (proj2 (Z.ltb_lt i 36)), (proj2 (Z.ltb_lt i 64)) by lia. by rewrite andb_false_r.
  - apply Z.eqb_neq. intros E. pose proof (Z.log2_nonneg x). assert (36 <= Z.log2 x < 64) as Hl.
    { split; [apply Z.log2_le_pow2; lia|apply Z.log2_lt_pow2; lia]. }
    assert (Z.testbit (x .& notu 64 (Z.ones 36)) (Z.log2 x) = true) as Hb; [|by rewrite E, Z.bits_0 in Hb].
    rewrite Z.land_spec, Z.bit_log2, testbit_notu, testbit_ones by lia.
    by rewrite (proj2 (Z.leb_le 0 _)), (proj2 (Z.ltb_ge _ 36)), (proj2 (Z.ltb_lt _ 64)) by lia.
Qed.

Lemma MapIoPage_ok w : in_u 32 w -> MapIoPage_ w pt = perform (MapIoPageCap (ExtractValue MapIoPage.address w)) pt.
Proof.
  intros Hw. assert (in_u 24 (ExtractValue MapIoPage.address w)) as Ha by (apply (Extract_range MapIoPage.address); [by split_and!|done]).
  unfold MapIoPage_, perform, in_u in *. set (a := ExtractValue MapIoPage.address w) in *. clearbody a. change PageSize with 4096. change (u64 (1 * 4096)) with 4096.
  rewrite !(u64_small (a * 4096)), !u64_small by lia. rewrite (proj2 (Z.ltb_lt _ _)), allowed_mask, (proj2 (Z.ltb_lt _ _)) by lia. done.
Qed.

Lemma MapRange_ok w s : in_u 32 w -> in_u 32 s ->
  MapRange_ w s pt = match refusal kip seen (decode_pair w s) with Some e => mret (e, pt) | None => perform (decode_pair w s) pt end.
Proof.
  intros Hw Hs. unfold MapRange_, decode_pair, perform, refusal. cbn [cap_kind existsb once_kinds Z.eqb orb andb].
  assert (in_u 24 (ExtractValue MapRange.address w)) as Ha by (apply (Extract_range MapRange.address); [by split_and!|done]).
  assert (in_u 20 (ExtractValue MapRangeSize.pages s)) as Hp by (apply (Extract_range MapRangeSize.pages); [by split_and!|done]).
  set (a := ExtractValue MapRange.address w) in *. set (p := ExtractValue MapRangeSize.pages s) in *. clearbody a p. unfold in_u in *. change PageSize with 4096.
  destruct (ExtractValue MapRangeSize.reserved s =? 0); [|done]. cbn [negb]. destruct (Z.eqb_spec p 0); [done|]. cbn [negb].
  rewrite !(u64_small (a * 4096)), !(u64_small (p * 4096)), !u64_small by lia. rewrite (proj2 (Z.ltb_lt _ _)), allowed_mask by lia.
  destruct (Z.ltb_spec (a * 4096 + p * 4096 - 1) (2 ^ 36)), (Z.ltb_spec (2 ^ 24) (a + p)); try lia; [|done].
  by destruct (ExtractValue MapRangeSize.normal s =? 0).
Qed.

Lemma process_regions_ok l : forall q : P, Forall (fun tr => 0 <= fst tr) l -> process_regions pt_MapRegion l q = map_regions l q.
Proof.
  induction l as [|[t ro] l IH]; intros q H; [done|]. pose proof (Forall_inv H) as Ht. pose proof (Forall_inv_tail H) as Hl. cbn [fst] in Ht. cbn [process_regions map_regions].
  unfold RegionType.NoMapping, RegionType.KernelTraceBuffer, RegionType.OnMemoryBootImage, RegionType.DTB. change (negb IsKTraceEnabled) with true. cbv iota.
  assert (forall region, R_TRY (pt_MapRegion region (perm_of ro) q) (process_regions pt_MapRegion l) =
    (rp ← pt_MapRegion region (perm_of ro) q; if fst rp =? 0 then map_regions l (snd rp) else mret rp)) as Hc.
  { intros region. unfold R_TRY. apply bind_ext. intros [r q']. cbn [fst snd]. unfold IsError, IsSuccess. destruct (r =? 0); [by apply IH|done]. }
  destruct (Z.eqb_spec t 0) as [->|]; [by rewrite IH|]. destruct (Z.eqb_spec t 1) as [->|]; [by rewrite IH|]. rewrite (proj2 (Z.leb_gt t 1)) by lia.
  destruct (Z.eqb_spec t 2) as [->|]; [change (arr_get MemoryRegions 2) with (mret (M := outcome) (GetValue KMemoryRegionType_OnMemoryBootImage)); rewrite bind_ret; apply Hc|].
  destruct (Z.eqb_spec t 3) as [->|]; [change (arr_get MemoryRegions 3) with (mret (M := outcome) (GetValue KMemoryRegionType_DTB)); rewrite bind_ret; apply Hc|]. cbn [orb]. by rewrite (proj2 (Z.leb_gt t 3)) by lia.
Qed.

Lemma MapRegion_ok w : in_u 32 w -> let x f := ExtractValue f w in
  MapRegion_ w pt = perform (MapRegionCap (x MapRegion.region0) (x MapRegion.read_only0) (x MapRegion.region1) (x MapRegion.read_only1) (x MapRegion.region2) (x MapRegion.read_only2)) pt.
Proof.
  intros Hw x. apply process_regions_ok. repeat constructor; apply ExtractValue_nonneg; (apply Hw || done).
Qed.

(** A kind that may appear once: refused when it was seen, and [go] must hold when it was not. *)
Lemma once_step n c (m : outcome (Z * run)) : existsb (Z.eqb n) once_kinds = true -> cap_kind c = n ->
  (existsb (fun d => cap_kind d =? n) seen = false -> step_ok kip phys seen pt c m) ->
  step_ok kip phys seen pt c
    (if existsb (Z.eqb n) once_kinds && Z.testbit (flags_of seen) n then mret (ResultInvalidCombination, state_of kip phys seen pt) else m).
Proof.
  intros Hn Hc Hgo. rewrite (flags_once n seen Hn), Hn. destruct (existsb (fun d => cap_kind d =? n) seen) eqn:E; [|by apply Hgo].
  unfold step_ok, refusal. rewrite Hc, Hn, E. cbn [andb]. eexists. split; reflexivity.
Qed.

Definition marked (c : Cap) : run := mkRun (flags_of (seen ++ [c])) (svcs_of seen) (meaning (start_of kip phys) seen) pt.

(** A descriptor that only changes the object. *)
Lemma caps_step c f : svcs_of (seen ++ [c]) = svcs_of seen -> perform c pt = mret (ResultSuccess, pt) ->
  match refusal kip seen c with
  | Some e => exists c', f (meaning (start_of kip phys) seen) = Done true (e, c')
  | None => f (meaning (start_of kip phys) seen) = mret (ResultSuccess, meaning (start_of kip phys) (seen ++ [c]))
  end -> step_ok kip phys seen pt c (on_caps f (marked c)).
Proof.
  intros Hs Hp H. unfold step_ok, on_caps. cbn [caps marked set_flags set_svc page_table]. destruct (refusal kip seen c).
  - destruct H as (c' & ->). eexists. split; reflexivity.
  - rewrite H, Hp, !bind_ret. unfold state_of. by rewrite Hs.
Qed.

(** A descriptor that only changes the page table. *)
Lemma page_table_step c f : refusal kip seen c = None -> svcs_of (seen ++ [c]) = svcs_of seen ->
  meaning (start_of kip phys) (seen ++ [c]) = meaning (start_of kip phys) seen -> f pt = perform c pt ->
  step_ok kip phys seen pt c (on_page_table f (marked c)).
Proof.
  intros Hr Hs Hm Hf. unfold step_ok, on_page_table. rewrite Hr. cbn [caps marked set_flags set_svc page_table]. rewrite Hf. apply bind_ext. intros [r q].
  unfold state_of. by rewrite Hs, Hm.
Qed.

Lemma svcs_same c : index_flag c = 0 -> svcs_of (seen ++ [c]) = svcs_of seen.
Proof. intros H. by rewrite svcs_snoc, H, Z.lor_0_r. Qed.

Lemma marked_flag c k : cap_flag c = 1 .<< k ->
  mkRun (flags_of seen .| (1 .<< k)) (svcs_of seen) (meaning (start_of kip phys) seen) pt = marked c.
Proof. intros H. unfold marked. by rewrite flags_snoc, H. Qed.

Ltac mark_word := match goal with |- step_ok _ _ _ _ ?c _ => let k := eval cbn in (cap_kind c) in rewrite (marked_flag c k) by reflexivity end.

Lemma SetCapability_ok w : in_u 32 w -> trailing_ones w <> 6 -> step_ok kip phys seen pt (decode_word w) (SetCapability w (state_of kip phys seen pt)).
Proof.
  intros Hw H6. rewrite (SetCapability_dispatch w _ Hw). unfold decode_word. cbn [state_of set_flags set_svc caps page_table]. fold (state_of kip phys seen pt).
  destruct (Z.eqb_spec (trailing_ones w) 3) as [->|N3]; [|destruct (Z.eqb_spec (trailing_ones w) 4) as [->|N4]; [|
    destruct (Z.eqb_spec (trailing_ones w) 7) as [->|N7]; [|destruct (Z.eqb_spec (trailing_ones w) 10) as [->|N10]; [|
    destruct (Z.eqb_spec (trailing_ones w) 11) as [->|N11]; [|destruct (Z.eqb_spec (trailing_ones w) 13) as [->|N13]; [|
    destruct (Z.eqb_spec (trailing_ones w) 14) as [E14|N14]; [|destruct (Z.eqb_spec (trailing_ones w) 15) as [->|N15]; [|
    destruct (Z.eqb_spec (trailing_ones w) 16) as [->|N16]]]]]]]]].
  - apply once_step; [done..|]. intros Hs. cbn [Z.eqb Pos.eqb]. mark_word. apply caps_step; [by apply svcs_same|done|]. by apply SetCorePriority_ok.
  - cbn [existsb once_kinds Z.eqb Pos.eqb orb andb]. unfold step_ok. rewrite SetSyscallMask_ok by done. destruct (refusal _ _ _) as [e|].
    + eexists. rewrite bind_ret. split; reflexivity.
    + rewrite bind_ret. cbn [fst snd perform]. rewrite bind_ret. unfold state_of. by rewrite flags_snoc.
  - cbn [existsb once_kinds Z.eqb Pos.eqb orb andb]. mark_word. apply page_table_step; [done|by apply svcs_same|by apply meaning_same|by apply MapIoPage_ok].
  - cbn [existsb once_kinds Z.eqb Pos.eqb orb andb]. mark_word. apply page_table_step; [done|by apply svcs_same|by apply meaning_same|by apply MapRegion_ok].
  - cbn [existsb once_kinds Z.eqb Pos.eqb orb andb]. mark_word. unfold step_ok, on_caps, SetInterruptPairCapability. cbn [refusal cap_kind existsb once_kinds Z.eqb Pos.eqb orb andb].
    cbn [caps marked set_flags set_svc page_table perform]. unfold state_of. rewrite svcs_same, meaning_same by done.
    change PaddingInterruptId with 0x3FF. by destruct (ExtractValue InterruptPair.interrupt_id0 w =? 0x3FF), (ExtractValue InterruptPair.interrupt_id1 w =? 0x3FF).
  - apply once_step; [done..|]. intros Hs. cbn [Z.eqb Pos.eqb]. mark_word. apply caps_step; [by apply svcs_same|done|].
    unfold refusal. cbn [cap_kind]. rewrite Hs, andb_false_r. unfold SetProgramTypeCapability. destruct (_ =? 0); [by rewrite meaning_program|by eexists].
  - rewrite E14. apply once_step; [done..|]. intros Hs. cbn [Z.eqb Pos.eqb]. mark_word. apply caps_step; [by apply svcs_same|done|].
    unfold refusal. cbn [cap_kind]. rewrite Hs, andb_false_r. unfold SetKernelVersionCapability.
    assert (GetIntendedKernelMajorVersion (meaning (start_of kip phys) seen) = if kip then 26 else 0) as ->.
    { unfold GetIntendedKernelMajorVersion, meaning. cbn [m_intended_kernel_version]. rewrite (first_of_unseen _ 14) by (exact Hs || by intros [] ?). by destruct kip. }
    destruct kip; [by eexists|]. cbn [Z.eqb orb]. change (GetIntendedKernelMajorVersion (with_version w ?c)) with (ExtractValue KernelVersion.major_version w).
    destruct (_ =? 0); [by eexists|]. cbn [negb]. rewrite meaning_version, <- version_word by done. done.
  - apply once_step; [done..|]. intros Hs. cbn [Z.eqb Pos.eqb]. mark_word. apply caps_step; [by apply svcs_same|done|].
    unfold refusal. cbn [cap_kind]. rewrite Hs, andb_false_r. unfold SetHandleTableCapability. destruct (_ =? 0); [|by eexists]. cbn [negb]. rewrite meaning_handles by done.
    assert (in_u 10 (ExtractValue HandleTable.size w)) as Hr by (apply (Extract_range HandleTable.size); [by split_and!|done]).
    unfold s32. rewrite wraps_small; [done|lia|]. unfold in_s, in_u in *. lia.
  - apply once_step; [done..|]. intros Hs. cbn [Z.eqb Pos.eqb]. mark_word. apply caps_step; [by apply svcs_same|done|].
    unfold refusal. cbn [cap_kind]. rewrite Hs, andb_false_r. by apply SetDebugFlags_ok.
  - destruct (Z.eqb_spec (trailing_ones w) 32) as [->|N32].
    + unfold step_ok. cbn [refusal cap_kind existsb once_kinds Z.eqb Pos.eqb orb andb perform]. rewrite bind_ret. unfold state_of.
      rewrite flags_snoc, svcs_same, meaning_same by done. cbn [cap_flag fst snd]. by rewrite Z.lor_0_r.
    + assert (existsb (Z.eqb (trailing_ones w)) once_kinds = false) as Ho by (cbn [existsb once_kinds]; by rewrite !(proj2 (Z.eqb_neq _ _)) by done).
      unfold step_ok, refusal. cbn [cap_kind]. rewrite Ho. cbn [andb]. destruct (trailing_ones w =? 0); [by eexists|]. by eexists.
Qed.
End OneWord.

(** ** All words *)

Lemma refusal_error kip seen c e : refusal kip seen c = Some e -> (e =? 0) = false.
Proof.
  unfold refusal. destruct (_ && _); [by intros [= <-]|]. destruct c; repeat case_match; try discriminate; by intros [= <-].
Qed.

(** The outcome of the descriptors [cs], for the whole run [m]. *)
Definition run_ok {P} {PT : PageTable P} (kip : bool) (phys : Z) (seen cs : list Cap) (pt : P) (m : outcome (Z * run)) : Prop :=
  match grant kip seen cs pt with
  | Undef => m = Undef
  | Done ok (rc, pt') => exists s', m = Done ok (rc, s') /\ page_table s' = pt' /\ (rc = ResultSuccess -> caps s' = meaning (start_of kip phys) (seen ++ cs))
  end.

Lemma run_step {P} {PT : PageTable P} kip phys seen c cs (pt : P) m k : step_ok kip phys seen pt c m ->
  (forall pt', run_ok kip phys (seen ++ [c]) cs pt' (k (state_of kip phys (seen ++ [c]) pt'))) -> run_ok kip phys seen (c :: cs) pt (R_TRY m k).
Proof.
  intros Hm Hk. unfold run_ok, step_ok in *. cbn [grant]. destruct (refusal kip seen c) as [e|] eqn:Er.
  - destruct Hm as (s' & -> & Hp). apply refusal_error in Er. exists s'. unfold R_TRY. rewrite bind_Done_true. unfold IsError, IsSuccess. rewrite Er. cbn [negb].
    split; [done|]. split; [done|]. intros ->. done.
  - rewrite Hm. unfold R_TRY. rewrite bind_assoc. destruct (perform c pt) as [|b [rc pt']]; [done|]. unfold mbind, outcome_mbind, outcome_bind. cbn [fst snd].
    unfold mret, outcome_mret. unfold IsError, IsSuccess. destruct (Z.eqb_spec rc 0) as [->|Hne]; cbn [negb].
    + specialize (Hk pt'). destruct (grant kip (seen ++ [c]) cs pt') as [|ok [rc' pt'']]; [by rewrite Hk|].
      destruct Hk as (s' & -> & Hp & Hs). exists s'. split; [done|]. split; [done|]. intros E. rewrite (Hs E). by rewrite <- app_assoc.
    + eexists. split; [done|]. split; [done|]. done.
Qed.

Lemma SetCapabilities_loop_ok {P} {PT : PageTable P} kip phys n : forall words seen (pt : P), (length words <= n)%nat -> Forall (in_u 32) words ->
  run_ok kip phys seen (decode words) pt (SetCapabilities_loop words (state_of kip phys seen pt)).
Proof.
  induction n as [|n IH]; intros words seen pt Hn Hw.
  - destruct words; [|simpl in Hn; lia]. eexists. split; [done|]. split; [done|]. intros _. by rewrite app_nil_r.
  - destruct words as [|w words]; [eexists; split; [done|]; split; [done|]; intros _; by rewrite app_nil_r|].
    pose proof (Forall_inv Hw) as H1. pose proof (Forall_inv_tail Hw) as H2. cbn [SetCapabilities_loop decode].
    assert (forall v, in_u 32 v -> (GetCapabilityType v =? CapabilityType.MapRange) = (trailing_ones v =? 6)) as Ht.
    { intros v Hv. rewrite GetCapabilityType_spec by done. apply ones_eqb; [apply trailing_ones_range; done|lia]. }
    rewrite (Ht w H1). destruct (Z.eqb_spec (trailing_ones w) 6) as [E|E].
    + destruct words as [|s words]; [by eexists|]. pose proof (Forall_inv H2) as H3. pose proof (Forall_inv_tail H2) as H4.
      rewrite (Ht s H3). destruct (trailing_ones s =? 6); [|by eexists]. apply run_step; [|intros pt'; apply IH; [simpl in Hn; lia|done]].
      unfold step_ok, on_page_table. cbn [page_table state_of set_flags set_svc caps]. rewrite (MapRange_ok kip seen) by done.
      destruct (refusal kip seen (decode_pair w s)); [by eexists|]. apply bind_ext. intros [r q]. cbn [fst snd].
      unfold state_of. by rewrite flags_snoc, svcs_same, meaning_same, Z.lor_0_r by done.
    + apply run_step; [by apply SetCapability_ok|]. intros pt'. apply IH; [simpl in Hn; lia|done].
Qed.

Lemma SetCapabilities_ok {P} {PT : PageTable P} kip phys words (pt : P) : Forall (in_u 32) words ->
  match grant kip [] (decode words) pt with
  | Undef => SetCapabilities words (start_of kip phys) pt = Undef
  | Done ok (rc, pt') => exists c', SetCapabilities words (start_of kip phys) pt = Done ok (rc, (c', pt')) /\
      (rc = ResultSuccess -> c' = meaning (start_of kip phys) (decode words))
  end.
Proof.
  intros Hw. pose proof (SetCapabilities_loop_ok kip phys (length words) words [] pt ltac:(lia) Hw) as H. unfold run_ok in H.
  assert (state_of kip phys [] pt = mkRun 0 0 (start_of kip phys) pt) as E by (unfold state_of; f_equal; by destruct kip). rewrite E in H.
  unfold SetCapabilities. destruct (grant kip [] (decode words) pt) as [|ok [rc pt']]; [by rewrite H|]. destruct H as (s' & -> & <- & Hs).
  exists (caps s'). split; [|done]. unfold mbind, outcome_mbind, outcome_bind. cbn. by rewrite andb_true_r.
Qed.

(** ** Encoding *)

Lemma tag_ones k l : 0 <= k < 31 -> tiled 0 ((tag k :: l).*1) -> in_u 32 (pack (tag k :: l)) /\ trailing_ones (pack (tag k :: l)) = k.
Proof.
  intros Hk H. pose proof (pack_range _ 0 ltac:(lia) H) as Hr. split; [done|].
  assert (ExtractValue (mkField 0 (k + 1) 32) (pack (tag k :: l)) = Z.ones k) as E.
  { apply (Extract_pack _ 0); [lia|done|left|]. cbn [bits]. rewrite Z.ones_equiv. unfold in_u. rewrite Z.pow_add_r by lia. pose proof (Z.pow_pos_nonneg 2 k). lia. }
  assert (field_ok (mkField 0 (k + 1) 32)) as Hf by (split_and!; cbn [position bits width]; lia).
  assert (forall i, 0 <= i <= k -> Z.testbit (pack (tag k :: l)) i = (i <? k)) as Hb.
  { intros i Hi. pose proof (testbit_ExtractValue (mkField 0 (k + 1) 32) (pack (tag k :: l)) i Hf ltac:(lia)) as Ht. rewrite E, testbit_ones in Ht by lia.
    cbn [position bits] in Ht. rewrite (proj2 (Z.ltb_lt i (k + 1))), (proj2 (Z.leb_le 0 i)), Z.add_0_r in Ht by lia. cbn [andb] in Ht. by symmetry. }
  apply trailing_ones_unique; [done|lia| |].
  - rewrite Hb by lia. apply Z.ltb_irrefl.
  - intros i Hi. rewrite Hb by lia. apply Z.ltb_lt. lia.
Qed.

Lemma pack_word w : in_u 32 w -> pack [(mkField 0 32 32, w)] = w.
Proof.
  intros Hw. apply Z.bits_inj'. intros i Hi. cbn [pack]. rewrite Z.lor_0_r, testbit_FormatValue by (done || by split_and!). cbn [position bits]. rewrite Z.sub_0_r, Z.add_0_l.
  destruct (Z.leb_spec 0 i); [|lia]. destruct (Z.ltb_spec i 32); [done|]. by rewrite (testbit_above 32).
Qed.

(** One word: what it decodes to is decided by its tag. *)
Lemma decode_tagged k l rest : 0 <= k < 31 -> k <> 6 -> tiled 0 ((tag k :: l).*1) -> decode (pack (tag k :: l) :: rest) = decode_word (pack (tag k :: l)) :: decode rest.
Proof. intros Hk H6 H. destruct (tag_ones k l Hk H) as [_ E]. cbn [decode]. rewrite E. by rewrite (proj2 (Z.eqb_neq k 6)) by done. Qed.

Ltac tiled_tac := cbn; repeat split; lia.
Lemma cap_field_range c fs f v : Forall (Forall (fun fv => in_u (bits (fst fv)) (snd fv))) (cap_fields c) -> In fs (cap_fields c) -> In (f, v) fs -> in_u (bits f) v.
Proof.
  intros H Hfs Hv. rewrite list.Forall_forall in H. specialize (H fs ltac:(by apply list_elem_of_In)). rewrite list.Forall_forall in H.
  exact (H (f, v) ltac:(by apply list_elem_of_In)).
Qed.

Lemma decode_encode_one c rest : cap_ok c -> decode (encode c ++ rest) = c :: decode rest.
Proof.
  intros [H Hc].
  assert (forall fs f v, In fs (cap_fields c) -> tiled 0 (fs.*1) -> In (f, v) fs -> ExtractValue f (pack fs) = v) as X.
  { intros fs f v Hfs Ht Hv. apply (Extract_pack fs 0); [lia|done|by apply list_elem_of_In|by eapply cap_field_range]. }
  destruct c; unfold encode; cbn [cap_fields map app] in *; try done.
  3: { match goal with |- decode (pack (tag 6 :: ?l) :: pack (tag 6 :: ?l') :: _) = _ =>
         destruct (tag_ones 6 l ltac:(lia) ltac:(tiled_tac)) as [_ E]; destruct (tag_ones 6 l' ltac:(lia) ltac:(tiled_tac)) as [_ E'] end.
       cbn [decode]. rewrite E, E'. cbn [Z.eqb Pos.eqb]. f_equal. unfold decode_pair.
       f_equal; (apply X; [left; reflexivity|tiled_tac|cbn; tauto]) || (apply X; [right; left; reflexivity|tiled_tac|cbn; tauto]). }
  10: { assert (in_u 32 word) as Hw by (apply (cap_field_range (UnknownCap word) [(mkField 0 32 32, word)] (mkField 0 32 32) word H); left; reflexivity).
       rewrite pack_word by done. cbn [cap_kind] in Hc. cbn [decode]. unfold decode_word.
       rewrite !(proj2 (Z.eqb_neq (trailing_ones word) _)); [done|..]; intros E; apply Hc; rewrite E; apply list_elem_of_In; cbn; tauto. }
  all: rewrite decode_tagged by (lia || tiled_tac); f_equal; unfold decode_word;
    match goal with |- context [pack (tag ?k :: ?l)] => destruct (tag_ones k l ltac:(lia) ltac:(tiled_tac)) as [_ ->] end; cbn [Z.eqb Pos.eqb];
    f_equal; (apply X; [left; reflexivity|tiled_tac|cbn; tauto]).
Qed.

(** ** What a granted list implies *)

Definition fields_ok (c : Cap) : Prop := Forall (Forall (fun fv => in_u (bits (fst fv)) (snd fv))) (cap_fields c).

Ltac each_field := unfold fields_ok; cbn [cap_fields decode_pair]; repeat first [apply Forall_nil_2 | apply Forall_cons_2]; cbn [fst snd tag bits].

Lemma decode_fields n : forall words, (length words <= n)%nat -> Forall (in_u 32) words -> Forall fields_ok (decode words).
Proof.
  assert (forall w f, in_u 32 w -> field_ok f -> width f = 32 -> in_u (bits f) (ExtractValue f w)) as X by (intros w f Hw Hf E; apply Extract_range; [done|by rewrite E]).
  assert (forall k, 0 <= k -> in_u (k + 1) (Z.ones k)) as T.
  { intros k Hk. rewrite Z.ones_equiv. unfold in_u. rewrite Z.pow_add_r by lia. pose proof (Z.pow_pos_nonneg 2 k). lia. }
  induction n as [|n IH]; intros words Hn Hw; (destruct words as [|w words]; [constructor|simpl in Hn]); [lia|].
  pose proof (Forall_inv Hw) as H1. pose proof (Forall_inv_tail Hw) as H2. cbn [decode]. destruct (trailing_ones w =? 6).
  - destruct words as [|s words]; [by each_field|]. pose proof (Forall_inv H2) as H3. pose proof (Forall_inv_tail H2) as H4.
    destruct (trailing_ones s =? 6); [|by each_field]. constructor; [|apply IH; [simpl in Hn; lia|done]].
    each_field; (apply T; lia) || (apply X; [done|by split_and!|done]).
  - constructor; [|apply IH; [lia|done]]. unfold decode_word. repeat (destruct (_ =? _); [each_field; (apply T; lia) || (apply X; [done|by split_and!|done])|]).
    by each_field.
Qed.

Section Granted.
Context {P : Type} {PT : PageTable P}.

Lemma grant_success kip cs : forall seen (pt pt' : P) ok, grant kip seen cs pt = Done ok (ResultSuccess, pt') ->
  forall pre c post, cs = pre ++ c :: post -> refusal kip (seen ++ pre) c = None.
Proof.
  induction cs as [|d cs IH]; intros seen pt pt' ok H pre c post E; [by destruct pre|]. cbn [grant] in H. destruct (refusal kip seen d) as [e|] eqn:Er.
  - apply refusal_error in Er. injection H as _ -> _. done.
  - destruct pre as [|d' pre]; injection E as -> ->; [by rewrite app_nil_r|]. apply bind_Done_weak_inv in H as (b & b' & [rc q] & _ & H & _). cbn [fst snd] in H.
    destruct (Z.eqb_spec rc 0); [|injection H as _ -> _; done]. replace (seen ++ d' :: pre) with ((seen ++ [d']) ++ pre) by by rewrite <- app_assoc.
    eapply IH; [exact H|reflexivity].
Qed.

(** The page table is only asked for whole pages of the permitted physical range and for the two regions. *)
Definition mapping_closed (I : P -> Prop) : Prop :=
  (forall a n perm q ok r q', (4096 | a) -> (4096 | n) -> 0 <= a -> 0 < n -> a + n <= 2 ^ 36 -> I q ->
     pt_MapIo a n perm q = Done ok (r, q') \/ pt_MapStatic a n perm q = Done ok (r, q') -> I q') /\
  (forall t perm q ok r q', t = GetValue KMemoryRegionType_OnMemoryBootImage \/ t = GetValue KMemoryRegionType_DTB -> I q ->
     pt_MapRegion t perm q = Done ok (r, q') -> I q').

Lemma map_regions_closed I l : mapping_closed I -> forall (q q' : P) ok r, I q -> map_regions l q = Done ok (r, q') -> I q'.
Proof.
  intros [_ HI]. induction l as [|[t ro] l IH]; intros q q' ok r Hq H; [by injection H as _ _ <-|]. cbn [map_regions] in H.
  destruct (t <=? 1); [by eapply IH|]. destruct (t <=? 3); [|by injection H as _ _ <-].
  apply bind_Done_weak_inv in H as (b & b' & [rc q1] & H1 & H2 & _). cbn [fst snd] in H2.
  assert (I q1) as Hq1 by (eapply HI; [|exact Hq|exact H1]; destruct (t =? 2); tauto). destruct (rc =? 0); [by eapply IH|]. by injection H2 as _ _ <-.
Qed.

Lemma perform_closed I kip seen c : mapping_closed I -> fields_ok c -> refusal kip seen c = None ->
  forall (q q' : P) ok r, I q -> perform c q = Done ok (r, q') -> I q'.
Proof.
  intros HI Hc Hr q q' ok r Hq H. destruct c; cbn [perform] in H; try (by injection H as _ _ <-).
  - assert (in_u 24 address) as Ha by (eapply (cap_field_range _ _ MapRange.address); [exact Hc|left; reflexivity|cbn; tauto]).
    assert (in_u 20 pages) as Hp by (eapply (cap_field_range _ _ MapRangeSize.pages); [exact Hc|right; left; reflexivity|cbn; tauto]).
    unfold refusal in Hr. cbn [cap_kind existsb once_kinds Z.eqb Pos.eqb orb andb] in Hr. destruct (reserved =? 0); [|done]. cbn [negb] in Hr.
    destruct (Z.eqb_spec pages 0); [done|]. destruct (Z.ltb_spec (2 ^ 24) (address + pages)); [done|]. unfold in_u in *.
    apply (proj1 HI (address * 4096) (pages * 4096) (perm_of read_only) q ok r); try lia; try done; [by exists address|by exists pages|].
    destruct (normal =? 0); [by left|by right].
  - assert (in_u 24 address) as Ha by (eapply (cap_field_range _ _ MapIoPage.address); [exact Hc|left; reflexivity|cbn; tauto]). unfold in_u in Ha.
    apply (proj1 HI (address * 4096) 4096 MemoryPermission.UserReadWrite q ok r); try lia; try done; [by exists address|by left].
  - by eapply map_regions_closed.
Qed.

Lemma grant_closed I kip cs : mapping_closed I -> Forall fields_ok cs -> forall seen (pt pt' : P) ok r, I pt -> grant kip seen cs pt = Done ok (r, pt') -> I pt'.
Proof.
  intros HI. induction cs as [|c cs IH]; intros Hf seen pt pt' ok r Hpt H; [by injection H as _ _ <-|].
  pose proof (Forall_inv Hf) as H1. pose proof (Forall_inv_tail Hf) as H2. cbn [grant] in H. destruct (refusal kip seen c) eqn:Er; [by injection H as _ _ <-|].
  apply bind_Done_weak_inv in H as (b & b' & [rc q] & Hp & H & _). cbn [fst snd] in H. assert (I q) as Hq by by eapply perform_closed.
  destruct (rc =? 0); [by eapply IH|]. by injection H as _ _ <-.
Qed.
End Granted.

Lemma first_of_cases {A} (f : Cap -> option A) cs d : first_of f cs d = d \/ exists c, c ∈ cs /\ f c = Some (first_of f cs d).
Proof.
  unfold first_of. destruct (omap f cs) as [|x l] eqn:E; [by left|]. right. assert (x ∈ omap f cs) as Hx by (rewrite E; left).
  apply list_elem_of_omap in Hx as (c & Hc & Hf). exists c. done.
Qed.

Lemma granted_svc cs id : Forall fields_ok cs -> 0 <= id ->
  existsb (fun c => Z.testbit (svc_bits c) id) cs = true <-> exists k, SyscallMaskCap k (id / 24) ∈ cs /\ Z.testbit k (id mod 24) = true.
Proof.
  intros Hf Hid. rewrite existsb_exists. setoid_rewrite <- list_elem_of_In. split.
  - intros (c & Hc & Hb). rewrite list.Forall_forall in Hf. specialize (Hf c Hc). destruct c; cbn [svc_bits] in Hb; try (by rewrite Z.bits_0 in Hb).
    assert (in_u 24 mask) as Hm by (eapply (cap_field_range _ _ SyscallMask.mask); [exact Hf|left; reflexivity|cbn; tauto]).
    rewrite Z.shiftl_spec in Hb by done. assert (0 <= id - 24 * index < 24) as Hr.
    { destruct (Z_lt_le_dec (id - 24 * index) 0); [by rewrite Z.testbit_neg_r in Hb|]. destruct (Z_lt_le_dec (id - 24 * index) 24); [lia|]. by rewrite (testbit_above 24) in Hb by (done || lia). }
    exists mask. rewrite <- (Z.div_unique id 24 index (id - 24 * index)), <- (Z.mod_unique id 24 index (id - 24 * index)) by lia. done.
  - intros (k & Hc & Hb). exists (SyscallMaskCap k (id / 24)). split; [done|]. cbn [svc_bits]. rewrite Z.shiftl_spec by done.
    rewrite (Z.mod_eq id 24) in Hb by lia. done.
Qed.

Definition Initialize {P} {PT : PageTable P} (kip : bool) (words : list Z) (c : KCapabilities) (pt : P) : outcome (Z * (KCapabilities * P)) :=
  if kip then InitializeForKip words c pt else InitializeForUser words c pt.

Lemma Initialize_start {P} {PT : PageTable P} kip words c (pt : P) : Initialize kip words c pt = SetCapabilities words (start_of kip (m_phys_core_mask c)) pt.
Proof.
  destruct kip; [|done]. cbn [Initialize]. unfold InitializeForKip.
  replace (ConvertVirtualCoreMaskToPhysical VirtualCoreMask) with (mret (M := outcome) 0xF) by (vm_compute; reflexivity). by rewrite bind_ret.
Qed.

Lemma caps_Initialize_ok {P} {PT : PageTable P} kip words c (pt : P) : Forall (in_u 32) words ->
  match grant kip [] (decode words) pt with
  | Undef => Initialize kip words c pt = Undef
  | Done ok (rc, pt') => exists c', Initialize kip words c pt = Done ok (rc, (c', pt')) /\
      (rc = ResultSuccess -> c' = meaning (start_of kip (m_phys_core_mask c)) (decode words))
  end.
Proof. intros Hw. rewrite Initialize_start. by apply SetCapabilities_ok. Qed.

Lemma grant_app {P} {PT : PageTable P} kip pre : forall seen cs (pt : P),
  grant kip seen (pre ++ cs) pt = (rp ← grant kip seen pre pt; if fst rp =? 0 then grant kip (seen ++ pre) cs (snd rp) else mret rp).
Proof.
  induction pre as [|d pre IH]; intros seen cs pt; cbn [app grant].
  - rewrite bind_ret. cbn [fst snd]. by rewrite app_nil_r.
  - destruct (refusal kip seen d) as [e|] eqn:Er; [rewrite bind_ret; cbn [fst]; by rewrite (refusal_error _ _ _ _ Er)|].
    rewrite bind_assoc. apply bind_ext. intros [rc q]. cbn [fst snd]. destruct (rc =? 0) eqn:E.
    + rewrite IH. apply bind_ext. intros [rc' q']. by rewrite <- app_assoc.
    + rewrite bind_ret. cbn [fst]. by rewrite E.
Qed.

(** The regions a map descriptor names all have memory behind them. *)
Definition backed (l : KMemoryLayout) (t : Z) : Prop :=
  t <= 1 \/ t = 2 /\ FindFirstDerived (GetValue KMemoryRegionType_OnMemoryBootImage) (m_physical_tree l) <> None \/
  t = 3 /\ FindFirstDerived (GetValue KMemoryRegionType_DTB) (m_physical_tree l) <> None.

Lemma CheckMapRegion_ok l w : in_u 32 w -> exists e, CheckMapRegion l w = Done true (e, tt) /\
  (e = ResultSuccess <-> Forall (backed l) [ExtractValue MapRegion.region0 w; ExtractValue MapRegion.region1 w; ExtractValue MapRegion.region2 w]).
Proof.
  intros Hw. unfold CheckMapRegion, ProcessMapRegionCapability.
  match goal with |- context [process_regions ?f ?rs tt] => set (F := f); assert (Forall (fun tr => 0 <= fst tr) rs) as H0;
    [repeat (apply Forall_cons_2; [cbn [fst]; apply ExtractValue_nonneg; (apply Hw || done)|]); by apply Forall_nil_2|]; change [ExtractValue MapRegion.region0 w; ExtractValue MapRegion.region1 w; ExtractValue MapRegion.region2 w] with (rs.*1); generalize rs H0 end.
  clear Hw H0. intros rs. induction rs as [|[t ro] rs IH]; intros H; [exists ResultSuccess; split; [done|]; split; [by constructor|done]|].
  pose proof (Forall_inv H) as Ht. pose proof (Forall_inv_tail H) as Hrs. cbn [fst] in Ht. destruct (IH Hrs) as (e & He & Hiff). clear IH.
  cbn [process_regions fmap list_fmap fst]. unfold RegionType.NoMapping, RegionType.KernelTraceBuffer, RegionType.OnMemoryBootImage, RegionType.DTB. change (negb IsKTraceEnabled) with true. cbv iota.
  assert (forall region, 2 <= t -> (backed l t <-> FindFirstDerived region (m_physical_tree l) <> None) -> exists e',
    R_TRY (F region (perm_of ro) tt) (process_regions F rs) = Done true (e', tt) /\ (e' = ResultSuccess <-> Forall (backed l) (t :: rs.*1))) as Hcall.
  { intros region H2 Hb. unfold R_TRY.
    assert (F region (perm_of ro) tt = mret (if FindFirstDerived region (m_physical_tree l) then ResultSuccess else ResultOutOfRange, tt)) as ->
      by (unfold F; by destruct (FindFirstDerived region (m_physical_tree l))). destruct (FindFirstDerived region (m_physical_tree l)).
    - rewrite bind_ret. cbn [IsError IsSuccess negb Z.eqb ResultSuccess]. exists e. split; [done|]. rewrite list.Forall_cons, Hiff. assert (backed l t) by (by apply Hb). tauto.
    - rewrite bind_ret. exists ResultOutOfRange. split; [done|]. rewrite list.Forall_cons. split; [done|]. intros [Hc _]. by apply Hb in Hc. }
  destruct (Z.eqb_spec t 0) as [->|]; [exists e; rewrite list.Forall_cons, <- Hiff; split; [done|]; assert (backed l 0) by (left; lia); tauto|].
  destruct (Z.eqb_spec t 1) as [->|]; [exists e; rewrite list.Forall_cons, <- Hiff; split; [done|]; assert (backed l 1) by (left; lia); tauto|].
  destruct (Z.eqb_spec t 2) as [->|].
  { change (arr_get MemoryRegions 2) with (mret (M := outcome) (GetValue KMemoryRegionType_OnMemoryBootImage)). rewrite bind_ret. apply Hcall; [lia|].
    unfold backed. split; [intros [?|[[_ ?]|[? _]]]; [lia|done|lia]|]. intros ?. right. by left. }
  destruct (Z.eqb_spec t 3) as [->|].
  { change (arr_get MemoryRegions 3) with (mret (M := outcome) (GetValue KMemoryRegionType_DTB)). rewrite bind_ret. apply Hcall; [lia|].
    unfold backed. split; [intros [?|[[? _]|[_ ?]]]; [lia|lia|done]|]. intros ?. right. by right. }
  exists ResultNotFound. split; [done|]. rewrite list.Forall_cons. split; [done|]. unfold backed. intros [[?|[[? _]|[? _]]] _]; lia.
Qed.

(** ** The properties *)

(** C21: Initialising from capability words does what the decoded descriptors say, one after the other, for initial processes
    ([kip]) and for others: the answer and the page table are those of [grant], which refuses the first descriptor that
    does not fit those before it, and on success the members of the object are those the descriptors name. *)
Theorem capabilities_initialize {P} {PT : PageTable P} (kip : bool) words c (pt : P) : Forall (in_u 32) words ->
  match grant kip [] (decode words) pt with
  | Undef => Initialize kip words c pt = Undef
  | Done ok (rc, pt') => exists c', Initialize kip words c pt = Done ok (rc, (c', pt')) /\
      (rc = ResultSuccess -> c' = meaning (start_of kip (m_phys_core_mask c)) (decode words))
  end.
Proof. apply caps_Initialize_ok. Qed.

(** C22: The error of a bad descriptor.  When the descriptors [pre] are granted and the one behind them is refused, the
    initialisation ends with the result of that refusal, and with the page table as the descriptors [pre] have left
    it: nothing behind the bad descriptor has an effect. *)
Theorem capabilities_first_error {P} {PT : PageTable P} (kip : bool) words c (pt pt1 : P) ok pre bad post e :
  Forall (in_u 32) words -> decode words = pre ++ bad :: post -> grant kip [] pre pt = Done ok (ResultSuccess, pt1) -> refusal kip pre bad = Some e ->
  exists c', Initialize kip words c pt = Done ok (e, (c', pt1)) /\ IsError e = true.
Proof.
  intros Hw Hd Hg Hr. pose proof (caps_Initialize_ok kip words c pt Hw) as H. rewrite Hd, grant_app, Hg in H. unfold mbind, outcome_mbind, outcome_bind in H.
  cbn [fst snd ResultSuccess Z.eqb app grant] in H. rewrite Hr in H. unfold mret, outcome_mret in H. rewrite andb_true_r in H. destruct H as (c' & H & _).
  exists c'. split; [done|]. unfold IsError, IsSuccess. by rewrite (refusal_error _ _ _ _ Hr).
Qed.

(** Encoding descriptors and decoding the words gives the descriptors back, whatever the values of their fields are. *)
Theorem capabilities_round_trip cs : Forall cap_ok cs -> decode (flat_map encode cs) = cs.
Proof. induction 1 as [|c cs Hc _ IH]; [done|]. cbn [flat_map]. by rewrite decode_encode_one, IH. Qed.

(** C23: No list of words gives a user process more than it may have.  Whatever the answer is, the page table was only asked
    to map whole pages below 2^36 and the two permitted regions.  On success, the priorities leave out those of the kernel,
    the cores exist, a system call is permitted exactly when a mask descriptor lists it, and the handle table is of at
    most 1023 entries. *)
Theorem capabilities_confined {P} {PT : PageTable P} words c (pt : P) ok rc c' pt' :
  Forall (in_u 32) words -> InitializeForUser words c pt = Done ok (rc, (c', pt')) ->
  (forall I : P -> Prop, mapping_closed I -> I pt -> I pt') /\
  (rc = ResultSuccess ->
     (forall p, 0 <= p -> Z.testbit (GetPriorityMask c') p = true -> 4 <= p < 64) /\
     (forall i, 0 <= i -> Z.testbit (GetCoreMask c') i = true -> i < 64) /\
     (forall id, 0 <= id -> IsPermittedSvc id c' = true <->
        id < NumSupervisorCalls /\ exists k, SyscallMaskCap k (id / 24) ∈ decode words /\ Z.testbit k (id mod 24) = true) /\
     0 <= GetHandleTableSize c' < 1024).
Proof.
  intros Hw H. pose proof (caps_Initialize_ok false words c pt Hw) as Hi. cbn [Initialize start_of] in Hi. rewrite H in Hi.
  destruct (grant false [] (decode words) pt) as [|ok1 [rc1 pt1]] eqn:Eg; [done|]. destruct Hi as (c1 & [= -> -> -> ->] & Hm).
  pose proof (decode_fields (length words) words ltac:(lia) Hw) as Hf. split; [intros I HI Hpt; by eapply grant_closed|]. intros ->. rewrite (Hm eq_refl). clear Hm H.
  assert (forall lo hi mn mx, CorePriorityCap lo hi mn mx ∈ decode words -> 4 <= hi <= lo /\ lo < 64 /\ 0 <= mn <= mx /\ mx < 64) as Hcore.
  { intros lo hi mn mx Hin. pose proof Hf as Hin'. rewrite list.Forall_forall in Hin'. specialize (Hin' _ Hin).
    assert (in_u 6 lo) as Hlo by (eapply (cap_field_range _ _ CorePriority.lowest_thread_priority); [exact Hin'|left; reflexivity|cbn; tauto]).
    assert (in_u 8 mn) as Hmn by (eapply (cap_field_range _ _ CorePriority.minimum_core_id); [exact Hin'|left; reflexivity|cbn; tauto]).
    apply list_elem_of_split in Hin as (pre & post & E). pose proof (grant_success _ _ _ _ _ _ Eg _ _ _ E) as Hr. unfold refusal in Hr.
    destruct (_ && _); [done|]. destruct (Z.ltb_spec mx mn); [done|]. destruct (Z.ltb_spec lo hi); [done|]. cbn [orb] in Hr.
    destruct (Z.leb_spec 64 mx); [done|]. destruct (Z.ltb_spec hi 4); [done|]. unfold in_u in *. lia. }
  unfold GetPriorityMask, GetCoreMask, IsPermittedSvc, GetHandleTableSize, meaning. cbn [m_priority_mask m_core_mask m_svc_access_flags m_handle_table_size user_start].
  split; [|split; [|split]].
  - intros p Hp. match goal with |- context [first_of ?f ?l ?d] => destruct (first_of_cases f l d) as [->|(d' & Hd & E)] end; [by rewrite Z.bits_0|].
    destruct d'; try done. injection E as <-. apply Hcore in Hd. rewrite testbit_range_mask by lia. intros [?%Z.leb_le ?%Z.leb_le]%andb_true_iff. lia.
  - intros i Hi. match goal with |- context [first_of ?f ?l ?d] => destruct (first_of_cases f l d) as [->|(d' & Hd & E)] end; [by rewrite Z.bits_0|].
    destruct d'; try done. injection E as <-. apply Hcore in Hd. rewrite testbit_range_mask by lia. intros [?%Z.leb_le ?%Z.leb_le]%andb_true_iff. lia.
  - intros id Hid. rewrite andb_true_iff, Z.ltb_lt, foldl_lor_bits, Z.bits_0. cbn [orb]. by rewrite granted_svc.
  - match goal with |- context [first_of ?f ?l ?d] => destruct (first_of_cases f l d) as [->|(d' & Hd & E)] end; [lia|].
    destruct d' as [| | | | | | | |n r| | | |]; try done. injection E as <-. rewrite list.Forall_forall in Hf. apply Hf in Hd.
    assert (in_u 10 n) as Hs by (eapply (cap_field_range _ _ HandleTable.size); [exact Hd|left; reflexivity|cbn; tauto]). unfold in_u in Hs. lia.
Qed.

(** Checking the capabilities of a program succeeds exactly when every region its map descriptors name has memory
    behind it in the physical tree. *)
Theorem capabilities_check l words : Forall (in_u 32) words -> exists e, CheckCapabilities l words = Done true (e, tt) /\
  (e = ResultSuccess <-> forall w, w ∈ words -> trailing_ones w = 10 ->
     Forall (backed l) [ExtractValue MapRegion.region0 w; ExtractValue MapRegion.region1 w; ExtractValue MapRegion.region2 w]).
Proof.
  induction 1 as [|w words Hw _ (e & He & IH)]; [exists ResultSuccess; split; [done|]; split; [intros _ w Hin; by apply not_elem_of_nil in Hin|done]|].
  cbn [CheckCapabilities]. rewrite GetCapabilityType_spec by done. change CapabilityType.MapRegion with ((1 .<< 10) - 1). rewrite ones_eqb by (apply trailing_ones_range in Hw; lia).
  setoid_rewrite elem_of_cons. destruct (Z.eqb_spec (trailing_ones w) 10) as [E|E].
  - destruct (CheckMapRegion_ok l w Hw) as (e1 & H1 & Hb). rewrite H1. unfold R_TRY. rewrite bind_Done_true. unfold IsError, IsSuccess. destruct (Z.eqb_spec e1 0) as [->|Hne]; cbn [negb].
    + exists e. split; [done|]. rewrite IH. split; [|naive_solver]. intros H w' [->|Hin]; [intros _; by apply Hb|by apply H].
    + exists e1. split; [done|]. split; [done|]. intros H. apply Hb, H; [by left|done].
  - exists e. split; [done|]. rewrite IH. naive_solver.
Qed.

(** ** Examples *)

(** A page table that keeps a list of what was mapped. *)
#[export] Instance demo_page_table : PageTable (list (Z * Z)) := {|
  pt_MapIo a n _ l := mret (ResultSuccess, (a, n) :: l);
  pt_MapStatic a n _ l := mret (ResultSuccess, (a, n) :: l);
  pt_MapRegion t _ l := mret (ResultSuccess, (t, 0) :: l)
|}.

Definition demo_caps : list Cap :=
  [CorePriorityCap 59 28 0 2; SyscallMaskCap 0xFFFFFF 0; SyscallMaskCap 0x9FE7FF 1; MapRangeCap 0x54200 1 0x40 0 0; MapIoPageCap 0x60006;
   KernelVersionCap 1 3; HandleTableCap 512 0; DebugFlagsCap 1 0 0; PaddingCap].
Definition demo_words : list Z := flat_map encode demo_caps.
Definition no_caps : KCapabilities := mkCaps 0 0 0 0 0 0 0 0 0.

Lemma check_range w x : (0 <=? x) && (x <? 2 ^ w) = true -> in_u w x.
Proof. intros [?%Z.leb_le ?%Z.ltb_lt]%andb_true_iff. done. Qed.

Lemma check_words l : forallb (fun x => (0 <=? x) && (x <? 2 ^ 32)) l = true -> Forall (in_u 32) l.
Proof. rewrite forallb_forall, list.Forall_forall. intros H x Hx. apply check_range, H. by apply list_elem_of_In. Qed.

Lemma demo_words_ok : Forall (in_u 32) demo_words.
Proof. apply check_words. vm_compute. reflexivity. Qed.

Lemma capabilities_initialize_witness : exists c', Initialize false demo_words no_caps [] = Done true (ResultSuccess, (c', [(0x60006000, 4096); (0x54200000, 0x40000)])) /\
  GetCoreMask c' = 7 /\ GetHandleTableSize c' = 512 /\ GetIntendedKernelMajorVersion c' = 3.
Proof.
  pose proof (capabilities_initialize false demo_words no_caps [] demo_words_ok) as H.
  replace (grant false [] (decode demo_words) []) with (Done true (ResultSuccess, [(0x60006000, 4096); (0x54200000, 0x40000)])) in H by (vm_compute; reflexivity).
  destruct H as (c' & H & E). exists c'. split; [exact H|]. rewrite (E eq_refl). split; [|split]; vm_compute; reflexivity.
Defined.

Lemma capabilities_first_error_witness : exists c', Initialize false (demo_words ++ [0x4003; 0x4003]) no_caps [] = Done true (ResultInvalidArgument, (c', [(0x60006000, 4096); (0x54200000, 0x40000)])).
Proof.
  destruct (capabilities_first_error false (demo_words ++ [0x4003; 0x4003]) no_caps [] [(0x60006000, 4096); (0x54200000, 0x40000)] true demo_caps (UnknownCap 0x4003) [UnknownCap 0x4003]
    ResultInvalidArgument) as (c' & H & _).
  - apply check_words. vm_compute. reflexivity.
  - vm_compute. reflexivity.
  - vm_compute. reflexivity.
  - vm_compute. reflexivity.
  - exists c'. exact H.
Defined.

Lemma demo_caps_ok : Forall cap_ok demo_caps.
Proof. repeat (apply Forall_cons_2; [split; [|exact I]; repeat first [apply Forall_nil_2 | apply Forall_cons_2]; apply check_range; vm_compute; reflexivity|]). apply Forall_nil_2. Qed.

Lemma capabilities_round_trip_witness : decode demo_words = demo_caps.
Proof. exact (capabilities_round_trip demo_caps demo_caps_ok). Defined.

Lemma capabilities_confined_witness : exists c', InitializeForUser demo_words no_caps [] = Done true (ResultSuccess, (c', [(0x60006000, 4096); (0x54200000, 0x40000)])) /\
  (forall p, 0 <= p -> Z.testbit (GetPriorityMask c') p = true -> 4 <= p < 64).
Proof.
  eexists. split; [vm_compute; reflexivity|].
  refine (proj1 (proj2 (capabilities_confined demo_words no_caps [] true ResultSuccess _ [(0x60006000, 4096); (0x54200000, 0x40000)] demo_words_ok _) eq_refl)).
  vm_compute. reflexivity.
Defined.
