(* ===== verification/KPageTableSpace.v ===== *)
(** * KPageTableSpace: the address space of a process

    Models core/hle/kernel/k_address_space_info.h and .cpp and, of k_page_table_base.h and .cpp, the members that say
    where the regions of an address space are, [InitializeForKernel], [InitializeForProcess], [GetRegionAddress],
    [GetRegionSize], [CanContain] and the containment tests.

    A new process gets its alias, heap, stack and kernel map regions at random places next to its code.  The code
    draws one number for each region and then moves every region behind those whose number is smaller.

    The theorems say that for every outcome of the random numbers the regions are aligned, inside the address
    space, of the right size, and disjoint from each other and from the code, that initialising fails only when the room
    next to the code is too small, and what the containment test accepts in such an address space. *)

From S2P Require Import Prelude Common BitField KPageHeap KMemoryBlock KMemoryBlockManager KMemoryManager KMemoryRegion.
#[local] Open Scope Z_scope.

(** ** k_address_space_info.h *)

Module KAddressSpaceInfo.
Inductive Type_ := MapSmall | MapLarge | Map39Bit | Heap | Stack | Alias.

#[export] Instance Type_eq_dec : EqDecision Type_.
Proof. solve_decision. Defined.

Record KAddressSpaceInfo := mkInfo { bit_width : Z; address : Z; size : Z; type : Type_ }.

Definition MiB (n : Z) : Z := n * 2 ^ 20.
Definition GiB (n : Z) : Z := n * 2 ^ 30.
Definition Size_Invalid : Z := 2 ^ 64 - 1.

(** The table of a build without native code execution. *)
Definition AddressSpaceInfos : list KAddressSpaceInfo :=
  [mkInfo 32 (MiB 2) (GiB 1 - MiB 2) MapSmall; mkInfo 32 (GiB 1) (GiB 4 - GiB 1) MapLarge;
   mkInfo 32 Size_Invalid (GiB 1) Alias; mkInfo 32 Size_Invalid (GiB 1) Heap;
   mkInfo 36 (MiB 128) (GiB 2 - MiB 128) MapSmall; mkInfo 36 (GiB 2) (GiB 64 - GiB 2) MapLarge;
   mkInfo 36 Size_Invalid (GiB 8) Heap; mkInfo 36 Size_Invalid (GiB 6) Alias;
   mkInfo 39 (MiB 128) (GiB 512 - MiB 128) Map39Bit; mkInfo 39 Size_Invalid (GiB 64) MapSmall;
   mkInfo 39 Size_Invalid (GiB 8) Heap; mkInfo 39 Size_Invalid (GiB 64) Alias; mkInfo 39 Size_Invalid (GiB 2) Stack].

Definition GetAddressSpaceInfo (w : Z) (ty : Type_) : outcome KAddressSpaceInfo :=
  match List.find (fun info => (bit_width info =? w) && bool_decide (type info = ty)) AddressSpaceInfos with
  | Some info => mret info
  | None => Undef
  end.
Definition GetAddressSpaceStart (w : Z) (ty : Type_) : outcome Z := info ← GetAddressSpaceInfo w ty; mret (address info).
Definition GetAddressSpaceSize (w : Z) (ty : Type_) : outcome Z := info ← GetAddressSpaceInfo w ty; mret (size info).
End KAddressSpaceInfo.
Import KAddressSpaceInfo.

(** ** Flags of a new process *)

Module CreateProcessFlag.
Definition AddressSpaceShift : Z := 1.
Definition AddressSpaceMask : Z := 7 .<< AddressSpaceShift.
Definition AddressSpace32Bit : Z := 0 .<< AddressSpaceShift.
Definition AddressSpace64BitDeprecated : Z := 1 .<< AddressSpaceShift.
Definition AddressSpace32BitWithoutAlias : Z := 2 .<< AddressSpaceShift.
Definition AddressSpace64Bit : Z := 3 .<< AddressSpaceShift.
Definition EnableAliasRegionExtraSize : Z := 1 .<< 13.
End CreateProcessFlag.

Definition RegionAlignment : Z := MiB 2.

Definition GetAddressSpaceWidth (as_type : Z) : outcome Z :=
  let kind := as_type .& CreateProcessFlag.AddressSpaceMask in
  if kind =? CreateProcessFlag.AddressSpace64Bit then mret 39
  else if kind =? CreateProcessFlag.AddressSpace64BitDeprecated then mret 36
  else if (kind =? CreateProcessFlag.AddressSpace32Bit) || (kind =? CreateProcessFlag.AddressSpace32BitWithoutAlias) then mret 32
  else Undef.

(** ** The members *)

(** A region of the address space, as its start and its end. *)
Definition region : Type := Z * Z.
Definition shift (d : Z) (r : region) : region := (u64 (fst r + d), u64 (snd r + d)).

Record Regions := mkRegions {
  m_heap_region : region;
  m_alias_region : region;
  m_stack_region : region;
  m_kernel_map_region : region;
  m_alias_code_region : region;
  m_code_region : region
}.

Record KPageTableBase := mkTable {
  m_address_space_start : Z;
  m_address_space_end : Z;
  m_regions : Regions;
  m_current_heap_end : Z;
  m_max_heap_size : Z;
  m_mapped_physical_memory_size : Z;
  m_mapped_unsafe_physical_memory : Z;
  m_mapped_insecure_memory : Z;
  m_mapped_ipc_server_memory : Z;
  m_alias_region_extra_size : Z;
  m_memory_block_manager : KMemoryBlockManager;
  m_allocate_option : Z;
  m_address_space_width : Z;
  m_is_kernel : bool;
  m_enable_aslr : bool;
  m_enable_device_address_space_merge : bool;
  m_allowed_exec_device_mapping : bool
}.

Definition no_regions : Regions := mkRegions (0, 0) (0, 0) (0, 0) (0, 0) (0, 0) (0, 0).
Definition KPageTableBase_new : KPageTableBase :=
  mkTable 0 0 no_regions 0 0 0 0 0 0 0 KMemoryBlockManager_new 0 0 false false false false.

Definition with_blocks (m : KMemoryBlockManager) (t : KPageTableBase) : KPageTableBase :=
  mkTable (m_address_space_start t) (m_address_space_end t) (m_regions t) (m_current_heap_end t) (m_max_heap_size t) (m_mapped_physical_memory_size t)
    (m_mapped_unsafe_physical_memory t) (m_mapped_insecure_memory t) (m_mapped_ipc_server_memory t) (m_alias_region_extra_size t) m (m_allocate_option t)
    (m_address_space_width t) (m_is_kernel t) (m_enable_aslr t) (m_enable_device_address_space_merge t) (m_allowed_exec_device_mapping t).

Section Initialize.
Context {S : Type} `{!BlockSlab S}.

(** The page table of the kernel.  [sm] is the slab manager of the system resource; the page entries of the host and
    the pointers to limits and memory are not part of the model, and the fill values are always zero. *)
Definition InitializeForKernel (is_64_bit : bool) (start end_ : Z) (sm : S) (t : KPageTableBase) : outcome (Z * KPageTableBase * S) :=
  let t := mkTable start end_ no_regions 0 0 0 0 0 0 (m_alias_region_extra_size t) (m_memory_block_manager t)
             (EncodeOption Pool.System Direction.FromFront) (if is_64_bit then 64 else 32) true true false (m_allowed_exec_device_mapping t) in
  rms ← KMemoryBlockManager.Initialize (m_memory_block_manager t) (m_address_space_start t) (m_address_space_end t) sm;
  let '(r, m, sm) := rms in mret (r, with_blocks m t, sm).

(** The sizes of the four regions with a place of their own; two of them are 0 in the small address spaces. *)
Record Sizes := mkSizes { alias_size : Z; heap_size : Z; stack_size : Z; kernel_map_size : Z }.

(** [GenerateRandomRange(0, remaining_size / RegionAlignment) * RegionAlignment]. *)
Definition random_offset (remaining_size : Z) (words : list Z) : outcome (Z * list Z) :=
  rw ← GenerateRandomRange 0 (remaining_size / RegionAlignment) words;
  mret (u64 (fst rw * RegionAlignment), snd rw).

(** Setting up the regions, from where they may be and the numbers drawn. *)
Definition setup_regions (alloc_start : Z) (sz : Sizes) (alias_rnd heap_rnd stack_rnd kmap_rnd : Z) (rg : Regions) : Regions :=
  let at_ rnd size := let start := u64 (alloc_start + rnd) in (start, u64 (start + size)) in
  let alias := at_ alias_rnd (alias_size sz) in
  let heap := at_ heap_rnd (heap_size sz) in
  let '(alias, heap) := if alias_rnd <=? heap_rnd then (alias, shift (alias_size sz) heap) else (shift (heap_size sz) alias, heap) in
  let '(alias, heap, stack) :=
    if negb (stack_size sz =? 0) then
      let stack := at_ stack_rnd (stack_size sz) in
      let '(alias, stack) := if alias_rnd <? stack_rnd then (alias, shift (alias_size sz) stack) else (shift (stack_size sz) alias, stack) in
      let '(heap, stack) := if heap_rnd <? stack_rnd then (heap, shift (heap_size sz) stack) else (shift (stack_size sz) heap, stack) in
      (alias, heap, stack)
    else (alias, heap, m_stack_region rg) in
  let '(alias, heap, stack, kmap) :=
    if negb (kernel_map_size sz =? 0) then
      let kmap := at_ kmap_rnd (kernel_map_size sz) in
      let '(alias, kmap) := if alias_rnd <? kmap_rnd then (alias, shift (alias_size sz) kmap) else (shift (kernel_map_size sz) alias, kmap) in
      let '(heap, kmap) := if heap_rnd <? kmap_rnd then (heap, shift (heap_size sz) kmap) else (shift (kernel_map_size sz) heap, kmap) in
      let '(stack, kmap) :=
        if negb (stack_size sz =? 0) then
          if stack_rnd <? kmap_rnd then (stack, shift (stack_size sz) kmap) else (shift (kernel_map_size sz) stack, kmap)
        else (stack, kmap) in
      (alias, heap, stack, kmap)
    else (alias, heap, stack, m_kernel_map_region rg) in
  mkRegions heap alias stack kmap (m_alias_code_region rg) (m_code_region rg).

Definition apart (r1 r2 : region) : bool := (u64 (snd r1 - 1) <? fst r2) || (u64 (snd r2 - 1) <? fst r1).

(** The checks at the end of [InitializeForProcess]. *)
Definition check_regions (start end_ : Z) (rg : Regions) : outcome unit :=
  let inside a := (start <=? a) && (a <=? end_) in
  ASSERT (inside (fst (m_alias_region rg)));;
  ASSERT (inside (snd (m_alias_region rg)));;
  ASSERT (inside (fst (m_heap_region rg)));;
  ASSERT (inside (snd (m_heap_region rg)));;
  ASSERT (inside (fst (m_stack_region rg)));;
  ASSERT (inside (snd (m_stack_region rg)));;
  ASSERT (inside (fst (m_kernel_map_region rg)));;
  ASSERT (inside (snd (m_kernel_map_region rg)));;
  ASSERT (apart (m_alias_region rg) (m_heap_region rg));;
  ASSERT (apart (m_alias_region rg) (m_stack_region rg));;
  ASSERT (apart (m_alias_region rg) (m_kernel_map_region rg));;
  ASSERT (apart (m_heap_region rg) (m_stack_region rg));;
  ASSERT (apart (m_heap_region rg) (m_kernel_map_region rg)).

(** The second half of [InitializeForProcess], on the table whose basic members are set: the regions of the sizes [sz] are placed in
    the [alloc_size] bytes from [alloc_start]. *)
Definition finish_process (alloc_start alloc_size : Z) (sz : Sizes) (from_back : bool) (pool : Z) (words : list Z) (sm : S) (t : KPageTableBase) :
    outcome (Z * KPageTableBase * S * list Z) :=
  let needed_size := u64 (alias_size sz + heap_size sz + stack_size sz + kernel_map_size sz) in
  if negb (needed_size <=? alloc_size) then mret (ResultOutOfMemory, t, sm, words)
  else
    let remaining_size := u64 (alloc_size - needed_size) in
    rnds ← (if m_enable_aslr t then
              a ← random_offset remaining_size words;
              h ← random_offset remaining_size (snd a);
              s ← random_offset remaining_size (snd h);
              k ← random_offset remaining_size (snd s);
              mret (fst a, fst h, fst s, fst k, snd k)
            else mret (0, 0, 0, 0, words));
    let '(alias_rnd, heap_rnd, stack_rnd, kmap_rnd, words) := rnds in
    let rg := setup_regions alloc_start sz alias_rnd heap_rnd stack_rnd kmap_rnd (m_regions t) in
    let t := mkTable (m_address_space_start t) (m_address_space_end t) rg (fst (m_heap_region rg)) 0 0 0 0 0 (m_alias_region_extra_size t) (m_memory_block_manager t)
               (EncodeOption pool (if from_back then Direction.FromBack else Direction.FromFront)) (m_address_space_width t) (m_is_kernel t)
               (m_enable_aslr t) (m_enable_device_address_space_merge t) (m_allowed_exec_device_mapping t) in
    check_regions (m_address_space_start t) (m_address_space_end t) rg;;
    rms ← KMemoryBlockManager.Initialize (m_memory_block_manager t) (m_address_space_start t) (m_address_space_end t) sm;
    let '(r, m, sm) := rms in mret (r, with_blocks m t, sm, words).

Definition InitializeForProcess (as_type : Z) (enable_aslr enable_das_merge from_back : bool) (pool code_address code_size aslr_space_start : Z)
    (words : list Z) (sm : S) (t : KPageTableBase) : outcome (Z * KPageTableBase * S * list Z) :=
  as_width ← GetAddressSpaceWidth as_type;
  let start := 0 in
  end_ ← shl64 1 as_width;
  ASSERT (start <=? code_address);;
  ASSERT (code_address <? u64 (code_address + code_size));;
  ASSERT (u64 (code_address + code_size - 1) <=? u64 (end_ - 1));;
  w ← GetAddressSpaceWidth as_type;
  alias_region_size ← GetAddressSpaceSize w Alias;
  heap_region_size ← GetAddressSpaceSize w Heap;
  let kind := as_type .& CreateProcessFlag.AddressSpaceMask in
  let without_alias := kind =? CreateProcessFlag.AddressSpace32BitWithoutAlias in
  let heap_region_size := if without_alias then u64 (heap_region_size + alias_region_size) else heap_region_size in
  let alias_region_size := if without_alias then 0 else alias_region_size in
  csr ← (if w =? 39 then
           alias_region_size ← GetAddressSpaceSize w Alias;
           heap_region_size ← GetAddressSpaceSize w Heap;
           stack_region_size ← GetAddressSpaceSize w Stack;
           kernel_map_region_size ← GetAddressSpaceSize w MapSmall;
           map_start ← GetAddressSpaceStart w Map39Bit;
           map_size ← GetAddressSpaceSize w Map39Bit;
           let code_start := u64 (u64 (m_address_space_start t + aslr_space_start) + map_start) in
           let code := (code_start, u64 (code_start + map_size)) in
           mret ((AlignDown 64 code_address RegionAlignment, AlignUp 64 (u64 (code_address + code_size)) RegionAlignment),
                 mkSizes alias_region_size heap_region_size stack_region_size kernel_map_region_size,
                 mkRegions (m_heap_region (m_regions t)) (m_alias_region (m_regions t)) (m_stack_region (m_regions t)) (m_kernel_map_region (m_regions t)) code code)
         else
           code_start ← GetAddressSpaceStart w MapSmall;
           map_size ← GetAddressSpaceSize w MapSmall;
           large_start ← GetAddressSpaceStart w MapLarge;
           large_size ← GetAddressSpaceSize w MapLarge;
           let code := (code_start, u64 (code_start + map_size)) in
           mret (code, mkSizes alias_region_size heap_region_size 0 0,
                 mkRegions (m_heap_region (m_regions t)) (m_alias_region (m_regions t)) code code (code_start, u64 (large_start + large_size)) code));
  let '(process_code, sz, rg) := csr in
  let before := u64 (fst process_code - fst (m_code_region rg)) in
  let behind := u64 (end_ - snd process_code) in
  let '(alloc_start, alloc_size) := if behind <=? before then (fst (m_code_region rg), before) else (snd process_code, behind) in
  let extra := (kind =? CreateProcessFlag.AddressSpace64Bit) && negb (as_type .& CreateProcessFlag.EnableAliasRegionExtraSize =? 0) &&
                 negb (alias_size sz =? 0) in
  let alias_region_extra_size := u64 (end_ - start) .>> 3 in
  let sz := if extra then mkSizes (u64 (alias_size sz + alias_region_extra_size)) (heap_size sz) (stack_size sz) (kernel_map_size sz) else sz in
  let extra_member := if extra then alias_region_extra_size else m_alias_region_extra_size t in
  let t := mkTable start end_ rg (m_current_heap_end t) (m_max_heap_size t) (m_mapped_physical_memory_size t) (m_mapped_unsafe_physical_memory t)
             (m_mapped_insecure_memory t) (m_mapped_ipc_server_memory t) extra_member (m_memory_block_manager t) (m_allocate_option t) w false
             enable_aslr enable_das_merge false in
  finish_process alloc_start alloc_size sz from_back pool words sm t.
End Initialize.

(** ** Where the regions are *)

Import MemoryState.

(** The region a kind of memory belongs in; two kinds have none. *)
Definition region_of_state (t : KPageTableBase) (state : Svc) : outcome region :=
  let rg := m_regions t in
  match state with
  | Free | Kernel => mret (m_address_space_start t, m_address_space_end t)
  | Normal => mret (m_heap_region rg)
  | Ipc | NonSecureIpc | NonDeviceIpc => mret (m_alias_region rg)
  | Stack => mret (m_stack_region rg)
  | Static | ThreadLocal => mret (m_kernel_map_region rg)
  | Io | Shared | AliasCode | AliasCodeData | Transferred | SharedTransferred | SharedCode | GeneratedCode | CodeOut | Coverage | Insecure =>
      mret (m_alias_code_region rg)
  | Code | CodeData => mret (m_code_region rg)
  | Alias | Inaccessible => Undef
  end.
Definition GetRegionAddress (t : KPageTableBase) (state : Svc) : outcome Z := r ← region_of_state t state; mret (fst r).
Definition GetRegionSize (t : KPageTableBase) (state : Svc) : outcome Z := r ← region_of_state t state; mret (u64 (snd r - fst r)).

(** [!(end <= start || region_end <= addr || start == region_end)]. *)
Definition touches (addr end_ : Z) (r : region) : bool := negb ((end_ <=? fst r) || (snd r <=? addr) || (fst r =? snd r)).

Definition CanContain (t : KPageTableBase) (addr size : Z) (state : Svc) : outcome bool :=
  let end_ := u64 (addr + size) in
  let last := u64 (end_ - 1) in
  region_start ← GetRegionAddress t state;
  region_size ← GetRegionSize t state;
  let is_in_region := (region_start <=? addr) && (addr <? end_) && (last <=? u64 (u64 (region_start + region_size) - 1)) in
  let is_in_heap := touches addr end_ (m_heap_region (m_regions t)) in
  let is_in_alias := touches addr end_ (m_alias_region (m_regions t)) in
  match state with
  | Free | Kernel => mret is_in_region
  | Io | Static | Code | CodeData | Shared | AliasCode | AliasCodeData | Stack | ThreadLocal | Transferred | SharedTransferred | SharedCode
  | GeneratedCode | CodeOut | Coverage | Insecure => mret (is_in_region && negb is_in_heap && negb is_in_alias)
  | Normal => ASSERT is_in_heap;; mret (is_in_region && negb is_in_alias)
  | Ipc | NonSecureIpc | NonDeviceIpc => ASSERT is_in_alias;; mret (is_in_region && negb is_in_heap)
  | Alias | Inaccessible => mret false
  end.

Definition Contains (t : KPageTableBase) (addr : Z) : bool := (m_address_space_start t <=? addr) && (addr <=? u64 (m_address_space_end t - 1)).
Definition ContainsRange (t : KPageTableBase) (addr size : Z) : bool :=
  (m_address_space_start t <=? addr) && (addr <? u64 (addr + size)) && (u64 (addr + size - 1) <=? u64 (m_address_space_end t - 1)).
Definition IsInAliasRegion (t : KPageTableBase) (addr size : Z) : bool :=
  ContainsRange t addr size && (fst (m_alias_region (m_regions t)) <=? addr) && (u64 (addr + size - 1) <=? u64 (snd (m_alias_region (m_regions t)) - 1)).
Definition IsInHeapRegion (t : KPageTableBase) (addr size : Z) : bool :=
  ContainsRange t addr size && (fst (m_heap_region (m_regions t)) <=? addr) && (u64 (addr + size - 1) <=? u64 (snd (m_heap_region (m_regions t)) - 1)).
Definition IsInUnsafeAliasRegion (t : KPageTableBase) (addr size : Z) : outcome bool := CanContain t addr size AliasCode.
Definition ContainsPages (t : KPageTableBase) (addr num_pages : Z) : bool :=
  (m_address_space_start t <=? addr) && (num_pages <=? u64 (m_address_space_end t - m_address_space_start t) / PageSize) &&
  (u64 (addr + u64 (num_pages * PageSize) - 1) <=? u64 (m_address_space_end t - 1)).
Definition GetNumGuardPages (t : KPageTableBase) : Z := if m_is_kernel t then 1 else 4.
Definition GetNormalMemorySize (t : KPageTableBase) : Z :=
  u64 (u64 (m_current_heap_end t - fst (m_heap_region (m_regions t))) + m_mapped_physical_memory_size t).
Definition SetMaxHeapSize (t : KPageTableBase) (size : Z) : outcome (Z * KPageTableBase) :=
  ASSERT (negb (m_is_kernel t));;
  mret (ResultSuccess,
    mkTable (m_address_space_start t) (m_address_space_end t) (m_regions t) (m_current_heap_end t) size (m_mapped_physical_memory_size t)
      (m_mapped_unsafe_physical_memory t) (m_mapped_insecure_memory t) (m_mapped_ipc_server_memory t) (m_alias_region_extra_size t) (m_memory_block_manager t)
      (m_allocate_option t) (m_address_space_width t) (m_is_kernel t) (m_enable_aslr t) (m_enable_device_address_space_merge t) (m_allowed_exec_device_mapping t)).

(** ** Placing regions *)

Definition region_len (r : region) : Z := snd r - fst r.
Definition disjoint (r1 r2 : region) : Prop := snd r1 <= fst r2 \/ snd r2 <= fst r1.
Definition within (lo hi : Z) (r : region) : Prop := lo <= fst r <= snd r /\ snd r <= hi.
Definition aligned (r : region) : Prop := (RegionAlignment | fst r) /\ (RegionAlignment | snd r).

(** An offset a draw can have. *)
Definition offset_ok (remaining rnd : Z) : Prop := 0 <= rnd <= remaining /\ (RegionAlignment | rnd).

Lemma shift_small d a b : 0 <= d -> 0 <= a -> 0 <= b -> a + d < 2 ^ 64 -> b + d < 2 ^ 64 -> shift d (a, b) = (a + d, b + d).
Proof. intros. unfold shift. cbn [fst snd]. by rewrite !u64_small by lia. Qed.

(** What setting up the regions must give, in the space from [lo] to [hi]. *)
Record placed (lo hi : Z) (sz : Sizes) (rg : Regions) : Prop := {
  pl_heap : within lo hi (m_heap_region rg) /\ aligned (m_heap_region rg) /\ region_len (m_heap_region rg) = heap_size sz;
  pl_alias : within lo hi (m_alias_region rg) /\ aligned (m_alias_region rg) /\ region_len (m_alias_region rg) = alias_size sz;
  pl_heap_alias : disjoint (m_heap_region rg) (m_alias_region rg)
}.
Record placed4 (lo hi : Z) (sz : Sizes) (rg : Regions) : Prop := {
  pl_two : placed lo hi sz rg;
  pl_stack : within lo hi (m_stack_region rg) /\ aligned (m_stack_region rg) /\ region_len (m_stack_region rg) = stack_size sz;
  pl_kmap : within lo hi (m_kernel_map_region rg) /\ aligned (m_kernel_map_region rg) /\ region_len (m_kernel_map_region rg) = kernel_map_size sz;
  pl_disjoint : disjoint (m_heap_region rg) (m_stack_region rg) /\ disjoint (m_heap_region rg) (m_kernel_map_region rg) /\
    disjoint (m_alias_region rg) (m_stack_region rg) /\ disjoint (m_alias_region rg) (m_kernel_map_region rg) /\
    disjoint (m_stack_region rg) (m_kernel_map_region rg)
}.

Ltac shifts := repeat first [rewrite u64_small by lia | rewrite shift_small by lia].
Ltac place_tac := unfold within, disjoint, aligned, region_len; cbn [fst snd alias_size heap_size stack_size kernel_map_size]; repeat match goal with |- _ /\ _ => split end; repeat (apply Z.divide_add_r); try assumption; lia.

Section Place.
Context (alloc_start remaining alias_size_ heap_size_ stack_size_ kmap_size_ alias_rnd heap_rnd stack_rnd kmap_rnd : Z) (rg : Regions).
Context (Ha : offset_ok remaining alias_rnd) (Hh : offset_ok remaining heap_rnd) (Hs : offset_ok remaining stack_rnd) (Hk : offset_ok remaining kmap_rnd).
Context (Hstart : 0 <= alloc_start /\ (RegionAlignment | alloc_start)).
Context (Hsz : (RegionAlignment | alias_size_) /\ (RegionAlignment | heap_size_) /\ (RegionAlignment | stack_size_) /\ (RegionAlignment | kmap_size_)).
Context (Hpos : 0 <= alias_size_ /\ 0 < heap_size_).
Let sz := mkSizes alias_size_ heap_size_ stack_size_ kmap_size_.
Context (Hfit : alloc_start + remaining + alias_size_ + heap_size_ + stack_size_ + kmap_size_ < 2 ^ 64).

Lemma setup_regions_two : stack_size_ = 0 -> kmap_size_ = 0 ->
  placed alloc_start (alloc_start + remaining + alias_size_ + heap_size_) sz (setup_regions alloc_start sz alias_rnd heap_rnd stack_rnd kmap_rnd rg) /\
  m_stack_region (setup_regions alloc_start sz alias_rnd heap_rnd stack_rnd kmap_rnd rg) = m_stack_region rg /\
  m_kernel_map_region (setup_regions alloc_start sz alias_rnd heap_rnd stack_rnd kmap_rnd rg) = m_kernel_map_region rg.
Proof.
  intros E1 E2. unfold setup_regions, sz in *. cbn [alias_size heap_size stack_size kernel_map_size]. rewrite E1, E2. cbn [Z.eqb negb].
  destruct Ha as [Ha1 Ha2], Hh as [Hh1 Hh2], Hsz as (S1 & S2 & S3 & S4), Hstart as [T1 T2]. rewrite E1, E2 in Hfit.
  destruct (Z.leb_spec alias_rnd heap_rnd); shifts; (split; [split; cbn [m_heap_region m_alias_region]; place_tac|done]).
Qed.

Lemma setup_regions_four : 0 < stack_size_ -> 0 < kmap_size_ ->
  placed4 alloc_start (alloc_start + remaining + alias_size_ + heap_size_ + stack_size_ + kmap_size_) sz
    (setup_regions alloc_start sz alias_rnd heap_rnd stack_rnd kmap_rnd rg).
Proof.
  intros E1 E2. unfold setup_regions, sz in *. cbn [alias_size heap_size stack_size kernel_map_size].
  rewrite (proj2 (Z.eqb_neq stack_size_ 0)), (proj2 (Z.eqb_neq kmap_size_ 0)) by lia. cbn [negb].
  destruct Ha as [Ha1 Ha2], Hh as [Hh1 Hh2], Hs as [Hs1 Hs2], Hk as [Hk1 Hk2], Hsz as (S1 & S2 & S3 & S4), Hstart as [T1 T2].
  destruct (Z.leb_spec alias_rnd heap_rnd), (Z.ltb_spec alias_rnd stack_rnd), (Z.ltb_spec heap_rnd stack_rnd); try lia;
    (destruct (Z.ltb_spec alias_rnd kmap_rnd), (Z.ltb_spec heap_rnd kmap_rnd), (Z.ltb_spec stack_rnd kmap_rnd); try lia);
    shifts; (split; [split| | |]); cbn [m_heap_region m_alias_region m_stack_region m_kernel_map_region alias_size heap_size stack_size kernel_map_size]; place_tac.
Qed.
End Place.

Lemma apart_ok r1 r2 : disjoint r1 r2 -> 0 <= fst r1 <= snd r1 -> 0 <= fst r2 <= snd r2 -> 0 < snd r1 < 2 ^ 64 -> 0 < snd r2 < 2 ^ 64 -> apart r1 r2 = true.
Proof.
  intros H H1 H2 B1 B2. unfold apart. rewrite !u64_small by lia. apply orb_true_iff. rewrite !Z.ltb_lt. destruct H; [left|right]; lia.
Qed.

Lemma check_regions_ok end_ rg : 0 < end_ < 2 ^ 64 ->
  (forall r, r ∈ [m_alias_region rg; m_heap_region rg; m_stack_region rg; m_kernel_map_region rg] -> 0 < snd r /\ within 0 end_ r) ->
  disjoint (m_alias_region rg) (m_heap_region rg) -> disjoint (m_alias_region rg) (m_stack_region rg) -> disjoint (m_alias_region rg) (m_kernel_map_region rg) ->
  disjoint (m_heap_region rg) (m_stack_region rg) -> disjoint (m_heap_region rg) (m_kernel_map_region rg) -> check_regions 0 end_ rg = mret tt.
Proof.
  intros He Hin D1 D2 D3 D4 D5. unfold check_regions.
  destruct (Hin (m_alias_region rg)) as (? & [? ?] & ?); [apply list_elem_of_In; simpl; tauto|].
  destruct (Hin (m_heap_region rg)) as (? & [? ?] & ?); [apply list_elem_of_In; simpl; tauto|].
  destruct (Hin (m_stack_region rg)) as (? & [? ?] & ?); [apply list_elem_of_In; simpl; tauto|].
  destruct (Hin (m_kernel_map_region rg)) as (? & [? ?] & ?); [apply list_elem_of_In; simpl; tauto|].
  rewrite !bind_assert_true by (first [apply andb_true_iff; rewrite !Z.leb_le; lia | apply apart_ok; (assumption || lia)]).
  unfold ASSERT, mret, outcome_mret. f_equal. apply apart_ok; (assumption || lia).
Qed.

(** A draw from a range of less than [2 ^ 63] numbers uses one 32-bit word. *)
Lemma draw_word hi w words : 0 <= hi < 2 ^ 63 -> in_u 32 w -> GenerateRandomRange 0 hi (w :: words) = mret (w mod (hi + 1), words).
Proof.
  intros Hh Hw. destruct (GenerateRandomRange_val 0 hi (w :: words)) as (emax & He & _ & ->); [lia|unfold u64_max; lia|]. unfold in_u in Hw.
  cbn [uniform_loop]. rewrite (proj2 (Z.ltb_lt w emax)) by lia. replace (hi + 1 - 0) with (hi + 1) by lia. rewrite Z.add_0_l.
  pose proof (Z.mod_pos_bound w (hi + 1) ltac:(lia)). by rewrite u64_small by lia.
Qed.

(** Every offset a draw can answer is a multiple of the alignment. *)
Lemma random_offset_ok remaining w words : 0 <= remaining < 2 ^ 50 -> in_u 32 w ->
  exists rnd, random_offset remaining (w :: words) = mret (rnd, words) /\ offset_ok remaining rnd.
Proof.
  intros Hr Hw. unfold random_offset. set (hi := remaining / RegionAlignment).
  assert (0 <= hi * RegionAlignment <= remaining) as Hhi.
  { unfold hi. pose proof (Z.mul_div_le remaining RegionAlignment ltac:(by vm_compute)). pose proof (Z.div_pos remaining RegionAlignment ltac:(lia) ltac:(by vm_compute)).
    split; [apply Z.mul_nonneg_nonneg; [done|by vm_compute]|lia]. }
  assert (0 <= hi < 2 ^ 50) as Hb by (change RegionAlignment with 2097152 in Hhi; lia). rewrite draw_word, bind_ret by (done || lia). cbn [fst snd].
  pose proof (Z.mod_pos_bound w (hi + 1) ltac:(lia)) as Hm.
  assert (0 <= w mod (hi + 1) * RegionAlignment <= remaining) as Hx by (change RegionAlignment with 2097152 in *; lia).
  rewrite u64_small by lia. eexists. split; [done|]. split; [done|]. by exists (w mod (hi + 1)).
Qed.

Lemma random_offsets_ok remaining words : 0 <= remaining < 2 ^ 50 -> Forall (in_u 32) words -> (4 <= length words)%nat ->
  exists a h s k, (a' ← random_offset remaining words; h' ← random_offset remaining (snd a'); s' ← random_offset remaining (snd h');
      k' ← random_offset remaining (snd s'); mret (fst a', fst h', fst s', fst k', snd k')) = mret (a, h, s, k, drop 4 words) /\
    offset_ok remaining a /\ offset_ok remaining h /\ offset_ok remaining s /\ offset_ok remaining k.
Proof.
  intros Hr Hw Hl. destruct words as [|w1 [|w2 [|w3 [|w4 words]]]]; simpl in Hl; try lia. rewrite !list.Forall_cons in Hw. destruct Hw as (W1 & W2 & W3 & W4 & _).
  destruct (random_offset_ok remaining w1 (w2 :: w3 :: w4 :: words) Hr W1) as (a & -> & Ha). rewrite bind_ret. cbn [fst snd].
  destruct (random_offset_ok remaining w2 (w3 :: w4 :: words) Hr W2) as (h & -> & Hh). rewrite bind_ret. cbn [fst snd].
  destruct (random_offset_ok remaining w3 (w4 :: words) Hr W3) as (s & -> & Hs). rewrite bind_ret. cbn [fst snd].
  destruct (random_offset_ok remaining w4 words Hr W4) as (k & -> & Hk). rewrite bind_ret. cbn [fst snd]. by exists a, h, s, k.
Qed.

(** ** What a new process gets *)

Inductive AddressSpaceKind := Space32 | Space36 | Space32WithoutAlias | Space39.

#[export] Instance AddressSpaceKind_eq_dec : EqDecision AddressSpaceKind.
Proof. solve_decision. Defined.

Definition kind_value (k : AddressSpaceKind) : Z := match k with Space32 => 0 | Space36 => 2 | Space32WithoutAlias => 4 | Space39 => 6 end.
Definition kind_width (k : AddressSpaceKind) : Z := match k with Space36 => 36 | Space39 => 39 | _ => 32 end.
Definition has_extra (k : AddressSpaceKind) (as_type : Z) : bool := match k with Space39 => Z.testbit as_type 13 | _ => false end.
Definition kind_sizes (k : AddressSpaceKind) (extra : bool) : Sizes :=
  match k with
  | Space32 => mkSizes (GiB 1) (GiB 1) 0 0
  | Space32WithoutAlias => mkSizes 0 (GiB 2) 0 0
  | Space36 => mkSizes (GiB 6) (GiB 8) 0 0
  | Space39 => mkSizes (if extra then GiB 128 else GiB 64) (GiB 8) (GiB 2) (GiB 64)
  end.
Definition total (sz : Sizes) : Z := alias_size sz + heap_size sz + stack_size sz + kernel_map_size sz.

(** The part of the address space the code of the process takes, and the larger of the two parts beside it. *)
Definition small_code (k : AddressSpaceKind) : region := match k with Space36 => (MiB 128, GiB 2) | _ => (MiB 2, GiB 1) end.
Definition process_code (k : AddressSpaceKind) (code_address code_size : Z) : region :=
  match k with
  | Space39 => (code_address / RegionAlignment * RegionAlignment, (code_address + code_size + RegionAlignment - 1) / RegionAlignment * RegionAlignment)
  | _ => small_code k
  end.
Definition room (k : AddressSpaceKind) (code_address code_size aslr : Z) : region :=
  let pc := process_code k code_address code_size in
  match k with
  | Space39 => if 2 ^ 39 - snd pc <=? fst pc - (MiB 128 + aslr) then (MiB 128 + aslr, fst pc) else (snd pc, 2 ^ 39)
  | _ => (snd pc, 2 ^ kind_width k)
  end.

Record space_ok (k : AddressSpaceKind) (as_type code_address code_size aslr : Z) (t : KPageTableBase) : Prop := {
  so_bounds : m_address_space_start t = 0 /\ m_address_space_end t = 2 ^ kind_width k /\ m_address_space_width t = kind_width k;
  so_placed :
    let rm := room k code_address code_size aslr in let sz := kind_sizes k (has_extra k as_type) in
    match k with
    | Space39 => placed4 (fst rm) (snd rm) sz (m_regions t)
    | _ => placed (fst rm) (snd rm) sz (m_regions t) /\ m_stack_region (m_regions t) = small_code k /\ m_kernel_map_region (m_regions t) = small_code k
    end;
  so_code : disjoint (m_heap_region (m_regions t)) (process_code k code_address code_size) /\ disjoint (m_alias_region (m_regions t)) (process_code k code_address code_size) /\
    (k = Space39 -> disjoint (m_stack_region (m_regions t)) (process_code k code_address code_size) /\ disjoint (m_kernel_map_region (m_regions t)) (process_code k code_address code_size));
  so_heap : m_current_heap_end t = fst (m_heap_region (m_regions t)) /\ m_is_kernel t = false
}.

(** Looking up the table. *)
Ltac spaces :=
  repeat match goal with
  | |- context [GetAddressSpaceSize ?w ?ty] =>
      let v := eval vm_compute in (GetAddressSpaceSize w ty) in
      lazymatch v with Done true ?n => change (GetAddressSpaceSize w ty) with (mret (M := outcome) n) end
  | |- context [GetAddressSpaceStart ?w ?ty] =>
      let v := eval vm_compute in (GetAddressSpaceStart w ty) in
      lazymatch v with Done true ?n => change (GetAddressSpaceStart w ty) with (mret (M := outcome) n) end
  end.

Section NewProcess.
Context {S : Type} `{!BlockSlab S}.
Context (as_type : Z) (enable_aslr enable_das_merge from_back : bool) (pool code_address code_size aslr : Z) (words : list Z) (sm : S) (t : KPageTableBase).
Context (Ht : m_address_space_start t = 0 /\ m_memory_block_manager t = KMemoryBlockManager_new).
Context (Hwords : enable_aslr = true -> Forall (in_u 32) words /\ (4 <= length words)%nat).
Context (Hfresh : forall b sm', slab_Allocate sm = (Some b, sm') -> m_ipc_disable_merge_count b = 0).

Definition rest_words : list Z := if enable_aslr then drop 4 words else words.

(** The answer of the initialisation, when there is room enough. *)
Definition answer_ok (k : AddressSpaceKind) (o : outcome (Z * KPageTableBase * S * list Z)) : Prop :=
  match slab_Allocate sm with
  | (None, sm') => exists t', o = Done true (ResultOutOfResource, t', sm', rest_words) /\ space_ok k as_type code_address code_size aslr t'
  | (Some _, sm') => exists t', o = Done true (ResultSuccess, t', sm', rest_words) /\ space_ok k as_type code_address code_size aslr t' /\
      manager_ok (m_memory_block_manager t') /\
      forall a, page_props (m_memory_block_tree (m_memory_block_manager t')) a =
        if (0 <=? a) && (a <? 2 ^ kind_width k) then Some (mkProps (state_value KFree) 0 0 0 0 0) else None
  end.

(** The random numbers, drawn or zero. *)
Lemma offsets_ok remaining : 0 <= remaining < 2 ^ 50 ->
  exists a h s k, (if enable_aslr then
      a' ← random_offset remaining words; h' ← random_offset remaining (snd a'); s' ← random_offset remaining (snd h');
      k' ← random_offset remaining (snd s'); mret (fst a', fst h', fst s', fst k', snd k') else mret (0, 0, 0, 0, words)) = mret (a, h, s, k, rest_words) /\
    offset_ok remaining a /\ offset_ok remaining h /\ offset_ok remaining s /\ offset_ok remaining k.
Proof.
  intros Hr. unfold rest_words. destruct enable_aslr; [destruct (Hwords eq_refl); by apply random_offsets_ok|].
  assert (offset_ok remaining 0) by (split; [lia|by exists 0]). by exists 0, 0, 0, 0.
Qed.

(** The end of the initialisation, once the regions are checked. *)
Lemma process_finish_ok k t1 : 0 < 2 ^ kind_width k < 2 ^ 64 -> m_memory_block_manager t1 = KMemoryBlockManager_new -> space_ok k as_type code_address code_size aslr t1 ->
  answer_ok k (rms ← KMemoryBlockManager.Initialize (m_memory_block_manager t1) 0 (2 ^ kind_width k) sm; let '(r, m, sm) := rms in mret (r, with_blocks m t1, sm, rest_words)).
Proof.
  intros Hw -> Hs. assert (forall m, space_ok k as_type code_address code_size aslr (with_blocks m t1)) as Hsm by (intros m; destruct Hs; by split).
  assert ((PageSize | 2 ^ kind_width k)) as Hd by (destruct k; [by exists (2 ^ 20)|by exists (2 ^ 24)|by exists (2 ^ 20)|by exists (2 ^ 27)]).
  pose proof (memory_manager_initialize 0 (2 ^ kind_width k) sm ltac:(by exists 0) Hd ltac:(lia) ltac:(lia) Hfresh) as H.
  unfold answer_ok. destruct (slab_Allocate sm) as [[b|] sm'].
  - destruct H as (m & -> & Hm & _ & _ & _ & Hp). rewrite bind_Done_true. eexists. split; [done|]. split; [apply Hsm|]. by split.
  - rewrite H, bind_Done_true. eexists. split; [done|]. apply Hsm.
Qed.

Ltac closed_eqb :=
  repeat match goal with
  | |- context [?a =? ?b] => let v := eval vm_compute in (a =? b) in (lazymatch v with true => idtac | false => idtac end); change (a =? b) with v
  end.

Lemma width_ok k : as_type .& CreateProcessFlag.AddressSpaceMask = kind_value k -> GetAddressSpaceWidth as_type = mret (kind_width k).
Proof. intros E. unfold GetAddressSpaceWidth. rewrite E. by destruct k. Qed.

(** The part up to the table lookups, for every kind. *)
Lemma code_asserts w {B} (f : unit -> outcome B) : 0 <= code_address -> 0 < code_size -> code_address + code_size <= 2 ^ w -> 0 < 2 ^ w < 2 ^ 63 ->
  (ASSERT (0 <=? code_address);; ASSERT (code_address <? u64 (code_address + code_size));; ASSERT (u64 (code_address + code_size - 1) <=? u64 (2 ^ w - 1));; f tt) = f tt.
Proof. intros H1 H2 H3 H4. rewrite !u64_small by lia. rewrite !bind_assert_true; [done|apply Z.leb_le; lia|apply Z.ltb_lt; lia|apply Z.leb_le; lia]. Qed.

(** Placing the regions in a room that is large enough. *)
Lemma finish_process_ok k lo hi t1 : let sz := kind_sizes k (has_extra k as_type) in
  0 < lo -> (RegionAlignment | lo) -> total sz <= hi - lo -> hi <= 2 ^ kind_width k ->
  m_address_space_start t1 = 0 -> m_address_space_end t1 = 2 ^ kind_width k -> m_enable_aslr t1 = enable_aslr -> m_memory_block_manager t1 = KMemoryBlockManager_new ->
  m_address_space_width t1 = kind_width k -> m_is_kernel t1 = false -> room k code_address code_size aslr = (lo, hi) ->
  (disjoint (lo, hi) (process_code k code_address code_size)) ->
  match k with Space39 => True | _ => m_stack_region (m_regions t1) = small_code k /\ m_kernel_map_region (m_regions t1) = small_code k /\ snd (small_code k) <= lo end ->
  answer_ok k (finish_process lo (hi - lo) sz from_back pool words sm t1).
Proof.
  intros sz Hlo Hal Htot Hhi Est Een Easl Emb Ew Ek Hroom Hcode Hsmall.
  assert (0 < 2 ^ kind_width k < 2 ^ 50) as Hw by (destruct k; by vm_compute).
  assert (0 <= alias_size sz /\ 0 < heap_size sz /\ 0 <= stack_size sz /\ 0 <= kernel_map_size sz) as (Z1 & Z2 & Z3 & Z4)
    by (unfold sz; destruct k; [by vm_compute..|destruct (has_extra _ _); by vm_compute]).
  assert ((RegionAlignment | alias_size sz) /\ (RegionAlignment | heap_size sz) /\ (RegionAlignment | stack_size sz) /\ (RegionAlignment | kernel_map_size sz)) as Hdiv.
  { unfold sz, kind_sizes, RegionAlignment, MiB, GiB. destruct k; [| | |destruct (has_extra _ _)]; cbn [alias_size heap_size stack_size kernel_map_size]; split_and!;
      (by exists 0) || (by exists 512) || (by exists 1024) || (by exists 3072) || (by exists 4096) || (by exists 32768) || (by exists 65536). }
  unfold finish_process. unfold total in Htot. rewrite (u64_small (alias_size sz + _ + _ + _)) by lia. rewrite (proj2 (Z.leb_le _ _)) by lia. cbn [negb].
  set (remaining := hi - lo - (alias_size sz + heap_size sz + stack_size sz + kernel_map_size sz)). rewrite (u64_small remaining) by (unfold remaining; lia).
  rewrite Easl. destruct (offsets_ok remaining ltac:(unfold remaining; lia)) as (a & h & s & kk & -> & Ha & Hh & Hs & Hkk). rewrite bind_ret. cbv beta iota zeta.
  set (rg := setup_regions lo sz a h s kk (m_regions t1)). cbn [m_address_space_start m_address_space_end m_memory_block_manager]. rewrite Est, Een.
  assert (hi = lo + remaining + alias_size sz + heap_size sz + stack_size sz + kernel_map_size sz) as Ehi by (unfold remaining; lia).
  assert (placed lo hi sz rg /\ match k with Space39 => placed4 lo hi sz rg | _ => m_stack_region rg = small_code k /\ m_kernel_map_region rg = small_code k end) as [Hp Hp4].
  { destruct (decide (k = Space39)) as [->|Hne].
    - assert (placed4 lo hi sz rg) as H4; [|by split; [apply (pl_two _ _ _ _ H4)|]].
      rewrite Ehi. apply setup_regions_four; try done; try lia; (split; [lia|done]).
    - assert (stack_size sz = 0 /\ kernel_map_size sz = 0) as [E1 E2] by (unfold sz; by destruct k).
      destruct (setup_regions_two lo remaining (alias_size sz) (heap_size sz) (stack_size sz) (kernel_map_size sz) a h s kk (m_regions t1)) as (H2 & Es & Ekm); try done; try lia; [split; [lia|done]|].
      replace (mkSizes (alias_size sz) (heap_size sz) (stack_size sz) (kernel_map_size sz)) with sz in * by (unfold sz; by destruct (kind_sizes k (has_extra k as_type))). fold rg in H2, Es, Ekm.
      replace (lo + remaining + alias_size sz + heap_size sz) with hi in H2 by lia. split; [done|]. rewrite Es, Ekm. destruct k; try done; destruct Hsmall as (-> & -> & _); done. }
  pose proof (pl_heap _ _ _ _ Hp) as (Wh & _ & Lh). pose proof (pl_alias _ _ _ _ Hp) as (Wa & _ & La). pose proof (pl_heap_alias _ _ _ _ Hp) as Dha.
  unfold within, region_len, disjoint in *. cbn [fst snd] in *.
  rewrite check_regions_ok.
  2: lia.
  2: { assert (0 < snd (m_stack_region rg) /\ within 0 (2 ^ kind_width k) (m_stack_region rg) /\ 0 < snd (m_kernel_map_region rg) /\ within 0 (2 ^ kind_width k) (m_kernel_map_region rg)) as Hsk.
    { unfold within. destruct k; try (destruct Hp4 as [-> ->]; by vm_compute). destruct Hp4 as [_ (Ws & _ & Ls) (Wk & _ & Lk) _].
      unfold within, region_len in *. change (stack_size sz) with (GiB 2) in *. change (kernel_map_size sz) with (GiB 64) in *. unfold GiB in *. lia. }
    intros r Hr. apply list_elem_of_In in Hr. cbn [In] in Hr. destruct Hr as [<-|[<-|[<-|[<-|[]]]]]; [unfold within; lia|unfold within; lia|tauto|tauto]. }
  2-6: unfold disjoint; try lia.
  2-5: destruct k; [destruct Hp4 as [Es Ek1], Hsmall as (_ & _ & Hsmall); rewrite ?Es, ?Ek1; lia..|destruct Hp4 as [_ _ _ (D1 & D2 & D3 & D4 & _)]; unfold disjoint in *; lia].
  rewrite bind_ret. match goal with |- context [mkTable ?a ?b rg ?c ?d ?e ?f ?g ?h ?i ?j ?k ?l ?m ?n ?o ?p] => set (t2 := mkTable a b rg c d e f g h i j k l m n o p) end.
  change (m_memory_block_manager t1) with (m_memory_block_manager t2). apply process_finish_ok; [lia|done|]. split; cbn [m_regions t2 m_current_heap_end m_is_kernel m_address_space_start m_address_space_end m_address_space_width]; try done.
  - rewrite Hroom. cbn [fst snd]. fold sz. by destruct k.
  - unfold disjoint. split; [lia|]. split; [lia|]. intros ->. destruct Hp4 as [_ (Ws & _) (Wk & _) _]. unfold within in *. lia.
Qed.

(** The small address spaces always have room enough. *)
Lemma small_ok k : k <> Space39 -> as_type .& CreateProcessFlag.AddressSpaceMask = kind_value k ->
  0 <= code_address -> 0 < code_size -> code_address + code_size <= 2 ^ kind_width k ->
  answer_ok k (InitializeForProcess as_type enable_aslr enable_das_merge from_back pool code_address code_size aslr words sm t).
Proof.
  intros Hk E H1 H2 H3. unfold InitializeForProcess. rewrite (width_ok k E), E, !bind_ret. cbv zeta.
  assert (0 < 2 ^ kind_width k < 2 ^ 63) as Hw by (destruct k; by vm_compute).
  assert (shl64 1 (kind_width k) = mret (2 ^ kind_width k)) as -> by (by destruct k). rewrite bind_ret.
  rewrite (code_asserts (kind_width k) (fun _ => _)) by done. rewrite bind_ret. destruct Ht as [-> Hmb].
  destruct k; try done; cbn [kind_width kind_value]; spaces; rewrite !bind_ret; closed_eqb; cbv iota; spaces; rewrite !bind_ret; cbv iota beta; cbn [fst snd m_code_region andb].
  - refine (finish_process_ok Space32 (GiB 1) (2 ^ 32) _ _ _ _ _ _ _ _ _ _ _ _ _ _); try done; first [by vm_compute | by exists 512 | by right].
  - refine (finish_process_ok Space36 (GiB 2) (2 ^ 36) _ _ _ _ _ _ _ _ _ _ _ _ _ _); try done; first [by vm_compute | by exists 1024 | by right].
  - refine (finish_process_ok Space32WithoutAlias (GiB 1) (2 ^ 32) _ _ _ _ _ _ _ _ _ _ _ _ _ _); try done; first [by vm_compute | by exists 512 | by right].
Qed.

Lemma extra_bit : (as_type .& CreateProcessFlag.EnableAliasRegionExtraSize =? 0) = negb (Z.testbit as_type 13).
Proof.
  change CreateProcessFlag.EnableAliasRegionExtraSize with (1 .<< 13). destruct (Z.testbit as_type 13) eqn:Eb; cbn [negb].
  - apply Z.eqb_neq. intros E0. assert (Z.testbit (as_type .& (1 .<< 13)) 13 = true) as Hb by (by rewrite Z.land_spec, Eb, testbit_pow2 by lia). by rewrite E0, Z.bits_0 in Hb.
  - apply Z.eqb_eq, zero_of_bits. intros i Hi. rewrite Z.land_spec, testbit_pow2 by lia. destruct (Z.eqb_spec i 13) as [->|]; [by rewrite Eb|apply andb_false_r].
Qed.

(** In the large one the code may leave too little on both sides. *)
Lemma large_ok : as_type .& CreateProcessFlag.AddressSpaceMask = kind_value Space39 ->
  0 <= aslr -> (RegionAlignment | aslr) -> MiB 128 + aslr <= code_address -> 0 < code_size -> code_address + code_size <= 2 ^ 39 ->
  let rm := room Space39 code_address code_size aslr in let sz := kind_sizes Space39 (has_extra Space39 as_type) in
  let o := InitializeForProcess as_type enable_aslr enable_das_merge from_back pool code_address code_size aslr words sm t in
  if total sz <=? snd rm - fst rm then answer_ok Space39 o else exists t', o = Done true (ResultOutOfMemory, t', sm, words).
Proof.
  intros E Ha1 Ha2 H1 H2 H3 rm sz o. unfold o, InitializeForProcess. rewrite (width_ok Space39 E), E, !bind_ret. cbv zeta. cbn [kind_width kind_value].
  change (shl64 1 39) with (mret (M := outcome) (2 ^ 39)). rewrite bind_ret. unfold MiB in H1.
  rewrite (code_asserts 39 (fun _ => _)) by (done || lia). rewrite bind_ret. destruct Ht as [Hst Hmb]. rewrite Hst.
  spaces; rewrite !bind_ret; closed_eqb; cbv iota; spaces; rewrite !bind_ret; cbv iota beta; cbn [fst snd m_code_region alias_size heap_size stack_size kernel_map_size].
  change (negb (68719476736 =? 0)) with true. rewrite extra_bit, negb_involutive, andb_true_r. cbn [andb]. change (u64 (2 ^ 39 - 0) .>> 3) with (GiB 64).
  rewrite Z.add_0_l. rewrite (u64_small aslr), (u64_small (aslr + _)) by lia.
  assert (AlignDown 64 code_address RegionAlignment = fst (process_code Space39 code_address code_size)) as ->.
  { rewrite AlignDown_eq; [|by vm_compute|unfold in_u; lia]. cbn [process_code fst]. pose proof (Z.div_mod code_address RegionAlignment ltac:(by vm_compute)). lia. }
  assert (AlignUp 64 (u64 (code_address + code_size)) RegionAlignment = snd (process_code Space39 code_address code_size)) as ->.
  { rewrite u64_small by lia. rewrite AlignUp_eq; [done|by vm_compute|lia|unfold in_u; lia|change RegionAlignment with 2097152; lia]. }
  set (pc := process_code Space39 code_address code_size). assert (134217728 + aslr <= fst pc <= code_address /\ code_address + code_size <= snd pc <= 2 ^ 39) as [Hpc1 Hpc2].
  { unfold pc. cbn [process_code fst snd]. change RegionAlignment with 2097152 in *. destruct Ha2 as [q Hq].
    pose proof (Z.div_le_lower_bound code_address 2097152 (64 + q) ltac:(lia) ltac:(lia)). pose proof (Z.mul_div_le code_address 2097152 ltac:(lia)).
    pose proof (Z.div_lt_upper_bound (code_address + code_size + 2097152 - 1) 2097152 (2 ^ 18 + 1) ltac:(lia) ltac:(lia)).
    pose proof (Z.div_mod (code_address + code_size + 2097152 - 1) 2097152 ltac:(lia)). pose proof (Z.mod_pos_bound (code_address + code_size + 2097152 - 1) 2097152 ltac:(lia)). lia. }
  rewrite (Z.add_comm aslr 134217728). rewrite !(u64_small (fst pc - _)), !(u64_small (2 ^ 39 - _)) by lia.
  assert (rm = if 2 ^ 39 - snd pc <=? fst pc - (134217728 + aslr) then (134217728 + aslr, fst pc) else (snd pc, 2 ^ 39)) as Erm by done.
  assert ((RegionAlignment | fst pc) /\ (RegionAlignment | snd pc)) as [Dpc1 Dpc2].
  { unfold pc. cbn [process_code fst snd]. split; eexists; reflexivity. }
  assert ((if Z.testbit as_type 13 then mkSizes (u64 (68719476736 + GiB 64)) 8589934592 2147483648 68719476736 else mkSizes 68719476736 8589934592 2147483648 68719476736) = sz) as ->
    by (unfold sz; cbn [has_extra kind_sizes]; by destruct (Z.testbit as_type 13)).
  match goal with |- context [finish_process _ _ _ _ _ _ _ ?x] => set (t1 := x) end.
  assert ((let '(alloc_start, alloc_size) := if 2 ^ 39 - snd pc <=? fst pc - (134217728 + aslr) then (134217728 + aslr, fst pc - (134217728 + aslr)) else (snd pc, 2 ^ 39 - snd pc) in
    finish_process alloc_start alloc_size sz from_back pool words sm t1) = finish_process (fst rm) (snd rm - fst rm) sz from_back pool words sm t1) as ->
    by (rewrite Erm; by destruct (_ <=? _)).
  destruct (Z.leb_spec (total sz) (snd rm - fst rm)) as [Hfit|Hfit].
  - apply finish_process_ok; try done; [| | | |].
    + rewrite Erm. destruct (_ <=? _); cbn [fst]; lia.
    + rewrite Erm. destruct (_ <=? _); cbn [fst]; [|done]. apply Z.divide_add_r; [by exists 64|done].
    + rewrite Erm. destruct (_ <=? _); cbn [snd kind_width]; lia.
    + fold rm. by destruct rm.
    + fold pc. rewrite Erm. unfold disjoint. destruct (_ <=? _); cbn [fst snd]; [left|right]; lia.
  - exists t1. unfold finish_process. assert (0 <= total sz < 2 ^ 64) by (unfold sz; cbn [has_extra]; destruct (Z.testbit as_type 13); by vm_compute).
    fold (total sz). rewrite u64_small by done. by rewrite (proj2 (Z.leb_gt _ _)) by lia.
Qed.
End NewProcess.

(** ** What an address space accepts *)

Definition region_wf (r : region) : Prop := 0 <= fst r <= snd r /\ 0 < snd r < 2 ^ 64.
Definition meets (addr size : Z) (r : region) : Prop := exists a, addr <= a < addr + size /\ fst r <= a < snd r.

Lemma touches_ok addr size r : region_wf r -> 0 <= addr -> 0 < size -> addr + size < 2 ^ 64 -> touches addr (addr + size) r = true <-> meets addr size r.
Proof.
  intros Hr H1 H2 H3. unfold region_wf, touches, meets in *. rewrite negb_true_iff, !orb_false_iff, !Z.leb_gt, Z.eqb_neq. split.
  - intros [[? ?] ?]. exists (Z.max addr (fst r)). lia.
  - intros (a & ? & ?). lia.
Qed.

Definition other_state (s : Svc) : Prop := match s with Free | Kernel | Normal | Ipc | NonSecureIpc | NonDeviceIpc => False | _ => True end.

Lemma in_region_ok addr size r : region_wf r -> 0 <= addr -> 0 < size -> addr + size < 2 ^ 64 ->
  (fst r <=? addr) && (addr <? u64 (addr + size)) && (u64 (u64 (addr + size) - 1) <=? u64 (u64 (fst r + u64 (snd r - fst r)) - 1)) = true <->
  fst r <= addr /\ addr + size <= snd r.
Proof.
  intros Hr H1 H2 H3. unfold region_wf in Hr. rewrite (u64_small (addr + size)), (u64_small (snd r - fst r)) by lia. replace (fst r + (snd r - fst r)) with (snd r) by lia.
  rewrite (u64_small (snd r)), !u64_small by lia. rewrite !andb_true_iff, !Z.leb_le, Z.ltb_lt. lia.
Qed.

(** ** The properties *)


(** The containment test.  It accepts a range for a kind of memory exactly when the range is inside the region of this kind and meets neither the heap nor
    the alias region, unless the kind belongs there; whatever it accepts also passes its assertion. *)
Theorem can_contain_range t addr size s r : region_of_state t s = Done true r ->
  region_wf r -> region_wf (m_heap_region (m_regions t)) -> region_wf (m_alias_region (m_regions t)) -> 0 <= addr -> 0 < size -> addr + size < 2 ^ 64 ->
  exists ok b, CanContain t addr size s = Done ok b /\ (b = true -> ok = true) /\
    (b = true <-> (fst r <= addr /\ addr + size <= snd r) /\
       (other_state s \/ s ∈ [Ipc; NonSecureIpc; NonDeviceIpc] -> ~ meets addr size (m_heap_region (m_regions t))) /\
       (other_state s \/ s = Normal -> ~ meets addr size (m_alias_region (m_regions t)))).
Proof.
  intros Er Hr Hh Ha H1 H2 H3. unfold CanContain, GetRegionAddress, GetRegionSize. rewrite Er, !bind_Done_true, !bind_ret.
  pose proof (in_region_ok addr size r Hr H1 H2 H3) as Hin. set (inr := (_ && _ && _)) in Hin |- *. clearbody inr.
  assert (u64 (addr + size) = addr + size) as -> by (apply u64_small; lia).
  pose proof (touches_ok addr size _ Hh H1 H2 H3) as Hth. pose proof (touches_ok addr size _ Ha H1 H2 H3) as Hta.
  assert (inr = true -> meets addr size r) as Hmeet by (intros [? ?]%Hin; exists addr; lia).
  set (bh := touches _ _ (m_heap_region _)) in *. set (ba := touches _ _ (m_alias_region _)) in *. clearbody bh ba.
  assert (forall b : bool, negb b = true <-> b <> true) as Hn by (by intros []).
  destruct s; cbn [region_of_state other_state] in *; try done.
  all: try (exists true, (inr && negb bh && negb ba); split; [done|]; split; [done|]; rewrite !andb_true_iff, !Hn, Hin, Hth, Hta; split; [intros [[? ?] ?]|intros (? & Hx & Hy)];
    split_and!; try done; try tauto).
  all: try (exists true, inr; split; [done|]; split; [done|]; rewrite Hin; split; [intros ?; split; [done|]; split; intros [?|Hl]; try done; by apply list_elem_of_In in Hl as [?|[?|[?|[]]]]|tauto]).
  all: try (injection Er as <-; exists (bh && true), (inr && negb ba); split; [done|]; rewrite andb_true_r, andb_true_iff, Hn, Hin, Hta; split; [intros [? _]; apply Hth, Hmeet; by apply Hin|]; split;
    [intros [? ?]; split; [done|]; split; [intros [?|Hl]; [done|by apply list_elem_of_In in Hl as [?|[?|[?|[]]]]]|intros _; assumption]|intros (? & _ & Hy); split; [done|]; apply Hy; by right]).
  all: injection Er as <-; exists (ba && true), (inr && negb bh); (split; [done|]); rewrite andb_true_r, andb_true_iff, Hn, Hin, Hth; (split; [intros [? _]; apply Hta, Hmeet; by apply Hin|]); split;
    [intros [? ?]; split; [done|]; split; [intros _; assumption|intros [?|?]; done]|intros (? & Hx & _); split; [done|]; apply Hx; right; apply list_elem_of_In; cbn; tauto].
Qed.

Definition demo_draws : list Z := [5; 7; 1000; 3].

Lemma demo_draws_ok : true = true -> Forall (in_u 32) demo_draws /\ (4 <= length demo_draws)%nat.
Proof. intros _. split; [|done]. repeat (apply Forall_cons_2; [unfold in_u; lia|]). apply Forall_nil_2. Qed.

Lemma demo_slab_fresh b sm' : slab_Allocate 5%nat = (Some b, sm') -> m_ipc_disable_merge_count b = 0.
Proof. intros E. vm_compute in E. injection E as <- _. reflexivity. Qed.


Lemma can_contain_range_witness : let t := mkTable 0 (2 ^ 36) (mkRegions (0x100000000, 0x200000000) (0x300000000, 0x400000000) (0x8000000, 0x80000000) (0x8000000, 0x80000000)
    (0x8000000, 0x1000000000) (0x8000000, 0x80000000)) 0 0 0 0 0 0 0 KMemoryBlockManager_new 0 36 false false false false in
  exists ok b, CanContain t 0x80000000 0x1000 Shared = Done ok b /\ (b = true -> ok = true).
Proof.
  intros t. destruct (can_contain_range t 0x80000000 0x1000 Shared (0x8000000, 0x1000000000)) as (ok & b & E & Hb & _);
    [reflexivity|unfold region_wf; cbn; lia|unfold region_wf; cbn; lia|unfold region_wf; cbn; lia|lia|lia|lia|]. exists ok, b. split; [exact E|exact Hb].
Defined.
