(* ===== verification/KPageTableCheck.v ===== *)
(** * KPageTableCheck: queries of an address space

    Models, of core/hle/kernel/k_page_table_base.h and .cpp, the members that look at the memory blocks of an address space before
    it is changed: [CheckMemoryState] in its forms, [CheckMemoryStateContiguous], [QueryInfo], [FindFreeArea] and the sizes.

    Every operation on the memory of a process first checks that the blocks of its range have the state, permission and attributes it can
    work on, and learns how many blocks splitting the range off will need.  The theorems say that the check accepts a range exactly when all its pages do, that the
    number it reports is the number of borders the range lacks, that the sizes count every page of a
    state once, and that the random search for a free area answers only places that are free. *)

From S2P Require Import Prelude Common BitField KPageHeap KMemoryRegion KMemoryBlock KMemoryBlockManager KPageTableSpace.
#[local] Open Scope Z_scope.

Definition DefaultMemoryIgnoreAttr : Z := MemoryAttribute.IpcLocked .| MemoryAttribute.DeviceShared.

(** ** Checking the state of memory *)

Section Check.
Context (state_mask state perm_mask perm attr_mask attr : Z).

Definition CheckMemoryState_info (info : KMemoryInfo) : Z :=
  if negb (i_state info .& state_mask =? state) then ResultInvalidCurrentMemory
  else if negb (i_permission info .& perm_mask =? perm) then ResultInvalidCurrentMemory
  else if negb (i_attribute info .& attr_mask =? attr) then ResultInvalidCurrentMemory
  else ResultSuccess.

(** The loops go through the blocks [rest] behind the current one; a step behind the last block leaves the tree.  They answer an error, or
    the last block they have seen. *)
Fixpoint contiguous_loop (last_addr : Z) (info : KMemoryInfo) (rest : list KMemoryBlock) : outcome (Z + KMemoryInfo) :=
  let r := CheckMemoryState_info info in
  if IsError r then mret (inl r)
  else if last_addr <=? Info_GetLastAddress info then mret (inr info)
  else match rest with [] => Undef | b :: rest' => contiguous_loop last_addr (GetMemoryInfo b) rest' end.

(** An error, or the number of blocks needed. *)
Definition CheckMemoryStateContiguous (t : list KMemoryBlock) (addr size : Z) : outcome (Z + Z) :=
  let last_addr := u64 (u64 (addr + size) - 1) in
  match drop (FindIterator t addr) t with
  | [] => Undef
  | b :: rest =>
      let info := GetMemoryInfo b in
      let blocks_for_start_align := if negb (AlignDown 64 addr PageSize =? Info_GetAddress info) then 1 else 0 in
      r ← contiguous_loop last_addr info rest;
      match r with
      | inl r => mret (inl r)
      | inr info =>
          let blocks_for_end_align := if negb (AlignUp 64 (u64 (addr + size)) PageSize =? Info_GetEndAddress info) then 1 else 0 in
          mret (inr (blocks_for_start_align + blocks_for_end_align))
      end
  end.

Context (ignore_attr : Z).

Fixpoint check_loop (last_addr : Z) (first info : KMemoryInfo) (rest : list KMemoryBlock) : outcome (Z + KMemoryInfo) :=
  if negb (i_state info =? i_state first) then mret (inl ResultInvalidCurrentMemory)
  else if negb (i_permission info =? i_permission first) then mret (inl ResultInvalidCurrentMemory)
  else if negb (i_attribute info .| ignore_attr =? i_attribute first .| ignore_attr) then mret (inl ResultInvalidCurrentMemory)
  else
    let r := CheckMemoryState_info info in
    if IsError r then mret (inl r)
    else if last_addr <=? Info_GetLastAddress info then mret (inr info)
    else match rest with [] => Undef | b :: rest' => check_loop last_addr first (GetMemoryInfo b) rest' end.

(** An error, or the state, the permission, the attributes and the number of blocks needed at the end. *)
Definition CheckMemoryState_it (it : list KMemoryBlock) (last_addr : Z) : outcome (Z + Z * Z * Z * Z) :=
  match it with
  | [] => Undef
  | b :: rest =>
      let first := GetMemoryInfo b in
      r ← check_loop last_addr first first rest;
      match r with
      | inl r => mret (inl r)
      | inr info =>
          let blocks_for_end_align := if negb (u64 (AlignDown 64 last_addr PageSize + PageSize) =? Info_GetEndAddress info) then 1 else 0 in
          mret (inr (i_state first, i_permission first, i_attribute first .& notu 8 ignore_attr, blocks_for_end_align))
      end
  end.

Definition CheckMemoryState (t : list KMemoryBlock) (addr size : Z) : outcome (Z + Z * Z * Z * Z) :=
  let last_addr := u64 (u64 (addr + size) - 1) in
  let it := drop (FindIterator t addr) t in
  r ← CheckMemoryState_it it last_addr;
  match r, it with
  | inr (st, pm, at_, blocks), b :: _ => mret (inr (st, pm, at_, if negb (AlignDown 64 addr PageSize =? GetAddress b) then blocks + 1 else blocks))
  | _, _ => mret r
  end.
End Check.

(** ** Queries *)

(** [out_page->flags] is always 0. *)
Definition QueryInfoImpl (t : KPageTableBase) (address : Z) : Z + KMemoryInfo :=
  match FindBlock (m_memory_block_tree (m_memory_block_manager t)) address with
  | None => inl ResultInvalidCurrentMemory
  | Some b => inr (GetMemoryInfo b)
  end.

Definition QueryInfo (t : KPageTableBase) (addr : Z) : Z + KMemoryInfo :=
  if negb (ContainsRange t addr 1) then
    inr (mkMemoryInfo (m_address_space_end t) (u64 (0 - m_address_space_end t)) (MemoryState.svc_value MemoryState.Inaccessible) 0 0 0 0 0
           MemoryPermission.None_ MemoryAttribute.None_ MemoryPermission.None_ DisableMerge.None_)
  else QueryInfoImpl t addr.

Fixpoint sum_sizes (state : Z) (rest : list KMemoryBlock) (total_size : Z) : Z :=
  match rest with
  | [] => total_size
  | b :: rest' => let info := GetMemoryInfo b in sum_sizes state rest' (if i_state info =? state then u64 (total_size + Info_GetSize info) else total_size)
  end.
Definition GetSize (t : KPageTableBase) (state : Z) : Z :=
  let tree := m_memory_block_tree (m_memory_block_manager t) in
  sum_sizes state (drop (FindIterator tree (m_address_space_start t)) tree) 0.

Definition GetCodeSize (t : KPageTableBase) : Z := GetSize t (MemoryState.state_value MemoryState.KCode).
Definition GetCodeDataSize (t : KPageTableBase) : Z := GetSize t (MemoryState.state_value MemoryState.KCodeData).
Definition GetAliasCodeSize (t : KPageTableBase) : Z := GetSize t (MemoryState.state_value MemoryState.KAliasCode).
Definition GetAliasCodeDataSize (t : KPageTableBase) : Z := GetSize t (MemoryState.state_value MemoryState.KAliasCodeData).

(** ** Finding a free area *)

Section FreeArea.
Context (t : KPageTableBase) (region_start region_num_pages num_pages alignment offset guard_pages : Z).

(** The first [n] of the eight tries; 0 when none of them found a place.  A query that fails leaves the information unset. *)
Fixpoint random_tries (n : nat) (words : list Z) : outcome (Z * list Z) :=
  match n with
  | 0%nat => mret (0, words)
  | S n' =>
      last ← udiv (u64 (u64 (u64 (region_num_pages - num_pages) - guard_pages) * PageSize)) alignment;
      rw ← GenerateRandomRange 0 last words;
      let '(rnd, words) := rw in
      let random_offset := u64 (rnd * alignment) in
      let candidate := u64 (AlignDown 64 (u64 (region_start + random_offset)) alignment + offset) in
      let after := u64 (u64 (candidate + u64 (u64 (num_pages + guard_pages) * PageSize)) - 1) in
      match QueryInfoImpl t candidate with
      | inl _ => Undef
      | inr info =>
          if negb (i_state info =? MemoryState.state_value MemoryState.KFree) then random_tries n' words
          else if negb (region_start <=? candidate) then random_tries n' words
          else if negb (u64 (Info_GetAddress info + u64 (guard_pages * PageSize)) <=? candidate) then random_tries n' words
          else if negb (after <=? Info_GetLastAddress info) then random_tries n' words
          else if negb (after <=? u64 (u64 (region_start + u64 (region_num_pages * PageSize)) - 1)) then random_tries n' words
          else mret (candidate, words)
      end
  end.

(** The words are the numbers the random generator answers. *)
Definition FindFreeArea (words : list Z) : outcome (Z * list Z) :=
  if num_pages <=? region_num_pages then
    '(address, words) ←
      (if m_enable_aslr t then
         '(address, words) ← random_tries 8 words;
         if address =? 0 then
           '(offset_pages, words) ← GenerateRandomRange 0 (u64 (u64 (region_num_pages - num_pages) - guard_pages)) words;
           address ← KMemoryBlockManager.FindFreeArea (m_memory_block_manager t) (u64 (region_start + u64 (offset_pages * PageSize)))
                       (u64 (region_num_pages - offset_pages)) num_pages alignment offset guard_pages;
           mret (address, words)
         else mret (address, words)
       else mret (0, words));
    if address =? 0 then
      address ← KMemoryBlockManager.FindFreeArea (m_memory_block_manager t) region_start region_num_pages num_pages alignment offset guard_pages;
      mret (address, words)
    else mret (address, words)
  else mret (0, words).
End FreeArea.

(** ** What the checks decide *)

(** Every address of a range has properties that satisfy [P]. *)
Definition all_pages (P : PageProps -> Prop) (t : list KMemoryBlock) (lo hi : Z) : Prop :=
  forall a, lo <= a < hi -> exists q, page_props t a = Some q /\ P q.

(** 1 for an address at which a block would have to be split. *)
Definition lacking (t : list KMemoryBlock) (a : Z) : Z := if border t a then 0 else 1.

Lemma page_props_block s d b r e a : chain s (d ++ b :: r) e -> m_address b <= a < block_end b -> page_props (d ++ b :: r) a = Some (props b).
Proof.
  intros Hc Ha. pose proof Hc as Hc'. apply chain_app in Hc' as (c & H1 & H2). rewrite (page_props_app _ _ _ _ _ a H1 H2). destruct H2 as (_ & <- & _).
  rewrite (proj2 (Z.ltb_ge a _)) by lia. cbn [page_props]. by rewrite (proj2 (covers_spec b a)).
Qed.

Lemma lacking_in s d b r e a : chain s (d ++ b :: r) e -> m_address b <= a <= block_end b ->
  lacking (d ++ b :: r) a = if (m_address b =? a) || (block_end b =? a) then 0 else 1.
Proof.
  intros Hc Ha. unfold lacking. destruct ((m_address b =? a) || (block_end b =? a)) eqn:E.
  - assert (border (d ++ b :: r) a = true) as ->; [|done]. apply existsb_exists. exists b. split; [apply in_or_app; right; by left|done].
  - apply orb_false_iff in E. rewrite !Z.eqb_neq in E. by rewrite (border_inside s d b r e) by (done || lia).
Qed.

Section CheckProofs.
Context (state_mask state perm_mask perm attr_mask attr ignore_attr : Z).

Definition masked (q : PageProps) : Prop := p_state q .& state_mask = state /\ p_permission q .& perm_mask = perm /\ p_attribute q .& attr_mask = attr.
Definition accepted (p q : PageProps) : Prop :=
  (p_state q = p_state p /\ p_permission q = p_permission p /\ p_attribute q .| ignore_attr = p_attribute p .| ignore_attr) /\ masked q.

#[export] Instance masked_dec q : Decision (masked q).
Proof. unfold masked. apply _. Defined.
#[export] Instance accepted_dec p q : Decision (accepted p q).
Proof. unfold accepted. apply _. Defined.

Lemma info_check b : CheckMemoryState_info state_mask state perm_mask perm attr_mask attr (GetMemoryInfo b) =
  if decide (masked (props b)) then ResultSuccess else ResultInvalidCurrentMemory.
Proof.
  unfold CheckMemoryState_info, masked. cbn.
  destruct (Z.eqb_spec (m_memory_state b .& state_mask) state); cbn [negb]; [|by rewrite decide_False by tauto].
  destruct (Z.eqb_spec (m_permission b .& perm_mask) perm); cbn [negb]; [|by rewrite decide_False by tauto].
  destruct (Z.eqb_spec (m_attribute b .& attr_mask) attr); cbn [negb]; [|by rewrite decide_False by tauto].
  by rewrite decide_True.
Qed.

(** What a loop over the blocks that meet a range answers, when it accepts the blocks with [P]. *)
Definition scanned (P : KMemoryBlock -> Prop) (last : Z) (l : list KMemoryBlock) (r : Z + KMemoryInfo) : Prop :=
  match r with
  | inr info => exists d c rest, l = d ++ c :: rest /\ m_address c <= last < block_end c /\ info = GetMemoryInfo c /\ Forall P (d ++ [c])
  | inl e => e = ResultInvalidCurrentMemory /\ exists d c rest, l = d ++ c :: rest /\ m_address c <= last /\ ~ P c
  end.

Lemma scanned_next P last b l r : P b -> scanned P last l r -> scanned P last (b :: l) r.
Proof.
  intros Hb. destruct r as [e|info].
  - intros (-> & d & c & rest & -> & H). split; [done|]. by exists (b :: d), c, rest.
  - intros (d & c & rest & -> & H1 & H2 & H3). exists (b :: d), c, rest. split; [done|]. split; [done|]. split; [done|]. cbn. by constructor.
Qed.

Lemma scanned_last P last b l : P b -> m_address b <= last < block_end b -> scanned P last (b :: l) (inr (GetMemoryInfo b)).
Proof. intros Hb Hl. exists [], b, l. split; [done|]. split; [done|]. split; [done|]. by apply Forall_singleton. Qed.

Lemma scanned_bad (P : KMemoryBlock -> Prop) last b l : ~ P b -> m_address b <= last -> scanned P last (b :: l) (inl ResultInvalidCurrentMemory).
Proof. intros Hb Hl. split; [done|]. by exists [], b, l. Qed.

Lemma last_info b : geom b -> Info_GetLastAddress (GetMemoryInfo b) = block_end b - 1.
Proof. intros Hg. by apply GetLastAddress_eq. Qed.

Lemma contiguous_loop_ok last rest : forall b s e, chain s (b :: rest) e -> m_address b <= last < e ->
  exists r, contiguous_loop state_mask state perm_mask perm attr_mask attr last (GetMemoryInfo b) rest = Done true r /\
    scanned (fun c => masked (props c)) last (b :: rest) r.
Proof.
  induction rest as [|c rest IH]; intros b s e (Hg & Hs & Hc) Hl; cbn [contiguous_loop]; rewrite info_check, last_info by done.
  all: destruct (decide (masked (props b))) as [Hb|Hb]; [change (IsError ResultSuccess) with false|change (IsError ResultInvalidCurrentMemory) with true]; cbv iota.
  2, 4: eexists; (split; [done|]); apply scanned_bad; (done || lia).
  - cbn [chain] in Hc. rewrite (proj2 (Z.leb_le last _)) by lia. eexists. split; [done|]. apply scanned_last; (done || lia).
  - destruct (Z.leb_spec last (block_end b - 1)); [eexists; split; [done|]; apply scanned_last; (done || lia)|].
    destruct (IH c (block_end b) e Hc) as (r & E & Hr); [pose proof (proj1 (proj2 Hc)); lia|]. exists r. split; [exact E|]. by apply scanned_next.
Qed.

Lemma check_loop_ok last p0 first rest : i_state first = p_state p0 -> i_permission first = p_permission p0 -> i_attribute first = p_attribute p0 ->
  forall b s e, chain s (b :: rest) e -> m_address b <= last < e ->
  exists r, check_loop state_mask state perm_mask perm attr_mask attr ignore_attr last first (GetMemoryInfo b) rest = Done true r /\
    scanned (fun c => accepted p0 (props c)) last (b :: rest) r.
Proof.
  intros E1 E2 E3. induction rest as [|c rest IH]; intros b s e (Hg & Hs & Hc) Hl; cbn [check_loop]; rewrite info_check, last_info, E1, E2, E3 by done.
  all: change (i_state (GetMemoryInfo b)) with (p_state (props b)); change (i_permission (GetMemoryInfo b)) with (p_permission (props b)); change (i_attribute (GetMemoryInfo b)) with (p_attribute (props b)).
  all: destruct (Z.eqb_spec (p_state (props b)) (p_state p0)); cbn [negb]; [|eexists; split; [done|]; apply scanned_bad; [unfold accepted; tauto|lia]].
  all: destruct (Z.eqb_spec (p_permission (props b)) (p_permission p0)); cbn [negb]; [|eexists; split; [done|]; apply scanned_bad; [unfold accepted; tauto|lia]].
  all: destruct (Z.eqb_spec (p_attribute (props b) .| ignore_attr) (p_attribute p0 .| ignore_attr)); cbn [negb]; [|eexists; split; [done|]; apply scanned_bad; [unfold accepted; tauto|lia]].
  all: destruct (decide (masked (props b))) as [Hb|Hb]; [change (IsError ResultSuccess) with false|change (IsError ResultInvalidCurrentMemory) with true]; cbv iota.
  2, 4: eexists; (split; [done|]); apply scanned_bad; [unfold accepted; tauto|lia].
  - cbn [chain] in Hc. rewrite (proj2 (Z.leb_le last _)) by lia. eexists. split; [done|]. apply scanned_last; [by unfold accepted|lia].
  - destruct (Z.leb_spec last (block_end b - 1)); [eexists; split; [done|]; apply scanned_last; [by unfold accepted|lia]|].
    destruct (IH c (block_end b) e Hc) as (r & E & Hr); [pose proof (proj1 (proj2 Hc)); lia|]. exists r. split; [exact E|]. apply scanned_next; [by unfold accepted|done].
Qed.

(** From the blocks to the pages of the range. *)
Lemma scanned_pages (P : PageProps -> Prop) s d b rest e lo last r : chain s (d ++ b :: rest) e -> m_address b <= lo < block_end b -> lo <= last ->
  scanned (fun c => P (props c)) last (b :: rest) r ->
  match r with
  | inr info => all_pages P (d ++ b :: rest) lo (last + 1) /\ exists d' c rest', d ++ b :: rest = d' ++ c :: rest' /\ m_address c <= last < block_end c /\ info = GetMemoryInfo c
  | inl e => e = ResultInvalidCurrentMemory /\ ~ all_pages P (d ++ b :: rest) lo (last + 1)
  end.
Proof.
  intros Hc Hlo Hl. destruct r as [er|info].
  - intros (-> & d1 & c & rest1 & El & Hcl & Hn). split; [done|]. intros Hall. apply Hn. rewrite El, app_assoc in Hc.
    assert (m_address c <= Z.max lo (m_address c) < block_end c /\ Z.max lo (m_address c) <= last) as [Hm1 Hm2].
    { destruct d1 as [|x d1]; [injection El as -> ->; lia|]. injection El as -> El. rewrite <- app_assoc in Hc. apply chain_app in Hc as (y & _ & Hx & _ & Hc2).
      apply chain_app in Hc2 as (z & Hc3 & Hgc & <- & _). apply chain_le in Hc3. pose proof (block_end_gt c Hgc). lia. }
    destruct (Hall (Z.max lo (m_address c))) as (q & Eq & HP); [lia|]. rewrite El, app_assoc, (page_props_block s (d ++ d1) c rest1 e) in Eq by done. by injection Eq as <-.
  - intros (d1 & c & rest1 & El & Hcl & -> & HP). rewrite El, app_assoc in *. split; [|by exists (d ++ d1), c, rest1].
    intros a Ha. destruct (chain_cover s ((d ++ d1) ++ c :: rest1) e a Hc) as (d2 & x & r2 & E2 & Hx).
    { pose proof Hc as Hc'. apply chain_app in Hc' as (y & Hy & Hgc & <- & Hy2). apply chain_le in Hy2. split; [|lia].
      destruct d1 as [|x d1]; [injection El as -> ->; apply chain_le in Hy; lia|]. injection El as -> El. apply chain_app in Hy as (z & Hz & Hz2). apply chain_le in Hz. destruct Hz2 as (_ & <- & _). lia. }
    exists (props x). rewrite E2 in Hc |- *. split; [by apply (page_props_block s d2 x r2 e)|]. rewrite <- E2 in Hc.
    assert (x ∈ d1 ++ [c]) as Hin; [|rewrite list.Forall_forall in HP; by apply HP].
    apply elem_of_app. destruct (decide (x ∈ d1)) as [|Hnd]; [by left|right]. apply list_elem_of_singleton.
    assert (x ∈ d ++ (d1 ++ c :: rest1)) as Hxin by (rewrite app_assoc, E2; apply elem_of_app; right; apply list_elem_of_here).
    apply elem_of_app in Hxin as [Hxd|Hxin].
    + exfalso. apply list_elem_of_split in Hxd as (u & v & ->). rewrite <- !app_assoc in Hc. apply chain_app in Hc as (y & _ & Hgx & _ & Hc2). cbn in Hc2.
      apply chain_app in Hc2 as (z & Hz & Hz2). apply chain_le in Hz. destruct d1 as [|w d1]; [injection El as -> ->; destruct Hz2 as (_ & <- & _); lia|].
      injection El as -> El. destruct Hz2 as (_ & <- & _). lia.
    + apply elem_of_app in Hxin as [?|[->|Hxr]%elem_of_cons]; [done|done|]. exfalso. apply list_elem_of_split in Hxr as (u & v & ->).
      apply chain_app in Hc as (y & _ & Hgc & _ & Hc2). apply chain_app in Hc2 as (z & Hz & Hgx & <- & _). apply chain_le in Hz. lia.
Qed.

(** A range of whole pages inside the address space of the blocks. *)
Definition range_in (m : KMemoryBlockManager) (addr size : Z) : Prop :=
  (PageSize | addr) /\ (PageSize | size) /\ 0 < size /\ m_start_address m <= addr /\ addr + size <= m_end_address m.

Lemma range_bounds m addr size : manager_ok m -> range_in m addr size -> 0 <= addr /\ addr + size < 2 ^ 64 /\ 4096 <= size.
Proof.
  intros Hm (_ & [q Hq] & ? & ? & ?). destruct (chain_end_bound _ _ _ (mo_chain m Hm) (mo_nonempty m Hm)). unfold PageSize in *. lia.
Qed.

Lemma page_align_down a : (PageSize | a) -> 0 <= a < 2 ^ 64 -> AlignDown 64 a PageSize = a.
Proof. intros [q ->] Ha. rewrite AlignDown_eq; [|done|unfold in_u; lia]. rewrite Z.mod_mul by done. lia. Qed.

Lemma page_align_up a : (PageSize | a) -> 0 <= a < 2 ^ 64 - 4096 -> AlignUp 64 a PageSize = a.
Proof.
  intros [q ->] Ha. unfold PageSize in *. rewrite AlignUp_eq; [|lia|lia|unfold in_u; lia|lia]. replace (q * 4096 + 4096 - 1) with (4095 + q * 4096) by lia.
  rewrite Z.div_add by lia. change (4095 / 4096) with 0. lia.
Qed.

Lemma last_page fin : (PageSize | fin) -> 0 < fin < 2 ^ 64 -> u64 (AlignDown 64 (fin - 1) PageSize + PageSize) = fin.
Proof.
  intros [q ->] Hf. unfold PageSize in *. rewrite AlignDown_eq; [|lia|unfold in_u; lia]. replace (q * 4096 - 1) with (4095 + (q - 1) * 4096) by lia.
  rewrite Z.mod_add by lia. change (4095 mod 4096) with 4095. rewrite u64_small by lia. lia.
Qed.

(** Finding the first block of a range. *)
Lemma range_first m addr size : manager_ok m -> range_in m addr size ->
  exists d b rest, m_memory_block_tree m = d ++ b :: rest /\ m_address b <= addr < block_end b /\
    drop (FindIterator (m_memory_block_tree m) addr) (m_memory_block_tree m) = b :: rest.
Proof.
  intros Hm (_ & _ & H1 & H2 & H3). pose proof (mo_chain m Hm) as Hc. destruct (chain_cover _ _ _ addr Hc) as (d & b & rest & Ht & Hb); [lia|].
  exists d, b, rest. split; [done|]. split; [done|]. rewrite Ht in *. by rewrite (FindIterator_chain _ d b rest _ _ Hc Hb), drop_app_length.
Qed.

Lemma first_border m d b rest addr : manager_ok m -> m_memory_block_tree m = d ++ b :: rest -> m_address b <= addr < block_end b ->
  (if negb (addr =? m_address b) then 1 else 0) = lacking (m_memory_block_tree m) addr.
Proof.
  intros Hm Ht Hb. pose proof (mo_chain m Hm) as Hc. rewrite Ht in *. rewrite (lacking_in _ d b rest _ addr Hc) by lia. rewrite (proj2 (Z.eqb_neq (block_end b) addr)), orb_false_r by lia.
  rewrite Z.eqb_sym. by destruct (_ =? _).
Qed.

Lemma last_border m d c rest fin : manager_ok m -> m_memory_block_tree m = d ++ c :: rest -> m_address c <= fin - 1 < block_end c ->
  (if negb (fin =? Info_GetEndAddress (GetMemoryInfo c)) then 1 else 0) = lacking (m_memory_block_tree m) fin.
Proof.
  intros Hm Ht Hb. pose proof (mo_chain m Hm) as Hc. rewrite Ht in *. pose proof Hc as Hc'. apply chain_app in Hc' as (_ & _ & Hg & _). rewrite Info_end by done.
  rewrite (lacking_in _ d c rest _ fin Hc) by lia. rewrite (proj2 (Z.eqb_neq (m_address c) fin)) by lia. cbn [orb]. rewrite Z.eqb_sym. by destruct (_ =? _).
Qed.

Lemma CheckMemoryState_ok m addr size : manager_ok m -> range_in m addr size ->
  exists p r, page_props (m_memory_block_tree m) addr = Some p /\
    CheckMemoryState state_mask state perm_mask perm attr_mask attr ignore_attr (m_memory_block_tree m) addr size = Done true r /\
    match r with
    | inr (st, pm, at_, n) => all_pages (accepted p) (m_memory_block_tree m) addr (addr + size) /\
        st = p_state p /\ pm = p_permission p /\ at_ = p_attribute p .& notu 8 ignore_attr /\
        n = lacking (m_memory_block_tree m) addr + lacking (m_memory_block_tree m) (addr + size)
    | inl e => e = ResultInvalidCurrentMemory /\ ~ all_pages (accepted p) (m_memory_block_tree m) addr (addr + size)
    end.
Proof.
  intros Hm Hr. pose proof (range_bounds m addr size Hm Hr) as (B1 & B2 & B3). destruct (range_first m addr size Hm Hr) as (d & b & rest & Ht & Hb & Ed).
  destruct Hr as (Da & Ds & Hs & Hst & Hen). pose proof (mo_chain m Hm) as Hc. pose proof Hc as Hc1. rewrite Ht in Hc1. pose proof Hc1 as Hc2. apply chain_app in Hc2 as (x & _ & Hc2).
  exists (props b). unfold CheckMemoryState, CheckMemoryState_it. rewrite Ed, (u64_small (addr + size)), (u64_small (addr + size - 1)) by lia.
  destruct (check_loop_ok (addr + size - 1) (props b) (GetMemoryInfo b) rest) with (b := b) (s := x) (e := m_end_address m) as (r & -> & Hsc); try done; [lia|].
  rewrite !bind_Done_true. apply (scanned_pages (accepted (props b)) _ d b rest _ addr (addr + size - 1) r Hc1 Hb ltac:(lia)) in Hsc.
  replace (addr + size - 1 + 1) with (addr + size) in Hsc by lia. rewrite <- Ht in Hsc.
  assert (page_props (m_memory_block_tree m) addr = Some (props b)) as Hp by (rewrite Ht; by apply (page_props_block _ d b rest _ addr Hc1)).
  destruct r as [er|info]; rewrite bind_ret.
  - destruct Hsc as [-> Hno]. by exists (inl ResultInvalidCurrentMemory).
  - destruct Hsc as (Hall & d' & c & rest' & Ht' & Hcl & ->). eexists (inr (_, _, _, _)). split; [done|]. split; [done|]. split; [done|]. split_and!; try done.
    rewrite last_page by (try lia; by apply Z.divide_add_r). rewrite page_align_down by (done || lia). change (GetAddress b) with (m_address b).
    rewrite (last_border m d' c rest' (addr + size)) by (done || lia). pose proof (first_border m d b rest addr Hm Ht Hb) as Hf.
    destruct (negb (addr =? m_address b)); lia.
Qed.

Lemma CheckMemoryStateContiguous_ok m addr size : manager_ok m -> range_in m addr size -> addr + size < 2 ^ 64 - 4096 ->
  exists r, CheckMemoryStateContiguous state_mask state perm_mask perm attr_mask attr (m_memory_block_tree m) addr size = Done true r /\
    match r with
    | inr n => all_pages masked (m_memory_block_tree m) addr (addr + size) /\ n = lacking (m_memory_block_tree m) addr + lacking (m_memory_block_tree m) (addr + size)
    | inl e => e = ResultInvalidCurrentMemory /\ ~ all_pages masked (m_memory_block_tree m) addr (addr + size)
    end.
Proof.
  intros Hm Hr Hbig. pose proof (range_bounds m addr size Hm Hr) as (B1 & B2 & B3). destruct (range_first m addr size Hm Hr) as (d & b & rest & Ht & Hb & Ed).
  destruct Hr as (Da & Ds & Hs & Hst & Hen). pose proof (mo_chain m Hm) as Hc. pose proof Hc as Hc1. rewrite Ht in Hc1. pose proof Hc1 as Hc2. apply chain_app in Hc2 as (x & _ & Hc2).
  unfold CheckMemoryStateContiguous. rewrite Ed, (u64_small (addr + size)), (u64_small (addr + size - 1)) by lia.
  destruct (contiguous_loop_ok (addr + size - 1) rest b x (m_end_address m) Hc2 ltac:(lia)) as (r & -> & Hsc).
  rewrite !bind_Done_true. apply (scanned_pages masked _ d b rest _ addr (addr + size - 1) r Hc1 Hb ltac:(lia)) in Hsc.
  replace (addr + size - 1 + 1) with (addr + size) in Hsc by lia. rewrite <- Ht in Hsc. destruct r as [er|info].
  - destruct Hsc as [-> Hno]. by exists (inl ResultInvalidCurrentMemory).
  - destruct Hsc as (Hall & d' & c & rest' & Ht' & Hcl & ->). eexists (inr _). split; [done|]. split; [done|].
    rewrite page_align_up by (try lia; by apply Z.divide_add_r). rewrite page_align_down by (done || lia). change (Info_GetAddress (GetMemoryInfo b)) with (m_address b).
    by rewrite (last_border m d' c rest' (addr + size)), (first_border m d b rest addr Hm Ht Hb) by (done || lia).
Qed.
End CheckProofs.

(** ** Sizes *)

(** The pages of a state, of [n] pages from page [p] on. *)
Definition has_state (t : list KMemoryBlock) (state p : Z) : bool :=
  match page_props t (p * PageSize) with Some q => p_state q =? state | None => false end.
Definition count_state (t : list KMemoryBlock) (state p n : Z) : Z := Z.of_nat (length (List.filter (has_state t state) (seqZ p n))).

Lemma filter_const {A} (f : A -> bool) (b : bool) l : (forall x, x ∈ l -> f x = b) -> List.filter f l = if b then l else [].
Proof.
  induction l as [|x l IH]; intros Hf; [by destruct b|]. cbn. rewrite Hf by apply list_elem_of_here. rewrite IH by (intros y Hy; apply Hf; by apply list_elem_of_further). by destruct b.
Qed.

Lemma count_state_nil t state p : count_state t state p 0 = 0.
Proof. done. Qed.

Lemma count_state_app t state p n1 n2 : 0 <= n1 -> 0 <= n2 -> count_state t state p (n1 + n2) = count_state t state p n1 + count_state t state (p + n1) n2.
Proof. intros H1 H2. unfold count_state. rewrite seqZ_app, List.filter_app, length_app by lia. lia. Qed.

Lemma count_state_block s d b r e state q : chain s (d ++ b :: r) e -> geom b -> m_address b = q * PageSize ->
  count_state (d ++ b :: r) state q (m_num_pages b) = if m_memory_state b =? state then m_num_pages b else 0.
Proof.
  intros Hc (G1 & _ & G3 & G4) Hq. unfold count_state. rewrite (filter_const _ (m_memory_state b =? state)).
  - destruct (_ =? _); [|done]. rewrite length_seqZ. lia.
  - intros p Hp%elem_of_seqZ. unfold has_state. rewrite (page_props_block s d b r e); [done|done|]. unfold block_end, PageSize in *. lia.
Qed.

Lemma chain_end_unique s t e e' : chain s t e -> chain s t e' -> e' = e.
Proof. revert s. induction t as [|b t IH]; intros s; cbn [chain]; [congruence|]. intros (_ & _ & H1) (_ & _ & H2). by apply (IH (block_end b)). Qed.

Lemma chain_end_aligned s t e : chain s t e -> (PageSize | s) -> (PageSize | e).
Proof.
  revert s. induction t as [|b t IH]; intros s; cbn [chain]; [by intros <-|]. intros (_ & <- & Hc) Hs. apply (IH _ Hc). unfold block_end. apply Z.divide_add_r; [done|by eexists].
Qed.

Lemma sum_sizes_ok state r : forall s d e total, chain s (d ++ r) e -> (exists c, chain s d c /\ total <= c) -> 0 <= total -> e < 2 ^ 64 ->
  sum_sizes state r total = total + count_state (d ++ r) state (match r with b :: _ => m_address b / PageSize | [] => 0 end) (match r with b :: _ => (e - m_address b) / PageSize | [] => 0 end) * PageSize.
Proof.
  induction r as [|b r IH]; intros s d e total Hc (c & Hd & Hc0) Ht Hb; [cbn [sum_sizes]; rewrite count_state_nil; lia|]. cbn [sum_sizes]. pose proof Hc as Hc'.
  apply chain_app in Hc' as (c' & Hd' & Hg & Eb & Hr). assert (c' = c) as -> by (by apply (chain_end_unique s d)). pose proof (chain_le _ _ _ Hr) as Hle. pose proof Hg as (G1 & [q Hq] & G3 & G4).
  rewrite Info_size by done. change (i_state (GetMemoryInfo b)) with (m_memory_state b). assert (0 < PageSize) by done.
  assert (Hend : block_end b = (q + m_num_pages b) * PageSize) by (unfold block_end; lia).
  destruct (chain_end_aligned _ _ _ Hr) as [k ->]; [by rewrite Hend; eexists|].
  rewrite Hq, <- Z.mul_sub_distr_r, !Z.div_mul by done. replace (k - q) with (m_num_pages b + (k - q - m_num_pages b)) by lia.
  assert (q + m_num_pages b <= k) by nia. rewrite count_state_app by lia. rewrite (count_state_block s d b r (k * PageSize) state q Hc Hg Hq).
  set (total' := if _ =? _ then _ else _). assert (total' = total + (if m_memory_state b =? state then m_num_pages b else 0) * PageSize) as ->.
  { unfold total'. destruct (_ =? _); [|lia]. rewrite u64_small by (unfold PageSize in *; lia). lia. }
  rewrite (IH s (d ++ [b]) (k * PageSize)).
  - rewrite <- app_assoc. cbn [app]. destruct r as [|c1 r]; cbn [chain] in Hr.
    + assert (k = q + m_num_pages b) as -> by nia. replace (q + m_num_pages b - q - m_num_pages b) with 0 by lia. rewrite !count_state_nil. unfold PageSize. lia.
    + destruct Hr as (_ & E1 & _). rewrite E1, Hend, <- Z.mul_sub_distr_r, !Z.div_mul by done. replace (k - (q + m_num_pages b)) with (k - q - m_num_pages b) by lia. unfold PageSize. lia.
  - by rewrite <- app_assoc.
  - exists (block_end b). split; [apply chain_app; exists c; split; [done|]; by split_and!|]. rewrite Hend. unfold PageSize in *. destruct (_ =? _); lia.
  - unfold PageSize. destruct (_ =? _); lia.
  - done.
Qed.

(** A page table whose blocks describe its address space. *)
Record space_ok (t : KPageTableBase) : Prop := {
  sp_blocks : manager_ok (m_memory_block_manager t);
  sp_start : m_start_address (m_memory_block_manager t) = m_address_space_start t;
  sp_end : m_end_address (m_memory_block_manager t) = m_address_space_end t
}.

Lemma GetSize_ok t state : space_ok t -> GetSize t state =
  count_state (m_memory_block_tree (m_memory_block_manager t)) state (m_address_space_start t / PageSize) ((m_address_space_end t - m_address_space_start t) / PageSize) * PageSize.
Proof.
  intros [Hm Hst Hen]. unfold GetSize. destruct (m_memory_block_manager t) as [tree st nd]. cbn [m_memory_block_tree m_start_address m_end_address] in *. rewrite <- Hst, <- Hen. clear Hst Hen.
  pose proof (mo_chain _ Hm) as Hc. pose proof (mo_nonempty _ Hm) as Hne. cbn [m_memory_block_tree m_start_address m_end_address] in *.
  destruct tree as [|b r]; [done|]. destruct (chain_end_bound _ _ _ Hc) as [B0 B1]; [done|]. pose proof Hc as (Hg & Hs & _). pose proof (block_end_gt b Hg).
  pose proof (FindIterator_chain st [] b r nd st Hc ltac:(lia)) as Ef. cbn [app length] in Ef. rewrite Ef. cbn [drop].
  pose proof (sum_sizes_ok state (b :: r) st [] nd 0 Hc ltac:(by exists st) ltac:(lia) ltac:(lia)) as Es. by rewrite Es, Hs.
Qed.

(** ** Free areas *)

Section FreeAreaProofs.
Context (t : KPageTableBase) (Hsp : space_ok t) (Hzero : m_address_space_start t = 0).
Context (region_start region_num_pages num_pages alignment offset guard_pages : Z).
Let tree := m_memory_block_tree (m_memory_block_manager t).
Let region_end := region_start + region_num_pages * PageSize.
Context (Hnum : 0 < num_pages) (Hguard : 0 <= guard_pages) (Hroom : num_pages + guard_pages <= region_num_pages).
Context (Hoff : 0 <= offset < alignment) (Hoffset : offset < num_pages * PageSize).
Context (Hpos : 0 < region_start) (Hin : region_end <= m_address_space_end t).
Context (Hbig : region_end + (num_pages + 2 * guard_pages) * PageSize + 2 * alignment < 2 ^ 63).

(** A place the search may answer: congruent to the offset, in the region with the guard pages behind it, and in a free block with the guard pages before and behind it.
    The guard pages before it may lie in front of the region. *)
Definition free_place (a : Z) : Prop :=
  region_start <= a /\ a + (num_pages + guard_pages) * PageSize <= region_end /\ (alignment | a - offset) /\
  exists b, b ∈ tree /\ m_memory_state b = MemoryState.state_value MemoryState.KFree /\ m_address b + guard_pages * PageSize <= a /\ a + (num_pages + guard_pages) * PageSize <= block_end b.

Lemma fits_free_place lo b a : b ∈ tree -> region_start <= lo -> fits lo region_end num_pages alignment offset guard_pages b a -> free_place a.
Proof.
  intros Hb Hlo (F1 & F2 & F3 & F4 & F5 & F6). unfold free_place, PageSize in *. split; [lia|]. split; [lia|]. split; [done|]. by exists b.
Qed.

Lemma query_free a : 0 <= a < m_address_space_end t ->
  exists d b r, tree = d ++ b :: r /\ m_address b <= a < block_end b /\ geom b /\ QueryInfoImpl t a = inr (GetMemoryInfo b).
Proof.
  intros Ha. destruct Hsp as [Hm Hst Hen]. pose proof (mo_chain _ Hm) as Hc. rewrite Hst, Hzero, Hen in Hc. destruct (chain_cover _ _ _ a Hc Ha) as (d & b & r & Ht & Hb).
  exists d, b, r. split; [done|]. split; [done|]. rewrite Ht in Hc. split; [by apply chain_app in Hc as (_ & _ & Hg & _)|].
  unfold QueryInfoImpl, FindBlock. rewrite Ht, (FindIterator_chain _ d b r _ a Hc Hb). by rewrite list_lookup_middle.
Qed.

Lemma last_draw : 0 <= (region_num_pages - num_pages - guard_pages) * PageSize / alignment * alignment <= (region_num_pages - num_pages - guard_pages) * PageSize.
Proof.
  assert (0 <= (region_num_pages - num_pages - guard_pages) * PageSize) by (unfold PageSize; lia).
  pose proof (Z.mul_div_le ((region_num_pages - num_pages - guard_pages) * PageSize) alignment ltac:(lia)). pose proof (Z.div_pos ((region_num_pages - num_pages - guard_pages) * PageSize) alignment ltac:(lia) ltac:(lia)). nia.
Qed.

Lemma random_tries_ok n : forall words, (n <= length words)%nat -> Forall (in_u 32) words ->
  exists a k, random_tries t region_start region_num_pages num_pages alignment offset guard_pages n words = Done true (a, drop k words) /\ (k <= n)%nat /\ (a = 0 \/ free_place a).
Proof.
  induction n as [|n IH]; intros words Hl Hw; cbn [random_tries]; [exists 0, 0%nat; split; [done|]; split; [lia|by left]|].
  destruct words as [|w words]; [cbn in Hl; lia|]. apply Forall_cons_1 in Hw as [Hw0 Hw]. destruct (IH words) as (a & k & E & Hk & Ha); [cbn in Hl; lia|done|].
  assert (exists a k, random_tries t region_start region_num_pages num_pages alignment offset guard_pages n words = Done true (a, drop k (w :: words)) /\ (k <= S n)%nat /\ (a = 0 \/ free_place a)) as Hagain.
  { exists a, (S k). split; [exact E|]. split; [lia|done]. }
  pose proof last_draw as [L1 L2]. unfold region_end in *. unfold PageSize in *. set (rest := (region_num_pages - num_pages - guard_pages) * 4096) in *.
  rewrite (u64_small (region_num_pages - num_pages)), (u64_small (region_num_pages - num_pages - guard_pages)) by (unfold rest; lia). fold rest. rewrite (u64_small rest) by (unfold rest; lia).
  unfold udiv. rewrite (proj2 (Z.eqb_neq alignment 0)), bind_ret by lia. set (hi := rest / alignment) in *.
  assert (0 <= hi <= rest) as Hhi by nia. rewrite draw_word, bind_ret by (done || (unfold rest in *; lia)).
  pose proof (Z.mod_pos_bound w (hi + 1) ltac:(lia)) as Hm. set (rnd := w mod (hi + 1)) in *. assert (0 <= rnd * alignment <= rest) as Hr by nia.
  rewrite (u64_small (rnd * alignment)), (u64_small (region_start + _)) by (unfold rest in *; lia). rewrite AlignDown_eq by (lia || (unfold in_u, rest in *; lia)).
  pose proof (Z.mod_pos_bound (region_start + rnd * alignment) alignment ltac:(lia)) as Hmod. pose proof (Z.mod_le (region_start + rnd * alignment) alignment ltac:(lia) ltac:(lia)) as Hmle.
  set (candidate := region_start + rnd * alignment - _ + offset). assert (0 <= candidate <= region_start + rest + offset) as Hcand by (unfold candidate; lia). rewrite (u64_small candidate) by (unfold rest in *; lia).
  rewrite (u64_small (num_pages + guard_pages)), (u64_small ((num_pages + guard_pages) * 4096)), (u64_small (candidate + _)), (u64_small (candidate + _ - 1)) by (unfold rest in *; lia).
  destruct (query_free candidate) as (d & b & r & Ht & Hb & Hg & ->); [unfold rest in *; lia|]. change (i_state (GetMemoryInfo b)) with (m_memory_state b). change (Info_GetAddress (GetMemoryInfo b)) with (m_address b).
  pose proof Hg as (G1 & _). rewrite last_info by done. rewrite (u64_small (guard_pages * 4096)), (u64_small (m_address b + _)), (u64_small (region_num_pages * 4096)), (u64_small (region_start + _)), (u64_small (region_start + _ - 1)) by (unfold rest in *; lia).
  destruct (Z.eqb_spec (m_memory_state b) (MemoryState.state_value MemoryState.KFree)) as [Hf|]; cbn [negb]; [|done].
  destruct (Z.leb_spec region_start candidate); cbn [negb]; [|done]. destruct (Z.leb_spec (m_address b + guard_pages * 4096) candidate); cbn [negb]; [|done].
  destruct (Z.leb_spec (candidate + (num_pages + guard_pages) * 4096 - 1) (block_end b - 1)); cbn [negb]; [|done].
  destruct (Z.leb_spec (candidate + (num_pages + guard_pages) * 4096 - 1) (region_start + region_num_pages * 4096 - 1)); cbn [negb]; [|done].
  exists candidate, 1%nat. split; [done|]. split; [lia|]. right. split; [done|]. split; [unfold region_end, PageSize; lia|]. split.
  - unfold candidate. replace (_ + offset - offset) with (region_start + rnd * alignment - (region_start + rnd * alignment) mod alignment) by lia.
    rewrite Z.mod_eq by lia. replace (_ - (_ - _)) with (alignment * ((region_start + rnd * alignment) / alignment)) by lia. by apply Z.divide_factor_l.
  - exists b. split; [rewrite Ht; apply elem_of_app; right; apply list_elem_of_here|]. split; [done|]. unfold PageSize. lia.
Qed.

Lemma FindFreeArea_ok words : (m_enable_aslr t = true -> (9 <= length words)%nat /\ Forall (in_u 32) words) ->
  exists a k, FindFreeArea t region_start region_num_pages num_pages alignment offset guard_pages words = Done true (a, drop k words) /\ (k <= 9)%nat /\
    ((a = 0 /\ forall b x, b ∈ tree -> ~ fits region_start region_end num_pages alignment offset guard_pages b x) \/ (a <> 0 /\ free_place a)).
Proof.
  intros Hwords. assert (Hblock : forall lo k, region_start <= lo -> lo = region_start + k * PageSize -> k <= region_num_pages - num_pages - guard_pages ->
    exists r, KMemoryBlockManager.FindFreeArea (m_memory_block_manager t) lo (region_num_pages - k) num_pages alignment offset guard_pages = Done true r /\
      ((r = 0 /\ forall b x, b ∈ tree -> ~ fits lo region_end num_pages alignment offset guard_pages b x) \/ (r <> 0 /\ free_place r))).
  { intros lo k Hlo Ek Hk. destruct Hsp as [Hm Hst Hen]. assert (0 < PageSize) by done. assert (lo + (region_num_pages - k) * PageSize = region_end) as Ee by (unfold region_end; lia).
    destruct (FindFreeArea_least (m_memory_block_manager t) lo (region_num_pages - k) num_pages alignment offset guard_pages) as (r & E & Hr); try done.
    { rewrite Ee. unfold region_end, PageSize in *. lia. } { rewrite Hst, Hen, Hzero. unfold region_end, PageSize in *. lia. } { rewrite Ee. lia. }
    rewrite Ee in Hr. exists r. split; [done|]. destruct Hr as [[-> Hno]|[(b & Hb & Hf) _]]; [by left|right]. pose proof Hf as (_ & _ & Hf3 & _).
    split; [unfold PageSize in *; lia|]. by apply (fits_free_place lo b). }
  unfold FindFreeArea. rewrite (proj2 (Z.leb_le num_pages region_num_pages)) by lia.
  destruct (Hblock region_start 0) as (r0 & E0 & Hr0); [lia|lia|lia|]. rewrite Z.sub_0_r in E0.
  assert (Hlast : forall w k, (k <= 9)%nat -> w = drop k words -> exists a k, (address ← KMemoryBlockManager.FindFreeArea (m_memory_block_manager t) region_start region_num_pages num_pages alignment offset guard_pages; mret (address, w)) =
     Done true (a, drop k words) /\ (k <= 9)%nat /\ ((a = 0 /\ forall b x, b ∈ tree -> ~ fits region_start region_end num_pages alignment offset guard_pages b x) \/ (a <> 0 /\ free_place a))).
  { intros w k Hk ->. rewrite E0, bind_Done_true. by exists r0, k. }
  destruct (m_enable_aslr t); [|rewrite bind_ret; cbn [Z.eqb]; by apply (Hlast words 0%nat); [lia|]].
  destruct (Hwords eq_refl) as [Hl Hw]. destruct (random_tries_ok 8 words ltac:(lia) Hw) as (a & k & E & Hk & Ha). rewrite E, bind_Done_true.
  destruct (Z.eqb_spec a 0) as [->|Hne].
  - destruct (drop k words) as [|w rest] eqn:Ew; [apply (f_equal length) in Ew; rewrite length_drop in Ew; cbn in Ew; lia|].
    assert (in_u 32 w) as Hw32 by (apply (Forall_drop _ k) in Hw; rewrite Ew in Hw; by apply Forall_cons_1 in Hw as [? _]). assert (rest = drop (S k) words) as Erest by (by rewrite <- (Nat.add_1_r k), <- drop_drop, Ew).
    set (hi := region_num_pages - num_pages - guard_pages). assert (0 <= hi < 2 ^ 63) as Hhi by (unfold hi, region_end, PageSize in *; lia).
    rewrite (u64_small (region_num_pages - num_pages)), (u64_small (region_num_pages - num_pages - guard_pages)) by (unfold region_end, PageSize in *; lia). fold hi.
    rewrite draw_word, bind_ret by done. pose proof (Z.mod_pos_bound w (hi + 1) ltac:(lia)) as Hm. set (op := w mod (hi + 1)) in *. clearbody op.
    rewrite (u64_small (op * PageSize)), (u64_small (region_start + op * PageSize)), (u64_small (region_num_pages - op)) by (unfold hi, region_end, PageSize in *; lia).
    destruct (Hblock (region_start + op * PageSize) op) as (r & -> & Hr); [unfold PageSize; lia|done|unfold hi in *; lia|]. rewrite bind_Done_true, bind_ret.
    destruct (Z.eqb_spec r 0) as [->|Hnz]; [by apply (Hlast rest (S k)); [lia|]|]. destruct Hr as [[? _]|[_ Hr]]; [done|].
    exists r, (S k). rewrite Erest. split; [done|]. split; [lia|by right].
  - rewrite bind_ret. rewrite (proj2 (Z.eqb_neq a 0)) by done. destruct Ha as [?|Ha]; [done|]. exists a, k. split; [done|]. split; [lia|by right].
Qed.
End FreeAreaProofs.

(** Without random numbers the search is that of the block manager. *)
Lemma FindFreeArea_direct t region_start region_num_pages num_pages alignment offset guard_pages words :
  let region_end := region_start + region_num_pages * PageSize in
  space_ok t -> m_address_space_start t = 0 -> m_enable_aslr t = false -> 0 < num_pages <= region_num_pages -> 0 <= guard_pages ->
  0 <= offset < alignment -> 0 < region_start -> region_end <= m_address_space_end t -> region_end + (num_pages + 2 * guard_pages) * PageSize + 2 * alignment < 2 ^ 63 ->
  exists a, FindFreeArea t region_start region_num_pages num_pages alignment offset guard_pages words = Done true (a, words) /\
    ((a = 0 /\ forall b x, b ∈ m_memory_block_tree (m_memory_block_manager t) -> ~ fits region_start region_end num_pages alignment offset guard_pages b x) \/
     (a <> 0 /\ region_start + guard_pages * PageSize <= a /\ free_place t region_start region_num_pages num_pages alignment offset guard_pages a)).
Proof.
  intros re [Hm Hst Hen] Hzero Has Hnum Hg Hoff Hpos Hin Hbig. unfold FindFreeArea. rewrite (proj2 (Z.leb_le num_pages region_num_pages)), Has, bind_ret by lia. cbn [Z.eqb].
  destruct (FindFreeArea_least (m_memory_block_manager t) region_start region_num_pages num_pages alignment offset guard_pages) as (r & -> & Hr); [done|lia|done|done|unfold re, PageSize in *; lia|rewrite Hst, Hen, Hzero; unfold re, PageSize in *; lia|unfold re in *; lia|].
  rewrite bind_Done_true. exists r. split; [done|]. destruct Hr as [[-> Hno]|[(b & Hb & Hf) _]]; [by left|right]. pose proof Hf as (_ & _ & Hf3 & _).
  split; [unfold PageSize in *; lia|]. split; [done|]. by apply (fits_free_place t region_start region_num_pages num_pages alignment offset guard_pages Hg region_start b).
Qed.

(** ** The properties *)

(** C16: Checking a range.  [CheckMemoryState] accepts a range of an address space exactly when every page of it has the masked state, permission and attributes and the properties of the first
    page, up to the ignored attributes; it then answers these properties, and as number of blocks how many of the two ends of the range lie inside a block.  Else the answer is
    [ResultInvalidCurrentMemory]; the check never leaves the tree. *)
Theorem check_memory_state state_mask state perm_mask perm attr_mask attr ignore_attr m addr size : manager_ok m -> range_in m addr size ->
  exists p r, page_props (m_memory_block_tree m) addr = Some p /\
    CheckMemoryState state_mask state perm_mask perm attr_mask attr ignore_attr (m_memory_block_tree m) addr size = Done true r /\
    match r with
    | inr (st, pm, at_, n) => all_pages (accepted state_mask state perm_mask perm attr_mask attr ignore_attr p) (m_memory_block_tree m) addr (addr + size) /\
        st = p_state p /\ pm = p_permission p /\ at_ = p_attribute p .& notu 8 ignore_attr /\
        n = lacking (m_memory_block_tree m) addr + lacking (m_memory_block_tree m) (addr + size)
    | inl e => e = ResultInvalidCurrentMemory /\ ~ all_pages (accepted state_mask state perm_mask perm attr_mask attr ignore_attr p) (m_memory_block_tree m) addr (addr + size)
    end.
Proof. apply CheckMemoryState_ok. Qed.

(** C17: The free area of a random search, in a region inside an address space that starts at 0.  When the layout is randomised there are a word of the generator for each of the nine draws, and the region has room for the guard pages on one
    side if it has room for the pages: otherwise the range of the draws wraps around.  Then the search ends without undefined behaviour.  The area it answers is congruent to the offset, lies in the region together with the guard pages behind it, and in a free block
    together with the guard pages before and behind it; those before it may lie in front of the region, but not when the layout is not randomised.  It answers none only when no area with guard pages on both sides
    fits into the region, in particular when the region is smaller than the area. *)
Theorem find_free_area_random t region_start region_num_pages num_pages alignment offset guard_pages words :
  let region_end := region_start + region_num_pages * PageSize in
  space_ok t -> m_address_space_start t = 0 -> 0 < num_pages -> 0 <= guard_pages ->
  (m_enable_aslr t = true -> num_pages <= region_num_pages -> num_pages + guard_pages <= region_num_pages) ->
  0 <= offset < alignment -> offset < num_pages * PageSize -> 0 < region_start -> region_end <= m_address_space_end t ->
  region_end + (num_pages + 2 * guard_pages) * PageSize + 2 * alignment < 2 ^ 63 ->
  (m_enable_aslr t = true -> (9 <= length words)%nat /\ Forall (in_u 32) words) ->
  exists a k, FindFreeArea t region_start region_num_pages num_pages alignment offset guard_pages words = Done true (a, drop k words) /\ (k <= 9)%nat /\
    ((a = 0 /\ forall b x, b ∈ m_memory_block_tree (m_memory_block_manager t) -> ~ fits region_start region_end num_pages alignment offset guard_pages b x) \/
     (a <> 0 /\ free_place t region_start region_num_pages num_pages alignment offset guard_pages a /\ (m_enable_aslr t = false -> region_start + guard_pages * PageSize <= a))).
Proof.
  intros re Hsp Hz Hn Hg Hroom Ho Hoff Hpos Hin Hbig Hw. destruct (Z.leb_spec num_pages region_num_pages) as [Hle|Hgt].
  - destruct (m_enable_aslr t) eqn:Ea.
    + destruct (FindFreeArea_ok t Hsp Hz region_start region_num_pages num_pages alignment offset guard_pages Hn Hg (Hroom eq_refl Hle) Ho Hoff Hpos Hin Hbig words (fun _ => Hw eq_refl)) as (a & k & E & Hk & Ha).
      exists a, k. split; [done|]. split; [done|]. destruct Ha as [Ha|[H0 Ha]]; [by left|right]. by split_and!.
    + destruct (FindFreeArea_direct t region_start region_num_pages num_pages alignment offset guard_pages words Hsp Hz Ea ltac:(lia) Hg Ho Hpos Hin Hbig) as (a & E & Ha).
      exists a, 0%nat. split; [done|]. split; [lia|]. destruct Ha as [Ha|(H0 & H1 & H2)]; [by left|right]. by split_and!.
  - exists 0, 0%nat. unfold FindFreeArea. rewrite (proj2 (Z.leb_gt num_pages region_num_pages)) by lia. split; [done|]. split; [lia|]. left. split; [done|].
    intros b x _ (_ & _ & F3 & _ & F5 & _). unfold re, PageSize in *. lia.
Qed.

(** The size of a state is the number of its pages. *)
Theorem size_of_state t state : space_ok t -> GetSize t state =
  count_state (m_memory_block_tree (m_memory_block_manager t)) state (m_address_space_start t / PageSize) ((m_address_space_end t - m_address_space_start t) / PageSize) * PageSize.
Proof. apply GetSize_ok. Qed.

(** ** Examples *)

Lemma check_memory_state_witness : exists p r, page_props (m_memory_block_tree example_manager) 0x8002000 = Some p /\
  CheckMemoryState MemoryState.All 0 0 0 0 0 DefaultMemoryIgnoreAttr (m_memory_block_tree example_manager) 0x8002000 0x3000 = Done true r /\ r = inr (0, 0, 0, 2).
Proof.
  destruct (check_memory_state MemoryState.All 0 0 0 0 0 DefaultMemoryIgnoreAttr example_manager 0x8002000 0x3000 example_manager_ok) as (p & r & H1 & H2 & _).
  { split_and!; [by exists 0x8002|by exists 3|done|by vm_compute|by vm_compute]. }
  exists p, r. split; [exact H1|]. split; [exact H2|]. vm_compute in H2. injection H2 as <-. reflexivity.
Defined.

(** An address space of four megabytes, all free. *)
Definition demo_space : KPageTableBase :=
  mkTable 0 0x400000 no_regions 0 0 0 0 0 0 0 (mkManager [KMemoryBlock_new 0 1024 0 0 0] 0 0x400000) 0 36 false true false false.

Lemma demo_space_ok : space_ok demo_space.
Proof.
  split; [|done|done]. constructor; [|done| |done].
  - split_and!; [split_and!; [by vm_compute|by exists 0|by vm_compute..]|done|done].
  - apply Forall_singleton. by constructor; vm_compute.
Qed.

Definition demo_words : list Z := [1; 2; 3; 4; 5; 6; 7; 8; 9].

Lemma random_words_ok : (9 <= length demo_words)%nat /\ Forall (in_u 32) demo_words.
Proof. split; [done|]. repeat (apply Forall_cons_2; [unfold in_u; lia|]). apply Forall_nil_2. Qed.

Lemma find_free_area_random_witness : exists a k, FindFreeArea demo_space 0x100000 256 4 0x1000 0 4 demo_words = Done true (a, drop k demo_words) /\ (a = 0 \/ 0x100000 <= a).
Proof.
  destruct (find_free_area_random demo_space 0x100000 256 4 0x1000 0 4 demo_words demo_space_ok) as (a & k & E & _ & Ha); [reflexivity|lia|lia|lia|lia|by vm_compute|lia|by vm_compute|by vm_compute|intros _; exact random_words_ok|].
  exists a, k. split; [exact E|]. destruct Ha as [[-> _]|(_ & (Ha & _) & _)]; [by left|by right].
Defined.

Lemma size_of_state_witness : GetSize demo_space 0 = count_state (m_memory_block_tree (m_memory_block_manager demo_space)) 0 (0 / PageSize) ((0x400000 - 0) / PageSize) * PageSize.
Proof. apply (size_of_state demo_space 0 demo_space_ok). Defined.

(** When the pages fit into the region without the guard pages behind them, the range of the random offset wraps around: the search leaves the address space. *)
Lemma random_offset_wraps : FindFreeArea demo_space 0x100000 16 14 0x1000 0 4 [0xffffffff; 0; 0; 0; 0; 0; 0; 0; 0] = Undef.
Proof. vm_compute. reflexivity. Qed.
