(* ===== verification/HostPageTable.v ===== *)
(** * HostPageTable: the page tables of the host

    Models common/page_table.h and .cpp, the mapping of pages in core/memory.cpp, and, of k_page_table_base.cpp,
    [MakePageGroup], [IsValidPageGroup], [Operate] and [MapPageGroupImpl], the members through which the page table of a
    process works on the tables of the host.

    An entry of the table keeps, for a page that is mapped, the difference between its physical and its virtual
    address, and 0 for a page that is not.  The memory of the entries is fresh memory of the host, which is 0; a table is a finite map
    of the entries that have been written, with the number of all entries.  What the host does to make mapped memory fast is
    behind the class [FastMemory].

    The theorems say which pages a table maps after mapping and unmapping, that a page group made from a range lists exactly the physical
    pages of the range, or the first ones of those the table shows when it cannot be made, and that a group is accepted for a range exactly when its blocks begin with the runs of
    the range. *)

From stdpp Require Import gmap.
From S2P Require Import Prelude Common BitField KPageBitmap KPageHeap KMemoryBlock KMemoryManager.
#[local] Open Scope Z_scope.

(** ** common/page_table.h *)

Module PageType.
Definition Unmapped : Z := 0.
Definition Memory : Z := 1.
Definition DebugMemory : Z := 2.
Definition RasterizerCachedMemory : Z := 3.
End PageType.

Record TraversalEntry := mkEntry { phys_addr : Z; block_size : Z }.
Record TraversalContext := mkContext { next_page : Z; next_offset : Z }.

(** [PageInfo]: a host pointer whose low bits are the type of the page. *)
Definition ATTRIBUTE_BITS : Z := 2.
Definition ExtractPointer (raw : Z) : Z := raw .& u64 (notu 64 0 .<< ATTRIBUTE_BITS).
Definition ExtractType (raw : Z) : Z := raw .& ((1 .<< ATTRIBUTE_BITS) - 1).
Definition Store (pointer type : Z) : Z := pointer .| type.

Record PageEntryData := mkData { ptr : Z; block : Z; addr : Z }.

Record PageTable := mkPageTable {
  entries : gmap Z PageEntryData;
  entries_size : Z;
  current_address_space_width_in_bits : Z;
  page_size : Z
}.

Definition PageTable_new : PageTable := mkPageTable ∅ 0 0 0.

(** An entry that was never written is zero. *)
Definition entry (t : PageTable) (page : Z) : PageEntryData := default (mkData 0 0 0) (entries t !! page).
Definition set_entry (page : Z) (e : PageEntryData) (t : PageTable) : outcome PageTable :=
  if (0 <=? page) && (page <? entries_size t)
  then mret (mkPageTable (<[page := e]> (entries t)) (entries_size t) (current_address_space_width_in_bits t) (page_size t))
  else Undef.

(** A buffer that gets a new size is a new one. *)
Definition Resize (address_space_width_in_bits page_size_in_bits : Z) (t : PageTable) : outcome PageTable :=
  num_page_table_entries ← shl64 1 (u64 (address_space_width_in_bits - page_size_in_bits));
  size ← shl64 1 page_size_in_bits;
  mret (mkPageTable (if num_page_table_entries =? entries_size t then entries t else ∅) num_page_table_entries address_space_width_in_bits size).

Definition GetAddressSpaceBits (t : PageTable) : Z := current_address_space_width_in_bits t.

Definition ContinueTraversal (t : PageTable) (context : TraversalContext) : bool * TraversalEntry * TraversalContext :=
  let page := next_page context in
  let next := mkContext (u64 (next_page context + 1)) (u64 (next_offset context + page_size t)) in
  let paddr := addr (entry t page) in
  if (page <? entries_size t) && negb (paddr =? 0) then (true, mkEntry (u64 (paddr + next_offset context)) (page_size t), next)
  else (false, mkEntry 0 (page_size t), next).

Definition BeginTraversal (t : PageTable) (address : Z) : outcome (bool * TraversalEntry * TraversalContext) :=
  page ← udiv address (page_size t);
  mret (ContinueTraversal t (mkContext page address)).

(** [None] when the address is outside; the first address behind the space is not, and its entry is not in the table. *)
Definition GetPhysicalAddress (t : PageTable) (virt_addr : Z) : outcome (option Z) :=
  end_ ← shl64 1 (GetAddressSpaceBits t);
  if end_ <? virt_addr then mret None
  else
    page ← udiv virt_addr (page_size t);
    if page <? entries_size t then mret (Some (u64 (addr (entry t page) + virt_addr))) else Undef.

(** ** core/memory.cpp *)

Definition YUZU_PAGEBITS : Z := 12.
Definition YUZU_PAGESIZE : Z := 1 .<< YUZU_PAGEBITS.
Definition YUZU_PAGEMASK : Z := YUZU_PAGESIZE - 1.
Definition DramBase : Z := 0x80000000.

(** The fast memory of the host: whether the current page table has an arena, and what maps, unmaps and protects a range of it.  The page table that is
    changed is the current one. *)
Class FastMemory (H : Type) := {
  fastmem_arena : H -> bool;
  fast_Map : Z -> Z -> Z -> Z -> bool -> H -> H;
  fast_Unmap : Z -> Z -> bool -> H -> H;
  fast_Protect : Z -> Z -> Z -> H -> H
}.

Definition AddressSpaceContains (t : PageTable) (address size : Z) : outcome bool :=
  max_addr ← shl64 1 (GetAddressSpaceBits t);
  mret ((address <=? u64 (address + size)) && (u64 (address + size) <=? max_addr)).

Section Memory.
(** [backing] is the host address of the memory of the device. *)
Context {H : Type} `{!FastMemory H} (backing : Z).

Definition GetPointer (target : Z) : Z := u64 (backing + (target - DramBase)).

Fixpoint clear_pages (n : nat) (base type : Z) (t : PageTable) : outcome PageTable :=
  match n with
  | 0%nat => mret t
  | S n' => t ← set_entry base (mkData (Store 0 type) 0 0) t; clear_pages n' (u64 (base + 1)) type t
  end.

Fixpoint fill_pages (n : nat) (orig_base base target type : Z) (t : PageTable) : outcome PageTable :=
  match n with
  | 0%nat => mret t
  | S n' =>
      shifted ← shl64 base YUZU_PAGEBITS;
      first ← shl64 orig_base YUZU_PAGEBITS;
      let host_ptr := u64 (GetPointer target - shifted) in
      let backing := u64 (target - shifted) in
      t ← set_entry base (mkData (Store host_ptr type) first backing) t;
      ASSERT (negb (ExtractPointer (ptr (entry t base)) =? 0));;
      fill_pages n' orig_base (u64 (base + 1)) (u64 (target + YUZU_PAGESIZE)) type t
  end.

(** Both loops run from [base] up to [base + size]. *)
Definition MapPages (base size target type : Z) (t : PageTable) : outcome PageTable :=
  let end_ := u64 (base + size) in
  ASSERT (end_ <=? entries_size t);;
  let n := Z.to_nat (u64 (end_ - base)) in
  if target =? 0 then
    ASSERT (negb (type =? PageType.Memory));;
    clear_pages n base type t
  else fill_pages n base base target type t.

Definition MapMemoryRegion (base size target perms : Z) (separate_heap : bool) (t : PageTable) (h : H) : outcome (PageTable * H) :=
  ASSERT (size .& YUZU_PAGEMASK =? 0);;
  ASSERT (base .& YUZU_PAGEMASK =? 0);;
  ASSERT (DramBase <=? target);;
  t ← MapPages (base / YUZU_PAGESIZE) (size / YUZU_PAGESIZE) target PageType.Memory t;
  mret (t, if fastmem_arena h then fast_Map base (u64 (target - DramBase)) size perms separate_heap h else h).

Definition UnmapRegion (base size : Z) (separate_heap : bool) (t : PageTable) (h : H) : outcome (PageTable * H) :=
  ASSERT (size .& YUZU_PAGEMASK =? 0);;
  ASSERT (base .& YUZU_PAGEMASK =? 0);;
  t ← MapPages (base / YUZU_PAGESIZE) (size / YUZU_PAGESIZE) 0 PageType.Unmapped t;
  mret (t, if fastmem_arena h then fast_Unmap base size separate_heap h else h).

(** Pages the rasterizer has cached are left out: runs of other pages are protected together. *)
Definition protect_run (protect_begin protect_bytes perms : Z) (h : H) : H := if 0 <? protect_bytes then fast_Protect protect_begin protect_bytes perms h else h.

Fixpoint protect_loop (n : nat) (vaddr protect_begin protect_bytes perms : Z) (t : PageTable) (h : H) : outcome H :=
  match n with
  | 0%nat => mret (protect_run protect_begin protect_bytes perms h)
  | S n' =>
      let page := vaddr .>> YUZU_PAGEBITS in
      if page <? entries_size t then
        if ExtractType (ptr (entry t page)) =? PageType.RasterizerCachedMemory then
          protect_loop n' (u64 (vaddr + YUZU_PAGESIZE)) protect_begin 0 perms t (protect_run protect_begin protect_bytes perms h)
        else protect_loop n' (u64 (vaddr + YUZU_PAGESIZE)) (if protect_bytes =? 0 then vaddr else protect_begin) (u64 (protect_bytes + YUZU_PAGESIZE)) perms t h
      else Undef
  end.

(** The loop runs from [vaddr] as long as it is below [vaddr + size]. *)
Definition ProtectRegion (vaddr size perms : Z) (t : PageTable) (h : H) : outcome H :=
  ASSERT (size .& YUZU_PAGEMASK =? 0);;
  ASSERT (vaddr .& YUZU_PAGEMASK =? 0);;
  if fastmem_arena h then protect_loop (Z.to_nat ((Z.max 0 (u64 (vaddr + size) - vaddr) + YUZU_PAGEMASK) / YUZU_PAGESIZE)) vaddr 0 0 perms t h else mret h.
End Memory.

(** ** k_page_table_base.cpp *)

Module OperationType.
Definition Map : Z := 0.
Definition MapGroup : Z := 1.
Definition MapFirstGroup : Z := 2.
Definition Unmap : Z := 3.
Definition ChangePermissions : Z := 4.
Definition ChangePermissionsAndRefresh : Z := 5.
Definition ChangePermissionsAndRefreshAndFlush : Z := 6.
Definition Separate : Z := 7.
Definition MapFirstGroupPhysical : Z := 65000.
Definition UnmapPhysical : Z := 65001.
End OperationType.

(** The permissions of host memory, of a build without native code execution. *)
Module HostPermission.
Definition Read : Z := 1 .<< 0.
Definition Write : Z := 1 .<< 1.
End HostPermission.

Definition ConvertToMemoryPermission (perm : Z) : Z :=
  let perms := if negb (perm .& MemoryPermission.UserRead =? 0) then HostPermission.Read else 0 in
  if negb (perm .& MemoryPermission.UserWrite =? 0) then perms .| HostPermission.Write else perms.

(** [IsHeapPhysicalAddress] is the test of the memory layout; that its cached form is exact is a theorem of its file. *)
Section Groups.
Context (IsHeapPhysicalAddress : Z -> bool) {M : Type} `{!BlockInfoSource M}.
Notation group := (KPageGroup M).

(** The loops answer the code of the early return, or success with the variables behind the loop. *)
Fixpoint make_loop (fuel : nat) (t : PageTable) (context : TraversalContext) (cur_addr cur_size tot_size size : Z) (pg : group) :
    outcome (Z * (Z * Z * Z) * group) :=
  if negb (tot_size <? size) then mret (ResultSuccess, (cur_addr, cur_size, tot_size), pg)
  else
    match fuel with
    | 0%nat => Undef
    | S fuel' =>
        let '(ok, next_entry, context) := ContinueTraversal t context in
        if negb ok then mret (ResultInvalidCurrentMemory, (cur_addr, cur_size, tot_size), pg)
        else if negb (phys_addr next_entry =? u64 (cur_addr + cur_size)) then
          let cur_pages := cur_size / PageSize in
          if negb (IsHeapPhysicalAddress cur_addr) then mret (ResultInvalidCurrentMemory, (cur_addr, cur_size, tot_size), pg)
          else
            '(r, pg) ← AddBlock cur_addr cur_pages pg;
            if IsError r then mret (r, (cur_addr, cur_size, tot_size), pg)
            else make_loop fuel' t context (phys_addr next_entry) (block_size next_entry) (u64 (tot_size + block_size next_entry)) size pg
        else make_loop fuel' t context cur_addr (u64 (cur_size + block_size next_entry)) (u64 (tot_size + block_size next_entry)) size pg
    end.

(** What is left of the first page of a traversal. *)
Definition first_size (e : TraversalEntry) : Z := u64 (block_size e - (phys_addr e .& u64 (block_size e - 1))).

(** Adding the last block, behind the loop. *)
Definition make_last (size : Z) (v : Z * (Z * Z * Z) * group) : outcome (Z * group) :=
  let '(r, (cur_addr, cur_size, tot_size), pg) := v in
  if IsError r then mret (r, pg)
  else
    let cur_size := if size <? tot_size then u64 (cur_size - (tot_size - size)) else cur_size in
    let cur_pages := cur_size / PageSize in
    if negb (IsHeapPhysicalAddress cur_addr) then mret (ResultInvalidCurrentMemory, pg)
    else
      '(r, pg) ← AddBlock cur_addr cur_pages pg;
      mret (r, pg).

Definition MakePageGroup (t : PageTable) (pg : group) (address num_pages : Z) : outcome (Z * group) :=
  let size := u64 (num_pages * PageSize) in
  if negb (empty pg) then mret (ResultInvalidCurrentMemory, pg)
  else
    b ← BeginTraversal t address;
    let '(ok, next_entry, context) := b in
    if negb ok then mret (ResultInvalidCurrentMemory, pg)
    else
      let cur_size := first_size next_entry in
      v ← make_loop (Z.to_nat num_pages) t context (phys_addr next_entry) cur_size cur_size size pg;
      make_last size v.

(** [UpdateCurrentIterator]: the rest of the group from the current block on, with what is left of this block. *)
Definition UpdateCurrentIterator (it : list KBlockInfo) (cur_block_address cur_block_pages : Z) : option (list KBlockInfo * Z * Z) :=
  if cur_block_pages =? 0 then
    match it with
    | _ :: b :: it' => Some (b :: it', Info_GetAddress b, Info_GetNumPages b)
    | _ => None
    end
  else Some (it, cur_block_address, cur_block_pages).

Fixpoint valid_loop (fuel : nat) (t : PageTable) (context : TraversalContext) (cur_addr cur_size tot_size size : Z)
    (it : list KBlockInfo) (cur_block_address cur_block_pages : Z) : outcome (option (Z * Z * Z * list KBlockInfo * Z * Z)) :=
  if negb (tot_size <? size) then mret (Some (cur_addr, cur_size, tot_size, it, cur_block_address, cur_block_pages))
  else
    match fuel with
    | 0%nat => Undef
    | S fuel' =>
        let '(ok, next_entry, context) := ContinueTraversal t context in
        if negb ok then mret None
        else if negb (phys_addr next_entry =? u64 (cur_addr + cur_size)) then
          let cur_pages := cur_size / PageSize in
          if negb (IsHeapPhysicalAddress cur_addr) then mret None
          else
            match UpdateCurrentIterator it cur_block_address cur_block_pages with
            | None => mret None
            | Some (it, cur_block_address, cur_block_pages) =>
                if negb (cur_block_address =? cur_addr) || (cur_block_pages <? cur_pages) then mret None
                else valid_loop fuel' t context (phys_addr next_entry) (block_size next_entry) (u64 (tot_size + block_size next_entry)) size
                       it (u64 (cur_block_address + cur_size)) (u64 (cur_block_pages - cur_pages))
            end
        else valid_loop fuel' t context cur_addr (u64 (cur_size + block_size next_entry)) (u64 (tot_size + block_size next_entry)) size
               it cur_block_address cur_block_pages
    end.

(** Comparing the last block, behind the loop. *)
Definition valid_last (size : Z) (v : option (Z * Z * Z * list KBlockInfo * Z * Z)) : outcome bool :=
  match v with
  | None => mret false
  | Some (cur_addr, cur_size, tot_size, it, cur_block_address, cur_block_pages) =>
      let cur_size := if size <? tot_size then u64 (cur_size - (tot_size - size)) else cur_size in
      if negb (IsHeapPhysicalAddress cur_addr) then mret false
      else
        match UpdateCurrentIterator it cur_block_address cur_block_pages with
        | None => mret false
        | Some (_, cur_block_address, cur_block_pages) => mret ((cur_block_address =? cur_addr) && (cur_block_pages =? cur_size / PageSize))
        end
  end.

Definition IsValidPageGroup (t : PageTable) (pg : group) (address num_pages : Z) : outcome bool :=
  let size := u64 (num_pages * PageSize) in
  match g_blocks pg with
  | [] => mret false
  | first :: _ =>
      b ← BeginTraversal t address;
      let '(ok, next_entry, context) := b in
      if negb ok then mret false
      else
        let cur_size := first_size next_entry in
        v ← valid_loop (Z.to_nat num_pages) t context (phys_addr next_entry) cur_size cur_size size (g_blocks pg) (Info_GetAddress first) (Info_GetNumPages first);
        valid_last size v
  end.
End Groups.

(** ** Which pages a table maps *)

Definition mapped (t : PageTable) (page : Z) : option Z :=
  if (0 <=? page) && (page <? entries_size t) && negb (addr (entry t page) =? 0) then Some (u64 (addr (entry t page) + page * 4096)) else None.

Definition entry_ok (page a : Z) : Prop := a <> 0 -> in_u 64 a /\ (4096 | a) /\ 0 < u64 (a + page * 4096) /\ u64 (a + page * 4096) + 4096 < 2 ^ 44.

Record table_wf (t : PageTable) : Prop := {
  tw_page : page_size t = 4096;
  tw_size : 0 <= entries_size t <= 2 ^ 39;
  tw_entry : forall page, 0 <= page < entries_size t -> entry_ok page (addr (entry t page))
}.

Lemma mapped_ok t page x : table_wf t -> mapped t page = Some x -> 0 <= page < entries_size t /\ 0 < x /\ (4096 | x) /\ x + 4096 < 2 ^ 44.
Proof.
  intros W. unfold mapped. destruct (Z.leb_spec 0 page), (Z.ltb_spec page (entries_size t)), (Z.eqb_spec (addr (entry t page)) 0); cbn [andb negb]; try done.
  intros [= <-]. destruct (tw_entry t W page ltac:(lia) ltac:(done)) as (? & Hd & ? & ?). split_and!; try done.
  unfold u64, wrapu. rewrite Z.mod_eq by lia. apply Z.divide_sub_r; [apply Z.divide_add_r; [done|by exists page]|].
  apply Z.divide_mul_l. by exists (2 ^ 52).
Qed.

Lemma ContinueTraversal_eq t page : table_wf t -> 0 <= page < 2 ^ 52 - 1 ->
  ContinueTraversal t (mkContext page (page * 4096)) =
    match mapped t page with
    | Some x => (true, mkEntry x 4096, mkContext (page + 1) ((page + 1) * 4096))
    | None => (false, mkEntry 0 4096, mkContext (page + 1) ((page + 1) * 4096))
    end.
Proof.
  intros W Hp. unfold ContinueTraversal, mapped. cbn [next_page next_offset]. rewrite (tw_page t W), (u64_small (page + 1)), (u64_small (page * 4096 + 4096)) by lia.
  rewrite (proj2 (Z.leb_le 0 page)) by lia. cbn [andb]. replace (page * 4096 + 4096) with ((page + 1) * 4096) by lia. by destruct (_ && _).
Qed.

Lemma BeginTraversal_eq t a : table_wf t -> (4096 | a) -> 0 <= a < 2 ^ 63 -> BeginTraversal t a = mret (ContinueTraversal t (mkContext (a / 4096) (a / 4096 * 4096))).
Proof.
  intros W [q ->] Ha. unfold BeginTraversal. rewrite (tw_page t W). unfold udiv. cbn [Z.eqb]. rewrite bind_ret. by rewrite Z.div_mul.
Qed.

Lemma entry_insert t page e : 0 <= page < entries_size t ->
  exists t', set_entry page e t = mret t' /\ entries_size t' = entries_size t /\ page_size t' = page_size t /\
    current_address_space_width_in_bits t' = current_address_space_width_in_bits t /\ (forall x, entry t' x = if decide (x = page) then e else entry t x).
Proof.
  intros Hp. unfold set_entry. rewrite (proj2 (Z.leb_le 0 page)), (proj2 (Z.ltb_lt page _)) by lia. cbn [andb]. eexists. split; [done|]. split_and!; try done. intros x.
  unfold entry. cbn [entries]. destruct (decide (x = page)) as [->|Hne]; [by rewrite lookup_insert_eq|by rewrite lookup_insert_ne].
Qed.

(** What changes when the entries of the pages from [base] on are replaced. *)
Record remapped (t t' : PageTable) (base n : Z) (f : Z -> Z) : Prop := {
  rm_size : entries_size t' = entries_size t;
  rm_page : page_size t' = page_size t;
  rm_bits : current_address_space_width_in_bits t' = current_address_space_width_in_bits t;
  rm_addr : forall x, addr (entry t' x) = if decide (base <= x < base + n) then f x else addr (entry t x)
}.

Lemma remapped_nil t base n f : n <= 0 -> remapped t t base n f.
Proof. intros Hn. split; try done. intros x. destruct (decide _); [lia|done]. Qed.

Lemma remapped_step t page e t' n f : 0 <= page < entries_size t -> addr e = f page -> 0 <= n ->
  (forall t1, set_entry page e t = mret t1 -> entries_size t1 = entries_size t -> remapped t1 t' (page + 1) n f) -> remapped t t' page (n + 1) f.
Proof.
  intros Hp He Hn Ht. destruct (entry_insert t page e Hp) as (t1 & E1 & S1 & P1 & B1 & A1). destruct (Ht t1 E1 S1) as [S2 P2 B2 A2].
  split; [congruence..|]. intros x. rewrite A2, A1.
  destruct (decide (page + 1 <= x < page + 1 + n)), (decide (page <= x < page + (n + 1))), (decide (x = page)); subst; (done || lia).
Qed.

(** The host address of the device memory lies above every offset between two addresses. *)
Definition backing_ok (backing : Z) : Prop := 2 ^ 52 <= backing < 2 ^ 63 /\ (4096 | backing).

Lemma ExtractPointer_aligned p type : in_u 64 p -> (4096 | p) -> 0 <= type < 4 -> ExtractPointer (Store p type) = p.
Proof.
  intros Hp [q Hq] Ht. unfold ExtractPointer, Store, ATTRIBUTE_BITS.
  assert (Z.testbit p 0 = false /\ Z.testbit p 1 = false) as [B0 B1].
  { subst p. change 4096 with (2 ^ 12). rewrite <- Z.shiftl_mul_pow2 by lia. by rewrite !Z.shiftl_spec_low by lia. }
  change (u64 (notu 64 0 .<< 2)) with (Z.ones 62 .<< 2). apply Z.bits_inj'. intros i Hi. rewrite Z.land_spec, Z.lor_spec, Z.shiftl_spec by lia.
  destruct (Z_lt_le_dec i 2) as [Hlt|Hge].
  - rewrite (Z.testbit_neg_r _ (i - 2)) by lia. rewrite andb_false_r. assert (i = 0 \/ i = 1) as [-> | ->] by lia; congruence.
  - assert (Z.testbit type i = false) as ->.
    { apply (Z.bits_above_log2 type i); [lia|]. destruct (decide (type = 0)) as [->|]; [cbn; lia|].
      apply (Z.lt_le_trans _ 2); [apply Z.log2_lt_pow2; lia|lia]. }
    rewrite orb_false_r. destruct (Z_lt_le_dec i 64) as [Hi64|Hi64].
    + rewrite Z.ones_spec_low by lia. apply andb_true_r.
    + rewrite Z.ones_spec_high by lia. rewrite andb_false_r. symmetry. unfold in_u in Hp.
      apply Z.bits_above_log2; [lia|]. destruct (decide (p = 0)) as [->|]; [cbn; lia|]. apply (Z.lt_le_trans _ 64); [apply Z.log2_lt_pow2; lia|lia].
Qed.

Lemma clear_pages_ok type n : forall base t, 0 <= base -> base + Z.of_nat n <= entries_size t -> entries_size t <= 2 ^ 51 ->
  exists t', clear_pages n base type t = mret t' /\ remapped t t' base (Z.of_nat n) (fun _ => 0).
Proof.
  induction n as [|n IH]; intros base t Hb Hn Hs; cbn [clear_pages].
  - exists t. split; [done|]. by apply remapped_nil.
  - destruct (entry_insert t base (mkData (Store 0 type) 0 0)) as (t1 & E1 & S1 & _); [lia|]. rewrite E1, bind_ret, u64_small by lia.
    destruct (IH (base + 1) t1) as (t' & E' & R'); [lia..|]. exists t'. split; [done|]. rewrite Nat2Z.inj_succ. unfold Z.succ.
    apply (remapped_step t base (mkData (Store 0 type) 0 0)); [lia|done|lia|]. intros t2 E2 _. rewrite E1 in E2. by injection E2 as <-.
Qed.

Section Host.
Context (backing : Z) (Hback : backing_ok backing).

Lemma fill_pages_ok type orig n : 0 <= type < 4 -> 0 <= orig < 2 ^ 51 -> forall base target t, 0 <= base -> base + Z.of_nat n <= entries_size t -> entries_size t <= 2 ^ 39 ->
  (4096 | target) -> DramBase <= target -> target + Z.of_nat n * 4096 <= 2 ^ 44 ->
  exists t', fill_pages backing n orig base target type t = mret t' /\ remapped t t' base (Z.of_nat n) (fun _ => u64 (target - base * 4096)).
Proof.
  intros Hty Ho. destruct Hback as [Hb1 Hb2]. induction n as [|n IH]; intros base target t Hb Hn Hs Ht Hd Hlow; cbn [fill_pages].
  - exists t. split; [done|]. by apply remapped_nil.
  - change DramBase with 2147483648 in *. change YUZU_PAGESIZE with 4096. unfold YUZU_PAGEBITS. rewrite !shl64_ok, !bind_ret by lia. rewrite (Z.shiftl_mul_pow2 base 12), (Z.shiftl_mul_pow2 orig 12) by lia. change (2 ^ 12) with 4096.
    rewrite (u64_small (base * 4096)) by lia. set (e := mkData _ _ _).
    destruct (entry_insert t base e) as (t1 & E1 & S1 & _ & _ & A1); [lia|]. rewrite E1, bind_ret, A1, decide_True by done.
    rewrite bind_assert_true.
    2: { unfold e. cbn [ptr]. unfold GetPointer. change DramBase with 2147483648. rewrite (u64_small (backing + _)), u64_small by lia.
         rewrite ExtractPointer_aligned; [apply negb_true_iff, Z.eqb_neq; lia|unfold in_u; lia| |done].
         apply Z.divide_sub_r; [apply Z.divide_add_r; [done|]; apply Z.divide_sub_r; [done|by exists 524288]|by exists base]. }
    rewrite (u64_small (base + 1)), (u64_small (target + 4096)) by lia.
    destruct (IH (base + 1) (target + 4096) t1) as (t' & E' & R'); try lia; [apply Z.divide_add_r; [done|by exists 1]|].
    replace (target + 4096 - (base + 1) * 4096) with (target - base * 4096) in R' by lia.
    exists t'. split; [done|]. rewrite Nat2Z.inj_succ. unfold Z.succ.
    apply (remapped_step t base e); [lia|done|lia|]. intros t2 E2 _. rewrite E1 in E2. by injection E2 as <-.
Qed.
End Host.

(** What the table shows of the page [x] when it is mapped to the physical page [p]: an entry keeps the difference of the two addresses, so that a page
    that is mapped to the physical page of its own address counts as not mapped. *)
Definition shown (x p : Z) : option Z := if p =? x * 4096 then None else Some p.

(** The table after a range was mapped to the pages from [target] on, and after it was unmapped. *)
Record range_mapped (t t' : PageTable) (base n target : Z) : Prop := {
  ra_wf : table_wf t';
  ra_size : entries_size t' = entries_size t;
  ra_bits : current_address_space_width_in_bits t' = current_address_space_width_in_bits t;
  ra_mapped : forall x, mapped t' x = if decide (base <= x < base + n) then shown x (target + (x - base) * 4096) else mapped t x
}.
Record range_unmapped (t t' : PageTable) (base n : Z) : Prop := {
  ru_wf : table_wf t';
  ru_size : entries_size t' = entries_size t;
  ru_bits : current_address_space_width_in_bits t' = current_address_space_width_in_bits t;
  ru_mapped : forall x, mapped t' x = if decide (base <= x < base + n) then None else mapped t x
}.

Lemma remapped_unmapped t t' base n : table_wf t -> 0 <= base -> base + n <= entries_size t -> remapped t t' base n (fun _ => 0) -> range_unmapped t t' base n.
Proof.
  intros W Hb Hn [R1 R2 R3 R4]. split; [split; [by rewrite R2, (tw_page t W)|rewrite R1; apply W|]|done|done|].
  - intros page Hp. rewrite R4. destruct (decide _); [by intros []|]. apply (tw_entry t W). by rewrite <- R1.
  - intros x. unfold mapped. rewrite R1, R4. destruct (decide _); [|done]. cbn [Z.eqb negb]. by rewrite andb_false_r.
Qed.

Lemma remapped_mapped t t' base n target : table_wf t -> 0 <= base -> 0 <= n -> base + n <= entries_size t -> (4096 | target) -> 0 < target -> target + n * 4096 < 2 ^ 44 ->
  remapped t t' base n (fun _ => u64 (target - base * 4096)) -> range_mapped t t' base n target.
Proof.
  intros W Hb Hn0 Hn Ht Hpos Hlow [R1 R2 R3 R4]. pose proof (tw_size t W) as Hs.
  assert (forall x, (u64 (target - base * 4096) =? 0) = (target + (x - base) * 4096 =? x * 4096)) as Hnz.
  { intros x. unfold u64, wrapu. destruct (Z.eqb_spec (target + (x - base) * 4096) (x * 4096)) as [Hx|Hx]; [by replace (target - base * 4096) with 0 by lia|].
    apply Z.eqb_neq. intros Hz%Z.mod_divide; [|lia]. destruct Hz as [q Hq]. lia. }
  assert (forall x, base <= x < base + n -> u64 (u64 (target - base * 4096) + x * 4096) = target + (x - base) * 4096) as Hsum.
  { intros x Hx. unfold u64, wrapu. rewrite Zplus_mod_idemp_l. replace (target - base * 4096 + x * 4096) with (target + (x - base) * 4096) by lia. apply Z.mod_small. lia. }
  split; [split; [by rewrite R2, (tw_page t W)|rewrite R1; apply W|]|done|done|].
  - intros page Hp. rewrite R4. destruct (decide _) as [Hr|]; [|apply (tw_entry t W); by rewrite <- R1]. intros _. rewrite Hsum by done. split_and!; [apply wrapu_range; lia| |lia|lia].
    unfold u64, wrapu. rewrite Z.mod_eq by lia. apply Z.divide_sub_r; [apply Z.divide_sub_r; [done|by exists base]|]. apply Z.divide_mul_l. by exists (2 ^ 52).
  - intros x. unfold mapped. rewrite R1, R4. destruct (decide _) as [Hr|]; [|done]. rewrite (proj2 (Z.leb_le 0 x)), (proj2 (Z.ltb_lt x _)), (Hnz x) by (done || lia).
    cbn [andb]. rewrite Hsum by done. unfold shown. destruct (target + (x - base) * 4096 =? x * 4096); reflexivity.
Qed.

Section Regions.
Context {H : Type} `{!FastMemory H} (backing : Z) (Hback : backing_ok backing).

Lemma aligned_mask x : (4096 | x) -> (x .& YUZU_PAGEMASK =? 0) = true.
Proof. intros [q ->]. change YUZU_PAGEMASK with (Z.ones 12). rewrite Z.land_ones by lia. by rewrite Z.mod_mul. Qed.

Lemma MapMemoryRegion_ok base n target perms separate t (h : H) : table_wf t -> 0 <= base -> 0 < n -> base + n <= entries_size t ->
  (4096 | target) -> DramBase <= target -> target + n * 4096 < 2 ^ 44 ->
  exists t', MapMemoryRegion backing (base * 4096) (n * 4096) target perms separate t h =
    mret (t', if fastmem_arena h then fast_Map (base * 4096) (u64 (target - DramBase)) (n * 4096) perms separate h else h) /\ range_mapped t t' base n target.
Proof.
  intros W Hb Hn0 Hn Ht Hd Hlow. pose proof (tw_size t W) as Hs. change DramBase with 2147483648 in Hd. unfold MapMemoryRegion.
  rewrite bind_assert_true by (apply aligned_mask; by exists n). rewrite bind_assert_true by (apply aligned_mask; by exists base).
  rewrite bind_assert_true by (change DramBase with 2147483648; by apply Z.leb_le). change YUZU_PAGESIZE with 4096. rewrite !Z.div_mul by lia.
  unfold MapPages. rewrite (u64_small (base + n)) by lia. rewrite bind_assert_true by (apply Z.leb_le; lia). replace (base + n - base) with n by lia. rewrite (u64_small n) by lia.
  rewrite (proj2 (Z.eqb_neq target 0)) by lia.
  destruct (fill_pages_ok backing Hback PageType.Memory base (Z.to_nat n)) with (base := base) (target := target) (t := t) as (t' & -> & R); try done; try (unfold DramBase; lia).
  rewrite bind_ret. exists t'. split; [done|]. rewrite Z2Nat.id in R by lia. apply remapped_mapped; (done || lia).
Qed.

Lemma UnmapRegion_ok base n separate t (h : H) : table_wf t -> 0 <= base -> 0 <= n -> base + n <= entries_size t ->
  exists t', UnmapRegion backing (base * 4096) (n * 4096) separate t h = mret (t', if fastmem_arena h then fast_Unmap (base * 4096) (n * 4096) separate h else h) /\ range_unmapped t t' base n.
Proof.
  intros W Hb Hn0 Hn. pose proof (tw_size t W) as Hs. unfold UnmapRegion.
  rewrite bind_assert_true by (apply aligned_mask; by exists n). rewrite bind_assert_true by (apply aligned_mask; by exists base).
  change YUZU_PAGESIZE with 4096. rewrite !Z.div_mul by lia.
  unfold MapPages. rewrite (u64_small (base + n)) by lia. rewrite bind_assert_true by (apply Z.leb_le; lia). replace (base + n - base) with n by lia. rewrite (u64_small n) by lia.
  cbn [Z.eqb]. rewrite bind_assert_true by done. destruct (clear_pages_ok PageType.Unmapped (Z.to_nat n) base t) as (t' & -> & R); [lia..|].
  rewrite bind_ret. exists t'. split; [done|]. rewrite Z2Nat.id in R by lia. by apply remapped_unmapped.
Qed.

Lemma protect_loop_ok t perms n : forall v b k (h : H), 0 <= v -> v + Z.of_nat n <= entries_size t -> entries_size t <= 2 ^ 39 ->
  exists h', protect_loop n (v * 4096) b k perms t h = mret h'.
Proof.
  induction n as [|n IH]; intros v b k h Hv Hn Hs; cbn [protect_loop]; [by eexists|]. unfold YUZU_PAGEBITS. rewrite Z.shiftr_div_pow2, Z.div_mul by lia.
  rewrite (proj2 (Z.ltb_lt v (entries_size t))) by lia. change YUZU_PAGESIZE with 4096. rewrite (u64_small (v * 4096 + 4096)) by lia. replace (v * 4096 + 4096) with ((v + 1) * 4096) by lia.
  destruct (_ =? _); apply IH; lia.
Qed.

Lemma ProtectRegion_ok base n perms t (h : H) : table_wf t -> 0 <= base -> 0 <= n -> base + n <= entries_size t ->
  exists h', ProtectRegion (base * 4096) (n * 4096) perms t h = mret h'.
Proof.
  intros W Hb Hn0 Hn. pose proof (tw_size t W) as Hs. unfold ProtectRegion.
  rewrite bind_assert_true by (apply aligned_mask; by exists n). rewrite bind_assert_true by (apply aligned_mask; by exists base).
  destruct (fastmem_arena h); [|by eexists]. rewrite u64_small by lia. change YUZU_PAGESIZE with 4096. change YUZU_PAGEMASK with 4095.
  apply protect_loop_ok; [lia| |lia]. rewrite Z2Nat.id by (apply Z.div_pos; lia). replace (Z.max 0 (base * 4096 + n * 4096 - base * 4096) + 4095) with (4095 + n * 4096) by lia.
  rewrite Z.div_add by lia. change (4095 / 4096) with 0. lia.
Qed.
End Regions.

(** ** Runs of physical pages *)

Definition phys_pages (t : PageTable) (page n : Z) : option (list Z) := mapM (mapped t) (seqZ page n).

(** The blocks of a run of [n] pages from [a] and the pages of [l] behind it. *)
Fixpoint runs_from (a n : Z) (l : list Z) : list KBlockInfo :=
  match l with
  | [] => [mkInfo (a / 4096) n]
  | x :: r => if x =? a + n * 4096 then runs_from a (n + 1) r else mkInfo (a / 4096) n :: runs_from x 1 r
  end.
Definition runs (l : list Z) : list KBlockInfo := match l with [] => [] | x :: r => runs_from x 1 r end.

(** No block begins where the one before it ends. *)
Fixpoint maximal (l : list KBlockInfo) : Prop :=
  match l with
  | b :: ((c :: _) as r) => bstop b <> bstart c /\ maximal r
  | _ => True
  end.

Definition page_ok (x : Z) : Prop := 0 < x /\ (4096 | x) /\ x + 4096 < 2 ^ 44.

Lemma runs_from_head a n l : exists m r, runs_from a n l = mkInfo (a / 4096) m :: r /\ n <= m.
Proof.
  revert n. induction l as [|x l IH]; intros n; cbn [runs_from]; [by exists n, []|].
  destruct (x =? _); [|by eexists n, _]. destruct (IH (n + 1)) as (m & r & -> & ?). exists m, r. split; [done|lia].
Qed.

Lemma block_pages_snoc i n : 0 <= n -> block_pages (mkInfo i (n + 1)) = block_pages (mkInfo i n) ++ [(i + n) * 4096].
Proof. intros Hn. unfold block_pages. cbn [m_page_index m_num_pages]. rewrite seqZ_app, map_app by lia. cbn. by rewrite Z.add_0_l. Qed.

Lemma block_pages_one x : (4096 | x) -> block_pages (mkInfo (x / 4096) 1) = [x].
Proof. intros [q ->]. rewrite Z.div_mul by lia. unfold block_pages. cbn [m_page_index m_num_pages]. change (seqZ 0 1) with [0]. cbn [map]. f_equal. lia. Qed.

Lemma runs_from_spec l : forall a n, page_ok a -> 0 < n -> a + n * 4096 < 2 ^ 44 -> Forall page_ok l ->
  concat (map block_pages (runs_from a n l)) = block_pages (mkInfo (a / 4096) n) ++ l /\ maximal (runs_from a n l) /\ Forall block_wf (runs_from a n l).
Proof.
  induction l as [|x l IH]; intros a n Ha Hn Hlow Hl; cbn [runs_from].
  - destruct Ha as (? & [q ->] & ?). cbn [map concat]. split; [done|]. split; [done|]. apply Forall_singleton. unfold block_wf. cbn. rewrite Z.div_mul by lia. lia.
  - apply Forall_cons_1 in Hl as [Hx Hl]. destruct (Z.eqb_spec x (a + n * 4096)) as [->|Hne].
    + destruct (IH a (n + 1)) as (E & Hm & Hw); [done|lia|destruct Hx; lia|done|]. split; [|done]. rewrite E, block_pages_snoc, <- app_assoc by lia. cbn.
      destruct Ha as (? & [q ->] & ?). rewrite Z.div_mul by lia. do 3 f_equal. lia.
    + destruct (IH x 1) as (E & Hm & Hw); [done|lia|destruct Hx; lia|done|]. destruct Ha as (? & [q ->] & ?). cbn [map concat]. rewrite E. split; [|split].
      * by rewrite block_pages_one by apply Hx.
      * destruct (runs_from_head x 1 l) as (m & r & E1 & _). rewrite E1 in *. split; [|done]. unfold bstop, bstart. cbn.
        destruct Hx as (? & [p ->] & ?). rewrite !Z.div_mul by lia. lia.
      * constructor; [|done]. unfold block_wf. cbn. rewrite Z.div_mul by lia. lia.
Qed.

(** The runs of a list of pages are its blocks: they have its pages in order, and they are as long as can be. *)
Lemma runs_spec l : Forall page_ok l -> concat (map block_pages (runs l)) = l /\ maximal (runs l) /\ Forall block_wf (runs l).
Proof.
  intros Hl. destruct l as [|x l]; [done|]. apply Forall_cons_1 in Hl as [Hx Hl]. cbn [runs].
  destruct (runs_from_spec l x 1) as (E & Hm); [done|lia|destruct Hx; lia|done|]. split; [|done]. rewrite E. by rewrite block_pages_one by apply Hx.
Qed.

Lemma block_pages_cons i n : 0 < n -> block_pages (mkInfo i n) = i * 4096 :: block_pages (mkInfo (i + 1) (n - 1)).
Proof.
  intros Hn. unfold block_pages. cbn [m_page_index m_num_pages]. rewrite seqZ_cons by lia. cbn [map]. rewrite Z.add_0_r. f_equal.
  change (Z.succ 0) with 1. replace (Z.pred n) with (n - 1) by lia. rewrite <- (fmap_add_seqZ 1 0).
  unfold fmap. rewrite map_map. apply map_ext. intros k. lia.
Qed.

Lemma runs_from_block i n m l : 0 <= m -> runs_from (i * 4096) n (block_pages (mkInfo (i + n) m) ++ l) = runs_from (i * 4096) (n + m) l.
Proof.
  intros Hm. revert n. pattern m. apply natlike_ind; [intros n|intros k Hk IH n|done].
  - by rewrite Z.add_0_r.
  - rewrite block_pages_cons by lia. cbn [app runs_from]. rewrite (proj2 (Z.eqb_eq _ _)) by lia.
    replace (Z.succ k - 1) with k by lia. replace (i + n + 1) with (i + (n + 1)) by lia. rewrite IH. f_equal. lia.
Qed.

(** A group whose blocks are as long as can be is the runs of its own pages. *)
Lemma runs_pages bs : Forall block_wf bs -> maximal bs -> runs (concat (map block_pages bs)) = bs.
Proof.
  induction bs as [|b bs IH]; intros Hw Hm; [done|]. apply Forall_cons_1 in Hw as [Hb Hw]. destruct b as [i n]. destruct Hb as (B1 & B2 & B3). cbn [m_page_index m_num_pages] in *.
  cbn [map concat]. rewrite block_pages_cons by lia. cbn [app runs]. rewrite runs_from_block by lia. replace (1 + (n - 1)) with n by lia.
  destruct bs as [|[j k] bs]; [cbn; by rewrite Z.div_mul|]. destruct Hm as [Hne Hm]. specialize (IH Hw Hm). apply Forall_cons_1 in Hw as [(C1 & C2 & C3) Hw]. cbn [m_page_index m_num_pages] in *.
  cbn [map concat] in *. rewrite block_pages_cons in * by lia. cbn [app runs runs_from] in *. unfold bstop, bstart in Hne. cbn in Hne.
  rewrite (proj2 (Z.eqb_neq _ _)) by lia. rewrite Z.div_mul by lia. by rewrite IH.
Qed.

Lemma phys_pages_ok t page n l : table_wf t -> phys_pages t page n = Some l -> Forall page_ok l.
Proof.
  intros W Hl. apply mapM_Some in Hl. apply list.Forall_forall. intros x Hx. apply list_elem_of_lookup in Hx as [i Hx].
  destruct (Forall2_lookup_r _ _ _ _ _ Hl Hx) as (p & _ & Hp). apply (mapped_ok t p x W) in Hp. unfold page_ok. tauto.
Qed.

Lemma phys_pages_cons t page n : 0 < n -> phys_pages t page n = match mapped t page with Some x => match phys_pages t (page + 1) (n - 1) with Some l => Some (x :: l) | None => None end | None => None end.
Proof. intros Hn. unfold phys_pages. rewrite seqZ_cons by lia. by replace (Z.pred n) with (n - 1) by lia. Qed.

Lemma phys_pages_nil t page : phys_pages t page 0 = Some [].
Proof. done. Qed.

(** The physical pages of a range up to the first page that the table shows as not mapped: all that a traversal sees. *)
Fixpoint visible (t : PageTable) (l : list Z) : list Z :=
  match l with
  | [] => []
  | x :: r => match mapped t x with Some p => p :: visible t r | None => [] end
  end.
Definition visible_pages (t : PageTable) (page n : Z) : list Z := visible t (seqZ page n).

Lemma visible_pages_cons t page n : 0 < n -> visible_pages t page n = match mapped t page with Some x => x :: visible_pages t (page + 1) (n - 1) | None => [] end.
Proof. intros Hn. unfold visible_pages. rewrite seqZ_cons by done. cbn [visible]. by rewrite <- Z.sub_1_r. Qed.

Lemma visible_phys t l : forall q, mapM (mapped t) l = Some q <-> visible t l = q /\ length q = length l.
Proof.
  induction l as [|x l IH]; intros q; cbn [mapM visible].
  - split; [by intros [= <-]|]. intros [<- _]. done.
  - destruct (mapped t x) as [p|]; cbn [mbind option_bind]; [|split; [done|]; by intros [<- ?]]. destruct (mapM (mapped t) l) as [q'|] eqn:Eq; cbn [mbind option_bind].
    + pose proof (proj1 (IH q') eq_refl) as [Ev El]. rewrite Ev. split; [intros [= <-]; split; [done|cbn; by rewrite El]|]. by intros [<- _].
    + split; [done|]. intros [<- Hl]. injection Hl as Hl. discriminate (proj2 (IH (visible t l)) (conj eq_refl Hl)).
Qed.

Lemma visible_length t l : (length (visible t l) <= length l)%nat.
Proof. induction l as [|x l IH]; cbn; [done|]. destruct (mapped t x); cbn; lia. Qed.

(** When not all pages are visible, one of the range is not mapped. *)
Lemma visible_short t l : (length (visible t l) < length l)%nat -> exists x, x ∈ l /\ mapped t x = None.
Proof.
  induction l as [|x l IH]; cbn [visible length]; [lia|]. destruct (mapped t x) as [p|] eqn:Ex; cbn [length]; [|intros _; exists x; split; [apply list_elem_of_here|done]].
  intros Hl. destruct IH as (y & Hy & Ey); [lia|]. exists y. split; [by apply list_elem_of_further|done].
Qed.

(** The visible pages end before the first page that is not mapped. *)
Lemma visible_stops t page n x : page <= x < page + n -> mapped t x = None -> Z.of_nat (length (visible_pages t page n)) <= x - page.
Proof.
  intros Hx Ex. replace n with (Z.of_nat (Z.to_nat n)) in * by lia. generalize dependent page. induction (Z.to_nat n) as [|k IH]; intros page Hx; [lia|].
  rewrite visible_pages_cons by lia. replace (Z.of_nat (S k) - 1) with (Z.of_nat k) by lia. destruct (decide (x = page)) as [->|Hne]; [rewrite Ex; cbn; lia|].
  destruct (mapped t page); cbn [length]; [|lia]. specialize (IH (page + 1)). lia.
Qed.

Lemma visible_ok t l : table_wf t -> Forall page_ok (visible t l).
Proof.
  intros W. induction l as [|x l IH]; cbn [visible]; [constructor|]. destruct (mapped t x) as [p|] eqn:Ex; [|constructor]. constructor; [|done].
  apply (mapped_ok t x p W) in Ex. unfold page_ok. tauto.
Qed.

Section GroupProofs.
Context (heap : Z -> bool) {M : Type} {BS : BlockInfoSource M}.
Implicit Types pg : KPageGroup M.

(** The physical pages of a range, when all are mapped and every run starts in the heap. *)
Definition good_runs (l : list KBlockInfo) : Prop := Forall (fun b => heap (bstart b) = true) l.

(** The group does not end where the pages at [a] begin. *)
Definition no_join (l : list KBlockInfo) (a : Z) : Prop := forall l0 b, l = l0 ++ [b] -> bstop b <> a.

Lemma AddBlock_new pg a np : Forall block_wf (g_blocks pg) -> page_ok a -> 0 < np -> a + np * 4096 < 2 ^ 44 -> no_join (g_blocks pg) a ->
  exists r pg', AddBlock a np pg = Done true (r, pg') /\
    ((r = ResultSuccess /\ g_blocks pg' = g_blocks pg ++ [mkInfo (a / 4096) np]) \/ (r = ResultOutOfResource /\ g_blocks pg' = g_blocks pg /\ source_refuses (M := M))).
Proof.
  intros Hw (Ha & Hd & _) Hn Hlow Hj. destruct (AddBlock_spec pg a np Hw Hd Ha Hn Hlow) as (r & pg' & E & [[-> Hadd]|(-> & Hg & Hr)]); eexists _, pg'; (split; [exact E|]); [left|right; done].
  split; [done|]. inversion Hadd as [Hl|l0 b El Hb Hl]; [done|]. by destruct (Hj l0 b El).
Qed.

(** What making the blocks of the pages [o] behind the run of [np] pages from [cur] answers. *)
Definition made (cur np : Z) (o : option (list Z)) (pg : KPageGroup M) (r : Z) (pg' : KPageGroup M) : Prop :=
  (exists l, o = Some l /\ good_runs (runs_from cur np l) /\ r = ResultSuccess /\ g_blocks pg' = g_blocks pg ++ runs_from cur np l) \/
  (r = ResultInvalidCurrentMemory /\ ~ exists l, o = Some l /\ good_runs (runs_from cur np l)) \/
  (r = ResultOutOfResource /\ source_refuses (M := M)).

Definition cons_page (x : Z) (o : option (list Z)) : option (list Z) := match o with Some l => Some (x :: l) | None => None end.

Lemma made_none cur np pg : made cur np None pg ResultInvalidCurrentMemory pg.
Proof. right; left. split; [done|]. by intros (l & ? & _). Qed.

Lemma made_refused cur np o pg pg' : source_refuses (M := M) -> made cur np o pg ResultOutOfResource pg'.
Proof. intros. by right; right. Qed.

Lemma run_bounds cur np : page_ok cur -> bstart (mkInfo (cur / 4096) np) = cur /\ bstop (mkInfo (cur / 4096) np) = cur + np * 4096.
Proof. intros (_ & [q ->] & _). unfold bstart, bstop. cbn. rewrite Z.div_mul by lia. lia. Qed.

Lemma run_wf cur np : page_ok cur -> 0 < np -> cur + np * 4096 < 2 ^ 44 -> block_wf (mkInfo (cur / 4096) np).
Proof. intros (? & [q ->] & ?) ? ?. unfold block_wf. cbn. rewrite Z.div_mul by lia. lia. Qed.

Lemma made_same_run cur np o pg r pg' : made cur (np + 1) o pg r pg' -> made cur np (cons_page (cur + np * 4096) o) pg r pg'.
Proof.
  intros [(l & -> & Hg & Hr)|[[-> Hno]|Hm]]; [left|right; left|by right; right].
  - exists (cur + np * 4096 :: l). cbn [runs_from]. by rewrite Z.eqb_refl.
  - split; [done|]. intros (l & El & Hg). destruct o as [l'|]; [|done]. injection El as <-. cbn [runs_from] in Hg. rewrite Z.eqb_refl in Hg. apply Hno. by exists l'.
Qed.

Lemma made_new_run cur np x o pg pg1 r pg' : page_ok cur -> heap cur = true -> x <> cur + np * 4096 ->
  g_blocks pg1 = g_blocks pg ++ [mkInfo (cur / 4096) np] -> made x 1 o pg1 r pg' -> made cur np (cons_page x o) pg r pg'.
Proof.
  intros Hc Hh Hne Hg1 [(l & -> & Hg & Hr & Hg')|[[-> Hno]|Hm]]; [left|right; left|by right; right].
  - exists (x :: l). cbn [runs_from]. rewrite (proj2 (Z.eqb_neq x _)) by done. split_and!; [done| |done|by rewrite Hg', Hg1, <- app_assoc].
    constructor; [|done]. by rewrite (proj1 (run_bounds cur np Hc)).
  - split; [done|]. intros (l & El & Hg). destruct o as [l'|]; [|done]. injection El as <-. cbn [runs_from] in Hg. rewrite (proj2 (Z.eqb_neq x _)) in Hg by done.
    apply Forall_cons_1 in Hg as [_ Hg]. apply Hno. by exists l'.
Qed.

(** The blocks [q] are those of [l] with the first ones of [pages] behind them: what making a group leaves in it, also when it fails. *)
Definition grown (l q : list KBlockInfo) (pages : list Z) : Prop :=
  Forall block_wf q /\ exists d, concat (map block_pages q) = concat (map block_pages l) ++ d /\ d `prefix_of` pages.

Lemma grown_refl l pages : Forall block_wf l -> grown l l pages.
Proof. intros Hl. split; [done|]. exists []. rewrite app_nil_r. split; [done|apply prefix_nil]. Qed.

Lemma grown_run l b q pages : grown (l ++ [b]) q pages -> grown l q (block_pages b ++ pages).
Proof.
  intros [Hq (d & Ed & Hd)]. split; [done|]. exists (block_pages b ++ d). split; [|by apply prefix_app]. by rewrite Ed, map_app, concat_app, <- app_assoc; cbn [map concat]; rewrite app_nil_r.
Qed.

(** A run that does not start in the heap. *)
Lemma made_no_heap cur np o pg : page_ok cur -> heap cur = false -> made cur np o pg ResultInvalidCurrentMemory pg.
Proof.
  intros Hc Hh. right; left. split; [done|]. intros (l & -> & Hg). destruct (runs_from_head cur np l) as (m & r & E & _). rewrite E in Hg.
  apply Forall_cons_1 in Hg as [Hg _]. cbv beta in Hg. by rewrite (proj1 (run_bounds cur m Hc)), Hh in Hg.
Qed.

Lemma make_rest_ok t k : table_wf t -> forall fuel page cur np tot pg, (k <= fuel)%nat -> 0 <= page -> page + Z.of_nat k < 2 ^ 52 - 1 ->
  page_ok cur -> 0 < np -> cur + np * 4096 < 2 ^ 44 -> 0 <= tot -> tot + Z.of_nat k * 4096 < 2 ^ 63 -> Forall block_wf (g_blocks pg) -> no_join (g_blocks pg) cur ->
  let size := tot + Z.of_nat k * 4096 in
  exists r pg', (v ← make_loop heap fuel t (mkContext page (page * 4096)) cur (np * 4096) tot size pg; make_last heap size v) = Done true (r, pg') /\
    made cur np (phys_pages t page (Z.of_nat k)) pg r pg' /\
    grown (g_blocks pg) (g_blocks pg') (block_pages (mkInfo (cur / 4096) np) ++ visible_pages t page (Z.of_nat k)).
Proof.
  intros W. induction k as [|k IH]; intros fuel page cur np tot pg Hf Hp0 Hp Hc Hn Hlow Ht Hs Hw Hj size; unfold size; clear size.
  - rewrite Z.mul_0_l, Z.add_0_r. assert (make_loop heap fuel t (mkContext page (page * 4096)) cur (np * 4096) tot tot pg = mret (ResultSuccess, (cur, np * 4096, tot), pg)) as ->.
    { destruct fuel; cbn [make_loop]; by rewrite Z.ltb_irrefl. }
    rewrite bind_ret. unfold make_last. rewrite Z.ltb_irrefl. change (IsError ResultSuccess) with false. cbv iota. unfold PageSize. rewrite Z.div_mul by lia.
    rewrite phys_pages_nil. destruct (heap cur) eqn:Hh; cbn [negb].
    2: { eexists _, _. split; [done|]. split; [by apply made_no_heap|by apply grown_refl]. }
    destruct (AddBlock_new pg cur np Hw) as (r & pg' & -> & [[-> Hg]|(-> & Hg & Hr)]); try done; rewrite bind_Done_true; eexists _, _; (split; [done|]); rewrite Hg.
    + split; [|apply grown_run, grown_refl, Forall_app; split; [done|apply Forall_singleton; by apply run_wf]].
      left. exists []. split; [done|]. cbn [runs_from]. split; [|done]. apply Forall_singleton. by rewrite (proj1 (run_bounds cur np Hc)).
    + split; [by apply made_refused|by apply grown_refl].
  - destruct fuel as [|fuel]; [lia|]. cbn [make_loop]. rewrite (proj2 (Z.ltb_lt tot _)) by lia. cbn [negb]. rewrite ContinueTraversal_eq by (done || lia).
    rewrite phys_pages_cons, visible_pages_cons by lia. replace (Z.of_nat (S k) - 1) with (Z.of_nat k) by lia. replace (tot + Z.of_nat (S k) * 4096) with (tot + 4096 + Z.of_nat k * 4096) by lia.
    destruct (mapped t page) as [x|] eqn:Ex; cbn [negb phys_addr block_size].
    2: { rewrite bind_ret. eexists _, _. split; [done|]. split; [apply made_none|by apply grown_refl]. }
    assert (page_ok x) as Hx by (apply (mapped_ok t page x W) in Ex; unfold page_ok; tauto). fold (cons_page x (phys_pages t (page + 1) (Z.of_nat k))).
    replace (u64 (cur + np * 4096)) with (cur + np * 4096) by (destruct Hc; rewrite u64_small by lia; done).
    rewrite (u64_small (tot + 4096)) by lia. destruct (Z.eqb_spec x (cur + np * 4096)) as [->|Hne]; cbn [negb].
    + rewrite (u64_small (np * 4096 + 4096)) by (destruct Hc; lia). replace (np * 4096 + 4096) with ((np + 1) * 4096) by lia.
      destruct (IH fuel (page + 1) cur (np + 1) (tot + 4096) pg) as (r & pg' & E & Hm & Hgr); try done; try lia; [destruct Hx; lia|]. exists r, pg'. split; [exact E|]. split; [by apply made_same_run|].
      rewrite block_pages_snoc, <- app_assoc in Hgr by lia. destruct Hc as (_ & [q ->] & _). rewrite Z.div_mul in * by lia. by replace (q * 4096 + np * 4096) with ((q + np) * 4096) by lia.
    + unfold PageSize. rewrite Z.div_mul by lia. destruct (heap cur) eqn:Hh; cbn [negb].
      2: { rewrite bind_ret. eexists _, _. split; [done|]. split; [by apply made_no_heap|by apply grown_refl]. }
      rewrite bind_assoc. destruct (AddBlock_new pg cur np Hw) as (r & pg1 & -> & [[-> Hg]|(-> & Hg & Hr)]); try done; rewrite bind_Done_true.
      2: { change (IsError ResultOutOfResource) with true. cbv iota. rewrite bind_ret. eexists _, _. split; [done|]. rewrite Hg. split; [by apply made_refused|by apply grown_refl]. }
      change (IsError ResultSuccess) with false. cbv iota.
      destruct (IH fuel (page + 1) x 1 (tot + 4096) pg1) as (r & pg' & E & Hm & Hgr); try done; try lia.
      { destruct Hx; lia. } { rewrite Hg. apply Forall_app. split; [done|]. apply Forall_singleton. by apply run_wf. }
      { rewrite Hg. intros l0 b El. apply app_inj_tail in El as [_ <-]. by rewrite (proj2 (run_bounds cur np Hc)). }
      exists r, pg'. split; [exact E|]. split; [by apply (made_new_run cur np x _ pg pg1)|]. rewrite block_pages_one in Hgr by apply Hx. rewrite Hg in Hgr. by apply grown_run.
Qed.

Lemma first_size_eq x : (4096 | x) -> first_size (mkEntry x 4096) = 4096.
Proof. intros [q ->]. unfold first_size. cbn [block_size phys_addr]. change (u64 (4096 - 1)) with (Z.ones 12). rewrite Z.land_ones by lia. change (2 ^ 12) with 4096. by rewrite Z.mod_mul. Qed.

(** Comparing with the blocks [rem]: the current block is used up, or untouched. *)
Definition at_blocks (it : list KBlockInfo) (ba bp : Z) (rem : list KBlockInfo) : Prop :=
  (bp = 0 /\ exists b0, it = b0 :: rem) \/ (exists b r, it = b :: r /\ rem = it /\ ba = bstart b /\ bp = m_num_pages b).

Lemma at_blocks_next it ba bp rem : at_blocks it ba bp rem -> Forall block_wf rem ->
  UpdateCurrentIterator it ba bp = match rem with b :: _ => Some (rem, bstart b, m_num_pages b) | [] => None end.
Proof.
  intros [[-> [b0 ->]]|(b & r & -> & -> & -> & ->)] Hw; unfold UpdateCurrentIterator.
  - cbn [Z.eqb]. destruct rem as [|b rem]; [done|]. apply Forall_cons_1 in Hw as [Hb _]. by rewrite (proj1 (Info_address b Hb)).
  - apply Forall_cons_1 in Hw as [(? & ? & ?) _]. by rewrite (proj2 (Z.eqb_neq _ 0)) by lia.
Qed.

(** The pages behind the run of [np] pages from [cur] are what the blocks [rem] begin with. *)
Definition matches (cur np : Z) (o : option (list Z)) (rem : list KBlockInfo) : Prop :=
  exists l, o = Some l /\ good_runs (runs_from cur np l) /\ runs_from cur np l `prefix_of` rem.

Lemma matches_same_run cur np o rem : matches cur np (cons_page (cur + np * 4096) o) rem <-> matches cur (np + 1) o rem.
Proof.
  split; intros (l & El & Hg & Hp).
  - destruct o as [l'|]; [|done]. injection El as <-. cbn [runs_from] in *. rewrite Z.eqb_refl in *. by exists l'.
  - subst o. exists (cur + np * 4096 :: l). cbn [runs_from]. by rewrite Z.eqb_refl.
Qed.

Lemma matches_new_run cur np x o b rem : page_ok cur -> heap cur = true -> x <> cur + np * 4096 -> b = mkInfo (cur / 4096) np ->
  matches cur np (cons_page x o) (b :: rem) <-> matches x 1 o rem.
Proof.
  intros Hc Hh Hne ->. split; intros (l & El & Hg & Hp).
  - destruct o as [l'|]; [|done]. injection El as <-. cbn [runs_from] in *. rewrite (proj2 (Z.eqb_neq x _)) in * by done.
    apply Forall_cons_1 in Hg as [_ Hg]. exists l'. split_and!; [done..|]. by apply prefix_cons_inv_2 in Hp.
  - subst o. exists (x :: l). cbn [runs_from]. rewrite (proj2 (Z.eqb_neq x _)) by done. split_and!; [done| |by apply prefix_cons].
    constructor; [|done]. by rewrite (proj1 (run_bounds cur np Hc)).
Qed.

(** The first block decides where the run starts, and, unless the run goes on, how long it is. *)
Lemma matches_head cur np o b rem : page_ok cur -> matches cur np o (b :: rem) -> heap cur = true /\ bstart b = cur /\ np <= m_num_pages b.
Proof.
  intros Hc (l & -> & Hg & Hp). destruct (runs_from_head cur np l) as (m & r & E & Hm). rewrite E in *. apply Forall_cons_1 in Hg as [Hg _]. cbv beta in Hg.
  rewrite (proj1 (run_bounds cur m Hc)) in Hg. apply prefix_cons_inv_1 in Hp as <-. by rewrite (proj1 (run_bounds cur m Hc)).
Qed.

Lemma matches_nil cur np o : ~ matches cur np o [].
Proof. intros (l & -> & _ & Hp). destruct (runs_from_head cur np l) as (m & r & E & _). rewrite E in Hp. by apply prefix_nil_not in Hp. Qed.

Lemma matches_none cur np rem : ~ matches cur np None rem.
Proof. by intros (l & ? & _). Qed.

Lemma matches_stop cur np x o b rem : page_ok cur -> x <> cur + np * 4096 -> m_num_pages b <> np -> ~ matches cur np (cons_page x o) (b :: rem).
Proof.
  intros Hc Hne Hb (l & El & _ & Hp). destruct o as [l'|]; [|done]. injection El as <-. cbn [runs_from] in Hp. rewrite (proj2 (Z.eqb_neq x _)) in Hp by done.
  by apply prefix_cons_inv_1 in Hp as <-.
Qed.

(** A run that starts elsewhere than the rest of the current block ends the comparison. *)
Lemma valid_stuck t k : table_wf t -> forall fuel page cur np tot it ba bp, (k <= fuel)%nat -> 0 <= page -> page + Z.of_nat k < 2 ^ 52 - 1 ->
  0 <= tot -> tot + Z.of_nat k * 4096 < 2 ^ 63 -> bp <> 0 -> ba <> cur ->
  (v ← valid_loop heap fuel t (mkContext page (page * 4096)) cur np tot (tot + Z.of_nat k * 4096) it ba bp; valid_last heap (tot + Z.of_nat k * 4096) v) = Done true false.
Proof.
  intros W. induction k as [|k IH]; intros fuel page cur np tot it ba bp Hf Hp0 Hp Ht Hs Hbp Hba.
  - rewrite Z.mul_0_l, Z.add_0_r. assert (valid_loop heap fuel t (mkContext page (page * 4096)) cur np tot tot it ba bp = mret (Some (cur, np, tot, it, ba, bp))) as ->.
    { destruct fuel; cbn [valid_loop]; by rewrite Z.ltb_irrefl. }
    rewrite bind_ret. unfold valid_last, UpdateCurrentIterator. rewrite (proj2 (Z.eqb_neq bp 0)), (proj2 (Z.eqb_neq ba cur)) by done. by destruct (negb _).
  - destruct fuel as [|fuel]; [lia|]. cbn [valid_loop]. rewrite (proj2 (Z.ltb_lt tot _)) by lia. cbn [negb]. rewrite ContinueTraversal_eq by (done || lia).
    replace (tot + Z.of_nat (S k) * 4096) with (tot + 4096 + Z.of_nat k * 4096) by lia.
    destruct (mapped t page) as [x|]; cbn [negb phys_addr block_size]; [|by rewrite bind_ret]. rewrite (u64_small (tot + 4096)) by lia.
    destruct (x =? _); cbn [negb]; [apply IH; (done || lia)|]. destruct (heap cur); cbn [negb]; [|by rewrite bind_ret].
    unfold UpdateCurrentIterator. rewrite (proj2 (Z.eqb_neq bp 0)), (proj2 (Z.eqb_neq ba cur)) by done. cbn [negb orb]. by rewrite bind_ret.
Qed.

Lemma valid_rest_ok t k : table_wf t -> forall fuel page cur np tot it ba bp rem, (k <= fuel)%nat -> 0 <= page -> page + Z.of_nat k < 2 ^ 52 - 1 ->
  page_ok cur -> 0 < np -> cur + np * 4096 < 2 ^ 44 -> 0 <= tot -> tot + Z.of_nat k * 4096 < 2 ^ 63 -> at_blocks it ba bp rem -> Forall block_wf rem ->
  exists b, (v ← valid_loop heap fuel t (mkContext page (page * 4096)) cur (np * 4096) tot (tot + Z.of_nat k * 4096) it ba bp; valid_last heap (tot + Z.of_nat k * 4096) v) = Done true b /\
    (b = true <-> matches cur np (phys_pages t page (Z.of_nat k)) rem).
Proof.
  intros W. induction k as [|k IH]; intros fuel page cur np tot it ba bp rem Hf Hp0 Hp Hc Hn Hlow Ht Hs Hat Hw.
  - rewrite Z.mul_0_l, Z.add_0_r. assert (valid_loop heap fuel t (mkContext page (page * 4096)) cur (np * 4096) tot tot it ba bp = mret (Some (cur, np * 4096, tot, it, ba, bp))) as ->.
    { destruct fuel; cbn [valid_loop]; by rewrite Z.ltb_irrefl. }
    rewrite bind_ret. unfold valid_last. rewrite (at_blocks_next _ _ _ _ Hat Hw), Z.ltb_irrefl. unfold PageSize. rewrite Z.div_mul, phys_pages_nil by lia.
    destruct rem as [|b rem].
    { exists false. split; [by destruct (negb _)|]. split; [done|]. by intros []%matches_nil. }
    destruct (heap cur) eqn:Hh; cbn [negb].
    2: { exists false. split; [done|]. split; [done|]. intros (Hh' & _)%matches_head; congruence. }
    eexists. split; [done|]. rewrite andb_true_iff, !Z.eqb_eq. split.
    + intros [Hb1 Hb2]. assert (b = mkInfo (cur / 4096) np) as ->.
      { destruct b as [i m]. unfold bstart in Hb1. cbn in *. subst. by rewrite Z.div_mul. }
      exists []. split_and!; [done| |apply prefix_cons, prefix_nil]. apply Forall_singleton. by rewrite (proj1 (run_bounds cur np Hc)).
    + intros (l & [= <-] & _ & Hp1). cbn [runs_from] in Hp1. apply prefix_cons_inv_1 in Hp1 as <-. by rewrite (proj1 (run_bounds cur np Hc)).
  - destruct fuel as [|fuel]; [lia|]. cbn [valid_loop]. rewrite (proj2 (Z.ltb_lt tot _)) by lia. cbn [negb]. rewrite ContinueTraversal_eq by (done || lia).
    rewrite phys_pages_cons by lia. replace (Z.of_nat (S k) - 1) with (Z.of_nat k) by lia. replace (tot + Z.of_nat (S k) * 4096) with (tot + 4096 + Z.of_nat k * 4096) by lia.
    destruct (mapped t page) as [x|] eqn:Ex; cbn [negb phys_addr block_size].
    2: { rewrite bind_ret. exists false. split; [done|]. split; [done|]. by intros []%matches_none. }
    assert (page_ok x) as Hx by (apply (mapped_ok t page x W) in Ex; unfold page_ok; tauto). fold (cons_page x (phys_pages t (page + 1) (Z.of_nat k))).
    replace (u64 (cur + np * 4096)) with (cur + np * 4096) by (destruct Hc; rewrite u64_small by lia; done).
    rewrite (u64_small (tot + 4096)) by lia. destruct (Z.eqb_spec x (cur + np * 4096)) as [->|Hne]; cbn [negb].
    + rewrite (u64_small (np * 4096 + 4096)) by (destruct Hc; lia). replace (np * 4096 + 4096) with ((np + 1) * 4096) by lia. setoid_rewrite matches_same_run.
      destruct Hx. apply IH; (done || lia).
    + unfold PageSize. rewrite Z.div_mul by lia. rewrite (at_blocks_next _ _ _ _ Hat Hw). destruct rem as [|b rem].
      { exists false. split; [by destruct (negb _); rewrite bind_ret|]. split; [done|]. by intros []%matches_nil. }
      destruct (heap cur) eqn:Hh; cbn [negb].
      2: { rewrite bind_ret. exists false. split; [done|]. split; [done|]. intros (Hh' & _)%matches_head; congruence. }
      destruct (Z.eqb_spec (bstart b) cur) as [Hb1|Hb1], (Z.ltb_spec (m_num_pages b) np) as [Hb2|Hb2]; cbn [negb orb].
      1, 3, 4: rewrite bind_ret; exists false; (split; [done|]); (split; [done|]); (intros (_ & ? & ?)%matches_head; [lia|done]).
      apply Forall_cons_1 in Hw as [Hbw Hw]. pose proof Hbw as (W1 & W2 & W3). destruct (decide (m_num_pages b = np)) as [En|En].
      * rewrite En. replace (np - np) with 0 by lia. change (u64 0) with 0.
        destruct (IH fuel (page + 1) x 1 (tot + 4096) (b :: rem) (u64 (bstart b + np * 4096)) 0 rem) as (v & E & Hv); try done; try lia; [destruct Hx; lia|left; split; [done|by exists b]|].
        exists v. split; [exact E|]. rewrite Hv. symmetry. apply matches_new_run; try done. destruct b as [i m]. unfold bstart in Hb1. cbn in *. subst. by rewrite Z.div_mul.
      * exists false. split; [|split; [done|by intros []%matches_stop]].
        apply (valid_stuck t k W fuel (page + 1) x 4096); try lia; [rewrite u64_small by lia; lia|]. unfold bstart in *. rewrite u64_small by lia. lia.
Qed.

(** ** The properties of groups *)

Lemma MakePageGroup_ok t pg address n : table_wf t -> (4096 | address) -> 0 <= address -> 0 < n -> address / 4096 + n < 2 ^ 51 -> g_blocks pg = [] ->
  exists r pg', MakePageGroup heap t pg address n = Done true (r, pg') /\
    ((exists l, phys_pages t (address / 4096) n = Some l /\ good_runs (runs l) /\ r = ResultSuccess /\ g_blocks pg' = runs l) \/
     (r = ResultInvalidCurrentMemory /\ ~ exists l, phys_pages t (address / 4096) n = Some l /\ good_runs (runs l)) \/
     (r = ResultOutOfResource /\ source_refuses (M := M))) /\
    Forall block_wf (g_blocks pg') /\ concat (map block_pages (g_blocks pg')) `prefix_of` visible_pages t (address / 4096) n.
Proof.
  intros W Ha Ha0 Hn Hp Hg. pose proof (Z.div_pos address 4096 ltac:(lia) ltac:(lia)). assert (address < 2 ^ 63) by (destruct Ha as [q ->]; rewrite Z.div_mul in * by lia; lia).
  unfold MakePageGroup, KMemoryManager.empty. rewrite Hg. cbn [negb]. unfold PageSize. rewrite u64_small by lia.
  rewrite BeginTraversal_eq, bind_ret, ContinueTraversal_eq by (done || lia). rewrite phys_pages_cons, visible_pages_cons by lia. destruct (mapped t (address / 4096)) as [x|] eqn:Ex; cbn [negb].
  2: { eexists _, _. split; [done|]. rewrite Hg. split; [|split; [constructor|apply prefix_nil]]. right; left. split; [done|]. by intros (l & ? & _). }
  pose proof (mapped_ok t _ x W Ex) as (X1 & X2 & X3 & X4). rewrite first_size_eq by done. cbn [phys_addr].
  destruct (make_rest_ok t (Z.to_nat (n - 1)) W (Z.to_nat n) (address / 4096 + 1) x 1 4096 pg) as (r & pg' & E & Hm & Hgr); try lia; [done|rewrite Hg; constructor|rewrite Hg; by intros [] b ?|].
  rewrite Z2Nat.id in * by lia. replace (4096 + (n - 1) * 4096) with (n * 4096) in E by lia. rewrite Z.mul_1_l in E. exists r, pg'. split; [exact E|].
  rewrite block_pages_one in Hgr by done. rewrite Hg in Hgr. destruct Hgr as [Hw' (d & Ed & Hd)]. cbn in Ed. split; [|split; [done|by rewrite Ed]].
  destruct Hm as [(l & El & Hl & -> & Hb)|[[-> Hno]|Hm]]; [left|right; left|by right; right].
  - rewrite El. exists (x :: l). by rewrite Hg in Hb.
  - split; [done|]. intros (l & El & Hl). destruct (phys_pages t _ _) as [l'|]; [|done]. injection El as <-. apply Hno. by exists l'.
Qed.

Lemma IsValidPageGroup_ok t pg address n : table_wf t -> (4096 | address) -> 0 <= address -> 0 < n -> address / 4096 + n < 2 ^ 51 -> Forall block_wf (g_blocks pg) ->
  exists b, IsValidPageGroup heap t pg address n = Done true b /\
    (b = true <-> exists l, phys_pages t (address / 4096) n = Some l /\ good_runs (runs l) /\ runs l `prefix_of` g_blocks pg).
Proof.
  intros W Ha Ha0 Hn Hp Hw. pose proof (Z.div_pos address 4096 ltac:(lia) ltac:(lia)). assert (address < 2 ^ 63) by (destruct Ha as [q ->]; rewrite Z.div_mul in * by lia; lia).
  unfold IsValidPageGroup, PageSize. rewrite u64_small by lia. destruct (g_blocks pg) as [|b bs].
  { exists false. split; [done|]. split; [done|]. intros (l & El & _ & Hp1). rewrite phys_pages_cons in El by lia. destruct (mapped t _) as [x|]; [|done].
    destruct (phys_pages t _ _) as [l'|]; [|done]. injection El as <-. cbn [runs] in Hp1. destruct (runs_from_head x 1 l') as (m & r & E & _). rewrite E in Hp1. by apply prefix_nil_not in Hp1. }
  rewrite BeginTraversal_eq, bind_ret, ContinueTraversal_eq by (done || lia). rewrite phys_pages_cons by lia. destruct (mapped t (address / 4096)) as [x|] eqn:Ex; cbn [negb].
  2: { exists false. split; [done|]. split; [done|]. by intros (l & ? & _). }
  pose proof (mapped_ok t _ x W Ex) as (X1 & X2 & X3 & X4). rewrite first_size_eq by done. cbn [phys_addr].
  destruct (valid_rest_ok t (Z.to_nat (n - 1)) W (Z.to_nat n) (address / 4096 + 1) x 1 4096 (b :: bs) (bstart b) (m_num_pages b) (b :: bs)) as (v & E & Hv); try lia; [done| |done|].
  { right. by exists b, bs. }
  rewrite Z2Nat.id in * by lia. replace (4096 + (n - 1) * 4096) with (n * 4096) in E by lia. rewrite Z.mul_1_l in E. exists v. split.
  - apply Forall_cons_1 in Hw as [Hb _]. rewrite (proj1 (Info_address b Hb)). exact E.
  - rewrite Hv. unfold matches. split.
    + intros (l & El & Hl). rewrite El. by exists (x :: l).
    + intros (l & El & Hl). destruct (phys_pages t _ _) as [l'|]; [|done]. injection El as <-. by exists l'.
Qed.
End GroupProofs.

(** *** Pages and the bytes they hold *)

Lemma block_pages_in b x : block_wf b -> in_block b x <-> exists p, p ∈ block_pages b /\ p <= x < p + 4096.
Proof.
  intros (B1 & B2 & B3). unfold in_block, bstart, bstop, block_pages. split.
  - intros Hx. exists (x / 4096 * 4096). pose proof (Z.div_mod x 4096 ltac:(lia)). pose proof (Z.mod_pos_bound x 4096 ltac:(lia)). split; [|lia].
    apply list_elem_of_In, in_map_iff. exists (x / 4096 - m_page_index b). split; [lia|]. apply list_elem_of_In, elem_of_seqZ. lia.
  - intros (p & Hp & Hx). apply list_elem_of_In, in_map_iff in Hp as (k & <- & Hk). apply list_elem_of_In, elem_of_seqZ in Hk. lia.
Qed.

Lemma in_blocks_concat l x : Forall block_wf l -> in_blocks l x <-> exists p, p ∈ concat (map block_pages l) /\ p <= x < p + 4096.
Proof.
  induction l as [|b l IH]; intros Hw; cbn [map concat].
  - split; [by intros []%in_blocks_nil|]. by intros (p & []%not_elem_of_nil & _).
  - apply Forall_cons_1 in Hw as [Hb Hw]. rewrite in_blocks_cons, IH, block_pages_in by done. setoid_rewrite elem_of_app.
    split; [intros [(p & Hp & Hx)|(p & Hp & Hx)]; exists p; tauto|]. intros (p & [Hp|Hp] & Hx); [left|right]; by exists p.
Qed.

Lemma runs_disjoint l : Forall block_wf l -> NoDup (concat (map block_pages l)) -> Forall (fun p => (4096 | p)) (concat (map block_pages l)) -> disjoint_blocks l.
Proof.
  induction l as [|b l IH]; intros Hw Hn Hd; cbn [map concat disjoint_blocks] in *; [done|]. apply Forall_cons_1 in Hw as [Hb Hw].
  apply list.NoDup_app in Hn as (_ & Hx & Hn). apply Forall_app in Hd as [Hd1 Hd2]. split; [|by apply IH].
  intros x (p & Hp & Hpx)%block_pages_in (q & Hq & Hqx)%in_blocks_concat; [|done|done]. apply (Hx p Hp).
  rewrite list.Forall_forall in Hd1, Hd2. destruct (Hd1 p Hp) as [i ->], (Hd2 q Hq) as [j ->]. by assert (i = j) as -> by lia.
Qed.

Lemma disjoint_blocks_NoDup l : Forall block_wf l -> disjoint_blocks l -> NoDup (concat (map block_pages l)).
Proof.
  induction l as [|b l IH]; intros Hw Hd; cbn [map concat]; [apply NoDup_nil_2|]. apply Forall_cons_1 in Hw as [Hb Hw]. destruct Hd as [Hx Hd].
  apply list.NoDup_app. split_and!.
  - unfold block_pages. apply NoDup_fmap_2; [|apply NoDup_seqZ]. intros i j. lia.
  - intros p Hp Hq. apply (Hx p); [apply block_pages_in; [done|]; exists p; split; [done|lia]|]. apply in_blocks_concat; [done|]. exists p. split; [done|lia].
  - by apply IH.
Qed.

Lemma block_pages_aligned l : Forall (fun p => (4096 | p)) (concat (map block_pages l)).
Proof.
  induction l as [|b l IH]; cbn [map concat]; [constructor|]. apply Forall_app. split; [|done]. unfold block_pages. apply Forall_fmap, list.Forall_true. intros k. by eexists.
Qed.

(** ** The properties *)

(** C14: Making a page group from a range of a process.  It succeeds with the physical pages of the range, in order and in blocks that are as long as can be;
    then each of these blocks starts in the heap.  It is refused only when a page is not mapped or such a block does not start in the heap, and else fails
    only when the source of block records does. *)
Theorem make_page_group (heap : Z -> bool) {M} {BS : BlockInfoSource M} t (pg : KPageGroup M) address n :
  table_wf t -> (4096 | address) -> 0 <= address -> 0 < n -> address / 4096 + n < 2 ^ 51 -> g_blocks pg = [] ->
  exists r pg', MakePageGroup heap t pg address n = Done true (r, pg') /\
    (r = ResultSuccess -> exists l, phys_pages t (address / 4096) n = Some l /\ concat (map block_pages (g_blocks pg')) = l /\ maximal (g_blocks pg') /\
       Forall (fun b => heap (bstart b) = true) (g_blocks pg')) /\
    (r <> ResultSuccess -> r = ResultInvalidCurrentMemory /\ (~ exists l, phys_pages t (address / 4096) n = Some l /\ good_runs heap (runs l)) \/
       r = ResultOutOfResource /\ source_refuses (M := M)).
Proof.
  intros W Ha H0 Hn Hp Hg. destruct (MakePageGroup_ok heap t pg address n W Ha H0 Hn Hp Hg) as (r & pg' & E & Hr & _). exists r, pg'. split; [exact E|].
  destruct Hr as [(l & El & Hl & -> & ->)|[[-> Hno]|[-> Hs]]].
  - split; [|done]. intros _. exists l. split; [done|]. unfold good_runs in Hl. apply (phys_pages_ok t _ _ _ W), runs_spec in El. tauto.
  - split; [done|]. intros _. by left.
  - split; [done|]. intros _. by right.
Qed.

(** C15: Checking a page group against a range.  The group is accepted exactly when every page of the range is mapped, every run of physical pages starts in the heap, and the runs are
    the first blocks of the group; a group that was just made from the range is accepted. *)
Theorem valid_page_group (heap : Z -> bool) {M} {BS : BlockInfoSource M} t (pg : KPageGroup M) address n :
  table_wf t -> (4096 | address) -> 0 <= address -> 0 < n -> address / 4096 + n < 2 ^ 51 -> Forall block_wf (g_blocks pg) ->
  (exists b, IsValidPageGroup heap t pg address n = Done true b /\
     (b = true <-> exists l, phys_pages t (address / 4096) n = Some l /\ good_runs heap (runs l) /\ runs l `prefix_of` g_blocks pg)) /\
  forall pg0 pg1, g_blocks pg0 = [] -> MakePageGroup heap t pg0 address n = Done true (ResultSuccess, pg1) -> IsValidPageGroup heap t pg1 address n = Done true true.
Proof.
  intros W Ha H0 Hn Hp Hw. split; [by apply IsValidPageGroup_ok|]. intros pg0 pg1 Hg E.
  destruct (MakePageGroup_ok heap t pg0 address n W Ha H0 Hn Hp Hg) as (r & pg' & E' & Hr & _). rewrite E in E'. injection E' as <- <-.
  destruct Hr as [(l & El & Hl & _ & Eg)|[[? _]|[? _]]]; [|done..]. assert (Forall block_wf (g_blocks pg1)) as Hw1.
  { rewrite Eg. apply (phys_pages_ok t _ _ _ W), runs_spec in El. tauto. }
  destruct (IsValidPageGroup_ok heap t pg1 address n W Ha H0 Hn Hp Hw1) as (b & -> & Hb). destruct b; [done|]. exfalso. assert (false = true) as Hf; [|done].
  apply Hb. exists l. split_and!; [done..|]. by rewrite Eg.
Qed.

(** ** Examples *)

(** A table of sixteen pages: 8 and 9 are mapped in a row, 10 elsewhere. *)
Definition demo_table : PageTable :=
  mkPageTable (<[8 := mkData 0 0 0x7fff8000]> (<[9 := mkData 0 0 0x7fff8000]> (<[10 := mkData 0 0 0x7fffb000]> ∅))) 16 16 4096.

Lemma demo_table_wf : table_wf demo_table.
Proof.
  split; [done|by vm_compute|]. intros page _. destruct (decide (page = 8)) as [->|H8]; [intros _; split_and!; [by vm_compute|by exists 0x7fff8|by vm_compute..]|].
  destruct (decide (page = 9)) as [->|H9]; [intros _; split_and!; [by vm_compute|by exists 0x7fff8|by vm_compute..]|].
  destruct (decide (page = 10)) as [->|H10]; [intros _; split_and!; [by vm_compute|by exists 0x7fffb|by vm_compute..]|].
  unfold entry, demo_table. cbn [entries]. rewrite !lookup_insert_ne, lookup_empty by done. by intros [].
Qed.

#[local] Existing Instance counter_source.

(** A heap that ends before the third page: the group cannot be made. *)
Lemma make_page_group_witness : exists r pg', MakePageGroup (fun x => x <? 0x80004000) demo_table (mkGroup [] 5%nat) 0x8000 3 = Done true (r, pg') /\ r <> ResultSuccess.
Proof.
  destruct (make_page_group (fun x => x <? 0x80004000) demo_table (mkGroup [] 5%nat) 0x8000 3 demo_table_wf) as (r & pg' & E & H1 & _);
    [by exists 8|lia|lia|by vm_compute|reflexivity|]. exists r, pg'. split; [exact E|]. intros Hr. destruct (H1 Hr) as (l & El & Hl & Hmax & Hh).
  vm_compute in E. injection E as E _. rewrite Hr in E. discriminate E.
Defined.

Lemma valid_page_group_witness : IsValidPageGroup (fun _ => true) demo_table (mkGroup [mkInfo 0x80000 2; mkInfo 0x80005 1] 5%nat) 0x8000 3 = Done true true.
Proof.
  destruct (valid_page_group (fun _ => true) demo_table (mkGroup [mkInfo 0x80000 2; mkInfo 0x80005 1] 5%nat) 0x8000 3 demo_table_wf) as [(b & E & Hb) _];
    [by exists 8|lia|lia|by vm_compute|repeat (constructor; [by vm_compute|]); constructor|].
  assert (b = true) as Ht by (apply Hb; exists [0x80000000; 0x80001000; 0x80005000]; split; [by vm_compute|split; [by apply list.Forall_true|by exists []]]). rewrite Ht in E. exact E.
Defined.

(** A page that is mapped to the physical page of its own address counts as not mapped: the entry keeps the difference, which is 0. *)
Lemma identity_mapping_lost : exists t, MapPages (2 ^ 60) 0x80000 1 0x80000000 PageType.Memory (mkPageTable ∅ 0x1000000 36 4096) = Done true t /\
  BeginTraversal t 0x80000000 = Done true (false, mkEntry 0 4096, mkContext 0x80001 0x80001000) /\ addr (entry t 0x80000) = 0 /\ ptr (entry t 0x80000) <> 0.
Proof. eexists. split; [vm_compute; reflexivity|]. by vm_compute. Qed.

(** [GetPhysicalAddress] of the first address behind the address space reads behind the entries. *)
Lemma physical_address_of_end : GetPhysicalAddress (mkPageTable ∅ 16 16 4096) 0x10000 = Undef.
Proof. reflexivity. Qed.
