(* ===== verification/KPageTable.v ===== *)
(** * KPageTable: mapping and unmapping the memory of a process

    Models, of core/hle/kernel/k_page_table_base.cpp, the operations everything else that changes an address space is made of: [Operate] in both forms, [AllocateAndMapPagesImpl],
    [MapPageGroupImpl], and [MapPages] and [UnmapPages] at an address.

    An operation works on four components at once: the blocks of the address space (KMemoryBlockManager.v), the page table of the host
    (HostPageTable.v), the references of the physical pages (KMemoryManager.v) and the two sources of bookkeeping objects.  They are the members of one record,
    [Machine], and an operation answers a result code with the new machine.

    The theorems say that mapping pages gives exactly the pages of its range the new state and fresh physical pages with one
    reference each, that unmapping takes it all back, but for the pages lost by two defects of the code that the statements name, that every failure leaves the address space as it was,
    and that the number of blocks the check reports is enough for the update. *)

From stdpp Require Import gmap.
From S2P Require Import Prelude Common BitField TinyMT KPageBitmap KPageHeap KMemoryRegion KMemoryBlock KMemoryBlockManager KMemoryManager KPageTableSpace KPageTableCheck HostPageTable.
#[local] Open Scope Z_scope.

(** [CanContain] for a state with its flags: the number of the state is the kind of memory. *)
Definition all_svc : list MemoryState.Svc :=
  [MemoryState.Free; MemoryState.Io; MemoryState.Static; MemoryState.Code; MemoryState.CodeData; MemoryState.Normal; MemoryState.Shared; MemoryState.Alias; MemoryState.AliasCode; MemoryState.AliasCodeData; MemoryState.Ipc; MemoryState.Stack;
   MemoryState.ThreadLocal; MemoryState.Transferred; MemoryState.SharedTransferred; MemoryState.SharedCode; MemoryState.Inaccessible; MemoryState.NonSecureIpc; MemoryState.NonDeviceIpc; MemoryState.Kernel; MemoryState.GeneratedCode; MemoryState.CodeOut; MemoryState.Coverage; MemoryState.Insecure].
Definition svc_of (state : Z) : option MemoryState.Svc := List.find (fun s => MemoryState.svc_value s =? state .& MemoryState.Mask) all_svc.
Definition CanContain_state (t : KPageTableBase) (addr size state : Z) : outcome bool :=
  match svc_of state with Some s => CanContain t addr size s | None => Undef end.

Section Operations.
Context {S : Type} {ES : EntropySource S} {B : Type} {FB : FreeBitmap B} {M : Type} {BS : BlockInfoSource M} {Sl : Type} {SL : BlockSlab Sl} {H : Type} {FM : FastMemory H}.

(** What the methods depend on: the layout of the memory, the test for heap addresses, and where the host has put the memory of the device. *)
Context (layout : Z -> Z) (IsHeapPhysicalAddress : Z -> bool) (backing : Z).
Notation group := (KPageGroup M).

Record Machine := mkMachine {
  m_table : KPageTableBase;
  m_impl : PageTable;
  m_fast : H;
  m_memory_manager : KMemoryManager (S := S) (B := B);
  m_infos : M;
  m_memory_block_slab_manager : Sl
}.

Definition with_host (t : PageTable) (h : H) (mc : Machine) : Machine := mkMachine (m_table mc) t h (m_memory_manager mc) (m_infos mc) (m_memory_block_slab_manager mc).
Definition with_memory (mm : KMemoryManager) (mc : Machine) : Machine := mkMachine (m_table mc) (m_impl mc) (m_fast mc) mm (m_infos mc) (m_memory_block_slab_manager mc).
Definition with_infos (i : M) (mc : Machine) : Machine := mkMachine (m_table mc) (m_impl mc) (m_fast mc) (m_memory_manager mc) i (m_memory_block_slab_manager mc).
Definition with_slab (s : Sl) (mc : Machine) : Machine := mkMachine (m_table mc) (m_impl mc) (m_fast mc) (m_memory_manager mc) (m_infos mc) s.
Definition with_tree (b : KMemoryBlockManager) (mc : Machine) : Machine := mkMachine (with_blocks b (m_table mc)) (m_impl mc) (m_fast mc) (m_memory_manager mc) (m_infos mc) (m_memory_block_slab_manager mc).
Definition blocks_of (mc : Machine) : list KMemoryBlock := m_memory_block_tree (m_memory_block_manager (m_table mc)).

(** ** Operate *)

(** The form for a range; the list of free page entries and all properties but the permission go unused. *)
Definition Operate (virt_addr num_pages phys_addr perm operation : Z) (mc : Machine) : outcome (Z * Machine) :=
  ASSERT (0 <? num_pages);;
  ASSERT (IsAligned 64 virt_addr PageSize);;
  ASSERT (ContainsPages (m_table mc) virt_addr num_pages);;
  if (operation =? OperationType.Unmap) || (operation =? OperationType.UnmapPhysical) then
    let separate_heap := operation =? OperationType.UnmapPhysical in
    '(_, pages_to_close) ← MakePageGroup IsHeapPhysicalAddress (m_impl mc) (mkGroup [] (m_infos mc)) virt_addr num_pages;
    '(t, h) ← UnmapRegion backing virt_addr (u64 (num_pages * PageSize)) separate_heap (m_impl mc) (m_fast mc);
    '(pages_to_close, mm) ← CloseAndReset layout pages_to_close (m_memory_manager mc);
    mret (ResultSuccess, with_infos (m_manager pages_to_close) (with_memory mm (with_host t h mc)))
  else if operation =? OperationType.Map then
    ASSERT (negb (virt_addr =? 0));;
    ASSERT (IsAligned 64 virt_addr PageSize);;
    '(t, h) ← MapMemoryRegion backing virt_addr (u64 (num_pages * PageSize)) phys_addr (ConvertToMemoryPermission perm) false (m_impl mc) (m_fast mc);
    mm ← (if IsHeapPhysicalAddress phys_addr then Open layout phys_addr num_pages (m_memory_manager mc) else mret (m_memory_manager mc));
    mret (ResultSuccess, with_memory mm (with_host t h mc))
  else if operation =? OperationType.Separate then mret (ResultSuccess, mc)
  else if (operation =? OperationType.ChangePermissions) || (operation =? OperationType.ChangePermissionsAndRefresh) ||
          (operation =? OperationType.ChangePermissionsAndRefreshAndFlush) then
    h ← ProtectRegion virt_addr (u64 (num_pages * PageSize)) (ConvertToMemoryPermission perm) (m_impl mc) (m_fast mc);
    mret (ResultSuccess, with_host (m_impl mc) h mc)
  else Undef.

(** Mapping the blocks of a group one after the other. *)
Fixpoint map_blocks (l : list KBlockInfo) (virt_addr perm : Z) (separate_heap : bool) (t : PageTable) (h : H) : outcome (PageTable * H) :=
  match l with
  | [] => mret (t, h)
  | node :: l' =>
      let size := u64 (Info_GetNumPages node * PageSize) in
      '(t, h) ← MapMemoryRegion backing virt_addr size (Info_GetAddress node) (ConvertToMemoryPermission perm) separate_heap t h;
      map_blocks l' (u64 (virt_addr + size)) perm separate_heap t h
  end.

(** The form for a group. *)
Definition Operate_group (virt_addr num_pages : Z) (page_group : group) (perm operation : Z) (mc : Machine) : outcome (Z * Machine) :=
  ASSERT (IsAligned 64 virt_addr PageSize);;
  ASSERT (0 <? num_pages);;
  ASSERT (num_pages =? Group_GetNumPages page_group);;
  if (operation =? OperationType.MapGroup) || (operation =? OperationType.MapFirstGroup) || (operation =? OperationType.MapFirstGroupPhysical) then
    let separate_heap := operation =? OperationType.MapFirstGroupPhysical in
    let spg := Some page_group in
    mm ← Scoped_enter layout spg (operation =? OperationType.MapGroup) (m_memory_manager mc);
    '(t, h) ← map_blocks (g_blocks page_group) virt_addr perm separate_heap (m_impl mc) (m_fast mc);
    let spg := CancelClose spg in
    mm ← Scoped_leave layout spg mm;
    mret (ResultSuccess, with_memory mm (with_host t h mc))
  else Undef.

(** ** Mapping *)

(** The pages that are allocated are closed again at the end, so that the mapping holds the only references, and the group is finalised.  Clearing the pages is not
    modelled: the contents of memory are not part of the machine. *)
Definition AllocateAndMapPagesImpl (address num_pages perm : Z) (mc : Machine) : outcome (Z * Machine) :=
  let pg := mkGroup [] (m_infos mc) in
  '(r, pg, mm) ← AllocateAndOpen layout num_pages (m_allocate_option (m_table mc)) pg (m_memory_manager mc);
  let mc := with_memory mm mc in
  if IsError r then mret (r, with_infos (m_manager (KMemoryManager.Finalize pg)) mc)
  else
    '(r, mc) ← Operate_group address num_pages pg perm OperationType.MapGroup mc;
    mm ← Group_Close layout pg (m_memory_manager mc);
    mret (r, with_infos (m_manager (KMemoryManager.Finalize pg)) (with_memory mm mc)).

(** The blocks of the group are mapped one after the other; a failure unmaps those before it. *)
Fixpoint map_group_loop (l : list KBlockInfo) (start_address cur_address perm : Z) (mc : Machine) : outcome (Z * Machine) :=
  match l with
  | [] => mret (ResultSuccess, mc)
  | block :: l' =>
      '(r, mc) ← Operate cur_address (Info_GetNumPages block) (Info_GetAddress block) perm OperationType.Map mc;
      if IsError r then
        (if negb (cur_address =? start_address) then
           '(r', mc) ← Operate start_address (u64 (cur_address - start_address) / PageSize) 0 MemoryPermission.None_ OperationType.Unmap mc;
           ASSERT (negb (IsError r'));;
           mret (r, mc)
         else mret (r, mc))
      else map_group_loop l' start_address (u64 (cur_address + Info_GetSize block)) perm mc
  end.
Definition MapPageGroupImpl (address : Z) (pg : group) (perm : Z) (mc : Machine) : outcome (Z * Machine) :=
  map_group_loop (g_blocks pg) address address perm mc.

(** [CheckMemoryState] on the blocks of the machine, with the ignored attributes it has by default. *)
Definition check_state (state_mask state perm_mask perm attr_mask attr addr size : Z) (mc : Machine) : outcome (Z + Z * Z * Z * Z) :=
  CheckMemoryState state_mask state perm_mask perm attr_mask attr DefaultMemoryIgnoreAttr (blocks_of mc) addr size.

(** An allocator for the update: [k] runs on it when it has got its blocks, and what it still holds is freed at the end. *)
Definition with_allocator (num_blocks : Z) (mc : Machine)
    (k : UpdateAllocator Sl -> Machine -> outcome (Z * Machine * UpdateAllocator Sl)) : outcome (Z * Machine) :=
  '(r, al) ← Allocator_new (m_memory_block_slab_manager mc) num_blocks;
  if IsError r then mret (r, with_slab (Allocator_destroy al) mc)
  else
    '(r, mc, al) ← k al mc;
    mret (r, with_slab (Allocator_destroy al) mc).

(** The update of the blocks that ends an operation. *)
Definition update_blocks (address num_pages state perm attr set_disable_attr clear_disable_attr : Z) (al : UpdateAllocator Sl) (mc : Machine) :
    outcome (Z * Machine * UpdateAllocator Sl) :=
  '(b, al) ← KMemoryBlockManager.Update (m_memory_block_manager (m_table mc)) al address num_pages state perm attr set_disable_attr clear_disable_attr;
  mret (ResultSuccess, with_tree b mc, al).

Definition KFree : Z := MemoryState.state_value MemoryState.KFree.

(** [MapPages] at a given address. *)
Definition MapPages (address num_pages state perm : Z) (mc : Machine) : outcome (Z * Machine) :=
  let size := u64 (num_pages * PageSize) in
  c ← CanContain_state (m_table mc) address size state;
  R_UNLESS c ELSE ResultInvalidCurrentMemory AT mc;
  chk ← check_state MemoryState.All KFree MemoryPermission.None_ MemoryPermission.None_ MemoryAttribute.None_ MemoryAttribute.None_ address size mc;
  match chk with
  | inl r => mret (r, mc)
  | inr (_, _, _, num_allocator_blocks) =>
      with_allocator num_allocator_blocks mc (fun al mc =>
        '(r, mc) ← AllocateAndMapPagesImpl address num_pages perm mc;
        if IsError r then mret (r, mc, al)
        else update_blocks address num_pages state perm MemoryAttribute.None_ DisableMerge.Normal DisableMerge.None_ al mc)
  end.

Definition UnmapPages (address num_pages state : Z) (mc : Machine) : outcome (Z * Machine) :=
  let size := u64 (num_pages * PageSize) in
  R_UNLESS ContainsRange (m_table mc) address size ELSE ResultInvalidCurrentMemory AT mc;
  chk ← check_state MemoryState.All state MemoryPermission.None_ MemoryPermission.None_ MemoryAttribute.All MemoryAttribute.None_ address size mc;
  match chk with
  | inl r => mret (r, mc)
  | inr (_, _, _, num_allocator_blocks) =>
      with_allocator num_allocator_blocks mc (fun al mc =>
        '(r, mc) ← Operate address num_pages 0 MemoryPermission.None_ OperationType.Unmap mc;
        if IsError r then mret (r, mc, al)
        else update_blocks address num_pages KFree MemoryPermission.None_ MemoryAttribute.None_ DisableMerge.None_ DisableMerge.Normal al mc)
  end.
End Operations.
Arguments Machine : clear implicits.

(** ** Lists of pages in a table *)

(** The pages from [v] on are those of [ps], as far as the table shows it. *)
Definition backed (t : PageTable) (v : Z) (ps : list Z) : Prop := forall x, v <= x < v + Z.of_nat (length ps) -> mapped t x = ps !! Z.to_nat (x - v) ≫= shown x.

(** The pages from [v] on are mapped to the list [ps], the others are as they were. *)
Record list_mapped (t t' : PageTable) (v : Z) (ps : list Z) : Prop := {
  lm_wf : table_wf t';
  lm_size : entries_size t' = entries_size t;
  lm_mapped : forall x, mapped t' x = if decide (v <= x < v + Z.of_nat (length ps)) then ps !! Z.to_nat (x - v) ≫= shown x else mapped t x
}.

Lemma list_mapped_nil t v : table_wf t -> list_mapped t t v [].
Proof. intros W. split; [done|done|]. intros x. rewrite decide_False by (cbn; lia). done. Qed.

Lemma list_mapped_app t t1 t2 v ps qs : list_mapped t t1 v ps -> list_mapped t1 t2 (v + Z.of_nat (length ps)) qs -> list_mapped t t2 v (ps ++ qs).
Proof.
  intros [W1 S1 M1] [W2 S2 M2]. split; [done|congruence|]. intros x. rewrite M2, M1, length_app, Nat2Z.inj_add.
  destruct (decide (v + Z.of_nat (length ps) <= x < _)), (decide (v <= x < v + Z.of_nat (length ps))), (decide (v <= x < v + (Z.of_nat (length ps) + Z.of_nat (length qs)))); try lia; try done.
  - rewrite lookup_app_r by lia. by replace (Z.to_nat (x - v) - length ps)%nat with (Z.to_nat (x - (v + Z.of_nat (length ps)))) by lia.
  - by rewrite lookup_app_l by lia.
Qed.

Lemma length_pages b : block_wf b -> Z.of_nat (length (block_pages b)) = m_num_pages b.
Proof. intros (_ & ? & _). unfold block_pages. rewrite length_map, length_seqZ. lia. Qed.

Lemma block_pages_lookup b k : block_wf b -> 0 <= k < m_num_pages b -> block_pages b !! Z.to_nat k = Some (bstart b + k * 4096).
Proof.
  intros (_ & ? & _) Hk. unfold block_pages. change (map ?f ?l) with (f <$> l). rewrite list_lookup_fmap, lookup_seqZ_lt by lia. cbn. unfold bstart. f_equal. lia.
Qed.

Lemma range_list_mapped t t' v b : block_wf b -> range_mapped t t' v (m_num_pages b) (bstart b) -> list_mapped t t' v (block_pages b).
Proof.
  intros Hb [W Sz _ Hm]. split; [done|done|]. intros x. rewrite Hm, length_pages by done. destruct (decide _); [|done]. by rewrite block_pages_lookup by (done || lia).
Qed.

Lemma list_mapped_backed t t' v ps : list_mapped t t' v ps -> backed t' v ps.
Proof. intros [_ _ Hm] x Hx. by rewrite Hm, decide_True. Qed.

(** Pages of which none lies at its own virtual address are all shown. *)
Lemma backed_phys t v ps : backed t v ps -> (forall x, v <= x < v + Z.of_nat (length ps) -> x * 4096 ∉ ps) -> phys_pages t v (Z.of_nat (length ps)) = Some ps.
Proof.
  intros Hb Hid. unfold phys_pages. apply mapM_Some, Forall2_same_length_lookup. rewrite length_seqZ. split; [lia|].
  intros i x y Hx Hy. apply lookup_seqZ in Hx as [-> Hi]. rewrite Hb by lia. replace (Z.to_nat (v + Z.of_nat i - v)) with i by lia. rewrite Hy. cbn. unfold shown.
  destruct (Z.eqb_spec y ((v + Z.of_nat i) * 4096)) as [->|]; [|done]. destruct (Hid (v + Z.of_nat i)); [lia|]. by eapply list_elem_of_lookup_2.
Qed.

(** The pages that are shown are the first ones of the list. *)
Lemma backed_visible t ps : forall v, backed t v ps -> visible_pages t v (Z.of_nat (length ps)) `prefix_of` ps.
Proof.
  induction ps as [|p ps IH]; intros v Hb; [done|]. cbn [length]. rewrite visible_pages_cons by lia. assert (mapped t v = shown v p) as -> by (rewrite (Hb v) by (cbn; lia); by rewrite Z.sub_diag). unfold shown.
  destruct (p =? v * 4096); [apply prefix_nil|]. apply prefix_cons. replace (Z.of_nat (S (length ps)) - 1) with (Z.of_nat (length ps)) by lia. apply IH. intros x Hx. rewrite Hb by (cbn; lia).
  by replace (Z.to_nat (x - v)) with (S (Z.to_nat (x - (v + 1)))) by lia.
Qed.


(** ** A consistent machine *)

Section Proofs.
Context {S : Type} {ES : EntropySource S} {B : Type} {FB : FreeBitmap B} {M : Type} {BS : BlockInfoSource M} {Sl : Type} {SL : BlockSlab Sl} {H : Type} {FM : FastMemory H}.
Context (layout : Z -> Z) (heap : Z -> bool) (backing : Z) (Hback : backing_ok backing).
Implicit Types (mc : Machine S B M Sl H) (pg : KPageGroup M).

(** The physical memory of the managers: in the memory of the device, and heap. *)
Record memory_ok (mm : KMemoryManager (S := S) (B := B)) : Prop := {
  me_wf : mm_wf layout mm;
  me_place : forall x, owned mm x -> DramBase <= x /\ heap x = true
}.

(** The components agree on the address space, and a free page is not mapped and has no attributes. *)
Record machine_ok mc : Prop := {
  ma_space : space_ok (m_table mc);
  ma_start : m_address_space_start (m_table mc) = 0;
  ma_entries : m_address_space_end (m_table mc) = entries_size (m_impl mc) * 4096;
  ma_impl : table_wf (m_impl mc);
  ma_memory : memory_ok (m_memory_manager mc);
  ma_state : forall a p, page_props (blocks_of mc) a = Some p -> in_u 32 (p_state p);
  ma_free : forall a p, page_props (blocks_of mc) a = Some p -> p_state p = KFree ->
    p_attribute p = 0 /\ p_permission p = 0 /\ mapped (m_impl mc) (a / 4096) = None
}.

(** Only the sources of bookkeeping objects and the memory manager may differ. *)
Definition same_space mc mc' : Prop := m_table mc' = m_table mc /\ m_impl mc' = m_impl mc /\ m_fast mc' = m_fast mc.


Lemma map_blocks_ok perm separate l : forall v t (h : H), table_wf t -> 0 <= v -> v + sum_pages l <= entries_size t -> Forall block_wf l ->
  Forall (fun b => DramBase <= bstart b) l ->
  exists t' h', map_blocks backing l (v * 4096) perm separate t h = Done true (t', h') /\ list_mapped t t' v (concat (map block_pages l)).
Proof.
  induction l as [|b l IH]; intros v t h W Hv Hn Hw Hd; cbn [map_blocks map concat].
  - exists t, h. split; [done|]. by apply list_mapped_nil.
  - apply Forall_cons_1 in Hw as [Hb Hw]. apply Forall_cons_1 in Hd as [Hd0 Hd]. pose proof Hb as (B1 & B2 & B3). cbn [sum_pages fold_right] in Hn. fold (sum_pages l) in Hn.
    pose proof (tw_size t W) as Hs. pose proof (sum_pages_nonneg l Hw) as Hnn. unfold Info_GetNumPages, PageSize. rewrite (u64_small (m_num_pages b * 4096)) by lia. rewrite (proj1 (Info_address b Hb)).
    destruct (MapMemoryRegion_ok backing Hback v (m_num_pages b) (bstart b) (ConvertToMemoryPermission perm) separate t h) as (t1 & -> & R1); try done; try lia; [by exists (m_page_index b)|unfold bstart; lia|].
    rewrite bind_ret. apply range_list_mapped in R1; [|done]. rewrite (u64_small (v * 4096 + _)) by lia. replace (v * 4096 + m_num_pages b * 4096) with ((v + m_num_pages b) * 4096) by lia.
    destruct (IH (v + m_num_pages b) t1 (if fastmem_arena h then fast_Map (v * 4096) (u64 (bstart b - DramBase)) (m_num_pages b * 4096) (ConvertToMemoryPermission perm) separate h else h)) as (t' & h' & E & R2); try done; try lia.
    + apply R1.
    + rewrite (lm_size _ _ _ _ R1). lia.
    + exists t', h'. split; [exact E|]. apply (list_mapped_app t t1 t'); [done|]. by rewrite length_pages.
Qed.

(** *** Groups *)

Lemma pages_total l : Forall block_wf l -> Z.of_nat (length (concat (map block_pages l))) = sum_pages l.
Proof. apply length_block_pages. Qed.

Lemma Operate_group_ok mc pg v n perm : table_wf (m_impl mc) -> mm_wf layout (m_memory_manager mc) -> 0 <= v -> 0 < n -> v + n <= entries_size (m_impl mc) ->
  Forall block_wf (g_blocks pg) -> disjoint_blocks (g_blocks pg) -> sum_pages (g_blocks pg) = n ->
  (forall x, in_blocks (g_blocks pg) x -> owned (m_memory_manager mc) x /\ 0 < mm_refs layout (m_memory_manager mc) x < 65535 /\ DramBase <= x) ->
  exists t' h' mm', Operate_group layout backing (v * 4096) n pg perm OperationType.MapGroup mc = Done true (ResultSuccess, with_memory mm' (with_host t' h' mc)) /\
    list_mapped (m_impl mc) t' v (concat (map block_pages (g_blocks pg))) /\ mm_on layout Z.succ (fun _ => False) (m_memory_manager mc) mm' (in_blocks (g_blocks pg)).
Proof.
  intros W Wm Hv Hn Hfit Hw Hd Hsum Hown. pose proof (tw_size _ W) as Hs. unfold Operate_group.
  rewrite bind_assert_true by (apply IsAligned_page; [lia|by exists v]). rewrite bind_assert_true by (apply Z.ltb_lt; lia).
  rewrite Group_GetNumPages_eq, Hsum by (done || lia). rewrite bind_assert_true by apply Z.eqb_refl.
  change ((OperationType.MapGroup =? OperationType.MapGroup) || _ || _) with true. change (OperationType.MapGroup =? OperationType.MapFirstGroupPhysical) with false.
  change (OperationType.MapGroup =? OperationType.MapGroup) with true. cbv iota. cbn [Scoped_enter]. unfold Group_Open.
  destruct (over_blocks_spec layout _ _ _ _ (g_blocks pg) Open_op (m_memory_manager mc) Wm Hw Hd) as (mm' & -> & Hon).
  { intros x Hx. destruct (Hown x Hx) as (Ho & Hr & _). split; [done|]. split; [|done]. apply (counted_not_avail layout); [done|lia]. }
  rewrite bind_Done_true. destruct (map_blocks_ok perm false (g_blocks pg) v (m_impl mc) (m_fast mc)) as (t' & h' & -> & Hm); try done; try lia.
  { apply list.Forall_forall. intros b Hb. rewrite list.Forall_forall in Hw. destruct (Hw b Hb) as (? & ? & ?). apply (Hown (bstart b)). exists b. split; [done|]. unfold in_block, bstart, bstop. lia. }
  rewrite bind_Done_true. cbn [CancelClose Scoped_leave]. rewrite bind_ret. by exists t', h', mm'.
Qed.

Lemma opened_place mm mm' R x : mm_opened layout mm mm' R -> R x -> mm_wf layout mm -> owned mm x /\ owned mm' x.
Proof. intros (W & Sm & Hin & _) Hx Wm. destruct (Hin x Hx) as [Hav _]. assert (owned mm x) by (by apply (avail_owned layout)). split; [done|]. by apply (same_mm_owned mm mm' x Sm). Qed.

(** Opening and closing the pages that were just taken leaves them with one reference. *)
Lemma opened_again mm mm1 mm2 mm3 R : mm_opened layout mm mm1 R -> mm_on layout Z.succ (fun _ => False) mm1 mm2 R -> mm_on layout Z.pred (fun c => c = 1) mm2 mm3 R ->
  mm_wf layout mm -> (forall x, R x \/ ~ R x) -> mm_opened layout mm mm3 R.
Proof.
  intros H1 (W2 & S2 & C2 & D2 & A2) (W3 & S3 & C3 & D3 & A3) Wm Hdec. pose proof H1 as (W1 & S1 & C1 & D1 & A1).
  assert (forall x, owned mm1 x <-> owned mm x) as O1 by (intros; by apply same_mm_owned). assert (forall x, owned mm2 x <-> owned mm1 x) as O2 by (intros; by apply same_mm_owned).
  split; [done|]. split; [eapply same_mm_trans; [done|]; by eapply same_mm_trans|]. split_and!.
  - intros x Hx. destruct (C1 x Hx) as [Hav H1x]. split; [done|]. destruct (opened_place mm mm1 R x H1 Hx Wm) as [Ho Ho1].
    rewrite C3, C2, H1x by (done || by apply O2). done.
  - intros x Ho Hx. rewrite D3, D2, D1 by (done || by apply O2, O1 || by apply O1). done.
  - intros x. rewrite A3, A2, A1. split; [|tauto]. intros [[?|(_ & _ & [])]|(Hx & Ho & Hr)]; [done|]. exfalso.
    destruct (C1 x Hx) as [_ H1x]. rewrite C2, H1x in Hr by (done || by apply O2). lia.
Qed.

Lemma given_back_memory ids mm mm' : memory_ok mm -> given_back layout ids mm mm' -> memory_ok mm'.
Proof. intros [W P] (W' & Sm & _). split; [done|]. intros x Hx. apply P. by apply (same_mm_owned mm mm' x Sm). Qed.

Lemma opened_memory mm mm' R : memory_ok mm -> mm_opened layout mm mm' R -> memory_ok mm'.
Proof. intros [W P] (W' & Sm & _). split; [done|]. intros x Hx. apply P. by apply (same_mm_owned mm mm' x Sm). Qed.

(** What is allocated when the memory has [n] pages to give. *)
Lemma AllocateAndMapPages_ok mc v n perm pool dir ids : table_wf (m_impl mc) -> memory_ok (m_memory_manager mc) -> 0 <= v -> 0 < n -> v + n <= entries_size (m_impl mc) ->
  DecodeOption (m_allocate_option (m_table mc)) = (pool, dir) -> pool_chain (m_memory_manager mc) pool dir ids -> tracked (m_memory_manager mc) pool ids ->
  exists r mc', AllocateAndMapPagesImpl layout backing (v * 4096) n perm mc = Done true (r, mc') /\ m_table mc' = m_table mc /\ m_memory_block_slab_manager mc' = m_memory_block_slab_manager mc /\
    ((r = ResultSuccess /\ exists l, Z.of_nat (length l) = n /\ NoDup l /\ Forall (fun p => (4096 | p)) l /\ list_mapped (m_impl mc) (m_impl mc') v l /\
        mm_opened layout (m_memory_manager mc) (m_memory_manager mc') (fun x => exists p, p ∈ l /\ p <= x < p + 4096)) \/
     ((r = ResultOutOfMemory /\ shortage (m_memory_manager mc) ids n \/ r = ResultOutOfResource /\ source_refuses (M := M)) /\ same_space mc mc' /\ given_back layout ids (m_memory_manager mc) (m_memory_manager mc'))).
Proof.
  intros W [Wm Pm] Hv Hn Hfit Ed Hc Ht. unfold AllocateAndMapPagesImpl.
  destruct (AllocateAndOpen_spec layout (m_memory_manager mc) n (m_allocate_option (m_table mc)) pool dir ids (mkGroup [] (m_infos mc)) Wm Ed Hc Ht eq_refl Hn) as (r & pg & mm1 & -> & Hr).
  rewrite bind_Done_true. destruct Hr as [(-> & Hw & Hd & Hsum & Hop)|(Hr & Eg & Hgb)].
  2: { assert (IsError r = true) as -> by (destruct Hr as [[-> _]|[-> _]]; reflexivity). eexists r, _. split; [done|]. split; [done|]. split; [done|]. by right. }
  change (IsError ResultSuccess) with false. cbv iota. set (mc1 := with_memory mm1 mc). set (R := in_blocks (g_blocks pg)) in *. pose proof Hop as (W1 & S1 & C1 & D1 & A1).
  assert (forall x, R x -> owned mm1 x /\ mm_refs layout mm1 x = 1 /\ DramBase <= x) as HR.
  { intros x Hx. destruct (opened_place _ _ _ x Hop Hx Wm) as [Ho Ho1]. split; [done|]. split; [by apply C1|]. by apply Pm. }
  destruct (Operate_group_ok mc1 pg v n perm) as (t' & h' & mm2 & -> & Hl & Hon); try done.
  { intros x Hx. destruct (HR x Hx) as (? & Hx1 & ?). split; [done|]. split; [|done]. unfold mc1. cbn [m_memory_manager with_memory]. lia. }
  rewrite bind_Done_true. cbn [m_memory_manager with_memory with_host mc1] in *. pose proof Hon as (W2 & S2 & C2 & D2 & A2). unfold Group_Close.
  destruct (over_blocks_spec layout _ _ _ _ (g_blocks pg) Close_op mm2 W2 Hw Hd) as (mm3 & -> & Hon3).
  { intros x Hx. destruct (HR x Hx) as (Ho1 & H1 & _). rewrite C2, H1 by done. split; [by apply (same_mm_owned mm1 mm2 x S2)|]. split; [|lia].
    rewrite A2. intros [Hav|(_ & _ & [])]. apply A1 in Hav. tauto. }
  rewrite bind_Done_true. eexists ResultSuccess, _. split; [done|]. split; [done|]. split; [done|]. left. split; [done|].
  exists (concat (map block_pages (g_blocks pg))). split; [by rewrite pages_total|]. split; [by apply disjoint_blocks_NoDup|]. split; [apply block_pages_aligned|]. split; [exact Hl|].
  assert (mm_opened layout (m_memory_manager mc) mm3 R) as Hfin by (by apply (opened_again (m_memory_manager mc) mm1 mm2 mm3 R Hop Hon Hon3 Wm (in_blocks_dec (g_blocks pg)))).
  cbn. assert (forall x, R x <-> exists p, p ∈ concat (map block_pages (g_blocks pg)) /\ p <= x < p + 4096) as Heq by (intros x; by apply in_blocks_concat).
  destruct Hfin as (F1 & F2 & F3 & F4 & F5). split; [done|]. split; [done|]. split_and!.
  - intros x Hx%Heq. by apply F3.
  - intros x Ho Hx. apply F4; [done|]. by rewrite Heq.
  - intros x. rewrite F5, Heq. done.
Qed.

(** *** Unmapping *)

Lemma contains_pages mc v n : m_address_space_start (m_table mc) = 0 -> m_address_space_end (m_table mc) = entries_size (m_impl mc) * 4096 -> table_wf (m_impl mc) ->
  0 <= v -> 0 < n -> v + n <= entries_size (m_impl mc) -> ContainsPages (m_table mc) (v * 4096) n = true.
Proof.
  intros H0 He W Hv Hn Hfit. pose proof (tw_size _ W). unfold ContainsPages, PageSize. rewrite H0, He, Z.sub_0_r. rewrite (u64_small (entries_size (m_impl mc) * 4096)), Z.div_mul by lia.
  rewrite (u64_small (n * 4096)), !u64_small by lia. rewrite !andb_true_iff, !Z.leb_le. lia.
Qed.

Definition in_pages (l : list Z) (x : Z) : Prop := exists p, p ∈ l /\ p <= x < p + 4096.

Lemma mm_on_ext f g mm mm' (R R' : Z -> Prop) : (forall x, R x <-> R' x) -> mm_on layout f g mm mm' R -> mm_on layout f g mm mm' R'.
Proof.
  intros HR (W & Sm & C & D & A). split; [done|]. split; [done|]. split_and!; [intros x Ho Hx; apply C; [done|by apply HR]|intros x Ho Hx; apply D; [done|by rewrite HR]|].
  intros x. by rewrite A, HR.
Qed.

(** The physical pages the table shows behind a range are different, and each is counted. *)
Definition counted mc v n : Prop := NoDup (visible_pages (m_impl mc) v n) /\
  forall x, in_pages (visible_pages (m_impl mc) v n) x -> owned (m_memory_manager mc) x /\ 0 < mm_refs layout (m_memory_manager mc) x.

(** The records for the blocks of the range run out. *)
Definition records_run_out mc v n : Prop := exists pg, MakePageGroup heap (m_impl mc) (mkGroup [] (m_infos mc)) (v * 4096) n = Done true (ResultOutOfResource, pg).

(** The physical pages that unmapping a range closes: the first ones behind it, which are all unless the records run out or the table shows a page of the range as not mapped. *)
Definition closes mc v n (l : list Z) : Prop := l `prefix_of` visible_pages (m_impl mc) v n /\
  (Z.of_nat (length l) = n \/ records_run_out mc v n \/ exists x, v <= x < v + n /\ mapped (m_impl mc) x = None).

Lemma owned_runs mm l : memory_ok mm -> Forall page_ok l -> (forall x, in_pages l x -> owned mm x) -> good_runs heap (runs l).
Proof.
  intros Hmem Hl Hown. pose proof (runs_spec l Hl) as (Er & _ & Hw). apply list.Forall_forall. intros b Hb. rewrite list.Forall_forall in Hw. pose proof (Hw b Hb) as (? & ? & ?).
  apply (me_place _ Hmem), Hown. red. rewrite <- Er. apply in_blocks_concat; [by apply list.Forall_forall|]. exists b. split; [done|]. unfold in_block, bstart, bstop. lia.
Qed.

Lemma MakePageGroup_closes mc v n : table_wf (m_impl mc) -> memory_ok (m_memory_manager mc) -> 0 <= v -> 0 < n -> v + n <= entries_size (m_impl mc) -> counted mc v n ->
  exists r pg, MakePageGroup heap (m_impl mc) (mkGroup [] (m_infos mc)) (v * 4096) n = Done true (r, pg) /\ Forall block_wf (g_blocks pg) /\ closes mc v n (concat (map block_pages (g_blocks pg))).
Proof.
  intros W Hmem Hv Hn Hfit [Hnd Hown]. pose proof (tw_size _ W) as Hs.
  destruct (MakePageGroup_ok heap (m_impl mc) (mkGroup [] (m_infos mc)) (v * 4096) n W) as (r & pg & E & Hr & Hw & Hp); [by exists v|lia|lia|rewrite Z.div_mul by lia; lia|done|].
  rewrite Z.div_mul in * by lia. exists r, pg. split; [done|]. split; [done|]. split; [done|]. destruct Hr as [(l & El & _ & _ & ->)|[[_ Hno]|[-> _]]]; [left|right; right|right; left; by exists pg].
  - rewrite (proj1 (runs_spec l (phys_pages_ok _ _ _ _ W El))). apply visible_phys in El as [_ El]. rewrite length_seqZ in El. lia.
  - destruct (decide (length (visible_pages (m_impl mc) v n) < length (seqZ v n))%nat) as [Hlt|Hge].
    + destruct (visible_short _ _ Hlt) as (x & Hx%elem_of_seqZ & Ex). by exists x.
    + destruct Hno. exists (visible_pages (m_impl mc) v n). split; [apply visible_phys; split; [done|]; pose proof (visible_length (m_impl mc) (seqZ v n)); unfold visible_pages in *; lia|].
      apply (owned_runs _ _ Hmem); [by apply visible_ok|]. intros x Hx. by apply Hown.
Qed.

Lemma Operate_unmap_ok mc v n : table_wf (m_impl mc) -> memory_ok (m_memory_manager mc) -> m_address_space_start (m_table mc) = 0 ->
  m_address_space_end (m_table mc) = entries_size (m_impl mc) * 4096 -> 0 <= v -> 0 < n -> v + n <= entries_size (m_impl mc) -> counted mc v n ->
  exists t' h' mm' i' l, Operate layout heap backing (v * 4096) n 0 MemoryPermission.None_ OperationType.Unmap mc = Done true (ResultSuccess, with_infos i' (with_memory mm' (with_host t' h' mc))) /\
    range_unmapped (m_impl mc) t' v n /\ closes mc v n l /\ mm_on layout Z.pred (fun c => c = 1) (m_memory_manager mc) mm' (in_pages l).
Proof.
  intros W Hmem H0 He Hv Hn Hfit Hcn. pose proof (tw_size _ W) as Hs. unfold Operate.
  rewrite bind_assert_true by (apply Z.ltb_lt; lia). rewrite bind_assert_true by (apply IsAligned_page; [lia|by exists v]). rewrite bind_assert_true by (by apply contains_pages).
  change ((OperationType.Unmap =? OperationType.Unmap) || _) with true. cbv iota. destruct (MakePageGroup_closes mc v n W Hmem Hv Hn Hfit Hcn) as (r & pg & -> & Hw & Hcl).
  rewrite bind_Done_true. change (OperationType.Unmap =? OperationType.UnmapPhysical) with false.
  unfold PageSize. rewrite u64_small by lia. destruct (UnmapRegion_ok backing v n false (m_impl mc) (m_fast mc) W Hv ltac:(lia) Hfit) as (t' & -> & Hu). rewrite bind_ret.
  set (l := concat (map block_pages (g_blocks pg))) in *. assert (forall x, in_blocks (g_blocks pg) x <-> in_pages l x) as Hin by (intros x; by apply in_blocks_concat).
  destruct Hcn as [Hnd Hown]. pose proof Hcl as [[k Hk] _]. unfold CloseAndReset. destruct (over_blocks_spec layout _ _ _ _ (g_blocks pg) Close_op (m_memory_manager mc) (me_wf _ Hmem) Hw) as (mm' & -> & Hon).
  { apply runs_disjoint; [done| |apply block_pages_aligned]. fold l. rewrite Hk in Hnd. by apply list.NoDup_app in Hnd as (? & _). }
  { intros x (p & Hp & Hx)%Hin. destruct (Hown x) as [Ho Hpos]; [exists p; split; [rewrite Hk; apply elem_of_app; by left|done]|]. split; [done|]. split; [|done]. by apply (counted_not_avail layout), Hpos; apply Hmem. }
  rewrite !bind_Done_true. eexists t', _, mm', _, l. split; [done|]. split; [done|]. split; [done|]. by apply (mm_on_ext _ _ _ _ (in_blocks (g_blocks pg))).
Qed.

(** *** The allocator and the update *)

Definition slab_refuses : Prop := exists sm : Sl, fst (slab_Allocate sm) = None.

Lemma Allocator_new_cases (sm : Sl) n : 0 <= n <= 2 ->
  exists r al, Allocator_new sm n = Done true (r, al) /\ ((r = ResultSuccess /\ alloc_ok al /\ m_index al = 2 - n) \/ (r = ResultOutOfResource /\ slab_refuses)).
Proof.
  intros Hn. unfold Allocator_new, Allocator_Initialize. rewrite bind_assert_true by (apply Z.leb_le; unfold MaxBlocks; lia).
  rewrite u64_small by (unfold MaxBlocks; lia). unfold MaxBlocks. assert (forall sm : Sl, forall sm', slab_Allocate sm = (None, sm') -> slab_refuses) as Hre by (intros ? ? E; eexists; by rewrite E).
  assert (n = 0 \/ n = 1 \/ n = 2) as [->|[->| ->]] by lia; simpl.
  - eexists _, _. split; [done|]. left. split; [done|]. split; [|done]. split_and!; [done|done|done|]. intros [|[|i]] Hi; cbn in *; lia.
  - destruct (slab_Allocate sm) as [[b|] sm'] eqn:E1; simpl.
    + eexists _, _. split; [done|]. left. split; [done|]. split; [|done]. split_and!; [done|done|done|]. intros [|[|i]] Hi; cbn in *; eauto; lia.
    + eexists _, _. split; [done|]. right. eauto.
  - destruct (slab_Allocate sm) as [[b|] sm'] eqn:E1; simpl; [|eexists _, _; split; [done|]; right; by eauto].
    destruct (slab_Allocate sm') as [[b'|] sm''] eqn:E2; simpl; (eexists _, _; split; [done|]); [left|right; by eauto].
    split; [done|]. split; [|done]. split_and!; [done|done|done|]. intros [|[|i]] Hi; cbn in *; eauto; lia.
Qed.

(** The allocator of an operation got its blocks, or the operation fails with nothing else changed. *)
Lemma with_allocator_cases n mc k : 0 <= n <= 2 ->
  (slab_refuses /\ exists sm, with_allocator n mc k = Done true (ResultOutOfResource, with_slab sm mc)) \/
  exists al, alloc_ok al /\ m_index al = 2 - n /\ with_allocator n mc k = (x ← k al mc; let '(r, mc, al) := x in mret (r, with_slab (Allocator_destroy al) mc)).
Proof.
  intros Hn. unfold with_allocator. destruct (Allocator_new_cases (m_memory_block_slab_manager mc) n Hn) as (r & al & -> & [(-> & Ha & Hi)|[-> Hre]]); rewrite bind_Done_true.
  - right. exists al. split; [done|]. split; [done|]. done.
  - left. split; [done|]. by eexists.
Qed.

Lemma lacking_range t a b : 0 <= lacking t a + lacking t b <= 2.
Proof. unfold lacking. destruct (border t a), (border t b); lia. Qed.

Lemma no_lock b : block_ok b -> m_attribute b .& MemoryAttribute.IpcLocked = 0 -> m_ipc_lock_count b = 0.
Proof.
  intros Hok Ha. pose proof (ok_locked b Hok) as Hl. change MemoryAttribute.IpcLocked with (1 .<< 1) in Ha. apply Z.eqb_eq in Ha. rewrite flag_test_none, Hl in Ha by lia.
  by destruct (Z.eqb_spec (m_ipc_lock_count b) 0).
Qed.

(** The update that ends an operation: the blocks the check has counted are enough for it. *)
Lemma update_blocks_ok mc al address n state perm attr set_attr clear_attr : space_ok (m_table mc) -> range_in (m_memory_block_manager (m_table mc)) address (n * 4096) -> 0 < n ->
  alloc_ok al -> m_index al = 2 - (lacking (blocks_of mc) address + lacking (blocks_of mc) (address + n * 4096)) ->
  in_u 8 perm -> in_u 8 attr -> attr .& AttributeIgnoreMask = 0 -> merge_mask_ok set_attr -> merge_mask_ok clear_attr ->
  all_pages (fun q => props_has state perm attr q = false /\ p_attribute q .& MemoryAttribute.IpcLocked = 0) (blocks_of mc) address (address + n * 4096) ->
  exists b al', update_blocks address n state perm attr set_attr clear_attr al mc = Done true (ResultSuccess, with_tree b mc, al') /\ space_ok (m_table (with_tree b mc)) /\
    forall a, page_props (m_memory_block_tree b) a = on_range address (address + n * 4096) (props_update state perm attr) a (page_props (blocks_of mc) a).
Proof.
  intros [Hm Hst Hen] Hr Hn Hal Hix Hp Ha Hai Hs1 Hs2 Hall. unfold update_blocks. set (m := m_memory_block_manager (m_table mc)) in *. change (blocks_of mc) with (m_memory_block_tree m) in *.
  destruct (Update_ok m al address n state perm attr set_attr clear_attr) as (b & al' & E & _ & Hb & _ & Hbs & Hbe & Hprops); try done.
  { destruct Hr as (R1 & _ & _ & R2 & R3). unfold PageSize in *. split; [done|done|done| | |].
    - apply list.Forall_forall. intros c Hc H1 H2 _. pose proof (mo_ok m Hm) as Hok. rewrite list.Forall_forall in Hok. apply no_lock; [by apply Hok|].
      apply list_elem_of_split in Hc as (d & r & Ht). pose proof (mo_chain m Hm) as Hch. rewrite Ht in Hch. pose proof Hch as Hch'. apply chain_app in Hch' as (_ & _ & Hg & _). pose proof (block_end_gt c Hg).
      destruct (Hall (Z.max address (KMemoryBlock.m_address c))) as (q & Eq & _ & Hq); [lia|]. rewrite Ht, (page_props_block _ d c r _ _ Hch) in Eq by lia. by injection Eq as <-.
    - split; [done|]. rewrite Hix. unfold lacking. destruct (border _ _), (border _ _); lia.
    - intros c Hc. destruct (Z_le_gt_dec (block_end c) address) as [|Hgt]; [by right; left|]. right; right. destruct (m_memory_block_tree m) as [|c' r] eqn:Et; [done|]. injection Hc as ->.
      pose proof (mo_chain m Hm) as Hch. rewrite Et in Hch. destruct (Hall address) as (q & Eq & Hq & _); [lia|]. cbn [page_props] in Eq. destruct Hch as (_ & Hc0 & _).
      rewrite (proj2 (covers_spec c address)) in Eq by lia. by injection Eq as <-. }
  rewrite E, bind_Done_true. exists b, al'. split; [done|]. split; [|done]. split; cbn; [done|by rewrite Hbs|by rewrite Hbe].
Qed.

(** *** The range of an operation *)

Lemma machine_range mc v n : machine_ok mc -> 0 <= v -> 0 < n -> v + n <= entries_size (m_impl mc) -> range_in (m_memory_block_manager (m_table mc)) (v * 4096) (n * 4096).
Proof.
  intros [[_ Hs He] H0 H1 _ _ _ _] Hv Hn Hfit. unfold range_in, PageSize. rewrite Hs, He, H0, H1. split_and!; [by exists v|by exists n|lia..].
Qed.

(** A machine whose bookkeeping alone has changed. *)
Lemma machine_ok_same mc mc' : machine_ok mc -> same_space mc mc' -> memory_ok (m_memory_manager mc') -> machine_ok mc'.
Proof. intros [] (Et & Ei & _) Hm. split; unfold blocks_of in *; rewrite ?Et, ?Ei; done. Qed.

(** A machine in which an operation has updated the pages of its range. *)
Lemma machine_ok_updated mc mc' v n state perm attr : machine_ok mc -> space_ok (m_table mc') -> m_address_space_start (m_table mc') = m_address_space_start (m_table mc) ->
  m_address_space_end (m_table mc') = m_address_space_end (m_table mc) -> table_wf (m_impl mc') -> entries_size (m_impl mc') = entries_size (m_impl mc) -> memory_ok (m_memory_manager mc') ->
  (forall a, page_props (blocks_of mc') a = on_range (v * 4096) (v * 4096 + n * 4096) (props_update state perm attr) a (page_props (blocks_of mc) a)) ->
  (forall x, ~ v <= x < v + n -> mapped (m_impl mc') x = mapped (m_impl mc) x) -> in_u 32 state ->
  (state = KFree -> perm = 0 /\ all_pages (fun q => attr .| (p_attribute q .& AttributeIgnoreMask) = 0) (blocks_of mc) (v * 4096) (v * 4096 + n * 4096) /\
     forall x, v <= x < v + n -> mapped (m_impl mc') x = None) -> machine_ok mc'.
Proof.
  intros [Hs H0 H1 W Hm Hst Hf] Hs' E0 E1 W' Ez Hm' Hp Hmap Hu Hfree. split; try done; [by rewrite E0|by rewrite E1, Ez| |].
  - intros a p. rewrite Hp. unfold on_range. destruct (_ && _); [|apply Hst]. destruct (page_props _ a); [|done]. intros [= <-]. done.
  - intros a p. rewrite Hp. unfold on_range. destruct (Z.leb_spec (v * 4096) a), (Z.ltb_spec a (v * 4096 + n * 4096)); cbn [andb].
    2-4: intros Ep Ek; destruct (Hf a p Ep Ek) as (? & ? & ?); split; [done|]; split; [done|]; rewrite Hmap; [done|]; pose proof (Z_div_mod_eq_full a 4096); pose proof (Z.mod_pos_bound a 4096 ltac:(lia)); lia.
    destruct (page_props _ a) as [q|] eqn:Eq; [|done]. intros [= <-]. cbn. intros Ek. destruct (Hfree Ek) as (? & Hall & Hnone). destruct (Hall a) as (q' & Eq' & Hq'); [done|].
    rewrite Eq in Eq'. injection Eq' as <-. split; [done|]. split; [done|]. apply Hnone. pose proof (Z_div_mod_eq_full a 4096). pose proof (Z.mod_pos_bound a 4096 ltac:(lia)). lia.
Qed.

Lemma land_all32 x : in_u 32 x -> x .& MemoryState.All = x.
Proof. intros [? ?]. change MemoryState.All with (Z.ones 32). rewrite Z.land_ones by lia. apply Z.mod_small. lia. Qed.

(** The pages of the range are free. *)
Definition free_range mc v n : Prop := all_pages (fun q => p_state q = KFree) (blocks_of mc) (v * 4096) (v * 4096 + n * 4096).

Lemma free_accepted mc p v n : machine_ok mc -> 0 < n -> page_props (blocks_of mc) (v * 4096) = Some p ->
  all_pages (accepted MemoryState.All KFree MemoryPermission.None_ MemoryPermission.None_ MemoryAttribute.None_ MemoryAttribute.None_ DefaultMemoryIgnoreAttr p) (blocks_of mc) (v * 4096) (v * 4096 + n * 4096) <-> free_range mc v n.
Proof.
  intros Hm Hn Ep. split.
  - intros Hall a Ha. destruct (Hall a Ha) as (q & Eq & _ & Hq & _). exists q. split; [done|]. rewrite land_all32 in Hq; [done|]. by apply (ma_state mc Hm a).
  - intros Hall a Ha. destruct (Hall a Ha) as (q & Eq & Hq). destruct (Hall (v * 4096)) as (p' & Ep' & Hp); [lia|]. rewrite Ep in Ep'. injection Ep' as <-. exists q. split; [done|].
    destruct (ma_free mc Hm a q Eq Hq) as (Qa & Qp & _). destruct (ma_free mc Hm _ p Ep Hp) as (Pa & Pp & _). unfold accepted, masked. rewrite Qa, Qp, Pa, Pp, Hq, Hp. done.
Qed.

(** What an operation that fails leaves: the blocks, the mapping and the references as they were. *)
Definition untouched mc mc' : Prop := same_space mc mc' /\ forall x, owned (m_memory_manager mc) x -> mm_refs layout (m_memory_manager mc') x = mm_refs layout (m_memory_manager mc) x.

Lemma untouched_refl mc : untouched mc mc.
Proof. by split. Qed.

(** *** Mapping pages *)

(** The pages of the range have become [n] different physical pages that were available, with one reference each, and the new state; everything else is as it was.
    The table shows each of them, but for one that lies at its own virtual address. *)
Definition pages_given mc mc' v n state perm : Prop :=
  exists l, (NoDup l /\ Z.of_nat (length l) = n /\ Forall (fun p => (4096 | p)) l) /\ backed (m_impl mc') v l /\ mm_opened layout (m_memory_manager mc) (m_memory_manager mc') (in_pages l) /\
    entries_size (m_impl mc') = entries_size (m_impl mc) /\ (forall x, ~ v <= x < v + n -> mapped (m_impl mc') x = mapped (m_impl mc) x) /\
    forall a, page_props (blocks_of mc') a = on_range (v * 4096) (v * 4096 + n * 4096) (props_update state perm 0) a (page_props (blocks_of mc) a).

Lemma map_body_ok mc al v n state perm pool dir ids : machine_ok mc -> 0 <= v -> 0 < n -> v + n <= entries_size (m_impl mc) -> free_range mc v n ->
  in_u 32 state -> in_u 8 perm -> state <> KFree ->
  DecodeOption (m_allocate_option (m_table mc)) = (pool, dir) -> pool_chain (m_memory_manager mc) pool dir ids -> tracked (m_memory_manager mc) pool ids ->
  alloc_ok al -> m_index al = 2 - (lacking (blocks_of mc) (v * 4096) + lacking (blocks_of mc) (v * 4096 + n * 4096)) ->
  exists r mc' al', ('(r, mc) ← AllocateAndMapPagesImpl layout backing (v * 4096) n perm mc;
        if IsError r then mret (r, mc, al)
        else update_blocks (v * 4096) n state perm MemoryAttribute.None_ DisableMerge.Normal DisableMerge.None_ al mc) = Done true (r, mc', al') /\ machine_ok mc' /\
    ((r = ResultSuccess /\ pages_given mc mc' v n state perm) \/
     ((r = ResultOutOfMemory /\ shortage (m_memory_manager mc) ids n \/ r = ResultOutOfResource /\ source_refuses (M := M)) /\ untouched mc mc')).
Proof.
  intros Hm Hv Hn Hfit Hfree Hus Hup Hst Ed Hc Ht Hal Hix. pose proof Hm as [Hsp _ _ W Hmem _ _].
  destruct (AllocateAndMapPages_ok mc v n perm pool dir ids W Hmem Hv Hn Hfit Ed Hc Ht) as (r & mc1 & -> & Et & _ & Hr). rewrite bind_Done_true.
  destruct Hr as [(-> & l & Hl & Hnd & Hal' & Hlm & Hop)|(Hr & Hsame & Hgb)].
  2: { assert (IsError r = true) as -> by (destruct Hr as [[-> _]|[-> _]]; reflexivity). exists r, mc1, al. split; [done|]. split; [apply (machine_ok_same mc); [done|done|by eapply given_back_memory]|].
       right. split; [done|]. split; [done|]. apply Hgb. }
  change (IsError ResultSuccess) with false. cbv iota. pose proof (list_mapped_backed _ _ _ _ Hlm) as Hbk. destruct Hlm as [W1 Sz1 Hm1].
  destruct (update_blocks_ok mc1 al (v * 4096) n state perm MemoryAttribute.None_ DisableMerge.Normal DisableMerge.None_) as (b & al' & -> & Hsp' & Hprops); unfold blocks_of; rewrite ?Et; try done.
  { by apply machine_range. }
  { intros a Ha. destruct (Hfree a Ha) as (q & Eq & Hq). exists q. split; [done|]. destruct (ma_free mc Hm a q Eq Hq) as (Qa & _). rewrite Qa. split; [|done].
    unfold props_has. rewrite Hq. rewrite (proj2 (Z.eqb_neq _ _)) by congruence. done. }
  eexists ResultSuccess, _, al'. split; [done|]. assert (forall x, ~ v <= x < v + n -> mapped (m_impl mc1) x = mapped (m_impl mc) x) as Hother.
  { intros x Hx. rewrite Hm1, decide_False by lia. done. }
  assert (forall a, page_props (blocks_of (with_tree b mc1)) a = on_range (v * 4096) (v * 4096 + n * 4096) (props_update state perm 0) a (page_props (blocks_of mc) a)) as Hprops'.
  { intros a. unfold blocks_of in *. cbn. rewrite Hprops, Et. done. }
  split.
  - apply (machine_ok_updated mc _ v n state perm 0); try done; cbn; rewrite ?Et; try done. by eapply opened_memory.
  - left. split; [done|]. exists l. by split_and!.
Qed.

Lemma with_slab_ok sm mc : machine_ok mc -> machine_ok (with_slab sm mc).
Proof. intros []. by split. Qed.

Lemma MapPages_ok mc v n state perm pool dir ids c : machine_ok mc -> 0 <= v -> 0 < n -> v + n <= entries_size (m_impl mc) ->
  in_u 32 state -> in_u 8 perm -> state <> KFree ->
  DecodeOption (m_allocate_option (m_table mc)) = (pool, dir) -> pool_chain (m_memory_manager mc) pool dir ids -> tracked (m_memory_manager mc) pool ids ->
  CanContain_state (m_table mc) (v * 4096) (n * 4096) state = Done true c ->
  exists r mc', MapPages layout backing (v * 4096) n state perm mc = Done true (r, mc') /\ machine_ok mc' /\
    ((r = ResultSuccess /\ c = true /\ free_range mc v n /\ pages_given mc mc' v n state perm) \/
     ((r = ResultInvalidCurrentMemory /\ (c = false \/ ~ free_range mc v n) \/ r = ResultOutOfMemory /\ shortage (m_memory_manager mc) ids n \/
       r = ResultOutOfResource /\ (slab_refuses \/ source_refuses (M := M))) /\ untouched mc mc')).
Proof.
  intros Hm Hv Hn Hfit Hus Hup Hst Ed Hc Ht Hcc. pose proof (tw_size _ (ma_impl mc Hm)) as Hs. unfold MapPages, PageSize. rewrite (u64_small (n * 4096)), Hcc, bind_Done_true by lia.
  destruct c; [|eexists _, mc; split; [done|]; split; [done|]; right; split; [by left; split; [|left]|apply untouched_refl]].
  destruct (CheckMemoryState_ok MemoryState.All KFree MemoryPermission.None_ MemoryPermission.None_ MemoryAttribute.None_ MemoryAttribute.None_ DefaultMemoryIgnoreAttr
    (m_memory_block_manager (m_table mc)) (v * 4096) (n * 4096) (sp_blocks _ (ma_space mc Hm))) as (p & chk & Ep & Echk & Hchk); [by apply machine_range|].
  unfold check_state. change (m_memory_block_tree (m_memory_block_manager (m_table mc))) with (blocks_of mc) in *. rewrite Echk, bind_Done_true. pose proof (free_accepted mc p v n Hm Hn Ep) as Hacc.
  destruct chk as [e|[[[st pm] at_] nb]].
  { destruct Hchk as [-> Hno]. eexists _, mc. split; [done|]. split; [done|]. right. split; [left; split; [done|]; right; by rewrite <- Hacc|apply untouched_refl]. }
  destruct Hchk as (Hall & _ & _ & _ & Hnb). apply Hacc in Hall. clear Hacc Echk Ep.
  destruct (with_allocator_cases nb mc (fun al mc => '(r, mc) ← AllocateAndMapPagesImpl layout backing (v * 4096) n perm mc;
        if IsError r then mret (r, mc, al) else update_blocks (v * 4096) n state perm MemoryAttribute.None_ DisableMerge.Normal DisableMerge.None_ al mc)) as [(Hre & sm & ->)|(al & Hal & Hix & ->)];
    [rewrite Hnb; apply lacking_range| |].
  { eexists _, _. split; [done|]. split; [by apply with_slab_ok|]. right. split; [by right; right; split; [|left]|by split]. }
  destruct (map_body_ok mc al v n state perm pool dir ids) as (r & mc' & al' & -> & Hm' & Hr); try done; [by rewrite Hix, Hnb|].
  rewrite bind_Done_true. eexists r, _. split; [done|]. split; [by apply with_slab_ok|].
  destruct Hr as [(-> & Hg)|([[-> Hr]|[-> Hr]] & Hun)]; [left; by split_and!|right..]; (split; [|exact Hun]); [by right; left|by right; right; split; [|right]].
Qed.

(** *** Unmapping pages *)

(** All pages of the range have the state, no attributes, and the permission of the first one. *)
Definition uniform mc v n state : Prop := exists p, page_props (blocks_of mc) (v * 4096) = Some p /\
  all_pages (fun q => p_state q = state /\ p_permission q = p_permission p /\ p_attribute q = 0) (blocks_of mc) (v * 4096) (v * 4096 + n * 4096).

Lemma page_attribute mc a p : machine_ok mc -> page_props (blocks_of mc) a = Some p -> in_u 8 (p_attribute p).
Proof.
  intros Hm. pose proof (mo_ok _ (sp_blocks _ (ma_space mc Hm))) as Hok. unfold blocks_of. induction (m_memory_block_tree _) as [|b t IH]; [done|].
  apply Forall_cons_1 in Hok as [Hb Hok]. cbn [page_props]. destruct (covers b a); [|by apply IH]. intros [= <-]. apply (ok_attr b Hb).
Qed.

Lemma uniform_accepted mc p v n state : machine_ok mc -> in_u 32 state -> page_props (blocks_of mc) (v * 4096) = Some p -> 0 < n ->
  all_pages (accepted MemoryState.All state MemoryPermission.None_ MemoryPermission.None_ MemoryAttribute.All MemoryAttribute.None_ DefaultMemoryIgnoreAttr p) (blocks_of mc) (v * 4096) (v * 4096 + n * 4096) <->
  uniform mc v n state.
Proof.
  intros Hm Hu Ep Hn. assert (forall a q, page_props (blocks_of mc) a = Some q -> p_attribute q .& MemoryAttribute.All = p_attribute q) as Hat.
  { intros a q Eq. pose proof (page_attribute mc a q Hm Eq) as [? ?]. change MemoryAttribute.All with (Z.ones 8). rewrite Z.land_ones by lia. apply Z.mod_small. lia. }
  split.
  - intros Hall. exists p. split; [done|]. intros a Ha. destruct (Hall a Ha) as (q & Eq & (_ & Hp & _) & Hq & _ & Hqa). exists q. split; [done|].
    rewrite land_all32 in Hq by (by apply (ma_state mc Hm a)). rewrite (Hat a q Eq) in Hqa. done.
  - intros (p' & Ep' & Hall) a Ha. rewrite Ep in Ep'. injection Ep' as <-. destruct (Hall a Ha) as (q & Eq & Hq & Hp & Hqa). destruct (Hall (v * 4096)) as (p' & Ep' & Hp' & _ & Hpa); [lia|].
    rewrite Ep in Ep'. injection Ep' as <-. exists q. split; [done|]. unfold accepted, masked. rewrite Hqa, Hpa, Hq, Hp, Hp'. rewrite land_all32 by done. unfold MemoryPermission.None_. by rewrite Z.land_0_r.
Qed.

Lemma contains_range mc v n : machine_ok mc -> 0 <= v -> 0 < n -> v + n <= entries_size (m_impl mc) -> ContainsRange (m_table mc) (v * 4096) (n * 4096) = true.
Proof.
  intros Hm Hv Hn Hfit. pose proof (tw_size _ (ma_impl mc Hm)). unfold ContainsRange. rewrite (ma_start mc Hm), (ma_entries mc Hm). rewrite !u64_small by lia.
  rewrite !andb_true_iff, ?Z.leb_le, ?Z.ltb_lt. lia.
Qed.

Lemma on_memory f g R mm mm' : memory_ok mm -> mm_on layout f g mm mm' R -> memory_ok mm'.
Proof. intros [W P] (W' & Sm & _). split; [done|]. intros x Hx. apply P. by apply (same_mm_owned mm mm' x Sm). Qed.

(** The pages of the range are free and not mapped, and the physical pages that were closed have lost one reference; everything else is as it was. *)
Definition pages_taken mc mc' v n : Prop :=
  (forall x, mapped (m_impl mc') x = if decide (v <= x < v + n) then None else mapped (m_impl mc) x) /\
  (exists l, closes mc v n l /\ mm_on layout Z.pred (fun c => c = 1) (m_memory_manager mc) (m_memory_manager mc') (in_pages l)) /\
  forall a, page_props (blocks_of mc') a = on_range (v * 4096) (v * 4096 + n * 4096) (props_update KFree 0 0) a (page_props (blocks_of mc) a).

(** Each page of the range is mapped to a physical page of its own, which is counted. *)
Definition held mc v n (l : list Z) : Prop := phys_pages (m_impl mc) v n = Some l /\ NoDup l /\
  forall x, in_pages l x -> owned (m_memory_manager mc) x /\ 0 < mm_refs layout (m_memory_manager mc) x.

Lemma held_counted mc v n l : held mc v n l -> counted mc v n.
Proof. intros (El & Hnd & Hown). apply visible_phys in El as [El _]. unfold counted, visible_pages. by rewrite El. Qed.

Lemma unmap_body_ok mc al v n state : machine_ok mc -> 0 <= v -> 0 < n -> v + n <= entries_size (m_impl mc) -> uniform mc v n state -> state <> KFree -> counted mc v n ->
  alloc_ok al -> m_index al = 2 - (lacking (blocks_of mc) (v * 4096) + lacking (blocks_of mc) (v * 4096 + n * 4096)) ->
  exists mc' al', ('(r, mc) ← Operate layout heap backing (v * 4096) n 0 MemoryPermission.None_ OperationType.Unmap mc;
        if IsError r then mret (r, mc, al)
        else update_blocks (v * 4096) n KFree MemoryPermission.None_ MemoryAttribute.None_ DisableMerge.None_ DisableMerge.Normal al mc) = Done true (ResultSuccess, mc', al') /\
    machine_ok mc' /\ pages_taken mc mc' v n.
Proof.
  intros Hm Hv Hn Hfit (p & _ & Hun) Hst Hcn Hal Hix. pose proof Hm as [Hsp H0 He W Hmem _ _].
  destruct (Operate_unmap_ok mc v n W Hmem H0 He Hv Hn Hfit Hcn) as (t' & h' & mm' & i' & l & -> & [W1 Sz1 _ Hm1] & Hcl & Hon). rewrite bind_Done_true.
  change (IsError ResultSuccess) with false. cbv iota. set (mc1 := with_infos _ _).
  destruct (update_blocks_ok mc1 al (v * 4096) n KFree MemoryPermission.None_ MemoryAttribute.None_ DisableMerge.None_ DisableMerge.Normal) as (b & al' & -> & Hsp' & Hprops); try done.
  { exact (machine_range mc v n Hm Hv Hn Hfit). }
  { intros a Ha. destruct (Hun a Ha) as (q & Eq & Hq & _ & Hqa). exists q. split; [done|]. rewrite Hqa. split; [|done].
    unfold props_has. rewrite Hq. rewrite (proj2 (Z.eqb_neq _ _)) by congruence. done. }
  eexists _, al'. split; [done|]. split; [|split; [done|]; split; [by exists l|done]].
  apply (machine_ok_updated mc _ v n KFree 0 0); try done; [by eapply on_memory|cbn; intros x Hx; by rewrite Hm1, decide_False|].
  intros _. split; [done|]. split; [|cbn; intros x Hx; by rewrite Hm1, decide_True]. intros a Ha. destruct (Hun a Ha) as (q & Eq & _ & _ & Hqa). exists q. split; [done|]. by rewrite Hqa.
Qed.

Lemma UnmapPages_ok mc v n state : machine_ok mc -> 0 <= v -> 0 < n -> v + n <= entries_size (m_impl mc) -> in_u 32 state -> state <> KFree -> counted mc v n ->
  exists r mc', UnmapPages layout heap backing (v * 4096) n state mc = Done true (r, mc') /\ machine_ok mc' /\
    ((r = ResultSuccess /\ uniform mc v n state /\ pages_taken mc mc' v n) \/
     ((r = ResultInvalidCurrentMemory /\ ~ uniform mc v n state \/ r = ResultOutOfResource /\ slab_refuses) /\ untouched mc mc')).
Proof.
  intros Hm Hv Hn Hfit Hus Hst Hcn. pose proof (tw_size _ (ma_impl mc Hm)) as Hs. unfold UnmapPages, PageSize. rewrite (u64_small (n * 4096)), contains_range by (done || lia).
  destruct (CheckMemoryState_ok MemoryState.All state MemoryPermission.None_ MemoryPermission.None_ MemoryAttribute.All MemoryAttribute.None_ DefaultMemoryIgnoreAttr
    (m_memory_block_manager (m_table mc)) (v * 4096) (n * 4096) (sp_blocks _ (ma_space mc Hm))) as (p & chk & Ep & Echk & Hchk); [by apply machine_range|].
  unfold check_state. change (m_memory_block_tree (m_memory_block_manager (m_table mc))) with (blocks_of mc) in *. rewrite Echk, bind_Done_true. pose proof (uniform_accepted mc p v n state Hm Hus Ep Hn) as Hacc.
  destruct chk as [e|[[[st pm] at_] nb]].
  { destruct Hchk as [-> Hno]. eexists _, mc. split; [done|]. split; [done|]. right. split; [left; split; [done|]; by rewrite <- Hacc|apply untouched_refl]. }
  destruct Hchk as (Hall & _ & _ & _ & Hnb). apply Hacc in Hall. clear Hacc Echk Ep.
  destruct (with_allocator_cases nb mc (fun al mc => '(r, mc) ← Operate layout heap backing (v * 4096) n 0 MemoryPermission.None_ OperationType.Unmap mc;
        if IsError r then mret (r, mc, al) else update_blocks (v * 4096) n KFree MemoryPermission.None_ MemoryAttribute.None_ DisableMerge.None_ DisableMerge.Normal al mc)) as [(Hre & sm & ->)|(al & Hal & Hix & ->)];
    [rewrite Hnb; apply lacking_range| |].
  { eexists _, _. split; [done|]. split; [by apply with_slab_ok|]. right. split; [by right|by split]. }
  destruct (unmap_body_ok mc al v n state) as (mc' & al' & -> & Hm' & Hr); try done; [by rewrite Hix, Hnb|].
  rewrite bind_Done_true. eexists _, _. split; [done|]. split; [by apply with_slab_ok|]. by left.
Qed.

(** *** Mapping and unmapping again *)

(** Pages that were given are counted, and held when none of them lies at its own virtual address. *)
Lemma given_counted mc mc1 v n state perm : machine_ok mc -> pages_given mc mc1 v n state perm -> counted mc1 v n.
Proof.
  intros Hm (l & (Hnd & Hl & _) & Hbk & Hop & _). pose proof (backed_visible _ _ _ Hbk) as [r Hr]. rewrite Hl in Hr. split; [rewrite Hr in Hnd; by apply list.NoDup_app in Hnd as (? & _)|].
  intros x (p & Hp & Hx). assert (in_pages l x) as Hin by (exists p; split; [rewrite Hr; apply elem_of_app; by left|done]).
  destruct (opened_place _ _ _ x Hop Hin (me_wf _ (ma_memory mc Hm))) as [_ Ho]. split; [done|]. destruct Hop as (_ & _ & C & _). destruct (C x Hin) as [_ ->]. lia.
Qed.

Lemma given_held mc mc1 v n state perm : machine_ok mc -> (forall x, v <= x < v + n -> ~ owned (m_memory_manager mc) (x * 4096)) -> pages_given mc mc1 v n state perm ->
  exists l, held mc1 v n l /\ mm_opened layout (m_memory_manager mc) (m_memory_manager mc1) (in_pages l).
Proof.
  intros Hm Hid (l & (Hnd & Hl & _) & Hbk & Hop & _). assert (forall x, in_pages l x -> owned (m_memory_manager mc) x /\ owned (m_memory_manager mc1) x) as Hown by (intros x Hx; by apply (opened_place _ _ _ x Hop Hx (me_wf _ (ma_memory mc Hm)))).
  exists l. split; [|done]. split; [rewrite <- Hl; apply backed_phys; [done|]; intros x Hx Hin; apply (Hid x); [lia|]; apply Hown; exists (x * 4096); split; [done|lia]|]. split; [done|]. intros x Hx.
  split; [by apply Hown|]. destruct Hop as (_ & _ & C & _). destruct (C x Hx) as [_ ->]. lia.
Qed.

(** The pages of a list are a decidable set. *)
Lemma in_pages_dec l x : in_pages l x \/ ~ in_pages l x.
Proof.
  induction l as [|p l IH]; [right; by intros (? & ?%not_elem_of_nil & _)|]. destruct (decide (p <= x < p + 4096)) as [Hp|Hp]; [left; exists p; split; [apply list_elem_of_here|done]|].
  destruct IH as [(q & Hq & Hx)|Hno]; [left; exists q; split; [by apply list_elem_of_further|done]|right]. intros (q & Hq & Hx). apply list_elem_of_In in Hq as [<-|Hq]; [done|].
  apply Hno. exists q. split; [by apply list_elem_of_In|done].
Qed.

Lemma opened_closed mm mm1 mm2 R : mm_wf layout mm -> (forall x, R x \/ ~ R x) -> mm_opened layout mm mm1 R -> mm_on layout Z.pred (fun c => c = 1) mm1 mm2 R ->
  (forall x, owned mm x -> mm_refs layout mm2 x = mm_refs layout mm x) /\ forall x, mm_avail mm2 x <-> mm_avail mm x.
Proof.
  intros Wm Hdec Hop (_ & S2 & C2 & D2 & A2). pose proof Hop as (W1 & S1 & C1 & D1 & A1).
  assert (forall x, owned mm1 x <-> owned mm x) as O1 by (intros; by apply same_mm_owned). split.
  - intros x Ho. destruct (Hdec x) as [Hx|Hx]; [|by rewrite D2, D1 by (done || by apply O1)]. destruct (C1 x Hx) as [Hav H1]. rewrite C2, H1 by (done || by apply O1).
    by rewrite (free_no_refs layout mm x Wm Hav).
  - intros x. rewrite A2, A1. split; [intros [[? _]|(Hx & _)]; [done|by apply C1]|]. intros Hav. destruct (Hdec x) as [Hx|Hx]; [right|by left].
    destruct (opened_place _ _ _ x Hop Hx Wm) as [_ Ho]. split; [done|]. split; [done|]. by apply C1.
Qed.

(** Pages that were taken and of which only some are given back: the others stay taken. *)
Lemma opened_part mm mm1 mm2 R R1 R2 : mm_wf layout mm -> (forall x, R1 x \/ ~ R1 x) -> (forall x, R x <-> R1 x \/ R2 x) -> (forall x, R1 x -> ~ R2 x) -> mm_opened layout mm mm1 R ->
  mm_on layout Z.pred (fun c => c = 1) mm1 mm2 R1 -> mm_opened layout mm mm2 R2.
Proof.
  intros Wm Hdec HR Hdis Hop (W2 & S2 & C2 & D2 & A2). pose proof Hop as (W1 & S1 & C1 & D1 & A1). assert (forall x, owned mm x -> owned mm1 x) as O1 by (intros x Hx; by apply (same_mm_owned mm mm1 x S1)).
  assert (forall x, R2 x -> ~ R1 x) as Hdis' by (intros x H2 H1; by apply (Hdis x)). split; [done|]. split; [by eapply same_mm_trans|]. split_and!.
  - intros x Hx. assert (R x) as Hr by (apply HR; by right). destruct (C1 x Hr) as [Hav H1]. split; [done|]. rewrite D2; [done| |by apply Hdis']. by apply (opened_place _ _ _ x Hop Hr Wm).
  - intros x Ho Hx. destruct (Hdec x) as [H1|H1].
    + destruct (C1 x (proj2 (HR x) (or_introl H1))) as [Hav E1]. rewrite C2, E1, (free_no_refs layout mm x Wm Hav) by (done || by apply O1). done.
    + rewrite D2, D1; [done|done|rewrite HR; tauto|by apply O1|done].
  - intros x. rewrite A2, A1, HR. split.
    + intros [[? ?]|(Hx & _)]; [tauto|]. split; [|by apply Hdis]. apply (C1 x), HR. by left.
    + intros [Hav Hx]. destruct (Hdec x) as [H1|H1]; [right|tauto]. assert (R x) as Hr by (apply HR; by left). split; [done|]. split; [by apply (opened_place _ _ _ x Hop Hr Wm)|by apply C1].
Qed.

(** What mapping (to [mc1]) and unmapping (to [mc2]) the range leaves: the properties of every page and the mapping are as they were, and so is the memory, but for the pages of a [leak], which stay taken with one reference.
    There is a leak only when the records for the blocks of the range run out, or when a page of the range got the physical page of its own address, which is then one of those lost. *)
Definition restored mc mc1 mc2 v n : Prop :=
  (forall a, page_props (blocks_of mc2) a = page_props (blocks_of mc) a) /\ (forall x, mapped (m_impl mc2) x = mapped (m_impl mc) x) /\
  exists leak, mm_opened layout (m_memory_manager mc) (m_memory_manager mc2) (in_pages leak) /\
    (leak = [] \/ records_run_out mc1 v n \/ exists x, v <= x < v + n /\ x * 4096 ∈ leak).

Lemma in_pages_app l r x : in_pages (l ++ r) x <-> in_pages l x \/ in_pages r x.
Proof. unfold in_pages. setoid_rewrite elem_of_app. naive_solver. Qed.

(** Different pages have no byte in common. *)
Lemma pages_apart l r x : NoDup (l ++ r) -> Forall (fun p => (4096 | p)) (l ++ r) -> in_pages l x -> ~ in_pages r x.
Proof.
  intros (_ & Hx & _)%list.NoDup_app [Hl Hr]%Forall_app (p & Hp & Hpx) (q & Hq & Hqx). rewrite list.Forall_forall in Hl, Hr. destruct (Hl p Hp) as [i ->], (Hr q Hq) as [j ->].
  apply (Hx _ Hp). by assert (i = j) as -> by lia.
Qed.

Lemma given_taken mc mc1 mc2 v n state perm : machine_ok mc -> free_range mc v n -> pages_given mc mc1 v n state perm -> pages_taken mc1 mc2 v n -> restored mc mc1 mc2 v n.
Proof.
  intros Hm Hfree (l & (Hnd & Hl & Hal) & Hbk & Hop & Hsz & Hoth & Hp1) (Hmap & (l' & [Hpre Hwhy] & Hon) & Hp2). split_and!.
  - intros a. rewrite Hp2, Hp1. unfold on_range. destruct (Z.leb_spec (v * 4096) a), (Z.ltb_spec a (v * 4096 + n * 4096)); cbn [andb]; try done.
    destruct (Hfree a) as (q & Eq & Hq); [done|]. rewrite Eq. cbn. f_equal. destruct (ma_free mc Hm a q Eq Hq) as (Qa & Qp & _). destruct q. cbn in *. by subst.
  - intros x. rewrite Hmap. destruct (decide _) as [Hx|Hx]; [|by apply Hoth]. destruct (Hfree (x * 4096)) as (q & Eq & Hq); [lia|]. destruct (ma_free mc Hm _ q Eq Hq) as (_ & _ & Hno).
    rewrite Z.div_mul in Hno by lia. done.
  - pose proof (backed_visible _ _ _ Hbk) as Hvis. rewrite Hl in Hvis. assert (l' `prefix_of` l) as [leak ->] by (by etransitivity). exists leak. split.
    + apply (opened_part _ (m_memory_manager mc1) _ (in_pages (l' ++ leak)) (in_pages l')); [apply (ma_memory mc Hm)|apply in_pages_dec|apply in_pages_app|intros x; by apply pages_apart|done|done].
    + rewrite length_app in *. destruct Hwhy as [Hlen|[Hre|(x & Hx & Ex)]]; [left; destruct leak; [done|cbn in *; lia]|by right; left|right; right]. exists x. split; [done|].
      pose proof (visible_stops _ v n x Hx Ex) as Hst. apply prefix_length in Hpre. rewrite Hbk in Ex by (rewrite length_app; lia).
      rewrite lookup_app_r in Ex by lia. destruct (leak !! _) as [p|] eqn:Ep; [|apply lookup_ge_None in Ep; lia]. cbn in Ex. unfold shown in Ex. destruct (Z.eqb_spec p (x * 4096)) as [->|]; [|done]. by eapply list_elem_of_lookup_2.
Qed.

(** The properties of the pages a mapping has given. *)
Lemma given_props mc mc1 v n state perm a : machine_ok mc -> free_range mc v n -> pages_given mc mc1 v n state perm -> v * 4096 <= a < v * 4096 + n * 4096 ->
  exists q, page_props (blocks_of mc1) a = Some q /\ p_state q = state /\ p_permission q = perm /\ p_attribute q = 0.
Proof.
  intros Hm Hfree (_ & _ & _ & _ & _ & _ & Hp1) Ha. destruct (Hfree a Ha) as (q & Eq & Hq). exists (props_update state perm 0 q). split; [|cbn; by destruct (ma_free mc Hm a q Eq Hq) as (-> & _)].
  rewrite Hp1, Eq. unfold on_range. rewrite (proj2 (Z.leb_le _ _)), (proj2 (Z.ltb_lt _ _)) by lia. done.
Qed.

(** ** The theorems *)

(** C7: Mapping pages at an address.  From a consistent machine, for a range inside the address space, a kind of memory other than free, and a pool whose managers are those of the process, the run ends with all assertions held and a consistent machine.
    It succeeds only when the kind of memory may lie there and all pages of the range are free, and then each page of the range has a fresh physical page of its own with one reference, and the new state and permission; the page table shows this physical page, unless
    it is the one at the very address of the page, which the table shows as not mapped; no other page, mapping or reference changes.  It fails only for a range that is not free or where this kind of memory may not lie, when the memory has too few pages, or when a source of
    bookkeeping objects refuses, and then the address space, the mapping and all references are as they were. *)
Theorem map_pages mc v n state perm pool dir ids c : machine_ok mc -> 0 <= v -> 0 < n -> v + n <= entries_size (m_impl mc) ->
  in_u 32 state -> in_u 8 perm -> state <> KFree ->
  DecodeOption (m_allocate_option (m_table mc)) = (pool, dir) -> pool_chain (m_memory_manager mc) pool dir ids -> tracked (m_memory_manager mc) pool ids ->
  CanContain_state (m_table mc) (v * 4096) (n * 4096) state = Done true c ->
  exists r mc', MapPages layout backing (v * 4096) n state perm mc = Done true (r, mc') /\ machine_ok mc' /\
    ((r = ResultSuccess /\ c = true /\ free_range mc v n /\ pages_given mc mc' v n state perm) \/
     ((r = ResultInvalidCurrentMemory /\ (c = false \/ ~ free_range mc v n) \/ r = ResultOutOfMemory /\ shortage (m_memory_manager mc) ids n \/
       r = ResultOutOfResource /\ (slab_refuses \/ source_refuses (M := M))) /\ untouched mc mc')).
Proof. apply MapPages_ok. Qed.

(** Unmapping pages, when the physical pages the table shows behind the range are different and counted.  The run ends with all assertions held and a consistent machine.  It succeeds only when all pages of the range have the given state, no attributes and the same permission; then
    the range is free and not mapped, and the physical pages behind it lose a reference, those that had only one becoming available again; only when the records for the blocks run out or a page of the range is shown as not mapped are these not all of them.  Nothing else changes.
    Otherwise it is refused and the address space, the mapping and the references are as they were. *)
Theorem unmap_pages mc v n state : machine_ok mc -> 0 <= v -> 0 < n -> v + n <= entries_size (m_impl mc) -> in_u 32 state -> state <> KFree -> counted mc v n ->
  exists r mc', UnmapPages layout heap backing (v * 4096) n state mc = Done true (r, mc') /\ machine_ok mc' /\
    ((r = ResultSuccess /\ uniform mc v n state /\ pages_taken mc mc' v n) \/
     ((r = ResultInvalidCurrentMemory /\ ~ uniform mc v n state \/ r = ResultOutOfResource /\ slab_refuses) /\ untouched mc mc')).
Proof. apply UnmapPages_ok. Qed.

(** C8: Mapping pages and unmapping them again.  After a mapping that has succeeded, unmapping the same range with the same state succeeds, or is refused for want of a block and changes nothing.  When it succeeds,
    the properties of every page and the mapping are what they were before the mapping, and so are the references and the available pages, except that some of the pages that were given may be lost, taken with one reference and no longer mapped anywhere: this
    happens only when the records for the blocks of the range run out while unmapping, or when a page of the range got the physical page of its own address, which is then lost. *)
Theorem map_unmap_round_trip mc mc1 v n state perm pool dir ids : machine_ok mc -> 0 <= v -> 0 < n -> v + n <= entries_size (m_impl mc) ->
  in_u 32 state -> in_u 8 perm -> state <> KFree ->
  DecodeOption (m_allocate_option (m_table mc)) = (pool, dir) -> pool_chain (m_memory_manager mc) pool dir ids -> tracked (m_memory_manager mc) pool ids ->
  CanContain_state (m_table mc) (v * 4096) (n * 4096) state = Done true true -> MapPages layout backing (v * 4096) n state perm mc = Done true (ResultSuccess, mc1) ->
  exists r mc2, UnmapPages layout heap backing (v * 4096) n state mc1 = Done true (r, mc2) /\ machine_ok mc2 /\
    ((r = ResultSuccess /\ restored mc mc1 mc2 v n) \/
     (r = ResultOutOfResource /\ slab_refuses /\ untouched mc1 mc2)).
Proof.
  intros Hm Hv Hn Hfit Hus Hup Hst Ed Hc Ht Hcc Emap.
  destruct (MapPages_ok mc v n state perm pool dir ids true) as (r & mc' & E & Hm1 & Hr); try done. rewrite Emap in E. injection E as <- <-.
  destruct Hr as [(_ & _ & Hfree & Hg)|([[? _]|[[? _]|[? _]]] & _)]; [|done..]. pose proof (given_counted mc mc1 v n state perm Hm Hg) as Hcn.
  pose proof Hg as (_ & _ & _ & _ & Hsz & _).
  destruct (UnmapPages_ok mc1 v n state) as (r & mc2 & E & Hm2 & Hr); try done; [by rewrite Hsz|]. exists r, mc2. split; [done|]. split; [done|].
  destruct Hr as [(-> & _ & Ht2)|([[-> Hno]|[-> Hre]] & Hun)]; [left; split; [done|by apply (given_taken mc mc1 mc2 v n state perm)]|exfalso; apply Hno|right; by split_and!].
  destruct (given_props mc mc1 v n state perm (v * 4096) Hm Hfree Hg) as (p & Ep & _ & Pp & _); [lia|]. exists p. split; [done|]. intros a Ha.
  destruct (given_props mc mc1 v n state perm a Hm Hfree Hg Ha) as (q & Eq & Q1 & Q2 & Q3). exists q. split; [done|]. split_and!; congruence.
Qed.
End Proofs.

(** ** A concrete machine: four megabytes of free address space over the memory of KMemoryManager.v *)

#[local] Existing Instance counter_source.
#[local] Instance no_arena : FastMemory unit := {| fastmem_arena _ := false; fast_Map _ _ _ _ _ h := h; fast_Unmap _ _ _ h := h; fast_Protect _ _ _ h := h |}.

Definition demo_regions : Regions := mkRegions (0x200000, 0x280000) (0x300000, 0x380000) (0, 0x400000) (0, 0x400000) (0, 0x400000) (0x1000, 0x100000).
Definition demo_process : KPageTableBase :=
  mkTable 0 0x400000 demo_regions 0x200000 0 0 0 0 0 0 (mkManager [KMemoryBlock_new 0 1024 0 0 0] 0 0x400000) 0 36 false true false false.
Definition demo_machine : Machine _ _ nat nat unit := mkMachine demo_process (mkPageTable ∅ 1024 22 4096) tt demo_mm 5%nat 7%nat.
Definition everywhere (_ : Z) : bool := true.
Definition demo_backing : Z := 2 ^ 52.

Lemma demo_backing_ok : backing_ok demo_backing.
Proof. split; [by vm_compute|by exists (2 ^ 40)]. Qed.

Lemma demo_owned x : owned demo_mm x -> 0x80000000 <= x.
Proof. intros (i & p & [Hi Hp] & Hx). assert (i = 0%nat) as -> by (simpl in Hi; lia). injection Hp as <-. destruct demo_base as [Eb _]. unfold in_impl in Hx. rewrite Eb in Hx. lia. Qed.

Lemma demo_machine_ok : machine_ok demo_layout everywhere demo_machine.
Proof.
  split; [destruct demo_space_ok; by split|done|done| | | |].
  - split; [done|by vm_compute|]. intros page _. unfold entry. cbn. rewrite lookup_empty. by intros [].
  - split; [exact demo_mm_wf|]. intros x Hx. split; [by apply demo_owned|done].
  - intros a p. cbn. destruct (covers _ _); [|done]. intros [= <-]. by vm_compute.
  - intros a p. cbn. destruct (covers _ _); [|done]. intros [= <-] _. split; [done|]. split; [done|]. unfold mapped, entry. cbn. rewrite lookup_empty. cbn. by rewrite andb_false_r.
Qed.

Definition KCode : Z := MemoryState.state_value MemoryState.KCode.

Lemma demo_low x : 8 <= x < 8 + 3 -> ~ owned demo_mm (x * 4096).
Proof. intros Hx Ho%demo_owned. lia. Qed.

Lemma demo_fit : 0 <= 8 /\ 0 < 3 /\ 8 + 3 <= 1024.
Proof. lia. Qed.
Lemma demo_code : in_u 32 KCode /\ in_u 8 5 /\ KCode <> KFree.
Proof. by vm_compute. Qed.

Lemma map_pages_witness : exists r mc', MapPages demo_layout demo_backing (8 * 4096) 3 KCode 5 demo_machine = Done true (r, mc') /\ machine_ok demo_layout everywhere mc' /\
  (r = ResultSuccess -> pages_given demo_layout demo_machine mc' 8 3 KCode 5).
Proof.
  destruct (map_pages demo_layout everywhere demo_backing demo_backing_ok demo_machine 8 3 KCode 5 0 0 [0%nat] true demo_machine_ok) as (r & mc' & E & Hm & Hr);
    [lia|lia|by vm_compute|by vm_compute|by vm_compute|by vm_compute|reflexivity|exact demo_pool|exact demo_tracked|vm_compute; reflexivity|].
  exists r, mc'. split; [exact E|]. split; [exact Hm|]. intros ->. destruct Hr as [(_ & _ & _ & Hg)|([[Hr _]|[[Hr _]|[Hr _]]] & _)]; [exact Hg|discriminate Hr..].
Defined.

(** Here nothing is lost: the records suffice, and no physical page lies at these addresses. *)
Lemma map_unmap_round_trip_witness : exists mc1 r mc2, MapPages demo_layout demo_backing (8 * 4096) 3 KCode 5 demo_machine = Done true (ResultSuccess, mc1) /\
  UnmapPages demo_layout everywhere demo_backing (8 * 4096) 3 KCode mc1 = Done true (r, mc2) /\ (r = ResultSuccess -> forall x, mm_avail (m_memory_manager mc2) x <-> mm_avail demo_mm x).
Proof.
  assert (exists mc1 pg, MapPages demo_layout demo_backing (8 * 4096) 3 KCode 5 demo_machine = Done true (ResultSuccess, mc1) /\
    MakePageGroup everywhere (m_impl mc1) (mkGroup [] (m_infos mc1)) (8 * 4096) 3 = Done true (ResultSuccess, pg)) as (mc1 & pg & E1 & E2).
  { do 2 eexists. split; [vm_compute; reflexivity|vm_compute; reflexivity]. }
  destruct (map_unmap_round_trip demo_layout everywhere demo_backing demo_backing_ok demo_machine mc1 8 3 KCode 5 0 0 [0%nat] demo_machine_ok) as (r & mc2 & E & _ & Hr);
    [apply demo_fit|apply demo_fit|apply demo_fit|apply demo_code|apply demo_code|apply demo_code|reflexivity|exact demo_pool|exact demo_tracked|vm_compute; reflexivity|exact E1|].
  exists mc1, r, mc2. split; [exact E1|]. split; [exact E|]. intros ->. destruct Hr as [(_ & _ & _ & leak & (_ & _ & C & _ & A) & Hwhy)|(Hr & _)]; [|discriminate Hr]. intros x. rewrite A.
  destruct Hwhy as [->|[(pg' & E')|(y & Hy & Hin)]].
  - split; [tauto|]. intros Hx. split; [exact Hx|]. by intros (p & []%not_elem_of_nil & _).
  - rewrite E2 in E'. discriminate E'.
  - destruct (C (y * 4096)) as [Hav _]; [exists (y * 4096); split; [exact Hin|lia]|]. apply (avail_owned demo_layout) in Hav; [|exact demo_mm_wf]. apply demo_owned in Hav. lia.
Defined.

(** The state after the mapping above: the pages are held. *)
Lemma demo_mapped_held : exists mc1 l, MapPages demo_layout demo_backing (8 * 4096) 3 KCode 5 demo_machine = Done true (ResultSuccess, mc1) /\ machine_ok demo_layout everywhere mc1 /\ held demo_layout mc1 8 3 l /\
  entries_size (m_impl mc1) = 1024.
Proof.
  assert (exists mc1, MapPages demo_layout demo_backing (8 * 4096) 3 KCode 5 demo_machine = Done true (ResultSuccess, mc1) /\ entries_size (m_impl mc1) = 1024) as (mc1 & E1 & Es).
  { eexists. split; vm_compute; reflexivity. }
  destruct (MapPages_ok demo_layout everywhere demo_backing demo_backing_ok demo_machine 8 3 KCode 5 0 0 [0%nat] true demo_machine_ok) as (r & mc' & E & Hm & Hr);
    [apply demo_fit|apply demo_fit|apply demo_fit|apply demo_code|apply demo_code|apply demo_code|reflexivity|exact demo_pool|exact demo_tracked|vm_compute; reflexivity|].
  rewrite E1 in E. injection E as <- <-. destruct Hr as [(_ & _ & _ & Hg)|([[Hr _]|[[Hr _]|[Hr _]]] & _)]; [|discriminate Hr..].
  destruct (given_held demo_layout everywhere demo_machine mc1 8 3 KCode 5 demo_machine_ok demo_low Hg) as (l & Hh & _). exists mc1, l. split; [exact E1|]. split; [exact Hm|]. split; [exact Hh|exact Es].
Qed.

Lemma unmap_pages_witness : exists mc1 r mc', UnmapPages demo_layout everywhere demo_backing (8 * 4096) 3 KCode mc1 = Done true (r, mc') /\ machine_ok demo_layout everywhere mc'.
Proof.
  destruct demo_mapped_held as (mc1 & l & _ & Hm & Hh & Es).
  destruct (unmap_pages demo_layout everywhere demo_backing mc1 8 3 KCode Hm) as (r & mc' & E & Hm' & _); [lia|lia|rewrite Es; lia|by vm_compute|by vm_compute|exact (held_counted demo_layout mc1 8 3 l Hh)|].
  exists mc1, r, mc'. split; [exact E|exact Hm'].
Defined.

(** A process of four gigabytes, whose addresses reach those of the physical memory. *)
Definition demo_wide : Machine _ _ nat nat unit :=
  mkMachine (mkTable 0 0x100000000 (mkRegions (0x200000, 0x280000) (0x300000, 0x380000) (0, 0x100000000) (0, 0x100000000) (0, 0x100000000) (0x400000, 0x100000000)) 0x200000 0 0 0 0 0 0
    (mkManager [KMemoryBlock_new 0 0x100000 0 0 0] 0 0x100000000) 0 36 false true false false) (mkPageTable ∅ 0x100000 32 4096) tt demo_mm 5%nat 7%nat.

(** A page that gets the physical page of its own address is lost: mapping it and unmapping it both succeed, and the memory has a page less. *)
Lemma identity_page_leaks : exists mc1 mc2, MapPages demo_layout demo_backing 0x80238000 1 KCode 5 demo_wide = Done true (ResultSuccess, mc1) /\
  UnmapPages demo_layout everywhere demo_backing 0x80238000 1 KCode mc1 = Done true (ResultSuccess, mc2) /\
  mapped (m_impl mc1) 0x80238 = None /\ KMemoryManager.GetFreeSize demo_mm = 0x300000 /\ KMemoryManager.GetFreeSize (m_memory_manager mc2) = 0x2ff000.
Proof. do 2 eexists. split; [vm_compute; reflexivity|]. split; [vm_compute; reflexivity|]. by vm_compute. Qed.

(** When other users have taken the last records by the time of the unmapping, it still succeeds, but closes none of its pages. *)
Lemma unmap_without_records_leaks : exists mc1 mc2, MapPages demo_layout demo_backing (8 * 4096) 3 KCode 5 demo_machine = Done true (ResultSuccess, mc1) /\
  UnmapPages demo_layout everywhere demo_backing (8 * 4096) 3 KCode (with_infos 0%nat mc1) = Done true (ResultSuccess, mc2) /\
  KMemoryManager.GetFreeSize demo_mm = 0x300000 /\ KMemoryManager.GetFreeSize (m_memory_manager mc2) = 0x2fd000.
Proof. do 2 eexists. split; [vm_compute; reflexivity|]. split; [vm_compute; reflexivity|]. by vm_compute. Qed.
