(* ===== verification/KPageTableLock.v ===== *)
(** * KPageTableLock: locking, reprotecting and sharing the memory of a process

    Models, of core/hle/kernel/k_page_table_base.cpp, the operations on memory that is already mapped: [LockMemoryAndOpen] and [UnlockMemory] with
    their six users (buffers of messages, transfer memory, code memory), [SetMemoryPermission] and [SetProcessMemoryPermission], [SetMemoryAttribute], and the group operations [MapPageGroup]
    at an address, [UnmapPageGroup] and [MakeAndOpenPageGroup], on the machine of KPageTable.v.

    A group a caller passes in is given by its blocks; its records come from the same source as all others, which is a member of the machine.

    The theorems say what locking does to the pages of its range and to the references of the memory behind it, that what is locked cannot be locked or unmapped, that
    unlocking transfer memory restores the address space, and that permissions change on exactly the pages of the range. *)

From stdpp Require Import gmap.
From S2P Require Import Prelude Common BitField TinyMT KPageBitmap KPageHeap KMemoryRegion KMemoryBlock KMemoryBlockManager KMemoryManager KPageTableSpace KPageTableCheck HostPageTable KPageTable.
#[local] Open Scope Z_scope.

Section Operations.
Context {S : Type} {ES : EntropySource S} {B : Type} {FB : FreeBitmap B} {M : Type} {BS : BlockInfoSource M} {Sl : Type} {SL : BlockSlab Sl} {H : Type} {FM : FastMemory H}.
Context (layout : Z -> Z) (IsHeapPhysicalAddress : Z -> bool) (backing : Z).
Notation Machine := (Machine S B M Sl H).
Notation blocks := (list KBlockInfo).

Definition GetPhysicalAddressLocked (mc : Machine) (virt_addr : Z) : outcome (option Z) := GetPhysicalAddress (m_impl mc) virt_addr.

(** The group a caller has passed, filled from a range; no group, no work. *)
Definition make_group (out_pg : option blocks) (addr num_pages : Z) (mc : Machine) : outcome (Z * option blocks * Machine) :=
  match out_pg with
  | None => mret (ResultSuccess, None, mc)
  | Some l =>
      '(r, pg) ← MakePageGroup IsHeapPhysicalAddress (m_impl mc) (mkGroup l (m_infos mc)) addr num_pages;
      mret (r, Some (g_blocks pg), with_infos (m_manager pg) mc)
  end.
Definition open_group (pg : option blocks) (mc : Machine) : outcome Machine :=
  match pg with
  | None => mret mc
  | Some l => mm ← Group_Open layout (mkGroup l (m_infos mc)) (m_memory_manager mc); mret (with_memory mm mc)
  end.

(** Changing the permission of the range, if it is to change. *)
Definition change_permission (addr num_pages old_perm new_perm : Z) (mc : Machine) : outcome (Z * Machine) :=
  if negb (new_perm =? old_perm) then Operate layout IsHeapPhysicalAddress backing addr num_pages 0 new_perm OperationType.ChangePermissions mc else mret (ResultSuccess, mc).

(** [out_pg] and [out_paddr] say what the caller wants: the blocks of the pages, and the physical address of the first one. *)
Definition LockMemoryAndOpen (out_pg : option blocks) (out_paddr : bool) (addr size state_mask state perm_mask perm attr_mask attr new_perm lock_attr : Z) (mc : Machine) :
    outcome (Z * option blocks * option Z * Machine) :=
  ASSERT (lock_attr .& attr =? 0);;
  ASSERT (lock_attr .& (MemoryAttribute.IpcLocked .| MemoryAttribute.DeviceShared) =? 0);;
  let num_pages := size / PageSize in
  if negb (ContainsRange (m_table mc) addr size) then mret (ResultInvalidCurrentMemory, out_pg, None, mc)
  else
    ASSERT (match out_pg with Some l => Group_GetNumPages (mkGroup l (m_infos mc)) =? 0 | None => true end);;
    chk ← check_state (state_mask .| MemoryState.FlagReferenceCounted) (state .| MemoryState.FlagReferenceCounted) perm_mask perm attr_mask attr addr size mc;
    match chk with
    | inl r => mret (r, out_pg, None, mc)
    | inr (old_state, old_perm, old_attr, num_allocator_blocks) =>
        paddr ← (if out_paddr then p ← GetPhysicalAddressLocked mc addr; ASSERT (match p with Some _ => true | None => false end);; mret p else mret None);
        '(r, out_pg, mc) ← make_group out_pg addr num_pages mc;
        if IsError r then mret (r, out_pg, paddr, mc)
        else
          '(r, mc) ← with_allocator num_allocator_blocks mc (fun al mc =>
            let new_perm := if negb (new_perm =? MemoryPermission.None_) then new_perm else old_perm in
            let new_attr := old_attr .| lock_attr in
            '(r, mc) ← change_permission addr num_pages old_perm new_perm mc;
            if IsError r then mret (r, mc, al)
            else
              '(r, mc, al) ← update_blocks addr num_pages old_state new_perm new_attr DisableMerge.Locked DisableMerge.None_ al mc;
              mc ← open_group out_pg mc;
              mret (r, mc, al));
          mret (r, out_pg, paddr, mc)
    end.

Definition UnlockMemory (addr size state_mask state perm_mask perm attr_mask attr new_perm lock_attr : Z) (pg : option blocks) (mc : Machine) : outcome (Z * Machine) :=
  ASSERT (attr_mask .& lock_attr =? lock_attr);;
  ASSERT (attr .& lock_attr =? lock_attr);;
  let num_pages := size / PageSize in
  R_UNLESS ContainsRange (m_table mc) addr size ELSE ResultInvalidCurrentMemory AT mc;
  chk ← check_state (state_mask .| MemoryState.FlagReferenceCounted) (state .| MemoryState.FlagReferenceCounted) perm_mask perm attr_mask attr addr size mc;
  match chk with
  | inl r => mret (r, mc)
  | inr (old_state, old_perm, old_attr, num_allocator_blocks) =>
      valid ← match pg with Some l => IsValidPageGroup IsHeapPhysicalAddress (m_impl mc) (mkGroup l (m_infos mc)) addr num_pages | None => mret true end;
      R_UNLESS valid ELSE ResultInvalidMemoryRegion AT mc;
      let new_perm := if negb (new_perm =? MemoryPermission.None_) then new_perm else old_perm in
      let new_attr := old_attr .& notu 8 lock_attr in
      with_allocator num_allocator_blocks mc (fun al mc =>
        '(r, mc) ← change_permission addr num_pages old_perm new_perm mc;
        if IsError r then mret (r, mc, al)
        else update_blocks addr num_pages old_state new_perm new_attr DisableMerge.None_ DisableMerge.Locked al mc)
  end.

(** *** Their users *)

Definition NotMappedKernelReadWrite : Z := MemoryPermission.NotMapped .| MemoryPermission.KernelReadWrite.

Definition LockForIpcUserBuffer (address size : Z) (mc : Machine) : outcome (Z * option blocks * option Z * Machine) :=
  LockMemoryAndOpen None true address size MemoryState.FlagCanIpcUserBuffer MemoryState.FlagCanIpcUserBuffer MemoryPermission.All MemoryPermission.UserReadWrite
    MemoryAttribute.All MemoryAttribute.None_ NotMappedKernelReadWrite MemoryAttribute.Locked mc.
Definition UnlockForIpcUserBuffer (address size : Z) (mc : Machine) : outcome (Z * Machine) :=
  UnlockMemory address size MemoryState.FlagCanIpcUserBuffer MemoryState.FlagCanIpcUserBuffer MemoryPermission.None_ MemoryPermission.None_
    MemoryAttribute.All MemoryAttribute.Locked MemoryPermission.UserReadWrite MemoryAttribute.Locked None mc.

Definition LockForTransferMemory (out : blocks) (address size perm : Z) (mc : Machine) : outcome (Z * option blocks * option Z * Machine) :=
  LockMemoryAndOpen (Some out) false address size MemoryState.FlagCanTransfer MemoryState.FlagCanTransfer MemoryPermission.All MemoryPermission.UserReadWrite
    MemoryAttribute.All MemoryAttribute.None_ perm MemoryAttribute.Locked mc.
Definition UnlockForTransferMemory (address size : Z) (pg : blocks) (mc : Machine) : outcome (Z * Machine) :=
  UnlockMemory address size MemoryState.FlagCanTransfer MemoryState.FlagCanTransfer MemoryPermission.None_ MemoryPermission.None_
    MemoryAttribute.All MemoryAttribute.Locked MemoryPermission.UserReadWrite MemoryAttribute.Locked (Some pg) mc.

Definition LockForCodeMemory (out : blocks) (address size : Z) (mc : Machine) : outcome (Z * option blocks * option Z * Machine) :=
  LockMemoryAndOpen (Some out) false address size MemoryState.FlagCanCodeMemory MemoryState.FlagCanCodeMemory MemoryPermission.All MemoryPermission.UserReadWrite
    MemoryAttribute.All MemoryAttribute.None_ NotMappedKernelReadWrite MemoryAttribute.Locked mc.
Definition UnlockForCodeMemory (address size : Z) (pg : blocks) (mc : Machine) : outcome (Z * Machine) :=
  UnlockMemory address size MemoryState.FlagCanCodeMemory MemoryState.FlagCanCodeMemory MemoryPermission.None_ MemoryPermission.None_
    MemoryAttribute.All MemoryAttribute.Locked MemoryPermission.UserReadWrite MemoryAttribute.Locked (Some pg) mc.

(** ** Permissions and attributes *)

Definition SetMemoryPermission (addr size svc_perm : Z) (mc : Machine) : outcome (Z * Machine) :=
  let num_pages := size / PageSize in
  chk ← check_state MemoryState.FlagCanReprotect MemoryState.FlagCanReprotect MemoryPermission.None_ MemoryPermission.None_ MemoryAttribute.All MemoryAttribute.None_ addr size mc;
  match chk with
  | inl r => mret (r, mc)
  | inr (old_state, old_perm, _, num_allocator_blocks) =>
      let new_perm := MemoryPermission.ConvertToKMemoryPermission svc_perm in
      if old_perm =? new_perm then mret (ResultSuccess, mc)
      else
        with_allocator num_allocator_blocks mc (fun al mc =>
          '(r, mc) ← Operate layout IsHeapPhysicalAddress backing addr num_pages 0 new_perm OperationType.ChangePermissions mc;
          if IsError r then mret (r, mc, al)
          else update_blocks addr num_pages old_state new_perm MemoryAttribute.None_ DisableMerge.None_ DisableMerge.None_ al mc)
  end.

(** The state of code becomes data when it is made writable; only the two kinds of code may be. *)
Definition writable_state (old_state : Z) : outcome Z :=
  if old_state =? MemoryState.state_value MemoryState.KCode then mret (MemoryState.state_value MemoryState.KCodeData)
  else if old_state =? MemoryState.state_value MemoryState.KAliasCode then mret (MemoryState.state_value MemoryState.KAliasCodeData)
  else Undef.

(** The group that is made for executable pages is only walked to flush caches; it is finalised when the method ends. *)
Definition SetProcessMemoryPermission (addr size svc_perm : Z) (mc : Machine) : outcome (Z * Machine) :=
  let num_pages := size / PageSize in
  chk ← check_state MemoryState.FlagCode MemoryState.FlagCode MemoryPermission.None_ MemoryPermission.None_ MemoryAttribute.All MemoryAttribute.None_ addr size mc;
  match chk with
  | inl r => mret (r, mc)
  | inr (old_state, old_perm, _, num_allocator_blocks) =>
      let new_perm := MemoryPermission.ConvertToKMemoryPermission svc_perm in
      let is_w := (new_perm .& MemoryPermission.UserWrite) =? MemoryPermission.UserWrite in
      let is_x := (new_perm .& MemoryPermission.UserExecute) =? MemoryPermission.UserExecute in
      let was_x := (old_perm .& MemoryPermission.UserExecute) =? MemoryPermission.UserExecute in
      ASSERT (negb (is_w && is_x));;
      new_state ← (if is_w then writable_state old_state else mret old_state);
      '(r, pg, mc) ← (if is_x then '(r, pg) ← MakePageGroup IsHeapPhysicalAddress (m_impl mc) (mkGroup [] (m_infos mc)) addr num_pages; mret (r, pg, with_infos (m_manager pg) mc)
                      else mret (ResultSuccess, mkGroup [] (m_infos mc), mc));
      let finish (mc : Machine) := with_infos (m_manager (KMemoryManager.Finalize (mkGroup (g_blocks pg) (m_infos mc)))) mc in
      if IsError r then mret (r, finish mc)
      else if (old_perm =? new_perm) && (old_state =? new_state) then mret (ResultSuccess, finish mc)
      else
        '(r, mc) ← with_allocator num_allocator_blocks mc (fun al mc =>
          '(r, mc) ← Operate layout IsHeapPhysicalAddress backing addr num_pages 0 new_perm
                       (if was_x then OperationType.ChangePermissionsAndRefreshAndFlush else OperationType.ChangePermissions) mc;
          if IsError r then mret (r, mc, al)
          else update_blocks addr num_pages new_state new_perm MemoryAttribute.None_ DisableMerge.None_ DisableMerge.None_ al mc);
        mret (r, finish mc)
  end.

Definition AttributeTestMask : Z := notu 8 (MemoryAttribute.SetMask .| MemoryAttribute.DeviceShared).
Definition SetMemoryAttribute (addr size mask attr : Z) (mc : Machine) : outcome (Z * Machine) :=
  let num_pages := size / PageSize in
  ASSERT (mask .| MemoryAttribute.SetMask =? MemoryAttribute.SetMask);;
  let uncached := negb (mask .& MemoryAttribute.Uncached =? 0) in
  let state_test_mask := (if uncached then MemoryState.FlagCanChangeAttribute else MemoryState.None_) .|
    (if negb (mask .& MemoryAttribute.PermissionLocked =? 0) then MemoryState.FlagCanPermissionLock else MemoryState.None_) in
  chk ← CheckMemoryState state_test_mask state_test_mask MemoryPermission.None_ MemoryPermission.None_ AttributeTestMask MemoryAttribute.None_ (notu 8 AttributeTestMask) (blocks_of mc) addr size;
  match chk with
  | inl r => mret (r, mc)
  | inr (_, old_perm, _, num_allocator_blocks) =>
      with_allocator num_allocator_blocks mc (fun al mc =>
        '(r, mc) ← (if uncached then Operate layout IsHeapPhysicalAddress backing addr num_pages 0 old_perm OperationType.ChangePermissionsAndRefreshAndFlush mc
                    else mret (ResultSuccess, mc));
        if IsError r then mret (r, mc, al)
        else
          '(b, al) ← KMemoryBlockManager.UpdateAttribute (m_memory_block_manager (m_table mc)) al addr num_pages mask attr;
          mret (ResultSuccess, with_tree b mc, al))
  end.

(** ** Groups *)

Definition MapPageGroup (addr : Z) (pg : blocks) (state perm : Z) (mc : Machine) : outcome (Z * Machine) :=
  let num_pages := Group_GetNumPages (mkGroup pg (m_infos mc)) in
  let size := u64 (num_pages * PageSize) in
  c ← CanContain_state (m_table mc) addr size state;
  R_UNLESS c ELSE ResultInvalidCurrentMemory AT mc;
  chk ← check_state MemoryState.All KFree MemoryPermission.None_ MemoryPermission.None_ MemoryAttribute.None_ MemoryAttribute.None_ addr size mc;
  match chk with
  | inl r => mret (r, mc)
  | inr (_, _, _, num_allocator_blocks) =>
      with_allocator num_allocator_blocks mc (fun al mc =>
        '(r, mc) ← MapPageGroupImpl layout IsHeapPhysicalAddress backing addr (mkGroup pg (m_infos mc)) perm mc;
        if IsError r then mret (r, mc, al)
        else update_blocks addr num_pages state perm MemoryAttribute.None_ DisableMerge.Normal DisableMerge.None_ al mc)
  end.

Definition UnmapPageGroup (address : Z) (pg : blocks) (state : Z) (mc : Machine) : outcome (Z * Machine) :=
  let num_pages := Group_GetNumPages (mkGroup pg (m_infos mc)) in
  let size := u64 (num_pages * PageSize) in
  c ← CanContain_state (m_table mc) address size state;
  R_UNLESS c ELSE ResultInvalidCurrentMemory AT mc;
  chk ← check_state MemoryState.All state MemoryPermission.None_ MemoryPermission.None_ MemoryAttribute.All MemoryAttribute.None_ address size mc;
  match chk with
  | inl r => mret (r, mc)
  | inr (_, _, _, num_allocator_blocks) =>
      valid ← IsValidPageGroup IsHeapPhysicalAddress (m_impl mc) (mkGroup pg (m_infos mc)) address num_pages;
      R_UNLESS valid ELSE ResultInvalidCurrentMemory AT mc;
      with_allocator num_allocator_blocks mc (fun al mc =>
        '(r, mc) ← Operate layout IsHeapPhysicalAddress backing address num_pages 0 MemoryPermission.None_ OperationType.Unmap mc;
        if IsError r then mret (r, mc, al)
        else update_blocks address num_pages KFree MemoryPermission.None_ MemoryAttribute.None_ DisableMerge.None_ DisableMerge.Normal al mc)
  end.

Definition MakeAndOpenPageGroup (out : blocks) (address num_pages state_mask state perm_mask perm attr_mask attr : Z) (mc : Machine) : outcome (Z * blocks * Machine) :=
  let size := u64 (num_pages * PageSize) in
  if negb (ContainsRange (m_table mc) address size) then mret (ResultInvalidCurrentMemory, out, mc)
  else
    chk ← check_state (state_mask .| MemoryState.FlagReferenceCounted) (state .| MemoryState.FlagReferenceCounted) perm_mask perm attr_mask attr address size mc;
    match chk with
    | inl r => mret (r, out, mc)
    | inr _ =>
        '(r, pg) ← MakePageGroup IsHeapPhysicalAddress (m_impl mc) (mkGroup out (m_infos mc)) address num_pages;
        let mc := with_infos (m_manager pg) mc in
        if IsError r then mret (r, g_blocks pg, mc)
        else mc ← open_group (Some (g_blocks pg)) mc; mret (ResultSuccess, g_blocks pg, mc)
    end.
End Operations.

(** ** Helpers *)

Section Proofs.
Context {S : Type} {ES : EntropySource S} {B : Type} {FB : FreeBitmap B} {M : Type} {BS : BlockInfoSource M} {Sl : Type} {SL : BlockSlab Sl} {H : Type} {FM : FastMemory H}.
Context (layout : Z -> Z) (heap : Z -> bool) (backing : Z) (Hback : backing_ok backing).
Implicit Types (mc : Machine S B M Sl H).

Notation machine_ok := (machine_ok layout heap).
Notation untouched := (untouched layout).

Lemma machine_ok_host mc h : machine_ok mc -> machine_ok (with_host (m_impl mc) h mc).
Proof. intros []. by split. Qed.
Lemma machine_ok_infos mc i : machine_ok mc -> machine_ok (with_infos i mc).
Proof. intros []. by split. Qed.

Definition reprotects (operation : Z) : Prop :=
  operation = OperationType.ChangePermissions \/ operation = OperationType.ChangePermissionsAndRefresh \/ operation = OperationType.ChangePermissionsAndRefreshAndFlush.

(** Changing permissions touches only the fast memory of the host. *)
Lemma Operate_protect_ok mc v n perm operation : machine_ok mc -> 0 <= v -> 0 < n -> v + n <= entries_size (m_impl mc) -> reprotects operation ->
  exists h, Operate layout heap backing (v * 4096) n 0 perm operation mc = Done true (ResultSuccess, with_host (m_impl mc) h mc).
Proof.
  intros Hm Hv Hn Hfit Hop. pose proof (tw_size _ (ma_impl _ _ mc Hm)) as Hs. unfold Operate.
  rewrite bind_assert_true by (apply Z.ltb_lt; lia). rewrite bind_assert_true by (apply IsAligned_page; [lia|by exists v]).
  rewrite bind_assert_true by (apply contains_pages; [apply Hm|apply Hm|apply Hm|done..]).
  unfold PageSize. rewrite u64_small by lia. destruct (ProtectRegion_ok v n (ConvertToMemoryPermission perm) (m_impl mc) (m_fast mc) (ma_impl _ _ mc Hm) Hv ltac:(lia) Hfit) as (h & E).
  exists h. destruct Hop as [-> |[-> | ->]]; cbn [Z.eqb orb OperationType.Unmap OperationType.UnmapPhysical OperationType.Map OperationType.Separate OperationType.ChangePermissions
    OperationType.ChangePermissionsAndRefresh OperationType.ChangePermissionsAndRefreshAndFlush Pos.eqb]; by rewrite E, bind_ret.
Qed.

Lemma change_permission_ok mc v n old_perm new_perm : machine_ok mc -> 0 <= v -> 0 < n -> v + n <= entries_size (m_impl mc) ->
  exists h, change_permission layout heap backing (v * 4096) n old_perm new_perm mc = Done true (ResultSuccess, with_host (m_impl mc) h mc).
Proof.
  intros Hm Hv Hn Hfit. unfold change_permission. destruct (negb _); [|by exists (m_fast mc); destruct mc]. apply Operate_protect_ok; try done. by left.
Qed.

(** The update of a range that stays mapped. *)
Lemma relabel_ok mc al v n state perm attr set_attr clear_attr : machine_ok mc -> 0 <= v -> 0 < n -> v + n <= entries_size (m_impl mc) -> alloc_ok al ->
  m_index al = 2 - (lacking (blocks_of mc) (v * 4096) + lacking (blocks_of mc) (v * 4096 + n * 4096)) -> in_u 32 state -> state <> KFree ->
  in_u 8 perm -> in_u 8 attr -> attr .& AttributeIgnoreMask = 0 -> merge_mask_ok set_attr -> merge_mask_ok clear_attr ->
  all_pages (fun q => props_has state perm attr q = false /\ p_attribute q .& MemoryAttribute.IpcLocked = 0) (blocks_of mc) (v * 4096) (v * 4096 + n * 4096) ->
  exists b al', update_blocks (v * 4096) n state perm attr set_attr clear_attr al mc = Done true (ResultSuccess, with_tree b mc, al') /\ machine_ok (with_tree b mc) /\
    forall a, page_props (blocks_of (with_tree b mc)) a = on_range (v * 4096) (v * 4096 + n * 4096) (props_update state perm attr) a (page_props (blocks_of mc) a).
Proof.
  intros Hm Hv Hn Hfit Hal Hix Hus Hst Hp Ha Hai Hs1 Hs2 Hall.
  destruct (update_blocks_ok mc al (v * 4096) n state perm attr set_attr clear_attr) as (b & al' & E & Hsp & Hprops); try done; [apply Hm|by apply (machine_range layout heap)|].
  exists b, al'. split; [done|]. split; [|done]. apply (machine_ok_updated layout heap mc _ v n state perm attr); try done; apply Hm.
Qed.

(** All pages of the range have the state and the permission of [p] and the attributes [attr]. *)
Definition alike mc v n (p : PageProps) attr : Prop :=
  all_pages (fun q => p_state q = p_state p /\ p_permission q = p_permission p /\ p_attribute q = attr) (blocks_of mc) (v * 4096) (v * 4096 + n * 4096).

Lemma land_all8 mc a p : machine_ok mc -> page_props (blocks_of mc) a = Some p -> p_attribute p .& MemoryAttribute.All = p_attribute p.
Proof. intros Hm Ep. pose proof (page_attribute layout heap mc a p Hm Ep) as [? ?]. change MemoryAttribute.All with (Z.ones 8). rewrite Z.land_ones by lia. apply Z.mod_small. lia. Qed.

(** What a check for given attributes accepts. *)
Lemma accepted_alike mc p v n sm s pm pe attr : machine_ok mc -> page_props (blocks_of mc) (v * 4096) = Some p -> 0 < n ->
  all_pages (accepted sm s pm pe MemoryAttribute.All attr DefaultMemoryIgnoreAttr p) (blocks_of mc) (v * 4096) (v * 4096 + n * 4096) <->
  (p_state p .& sm = s /\ p_permission p .& pm = pe) /\ alike mc v n p attr.
Proof.
  intros Hm Ep Hn. split.
  - intros Hall. split.
    + destruct (Hall (v * 4096)) as (q & Eq & _ & Hq1 & Hq2 & _); [lia|]. rewrite Ep in Eq. by injection Eq as <-.
    + intros a Ha. destruct (Hall a Ha) as (q & Eq & (Hs & Hp & _) & _ & _ & Hqa). exists q. split; [done|]. rewrite (land_all8 mc a q Hm Eq) in Hqa. done.
  - intros ((Hs & Hp) & Hall) a Ha. destruct (Hall a Ha) as (q & Eq & Hq1 & Hq2 & Hqa). destruct (Hall (v * 4096)) as (p' & Ep' & _ & _ & Hpa); [lia|].
    rewrite Ep in Ep'. injection Ep' as <-. exists q. split; [done|]. unfold accepted, masked. rewrite (land_all8 mc a q Hm Eq), Hq1, Hq2, Hqa, Hpa. done.
Qed.

(** The check of an operation, run on the machine. *)
Lemma check_state_ok mc v n sm s pm pe attr : machine_ok mc -> 0 <= v -> 0 < n -> v + n <= entries_size (m_impl mc) ->
  exists p r, page_props (blocks_of mc) (v * 4096) = Some p /\ check_state sm s pm pe MemoryAttribute.All attr (v * 4096) (n * 4096) mc = Done true r /\
    match r with
    | inr (st, pm', at_, nb) => (p_state p .& sm = s /\ p_permission p .& pm = pe) /\ alike mc v n p attr /\
        st = p_state p /\ pm' = p_permission p /\ at_ = attr .& notu 8 DefaultMemoryIgnoreAttr /\ nb = lacking (blocks_of mc) (v * 4096) + lacking (blocks_of mc) (v * 4096 + n * 4096)
    | inl e => e = ResultInvalidCurrentMemory /\ ~ ((p_state p .& sm = s /\ p_permission p .& pm = pe) /\ alike mc v n p attr)
    end.
Proof.
  intros Hm Hv Hn Hfit. destruct (CheckMemoryState_ok sm s pm pe MemoryAttribute.All attr DefaultMemoryIgnoreAttr
    (m_memory_block_manager (m_table mc)) (v * 4096) (n * 4096) (sp_blocks _ (ma_space _ _ mc Hm))) as (p & r & Ep & E & Hr); [by apply (machine_range layout heap)|].
  change (m_memory_block_tree (m_memory_block_manager (m_table mc))) with (blocks_of mc) in *. exists p, r. split; [done|]. split; [done|].
  pose proof (accepted_alike mc p v n sm s pm pe attr Hm Ep Hn) as Hacc. destruct r as [e|[[[st pm'] at_] nb]].
  - destruct Hr as [-> Hno]. split; [done|]. by rewrite <- Hacc.
  - destruct Hr as (Hall & -> & -> & -> & ->). apply Hacc in Hall as [Hm1 Hm2]. split; [done|]. split; [done|].
    destruct (Hm2 (v * 4096)) as (q & Eq & _ & _ & Hqa); [lia|]. rewrite Ep in Eq. injection Eq as <-. by rewrite Hqa.
Qed.

Lemma page_permission mc a p : machine_ok mc -> page_props (blocks_of mc) a = Some p -> in_u 8 (p_permission p).
Proof.
  intros Hm. pose proof (mo_ok _ (sp_blocks _ (ma_space _ _ mc Hm))) as Hok. unfold blocks_of. induction (m_memory_block_tree _) as [|b t IH]; [done|].
  apply Forall_cons_1 in Hok as [Hb Hok]. cbn [page_props]. destruct (covers b a); [|by apply IH]. intros [= <-]. apply (ok_perm b Hb).
Qed.

(** *** Groups of held pages *)

(** The pages behind the range, each with a reference and room for one more. *)
Definition shareable mc v n l : Prop := held layout mc v n l /\ forall x, in_pages l x -> mm_refs layout (m_memory_manager mc) x < 65535.

Definition group_of (out : option (list KBlockInfo)) (l : list Z) : option (list KBlockInfo) := match out with Some _ => Some (runs l) | None => None end.

Lemma held_runs mc v n l : machine_ok mc -> held layout mc v n l ->
  concat (map block_pages (runs l)) = l /\ Forall block_wf (runs l) /\ disjoint_blocks (runs l) /\ good_runs heap (runs l) /\ forall x, in_blocks (runs l) x <-> in_pages l x.
Proof.
  intros Hm (El & Hnd & Hown). pose proof (runs_spec l (phys_pages_ok _ _ _ _ (ma_impl _ _ mc Hm) El)) as (Er & _ & Hw).
  assert (forall x, in_blocks (runs l) x <-> in_pages l x) as Hin by (intros x; rewrite in_blocks_concat, Er by done; done). split_and!; [done|done| | |done].
  - apply runs_disjoint; [done|by rewrite Er|apply block_pages_aligned].
  - apply (owned_runs layout heap _ _ (ma_memory _ _ mc Hm)); [by apply (phys_pages_ok (m_impl mc) v n); [apply Hm|]|]. intros x Hx. by apply Hown.
Qed.

Lemma make_group_ok mc out v n l : machine_ok mc -> 0 <= v -> 0 < n -> v + n <= entries_size (m_impl mc) -> held layout mc v n l -> out = None \/ out = Some [] ->
  exists r out' i, make_group heap out (v * 4096) n mc = Done true (r, out', with_infos i mc) /\
    ((r = ResultSuccess /\ out' = group_of out l) \/ (r = ResultOutOfResource /\ source_refuses (M := M))).
Proof.
  intros Hm Hv Hn Hfit Hh Hout. pose proof (tw_size _ (ma_impl _ _ mc Hm)) as Hs. destruct Hout as [-> | ->]; cbn [make_group group_of].
  { exists ResultSuccess, None, (m_infos mc). split; [by destruct mc|by left]. }
  destruct (MakePageGroup_ok heap (m_impl mc) (mkGroup [] (m_infos mc)) (v * 4096) n (ma_impl _ _ mc Hm)) as (r & pg & -> & Hr & _); [by exists v|lia|lia|rewrite Z.div_mul by lia; lia|done|].
  rewrite bind_Done_true. exists r, (Some (g_blocks pg)), (m_manager pg). split; [done|]. rewrite Z.div_mul in Hr by lia. destruct Hh as (El & Hh).
  destruct (held_runs mc v n l Hm (conj El Hh)) as (_ & _ & _ & Hgood & _).
  destruct Hr as [(l' & El' & _ & -> & ->)|[[-> Hno]|Hr]]; [left|exfalso; apply Hno; by exists l|by right]. rewrite El in El'. by injection El' as <-.
Qed.

(** The references a lock takes. *)
Definition opened_group (out : option (list KBlockInfo)) mc mc' l : Prop :=
  match out with
  | Some _ => mm_on layout Z.succ (fun _ => False) (m_memory_manager mc) (m_memory_manager mc') (in_pages l)
  | None => m_memory_manager mc' = m_memory_manager mc
  end.

Lemma open_group_ok mc out v n l : machine_ok mc -> shareable mc v n l ->
  exists mm, open_group layout (group_of out l) mc = Done true (with_memory mm mc) /\ machine_ok (with_memory mm mc) /\ opened_group out mc (with_memory mm mc) l.
Proof.
  intros Hm [Hh Hlt]. destruct out; cbn [group_of open_group opened_group].
  2: { exists (m_memory_manager mc). split; [by destruct mc|]. split; [by destruct mc|done]. }
  destruct (held_runs mc v n l Hm Hh) as (_ & Hw & Hd & _ & Hin). unfold Group_Open. destruct Hh as (_ & _ & Hown).
  destruct (over_blocks_spec layout _ _ _ _ (runs l) Open_op (m_memory_manager mc) (me_wf _ _ _ (ma_memory _ _ mc Hm)) Hw Hd) as (mm & E & Hon).
  { intros x Hx%Hin. destruct (Hown x Hx) as [Ho Hr]. split; [done|]. split; [|split; [done|by apply Hlt]]. apply (counted_not_avail layout); [apply Hm|done]. }
  cbn [g_blocks]. rewrite E, bind_Done_true. apply (mm_on_ext layout _ _ _ _ _ (in_pages l) Hin) in Hon. exists mm. split; [done|]. split; [|done].
  apply (machine_ok_same layout heap mc); [done|done|]. apply (on_memory layout heap _ _ _ _ _ (ma_memory _ _ mc Hm) Hon).
Qed.

(** The physical address of a mapped page. *)
Definition width_ok (t : PageTable) : Prop := 0 <= current_address_space_width_in_bits t < 64 /\ entries_size t * 4096 = 2 ^ current_address_space_width_in_bits t.

Lemma GetPhysicalAddress_ok t v x : table_wf t -> width_ok t -> mapped t v = Some x -> GetPhysicalAddress t (v * 4096) = Done true (Some x).
Proof.
  intros W [Hb Hw] Hx. pose proof (mapped_ok t v x W Hx) as (Hv & _). pose proof (tw_size t W). unfold GetPhysicalAddress, GetAddressSpaceBits. rewrite shl64_ok by lia.
  rewrite bind_ret. rewrite Z.shiftl_mul_pow2, Z.mul_1_l by lia. assert (2 ^ current_address_space_width_in_bits t < 2 ^ 64) by (apply Z.pow_lt_mono_r; lia). rewrite u64_small by lia.
  destruct (Z.ltb_spec (2 ^ current_address_space_width_in_bits t) (v * 4096)); [lia|]. unfold udiv. rewrite (tw_page t W). cbn [Z.eqb]. rewrite bind_ret, Z.div_mul by lia.
  rewrite (proj2 (Z.ltb_lt _ _)) by lia. unfold mapped in Hx. rewrite (proj2 (Z.leb_le _ _)), (proj2 (Z.ltb_lt _ _)) in Hx by lia. cbn [andb] in Hx. destruct (negb _); [|done]. by injection Hx as <-.
Qed.

(** *** Locking *)

Definition chosen (perm old_perm : Z) : Z := if negb (perm =? MemoryPermission.None_) then perm else old_perm.

Lemma chosen_u8 mc a p perm : machine_ok mc -> page_props (blocks_of mc) a = Some p -> in_u 8 perm -> in_u 8 (chosen perm (p_permission p)).
Proof. intros Hm Ep Hp. unfold chosen. destruct (negb _); [done|]. by apply (page_permission mc a). Qed.

(** Memory with reference-counted pages is not free. *)
Lemma counted_not_free mc a p sm s : machine_ok mc -> page_props (blocks_of mc) a = Some p -> p_state p .& (sm .| MemoryState.FlagReferenceCounted) = s .| MemoryState.FlagReferenceCounted ->
  in_u 32 (p_state p) /\ p_state p <> KFree.
Proof.
  intros Hm Ep Hs. split; [by apply (ma_state _ _ mc Hm a)|]. intros E. rewrite E in Hs. change KFree with 0 in Hs. rewrite Z.land_0_l in Hs.
  assert (Z.testbit 0 22 = Z.testbit (s .| MemoryState.FlagReferenceCounted) 22) as Hb by congruence. rewrite Z.lor_spec, Z.bits_0 in Hb. change (Z.testbit MemoryState.FlagReferenceCounted 22) with true in Hb.
  by rewrite orb_true_r in Hb.
Qed.

(** The pages of the range with a new permission and new attributes; all others as they were, and the mapping too. *)
Definition relabelled mc mc' v n (p : PageProps) perm attr : Prop := m_impl mc' = m_impl mc /\
  forall a, page_props (blocks_of mc') a = on_range (v * 4096) (v * 4096 + n * 4096) (props_update (p_state p) perm attr) a (page_props (blocks_of mc) a).

Lemma attribute_differs mc v n p st perm old new : alike mc v n p old -> (old .| AttributeIgnoreMask =? new .| AttributeIgnoreMask) = false -> old .& MemoryAttribute.IpcLocked = 0 ->
  all_pages (fun q => props_has st perm new q = false /\ p_attribute q .& MemoryAttribute.IpcLocked = 0) (blocks_of mc) (v * 4096) (v * 4096 + n * 4096).
Proof.
  intros Hal Hne Hlk a Ha. destruct (Hal a Ha) as (q & Eq & _ & _ & Hq). exists q. split; [done|]. rewrite Hq. split; [|done]. unfold props_has. rewrite Hq, Hne. by rewrite andb_false_r.
Qed.

Lemma lock_body_ok mc al out v n l p sm s new_perm : machine_ok mc -> 0 <= v -> 0 < n -> v + n <= entries_size (m_impl mc) -> shareable mc v n l ->
  page_props (blocks_of mc) (v * 4096) = Some p -> p_state p .& (sm .| MemoryState.FlagReferenceCounted) = s .| MemoryState.FlagReferenceCounted -> alike mc v n p 0 -> in_u 8 new_perm ->
  alloc_ok al -> m_index al = 2 - (lacking (blocks_of mc) (v * 4096) + lacking (blocks_of mc) (v * 4096 + n * 4096)) ->
  exists mc' al', ('(r, mc) ← change_permission layout heap backing (v * 4096) n (p_permission p) (chosen new_perm (p_permission p)) mc;
      if IsError r then mret (r, mc, al)
      else
        '(r, mc, al) ← update_blocks (v * 4096) n (p_state p) (chosen new_perm (p_permission p)) MemoryAttribute.Locked DisableMerge.Locked DisableMerge.None_ al mc;
        mc ← open_group layout (group_of out l) mc;
        mret (r, mc, al)) = Done true (ResultSuccess, mc', al') /\ machine_ok mc' /\
    relabelled mc mc' v n p (chosen new_perm (p_permission p)) MemoryAttribute.Locked /\ opened_group out mc mc' l.
Proof.
  intros Hm Hv Hn Hfit Hsh Ep Hst Hal Hnp Hao Hix. destruct (counted_not_free mc _ p sm s Hm Ep Hst) as [Hu Hnf]. pose proof (chosen_u8 mc _ p new_perm Hm Ep Hnp) as Hcp.
  destruct (change_permission_ok mc v n (p_permission p) (chosen new_perm (p_permission p)) Hm Hv Hn Hfit) as (h & ->). rewrite bind_Done_true. change (IsError ResultSuccess) with false. cbv iota.
  pose proof (machine_ok_host mc h Hm) as Hm1. set (mc1 := with_host (m_impl mc) h mc) in *.
  destruct (relabel_ok mc1 al v n (p_state p) (chosen new_perm (p_permission p)) MemoryAttribute.Locked DisableMerge.Locked DisableMerge.None_) as (b & al' & -> & Hm2 & Hp2); try done.
  { by apply (attribute_differs mc1 v n p _ _ 0). }
  rewrite bind_Done_true. set (mc2 := with_tree b mc1) in *. destruct (open_group_ok mc2 out v n l Hm2 Hsh) as (mm & -> & Hm3 & Ho). rewrite bind_Done_true.
  eexists _, al'. split; [done|]. split; [done|]. split; [by split|]. exact Ho.
Qed.

(** What a check for a lock asks of the range: the state and permission of its first page, shared by all, and no attributes. *)
Definition lockable mc v n sm s pm pe (p : PageProps) : Prop :=
  (p_state p .& (sm .| MemoryState.FlagReferenceCounted) = s .| MemoryState.FlagReferenceCounted /\ p_permission p .& pm = pe) /\ alike mc v n p 0.

Definition wanted_paddr (out_paddr : bool) (l : list Z) : option Z := if out_paddr then head l else None.

Lemma paddr_ok mc (out_paddr : bool) v n l : machine_ok mc -> width_ok (m_impl mc) -> 0 < n -> held layout mc v n l ->
  (if out_paddr then p ← GetPhysicalAddressLocked mc (v * 4096); ASSERT (match p with Some _ => true | None => false end);; mret p else mret None) = Done true (wanted_paddr out_paddr l).
Proof.
  intros Hm Hw Hn (El & _). destruct out_paddr; [|done]. unfold GetPhysicalAddressLocked. rewrite phys_pages_cons in El by done.
  destruct (mapped (m_impl mc) v) as [x|] eqn:Ex; [|done]. rewrite (GetPhysicalAddress_ok _ v x (ma_impl _ _ mc Hm) Hw Ex). destruct (phys_pages _ _ _); [|done]. by injection El as <-.
Qed.

Lemma LockMemoryAndOpen_ok mc out out_paddr v n l sm s pm pe new_perm : machine_ok mc -> width_ok (m_impl mc) -> 0 <= v -> 0 < n -> v + n <= entries_size (m_impl mc) -> shareable mc v n l ->
  out = None \/ out = Some [] -> in_u 8 new_perm ->
  exists p r out' pa mc', page_props (blocks_of mc) (v * 4096) = Some p /\
    LockMemoryAndOpen layout heap backing out out_paddr (v * 4096) (n * 4096) sm s pm pe MemoryAttribute.All MemoryAttribute.None_ new_perm MemoryAttribute.Locked mc = Done true (r, out', pa, mc') /\ machine_ok mc' /\
    ((r = ResultSuccess /\ lockable mc v n sm s pm pe p /\ out' = group_of out l /\ pa = wanted_paddr out_paddr l /\
        relabelled mc mc' v n p (chosen new_perm (p_permission p)) MemoryAttribute.Locked /\ opened_group out mc mc' l) \/
     ((r = ResultInvalidCurrentMemory /\ ~ lockable mc v n sm s pm pe p \/ r = ResultOutOfResource /\ (slab_refuses (Sl := Sl) \/ source_refuses (M := M))) /\ untouched mc mc')).
Proof.
  intros Hm Hw Hv Hn Hfit Hsh Hout Hnp. pose proof (tw_size _ (ma_impl _ _ mc Hm)) as Hs. unfold LockMemoryAndOpen. do 2 rewrite bind_assert_true by done.
  rewrite (contains_range layout heap) by done. cbn [negb]. unfold PageSize. rewrite Z.div_mul by lia. rewrite bind_assert_true by (by destruct Hout as [-> | ->]).
  destruct (check_state_ok mc v n (sm .| MemoryState.FlagReferenceCounted) (s .| MemoryState.FlagReferenceCounted) pm pe MemoryAttribute.None_ Hm Hv Hn Hfit) as (p & chk & Ep & -> & Hchk). rewrite bind_Done_true.
  exists p. destruct chk as [e|[[[st pm'] at_] nb]].
  { destruct Hchk as [-> Hno]. eexists _, _, _, mc. split; [done|]. split; [done|]. split; [done|]. right. split; [by left|apply untouched_refl]. }
  destruct Hchk as (Hmk & Hal & -> & -> & -> & Hnb). rewrite (paddr_ok mc out_paddr v n l Hm Hw Hn (proj1 Hsh)), bind_Done_true.
  destruct (make_group_ok mc out v n l Hm Hv Hn Hfit (proj1 Hsh) Hout) as (r & out' & i & -> & Hr). rewrite bind_Done_true. destruct Hr as [[-> ->]|[-> Hre]].
  2: { change (IsError ResultOutOfResource) with true. cbv iota. eexists _, _, _, _. split; [done|]. split; [done|]. split; [by apply machine_ok_infos|]. right. split; [by right; split; [|right]|by split]. }
  change (IsError ResultSuccess) with false. cbv iota. pose proof (machine_ok_infos mc i Hm) as Hm1.
  change (MemoryAttribute.None_ .& notu 8 DefaultMemoryIgnoreAttr) with 0 in *. change (0 .& notu 8 DefaultMemoryIgnoreAttr) with 0 in *. change (0 .| MemoryAttribute.Locked) with MemoryAttribute.Locked.
  match goal with |- context [with_allocator nb _ ?k] => destruct (with_allocator_cases nb (with_infos i mc) k) as [(Hre & sm' & ->)|(al & Hao & Hix & ->)] end; [rewrite Hnb; apply lacking_range| |].
  { rewrite bind_Done_true. eexists _, _, _, _. split; [done|]. split; [done|]. split; [by apply with_slab_ok|]. right. split; [by right; split; [|left]|by split]. }
  destruct (lock_body_ok (with_infos i mc) al out v n l p sm s new_perm) as (mc' & al' & E & Hm' & Hrl & Hop); try done; [by destruct Hmk|by rewrite Hix, Hnb|].
  unfold chosen in E |- *. rewrite E, !bind_Done_true. eexists _, _, _, _. split; [done|]. split; [done|]. split; [by apply with_slab_ok|]. left. split_and!; try done; by destruct Hrl.
Qed.

(** *** Unlocking *)

Definition unlockable mc v n sm s (p : PageProps) : Prop :=
  p_state p .& (sm .| MemoryState.FlagReferenceCounted) = s .| MemoryState.FlagReferenceCounted /\ alike mc v n p MemoryAttribute.Locked.

(** The group a caller gives back is the one of the range. *)
Definition group_matches mc v n (pg : option (list KBlockInfo)) : Prop :=
  match pg with None => True | Some bs => exists l, phys_pages (m_impl mc) v n = Some l /\ good_runs heap (runs l) /\ runs l `prefix_of` bs end.

Lemma valid_group_ok mc v n pg : machine_ok mc -> 0 <= v -> 0 < n -> v + n <= entries_size (m_impl mc) -> (forall bs, pg = Some bs -> Forall block_wf bs) ->
  exists b, match pg with Some l => IsValidPageGroup heap (m_impl mc) (mkGroup l (m_infos mc)) (v * 4096) n | None => mret true end = Done true b /\ (b = true <-> group_matches mc v n pg).
Proof.
  intros Hm Hv Hn Hfit Hw. pose proof (tw_size _ (ma_impl _ _ mc Hm)) as Hs. destruct pg as [bs|]; [|by exists true].
  destruct (IsValidPageGroup_ok heap (m_impl mc) (mkGroup bs (m_infos mc)) (v * 4096) n (ma_impl _ _ mc Hm)) as (b & E & Hb);
    [by exists v|lia|lia|rewrite Z.div_mul by lia; lia|by apply Hw|]. rewrite Z.div_mul in Hb by lia. exists b. by split.
Qed.

Lemma UnlockMemory_ok mc v n sm s pg : machine_ok mc -> 0 <= v -> 0 < n -> v + n <= entries_size (m_impl mc) -> (forall bs, pg = Some bs -> Forall block_wf bs) ->
  exists p r mc', page_props (blocks_of mc) (v * 4096) = Some p /\
    UnlockMemory layout heap backing (v * 4096) (n * 4096) sm s MemoryPermission.None_ MemoryPermission.None_ MemoryAttribute.All MemoryAttribute.Locked MemoryPermission.UserReadWrite MemoryAttribute.Locked pg mc =
      Done true (r, mc') /\ machine_ok mc' /\
    ((r = ResultSuccess /\ unlockable mc v n sm s p /\ group_matches mc v n pg /\ relabelled mc mc' v n p MemoryPermission.UserReadWrite 0 /\ m_memory_manager mc' = m_memory_manager mc) \/
     ((r = ResultInvalidCurrentMemory /\ ~ unlockable mc v n sm s p \/ r = ResultInvalidMemoryRegion /\ ~ group_matches mc v n pg \/ r = ResultOutOfResource /\ slab_refuses (Sl := Sl)) /\ untouched mc mc')).
Proof.
  intros Hm Hv Hn Hfit Hw. pose proof (tw_size _ (ma_impl _ _ mc Hm)) as Hs. unfold UnlockMemory. do 2 rewrite bind_assert_true by done.
  rewrite (contains_range layout heap) by done. unfold PageSize. rewrite Z.div_mul by lia.
  destruct (check_state_ok mc v n (sm .| MemoryState.FlagReferenceCounted) (s .| MemoryState.FlagReferenceCounted) MemoryPermission.None_ MemoryPermission.None_ MemoryAttribute.Locked Hm Hv Hn Hfit) as (p & chk & Ep & -> & Hchk).
  rewrite bind_Done_true. exists p. destruct chk as [e|[[[st pm'] at_] nb]].
  { destruct Hchk as [-> Hno]. eexists _, mc. split; [done|]. split; [done|]. split; [done|]. right. split; [left; split; [done|]|apply untouched_refl]. intros [H1 H2]. apply Hno. split; [|done]. split; [done|]. apply Z.land_0_r. }
  destruct Hchk as ((Hst & _) & Hal & -> & -> & -> & Hnb). destruct (valid_group_ok mc v n pg Hm Hv Hn Hfit Hw) as (b & -> & Hb). rewrite bind_Done_true.
  destruct b. 2: { eexists _, mc. split; [done|]. split; [done|]. split; [done|]. right. split; [right; left; split; [done|]; intros Hg; by apply Hb in Hg|apply untouched_refl]. }
  change (negb (MemoryPermission.UserReadWrite =? MemoryPermission.None_)) with true. cbv iota. change (_ .& notu 8 MemoryAttribute.Locked) with 0.
  match goal with |- context [with_allocator nb mc ?k] => destruct (with_allocator_cases nb mc k) as [(Hre & sm' & ->)|(al & Hao & Hix & ->)] end; [rewrite Hnb; apply lacking_range| |].
  { eexists _, _. split; [done|]. split; [done|]. split; [by apply with_slab_ok|]. right. split; [by right; right|by split]. }
  destruct (counted_not_free mc _ p sm s Hm Ep Hst) as [Hu Hnf].
  destruct (change_permission_ok mc v n (p_permission p) MemoryPermission.UserReadWrite Hm Hv Hn Hfit) as (h & ->). rewrite bind_Done_true. change (IsError ResultSuccess) with false. cbv iota.
  pose proof (machine_ok_host mc h Hm) as Hm1. set (mc1 := with_host (m_impl mc) h mc) in *.
  destruct (relabel_ok mc1 al v n (p_state p) MemoryPermission.UserReadWrite 0 DisableMerge.None_ DisableMerge.Locked) as (b & al' & -> & Hm2 & Hp2); try done; [by rewrite Hix, Hnb|by apply (attribute_differs mc1 v n p _ _ MemoryAttribute.Locked)|].
  rewrite bind_Done_true. eexists _, _. split; [done|]. split; [done|]. split; [by apply with_slab_ok|]. left. split_and!; try done; by apply Hb.
Qed.

(** *** Changing permissions *)

Lemma convert_u8 perm : in_u 8 (MemoryPermission.ConvertToKMemoryPermission perm).
Proof.
  assert (forall x, in_u 8 (u8 x)) as Hu by (intros x; apply wrapu_range; lia). unfold MemoryPermission.ConvertToKMemoryPermission. repeat apply in_u_lor; try done; [apply in_u_land; done|by destruct (_ =? _); vm_compute].
Qed.

Lemma flag_not_free mc a p bit : machine_ok mc -> page_props (blocks_of mc) a = Some p -> 0 <= bit -> p_state p .& (1 .<< bit) = 1 .<< bit -> in_u 32 (p_state p) /\ p_state p <> KFree.
Proof.
  intros Hm Ep Hb Hs. split; [by apply (ma_state _ _ mc Hm a)|]. intros E. rewrite E in Hs. change KFree with 0 in Hs. rewrite Z.land_0_l, Z.shiftl_mul_pow2, Z.mul_1_l in Hs by done.
  pose proof (Z.pow_pos_nonneg 2 bit). lia.
Qed.

Lemma permission_differs mc v n p st perm : alike mc v n p 0 -> p_permission p <> perm ->
  all_pages (fun q => props_has st perm 0 q = false /\ p_attribute q .& MemoryAttribute.IpcLocked = 0) (blocks_of mc) (v * 4096) (v * 4096 + n * 4096).
Proof.
  intros Hal Hne a Ha. destruct (Hal a Ha) as (q & Eq & _ & Hp & Hq). exists q. split; [done|]. rewrite Hq. split; [|done]. unfold props_has. rewrite Hp, (proj2 (Z.eqb_neq (p_permission p) perm)) by done.
  by rewrite andb_false_r.
Qed.

(** Writing the properties a range already has changes nothing. *)
Lemma relabelled_same mc v n p : alike mc v n p 0 -> relabelled mc mc v n p (p_permission p) 0.
Proof.
  intros Hal. split; [done|]. intros a. unfold on_range. destruct (Z.leb_spec (v * 4096) a), (Z.ltb_spec a (v * 4096 + n * 4096)); cbn [andb]; try done.
  destruct (Hal a) as (q & -> & Hs & Hp & Hq); [lia|]. cbn [fmap option_fmap option_map]. unfold props_update. rewrite <- Hs, <- Hp, Hq, Z.land_0_l, Z.lor_0_l. destruct q. cbn in *. by rewrite Hq.
Qed.

Definition reprotectable mc v n (p : PageProps) : Prop := p_state p .& MemoryState.FlagCanReprotect = MemoryState.FlagCanReprotect /\ alike mc v n p 0.

Lemma SetMemoryPermission_ok mc v n svc : machine_ok mc -> 0 <= v -> 0 < n -> v + n <= entries_size (m_impl mc) ->
  exists p r mc', page_props (blocks_of mc) (v * 4096) = Some p /\ SetMemoryPermission layout heap backing (v * 4096) (n * 4096) svc mc = Done true (r, mc') /\ machine_ok mc' /\
    ((r = ResultSuccess /\ reprotectable mc v n p /\ relabelled mc mc' v n p (MemoryPermission.ConvertToKMemoryPermission svc) 0 /\ m_memory_manager mc' = m_memory_manager mc) \/
     ((r = ResultInvalidCurrentMemory /\ ~ reprotectable mc v n p \/ r = ResultOutOfResource /\ slab_refuses (Sl := Sl)) /\ untouched mc mc')).
Proof.
  intros Hm Hv Hn Hfit. unfold SetMemoryPermission, PageSize. rewrite Z.div_mul by lia.
  destruct (check_state_ok mc v n MemoryState.FlagCanReprotect MemoryState.FlagCanReprotect MemoryPermission.None_ MemoryPermission.None_ MemoryAttribute.None_ Hm Hv Hn Hfit) as (p & chk & Ep & -> & Hchk).
  rewrite bind_Done_true. exists p. destruct chk as [e|[[[st pm'] at_] nb]].
  { destruct Hchk as [-> Hno]. eexists _, mc. split; [done|]. split; [done|]. split; [done|]. right. split; [left; split; [done|]|apply untouched_refl]. intros [H1 H2]. apply Hno. split; [|done]. split; [done|]. apply Z.land_0_r. }
  destruct Hchk as ((Hst & _) & Hal & -> & -> & _ & Hnb). change (MemoryState.FlagCanReprotect) with (1 .<< 8) in Hst. destruct (flag_not_free mc _ p 8 Hm Ep ltac:(lia) Hst) as [Hu Hnf].
  destruct (Z.eqb_spec (p_permission p) (MemoryPermission.ConvertToKMemoryPermission svc)) as [Heq|Hne].
  { eexists _, mc. split; [done|]. split; [done|]. split; [done|]. left. split; [done|]. split; [done|]. split; [|done]. rewrite <- Heq. by apply relabelled_same. }
  match goal with |- context [with_allocator nb mc ?k] => destruct (with_allocator_cases nb mc k) as [(Hre & sm' & ->)|(al & Hao & Hix & ->)] end; [rewrite Hnb; apply lacking_range| |].
  { eexists _, _. split; [done|]. split; [done|]. split; [by apply with_slab_ok|]. right. split; [by right|by split]. }
  destruct (Operate_protect_ok mc v n (MemoryPermission.ConvertToKMemoryPermission svc) OperationType.ChangePermissions Hm Hv Hn Hfit) as (h & ->); [by left|]. rewrite bind_Done_true.
  change (IsError ResultSuccess) with false. cbv iota. pose proof (machine_ok_host mc h Hm) as Hm1. set (mc1 := with_host (m_impl mc) h mc) in *.
  destruct (relabel_ok mc1 al v n (p_state p) (MemoryPermission.ConvertToKMemoryPermission svc) MemoryAttribute.None_ DisableMerge.None_ DisableMerge.None_) as (b & al' & -> & Hm2 & Hp2); try done;
    [by rewrite Hix, Hnb|apply convert_u8|by apply (permission_differs mc1 v n p)|].
  rewrite bind_Done_true. eexists _, _. split; [done|]. split; [done|]. split; [by apply with_slab_ok|]. left. by split_and!.
Qed.

(** *** Memory with attributes *)

(** A check for no attributes fails on a range with a page that has some. *)
Lemma check_attributes mc v n sm s pm pe a q : machine_ok mc -> 0 <= v -> 0 < n -> v + n <= entries_size (m_impl mc) -> v * 4096 <= a < v * 4096 + n * 4096 ->
  page_props (blocks_of mc) a = Some q -> p_attribute q <> 0 -> check_state sm s pm pe MemoryAttribute.All MemoryAttribute.None_ (v * 4096) (n * 4096) mc = Done true (inl ResultInvalidCurrentMemory).
Proof.
  intros Hm Hv Hn Hfit Ha Eq Hq. destruct (check_state_ok mc v n sm s pm pe MemoryAttribute.None_ Hm Hv Hn Hfit) as (p & r & _ & -> & Hr). destruct r as [e|[[[st pm'] at_] nb]].
  - by destruct Hr as [-> _].
  - destruct Hr as (_ & Hal & _). destruct (Hal a Ha) as (q' & Eq' & _ & _ & Hz). rewrite Eq in Eq'. injection Eq' as <-. done.
Qed.

(** *** Mapping a group *)

(** The pages of the blocks are memory of the managers with room for one more reference. *)
Definition openable mc l : Prop := forall x, in_blocks l x -> owned (m_memory_manager mc) x /\ 0 < mm_refs layout (m_memory_manager mc) x < 65535.

Lemma Operate_map_ok mc v b perm : table_wf (m_impl mc) -> memory_ok layout heap (m_memory_manager mc) -> m_address_space_start (m_table mc) = 0 ->
  m_address_space_end (m_table mc) = entries_size (m_impl mc) * 4096 -> 0 < v -> v + m_num_pages b <= entries_size (m_impl mc) -> block_wf b -> openable mc [b] ->
  exists t h mm, Operate layout heap backing (v * 4096) (m_num_pages b) (bstart b) perm OperationType.Map mc = Done true (ResultSuccess, with_memory mm (with_host t h mc)) /\
    list_mapped (m_impl mc) t v (block_pages b) /\ mm_on layout Z.succ (fun _ => False) (m_memory_manager mc) mm (in_blocks [b]).
Proof.
  intros W [Wm Pm] H0 He Hv Hfit Hb Hop. pose proof (tw_size _ W) as Hs. pose proof Hb as (B1 & B2 & B3). unfold Operate.
  rewrite bind_assert_true by (apply Z.ltb_lt; lia). rewrite bind_assert_true by (apply IsAligned_page; [lia|by exists v]). rewrite bind_assert_true by (apply contains_pages; (done || lia)).
  cbn [Z.eqb orb OperationType.Unmap OperationType.UnmapPhysical OperationType.Map Pos.eqb]. rewrite bind_assert_true by (by destruct (Z.eqb_spec (v * 4096) 0); [lia|]).
  rewrite bind_assert_true by (apply IsAligned_page; [lia|by exists v]). unfold PageSize. rewrite u64_small by lia.
  assert (in_blocks [b] (bstart b)) as Hin by (exists b; split; [apply list_elem_of_here|unfold in_block, bstart, bstop; lia]). destruct (Pm (bstart b)) as [Hd Hh]; [by apply Hop|].
  destruct (MapMemoryRegion_ok backing Hback v (m_num_pages b) (bstart b) (ConvertToMemoryPermission perm) false (m_impl mc) (m_fast mc)) as (t & -> & R1); try done; try lia; [by exists (m_page_index b)|unfold bstart; lia|].
  rewrite bind_ret, Hh. destruct (over_blocks_spec layout _ _ _ _ [b] Open_op (m_memory_manager mc) Wm) as (mm & E & Hon).
  { by apply Forall_singleton. } { split; [|done]. intros x _. apply in_blocks_nil. }
  { intros x Hx. destruct (Hop x Hx) as [Ho Hr]. split; [done|]. split; [|done]. apply (counted_not_avail layout); [done|lia]. }
  cbn [over_blocks] in E. rewrite bind_ret_r in E. rewrite (proj1 (Info_address b Hb)) in E. unfold Open. unfold Info_GetNumPages in E. rewrite E, bind_Done_true.
  eexists t, _, mm. split; [done|]. split; [by apply range_list_mapped|done].
Qed.

(** What the blocks of a group ask of a place: room. *)
Definition placeable mc v l : Prop := 0 < v /\ v + sum_pages l <= entries_size (m_impl mc) /\ Forall block_wf l /\ disjoint_blocks l /\ openable mc l.

Lemma openable_next mc mm t h b l : openable mc (b :: l) -> (forall x, in_block b x -> ~ in_blocks l x) -> mm_on layout Z.succ (fun _ => False) (m_memory_manager mc) mm (in_blocks [b]) -> openable (with_memory mm (with_host t h mc)) l.
Proof.
  intros Hop Hd (_ & Sm & _ & D & _) x Hx. destruct (Hop x) as [Ho Hr]; [apply in_blocks_cons; by right|]. split; [by apply (same_mm_owned (m_memory_manager mc) mm x Sm)|]. cbn.
  rewrite D; [done|done|]. intros (b' & [->|[]%not_elem_of_nil]%elem_of_cons & Hb). by apply (Hd x).
Qed.

Lemma map_group_loop_ok perm start l : forall mc v, table_wf (m_impl mc) -> memory_ok layout heap (m_memory_manager mc) -> m_address_space_start (m_table mc) = 0 ->
  m_address_space_end (m_table mc) = entries_size (m_impl mc) * 4096 -> placeable mc v l ->
  exists t h mm, map_group_loop layout heap backing l start (v * 4096) perm mc = Done true (ResultSuccess, with_memory mm (with_host t h mc)) /\
    list_mapped (m_impl mc) t v (concat (map block_pages l)) /\ mm_on layout Z.succ (fun _ => False) (m_memory_manager mc) mm (in_blocks l).
Proof.
  induction l as [|b l IH]; intros mc v W Hmem H0 He (Hv & Hfit & Hw & Hd & Hop); cbn [map_group_loop map concat].
  { exists (m_impl mc), (m_fast mc), (m_memory_manager mc). split; [by destruct mc|]. split; [by apply list_mapped_nil|]. apply mm_on_nil; [apply Hmem|apply in_blocks_nil]. }
  apply Forall_cons_1 in Hw as [Hb Hw]. destruct Hd as [Hbl Hd]. pose proof Hb as (B1 & B2 & B3). cbn [sum_pages fold_right] in Hfit. fold (sum_pages l) in Hfit.
  pose proof (tw_size _ W) as Hs. pose proof (sum_pages_nonneg l Hw) as Hnn. unfold Info_GetNumPages. rewrite (proj1 (Info_address b Hb)).
  destruct (Operate_map_ok mc v b perm W Hmem H0 He Hv ltac:(lia) Hb) as (t1 & h1 & mm1 & -> & Hl1 & Hon1).
  { intros x (b' & [->|[]%not_elem_of_nil]%elem_of_cons & Hx). apply Hop, in_blocks_cons. by left. }
  rewrite bind_Done_true. change (IsError ResultSuccess) with false. cbv iota. unfold Info_GetSize, PageSize, Info_GetNumPages. rewrite (u64_small (m_num_pages b * 4096)), (u64_small (v * 4096 + _)) by lia.
  replace (v * 4096 + m_num_pages b * 4096) with ((v + m_num_pages b) * 4096) by lia.
  destruct (IH (with_memory mm1 (with_host t1 h1 mc)) (v + m_num_pages b)) as (t & h & mm & -> & Hl & Hon).
  - apply Hl1.
  - by apply (on_memory layout heap _ _ _ _ _ Hmem Hon1).
  - done.
  - cbn. rewrite (lm_size _ _ _ _ Hl1). done.
  - split; [lia|]. split; [cbn; rewrite (lm_size _ _ _ _ Hl1); lia|]. split_and!; [done|done|by apply (openable_next mc mm1 t1 h1 b l)].
  - exists t, h, mm. split; [done|]. split; [apply (list_mapped_app _ t1); [done|]; by rewrite length_pages|].
    eapply mm_on_app; [exact Hon1|exact Hon| | |].
    + intros x (b' & [->|[]%not_elem_of_nil]%elem_of_cons & Hx). by apply Hbl.
    + intros x. destruct (decide (bstart b <= x < bstop b)) as [Hx|Hx]; [left; exists b; split; [apply list_elem_of_here|done]|right]. by intros (b' & [->|[]%not_elem_of_nil]%elem_of_cons & Hx').
    + intros x. rewrite in_blocks_cons. split; [intros [Hx|Hx]; [left; exists b; split; [apply list_elem_of_here|done]|by right]|].
      intros [(b' & [->|[]%not_elem_of_nil]%elem_of_cons & Hx)|Hx]; [by left|by right].
Qed.

(** The pages of the group behind the range, each with one more reference. *)
Definition group_mapped mc mc' v bs state perm : Prop := let n := sum_pages bs in
  backed (m_impl mc') v (concat (map block_pages bs)) /\ mm_on layout Z.succ (fun _ => False) (m_memory_manager mc) (m_memory_manager mc') (in_blocks bs) /\
  entries_size (m_impl mc') = entries_size (m_impl mc) /\ (forall x, ~ v <= x < v + n -> mapped (m_impl mc') x = mapped (m_impl mc) x) /\
  forall a, page_props (blocks_of mc') a = on_range (v * 4096) (v * 4096 + n * 4096) (props_update state perm 0) a (page_props (blocks_of mc) a).

Lemma MapPageGroup_ok mc v bs state perm c : machine_ok mc -> placeable mc v bs -> 0 < sum_pages bs -> in_u 32 state -> in_u 8 perm -> state <> KFree ->
  CanContain_state (m_table mc) (v * 4096) (sum_pages bs * 4096) state = Done true c ->
  exists r mc', MapPageGroup layout heap backing (v * 4096) bs state perm mc = Done true (r, mc') /\ machine_ok mc' /\
    ((r = ResultSuccess /\ c = true /\ free_range mc v (sum_pages bs) /\ group_mapped mc mc' v bs state perm) \/
     ((r = ResultInvalidCurrentMemory /\ (c = false \/ ~ free_range mc v (sum_pages bs)) \/ r = ResultOutOfResource /\ slab_refuses (Sl := Sl)) /\ untouched mc mc')).
Proof.
  intros Hm Hpl Hn Hus Hup Hst Hcc. pose proof Hpl as (Hv & Hfit & Hw & _). pose proof (tw_size _ (ma_impl _ _ mc Hm)) as Hs. unfold MapPageGroup. rewrite (Group_GetNumPages_eq (mkGroup bs (m_infos mc))) by (cbn [g_blocks]; done || lia). cbn [g_blocks].
  set (n := sum_pages bs) in *. unfold PageSize. rewrite (u64_small (n * 4096)), Hcc, bind_Done_true by lia.
  destruct c; [|eexists _, mc; split; [done|]; split; [done|]; right; split; [by left; split; [|left]|apply untouched_refl]].
  destruct (CheckMemoryState_ok MemoryState.All KFree MemoryPermission.None_ MemoryPermission.None_ MemoryAttribute.None_ MemoryAttribute.None_ DefaultMemoryIgnoreAttr
    (m_memory_block_manager (m_table mc)) (v * 4096) (n * 4096) (sp_blocks _ (ma_space _ _ mc Hm))) as (p & chk & Ep & Echk & Hchk); [apply (machine_range layout heap); (done || lia)|].
  unfold check_state. change (m_memory_block_tree (m_memory_block_manager (m_table mc))) with (blocks_of mc) in *. rewrite Echk, bind_Done_true. pose proof (free_accepted layout heap mc p v n Hm Hn Ep) as Hacc.
  destruct chk as [e|[[[st pm] at_] nb]].
  { destruct Hchk as [-> Hno]. eexists _, mc. split; [done|]. split; [done|]. right. split; [left; split; [done|]; right; by rewrite <- Hacc|apply untouched_refl]. }
  destruct Hchk as (Hall & _ & _ & _ & Hnb'). apply Hacc in Hall. clear Hacc Echk Ep.
  match goal with |- context [with_allocator nb mc ?k] => destruct (with_allocator_cases nb mc k) as [(Hre & sm & ->)|(al & Hal & Hix & ->)] end; [rewrite Hnb'; apply lacking_range| |].
  { eexists _, _. split; [done|]. split; [by apply with_slab_ok|]. right. split; [by right|by split]. }
  unfold MapPageGroupImpl. cbn [g_blocks]. destruct (map_group_loop_ok perm (v * 4096) bs mc v) as (t & h & mm & -> & Hl & Hon); [apply Hm|apply Hm|apply Hm|apply Hm|done|]. rewrite bind_Done_true.
  change (IsError ResultSuccess) with false. cbv iota. set (mc1 := with_memory mm (with_host t h mc)).
  destruct (update_blocks_ok mc1 al (v * 4096) n state perm MemoryAttribute.None_ DisableMerge.Normal DisableMerge.None_) as (b & al' & -> & Hsp' & Hprops); try done.
  { apply Hm. } { exact (machine_range layout heap mc v n Hm ltac:(lia) Hn Hfit). } { rewrite Hix, Hnb'. done. }
  { intros a Ha. destruct (Hall a Ha) as (q & Eq & Hq). exists q. split; [done|]. destruct (ma_free _ _ mc Hm a q Eq Hq) as (Qa & _). rewrite Qa. split; [|done].
    unfold props_has. rewrite Hq. rewrite (proj2 (Z.eqb_neq _ _)) by congruence. done. }
  rewrite bind_Done_true. eexists ResultSuccess, _. split; [done|].
  assert (forall x, ~ v <= x < v + n -> mapped t x = mapped (m_impl mc) x) as Hother.
  { intros x Hx. rewrite (lm_mapped _ _ _ _ Hl), pages_total, decide_False by done. done. }
  split.
  - apply with_slab_ok, (machine_ok_updated layout heap mc _ v n state perm 0); try done; [apply Hl|apply Hl|by apply (on_memory layout heap _ _ _ _ _ (ma_memory _ _ mc Hm) Hon)].
  - left. split; [done|]. split; [done|]. split; [done|]. unfold group_mapped. fold n. split_and!; try done; [by apply (list_mapped_backed (m_impl mc))|apply Hl].
Qed.

(** *** Unmapping a group, and making one *)

Lemma UnmapPageGroup_ok mc v bs state c : machine_ok mc -> 0 <= v -> 0 < sum_pages bs -> v + sum_pages bs <= entries_size (m_impl mc) -> Forall block_wf bs -> in_u 32 state -> state <> KFree ->
  counted layout mc v (sum_pages bs) -> CanContain_state (m_table mc) (v * 4096) (sum_pages bs * 4096) state = Done true c ->
  exists r mc', UnmapPageGroup layout heap backing (v * 4096) bs state mc = Done true (r, mc') /\ machine_ok mc' /\
    ((r = ResultSuccess /\ c = true /\ uniform mc v (sum_pages bs) state /\ group_matches mc v (sum_pages bs) (Some bs) /\ pages_taken layout heap mc mc' v (sum_pages bs)) \/
     ((r = ResultInvalidCurrentMemory /\ (c = false \/ ~ uniform mc v (sum_pages bs) state \/ ~ group_matches mc v (sum_pages bs) (Some bs)) \/ r = ResultOutOfResource /\ slab_refuses (Sl := Sl)) /\ untouched mc mc')).
Proof.
  intros Hm Hv Hn Hfit Hw Hus Hst Hh Hcc. pose proof (tw_size _ (ma_impl _ _ mc Hm)) as Hs. unfold UnmapPageGroup. rewrite (Group_GetNumPages_eq (mkGroup bs (m_infos mc))) by (cbn [g_blocks]; done || lia). cbn [g_blocks].
  set (n := sum_pages bs) in *. unfold PageSize. rewrite (u64_small (n * 4096)), Hcc, bind_Done_true by lia.
  destruct c; [|eexists _, mc; split; [done|]; split; [done|]; right; split; [by left; split; [|left]|apply untouched_refl]].
  destruct (CheckMemoryState_ok MemoryState.All state MemoryPermission.None_ MemoryPermission.None_ MemoryAttribute.All MemoryAttribute.None_ DefaultMemoryIgnoreAttr
    (m_memory_block_manager (m_table mc)) (v * 4096) (n * 4096) (sp_blocks _ (ma_space _ _ mc Hm))) as (p & chk & Ep & Echk & Hchk); [by apply (machine_range layout heap)|].
  unfold check_state. change (m_memory_block_tree (m_memory_block_manager (m_table mc))) with (blocks_of mc) in *. rewrite Echk, bind_Done_true. pose proof (uniform_accepted layout heap mc p v n state Hm Hus Ep Hn) as Hacc.
  destruct chk as [e|[[[st pm] at_] nb]].
  { destruct Hchk as [-> Hno]. eexists _, mc. split; [done|]. split; [done|]. right. split; [left; split; [done|]; right; left; by rewrite <- Hacc|apply untouched_refl]. }
  destruct Hchk as (Hall & _ & _ & _ & Hnb). apply Hacc in Hall. clear Hacc Echk Ep.
  destruct (valid_group_ok mc v n (Some bs) Hm Hv Hn Hfit) as (b & -> & Hb); [by intros ? [= <-]|]. rewrite bind_Done_true.
  destruct b. 2: { eexists _, mc. split; [done|]. split; [done|]. right. split; [left; split; [done|]; right; right; intros Hg; by apply Hb in Hg|apply untouched_refl]. }
  match goal with |- context [with_allocator nb mc ?k] => destruct (with_allocator_cases nb mc k) as [(Hre & sm & ->)|(al & Hal & Hix & ->)] end; [rewrite Hnb; apply lacking_range| |].
  { eexists _, _. split; [done|]. split; [by apply with_slab_ok|]. right. split; [by right|by split]. }
  destruct (unmap_body_ok layout heap backing mc al v n state) as (mc' & al' & -> & Hm' & Hr); try done; [by rewrite Hix, Hnb|].
  rewrite bind_Done_true. eexists _, _. split; [done|]. split; [by apply with_slab_ok|]. left. split_and!; try done; [by apply Hb|apply Hr..].
Qed.

Definition groupable mc v n sm s pm pe attr (p : PageProps) : Prop :=
  (p_state p .& (sm .| MemoryState.FlagReferenceCounted) = s .| MemoryState.FlagReferenceCounted /\ p_permission p .& pm = pe) /\ alike mc v n p attr.

Lemma MakeAndOpenPageGroup_ok mc v n l sm s pm pe attr : machine_ok mc -> 0 <= v -> 0 < n -> v + n <= entries_size (m_impl mc) -> shareable mc v n l ->
  exists p r out mc', page_props (blocks_of mc) (v * 4096) = Some p /\
    MakeAndOpenPageGroup layout heap [] (v * 4096) n sm s pm pe MemoryAttribute.All attr mc = Done true (r, out, mc') /\ machine_ok mc' /\
    ((r = ResultSuccess /\ groupable mc v n sm s pm pe attr p /\ out = runs l /\ same_space mc mc' /\ opened_group (Some []) mc mc' l) \/
     ((r = ResultInvalidCurrentMemory /\ ~ groupable mc v n sm s pm pe attr p \/ r = ResultOutOfResource /\ source_refuses (M := M)) /\ untouched mc mc')).
Proof.
  intros Hm Hv Hn Hfit Hsh. pose proof (tw_size _ (ma_impl _ _ mc Hm)) as Hs. unfold MakeAndOpenPageGroup, PageSize. rewrite u64_small by lia. rewrite (contains_range layout heap) by done. cbn [negb].
  destruct (check_state_ok mc v n (sm .| MemoryState.FlagReferenceCounted) (s .| MemoryState.FlagReferenceCounted) pm pe attr Hm Hv Hn Hfit) as (p & chk & Ep & -> & Hchk). rewrite bind_Done_true.
  exists p. destruct chk as [e|[[[st pm'] at_] nb]].
  { destruct Hchk as [-> Hno]. eexists _, _, mc. split; [done|]. split; [done|]. split; [done|]. right. split; [by left|apply untouched_refl]. }
  destruct Hchk as (Hmk & Hal & _). destruct (make_group_ok mc (Some []) v n l Hm Hv Hn Hfit (proj1 Hsh) (or_intror eq_refl)) as (r & out' & i & E & Hr). cbn [make_group] in E.
  destruct (MakePageGroup _ _ _ _ _) as [|[] [r' pg]]; [done|..]; [|done]. rewrite bind_Done_true in *. injection E as -> <- Ei. assert (machine_ok (with_infos (m_manager pg) mc)) as Hm1 by (by apply machine_ok_infos).
  destruct Hr as [[-> [= Eg]]|[-> Hre]].
  - change (IsError ResultSuccess) with false. cbv iota. rewrite Eg. destruct (open_group_ok (with_infos (m_manager pg) mc) (Some []) v n l Hm1 Hsh) as (mm & E & Hm2 & Ho). cbn [group_of] in E. rewrite E, bind_Done_true.
    eexists _, _, _. split; [done|]. split; [done|]. split; [done|]. left. by split_and!.
  - change (IsError ResultOutOfResource) with true. cbv iota. eexists _, _, _. split; [done|]. split; [done|]. split; [done|]. right. split; [by right|by split].
Qed.

(** *** Locking and unlocking again *)

Lemma permission_all mc a p : machine_ok mc -> page_props (blocks_of mc) a = Some p -> p_permission p .& MemoryPermission.All = p_permission p.
Proof. intros Hm Ep. pose proof (page_permission mc a p Hm Ep) as [? ?]. change MemoryPermission.All with (Z.ones 8). rewrite Z.land_ones by lia. apply Z.mod_small. lia. Qed.

(** A range that is relabelled, seen from its first page. *)
Lemma relabelled_alike mc mc' v n p perm attr : 0 < n -> page_props (blocks_of mc) (v * 4096) = Some p -> alike mc v n p 0 -> attr .& AttributeIgnoreMask = 0 -> relabelled mc mc' v n p perm attr ->
  page_props (blocks_of mc') (v * 4096) = Some (props_update (p_state p) perm attr p) /\ alike mc' v n (props_update (p_state p) perm attr p) attr.
Proof.
  intros Hn Ep Hal Hai [_ Hp]. assert (forall a q, v * 4096 <= a < v * 4096 + n * 4096 -> page_props (blocks_of mc) a = Some q -> page_props (blocks_of mc') a = Some (props_update (p_state p) perm attr q)) as Hin.
  { intros a q Ha Eq. rewrite Hp, Eq. unfold on_range. rewrite (proj2 (Z.leb_le _ _)), (proj2 (Z.ltb_lt _ _)) by lia. done. }
  split; [apply Hin; [lia|done]|]. intros a Ha. destruct (Hal a Ha) as (q & Eq & _ & _ & Hqa). eexists. split; [by apply Hin|]. cbn. by rewrite Hqa, Z.lor_0_r.
Qed.

Lemma relabelled_back mc mc1 mc2 v n p p1 perm attr : relabelled mc mc1 v n p perm attr -> relabelled mc1 mc2 v n p1 (p_permission p) 0 -> p_state p1 = p_state p -> attr .& AttributeIgnoreMask = 0 -> alike mc v n p 0 ->
  m_impl mc2 = m_impl mc /\ forall a, page_props (blocks_of mc2) a = page_props (blocks_of mc) a.
Proof.
  intros [I1 H1] [I2 H2] Hs Hai Hal. split; [congruence|]. intros a. rewrite H2, H1. unfold on_range. destruct (Z.leb_spec (v * 4096) a), (Z.ltb_spec a (v * 4096 + n * 4096)); cbn [andb]; try done.
  destruct (Hal a) as (q & -> & Hqs & Hqp & Hqa); [lia|]. cbn [fmap option_fmap option_map]. unfold props_update. cbn [p_original p_attribute p_ipc_lock p_device_use].
  rewrite Z.land_lor_distr_l, Hai, Hs, <- Hqs, <- Hqp, Hqa, !Z.land_0_l. destruct q. cbn in *. by rewrite Hqa.
Qed.

(** ** The theorems *)

(** C11: Locking memory, with or without a group of its pages and the physical address of the first one.  The run ends with all assertions held and a consistent machine.  It succeeds only when all pages of the range have one state that is reference counted and has the
    flags asked for, one permission that is the one asked for, and no attributes; then exactly these pages are locked with the new permission, the group lists the runs of physical pages behind them and each of them has one reference more.  Otherwise the address space, the
    mapping and the references are as they were. *)
Theorem lock_memory mc out out_paddr v n l sm s pm pe new_perm : machine_ok mc -> width_ok (m_impl mc) -> 0 <= v -> 0 < n -> v + n <= entries_size (m_impl mc) -> shareable mc v n l ->
  out = None \/ out = Some [] -> in_u 8 new_perm ->
  exists p r out' pa mc', page_props (blocks_of mc) (v * 4096) = Some p /\
    LockMemoryAndOpen layout heap backing out out_paddr (v * 4096) (n * 4096) sm s pm pe MemoryAttribute.All MemoryAttribute.None_ new_perm MemoryAttribute.Locked mc = Done true (r, out', pa, mc') /\ machine_ok mc' /\
    ((r = ResultSuccess /\ lockable mc v n sm s pm pe p /\ out' = group_of out l /\ pa = wanted_paddr out_paddr l /\
        relabelled mc mc' v n p (chosen new_perm (p_permission p)) MemoryAttribute.Locked /\ opened_group out mc mc' l) \/
     ((r = ResultInvalidCurrentMemory /\ ~ lockable mc v n sm s pm pe p \/ r = ResultOutOfResource /\ (slab_refuses (Sl := Sl) \/ source_refuses (M := M))) /\ untouched mc mc')).
Proof. apply LockMemoryAndOpen_ok. Qed.

(** C12: Transfer memory.  After memory has been locked for a transfer, the group that was handed out unlocks it: unlocking succeeds, or is refused for want of a block and changes nothing; when it succeeds the properties of every page and the mapping are what they were
    before the lock, and the references stay with the group. *)
Theorem transfer_memory_round_trip mc mc1 v n l perm bs pa : machine_ok mc -> width_ok (m_impl mc) -> 0 <= v -> 0 < n -> v + n <= entries_size (m_impl mc) -> shareable mc v n l -> in_u 8 perm ->
  LockForTransferMemory layout heap backing [] (v * 4096) (n * 4096) perm mc = Done true (ResultSuccess, Some bs, pa, mc1) ->
  bs = runs l /\ exists r mc2, UnlockForTransferMemory layout heap backing (v * 4096) (n * 4096) bs mc1 = Done true (r, mc2) /\
    ((r = ResultSuccess /\ m_impl mc2 = m_impl mc /\ (forall a, page_props (blocks_of mc2) a = page_props (blocks_of mc) a) /\ m_memory_manager mc2 = m_memory_manager mc1) \/
     (r = ResultOutOfResource /\ slab_refuses (Sl := Sl) /\ untouched mc1 mc2)).
Proof.
  intros Hm Hw Hv Hn Hfit Hsh Hp Elock. unfold LockForTransferMemory in Elock.
  destruct (LockMemoryAndOpen_ok mc (Some []) false v n l MemoryState.FlagCanTransfer MemoryState.FlagCanTransfer MemoryPermission.All MemoryPermission.UserReadWrite perm Hm Hw Hv Hn Hfit Hsh (or_intror eq_refl) Hp)
    as (p & r & out' & pa' & mc' & Ep & E & Hm1 & Hr). rewrite Elock in E. injection E as <- <- <- <-. destruct Hr as [(_ & ((Hst & Hpe) & Hal) & [= ->] & _ & Hrl & _)|([[? _]|[? _]] & _)]; [|done..].
  split; [done|]. rewrite (permission_all mc _ p Hm Ep) in Hpe. destruct (held_runs mc v n l Hm (proj1 Hsh)) as (_ & Hbw & _ & Hgood & _).
  destruct (relabelled_alike mc mc1 v n p _ MemoryAttribute.Locked Hn Ep Hal eq_refl Hrl) as [Ep1 Hal1]. pose proof (proj1 Hrl) as Himpl. unfold UnlockForTransferMemory.
  destruct (UnlockMemory_ok mc1 v n MemoryState.FlagCanTransfer MemoryState.FlagCanTransfer (Some (runs l)) Hm1 Hv Hn) as (p1 & r & mc2 & Ep1' & E & _ & Hr); [by rewrite Himpl|by intros ? [= <-]|].
  rewrite Ep1 in Ep1'. injection Ep1' as <-. exists r, mc2. split; [done|]. destruct Hr as [(-> & _ & _ & Hrl2 & Hmm)|([[-> Hno]|[[-> Hno]|[-> Hre]]] & Hun)].
  - left. split; [done|]. rewrite <- Hpe in Hrl2. destruct (relabelled_back mc mc1 mc2 v n p _ _ _ Hrl Hrl2 eq_refl eq_refl Hal) as [Hi Hpp]. by split_and!.
  - exfalso. by apply Hno.
  - exfalso. apply Hno. exists l. rewrite Himpl. destruct Hsh as [(El & _) _]. by split_and!.
  - right. by split_and!.
Qed.

(** C13: Memory with attributes, in particular locked memory, is safe from the process.  While any page of a range has an attribute, the range is neither unmapped, nor reprotected, nor locked for a transfer, as code memory or as a buffer of a message: each of these operations answers
    [ResultInvalidCurrentMemory] and leaves the whole machine as it is. *)
Theorem locked_memory_refused mc v n a q : machine_ok mc -> 0 <= v -> 0 < n -> v + n <= entries_size (m_impl mc) -> v * 4096 <= a < v * 4096 + n * 4096 -> page_props (blocks_of mc) a = Some q -> p_attribute q <> 0 ->
  (forall state, UnmapPages layout heap backing (v * 4096) n state mc = Done true (ResultInvalidCurrentMemory, mc)) /\
  (forall svc, SetMemoryPermission layout heap backing (v * 4096) (n * 4096) svc mc = Done true (ResultInvalidCurrentMemory, mc)) /\
  (forall svc, SetProcessMemoryPermission layout heap backing (v * 4096) (n * 4096) svc mc = Done true (ResultInvalidCurrentMemory, mc)) /\
  (forall perm, LockForTransferMemory layout heap backing [] (v * 4096) (n * 4096) perm mc = Done true (ResultInvalidCurrentMemory, Some [], None, mc)) /\
  LockForCodeMemory layout heap backing [] (v * 4096) (n * 4096) mc = Done true (ResultInvalidCurrentMemory, Some [], None, mc) /\
  LockForIpcUserBuffer layout heap backing (v * 4096) (n * 4096) mc = Done true (ResultInvalidCurrentMemory, None, None, mc).
Proof.
  intros Hm Hv Hn Hfit Ha Eq Hq. pose proof (tw_size _ (ma_impl _ _ mc Hm)) as Hs.
  assert (forall sm s pm pe, check_state sm s pm pe MemoryAttribute.All MemoryAttribute.None_ (v * 4096) (n * 4096) mc = Done true (inl ResultInvalidCurrentMemory)) as Hchk by (intros; by apply (check_attributes mc v n _ _ _ _ a q)).
  assert (ContainsRange (m_table mc) (v * 4096) (n * 4096) = true) as Hc by (by apply (contains_range layout heap)).
  split_and!; intros; unfold UnmapPages, SetMemoryPermission, SetProcessMemoryPermission, LockForTransferMemory, LockForCodeMemory, LockForIpcUserBuffer, LockMemoryAndOpen, PageSize;
    [rewrite (u64_small (n * 4096)) by lia| | |do 2 rewrite bind_assert_true by done..]; rewrite ?Hc; cbn [negb]; cbv iota; try rewrite bind_assert_true by done; by rewrite Hchk, bind_Done_true.
Qed.

(** Changing the permission of a range.  It succeeds only when all pages of the range have one state that may be reprotected, one permission and no attributes; then exactly these pages get the permission, and nothing else changes, references included.  Otherwise nothing changes at all. *)
Theorem set_memory_permission mc v n svc : machine_ok mc -> 0 <= v -> 0 < n -> v + n <= entries_size (m_impl mc) ->
  exists p r mc', page_props (blocks_of mc) (v * 4096) = Some p /\ SetMemoryPermission layout heap backing (v * 4096) (n * 4096) svc mc = Done true (r, mc') /\ machine_ok mc' /\
    ((r = ResultSuccess /\ reprotectable mc v n p /\ relabelled mc mc' v n p (MemoryPermission.ConvertToKMemoryPermission svc) 0 /\ m_memory_manager mc' = m_memory_manager mc) \/
     ((r = ResultInvalidCurrentMemory /\ ~ reprotectable mc v n p \/ r = ResultOutOfResource /\ slab_refuses (Sl := Sl)) /\ untouched mc mc')).
Proof. apply SetMemoryPermission_ok. Qed.

(** Mapping a group of physical pages.  It succeeds only when the kind of memory may lie there and the range is free; then the pages of the range are the pages of the group in order, each with one reference more, and have the new state; no other page, mapping or
    reference changes.  Otherwise the address space, the mapping and the references are as they were. *)
Theorem map_page_group mc v bs state perm c : machine_ok mc -> placeable mc v bs -> 0 < sum_pages bs -> in_u 32 state -> in_u 8 perm -> state <> KFree ->
  CanContain_state (m_table mc) (v * 4096) (sum_pages bs * 4096) state = Done true c ->
  exists r mc', MapPageGroup layout heap backing (v * 4096) bs state perm mc = Done true (r, mc') /\ machine_ok mc' /\
    ((r = ResultSuccess /\ c = true /\ free_range mc v (sum_pages bs) /\ group_mapped mc mc' v bs state perm) \/
     ((r = ResultInvalidCurrentMemory /\ (c = false \/ ~ free_range mc v (sum_pages bs)) \/ r = ResultOutOfResource /\ slab_refuses (Sl := Sl)) /\ untouched mc mc')).
Proof. apply MapPageGroup_ok. Qed.
End Proofs.

(** ** Examples, on the machine of KPageTable.v *)

#[local] Existing Instance counter_source.
#[local] Existing Instance no_arena.

Definition KNormal : Z := MemoryState.state_value MemoryState.KNormal.
Definition KShared : Z := MemoryState.state_value MemoryState.KShared.
Notation RW := MemoryPermission.UserReadWrite.
Notation DemoMachine := (Machine TinyMT.State (KPageBitmap.KPageBitmap (S := TinyMT.State)) nat nat unit).

Lemma demo_normal_facts : (0 <= 512 /\ 0 < 3 /\ 512 + 3 <= 1024) /\ in_u 32 KNormal /\ in_u 8 RW /\ KNormal <> KFree.
Proof. by vm_compute. Qed.
Lemma demo_normal_low x : 512 <= x < 512 + 3 -> ~ owned demo_mm (x * 4096).
Proof. intros Hx Ho%demo_owned. lia. Qed.

(** Three pages of heap, which can be locked. *)
Lemma demo_heap_pages : exists mc1 l bs pa mc2, machine_ok demo_layout everywhere mc1 /\ shareable demo_layout mc1 512 3 l /\ width_ok (m_impl mc1) /\ entries_size (m_impl mc1) = 1024 /\
  LockForTransferMemory demo_layout everywhere demo_backing [] (512 * 4096) (3 * 4096) 9 mc1 = Done true (ResultSuccess, Some bs, pa, mc2).
Proof.
  assert (exists mc1 bs pa mc2, MapPages demo_layout demo_backing (512 * 4096) 3 KNormal RW demo_machine = Done true (ResultSuccess, mc1) /\ entries_size (m_impl mc1) = 1024 /\
    current_address_space_width_in_bits (m_impl mc1) = 22 /\
    LockForTransferMemory demo_layout everywhere demo_backing [] (512 * 4096) (3 * 4096) 9 mc1 = Done true (ResultSuccess, Some bs, pa, mc2)) as (mc1 & bs & pa & mc2 & E1 & Es & Ew & E2).
  { do 4 eexists. split; [vm_compute; reflexivity|]. split; [vm_compute; reflexivity|]. split; vm_compute; reflexivity. }
  destruct demo_normal_facts as ((F1 & F2 & F3) & F4 & F5 & F6).
  destruct (MapPages_ok demo_layout everywhere demo_backing demo_backing_ok demo_machine 512 3 KNormal RW 0 0 [0%nat] true demo_machine_ok F1 F2 F3 F4 F5 F6 eq_refl demo_pool demo_tracked)
    as (r & mc' & E & Hm & Hr); [vm_compute; reflexivity|]. rewrite E1 in E. injection E as <- <-. destruct Hr as [(_ & _ & _ & Hg)|([[Hr _]|[[Hr _]|[Hr _]]] & _)]; [|discriminate Hr..].
  destruct (given_held demo_layout everywhere demo_machine mc1 512 3 KNormal RW demo_machine_ok demo_normal_low Hg) as (l & Hh & Hop).
  exists mc1, l, bs, pa, mc2. split; [exact Hm|]. split; [|split; [|split; [exact Es|exact E2]]].
  - split; [exact Hh|]. intros x Hx. destruct Hop as (_ & _ & C & _). destruct (C x Hx) as [_ ->]. reflexivity.
  - split; [rewrite Ew; split; [discriminate|reflexivity]|]. rewrite Es, Ew. reflexivity.
Qed.

Lemma lock_memory_witness : exists (mc1 : DemoMachine) p r out' pa mc', page_props (blocks_of mc1) (512 * 4096) = Some p /\
  LockMemoryAndOpen demo_layout everywhere demo_backing (Some []) true (512 * 4096) (3 * 4096) MemoryState.FlagCanTransfer MemoryState.FlagCanTransfer MemoryPermission.All RW
    MemoryAttribute.All MemoryAttribute.None_ 9 MemoryAttribute.Locked mc1 = Done true (r, out', pa, mc') /\ machine_ok demo_layout everywhere mc'.
Proof.
  destruct demo_heap_pages as (mc1 & l & bs & pa & mc2 & Hm & Hsh & Hw & Es & _). destruct demo_normal_facts as ((F1 & F2 & F3) & _).
  destruct (lock_memory demo_layout everywhere demo_backing mc1 (Some []) true 512 3 l MemoryState.FlagCanTransfer MemoryState.FlagCanTransfer MemoryPermission.All RW 9 Hm Hw F1 F2) as (p & r & out' & pa' & mc' & H1 & H2 & H3 & _);
    [rewrite Es; exact F3|exact Hsh|right; reflexivity|by vm_compute|]. exists mc1, p, r, out', pa', mc'. split; [exact H1|]. split; [exact H2|exact H3].
Defined.

Lemma transfer_memory_round_trip_witness : exists (mc1 : DemoMachine) bs r mc2, UnlockForTransferMemory demo_layout everywhere demo_backing (512 * 4096) (3 * 4096) bs mc1 = Done true (r, mc2).
Proof.
  destruct demo_heap_pages as (mc1 & l & bs & pa & mc2 & Hm & Hsh & Hw & Es & E). destruct demo_normal_facts as ((F1 & F2 & F3) & _).
  destruct (transfer_memory_round_trip demo_layout everywhere demo_backing mc1 mc2 512 3 l 9 bs pa Hm Hw F1 F2) as (_ & r & mc3 & E3 & _); [rewrite Es; exact F3|exact Hsh|split; [discriminate|reflexivity]|exact E|].
  exists mc2, bs, r, mc3. exact E3.
Defined.

(** The pages after the lock. *)
Lemma demo_locked : exists (mc : DemoMachine) q, machine_ok demo_layout everywhere mc /\ entries_size (m_impl mc) = 1024 /\ page_props (blocks_of mc) (512 * 4096) = Some q /\ p_attribute q <> 0.
Proof.
  destruct demo_heap_pages as (mc1 & l & bs & pa & mc2 & Hm & Hsh & Hw & Es & E). destruct demo_normal_facts as ((F1 & F2 & F3) & _).
  destruct (LockMemoryAndOpen_ok demo_layout everywhere demo_backing mc1 (Some []) false 512 3 l MemoryState.FlagCanTransfer MemoryState.FlagCanTransfer MemoryPermission.All RW 9 Hm Hw F1 F2)
    as (p & r & out' & pa' & mc' & Ep & E' & Hm' & Hr); [rewrite Es; exact F3|exact Hsh|right; reflexivity|by vm_compute|]. unfold LockForTransferMemory in E. rewrite E in E'. injection E' as <- <- <- <-.
  destruct Hr as [(_ & [_ Hal] & _ & _ & Hrl & _)|([[Hr _]|[Hr _]] & _)]; [|discriminate Hr..]. destruct (relabelled_alike mc1 mc2 512 3 p _ MemoryAttribute.Locked F2 Ep Hal eq_refl Hrl) as [Ep2 Hal2].
  exists mc2, (props_update (p_state p) (chosen 9 (p_permission p)) MemoryAttribute.Locked p). split; [exact Hm'|]. split; [rewrite (proj1 Hrl); exact Es|]. split; [exact Ep2|].
  destruct (Hal2 (512 * 4096)) as (q & Eq & _ & _ & Hq); [lia|]. rewrite Ep2 in Eq. injection Eq as <-. rewrite Hq. discriminate.
Qed.

Lemma locked_memory_refused_witness : exists mc : DemoMachine, machine_ok demo_layout everywhere mc /\ UnmapPages demo_layout everywhere demo_backing (512 * 4096) 3 KNormal mc = Done true (ResultInvalidCurrentMemory, mc).
Proof.
  destruct demo_locked as (mc & q & Hm & Es & Eq & Hq). destruct demo_normal_facts as ((F1 & F2 & F3) & _). exists mc. split; [exact Hm|].
  apply (locked_memory_refused demo_layout everywhere demo_backing mc 512 3 (512 * 4096) q Hm F1 F2); [rewrite Es; exact F3|lia|exact Eq|exact Hq].
Defined.

Lemma set_memory_permission_witness : exists p r mc', page_props (blocks_of demo_machine) (512 * 4096) = Some p /\ SetMemoryPermission demo_layout everywhere demo_backing (512 * 4096) (3 * 4096) 1 demo_machine = Done true (r, mc') /\
  machine_ok demo_layout everywhere mc'.
Proof.
  destruct demo_normal_facts as ((F1 & F2 & F3) & _). destruct (set_memory_permission demo_layout everywhere demo_backing demo_machine 512 3 1 demo_machine_ok F1 F2 F3) as (p & r & mc' & H1 & H2 & H3 & _).
  exists p, r, mc'. split; [exact H1|]. split; [exact H2|exact H3].
Defined.

Lemma demo_placeable : placeable demo_layout demo_machine 8 [mkInfo 0x80300 1].
Proof.
  split; [lia|]. split; [by vm_compute|]. split; [apply Forall_singleton; by vm_compute|]. split; [split; [intros x _; apply in_blocks_nil|done]|].
  assert (forall x, in_blocks [mkInfo 0x80300 1] x -> 0x80300000 <= x < 0x80301000) as Hin.
  { intros x (b & [->|[]%not_elem_of_nil]%elem_of_cons & Hx). unfold in_block, bstart, bstop in Hx. cbn in Hx. lia. }
  intros x Hx%Hin. destruct (demo_in_use x) as [Ho Hr]; [lia|]. split; [done|]. cbn [m_memory_manager demo_machine]. rewrite Hr. destruct (decide _); lia.
Qed.

Lemma map_page_group_witness : exists r mc', MapPageGroup demo_layout everywhere demo_backing (8 * 4096) [mkInfo 0x80300 1] KShared RW demo_machine = Done true (r, mc') /\ machine_ok demo_layout everywhere mc' /\
  (r = ResultSuccess -> group_mapped demo_layout demo_machine mc' 8 [mkInfo 0x80300 1] KShared RW).
Proof.
  destruct (map_page_group demo_layout everywhere demo_backing demo_backing_ok demo_machine 8 [mkInfo 0x80300 1] KShared RW true demo_machine_ok demo_placeable) as (r & mc' & E & Hm & Hr);
    [by vm_compute|by vm_compute|by vm_compute|by vm_compute|vm_compute; reflexivity|].
  exists r, mc'. split; [exact E|]. split; [exact Hm|]. intros ->. destruct Hr as [(_ & _ & _ & Hg)|([[Hr _]|[Hr _]] & _)]; [exact Hg|discriminate Hr..].
Defined.
