(* ===== verification/KPageTableHeap.v ===== *)
(** * KPageTableHeap: the heap of a process

    Models [SetHeapSize] and [SetMaxHeapSize] of core/hle/kernel/k_page_table_base.cpp, on the machine of KPageTable.v and a resource limit of KResourceLimit.v.  To make the heap smaller, the pages
    behind its new end are unmapped and the limit gets them back; to make it larger, the pages are reserved on the limit, allocated, mapped behind the current end, and the reservation is committed.

    A reservation may have to wait for another thread; the run up to the wait is modelled, and answers [None].  The contents of the pages are not part of the machine.

    The theorem says what each branch does to the pages, the physical memory and the limit, and that an operation that fails changes none of them. *)

From stdpp Require Import gmap.
From S2P Require Import Prelude Common BitField TinyMT KPageBitmap KPageHeap KResourceLimit KMemoryRegion KMemoryBlock KMemoryBlockManager KMemoryManager KPageTableSpace KPageTableCheck HostPageTable KPageTable KPageTableLock.
#[local] Open Scope Z_scope.

Definition with_heap_end (x : Z) (t : KPageTableBase) : KPageTableBase :=
  mkTable (m_address_space_start t) (m_address_space_end t) (m_regions t) x (m_max_heap_size t) (m_mapped_physical_memory_size t)
    (m_mapped_unsafe_physical_memory t) (m_mapped_insecure_memory t) (m_mapped_ipc_server_memory t) (m_alias_region_extra_size t) (m_memory_block_manager t) (m_allocate_option t)
    (m_address_space_width t) (m_is_kernel t) (m_enable_aslr t) (m_enable_device_address_space_merge t) (m_allowed_exec_device_mapping t).
Definition with_max_heap_size (x : Z) (t : KPageTableBase) : KPageTableBase :=
  mkTable (m_address_space_start t) (m_address_space_end t) (m_regions t) (m_current_heap_end t) x (m_mapped_physical_memory_size t)
    (m_mapped_unsafe_physical_memory t) (m_mapped_insecure_memory t) (m_mapped_ipc_server_memory t) (m_alias_region_extra_size t) (m_memory_block_manager t) (m_allocate_option t)
    (m_address_space_width t) (m_is_kernel t) (m_enable_aslr t) (m_enable_device_address_space_merge t) (m_allowed_exec_device_mapping t).

Definition m_heap_region_start (t : KPageTableBase) : Z := fst (m_heap_region (m_regions t)).
Definition m_heap_region_end (t : KPageTableBase) : Z := snd (m_heap_region (m_regions t)).

Definition SetMaxHeapSize (size : Z) (t : KPageTableBase) : outcome (Z * KPageTableBase) :=
  ASSERT (negb (m_is_kernel t));;
  mret (ResultSuccess, with_max_heap_size size t).

Section Operations.
Context {S : Type} {ES : EntropySource S} {B : Type} {FB : FreeBitmap B} {M : Type} {BS : BlockInfoSource M} {Sl : Type} {SL : BlockSlab Sl} {H : Type} {FM : FastMemory H}.
Context (layout : Z -> Z) (IsHeapPhysicalAddress : Z -> bool) (backing : Z).
Notation Machine := (Machine S B M Sl H).
Notation group := (KPageGroup M).

Definition with_table (t : KPageTableBase) (mc : Machine) : Machine := mkMachine t (m_impl mc) (m_fast mc) (m_memory_manager mc) (m_infos mc) (m_memory_block_slab_manager mc).

(** [with_allocator] of KPageTable.v, for a body that changes something besides the machine. *)
Definition with_allocator_and {A : Type} (num_blocks : Z) (a : A) (mc : Machine)
    (k : UpdateAllocator Sl -> Machine -> outcome (Z * A * Machine * UpdateAllocator Sl)) : outcome (Z * A * Machine) :=
  '(r, al) ← Allocator_new (m_memory_block_slab_manager mc) num_blocks;
  if IsError r then mret (r, a, with_slab (Allocator_destroy al) mc)
  else
    '(r, a, mc, al) ← k al mc;
    mret (r, a, with_slab (Allocator_destroy al) mc).

(** The end of the heap is freed. *)
Definition shrink_heap (size : Z) (limit : KResourceLimit) (mc : Machine) : outcome (Z * KResourceLimit * Machine) :=
  let start := m_heap_region_start (m_table mc) in
  let address := u64 (start + size) in
  let freed := u64 (u64 (m_current_heap_end (m_table mc) - start) - size) in
  chk ← check_state MemoryState.All KNormal MemoryPermission.All MemoryPermission.UserReadWrite MemoryAttribute.All MemoryAttribute.None_ address freed mc;
  match chk with
  | inl r => mret (r, limit, mc)
  | inr (_, _, _, num_allocator_blocks) =>
      with_allocator_and num_allocator_blocks limit mc (fun al mc =>
        let num_pages := freed / PageSize in
        '(r, mc) ← Operate layout IsHeapPhysicalAddress backing address num_pages 0 MemoryPermission.None_ OperationType.Unmap mc;
        if IsError r then mret (r, limit, mc, al)
        else
          let value := s64 (u64 (num_pages * PageSize)) in
          '(_, limit) ← Release limit PhysicalMemoryMax value value;
          '(_, mc, al) ← update_blocks address num_pages KFree MemoryPermission.None_ MemoryAttribute.None_ DisableMerge.None_ (if size =? 0 then DisableMerge.Normal else DisableMerge.None_) al mc;
          mret (ResultSuccess, limit, with_table (with_heap_end (u64 (start + size)) (m_table mc)) mc, al))
  end.

(** The part of an extension under the lock of the table: the pages of the group are mapped behind the current end. *)
Definition map_heap (size cur_address allocation_size : Z) (pg : group) (reservation : KScopedResourceReservation) (mc : Machine) :
    outcome (Z * KScopedResourceReservation * Machine) :=
  ASSERT (cur_address =? m_current_heap_end (m_table mc));;
  let start := m_heap_region_start (m_table mc) in
  let current := m_current_heap_end (m_table mc) in
  chk ← check_state MemoryState.All KFree MemoryPermission.None_ MemoryPermission.None_ MemoryAttribute.None_ MemoryAttribute.None_ current allocation_size mc;
  match chk with
  | inl r => mret (r, reservation, mc)
  | inr (_, _, _, num_allocator_blocks) =>
      with_allocator_and num_allocator_blocks reservation mc (fun al mc =>
        let num_pages := allocation_size / PageSize in
        '(r, mc) ← Operate_group layout backing current num_pages pg MemoryPermission.UserReadWrite OperationType.MapGroup mc;
        if IsError r then mret (r, reservation, mc, al)
        else
          let reservation := Commit reservation in
          '(_, mc, al) ← update_blocks current num_pages KNormal MemoryPermission.UserReadWrite MemoryAttribute.None_ (if start =? current then DisableMerge.Normal else DisableMerge.None_) DisableMerge.None_ al mc;
          mret (ResultSuccess, reservation, with_table (with_heap_end (u64 (start + size)) (m_table mc)) mc, al))
  end.

(** An extension; the group is closed, then finalised, then the reservation is given back unless it was committed. *)
Definition extend_heap (timeout tick size cur_address allocation_size : Z) (limit : KResourceLimit) (mc : Machine) : outcome (option (Z * KResourceLimit * Machine)) :=
  '(reservation, limit) ← Reservation_new true limit PhysicalMemoryMax (s64 allocation_size) timeout tick;
  match reservation with
  | None => mret None
  | Some reservation =>
      if negb (m_succeeded reservation) then
        limit ← Reservation_destroy reservation limit;
        mret (Some (ResultLimitReached, limit, mc))
      else
        '(r, pg, mm) ← AllocateAndOpen layout (allocation_size / PageSize) (m_allocate_option (m_table mc)) (mkGroup [] (m_infos mc)) (m_memory_manager mc);
        let mc := with_memory mm mc in
        if IsError r then
          limit ← Reservation_destroy reservation limit;
          mret (Some (r, limit, with_infos (m_manager (KMemoryManager.Finalize pg)) mc))
        else
          '(r, reservation, mc) ← map_heap size cur_address allocation_size pg reservation mc;
          mm ← Group_Close layout pg (m_memory_manager mc);
          let mc := with_infos (m_manager (KMemoryManager.Finalize pg)) (with_memory mm mc) in
          limit ← Reservation_destroy reservation limit;
          mret (Some (r, limit, mc))
  end.

(** The result, the address of the heap on success, the limit and the machine. *)
Definition SetHeapSize (timeout tick size : Z) (limit : KResourceLimit) (mc : Machine) : outcome (option (Z * Z * KResourceLimit * Machine)) :=
  let t := m_table mc in
  let start := m_heap_region_start t in
  let current := u64 (m_current_heap_end t - start) in
  if m_is_kernel t then mret (Some (ResultOutOfMemory, 0, limit, mc))
  else if negb (size <=? u64 (m_heap_region_end t - start)) then mret (Some (ResultOutOfMemory, 0, limit, mc))
  else if negb (size <=? m_max_heap_size t) then mret (Some (ResultOutOfMemory, 0, limit, mc))
  else if size <? current then
    '(r, limit, mc) ← shrink_heap size limit mc;
    mret (Some (r, if IsError r then 0 else start, limit, mc))
  else if size =? current then mret (Some (ResultSuccess, start, limit, mc))
  else
    o ← extend_heap timeout tick size (m_current_heap_end t) (u64 (size - current)) limit mc;
    match o with
    | None => mret None
    | Some (r, limit, mc) => mret (Some (r, if IsError r then 0 else start, limit, mc))
    end.
End Operations.

(** ** The limit *)

(** The accounts of the limit, with [d] bytes more of physical memory. *)
Definition accounts (limit limit' : KResourceLimit) (d : Z) : Prop :=
  limit_wf limit' /\ forall w, limit_at limit' w = limit_at limit w /\
    current_at limit' w = current_at limit w + (if decide (w = PhysicalMemoryMax) then d else 0) /\ hint_at limit' w = hint_at limit w + (if decide (w = PhysicalMemoryMax) then d else 0).

Lemma accounts_refl limit : limit_wf limit -> accounts limit limit 0.
Proof. intros W. split; [done|]. intros w. destruct (decide _); split_and!; lia. Qed.

(** A reservation: refused, or made, and then kept when it is committed and undone when it is not. *)
Lemma Reservation_cases limit value timeout tick : limit_wf limit -> 0 < value < 2 ^ 63 ->
  exists o limit1, Reservation_new true limit PhysicalMemoryMax value timeout tick = Done true (o, limit1) /\
    match o with
    | None => ~ KResourceLimit.fits limit PhysicalMemoryMax value
    | Some res => if m_succeeded res
        then accounts limit limit1 value /\ Reservation_destroy (Commit res) limit1 = Done true limit1 /\ exists limit2, Reservation_destroy res limit1 = Done true limit2 /\ accounts limit limit2 0
        else ~ KResourceLimit.fits limit PhysicalMemoryMax value /\ Reservation_destroy res limit1 = Done true limit
    end.
Proof.
  intros W Hv. unfold Reservation_new. rewrite (proj2 (Z.eqb_neq value 0)) by lia. cbn [andb negb]. rewrite Reserve_enter_eq by (done || lia).
  destruct (Z.leb_spec (limit_at limit PhysicalMemoryMax) (hint_at limit PhysicalMemoryMax)) as [Hle|_].
  { rewrite bind_ret. eexists _, limit. split; [done|]. cbn. split; [|unfold Reservation_destroy; cbn; by rewrite andb_false_r]. pose proof W as [_ Hw]. destruct (Hw PhysicalMemoryMax) as (? & ? & ? & ? & ?). unfold KResourceLimit.fits. lia. }
  destruct (Reserve_round_spec limit PhysicalMemoryMax value timeout tick W ltac:(lia)) as (d & r & E & R1 & R2 & R3). rewrite E, bind_Done_true. destruct d.
  - destruct (R1 eq_refl) as (_ & Hr & _). pose proof (Reserve_round_wf limit PhysicalMemoryMax value timeout tick Reserved r W ltac:(lia) E) as W1. eexists _, r. split; [done|]. cbn [m_succeeded].
    assert (accounts limit r value) as Ha by (split; [done|]; intros w; destruct (Hr w) as (E1 & E2 & E3 & _); rewrite E1, E2, E3; by destruct (decide _); split_and!; lia). split; [done|]. split; [done|].
    unfold Reservation_destroy. cbn [m_limit m_value m_succeeded m_resource]. rewrite (proj2 (Z.eqb_neq value 0)) by lia. cbn [negb andb]. pose proof W as [_ Hw]. destruct (Hw PhysicalMemoryMax) as (? & ? & ? & ? & ?). destruct Ha as [_ Ha]. pose proof (Ha PhysicalMemoryMax) as (_ & Hc & Hh). rewrite decide_True in Hc, Hh by done.
    destruct (Release_spec r PhysicalMemoryMax value value W1) as (r2 & E2 & W2 & _ & Hr2); [lia|lia|lia|]. rewrite E2. exists r2. split; [done|]. split; [done|]. intros w. destruct (Ha w) as (? & ? & ?), (Hr2 w) as (? & _ & ? & ?). destruct (decide _); split_and!; lia.
  - destruct (R3 eq_refl) as [Hno ->]. eexists _, limit. split; [done|]. cbn. split; [done|]. unfold Reservation_destroy. cbn. by rewrite andb_false_r.
  - destruct (R2 eq_refl) as [Hno _]. eexists _, r. split; [done|]. done.
Qed.

Section Proofs.
Context {S : Type} {ES : EntropySource S} {B : Type} {FB : FreeBitmap B} {M : Type} {BS : BlockInfoSource M} {Sl : Type} {SL : BlockSlab Sl} {H : Type} {FM : FastMemory H}.
Context (layout : Z -> Z) (heap : Z -> bool) (backing : Z) (Hback : backing_ok backing).
Implicit Types (mc : Machine S B M Sl H) (pg : KPageGroup M).

Notation machine_ok := (machine_ok layout heap).
Notation untouched := (untouched layout).

Lemma with_allocator_and_cases {A : Type} n (a : A) mc k : 0 <= n <= 2 ->
  (slab_refuses (Sl := Sl) /\ exists sm, with_allocator_and n a mc k = Done true (ResultOutOfResource, a, with_slab sm mc)) \/
  exists al, alloc_ok al /\ m_index al = 2 - n /\ with_allocator_and n a mc k = (x ← k al mc; let '(r, a, mc, al) := x in mret (r, a, with_slab (Allocator_destroy al) mc)).
Proof.
  intros Hn. unfold with_allocator_and. destruct (Allocator_new_cases (m_memory_block_slab_manager mc) n Hn) as (r & al & -> & [(-> & Ha & Hi)|[-> Hre]]); rewrite bind_Done_true.
  - right. exists al. split; [done|]. split; [done|]. done.
  - left. split; [done|]. by eexists.
Qed.

Lemma with_heap_end_ok x mc : machine_ok mc -> machine_ok (with_table (with_heap_end x (m_table mc)) mc).
Proof. intros [[] ]. by split. Qed.

(** ** Making the heap smaller *)

(** The pages of the range are heap that may be given back. *)
Definition heap_pages mc v n : Prop :=
  all_pages (fun q => p_state q = KNormal /\ p_permission q = MemoryPermission.UserReadWrite /\ p_attribute q = 0) (blocks_of mc) (v * 4096) (v * 4096 + n * 4096).

Lemma heap_accepted mc p v n : machine_ok mc -> 0 < n -> page_props (blocks_of mc) (v * 4096) = Some p ->
  ((p_state p .& MemoryState.All = KNormal /\ p_permission p .& MemoryPermission.All = MemoryPermission.UserReadWrite) /\ alike mc v n p MemoryAttribute.None_) <-> heap_pages mc v n.
Proof.
  intros Hm Hn Ep. change MemoryAttribute.None_ with 0. rewrite (land_all32 (p_state p)) by (by apply (ma_state _ _ mc Hm _ p Ep)). rewrite (permission_all layout heap mc _ p Hm Ep). split.
  - intros [[Hs Hp] Hal] a Ha. destruct (Hal a Ha) as (q & Eq & H1 & H2 & H3). exists q. split; [done|]. split_and!; congruence.
  - intros Hall. destruct (Hall (v * 4096)) as (p' & Ep' & H1 & H2 & H3); [lia|]. rewrite Ep in Ep'. injection Ep' as <-. split; [done|]. intros a Ha. destruct (Hall a Ha) as (q & Eq & Q1 & Q2 & Q3). exists q. split; [done|]. split_and!; congruence.
Qed.

Lemma KNormal_facts : in_u 32 KNormal /\ KNormal <> KFree /\ in_u 8 MemoryPermission.UserReadWrite /\ in_u 8 MemoryPermission.None_.
Proof. by vm_compute. Qed.

Lemma merge_choice (b : bool) : merge_mask_ok (if b then DisableMerge.Normal else DisableMerge.None_).
Proof. by destruct b; vm_compute. Qed.

(** Of the table only the blocks and the end of the heap have changed. *)
Definition heap_end_set mc mc' (x : Z) : Prop := m_table mc' = with_heap_end x (with_blocks (m_memory_block_manager (m_table mc')) (m_table mc)).

Lemma heap_end_same mc x : m_current_heap_end (m_table mc) = x -> heap_end_set mc mc x.
Proof. intros <-. unfold heap_end_set. by destruct (m_table mc). Qed.

(** The pages of the heap, in pages of 4 KiB: it starts at page [hs] and has [k] pages. *)
Record heap_at mc (hs k : Z) : Prop := {
  ha_start : m_heap_region_start (m_table mc) = hs * 4096;
  ha_end : m_current_heap_end (m_table mc) = (hs + k) * 4096;
  ha_range : 0 <= hs /\ 0 <= k /\ hs + k <= entries_size (m_impl mc)
}.

Lemma shrink_body_ok mc al limit v n (size : Z) x : machine_ok mc -> limit_wf limit -> 0 <= v -> 0 < n -> v + n <= entries_size (m_impl mc) -> heap_pages mc v n -> counted layout mc v n -> n * 4096 <= hint_at limit PhysicalMemoryMax ->
  alloc_ok al -> m_index al = 2 - (lacking (blocks_of mc) (v * 4096) + lacking (blocks_of mc) (v * 4096 + n * 4096)) ->
  exists limit' mc' al', ('(r, mc) ← Operate layout heap backing (v * 4096) n 0 MemoryPermission.None_ OperationType.Unmap mc;
        if IsError r then mret (r, limit, mc, al)
        else
          let value := s64 (u64 (n * PageSize)) in
          '(_, limit) ← Release limit PhysicalMemoryMax value value;
          '(_, mc, al) ← update_blocks (v * 4096) n KFree MemoryPermission.None_ MemoryAttribute.None_ DisableMerge.None_ (if size =? 0 then DisableMerge.Normal else DisableMerge.None_) al mc;
          mret (ResultSuccess, limit, with_table (with_heap_end x (m_table mc)) mc, al)) = Done true (ResultSuccess, limit', mc', al') /\
    machine_ok mc' /\ pages_taken layout heap mc mc' v n /\ accounts limit limit' (- (n * 4096)) /\ heap_end_set mc mc' x.
Proof.
  intros Hm Wl Hv Hn Hfit Hun Hcn Hhint Hal Hix. pose proof Hm as [Hsp H0 He W Hmem _ _]. pose proof (tw_size _ W) as Hs. destruct KNormal_facts as (_ & Hst & _ & _).
  destruct (Operate_unmap_ok layout heap backing mc v n W Hmem H0 He Hv Hn Hfit Hcn) as (t' & h' & mm' & i' & l & -> & [W1 Sz1 _ Hm1] & Hcl & Hon). rewrite bind_Done_true.
  change (IsError ResultSuccess) with false. cbv iota zeta. unfold PageSize. rewrite u64_small by lia. unfold s64. rewrite wraps_small by (unfold in_s; lia).
  pose proof Wl as [_ Hw]. destruct (Hw PhysicalMemoryMax) as (? & ? & ? & ? & ?). destruct (Release_spec limit PhysicalMemoryMax (n * 4096) (n * 4096) Wl) as (limit' & -> & Wl' & _ & Hl'); [lia|lia|lia|]. rewrite bind_Done_true.
  set (mc1 := with_infos _ _).
  destruct (update_blocks_ok mc1 al (v * 4096) n KFree MemoryPermission.None_ MemoryAttribute.None_ DisableMerge.None_ (if size =? 0 then DisableMerge.Normal else DisableMerge.None_)) as (b & al' & -> & Hsp' & Hprops); try done.
  { exact (machine_range layout heap mc v n Hm Hv Hn Hfit). } { apply merge_choice. }
  { intros a Ha. destruct (Hun a Ha) as (q & Eq & Hq & _ & Hqa). exists q. split; [done|]. rewrite Hqa. split; [|done]. unfold props_has. rewrite Hq. rewrite (proj2 (Z.eqb_neq _ _)) by done. done. }
  rewrite bind_Done_true. eexists limit', _, al'. split; [done|]. split; [|split; [split; [done|]; split; [by exists l|done]|]; split; [|done]].
  - apply with_heap_end_ok, (machine_ok_updated layout heap mc _ v n KFree 0 0); try done; [by eapply on_memory|cbn; intros y Hy; by rewrite Hm1, decide_False|].
    intros _. split; [done|]. split; [|cbn; intros y Hy; by rewrite Hm1, decide_True]. intros a Ha. destruct (Hun a Ha) as (q & Eq & _ & _ & Hqa). exists q. split; [done|]. by rewrite Hqa.
  - split; [done|]. intros w. destruct (Hl' w) as (E1 & _ & E2 & E3). rewrite E1, E2, E3. destruct (decide _); split_and!; lia.
Qed.

Lemma shrink_heap_ok mc limit hs k n : machine_ok mc -> limit_wf limit -> heap_at mc hs k -> 0 <= n < k -> counted layout mc (hs + n) (k - n) -> (k - n) * 4096 <= hint_at limit PhysicalMemoryMax ->
  exists r limit' mc', shrink_heap layout heap backing (n * 4096) limit mc = Done true (r, limit', mc') /\ machine_ok mc' /\
    ((r = ResultSuccess /\ heap_pages mc (hs + n) (k - n) /\ pages_taken layout heap mc mc' (hs + n) (k - n) /\ accounts limit limit' (- ((k - n) * 4096)) /\ heap_end_set mc mc' ((hs + n) * 4096)) \/
     ((r = ResultInvalidCurrentMemory /\ ~ heap_pages mc (hs + n) (k - n) \/ r = ResultOutOfResource /\ slab_refuses (Sl := Sl)) /\ limit' = limit /\ untouched mc mc')).
Proof.
  intros Hm Wl [Hst Hen (R1 & R2 & R3)] Hn Hh Hhint. pose proof (tw_size _ (ma_impl _ _ mc Hm)) as Hs. unfold shrink_heap. rewrite Hst, Hen. rewrite !u64_small by (rewrite ?u64_small; lia).
  replace (hs * 4096 + n * 4096) with ((hs + n) * 4096) by lia. replace ((hs + k) * 4096 - hs * 4096 - n * 4096) with ((k - n) * 4096) by lia.
  destruct (check_state_ok layout heap mc (hs + n) (k - n) MemoryState.All KNormal MemoryPermission.All MemoryPermission.UserReadWrite MemoryAttribute.None_ Hm ltac:(lia) ltac:(lia) ltac:(lia)) as (p & chk & Ep & -> & Hchk).
  rewrite bind_Done_true. pose proof (heap_accepted mc p (hs + n) (k - n) Hm ltac:(lia) Ep) as Hacc. destruct chk as [e|[[[st pm] at_] nb]].
  { destruct Hchk as [-> Hno]. eexists _, limit, mc. split; [done|]. split; [done|]. right. split; [left; split; [done|]; by rewrite <- Hacc|]. split; [done|apply untouched_refl]. }
  destruct Hchk as (Hm1 & Hm2 & _ & _ & _ & Hnb). assert (heap_pages mc (hs + n) (k - n)) as Hpages by (by apply Hacc).
  match goal with |- context [with_allocator_and nb limit mc ?f] => destruct (with_allocator_and_cases nb limit mc f) as [(Hre & sm & ->)|(al & Hal & Hix & ->)] end; [rewrite Hnb; apply lacking_range| |].
  { eexists _, limit, _. split; [done|]. split; [by apply with_slab_ok|]. right. split; [by right|]. split; [done|by split]. }
  assert ((k - n) * 4096 / PageSize = k - n) as Ed by (unfold PageSize; apply Z.div_mul; lia). cbv beta zeta. rewrite Ed. destruct (shrink_body_ok mc al limit (hs + n) (k - n) (n * 4096) ((hs + n) * 4096)) as (limit' & mc' & al' & E & Hm' & Hr); try done; try lia.
  cbv zeta in E. rewrite E, bind_Done_true. eexists ResultSuccess, limit', _. split; [done|]. split; [by apply with_slab_ok|]. left. destruct Hr as (H1 & H2 & H3). by split_and!.
Qed.

(** ** Making the heap larger *)

(** A group that was just allocated: blocks of [n] pages with one reference each. *)
Record fresh_group mc (bs : list KBlockInfo) (n : Z) : Prop := {
  fg_wf : Forall block_wf bs;
  fg_disjoint : disjoint_blocks bs;
  fg_pages : sum_pages bs = n;
  fg_refs : forall x, in_blocks bs x -> owned (m_memory_manager mc) x /\ mm_refs layout (m_memory_manager mc) x = 1
}.

Lemma map_heap_body_ok mc al res pg v n (b : bool) x : machine_ok mc -> 0 <= v -> 0 < n -> v + n <= entries_size (m_impl mc) -> free_range mc v n -> fresh_group mc (g_blocks pg) n ->
  alloc_ok al -> m_index al = 2 - (lacking (blocks_of mc) (v * 4096) + lacking (blocks_of mc) (v * 4096 + n * 4096)) ->
  exists mc' al', ('(r, mc) ← Operate_group layout backing (v * 4096) n pg MemoryPermission.UserReadWrite OperationType.MapGroup mc;
        if IsError r then mret (r, res, mc, al)
        else
          let reservation := Commit res in
          '(_, mc, al) ← update_blocks (v * 4096) n KNormal MemoryPermission.UserReadWrite MemoryAttribute.None_ (if b then DisableMerge.Normal else DisableMerge.None_) DisableMerge.None_ al mc;
          mret (ResultSuccess, reservation, with_table (with_heap_end x (m_table mc)) mc, al)) = Done true (ResultSuccess, Commit res, mc', al') /\
    machine_ok mc' /\ group_mapped layout mc mc' v (g_blocks pg) KNormal MemoryPermission.UserReadWrite /\ heap_end_set mc mc' x.
Proof.
  intros Hm Hv Hn Hfit Hfree [Hw Hd Hsum Href] Hal Hix. pose proof Hm as [Hsp H0 He W Hmem _ _]. destruct KNormal_facts as (Hus & Hst & Hup & _).
  destruct (Operate_group_ok layout backing Hback mc pg v n MemoryPermission.UserReadWrite W (me_wf _ _ _ Hmem) Hv Hn Hfit Hw Hd Hsum) as (t' & h' & mm' & -> & Hl & Hon).
  { intros y Hy. destruct (Href y Hy) as [Ho ->]. split; [done|]. split; [lia|]. by apply (me_place _ _ _ Hmem). }
  rewrite bind_Done_true. change (IsError ResultSuccess) with false. cbv iota zeta. set (mc1 := with_memory mm' (with_host t' h' mc)).
  destruct (update_blocks_ok mc1 al (v * 4096) n KNormal MemoryPermission.UserReadWrite MemoryAttribute.None_ (if b then DisableMerge.Normal else DisableMerge.None_) DisableMerge.None_) as (bm & al' & -> & Hsp' & Hprops); try done.
  { exact (machine_range layout heap mc v n Hm Hv Hn Hfit). } { apply merge_choice. }
  { intros a Ha. destruct (Hfree a Ha) as (q & Eq & Hq). exists q. split; [done|]. destruct (ma_free _ _ mc Hm a q Eq Hq) as (Qa & _). rewrite Qa. split; [|done].
    unfold props_has. rewrite Hq. rewrite (proj2 (Z.eqb_neq _ _)) by congruence. done. }
  rewrite bind_Done_true. eexists _, al'. split; [done|].
  assert (forall y, ~ v <= y < v + n -> mapped t' y = mapped (m_impl mc) y) as Hother by (intros y Hy; rewrite (lm_mapped _ _ _ _ Hl), pages_total, Hsum, decide_False by done; done).
  split; [|split; [|done]].
  - apply with_heap_end_ok, (machine_ok_updated layout heap mc _ v n KNormal MemoryPermission.UserReadWrite 0); try done; [apply Hl|apply Hl|by apply (on_memory layout heap _ _ _ _ _ Hmem Hon)].
  - unfold group_mapped. rewrite Hsum. split_and!; try done; [by apply (list_mapped_backed (m_impl mc))|apply Hl].
Qed.

Lemma map_heap_ok mc res pg hs k n : machine_ok mc -> heap_at mc hs k -> k < n -> hs + n <= entries_size (m_impl mc) -> fresh_group mc (g_blocks pg) (n - k) ->
  exists r res' mc', map_heap layout backing (n * 4096) ((hs + k) * 4096) ((n - k) * 4096) pg res mc = Done true (r, res', mc') /\ machine_ok mc' /\
    ((r = ResultSuccess /\ res' = Commit res /\ free_range mc (hs + k) (n - k) /\ group_mapped layout mc mc' (hs + k) (g_blocks pg) KNormal MemoryPermission.UserReadWrite /\ heap_end_set mc mc' ((hs + n) * 4096)) \/
     ((r = ResultInvalidCurrentMemory /\ ~ free_range mc (hs + k) (n - k) \/ r = ResultOutOfResource /\ slab_refuses (Sl := Sl)) /\ res' = res /\ exists sm, mc' = with_slab sm mc)).
Proof.
  intros Hm [Hst Hen (R1 & R2 & R3)] Hn Hfit Hg. pose proof (tw_size _ (ma_impl _ _ mc Hm)) as Hs. unfold map_heap. rewrite Hst, Hen, bind_assert_true by apply Z.eqb_refl. cbv zeta.
  destruct (CheckMemoryState_ok MemoryState.All KFree MemoryPermission.None_ MemoryPermission.None_ MemoryAttribute.None_ MemoryAttribute.None_ DefaultMemoryIgnoreAttr
    (m_memory_block_manager (m_table mc)) ((hs + k) * 4096) ((n - k) * 4096) (sp_blocks _ (ma_space _ _ mc Hm))) as (p & chk & Ep & Echk & Hchk); [apply (machine_range layout heap); (done || lia)|].
  unfold check_state. change (m_memory_block_tree (m_memory_block_manager (m_table mc))) with (blocks_of mc) in *. rewrite Echk, bind_Done_true. pose proof (free_accepted layout heap mc p (hs + k) (n - k) Hm ltac:(lia) Ep) as Hacc.
  destruct chk as [e|[[[st pm] at_] nb]].
  { destruct Hchk as [-> Hno]. eexists _, res, mc. split; [done|]. split; [done|]. right. split; [left; split; [done|]; by rewrite <- Hacc|]. split; [done|]. exists (m_memory_block_slab_manager mc). by destruct mc. }
  destruct Hchk as (Hall & _ & _ & _ & Hnb). apply Hacc in Hall. clear Hacc Echk Ep.
  match goal with |- context [with_allocator_and nb res mc ?f] => destruct (with_allocator_and_cases nb res mc f) as [(Hre & sm & ->)|(al & Hal & Hix & ->)] end; [rewrite Hnb; apply lacking_range| |].
  { eexists _, res, _. split; [done|]. split; [by apply with_slab_ok|]. right. split; [by right|]. split; [done|by exists sm]. }
  assert ((n - k) * 4096 / PageSize = n - k) as Ed by (unfold PageSize; apply Z.div_mul; lia). cbv beta. rewrite Ed, (u64_small (hs * 4096 + n * 4096)) by lia. replace (hs * 4096 + n * 4096) with ((hs + n) * 4096) by lia.
  destruct (map_heap_body_ok mc al res pg (hs + k) (n - k) (hs * 4096 =? (hs + k) * 4096) ((hs + n) * 4096)) as (mc' & al' & E & Hm' & Hr); try done; try lia.
  cbv zeta in E. rewrite E, bind_Done_true. eexists ResultSuccess, _, _. split; [done|]. split; [by apply with_slab_ok|]. left. destruct Hr as (H1 & H2). by split_and!.
Qed.

Lemma close_group pg (mm : KMemoryManager (S := S) (B := B)) : mm_wf layout mm -> Forall block_wf (g_blocks pg) -> disjoint_blocks (g_blocks pg) ->
  (forall x, in_blocks (g_blocks pg) x -> owned mm x /\ 0 < mm_refs layout mm x) ->
  exists mm', Group_Close layout pg mm = Done true mm' /\ mm_on layout Z.pred (fun c => c = 1) mm mm' (in_blocks (g_blocks pg)).
Proof.
  intros W Hw Hd Hx. apply (over_blocks_spec layout _ _ _ _ (g_blocks pg) Close_op mm W Hw Hd). intros x Hin. destruct (Hx x Hin) as [Ho Hp]. split; [done|]. split; [|done]. by apply (counted_not_avail layout).
Qed.

(** What an extension needs of the pool the process takes its memory from. *)
Definition pool_ready mc ids : Prop := exists pool dir, DecodeOption (m_allocate_option (m_table mc)) = (pool, dir) /\ pool_chain (m_memory_manager mc) pool dir ids /\ tracked (m_memory_manager mc) pool ids.

(** Why an extension by [n] pages at [v] fails. *)
Definition extension_fails mc limit ids v n r : Prop :=
  r = ResultLimitReached /\ ~ KResourceLimit.fits limit PhysicalMemoryMax (n * 4096) \/ r = ResultOutOfMemory /\ shortage (m_memory_manager mc) ids n \/
  r = ResultInvalidCurrentMemory /\ ~ free_range mc v n \/ r = ResultOutOfResource /\ (slab_refuses (Sl := Sl) \/ source_refuses (M := M)).

(** Mapping the group and closing it: the pages are given, or everything is as before the allocation. *)
Lemma map_close_ok mc mm1 res pg hs k n : machine_ok mc -> heap_at mc hs k -> k < n -> hs + n <= entries_size (m_impl mc) ->
  Forall block_wf (g_blocks pg) -> disjoint_blocks (g_blocks pg) -> sum_pages (g_blocks pg) = n - k -> mm_opened layout (m_memory_manager mc) mm1 (in_blocks (g_blocks pg)) ->
  exists r res' mc' mm', map_heap layout backing (n * 4096) ((hs + k) * 4096) ((n - k) * 4096) pg res (with_memory mm1 mc) = Done true (r, res', mc') /\ Group_Close layout pg (m_memory_manager mc') = Done true mm' /\
    machine_ok (with_memory mm' mc') /\
    ((r = ResultSuccess /\ res' = Commit res /\ free_range mc (hs + k) (n - k) /\ pages_given layout mc (with_memory mm' mc') (hs + k) (n - k) KNormal MemoryPermission.UserReadWrite /\ heap_end_set mc mc' ((hs + n) * 4096)) \/
     ((r = ResultInvalidCurrentMemory /\ ~ free_range mc (hs + k) (n - k) \/ r = ResultOutOfResource /\ slab_refuses (Sl := Sl)) /\ res' = res /\ untouched mc (with_memory mm' mc'))).
Proof.
  intros Hm Hat Hn Hfit Hw Hd Hsum Hop. pose proof (ma_memory _ _ mc Hm) as Hmem. pose proof (me_wf _ _ _ Hmem) as Wm. pose proof Hop as (W1 & S1 & C1 & D1 & A1). set (bs := g_blocks pg) in *.
  assert (memory_ok layout heap mm1) as Hmem1 by (by apply (opened_memory layout heap _ _ _ Hmem Hop)). assert (machine_ok (with_memory mm1 mc)) as Hm1 by (by apply (machine_ok_same layout heap mc); [|split|]).
  assert (forall x, in_blocks bs x -> owned mm1 x /\ mm_refs layout mm1 x = 1) as HR by (intros x Hx; split; [by apply (opened_place layout _ _ _ x Hop Hx Wm)|by apply C1]).
  destruct (map_heap_ok (with_memory mm1 mc) res pg hs k n Hm1) as (r & res' & mc' & -> & Hm' & Hr); [by destruct Hat|done|done|by split|].
  exists r, res', mc'. pose proof (me_wf _ _ _ (ma_memory _ _ mc' Hm')) as W'. destruct Hr as [(-> & -> & Hfree & (G1 & G2 & G3 & G4 & G5) & He)|(Hr & -> & sm & ->)].
  - pose proof G2 as (_ & S2 & C2 & _). destruct (close_group pg (m_memory_manager mc') W' Hw Hd) as (mm' & Ec & Hon).
    { intros x Hx. destruct (HR x Hx) as [Ho Hx1]. split; [by apply (same_mm_owned mm1 _ x S2)|]. rewrite C2 by done. cbn. lia. }
    exists mm'. split; [done|]. split; [done|]. split; [apply (machine_ok_same layout heap mc'); [done|by split|by apply (on_memory layout heap _ _ _ _ _ (ma_memory _ _ mc' Hm') Hon)]|]. left. split; [done|]. split; [done|]. split; [done|]. split; [|done].
    assert (forall x, in_blocks bs x <-> in_pages (concat (map block_pages bs)) x) as Hin by (intros x; by apply in_blocks_concat). fold bs in G1, G4, G5. rewrite Hsum in G4, G5.
    exists (concat (map block_pages bs)). split; [split_and!; [by apply disjoint_blocks_NoDup|by rewrite pages_total|apply block_pages_aligned]|]. split; [done|]. split_and!; try done.
    destruct (opened_again layout heap backing (m_memory_manager mc) mm1 (m_memory_manager mc') mm' (in_blocks bs) Hop G2 Hon Wm (in_blocks_dec bs)) as (F1 & F2 & F3 & F4 & F5). split; [done|]. split; [done|]. split_and!.
    + intros x Hx%Hin. by apply F3.
    + intros x Ho Hx. apply F4; [done|]. by rewrite Hin.
    + intros x. cbn. by rewrite F5, Hin.
  - destruct (close_group pg mm1 W1 Hw Hd) as (mm' & Ec & Hon); [intros x Hx; destruct (HR x Hx) as [? ->]; split; [done|lia]|].
    exists mm'. split; [done|]. split; [done|]. split; [apply (machine_ok_same layout heap (with_memory mm1 mc)); [done|by split|by apply (on_memory layout heap _ _ _ _ _ Hmem1 Hon)]|]. right. split; [done|]. split; [done|]. split; [done|].
    intros x Ho. cbn. by apply (opened_closed layout (m_memory_manager mc) mm1 mm' (in_blocks bs) Wm (in_blocks_dec bs) Hop Hon).
Qed.

Lemma extend_heap_ok mc limit hs k n ids timeout tick : machine_ok mc -> limit_wf limit -> heap_at mc hs k -> k < n -> hs + n <= entries_size (m_impl mc) -> pool_ready mc ids ->
  exists o, extend_heap layout backing timeout tick (n * 4096) ((hs + k) * 4096) ((n - k) * 4096) limit mc = Done true o /\
    match o with
    | None => ~ KResourceLimit.fits limit PhysicalMemoryMax ((n - k) * 4096)
    | Some (r, limit', mc') => machine_ok mc' /\
       ((r = ResultSuccess /\ free_range mc (hs + k) (n - k) /\ pages_given layout mc mc' (hs + k) (n - k) KNormal MemoryPermission.UserReadWrite /\ accounts limit limit' ((n - k) * 4096) /\ heap_end_set mc mc' ((hs + n) * 4096)) \/
        (extension_fails mc limit ids (hs + k) (n - k) r /\ accounts limit limit' 0 /\ untouched mc mc'))
    end.
Proof.
  intros Hm Wl Hat Hn Hfit (pool & dir & Ed & Hc & Ht). pose proof (tw_size _ (ma_impl _ _ mc Hm)) as Hs. pose proof (ha_range _ _ _ Hat) as (R1 & R2 & R3). unfold extend_heap, s64. rewrite wraps_small by (unfold in_s; lia).
  destruct (Reservation_cases limit ((n - k) * 4096) timeout tick Wl ltac:(lia)) as ([res|] & limit1 & -> & Hres); rewrite bind_Done_true; [|by exists None].
  destruct (m_succeeded res) eqn:Es; cbn [negb]; cbv iota.
  2: { destruct Hres as [Hno ->]. rewrite bind_Done_true. eexists. split; [done|]. cbv iota. split; [done|]. right. split; [by left|]. split; [by apply accounts_refl|apply untouched_refl]. }
  destruct Hres as (Hacc & Ecommit & limit2 & Edest & Hacc2). assert ((n - k) * 4096 / PageSize = n - k) as Ediv by (unfold PageSize; apply Z.div_mul; lia). rewrite Ediv. pose proof (ma_memory _ _ mc Hm) as Hmem.
  destruct (AllocateAndOpen_spec layout (m_memory_manager mc) (n - k) (m_allocate_option (m_table mc)) pool dir ids (mkGroup [] (m_infos mc)) (me_wf _ _ _ Hmem) Ed Hc Ht eq_refl ltac:(lia)) as (r & pg & mm1 & -> & Hr).
  rewrite bind_Done_true. destruct Hr as [(-> & Hw & Hd & Hsum & Hop)|(Hr & Eg & Hgb)].
  2: { assert (IsError r = true) as -> by (destruct Hr as [[-> _]|[-> _]]; reflexivity). rewrite Edest, bind_Done_true. eexists. split; [done|]. cbv iota.
       split; [apply (machine_ok_same layout heap mc); [done|by split|by eapply given_back_memory]|]. right. split; [|split; [done|]; split; [done|apply Hgb]].
       destruct Hr as [Hr|[-> Hr]]; [by right; left|right; right; right; by split; [|right]]. }
  change (IsError ResultSuccess) with false. cbv iota. destruct (map_close_ok mc mm1 res pg hs k n) as (r & res' & mc' & mm' & -> & E2 & Hm' & Hr); try done. rewrite bind_Done_true, E2, bind_Done_true. cbv zeta.
  destruct Hr as [(-> & -> & Hfree & Hg & He)|(Hr & -> & Hun)].
  - rewrite Ecommit, bind_Done_true. eexists. split; [done|]. cbv iota. split; [by apply machine_ok_infos|]. left. by split_and!.
  - rewrite Edest, bind_Done_true. eexists. split; [done|]. cbv iota. split; [by apply machine_ok_infos|]. right. split; [|by split]. destruct Hr as [Hr|[-> Hr]]; [by right; right; left|right; right; right; by split; [|left]].
Qed.

(** ** The theorems *)

(** What is asked of a heap of [k] pages that is to get [n] pages: [he] is the page behind the heap region; the physical pages the table shows behind a smaller heap are different and counted, and the limit accounts for them; there is a pool for a larger one. *)
Record heap_ready mc limit hs he k n ids : Prop := {
  hr_heap : heap_at mc hs k;
  hr_region : m_heap_region_end (m_table mc) = he * 4096 /\ hs + k <= he <= entries_size (m_impl mc);
  hr_size : 0 <= n < 2 ^ 51;
  hr_smaller : n < k -> counted layout mc (hs + n) (k - n) /\ (k - n) * 4096 <= hint_at limit PhysicalMemoryMax;
  hr_larger : k < n -> pool_ready mc ids
}.

(** The size is allowed. *)
Definition heap_allowed mc hs he n : Prop := m_is_kernel (m_table mc) = false /\ hs + n <= he /\ n * 4096 <= m_max_heap_size (m_table mc).

(** What a heap of [n] pages in place of [k] pages means for the address space and the memory. *)
Definition heap_resized mc mc' hs k n : Prop :=
  heap_end_set mc mc' ((hs + n) * 4096) /\ (n < k -> heap_pages mc (hs + n) (k - n) /\ pages_taken layout heap mc mc' (hs + n) (k - n)) /\ (n = k -> mc' = mc) /\
  (k < n -> free_range mc (hs + k) (n - k) /\ pages_given layout mc mc' (hs + k) (n - k) KNormal MemoryPermission.UserReadWrite).

Definition resize_fails mc limit hs he k n ids r : Prop :=
  r = ResultOutOfMemory /\ ~ heap_allowed mc hs he n \/
  n < k /\ (r = ResultInvalidCurrentMemory /\ ~ heap_pages mc (hs + n) (k - n) \/ r = ResultOutOfResource /\ slab_refuses (Sl := Sl)) \/
  k < n /\ extension_fails mc limit ids (hs + k) (n - k) r.

(** What [SetHeapSize] answers: it waits, has resized the heap, or has failed and changed nothing. *)
Definition heap_answer mc limit hs he k n ids (o : option (Z * Z * KResourceLimit * Machine S B M Sl H)) : Prop :=
  match o with
  | None => k < n /\ ~ KResourceLimit.fits limit PhysicalMemoryMax ((n - k) * 4096)
  | Some (r, out, limit', mc') => machine_ok mc' /\
     ((r = ResultSuccess /\ out = hs * 4096 /\ heap_allowed mc hs he n /\ heap_resized mc mc' hs k n /\ accounts limit limit' ((n - k) * 4096)) \/
      (resize_fails mc limit hs he k n ids r /\ out = 0 /\ accounts limit limit' 0 /\ untouched mc mc'))
  end.

Lemma SetHeapSize_ok mc limit hs he k n ids timeout tick : machine_ok mc -> limit_wf limit -> heap_ready mc limit hs he k n ids ->
  exists o, SetHeapSize layout heap backing timeout tick (n * 4096) limit mc = Done true o /\ heap_answer mc limit hs he k n ids o.
Proof.
  intros Hm Wl [Hat [Hre Hhe] Hn Hless Hmore]. pose proof Hat as [Hst Hen (R1 & R2 & R3)]. pose proof (tw_size _ (ma_impl _ _ mc Hm)) as Hs. unfold SetHeapSize. rewrite Hst, Hre, Hen.
  rewrite (u64_small (he * 4096 - hs * 4096)), (u64_small ((hs + k) * 4096 - hs * 4096)) by lia. replace ((hs + k) * 4096 - hs * 4096) with (k * 4096) by lia.
  assert (forall (b : bool) K, (b = true -> ~ heap_allowed mc hs he n) -> (b = false -> exists o, K = Done true o /\ heap_answer mc limit hs he k n ids o) ->
    exists o, (if b then mret (Some (ResultOutOfMemory, 0, limit, mc)) else K) = Done true o /\ heap_answer mc limit hs he k n ids o) as Hguard.
  { intros b K Hb HK. destruct b; [|by apply HK]. eexists. split; [done|]. split; [done|]. right. split; [left; split; [done|by apply Hb]|]. split; [done|]. split; [by apply accounts_refl|apply untouched_refl]. }
  apply Hguard; [intros E [? _]; congruence|intros Ek]. apply Hguard; [intros E%negb_true_iff%Z.leb_gt [_ [? _]]; lia|intros E1%negb_false_iff%Z.leb_le]. apply Hguard; [intros E%negb_true_iff%Z.leb_gt [_ [_ ?]]; lia|intros E2%negb_false_iff%Z.leb_le].
  assert (heap_allowed mc hs he n) as Hall by (split_and!; (done || lia)).
  destruct (Z.ltb_spec (n * 4096) (k * 4096)) as [Hlt|Hge]; [|destruct (Z.eqb_spec (n * 4096) (k * 4096)) as [Heq|Hne]].
  - destruct (Hless ltac:(lia)) as (Hh & Hhint). destruct (shrink_heap_ok mc limit hs k n Hm Wl Hat ltac:(lia) Hh Hhint) as (r & limit' & mc' & -> & Hm' & Hr). rewrite bind_Done_true. eexists. split; [done|]. split; [done|].
    destruct Hr as [(-> & H1 & H2 & H3 & H4)|(Hr & -> & Hun)].
    + left. split; [done|]. split; [done|]. split; [done|]. split; [|by replace ((n - k) * 4096) with (- ((k - n) * 4096)) by lia]. split; [done|]. split_and!; intros; (done || lia).
    + right. assert (IsError r = true) as -> by (destruct Hr as [[-> _]|[-> _]]; reflexivity). split; [right; left; split; [lia|done]|]. split; [done|]. split; [by apply accounts_refl|done].
  - assert (n = k) as -> by lia. eexists. split; [done|]. split; [done|]. left. split; [done|]. split; [done|]. split; [done|]. split; [split; [by apply heap_end_same|]; split_and!; intros; (done || lia)|]. rewrite Z.sub_diag. by apply accounts_refl.
  - pose proof (Hmore ltac:(lia)) as Hp. rewrite (u64_small (n * 4096 - k * 4096)) by lia. replace (n * 4096 - k * 4096) with ((n - k) * 4096) by lia.
    destruct (extend_heap_ok mc limit hs k n ids timeout tick Hm Wl Hat ltac:(lia) ltac:(lia) Hp) as (o & -> & Ho). rewrite bind_Done_true. destruct o as [[[r limit'] mc']|]; [|exists None; split; [done|]; split; [lia|done]].
    eexists. split; [done|]. destruct Ho as [Hm' Ho]. split; [done|]. destruct Ho as [(-> & H1 & H2 & H3 & H4)|(Hf & Ha & Hun)].
    + left. split; [done|]. split; [done|]. split; [done|]. split; [|done]. split; [done|]. split_and!; intros; (done || lia).
    + right. assert (IsError r = true) as -> by (destruct Hf as [[-> _]|[[-> _]|[[-> _]|[-> _]]]]; reflexivity). split; [right; right; split; [lia|done]|]. by split_and!.
Qed.

(** C9: Setting the size of the heap, for a size in whole pages, a consistent machine and limit, and a heap whose physical pages, as far as the table shows those to be given back, are different, counted and accounted.  The call waits, which it does only when it makes the heap
    larger and the limit has no room for the pages, or ends with all assertions held and a consistent machine.  On success the size was allowed, the answer is the start of the heap, the heap ends
    where it should, and the limit accounts for exactly the difference.  The pages behind a smaller end were plain heap and are now free and unmapped, and the physical pages behind them have one reference less: all of them, unless the records for their blocks run out or the
    table shows one of these pages as not mapped, and then the first ones of them.  The pages before a larger end were free and are now readable and writable, each with a fresh physical page of its own with one reference, which the table shows unless it is the one at the very address of the page.
    No other page, mapping or reference changes.  It fails only for a size that is not allowed, a limit or a memory without room, pages in another state, or a source of bookkeeping objects that refuses; then the address space, the mapping, the references and the
    accounts are as they were. *)
Theorem set_heap_size mc limit hs he k n ids timeout tick : machine_ok mc -> limit_wf limit -> heap_ready mc limit hs he k n ids ->
  exists o, SetHeapSize layout heap backing timeout tick (n * 4096) limit mc = Done true o /\ heap_answer mc limit hs he k n ids o.
Proof. apply SetHeapSize_ok. Qed.

Lemma heap_moved mc mc' hs k n : heap_at mc hs k -> heap_end_set mc mc' ((hs + n) * 4096) -> entries_size (m_impl mc') = entries_size (m_impl mc) -> 0 <= n -> hs + n <= entries_size (m_impl mc) ->
  heap_at mc' hs n /\ m_heap_region_end (m_table mc') = m_heap_region_end (m_table mc) /\ m_is_kernel (m_table mc') = m_is_kernel (m_table mc) /\ m_max_heap_size (m_table mc') = m_max_heap_size (m_table mc).
Proof.
  intros [Hst Hen Hr] He Es Hn Hf. pose proof (f_equal m_regions He) as E1. pose proof (f_equal m_current_heap_end He) as E2. pose proof (f_equal m_is_kernel He) as E3. pose proof (f_equal m_max_heap_size He) as E4.
  cbn in E1, E2, E3, E4. unfold m_heap_region_end. rewrite E1, E3, E4. split; [|done]. split; unfold m_heap_region_start; [by rewrite E1|done|lia].
Qed.

Lemma heap_end_twice mc mc1 mc2 x y : heap_end_set mc mc1 x -> heap_end_set mc1 mc2 y -> heap_end_set mc mc2 y.
Proof. intros H1 H2. red. etransitivity; [exact H2|]. by rewrite H1. Qed.

(** C10: Making the heap larger and smaller again, under the conditions of C9.  After an extension that has succeeded, going back to the old size does not wait, and succeeds, or is refused for want of a block and changes nothing; when it succeeds, the end of the heap, the properties of every page, the mapping
    and the accounts of the limit are what they were, and so are the references and the available pages, except that some of the new pages may be lost, taken with one reference and no longer mapped: this happens only when the records for the blocks of the range run out,
    or when a page of the heap got the physical page of its own address, which is then lost. *)
Theorem heap_round_trip mc mc1 limit limit1 hs he k n ids out timeout tick timeout' tick' : machine_ok mc -> limit_wf limit -> heap_ready mc limit hs he k n ids -> k < n ->
  SetHeapSize layout heap backing timeout tick (n * 4096) limit mc = Done true (Some (ResultSuccess, out, limit1, mc1)) ->
  exists r out' limit2 mc2, SetHeapSize layout heap backing timeout' tick' (k * 4096) limit1 mc1 = Done true (Some (r, out', limit2, mc2)) /\ machine_ok mc2 /\
    ((r = ResultSuccess /\ out' = hs * 4096 /\ heap_end_set mc mc2 ((hs + k) * 4096) /\ restored layout heap mc mc1 mc2 (hs + k) (n - k) /\ accounts limit limit2 0) \/
     (r = ResultOutOfResource /\ slab_refuses (Sl := Sl) /\ untouched mc1 mc2 /\ accounts limit1 limit2 0)).
Proof.
  intros Hm Wl Hre Hkn E1. destruct (SetHeapSize_ok mc limit hs he k n ids timeout tick Hm Wl Hre) as (o & E & Ho). rewrite E1 in E. injection E as <-. destruct Hre as [Hat [Hend Hhe] Hn _ _].
  destruct Ho as [Hm1 [(_ & -> & (Ha1 & Ha2 & Ha3) & (He1 & _ & _ & Hg) & Wl1 & Hacc)|(Hf & _)]].
  2: { destruct Hf as [[? _]|[[? _]|[_ [[? _]|[[? _]|[[? _]|[? _]]]]]]]; (done || lia). }
  destruct (Hg Hkn) as [Hfree Hgiven]. pose proof (given_counted layout heap mc mc1 (hs + k) (n - k) KNormal MemoryPermission.UserReadWrite Hm Hgiven) as Hcn. pose proof Hgiven as (_ & _ & _ & _ & Hsz & _).
  pose proof Hat as [_ _ (R1 & R2 & R3)]. destruct (heap_moved mc mc1 hs k n Hat He1 Hsz ltac:(lia) ltac:(lia)) as (Hat1 & Q1 & Q2 & Q3).
  assert (heap_ready mc1 limit1 hs he n k ids) as Hre1.
  { split; [done|rewrite Q1, Hsz; lia|lia| |lia]. intros _. split; [done|]. destruct (Hacc PhysicalMemoryMax) as (_ & _ & ->). rewrite decide_True by done. destruct Wl as [_ Hw]. destruct (Hw PhysicalMemoryMax) as (? & ? & ? & ? & ?). lia. }
  destruct (SetHeapSize_ok mc1 limit1 hs he n k ids timeout' tick' Hm1 Wl1 Hre1) as ([[[[r out'] limit2] mc2]|] & E2 & Ho2); [|destruct Ho2; lia]. exists r, out', limit2, mc2. split; [done|]. destruct Ho2 as [Hm2 Ho2]. split; [done|].
  destruct Ho2 as [(-> & -> & _ & (He2 & Hs2 & _) & Wl2 & Hacc2)|(Hf & _ & Hacc2 & Hun)].
  - left. destruct (Hs2 Hkn) as [_ Ht]. split; [done|]. split; [done|]. split; [|split; [by apply (given_taken layout heap backing mc mc1 mc2 (hs + k) (n - k) KNormal MemoryPermission.UserReadWrite)|]].
    + by eapply heap_end_twice.
    + split; [done|]. intros w. destruct (Hacc w) as (? & ? & ?), (Hacc2 w) as (? & ? & ?). destruct (decide _); split_and!; lia.
  - right. destruct Hf as [[_ Hno]|[(_ & [[_ Hno]|[-> Hs]])|[? _]]]; [|exfalso; apply Hno|by split_and!|lia].
    + exfalso. apply Hno. split_and!; [congruence|lia|rewrite Q3; lia].
    + intros a Ha. apply (given_props layout heap mc mc1 (hs + k) (n - k)); done.
Qed.
End Proofs.

(** ** Examples, on the machine of KPageTable.v *)

#[local] Existing Instance counter_source.
#[local] Existing Instance no_arena.
(** A process with an empty heap that may grow to 256 KiB, and a limit of 64 KiB of memory. *)
Definition demo_heap : DemoMachine := with_table (with_max_heap_size 0x40000 demo_process) demo_machine.
Definition heap_limit : KResourceLimit := mkLimit [0x10000; 800; 900; 200; 1133] (replicate 5 0) (replicate 5 0) (replicate 5 0) 0.

Lemma demo_heap_ok : machine_ok demo_layout everywhere demo_heap.
Proof. destruct demo_machine_ok as [[]]. by split. Qed.
Lemma heap_limit_wf : limit_wf heap_limit.
Proof. split; [done|]. unfold values_ok, limit_at, current_at, hint_at, peak_at, at_. intros []; simpl; lia. Qed.

Lemma demo_heap_ready : heap_ready demo_layout demo_heap heap_limit 512 640 0 3 [0%nat].
Proof.
  split; [by split; [reflexivity|reflexivity|cbn; lia]|split; [reflexivity|cbn; lia]|lia|lia|]. intros _. exists 0, 0. split; [reflexivity|]. split; [exact demo_pool|exact demo_tracked].
Qed.

Lemma set_heap_size_witness : exists o, SetHeapSize demo_layout everywhere demo_backing (-1) 0 (3 * 4096) heap_limit demo_heap = Done true o /\ heap_answer demo_layout everywhere demo_heap heap_limit 512 640 0 3 [0%nat] o.
Proof. exact (set_heap_size demo_layout everywhere demo_backing demo_backing_ok demo_heap heap_limit 512 640 0 3 [0%nat] (-1) 0 demo_heap_ok heap_limit_wf demo_heap_ready). Defined.

(** Here nothing is lost: the records suffice, and no physical page lies at the addresses of the heap. *)
Lemma heap_round_trip_witness : exists (mc1 : DemoMachine) limit1 r out limit2 mc2, SetHeapSize demo_layout everywhere demo_backing (-1) 0 (3 * 4096) heap_limit demo_heap = Done true (Some (ResultSuccess, 0x200000, limit1, mc1)) /\
  SetHeapSize demo_layout everywhere demo_backing (-1) 0 (0 * 4096) limit1 mc1 = Done true (Some (r, out, limit2, mc2)) /\
  (r = ResultSuccess -> (forall x, mm_avail (m_memory_manager mc2) x <-> mm_avail demo_mm x) /\ current_at limit2 PhysicalMemoryMax = 0).
Proof.
  assert (exists mc1 limit1 pg1, SetHeapSize demo_layout everywhere demo_backing (-1) 0 (3 * 4096) heap_limit demo_heap = Done true (Some (ResultSuccess, 0x200000, limit1, mc1)) /\
    MakePageGroup everywhere (m_impl mc1) (mkGroup [] (m_infos mc1)) ((512 + 0) * 4096) (3 - 0) = Done true (ResultSuccess, pg1)) as (mc1 & limit1 & pg1 & E1 & E2).
  { do 3 eexists. split; [vm_compute; reflexivity|vm_compute; reflexivity]. }
  destruct (heap_round_trip demo_layout everywhere demo_backing demo_backing_ok demo_heap mc1 heap_limit limit1 512 640 0 3 [0%nat] 0x200000 (-1) 0 (-1) 0 demo_heap_ok heap_limit_wf demo_heap_ready ltac:(lia) E1)
    as (r & out & limit2 & mc2 & E & _ & Hr).
  exists mc1, limit1, r, out, limit2, mc2. split; [exact E1|]. split; [exact E|]. intros ->. destruct Hr as [(_ & _ & _ & (_ & _ & leak & (_ & _ & C & _ & A) & Hwhy) & _ & Hacc)|(Hr & _)]; [|discriminate Hr].
  split; [|destruct (Hacc PhysicalMemoryMax) as (_ & Hcur & _); exact Hcur]. intros x. rewrite A. destruct Hwhy as [->|[(pg' & E')|(y & Hy & Hin)]].
  - split; [tauto|]. intros Hx. split; [exact Hx|]. by intros (p & []%not_elem_of_nil & _).
  - rewrite E2 in E'. discriminate E'.
  - destruct (C (y * 4096)) as [Hav _]; [exists (y * 4096); split; [exact Hin|lia]|]. apply (avail_owned demo_layout) in Hav; [|exact demo_mm_wf]. apply demo_owned in Hav. lia.
Defined.

(** The run of the round trip succeeds, and larger sizes are refused. *)
Example demo_heap_run : (o ← SetHeapSize demo_layout everywhere demo_backing (-1) 0 (3 * 4096) heap_limit demo_heap;
    match o with Some (r, out, limit, mc) => o ← SetHeapSize demo_layout everywhere demo_backing (-1) 0 (1 * 4096) limit mc;
      match o with Some (r', out', limit', mc') => mret (r, out, current_at limit PhysicalMemoryMax, r', out', current_at limit' PhysicalMemoryMax, m_current_heap_end (m_table mc')) | None => mret (0, 0, 0, 0, 0, 0, 0) end
    | None => mret (1, 0, 0, 0, 0, 0, 0) end) = Done true (ResultSuccess, 0x200000, 0x3000, ResultSuccess, 0x200000, 0x1000, 0x201000).
Proof. vm_compute. reflexivity. Qed.
Example demo_heap_limit : (o ← SetHeapSize demo_layout everywhere demo_backing 0 1 (17 * 4096) heap_limit demo_heap;
    match o with Some (r, out, limit, _) => mret (r, out, current_at limit PhysicalMemoryMax) | None => mret (0, 0, 0) end) = Done true (ResultLimitReached, 0, 0).
Proof. vm_compute. reflexivity. Qed.
Example demo_heap_too_large : (o ← SetHeapSize demo_layout everywhere demo_backing 0 1 (65 * 4096) heap_limit demo_heap;
    match o with Some (r, out, limit, _) => mret (r, out, current_at limit PhysicalMemoryMax) | None => mret (0, 0, 0) end) = Done true (ResultOutOfMemory, 0, 0).
Proof. vm_compute. reflexivity. Qed.
