(* ===== verification/KPriorityQueue.v ===== *)
(** * KPriorityQueue: src/core/hle/kernel/k_priority_queue.h

    The queues the scheduler picks threads from: for each core and each of 64 priorities a list of
    the threads scheduled on the core and a list of those that could migrate to it.  The lists are
    intrusive: a thread has one entry per core, with the previous and the next thread, and each
    list has a root entry.  All entries live in one heap, so that linking a thread changes the
    entries of its neighbours, as in the code.  A member pointer is an integer, 0 for null.

    The abstract view gives for every list its sequence of threads; the theorems say that the
    linked lists implement these sequences, that the front and the next thread follow priority
    order, and in which lists a thread is after each operation. *)

From stdpp Require Import functions.
From S2P Require Import Prelude Common.
#[local] Open Scope Z_scope.

(** ** Data *)

(** The instance used by the scheduler: four cores, priorities 0 to 63. *)
Definition NumCores : Z := 4.
Definition HighestPriority : Z := 0.
Definition LowestPriority : Z := 63.
Definition NumPriority : Z := LowestPriority - HighestPriority + 1.

Definition IsValidCore (core : Z) : bool := (0 <=? core) && (core <? NumCores).
Definition IsValidPriority (priority : Z) : bool :=
  (HighestPriority <=? priority) && (priority <=? LowestPriority + 1).

(** [KThread::QueueEntry]. *)
Record Entry := mkEntry { prev : Z; next : Z }.
Definition Entry_Initialize : Entry := mkEntry 0 0.
Definition SetPrev (m : Z) (e : Entry) : Entry := mkEntry m (next e).
Definition SetNext (m : Z) (e : Entry) : Entry := mkEntry (prev e) m.

(** The two [KPriorityQueueImpl] of a queue. *)
Inductive kind := Scheduled | Suggested.
#[export] Instance kind_eq_dec : EqDecision kind.
Proof. solve_decision. Defined.

(** Where an entry lies: the root of a list, or the entry of a member for a core. *)
Inductive loc := Root (k : kind) (priority core : Z) | Mem (member core : Z).
#[export] Instance loc_eq_dec : EqDecision loc.
Proof. solve_decision. Defined.

Notation heap := (loc -> Entry).

Record KPriorityQueue := mkQueue {
  entries : heap;
  m_available_priorities : kind * Z -> Z
}.

(** What the queue reads of a thread. *)
Record Member := mkMember {
  GetAffinityMask : Z;
  GetActiveCore : Z;
  GetPriority : Z;
  IsDummyThread : bool
}.

Definition KPriorityQueue_new : KPriorityQueue :=
  mkQueue (fun _ => Entry_Initialize) (fun _ => 0).

(** An index into the array of lists and into an array of roots or member entries. *)
Definition in_arrays (priority core : Z) : outcome unit :=
  if (0 <=? priority) && (priority <? NumPriority) && (0 <=? core) && (core <? NumCores)
  then mret tt else Undef.
Definition in_cores (core : Z) : outcome unit :=
  if (0 <=? core) && (core <? NumCores) then mret tt else Undef.

(** ** KPerCoreQueue *)

(** The entry of a member of a list, the root when there is no member. *)
Definition entry_of (k : kind) (priority core member : Z) : loc :=
  if member =? 0 then Root k priority core else Mem member core.

Definition PerCore_PushBack (h : heap) (k : kind) (priority core member : Z) : bool * heap :=
  let root := Root k priority core in
  let tail := prev (h root) in
  let h := <[Mem member core := SetPrev tail (h (Mem member core))]> h in
  let h := <[Mem member core := SetNext 0 (h (Mem member core))]> h in
  let tail_entry := entry_of k priority core tail in
  let h := <[tail_entry := SetNext member (h tail_entry)]> h in
  let h := <[root := SetPrev member (h root)]> h in
  (tail =? 0, h).

Definition PerCore_PushFront (h : heap) (k : kind) (priority core member : Z) : bool * heap :=
  let root := Root k priority core in
  let head := next (h root) in
  let h := <[Mem member core := SetPrev 0 (h (Mem member core))]> h in
  let h := <[Mem member core := SetNext head (h (Mem member core))]> h in
  let head_entry := entry_of k priority core head in
  let h := <[head_entry := SetPrev member (h head_entry)]> h in
  let h := <[root := SetNext member (h root)]> h in
  (head =? 0, h).

Definition PerCore_GetFront (h : heap) (k : kind) (priority core : Z) : Z :=
  next (h (Root k priority core)).

Definition PerCore_Remove (h : heap) (k : kind) (priority core member : Z) : bool * heap :=
  let prv := prev (h (Mem member core)) in
  let nxt := next (h (Mem member core)) in
  let prev_entry := entry_of k priority core prv in
  let next_entry := entry_of k priority core nxt in
  let h := <[prev_entry := SetNext nxt (h prev_entry)]> h in
  let h := <[next_entry := SetPrev prv (h next_entry)]> h in
  (PerCore_GetFront h k priority core =? 0, h).

(** ** KPriorityQueueImpl *)

Definition with_available (q : KPriorityQueue) (h : heap) (k : kind) (core bits : Z) :
    KPriorityQueue :=
  mkQueue h (<[(k, core) := bits]> (m_available_priorities q)).

Definition Impl_PushBack (q : KPriorityQueue) (k : kind) (priority core member : Z) :
    outcome KPriorityQueue :=
  ASSERT (IsValidCore core);;
  ASSERT (IsValidPriority priority);;
  if LowestPriority <? priority then mret q
  else
    in_arrays priority core;;
    let '(was_empty, h) := PerCore_PushBack (entries q) k priority core member in
    let bits := m_available_priorities q (k, core) in
    mret (with_available q h k core (if was_empty then Z.setbit bits priority else bits)).

Definition Impl_PushFront (q : KPriorityQueue) (k : kind) (priority core member : Z) :
    outcome KPriorityQueue :=
  ASSERT (IsValidCore core);;
  ASSERT (IsValidPriority priority);;
  if LowestPriority <? priority then mret q
  else
    in_arrays priority core;;
    let '(was_empty, h) := PerCore_PushFront (entries q) k priority core member in
    let bits := m_available_priorities q (k, core) in
    mret (with_available q h k core (if was_empty then Z.setbit bits priority else bits)).

Definition Impl_Remove (q : KPriorityQueue) (k : kind) (priority core member : Z) :
    outcome KPriorityQueue :=
  ASSERT (IsValidCore core);;
  ASSERT (IsValidPriority priority);;
  if LowestPriority <? priority then mret q
  else
    in_arrays priority core;;
    let '(is_empty, h) := PerCore_Remove (entries q) k priority core member in
    let bits := m_available_priorities q (k, core) in
    mret (with_available q h k core (if is_empty then Z.clearbit bits priority else bits)).

(** The first set bit from [i] on, [NumPriority] when there is none; [n] bits are left to test. *)
Fixpoint scan (n : nat) (i bits : Z) : Z :=
  match n with
  | O => NumPriority
  | S n' => if Z.testbit bits i then i else scan n' (i + 1) bits
  end.

Definition GetNextSet (bits n : Z) : Z := scan (Z.to_nat (NumPriority - (n + 1))) (n + 1) bits.

Definition Impl_GetFront (q : KPriorityQueue) (k : kind) (core : Z) : outcome Z :=
  ASSERT (IsValidCore core);;
  in_cores core;;
  let priority := scan (Z.to_nat NumPriority) 0 (m_available_priorities q (k, core)) in
  if priority <=? LowestPriority then mret (PerCore_GetFront (entries q) k priority core)
  else mret 0.

Definition Impl_GetFront_at (q : KPriorityQueue) (k : kind) (priority core : Z) : outcome Z :=
  ASSERT (IsValidCore core);;
  ASSERT (IsValidPriority priority);;
  if priority <=? LowestPriority then
    in_arrays priority core;; mret (PerCore_GetFront (entries q) k priority core)
  else mret 0.

Definition Impl_GetNext (q : KPriorityQueue) (k : kind) (core member : Z) (t : Member) : outcome Z :=
  ASSERT (IsValidCore core);;
  in_cores core;;
  let nxt := next (entries q (Mem member core)) in
  if nxt =? 0 then
    let priority := GetNextSet (m_available_priorities q (k, core)) (GetPriority t) in
    mret (if priority <=? LowestPriority then PerCore_GetFront (entries q) k priority core else nxt)
  else mret nxt.

Definition Impl_MoveToFront (q : KPriorityQueue) (k : kind) (priority core member : Z) :
    outcome KPriorityQueue :=
  ASSERT (IsValidCore core);;
  ASSERT (IsValidPriority priority);;
  if priority <=? LowestPriority then
    in_arrays priority core;;
    let '(_, h) := PerCore_Remove (entries q) k priority core member in
    let '(_, h) := PerCore_PushFront h k priority core member in
    mret (mkQueue h (m_available_priorities q))
  else mret q.

Definition Impl_MoveToBack (q : KPriorityQueue) (k : kind) (priority core member : Z) :
    outcome (Z * KPriorityQueue) :=
  ASSERT (IsValidCore core);;
  ASSERT (IsValidPriority priority);;
  if priority <=? LowestPriority then
    in_arrays priority core;;
    let '(_, h) := PerCore_Remove (entries q) k priority core member in
    let '(_, h) := PerCore_PushBack h k priority core member in
    mret (PerCore_GetFront h k priority core, mkQueue h (m_available_priorities q))
  else mret (0, q).

(** ** KPriorityQueue *)

Definition ClearAffinityBit (affinity core : Z) : outcome Z :=
  bit ← shl64 1 core; mret (affinity .& notu 64 bit).

(** [while (affinity) op(priority, GetNextCore(affinity), member)]: each round clears one of the
    64 bits. *)
Fixpoint for_affinity (fuel : nat) (op : KPriorityQueue -> Z -> outcome KPriorityQueue)
    (affinity : Z) (q : KPriorityQueue) : outcome KPriorityQueue :=
  match fuel with
  | O => if affinity =? 0 then mret q else Undef
  | S fuel' =>
      if affinity =? 0 then mret q
      else
        let core := countr_zero 64 affinity in
        affinity ← ClearAffinityBit affinity core;
        q ← op q core;
        for_affinity fuel' op affinity q
  end.

(** The scheduled queue of the active core, then the suggested queues of the other cores. *)
Definition for_cores (sched sugg : KPriorityQueue -> Z -> outcome KPriorityQueue) (t : Member)
    (q : KPriorityQueue) : outcome KPriorityQueue :=
  let affinity := GetAffinityMask t in
  let core := GetActiveCore t in
  '(q, affinity) ←
    (if 0 <=? core then
       q ← sched q core;
       affinity ← ClearAffinityBit affinity core;
       mret (q, affinity)
     else mret (q, affinity));
  for_affinity 64 sugg affinity q.

Definition PushBack_at (q : KPriorityQueue) (priority member : Z) (t : Member) :
    outcome KPriorityQueue :=
  ASSERT (IsValidPriority priority);;
  for_cores (fun q core => Impl_PushBack q Scheduled priority core member)
    (fun q core => Impl_PushBack q Suggested priority core member) t q.

Definition PushFront_at (q : KPriorityQueue) (priority member : Z) (t : Member) :
    outcome KPriorityQueue :=
  ASSERT (IsValidPriority priority);;
  for_cores (fun q core => Impl_PushFront q Scheduled priority core member)
    (fun q core => Impl_PushBack q Suggested priority core member) t q.

Definition Remove_at (q : KPriorityQueue) (priority member : Z) (t : Member) :
    outcome KPriorityQueue :=
  ASSERT (IsValidPriority priority);;
  for_cores (fun q core => Impl_Remove q Scheduled priority core member)
    (fun q core => Impl_Remove q Suggested priority core member) t q.

Definition GetScheduledFront (q : KPriorityQueue) (core : Z) := Impl_GetFront q Scheduled core.
Definition GetScheduledFront_at (q : KPriorityQueue) (core priority : Z) :=
  Impl_GetFront_at q Scheduled priority core.
Definition GetSuggestedFront (q : KPriorityQueue) (core : Z) := Impl_GetFront q Suggested core.
Definition GetSuggestedFront_at (q : KPriorityQueue) (core priority : Z) :=
  Impl_GetFront_at q Suggested priority core.
Definition GetScheduledNext (q : KPriorityQueue) (core member : Z) (t : Member) :=
  Impl_GetNext q Scheduled core member t.
Definition GetSuggestedNext (q : KPriorityQueue) (core member : Z) (t : Member) :=
  Impl_GetNext q Suggested core member t.
Definition GetSamePriorityNext (q : KPriorityQueue) (core member : Z) : outcome Z :=
  in_cores core;; mret (next (entries q (Mem member core))).

Definition PushBack (q : KPriorityQueue) (member : Z) (t : Member) : outcome KPriorityQueue :=
  if IsDummyThread t then mret q else PushBack_at q (GetPriority t) member t.

Definition Remove (q : KPriorityQueue) (member : Z) (t : Member) : outcome KPriorityQueue :=
  if IsDummyThread t then mret q else Remove_at q (GetPriority t) member t.

Definition MoveToScheduledFront (q : KPriorityQueue) (member : Z) (t : Member) :
    outcome KPriorityQueue :=
  if IsDummyThread t then mret q
  else Impl_MoveToFront q Scheduled (GetPriority t) (GetActiveCore t) member.

Definition MoveToScheduledBack (q : KPriorityQueue) (member : Z) (t : Member) :
    outcome (Z * KPriorityQueue) :=
  if IsDummyThread t then mret (0, q)
  else Impl_MoveToBack q Scheduled (GetPriority t) (GetActiveCore t) member.

Definition ChangePriority (q : KPriorityQueue) (prev_priority : Z) (is_running : bool)
    (member : Z) (t : Member) : outcome KPriorityQueue :=
  if IsDummyThread t then mret q
  else
    ASSERT (IsValidPriority prev_priority);;
    let new_priority := GetPriority t in
    q ← Remove_at q prev_priority member t;
    if is_running then PushFront_at q new_priority member t
    else PushBack_at q new_priority member t.

(** ** KAffinityMask *)

Definition AllowedAffinityMask : Z := (1 .<< NumCores) - 1.

Definition GetCoreBit (core : Z) : outcome Z :=
  ASSERT ((0 <=? core) && (core <? NumCores));; shl64 1 core.

Definition SetAffinityMask (new_mask : Z) : outcome Z :=
  ASSERT (new_mask .& notu 64 AllowedAffinityMask =? 0);; mret new_mask.

Definition GetAffinity (mask core : Z) : outcome bool :=
  bit ← GetCoreBit core; mret (negb (mask .& bit =? 0)).

Definition SetAffinity (mask core : Z) (set : bool) : outcome Z :=
  bit ← GetCoreBit core; mret (if set then mask .| bit else mask .& notu 64 bit).

Definition SetAll : Z := AllowedAffinityMask.

(** ** Changes of affinity and core *)

(** The loop over the cores of a mask: the scheduled queue of one core, the suggested queues of
    the others. *)
Fixpoint for_mask (cores : list Z) (mask own : Z)
    (op : kind -> KPriorityQueue -> Z -> outcome KPriorityQueue) (q : KPriorityQueue) :
    outcome KPriorityQueue :=
  match cores with
  | [] => mret q
  | core :: r =>
      allowed ← GetAffinity mask core;
      q ← (if allowed : bool
           then op (if core =? own then Scheduled else Suggested) q core else mret q);
      for_mask r mask own op q
  end.

Definition ChangeAffinityMask (q : KPriorityQueue) (prev_core prev_affinity member : Z)
    (t : Member) : outcome KPriorityQueue :=
  if IsDummyThread t then mret q
  else
    let priority := GetPriority t in
    q ← for_mask [0; 1; 2; 3] prev_affinity prev_core
          (fun k q core => Impl_Remove q k priority core member) q;
    for_mask [0; 1; 2; 3] (GetAffinityMask t) (GetActiveCore t)
      (fun k q core => Impl_PushBack q k priority core member) q.

Definition ChangeCore (q : KPriorityQueue) (prev_core member : Z) (t : Member) (to_front : bool) :
    outcome KPriorityQueue :=
  if IsDummyThread t then mret q
  else
    let new_core := GetActiveCore t in
    let priority := GetPriority t in
    if negb (prev_core =? new_core) then
      q ← (if 0 <=? prev_core then Impl_Remove q Scheduled priority prev_core member else mret q);
      q ← (if 0 <=? new_core then
             q ← Impl_Remove q Suggested priority new_core member;
             if to_front then Impl_PushFront q Scheduled priority new_core member
             else Impl_PushBack q Scheduled priority new_core member
           else mret q);
      if 0 <=? prev_core then Impl_PushBack q Suggested priority prev_core member else mret q
    else mret q.

(** ** The linked lists *)

Lemma last_cons (l : list Z) m x : List.last (m :: l) x = List.last l m.
Proof.
  revert m x. induction l as [|a l IH]; intros m x; [done|].
  change (List.last (m :: a :: l) x) with (List.last (a :: l) x). by rewrite !IH.
Qed.

Lemma last_in_cons (l : list Z) m : List.last l m ∈ m :: l.
Proof.
  revert m. induction l as [|a l IH]; intros m; [apply list_elem_of_here|].
  rewrite last_cons. apply list_elem_of_further, IH.
Qed.

Lemma last_in (l : list Z) x : List.last l x = x \/ List.last l x ∈ l.
Proof. pose proof (last_in_cons l x) as H. by apply elem_of_cons in H. Qed.

Lemma last_nonempty (l : list Z) x : l <> [] -> List.last l x ∈ l.
Proof. destruct l as [|a l]; [done|]. intros _. rewrite last_cons. apply last_in_cons. Qed.

Section Links.

Variables (k : kind) (priority core : Z).
Implicit Types h : heap.
Implicit Types l : list Z.

Notation L := (entry_of k priority core).
Notation nx h z := (next (h (L z))).
Notation pv h z := (prev (h (L z))).

Lemma entry_of_inj x y : L x = L y -> x = y.
Proof.
  unfold entry_of. destruct (Z.eqb_spec x 0), (Z.eqb_spec y 0); [by subst|done|done|].
  by intros [= ->].
Qed.

Lemma entry_of_ne x y : x <> y -> L x <> L y.
Proof. intros H E. by apply H, entry_of_inj. Qed.

(** The members [l] lie between [x] and [y]; 0 stands for the root. *)
Fixpoint linked h (x : Z) l (y : Z) : Prop :=
  match l with
  | [] => nx h x = y /\ pv h y = x
  | m :: r => nx h x = m /\ pv h m = x /\ linked h m r y
  end.

Lemma linked_app h x l1 m l2 y :
  linked h x (l1 ++ m :: l2) y <-> linked h x l1 m /\ linked h m l2 y.
Proof.
  revert x. induction l1 as [|a l1 IH]; intros x; simpl; [tauto|]. rewrite IH. tauto.
Qed.

Lemma linked_frame h h' x l y :
  (forall z, z = x \/ z ∈ l -> nx h' z = nx h z) ->
  (forall z, z ∈ l \/ z = y -> pv h' z = pv h z) ->
  linked h x l y -> linked h' x l y.
Proof.
  revert x. induction l as [|m l IH]; simpl; intros x Hn Hp.
  - intros [H1 H2]. rewrite Hn, Hp by auto. done.
  - intros (H1 & H2 & H3). rewrite Hn by auto. rewrite Hp by (left; by apply list_elem_of_here).
    split_and!; [done..|]. apply IH; [| |done].
    + intros z Hz. apply Hn. right. apply elem_of_cons. tauto.
    + intros z Hz. apply Hp. rewrite elem_of_cons. tauto.
Qed.

(** The last member before [y] is linked to [y'] instead. *)
Lemma linked_retarget h h' x l y y' :
  linked h x l y -> NoDup (x :: l) ->
  nx h' (List.last l x) = y' -> pv h' y' = List.last l x ->
  (forall z, z = x \/ z ∈ l -> z <> List.last l x -> nx h' z = nx h z) ->
  (forall z, z ∈ l -> pv h' z = pv h z) ->
  linked h' x l y'.
Proof.
  revert x. induction l as [|m l IH]; intros x; [simpl; tauto|].
  intros (H1 & H2 & H3) Hnd E1 E2 Hn Hp.
  rewrite last_cons in *. apply list.NoDup_cons in Hnd as [Hx Hnd].
  assert (Hne : x <> List.last l m).
  { intros ->. apply Hx, last_in_cons. }
  simpl. rewrite Hn by auto. rewrite Hp by apply list_elem_of_here. split_and!; [done..|].
  apply IH; [done|done|done|done| |].
  - intros z Hz Hz'. apply Hn; [|done]. right. apply elem_of_cons. tauto.
  - intros z Hz. apply Hp. by apply list_elem_of_further.
Qed.

Lemma linked_prev h x l y : linked h x l y -> pv h y = List.last l x.
Proof.
  revert x. induction l as [|m l IH]; intros x; [by intros [_ ?]|].
  intros (_ & _ & H). by rewrite (IH _ H), last_cons.
Qed.

Lemma linked_next h x l y : linked h x l y -> nx h x = List.hd y l.
Proof. destruct l; simpl; tauto. Qed.

(** Reading the heap after the assignments of an operation. *)
Lemma nx_set h x y v : nx (<[L x := SetNext v (h (L x))]> h) y = if decide (x = y) then v else nx h y.
Proof.
  destruct (decide (x = y)) as [->|]; [by rewrite fn_lookup_insert|].
  by rewrite fn_lookup_insert_ne by (by apply entry_of_ne).
Qed.

Lemma pv_set_next h x y v : pv (<[L x := SetNext v (h (L x))]> h) y = pv h y.
Proof.
  destruct (decide (x = y)) as [->|]; [by rewrite fn_lookup_insert|].
  by rewrite fn_lookup_insert_ne by (by apply entry_of_ne).
Qed.

Lemma pv_set h x y v : pv (<[L x := SetPrev v (h (L x))]> h) y = if decide (x = y) then v else pv h y.
Proof.
  destruct (decide (x = y)) as [->|]; [by rewrite fn_lookup_insert|].
  by rewrite fn_lookup_insert_ne by (by apply entry_of_ne).
Qed.

Lemma nx_set_prev h x y v : nx (<[L x := SetPrev v (h (L x))]> h) y = nx h y.
Proof.
  destruct (decide (x = y)) as [->|]; [by rewrite fn_lookup_insert|].
  by rewrite fn_lookup_insert_ne by (by apply entry_of_ne).
Qed.

Lemma L_member m : m <> 0 -> Mem m core = L m.
Proof. intros. unfold entry_of. by rewrite (proj2 (Z.eqb_neq m 0)). Qed.

Lemma L_root : Root k priority core = L 0.
Proof. done. Qed.

(** Only the root and the entries of [S] change. *)
Definition touches h h' (S : list Z) : Prop :=
  forall lc, lc <> Root k priority core -> (forall z, z ∈ S -> lc <> Mem z core) -> h' lc = h lc.

Lemma touches_insert h h0 S x e :
  touches h0 h S -> x = 0 \/ x ∈ S -> touches h0 (<[L x := e]> h) S.
Proof.
  intros Ht Hx lc H1 H2. rewrite fn_lookup_insert_ne; [by apply Ht|]. intros E.
  unfold entry_of in E. destruct (Z.eqb_spec x 0); [congruence|].
  destruct Hx as [|Hx]; [done|]. by apply (H2 x Hx).
Qed.

Lemma PerCore_PushBack_ok h l m :
  linked h 0 l 0 -> NoDup l -> 0 ∉ l -> m <> 0 -> m ∉ l ->
  exists h', PerCore_PushBack h k priority core m = (bool_decide (l = []), h') /\
    linked h' 0 (l ++ [m]) 0 /\ touches h h' (m :: l).
Proof.
  intros Hl Hnd H0 Hm Hml. pose proof (linked_prev h 0 l 0 Hl) as Ht.
  unfold PerCore_PushBack. rewrite (L_member m Hm), L_root, Ht. set (tail := List.last l 0) in *.
  assert (Htm : tail <> m) by (destruct (last_in l 0) as [E|E]; fold tail in E; [congruence|by intros E'; rewrite E' in E]).
  eexists. split_and!; [f_equal|apply linked_app; split|].
  - destruct (bool_decide_reflect (l = [])) as [->|Hne]; [done|]. apply Z.eqb_neq.
    intros E. apply H0. rewrite <- E. by apply last_nonempty.
  - apply (linked_retarget h _ 0 l 0 m Hl); [by apply list.NoDup_cons|..]; fold tail.
    + rewrite nx_set_prev, nx_set. by rewrite decide_True.
    + rewrite pv_set, decide_False, pv_set_next, pv_set_next, pv_set, decide_True by done. done.
    + intros z Hz Hzt. rewrite nx_set_prev, nx_set, decide_False, nx_set, decide_False, nx_set_prev;
        [done| |done]. intros ->. by destruct Hz.
    + intros z Hz. rewrite pv_set, decide_False, pv_set_next, pv_set_next, pv_set, decide_False;
        [done|by intros <-|by intros <-].
  - simpl. rewrite nx_set_prev, nx_set, decide_False, nx_set, decide_True by done.
    by rewrite pv_set, decide_True.
  - assert (tail = 0 \/ tail ∈ m :: l).
    { destruct (last_in l 0) as [E|E]; [by left|right; by apply list_elem_of_further]. }
    do 4 (apply touches_insert; [|auto using list_elem_of_here]). by intros lc.
Qed.

Lemma PerCore_PushFront_ok h l m :
  linked h 0 l 0 -> NoDup l -> 0 ∉ l -> m <> 0 -> m ∉ l ->
  exists h', PerCore_PushFront h k priority core m = (bool_decide (l = []), h') /\
    linked h' 0 (m :: l) 0 /\ touches h h' (m :: l).
Proof.
  intros Hl Hnd H0 Hm Hml. pose proof (linked_next h 0 l 0 Hl) as Ht.
  unfold PerCore_PushFront. rewrite (L_member m Hm), L_root, Ht. set (head := List.hd 0 l) in *.
  assert (Hhead : head = 0 /\ l = [] \/ head ∈ l /\ head <> 0).
  { unfold head. destruct l as [|a l]; [by left|right]. simpl. split; [apply list_elem_of_here|].
    intros ->. apply H0, list_elem_of_here. }
  assert (Htm : head <> m) by (destruct Hhead as [[-> _]|[E _]]; [congruence|by intros ->]).
  eexists. split_and!; [f_equal|split_and!|].
  - destruct (bool_decide_reflect (l = [])) as [->|Hne]; [done|]. apply Z.eqb_neq.
    by destruct Hhead as [[_ ?]|[_ ?]].
  - rewrite nx_set, decide_True by done. done.
  - rewrite pv_set_next, pv_set, decide_False, pv_set_next, pv_set, decide_True by done. done.
  - destruct l as [|a l].
    + simpl. unfold head; simpl. rewrite nx_set, decide_False, nx_set_prev, nx_set, decide_True by done.
      by rewrite pv_set_next, pv_set, decide_True.
    + unfold head in *; simpl in *. destruct Hl as (_ & _ & Hl).
      apply list.NoDup_cons in Hnd as [Ha Hnd]. rewrite not_elem_of_cons in H0, Hml.
      split_and!.
      * rewrite nx_set, decide_False, nx_set_prev, nx_set, decide_True by done. done.
      * by rewrite pv_set_next, pv_set, decide_True.
      * apply (linked_frame h _ a l 0); [| |done].
        -- intros z Hz. rewrite nx_set, decide_False, nx_set_prev, nx_set, decide_False, nx_set_prev;
             [done| |]; intros <-; tauto.
        -- intros z Hz. rewrite pv_set_next, pv_set, decide_False, pv_set_next, pv_set, decide_False;
             [done| |]; intros <-; destruct H0, Hml, Hz as [?|?]; (tauto || congruence).
  - assert (head = 0 \/ head ∈ m :: l).
    { destruct Hhead as [[? _]|[? _]]; [by left|right; by apply list_elem_of_further]. }
    do 4 (apply touches_insert; [|auto using list_elem_of_here]). by intros lc.
Qed.

Lemma PerCore_Remove_ok h l1 m l2 :
  linked h 0 (l1 ++ m :: l2) 0 -> NoDup (l1 ++ m :: l2) -> 0 ∉ l1 ++ m :: l2 ->
  exists h', PerCore_Remove h k priority core m = (bool_decide (l1 ++ l2 = []), h') /\
    linked h' 0 (l1 ++ l2) 0 /\ touches h h' (l1 ++ m :: l2).
Proof.
  intros Hl Hnd H0. apply linked_app in Hl as [Hl1 Hl2].
  pose proof (linked_prev _ _ _ _ Hl1) as Ep. pose proof (linked_next _ _ _ _ Hl2) as En.
  rewrite not_elem_of_app, not_elem_of_cons in H0. destruct H0 as (H01 & H0m & H02).
  apply list.NoDup_app in Hnd as (Hnd1 & Hdis & Hnd2). apply list.NoDup_cons in Hnd2 as [Hm2 Hnd2].
  assert (Hm1 : m ∉ l1) by (intros Hx; apply (Hdis m Hx), list_elem_of_here).
  assert (Hd12 : forall z, z ∈ l1 -> z ∉ l2).
  { intros z Hz Hz2. apply (Hdis z Hz). by apply list_elem_of_further. }
  unfold PerCore_Remove. rewrite (L_member m) by done. rewrite Ep, En.
  set (p := List.last l1 0) in *. set (n := List.hd 0 l2) in *.
  assert (Hp : p = 0 \/ p ∈ l1) by apply last_in.
  assert (Hlast : n = 0 /\ l2 = [] \/ exists r, l2 = n :: r).
  { unfold n. destruct l2 as [|a r]; [by left|right]. by exists r. }
  set (h1 := <[L p := SetNext n (h (L p))]> h).
  set (h' := <[L n := SetPrev p (h1 (L n))]> h1).
  exists h'. split_and!.
  2: { assert (Hnx : forall z, nx h' z = if decide (p = z) then n else nx h z)
      by (intros; unfold h', h1; by rewrite nx_set_prev, nx_set).
    assert (Hpv : forall z, pv h' z = if decide (n = z) then p else pv h z)
      by (intros; unfold h', h1; by rewrite pv_set, pv_set_next).
    assert (Hfirst : linked h' 0 l1 n).
    { apply (linked_retarget h _ 0 l1 m n Hl1); [by apply list.NoDup_cons|..]; fold p.
      - by rewrite Hnx, decide_True.
      - by rewrite Hpv, decide_True.
      - intros z _ Hz. by rewrite Hnx, decide_False.
      - intros z Hz. rewrite Hpv, decide_False; [done|]. intros E'. rewrite <- E' in Hz.
        destruct Hlast as [[E _]|(r & E)]; [by rewrite E in Hz|].
        apply (Hd12 n Hz). rewrite E. apply list_elem_of_here. }
    destruct Hlast as [[-> ->]|(r & E)]; [by rewrite app_nil_r|].
    rewrite E in *. apply linked_app. split; [done|]. destruct Hl2 as (_ & _ & Hl2).
    apply list.NoDup_cons in Hnd2 as [Hn2 Hnd2]. rewrite not_elem_of_cons in H02.
    apply (linked_frame h _ n r 0); [| |done].
    + intros z Hz. rewrite Hnx, decide_False; [done|]. intros <-.
      assert (p ∈ n :: r) by (apply elem_of_cons; tauto).
      destruct Hp as [->|Hp]; [rewrite elem_of_cons in *; tauto|]. by apply (Hd12 p).
    + intros z Hz. rewrite Hpv, decide_False; [done|]. intros <-.
      destruct H02, Hz; (done || congruence). }
  2: { apply touches_insert; [apply touches_insert; [by intros lc|]|].
    - destruct Hp; [by left|right; apply elem_of_app; by left].
    - destruct Hlast as [[? _]|(r & E)]; [by left|right]. apply elem_of_app. right.
      apply list_elem_of_further. rewrite E. apply list_elem_of_here. }
  f_equal. change (PerCore_GetFront _ _ _ _) with (nx h' 0).
  replace (nx h' 0) with (if decide (p = 0) then n else nx h 0)
    by (unfold h', h1; by rewrite nx_set_prev, nx_set).
  destruct (bool_decide_reflect (l1 ++ l2 = [])) as [E|E].
  - apply app_nil in E as [-> ->]. by unfold p, n; simpl.
  - apply Z.eqb_neq. destruct (decide (p = 0)) as [E0|E0].
    + destruct Hlast as [[? ->]|(r & Er)]; [|rewrite Er in H02; rewrite not_elem_of_cons in H02;
        intros ?; apply (proj1 H02); congruence].
      rewrite app_nil_r in E. intros _. apply H01. rewrite <- E0. by apply last_nonempty.
    + rewrite (linked_next _ _ _ _ Hl1). destruct l1 as [|a l1]; [done|]. simpl.
      intros ->. apply H01, list_elem_of_here.
Qed.

End Links.

(** ** The abstract queues *)

Notation queues := (kind * Z * Z -> list Z).

Definition valid (priority core : Z) : Prop := 0 <= priority < 64 /\ 0 <= core < 4.

(** The linked lists and the bit sets represent the sequences [Q]. *)
Record represents (q : KPriorityQueue) (Q : queues) : Prop := {
  rep_linked : forall k p c, valid p c -> linked k p c (entries q) 0 (Q (k, p, c)) 0;
  rep_bit : forall k p c, valid p c ->
    Z.testbit (m_available_priorities q (k, c)) p = negb (bool_decide (Q (k, p, c) = []));
  rep_nodup : forall k p c, valid p c -> NoDup (Q (k, p, c));
  rep_nonnull : forall k p c, valid p c -> 0 ∉ Q (k, p, c);
  rep_once : forall k p c k' p' m, valid p c -> valid p' c ->
    m ∈ Q (k, p, c) -> m ∈ Q (k', p', c) -> k = k' /\ p = p'
}.

Lemma represents_ext q (Q Q' : queues) :
  (forall k p c, valid p c -> Q' (k, p, c) = Q (k, p, c)) -> represents q Q -> represents q Q'.
Proof.
  intros HE [H1 H2 H3 H4 H5]. constructor; intros k p c; intros; rewrite ?HE in * by done; eauto.
Qed.

Lemma new_represents : represents KPriorityQueue_new (fun _ => []).
Proof.
  constructor; intros; simpl.
  - done.
  - apply Z.bits_0.
  - constructor.
  - apply not_elem_of_nil.
  - by apply elem_of_nil in H1.
Qed.

(** Changing the list of one key. *)
Lemma represents_update q Q k p c h' l' bits' S :
  represents q Q -> valid p c ->
  linked k p c h' 0 l' 0 -> NoDup l' -> 0 ∉ l' -> touches k p c (entries q) h' S ->
  (forall m, m ∈ l' -> m ∈ S) ->
  (forall m k' p', m ∈ S -> valid p' c -> m ∈ Q (k', p', c) -> k' = k /\ p' = p) ->
  (forall i, Z.testbit bits' i =
     if decide (i = p) then negb (bool_decide (l' = [])) else
     Z.testbit (m_available_priorities q (k, c)) i) ->
  represents (with_available q h' k c bits') (<[(k, p, c) := l']> Q).
Proof.
  intros [R1 R2 R3 R4 R5] Hv Hl Hnd H0 Ht HS Hown Hbits.
  assert (Hsame : <[(k, p, c) := l']> Q (k, p, c) = l') by apply fn_lookup_insert.
  assert (Hother : forall k' p' c', (k', p', c') <> (k, p, c) ->
    <[(k, p, c) := l']> Q (k', p', c') = Q (k', p', c')).
  { intros. by apply fn_lookup_insert_ne. }
  constructor.
  - intros k' p' c' Hv'. destruct (decide ((k', p', c') = (k, p, c))) as [[= -> -> ->]|Hne].
    { by rewrite Hsame. }
    rewrite Hother by done. simpl.
    assert (Hfr : forall z, z = 0 \/ z ∈ Q (k', p', c') ->
      h' (entry_of k' p' c' z) = entries q (entry_of k' p' c' z)).
    { intros z Hz. apply Ht.
      - unfold entry_of. destruct (z =? 0); congruence.
      - intros w Hw. unfold entry_of. destruct (Z.eqb_spec z 0) as [|Hz0]; [done|].
        intros [= -> ->]. destruct Hz as [|Hz]; [done|].
        destruct (Hown w k' p' Hw Hv' Hz) as [-> ->]. done. }
    apply (linked_frame k' p' c' (entries q)); [| |by apply R1].
    + intros z Hz. by rewrite Hfr.
    + intros z Hz. rewrite Hfr; [done|tauto].
  - intros k' p' c' Hv'. simpl. destruct (decide ((k', c') = (k, c))) as [[= -> ->]|Hne].
    + rewrite fn_lookup_insert, Hbits. destruct (decide (p' = p)) as [->|Hp]; [by rewrite Hsame|].
      rewrite Hother by congruence. by apply R2.
    + rewrite fn_lookup_insert_ne by done. rewrite Hother by congruence. by apply R2.
  - intros k' p' c' Hv'. destruct (decide ((k', p', c') = (k, p, c))) as [[= -> -> ->]|Hne];
      [by rewrite Hsame|rewrite Hother by done; by apply R3].
  - intros k' p' c' Hv'. destruct (decide ((k', p', c') = (k, p, c))) as [[= -> -> ->]|Hne];
      [by rewrite Hsame|rewrite Hother by done; by apply R4].
  - intros k1 p1 c1 k2 p2 m Hv1 Hv2.
    destruct (decide ((k1, p1, c1) = (k, p, c))) as [E1|Hne1];
      destruct (decide ((k2, p2, c1) = (k, p, c))) as [E2|Hne2].
    + by injection E1 as -> -> _; injection E2 as -> -> _.
    + rewrite E1, Hsame, Hother by done. injection E1 as -> -> ->. intros Hm1 Hm2.
      destruct (Hown m k2 p2 (HS m Hm1) Hv2 Hm2) as [-> ->]. done.
    + rewrite E2, Hsame, Hother by done. injection E2 as -> -> ->. intros Hm1 Hm2.
      destruct (Hown m k1 p1 (HS m Hm2) Hv1 Hm1) as [-> ->]. done.
    + rewrite !Hother by done. by apply R5.
Qed.

Lemma valid_arrays p c : valid p c -> in_arrays p c = mret tt.
Proof.
  intros [Hp Hc]. unfold in_arrays, NumPriority, LowestPriority, HighestPriority, NumCores.
  by rewrite (proj2 (Z.leb_le 0 p)), (proj2 (Z.ltb_lt p _)), (proj2 (Z.leb_le 0 c)),
    (proj2 (Z.ltb_lt c _)) by lia.
Qed.

Lemma valid_guards p c :
  valid p c -> IsValidCore c = true /\ IsValidPriority p = true /\ (LowestPriority <? p) = false /\
    (p <=? LowestPriority) = true.
Proof.
  intros [Hp Hc]. unfold IsValidCore, IsValidPriority, LowestPriority, HighestPriority, NumCores.
  rewrite (proj2 (Z.leb_le 0 p)), (proj2 (Z.leb_le p (63 + 1))), (proj2 (Z.leb_le 0 c)),
    (proj2 (Z.ltb_lt c _)), (proj2 (Z.ltb_ge _ p)), (proj2 (Z.leb_le p 63)) by lia. done.
Qed.

(** [m] is in no list of core [c]. *)
Definition absent (Q : queues) (c m : Z) : Prop := forall k p, valid p c -> m ∉ Q (k, p, c).

Lemma set_bit_spec bits p i (b : bool) :
  0 <= p -> Z.testbit (if b then Z.setbit bits p else bits) i =
    if decide (i = p) then b || Z.testbit bits p else Z.testbit bits i.
Proof.
  intros Hp. destruct b; destruct (decide (i = p)) as [->|]; simpl; try done.
  - by rewrite Z.setbit_eq.
  - by rewrite Z.setbit_neq by done.
Qed.

Lemma Impl_PushBack_ok q Q k p c m :
  represents q Q -> valid p c -> m <> 0 -> absent Q c m ->
  exists q', Impl_PushBack q k p c m = Done true q' /\
    represents q' (<[(k, p, c) := Q (k, p, c) ++ [m]]> Q).
Proof.
  intros HR Hv Hm Hab. pose proof HR as [R1 R2 R3 R4 R5].
  destruct (PerCore_PushBack_ok k p c (entries q) (Q (k, p, c)) m) as (h' & E & Hl & Ht);
    [by apply R1|by apply R3|by apply R4|done|by apply Hab|].
  destruct (valid_guards p c Hv) as (G1 & G2 & G3 & _).
  unfold Impl_PushBack. rewrite G1, G2, G3, valid_arrays, E by done. eexists. split; [done|].
  apply (represents_update q Q k p c h' _ _ (m :: Q (k, p, c))); try done.
  - apply list.NoDup_app. split_and!; [by apply R3| |apply NoDup_singleton].
    intros x Hx ->%list_elem_of_singleton. by apply (Hab k p Hv).
  - rewrite not_elem_of_app, list_elem_of_singleton. split; [by apply R4|congruence].
  - intros x. rewrite elem_of_app, list_elem_of_singleton, elem_of_cons. tauto.
  - intros x k' p' Hx Hv' Hx'. apply elem_of_cons in Hx as [->|Hx]; [by apply Hab in Hx'|].
    destruct (R5 k' p' c k p x) as [-> ->]; done.
  - intros i. rewrite set_bit_spec by apply Hv. destruct (decide (i = p)); [|done].
    rewrite R2 by done. rewrite (bool_decide_eq_false_2 (_ ++ [m] = [])) by (by destruct (Q (k, p, c))).
    by destruct (bool_decide _).
Qed.

Lemma Impl_PushFront_ok q Q k p c m :
  represents q Q -> valid p c -> m <> 0 -> absent Q c m ->
  exists q', Impl_PushFront q k p c m = Done true q' /\
    represents q' (<[(k, p, c) := m :: Q (k, p, c)]> Q).
Proof.
  intros HR Hv Hm Hab. pose proof HR as [R1 R2 R3 R4 R5].
  destruct (PerCore_PushFront_ok k p c (entries q) (Q (k, p, c)) m) as (h' & E & Hl & Ht);
    [by apply R1|by apply R3|by apply R4|done|by apply Hab|].
  destruct (valid_guards p c Hv) as (G1 & G2 & G3 & _).
  unfold Impl_PushFront. rewrite G1, G2, G3, valid_arrays, E by done. eexists. split; [done|].
  apply (represents_update q Q k p c h' _ _ (m :: Q (k, p, c))); try done.
  - apply list.NoDup_cons. split; [by apply Hab|by apply R3].
  - rewrite not_elem_of_cons. split; [congruence|by apply R4].
  - intros x k' p' Hx Hv' Hx'. apply elem_of_cons in Hx as [->|Hx]; [by apply Hab in Hx'|].
    destruct (R5 k' p' c k p x) as [-> ->]; done.
  - intros i. rewrite set_bit_spec by apply Hv. destruct (decide (i = p)); [|done].
    rewrite R2 by done. by destruct (bool_decide _).
Qed.

(** A list without one of its members. *)
Definition without (m : Z) (l : list Z) : list Z := filter (fun x => x <> m) l.

Lemma without_not_in m l : m ∉ l -> without m l = l.
Proof.
  intros H. unfold without. induction l as [|a l IH]; [done|]. rewrite not_elem_of_cons in H.
  rewrite filter_cons_True by (destruct H; congruence). rewrite IH; [done|tauto].
Qed.

Lemma without_app m l1 l2 : without m (l1 ++ l2) = without m l1 ++ without m l2.
Proof. apply list.filter_app. Qed.

Lemma without_split m l1 l2 : NoDup (l1 ++ m :: l2) -> without m (l1 ++ m :: l2) = l1 ++ l2.
Proof.
  intros Hnd. apply list.NoDup_app in Hnd as (_ & Hd & Hnd).
  apply list.NoDup_cons in Hnd as [H2 _].
  assert (Hm1 : m ∉ l1) by (intros Hx; apply (Hd m Hx), list_elem_of_here).
  rewrite without_app, (without_not_in m l1) by done. f_equal.
  unfold without. rewrite filter_cons_False by (intros H; by apply H). by apply without_not_in.
Qed.

Lemma elem_of_without m x l : x ∈ without m l <-> x ∈ l /\ x <> m.
Proof. unfold without. rewrite list_elem_of_filter. tauto. Qed.

Lemma Impl_Remove_ok q Q k p c m :
  represents q Q -> valid p c -> m ∈ Q (k, p, c) ->
  exists q', Impl_Remove q k p c m = Done true q' /\
    represents q' (<[(k, p, c) := without m (Q (k, p, c))]> Q).
Proof.
  intros HR Hv Hm. pose proof HR as [R1 R2 R3 R4 R5].
  pose proof (R1 k p c Hv) as Hl. pose proof (R3 k p c Hv) as Hnd. pose proof (R4 k p c Hv) as H0.
  destruct (list_elem_of_split _ _ Hm) as (l1 & l2 & El). rewrite El in Hl, Hnd, H0.
  destruct (PerCore_Remove_ok k p c (entries q) l1 m l2) as (h' & E & Hl' & Ht); [done..|].
  destruct (valid_guards p c Hv) as (G1 & G2 & G3 & _).
  unfold Impl_Remove. rewrite G1, G2, G3, valid_arrays, E by done. eexists. split; [done|].
  rewrite El, without_split by done.
  apply (represents_update q Q k p c h' _ _ (l1 ++ m :: l2)); try done.
  - apply list.NoDup_app in Hnd as (N1 & N2 & N3). apply list.NoDup_cons in N3 as [N3 N4].
    apply list.NoDup_app. split_and!; [done| |done].
    intros x Hx Hx2. apply (N2 x Hx). by apply list_elem_of_further.
  - rewrite not_elem_of_app in *. rewrite not_elem_of_cons in H0. tauto.
  - intros x. rewrite !elem_of_app, elem_of_cons. tauto.
  - intros x k' p' Hx Hv' Hx'. rewrite <- El in Hx. destruct (R5 k' p' c k p x) as [-> ->]; done.
  - intros i. pose proof (R2 k p c Hv) as Hb. rewrite El in Hb.
    rewrite (bool_decide_eq_false_2 (l1 ++ m :: l2 = [])) in Hb by (by destruct l1).
    destruct (bool_decide (l1 ++ l2 = [])); destruct (decide (i = p)) as [->|]; simpl; try done.
    + by rewrite Z.clearbit_eq.
    + by rewrite Z.clearbit_neq.
Qed.

(** ** Front and next in priority order *)

(** The threads of a core from priority [i] on, [n] priorities. *)
Fixpoint from (Q : queues) (k : kind) (c : Z) (n : nat) (i : Z) : list Z :=
  match n with O => [] | S n' => Q (k, i, c) ++ from Q k c n' (i + 1) end.

(** The order in which the scheduler considers the threads of a core. *)
Definition order (Q : queues) (k : kind) (c : Z) : list Z := from Q k c 64 0.

Lemma from_scan q Q k c n i :
  represents q Q -> 0 <= c < 4 -> 0 <= i -> i + Z.of_nat n = 64 ->
  List.hd 0 (from Q k c n i) =
    let p := scan n i (m_available_priorities q (k, c)) in
    if p <=? LowestPriority then PerCore_GetFront (entries q) k p c else 0.
Proof.
  intros HR Hc. revert i. induction n as [|n IH]; intros i Hi Hn; [done|]. simpl.
  assert (Hv : valid i c) by (split; lia). rewrite (rep_bit q Q HR k i c Hv).
  pose proof (linked_next _ _ _ _ _ _ _ (rep_linked q Q HR k i c Hv)) as Hnx.
  destruct (bool_decide_reflect (Q (k, i, c) = [])) as [E|E]; simpl.
  - rewrite E. simpl. apply IH; lia.
  - rewrite (proj2 (Z.leb_le i LowestPriority)) by (unfold LowestPriority; lia).
    change (PerCore_GetFront (entries q) k i c) with (next (entries q (entry_of k i c 0))).
    rewrite Hnx. by destruct (Q (k, i, c)).
Qed.

Lemma from_app Q k c n m i :
  from Q k c (n + m) i = from Q k c n i ++ from Q k c m (i + Z.of_nat n).
Proof.
  revert i. induction n as [|n IH]; intros i; simpl.
  - by rewrite Z.add_0_r.
  - rewrite IH, <- app_assoc. do 3 f_equal. lia.
Qed.

Lemma elem_of_from Q k c n i m :
  m ∈ from Q k c n i -> exists p, i <= p < i + Z.of_nat n /\ m ∈ Q (k, p, c).
Proof.
  revert i. induction n as [|n IH]; intros i; simpl; [intros []%elem_of_nil|].
  intros [H|H]%elem_of_app; [exists i; split; [lia|done]|].
  destruct (IH _ H) as (p & Hp & Hm). exists p. split; [lia|done].
Qed.

(** ** Operations on the lists of several cores *)

Fixpoint run_ops (op : kind -> KPriorityQueue -> Z -> outcome KPriorityQueue)
    (ks : list (kind * Z)) (q : KPriorityQueue) : outcome KPriorityQueue :=
  match ks with
  | [] => mret q
  | (k, c) :: r => q ← op k q c; run_ops op r q
  end.

(** [f] applied to the lists of priority [p] named by [ks]. *)
Definition on_lists (f : kind -> list Z -> list Z) (p : Z) (ks : list (kind * Z)) (Q : queues) : queues :=
  fun '(k', p', c') =>
    if decide (p' = p /\ (k', c') ∈ ks) then f k' (Q (k', p', c')) else Q (k', p', c').

Lemma on_lists_cons f p k c ks (Q : queues) :
  (k, c) ∉ ks ->
  forall k' p' c', on_lists f p ((k, c) :: ks) Q (k', p', c') =
    on_lists f p ks (<[(k, p, c) := f k (Q (k, p, c))]> Q) (k', p', c').
Proof.
  intros Hn k' p' c'. unfold on_lists.
  destruct (decide ((k', p', c') = (k, p, c))) as [[= -> -> ->]|Hne].
  - rewrite decide_True by (split; [done|apply list_elem_of_here]).
    rewrite decide_False by tauto. by rewrite fn_lookup_insert.
  - rewrite fn_lookup_insert_ne by done.
    destruct (decide (p' = p /\ (k', c') ∈ ks)) as [[-> Hin]|Hnin].
    + by rewrite decide_True by (split; [done|by apply list_elem_of_further]).
    + rewrite decide_False; [done|]. intros [-> [E|Hin]%elem_of_cons]; [|tauto]. congruence.
Qed.

(** Distinct valid cores. *)
Definition cores_ok (ks : list (kind * Z)) : Prop :=
  NoDup ks.*2 /\ Forall (fun kc : kind * Z => 0 <= kc.2 < 4) ks.

Lemma cores_ok_cons k c ks :
  cores_ok ((k, c) :: ks) -> 0 <= c < 4 /\ cores_ok ks /\ (forall k', (k', c) ∉ ks).
Proof.
  intros [Hnd Hf]. apply list.NoDup_cons in Hnd as [Hn Hnd]. apply Forall_cons_1 in Hf as [Hc Hf].
  split; [done|]. split; [done|]. intros k' Hin. apply Hn. by apply (list_elem_of_fmap_2 snd) in Hin.
Qed.

Lemma noop_priority k q c m :
  0 <= c < 4 ->
  Impl_PushBack q k 64 c m = Done true q /\ Impl_PushFront q k 64 c m = Done true q /\
  Impl_Remove q k 64 c m = Done true q.
Proof.
  intros Hc. unfold Impl_PushBack, Impl_PushFront, Impl_Remove, IsValidCore, NumCores.
  by rewrite (proj2 (Z.leb_le 0 c)), (proj2 (Z.ltb_lt c 4)) by lia.
Qed.

(** Where a pushed thread goes in a list: a thread that keeps running goes to the front of its
    scheduled list. *)
Definition put (front : bool) (m : Z) (k : kind) (l : list Z) : list Z :=
  match front, k with true, Scheduled => m :: l | _, _ => l ++ [m] end.

Definition Impl_put (front : bool) (p m : Z) (k : kind) (q : KPriorityQueue) (c : Z) :
    outcome KPriorityQueue :=
  match front, k with true, Scheduled => Impl_PushFront q k p c m | _, _ => Impl_PushBack q k p c m end.

Definition remove (m : Z) (k : kind) (l : list Z) : list Z := without m l.

Lemma Impl_put_ok front q Q k p c m :
  represents q Q -> valid p c -> m <> 0 -> absent Q c m ->
  exists q', Impl_put front p m k q c = Done true q' /\
    represents q' (<[(k, p, c) := put front m k (Q (k, p, c))]> Q).
Proof. destruct front, k; (apply Impl_PushFront_ok || apply Impl_PushBack_ok). Qed.

Lemma Impl_put_noop front q k c m : 0 <= c < 4 -> Impl_put front 64 m k q c = Done true q.
Proof. intros Hc. destruct (noop_priority k q c m Hc) as (? & ? & _). by destruct front, k. Qed.

Lemma on_lists_nil f p q Q : represents q Q -> represents q (on_lists f p [] Q).
Proof.
  apply represents_ext. intros. unfold on_lists. rewrite decide_False; [done|].
  by intros [_ []%elem_of_nil].
Qed.

Lemma on_lists_64 f ks ks' q Q :
  represents q (on_lists f 64 ks Q) -> represents q (on_lists f 64 ks' Q).
Proof.
  apply represents_ext. intros k p c [Hv _]. unfold on_lists. by rewrite !decide_False by lia.
Qed.

Lemma run_put front ks q Q p m :
  represents q Q -> cores_ok ks -> 0 <= p <= 64 -> m <> 0 ->
  (forall k c, (k, c) ∈ ks -> absent Q c m) ->
  exists q', run_ops (Impl_put front p m) ks q = Done true q' /\
    represents q' (on_lists (put front m) p ks Q).
Proof.
  revert q Q. induction ks as [|[k c] ks IH]; intros q Q HR Hks Hp Hm Hab; cbn [run_ops].
  { exists q. split; [done|]. by apply on_lists_nil. }
  apply cores_ok_cons in Hks as (Hc & Hks & Hn).
  destruct (decide (p = 64)) as [->|].
  - rewrite (Impl_put_noop front q k c m Hc). ostep.
    destruct (IH q Q) as (q' & -> & HR'); [done|done|lia|done| |].
    { intros k' c' Hin. apply (Hab k'). by apply list_elem_of_further. }
    exists q'. split; [done|]. by eapply on_lists_64.
  - destruct (Impl_put_ok front q Q k p c m HR) as (q1 & -> & HR1);
      [split; lia|done|apply (Hab k), list_elem_of_here|]. ostep.
    destruct (IH q1 _ HR1 Hks Hp Hm) as (q' & -> & HR').
    { intros k' c' Hin k2 p2 Hv. rewrite fn_lookup_insert_ne.
      - apply (Hab k'); [by apply list_elem_of_further|done].
      - intros [= -> -> ->]. by apply (Hn k'). }
    exists q'. split; [done|]. eapply represents_ext; [|done].
    intros k' p' c' _. by apply on_lists_cons.
Qed.

Lemma run_remove ks q Q p m :
  represents q Q -> cores_ok ks -> 0 <= p <= 64 ->
  (forall k c, (k, c) ∈ ks -> p < 64 -> m ∈ Q (k, p, c)) ->
  exists q', run_ops (fun k q c => Impl_Remove q k p c m) ks q = Done true q' /\
    represents q' (on_lists (remove m) p ks Q).
Proof.
  revert q Q. induction ks as [|[k c] ks IH]; intros q Q HR Hks Hp Hin; cbn [run_ops].
  { exists q. split; [done|]. by apply on_lists_nil. }
  apply cores_ok_cons in Hks as (Hc & Hks & Hn).
  destruct (decide (p = 64)) as [->|].
  - rewrite (proj2 (proj2 (noop_priority k q c m Hc))). ostep.
    destruct (IH q Q) as (q' & -> & HR'); [done|done|lia|lia|].
    exists q'. split; [done|]. by eapply on_lists_64.
  - destruct (Impl_Remove_ok q Q k p c m HR) as (q1 & -> & HR1);
      [split; lia|apply Hin; [apply list_elem_of_here|lia]|]. ostep.
    destruct (IH q1 _ HR1 Hks Hp) as (q' & -> & HR').
    { intros k' c' Hk Hp'. rewrite fn_lookup_insert_ne.
      - apply Hin; [by apply list_elem_of_further|done].
      - intros [= -> ->]. by apply (Hn k'). }
    exists q'. split; [done|]. eapply represents_ext; [|done].
    intros k' p' c' _. by apply on_lists_cons.
Qed.

(** ** The lists a thread belongs to *)

Definition cores_of (mask : Z) : list Z := filter (fun c => Z.testbit mask c = true) [0; 1; 2; 3].

(** Scheduled on its active core, suggested on the other cores of its mask. *)
Definition homes (affinity core : Z) : list (kind * Z) :=
  (if 0 <=? core then [(Scheduled, core)] else []) ++
  ((fun c => (Suggested, c)) <$> filter (fun c => c <> core) (cores_of affinity)).

Definition thread_ok (t : Member) : Prop :=
  0 <= GetAffinityMask t < 16 /\ -1 <= GetActiveCore t < 4 /\ 0 <= GetPriority t <= 64 /\
  IsDummyThread t = false.

Lemma elem_of_cores_of mask c : c ∈ cores_of mask <-> 0 <= c < 4 /\ Z.testbit mask c = true.
Proof.
  unfold cores_of. rewrite list_elem_of_filter, !elem_of_cons, elem_of_nil. split.
  - intros [H1 H2]. split; [|done]. lia.
  - intros [H1 H2]. split; [done|]. lia.
Qed.

Lemma elem_of_homes affinity core k c :
  -1 <= core < 4 ->
  (k, c) ∈ homes affinity core <->
  0 <= c < 4 /\
  match k with Scheduled => c = core | Suggested => c <> core /\ Z.testbit affinity c = true end.
Proof.
  intros Hc. unfold homes. rewrite elem_of_app, list_elem_of_fmap.
  setoid_rewrite list_elem_of_filter. setoid_rewrite elem_of_cores_of.
  destruct k; destruct (Z.leb_spec 0 core); rewrite ?elem_of_cons, ?elem_of_nil; split;
    try (intros [[[= ->]|[]]|(x & [=] & _)]; lia); try naive_solver lia.
Qed.

Lemma homes_ok affinity core : -1 <= core < 4 -> cores_ok (homes affinity core).
Proof.
  intros Hc. split.
  - unfold homes. rewrite fmap_app. apply list.NoDup_app. split_and!.
    + destruct (0 <=? core); simpl; [apply NoDup_singleton|constructor].
    + intros x Hx. destruct (Z.leb_spec 0 core); simpl in Hx; [|by apply elem_of_nil in Hx].
      apply list_elem_of_singleton in Hx as ->. rewrite <- list_fmap_compose.
      intros (y & -> & Hy)%list_elem_of_fmap. apply list_elem_of_filter in Hy as [Hy _]. by apply Hy.
    + rewrite <- list_fmap_compose. rewrite (list_fmap_ext _ id) by done. rewrite list_fmap_id.
      apply list.NoDup_filter. unfold cores_of. apply list.NoDup_filter.
      repeat (apply list.NoDup_cons; split; [rewrite ?elem_of_cons, elem_of_nil; lia|]).
      constructor.
  - apply list.Forall_forall. intros [k c] Hin. apply elem_of_homes in Hin; [|done]. simpl. tauto.
Qed.

Lemma ClearAffinityBit_ok affinity c :
  0 <= affinity < 16 -> 0 <= c < 4 ->
  exists a, ClearAffinityBit affinity c = mret a /\ 0 <= a < 16 /\
    forall i, Z.testbit a i = Z.testbit affinity i && negb (i =? c).
Proof.
  intros Ha Hc. unfold ClearAffinityBit. rewrite shl64_ok by lia. ostep.
  assert (H1 : u64 (1 .<< c) = 1 .<< c).
  { apply u64_small. rewrite Z.shiftl_1_l. split; [lia|]. apply Z.pow_lt_mono_r; lia. }
  rewrite H1. eexists. split; [done|]. split.
  - apply (in_u_land 4); [lia|exact Ha|]. apply (in_u_lxor 64); [lia| |by vm_compute].
    rewrite <- H1. apply u64_range.
  - intros i. rewrite Z.land_spec, testbit_notu, testbit_pow2 by lia.
    destruct (Z.leb_spec 0 i), (Z.ltb_spec i 64), (Z.eqb_spec i c); simpl; try lia;
      rewrite ?andb_true_r, ?andb_false_r; try done.
    + rewrite (testbit_above 4 affinity i) by lia. done.
    + by rewrite Z.testbit_neg_r by lia.
Qed.

Lemma for_affinity_step n op a c a' q :
  (a =? 0) = false -> countr_zero 64 a = c -> ClearAffinityBit a c = mret a' ->
  for_affinity (S n) op a q = (op q c ≫= for_affinity n op a').
Proof. intros H1 H2 H3. cbn [for_affinity]. rewrite H1, H2, H3. by ostep. Qed.

(** The loop over the bits of a mask visits its cores in ascending order. *)
Lemma for_affinity_cores n op a q :
  0 <= a < 16 -> (length (cores_of a) <= n)%nat ->
  for_affinity n op a q = run_ops (fun _ => op) ((fun c => (Suggested, c)) <$> cores_of a) q.
Proof.
  revert a q. induction n as [|n IH]; intros a q Ha Hn;
    (assert (Hin : In a [0; 1; 2; 3; 4; 5; 6; 7; 8; 9; 10; 11; 12; 13; 14; 15]) by (simpl; lia));
    simpl in Hin.
  - repeat (destruct Hin as [<-|Hin]; [first [done | vm_compute in Hn; lia]|]). done.
  - repeat (destruct Hin as [<-|Hin]; [try done|]); [..|done].
    all: match goal with |- for_affinity (S ?n') ?op' ?a _ = _ =>
           let c := eval vm_compute in (countr_zero 64 a) in
           let a' := eval vm_compute in (a .& notu 64 (1 .<< c)) in
           rewrite (for_affinity_step n' op' a c a') by (by vm_compute);
           change (cores_of a) with (c :: cores_of a') in *
         end.
    all: cbn [fmap list_fmap run_ops]; unfold mbind, outcome_mbind, outcome_bind;
      destruct (op q _); [done|]; rewrite IH; [done|lia|cbn [length] in Hn; lia].
Qed.

Lemma run_ops_ext op op' ks q :
  (forall k c, (k, c) ∈ ks -> forall q, op k q c = op' k q c) -> run_ops op ks q = run_ops op' ks q.
Proof.
  revert q. induction ks as [|[k c] ks IH]; intros q H; [done|]. simpl.
  rewrite (H k c) by apply list_elem_of_here. destruct (op' k q c); [done|]. simpl.
  rewrite IH; [done|]. intros k' c' Hin. apply H. by apply list_elem_of_further.
Qed.

Lemma cores_of_clear a a' c :
  (forall i, Z.testbit a' i = Z.testbit a i && negb (i =? c)) ->
  cores_of a' = filter (fun x => x <> c) (cores_of a).
Proof.
  intros H. unfold cores_of. rewrite list_filter_filter. apply list_filter_iff. intros x.
  rewrite H, andb_true_iff, negb_true_iff, Z.eqb_neq. tauto.
Qed.

(** The two halves of an operation on all lists of a thread. *)
Definition by_kind {A} (f g : A) (k : kind) : A := match k with Scheduled => f | Suggested => g end.

Lemma for_cores_homes sched sugg t q :
  thread_ok t ->
  for_cores sched sugg t q =
    run_ops (by_kind sched sugg) (homes (GetAffinityMask t) (GetActiveCore t)) q.
Proof.
  intros (Ha & Hc & _). unfold for_cores, homes.
  destruct (Z.leb_spec 0 (GetActiveCore t)) as [H0|H0].
  - destruct (ClearAffinityBit_ok _ (GetActiveCore t) Ha ltac:(lia)) as (a & E & Ha' & Hbits). rewrite E.
    cbn [app run_ops by_kind].
    destruct (sched q (GetActiveCore t)) as [|b q1]; [done|].
    unfold mbind, outcome_mbind, outcome_bind, mret, outcome_mret. cbv beta iota.
    cbn [andb]. rewrite !andb_true_r. rewrite for_affinity_cores; [|done|].
    + rewrite (cores_of_clear _ _ _ Hbits). erewrite run_ops_ext; [done|].
      intros k c (x & [= -> ->] & _)%list_elem_of_fmap q'. done.
    + unfold cores_of. etrans; [apply length_filter|]. simpl. lia.
  - ostep. cbv beta iota. cbn [app]. rewrite for_affinity_cores; [|done|].
    + replace (filter (fun c => c <> GetActiveCore t) (cores_of (GetAffinityMask t)))
        with (cores_of (GetAffinityMask t)).
      * apply run_ops_ext. intros k c (x & [= -> ->] & _)%list_elem_of_fmap q'. done.
      * apply cores_of_clear. intros i. destruct (Z.eqb_spec i (GetActiveCore t)) as [->|].
        -- by rewrite Z.testbit_neg_r by lia.
        -- by rewrite andb_true_r.
    + unfold cores_of. etrans; [apply length_filter|]. simpl. lia.
Qed.

(** ** Where a thread is *)

(** [m] is in the lists of priority [p] named by [ks] and in no other. *)
Definition placed (Q : queues) (p m : Z) (ks : list (kind * Z)) : Prop :=
  forall k p' c, valid p' c -> m ∈ Q (k, p', c) <-> p' = p /\ (k, c) ∈ ks.

(** The other threads are in the same lists in the same order. *)
Definition others_kept (Q Q' : queues) (m : Z) : Prop :=
  forall k p c, valid p c -> without m (Q' (k, p, c)) = without m (Q (k, p, c)).

Lemma without_idem m l : without m (without m l) = without m l.
Proof. apply without_not_in. rewrite elem_of_without. tauto. Qed.

Lemma without_snoc m l : without m (l ++ [m]) = without m l.
Proof.
  rewrite without_app. unfold without at 2. rewrite filter_cons_False by (intros H; by apply H).
  apply app_nil_r.
Qed.

Lemma without_cons m l : without m (m :: l) = without m l.
Proof. unfold without. by rewrite filter_cons_False by (intros H; by apply H). Qed.

Lemma removed_placed Q p m ks :
  placed Q p m ks -> placed (on_lists (remove m) p ks Q) p m [] /\
  others_kept Q (on_lists (remove m) p ks Q) m.
Proof.
  intros Hpl. split; intros k p' c Hv; unfold on_lists, remove.
  - split; [|by intros [_ []%elem_of_nil]]. intros Hin. exfalso.
    destruct (decide (p' = p /\ (k, c) ∈ ks)) as [Hd|Hd].
    + apply elem_of_without in Hin. tauto.
    + by apply Hd, (Hpl k p' c Hv).
  - destruct (decide (p' = p /\ (k, c) ∈ ks)); [apply without_idem|done].
Qed.

Lemma placed_nil_absent Q p m : placed Q p m [] -> forall c, absent Q c m.
Proof. intros H c k p' Hv Hin. apply H in Hin as [_ Hin]; [|done]. by apply elem_of_nil in Hin. Qed.

Lemma put_in front m k l : m ∈ put front m k l.
Proof.
  assert (H : m ∈ l ++ [m]) by (apply elem_of_app; right; apply list_elem_of_here).
  destruct front, k; try done. apply list_elem_of_here.
Qed.

Lemma put_without front m k l : without m (put front m k l) = without m l.
Proof. destruct front, k; (apply without_snoc || apply without_cons). Qed.

Lemma put_placed front Q p m ks :
  (forall c, absent Q c m) ->
  placed (on_lists (put front m) p ks Q) p m ks /\ others_kept Q (on_lists (put front m) p ks Q) m.
Proof.
  intros Hab. split; intros k p' c Hv; unfold on_lists.
  - destruct (decide (p' = p /\ (k, c) ∈ ks)); [split; auto using put_in|].
    split; [|tauto]. intros Hin. by apply (Hab c k p' Hv) in Hin.
  - destruct (decide (p' = p /\ (k, c) ∈ ks)); [apply put_without|done].
Qed.

Lemma others_kept_trans Q1 Q2 Q3 m :
  others_kept Q1 Q2 m -> others_kept Q2 Q3 m -> others_kept Q1 Q3 m.
Proof. intros H1 H2 k p c Hv. by rewrite H2, H1. Qed.

Lemma priority_guard p : 0 <= p <= 64 -> IsValidPriority p = true.
Proof.
  intros Hp. unfold IsValidPriority, HighestPriority, LowestPriority.
  by rewrite (proj2 (Z.leb_le 0 p)), (proj2 (Z.leb_le p _)) by lia.
Qed.

(** The lists a thread record names. *)
Definition homes_of (t : Member) : list (kind * Z) := homes (GetAffinityMask t) (GetActiveCore t).

Lemma homes_of_ok t : thread_ok t -> cores_ok (homes_of t).
Proof. intros (_ & Hc & _). by apply homes_ok. Qed.

Lemma put_at_ok (front : bool) q Q p m t :
  represents q Q -> thread_ok t -> 0 <= p <= 64 -> m <> 0 -> (forall c, absent Q c m) ->
  exists q', (if front then PushFront_at q p m t else PushBack_at q p m t) = Done true q' /\
    represents q' (on_lists (put front m) p (homes_of t) Q).
Proof.
  intros HR Ht Hp Hm Hab.
  destruct (run_put front _ q Q p m HR (homes_of_ok t Ht) Hp Hm) as (q' & E & HR'); [auto|].
  exists q'. split; [|done]. rewrite <- E. unfold PushFront_at, PushBack_at.
  rewrite !bind_assert_true by by apply priority_guard. rewrite !for_cores_homes by done.
  destruct front; apply run_ops_ext; by intros [].
Qed.

Lemma Remove_at_ok q Q p m t :
  represents q Q -> thread_ok t -> 0 <= p <= 64 -> placed Q p m (homes_of t) ->
  exists q', Remove_at q p m t = Done true q' /\
    represents q' (on_lists (remove m) p (homes_of t) Q).
Proof.
  intros HR Ht Hp Hpl. unfold Remove_at. rewrite bind_assert_true by by apply priority_guard.
  rewrite for_cores_homes by done. pose proof Ht as (_ & Hc & _).
  destruct (run_remove _ q Q p m HR (homes_of_ok t Ht) Hp) as (q' & E & HR').
  { intros k c Hin Hp'. apply Hpl; [|done]. apply elem_of_homes in Hin; [|done]. split; [lia|tauto]. }
  exists q'. split; [|done]. rewrite <- E. apply run_ops_ext. by intros [].
Qed.

Lemma put_removed front Q p m ks :
  (forall c, absent Q c m) ->
  forall k p' c, valid p' c ->
    on_lists (remove m) p ks (on_lists (put front m) p ks Q) (k, p', c) = Q (k, p', c).
Proof.
  intros Hab k p' c Hv. unfold on_lists, remove. destruct (decide _); [|done].
  rewrite put_without. by apply without_not_in, Hab.
Qed.

(** C27: Pushing a thread onto the queue appends it to the scheduled list of its active core and to
    the suggested lists of the other cores of its affinity mask, at its priority, and to no other
    list, and leaves all other threads where they were; removing it again restores every list.
    No assertion fails, and the linked lists and bit sets stay consistent. *)
Theorem priority_queue_push_remove q Q m t :
  represents q Q -> thread_ok t -> m <> 0 -> (forall c, absent Q c m) ->
  let Q' := on_lists (put false m) (GetPriority t) (homes_of t) Q in
  exists q' q'', PushBack q m t = Done true q' /\ represents q' Q' /\
    placed Q' (GetPriority t) m (homes_of t) /\ others_kept Q Q' m /\
    Remove q' m t = Done true q'' /\ represents q'' Q.
Proof.
  intros HR Ht Hm Hab Q'. pose proof Ht as (_ & _ & Hp & Hd).
  destruct (put_at_ok false q Q (GetPriority t) m t HR Ht Hp Hm Hab) as (q' & E & HR').
  destruct (put_placed false Q (GetPriority t) m (homes_of t) Hab) as [Hpl Hok].
  destruct (Remove_at_ok q' Q' (GetPriority t) m t HR' Ht Hp Hpl) as (q'' & E' & HR'').
  exists q', q''. unfold PushBack, Remove. rewrite Hd. split_and!; [done..|].
  eapply represents_ext; [|exact HR'']. intros k p c Hv. symmetry. by apply put_removed.
Qed.

(** The front of a core is the first thread in priority order, and the thread after a queued
    thread is the next one in that order: walking the queue with [GetNext] visits the threads of
    the core by priority, in list order within a priority. *)
Theorem priority_queue_order q Q k c m t :
  represents q Q -> 0 <= c < 4 -> valid (GetPriority t) c -> m ∈ Q (k, GetPriority t, c) ->
  Impl_GetFront q k c = Done true (List.hd 0 (order Q k c)) /\
  exists before after, order Q k c = before ++ m :: after /\ m ∉ before /\
    Impl_GetNext q k c m t = Done true (List.hd 0 after).
Proof.
  intros HR Hc Hv Hm.
  assert (Hcore : IsValidCore c = true /\ in_cores c = mret tt).
  { unfold IsValidCore, in_cores, NumCores.
    by rewrite (proj2 (Z.leb_le 0 c)), (proj2 (Z.ltb_lt c 4)) by lia. }
  destruct Hcore as [Hc1 Hc2]. split.
  - unfold Impl_GetFront, order. rewrite Hc1, Hc2. ostep. rewrite (from_scan q Q) by (done || lia).
    change (Z.to_nat NumPriority) with 64%nat. cbv zeta. by destruct (_ <=? _).
  - set (p := GetPriority t) in *.
    destruct (list_elem_of_split _ _ Hm) as (l1 & l2 & El).
    set (a := Z.to_nat p). set (b := Z.to_nat (64 - (p + 1))).
    assert (Hab : 64%nat = (a + S b)%nat) by (destruct Hv; unfold a, b; lia).
    assert (Ha : Z.of_nat a = p) by (destruct Hv; unfold a; lia).
    pose proof (rep_linked q Q HR k p c Hv) as Hl. pose proof (rep_nodup q Q HR k p c Hv) as Hnd.
    pose proof (rep_nonnull q Q HR k p c Hv) as H0. rewrite El in Hl, Hnd, H0.
    exists (from Q k c a 0 ++ l1), (l2 ++ from Q k c b (p + 1)). split_and!.
    + unfold order. rewrite Hab, from_app. cbn [from].
      rewrite Z.add_0_l, Ha, El, <- !app_assoc. done.
    + rewrite not_elem_of_app. split.
      * intros (p' & Hp' & Hin)%elem_of_from.
        destruct (rep_once q Q HR k p' c k p m) as [_ ?]; [split; destruct Hv; lia|done|done|done|lia].
      * intros Hin. apply list.NoDup_app in Hnd as (_ & Hd & _). apply (Hd m Hin), list_elem_of_here.
    + unfold Impl_GetNext. rewrite Hc1, Hc2. ostep. apply linked_app in Hl as [_ Hl].
      pose proof (linked_next _ _ _ _ _ _ _ Hl) as Hnx.
      rewrite not_elem_of_app, not_elem_of_cons in H0. destruct H0 as (_ & Hm0 & H02).
      rewrite (L_member k p c m) by done. rewrite Hnx. destruct l2 as [|y l2]; simpl.
      * rewrite (from_scan q Q) by (done || (destruct Hv; unfold b; lia)).
        unfold GetNextSet. change NumPriority with 64. fold b. by destruct (_ <=? _).
      * rewrite not_elem_of_cons in H02. rewrite (proj2 (Z.eqb_neq y 0)) by (intros ->; tauto). done.
Qed.


(** A removal from the lists of [ks] followed by a push onto the lists of [ks']. *)
Lemma remove_put_ok front Q p p' m ks ks' :
  placed Q p m ks ->
  let Q' := on_lists (put front m) p' ks' (on_lists (remove m) p ks Q) in
  (forall c, absent (on_lists (remove m) p ks Q) c m) /\
  placed Q' p' m ks' /\ others_kept Q Q' m.
Proof.
  intros Hpl Q'. destruct (removed_placed Q p m ks Hpl) as [Hpl1 Hok1].
  pose proof (placed_nil_absent _ _ _ Hpl1) as Hab.
  destruct (put_placed front _ p' m ks' Hab) as [Hpl2 Hok2]. split_and!; [done..|].
  by eapply others_kept_trans.
Qed.

(** Changing the priority of a queued thread moves it from the lists of its old priority to
    those of its new one; a running thread comes first in its scheduled list, any other comes last,
    and no other thread changes its place. *)
Theorem priority_queue_change_priority q Q prev_priority (is_running : bool) m t :
  represents q Q -> thread_ok t -> m <> 0 -> 0 <= prev_priority <= 64 ->
  placed Q prev_priority m (homes_of t) ->
  let Q' := on_lists (put is_running m) (GetPriority t) (homes_of t)
              (on_lists (remove m) prev_priority (homes_of t) Q) in
  exists q', ChangePriority q prev_priority is_running m t = Done true q' /\ represents q' Q' /\
    placed Q' (GetPriority t) m (homes_of t) /\ others_kept Q Q' m.
Proof.
  intros HR Ht Hm Hp0 Hpl Q'. pose proof Ht as (_ & _ & Hp & Hd).
  destruct (remove_put_ok is_running Q prev_priority (GetPriority t) m _ (homes_of t) Hpl)
    as (Hab & Hpl' & Hok).
  destruct (Remove_at_ok q Q prev_priority m t HR Ht Hp0 Hpl) as (q1 & E1 & HR1).
  destruct (put_at_ok is_running q1 _ (GetPriority t) m t HR1 Ht Hp Hm Hab) as (q' & E' & HR').
  exists q'. split_and!; [|done..]. unfold ChangePriority.
  rewrite Hd, bind_assert_true by by apply priority_guard. rewrite E1. ostep. exact E'.
Qed.

(** The lists of a mask as [ChangeAffinityMask] visits them. *)
Definition mask_homes (mask own : Z) : list (kind * Z) :=
  (fun c => (if c =? own then Scheduled else Suggested, c)) <$> cores_of mask.

Lemma GetCoreBit_ok c : 0 <= c < 4 -> GetCoreBit c = mret (1 .<< c).
Proof.
  intros Hc. unfold GetCoreBit, NumCores.
  rewrite (proj2 (Z.leb_le 0 c)), (proj2 (Z.ltb_lt c 4)), shl64_ok by lia. cbn [andb]. ostep.
  rewrite u64_small; [done|]. rewrite Z.shiftl_1_l. split; [lia|]. apply Z.pow_lt_mono_r; lia.
Qed.

Lemma GetAffinity_testbit mask c : 0 <= c < 4 -> GetAffinity mask c = mret (Z.testbit mask c).
Proof.
  intros Hc. unfold GetAffinity. rewrite GetCoreBit_ok, bind_ret by done. f_equal.
  destruct (Z.testbit mask c) eqn:E.
  - apply negb_true_iff, Z.eqb_neq. intros H. apply (f_equal (fun z => Z.testbit z c)) in H.
    rewrite Z.land_spec, E, Z.bits_0, testbit_pow2, Z.eqb_refl in H by lia. done.
  - apply negb_false_iff, Z.eqb_eq, Z.bits_inj_0. intros i. rewrite Z.land_spec.
    destruct (Z.ltb_spec i 0); [by rewrite Z.testbit_neg_r by lia|]. rewrite testbit_pow2 by lia.
    destruct (Z.eqb_spec i c) as [->|]; [by rewrite E|apply andb_false_r].
Qed.

(** Setting or clearing one core keeps the mask an allowed one. *)
Lemma SetAffinity_ok mask c set :
  0 <= mask < 16 -> 0 <= c < 4 ->
  exists mask', SetAffinity mask c set = Done true mask' /\ 0 <= mask' < 16 /\
    SetAffinityMask mask' = Done true mask' /\
    forall c', 0 <= c' < 4 -> GetAffinity mask' c' = if c' =? c then mret set else GetAffinity mask c'.
Proof.
  intros Hm Hc. unfold SetAffinity. rewrite GetCoreBit_ok, bind_ret by done.
  pose (mask' := if set then mask .| 1 .<< c else mask .& notu 64 (1 .<< c)).
  assert (Hin : In mask [0; 1; 2; 3; 4; 5; 6; 7; 8; 9; 10; 11; 12; 13; 14; 15]) by (simpl; lia).
  assert (Hinc : In c [0; 1; 2; 3]) by (simpl; lia). simpl in Hin, Hinc.
  exists mask'. split; [done|]. split; [|split].
  - repeat (destruct Hin as [<-|Hin]; [by repeat (destruct Hinc as [<-|Hinc]; [by destruct set|])|]). done.
  - repeat (destruct Hin as [<-|Hin]; [by repeat (destruct Hinc as [<-|Hinc]; [by destruct set|])|]). done.
  - intros c' Hc'. rewrite !GetAffinity_testbit by done. unfold mask'.
    destruct set; rewrite ?Z.lor_spec, ?Z.land_spec, ?testbit_notu, testbit_pow2 by lia;
      rewrite ?(proj2 (Z.leb_le 0 c')), ?(proj2 (Z.ltb_lt c' 64)) by lia;
      destruct (Z.eqb_spec c' c); simpl; by rewrite ?orb_true_r, ?orb_false_r, ?andb_true_r, ?andb_false_r.
Qed.

Lemma for_mask_homes cores mask own op q :
  Forall (fun c => 0 <= c < 4) cores ->
  for_mask cores mask own op q =
    run_ops op ((fun c => (if c =? own then Scheduled else Suggested, c)) <$>
      filter (fun c => Z.testbit mask c = true) cores) q.
Proof.
  revert q. induction cores as [|c cores IH]; intros q Hf; [done|].
  apply Forall_cons_1 in Hf as [Hc Hf]. cbn [for_mask].
  rewrite (GetAffinity_testbit mask c Hc), bind_ret. destruct (Z.testbit mask c) eqn:E.
  - rewrite filter_cons_True by done. cbn [fmap list_fmap run_ops].
    destruct (op _ q c) as [|b q']; [done|]. cbn. by rewrite (IH q' Hf).
  - rewrite filter_cons_False by congruence. rewrite <- (IH q Hf). ostep. done.
Qed.

Lemma mask_homes_ok mask own : cores_ok (mask_homes mask own).
Proof.
  unfold mask_homes. split.
  - rewrite <- list_fmap_compose. rewrite (list_fmap_ext _ id) by done. rewrite list_fmap_id.
    unfold cores_of. apply list.NoDup_filter.
    repeat (apply list.NoDup_cons; split; [rewrite ?elem_of_cons, elem_of_nil; lia|]). constructor.
  - apply list.Forall_forall. intros [k c] (x & [= -> ->] & Hin)%list_elem_of_fmap.
    apply elem_of_cores_of in Hin. simpl. lia.
Qed.

Lemma elem_of_mask_homes mask own k c :
  -1 <= own < 4 -> (0 <= own -> Z.testbit mask own = true) ->
  (k, c) ∈ mask_homes mask own <-> (k, c) ∈ homes mask own.
Proof.
  intros Ho Hbit. rewrite elem_of_homes by done. unfold mask_homes. rewrite list_elem_of_fmap.
  setoid_rewrite elem_of_cores_of. split.
  - intros (x & [= -> ->] & Hx & Hb). split; [done|]. by destruct (Z.eqb_spec x own).
  - intros [Hc Hk]. exists c. destruct k.
    + subst c. rewrite Z.eqb_refl. split; [done|]. split; [done|apply Hbit; lia].
    + destruct Hk as [Hne Hb]. by rewrite (proj2 (Z.eqb_neq c own) Hne).
Qed.

Lemma placed_homes Q p m ks ks' :
  (forall k c, (k, c) ∈ ks <-> (k, c) ∈ ks') -> placed Q p m ks -> placed Q p m ks'.
Proof. intros H Hpl k p' c Hv. by rewrite <- H, (Hpl k p' c Hv). Qed.

(** Changing the affinity mask and the core of a queued thread takes it out of the lists of the
    old mask and core and appends it to those of the new ones, as long as each core that runs the
    thread is one its mask allows; no other thread changes its place. *)
Theorem priority_queue_change_affinity q Q prev_core prev_affinity m t :
  represents q Q -> thread_ok t -> m <> 0 ->
  -1 <= prev_core < 4 -> (0 <= prev_core -> Z.testbit prev_affinity prev_core = true) ->
  (0 <= GetActiveCore t -> Z.testbit (GetAffinityMask t) (GetActiveCore t) = true) ->
  placed Q (GetPriority t) m (homes prev_affinity prev_core) ->
  exists q' Q', ChangeAffinityMask q prev_core prev_affinity m t = Done true q' /\
    represents q' Q' /\ placed Q' (GetPriority t) m (homes_of t) /\ others_kept Q Q' m.
Proof.
  intros HR Ht Hm Hc0 Hb0 Hb Hpl. pose proof Ht as (_ & Hc & Hp & Hd).
  assert (Hpl0 : placed Q (GetPriority t) m (mask_homes prev_affinity prev_core)).
  { eapply placed_homes; [|exact Hpl]. intros k c. symmetry. by apply elem_of_mask_homes. }
  destruct (remove_put_ok false Q _ (GetPriority t) m _
    (mask_homes (GetAffinityMask t) (GetActiveCore t)) Hpl0) as (Hab & Hpl' & Hok).
  destruct (run_remove _ q Q (GetPriority t) m HR (mask_homes_ok prev_affinity prev_core) Hp)
    as (q1 & E1 & HR1).
  { intros k c Hin Hp'. apply Hpl0; [|done]. apply elem_of_mask_homes in Hin; [|done..].
    apply elem_of_homes in Hin; [|done]. split; [lia|tauto]. }
  destruct (run_put false _ q1 _ (GetPriority t) m HR1
    (mask_homes_ok (GetAffinityMask t) (GetActiveCore t)) Hp Hm) as (q' & E' & HR'); [auto|].
  eexists q', _. split_and!; [|exact HR'| |exact Hok].
  - unfold ChangeAffinityMask. rewrite Hd, for_mask_homes by (repeat constructor; lia).
    etransitivity; [|exact E']. unfold mask_homes, cores_of in E1. rewrite E1. ostep.
    rewrite for_mask_homes by (repeat constructor; lia). apply run_ops_ext. by intros [].
  - eapply placed_homes; [|exact Hpl']. intros k c. by apply elem_of_mask_homes.
Qed.

(** The lists [ChangeCore] takes a thread out of and puts it into. *)
Definition core_leaves (prev_core new_core : Z) : list (kind * Z) :=
  (if 0 <=? prev_core then [(Scheduled, prev_core)] else []) ++
  (if 0 <=? new_core then [(Suggested, new_core)] else []).
Definition core_enters (prev_core new_core : Z) : list (kind * Z) :=
  (if 0 <=? new_core then [(Scheduled, new_core)] else []) ++
  (if 0 <=? prev_core then [(Suggested, prev_core)] else []).

Lemma elem_of_core_leaves x y k c :
  (k, c) ∈ core_leaves x y <-> 0 <= c /\ match k with Scheduled => c = x | Suggested => c = y end.
Proof.
  unfold core_leaves. rewrite elem_of_app.
  destruct (Z.leb_spec 0 x), (Z.leb_spec 0 y), k; rewrite ?elem_of_cons, ?elem_of_nil;
    naive_solver lia.
Qed.

Lemma elem_of_core_enters x y k c :
  (k, c) ∈ core_enters x y <-> 0 <= c /\ match k with Scheduled => c = y | Suggested => c = x end.
Proof. unfold core_enters. apply (elem_of_core_leaves y x). Qed.

Lemma core_leaves_ok x y : x < 4 -> y < 4 -> x <> y -> cores_ok (core_leaves x y).
Proof.
  intros Hx Hy Hne. split.
  - unfold core_leaves. destruct (0 <=? x), (0 <=? y); simpl; try apply NoDup_singleton; [|constructor].
    apply list.NoDup_cons. rewrite elem_of_cons, elem_of_nil.
    split; [naive_solver|apply NoDup_singleton].
  - apply list.Forall_forall. intros [k c] Hin%elem_of_core_leaves. simpl. destruct k; lia.
Qed.

Lemma ChangeCore_run q prev_core m t to_front :
  IsDummyThread t = false -> prev_core <> GetActiveCore t ->
  ChangeCore q prev_core m t to_front =
    (run_ops (fun k q c => Impl_Remove q k (GetPriority t) c m)
       (core_leaves prev_core (GetActiveCore t)) q ≫=
     run_ops (Impl_put to_front (GetPriority t) m) (core_enters prev_core (GetActiveCore t))).
Proof.
  intros Hd Hne. unfold ChangeCore, core_leaves, core_enters. rewrite Hd.
  rewrite (proj2 (Z.eqb_neq _ _) Hne). cbn [negb].
  destruct (0 <=? prev_core), (0 <=? GetActiveCore t); cbn [app run_ops];
    rewrite ?bind_assoc, ?bind_ret; try done.
  - apply bind_ext. intros q1. rewrite !bind_assoc. apply bind_ext. intros q2. rewrite bind_ret.
    destruct to_front; cbn [Impl_put]; apply bind_ext; intros q3; by rewrite bind_ret_r.
  - apply bind_ext. intros q1. rewrite !bind_ret. cbn [Impl_put]. destruct to_front; by rewrite bind_ret_r.
  - rewrite !bind_assoc. apply bind_ext. intros q1. rewrite !bind_ret.
    destruct to_front; cbn [Impl_put]; by rewrite !bind_ret_r.
Qed.

Section change_core.
Context (Q : queues) (p m affinity prev_core core : Z) (to_front : bool).
Hypothesis Hc0 : -1 <= prev_core < 4.
Hypothesis Hc : -1 <= core < 4.
Hypothesis Hne : prev_core <> core.
Hypothesis Hb0 : 0 <= prev_core -> Z.testbit affinity prev_core = true.
Hypothesis Hb : 0 <= core -> Z.testbit affinity core = true.
Hypothesis Hpl : placed Q p m (homes affinity prev_core).

Notation left := (on_lists (remove m) p (core_leaves prev_core core) Q).
Notation entered := (on_lists (put to_front m) p (core_enters prev_core core) left).

Lemma core_leaves_homes k c : (k, c) ∈ core_leaves prev_core core -> (k, c) ∈ homes affinity prev_core.
Proof.
  intros [H0 Hk]%elem_of_core_leaves. apply elem_of_homes; [done|].
  split; [destruct k; lia|]. destruct k; [done|]. subst c. split; [lia|by apply Hb].
Qed.

Lemma left_absent k c : (k, c) ∈ core_enters prev_core core -> absent left c m.
Proof.
  intros Hk%elem_of_core_enters k' p' Hv Hin'. unfold on_lists, remove in Hin'.
  destruct (decide _) as [?|Hn]; [apply elem_of_without in Hin'; tauto|].
  apply Hpl in Hin'; [|done]. destruct Hin' as [-> Hh]. apply Hn. split; [done|].
  apply elem_of_homes in Hh; [|done]. apply elem_of_core_leaves. destruct k, k'; split; lia.
Qed.

Lemma entered_placed : placed entered p m (homes affinity core).
Proof.
  intros k p' c Hv. unfold on_lists. rewrite (elem_of_homes _ core) by done.
  pose proof (Hpl k p' c Hv) as Hin. rewrite elem_of_homes in Hin by done.
  destruct (decide (p' = p /\ (k, c) ∈ core_enters prev_core core)) as [[-> Hi]|Hn];
    [|destruct (decide (p' = p /\ (k, c) ∈ core_leaves prev_core core)) as [[-> Hl]|Hnl]].
  - apply elem_of_core_enters in Hi. split; [|intros _; apply put_in]. intros _.
    split; [done|]. split; [destruct k; lia|]. destruct k; [lia|]. destruct Hi as [? ->]. auto.
  - apply elem_of_core_leaves in Hl. unfold remove. rewrite elem_of_without.
    split; [tauto|]. intros (_ & _ & Hk). destruct k; lia.
  - rewrite Hin. rewrite elem_of_core_enters in Hn. rewrite elem_of_core_leaves in Hnl.
    destruct k; split; intros (-> & Hr & Hk); (split; [done|split; [done|]]).
    + exfalso. apply Hnl. lia.
    + exfalso. apply Hn. lia.
    + split; [|tauto]. intros ->. apply Hnl. lia.
    + split; [|tauto]. intros ->. apply Hn. lia.
Qed.

Lemma entered_others : others_kept Q entered m.
Proof.
  intros k p' c Hv. unfold on_lists.
  destruct (decide _), (decide _); rewrite ?put_without; unfold remove; by rewrite ?without_idem.
Qed.

End change_core.

(** Moving a queued thread to another core (or to none) swaps its scheduled and suggested lists
    of the two cores and leaves it suggested on the other cores of its mask, as long as both cores
    are allowed by the mask: it is then where a thread of the new core belongs. *)
Theorem priority_queue_change_core q Q prev_core m t (to_front : bool) :
  represents q Q -> thread_ok t -> m <> 0 -> -1 <= prev_core < 4 ->
  (0 <= prev_core -> Z.testbit (GetAffinityMask t) prev_core = true) ->
  (0 <= GetActiveCore t -> Z.testbit (GetAffinityMask t) (GetActiveCore t) = true) ->
  placed Q (GetPriority t) m (homes (GetAffinityMask t) prev_core) ->
  exists q' Q', ChangeCore q prev_core m t to_front = Done true q' /\ represents q' Q' /\
    placed Q' (GetPriority t) m (homes_of t) /\ others_kept Q Q' m.
Proof.
  intros HR Ht Hm Hc0 Hb0 Hb Hpl. pose proof Ht as (_ & Hc & Hp & Hd).
  set (p := GetPriority t) in *. set (core := GetActiveCore t) in *.
  destruct (decide (prev_core = core)) as [->|Hne].
  { exists q, Q. unfold ChangeCore. rewrite Hd, Z.eqb_refl. by split_and!. }
  rewrite ChangeCore_run by done. fold p core.
  destruct (run_remove _ q Q p m HR (core_leaves_ok prev_core core ltac:(lia) ltac:(lia) Hne) Hp)
    as (q1 & E1 & HR1).
  { intros k c Hk Hp'. pose proof Hk as Hk'. apply elem_of_core_leaves in Hk'. apply Hpl.
    - split; [lia|]. destruct k; lia.
    - split; [done|]. by apply (core_leaves_homes (GetAffinityMask t) prev_core core). }
  destruct (run_put to_front (core_enters prev_core core) q1 _ p m HR1) as (q' & E' & HR');
    [apply (core_leaves_ok core prev_core); lia|done|done| |].
  { intros k c. by apply (left_absent Q p m (GetAffinityMask t)). }
  eexists q', _. split_and!; [rewrite E1; ostep; exact E'|exact HR'| |].
  - by apply entered_placed.
  - by apply entered_others.
Qed.

(** Rewriting a bit set with its own value changes nothing. *)
Lemma represents_same_bits q Q h k c :
  represents (with_available q h k c (m_available_priorities q (k, c))) Q ->
  represents (mkQueue h (m_available_priorities q)) Q.
Proof.
  intros [H1 H2 H3 H4 H5]. split; [exact H1| |exact H3|exact H4|exact H5].
  intros k' p' c' Hv. specialize (H2 k' p' c' Hv). cbn in H2 |- *.
  destruct (decide ((k, c) = (k', c'))) as [[= -> ->]|Hne].
  - by rewrite fn_lookup_insert in H2.
  - by rewrite fn_lookup_insert_ne in H2.
Qed.

Lemma touches_trans k p c h h1 h2 S :
  touches k p c h h1 S -> touches k p c h1 h2 S -> touches k p c h h2 S.
Proof. intros H1 H2 lc Hr Hm. by rewrite H2, H1. Qed.

Lemma touches_mono k p c h h1 S S' :
  (forall z, z ∈ S -> z ∈ S') -> touches k p c h h1 S -> touches k p c h h1 S'.
Proof. intros H H1 lc Hr Hm. apply H1; auto. Qed.

(** Unlinking a thread and linking it again at an end of its list. *)
Lemma relink_ok q Q k p c m (front : bool) :
  represents q Q -> valid p c -> m ∈ Q (k, p, c) ->
  let h1 := (PerCore_Remove (entries q) k p c m).2 in
  let h2 := (if front then PerCore_PushFront h1 k p c m else PerCore_PushBack h1 k p c m).2 in
  let l' := if front then m :: without m (Q (k, p, c)) else without m (Q (k, p, c)) ++ [m] in
  PerCore_GetFront h2 k p c = List.hd 0 l' /\
  represents (mkQueue h2 (m_available_priorities q)) (<[(k, p, c) := l']> Q).
Proof.
  intros HR Hv Hm. destruct (list_elem_of_split _ _ Hm) as (l1 & l2 & El).
  pose proof (rep_linked q Q HR k p c Hv) as Hl. pose proof (rep_nodup q Q HR k p c Hv) as Hnd.
  pose proof (rep_nonnull q Q HR k p c Hv) as H0. rewrite El in Hl, Hnd, H0. intros h1 h2 l'.
  unfold l'. rewrite El, without_split by done.
  destruct (PerCore_Remove_ok k p c (entries q) l1 m l2 Hl Hnd H0) as (g1 & E1 & Hl1 & Ht1).
  assert (Hout : m ∉ l1 ++ l2 /\ NoDup (l1 ++ l2)).
  { rewrite <- Permutation_middle in Hnd. apply list.NoDup_cons in Hnd. done. }
  assert (H0' : 0 ∉ l1 ++ l2 /\ m <> 0).
  { rewrite <- Permutation_middle, not_elem_of_cons in H0. split; [tauto|]. intros ->. tauto. }
  destruct Hout as [Hout Hnd'], H0' as [H0' Hm0].
  assert (Hg1 : h1 = g1) by (unfold h1; by rewrite E1). clearbody h1. subst h1.
  set (l2' := if front then m :: l1 ++ l2 else (l1 ++ l2) ++ [m]) in *.
  assert (Hperm : l2' ≡ₚ l1 ++ m :: l2).
  { unfold l2'. destruct front; [apply Permutation_middle|].
    rewrite <- Permutation_cons_append. apply Permutation_middle. }
  assert (Hh2 : linked k p c h2 0 l2' 0 /\ touches k p c g1 h2 (m :: l1 ++ l2)).
  { unfold h2, l2'. destruct front.
    - destruct (PerCore_PushFront_ok k p c g1 _ m Hl1 Hnd' H0' Hm0 Hout) as (g2 & -> & ? & ?). done.
    - destruct (PerCore_PushBack_ok k p c g1 _ m Hl1 Hnd' H0' Hm0 Hout) as (g2 & -> & ? & ?). done. }
  destruct Hh2 as [Hl2 Ht2]. split.
  { unfold PerCore_GetFront. rewrite (L_root k p c). by rewrite (linked_next _ _ _ _ _ _ _ Hl2). }
  apply (represents_same_bits _ _ _ k c), (represents_update q Q k p c h2 l2' _ (l1 ++ m :: l2)).
  - done. - done. - done. - by rewrite Hperm. - by rewrite Hperm.
  - eapply touches_trans; [exact Ht1|]. eapply touches_mono; [|exact Ht2].
    intros z. by rewrite <- Permutation_middle.
  - intros z. by rewrite Hperm.
  - intros z k' p' Hz Hv' Hz'. rewrite <- El in Hz.
    destruct (rep_once q Q HR k p c k' p' z Hv Hv' Hz Hz'). done.
  - intros i. destruct (decide (i = p)) as [->|]; [|done]. rewrite (rep_bit q Q HR k p c Hv), El.
    rewrite !bool_decide_eq_false_2; [done| |by destruct l1].
    intros ->. by apply Permutation_nil_l in Hperm; destruct l1.
Qed.

(** Yielding moves the thread to the back of its scheduled list and answers the new front;
    moving to the front makes it the first; in both cases every other list is untouched. *)
Theorem priority_queue_move q Q m t :
  represents q Q -> IsDummyThread t = false -> valid (GetPriority t) (GetActiveCore t) ->
  m ∈ Q (Scheduled, GetPriority t, GetActiveCore t) ->
  let here := (Scheduled, GetPriority t, GetActiveCore t) in
  let back := without m (Q here) ++ [m] in
  (exists q', MoveToScheduledBack q m t = Done true (List.hd 0 back, q') /\
     represents q' (<[here := back]> Q)) /\
  (exists q', MoveToScheduledFront q m t = Done true q' /\
     represents q' (<[here := m :: without m (Q here)]> Q)).
Proof.
  intros HR Hd Hv Hm here back. destruct (valid_guards _ _ Hv) as (Hc & Hp & _ & Hlow).
  unfold MoveToScheduledBack, MoveToScheduledFront, Impl_MoveToBack, Impl_MoveToFront.
  rewrite Hd, !bind_assert_true, Hlow, (valid_arrays _ _ Hv), !bind_ret by done.
  destruct (relink_ok q Q _ _ _ m false HR Hv Hm) as [Hf HRb].
  destruct (relink_ok q Q _ _ _ m true HR Hv Hm) as [_ HRf].
  destruct (PerCore_Remove _ _ _ _ m) as [e h1]. cbn [snd] in *.
  destruct (PerCore_PushBack _ _ _ _ m) as [e2 h2], (PerCore_PushFront _ _ _ _ m) as [e3 h3].
  cbn [snd] in *. split; eexists; (split; [|eassumption]); [by rewrite Hf|done].
Qed.

(** ** Instances *)

(** Thread 5 runs on core 0 and may run on cores 0 to 2. *)
Definition example_thread (priority core : Z) : Member := mkMember 7 core priority false.

Lemma example_thread_ok priority core :
  0 <= priority <= 64 -> -1 <= core < 4 -> thread_ok (example_thread priority core).
Proof. intros. unfold thread_ok, example_thread. simpl. lia. Qed.

Lemma empty_absent c m : absent (fun _ => []) c m.
Proof. intros k p _. apply not_elem_of_nil. Qed.

Lemma example_queue :
  exists q Q, represents q Q /\ placed Q 44 5 (homes 7 0) /\ Q (Scheduled, 44, 0) = [5] /\
    order Q Scheduled 0 = [5].
Proof.
  destruct (put_at_ok false KPriorityQueue_new (fun _ => []) 44 5 (example_thread 44 0)) as (q & _ & HR);
    [apply new_represents|by apply example_thread_ok|done|done|intros c; apply empty_absent|].
  exists q, (on_lists (put false 5) 44 (homes 7 0) (fun _ => [])). split_and!; [exact HR| |..].
  - apply put_placed. intros c. apply empty_absent.
  - by vm_compute.
  - by vm_compute.
Qed.

Lemma priority_queue_push_remove_witness :
  exists q' q'', PushBack KPriorityQueue_new 5 (example_thread 44 0) = Done true q' /\
    Remove q' 5 (example_thread 44 0) = Done true q'' /\ represents q'' (fun _ => []).
Proof.
  destruct (priority_queue_push_remove KPriorityQueue_new (fun _ => []) 5 (example_thread 44 0))
    as (q' & q'' & E & _ & _ & _ & E' & HR);
    [apply new_represents|by apply example_thread_ok|done|intros c; apply empty_absent|].
  exists q', q''. split; [exact E|]. split; [exact E'|exact HR].
Defined.

Lemma priority_queue_order_witness :
  exists q, Impl_GetFront q Scheduled 0 = Done true 5 /\
    Impl_GetNext q Scheduled 0 5 (example_thread 44 0) = Done true 0.
Proof.
  destruct example_queue as (q & Q & HR & Hpl & HQ & Ho). exists q.
  destruct (priority_queue_order q _ Scheduled 0 5 (example_thread 44 0) HR) as (E & b & a & Eo & Hb & E');
    [lia|split; simpl; lia|cbn [GetPriority example_thread]; rewrite HQ; apply list_elem_of_here|].
  rewrite Ho in E, Eo. split; [exact E|]. rewrite E'.
  destruct b as [|x b]; [by injection Eo as <-|]. injection Eo as -> Eo. by destruct b.
Defined.

Lemma priority_queue_change_priority_witness :
  exists q q' Q', ChangePriority q 44 true 5 (example_thread 30 0) = Done true q' /\
    represents q' Q' /\ placed Q' 30 5 (homes 7 0).
Proof.
  destruct example_queue as (q & Q & HR & Hpl & HQ & Ho). exists q.
  destruct (priority_queue_change_priority q _ 44 true 5 (example_thread 30 0) HR) as (q' & E & HR' & H & _);
    [by apply example_thread_ok|done|lia|exact Hpl|].
  eexists q', _. split; [exact E|]. split; [exact HR'|exact H].
Defined.

Lemma priority_queue_change_affinity_witness :
  exists q q' Q', ChangeAffinityMask q 0 7 5 (mkMember 12 3 44 false) = Done true q' /\
    represents q' Q' /\ placed Q' 44 5 (homes 12 3).
Proof.
  destruct example_queue as (q & Q & HR & Hpl & HQ & Ho). exists q.
  destruct (priority_queue_change_affinity q _ 0 7 5 (mkMember 12 3 44 false) HR)
    as (q' & Q' & E & HR' & H & _); [unfold thread_ok; simpl; lia|done|lia|done|done|exact Hpl|].
  exists q', Q'. split; [exact E|]. split; [exact HR'|exact H].
Defined.

Lemma priority_queue_change_core_witness :
  exists q q' Q', ChangeCore q 0 5 (example_thread 44 2) true = Done true q' /\
    represents q' Q' /\ placed Q' 44 5 (homes 7 2).
Proof.
  destruct example_queue as (q & Q & HR & Hpl & HQ & Ho). exists q.
  destruct (priority_queue_change_core q _ 0 5 (example_thread 44 2) true HR)
    as (q' & Q' & E & HR' & H & _); [by apply example_thread_ok|done|lia|done|done|exact Hpl|].
  exists q', Q'. split; [exact E|]. split; [exact HR'|exact H].
Defined.

Lemma priority_queue_move_witness :
  exists q q', MoveToScheduledBack q 5 (example_thread 44 0) = Done true (5, q').
Proof.
  destruct example_queue as (q & Q & HR & Hpl & HQ & Ho). exists q.
  destruct (priority_queue_move q _ 5 (example_thread 44 0) HR) as [(q' & E & _) _];
    [done|split; simpl; lia| |].
  - cbn [GetPriority GetActiveCore example_thread]. rewrite HQ. apply list_elem_of_here.
  - exists q'. rewrite E. cbn [GetPriority GetActiveCore example_thread]. rewrite HQ. by vm_compute.
Defined.
