(* ===== verification/DmntCheatVm.v ===== *)
(** * DmntCheatVm: src/core/memory/dmnt_cheat_vm.h and .cpp

    The virtual machine that runs cheat codes against the memory of the running program: the
    opcodes and their binary format, the decoder [DecodeNextOpcode], the machine state, the
    execution of each opcode and the main loop.  The process whose memory is changed is reached
    through the interface [Callbacks], a class of this file.  The text the machine writes to its
    log ([CommandLog], [LogOpcode]) is not modelled.

    The theorems say that the decoder inverts an encoder written from the format comments, that
    skipping a conditional block stops exactly behind its end (or behind its else), that a machine
    with sixteen registers never leaves its arrays, and that programs without loops terminate. *)

From S2P Require Import Prelude.
#[local] Open Scope Z_scope.

(** ** Enumerations

    An [enum class : u32] cast from a nibble may hold a value without a name, so the enumerators
    are constants and not the whole type. *)

Module CheatVmOpcodeType.
Definition StoreStatic : Z := 0.
Definition BeginConditionalBlock : Z := 1.
Definition EndConditionalBlock : Z := 2.
Definition ControlLoop : Z := 3.
Definition LoadRegisterStatic : Z := 4.
Definition LoadRegisterMemory : Z := 5.
Definition StoreStaticToAddress : Z := 6.
Definition PerformArithmeticStatic : Z := 7.
Definition BeginKeypressConditionalBlock : Z := 8.
Definition PerformArithmeticRegister : Z := 9.
Definition StoreRegisterToAddress : Z := 10.
Definition ExtendedWidth : Z := 12.
Definition BeginRegisterConditionalBlock : Z := 0xC0.
Definition SaveRestoreRegister : Z := 0xC1.
Definition SaveRestoreRegisterMask : Z := 0xC2.
Definition ReadWriteStaticRegister : Z := 0xC3.
Definition DoubleExtendedWidth : Z := 0xF0.
Definition PauseProcess : Z := 0xFF0.
Definition ResumeProcess : Z := 0xFF1.
Definition DebugLog : Z := 0xFFF.
End CheatVmOpcodeType.

Module MemoryAccessType.
Definition MainNso : Z := 0.
Definition Heap : Z := 1.
Definition Alias : Z := 2.
Definition Aslr : Z := 3.
End MemoryAccessType.

Module ConditionalComparisonType.
Definition GT : Z := 1.
Definition GE : Z := 2.
Definition LT : Z := 3.
Definition LE : Z := 4.
Definition EQ : Z := 5.
Definition NE : Z := 6.
End ConditionalComparisonType.

Module RegisterArithmeticType.
Definition Addition : Z := 0.
Definition Subtraction : Z := 1.
Definition Multiplication : Z := 2.
Definition LeftShift : Z := 3.
Definition RightShift : Z := 4.
Definition LogicalAnd : Z := 5.
Definition LogicalOr : Z := 6.
Definition LogicalNot : Z := 7.
Definition LogicalXor : Z := 8.
Definition None_ : Z := 9.
End RegisterArithmeticType.

Module StoreRegisterOffsetType.
Definition None_ : Z := 0.
Definition Reg : Z := 1.
Definition Imm : Z := 2.
Definition MemReg : Z := 3.
Definition MemImm : Z := 4.
Definition MemImmReg : Z := 5.
End StoreRegisterOffsetType.

Module CompareRegisterValueType.
Definition MemoryRelAddr : Z := 0.
Definition MemoryOfsReg : Z := 1.
Definition RegisterRelAddr : Z := 2.
Definition RegisterOfsReg : Z := 3.
Definition StaticValue : Z := 4.
Definition OtherRegister : Z := 5.
End CompareRegisterValueType.

Module SaveRestoreRegisterOpType.
Definition Restore : Z := 0.
Definition Save : Z := 1.
Definition ClearSaved : Z := 2.
Definition ClearRegs : Z := 3.
End SaveRestoreRegisterOpType.

Module DebugLogValueType.
Definition MemoryRelAddr : Z := 0.
Definition MemoryOfsReg : Z := 1.
Definition RegisterRelAddr : Z := 2.
Definition RegisterOfsReg : Z := 3.
Definition RegisterValue : Z := 4.
End DebugLogValueType.

(** ** Opcodes *)

(** The union of an 8, 16, 32 and 64-bit value, as its eight bytes in little-endian order; the
    bytes that were not written are zero. *)
Definition VmInt : Type := Z.

Inductive Opcode :=
| StoreStaticOpcode (bit_width mem_type offset_register rel_address : Z) (value : VmInt)
| BeginConditionalOpcode (bit_width mem_type cond_type rel_address : Z) (value : VmInt)
| EndConditionalOpcode (is_else : bool)
| ControlLoopOpcode (start_loop : bool) (reg_index num_iters : Z)
| LoadRegisterStaticOpcode (reg_index value : Z)
| LoadRegisterMemoryOpcode (bit_width mem_type reg_index : Z) (load_from_reg : bool)
    (rel_address : Z)
| StoreStaticToAddressOpcode (bit_width reg_index : Z) (increment_reg add_offset_reg : bool)
    (offset_reg_index value : Z)
| PerformArithmeticStaticOpcode (bit_width reg_index math_type value : Z)
| BeginKeypressConditionalOpcode (key_mask : Z)
| PerformArithmeticRegisterOpcode (bit_width math_type dst_reg_index src_reg_1_index
    src_reg_2_index : Z) (has_immediate : bool) (value : VmInt)
| StoreRegisterToAddressOpcode (bit_width str_reg_index addr_reg_index : Z) (increment_reg : bool)
    (ofs_type mem_type ofs_reg_index rel_address : Z)
| BeginRegisterConditionalOpcode (bit_width cond_type val_reg_index comp_type mem_type
    addr_reg_index other_reg_index ofs_reg_index rel_address : Z) (value : VmInt)
| SaveRestoreRegisterOpcode (dst_index src_index op_type : Z)
| SaveRestoreRegisterMaskOpcode (op_type : Z) (should_operate : list bool)
| ReadWriteStaticRegisterOpcode (static_idx idx : Z)
| PauseProcessOpcode
| ResumeProcessOpcode
| DebugLogOpcode (bit_width log_id val_type mem_type addr_reg_index val_reg_index ofs_reg_index
    rel_address : Z)
| UnrecognizedInstruction (opcode : Z).

Record CheatVmOpcode := mkOpcode { begin_conditional_block : bool; opcode : Opcode }.

(** ** The machine *)

Definition MaximumProgramOpcodeCount : Z := 0x400.
Definition NumRegisters : Z := 0x10.
Definition NumReadableStaticRegisters : Z := 0x80.
Definition NumWritableStaticRegisters : Z := 0x80.
Definition NumStaticRegisters : Z := NumReadableStaticRegisters + NumWritableStaticRegisters.

Record DmntCheatVm := mkVm {
  num_opcodes : Z;
  instruction_ptr : Z;
  condition_depth : Z;
  decode_success : bool;
  program : list Z;
  registers : list Z;
  saved_values : list Z;
  static_registers : list Z;
  loop_tops : list Z
}.

Definition DmntCheatVm_new : DmntCheatVm :=
  mkVm 0 0 0 false (replicate (Z.to_nat MaximumProgramOpcodeCount) 0)
    (replicate (Z.to_nat NumRegisters) 0) (replicate (Z.to_nat NumRegisters) 0)
    (replicate (Z.to_nat NumStaticRegisters) 0) (replicate (Z.to_nat NumRegisters) 0).

Definition with_decode (ip : Z) (ok : bool) (vm : DmntCheatVm) : DmntCheatVm :=
  mkVm (num_opcodes vm) ip (condition_depth vm) ok (program vm) (registers vm) (saved_values vm)
    (static_registers vm) (loop_tops vm).
Definition with_depth (d : Z) (vm : DmntCheatVm) : DmntCheatVm :=
  mkVm (num_opcodes vm) (instruction_ptr vm) d (decode_success vm) (program vm) (registers vm)
    (saved_values vm) (static_registers vm) (loop_tops vm).
Definition with_registers (l : list Z) (vm : DmntCheatVm) : DmntCheatVm :=
  mkVm (num_opcodes vm) (instruction_ptr vm) (condition_depth vm) (decode_success vm) (program vm) l
    (saved_values vm) (static_registers vm) (loop_tops vm).
Definition with_saved (l : list Z) (vm : DmntCheatVm) : DmntCheatVm :=
  mkVm (num_opcodes vm) (instruction_ptr vm) (condition_depth vm) (decode_success vm) (program vm)
    (registers vm) l (static_registers vm) (loop_tops vm).
Definition with_static (l : list Z) (vm : DmntCheatVm) : DmntCheatVm :=
  mkVm (num_opcodes vm) (instruction_ptr vm) (condition_depth vm) (decode_success vm) (program vm)
    (registers vm) (saved_values vm) l (loop_tops vm).
Definition with_loop_tops (l : list Z) (vm : DmntCheatVm) : DmntCheatVm :=
  mkVm (num_opcodes vm) (instruction_ptr vm) (condition_depth vm) (decode_success vm) (program vm)
    (registers vm) (saved_values vm) (static_registers vm) l.
Definition with_ip (ip : Z) (vm : DmntCheatVm) : DmntCheatVm :=
  with_decode ip (decode_success vm) vm.

(** ** Decoding *)

(** What the decoder changes while it reads: the instruction pointer and [valid]. *)
Record reader := mkReader { rd_ip : Z; rd_valid : bool }.

Definition GetNextDword (vm : DmntCheatVm) (r : reader) : outcome (Z * reader) :=
  if num_opcodes vm <=? rd_ip r then mret (0, mkReader (rd_ip r) false)
  else
    w ← arr_get (program vm) (rd_ip r);
    mret (w, mkReader (u64 (rd_ip r + 1)) (rd_valid r)).

Definition GetNextVmInt (vm : DmntCheatVm) (bit_width : Z) (r : reader) : outcome (VmInt * reader) :=
  '(first_dword, r) ← GetNextDword vm r;
  if bit_width =? 1 then mret (u8 first_dword, r)
  else if bit_width =? 2 then mret (u16 first_dword, r)
  else if bit_width =? 4 then mret (first_dword, r)
  else if bit_width =? 8 then
    '(second_dword, r) ← GetNextDword vm r;
    mret ((first_dword .<< 32) .| second_dword, r)
  else mret (0, r).

(** The nibble of a word at a bit position. *)
Definition nibble (w pos : Z) : Z := (w .>> pos) .& 0xF.

Definition opcode_type (first_dword : Z) : Z :=
  let t := nibble first_dword 28 in
  let t := if CheatVmOpcodeType.ExtendedWidth <=? t then (t .<< 4) .| nibble first_dword 24 else t in
  if CheatVmOpcodeType.DoubleExtendedWidth <=? t then (t .<< 4) .| nibble first_dword 20 else t.

Definition begins_conditional (t : Z) : bool :=
  (t =? CheatVmOpcodeType.BeginConditionalBlock) ||
  (t =? CheatVmOpcodeType.BeginKeypressConditionalBlock) ||
  (t =? CheatVmOpcodeType.BeginRegisterConditionalBlock).

(** The words and the result of one case of the decoder. *)
Notation decoder := (reader -> outcome (Opcode * reader)).

(** [(first & mask) << 32 | GetNextDword()]. *)
Definition rel_address_of (vm : DmntCheatVm) (first_dword mask : Z) (r : reader) :
    outcome (Z * reader) :=
  '(d, r) ← GetNextDword vm r; mret (((first_dword .& mask) .<< 32) .| d, r).

Definition decode_StoreRegisterToAddress (vm : DmntCheatVm) (w : Z) : decoder := fun r =>
  let mk ofs_type mem_type rel_address :=
    StoreRegisterToAddressOpcode (nibble w 24) (nibble w 20) (nibble w 16)
      (negb (nibble w 12 =? 0)) ofs_type mem_type (nibble w 4) rel_address in
  let ofs_type := nibble w 8 in
  if (ofs_type =? StoreRegisterOffsetType.None_) || (ofs_type =? StoreRegisterOffsetType.Reg)
  then mret (mk ofs_type MemoryAccessType.MainNso 0, r)
  else if ofs_type =? StoreRegisterOffsetType.Imm then
    '(a, r) ← rel_address_of vm w 0xF r;
    mret (mk ofs_type MemoryAccessType.MainNso a, r)
  else if ofs_type =? StoreRegisterOffsetType.MemReg then mret (mk ofs_type (nibble w 4) 0, r)
  else if (ofs_type =? StoreRegisterOffsetType.MemImm) ||
          (ofs_type =? StoreRegisterOffsetType.MemImmReg) then
    '(a, r) ← rel_address_of vm w 0xF r;
    mret (mk ofs_type (nibble w 4) a, r)
  else mret (mk StoreRegisterOffsetType.None_ MemoryAccessType.MainNso 0, r).

Definition decode_BeginRegisterConditional (vm : DmntCheatVm) (w : Z) : decoder := fun r =>
  let bit_width := nibble w 20 in
  let comp_type := nibble w 8 in
  let mk := BeginRegisterConditionalOpcode bit_width (nibble w 16) (nibble w 12) comp_type in
  let main := MemoryAccessType.MainNso in
  if comp_type =? CompareRegisterValueType.StaticValue then
    '(v, r) ← GetNextVmInt vm bit_width r; mret (mk main 0 0 0 0 v, r)
  else if comp_type =? CompareRegisterValueType.OtherRegister then
    mret (mk main 0 (nibble w 4) 0 0 0, r)
  else if comp_type =? CompareRegisterValueType.MemoryRelAddr then
    '(a, r) ← rel_address_of vm w 0xF r; mret (mk (nibble w 4) 0 0 0 a 0, r)
  else if comp_type =? CompareRegisterValueType.MemoryOfsReg then
    mret (mk (nibble w 4) 0 0 (w .& 0xF) 0 0, r)
  else if comp_type =? CompareRegisterValueType.RegisterRelAddr then
    '(a, r) ← rel_address_of vm w 0xF r; mret (mk main (nibble w 4) 0 0 a 0, r)
  else if comp_type =? CompareRegisterValueType.RegisterOfsReg then
    mret (mk main (nibble w 4) 0 (w .& 0xF) 0 0, r)
  else mret (mk main 0 0 0 0 0, r).

Definition decode_DebugLog (vm : DmntCheatVm) (w : Z) : decoder := fun r =>
  let val_type := nibble w 8 in
  let mk := DebugLogOpcode (nibble w 16) (nibble w 12) val_type in
  let main := MemoryAccessType.MainNso in
  if val_type =? DebugLogValueType.RegisterValue then mret (mk main 0 (nibble w 4) 0 0, r)
  else if val_type =? DebugLogValueType.MemoryRelAddr then
    '(a, r) ← rel_address_of vm w 0xF r; mret (mk (nibble w 4) 0 0 0 a, r)
  else if val_type =? DebugLogValueType.MemoryOfsReg then
    mret (mk (nibble w 4) 0 0 (w .& 0xF) 0, r)
  else if val_type =? DebugLogValueType.RegisterRelAddr then
    '(a, r) ← rel_address_of vm w 0xF r; mret (mk main (nibble w 4) 0 0 a, r)
  else if val_type =? DebugLogValueType.RegisterOfsReg then
    mret (mk main (nibble w 4) 0 (w .& 0xF) 0, r)
  else mret (mk main 0 0 0 0, r).

Section Machine.

(** [(u64(GetNextDword()) << 32) | GetNextDword()] leaves the order of its two calls to the
    compiler; [left_first] is the compiler's choice. *)
Variable left_first : bool.

Definition GetTwoDwords (vm : DmntCheatVm) (r : reader) : outcome (Z * reader) :=
  '(a, r) ← GetNextDword vm r;
  '(b, r) ← GetNextDword vm r;
  mret (if left_first then (a .<< 32) .| b else (b .<< 32) .| a, r).

Definition decode_body (vm : DmntCheatVm) (w : Z) : decoder := fun r =>
  let t := opcode_type w in
  if t =? CheatVmOpcodeType.StoreStatic then
    '(a, r) ← rel_address_of vm w 0xFF r;
    '(v, r) ← GetNextVmInt vm (nibble w 24) r;
    mret (StoreStaticOpcode (nibble w 24) (nibble w 20) (nibble w 16) a v, r)
  else if t =? CheatVmOpcodeType.BeginConditionalBlock then
    '(a, r) ← rel_address_of vm w 0xFF r;
    '(v, r) ← GetNextVmInt vm (nibble w 24) r;
    mret (BeginConditionalOpcode (nibble w 24) (nibble w 20) (nibble w 16) a v, r)
  else if t =? CheatVmOpcodeType.EndConditionalBlock then
    mret (EndConditionalOpcode (nibble w 24 =? 1), r)
  else if t =? CheatVmOpcodeType.ControlLoop then
    if nibble w 24 =? 0 then
      '(n, r) ← GetNextDword vm r; mret (ControlLoopOpcode true (nibble w 20) n, r)
    else mret (ControlLoopOpcode false (nibble w 20) 0, r)
  else if t =? CheatVmOpcodeType.LoadRegisterStatic then
    '(v, r) ← GetTwoDwords vm r; mret (LoadRegisterStaticOpcode (nibble w 16) v, r)
  else if t =? CheatVmOpcodeType.LoadRegisterMemory then
    '(a, r) ← rel_address_of vm w 0xFF r;
    mret (LoadRegisterMemoryOpcode (nibble w 24) (nibble w 20) (nibble w 16)
            (negb (nibble w 12 =? 0)) a, r)
  else if t =? CheatVmOpcodeType.StoreStaticToAddress then
    '(v, r) ← GetTwoDwords vm r;
    mret (StoreStaticToAddressOpcode (nibble w 24) (nibble w 16) (negb (nibble w 12 =? 0))
            (negb (nibble w 8 =? 0)) (nibble w 4) v, r)
  else if t =? CheatVmOpcodeType.PerformArithmeticStatic then
    '(v, r) ← GetNextDword vm r;
    mret (PerformArithmeticStaticOpcode (nibble w 24) (nibble w 16) (nibble w 12) v, r)
  else if t =? CheatVmOpcodeType.BeginKeypressConditionalBlock then
    mret (BeginKeypressConditionalOpcode (w .& 0x0FFFFFFF), r)
  else if t =? CheatVmOpcodeType.PerformArithmeticRegister then
    let mk := PerformArithmeticRegisterOpcode (nibble w 24) (nibble w 20) (nibble w 16) (nibble w 12) in
    if negb (nibble w 8 =? 0) then
      '(v, r) ← GetNextVmInt vm (nibble w 24) r; mret (mk 0 true v, r)
    else mret (mk (nibble w 4) false 0, r)
  else if t =? CheatVmOpcodeType.StoreRegisterToAddress then decode_StoreRegisterToAddress vm w r
  else if t =? CheatVmOpcodeType.BeginRegisterConditionalBlock then
    decode_BeginRegisterConditional vm w r
  else if t =? CheatVmOpcodeType.SaveRestoreRegister then
    mret (SaveRestoreRegisterOpcode (nibble w 16) (nibble w 8) (nibble w 4), r)
  else if t =? CheatVmOpcodeType.SaveRestoreRegisterMask then
    mret (SaveRestoreRegisterMaskOpcode (nibble w 20)
            (map (fun i => negb ((w .& (1 .<< Z.of_nat i)) =? 0)) (seq 0 (Z.to_nat NumRegisters))), r)
  else if t =? CheatVmOpcodeType.ReadWriteStaticRegister then
    mret (ReadWriteStaticRegisterOpcode ((w .>> 4) .& 0xFF) (w .& 0xF), r)
  else if t =? CheatVmOpcodeType.PauseProcess then mret (PauseProcessOpcode, r)
  else if t =? CheatVmOpcodeType.ResumeProcess then mret (ResumeProcessOpcode, r)
  else if t =? CheatVmOpcodeType.DebugLog then decode_DebugLog vm w r
  else mret (UnrecognizedInstruction t, mkReader (rd_ip r) false).

(** The opcode is handed out only when the decoding succeeded. *)
Definition DecodeNextOpcode (vm : DmntCheatVm) : outcome (option CheatVmOpcode * DmntCheatVm) :=
  let finish (r : reader) (op : CheatVmOpcode) :=
    (if rd_valid r then Some op else None,
     with_decode (rd_ip r) (decode_success vm && rd_valid r) vm) in
  '(w, r) ← GetNextDword vm (mkReader (instruction_ptr vm) (decode_success vm));
  if negb (rd_valid r) then mret (None, with_decode (rd_ip r) (decode_success vm && rd_valid r) vm)
  else
    '(op, r) ← decode_body vm w r;
    mret (finish r (mkOpcode (begins_conditional (opcode_type w)) op)).

(** ** Skipping a conditional block *)

Fixpoint skip_loop (fuel : nat) (is_if : bool) (desired_depth : Z) (vm : DmntCheatVm) :
    outcome DmntCheatVm :=
  if negb (desired_depth <? condition_depth vm) then mret vm
  else
    match fuel with
    | O => Undef
    | S fuel' =>
        '(op, vm) ← DecodeNextOpcode vm;
        match op with
        | None => mret vm
        | Some op =>
            if begin_conditional_block op then
              skip_loop fuel' is_if desired_depth (with_depth (u64 (condition_depth vm + 1)) vm)
            else
              match opcode op with
              | EndConditionalOpcode is_else =>
                  if negb is_else then
                    skip_loop fuel' is_if desired_depth (with_depth (u64 (condition_depth vm - 1)) vm)
                  else if is_if && (u64 (condition_depth vm - 1) =? desired_depth) then mret vm
                  else skip_loop fuel' is_if desired_depth vm
              | _ => skip_loop fuel' is_if desired_depth vm
              end
        end
    end.

(** Every round reads at least one word, so one more round than there are words is enough.
    [UNREACHABLE_MSG] ends the emulator. *)
Definition SkipConditionalBlock (is_if : bool) (vm : DmntCheatVm) : outcome DmntCheatVm :=
  if 0 <? condition_depth vm then
    skip_loop (S (Z.to_nat (num_opcodes vm - instruction_ptr vm))) is_if (condition_depth vm - 1) vm
  else Undef.

End Machine.

(** ** Execution *)

Record MemoryRegionExtents := mkExtents { base : Z; size : Z }.

Record CheatProcessMetadata := mkMetadata {
  process_id : Z;
  title_id : Z;
  main_nso_extents : MemoryRegionExtents;
  heap_extents : MemoryRegionExtents;
  alias_extents : MemoryRegionExtents;
  aslr_extents : MemoryRegionExtents;
  main_nso_build_id : list Z
}.

Definition GetVmInt (value : VmInt) (bit_width : Z) : Z :=
  if bit_width =? 1 then u8 value
  else if bit_width =? 2 then u16 value
  else if bit_width =? 4 then u32 value
  else if bit_width =? 8 then u64 value
  else 0.

Definition GetCheatProcessAddress (metadata : CheatProcessMetadata) (mem_type rel_address : Z) : Z :=
  let region :=
    if mem_type =? MemoryAccessType.Heap then heap_extents metadata
    else if mem_type =? MemoryAccessType.Alias then alias_extents metadata
    else if mem_type =? MemoryAccessType.Aslr then aslr_extents metadata
    else main_nso_extents metadata in
  u64 (base region + rel_address).

Definition ResetState (vm : DmntCheatVm) : DmntCheatVm :=
  mkVm (num_opcodes vm) 0 0 true (program vm)
    (replicate (length (registers vm)) 0) (replicate (length (saved_values vm)) 0)
    (static_registers vm) (replicate (length (loop_tops vm)) 0).

Record CheatDefinition := mkDefinition {
  readable_name : list Z;
  def_num_opcodes : Z;
  opcodes : list Z
}.
Record CheatEntry := mkEntry { enabled : bool; cheat_id : Z; definition : CheatDefinition }.

(** [for (n = 0; n < num_opcodes; n++) program[num_opcodes++] = opcodes[n]]. *)
Fixpoint load_words (k : nat) (n : Z) (d : CheatDefinition) (num : Z) (prog : list Z) :
    outcome (Z * list Z) :=
  match k with
  | O => mret (num, prog)
  | S k' =>
      w ← arr_get (opcodes d) n;
      prog ← arr_set prog num w;
      load_words k' (n + 1) d (num + 1) prog
  end.

Fixpoint load_entries (es : list CheatEntry) (num : Z) (prog : list Z) :
    outcome (bool * Z * list Z) :=
  match es with
  | [] => mret (true, num, prog)
  | e :: r =>
      if enabled e then
        if MaximumProgramOpcodeCount <? def_num_opcodes (definition e) + num
        then mret (false, 0, prog)
        else
          '(num, prog) ← load_words (Z.to_nat (def_num_opcodes (definition e))) 0 (definition e) num prog;
          load_entries r num prog
      else load_entries r num prog
  end.

Definition LoadProgram (vm : DmntCheatVm) (entries : list CheatEntry) :
    outcome (bool * DmntCheatVm) :=
  '(ok, num, prog) ← load_entries entries 0 (program vm);
  mret (ok, mkVm num (instruction_ptr vm) (condition_depth vm) (decode_success vm) prog
              (registers vm) (saved_values vm) (static_registers vm) (loop_tops vm)).

(** What the machine asks of the emulator.  A read answers the bytes as a little-endian number,
    a write gets the bytes of the value the same way. *)
Class Callbacks (E : Type) := {
  MemoryReadUnsafe : Z -> Z -> E -> Z * E;
  MemoryWriteUnsafe : Z -> Z -> Z -> E -> E;
  HidKeysDown : E -> Z * E;
  cb_PauseProcess : E -> E;
  cb_ResumeProcess : E -> E;
  cb_DebugLog : Z -> Z -> E -> E
}.

Definition valid_width (bit_width : Z) : bool :=
  (bit_width =? 1) || (bit_width =? 2) || (bit_width =? 4) || (bit_width =? 8).

(** Overwriting the first [n] bytes of a 64-bit variable. *)
Definition set_low_bytes (n old v : Z) : Z :=
  (old .& notu 64 (Z.ones (8 * n))) .| wrapu (8 * n) v.

(** [static_cast<u8>(x)] and so on; another width leaves the value alone. *)
Definition apply_width (bit_width x : Z) : Z :=
  if bit_width =? 1 then u8 x
  else if bit_width =? 2 then u16 x
  else if bit_width =? 4 then u32 x
  else if bit_width =? 8 then u64 x
  else x.

(** [static_cast<u8>(x & 0xFF)] and so on; another width gives 0. *)
Definition masked (bit_width x : Z) : Z :=
  if bit_width =? 1 then u8 (x .& 0xFF)
  else if bit_width =? 2 then u16 (x .& 0xFFFF)
  else if bit_width =? 4 then u32 (x .& 0xFFFFFFFF)
  else if bit_width =? 8 then u64 (x .& 0xFFFFFFFFFFFFFFFF)
  else 0.

Definition cond_met (cond_type src_value cond_value : Z) : bool :=
  if cond_type =? ConditionalComparisonType.GT then cond_value <? src_value
  else if cond_type =? ConditionalComparisonType.GE then cond_value <=? src_value
  else if cond_type =? ConditionalComparisonType.LT then src_value <? cond_value
  else if cond_type =? ConditionalComparisonType.LE then src_value <=? cond_value
  else if cond_type =? ConditionalComparisonType.EQ then src_value =? cond_value
  else if cond_type =? ConditionalComparisonType.NE then negb (src_value =? cond_value)
  else false.

Definition static_math (math_type x value : Z) : outcome Z :=
  if math_type =? RegisterArithmeticType.Addition then mret (u64 (x + value))
  else if math_type =? RegisterArithmeticType.Subtraction then mret (u64 (x - value))
  else if math_type =? RegisterArithmeticType.Multiplication then mret (u64 (x * value))
  else if math_type =? RegisterArithmeticType.LeftShift then shl64 x value
  else if math_type =? RegisterArithmeticType.RightShift then shr64 x value
  else mret x.

Definition register_math (math_type x y : Z) : outcome Z :=
  if math_type =? RegisterArithmeticType.Addition then mret (u64 (x + y))
  else if math_type =? RegisterArithmeticType.Subtraction then mret (u64 (x - y))
  else if math_type =? RegisterArithmeticType.Multiplication then mret (u64 (x * y))
  else if math_type =? RegisterArithmeticType.LeftShift then shl64 x y
  else if math_type =? RegisterArithmeticType.RightShift then shr64 x y
  else if math_type =? RegisterArithmeticType.LogicalAnd then mret (x .& y)
  else if math_type =? RegisterArithmeticType.LogicalOr then mret (x .| y)
  else if math_type =? RegisterArithmeticType.LogicalNot then mret (notu 64 x)
  else if math_type =? RegisterArithmeticType.LogicalXor then mret (x .^ y)
  else if math_type =? RegisterArithmeticType.None_ then mret x
  else mret 0.

(** The loop over the register mask: [dst[i] = 0] or [dst[i] = src[i]] where the mask says so. *)
Fixpoint mask_loop (op_type : Z) (i : Z) (mask : list bool) (src dst : list Z) : outcome (list Z) :=
  match mask with
  | [] => mret dst
  | operate :: r =>
      dst ← (if operate : bool then
               if (op_type =? SaveRestoreRegisterOpType.ClearSaved) ||
                  (op_type =? SaveRestoreRegisterOpType.ClearRegs)
               then arr_set dst i 0
               else v ← arr_get src i; arr_set dst i v
             else mret dst);
      mask_loop op_type (i + 1) r src dst
  end.

Section Execution.

Context {E : Type} `{!Callbacks E}.
Variable left_first : bool.
Variable metadata : CheatProcessMetadata.
Variable kDown : Z.

Notation state := (DmntCheatVm * E)%type.

Definition write_memory (bit_width address value : Z) (e : E) : E :=
  if valid_width bit_width then MemoryWriteUnsafe address value bit_width e else e.

(** Reading into a 64-bit variable that holds [old]. *)
Definition read_memory (bit_width address old : Z) (e : E) : Z * E :=
  if valid_width bit_width then
    let '(v, e) := MemoryReadUnsafe address bit_width e in (set_low_bytes bit_width old v, e)
  else (old, e).

Definition skip_unless (met : bool) (vm : DmntCheatVm) : outcome DmntCheatVm :=
  if met then mret vm else SkipConditionalBlock left_first true vm.

Definition exec_BeginConditional (bit_width mem_type cond_type rel_address : Z) (value : VmInt)
    (vm : DmntCheatVm) (e : E) : outcome state :=
  let '(src_value, e) :=
    read_memory bit_width (GetCheatProcessAddress metadata mem_type rel_address) 0 e in
  vm ← skip_unless (cond_met cond_type src_value (GetVmInt value bit_width)) vm;
  mret (vm, e).

Definition exec_ControlLoop (start_loop : bool) (reg_index num_iters : Z) (vm : DmntCheatVm)
    (e : E) : outcome state :=
  if start_loop then
    regs ← arr_set (registers vm) reg_index num_iters;
    tops ← arr_set (loop_tops vm) reg_index (instruction_ptr vm);
    mret (with_loop_tops tops (with_registers regs vm), e)
  else
    x ← arr_get (registers vm) reg_index;
    regs ← arr_set (registers vm) reg_index (u64 (x - 1));
    let vm := with_registers regs vm in
    if negb (u64 (x - 1) =? 0) then
      top ← arr_get (loop_tops vm) reg_index; mret (with_ip top vm, e)
    else mret (vm, e).

Definition exec_LoadRegisterMemory (bit_width mem_type reg_index : Z) (load_from_reg : bool)
    (rel_address : Z) (vm : DmntCheatVm) (e : E) : outcome state :=
  x ← arr_get (registers vm) reg_index;
  let src_address := if load_from_reg then u64 (x + rel_address)
                     else GetCheatProcessAddress metadata mem_type rel_address in
  let '(v, e) := read_memory bit_width src_address x e in
  regs ← arr_set (registers vm) reg_index v;
  mret (with_registers regs vm, e).

Definition increment (inc : bool) (reg_index bit_width : Z) (vm : DmntCheatVm) : outcome DmntCheatVm :=
  if inc then
    x ← arr_get (registers vm) reg_index;
    regs ← arr_set (registers vm) reg_index (u64 (x + bit_width));
    mret (with_registers regs vm)
  else mret vm.

Definition exec_StoreStaticToAddress (bit_width reg_index : Z) (increment_reg add_offset_reg : bool)
    (offset_reg_index value : Z) (vm : DmntCheatVm) (e : E) : outcome state :=
  x ← arr_get (registers vm) reg_index;
  dst_address ← (if add_offset_reg then
                   o ← arr_get (registers vm) offset_reg_index; mret (u64 (x + o))
                 else mret x);
  let e := write_memory bit_width dst_address value e in
  vm ← increment increment_reg reg_index bit_width vm;
  mret (vm, e).

Definition exec_PerformArithmeticStatic (bit_width reg_index math_type value : Z)
    (vm : DmntCheatVm) (e : E) : outcome state :=
  x ← arr_get (registers vm) reg_index;
  v ← static_math math_type x value;
  regs ← arr_set (registers vm) reg_index (apply_width bit_width v);
  mret (with_registers regs vm, e).

Definition exec_PerformArithmeticRegister (bit_width math_type dst_reg_index src_reg_1_index
    src_reg_2_index : Z) (has_immediate : bool) (value : VmInt) (vm : DmntCheatVm) (e : E) :
    outcome state :=
  x ← arr_get (registers vm) src_reg_1_index;
  y ← (if has_immediate then mret (GetVmInt value bit_width)
       else arr_get (registers vm) src_reg_2_index);
  v ← register_math math_type x y;
  regs ← arr_set (registers vm) dst_reg_index (apply_width bit_width v);
  mret (with_registers regs vm, e).

Definition exec_StoreRegisterToAddress (bit_width str_reg_index addr_reg_index : Z)
    (increment_reg : bool) (ofs_type mem_type ofs_reg_index rel_address : Z) (vm : DmntCheatVm)
    (e : E) : outcome state :=
  dst_value ← arr_get (registers vm) str_reg_index;
  a ← arr_get (registers vm) addr_reg_index;
  dst_address ←
    (if ofs_type =? StoreRegisterOffsetType.Reg then
       o ← arr_get (registers vm) ofs_reg_index; mret (u64 (a + o))
     else if ofs_type =? StoreRegisterOffsetType.Imm then mret (u64 (a + rel_address))
     else if ofs_type =? StoreRegisterOffsetType.MemReg then
       mret (GetCheatProcessAddress metadata mem_type a)
     else if ofs_type =? StoreRegisterOffsetType.MemImm then
       mret (GetCheatProcessAddress metadata mem_type rel_address)
     else if ofs_type =? StoreRegisterOffsetType.MemImmReg then
       mret (GetCheatProcessAddress metadata mem_type (u64 (a + rel_address)))
     else mret a);
  let e := write_memory bit_width dst_address dst_value e in
  vm ← increment increment_reg addr_reg_index bit_width vm;
  mret (vm, e).

(** The address a compare or log operand of kind 0 to 3 names, 0 for another kind. *)
Definition operand_address (type mem_type addr_reg_index ofs_reg_index rel_address : Z)
    (vm : DmntCheatVm) : outcome Z :=
  if type =? CompareRegisterValueType.MemoryRelAddr then
    mret (GetCheatProcessAddress metadata mem_type rel_address)
  else if type =? CompareRegisterValueType.MemoryOfsReg then
    o ← arr_get (registers vm) ofs_reg_index; mret (GetCheatProcessAddress metadata mem_type o)
  else if type =? CompareRegisterValueType.RegisterRelAddr then
    a ← arr_get (registers vm) addr_reg_index; mret (u64 (a + rel_address))
  else if type =? CompareRegisterValueType.RegisterOfsReg then
    a ← arr_get (registers vm) addr_reg_index;
    o ← arr_get (registers vm) ofs_reg_index; mret (u64 (a + o))
  else mret 0.

Definition exec_BeginRegisterConditional (bit_width cond_type val_reg_index comp_type mem_type
    addr_reg_index other_reg_index ofs_reg_index rel_address : Z) (value : VmInt)
    (vm : DmntCheatVm) (e : E) : outcome state :=
  x ← arr_get (registers vm) val_reg_index;
  '(cond_value, e) ←
    (if comp_type =? CompareRegisterValueType.StaticValue then mret (GetVmInt value bit_width, e)
     else if comp_type =? CompareRegisterValueType.OtherRegister then
       y ← arr_get (registers vm) other_reg_index; mret (masked bit_width y, e)
     else
       a ← operand_address comp_type mem_type addr_reg_index ofs_reg_index rel_address vm;
       mret (read_memory bit_width a 0 e));
  vm ← skip_unless (cond_met cond_type (masked bit_width x) cond_value) vm;
  mret (vm, e).

Definition exec_SaveRestoreRegister (dst_index src_index op_type : Z) (vm : DmntCheatVm) (e : E) :
    outcome state :=
  if op_type =? SaveRestoreRegisterOpType.ClearRegs then
    regs ← arr_set (registers vm) dst_index 0; mret (with_registers regs vm, e)
  else if op_type =? SaveRestoreRegisterOpType.ClearSaved then
    saved ← arr_set (saved_values vm) dst_index 0; mret (with_saved saved vm, e)
  else if op_type =? SaveRestoreRegisterOpType.Save then
    x ← arr_get (registers vm) src_index;
    saved ← arr_set (saved_values vm) dst_index x; mret (with_saved saved vm, e)
  else
    x ← arr_get (saved_values vm) src_index;
    regs ← arr_set (registers vm) dst_index x; mret (with_registers regs vm, e).

Definition exec_SaveRestoreRegisterMask (op_type : Z) (should_operate : list bool)
    (vm : DmntCheatVm) (e : E) : outcome state :=
  if (op_type =? SaveRestoreRegisterOpType.ClearSaved) || (op_type =? SaveRestoreRegisterOpType.Save)
  then
    saved ← mask_loop op_type 0 should_operate (registers vm) (saved_values vm);
    mret (with_saved saved vm, e)
  else
    regs ← mask_loop op_type 0 should_operate (saved_values vm) (registers vm);
    mret (with_registers regs vm, e).

Definition exec_ReadWriteStaticRegister (static_idx idx : Z) (vm : DmntCheatVm) (e : E) :
    outcome state :=
  if static_idx <? NumReadableStaticRegisters then
    x ← arr_get (static_registers vm) static_idx;
    regs ← arr_set (registers vm) idx x; mret (with_registers regs vm, e)
  else
    x ← arr_get (registers vm) idx;
    statics ← arr_set (static_registers vm) static_idx x; mret (with_static statics vm, e).

Definition exec_DebugLog (bit_width log_id val_type mem_type addr_reg_index val_reg_index
    ofs_reg_index rel_address : Z) (vm : DmntCheatVm) (e : E) : outcome state :=
  '(log_value, e) ←
    (if val_type =? DebugLogValueType.RegisterValue then
       x ← arr_get (registers vm) val_reg_index; mret (masked bit_width x, e)
     else
       a ← operand_address val_type mem_type addr_reg_index ofs_reg_index rel_address vm;
       mret (read_memory bit_width a 0 e));
  mret (vm, cb_DebugLog (u8 log_id) log_value e).

Definition exec_opcode (op : Opcode) (vm : DmntCheatVm) (e : E) : outcome state :=
  match op with
  | StoreStaticOpcode bit_width mem_type offset_register rel_address value =>
      o ← arr_get (registers vm) offset_register;
      let dst_address := GetCheatProcessAddress metadata mem_type (u64 (rel_address + o)) in
      mret (vm, write_memory bit_width dst_address (GetVmInt value bit_width) e)
  | BeginConditionalOpcode bit_width mem_type cond_type rel_address value =>
      exec_BeginConditional bit_width mem_type cond_type rel_address value vm e
  | EndConditionalOpcode is_else =>
      if is_else then
        vm ← SkipConditionalBlock left_first false vm; mret (vm, e)
      else if 0 <? condition_depth vm then mret (with_depth (condition_depth vm - 1) vm, e)
      else mret (vm, e)
  | ControlLoopOpcode start_loop reg_index num_iters =>
      exec_ControlLoop start_loop reg_index num_iters vm e
  | LoadRegisterStaticOpcode reg_index value =>
      regs ← arr_set (registers vm) reg_index value; mret (with_registers regs vm, e)
  | LoadRegisterMemoryOpcode bit_width mem_type reg_index load_from_reg rel_address =>
      exec_LoadRegisterMemory bit_width mem_type reg_index load_from_reg rel_address vm e
  | StoreStaticToAddressOpcode bit_width reg_index increment_reg add_offset_reg offset_reg_index
      value =>
      exec_StoreStaticToAddress bit_width reg_index increment_reg add_offset_reg offset_reg_index
        value vm e
  | PerformArithmeticStaticOpcode bit_width reg_index math_type value =>
      exec_PerformArithmeticStatic bit_width reg_index math_type value vm e
  | BeginKeypressConditionalOpcode key_mask =>
      vm ← skip_unless ((key_mask .& kDown) =? key_mask) vm; mret (vm, e)
  | PerformArithmeticRegisterOpcode bit_width math_type dst src1 src2 has_immediate value =>
      exec_PerformArithmeticRegister bit_width math_type dst src1 src2 has_immediate value vm e
  | StoreRegisterToAddressOpcode bit_width str addr increment_reg ofs_type mem_type ofs rel_address =>
      exec_StoreRegisterToAddress bit_width str addr increment_reg ofs_type mem_type ofs rel_address
        vm e
  | BeginRegisterConditionalOpcode bit_width cond_type val comp_type mem_type addr other ofs
      rel_address value =>
      exec_BeginRegisterConditional bit_width cond_type val comp_type mem_type addr other ofs
        rel_address value vm e
  | SaveRestoreRegisterOpcode dst_index src_index op_type =>
      exec_SaveRestoreRegister dst_index src_index op_type vm e
  | SaveRestoreRegisterMaskOpcode op_type should_operate =>
      exec_SaveRestoreRegisterMask op_type should_operate vm e
  | ReadWriteStaticRegisterOpcode static_idx idx => exec_ReadWriteStaticRegister static_idx idx vm e
  | PauseProcessOpcode => mret (vm, cb_PauseProcess e)
  | ResumeProcessOpcode => mret (vm, cb_ResumeProcess e)
  | DebugLogOpcode bit_width log_id val_type mem_type addr val ofs rel_address =>
      exec_DebugLog bit_width log_id val_type mem_type addr val ofs rel_address vm e
  | UnrecognizedInstruction _ => mret (vm, e)
  end.

(** One round of the main loop; the boolean says whether an opcode could be decoded. *)
Definition Execute_step (vm : DmntCheatVm) (e : E) : outcome (bool * DmntCheatVm * E) :=
  '(op, vm) ← DecodeNextOpcode left_first vm;
  match op with
  | None => mret (false, vm, e)
  | Some op =>
      let vm := if begin_conditional_block op then with_depth (u64 (condition_depth vm + 1)) vm
                else vm in
      '(vm, e) ← exec_opcode (opcode op) vm e;
      mret (true, vm, e)
  end.

(** The main loop; a cheat may loop for ever, and [None] says the program still runs after [fuel]
    rounds. *)
Fixpoint Execute_loop (fuel : nat) (vm : DmntCheatVm) (e : E) : outcome (option state) :=
  match fuel with
  | O => mret None
  | S fuel' =>
      '(go_on, vm, e) ← Execute_step vm e;
      if go_on : bool then Execute_loop fuel' vm e else mret (Some (vm, e))
  end.

End Execution.

Definition Execute {E : Type} `{!Callbacks E} (left_first : bool) (fuel : nat)
    (metadata : CheatProcessMetadata) (vm : DmntCheatVm) (e : E) :
    outcome (option (DmntCheatVm * E)) :=
  let '(kDown, e) := HidKeysDown e in
  Execute_loop left_first metadata kDown fuel (ResetState vm) e.

(** ** The binary format *)

(** Eight nibbles as a word. *)
Definition word (n7 n6 n5 n4 n3 n2 n1 n0 : Z) : Z :=
  n7 * 2 ^ 28 + n6 * 2 ^ 24 + n5 * 2 ^ 20 + n4 * 2 ^ 16 + n3 * 2 ^ 12 + n2 * 2 ^ 8 + n1 * 2 ^ 4 + n0.

Definition flag (b : bool) : Z := if b then 1 else 0.
Definition high (v : Z) : Z := v / 2 ^ 32.
Definition low (v : Z) : Z := v mod 2 ^ 32.

(** A value of the given width: one word, or two for 64 bits. *)
Definition encode_int (bit_width value : Z) : list Z :=
  if bit_width =? 8 then [high value; low value] else [value].

Definition encode_pair (left_first : bool) (v : Z) : list Z :=
  if left_first then [high v; low v] else [low v; high v].

Fixpoint mask_value (l : list bool) : Z :=
  match l with [] => 0 | b :: r => flag b + 2 * mask_value r end.

(** The words that the decoder reads as an opcode: those of the comments in the decoder, except for the register of a loop and, when
    the right operand of [|] is evaluated first, the order of the halves of an immediate. *)
Definition encode (left_first : bool) (op : Opcode) : list Z :=
  match op with
  | StoreStaticOpcode t m r a v =>
      [word 0 t m r 0 0 (a / 2 ^ 36) (high a mod 16); low a] ++ encode_int t v
  | BeginConditionalOpcode t m c a v =>
      [word 1 t m c 0 0 (a / 2 ^ 36) (high a mod 16); low a] ++ encode_int t v
  | EndConditionalOpcode is_else => [word 2 (flag is_else) 0 0 0 0 0 0]
  | ControlLoopOpcode start r n =>
      if start then [word 3 0 r 0 0 0 0 0; n] else [word 3 1 r 0 0 0 0 0]
  | LoadRegisterStaticOpcode r v => word 4 0 0 r 0 0 0 0 :: encode_pair left_first v
  | LoadRegisterMemoryOpcode t m r i a =>
      [word 5 t m r (flag i) 0 (a / 2 ^ 36) (high a mod 16); low a]
  | StoreStaticToAddressOpcode t r i o x v =>
      word 6 t 0 r (flag i) (flag o) x 0 :: encode_pair left_first v
  | PerformArithmeticStaticOpcode t r c v => [word 7 t 0 r c 0 0 0; v]
  | BeginKeypressConditionalOpcode k => [8 * 2 ^ 28 + k]
  | PerformArithmeticRegisterOpcode t c d s1 s2 i v =>
      if i then word 9 t c d s1 1 0 0 :: encode_int t v else [word 9 t c d s1 0 s2 0]
  | StoreRegisterToAddressOpcode t s r i o m x a =>
      word 10 t s r (flag i) o x (high a) ::
        (if (o =? 2) || (o =? 4) || (o =? 5) then [low a] else [])
  | BeginRegisterConditionalOpcode t c s x m r o f a v =>
      if x =? 4 then word 12 0 t c s x 0 0 :: encode_int t v
      else if x =? 5 then [word 12 0 t c s x o 0]
      else if x =? 0 then [word 12 0 t c s x m (high a); low a]
      else if x =? 1 then [word 12 0 t c s x m f]
      else if x =? 2 then [word 12 0 t c s x r (high a); low a]
      else if x =? 3 then [word 12 0 t c s x r f]
      else [word 12 0 t c s x 0 0]
  | SaveRestoreRegisterOpcode d s x => [word 12 1 0 d 0 s x 0]
  | SaveRestoreRegisterMaskOpcode x l => [word 12 2 x 0 0 0 0 0 + mask_value l]
  | ReadWriteStaticRegisterOpcode s i => [word 12 3 0 0 0 (s / 16) (s mod 16) i]
  | PauseProcessOpcode => [word 15 15 0 0 0 0 0 0]
  | ResumeProcessOpcode => [word 15 15 1 0 0 0 0 0]
  | DebugLogOpcode t i x m r v f a =>
      if x =? 4 then [word 15 15 15 t i x v 0]
      else if x =? 0 then [word 15 15 15 t i x m (high a); low a]
      else if x =? 1 then [word 15 15 15 t i x m f]
      else if x =? 2 then [word 15 15 15 t i x r (high a); low a]
      else if x =? 3 then [word 15 15 15 t i x r f]
      else [word 15 15 15 t i x 0 0]
  | UnrecognizedInstruction _ => []
  end.

(** The words of an opcode, as the comments in the decoder give them. *)
Definition documented (op : Opcode) : list Z :=
  match op with
  | ControlLoopOpcode start r n => if start then [word 3 0 0 r 0 0 0 0; n] else [word 3 1 0 r 0 0 0 0]
  | _ => encode true op
  end.

(** What the decoder makes of them. *)
Definition as_decoded (left_first : bool) (op : Opcode) : Opcode :=
  let halves v := if left_first then v else low v * 2 ^ 32 + high v in
  match op with
  | ControlLoopOpcode start r n => ControlLoopOpcode start 0 n
  | LoadRegisterStaticOpcode r v => LoadRegisterStaticOpcode r (halves v)
  | StoreStaticToAddressOpcode t r i o x v => StoreStaticToAddressOpcode t r i o x (halves v)
  | _ => op
  end.

Notation nib n := (0 <= n < 16).

(** A value that fits its width; the machine reads 0 for a width that is none. *)
Definition int_ok (t v : Z) : Prop := if valid_width t then 0 <= v < 2 ^ (8 * t) else v = 0.

(** The opcodes the format can express: fields in range, and 0 in the fields a kind does not use. *)
Definition encodable (op : Opcode) : Prop :=
  match op with
  | StoreStaticOpcode t m r a v | BeginConditionalOpcode t m r a v =>
      nib t /\ nib m /\ nib r /\ 0 <= a < 2 ^ 40 /\ int_ok t v
  | EndConditionalOpcode _ => True
  | ControlLoopOpcode start r n => nib r /\ in_u 32 n /\ (start = false -> n = 0)
  | LoadRegisterStaticOpcode r v => nib r /\ in_u 64 v
  | LoadRegisterMemoryOpcode t m r _ a => nib t /\ nib m /\ nib r /\ 0 <= a < 2 ^ 40
  | StoreStaticToAddressOpcode t r _ _ x v => nib t /\ nib r /\ nib x /\ in_u 64 v
  | PerformArithmeticStaticOpcode t r c v => nib t /\ nib r /\ nib c /\ in_u 32 v
  | BeginKeypressConditionalOpcode k => in_u 28 k
  | PerformArithmeticRegisterOpcode t c d s1 s2 i v =>
      nib t /\ nib c /\ nib d /\ nib s1 /\ nib s2 /\
      (if i then s2 = 0 /\ int_ok t v else v = 0)
  | StoreRegisterToAddressOpcode t s r _ o m x a =>
      nib t /\ nib s /\ nib r /\ 0 <= o <= 5 /\ nib x /\
      m = (if 3 <=? o then x else 0) /\
      (if (o =? 2) || (o =? 4) || (o =? 5) then 0 <= a < 2 ^ 36 else a = 0)
  | BeginRegisterConditionalOpcode t c s x m r o f a v =>
      nib t /\ nib c /\ nib s /\ nib x /\ nib m /\ nib r /\ nib o /\ nib f /\ 0 <= a < 2 ^ 36 /\
      (x <> 4 -> v = 0) /\ (x = 4 -> int_ok t v) /\ (x <> 5 -> o = 0) /\
      (x <> 0 -> x <> 1 -> m = 0) /\ (x <> 2 -> x <> 3 -> r = 0) /\ (x <> 1 -> x <> 3 -> f = 0) /\
      (x <> 0 -> x <> 2 -> a = 0)
  | SaveRestoreRegisterOpcode d s x => nib d /\ nib s /\ nib x
  | SaveRestoreRegisterMaskOpcode x l => nib x /\ length l = 16%nat
  | ReadWriteStaticRegisterOpcode s i => 0 <= s < 256 /\ nib i
  | PauseProcessOpcode | ResumeProcessOpcode => True
  | DebugLogOpcode t i x m r v f a =>
      nib t /\ nib i /\ nib x /\ nib m /\ nib r /\ nib v /\ nib f /\ 0 <= a < 2 ^ 36 /\
      (x <> 4 -> v = 0) /\ (x <> 0 -> x <> 1 -> m = 0) /\ (x <> 2 -> x <> 3 -> r = 0) /\
      (x <> 1 -> x <> 3 -> f = 0) /\ (x <> 0 -> x <> 2 -> a = 0)
  | UnrecognizedInstruction _ => False
  end.

Lemma nibble_div w pos : 0 <= pos -> nibble w pos = (w / 2 ^ pos) mod 16.
Proof.
  intros. unfold nibble. change 0xF with (Z.ones 4). rewrite Z.land_ones by lia.
  by rewrite Z.shiftr_div_pow2.
Qed.

Section Nibbles.
Context (n7 n6 n5 n4 n3 n2 n1 n0 : Z).
Hypotheses (H7 : nib n7) (H6 : nib n6) (H5 : nib n5) (H4 : nib n4) (H3 : nib n3) (H2 : nib n2)
  (H1 : nib n1) (H0 : nib n0).
Notation w := (word n7 n6 n5 n4 n3 n2 n1 n0).

Lemma nibble_28 : nibble w 28 = n7.
Proof. rewrite nibble_div by lia. unfold word. Z.div_mod_to_equations. lia. Qed.
Lemma nibble_24 : nibble w 24 = n6.
Proof. rewrite nibble_div by lia. unfold word. Z.div_mod_to_equations. lia. Qed.
Lemma nibble_20 : nibble w 20 = n5.
Proof. rewrite nibble_div by lia. unfold word. Z.div_mod_to_equations. lia. Qed.
Lemma nibble_16 : nibble w 16 = n4.
Proof. rewrite nibble_div by lia. unfold word. Z.div_mod_to_equations. lia. Qed.
Lemma nibble_12 : nibble w 12 = n3.
Proof. rewrite nibble_div by lia. unfold word. Z.div_mod_to_equations. lia. Qed.
Lemma nibble_8 : nibble w 8 = n2.
Proof. rewrite nibble_div by lia. unfold word. Z.div_mod_to_equations. lia. Qed.
Lemma nibble_4 : nibble w 4 = n1.
Proof. rewrite nibble_div by lia. unfold word. Z.div_mod_to_equations. lia. Qed.
Lemma low_nibble : w .& 0xF = n0.
Proof.
  change 0xF with (Z.ones 4). rewrite Z.land_ones by lia. unfold word.
  Z.div_mod_to_equations. lia.
Qed.
Lemma low_byte : w .& 0xFF = n1 * 16 + n0.
Proof.
  change 0xFF with (Z.ones 8). rewrite Z.land_ones by lia. unfold word.
  Z.div_mod_to_equations. lia.
Qed.
Lemma middle_byte : (w .>> 4) .& 0xFF = n2 * 16 + n1.
Proof.
  change 0xFF with (Z.ones 8). rewrite Z.land_ones, Z.shiftr_div_pow2 by lia. unfold word.
  Z.div_mod_to_equations. lia.
Qed.
End Nibbles.

Lemma join_words h l : in_u 32 l -> (h .<< 32) .| l = h * 2 ^ 32 + l.
Proof.
  intros Hl. rewrite Z.shiftl_mul_pow2 by lia. symmetry.
  assert (Hd : (h * 2 ^ 32) .& l = 0).
  { apply Z.bits_inj'. intros i Hi. rewrite Z.land_spec, Z.bits_0.
    destruct (Z_lt_le_dec i 32).
    - by rewrite Z.mul_pow2_bits_low by lia.
    - by rewrite (testbit_above 32 l i), andb_false_r by (done || lia). }
  rewrite Z.add_nocarry_lxor by done. by apply Z.lxor_lor.
Qed.

Lemma low_range v : in_u 32 (low v).
Proof. unfold low, in_u. apply Z.mod_pos_bound. lia. Qed.

Lemma join_high_low v : (high v .<< 32) .| low v = v.
Proof. rewrite join_words by apply low_range. unfold high, low. Z.div_mod_to_equations. lia. Qed.

(** The words of a list lie at an address of the program. *)
Fixpoint words_at (vm : DmntCheatVm) (ip : Z) (ws : list Z) : Prop :=
  match ws with
  | [] => True
  | w :: r => (0 <= ip < num_opcodes vm /\ program vm !! Z.to_nat ip = Some w) /\ words_at vm (ip + 1) r
  end.

Lemma words_at_app vm ip ws ws' :
  words_at vm ip (ws ++ ws') <-> words_at vm ip ws /\ words_at vm (ip + Z.of_nat (length ws)) ws'.
Proof.
  revert ip. induction ws as [|w ws IH]; intros ip; cbn [words_at app length].
  - rewrite Z.add_0_r. tauto.
  - rewrite IH. replace (ip + 1 + Z.of_nat (length ws)) with (ip + Z.of_nat (S (length ws))) by lia.
    tauto.
Qed.

Lemma words_at_bound vm ip ws :
  words_at vm ip ws -> 0 <= num_opcodes vm - ip -> ip + Z.of_nat (length ws) <= num_opcodes vm.
Proof.
  revert ip. induction ws as [|w ws IH]; intros ip; cbn [words_at length]; [lia|].
  intros [[H _] H'] _. specialize (IH _ H'). lia.
Qed.

(** The arrays of the machine have their sizes and hold values of their widths. *)
Record vm_wf (vm : DmntCheatVm) : Prop := {
  wf_count : 0 <= num_opcodes vm <= 0x400;
  wf_ip : 0 <= instruction_ptr vm <= 0x400;
  wf_depth : 0 <= condition_depth vm;
  wf_program : length (program vm) = 1024%nat /\ Forall (in_u 32) (program vm);
  wf_registers : length (registers vm) = 16%nat /\ Forall (in_u 64) (registers vm);
  wf_saved : length (saved_values vm) = 16%nat /\ Forall (in_u 64) (saved_values vm);
  wf_static : length (static_registers vm) = 256%nat /\ Forall (in_u 64) (static_registers vm);
  wf_tops : length (loop_tops vm) = 16%nat /\ Forall (fun x => 0 <= x <= 0x400) (loop_tops vm)
}.

Section Reading.
Context (vm : DmntCheatVm) (Hcount : num_opcodes vm <= 0x400).

Lemma GetNextDword_ok ip ok w ws :
  words_at vm ip (w :: ws) ->
  GetNextDword vm (mkReader ip ok) = mret (w, mkReader (ip + 1) ok).
Proof using Hcount.
  intros [[Hip Hw] _]. unfold GetNextDword. cbn [rd_ip rd_valid].
  rewrite (proj2 (Z.leb_gt _ ip)) by lia. rewrite (arr_get_Some _ _ w) by (lia || done).
  ostep. by rewrite u64_small by (unfold in_u; lia).
Qed.

Lemma rel_address_ok ip ok first mask h a ws :
  words_at vm ip (low a :: ws) -> first .& mask = high a -> h = a ->
  rel_address_of vm first mask (mkReader ip ok) = mret (h, mkReader (ip + 1) ok).
Proof using Hcount.
  intros Hw Hm ->. unfold rel_address_of. rewrite (GetNextDword_ok _ _ _ _ Hw). ostep. cbn.
  rewrite Hm. by rewrite join_high_low.
Qed.

Lemma GetNextVmInt_ok ip ok t v ws :
  int_ok t v -> words_at vm ip (encode_int t v ++ ws) ->
  GetNextVmInt vm t (mkReader ip ok) =
    mret (v, mkReader (ip + Z.of_nat (length (encode_int t v))) ok).
Proof using Hcount.
  unfold GetNextVmInt, int_ok, encode_int, valid_width. intros Hv Hw.
  destruct (Z.eqb_spec t 8) as [->|H8].
  - change (valid_width 8) with true in Hv. cbn [app] in Hw.
    rewrite (GetNextDword_ok _ _ _ _ Hw). ostep. cbn -[mbind outcome_mbind].
    rewrite (GetNextDword_ok _ _ (low v) ws) by apply Hw. ostep. cbn. rewrite join_high_low.
    do 2 f_equal. f_equal. lia.
  - rewrite (GetNextDword_ok _ _ v ws) by done. ostep. cbn [length].
    destruct (Z.eqb_spec t 1) as [->|]; [|destruct (Z.eqb_spec t 2) as [->|];
      [|destruct (Z.eqb_spec t 4) as [->|]]]; cbn in Hv; cbn [Z.eqb Pos.eqb]; try done.
    + unfold u8. by rewrite (wrapu_small 8 v).
    + unfold u16. by rewrite (wrapu_small 16 v).
    + subst v. done.
Qed.

End Reading.

(** Deciding the comparisons of constants a case distinction starts with. *)
Ltac pick_case :=
  cbv zeta;
  repeat match goal with
  | |- (if ?c =? ?d then _ else _) = _ =>
      lazymatch c with nibble _ _ => fail | _ => idtac end;
      let b := eval vm_compute in (c =? d) in
      lazymatch b with
      | true => change (c =? d) with true
      | false => change (c =? d) with false
      end; cbv beta iota
  end.

Lemma opcode_type_short n7 n6 n5 n4 n3 n2 n1 n0 :
  0 <= n7 < 12 -> nib n6 -> nib n5 -> nib n4 -> nib n3 -> nib n2 -> nib n1 -> nib n0 ->
  opcode_type (word n7 n6 n5 n4 n3 n2 n1 n0) = n7.
Proof.
  intros. unfold opcode_type. rewrite nibble_28 by lia.
  rewrite (proj2 (Z.leb_gt _ n7)) by (unfold CheatVmOpcodeType.ExtendedWidth; lia).
  by rewrite (proj2 (Z.leb_gt _ n7)) by (unfold CheatVmOpcodeType.DoubleExtendedWidth; lia).
Qed.

Lemma opcode_type_extended n6 n5 n4 n3 n2 n1 n0 :
  nib n6 -> nib n5 -> nib n4 -> nib n3 -> nib n2 -> nib n1 -> nib n0 ->
  opcode_type (word 12 n6 n5 n4 n3 n2 n1 n0) = 0xC0 + n6.
Proof.
  intros. unfold opcode_type. rewrite nibble_28, nibble_24 by lia.
  change (CheatVmOpcodeType.ExtendedWidth <=? 12) with true. cbv iota.
  assert (Hin : In n6 [0; 1; 2; 3; 4; 5; 6; 7; 8; 9; 10; 11; 12; 13; 14; 15]) by (simpl; lia).
  simpl in Hin. by repeat (destruct Hin as [<-|Hin]; [done|]).
Qed.

Lemma opcode_type_double n5 n4 n3 n2 n1 n0 :
  nib n5 -> nib n4 -> nib n3 -> nib n2 -> nib n1 -> nib n0 ->
  opcode_type (word 15 15 n5 n4 n3 n2 n1 n0) = 0xFF0 + n5.
Proof.
  intros. unfold opcode_type. rewrite nibble_28, nibble_24, nibble_20 by lia.
  assert (Hin : In n5 [0; 1; 2; 3; 4; 5; 6; 7; 8; 9; 10; 11; 12; 13; 14; 15]) by (simpl; lia).
  simpl in Hin. by repeat (destruct Hin as [<-|Hin]; [done|]).
Qed.

Lemma flag_nib b : nib (flag b).
Proof. destruct b; simpl; lia. Qed.

Lemma cheat_flag_test b : negb (flag b =? 0) = b.
Proof. by destruct b. Qed.

Lemma address_40 a : 0 <= a < 2 ^ 40 ->
  nib (a / 2 ^ 36) /\ nib (high a mod 16) /\ a / 2 ^ 36 * 16 + high a mod 16 = high a.
Proof. intros. unfold high. Z.div_mod_to_equations. lia. Qed.

Lemma address_36 a : 0 <= a < 2 ^ 36 -> nib (high a).
Proof. intros. unfold high. Z.div_mod_to_equations. lia. Qed.

(** The nibbles of a word whose fields are in range. *)
Ltac nibbles :=
  rewrite ?nibble_28, ?nibble_24, ?nibble_20, ?nibble_16, ?nibble_12, ?nibble_8, ?nibble_4,
    ?low_nibble, ?cheat_flag_test by lia.

Lemma mask_value_range l : 0 <= mask_value l < 2 ^ Z.of_nat (length l).
Proof.
  induction l as [|b l IH]; cbn [mask_value length]; [done|].
  rewrite Nat2Z.inj_succ, Z.pow_succ_r by lia. destruct b; simpl; lia.
Qed.

Lemma mask_value_bits l w :
  (forall i, (i < length l)%nat -> Z.testbit w (Z.of_nat i) = Z.testbit (mask_value l) (Z.of_nat i)) ->
  map (fun i => negb ((w .& (1 .<< Z.of_nat i)) =? 0)) (seq 0 (length l)) = l.
Proof.
  intros H. apply list_eq. intros i. rewrite list_lookup_fmap.
  destruct (decide (i < length l)%nat) as [Hi|Hi].
  - rewrite lookup_seq_lt by done. cbn [fmap option_fmap option_map]. rewrite Nat.add_0_l.
    destruct (lookup_lt_is_Some_2 l i Hi) as [b Hb]. rewrite Hb. f_equal.
    assert (Hbit : Z.testbit w (Z.of_nat i) = b).
    { rewrite H by done. clear H Hi w. revert i Hb. induction l as [|x l IH]; intros i Hb; [done|].
      cbn [mask_value]. destruct i as [|i].
      - injection Hb as ->. rewrite Z.add_comm. change (flag b) with (Z.b2z b). apply Z.testbit_0_r.
      - rewrite Nat2Z.inj_succ, Z.add_comm. change (flag x) with (Z.b2z x).
        rewrite Z.testbit_succ_r by lia. by apply IH. }
    rewrite <- Hbit. destruct (Z.testbit w (Z.of_nat i)) eqn:E.
    + apply negb_true_iff, Z.eqb_neq. intros H0. apply (f_equal (fun z => Z.testbit z (Z.of_nat i))) in H0.
      rewrite Z.land_spec, E, Z.bits_0, testbit_pow2, Z.eqb_refl in H0 by lia. done.
    + apply negb_false_iff, Z.eqb_eq, Z.bits_inj'. intros j Hj. rewrite Z.land_spec, Z.bits_0.
      rewrite testbit_pow2 by lia. destruct (Z.eqb_spec j (Z.of_nat i)) as [->|]; [by rewrite E|].
      apply andb_false_r.
  - rewrite lookup_seq_ge by lia. by rewrite lookup_ge_None_2 by lia.
Qed.

(** The opcodes that open a conditional block. *)
Definition is_begin (op : Opcode) : bool :=
  match op with
  | BeginConditionalOpcode _ _ _ _ _ | BeginKeypressConditionalOpcode _
  | BeginRegisterConditionalOpcode _ _ _ _ _ _ _ _ _ _ => true
  | _ => false
  end.

Section RoundTrip.
Context (left_first : bool) (vm : DmntCheatVm) (Hcount : num_opcodes vm <= 0x400).

Lemma GetTwoDwords_ok ip ok v ws :
  words_at vm ip (encode_pair left_first v ++ ws) ->
  GetTwoDwords left_first vm (mkReader ip ok) = mret (v, mkReader (ip + 2) ok).
Proof using Hcount.
  intros Hw. unfold GetTwoDwords, encode_pair in *. destruct left_first; cbn [app] in Hw;
    rewrite (GetNextDword_ok vm Hcount _ _ _ _ Hw); ostep; cbv beta iota;
    rewrite (GetNextDword_ok vm Hcount _ _ _ ws) by apply Hw; ostep; cbv beta iota;
    rewrite join_high_low; do 2 f_equal; f_equal; lia.
Qed.

(** The decoder answers [op] when it stands behind the first word of its encoding. *)
Definition decodes (op : Opcode) (ip : Z) : Prop :=
  decode_body left_first vm (List.hd 0 (encode left_first op)) (mkReader (ip + 1) true) =
    mret (op, mkReader (ip + Z.of_nat (length (encode left_first op))) true) /\
  begins_conditional (opcode_type (List.hd 0 (encode left_first op))) = is_begin op.

Notation reads op ip := (encodable op -> words_at vm ip (encode left_first op) -> decodes op ip).

Lemma decodes_StoreStatic t m r a v ip : reads (StoreStaticOpcode t m r a v) ip.
Proof using Hcount.
  intros (Ht & Hm & Hr & Ha & Hv) Hw. unfold decodes, encode in *. cbn [app List.hd words_at] in Hw |- *.
  destruct (address_40 a Ha) as (H1 & H2 & H3).
  assert (Hty := opcode_type_short 0 t m r 0 0 (a / 2 ^ 36) (high a mod 16)
    ltac:(lia) Ht Hm Hr ltac:(lia) ltac:(lia) H1 H2). split; [|rewrite Hty; reflexivity].
  unfold decode_body. rewrite Hty. pick_case. destruct Hw as (_ & Hw).
  rewrite (rel_address_ok vm Hcount _ _ _ _ a a (encode_int t v)); [|exact Hw| |done].
  - ostep. cbv beta iota. nibbles. rewrite (GetNextVmInt_ok vm Hcount _ _ t v []); [|done|].
    + ostep. cbv beta iota. do 2 f_equal. f_equal. cbn [length]. lia.
    + rewrite app_nil_r. apply Hw.
  - rewrite low_byte by lia. exact H3.
Qed.

(** Both halves of [decodes], once the type of the opcode is known. *)
Ltac decode_as Hty :=
  split; [unfold decode_body; rewrite Hty; pick_case; nibbles | rewrite Hty; reflexivity].
Ltac finish_reader := ostep; cbv beta iota; cbn [length]; do 2 f_equal; f_equal; lia.

Lemma decodes_BeginConditional t m c a v ip : reads (BeginConditionalOpcode t m c a v) ip.
Proof using Hcount.
  intros (Ht & Hm & Hr & Ha & Hv) Hw. unfold decodes, encode in *. cbn [app List.hd words_at] in Hw |- *.
  destruct (address_40 a Ha) as (H1 & H2 & H3).
  assert (Hty := opcode_type_short 1 t m c 0 0 (a / 2 ^ 36) (high a mod 16)
    ltac:(lia) Ht Hm Hr ltac:(lia) ltac:(lia) H1 H2). destruct Hw as (_ & Hw). decode_as Hty.
  rewrite (rel_address_ok vm Hcount _ _ _ _ a a (encode_int t v));
    [|exact Hw|rewrite low_byte by lia; exact H3|done].
  ostep. cbv beta iota. rewrite (GetNextVmInt_ok vm Hcount _ _ t v []); [finish_reader|done|].
  rewrite app_nil_r. apply Hw.
Qed.

Lemma decodes_EndConditional e ip : reads (EndConditionalOpcode e) ip.
Proof. intros _ _. unfold decodes. destruct e; split; by vm_compute. Qed.

Lemma decodes_ControlLoop b r n ip : reads (ControlLoopOpcode b r n) ip.
Proof using Hcount.
  intros (Hr & Hn & H0) Hw. unfold decodes, encode in *. destruct b; cbn [List.hd words_at] in Hw |- *.
  - assert (Hty := opcode_type_short 3 0 r 0 0 0 0 0 ltac:(lia) ltac:(lia) Hr ltac:(lia) ltac:(lia)
      ltac:(lia) ltac:(lia) ltac:(lia)). destruct Hw as (_ & Hw). decode_as Hty. pick_case.
    rewrite (GetNextDword_ok vm Hcount _ _ n []) by exact Hw. finish_reader.
  - assert (Hty := opcode_type_short 3 1 r 0 0 0 0 0 ltac:(lia) ltac:(lia) Hr ltac:(lia) ltac:(lia)
      ltac:(lia) ltac:(lia) ltac:(lia)). decode_as Hty. pick_case. by rewrite (H0 eq_refl).
Qed.

Lemma decodes_LoadRegisterStatic r v ip : reads (LoadRegisterStaticOpcode r v) ip.
Proof using Hcount.
  intros (Hr & Hv) Hw. unfold decodes, encode in *. cbn [List.hd words_at] in Hw |- *.
  assert (Hty := opcode_type_short 4 0 0 r 0 0 0 0 ltac:(lia) ltac:(lia) ltac:(lia) Hr ltac:(lia)
    ltac:(lia) ltac:(lia) ltac:(lia)). destruct Hw as (_ & Hw). decode_as Hty.
  rewrite (GetTwoDwords_ok _ _ v []) by (by rewrite app_nil_r).
  unfold encode_pair. destruct left_first; finish_reader.
Qed.

Lemma decodes_LoadRegisterMemory t m r i a ip : reads (LoadRegisterMemoryOpcode t m r i a) ip.
Proof using Hcount.
  intros (Ht & Hm & Hr & Ha) Hw. unfold decodes, encode in *. cbn [List.hd words_at] in Hw |- *.
  destruct (address_40 a Ha) as (H1 & H2 & H3). pose proof (flag_nib i) as Hi.
  assert (Hty := opcode_type_short 5 t m r (flag i) 0 (a / 2 ^ 36) (high a mod 16)
    ltac:(lia) Ht Hm Hr Hi ltac:(lia) H1 H2). destruct Hw as (_ & Hw). decode_as Hty.
  rewrite (rel_address_ok vm Hcount _ _ _ _ a a []);
    [|exact Hw|rewrite low_byte by lia; exact H3|done]. finish_reader.
Qed.

Lemma decodes_StoreStaticToAddress t r i o x v ip : reads (StoreStaticToAddressOpcode t r i o x v) ip.
Proof using Hcount.
  intros (Ht & Hr & Hx & Hv) Hw. unfold decodes, encode in *. cbn [List.hd words_at] in Hw |- *.
  pose proof (flag_nib i) as Hi. pose proof (flag_nib o) as Ho.
  assert (Hty := opcode_type_short 6 t 0 r (flag i) (flag o) x 0 ltac:(lia) Ht ltac:(lia) Hr Hi Ho Hx
    ltac:(lia)). destruct Hw as (_ & Hw). decode_as Hty.
  rewrite (GetTwoDwords_ok _ _ v []) by (by rewrite app_nil_r).
  unfold encode_pair. destruct left_first; finish_reader.
Qed.

Lemma decodes_PerformArithmeticStatic t r c v ip : reads (PerformArithmeticStaticOpcode t r c v) ip.
Proof using Hcount.
  intros (Ht & Hr & Hc & Hv) Hw. unfold decodes, encode in *. cbn [List.hd words_at] in Hw |- *.
  assert (Hty := opcode_type_short 7 t 0 r c 0 0 0 ltac:(lia) Ht ltac:(lia) Hr Hc ltac:(lia)
    ltac:(lia) ltac:(lia)). destruct Hw as (_ & Hw). decode_as Hty.
  rewrite (GetNextDword_ok vm Hcount _ _ v []) by exact Hw. finish_reader.
Qed.

Lemma decodes_BeginKeypress k ip : reads (BeginKeypressConditionalOpcode k) ip.
Proof.
  intros Hk Hw. unfold encodable, in_u in Hk. unfold decodes, encode in *. cbn [List.hd] in Hw |- *.
  assert (Hn : nibble (8 * 2 ^ 28 + k) 28 = 8).
  { rewrite nibble_div by lia. Z.div_mod_to_equations. lia. }
  assert (Hty : opcode_type (8 * 2 ^ 28 + k) = 8) by (unfold opcode_type; by rewrite Hn).
  decode_as Hty. change 0x0FFFFFFF with (Z.ones 28). rewrite Z.land_ones by lia.
  replace ((8 * 2 ^ 28 + k) mod 2 ^ 28) with k by (Z.div_mod_to_equations; lia).
  reflexivity.
Qed.

Lemma decodes_PerformArithmeticRegister t c d s1 s2 i v ip :
  reads (PerformArithmeticRegisterOpcode t c d s1 s2 i v) ip.
Proof using Hcount.
  intros (Ht & Hc & Hd & Hs1 & Hs2 & Hi) Hw. unfold decodes, encode in *.
  destruct i; cbn [List.hd words_at] in Hw |- *.
  - destruct Hi as [-> Hv].
    assert (Hty := opcode_type_short 9 t c d s1 1 0 0 ltac:(lia) Ht Hc Hd Hs1 ltac:(lia)
      ltac:(lia) ltac:(lia)). destruct Hw as (_ & Hw). decode_as Hty.
    rewrite (GetNextVmInt_ok vm Hcount _ _ t v []); [finish_reader|done|by rewrite app_nil_r].
  - subst v. assert (Hty := opcode_type_short 9 t c d s1 0 s2 0 ltac:(lia) Ht Hc Hd Hs1 ltac:(lia)
      Hs2 ltac:(lia)). decode_as Hty. done.
Qed.

Lemma decodes_StoreRegisterToAddress t s r i o m x a ip :
  reads (StoreRegisterToAddressOpcode t s r i o m x a) ip.
Proof using Hcount.
  intros (Ht & Hs & Hr & Ho & Hx & -> & Ha) Hw. unfold decodes, encode in *.
  cbn [List.hd words_at] in Hw |- *. pose proof (flag_nib i) as Hi.
  assert (Ha' : nib (high a)).
  { destruct ((o =? 2) || (o =? 4) || (o =? 5)); [by apply address_36|by subst a]. }
  assert (Hty := opcode_type_short 10 t s r (flag i) o x (high a) ltac:(lia) Ht Hs Hr Hi ltac:(lia) Hx
    Ha'). destruct Hw as (_ & Hw). decode_as Hty.
  unfold decode_StoreRegisterToAddress. cbv zeta. nibbles.
  assert (Hin : In o [0; 1; 2; 3; 4; 5]) by (simpl; lia). simpl in Hin.
  repeat (destruct Hin as [<-|Hin]; [cbn [Z.eqb Pos.eqb orb Z.leb Z.compare Pos.compare] in *|]);
    [..|done].
  1, 2, 4: subst a; reflexivity.
  all: cbv [StoreRegisterOffsetType.None_ StoreRegisterOffsetType.Reg StoreRegisterOffsetType.Imm
    StoreRegisterOffsetType.MemReg StoreRegisterOffsetType.MemImm StoreRegisterOffsetType.MemImmReg];
    cbn [Z.eqb Pos.eqb orb];
    (rewrite (rel_address_ok vm Hcount _ _ _ _ a a []); [|exact Hw|by apply low_nibble|done]);
    finish_reader.
Qed.

(** The kinds of operand a register condition or a log can have. *)
Lemma nibble_cases x : nib x ->
  x = 0 \/ x = 1 \/ x = 2 \/ x = 3 \/ x = 4 \/ x = 5 \/ 5 < x.
Proof. lia. Qed.

Lemma decodes_BeginRegisterConditional t c s x m r o f a v ip :
  reads (BeginRegisterConditionalOpcode t c s x m r o f a v) ip.
Proof using Hcount.
  intros (Ht & Hc & Hs & Hx & Hm & Hr & Ho & Hf & Ha & Hv & Hv' & Ho' & Hm' & Hr' & Hf' & Ha') Hw.
  pose proof (address_36 a Ha) as Hh. unfold decodes, encode in *.
  destruct (nibble_cases x Hx) as [->|[->|[->|[->|[->|[->|Hx5]]]]]];
    rewrite ?(proj2 (Z.eqb_neq x _)) in * by lia;
    rewrite ?Ho', ?Hm', ?Hr', ?Hf', ?Ha', ?Hv by lia; cbn [Z.eqb Pos.eqb List.hd words_at] in Hw |- *;
    match goal with |- context [opcode_type (word 12 0 ?a ?b ?c ?d ?e ?f)] =>
      assert (Hty := opcode_type_extended 0 a b c d e f ltac:(lia) ltac:(lia) ltac:(lia) ltac:(lia)
        ltac:(lia) ltac:(lia) ltac:(lia)) end;
    destruct Hw as (_ & Hw); decode_as Hty; unfold decode_BeginRegisterConditional; cbv zeta; nibbles;
    try rewrite !(proj2 (Z.eqb_neq x _)) by
      (unfold CompareRegisterValueType.StaticValue, CompareRegisterValueType.OtherRegister,
         CompareRegisterValueType.MemoryRelAddr, CompareRegisterValueType.MemoryOfsReg,
         CompareRegisterValueType.RegisterRelAddr, CompareRegisterValueType.RegisterOfsReg; lia);
    try reflexivity; pick_case.
  - rewrite (rel_address_ok vm Hcount _ _ _ _ a a []); [finish_reader|exact Hw|by apply low_nibble|done].
  - rewrite (rel_address_ok vm Hcount _ _ _ _ a a []); [finish_reader|exact Hw|by apply low_nibble|done].
  - rewrite (GetNextVmInt_ok vm Hcount _ _ t v []); [finish_reader|by apply Hv'|by rewrite app_nil_r].
Qed.

Lemma decodes_SaveRestoreRegister d s x ip : reads (SaveRestoreRegisterOpcode d s x) ip.
Proof.
  intros (Hd & Hs & Hx) Hw. unfold decodes, encode in *. cbn [List.hd] in Hw |- *.
  assert (Hty := opcode_type_extended 1 0 d 0 s x 0 ltac:(lia) ltac:(lia) Hd ltac:(lia) Hs Hx
    ltac:(lia)). decode_as Hty. reflexivity.
Qed.

Lemma decodes_SaveRestoreRegisterMask x l ip : reads (SaveRestoreRegisterMaskOpcode x l) ip.
Proof.
  intros (Hx & Hl) Hw. unfold decodes, encode in *. cbn [List.hd] in Hw |- *.
  pose proof (mask_value_range l) as Hm. rewrite Hl in Hm. change (2 ^ Z.of_nat 16) with 65536 in Hm.
  assert (Hw' : word 12 2 x 0 0 0 0 0 + mask_value l =
    word 12 2 x 0 (mask_value l / 4096) (mask_value l / 256 mod 16) (mask_value l / 16 mod 16)
      (mask_value l mod 16)).
  { unfold word. Z.div_mod_to_equations. lia. }
  assert (Hty : opcode_type (word 12 2 x 0 0 0 0 0 + mask_value l) = 0xC2).
  { rewrite Hw'. apply opcode_type_extended; Z.div_mod_to_equations; lia. }
  assert (H20 : nibble (word 12 2 x 0 0 0 0 0 + mask_value l) 20 = x).
  { rewrite Hw'. apply nibble_20; Z.div_mod_to_equations; lia. }
  decode_as Hty. rewrite H20. unfold NumRegisters. change (Z.to_nat 16) with 16%nat. rewrite <- Hl.
  rewrite mask_value_bits; [reflexivity|]. intros i Hi.
  replace (word 12 2 x 0 0 0 0 0 + mask_value l)
    with (mask_value l + (12 * 4096 + 2 * 256 + x * 16) * 2 ^ 16) by (unfold word; lia).
  rewrite <- (Z.mod_pow2_bits_low _ 16) by lia. rewrite Z.mod_add by lia.
  by rewrite Z.mod_pow2_bits_low by lia.
Qed.

Lemma decodes_ReadWriteStaticRegister s i ip : reads (ReadWriteStaticRegisterOpcode s i) ip.
Proof.
  intros (Hs & Hi) Hw. unfold decodes, encode in *. cbn [List.hd] in Hw |- *.
  assert (H1 : nib (s / 16)) by (Z.div_mod_to_equations; lia).
  assert (H2 : nib (s mod 16)) by (Z.div_mod_to_equations; lia).
  assert (Hty := opcode_type_extended 3 0 0 0 (s / 16) (s mod 16) i ltac:(lia) ltac:(lia) ltac:(lia)
    ltac:(lia) H1 H2 Hi). decode_as Hty. rewrite middle_byte by lia.
  replace (s / 16 * 16 + s mod 16) with s by (Z.div_mod_to_equations; lia). reflexivity.
Qed.

Lemma decodes_PauseResume ip : decodes PauseProcessOpcode ip /\ decodes ResumeProcessOpcode ip.
Proof. by split; split; vm_compute. Qed.

Lemma decodes_DebugLog t i x m r v f a ip : reads (DebugLogOpcode t i x m r v f a) ip.
Proof using Hcount.
  intros (Ht & Hi & Hx & Hm & Hr & Hv & Hf & Ha & Hv' & Hm' & Hr' & Hf' & Ha') Hw.
  pose proof (address_36 a Ha) as Hh. unfold decodes, encode in *.
  destruct (nibble_cases x Hx) as [->|[->|[->|[->|[->|Hx5]]]]];
    [..|assert (Hx4 : 4 < x) by lia; clear Hx5];
    rewrite ?(proj2 (Z.eqb_neq x _)) in * by lia;
    rewrite ?Hm', ?Hr', ?Hf', ?Ha', ?Hv' by lia; cbn [Z.eqb Pos.eqb List.hd words_at] in Hw |- *;
    match goal with |- context [opcode_type (word 15 15 15 ?b ?c ?d ?e ?f)] =>
      assert (Hty := opcode_type_double 15 b c d e f ltac:(lia) ltac:(lia) ltac:(lia) ltac:(lia)
        ltac:(lia) ltac:(lia)) end;
    destruct Hw as (_ & Hw); decode_as Hty; unfold decode_DebugLog; cbv zeta; nibbles;
    try rewrite !(proj2 (Z.eqb_neq x _)) by
      (unfold DebugLogValueType.RegisterValue, DebugLogValueType.MemoryRelAddr,
         DebugLogValueType.MemoryOfsReg, DebugLogValueType.RegisterRelAddr,
         DebugLogValueType.RegisterOfsReg; lia);
    try reflexivity; pick_case;
    (rewrite (rel_address_ok vm Hcount _ _ _ _ a a []); [finish_reader|exact Hw|by apply low_nibble|done]).
Qed.

Lemma decodes_all op ip : reads op ip.
Proof using Hcount.
  destruct op.
  - apply decodes_StoreStatic. - apply decodes_BeginConditional. - apply decodes_EndConditional.
  - apply decodes_ControlLoop. - apply decodes_LoadRegisterStatic. - apply decodes_LoadRegisterMemory.
  - apply decodes_StoreStaticToAddress. - apply decodes_PerformArithmeticStatic.
  - apply decodes_BeginKeypress. - apply decodes_PerformArithmeticRegister.
  - apply decodes_StoreRegisterToAddress. - apply decodes_BeginRegisterConditional.
  - apply decodes_SaveRestoreRegister. - apply decodes_SaveRestoreRegisterMask.
  - apply decodes_ReadWriteStaticRegister.
  - intros _ _. exact (proj1 (decodes_PauseResume ip)).
  - intros _ _. exact (proj2 (decodes_PauseResume ip)).
  - apply decodes_DebugLog.
  - by intros [].
Qed.

Lemma encode_cons op : encodable op -> exists w ws, encode left_first op = w :: ws.
Proof.
  intros He. destruct op; simpl in *; try destruct (_ : bool); try (eexists _, _; reflexivity); try done.
  all: repeat match goal with |- context [if ?c then _ else _] => destruct c end; eexists _, _; reflexivity.
Qed.

(** A decoder that stands at the first word of an opcode. *)
Lemma DecodeNextOpcode_words w ws op :
  decode_success vm = true -> words_at vm (instruction_ptr vm) (w :: ws) ->
  decode_body left_first vm w (mkReader (instruction_ptr vm + 1) true) = mret (op, mkReader (instruction_ptr vm + Z.of_nat (length (w :: ws))) true) ->
  begins_conditional (opcode_type w) = is_begin op ->
  DecodeNextOpcode left_first vm = mret (Some (mkOpcode (is_begin op) op), with_decode (instruction_ptr vm + Z.of_nat (length (w :: ws))) true vm).
Proof using Hcount.
  intros Hs Hw Hb Hc. unfold DecodeNextOpcode. rewrite Hs, (GetNextDword_ok vm Hcount _ _ w ws) by done. ostep.
  cbv beta iota. cbn [rd_valid negb]. rewrite Hb. ostep. cbv beta iota. cbn [rd_valid rd_ip andb].
  by rewrite Hc.
Qed.

Lemma DecodeNextOpcode_encode op :
  decode_success vm = true -> encodable op ->
  words_at vm (instruction_ptr vm) (encode left_first op) ->
  DecodeNextOpcode left_first vm =
    mret (Some (mkOpcode (is_begin op) op),
          with_decode (instruction_ptr vm + Z.of_nat (length (encode left_first op))) true vm).
Proof using Hcount.
  intros Hs He Hw. destruct (decodes_all op _ He Hw) as [Hb Hc].
  destruct (encode_cons op He) as (w & ws & E). rewrite E in Hb, Hc, Hw |- *. cbn [List.hd] in Hb, Hc. by apply DecodeNextOpcode_words.
Qed.

(** The documented words of a loop. *)
Lemma DecodeNextOpcode_loop b r n : nib r -> in_u 32 n -> (b = false -> n = 0) -> decode_success vm = true ->
  words_at vm (instruction_ptr vm) (documented (ControlLoopOpcode b r n)) ->
  DecodeNextOpcode left_first vm = mret (Some (mkOpcode false (ControlLoopOpcode b 0 n)), with_decode (instruction_ptr vm + Z.of_nat (length (documented (ControlLoopOpcode b r n)))) true vm).
Proof using Hcount.
  intros Hr Hn H0 Hs Hw. unfold documented in *. destruct b.
  - assert (Hty := opcode_type_short 3 0 0 r 0 0 0 0 ltac:(lia) ltac:(lia) ltac:(lia) Hr ltac:(lia)
      ltac:(lia) ltac:(lia) ltac:(lia)).
    apply (DecodeNextOpcode_words _ [n] (ControlLoopOpcode true 0 n) Hs Hw); [|by rewrite Hty]. destruct Hw as (_ & Hw). unfold decode_body. rewrite Hty. pick_case. nibbles. pick_case.
    rewrite (GetNextDword_ok vm Hcount _ _ n []) by exact Hw. finish_reader.
  - assert (Hty := opcode_type_short 3 1 0 r 0 0 0 0 ltac:(lia) ltac:(lia) ltac:(lia) Hr ltac:(lia)
      ltac:(lia) ltac:(lia) ltac:(lia)).
    apply (DecodeNextOpcode_words _ [] (ControlLoopOpcode false 0 n) Hs Hw); [|by rewrite Hty]. unfold decode_body. rewrite Hty. pick_case. nibbles. pick_case. by rewrite (H0 eq_refl).
Qed.

Lemma halves_swapped v : in_u 64 v -> in_u 64 (low v * 2 ^ 32 + high v) /\ encode_pair true v = encode_pair false (low v * 2 ^ 32 + high v).
Proof.
  unfold in_u, encode_pair, low, high. intros Hv. pose proof (Z.mod_pos_bound v (2 ^ 32) ltac:(lia)). assert (0 <= v / 2 ^ 32 < 2 ^ 32) by (Z.div_mod_to_equations; lia).
  split; [lia|]. rewrite (Z.add_comm (v mod 2 ^ 32 * 2 ^ 32)), Z.div_add, Z.mod_add, (Z.div_small (v / 2 ^ 32)), (Z.mod_small (v / 2 ^ 32)) by lia. done.
Qed.

Lemma documented_encode op : encodable op -> (forall b r n, op <> ControlLoopOpcode b r n) ->
  encodable (as_decoded left_first op) /\ documented op = encode left_first (as_decoded left_first op) /\ is_begin (as_decoded left_first op) = is_begin op.
Proof.
  intros He Hl. destruct op; try (by destruct (Hl _ _ _ eq_refl)); try (by destruct left_first); cbn [as_decoded documented encode encodable] in *.
  - destruct He as [Hr Hv]. destruct left_first; [done|]. destruct (halves_swapped _ Hv) as [H1 ->]. done.
  - destruct He as (H1 & H2 & H3 & Hv). destruct left_first; [done|]. destruct (halves_swapped _ Hv) as [H4 ->]. done.
Qed.

Lemma DecodeNextOpcode_documented op : decode_success vm = true -> encodable op -> words_at vm (instruction_ptr vm) (documented op) ->
  DecodeNextOpcode left_first vm = mret (Some (mkOpcode (is_begin op) (as_decoded left_first op)), with_decode (instruction_ptr vm + Z.of_nat (length (documented op))) true vm).
Proof using Hcount.
  intros Hs He Hw. assert ((exists b r n, op = ControlLoopOpcode b r n) \/ forall b r n, op <> ControlLoopOpcode b r n) as [(b & r & n & ->)|Hl] by (destruct op; (by right) || (left; by eexists _, _, _)).
  - destruct He as (Hr & Hn & H0). by apply DecodeNextOpcode_loop.
  - destruct (documented_encode op He Hl) as (He' & E & Hb). rewrite E in Hw |- *. rewrite <- Hb. by apply DecodeNextOpcode_encode.
Qed.
End RoundTrip.

(** ** Conditional blocks *)

Definition encode_all (left_first : bool) (ops : list Opcode) : list Z :=
  concat (map (encode left_first) ops).

(** Sequences of opcodes whose conditional blocks are closed, with or without an else. *)
Inductive balanced : list Opcode -> Prop :=
| bal_nil : balanced []
| bal_plain op r :
    encodable op -> is_begin op = false -> (forall e, op <> EndConditionalOpcode e) ->
    balanced r -> balanced (op :: r)
| bal_block c b r :
    encodable c -> is_begin c = true -> balanced b -> balanced r ->
    balanced (c :: b ++ EndConditionalOpcode false :: r)
| bal_else c b1 b2 r :
    encodable c -> is_begin c = true -> balanced b1 -> balanced b2 -> balanced r ->
    balanced (c :: b1 ++ EndConditionalOpcode true :: b2 ++ EndConditionalOpcode false :: r).

Lemma encode_all_cons lf op r : encode_all lf (op :: r) = encode lf op ++ encode_all lf r.
Proof. done. Qed.

Lemma encode_all_app lf a b : encode_all lf (a ++ b) = encode_all lf a ++ encode_all lf b.
Proof. unfold encode_all. by rewrite map_app, concat_app. Qed.

Lemma words_at_ext vm vm' ip ws :
  num_opcodes vm' = num_opcodes vm -> program vm' = program vm ->
  words_at vm' ip ws <-> words_at vm ip ws.
Proof.
  intros H1 H2. revert ip. induction ws as [|w ws IH]; intros ip; cbn [words_at]; [done|].
  by rewrite H1, H2, IH.
Qed.

Lemma balanced_words lf b : balanced b -> (length b <= length (encode_all lf b))%nat.
Proof.
  induction 1 as [|op r He Hb Hn _ IH|c b r He Hb _ IH1 _ IH2|c b1 b2 r He Hb _ IH1 _ IH2 _ IH3];
    [done|..]; rewrite ?encode_all_cons, ?encode_all_app, ?encode_all_cons, ?encode_all_app,
      ?encode_all_cons; repeat rewrite ?length_app; cbn [length]; repeat rewrite ?length_app; cbn [length];
    destruct (encode_cons lf _ He) as (w & ws & ->); rewrite ?length_app; cbn [length encode]; lia.
Qed.

Section Skipping.
Context (lf : bool) (vm : DmntCheatVm) (Hcount : num_opcodes vm <= 0x400) (D : Z) (is_if : bool).
Hypothesis HD : 0 <= D.

(** The machine at a position and a depth. *)
Definition here (ip d : Z) : DmntCheatVm := with_depth d (with_decode ip true vm).

Lemma skip_one fuel ip d op :
  D < d -> encodable op -> words_at vm ip (encode lf op) ->
  skip_loop lf (S fuel) is_if D (here ip d) =
    let ip' := ip + Z.of_nat (length (encode lf op)) in
    if is_begin op then skip_loop lf fuel is_if D (here ip' (u64 (d + 1)))
    else match op with
    | EndConditionalOpcode is_else =>
        if negb is_else then skip_loop lf fuel is_if D (here ip' (u64 (d - 1)))
        else if is_if && (u64 (d - 1) =? D) then mret (here ip' d)
        else skip_loop lf fuel is_if D (here ip' d)
    | _ => skip_loop lf fuel is_if D (here ip' d)
    end.
Proof using Hcount.
  intros Hd He Hw. cbn [skip_loop]. change (condition_depth (here ip d)) with d.
  rewrite (proj2 (Z.ltb_lt D d)) by done. cbn [negb].
  rewrite (DecodeNextOpcode_encode lf (here ip d) Hcount op) by
    (done || by apply (words_at_ext vm)). ostep. cbv beta iota. cbn [begin_conditional_block opcode].
  cbv zeta. destruct (is_begin op); [done|]. by destruct op.
Qed.

(** Skipping passes over a balanced sequence at any depth above the wanted one. *)
Lemma skip_balanced b :
  balanced b -> forall fuel ip d, D < d -> d + Z.of_nat (length b) < 2 ^ 64 ->
  words_at vm ip (encode_all lf b) ->
  skip_loop lf (length b + fuel) is_if D (here ip d) =
    skip_loop lf fuel is_if D (here (ip + Z.of_nat (length (encode_all lf b))) d).
Proof using Hcount HD.
  induction 1 as [|op r He Hb Hn _ IH|c b r He Hb _ IH1 _ IH2|c b1 b2 r He Hb _ IH1 _ IH2 _ IH3];
    intros fuel ip d Hd Hl Hw.
  - cbn. by rewrite Z.add_0_r.
  - rewrite encode_all_cons, words_at_app in Hw. rewrite encode_all_cons, length_app. cbn [length] in Hl |- *.
    rewrite Nat.add_succ_l, (skip_one _ _ _ op), Hb by (done || tauto). cbv zeta.
    transitivity (skip_loop lf (length r + fuel) is_if D
      (here (ip + Z.of_nat (length (encode lf op))) d)).
    { destruct op; try done. by destruct (Hn is_else). }
    rewrite IH by (done || lia || tauto). do 2 f_equal. lia.
  - rewrite encode_all_cons, encode_all_app, encode_all_cons, !words_at_app in Hw.
    destruct Hw as (Hc & Hb1 & He1 & Hr).
    rewrite encode_all_cons, encode_all_app, encode_all_cons, !length_app.
    cbn [length] in Hl |- *. rewrite length_app in Hl |- *. cbn [length] in Hl |- *.
    rewrite Nat.add_succ_l, (skip_one _ _ _ c), Hb by done. cbv zeta.
    rewrite (u64_small (d + 1)) by (unfold in_u; lia).
    replace (length b + S (length r) + fuel)%nat with (length b + S (length r + fuel))%nat by lia.
    rewrite IH1 by (done || lia).
    rewrite (skip_one _ _ _ (EndConditionalOpcode false)) by (done || lia). cbv zeta. cbn [is_begin negb].
    rewrite (u64_small (d + 1 - 1)) by (unfold in_u; lia). replace (d + 1 - 1) with d by lia.
    rewrite IH2 by (done || lia). do 2 f_equal. lia.
  - rewrite encode_all_cons, encode_all_app, encode_all_cons, encode_all_app, encode_all_cons,
      !words_at_app in Hw.
    destruct Hw as (Hc & Hb1 & He1 & Hb2 & He2 & Hr).
    rewrite encode_all_cons, encode_all_app, encode_all_cons, encode_all_app, encode_all_cons, !length_app.
    cbn [length] in Hl |- *. rewrite length_app in Hl |- *. cbn [length] in Hl |- *.
    rewrite length_app in Hl |- *. cbn [length] in Hl |- *.
    rewrite Nat.add_succ_l, (skip_one _ _ _ c), Hb by done. cbv zeta.
    rewrite (u64_small (d + 1)) by (unfold in_u; lia).
    replace (length b1 + S (length b2 + S (length r)) + fuel)%nat
      with (length b1 + S (length b2 + S (length r + fuel)))%nat by lia.
    rewrite IH1 by (done || lia).
    rewrite (skip_one _ _ _ (EndConditionalOpcode true)) by (done || lia). cbv zeta. cbn [is_begin negb].
    rewrite (u64_small (d + 1 - 1)) by (unfold in_u; lia). replace (d + 1 - 1) with d by lia.
    rewrite (proj2 (Z.eqb_neq d D)), andb_false_r by lia.
    rewrite IH2 by (done || lia).
    rewrite (skip_one _ _ _ (EndConditionalOpcode false)) by (done || lia). cbv zeta. cbn [is_begin negb].
    rewrite (u64_small (d + 1 - 1)) by (unfold in_u; lia). replace (d + 1 - 1) with d by lia.
    rewrite IH3 by (done || lia). do 2 f_equal. lia.
Qed.

End Skipping.

Lemma SkipConditionalBlock_eq lf is_if vm b last :
  vm_wf vm -> 0 < condition_depth vm -> decode_success vm = true -> balanced b ->
  words_at vm (instruction_ptr vm) (encode_all lf (b ++ [EndConditionalOpcode last])) ->
  exists fuel,
    SkipConditionalBlock lf is_if vm =
      skip_loop lf (length b + S fuel) is_if (condition_depth vm - 1)
        (here vm (instruction_ptr vm) (condition_depth vm)).
Proof.
  intros Hwf Hd Hs Hb Hw. pose proof (balanced_words lf b Hb) as Hlen.
  pose proof (words_at_bound vm _ _ Hw) as Hbound.
  rewrite encode_all_app, length_app in Hbound. cbn [length encode_all map concat encode app] in Hbound.
  assert (Hlt : instruction_ptr vm < num_opcodes vm).
  { rewrite encode_all_app in Hw.
    destruct (encode_all lf b); cbn [app words_at encode_all map concat encode] in Hw; apply Hw. }
  exists (Z.to_nat (num_opcodes vm - instruction_ptr vm) - length b)%nat.
  unfold SkipConditionalBlock. rewrite (proj2 (Z.ltb_lt 0 _)) by done. f_equal; [lia|].
  unfold here. destruct vm; simpl in *. by subst.
Qed.

(** The machine of [vm] at another position and depth. *)
Definition moved (ip d : Z) (vm : DmntCheatVm) : DmntCheatVm := with_depth d (with_ip ip vm).

Lemma here_moved vm ip d : decode_success vm = true -> here vm ip d = moved ip d vm.
Proof. intros Hs. unfold here, moved, with_ip. by rewrite Hs. Qed.

(** C32: Skipping a conditional block whose inner blocks are closed stops right behind the end that
    closes it, one level further out; a skipped then-part stops right behind its own else, on the
    same level, whatever elses the inner blocks have. *)
Theorem cheat_skip_block lf is_if vm b :
  vm_wf vm -> 0 < condition_depth vm < 2 ^ 63 -> decode_success vm = true -> balanced b ->
  let ip' last := instruction_ptr vm +
    Z.of_nat (length (encode_all lf (b ++ [EndConditionalOpcode last]))) in
  (words_at vm (instruction_ptr vm) (encode_all lf (b ++ [EndConditionalOpcode false])) ->
   SkipConditionalBlock lf is_if vm = Done true (moved (ip' false) (condition_depth vm - 1) vm)) /\
  (words_at vm (instruction_ptr vm) (encode_all lf (b ++ [EndConditionalOpcode true])) ->
   SkipConditionalBlock lf true vm = Done true (moved (ip' true) (condition_depth vm) vm)).
Proof.
  intros Hwf Hd Hs Hb ip'. pose proof (wf_count vm Hwf) as Hc.
  assert (Hlen : forall last,
    words_at vm (instruction_ptr vm) (encode_all lf (b ++ [EndConditionalOpcode last])) ->
    Z.of_nat (length b) <= 0x400).
  { intros last Hw. pose proof (balanced_words lf b Hb). pose proof (wf_ip vm Hwf).
    rewrite encode_all_app, words_at_app in Hw. destruct Hw as [Hw1 Hw2].
    cbn [encode_all map concat encode app words_at] in Hw2. lia. }
  split; intros Hw; specialize (Hlen _ Hw).
  - destruct (SkipConditionalBlock_eq lf is_if vm b false Hwf ltac:(lia) Hs Hb Hw) as (fuel & ->).
    rewrite encode_all_app, words_at_app in Hw. destruct Hw as [Hw1 Hw2].
    rewrite (skip_balanced lf vm ltac:(lia) (condition_depth vm - 1) is_if ltac:(lia) b Hb) by (done || lia).
    rewrite (skip_one lf vm ltac:(lia) _ is_if _ _ _ (EndConditionalOpcode false)) by
      (done || lia). cbv zeta. cbn [is_begin negb].
    rewrite u64_small by (unfold in_u; lia). rewrite here_moved by done.
    unfold ip'. rewrite encode_all_app, length_app, Nat2Z.inj_add, Z.add_assoc.
    destruct fuel; cbn [skip_loop]; change (condition_depth (moved ?i ?d vm)) with d;
      by rewrite Z.ltb_irrefl.
  - destruct (SkipConditionalBlock_eq lf true vm b true Hwf ltac:(lia) Hs Hb Hw) as (fuel & ->).
    rewrite encode_all_app, words_at_app in Hw. destruct Hw as [Hw1 Hw2].
    rewrite (skip_balanced lf vm ltac:(lia) (condition_depth vm - 1) true ltac:(lia) b Hb) by (done || lia).
    rewrite (skip_one lf vm ltac:(lia) _ true _ _ _ (EndConditionalOpcode true)) by
      (done || lia). cbv zeta. cbn [is_begin negb andb].
    rewrite u64_small by (unfold in_u; lia). rewrite Z.eqb_refl, here_moved by done.
    unfold ip'. by rewrite encode_all_app, length_app, Nat2Z.inj_add, Z.add_assoc.
Qed.

(** ** Decoding is total *)

Lemma nibble_range w pos : nib (nibble w pos).
Proof.
  unfold nibble. change 0xF with (Z.ones 4). rewrite Z.land_ones by lia. apply Z.mod_pos_bound. lia.
Qed.

Lemma land15_range w : nib (w .& 0xF).
Proof. change 0xF with (Z.ones 4). rewrite Z.land_ones by lia. apply Z.mod_pos_bound. lia. Qed.

(** The operands of an opcode stay inside the register arrays. *)
Definition op_ok (op : Opcode) : Prop :=
  match op with
  | StoreStaticOpcode _ _ r _ _ => nib r
  | ControlLoopOpcode _ r n => nib r /\ in_u 64 n
  | LoadRegisterStaticOpcode r v => nib r /\ in_u 64 v
  | LoadRegisterMemoryOpcode _ _ r _ _ => nib r
  | StoreStaticToAddressOpcode _ r _ _ x _ => nib r /\ nib x
  | PerformArithmeticStaticOpcode _ r _ _ => nib r
  | PerformArithmeticRegisterOpcode _ _ d s1 s2 _ _ => nib d /\ nib s1 /\ nib s2
  | StoreRegisterToAddressOpcode _ s r _ _ _ x _ => nib s /\ nib r /\ nib x
  | BeginRegisterConditionalOpcode _ _ s _ _ r o f _ _ => nib s /\ nib r /\ nib o /\ nib f
  | SaveRestoreRegisterOpcode d s _ => nib d /\ nib s
  | SaveRestoreRegisterMaskOpcode _ l => length l = 16%nat
  | ReadWriteStaticRegisterOpcode s i => 0 <= s < 256 /\ nib i
  | DebugLogOpcode _ _ _ _ r v f _ => nib r /\ nib v /\ nib f
  | _ => True
  end.

(** Words that open no jump back, no shift and no else, and the opcodes they decode to. *)
Definition is_shift (math_type : Z) : bool :=
  (math_type =? RegisterArithmeticType.LeftShift) || (math_type =? RegisterArithmeticType.RightShift).

Definition word_tame (w : Z) : bool :=
  let t := opcode_type w in
  negb (((t =? CheatVmOpcodeType.ControlLoop) && negb (nibble w 24 =? 0)) ||
        ((t =? CheatVmOpcodeType.EndConditionalBlock) && (nibble w 24 =? 1)) ||
        ((t =? CheatVmOpcodeType.PerformArithmeticStatic) && is_shift (nibble w 12)) ||
        ((t =? CheatVmOpcodeType.PerformArithmeticRegister) && is_shift (nibble w 20))).

Definition op_tame (op : Opcode) : Prop :=
  match op with
  | ControlLoopOpcode start _ _ => start = true
  | EndConditionalOpcode is_else => is_else = false
  | PerformArithmeticStaticOpcode _ _ c _ => is_shift c = false
  | PerformArithmeticRegisterOpcode _ c _ _ _ _ _ => is_shift c = false
  | _ => True
  end.

Section Total.
Context (vm : DmntCheatVm) (Hwf : vm_wf vm).

(** A reader that moves forward inside the program. *)
Definition advance (r r' : reader) : Prop :=
  rd_ip r <= rd_ip r' <= Z.max (rd_ip r) (num_opcodes vm) /\ (rd_valid r' = true -> rd_valid r = true).

Definition reads_total {A} (m : outcome (A * reader)) (r : reader) (P : A -> Prop) : Prop :=
  exists x r', m = Done true (x, r') /\ P x /\ advance r r'.

Lemma advance_refl r : advance r r.
Proof. unfold advance. split; [lia|done]. Qed.

Lemma advance_trans r1 r2 r3 : advance r1 r2 -> advance r2 r3 -> advance r1 r3.
Proof. unfold advance. intros [H1 H2] [H3 H4]. split; [lia|auto]. Qed.

Lemma reads_ret {A} (x : A) r (P : A -> Prop) : P x -> reads_total (mret (x, r)) r P.
Proof. intros HP. exists x, r. split; [done|]. split; [done|apply advance_refl]. Qed.

Lemma reads_bind {A B} (m : outcome (A * reader)) (f : A * reader -> outcome (B * reader)) r P Q :
  reads_total m r P -> (forall x r', P x -> 0 <= rd_ip r' -> advance r r' -> reads_total (f (x, r')) r' Q) ->
  0 <= rd_ip r -> reads_total (m ≫= f) r Q.
Proof.
  intros (x & r1 & E & HP & Ha) Hf Hr. destruct (Hf x r1 HP) as (y & r2 & E' & HQ & Ha');
    [unfold advance in *; lia|done|].
  exists y, r2. rewrite E. ostep. rewrite E'. split; [done|]. split; [done|].
  by eapply advance_trans.
Qed.

Lemma GetNextDword_total r : 0 <= rd_ip r -> reads_total (GetNextDword vm r) r (in_u 32).
Proof using Hwf.
  intros Hr. pose proof (wf_count vm Hwf) as Hc. destruct (wf_program vm Hwf) as [Hl Hp].
  unfold GetNextDword. destruct (Z.leb_spec (num_opcodes vm) (rd_ip r)).
  - eexists 0, _. split; [reflexivity|]. split; [by vm_compute|]. unfold advance; simpl. split; [lia|done].
  - destruct (arr_get_lt (program vm) (rd_ip r)) as (w & Ew & Hw); [lia|]. rewrite Ew. ostep.
    eexists w, _. split; [reflexivity|]. split; [by apply (Forall_lookup_1 _ _ _ _ Hp Hw)|].
    unfold advance; simpl. rewrite u64_small by (unfold in_u; lia). split; [lia|done].
Qed.

Lemma rel_address_total w mask r : 0 <= rd_ip r -> reads_total (rel_address_of vm w mask r) r (fun _ => True).
Proof using Hwf.
  intros Hr. eapply reads_bind; [by apply GetNextDword_total| |done].
  intros x r' _ _ _. by apply reads_ret.
Qed.

Lemma GetNextVmInt_total t r : 0 <= rd_ip r -> reads_total (GetNextVmInt vm t r) r (fun _ => True).
Proof using Hwf.
  intros Hr. eapply reads_bind; [by apply GetNextDword_total| |done]. intros x r' _ Hr' _. cbv beta iota.
  repeat (destruct (_ =? _); [first [by apply reads_ret|idtac]|]); [|by apply reads_ret].
  eapply reads_bind; [by apply GetNextDword_total| |done]. intros y r2 _ _ _. by apply reads_ret.
Qed.

Lemma GetTwoDwords_total lf r : 0 <= rd_ip r -> reads_total (GetTwoDwords lf vm r) r (in_u 64).
Proof using Hwf.
  intros Hr. eapply reads_bind; [by apply GetNextDword_total| |done]. intros x r' Hx Hr' _. cbv beta iota.
  eapply reads_bind; [by apply GetNextDword_total| |done]. intros y r2 Hy _ _. apply reads_ret.
  unfold in_u in *. destruct lf; rewrite join_words by done; lia.
Qed.

Definition op_from (w : Z) (op : Opcode) : Prop :=
  op_ok op /\ (word_tame w = true -> op_tame op) /\
  is_begin op = begins_conditional (opcode_type w).

Ltac nib_ok := repeat split; first [apply nibble_range | apply land15_range | done | lia].

(** The three facts about an opcode that has been built. *)
Ltac built :=
  split; [simpl; nib_ok|split; [|match goal with H : opcode_type _ = _ |- _ => rewrite H; reflexivity end]];
  try done.

(** A case of the decoder that reads at most one operand and builds the opcode. *)
Ltac reads_one :=
  first [ apply reads_ret; built
        | eapply reads_bind;
          [first [by apply rel_address_total | by apply GetNextVmInt_total | by apply GetNextDword_total]
          |intros ? ? ? ? ?; cbv beta iota; apply reads_ret; built|done] ].

Lemma decode_StoreRegisterToAddress_total w r :
  opcode_type w = CheatVmOpcodeType.StoreRegisterToAddress -> 0 <= rd_ip r -> reads_total (decode_StoreRegisterToAddress vm w r) r (op_from w).
Proof using Hwf.
  intros Hty Hr. unfold decode_StoreRegisterToAddress. cbv zeta.
  repeat (destruct (_ || _) || destruct (_ =? _)); reads_one.
Qed.

Lemma decode_BeginRegisterConditional_total w r :
  opcode_type w = CheatVmOpcodeType.BeginRegisterConditionalBlock -> 0 <= rd_ip r -> reads_total (decode_BeginRegisterConditional vm w r) r (op_from w).
Proof using Hwf.
  intros Hty Hr. unfold decode_BeginRegisterConditional. cbv zeta. repeat destruct (_ =? _); reads_one.
Qed.

Lemma decode_DebugLog_total w r :
  opcode_type w = CheatVmOpcodeType.DebugLog -> 0 <= rd_ip r -> reads_total (decode_DebugLog vm w r) r (op_from w).
Proof using Hwf.
  intros Hty Hr. unfold decode_DebugLog. cbv zeta. repeat destruct (_ =? _); reads_one.
Qed.

Ltac tame_case t :=
  let go x := (let b := eval vm_compute in (t =? x) in change (t =? x) with b) in
  intros E; unfold word_tame; rewrite E; cbv zeta;
  go CheatVmOpcodeType.ControlLoop; go CheatVmOpcodeType.EndConditionalBlock;
  go CheatVmOpcodeType.PerformArithmeticStatic; go CheatVmOpcodeType.PerformArithmeticRegister;
  cbn [andb orb]; rewrite ?orb_false_r.

Lemma tame_loop w : opcode_type w = 3 -> word_tame w = true -> (nibble w 24 =? 0) = true.
Proof. tame_case 3. by destruct (nibble w 24 =? 0). Qed.
Lemma tame_else w : opcode_type w = 2 -> word_tame w = true -> (nibble w 24 =? 1) = false.
Proof. tame_case 2. by destruct (nibble w 24 =? 1). Qed.
Lemma tame_static w : opcode_type w = 7 -> word_tame w = true -> is_shift (nibble w 12) = false.
Proof. tame_case 7. by destruct (is_shift _). Qed.
Lemma tame_register w : opcode_type w = 9 -> word_tame w = true -> is_shift (nibble w 20) = false.
Proof. tame_case 9. by destruct (is_shift _). Qed.

Lemma decode_body_total lf w r :
  0 <= rd_ip r -> reads_total (decode_body lf vm w r) r (op_from w).
Proof using Hwf.
  intros Hr. unfold decode_body. cbv zeta.
  destruct (Z.eqb_spec (opcode_type w) CheatVmOpcodeType.StoreStatic).
  { eapply reads_bind; [by apply rel_address_total| |done]. intros a r1 _ Hr1 _. cbv beta iota. reads_one. }
  destruct (Z.eqb_spec (opcode_type w) CheatVmOpcodeType.BeginConditionalBlock).
  { eapply reads_bind; [by apply rel_address_total| |done]. intros a r1 _ Hr1 _. cbv beta iota. reads_one. }
  destruct (Z.eqb_spec (opcode_type w) CheatVmOpcodeType.EndConditionalBlock) as [E|].
  { apply reads_ret. built. by apply tame_else. }
  destruct (Z.eqb_spec (opcode_type w) CheatVmOpcodeType.ControlLoop) as [E|].
  { destruct (Z.eqb_spec (nibble w 24) 0) as [E0|E0].
    - eapply reads_bind; [by apply GetNextDword_total| |done]. intros iters r1 Hn Hr1 _. apply reads_ret.
      split; [|split; [done|by rewrite E]]. split; [apply nibble_range|unfold in_u in *; lia].
    - apply reads_ret. split; [split; [apply nibble_range|by vm_compute]|]. split; [|by rewrite E].
      intros Ht. apply (tame_loop w) in Ht; [|done]. lia. }
  destruct (Z.eqb_spec (opcode_type w) CheatVmOpcodeType.LoadRegisterStatic).
  { eapply reads_bind; [by apply GetTwoDwords_total| |done]. intros v r1 Hv Hr1 _. apply reads_ret.
    split; [split; [apply nibble_range|done]|split; [done|by rewrite e]]. }
  destruct (Z.eqb_spec (opcode_type w) CheatVmOpcodeType.LoadRegisterMemory); [reads_one|].
  destruct (Z.eqb_spec (opcode_type w) CheatVmOpcodeType.StoreStaticToAddress).
  { eapply reads_bind; [by apply GetTwoDwords_total| |done]. intros v r1 Hv Hr1 _. apply reads_ret.
    built. }
  destruct (Z.eqb_spec (opcode_type w) CheatVmOpcodeType.PerformArithmeticStatic) as [E|].
  { eapply reads_bind; [by apply GetNextDword_total| |done]. intros v r1 Hv Hr1 _. apply reads_ret.
    built. by apply tame_static. }
  destruct (Z.eqb_spec (opcode_type w) CheatVmOpcodeType.BeginKeypressConditionalBlock); [reads_one|].
  destruct (Z.eqb_spec (opcode_type w) CheatVmOpcodeType.PerformArithmeticRegister) as [E|].
  { destruct (negb (nibble w 8 =? 0)).
    - eapply reads_bind; [by apply GetNextVmInt_total| |done]. intros v r1 Hv Hr1 _. apply reads_ret.
      built. by apply tame_register.
    - apply reads_ret. built. by apply tame_register. }
  destruct (Z.eqb_spec (opcode_type w) CheatVmOpcodeType.StoreRegisterToAddress);
    [by apply decode_StoreRegisterToAddress_total|].
  destruct (Z.eqb_spec (opcode_type w) CheatVmOpcodeType.BeginRegisterConditionalBlock);
    [by apply decode_BeginRegisterConditional_total|].
  destruct (Z.eqb_spec (opcode_type w) CheatVmOpcodeType.SaveRestoreRegister); [reads_one|].
  destruct (Z.eqb_spec (opcode_type w) CheatVmOpcodeType.SaveRestoreRegisterMask); [reads_one|].
  destruct (Z.eqb_spec (opcode_type w) CheatVmOpcodeType.ReadWriteStaticRegister).
  { apply reads_ret. split; [|split; [done|by rewrite e]]. split; [|apply land15_range]. change 0xFF with (Z.ones 8).
    rewrite Z.land_ones by lia. apply Z.mod_pos_bound. lia. }
  destruct (Z.eqb_spec (opcode_type w) CheatVmOpcodeType.PauseProcess); [reads_one|].
  destruct (Z.eqb_spec (opcode_type w) CheatVmOpcodeType.ResumeProcess); [reads_one|].
  destruct (Z.eqb_spec (opcode_type w) CheatVmOpcodeType.DebugLog); [by apply decode_DebugLog_total|].
  eexists _, _. split; [reflexivity|]. split; [|split; [split; [done|apply Z.le_max_l]|done]].
  split; [done|]. split; [done|]. unfold begins_conditional. by rewrite !(proj2 (Z.eqb_neq _ _)).
Qed.

(** Decoding always ends; an opcode it answers is read from a word of the program. *)
Lemma DecodeNextOpcode_total lf :
  exists op ip ok, DecodeNextOpcode lf vm = Done true (op, with_decode ip ok vm) /\
    instruction_ptr vm <= ip <= Z.max (instruction_ptr vm) (num_opcodes vm) /\
    match op with
    | None => True
    | Some o => instruction_ptr vm < ip /\ instruction_ptr vm < num_opcodes vm /\ ok = true /\
        begin_conditional_block o = is_begin (opcode o) /\
        exists w, program vm !! Z.to_nat (instruction_ptr vm) = Some w /\ op_from w (opcode o)
    end.
Proof using Hwf.
  pose proof (wf_ip vm Hwf) as Hip. pose proof (wf_count vm Hwf) as Hc.
  unfold DecodeNextOpcode, GetNextDword. cbn [rd_ip rd_valid].
  destruct (Z.leb_spec (num_opcodes vm) (instruction_ptr vm)).
  { ostep. cbv beta iota. cbn [rd_valid negb]. eexists None, _, _. split; [reflexivity|]. simpl. lia. }
  destruct (wf_program vm Hwf) as [Hl Hp].
  destruct (arr_get_lt (program vm) (instruction_ptr vm)) as (w & Ew & Hw); [lia|].
  rewrite Ew. ostep. cbv beta iota. cbn [rd_valid].
  rewrite u64_small by (unfold in_u; lia). destruct (decode_success vm) eqn:Es; cbn [negb].
  - destruct (decode_body_total lf w (mkReader (instruction_ptr vm + 1) true)) as (op & r & E & Hop & Ha).
    { simpl. lia. } unfold advance in Ha. cbn [rd_ip] in Ha. rewrite E. ostep. cbv beta iota.
    destruct r as [ip ok]. cbn [rd_valid rd_ip andb] in *. destruct ok.
    + eexists (Some _), ip, true. split; [reflexivity|]. split; [lia|]. split_and!; try (done || lia).
      * symmetry. apply Hop.
      * by exists w.
    + eexists None, ip, false. split; [reflexivity|]. lia.
  - eexists None, _, _. split; [reflexivity|]. simpl. lia.
Qed.
End Total.

(** ** Execution is safe *)

Definition same_code (vm vm' : DmntCheatVm) : Prop :=
  num_opcodes vm' = num_opcodes vm /\ program vm' = program vm.

(** A well-formed successor with the same program, whose depth grew by at most one program. *)
Record successor (vm vm' : DmntCheatVm) : Prop := {
  succ_wf : vm_wf vm';
  succ_code : same_code vm vm';
  succ_depth : condition_depth vm' <= condition_depth vm + 0x401
}.

Lemma with_decode_wf vm ip ok : vm_wf vm -> 0 <= ip <= 0x400 -> vm_wf (with_decode ip ok vm).
Proof. intros [] Hip. by split. Qed.
Lemma with_depth_wf vm d : vm_wf vm -> 0 <= d -> vm_wf (with_depth d vm).
Proof. intros [] Hd. by split. Qed.
#[local] Hint Resolve with_decode_wf with_depth_wf : cheat.

Lemma successor_refl vm : vm_wf vm -> successor vm vm.
Proof. intros H. split; [done|done|lia]. Qed.

Lemma skip_loop_total lf is_if D fuel : forall vm,
  vm_wf vm -> 0 <= D -> (0 < fuel)%nat -> num_opcodes vm - instruction_ptr vm < Z.of_nat fuel ->
  condition_depth vm + Z.of_nat fuel < 2 ^ 64 ->
  exists vm', skip_loop lf fuel is_if D vm = Done true vm' /\ vm_wf vm' /\ same_code vm vm' /\
    instruction_ptr vm <= instruction_ptr vm' /\
    condition_depth vm' <= condition_depth vm + Z.of_nat fuel.
Proof.
  induction fuel as [|fuel IH]; intros vm Hwf HD H0 Hf Hd; [lia|]. cbn [skip_loop].
  destruct (Z.ltb_spec D (condition_depth vm)) as [Hlt|]; cbn [negb].
  2: { exists vm. split; [done|]. split; [done|]. split; [done|]. lia. }
  destruct (DecodeNextOpcode_total vm Hwf lf) as (op & ip & ok & E & Hip & Hop). rewrite E. ostep.
  cbv beta iota. pose proof (wf_count vm Hwf) as Hc. pose proof (wf_ip vm Hwf) as Hi.
  pose proof (wf_depth vm Hwf) as Hdd.
  assert (Hw1 : vm_wf (with_decode ip ok vm)) by (apply with_decode_wf; [done|lia]).
  destruct op as [op|]; [|exists (with_decode ip ok vm); split_and!; try done; simpl; lia].
  destruct Hop as (Hlt1 & Hlt2 & _).
  assert (Hrec : forall d, 0 <= d <= condition_depth vm + 1 ->
    exists vm', skip_loop lf fuel is_if D (with_depth d (with_decode ip ok vm)) = Done true vm' /\
      vm_wf vm' /\ same_code vm vm' /\ instruction_ptr vm <= instruction_ptr vm' /\
      condition_depth vm' <= condition_depth vm + Z.of_nat (S fuel)).
  { intros d Hd'. destruct (IH (with_depth d (with_decode ip ok vm))) as (vm' & E' & W & C & P & Q);
      [by apply with_depth_wf; [|lia]|done|lia|simpl; lia|simpl; lia|].
    exists vm'. split; [done|]. split; [done|]. split; [done|]. simpl in *. lia. }
  assert (Hsame : with_decode ip ok vm = with_depth (condition_depth vm) (with_decode ip ok vm)).
  { by destruct vm. }
  change (condition_depth (with_decode ip ok vm)) with (condition_depth vm).
  destruct (begin_conditional_block op).
  { rewrite u64_small by (unfold in_u; lia). apply Hrec. lia. }
  destruct (opcode op); try (rewrite Hsame; apply Hrec; lia). destruct is_else; cbn [negb].
  - destruct (is_if && _); [|rewrite Hsame; apply Hrec; lia].
    exists (with_decode ip ok vm). split_and!; try done; simpl; lia.
  - rewrite u64_small by (unfold in_u; lia). apply Hrec. lia.
Qed.

Lemma Skip_total lf is_if vm :
  vm_wf vm -> 0 < condition_depth vm < 2 ^ 63 ->
  exists vm', SkipConditionalBlock lf is_if vm = Done true vm' /\ successor vm vm' /\
    instruction_ptr vm <= instruction_ptr vm'.
Proof.
  intros Hwf Hd. pose proof (wf_count vm Hwf) as Hc. pose proof (wf_ip vm Hwf) as Hi.
  unfold SkipConditionalBlock. rewrite (proj2 (Z.ltb_lt 0 _)) by lia.
  destruct (skip_loop_total lf is_if (condition_depth vm - 1)
    (S (Z.to_nat (num_opcodes vm - instruction_ptr vm))) vm Hwf) as (vm' & E & W & C & P & Q); try lia.
  exists vm'. split; [done|]. split; [|done]. split; [done|done|lia].
Qed.

(** Registers. *)
Lemma reg_get vm i : vm_wf vm -> nib i -> exists x, arr_get (registers vm) i = mret x /\ in_u 64 x /\
  registers vm !! Z.to_nat i = Some x.
Proof.
  intros Hwf Hi. destruct (wf_registers vm Hwf) as [Hl Hf].
  destruct (arr_get_lt (registers vm) i) as (x & E & Hx); [lia|]. exists x. split; [done|].
  split; [|done]. by apply (Forall_lookup_1 _ _ _ _ Hf Hx).
Qed.

Lemma saved_get vm i : vm_wf vm -> nib i -> exists x, arr_get (saved_values vm) i = mret x /\ in_u 64 x.
Proof.
  intros Hwf Hi. destruct (wf_saved vm Hwf) as [Hl Hf].
  destruct (arr_get_lt (saved_values vm) i) as (x & E & Hx); [lia|]. exists x. split; [done|].
  by apply (Forall_lookup_1 _ _ _ _ Hf Hx).
Qed.

Lemma array_set (P : Z -> Prop) (l : list Z) n i v :
  length l = n /\ Forall P l -> 0 <= i < Z.of_nat n -> P v ->
  exists l', arr_set l i v = mret l' /\ length l' = n /\ Forall P l'.
Proof.
  intros [Hl Hf] Hi Hv. exists (<[Z.to_nat i := v]> l). rewrite arr_set_lt by lia.
  split; [done|]. rewrite length_insert. split; [done|]. by apply Forall_insert.
Qed.

Lemma with_registers_wf vm l :
  vm_wf vm -> length l = 16%nat /\ Forall (in_u 64) l -> vm_wf (with_registers l vm).
Proof. intros [] Hl. by split. Qed.
Lemma with_saved_wf vm l :
  vm_wf vm -> length l = 16%nat /\ Forall (in_u 64) l -> vm_wf (with_saved l vm).
Proof. intros [] Hl. by split. Qed.
Lemma with_static_wf vm l :
  vm_wf vm -> length l = 256%nat /\ Forall (in_u 64) l -> vm_wf (with_static l vm).
Proof. intros [] Hl. by split. Qed.
Lemma with_loop_tops_wf vm l :
  vm_wf vm -> length l = 16%nat /\ Forall (fun x => 0 <= x <= 0x400) l -> vm_wf (with_loop_tops l vm).
Proof. intros [] Hl. by split. Qed.

Lemma reg_set vm i v :
  vm_wf vm -> nib i -> in_u 64 v ->
  exists l, arr_set (registers vm) i v = mret l /\ vm_wf (with_registers l vm).
Proof.
  intros Hwf Hi Hv. destruct (array_set (in_u 64) (registers vm) 16 i v (wf_registers vm Hwf))
    as (l & E & Hl); [lia|done|]. exists l. split; [done|]. by apply with_registers_wf.
Qed.

Lemma u64_in x : in_u 64 (u64 x).
Proof. apply u64_range. Qed.

Lemma wrapu_in_64 w x : 0 <= w <= 64 -> in_u 64 (wrapu w x).
Proof.
  intros Hw. pose proof (wrapu_range w x ltac:(lia)) as Hr. unfold in_u in *.
  pose proof (Z.pow_le_mono_r 2 w 64). lia.
Qed.

Lemma set_low_bytes_range t old v : valid_width t = true -> in_u 64 old -> in_u 64 (set_low_bytes t old v).
Proof.
  intros Ht Ho. unfold valid_width in Ht. unfold set_low_bytes.
  assert (Hw : t = 1 \/ t = 2 \/ t = 4 \/ t = 8) by lia.
  apply in_u_lor; [lia| |].
  - apply in_u_land; [lia|done|]. by destruct Hw as [->|[->|[->| ->]]]; vm_compute.
  - apply wrapu_in_64. lia.
Qed.

Lemma apply_width_range t x : in_u 64 x -> in_u 64 (apply_width t x).
Proof.
  intros Hx. unfold apply_width, u8, u16, u32, u64.
  repeat (destruct (_ =? _); [apply wrapu_in_64; lia|]). done.
Qed.

Lemma GetVmInt_range v t : in_u 64 (GetVmInt v t).
Proof.
  unfold GetVmInt, u8, u16, u32, u64. repeat (destruct (_ =? _); [apply wrapu_in_64; lia|]). by vm_compute.
Qed.

Lemma static_math_ok c x v :
  in_u 64 x -> (is_shift c = true -> 0 <= v < 64) ->
  exists y, static_math c x v = mret y /\ in_u 64 y.
Proof.
  intros Hx Hs. unfold static_math, is_shift in *.
  destruct (c =? RegisterArithmeticType.Addition); [by eexists; split; [|apply u64_in]|].
  destruct (c =? RegisterArithmeticType.Subtraction); [by eexists; split; [|apply u64_in]|].
  destruct (c =? RegisterArithmeticType.Multiplication); [by eexists; split; [|apply u64_in]|].
  destruct (c =? RegisterArithmeticType.LeftShift).
  { rewrite shl64_ok by auto. by eexists; split; [|apply u64_in]. }
  destruct (c =? RegisterArithmeticType.RightShift); [|by exists x].
  rewrite shr64_ok by auto. eexists. split; [done|]. specialize (Hs eq_refl).
  apply in_u_shiftr; [lia|lia|done].
Qed.

Lemma register_math_ok c x y :
  in_u 64 x -> in_u 64 y -> (is_shift c = true -> y < 64) ->
  exists z, register_math c x y = mret z /\ in_u 64 z.
Proof.
  intros Hx Hy Hs. unfold register_math, is_shift in *.
  destruct (c =? RegisterArithmeticType.Addition); [by eexists; split; [|apply u64_in]|].
  destruct (c =? RegisterArithmeticType.Subtraction); [by eexists; split; [|apply u64_in]|].
  destruct (c =? RegisterArithmeticType.Multiplication); [by eexists; split; [|apply u64_in]|].
  destruct (c =? RegisterArithmeticType.LeftShift).
  { rewrite shl64_ok by (specialize (Hs eq_refl); destruct Hy; lia). by eexists; split; [|apply u64_in]. }
  destruct (c =? RegisterArithmeticType.RightShift).
  { specialize (Hs eq_refl). rewrite shr64_ok by (destruct Hy; lia). eexists. split; [done|].
    apply in_u_shiftr; [by destruct Hy|lia|done]. }
  destruct (c =? RegisterArithmeticType.LogicalAnd); [eexists; split; [done|apply in_u_land; [lia|done|by destruct Hy]]|].
  destruct (c =? RegisterArithmeticType.LogicalOr); [eexists; split; [done|by apply in_u_lor]|].
  destruct (c =? RegisterArithmeticType.LogicalNot);
    [eexists; split; [done|apply in_u_lxor; [lia|done|by vm_compute]]|].
  destruct (c =? RegisterArithmeticType.LogicalXor); [eexists; split; [done|by apply in_u_lxor]|].
  destruct (c =? RegisterArithmeticType.None_); [by exists x|]. exists 0. by split; [|vm_compute].
Qed.

Lemma mask_loop_ok op_type mask : forall i src dst,
  0 <= i -> i + Z.of_nat (length mask) <= 16 ->
  length src = 16%nat /\ Forall (in_u 64) src -> length dst = 16%nat /\ Forall (in_u 64) dst ->
  exists dst', mask_loop op_type i mask src dst = mret dst' /\ length dst' = 16%nat /\ Forall (in_u 64) dst'.
Proof.
  induction mask as [|b mask IH]; intros i src dst Hi Hl Hs Hd; cbn [mask_loop length] in *.
  { exists dst. by split. }
  assert (Hd' : exists d1, (if b then
      if (op_type =? SaveRestoreRegisterOpType.ClearSaved) || (op_type =? SaveRestoreRegisterOpType.ClearRegs)
      then arr_set dst i 0 else v ← arr_get src i; arr_set dst i v else mret dst) = mret d1 /\
      length d1 = 16%nat /\ Forall (in_u 64) d1).
  { destruct b; [|by exists dst]. destruct (_ || _).
    - apply (array_set (in_u 64)); [done|lia|by vm_compute].
    - destruct (arr_get_lt src i) as (x & E & Hx); [lia|]. rewrite E. ostep.
      apply (array_set (in_u 64)); [done|lia|]. destruct Hs as [_ Hf].
      by apply (Forall_lookup_1 _ _ _ _ Hf Hx). }
  destruct Hd' as (d1 & -> & Hd1). ostep. apply IH; (done || lia).
Qed.

Section ExecSafe.
Context {E : Type} `{!Callbacks E} (lf : bool) (metadata : CheatProcessMetadata) (kDown : Z).
Context (vm : DmntCheatVm) (Hwf : vm_wf vm) (Hdepth : condition_depth vm < 2 ^ 63).

(** The run ends, without undefined behaviour, in a well-formed machine that did not move back. *)
Definition runs (m : outcome (DmntCheatVm * E)) : Prop :=
  exists vm' e', m = Done true (vm', e') /\ successor vm vm' /\ instruction_ptr vm <= instruction_ptr vm'.

Lemma runs_registers l e : vm_wf (with_registers l vm) -> runs (mret (with_registers l vm, e)).
Proof. intros H. eexists _, _. split; [done|]. split; [split; [done|done|simpl; lia]|simpl; lia]. Qed.

Lemma runs_same e : runs (mret (vm, e)).
Proof using Hwf. eexists _, _. split; [done|]. split; [by apply successor_refl|lia]. Qed.

Lemma runs_reg_set i v e :
  nib i -> in_u 64 v -> runs (regs ← arr_set (registers vm) i v; mret (with_registers regs vm, e)).
Proof using Hwf.
  intros Hi Hv. destruct (reg_set vm i v Hwf Hi Hv) as (l & -> & W). ostep. by apply runs_registers.
Qed.

Lemma runs_skip_unless b (f : DmntCheatVm -> E) :
  0 < condition_depth vm -> runs (vm' ← skip_unless lf b vm; mret (vm', f vm')).
Proof using Hwf Hdepth.
  intros Hd. unfold skip_unless. destruct b; [ostep; apply runs_same|].
  destruct (Skip_total lf true vm Hwf ltac:(lia)) as (vm' & -> & S & P). ostep.
  eexists _, _. by split_and!.
Qed.

Lemma runs_increment b i t e :
  nib i -> runs (vm' ← increment b i t vm; mret (vm', e)).
Proof using Hwf.
  intros Hi. unfold increment. destruct b; [|ostep; apply runs_same].
  destruct (reg_get vm i Hwf Hi) as (x & -> & Hx & _). ostep.
  destruct (reg_set vm i (u64 (x + t)) Hwf Hi (u64_in _)) as (l & -> & W). ostep.
  by apply runs_registers.
Qed.

Lemma operand_address_ok type m a f r :
  nib a -> nib f -> exists x, operand_address metadata type m a f r vm = mret x.
Proof using Hwf.
  intros Ha Hf. destruct (reg_get vm a Hwf Ha) as (x & Ex & _), (reg_get vm f Hwf Hf) as (y & Ey & _).
  unfold operand_address. rewrite Ex, Ey. repeat destruct (_ =? _); ostep; eauto.
Qed.

Lemma read_memory_range t a old e : in_u 64 old -> in_u 64 (read_memory t a old e).1.
Proof.
  intros Ho. unfold read_memory. destruct (valid_width t) eqn:Et; [|done].
  destruct (MemoryReadUnsafe a t e) as [v e']. by apply set_low_bytes_range.
Qed.


(** When an opcode may run: shifts stay below 64 bits, and an else has a block to leave. *)
Definition op_safe (op : Opcode) : Prop :=
  match op with
  | EndConditionalOpcode is_else => is_else = true -> 0 < condition_depth vm
  | PerformArithmeticStaticOpcode _ _ c v => is_shift c = true -> 0 <= v < 64
  | PerformArithmeticRegisterOpcode t c _ _ s2 i v => is_shift c = true ->
      if i then GetVmInt v t < 64 else forall y, registers vm !! Z.to_nat s2 = Some y -> y < 64
  | op => is_begin op = true -> 0 < condition_depth vm
  end.

Lemma exec_ControlLoop_safe b r n (e : E) :
  nib r -> in_u 64 n ->
  exists vm' e', exec_ControlLoop b r n vm e = Done true (vm', e') /\ successor vm vm' /\
    (b = true -> instruction_ptr vm <= instruction_ptr vm').
Proof using Hwf.
  intros Hr Hn. unfold exec_ControlLoop. destruct b.
  - destruct (reg_set vm r n Hwf Hr Hn) as (l & -> & W). ostep.
    destruct (array_set (fun x => 0 <= x <= 0x400) (loop_tops vm) 16 r (instruction_ptr vm)
      (wf_tops vm Hwf)) as (l' & -> & Hl'); [lia|apply (wf_ip vm Hwf)|]. ostep.
    eexists _, _. split; [done|]. split; [|simpl; lia]. split; [|done|simpl; lia].
    by apply (with_loop_tops_wf (with_registers l vm)).
  - destruct (reg_get vm r Hwf Hr) as (x & -> & _ & _). ostep.
    destruct (reg_set vm r (u64 (x - 1)) Hwf Hr (u64_in _)) as (l & -> & W). ostep.
    destruct (negb (u64 (x - 1) =? 0)).
    + destruct (wf_tops vm Hwf) as [Hl Hf].
      destruct (arr_get_lt (loop_tops (with_registers l vm)) r) as (top & -> & Ht); [simpl; lia|]. ostep.
      eexists _, _. split; [done|]. split; [|done]. split; [|done|simpl; lia].
      apply with_decode_wf; [done|]. by apply (Forall_lookup_1 _ _ _ _ Hf Ht).
    + eexists _, _. split; [done|]. split; [|done]. split; [done|done|simpl; lia].
Qed.

Lemma exec_LoadRegisterMemory_safe t m r b a (e : E) :
  nib r -> runs (exec_LoadRegisterMemory metadata t m r b a vm e).
Proof using Hwf.
  intros Hr. unfold exec_LoadRegisterMemory. destruct (reg_get vm r Hwf Hr) as (x & -> & Hx & _). ostep.
  pose proof (read_memory_range t
    (if b then u64 (x + a) else GetCheatProcessAddress metadata m a) x e Hx) as Hv.
  cbv zeta. destruct (read_memory t _ x e) as [v e']. by apply runs_reg_set.
Qed.

Lemma exec_StoreStaticToAddress_safe t r i o x v (e : E) :
  nib r -> nib x -> runs (exec_StoreStaticToAddress t r i o x v vm e).
Proof using Hwf.
  intros Hr Hx. unfold exec_StoreStaticToAddress. destruct (reg_get vm r Hwf Hr) as (y & -> & _). ostep.
  destruct (reg_get vm x Hwf Hx) as (z & Ez & _). destruct o; [rewrite Ez|]; ostep; by apply runs_increment.
Qed.

Lemma exec_PerformArithmeticRegister_safe t c d s1 s2 b v (e : E) :
  nib d -> nib s1 -> nib s2 -> op_safe (PerformArithmeticRegisterOpcode t c d s1 s2 b v) ->
  runs (exec_PerformArithmeticRegister t c d s1 s2 b v vm e).
Proof using Hwf.
  intros Hd H1 H2 Hs. unfold exec_PerformArithmeticRegister. simpl in Hs.
  destruct (reg_get vm s1 Hwf H1) as (x & -> & Hx & _), (reg_get vm s2 Hwf H2) as (y & Ey & Hy & Ly). ostep.
  assert (Hop : exists z, (if b then mret (GetVmInt v t) else arr_get (registers vm) s2) = mret z /\
    in_u 64 z /\ (is_shift c = true -> z < 64)).
  { destruct b; [|exists y; rewrite Ey; split; [done|]; split; [done|]; eauto].
    exists (GetVmInt v t). split; [done|]. split; [apply GetVmInt_range|done]. }
  destruct Hop as (z & -> & Hz & Hsz). ostep.
  destruct (register_math_ok c x z Hx Hz Hsz) as (u & -> & Hu). ostep.
  apply runs_reg_set; [done|by apply apply_width_range].
Qed.

Lemma exec_StoreRegisterToAddress_safe t s r i o m x a (e : E) :
  nib s -> nib r -> nib x -> runs (exec_StoreRegisterToAddress metadata t s r i o m x a vm e).
Proof using Hwf.
  intros Hs Hr Hx. unfold exec_StoreRegisterToAddress.
  destruct (reg_get vm s Hwf Hs) as (v & -> & _). ostep.
  destruct (reg_get vm r Hwf Hr) as (y & -> & _). ostep.
  destruct (reg_get vm x Hwf Hx) as (z & -> & _).
  repeat destruct (_ =? _); ostep; by apply runs_increment.
Qed.

Lemma exec_BeginRegisterConditional_safe t c s x m r o f a v (e : E) :
  0 < condition_depth vm -> nib s -> nib r -> nib o -> nib f ->
  runs (exec_BeginRegisterConditional lf metadata t c s x m r o f a v vm e).
Proof using Hwf Hdepth.
  intros Hd Hs Hr Ho Hf. unfold exec_BeginRegisterConditional.
  destruct (reg_get vm s Hwf Hs) as (y & -> & _). ostep.
  destruct (reg_get vm o Hwf Ho) as (z & Ez & _).
  destruct (operand_address_ok x m r f a Hr Hf) as (ad & Ead).
  destruct (x =? CompareRegisterValueType.StaticValue);
    [|destruct (x =? CompareRegisterValueType.OtherRegister)].
  - ostep. cbv beta iota. by apply (runs_skip_unless _ (fun _ => e)).
  - rewrite Ez. ostep. cbv beta iota. by apply (runs_skip_unless _ (fun _ => e)).
  - rewrite Ead. ostep. destruct (read_memory t ad 0 e) as [w e'].
    by apply (runs_skip_unless _ (fun _ => e')).
Qed.

Lemma exec_SaveRestoreRegister_safe d s x (e : E) :
  nib d -> nib s -> runs (exec_SaveRestoreRegister d s x vm e).
Proof using Hwf.
  intros Hd Hs. unfold exec_SaveRestoreRegister.
  assert (Hsave : forall v, in_u 64 v ->
    runs (saved ← arr_set (saved_values vm) d v; mret (with_saved saved vm, e))).
  { intros v Hv. destruct (array_set (in_u 64) (saved_values vm) 16 d v (wf_saved vm Hwf))
      as (l & -> & Hl); [lia|done|]. ostep. eexists _, _. split; [done|]. split; [|simpl; lia].
    split; [by apply with_saved_wf|done|simpl; lia]. }
  repeat destruct (_ =? _); [by apply runs_reg_set; [|vm_compute]|by apply Hsave; vm_compute|..].
  - destruct (reg_get vm s Hwf Hs) as (x' & -> & Hx & _). ostep. by apply Hsave.
  - destruct (saved_get vm s Hwf Hs) as (x' & -> & Hx). ostep. by apply runs_reg_set.
Qed.

Lemma exec_SaveRestoreRegisterMask_safe x l (e : E) :
  length l = 16%nat -> runs (exec_SaveRestoreRegisterMask x l vm e).
Proof using Hwf.
  intros Hl. unfold exec_SaveRestoreRegisterMask. destruct (_ || _).
  - destruct (mask_loop_ok x l 0 (registers vm) (saved_values vm)) as (d & -> & Hd);
      [lia|lia|apply (wf_registers vm Hwf)|apply (wf_saved vm Hwf)|]. ostep.
    eexists _, _. split; [done|]. split; [|simpl; lia]. split; [by apply with_saved_wf|done|simpl; lia].
  - destruct (mask_loop_ok x l 0 (saved_values vm) (registers vm)) as (d & -> & Hd);
      [lia|lia|apply (wf_saved vm Hwf)|apply (wf_registers vm Hwf)|]. ostep.
    apply runs_registers. by apply with_registers_wf.
Qed.

Lemma exec_ReadWriteStaticRegister_safe s i (e : E) :
  0 <= s < 256 -> nib i -> runs (exec_ReadWriteStaticRegister s i vm e).
Proof using Hwf.
  intros Hs Hi. unfold exec_ReadWriteStaticRegister. destruct (wf_static vm Hwf) as [Hl Hf].
  destruct (s <? NumReadableStaticRegisters).
  - destruct (arr_get_lt (static_registers vm) s) as (x & -> & Hx); [lia|]. ostep.
    apply runs_reg_set; [done|]. by apply (Forall_lookup_1 _ _ _ _ Hf Hx).
  - destruct (reg_get vm i Hwf Hi) as (x & -> & Hx & _). ostep.
    destruct (array_set (in_u 64) (static_registers vm) 256 s x (conj Hl Hf)) as (l & -> & Hl');
      [lia|done|]. ostep. eexists _, _. split; [done|]. split; [|simpl; lia].
    split; [by apply with_static_wf|done|simpl; lia].
Qed.

Lemma exec_DebugLog_safe t i x m r v f a (e : E) :
  nib r -> nib v -> nib f -> runs (exec_DebugLog metadata t i x m r v f a vm e).
Proof using Hwf.
  intros Hr Hv Hf. unfold exec_DebugLog. destruct (reg_get vm v Hwf Hv) as (y & Ey & _).
  destruct (operand_address_ok x m r f a Hr Hf) as (ad & Ead).
  destruct (x =? DebugLogValueType.RegisterValue).
  - rewrite Ey. ostep. cbv beta iota. apply runs_same.
  - rewrite Ead. ostep. destruct (read_memory t ad 0 e) as [w e']. apply runs_same.
Qed.

Definition is_loop_end (op : Opcode) : bool :=
  match op with ControlLoopOpcode start _ _ => negb start | _ => false end.

Lemma exec_opcode_safe op (e : E) :
  op_ok op -> op_safe op ->
  exists vm' e', exec_opcode lf metadata kDown op vm e = Done true (vm', e') /\ successor vm vm' /\
    (is_loop_end op = false -> instruction_ptr vm <= instruction_ptr vm').
Proof using Hwf Hdepth.
  assert (Hfwd : forall m, runs m -> exists vm' e', m = Done true (vm', e') /\ successor vm vm' /\
    (is_loop_end op = false -> instruction_ptr vm <= instruction_ptr vm')).
  { intros m (vm' & e' & H1 & H2 & H3). by exists vm', e'. }
  destruct op; cbn [exec_opcode op_ok op_safe]; intros Hok Hs.
  - apply Hfwd. destruct (reg_get vm offset_register Hwf Hok) as (x & -> & _). ostep. apply runs_same.
  - apply Hfwd. unfold exec_BeginConditional. destruct (read_memory _ _ _ _) as [w e'].
    apply (runs_skip_unless _ (fun _ => e')). by apply Hs.
  - apply Hfwd. destruct is_else.
    + destruct (Skip_total lf false vm Hwf (conj (Hs eq_refl) Hdepth)) as (vm' & -> & S & P). ostep.
      eexists _, _. by split_and!.
    + destruct (Z.ltb_spec 0 (condition_depth vm)); [|apply runs_same].
      eexists _, _. split; [done|]. split; [|simpl; lia].
      split; [apply with_depth_wf; [done|lia]|done|simpl; lia].
  - destruct Hok as [Hr Hn].
    destruct (exec_ControlLoop_safe start_loop reg_index num_iters e Hr Hn) as (vm' & e' & H1 & H2 & H3).
    exists vm', e'. split; [done|]. split; [done|]. cbn. destruct start_loop; [auto|done].
  - apply Hfwd. destruct Hok. by apply runs_reg_set.
  - apply Hfwd. by apply exec_LoadRegisterMemory_safe.
  - apply Hfwd. destruct Hok. by apply exec_StoreStaticToAddress_safe.
  - apply Hfwd. unfold exec_PerformArithmeticStatic.
    destruct (reg_get vm reg_index Hwf Hok) as (x & -> & Hx & _). ostep.
    destruct (static_math_ok math_type x value Hx Hs) as (y & -> & Hy). ostep.
    apply runs_reg_set; [done|by apply apply_width_range].
  - apply Hfwd. apply (runs_skip_unless _ (fun _ => e)). by apply Hs.
  - apply Hfwd. destruct Hok as (? & ? & ?). by apply exec_PerformArithmeticRegister_safe.
  - apply Hfwd. destruct Hok as (? & ? & ?). by apply exec_StoreRegisterToAddress_safe.
  - apply Hfwd. destruct Hok as (? & ? & ? & ?). apply exec_BeginRegisterConditional_safe; auto.
  - apply Hfwd. destruct Hok. by apply exec_SaveRestoreRegister_safe.
  - apply Hfwd. by apply exec_SaveRestoreRegisterMask_safe.
  - apply Hfwd. destruct Hok. by apply exec_ReadWriteStaticRegister_safe.
  - apply Hfwd, runs_same.
  - apply Hfwd, runs_same.
  - apply Hfwd. destruct Hok as (? & ? & ?). by apply exec_DebugLog_safe.
  - apply Hfwd, runs_same.
Qed.
End ExecSafe.

(** ** The properties *)


(** The state an opcode is executed in. *)
Definition entered (op : CheatVmOpcode) (vm : DmntCheatVm) : DmntCheatVm :=
  if begin_conditional_block op then with_depth (u64 (condition_depth vm + 1)) vm else vm.

Lemma entered_wf op vm :
  vm_wf vm -> condition_depth vm < 2 ^ 62 ->
  vm_wf (entered op vm) /\ condition_depth vm <= condition_depth (entered op vm) <= condition_depth vm + 1 /\
  instruction_ptr (entered op vm) = instruction_ptr vm /\ same_code vm (entered op vm) /\
  (begin_conditional_block op = true -> 0 < condition_depth (entered op vm)).
Proof.
  intros Hwf Hd. pose proof (wf_depth vm Hwf). unfold entered. destruct (begin_conditional_block op).
  - rewrite u64_small by (unfold in_u; lia). split; [apply with_depth_wf; [done|lia]|]. simpl.
    split; [lia|]. split; [done|]. split; [done|]. lia.
  - split; [done|]. split; [lia|]. split; [done|]. split; [done|]. done.
Qed.

Section Steps.
Context {E : Type} `{!Callbacks E} (lf : bool) (metadata : CheatProcessMetadata) (kDown : Z).

(** C33: A round of the machine never leaves its arrays and never runs out of fuel inside: decoding
    always ends, and an opcode that shifts by less than 64 bits and that, if it is an else, stands
    in a conditional block, runs to its end and leaves the machine well-formed. *)
Theorem cheat_step_safe vm e :
  vm_wf vm -> condition_depth vm < 2 ^ 62 ->
  exists op vm1, DecodeNextOpcode lf vm = Done true (op, vm1) /\ vm_wf vm1 /\
    match op with
    | None => Execute_step lf metadata kDown vm e = Done true (false, vm1, e)
    | Some o => op_ok (opcode o) /\
        (op_safe (entered o vm1) (opcode o) ->
         exists vm' e', Execute_step lf metadata kDown vm e = Done true (true, vm', e') /\ vm_wf vm' /\
           same_code vm vm' /\ condition_depth vm' <= condition_depth vm + 0x402)
    end.
Proof.
  intros Hwf Hd. destruct (DecodeNextOpcode_total vm Hwf lf) as (op & ip & ok & E1 & Hip & Hop).
  pose proof (wf_count vm Hwf) as Hc. pose proof (wf_ip vm Hwf) as Hi.
  assert (W1 : vm_wf (with_decode ip ok vm)) by (apply with_decode_wf; [done|lia]).
  exists op, (with_decode ip ok vm). split; [done|]. split; [done|]. unfold Execute_step. rewrite E1. ostep.
  cbv beta iota. destruct op as [op|]; [|done]. destruct Hop as (_ & _ & _ & _ & w & _ & Hok & _).
  split; [done|]. intros Hs. fold (entered op (with_decode ip ok vm)).
  destruct (entered_wf op _ W1 Hd) as (W2 & D2 & _ & C2 & _). simpl in D2.
  destruct (exec_opcode_safe lf metadata kDown _ W2 ltac:(lia) (opcode op) e Hok Hs)
    as (vm' & e' & E2 & S2 & _). rewrite E2. ostep. exists vm', e'. split; [done|].
  split; [apply S2|]. destruct S2 as [_ [C3 C4] D3], C2 as [C5 C6].
  split; [split; [by rewrite C3, C5|by rewrite C4, C6]|lia].
Qed.

Lemma tame_safe vm op :
  op_tame op -> (is_begin op = true -> 0 < condition_depth vm) -> op_safe vm op.
Proof. destruct op; simpl; intros Ht Hb; try done; try (rewrite Ht; done). Qed.

Lemma tame_not_loop_end op : op_tame op -> is_loop_end op = false.
Proof. destruct op; try done. by intros ->. Qed.

(** The program words that the instruction pointer can reach are tame. *)
Definition tame_program (vm : DmntCheatVm) : Prop :=
  forall i w, Z.of_nat i < num_opcodes vm -> program vm !! i = Some w -> word_tame w = true.

Lemma Execute_loop_tame fuel : forall vm e,
  vm_wf vm -> tame_program vm -> (0 < fuel)%nat ->
  num_opcodes vm - instruction_ptr vm < Z.of_nat fuel ->
  condition_depth vm + Z.of_nat fuel * 0x402 < 2 ^ 62 ->
  exists vm' e', Execute_loop lf metadata kDown fuel vm e = Done true (Some (vm', e')) /\ vm_wf vm'.
Proof.
  induction fuel as [|fuel IH]; intros vm e Hwf Ht H0 Hf Hd; [lia|]. cbn [Execute_loop].
  destruct (DecodeNextOpcode_total vm Hwf lf) as (op & ip & ok & E1 & Hip & Hop).
  pose proof (wf_count vm Hwf) as Hc. pose proof (wf_ip vm Hwf) as Hi. pose proof (wf_depth vm Hwf) as Hdd.
  assert (W1 : vm_wf (with_decode ip ok vm)) by (apply with_decode_wf; [done|lia]).
  unfold Execute_step. rewrite E1. ostep. cbv beta iota.
  destruct op as [op|]; [|ostep; cbv beta iota; eauto].
  destruct Hop as (Hlt & Hlt2 & _ & Hb & w & Hw & Hok & Htm & _).
  specialize (Htm (Ht (Z.to_nat (instruction_ptr vm)) w ltac:(lia) Hw)).
  fold (entered op (with_decode ip ok vm)).
  destruct (entered_wf op _ W1 ltac:(simpl; lia)) as (W2 & D2 & I2 & C2 & P2). simpl in D2, I2.
  destruct (exec_opcode_safe lf metadata kDown _ W2 ltac:(lia) (opcode op) e Hok)
    as (vm' & e' & E2 & [W3 [C3 C4] D3] & F2).
  { apply tame_safe; [done|]. by rewrite <- Hb. }
  specialize (F2 (tame_not_loop_end _ Htm)). destruct C2 as [C5 C6]. cbn in C5, C6.
  rewrite E2. ostep. cbv beta iota. ostep. cbv beta iota. apply IH; try done; try lia.
  intros i x. rewrite C3, C5, C4, C6. apply Ht.
Qed.

End Steps.

Lemma ResetState_wf vm : vm_wf vm -> vm_wf (ResetState vm).
Proof.
  intros [H1 H2 H3 H4 [H5 H5'] [H6 H6'] H7 [H8 H8']]. unfold ResetState. rewrite H5, H6, H8.
  split; simpl; try done; try lia; (split; [done|]); repeat constructor; by vm_compute.
Qed.

(** C34: A cheat whose words open no jump back, no shift and no else comes to its end: running it with
    one round more than it has words finishes, without undefined behaviour, whatever the memory of
    the program and the pressed keys are. *)
Theorem cheat_straight_line_terminates {E : Type} `{!Callbacks E} lf metadata vm (e : E) fuel :
  vm_wf vm -> tame_program vm -> num_opcodes vm < Z.of_nat fuel <= 2 ^ 32 ->
  exists vm' e', Execute lf fuel metadata vm e = Done true (Some (vm', e')) /\ vm_wf vm'.
Proof.
  intros Hwf Ht Hf. unfold Execute. destruct (HidKeysDown e) as [kDown e'].
  pose proof (wf_count vm Hwf). apply Execute_loop_tame; try (done || (simpl; lia)).
  by apply ResetState_wf.
Qed.

(** ** Loading a program *)

(** A cheat as its parser leaves it: an array of 256 words, of which some are used. *)
Definition entry_ok (e : CheatEntry) : Prop :=
  length (opcodes (definition e)) = 256%nat /\ Forall (in_u 32) (opcodes (definition e)) /\
  0 <= def_num_opcodes (definition e) <= 256.

Definition entry_words (e : CheatEntry) : list Z :=
  if enabled e then take (Z.to_nat (def_num_opcodes (definition e))) (opcodes (definition e)) else [].
Definition enabled_words (es : list CheatEntry) : list Z := concat (map entry_words es).

Lemma load_words_ok k : forall n d num prog,
  0 <= n -> n + Z.of_nat k <= Z.of_nat (length (opcodes d)) -> 0 <= num ->
  num + Z.of_nat k <= Z.of_nat (length prog) ->
  exists prog', load_words k n d num prog = mret (num + Z.of_nat k, prog') /\
    length prog' = length prog /\
    take (Z.to_nat num + k) prog' =
      take (Z.to_nat num) prog ++ take k (drop (Z.to_nat n) (opcodes d)) /\
    drop (Z.to_nat num + k) prog' = drop (Z.to_nat num + k) prog.
Proof.
  induction k as [|k IH]; intros n d num prog Hn Hnk Hnum Hp; cbn [load_words].
  { exists prog. rewrite Z.add_0_r, Nat.add_0_r, take_0, app_nil_r. done. }
  destruct (arr_get_lt (opcodes d) n) as (w & -> & Hw); [lia|]. ostep. rewrite arr_set_lt by lia. ostep.
  destruct (IH (n + 1) d (num + 1) (<[Z.to_nat num := w]> prog)) as (prog' & -> & Hl & Ht & Hd);
    [lia|lia|lia|rewrite length_insert; lia|].
  exists prog'. rewrite length_insert in Hl. replace (Z.to_nat (num + 1)) with (S (Z.to_nat num)) in * by lia.
  replace (Z.to_nat (n + 1)) with (S (Z.to_nat n)) in * by lia.
  split; [do 2 f_equal; lia|]. split; [done|].
  replace (Z.to_nat num + S k)%nat with (S (Z.to_nat num) + k)%nat by lia. split.
  - rewrite Ht. rewrite (take_S_r _ _ w) by (apply list_lookup_insert_eq; lia).
    rewrite take_insert_ge by lia. rewrite <- app_assoc. f_equal.
    by rewrite (drop_S (opcodes d) w (Z.to_nat n)).
  - rewrite Hd. by rewrite drop_insert_lt by lia.
Qed.

Lemma entry_words_length e :
  entry_ok e -> Z.of_nat (length (entry_words e)) = if enabled e then def_num_opcodes (definition e) else 0.
Proof.
  intros (Hl & _ & Hn). unfold entry_words. destruct (enabled e); [|done].
  rewrite length_take. lia.
Qed.

Lemma entry_words_range e : entry_ok e -> Forall (in_u 32) (entry_words e).
Proof.
  intros (_ & Hf & _). unfold entry_words. destruct (enabled e); [|constructor]. by apply Forall_take.
Qed.

(** The words already loaded stay, and the enabled cheats follow one another. *)
Lemma load_entries_ok es : forall num prog,
  Forall entry_ok es -> 0 <= num <= 0x400 -> length prog = 1024%nat -> Forall (in_u 32) prog ->
  exists num' prog', length prog' = 1024%nat /\ Forall (in_u 32) prog' /\
    if decide (num + Z.of_nat (length (enabled_words es)) <= 0x400)
    then load_entries es num prog = mret (true, num', prog') /\
         num' = num + Z.of_nat (length (enabled_words es)) /\
         take (Z.to_nat num') prog' = take (Z.to_nat num) prog ++ enabled_words es
    else load_entries es num prog = mret (false, 0, prog').
Proof.
  induction es as [|e es IH]; intros num prog Hes Hn Hl Hf.
  { exists num, prog. cbn. rewrite decide_True by lia. rewrite Z.add_0_r, app_nil_r. done. }
  apply Forall_cons_1 in Hes as [He Hes]. pose proof (entry_words_length e He) as Hlen.
  unfold enabled_words in *. cbn [map concat load_entries]. rewrite length_app, Nat2Z.inj_add.
  destruct (enabled e) eqn:Een.
  2: { unfold entry_words. rewrite Een. cbn [length app]. rewrite Z.add_0_l. by apply IH. }
  destruct (Z.ltb_spec MaximumProgramOpcodeCount (def_num_opcodes (definition e) + num)) as [Hgt|Hle];
    unfold MaximumProgramOpcodeCount in *.
  { exists 0, prog. rewrite decide_False by lia. done. }
  pose proof He as (Ho & Hfo & Hno).
  destruct (load_words_ok (Z.to_nat (def_num_opcodes (definition e))) 0 (definition e) num prog)
    as (prog1 & E1 & Hl1 & Ht1 & Hd1); [lia..|]. rewrite E1. ostep. cbv beta iota.
  replace (num + Z.of_nat (Z.to_nat (def_num_opcodes (definition e))))
    with (num + Z.of_nat (length (entry_words e))) by lia.
  assert (Ew : entry_words e = take (Z.to_nat (def_num_opcodes (definition e))) (drop (Z.to_nat 0)
    (opcodes (definition e)))) by (unfold entry_words; by rewrite Een). rewrite <- Ew in Ht1.
  assert (Hf1 : Forall (in_u 32) prog1).
  { rewrite <- (take_drop (Z.to_nat num + Z.to_nat (def_num_opcodes (definition e))) prog1), Ht1, Hd1.
    repeat apply Forall_app_2; [by apply Forall_take|by apply entry_words_range|by apply Forall_drop]. }
  destruct (IH (num + Z.of_nat (length (entry_words e))) prog1 Hes ltac:(lia) ltac:(lia) Hf1)
    as (num' & prog' & Hl' & Hf' & H). rewrite Z.add_assoc. exists num', prog'. split; [done|]. split; [done|].
  destruct (decide _); [|done]. destruct H as (H1 & H2 & H3). split; [done|]. split; [done|].
  rewrite H3, app_assoc. f_equal. rewrite <- Ht1. f_equal. lia.
Qed.

Lemma words_at_take vm ip ws :
  num_opcodes vm <= Z.of_nat (length (program vm)) -> 0 <= ip ->
  take (length ws) (drop (Z.to_nat ip) (program vm)) = ws -> ip + Z.of_nat (length ws) <= num_opcodes vm ->
  words_at vm ip ws.
Proof.
  intros Hn. revert ip. induction ws as [|w ws IH]; intros ip Hip Ht Hl; cbn [words_at length] in *; [done|].
  destruct (lookup_lt_is_Some_2 (program vm) (Z.to_nat ip)) as [x Hx]; [lia|].
  rewrite (drop_S _ x) in Ht by done. injection Ht as -> Ht. split; [split; [lia|done]|].
  apply IH; [lia| |lia]. by replace (Z.to_nat (ip + 1)) with (S (Z.to_nat ip)) by lia.
Qed.

Lemma load_program_ok vm es :
  vm_wf vm -> Forall entry_ok es ->
  exists ok vm', LoadProgram vm es = Done true (ok, vm') /\ vm_wf vm' /\
    (ok = true <-> Z.of_nat (length (enabled_words es)) <= MaximumProgramOpcodeCount) /\
    (ok = true -> num_opcodes vm' = Z.of_nat (length (enabled_words es)) /\
                  words_at vm' 0 (enabled_words es)) /\
    (ok = false -> num_opcodes vm' = 0).
Proof.
  intros Hwf Hes. destruct (wf_program vm Hwf) as [Hl Hf]. unfold LoadProgram, MaximumProgramOpcodeCount.
  destruct (load_entries_ok es 0 (program vm) Hes ltac:(lia) Hl Hf) as (num & prog & Hl' & Hf' & H).
  assert (W : forall n, 0 <= n <= 0x400 -> vm_wf (mkVm n (instruction_ptr vm) (condition_depth vm)
    (decode_success vm) prog (registers vm) (saved_values vm) (static_registers vm) (loop_tops vm))).
  { intros n Hn. destruct Hwf. by split. }
  destruct (decide _) as [Hfit|Hfit]; [destruct H as (-> & Hnum & Ht)|rewrite H]; ostep; cbv beta iota;
    eexists _, _; (split; [reflexivity|]); (split; [apply W; lia|]).
  - split; [split; [lia|done]|]. split; [|done]. intros _. cbn [num_opcodes]. split; [lia|].
    apply words_at_take; cbn [program num_opcodes]; try lia. rewrite drop_0.
    rewrite take_0, app_nil_l in Ht. by replace (length (enabled_words es)) with (Z.to_nat num) by lia.
  - split; [split; [done|lia]|]. split; done.
Qed.

(** Loading cheats succeeds exactly when the enabled ones fit into the program memory, which then
    holds their words one cheat after the other; otherwise the program is empty.  The loader stays
    inside its arrays and leaves a well-formed machine. *)
Theorem cheat_load_program vm es :
  vm_wf vm -> Forall entry_ok es ->
  exists ok vm', LoadProgram vm es = Done true (ok, vm') /\ vm_wf vm' /\
    (ok = true <-> Z.of_nat (length (enabled_words es)) <= MaximumProgramOpcodeCount) /\
    (ok = true -> num_opcodes vm' = Z.of_nat (length (enabled_words es)) /\
                  words_at vm' 0 (enabled_words es)) /\
    (ok = false -> num_opcodes vm' = 0).
Proof. apply load_program_ok. Qed.

(** ** Instances *)

(** An environment that answers every read with 0 and keeps the list of the writes. *)
#[export] Instance write_log : Callbacks (list (Z * Z * Z)) := {|
  MemoryReadUnsafe _ _ log := (0, log);
  MemoryWriteUnsafe address value size log := (address, value, size) :: log;
  HidKeysDown log := (0, log);
  cb_PauseProcess log := log;
  cb_ResumeProcess log := log;
  cb_DebugLog _ _ log := log
|}.

Definition example_metadata : CheatProcessMetadata :=
  mkMetadata 0 0 (mkExtents 0x8000000 0x1000) (mkExtents 0x9000000 0x1000) (mkExtents 0 0)
    (mkExtents 0 0) [].

(** A machine with the given program. *)
Definition example_vm (words : list Z) : DmntCheatVm :=
  mkVm (Z.of_nat (length words)) 0 0 true (words ++ replicate (1024 - length words) 0)
    (replicate 16 0) (replicate 16 0) (replicate 256 0) (replicate 16 0).

Lemma example_vm_wf words :
  (length words <= 1024)%nat -> Forall (in_u 32) words -> vm_wf (example_vm words).
Proof.
  intros Hl Hf. split; cbn [num_opcodes instruction_ptr condition_depth program registers saved_values
    static_registers loop_tops example_vm]; try lia.
  - rewrite length_app, length_replicate. split; [lia|]. apply Forall_app. split; [done|].
    apply Forall_replicate. by vm_compute.
  - split; [done|]. apply Forall_replicate. by vm_compute.
  - split; [done|]. apply Forall_replicate. by vm_compute.
  - split; [done|]. apply Forall_replicate. by vm_compute.
  - split; [done|]. apply Forall_replicate. lia.
Qed.

Ltac words_ok := repeat (apply list.Forall_cons; split; [by vm_compute|]); apply list.Forall_nil; done.

Lemma DmntCheatVm_new_wf : vm_wf DmntCheatVm_new.
Proof.
  split; cbn [num_opcodes instruction_ptr condition_depth program registers saved_values static_registers
    loop_tops DmntCheatVm_new]; try lia; (split; [done|]); apply Forall_replicate; first [by vm_compute|lia].
Qed.

(** Register 1 := 0x9000000; then, if main+0x10 holds 0 (it does), store 7 at heap + register 1. *)
Definition example_words : list Z :=
  [0x40010000; 0; 0x09000000; 0x11050000; 0x10; 0; 0x04110000; 0; 7; 0x20000000].

Lemma example_words_wf : vm_wf (example_vm example_words).
Proof. apply example_vm_wf; [simpl; lia|words_ok]. Qed.


(** The machine behind the begin of a block of three opcodes with an else. *)
Definition example_block : DmntCheatVm :=
  with_depth 1 (example_vm [0xFF000000; 0x80000001; 0x21000000; 0x20000000; 0x21000000; 0x20000000]).

Lemma cheat_skip_block_witness :
  SkipConditionalBlock true true example_block = Done true (moved 5 1 example_block).
Proof.
  refine (proj2 (cheat_skip_block true true example_block
    [PauseProcessOpcode; BeginKeypressConditionalOpcode 1; EndConditionalOpcode true;
     EndConditionalOpcode false] _ _ _ _) _).
  - apply with_depth_wf; [|lia]. apply example_vm_wf; [simpl; lia|words_ok].
  - simpl. lia.
  - done.
  - apply bal_plain; try done.
    by apply (bal_else (BeginKeypressConditionalOpcode 1) [] [] []); try constructor.
  - cbn. repeat split; (lia || reflexivity).
Defined.

Lemma cheat_step_safe_witness :
  exists vm', Execute_step true example_metadata 0 (example_vm example_words) [] = Done true (true, vm', []).
Proof.
  destruct (cheat_step_safe true example_metadata 0 (example_vm example_words) [] example_words_wf)
    as (op & vm1 & Ed & _ & Hop); [simpl; lia|].
  assert (Ex : exists o v, DecodeNextOpcode true (example_vm example_words) = Done true (Some o, v) /\
    opcode o = LoadRegisterStaticOpcode 1 0x09000000) by (eexists _, _; split; vm_compute; reflexivity).
  destruct Ex as (o & v & Ex & Eo). rewrite Ex in Ed. injection Ed as <- <-.
  destruct Hop as [_ Hop]. rewrite Eo in Hop. destruct Hop as (vm' & e' & E2 & _); [done|].
  exists vm'. rewrite E2. assert (He : e' = []); [|by rewrite He].
  assert (Hv : (match Execute_step true example_metadata 0 (example_vm example_words) [] with
    | Done _ (_, _, l) => l | Undef => [] end) = []) by (vm_compute; reflexivity).
  rewrite E2 in Hv. exact Hv.
Defined.

Lemma cheat_straight_line_terminates_witness :
  exists vm', Execute true 11 example_metadata (example_vm example_words) [] =
    Done true (Some (vm', [(0x9000000 + 0x9000000, 7, 4)])).
Proof.
  destruct (cheat_straight_line_terminates true example_metadata (example_vm example_words) [] 11
    example_words_wf) as (vm' & e' & E2 & _).
  - intros i w Hi Hw. do 10 (destruct i as [|i]; [injection Hw as <-; by vm_compute|]). simpl in Hi. lia.
  - simpl. lia.
  - exists vm'. rewrite E2. assert (Hv : (match Execute true 11 example_metadata (example_vm example_words) [] with
      | Done _ (Some (_, l)) => l | _ => [] end) = [(0x9000000 + 0x9000000, 7, 4)])
      by (vm_compute; reflexivity). rewrite E2 in Hv. by rewrite Hv.
Defined.

(** ** What the machine does with programs outside these conditions *)

(** An else outside of a conditional block reaches the branch the code declares unreachable. *)
Lemma else_outside_block_crashes :
  Execute true 2 example_metadata (example_vm [0x21000000]) [] = Undef.
Proof. by vm_compute. Qed.

(** A shift by 64 bits is executed as it stands. *)
Lemma shift_by_64_undefined :
  Execute true 2 example_metadata (example_vm [0x74003000; 64]) [] = Undef.
Proof. by vm_compute. Qed.

(** The register digit of the documented loop format 300R0000 is not read. *)
Lemma loop_register_ignored :
  exists vm, DecodeNextOpcode true (example_vm [0x30050000; 9]) =
    Done true (Some (mkOpcode false (ControlLoopOpcode true 0 9)), vm).
Proof. eexists. by vm_compute. Qed.

(** The same words give two values, by the compiler's order of the two reads. *)
Lemma load_static_order :
  exists vm vm', DecodeNextOpcode true (example_vm [0x40010000; 1; 2]) =
      Done true (Some (mkOpcode false (LoadRegisterStaticOpcode 1 0x100000002)), vm) /\
    DecodeNextOpcode false (example_vm [0x40010000; 1; 2]) =
      Done true (Some (mkOpcode false (LoadRegisterStaticOpcode 1 0x200000001)), vm').
Proof. eexists _, _. split; by vm_compute. Qed.

Definition example_cheats : list CheatEntry :=
  [mkEntry true 0 (mkDefinition [] 1 (0xFF000000 :: replicate 255 0));
   mkEntry false 1 (mkDefinition [] 2 (replicate 256 0));
   mkEntry true 2 (mkDefinition [] 2 (0x40010000 :: 5 :: replicate 254 0))].

Lemma cheat_load_program_witness :
  exists vm', LoadProgram DmntCheatVm_new example_cheats = Done true (true, vm') /\
    words_at vm' 0 [0xFF000000; 0x40010000; 5].
Proof.
  destruct (cheat_load_program DmntCheatVm_new example_cheats) as (ok & vm' & E & _ & H1 & H2 & _).
  - apply DmntCheatVm_new_wf.
  - repeat (apply list.Forall_cons; split); try (split; [done|]; split; [words_ok|simpl; lia]).
    by apply list.Forall_nil.
  - exists vm'. destruct H1 as [_ H1]. rewrite H1 in E, H2 by (vm_compute; discriminate).
    split; [exact E|]. apply H2. done.
Defined.
