(* ===== verification/CheatEngine.v ===== *)
(** * CheatEngine: src/core/memory/cheat_engine.h and .cpp

    The parser of cheat files, the callbacks that connect the cheat machine of DmntCheatVm.v to the
    emulated process, and the engine that loads the parsed cheats and runs them on every frame.
    The memory, the input and the process of the emulated system are the interface
    [EmulatedSystem]; the timing events that call the engine are not modelled.

    The theorems say that parsing inverts printing, that whatever the parser answers can be loaded
    without leaving an array, and that every write a run of the machine makes to the memory of the process starts
    at an address inside its four regions. *)

From stdpp Require Import relations.
From S2P Require Import Prelude DmntCheatVm.
#[local] Open Scope Z_scope.

(** ** Characters

    A [char] is an integer from -128 to 127.  The classification functions of the C library are
    undefined below [EOF] = -1. *)

Definition ctype (f : Z -> bool) (c : Z) : outcome bool := if c <? -1 then Undef else mret (f c).

Definition is_space (c : Z) : bool := ((9 <=? c) && (c <=? 13)) || (c =? 32).
Definition is_xdigit (c : Z) : bool :=
  ((48 <=? c) && (c <=? 57)) || ((65 <=? c) && (c <=? 70)) || ((97 <=? c) && (c <=? 102)).

Definition xdigit_value (c : Z) : Z :=
  if c <=? 57 then c - 48 else if c <=? 70 then c - 55 else c - 87.

(** [std::strtoul(hex, nullptr, 16)] on hexadecimal digits only. *)
Definition strtoul16 (hex : list Z) : Z := fold_left (fun acc c => acc * 16 + xdigit_value c) hex 0.

Definition open_brace : Z := 123.
Definition close_brace : Z := 125.
Definition open_bracket : Z := 91.
Definition close_bracket : Z := 93.

(** ** The parser *)

Definition data_size (data : list Z) : Z := Z.of_nat (length data).
Definition substr (data : list Z) (pos n : Z) : list Z := take (Z.to_nat n) (drop (Z.to_nat pos) data).

(** The search for the end of a name: [None] when it ran past the end of the text. *)
Fixpoint find_match (fuel : nat) (data : list Z) (match_ end_index : Z) : outcome (option Z) :=
  match fuel with
  | O => Undef
  | S fuel' =>
      c ← arr_get data end_index;
      if c =? match_ then mret (Some end_index)
      else
        let end_index := end_index + 1 in
        if data_size data <? end_index then mret None else find_match fuel' data match_ end_index
  end.

(** The full size of the name, and the name cut to the size of the name array. *)
Definition ExtractName (data : list Z) (start_index match_ : Z) : outcome (Z * list Z) :=
  r ← find_match (S (length data)) data match_ start_index;
  match r with
  | None => mret (0, [])
  | Some end_index =>
      let out_name_size := end_index - start_index in
      let end_index := if 64 <? out_name_size then start_index + 64 else end_index in
      mret (out_name_size, substr data start_index (end_index - start_index))
  end.

Definition CheatEntry_new : CheatEntry :=
  mkEntry false 0 (mkDefinition (replicate 64 0) 0 (replicate 256 0)).

(** [memcpy] of the name and the final zero. *)
Definition copy_name (name old : list Z) : list Z :=
  <[63%nat := 0]> (take 64 name ++ drop (length (take 64 name)) old).

Definition set_name (name : list Z) (e : CheatEntry) : CheatEntry :=
  mkEntry (enabled e) (cheat_id e)
    (mkDefinition (copy_name name (readable_name (definition e))) (def_num_opcodes (definition e))
       (opcodes (definition e))).

Definition push_opcode (value : Z) (e : CheatEntry) : outcome CheatEntry :=
  let d := definition e in
  words ← arr_set (opcodes d) (def_num_opcodes d) value;
  mret (mkEntry (enabled e) (cheat_id e) (mkDefinition (readable_name d) (def_num_opcodes d + 1) words)).

Fixpoint all_xdigit (l : list Z) : outcome bool :=
  match l with
  | [] => mret true
  | c :: r => x ← ctype is_xdigit c; if x : bool then all_xdigit r else mret false
  end.

(** The header of an entry that starts at [i]: its name is stored in entry [k]. *)
Definition parse_name (data : list Z) (i match_ : Z) (k : Z) (out : list CheatEntry) :
    outcome (option (Z * list CheatEntry)) :=
  '(name_size, name) ← ExtractName data (i + 1) match_;
  match name with
  | [] => mret None
  | _ =>
      e ← arr_get out k;
      out ← arr_set out k (set_name name e);
      mret (Some (i + name_size + 1, out))
  end.

(** The main loop; [None] is a refused text.  Every round consumes a character. *)
Fixpoint parse_loop (fuel : nat) (data : list Z) (i : Z) (out : list CheatEntry)
    (current_entry : option Z) : outcome (option (list CheatEntry)) :=
  if data_size data <=? i then mret (Some out)
  else
    match fuel with
    | O => Undef
    | S fuel' =>
        c ← arr_get data i;
        space ← ctype is_space c;
        if space : bool then parse_loop fuel' data (i + 1) out current_entry
        else if c =? open_brace then
          e ← arr_get out 0;
          if 0 <? def_num_opcodes (definition e) then mret None
          else
            r ← parse_name data i close_brace 0 out;
            match r with
            | None => mret None
            | Some (i, out) => parse_loop fuel' data (i + 1) out (Some 0)
            end
        else if c =? open_bracket then
          let k := Z.of_nat (length out) in
          r ← parse_name data i close_bracket k (out ++ [CheatEntry_new]);
          match r with
          | None => mret None
          | Some (i, out) => parse_loop fuel' data (i + 1) out (Some k)
          end
        else
          digit ← ctype is_xdigit c;
          if digit : bool then
            match current_entry with
            | None => mret None
            | Some k =>
                e ← arr_get out k;
                if 256 <=? def_num_opcodes (definition e) then mret None
                else
                  let hex := substr data i 8 in
                  ok ← all_xdigit hex;
                  if negb ok then mret None
                  else
                    e ← push_opcode (u32 (strtoul16 hex)) e;
                    out ← arr_set out k e;
                    parse_loop fuel' data (i + 8 + 1) out current_entry
            end
          else mret None
    end.

(** The entries get their number and are enabled when they have opcodes. *)
Definition finish_entry (i : nat) (e : CheatEntry) : CheatEntry :=
  mkEntry (0 <? def_num_opcodes (definition e)) (u32 (Z.of_nat i)) (definition e).

Definition Parse (data : list Z) : outcome (list CheatEntry) :=
  r ← parse_loop (S (length data)) data 0 [CheatEntry_new] None;
  match r with
  | None => mret []
  | Some out => mret (imap finish_entry out)
  end.

(** ** StandardVmCallbacks *)

(** What the callbacks use of the emulated system. *)
Class EmulatedSystem (S : Type) := {
  IsValidVirtualAddress : S -> Z -> bool;
  ReadBlock : S -> Z -> Z -> Z;
  WriteBlock : S -> Z -> Z -> Z -> bool * S;
  InvalidateInstructionCacheRange : S -> Z -> Z -> S;
  GetAndResetPressState : S -> option (Z * S);
  IsSuspended : S -> bool;
  SetActivity : bool -> S -> S;
  LogDebug : Z -> Z -> S -> S
}.

Definition outside (x : Z) (r : MemoryRegionExtents) : bool :=
  (x <? base r) || (u64 (base r + size r) <=? x).

Definition IsAddressInRange (m : CheatProcessMetadata) (x : Z) : bool :=
  negb (outside x (main_nso_extents m) && outside x (heap_extents m) &&
        outside x (alias_extents m) && outside x (aslr_extents m)).

Section Callbacks.
Context {S : Type} `{!EmulatedSystem S}.
Variable metadata : CheatProcessMetadata.

Definition std_MemoryReadUnsafe (address size : Z) (s : S) : Z * S :=
  if negb (IsAddressInRange metadata address) || negb (IsValidVirtualAddress s address)
  then (0, s) else (ReadBlock s address size, s).

Definition std_MemoryWriteUnsafe (address value size : Z) (s : S) : S :=
  if negb (IsAddressInRange metadata address) || negb (IsValidVirtualAddress s address) then s
  else
    let '(changed, s) := WriteBlock s address value size in
    if changed : bool then InvalidateInstructionCacheRange s address size else s.

(** No press state when the input service is not running. *)
Definition std_HidKeysDown (s : S) : Z * S :=
  match GetAndResetPressState s with
  | None => (0, s)
  | Some (press_state, s) => (press_state .& 0xFFFFFFFFFFFFFFFF, s)
  end.

Definition std_PauseProcess (s : S) : S := if IsSuspended s then s else SetActivity true s.
Definition std_ResumeProcess (s : S) : S := if negb (IsSuspended s) then s else SetActivity false s.

Definition StandardVmCallbacks : Callbacks S := {|
  MemoryReadUnsafe := std_MemoryReadUnsafe;
  MemoryWriteUnsafe := std_MemoryWriteUnsafe;
  HidKeysDown := std_HidKeysDown;
  cb_PauseProcess := std_PauseProcess;
  cb_ResumeProcess := std_ResumeProcess;
  cb_DebugLog := LogDebug
|}.
End Callbacks.

(** ** CheatEngine *)

Record CheatEngine := mkEngine {
  vm : DmntCheatVm;
  metadata : CheatProcessMetadata;
  cheats : list CheatEntry;
  is_pending_reload : bool
}.

Definition CheatEngine_new (cheats_ : list CheatEntry) (build_id_ : list Z) : CheatEngine :=
  mkEngine DmntCheatVm_new
    (mkMetadata 0 0 (mkExtents 0 0) (mkExtents 0 0) (mkExtents 0 0) (mkExtents 0 0) build_id_)
    cheats_ false.

(** The identifiers and regions are those of the running process. *)
Definition Initialize (pid tid : Z) (heap alias_code alias : MemoryRegionExtents) (g : CheatEngine) :
    CheatEngine :=
  let m := metadata g in
  mkEngine (vm g)
    (mkMetadata pid tid (main_nso_extents m) heap alias alias_code (main_nso_build_id m))
    (cheats g) true.

Definition SetMainMemoryParameters (main_region_begin main_region_size : Z) (g : CheatEngine) :
    CheatEngine :=
  let m := metadata g in
  mkEngine (vm g)
    (mkMetadata (process_id m) (title_id m) (mkExtents main_region_begin main_region_size)
       (heap_extents m) (alias_extents m) (aslr_extents m) (main_nso_build_id m))
    (cheats g) (is_pending_reload g).

Definition Reload (reload_cheats : list CheatEntry) (g : CheatEngine) : CheatEngine :=
  mkEngine (vm g) (metadata g) reload_cheats true.

(** The first half of a frame: the program is loaded when the cheats have changed. *)
Definition reload_if_pending (g : CheatEngine) : outcome CheatEngine :=
  if is_pending_reload g then
    '(_, v) ← LoadProgram (vm g) (cheats g);
    mret (mkEngine v (metadata g) (cheats g) false)
  else mret (mkEngine (vm g) (metadata g) (cheats g) false).

(** One frame; [None] while the cheats still run after [fuel] opcodes. *)
Definition FrameCallback {S : Type} `{!EmulatedSystem S} (left_first : bool) (fuel : nat)
    (g : CheatEngine) (s : S) : outcome (option (CheatEngine * S)) :=
  g ← reload_if_pending g;
  if num_opcodes (vm g) =? 0 then mret (Some (g, s))
  else
    r ← @Execute S (StandardVmCallbacks (metadata g)) left_first fuel (metadata g) (vm g) s;
    match r with
    | None => mret None
    | Some (v, s) => mret (Some (mkEngine v (metadata g) (cheats g) (is_pending_reload g), s))
    end.

(** ** Parsed cheats can be loaded *)

(** Inversion of one step of a run, whatever its assertions said. *)
Ltac weak_inv H :=
  lazymatch type of H with
  | (_ ≫= _) = Done _ _ =>
      let c1 := fresh "c" in let a := fresh "a" in let c2 := fresh "c" in let E := fresh "E" in
      apply bind_Done_weak_inv in H as (c1 & c2 & a & E & H & _)
  end.

Lemma CheatEntry_new_ok : entry_ok CheatEntry_new.
Proof.
  split; [done|]. split; [|by vm_compute]. apply Forall_replicate. by vm_compute.
Qed.

Lemma set_name_ok name e : entry_ok e -> entry_ok (set_name name e).
Proof. done. Qed.

Lemma push_opcode_ok w e c e' :
  entry_ok e -> in_u 32 w -> def_num_opcodes (definition e) < 256 -> push_opcode w e = Done c e' -> entry_ok e'.
Proof.
  intros (Hl & Hf & Hn) Hw Hlt. unfold push_opcode. rewrite arr_set_lt by lia. ostep. intros [= _ <-].
  split; [cbn; by rewrite length_insert|]. split; [by apply Forall_insert|]. cbn. lia.
Qed.

Lemma arr_set_Forall {A} (P : A -> Prop) l i x c l' :
  Forall P l -> P x -> arr_set l i x = Done c l' -> Forall P l'.
Proof. intros Hl Hx (_ & _ & ->)%arr_set_inv. by apply Forall_insert. Qed.

Lemma parse_name_ok data i m k out c j out' :
  Forall entry_ok out -> parse_name data i m k out = Done c (Some (j, out')) -> Forall entry_ok out'.
Proof.
  intros Ho H. unfold parse_name in H. weak_inv H. destruct a as [n name]. destruct name; [by injection H|].
  weak_inv H. apply arr_get_inv in E0 as (_ & _ & Ha). weak_inv H.
  injection H as _ _ <-. eapply arr_set_Forall; [exact Ho| |exact E0].
  apply set_name_ok. by apply (Forall_lookup_1 _ _ _ _ Ho Ha).
Qed.

Lemma parse_loop_entries fuel data : forall i out cur c out',
  Forall entry_ok out -> parse_loop fuel data i out cur = Done c (Some out') -> Forall entry_ok out'.
Proof.
  induction fuel as [|fuel IH]; intros i out cur c out' Ho; cbn [parse_loop];
    destruct (data_size data <=? i); try (by intros [= _ <-]).
  intros H. weak_inv H. weak_inv H. destruct a0; [by eapply IH|]. destruct (a =? open_brace).
  { weak_inv H. destruct (0 <? _); [by injection H|]. weak_inv H. destruct a1 as [[j out1]|]; [|by injection H].
    eapply IH; [|exact H]. by eapply parse_name_ok. }
  destruct (a =? open_bracket).
  { weak_inv H. destruct a0 as [[j out1]|]; [|by injection H]. eapply IH; [|exact H].
    eapply parse_name_ok; [|exact E1]. apply Forall_app. split; [done|].
    apply list.Forall_singleton, CheatEntry_new_ok. }
  weak_inv H. destruct a0; [|by injection H]. destruct cur as [k|]; [|by injection H]. weak_inv H.
  destruct (Z.leb_spec 256 (def_num_opcodes (definition a0))); [by injection H|]. weak_inv H.
  destruct a1; cbn [negb] in H; [|by injection H]. weak_inv H. weak_inv H. eapply IH; [|exact H].
  apply arr_get_inv in E2 as (_ & _ & Ha). eapply arr_set_Forall; [exact Ho| |eassumption].
  eapply push_opcode_ok; [|apply u32_range| |eassumption]; [|done].
  by apply (Forall_lookup_1 _ _ _ _ Ho Ha).
Qed.

Lemma Parse_entries data c es : Parse data = Done c es -> Forall entry_ok es.
Proof.
  unfold Parse. intros H. weak_inv H. destruct a as [out|]; injection H as _ <-; [|constructor].
  assert (Ho : Forall entry_ok out).
  { eapply parse_loop_entries; [|exact E]. apply list.Forall_singleton, CheatEntry_new_ok. }
  apply Forall_lookup_2. intros i e. rewrite list_lookup_imap. intros (e' & He & ->)%fmap_Some.
  by apply (Forall_lookup_1 _ _ _ _ Ho He).
Qed.

(** ** What a run does to its environment *)

Section Environment.
Context {E : Type} `{!Callbacks E}.

(** One use of a callback. *)
Inductive env_step : E -> E -> Prop :=
| env_read a n e : env_step e (MemoryReadUnsafe a n e).2
| env_write a v n e : valid_width n = true -> env_step e (MemoryWriteUnsafe a v n e)
| env_keys e : env_step e (HidKeysDown e).2
| env_pause e : env_step e (cb_PauseProcess e)
| env_resume e : env_step e (cb_ResumeProcess e)
| env_log i v e : env_step e (cb_DebugLog i v e).

Lemma write_memory_env t a v e : rtc env_step e (write_memory t a v e).
Proof.
  unfold write_memory. destruct (valid_width t) eqn:Et; [|done]. by apply rtc_once, env_write.
Qed.

Lemma read_memory_env t a old e : rtc env_step e (read_memory t a old e).2.
Proof.
  unfold read_memory. destruct (valid_width t); [|done].
  pose proof (env_read a t e) as H. destruct (MemoryReadUnsafe a t e). by apply rtc_once.
Qed.

Lemma read_memory_env' t a old e v e' : read_memory t a old e = (v, e') -> rtc env_step e e'.
Proof. intros H. pose proof (read_memory_env t a old e) as Hr. by rewrite H in Hr. Qed.

Section Opcode.
Variables (lf : bool) (md : CheatProcessMetadata) (kDown : Z).

Ltac env_done H := injection H as _ _ <-; first [reflexivity | apply write_memory_env].

Lemma exec_opcode_env op v e c v' e' :
  exec_opcode lf md kDown op v e = Done c (v', e') -> rtc env_step e e'.
Proof.
  destruct op; cbn [exec_opcode]; intros H.
  - weak_inv H. env_done H.
  - unfold exec_BeginConditional in H. destruct (read_memory _ _ _ _) as [x e1] eqn:Er.
    weak_inv H. injection H as _ _ <-. by eapply read_memory_env'.
  - destruct is_else; [weak_inv H; env_done H|]. destruct (0 <? _); env_done H.
  - unfold exec_ControlLoop in H. destruct start_loop; weak_inv H; weak_inv H; [env_done H|].
    destruct (negb _); [weak_inv H|]; env_done H.
  - weak_inv H. env_done H.
  - unfold exec_LoadRegisterMemory in H. weak_inv H. cbv zeta in H.
    destruct (read_memory _ _ _ _) as [x e1] eqn:Er. weak_inv H. injection H as _ _ <-.
    by eapply read_memory_env'.
  - unfold exec_StoreStaticToAddress in H. do 3 weak_inv H. env_done H.
  - unfold exec_PerformArithmeticStatic in H. do 3 weak_inv H. env_done H.
  - weak_inv H. env_done H.
  - unfold exec_PerformArithmeticRegister in H. do 4 weak_inv H. env_done H.
  - unfold exec_StoreRegisterToAddress in H. do 4 weak_inv H. env_done H.
  - unfold exec_BeginRegisterConditional in H. do 2 weak_inv H. destruct a0 as [x e1]. weak_inv H.
    injection H as _ _ <-.
    destruct (_ =? CompareRegisterValueType.StaticValue); [by injection E1 as _ _ <-|].
    destruct (_ =? CompareRegisterValueType.OtherRegister); [weak_inv E1; by injection E1 as _ _ <-|].
    weak_inv E1. injection E1 as _ Er. by eapply read_memory_env'.
  - unfold exec_SaveRestoreRegister in H. repeat destruct (_ =? _); repeat weak_inv H; env_done H.
  - unfold exec_SaveRestoreRegisterMask in H. destruct (_ || _); weak_inv H; env_done H.
  - unfold exec_ReadWriteStaticRegister in H. destruct (_ <? _); do 2 weak_inv H; env_done H.
  - injection H as _ _ <-. apply rtc_once, env_pause.
  - injection H as _ _ <-. apply rtc_once, env_resume.
  - unfold exec_DebugLog in H. weak_inv H. destruct a as [x e1]. injection H as _ _ <-.
    transitivity e1; [|apply rtc_once, env_log].
    destruct (_ =? DebugLogValueType.RegisterValue); [weak_inv E0; by injection E0 as _ _ <-|].
    weak_inv E0. injection E0 as _ Er. by eapply read_memory_env'.
  - env_done H.
Qed.

Lemma Execute_step_env v e c b v' e' : Execute_step lf md kDown v e = Done c (b, v', e') -> rtc env_step e e'.
Proof.
  unfold Execute_step. intros E0. weak_inv E0. destruct a as [[op|] v2]; [|by injection E0 as _ _ _ <-].
  cbv zeta in E0. weak_inv E0. destruct a as [v3 e3]. injection E0 as _ _ _ <-. by eapply exec_opcode_env.
Qed.

(** One round of the main loop. *)
Definition round (x y : DmntCheatVm * E) : Prop := exists c b, Execute_step lf md kDown x.1 x.2 = Done c (b, y.1, y.2).

Lemma rounds_env x y : rtc round x y -> rtc env_step x.2 y.2.
Proof. induction 1 as [x|x y z (c & b & H1) _ IH]; [done|]. transitivity y.2; [by eapply Execute_step_env|done]. Qed.

Lemma Execute_loop_rounds fuel : forall v e c v' e', Execute_loop lf md kDown fuel v e = Done c (Some (v', e')) -> rtc round (v, e) (v', e').
Proof.
  induction fuel as [|fuel IH]; intros v e c v' e' H; cbn [Execute_loop] in H; [by injection H|].
  weak_inv H. destruct a as [[go v1] e1]. assert (round (v, e) (v1, e1)) as H1 by (by exists c0, go).
  destruct go; [|injection H as _ <- <-; by apply rtc_once]. eapply rtc_l; [exact H1|]. by eapply IH.
Qed.
End Opcode.

End Environment.

(** ** What a frame does to the system *)

(** The states of a frame: after loading the program and reading the keys, the state after any number of rounds of the machine,
    also of a machine that never ends. *)
Definition in_frame {S : Type} `{!EmulatedSystem S} (lf : bool) (g : CheatEngine) (s s' : S) : Prop :=
  exists c g1, reload_if_pending g = Done c g1 /\
    (s' = s \/ let keys := std_HidKeysDown s in exists v, rtc (@round S (StandardVmCallbacks (metadata g1)) lf (metadata g1) keys.1) (ResetState (vm g1), keys.2) (v, s')).

(** What cheats may do to the system: write blocks of at most eight bytes that start in one of the four regions, drop the compiled code of such blocks,
    take the pressed keys, pause and resume the process, and log. *)
Inductive permitted {S : Type} `{!EmulatedSystem S} (m : CheatProcessMetadata) : S -> S -> Prop :=
| may_write s a v n : IsAddressInRange m a = true -> 1 <= n <= 8 -> permitted m s (WriteBlock s a v n).2
| may_invalidate s a n : IsAddressInRange m a = true -> 1 <= n <= 8 -> permitted m s (InvalidateInstructionCacheRange s a n)
| may_press s k s' : GetAndResetPressState s = Some (k, s') -> permitted m s s'
| may_activity s b : permitted m s (SetActivity b s)
| may_log s i v : permitted m s (LogDebug i v s).

Section Confinement.
Context {S : Type} `{!EmulatedSystem S}.

Lemma env_step_permitted m s s' : @env_step S (StandardVmCallbacks m) s s' -> rtc (permitted m) s s'.
Proof.
  intros [a n e|a v n e Hn|e|e|e|i v e]; cbn.
  - unfold std_MemoryReadUnsafe. by destruct (_ || _).
  - unfold std_MemoryWriteUnsafe. destruct (IsAddressInRange m a) eqn:Ea; [|done]. cbn [negb orb].
    destruct (negb _); [done|]. assert (1 <= n <= 8) as Hr by (unfold valid_width in Hn; lia). pose proof (may_write m e a v n Ea Hr) as Hw.
    destruct (WriteBlock e a v n) as [ch s1]. cbn [snd] in Hw. destruct ch; [|by apply rtc_once]. eapply rtc_l; [exact Hw|]. by apply rtc_once, may_invalidate.
  - unfold std_HidKeysDown. destruct (GetAndResetPressState e) as [[k s1]|] eqn:Ek; [|done]. by eapply rtc_once, may_press.
  - unfold std_PauseProcess. destruct (IsSuspended e); [done|apply rtc_once, may_activity].
  - unfold std_ResumeProcess. destruct (negb _); [done|apply rtc_once, may_activity].
  - apply rtc_once, may_log.
Qed.

Lemma env_permitted m s s' : rtc (@env_step S (StandardVmCallbacks m)) s s' -> rtc (permitted m) s s'.
Proof. induction 1 as [s|s s1 s2 H1 _ IH]; [done|]. transitivity s1; [by apply env_step_permitted|done]. Qed.

Lemma reload_metadata g c g' : reload_if_pending g = Done c g' -> metadata g' = metadata g.
Proof.
  unfold reload_if_pending. destruct (is_pending_reload g); [|by intros [= _ <-]].
  intros H. weak_inv H. destruct a as [ok v]. by injection H as _ <-.
Qed.

End Confinement.

(** ** The properties of the engine *)

Definition engine_ok (g : CheatEngine) : Prop := vm_wf (vm g) /\ Forall entry_ok (cheats g).

(** Cheats that come out of the parser, whatever the text, are loaded at the next frame without
    leaving an array: the program is then the words of the enabled cheats in order, or empty when
    they do not fit, and the engine is ready to run it. *)
Theorem cheat_engine_reload data c es g :
  Parse data = Done c es -> engine_ok g ->
  exists g', reload_if_pending (Reload es g) = Done true g' /\ engine_ok g' /\
    is_pending_reload g' = false /\ metadata g' = metadata g /\
    if decide (Z.of_nat (length (enabled_words es)) <= MaximumProgramOpcodeCount)
    then num_opcodes (vm g') = Z.of_nat (length (enabled_words es)) /\
         words_at (vm g') 0 (enabled_words es)
    else num_opcodes (vm g') = 0.
Proof.
  intros Hp%Parse_entries [Hw _].
  destruct (load_program_ok (vm g) es Hw Hp) as (ok & v & E & W & H1 & H2 & H3).
  unfold reload_if_pending, Reload. cbn [is_pending_reload vm cheats metadata]. rewrite E. ostep.
  eexists. split; [reflexivity|]. split; [by split|]. split; [done|]. split; [done|]. cbn [vm].
  destruct (decide _) as [Hfit|Hfit]; [by apply H2, H1|]. apply H3. destruct ok; [|done].
  by destruct Hfit; apply H1.
Qed.

(** ** Printing and parsing *)

Definition hex_digit (n : Z) : Z := if n <? 10 then 48 + n else 55 + n.
Definition print_hex (w : Z) : list Z :=
  map (fun k => hex_digit ((w / 2 ^ k) mod 16)) [28; 24; 20; 16; 12; 8; 4; 0].
Definition print_words (ws : list Z) : list Z := concat (map (fun w => print_hex w ++ [10]) ws).

(** A cheat as a file has it: its name and its words. *)
Notation cheat := (list Z * list Z)%type.

Definition print_entry (opening closing : Z) (x : cheat) : list Z :=
  opening :: x.1 ++ closing :: 10 :: print_words x.2.

(** The master cheat in braces, then the others in brackets. *)
Definition print_cheats (master : option cheat) (l : list cheat) : list Z :=
  match master with None => [] | Some x => print_entry open_brace close_brace x end ++
  concat (map (print_entry open_bracket close_bracket) l).

Definition cheat_ok (closing : Z) (x : cheat) : Prop :=
  (0 < length x.1 < 64)%nat /\ closing ∉ x.1 /\ (length x.2 <= 256)%nat /\ Forall (in_u 32) x.2.

(** The entry of a cheat before it gets its number. *)
Definition raw_entry (x : cheat) : CheatEntry :=
  mkEntry false 0 (mkDefinition (x.1 ++ replicate (64 - length x.1) 0) (Z.of_nat (length x.2))
                     (x.2 ++ replicate (256 - length x.2) 0)).

Lemma hex_digit_facts n : 0 <= n < 16 ->
  0 <= hex_digit n /\ is_space (hex_digit n) = false /\ is_xdigit (hex_digit n) = true /\
  xdigit_value (hex_digit n) = n /\ hex_digit n =? open_brace = false /\ hex_digit n =? open_bracket = false.
Proof.
  intros Hn. assert (Hin : In n [0; 1; 2; 3; 4; 5; 6; 7; 8; 9; 10; 11; 12; 13; 14; 15]) by (simpl; lia).
  simpl in Hin. by repeat (destruct Hin as [<-|Hin]; [vm_compute|]).
Qed.

Lemma nibble_mod w k : 0 <= (w / 2 ^ k) mod 16 < 16.
Proof. apply Z.mod_pos_bound. lia. Qed.

Lemma strtoul16_print w : in_u 32 w -> strtoul16 (print_hex w) = w.
Proof.
  intros Hw. unfold strtoul16, print_hex. cbn [map fold_left].
  rewrite !(proj1 (proj2 (proj2 (proj2 (hex_digit_facts _ (nibble_mod w _)))))).
  unfold in_u in Hw. Z.div_mod_to_equations. lia.
Qed.

Lemma all_xdigit_print w : all_xdigit (print_hex w) = mret true.
Proof.
  unfold print_hex. assert (H : forall l, all_xdigit (map (fun k => hex_digit ((w / 2 ^ k) mod 16)) l) = mret true).
  { induction l as [|k l IH]; cbn [map all_xdigit]; [done|].
    destruct (hex_digit_facts _ (nibble_mod w k)) as (H0 & _ & H1 & _). unfold ctype.
    rewrite (proj2 (Z.ltb_ge _ _)) by lia. ostep. by rewrite H1, IH. }
  apply H.
Qed.

Section Parsing.
Context (data : list Z).

(** The text from a position on. *)
Notation at_ i := (drop (Z.to_nat i) data).

Lemma char_at i c r : 0 <= i -> at_ i = c :: r -> arr_get data i = mret c /\ i < data_size data.
Proof.
  intros Hi H. assert (Hl : data !! Z.to_nat i = Some c).
  { rewrite <- (Nat.add_0_r (Z.to_nat i)), <- lookup_drop, H. done. }
  split; [by apply arr_get_Some|]. apply lookup_lt_Some in Hl. unfold data_size. lia.
Qed.

Lemma at_app i a b : 0 <= i -> at_ i = a ++ b -> at_ (i + Z.of_nat (length a)) = b.
Proof.
  intros Hi H. replace (Z.to_nat (i + Z.of_nat (length a))) with (Z.to_nat i + length a)%nat by lia.
  rewrite <- drop_drop, H. by rewrite drop_app_length.
Qed.

Lemma find_match_ok m name : forall fuel i r,
  0 <= i -> at_ i = name ++ m :: r -> m ∉ name -> (length name < fuel)%nat ->
  find_match fuel data m i = mret (Some (i + Z.of_nat (length name))).
Proof.
  induction name as [|c name IH]; intros fuel i r Hi Ha Hm Hf; (destruct fuel as [|fuel]; [simpl in Hf; lia|]);
    cbn [find_match app length] in *; destruct (char_at i _ _ Hi Ha) as [-> Hlt]; ostep.
  - by rewrite Z.eqb_refl, Z.add_0_r.
  - rewrite not_elem_of_cons in Hm. rewrite (proj2 (Z.eqb_neq c m)) by (destruct Hm; congruence).
    cbv zeta. pose proof (at_app i [c] _ Hi Ha) as Ha'. cbn [length] in Ha'. change (Z.of_nat 1) with 1 in Ha'.
    rewrite (proj2 (Z.ltb_ge _ _)) by lia. rewrite (IH fuel (i + 1) r); [|lia|done|tauto|lia].
    do 2 f_equal. lia.
Qed.

Lemma ExtractName_ok m name i r :
  0 <= i -> at_ i = name ++ m :: r -> m ∉ name -> (length name < 64)%nat ->
  ExtractName data i m = mret (Z.of_nat (length name), name).
Proof.
  intros Hi Ha Hm Hl. unfold ExtractName.
  assert (Hlen : (length name < S (length data))%nat).
  { apply (f_equal length) in Ha. rewrite length_drop, length_app in Ha. cbn in Ha. lia. }
  rewrite (find_match_ok m name _ i r Hi Ha Hm Hlen). ostep. cbv zeta.
  replace (i + Z.of_nat (length name) - i) with (Z.of_nat (length name)) by lia.
  rewrite (proj2 (Z.ltb_ge _ _)) by lia. unfold substr.
  replace (i + Z.of_nat (length name) - i) with (Z.of_nat (length name)) by lia.
  rewrite Ha, Nat2Z.id. by rewrite take_app_length.
Qed.

Lemma copy_name_new name :
  (length name < 64)%nat -> copy_name name (replicate 64 0) = name ++ replicate (64 - length name) 0.
Proof.
  intros Hl. unfold copy_name. rewrite take_ge by lia. rewrite drop_replicate.
  apply list_insert_id. rewrite lookup_app_r by lia. apply lookup_replicate. split; [done|lia].
Qed.

Lemma parse_name_new m name i out r :
  0 <= i -> at_ (i + 1) = name ++ m :: r -> m ∉ name -> (0 < length name < 64)%nat ->
  parse_name data i m (Z.of_nat (length out)) (out ++ [CheatEntry_new]) =
    mret (Some (i + Z.of_nat (length name) + 1, out ++ [raw_entry (name, [])])).
Proof.
  intros Hi Ha Hm Hl. unfold parse_name. rewrite (ExtractName_ok m name (i + 1) r) by (done || lia). ostep.
  cbv beta iota. destruct name as [|c name]; [simpl in Hl; lia|].
  rewrite (arr_get_Some _ _ CheatEntry_new) by
    (lia || (rewrite Nat2Z.id, lookup_app_r, Nat.sub_diag by lia; done)). ostep.
  rewrite arr_set_lt by (rewrite length_app; cbn [length]; lia). ostep.
  rewrite Nat2Z.id, insert_app_r_alt, Nat.sub_diag by lia. do 4 f_equal.
  unfold set_name, raw_entry. cbn [fst snd]. by rewrite copy_name_new by lia.
Qed.

Lemma push_opcode_raw name ws w :
  (length ws < 256)%nat -> push_opcode w (raw_entry (name, ws)) = mret (raw_entry (name, ws ++ [w])).
Proof.
  intros Hl. unfold push_opcode, raw_entry. cbn [definition opcodes def_num_opcodes readable_name fst snd enabled cheat_id].
  rewrite arr_set_lt by (rewrite length_app, length_replicate; lia). ostep. do 2 f_equal.
  rewrite Nat2Z.id, insert_app_r_alt, Nat.sub_diag by lia.
  replace (256 - length ws)%nat with (S (256 - length (ws ++ [w]))) by (rewrite length_app; simpl; lia).
  cbn [replicate insert list_insert]. rewrite length_app. cbn [length].
  f_equal; [lia|]. by rewrite <- app_assoc.
Qed.

Lemma parse_newline fuel i out cur r :
  0 <= i -> at_ i = 10 :: r ->
  parse_loop (S fuel) data i out cur = parse_loop fuel data (i + 1) out cur.
Proof.
  intros Hi Ha. destruct (char_at i _ _ Hi Ha) as [Hc Hlt]. cbn [parse_loop].
  rewrite (proj2 (Z.leb_gt _ _)) by lia. rewrite Hc. ostep.
  change (ctype is_space 10) with (mret true : outcome bool). by ostep.
Qed.

Lemma parse_word fuel i out k name ws w r :
  0 <= i -> at_ i = (print_hex w ++ [10]) ++ r -> in_u 32 w -> (length ws < 256)%nat ->
  out !! k = Some (raw_entry (name, ws)) ->
  parse_loop (S fuel) data i out (Some (Z.of_nat k)) =
    parse_loop fuel data (i + 9) (<[k := raw_entry (name, ws ++ [w])]> out) (Some (Z.of_nat k)).
Proof.
  intros Hi Ha Hw Hl Hk. rewrite <- app_assoc in Ha. assert (Hsub : substr data i 8 = print_hex w).
  { unfold substr. rewrite Ha. done. }
  destruct (hex_digit_facts _ (nibble_mod w 28)) as (H0 & H1 & H2 & _ & H3 & H4).
  destruct (char_at i _ _ Hi Ha) as [Hc Hlt]. cbn [parse_loop].
  rewrite (proj2 (Z.leb_gt _ _)) by lia. rewrite Hc. ostep. unfold ctype.
  rewrite (proj2 (Z.ltb_ge _ (-1))) by lia. ostep. rewrite H1, H3, H4. ostep. rewrite H2.
  rewrite (arr_get_Some _ _ (raw_entry (name, ws))) by (lia || by rewrite Nat2Z.id). ostep.
  rewrite (proj2 (Z.leb_gt _ _)) by (cbn; lia). cbv zeta. rewrite Hsub, all_xdigit_print. ostep. cbn [negb].
  rewrite strtoul16_print by done. rewrite (u32_small w), push_opcode_raw by done. ostep.
  apply lookup_lt_Some in Hk. rewrite arr_set_lt by lia. ostep. rewrite Nat2Z.id.
  by replace (i + 8 + 1) with (i + 9) by lia.
Qed.

Lemma print_words_length ws : Z.of_nat (length (print_words ws)) = 9 * Z.of_nat (length ws).
Proof.
  induction ws as [|w ws IH]; [done|]. unfold print_words in *. cbn [map concat].
  rewrite length_app. change (length (print_hex w ++ [10])) with 9%nat. cbn [length]. lia.
Qed.

Lemma parse_words ws : forall fuel i out k name ws0 r,
  0 <= i -> at_ i = print_words ws ++ r -> Forall (in_u 32) ws ->
  (length ws0 + length ws <= 256)%nat -> out !! k = Some (raw_entry (name, ws0)) ->
  parse_loop (length ws + fuel) data i out (Some (Z.of_nat k)) =
    parse_loop fuel data (i + 9 * Z.of_nat (length ws)) (<[k := raw_entry (name, ws0 ++ ws)]> out)
      (Some (Z.of_nat k)).
Proof.
  induction ws as [|w ws IH]; intros fuel i out k name ws0 r Hi Ha Hf Hl Hk.
  { cbn [length Nat.add]. rewrite Z.mul_0_r, Z.add_0_r, app_nil_r. by rewrite list_insert_id. }
  apply Forall_cons_1 in Hf as [Hw Hf]. cbn [length Nat.add] in *.
  change (print_words (w :: ws)) with ((print_hex w ++ [10]) ++ print_words ws) in Ha.
  rewrite <- app_assoc in Ha.
  rewrite (parse_word _ i out k name ws0 w _ Hi Ha Hw) by (done || lia).
  pose proof (at_app i _ _ Hi Ha) as Ha'. change (Z.of_nat (length (print_hex w ++ [10]))) with 9 in Ha'.
  rewrite (IH fuel (i + 9) _ k name (ws0 ++ [w]) r); [|lia|done|done|rewrite length_app; simpl; lia|].
  - rewrite list_insert_insert_eq, <- app_assoc. f_equal. lia.
  - apply list_lookup_insert_eq. by eapply lookup_lt_Some.
Qed.

(** What follows the opening character of an entry whose name has been stored. *)
Lemma parse_body name closing ws fuel i out k r :
  0 <= i -> at_ i = name ++ closing :: 10 :: print_words ws ++ r -> Forall (in_u 32) ws ->
  (length ws <= 256)%nat -> out !! k = Some (raw_entry (name, [])) ->
  parse_loop (S (length ws + fuel)) data (i + Z.of_nat (length name) + 1) out (Some (Z.of_nat k)) =
    parse_loop fuel data (i + Z.of_nat (length name) + 2 + 9 * Z.of_nat (length ws))
      (<[k := raw_entry (name, ws)]> out) (Some (Z.of_nat k)).
Proof.
  intros Hi Ha Hf Hl Hk. pose proof (at_app i name _ Hi Ha) as Ha2.
  assert (Hj : 0 <= i + Z.of_nat (length name)) by lia.
  pose proof (at_app _ [closing] _ Hj Ha2) as Ha3. change (Z.of_nat (length [closing])) with 1 in Ha3.
  assert (Hj1 : 0 <= i + Z.of_nat (length name) + 1) by lia.
  rewrite (parse_newline _ _ _ _ _ Hj1 Ha3).
  pose proof (at_app _ [10] _ Hj1 Ha3) as Ha4. change (Z.of_nat (length [10])) with 1 in Ha4.
  assert (Hj2 : 0 <= i + Z.of_nat (length name) + 1 + 1) by lia.
  rewrite (parse_words ws _ _ _ k name [] r Hj2 Ha4 Hf) by ((simpl; lia) || done).
  f_equal. lia.
Qed.

Lemma print_entry_length opening closing x :
  Z.of_nat (length (print_entry opening closing x)) =
    3 + Z.of_nat (length x.1) + 9 * Z.of_nat (length x.2).
Proof.
  unfold print_entry. cbn [length]. rewrite length_app. cbn [length].
  pose proof (print_words_length x.2). lia.
Qed.

Lemma print_entry_at opening closing x i r :
  0 <= i -> at_ i = print_entry opening closing x ++ r ->
  arr_get data i = mret opening /\ i < data_size data /\
  at_ (i + 1) = x.1 ++ closing :: 10 :: print_words x.2 ++ r.
Proof.
  intros Hi Ha. unfold print_entry in Ha. cbn [app] in Ha. rewrite <- app_assoc in Ha. cbn [app] in Ha.
  destruct (char_at i _ _ Hi Ha) as [Hc Hlt]. split; [done|]. split; [done|].
  exact (at_app i [opening] _ Hi Ha).
Qed.

(** A whole entry in brackets. *)
Lemma parse_bracket x fuel i out cur r :
  0 <= i -> at_ i = print_entry open_bracket close_bracket x ++ r -> cheat_ok close_bracket x ->
  parse_loop (S (S (length x.2 + fuel))) data i out cur =
    parse_loop fuel data (i + Z.of_nat (length (print_entry open_bracket close_bracket x)))
      (out ++ [raw_entry x]) (Some (Z.of_nat (length out))).
Proof.
  rewrite print_entry_length. destruct x as [name ws]. intros Hi Ha (Hn & Hm & Hl & Hf).
  destruct (print_entry_at _ _ _ i r Hi Ha) as (Hc & Hlt & Ha1). cbn [fst snd] in *.
  set (fuel1 := S (length ws + fuel)). cbn [parse_loop]. rewrite (proj2 (Z.leb_gt _ _)) by lia.
  rewrite Hc. ostep. change (ctype is_space open_bracket) with (mret false : outcome bool).
  change (open_bracket =? open_brace) with false. rewrite Z.eqb_refl. ostep. cbv zeta.
  rewrite (parse_name_new _ name i out _ Hi Ha1) by done. ostep. cbv beta iota. subst fuel1.
  replace (i + Z.of_nat (length name) + 1 + 1) with ((i + 1) + Z.of_nat (length name) + 1) by lia.
  rewrite (parse_body name close_bracket ws fuel (i + 1) _ (length out) r) by
    (lia || done || (rewrite lookup_app_r, Nat.sub_diag by lia; done)).
  rewrite insert_app_r_alt, Nat.sub_diag by lia. cbn [insert list_insert]. f_equal. lia.
Qed.

(** The entry in braces: it replaces the master entry, which has no word yet. *)
Lemma parse_brace x fuel i cur r :
  0 <= i -> at_ i = print_entry open_brace close_brace x ++ r -> cheat_ok close_brace x ->
  parse_loop (S (S (length x.2 + fuel))) data i [CheatEntry_new] cur =
    parse_loop fuel data (i + Z.of_nat (length (print_entry open_brace close_brace x)))
      [raw_entry x] (Some 0).
Proof.
  rewrite print_entry_length. destruct x as [name ws]. intros Hi Ha (Hn & Hm & Hl & Hf).
  destruct (print_entry_at _ _ _ i r Hi Ha) as (Hc & Hlt & Ha1). cbn [fst snd] in *.
  set (fuel1 := S (length ws + fuel)). cbn [parse_loop]. rewrite (proj2 (Z.leb_gt _ _)) by lia.
  rewrite Hc. ostep. change (ctype is_space open_brace) with (mret false : outcome bool).
  ostep. rewrite Z.eqb_refl. change (arr_get [CheatEntry_new] 0) with (mret CheatEntry_new : outcome CheatEntry).
  ostep. change (0 <? def_num_opcodes (definition CheatEntry_new)) with false. cbv iota.
  pose proof (parse_name_new _ name i [] _ Hi Ha1 Hm Hn) as E. cbn [app length] in E.
  change (Z.of_nat 0) with 0 in E. rewrite E. ostep. cbv beta iota. subst fuel1.
  replace (i + Z.of_nat (length name) + 1 + 1) with ((i + 1) + Z.of_nat (length name) + 1) by lia.
  rewrite (parse_body name close_brace ws fuel (i + 1) _ 0 r : _ -> _ -> _ -> _ -> _ ->
    parse_loop _ _ _ _ (Some 0) = _) by (lia || done).
  cbn [insert list_insert]. f_equal. lia.
Qed.

(** All the entries in brackets, up to the end of the text. *)
Lemma parse_brackets l : forall fuel i out cur,
  0 <= i -> at_ i = concat (map (print_entry open_bracket close_bracket) l) ->
  Forall (cheat_ok close_bracket) l -> (length (at_ i) < fuel)%nat ->
  parse_loop fuel data i out cur = mret (Some (out ++ map raw_entry l)).
Proof.
  induction l as [|x l IH]; intros fuel i out cur Hi Ha Hf Hl; cbn [map concat] in Ha.
  - assert (data_size data <= i).
    { apply (f_equal length) in Ha. rewrite length_drop in Ha. cbn in Ha. unfold data_size. lia. }
    destruct fuel; cbn [parse_loop map]; (rewrite (proj2 (Z.leb_le _ _)) by lia); by rewrite app_nil_r.
  - apply Forall_cons_1 in Hf as [Hx Hf]. pose proof (print_entry_length open_bracket close_bracket x) as Hp.
    pose proof (f_equal length Ha) as Hlen. rewrite length_app in Hlen.
    replace fuel with (S (S (length x.2 + (fuel - 2 - length x.2)))) by lia.
    rewrite (parse_bracket x _ i out cur _ Hi Ha Hx). pose proof (at_app i _ _ Hi Ha) as Ha'.
    rewrite IH; [by rewrite <- app_assoc|lia|done|done|].
    rewrite Ha'. lia.
Qed.
End Parsing.

Definition master_ok (master : option cheat) : Prop :=
  match master with None => True | Some x => cheat_ok close_brace x end.

(** C35: A file that holds a master cheat in braces, or none, and then cheats in brackets, with names of 1
    to 63 characters and at most 256 words each, one to a line, is read back as it was written: entry
    0 is the master cheat, or an empty and disabled one, the others follow in order, every word has
    its value, and exactly the entries that have words are enabled. *)
Theorem cheat_parse_print master l :
  master_ok master -> Forall (cheat_ok close_bracket) l ->
  Parse (print_cheats master l) =
    Done true (imap finish_entry
      (match master with None => CheatEntry_new | Some x => raw_entry x end :: map raw_entry l)).
Proof.
  intros Hm Hl. unfold Parse. set (data := print_cheats master l). destruct master as [x|].
  - pose proof (print_entry_length open_brace close_brace x) as Hp.
    assert (Hlen : length data = (length (print_entry open_brace close_brace x) +
      length (concat (map (print_entry open_bracket close_bracket) l)))%nat).
    { unfold data, print_cheats. by rewrite length_app. }
    replace (S (length data)) with (S (S (length x.2 + (length data - 1 - length x.2)))) by lia.
    rewrite (parse_brace data x _ 0 None _ ltac:(lia) eq_refl Hm).
    pose proof (at_app data 0 _ _ ltac:(lia) eq_refl) as Ha.
    rewrite (parse_brackets data l); [done|lia|exact Ha|done|].
    rewrite length_drop. lia.
  - rewrite (parse_brackets data l); [done|lia|done|done|]. rewrite length_drop. lia.
Qed.

(** ** Examples *)

Definition example_words : list Z := [0x04000000; 0x00000010; 0x00000005].
Definition example_cheat : cheat := ([65; 66], example_words).
Definition example_master : cheat := ([77], []).

Lemma cheat_parse_print_witness :
  Parse (print_cheats (Some example_master) [example_cheat; example_cheat]) =
    Done true [finish_entry 0 (raw_entry example_master); finish_entry 1 (raw_entry example_cheat);
               finish_entry 2 (raw_entry example_cheat)].
Proof.
  assert (Hf : Forall (in_u 32) example_words) by (unfold example_words, in_u; repeat constructor; lia).
  apply (cheat_parse_print (Some example_master) [example_cheat; example_cheat]).
  - repeat split; [simpl; lia..| | |constructor].
    + cbn. rewrite list_elem_of_singleton. discriminate.
    + simpl. lia.
  - assert (Hx : cheat_ok close_bracket example_cheat).
    { repeat split; [simpl; lia..| | |exact Hf]; [|simpl; lia].
      cbn. rewrite !not_elem_of_cons. repeat split; try discriminate. apply not_elem_of_nil. }
    by repeat (apply list.Forall_cons; split).
Defined.

(** A name that the text does not close is searched past the end of the text. *)
Lemma unterminated_name_overruns : Parse [open_bracket; 65] = Undef.
Proof. reflexivity. Qed.

(** The character after the eighth digit of a word is skipped whatever it is. *)
Lemma separator_unchecked :
  Parse ([open_bracket; 65; close_bracket] ++ print_hex 1 ++ [open_brace] ++ print_hex 2) =
  Parse ([open_bracket; 65; close_bracket] ++ print_hex 1 ++ [10] ++ print_hex 2).
Proof. by vm_compute. Qed.

Definition example_engine : CheatEngine :=
  SetMainMemoryParameters 0x1000 0x100 (CheatEngine_new [] (replicate 32 0)).

Lemma cheat_engine_reload_witness :
  exists es g', Parse (print_cheats None [example_cheat]) = Done true es /\
    reload_if_pending (Reload es example_engine) = Done true g' /\
    num_opcodes (vm g') = 3 /\ words_at (vm g') 0 example_words.
Proof.
  set (es := imap finish_entry [CheatEntry_new; raw_entry example_cheat]).
  assert (Hp : Parse (print_cheats None [example_cheat]) = Done true es) by (by vm_compute).
  destruct (cheat_engine_reload _ _ _ example_engine Hp) as (g' & E & _ & _ & _ & H).
  { split; [apply DmntCheatVm_new_wf|by apply list.Forall_nil]. }
  exists es, g'. split; [done|]. split; [done|].
  destruct (decide _) as [_|Hn]; [exact H|]. destruct Hn. by vm_compute.
Defined.

(** A system that is only a memory of bytes. *)
#[local] Instance byte_memory : EmulatedSystem (Z -> Z) := {|
  IsValidVirtualAddress _ _ := true;
  ReadBlock s a n := fold_right (fun k acc => s (a + Z.of_nat k) + 256 * acc) 0 (seq 0 (Z.to_nat n));
  WriteBlock s a v n :=
    (true, fun x => if (a <=? x) && (x <? a + n) then (v / 2 ^ (8 * (x - a))) mod 256 else s x);
  InvalidateInstructionCacheRange s _ _ := s;
  GetAndResetPressState _ := None;
  IsSuspended _ := false;
  SetActivity _ s := s;
  LogDebug _ _ s := s
|}.

