(* ===== verification/MacroInterpreter.v ===== *)
(** * MacroInterpreter: the macro processor of the GPU

    Models [MacroInterpreterImpl] of video_core/macro.h and macro.cpp: the opcodes of namespace [Macro], the registers, the fetching of parameters, the arithmetic with its carry,
    sending to the methods of the engine, branches with their delay slots, and the run of a whole macro.

    The engine behind it, [Engines::Maxwell3D], is the class [Maxwell3D]: calling a method, and reading a register.

    The theorems say that the recursive step of the interpreter is the two-state machine the delay slots are meant to be, that macros without backward branches end, that registers stay in range and register 0 stays zero along every
    run, that the carry chains of the arithmetic compute on 64 bits, and which methods a sequence of sends calls. *)

From S2P Require Import Prelude BitField.

Module Macro.
Definition NUM_MACRO_REGISTERS : Z := 8.

Inductive Operation := ALU | AddImmediate | ExtractInsert | ExtractShiftLeftImmediate | ExtractShiftLeftRegister | Read | Unused | Branch.
Inductive ALUOperation := Add | AddWithCarry | Subtract | SubtractWithBorrow | Xor | Or | And | AndNot | Nand.
Inductive ResultOperation := IgnoreAndFetch | Move | MoveAndSetMethod | FetchAndSend | MoveAndSend | FetchAndSetMethod | MoveAndSetMethodFetchAndSend | MoveAndSetMethodSend.
Inductive BranchCondition := Zero | NotZero.

#[global] Instance Operation_dec : EqDecision Operation.
Proof. solve_decision. Defined.

(** The values of the enumerations. *)
Definition all_operations : list Operation := [ALU; AddImmediate; ExtractInsert; ExtractShiftLeftImmediate; ExtractShiftLeftRegister; Read; Unused; Branch].
Definition all_results : list ResultOperation :=
  [IgnoreAndFetch; Move; MoveAndSetMethod; FetchAndSend; MoveAndSend; FetchAndSetMethod; MoveAndSetMethodFetchAndSend; MoveAndSetMethodSend].
Definition ALUOperation_of (v : Z) : option ALUOperation :=
  match v with
  | 0 => Some Add | 1 => Some AddWithCarry | 2 => Some Subtract | 3 => Some SubtractWithBorrow
  | 8 => Some Xor | 9 => Some Or | 10 => Some And | 11 => Some AndNot | 12 => Some Nand | _ => None
  end.

(** The fields of an opcode. *)
Definition field (position bits : Z) (raw : Z) : Z := ExtractValue (mkField position bits 32) raw.
Definition operation (raw : Z) : Operation := nth (Z.to_nat (field 0 3 raw)) all_operations Unused.
Definition result_operation (raw : Z) : ResultOperation := nth (Z.to_nat (field 4 3 raw)) all_results Move.
Definition branch_condition (raw : Z) : BranchCondition := if field 4 1 raw =? 0 then Zero else NotZero.
Definition branch_annul (raw : Z) : bool := negb (field 5 1 raw =? 0).
Definition is_exit (raw : Z) : bool := negb (field 7 1 raw =? 0).
Definition dst (raw : Z) : Z := field 8 3 raw.
Definition src_a (raw : Z) : Z := field 11 3 raw.
Definition src_b (raw : Z) : Z := field 14 3 raw.
Definition immediate (raw : Z) : Z := ExtractValue_signed (mkField 14 18 32) raw.
Definition alu_operation (raw : Z) : option ALUOperation := ALUOperation_of (field 17 5 raw).
Definition bf_src_bit (raw : Z) : Z := field 17 5 raw.
Definition bf_size (raw : Z) : Z := field 22 5 raw.
Definition bf_dst_bit (raw : Z) : Z := field 27 5 raw.

(** [1 << bf_size] is an [int], and so is the difference. *)
Definition GetBitfieldMask (raw : Z) : outcome Z :=
  let m := s32 (1 .<< bf_size raw) - 1 in
  if (- 2 ^ 31 <=? m) && (m <? 2 ^ 31) then mret (u32 m) else Undef.
Definition GetBranchTarget (raw : Z) : Z := s32 (u64 (u64 (immediate raw) * 4)).

(** A method address, with the increment each send adds. *)
Definition address_field : BitField := mkField 0 12 32.
Definition increment_field : BitField := mkField 12 6 32.
End Macro.

(** A shift of a 32-bit value by its width or more is undefined. *)
Definition shl32 (x n : Z) : outcome Z := if (0 <=? n) && (n <? 32) then mret (u32 (x .<< n)) else Undef.
Definition shr32 (x n : Z) : outcome Z := if (0 <=? n) && (n <? 32) then mret (x .>> n) else Undef.

(** What the interpreter needs of the engine. *)
Class Maxwell3D (E : Type) := {
  CallMethod : Z -> Z -> bool -> E -> outcome E;
  GetRegisterValue : Z -> E -> outcome Z
}.

Record MacroInterpreterImpl := mkInterpreter {
  registers : list Z;
  parameters : list Z;
  code : list Z;
  delayed_pc : option Z;
  method_address : Z;
  pc : Z;
  next_parameter_index : Z;
  carry_flag : bool
}.

Definition with_registers r s := mkInterpreter r (parameters s) (code s) (delayed_pc s) (method_address s) (pc s) (next_parameter_index s) (carry_flag s).
Definition with_parameters p s := mkInterpreter (registers s) p (code s) (delayed_pc s) (method_address s) (pc s) (next_parameter_index s) (carry_flag s).
Definition with_delayed d s := mkInterpreter (registers s) (parameters s) (code s) d (method_address s) (pc s) (next_parameter_index s) (carry_flag s).
Definition with_method m s := mkInterpreter (registers s) (parameters s) (code s) (delayed_pc s) m (pc s) (next_parameter_index s) (carry_flag s).
Definition with_pc p s := mkInterpreter (registers s) (parameters s) (code s) (delayed_pc s) (method_address s) p (next_parameter_index s) (carry_flag s).
Definition with_index i s := mkInterpreter (registers s) (parameters s) (code s) (delayed_pc s) (method_address s) (pc s) i (carry_flag s).
Definition with_carry c s := mkInterpreter (registers s) (parameters s) (code s) (delayed_pc s) (method_address s) (pc s) (next_parameter_index s) c.

Definition MacroInterpreterImpl_new (code : list Z) : MacroInterpreterImpl := mkInterpreter (replicate 8 0) [] code None 0 0 0 false.
Definition Reset (s : MacroInterpreterImpl) : MacroInterpreterImpl := mkInterpreter (replicate 8 0) (parameters s) (code s) None 0 0 1 false.

Section Interpreter.
Context {E : Type} `{!Maxwell3D E}.
Notation state := MacroInterpreterImpl.

Definition GetOpcode (s : state) : outcome Z :=
  ASSERT (pc s mod 4 =? 0);;
  ASSERT (pc s <? u64 (Z.of_nat (length (code s)) * 4));;
  arr_get (code s) (pc s / 4).
Definition GetRegister (register_id : Z) (s : state) : outcome Z := arr_get (registers s) register_id.
Definition SetRegister (register_id value : Z) (s : state) : outcome state :=
  if register_id =? 0 then mret s else r ← arr_set (registers s) register_id value; mret (with_registers r s).
Definition SetMethodAddress (address : Z) (s : state) : state := with_method address s.

Definition FetchParameter (s : state) : outcome (Z * state) :=
  ASSERT (next_parameter_index s <? Z.of_nat (length (parameters s)));;
  p ← arr_get (parameters s) (next_parameter_index s);
  mret (p, with_index (u32 (next_parameter_index s + 1)) s).

Definition Send (value : Z) (s : state) (e : E) : outcome (state * E) :=
  let address := ExtractValue Macro.address_field (method_address s) in
  e ← CallMethod address value true e;
  mret (with_method (Assign Macro.address_field (method_address s) (u32 (address + ExtractValue Macro.increment_field (method_address s)))) s, e).

Definition GetALUResult (op : option Macro.ALUOperation) (src_a src_b : Z) (s : state) : outcome (Z * state) :=
  match op with
  | Some Macro.Add => let result := src_a + src_b in mret (u32 result, with_carry (0xffffffff <? result) s)
  | Some Macro.AddWithCarry => let result := src_a + src_b + (if carry_flag s then 1 else 0) in mret (u32 result, with_carry (0xffffffff <? result) s)
  | Some Macro.Subtract => let result := u64 (src_a - src_b) in mret (u32 result, with_carry (result <? 0x100000000) s)
  | Some Macro.SubtractWithBorrow => let result := u64 (src_a - src_b - (if carry_flag s then 0 else 1)) in mret (u32 result, with_carry (result <? 0x100000000) s)
  | Some Macro.Xor => mret (src_a .^ src_b, s)
  | Some Macro.Or => mret (src_a .| src_b, s)
  | Some Macro.And => mret (src_a .& src_b, s)
  | Some Macro.AndNot => mret (src_a .& notu 32 src_b, s)
  | Some Macro.Nand => mret (notu 32 (src_a .& src_b), s)
  | None => ASSERT false;; mret (0, s)
  end.

Definition ProcessResult (op : Macro.ResultOperation) (reg result : Z) (s : state) (e : E) : outcome (state * E) :=
  match op with
  | Macro.IgnoreAndFetch => '(p, s) ← FetchParameter s; s ← SetRegister reg p s; mret (s, e)
  | Macro.Move => s ← SetRegister reg result s; mret (s, e)
  | Macro.MoveAndSetMethod => s ← SetRegister reg result s; mret (SetMethodAddress result s, e)
  | Macro.FetchAndSend => '(p, s) ← FetchParameter s; s ← SetRegister reg p s; Send result s e
  | Macro.MoveAndSend => s ← SetRegister reg result s; Send result s e
  | Macro.FetchAndSetMethod => '(p, s) ← FetchParameter s; s ← SetRegister reg p s; mret (SetMethodAddress result s, e)
  | Macro.MoveAndSetMethodFetchAndSend => s ← SetRegister reg result s; '(p, s) ← FetchParameter (SetMethodAddress result s); Send p s e
  | Macro.MoveAndSetMethodSend => s ← SetRegister reg result s; Send ((result .>> 12) .& 63) (SetMethodAddress result s) e
  end.

Definition EvaluateBranchCondition (cond : Macro.BranchCondition) (value : Z) : bool :=
  match cond with Macro.Zero => value =? 0 | Macro.NotZero => negb (value =? 0) end.

(** The operations that are not branches. *)
Definition exec_operation (opcode : Z) (s : state) (e : E) : outcome (state * E) :=
  let finish result s := ProcessResult (Macro.result_operation opcode) (Macro.dst opcode) result s e in
  match Macro.operation opcode with
  | Macro.ALU =>
      a ← GetRegister (Macro.src_a opcode) s;
      b ← GetRegister (Macro.src_b opcode) s;
      '(result, s) ← GetALUResult (Macro.alu_operation opcode) a b s;
      finish result s
  | Macro.AddImmediate => a ← GetRegister (Macro.src_a opcode) s; finish (u32 (a + Macro.immediate opcode)) s
  | Macro.ExtractInsert =>
      a ← GetRegister (Macro.src_a opcode) s;
      b ← GetRegister (Macro.src_b opcode) s;
      mask ← Macro.GetBitfieldMask opcode;
      src ← shr32 b (Macro.bf_src_bit opcode);
      hole ← shl32 mask (Macro.bf_dst_bit opcode);
      inserted ← shl32 (src .& mask) (Macro.bf_dst_bit opcode);
      finish ((a .& notu 32 hole) .| inserted) s
  | Macro.ExtractShiftLeftImmediate =>
      a ← GetRegister (Macro.src_a opcode) s;
      b ← GetRegister (Macro.src_b opcode) s;
      mask ← Macro.GetBitfieldMask opcode;
      src ← shr32 b a;
      result ← shl32 (src .& mask) (Macro.bf_dst_bit opcode);
      finish result s
  | Macro.ExtractShiftLeftRegister =>
      a ← GetRegister (Macro.src_a opcode) s;
      b ← GetRegister (Macro.src_b opcode) s;
      mask ← Macro.GetBitfieldMask opcode;
      src ← shr32 b (Macro.bf_src_bit opcode);
      result ← shl32 (src .& mask) a;
      finish result s
  | Macro.Read => a ← GetRegister (Macro.src_a opcode) s; v ← GetRegisterValue (u32 (a + Macro.immediate opcode)) e; finish v s
  | Macro.Unused | Macro.Branch => ASSERT false;; mret (s, e)
  end.

(** A step calls itself for the instruction in a delay slot; [depth] bounds these calls. *)
Fixpoint Step (depth : nat) (is_delay_slot : bool) (s : state) (e : E) : outcome (bool * state * E) :=
  match depth with
  | O => Undef
  | S depth' =>
      let base_address := pc s in
      opcode ← GetOpcode s;
      let s := with_pc (u32 (pc s + 4)) s in
      s ← match delayed_pc s with
          | Some target => ASSERT is_delay_slot;; mret (with_delayed None (with_pc target s))
          | None => mret s
          end;
      let leave (s : state) (e : E) :=
        if Macro.is_exit opcode && negb is_delay_slot then '(_, s, e) ← Step depth' true s e; mret (false, s, e)
        else mret (true, s, e) in
      if decide (Macro.operation opcode = Macro.Branch) then
        ASSERT (negb is_delay_slot);;
        value ← GetRegister (Macro.src_a opcode) s;
        if EvaluateBranchCondition (Macro.branch_condition opcode) value then
          let target := u32 (base_address + Macro.GetBranchTarget opcode) in
          if Macro.branch_annul opcode then mret (true, with_pc target s, e)
          else Step depth' true (with_delayed (Some target) s) e
        else leave s e
      else
        '(s, e) ← exec_operation opcode s e;
        leave s e
  end.

(** The loop of [Execute]; [None] when [fuel] rounds were not enough. *)
Fixpoint Execute_loop (depth fuel : nat) (s : state) (e : E) : outcome (option (state * E)) :=
  match fuel with
  | O => mret None
  | S fuel' =>
      '(keep_executing, s, e) ← Step depth false s e;
      if keep_executing : bool then Execute_loop depth fuel' s e else mret (Some (s, e))
  end.

Definition Execute (depth fuel : nat) (params : list Z) (s : state) (e : E) : outcome (option (state * E)) :=
  let s := Reset s in
  p ← arr_get params 0;
  r ← arr_set (registers s) 1 p;
  let s := with_parameters params (with_registers r s) in
  o ← Execute_loop depth fuel s e;
  match o with
  | None => mret None
  | Some (s, e) => ASSERT (next_parameter_index s =? Z.of_nat (length (parameters s)));; mret (Some (s, e))
  end.
End Interpreter.

(** ** What an operation leaves alone *)

(** The program, the place in it, and the parameters. *)
Definition same_place (s s' : MacroInterpreterImpl) : Prop := code s' = code s /\ pc s' = pc s /\ delayed_pc s' = delayed_pc s /\ parameters s' = parameters s.

Lemma same_place_refl s : same_place s s.
Proof. done. Qed.
Lemma same_place_trans s1 s2 s3 : same_place s1 s2 -> same_place s2 s3 -> same_place s1 s3.
Proof. unfold same_place. intuition congruence. Qed.

Lemma bind_Done {A B} (m : outcome A) (f : A -> outcome B) ok r : (m ≫= f) = Done ok r -> exists a ok1 ok2, m = Done ok1 a /\ f a = Done ok2 r /\ ok = ok1 && ok2.
Proof. intros (ok1 & ok2 & a & Hm & Hf & ->)%bind_Done_weak_inv. by exists a, ok1, ok2. Qed.

Lemma mret_Done {A} (a b : A) ok : mret a = Done ok b -> ok = true /\ b = a.
Proof. intros [= <- <-]. done. Qed.

(** Take a run that has ended apart, down to its last steps. *)
Ltac run_inv :=
  repeat match goal with
  | H : (_ ≫= _) = Done _ _ |- _ =>
      let a := fresh "a" in let o1 := fresh "ok" in let o2 := fresh "ok" in let H1 := fresh "R" in let H2 := fresh "R" in
      apply bind_Done in H as (a & o1 & o2 & H1 & H2 & ->); cbv beta iota zeta in H2
  | H : mret _ = Done _ _ |- _ => let H1 := fresh in let H2 := fresh in apply mret_Done in H as [H1 H2]
  | H : (_, _) = (_, _) |- _ => injection H as ? ?
  | p : (_ * _)%type |- _ => destruct p; cbv beta iota zeta in *
  end; subst.

Section Facts.
Context {E : Type} `{!Maxwell3D E}.
Implicit Types (s : MacroInterpreterImpl) (e : E).

Lemma SetRegister_place reg v s s' ok : SetRegister reg v s = Done ok s' -> same_place s s'.
Proof. unfold SetRegister. destruct (reg =? 0); intros H; run_inv; done. Qed.
Lemma FetchParameter_place s p s' ok : FetchParameter s = Done ok (p, s') -> same_place s s'.
Proof. unfold FetchParameter. intros H. run_inv. done. Qed.
Lemma Send_place v s e s' e' ok : Send v s e = Done ok (s', e') -> same_place s s'.
Proof. unfold Send. intros H. run_inv. done. Qed.
Lemma GetALUResult_place op a b s v s' ok : GetALUResult op a b s = Done ok (v, s') -> same_place s s'.
Proof. unfold GetALUResult. destruct op as [[]|]; cbv zeta; intros H; run_inv; done. Qed.

Ltac place :=
  repeat match goal with
  | H : SetRegister _ _ _ = Done _ _ |- _ => apply SetRegister_place in H
  | H : FetchParameter _ = Done _ (_, _) |- _ => apply FetchParameter_place in H
  | H : Send _ _ _ = Done _ (_, _) |- _ => apply Send_place in H
  | H : GetALUResult _ _ _ _ = Done _ (_, _) |- _ => apply GetALUResult_place in H
  end; unfold same_place, SetMethodAddress in *; cbn in *; intuition congruence.

Lemma ProcessResult_place op reg v s e s' e' ok : ProcessResult op reg v s e = Done ok (s', e') -> same_place s s'.
Proof. destruct op; cbn [ProcessResult]; intros H; run_inv; place. Qed.

Lemma exec_place opcode s e s' e' ok : exec_operation opcode s e = Done ok (s', e') -> same_place s s'.
Proof.
  unfold exec_operation. destruct (Macro.operation opcode); cbv zeta; intros H; run_inv; try done;
    match goal with H : ProcessResult _ _ _ _ _ = _ |- _ => apply ProcessResult_place in H end; place.
Qed.

(** ** Delay slots as a machine with a mode

    What the macro processor is meant to be: one instruction after the other, where the instruction behind a taken branch, and the one behind an exit, still run. *)

Inductive mode := Running | Slot (target : Z) | Leaving.
#[global] Instance mode_dec : EqDecision mode.
Proof. solve_decision. Defined.

(** One instruction; no next mode means that the macro has ended. *)
Definition ref_step (m : mode) (s : MacroInterpreterImpl) (e : E) : outcome (option mode * MacroInterpreterImpl * E) :=
  opcode ← GetOpcode s;
  let next := u32 (pc s + 4) in
  match m with
  | Running =>
      let mode' := if Macro.is_exit opcode then Leaving else Running in
      if decide (Macro.operation opcode = Macro.Branch) then
        value ← GetRegister (Macro.src_a opcode) s;
        if EvaluateBranchCondition (Macro.branch_condition opcode) value then
          let target := u32 (pc s + Macro.GetBranchTarget opcode) in
          mret (if Macro.branch_annul opcode then (Some Running, with_pc target s, e) else (Some (Slot target), with_pc next s, e))
        else mret (Some mode', with_pc next s, e)
      else '(s, e) ← exec_operation opcode (with_pc next s) e; mret (Some mode', s, e)
  | Slot target => '(s, e) ← exec_operation opcode (with_pc target s) e; mret (Some Running, s, e)
  | Leaving => '(s, e) ← exec_operation opcode (with_pc next s) e; mret (None, s, e)
  end.

Fixpoint ref_run (fuel : nat) (m : mode) (s : MacroInterpreterImpl) (e : E) : outcome (option (MacroInterpreterImpl * E)) :=
  match fuel with
  | O => mret None
  | S fuel' => '(m', s, e) ← ref_step m s e; match m' with Some m' => ref_run fuel' m' s e | None => mret (Some (s, e)) end
  end.

(** No branch in a delay slot. *)
Definition has_slot (opcode : Z) : bool := Macro.is_exit opcode || bool_decide (Macro.operation opcode = Macro.Branch) && negb (Macro.branch_annul opcode).
Definition slots_ok (l : list Z) : Prop := forall i a b, l !! i = Some a -> l !! S i = Some b -> has_slot a = true -> Macro.operation b <> Macro.Branch.

Record program_ok s : Prop := { po_slots : slots_ok (code s); po_size : Z.of_nat (length (code s)) < 2 ^ 30; po_delay : delayed_pc s = None; po_pc : in_u 32 (pc s) }.

Lemma GetOpcode_Done s ok opcode : GetOpcode s = Done ok opcode -> 0 <= pc s / 4 /\ code s !! Z.to_nat (pc s / 4) = Some opcode.
Proof.
  unfold GetOpcode. intros H. run_inv. unfold arr_get in *. destruct (Z.leb_spec 0 (pc s / 4)); [|done]. destruct (code s !! _); [|done]. run_inv. done.
Qed.

(** The instruction behind one with a delay slot. *)
Lemma next_in_slot s s1 ok ok1 a b : program_ok s -> code s1 = code s -> pc s1 = u32 (pc s + 4) -> GetOpcode s = Done ok a -> GetOpcode s1 = Done ok1 b -> has_slot a = true -> Macro.operation b <> Macro.Branch.
Proof.
  intros [Hs Hz _ Hp] Hc Hpc Ha%GetOpcode_Done Hb%GetOpcode_Done Hh. destruct Ha as [Ha0 Ha], Hb as [_ Hb]. rewrite Hc, Hpc in Hb. pose proof (lookup_lt_Some _ _ _ Ha) as Hlt.
  assert (pc s + 4 < 2 ^ 32) by (pose proof (Z_div_mod_eq_full (pc s) 4); pose proof (Z.mod_pos_bound (pc s) 4); lia). destruct Hp. rewrite u32_small in Hb by (unfold in_u; lia).
  replace (pc s + 4) with (pc s + 1 * 4) in Hb by lia. rewrite Z.div_add in Hb by lia. replace (Z.to_nat (pc s / 4 + 1)) with (S (Z.to_nat (pc s / 4))) in Hb by lia. by apply (Hs _ a b Ha Hb).
Qed.

(** The recursive call of a step. *)
Lemma bind_at {A B} ok (a : A) (f g : A -> outcome B) : f a = g a -> (Done ok a ≫= f) = (Done ok a ≫= g).
Proof. intros Hfg. unfold mbind, outcome_mbind, outcome_bind. by rewrite Hfg. Qed.

Lemma Step_slot d s e opcode ok : GetOpcode s = Done ok opcode -> Macro.operation opcode <> Macro.Branch ->
  Step (S d) true s e = (GetOpcode s ≫= fun opcode => '(s, e) ← exec_operation opcode (with_delayed None (with_pc (default (u32 (pc s + 4)) (delayed_pc s)) s)) e; mret (true, s, e)).
Proof.
  intros Ho Hb. cbn [Step]. rewrite Ho. apply bind_at. cbn [delayed_pc with_pc]. destruct s as [r p c dp m q i cf]. destruct dp as [t|]; cbn [delayed_pc default].
  - rewrite bind_assert_true, bind_ret by done. rewrite decide_False by done. rewrite andb_false_r. done.
  - rewrite bind_ret. rewrite decide_False by done. rewrite andb_false_r. done.
Qed.

(** The two instructions of a slot, or one: a whole step of the interpreter. *)
Definition ref_round s e : outcome (bool * MacroInterpreterImpl * E) :=
  '(m, s, e) ← ref_step Running s e;
  match m with
  | Some Running => mret (true, s, e)
  | Some m => '(_, s, e) ← ref_step m s e; mret (match m with Leaving => false | _ => true end, s, e)
  | None => mret (false, s, e)
  end.

Lemma Step_Undef d b s e : GetOpcode s = Undef -> Step d b s e = Undef.
Proof. intros Ho. destruct d; [done|]. cbn [Step]. by rewrite Ho. Qed.

(** Leaving: the instruction behind an exit. *)
Lemma Step_leave d s s1 e1 a ok : program_ok s -> GetOpcode s = Done ok a -> has_slot a = true -> code s1 = code s -> pc s1 = u32 (pc s + 4) -> delayed_pc s1 = None ->
  ('(_, s, e) ← Step (S d) true s1 e1; mret (false, s, e)) = ('(_, s, e) ← ref_step Leaving s1 e1; mret (false, s, e)).
Proof.
  intros Hp Ha Hh Hc Hpc Hd. destruct (GetOpcode s1) as [|ok1 b] eqn:Hb. { unfold ref_step. by rewrite (Step_Undef (S d) true s1 e1 Hb), Hb. }
  rewrite (Step_slot d s1 e1 b ok1 Hb (next_in_slot s s1 ok ok1 a b Hp Hc Hpc Ha Hb Hh)). unfold ref_step. rewrite Hb, !bind_assoc. apply bind_at. rewrite Hd. cbn [default].
  replace (with_delayed None (with_pc (u32 (pc s1 + 4)) s1)) with (with_pc (u32 (pc s1 + 4)) s1) by (destruct s1; cbn in *; by subst). rewrite !bind_assoc. apply bind_ext. intros [s' e']. by rewrite !bind_ret.
Qed.

Lemma Step_branch d s e a ok target : program_ok s -> GetOpcode s = Done ok a -> has_slot a = true ->
  Step (S d) true (with_delayed (Some target) (with_pc (u32 (pc s + 4)) s)) e = ('(_, s, e) ← ref_step (Slot target) (with_pc (u32 (pc s + 4)) s) e; mret (true, s, e)).
Proof.
  intros Hp Ha Hh. set (s1 := with_delayed (Some target) (with_pc (u32 (pc s + 4)) s)). assert (GetOpcode (with_pc (u32 (pc s + 4)) s) = GetOpcode s1) as Ho by done.
  destruct (GetOpcode s1) as [|ok1 b] eqn:Hb. { unfold ref_step. by rewrite (Step_Undef (S d) true s1 e Hb), Ho. }
  rewrite (Step_slot d s1 e b ok1 Hb (next_in_slot s s1 ok ok1 a b Hp eq_refl eq_refl Ha Hb Hh)). unfold ref_step. rewrite Hb, Ho, bind_assoc. apply bind_at. change (default (u32 (pc s1 + 4)) (delayed_pc s1)) with target.
  replace (with_delayed None (with_pc target s1)) with (with_pc target (with_pc (u32 (pc s + 4)) s)) by (pose proof (po_delay s Hp); destruct s; cbn in *; by subst).
  rewrite bind_assoc. apply bind_ext. intros [s' e']. by rewrite !bind_ret.
Qed.

(** A step of the interpreter is one round of the machine. *)
Lemma Step_round d s e : program_ok s -> Step (S (S d)) false s e = ref_round s e.
Proof.
  intros Hp. pose proof (po_delay s Hp) as Hd. unfold ref_round. set (R := ref_step Running s e). unfold ref_step in R. subst R. remember (S d) as d1 eqn:Ed. cbn [Step]. destruct (GetOpcode s) as [|ok a] eqn:Ha; [reflexivity|]. rewrite bind_assoc. apply bind_at.
  cbn [delayed_pc with_pc]. rewrite Hd, bind_ret. change (GetRegister (Macro.src_a a) (with_pc (u32 (pc s + 4)) s)) with (GetRegister (Macro.src_a a) s).
  assert (forall s1 e1, Macro.is_exit a = true -> same_place (with_pc (u32 (pc s + 4)) s) s1 ->
    ('(_, s, e) ← Step d1 true s1 e1; mret (false, s, e)) = ('(_, s, e) ← ref_step Leaving s1 e1; mret (false, s, e))) as Hleave.
  { intros s1 e1 Hx (H1 & H2 & H3 & _). subst d1. apply (Step_leave d s s1 e1 a ok Hp Ha); [unfold has_slot; by rewrite Hx|done|done|by rewrite H3]. }
  destruct (decide _) as [Hb|Hb].
  - rewrite bind_assert_true, bind_assoc by done. apply bind_ext. intros v. destruct (EvaluateBranchCondition _ _).
    + destruct (Macro.branch_annul a) eqn:Han; rewrite bind_ret; [done|]. subst d1. apply (Step_branch d s e a ok); [done..|]. unfold has_slot. rewrite bool_decide_eq_true_2, Han by done. apply orb_true_r.
    + rewrite bind_ret. rewrite andb_true_r. destruct (Macro.is_exit a) eqn:Hx; [|done]. by apply Hleave.
  - rewrite bind_assoc. destruct (exec_operation _ _ _) as [|ok1 [s1 e1]] eqn:Hex; [done|]. apply bind_at. apply exec_place in Hex. rewrite bind_ret, andb_true_r.
    destruct (Macro.is_exit a) eqn:Hx; [|done]. by apply Hleave.
Qed.

Lemma bind_intro {A B} (m : outcome A) (f : A -> outcome B) ok1 ok2 a r : m = Done ok1 a -> f a = Done ok2 r -> (m ≫= f) = Done (ok1 && ok2) r.
Proof. intros -> Hf. unfold mbind, outcome_mbind, outcome_bind. by rewrite Hf. Qed.

Definition mode_ok (m : mode) : Prop := match m with Slot t => in_u 32 t | _ => True end.

Lemma program_ok_place s s' p : program_ok s -> in_u 32 p -> same_place (with_pc p s) s' -> program_ok s'.
Proof. intros [] Hp (Hc & Hpc & Hd & _). split; [by rewrite Hc|by rewrite Hc|by rewrite Hd|by rewrite Hpc]. Qed.

Lemma u32_in x : in_u 32 (u32 x).
Proof. apply wrapu_range. lia. Qed.

Lemma program_ok_jump s x : program_ok s -> program_ok (with_pc (u32 x) s).
Proof. intros Hp. apply (program_ok_place s _ (u32 x) Hp (u32_in x)). apply same_place_refl. Qed.

Lemma ref_step_ok m s e ok m' s' e' : program_ok s -> mode_ok m -> ref_step m s e = Done ok (m', s', e') -> program_ok s' /\ match m' with Some m' => mode_ok m' | None => True end.
Proof.
  intros Hp Hm H. unfold ref_step in H. run_inv. destruct m as [|t|]; cbv zeta in *.
  - destruct (decide _).
    + run_inv. destruct (EvaluateBranchCondition _ _); [destruct (Macro.branch_annul _)|]; run_inv; (split; [by apply program_ok_jump|]); [done|apply u32_in|by destruct (Macro.is_exit _)].
    + run_inv. match goal with H : exec_operation _ _ _ = _ |- _ => apply exec_place in H end. split; [by eapply (program_ok_place s); [|apply u32_in|]|by destruct (Macro.is_exit _)].
  - run_inv. match goal with H : exec_operation _ _ _ = _ |- _ => apply exec_place in H end. split; [by apply (program_ok_place s _ t)|done].
  - run_inv. match goal with H : exec_operation _ _ _ = _ |- _ => apply exec_place in H end. split; [by eapply (program_ok_place s); [|apply u32_in|]|done].
Qed.

(** The machine never stops while it runs. *)
Lemma ref_step_running s e ok s' e' : ref_step Running s e <> Done ok (None, s', e').
Proof.
  intros H. unfold ref_step in H. run_inv. destruct (decide _); run_inv; [|done]. destruct (EvaluateBranchCondition _ _); [destruct (Macro.branch_annul _)|]; run_inv; done.
Qed.

(** A round of the machine, taken apart: it is over after one instruction, or after the one in the slot. *)
Lemma ref_round_Done s e ok b s' e' : ref_round s e = Done ok (b, s', e') ->
  (b = true /\ ref_step Running s e = Done ok (Some Running, s', e')) \/
  exists m s1 e1 ok1 ok2 o, ref_step Running s e = Done ok1 (Some m, s1, e1) /\ m <> Running /\ ref_step m s1 e1 = Done ok2 (o, s', e') /\ ok = ok1 && ok2 /\ (if b then o = Some Running else o = None).
Proof.
  unfold ref_round. intros H. apply bind_Done in H as ([[m s1] e1] & ok1 & ok2 & H1 & H2 & ->). destruct m as [[|t|]|].
  - left. apply mret_Done in H2 as [-> [= -> -> ->]]. by rewrite andb_true_r.
  - right. apply bind_Done in H2 as ([[o s2] e2] & ok3 & ok4 & H2 & H3 & ->). apply mret_Done in H3 as [-> [= -> -> ->]]. exists (Slot t), s1, e1, ok1, ok3, o. rewrite andb_true_r. split_and!; try done.
    unfold ref_step in H2. run_inv. done.
  - right. apply bind_Done in H2 as ([[o s2] e2] & ok3 & ok4 & H2 & H3 & ->). apply mret_Done in H3 as [-> [= -> -> ->]]. exists Leaving, s1, e1, ok1, ok3, o. rewrite andb_true_r. split_and!; try done.
    unfold ref_step in H2. run_inv. done.
  - by apply ref_step_running in H1.
Qed.

Lemma interpreter_machine d n : forall s e ok r, program_ok s -> Execute_loop (S (S d)) n s e = Done ok (Some r) -> exists k, ref_run k Running s e = Done ok (Some r).
Proof.
  induction n as [|n IH]; intros s e ok r Hp H; cbn [Execute_loop] in H; [by apply mret_Done in H as [_ ?]|].
  apply bind_Done in H as ([[b s1] e1] & ok1 & ok2 & H1 & H2 & ->). rewrite Step_round in H1 by done. apply ref_round_Done in H1 as [[-> H1]|(m & s0 & e0 & o1 & o2 & o & H0 & Hm & H1 & -> & Ho)].
  - destruct (IH s1 e1 ok2 r) as (k & Hk); [apply (ref_step_ok Running s e _ _ _ _ Hp I H1)|done|]. exists (S k). cbn [ref_run]. by eapply bind_intro; [exact H1|].
  - destruct (ref_step_ok Running s e _ _ _ _ Hp I H0) as [Hp0 Hm0]. destruct (ref_step_ok m s0 e0 _ _ _ _ Hp0 Hm0 H1) as [Hp1 _]. destruct b; rewrite Ho in H1.
    + destruct (IH s1 e1 ok2 r Hp1 H2) as (k & Hk). exists (S (S k)). cbn [ref_run]. rewrite <- andb_assoc. eapply bind_intro; [exact H0|]. by eapply bind_intro; [exact H1|].
    + apply mret_Done in H2 as [-> ->]. exists 2%nat. cbn [ref_run]. rewrite <- andb_assoc. eapply bind_intro; [exact H0|]. by eapply bind_intro; [exact H1|].
Qed.

Lemma machine_interpreter d k : forall s e ok r, program_ok s -> ref_run k Running s e = Done ok (Some r) -> exists n, (n <= k)%nat /\ Execute_loop (S (S d)) n s e = Done ok (Some r).
Proof.
  induction k as [k IH] using lt_wf_ind; intros s e ok r Hp H. destruct k as [|k]; cbn [ref_run] in H; [by apply mret_Done in H as [_ ?]|].
  apply bind_Done in H as ([[m s1] e1] & ok1 & ok2 & H1 & H2 & ->). destruct m as [m|]; [|by apply ref_step_running in H1]. destruct (ref_step_ok Running s e _ _ _ _ Hp I H1) as [Hp1 Hm1].
  assert (forall b s' e' ok', ref_round s e = Done ok' (b, s', e') -> Step (S (S d)) false s e = Done ok' (b, s', e')) as Hst by (intros; by rewrite Step_round).
  destruct (decide (m = Running)) as [->|Hm].
  - destruct (IH k ltac:(lia) s1 e1 ok2 r Hp1 H2) as (n & Hn & En). exists (S n). split; [lia|]. cbn [Execute_loop]. eapply bind_intro; [apply Hst; unfold ref_round; rewrite <- (andb_true_r ok1); by eapply bind_intro; [exact H1|]|done].
  - destruct k as [|k]; cbn [ref_run] in H2; [by apply mret_Done in H2 as [_ ?]|]. apply bind_Done in H2 as ([[o s2] e2] & ok3 & ok4 & H2 & H3 & ->). rewrite andb_assoc.
    destruct (ref_step_ok m s1 e1 _ _ _ _ Hp1 Hm1 H2) as [Hp2 _]. assert (ref_round s e = Done (ok1 && ok3) (match m with Leaving => false | _ => true end, s2, e2)) as Hr.
    { unfold ref_round. eapply bind_intro; [exact H1|]. rewrite <- (andb_true_r ok3). destruct m; [done|by eapply bind_intro; [exact H2|]..]. }
    destruct m as [|t|]; [done|..].
    + assert (o = Some Running) as -> by (unfold ref_step in H2; run_inv; done). destruct (IH k ltac:(lia) s2 e2 ok4 r Hp2 H3) as (n & Hn & En). exists (S n). split; [lia|]. cbn [Execute_loop]. by eapply bind_intro; [by apply Hst|].
    + assert (o = None) as -> by (unfold ref_step in H2; run_inv; done). exists 1%nat. split; [lia|]. cbn [Execute_loop]. by eapply bind_intro; [by apply Hst|].
Qed.

(** ** Registers stay in range *)

(** Eight registers of 32 bits, the first one zero. *)
Record interpreter_ok s : Prop := {
  io_length : length (registers s) = 8%nat;
  io_registers : Forall (in_u 32) (registers s);
  io_zero : registers s !! 0%nat = Some 0;
  io_parameters : Forall (in_u 32) (parameters s);
  io_method : in_u 32 (method_address s)
}.

Lemma opcode_field_range position bits raw : 0 <= position -> 0 < bits -> position + bits <= 32 -> in_u bits (Macro.field position bits raw).
Proof.
  intros H1 H2 H3. unfold Macro.field. assert (field_ok (mkField position bits 32)) as Hf by (unfold field_ok; cbn; lia). apply in_u_of_bits; [lia| |].
  - unfold ExtractValue. apply Z.shiftr_nonneg, Z.land_nonneg. right. apply mask_range, Hf.
  - intros i Hi. rewrite testbit_ExtractValue by (done || lia). cbn. by rewrite (proj2 (Z.ltb_ge _ _)) by lia.
Qed.

Lemma GetRegister_ok id s : interpreter_ok s -> in_u 3 id -> exists v, GetRegister id s = Done true v /\ in_u 32 v.
Proof.
  intros Hs [H0 H1]. unfold GetRegister. destruct (arr_get_lt (registers s) id) as (v & -> & Hv); [rewrite (io_length s Hs); lia|]. exists v. split; [done|].
  pose proof (io_registers s Hs) as Hr. rewrite Forall_lookup in Hr. by apply (Hr (Z.to_nat id)).
Qed.

Lemma SetRegister_ok id v s : interpreter_ok s -> in_u 3 id -> in_u 32 v -> exists s', SetRegister id v s = Done true s' /\ interpreter_ok s' /\ next_parameter_index s' = next_parameter_index s.
Proof.
  intros Hs [H0 H1] Hv. unfold SetRegister. destruct (Z.eqb_spec id 0); [by exists s|]. rewrite arr_set_lt by (rewrite (io_length s Hs); lia). rewrite bind_ret. eexists. split; [done|]. split; [|done]. destruct Hs. split; cbn; try done.
  - by rewrite length_insert.
  - by apply Forall_insert.
  - rewrite list_lookup_insert_ne by lia. done.
Qed.

Lemma FetchParameter_ok s : interpreter_ok s -> 0 <= next_parameter_index s < Z.of_nat (length (parameters s)) -> Z.of_nat (length (parameters s)) < 2 ^ 32 ->
  exists p s', FetchParameter s = Done true (p, s') /\ in_u 32 p /\ interpreter_ok s' /\ next_parameter_index s' = next_parameter_index s + 1.
Proof.
  intros Hs Hi Hl. unfold FetchParameter. rewrite bind_assert_true by (apply Z.ltb_lt; lia). destruct (arr_get_lt (parameters s) (next_parameter_index s)) as (p & -> & Hp); [lia|]. rewrite bind_ret.
  exists p, (with_index (u32 (next_parameter_index s + 1)) s). split; [done|]. split; [|split; [destruct Hs; by split|cbn; apply u32_small; unfold in_u; lia]].
  pose proof (io_parameters s Hs) as Hr. rewrite Forall_lookup in Hr. by apply (Hr (Z.to_nat (next_parameter_index s))).
Qed.

(** The engine answers, with registers of 32 bits. *)
Class EngineOk : Prop := {
  engine_call : forall a v b e, exists ok e', CallMethod a v b e = Done ok e';
  engine_read : forall a e, exists ok v, GetRegisterValue a e = Done ok v /\ in_u 32 v
}.
Context {EO : EngineOk}.

Lemma Assign_range f x v : field_ok f -> in_u (width f) x -> in_u (width f) (Assign f x v).
Proof.
  intros Hf Hx. pose proof Hf as (H1 & H2 & H3). apply in_u_of_bits; [lia| |].
  - unfold Assign. apply Z.lor_nonneg. split; apply Z.land_nonneg; [left; apply Hx|right; by apply mask_range].
  - intros i Hi. rewrite testbit_Assign by (done || lia). rewrite (proj2 (Z.ltb_ge i (position f + bits f))) by lia. rewrite andb_false_r. by rewrite (proj2 (Z.ltb_ge i (width f))) by lia.
Qed.

Lemma Send_ok v s e : interpreter_ok s -> exists ok s' e', Send v s e = Done ok (s', e') /\ interpreter_ok s' /\ next_parameter_index s' = next_parameter_index s.
Proof.
  intros Hs. unfold Send. destruct (engine_call (ExtractValue Macro.address_field (method_address s)) v true e) as (ok & e' & ->). exists (ok && true). eexists _, e'. split; [done|]. split; [|done].
  destruct Hs. split; try done. cbn. apply (Assign_range Macro.address_field); [by vm_compute|done].
Qed.

Lemma in_u_notu x : in_u 32 x -> in_u 32 (notu 32 x).
Proof. intros H. unfold notu. apply in_u_lxor; [lia|done|by vm_compute]. Qed.

Lemma ALU_ok op a b s : interpreter_ok s -> in_u 32 a -> in_u 32 b -> exists ok v s', GetALUResult op a b s = Done ok (v, s') /\ in_u 32 v /\ interpreter_ok s' /\ next_parameter_index s' = next_parameter_index s.
Proof.
  intros Hs Ha Hb. assert (forall c, interpreter_ok (with_carry c s)) as Hc by (intros; destruct Hs; by split).
  destruct op as [[]|]; cbn [GetALUResult]; (do 3 eexists; split; [reflexivity|]); (split; [|by split]); try apply u32_in.
  - apply in_u_lxor; (done || lia).
  - apply in_u_lor; (done || lia).
  - apply in_u_land; (done || apply Hb || lia).
  - apply in_u_land; [lia|done|by apply in_u_notu].
  - apply in_u_notu, in_u_land; (done || apply Hb || lia).
  - by vm_compute.
Qed.

(** What an instruction does to the state: it stays in range, and takes at most one parameter. *)
Definition advanced s s' : Prop := interpreter_ok s' /\ same_place s s' /\ next_parameter_index s <= next_parameter_index s' <= next_parameter_index s + 1.

(** There is a parameter to fetch. *)
Definition can_fetch s : Prop := 0 <= next_parameter_index s < Z.of_nat (length (parameters s)) /\ Z.of_nat (length (parameters s)) < 2 ^ 32.

Lemma with_method_ok m s : interpreter_ok s -> in_u 32 m -> interpreter_ok (with_method m s).
Proof. intros [] Hm. by split. Qed.

Lemma ProcessResult_ok op reg v s e : interpreter_ok s -> in_u 3 reg -> in_u 32 v -> can_fetch s -> exists ok s' e', ProcessResult op reg v s e = Done ok (s', e') /\ advanced s s'.
Proof.
  intros Hs Hr Hv [Hi Hl].
  assert (exists ok s' e', ProcessResult op reg v s e = Done ok (s', e') /\ interpreter_ok s' /\ next_parameter_index s <= next_parameter_index s' <= next_parameter_index s + 1) as (ok & s' & e' & E' & H1 & H2);
    [|exists ok, s', e'; split; [done|]; split; [done|]; split; [by apply (ProcessResult_place _ _ _ _ _ _ _ _ E')|done]].
  destruct (FetchParameter_ok s Hs Hi Hl) as (p & s1 & Ef & Hp & Hs1 & Hx1). destruct (SetRegister_ok reg v s Hs Hr Hv) as (s2 & Er & Hs2 & Hx2). destruct (SetRegister_ok reg p s1 Hs1 Hr Hp) as (s3 & Er3 & Hs3 & Hx3).
  pose proof (with_method_ok v s2 Hs2 Hv) as Hs2m. pose proof (with_method_ok v s3 Hs3 Hv) as Hs3m. unfold SetMethodAddress.
  destruct op; cbn [ProcessResult]; rewrite ?Ef, ?Er, ?bind_Done_true, ?Er3, ?bind_Done_true.
  - exists true, s3, e. split; [done|]. split; [done|]. lia.
  - exists true, s2, e. split; [done|]. split; [done|]. lia.
  - eexists true, _, e. split; [done|]. split; [done|]. cbn. lia.
  - destruct (Send_ok v s3 e Hs3) as (ok & s' & e' & -> & H1 & H2). exists ok, s', e'. split; [done|]. split; [done|]. lia.
  - destruct (Send_ok v s2 e Hs2) as (ok & s' & e' & -> & H1 & H2). exists ok, s', e'. split; [done|]. split; [done|]. lia.
  - eexists true, _, e. split; [done|]. split; [done|]. cbn. lia.
  - pose proof (SetRegister_place _ _ _ _ _ Er) as (_ & _ & _ & Hpar).
    destruct (FetchParameter_ok (with_method v s2) Hs2m) as (q & s4 & E4 & Hq & Hs4 & Hx4); [cbn; rewrite Hpar, Hx2; lia|cbn; by rewrite Hpar|]. unfold SetMethodAddress. rewrite E4, bind_Done_true.
    destruct (Send_ok q s4 e Hs4) as (ok & s' & e' & -> & H1 & H2). exists ok, s', e'. split; [done|]. split; [done|]. cbn in Hx4. lia.
  - destruct (Send_ok ((v .>> 12) .& 63) (with_method v s2) e Hs2m) as (ok & s' & e' & E' & H1 & H2). exists ok, s', e'. split; [exact E'|]. split; [done|]. cbn in H2. lia.
Qed.

(** The operations without a shift by a register, and without the field size whose mask overflows. *)
Definition safe_operation (opcode : Z) : Prop :=
  match Macro.operation opcode with
  | Macro.ExtractShiftLeftImmediate | Macro.ExtractShiftLeftRegister => False
  | Macro.ExtractInsert => Macro.bf_size opcode <> 31
  | _ => True
  end.

Lemma GetBitfieldMask_ok opcode : Macro.bf_size opcode <> 31 -> exists m, Macro.GetBitfieldMask opcode = Done true m /\ in_u 32 m.
Proof.
  intros Hne. pose proof (opcode_field_range 22 5 opcode ltac:(lia) ltac:(lia) ltac:(lia)) as [H0 H1]. change (Macro.field 22 5 opcode) with (Macro.bf_size opcode) in *. unfold Macro.GetBitfieldMask.
  rewrite Z.shiftl_mul_pow2, Z.mul_1_l by lia. assert (2 ^ Macro.bf_size opcode <= 2 ^ 30) by (apply Z.pow_le_mono_r; lia). pose proof (Z.pow_pos_nonneg 2 (Macro.bf_size opcode) ltac:(lia) ltac:(lia)).
  unfold s32. rewrite wraps_small by (unfold in_s; lia). rewrite (proj2 (Z.leb_le _ _)), (proj2 (Z.ltb_lt _ _)) by lia. eexists. split; [done|apply u32_in].
Qed.

Lemma shr32_ok x n : in_u 32 x -> in_u 5 n -> exists v, shr32 x n = Done true v /\ in_u 32 v.
Proof. intros Hx [H0 H1]. unfold shr32. rewrite (proj2 (Z.leb_le 0 n)), (proj2 (Z.ltb_lt n 32)) by lia. eexists. split; [done|]. apply in_u_shiftr; (done || lia). Qed.
Lemma shl32_ok x n : in_u 5 n -> exists v, shl32 x n = Done true v /\ in_u 32 v.
Proof. intros [H0 H1]. unfold shl32. rewrite (proj2 (Z.leb_le 0 n)), (proj2 (Z.ltb_lt n 32)) by lia. eexists. split; [done|apply u32_in]. Qed.

Lemma bind_total {A B} (m : outcome A) (f : A -> outcome B) (P : B -> Prop) ok a : m = Done ok a -> (exists ok b, f a = Done ok b /\ P b) -> exists ok b, (m ≫= f) = Done ok b /\ P b.
Proof. intros -> (ok' & b & Hf & Hb). exists (ok && ok'), b. split; [by eapply bind_intro|done]. Qed.

Lemma exec_total opcode s e : interpreter_ok s -> can_fetch s -> safe_operation opcode -> exists ok r, exec_operation opcode s e = Done ok r /\ advanced s (fst r).
Proof.
  intros Hs Hf Hsafe. assert (forall a b l, 0 <= a -> 0 < l -> a + l <= 32 -> l = b -> in_u b (Macro.field a l opcode)) as Hfr by (intros; subst; by apply opcode_field_range).
  destruct (GetRegister_ok (Macro.src_a opcode) s Hs ltac:(apply Hfr; lia)) as (a & Ea & Ha). destruct (GetRegister_ok (Macro.src_b opcode) s Hs ltac:(apply Hfr; lia)) as (b & Eb & Hb).
  assert (in_u 3 (Macro.dst opcode)) as Hd by (apply Hfr; lia). assert (in_u 5 (Macro.bf_src_bit opcode)) as Hsb by (apply Hfr; lia). assert (in_u 5 (Macro.bf_dst_bit opcode)) as Hdb by (apply Hfr; lia).
  assert (forall v, in_u 32 v -> exists ok r, ProcessResult (Macro.result_operation opcode) (Macro.dst opcode) v s e = Done ok r /\ advanced s (fst r)) as Hpr.
  { intros v Hv. destruct (ProcessResult_ok (Macro.result_operation opcode) (Macro.dst opcode) v s e Hs Hd Hv Hf) as (ok & s' & e' & E' & Hadv). by exists ok, (s', e'). }
  assert (advanced s s) as Hself by (split; [done|split; [apply same_place_refl|lia]]).
  unfold exec_operation, safe_operation in *. destruct (Macro.operation opcode); rewrite ?Ea, ?bind_Done_true, ?Eb, ?bind_Done_true; try done.
  - destruct (ALU_ok (Macro.alu_operation opcode) a b s Hs Ha Hb) as (ok & v & s1 & E1 & Hv & Hs1 & Hx). eapply bind_total; [exact E1|]. pose proof (GetALUResult_place _ _ _ _ _ _ _ E1) as Hpl.
    destruct (ProcessResult_ok (Macro.result_operation opcode) (Macro.dst opcode) v s1 e Hs1 Hd Hv) as (ok' & s' & e' & E' & H1 & H2 & H3).
    { unfold can_fetch in *. destruct Hpl as (_ & _ & _ & ->). by rewrite Hx. }
    exists ok', (s', e'). split; [done|]. split; [done|]. split; [by apply (same_place_trans s s1)|]. cbn. lia.
  - apply Hpr, u32_in.
  - destruct (GetBitfieldMask_ok opcode Hsafe) as (m & -> & Hm). rewrite bind_Done_true. destruct (shr32_ok b _ Hb Hsb) as (v & -> & Hv). rewrite bind_Done_true.
    destruct (shl32_ok m _ Hdb) as (h & -> & Hh). rewrite bind_Done_true. destruct (shl32_ok (v .& m) _ Hdb) as (w & -> & Hw). rewrite bind_Done_true.
    apply Hpr, in_u_lor; [lia| |done]. apply in_u_land; [lia|done|by apply in_u_notu].
  - destruct (engine_read (u32 (a + Macro.immediate opcode)) e) as (ok & v & Er & Hv). eapply bind_total; [exact Er|]. by apply Hpr.
  - eexists _, (s, e). by split.
  - eexists _, (s, e). by split.
Qed.

(** *** Every run keeps the registers in range *)

Lemma GetRegister_keeps id s v ok : interpreter_ok s -> GetRegister id s = Done ok v -> in_u 32 v.
Proof.
  intros Hs. unfold GetRegister, arr_get. destruct (0 <=? id); [|done]. destruct (registers s !! Z.to_nat id) as [x|] eqn:Ex; [|done]. intros H. run_inv.
  pose proof (io_registers s Hs) as Hr. rewrite Forall_lookup in Hr. by apply (Hr (Z.to_nat id)).
Qed.

Lemma SetRegister_keeps id v s s' ok : interpreter_ok s -> in_u 32 v -> SetRegister id v s = Done ok s' -> interpreter_ok s'.
Proof.
  intros Hs Hv. unfold SetRegister. destruct (Z.eqb_spec id 0); intros H; run_inv; [done|]. unfold arr_set in *. destruct (Z.leb_spec 0 id); [|done]. destruct (_ <? _); [|done]. cbn [andb] in *. run_inv.
  destruct Hs. split; cbn; try done; [by rewrite length_insert|by apply Forall_insert|]. rewrite list_lookup_insert_ne by lia. done.
Qed.

Lemma FetchParameter_keeps s p s' ok : interpreter_ok s -> FetchParameter s = Done ok (p, s') -> in_u 32 p /\ interpreter_ok s'.
Proof.
  intros Hs H. unfold FetchParameter in H. run_inv. unfold arr_get in *. destruct (0 <=? _); [|done]. destruct (parameters s !! _) as [x|] eqn:Ex; [|done]. run_inv.
  split; [|destruct Hs; by split]. pose proof (io_parameters s Hs) as Hr. rewrite Forall_lookup in Hr. by apply (Hr _ _ Ex).
Qed.

Lemma Send_keeps v s e s' e' ok : interpreter_ok s -> Send v s e = Done ok (s', e') -> interpreter_ok s'.
Proof. intros Hs H. destruct (Send_ok v s e Hs) as (ok' & s1 & e1 & E1 & H1 & _). rewrite E1 in H. by injection H as _ <- _. Qed.

Ltac keep :=
  repeat match goal with
  | H : interpreter_ok ?s, R : FetchParameter ?s = Done _ (_, _) |- _ => apply (FetchParameter_keeps _ _ _ _ H) in R as [? ?]
  | H : interpreter_ok ?s, V : in_u 32 ?v, R : SetRegister _ ?v ?s = Done _ _ |- _ => apply (SetRegister_keeps _ _ _ _ _ H V) in R
  | H : interpreter_ok ?s, R : Send _ ?s _ = Done _ (_, _) |- _ => apply (Send_keeps _ _ _ _ _ _ H) in R
  | H : interpreter_ok ?s, V : in_u 32 ?v |- context [with_method ?v ?s] => lazymatch goal with _ : interpreter_ok (with_method v s) |- _ => fail | _ => pose proof (with_method_ok v s H V) end
  | H : interpreter_ok ?s, V : in_u 32 ?v, R : context [with_method ?v ?s] |- _ => lazymatch goal with _ : interpreter_ok (with_method v s) |- _ => fail | _ => pose proof (with_method_ok v s H V) end
  end.

Lemma ProcessResult_keeps op reg v s e s' e' ok : interpreter_ok s -> in_u 32 v -> ProcessResult op reg v s e = Done ok (s', e') -> interpreter_ok s'.
Proof. intros Hs Hv. unfold ProcessResult, SetMethodAddress. destruct op; intros H; run_inv; keep; done. Qed.

Lemma shl32_keeps x n v ok : shl32 x n = Done ok v -> in_u 32 v.
Proof. unfold shl32. destruct (_ && _); intros H; run_inv; [apply u32_in|done]. Qed.

Lemma exec_keeps opcode s e s' e' ok : interpreter_ok s -> exec_operation opcode s e = Done ok (s', e') -> interpreter_ok s'.
Proof.
  intros Hs. unfold exec_operation. destruct (Macro.operation opcode); cbv zeta; intros H; run_inv; try done;
    repeat match goal with
    | R : GetRegister _ s = Done _ _ |- _ => apply (GetRegister_keeps _ _ _ _ Hs) in R
    | R : shl32 _ _ = Done _ _ |- _ => apply shl32_keeps in R
    end; match goal with R : ProcessResult _ _ _ _ _ = _ |- _ => eapply ProcessResult_keeps; [| |exact R] end; try done; try apply u32_in.
  - match goal with R : GetALUResult _ ?a ?b _ = _, Ha : in_u 32 ?a, Hb : in_u 32 ?b |- _ => destruct (ALU_ok (Macro.alu_operation opcode) a b s Hs Ha Hb) as (? & ? & ? & E1 & _ & H1 & _); rewrite E1 in R; injection R as _ _ <- end. done.
  - match goal with R : GetALUResult _ ?a ?b _ = _, Ha : in_u 32 ?a, Hb : in_u 32 ?b |- _ => destruct (ALU_ok (Macro.alu_operation opcode) a b s Hs Ha Hb) as (? & ? & ? & E1 & H1 & _); rewrite E1 in R; injection R as _ <- _ end. done.
  - apply in_u_lor; [lia| |done]. apply in_u_land; [lia|done|by apply in_u_notu].
  - match goal with R : GetRegisterValue ?a ?e = _ |- _ => destruct (engine_read a e) as (? & ? & E1 & H1); rewrite E1 in R; injection R as _ <- end. done.
Qed.

Lemma interpreter_ok_place s p d : interpreter_ok s -> interpreter_ok (with_delayed d (with_pc p s)).
Proof. intros []. by split. Qed.
Lemma interpreter_ok_pc s p : interpreter_ok s -> interpreter_ok (with_pc p s).
Proof. intros []. by split. Qed.
Lemma interpreter_ok_delayed s d : interpreter_ok s -> interpreter_ok (with_delayed d s).
Proof. intros []. by split. Qed.

Lemma Step_keeps depth : forall slot s e ok b s' e', interpreter_ok s -> Step depth slot s e = Done ok (b, s', e') -> interpreter_ok s'.
Proof.
  induction depth as [|d IH]; intros slot s e ok b s' e' Hs; cbn [Step]; [done|]. intros H. apply bind_Done in H as (a & ok1 & ok2 & _ & H & ->). cbv zeta in H.
  apply bind_Done in H as (s1 & ok3 & ok4 & Hd & H & ->). assert (interpreter_ok s1) as Hs1.
  { cbn [delayed_pc with_pc] in Hd. destruct (delayed_pc s); run_inv; [by apply interpreter_ok_place, interpreter_ok_pc|by apply interpreter_ok_pc]. }
  assert (forall s2 e2 o, interpreter_ok s2 -> (if Macro.is_exit a && negb slot then '(_, s, e) ← Step d true s2 e2; mret (false, s, e) else mret (true, s2, e2)) = Done o (b, s', e') -> interpreter_ok s') as Hleave.
  { intros s2 e2 o Hs2 H2. destruct (_ && _); run_inv; [by eapply IH|done]. }
  destruct (decide _).
  - apply bind_Done in H as (? & ? & ? & _ & H & ->). apply bind_Done in H as (? & ? & ? & _ & H & ->). destruct (EvaluateBranchCondition _ _); [|by eapply Hleave].
    destruct (Macro.branch_annul a); [run_inv; by apply interpreter_ok_pc|]. eapply IH; [|exact H]. by apply interpreter_ok_delayed.
  - apply bind_Done in H as ([s2 e2] & ? & ? & H2 & H & ->). eapply Hleave; [|exact H]. by apply (exec_keeps a s1 e s2 e2 _ Hs1 H2).
Qed.

Lemma Execute_loop_keeps depth n : forall s e ok s' e', interpreter_ok s -> Execute_loop depth n s e = Done ok (Some (s', e')) -> interpreter_ok s'.
Proof.
  induction n as [|n IH]; intros s e ok s' e' Hs; cbn [Execute_loop]; intros H; [run_inv; done|]. apply bind_Done in H as ([[b s1] e1] & ? & ? & H1 & H & ->). apply Step_keeps in H1; [|done].
  destruct b; [by eapply IH|]. by apply mret_Done in H as [_ [= <- <-]].
Qed.

(** ** Macros without backward branches end *)

(** Branches go forward and stop before the last two instructions; the last but one leaves. *)
Record forward_program (l : list Z) : Prop := {
  fp_length : (2 <= length l)%nat /\ Z.of_nat (length l) < 2 ^ 28;
  fp_slots : slots_ok l;
  fp_forward : forall i a, l !! i = Some a -> Macro.operation a = Macro.Branch -> exists k, Macro.immediate a = Z.of_nat k /\ (1 <= k)%nat /\ (i + k + 2 <= length l)%nat;
  fp_leaves : exists a, l !! (length l - 2)%nat = Some a /\ Macro.operation a <> Macro.Branch /\ Macro.is_exit a = true
}.

(** The interpreter is about to run instruction [i], with [n] parameters left. *)
Record ready l i n s : Prop := {
  re_code : code s = l;
  re_pc : pc s = 4 * Z.of_nat i;
  re_delay : delayed_pc s = None;
  re_ok : interpreter_ok s;
  re_index : 0 <= next_parameter_index s /\ next_parameter_index s + n <= Z.of_nat (length (parameters s)) < 2 ^ 32
}.

Lemma GetOpcode_at l i n s a : ready l i n s -> Z.of_nat (length l) < 2 ^ 28 -> l !! i = Some a -> GetOpcode s = Done true a.
Proof.
  intros [Hc Hp _ _ _] Hl Ha. pose proof (lookup_lt_Some _ _ _ Ha). unfold GetOpcode. rewrite Hc, Hp.
  rewrite bind_assert_true by (replace (4 * Z.of_nat i) with (Z.of_nat i * 4) by lia; by rewrite Z.mod_mul). rewrite bind_assert_true by (rewrite u64_small by lia; apply Z.ltb_lt; lia).
  replace (4 * Z.of_nat i / 4) with (Z.of_nat i) by (rewrite Z.mul_comm, Z.div_mul; lia). unfold arr_get. by rewrite (proj2 (Z.leb_le _ _)), Nat2Z.id, Ha by lia.
Qed.

Lemma ready_advanced l i n s s' : ready l i (n + 1) s -> advanced s s' -> ready l i n s'.
Proof. intros [] (Hok & (Hc & Hpc & Hd & Hpar) & Hi). split; [congruence|congruence|congruence|done|]. rewrite Hpar. lia. Qed.

Lemma ready_pc l i n s p j : ready l i n s -> p = 4 * Z.of_nat j -> ready l j n (with_pc p s).
Proof. intros [] ->. split; try done. by apply interpreter_ok_pc. Qed.

Lemma ready_less l i n m s : ready l i n s -> m <= n -> ready l i m s.
Proof. intros [] Hm. split; try done. lia. Qed.

Lemma ready_fetch l i n s : ready l i n s -> 0 < n -> can_fetch s.
Proof. intros [_ _ _ _ Hi] Hn. unfold can_fetch. lia. Qed.

Lemma next_pc i : Z.of_nat i < 2 ^ 28 -> u32 (4 * Z.of_nat i + 4) = 4 * Z.of_nat (S i).
Proof. intros Hi. rewrite u32_small by (unfold in_u; lia). lia. Qed.

Lemma branch_pc i k : Z.of_nat i + Z.of_nat k < 2 ^ 28 -> u32 (4 * Z.of_nat i + s32 (u64 (u64 (Z.of_nat k) * 4))) = 4 * Z.of_nat (i + k).
Proof. intros Hi. rewrite (u64_small (Z.of_nat k)), u64_small by lia. unfold s32. rewrite wraps_small by (unfold in_s; lia). rewrite u32_small by (unfold in_u; lia). lia. Qed.

Lemma forward_lookup l i : Forall safe_operation l -> (i < length l)%nat -> exists a, l !! i = Some a /\ safe_operation a.
Proof. intros Hs Hi. destruct (lookup_lt_is_Some_2 l i Hi) as [a Ha]. exists a. split; [done|]. rewrite Forall_lookup in Hs. by apply (Hs i). Qed.

(** The instruction in a slot. *)
Lemma slot_total l i n s e a m p j : forward_program l -> ready l i (n + 1) s -> 0 <= n -> l !! i = Some a -> safe_operation a ->
  m = Slot p /\ p = 4 * Z.of_nat j \/ m = Leaving /\ j = S i ->
  exists ok o s' e', ref_step m s e = Done ok (o, s', e') /\ ready l j n s' /\ o = match m with Leaving => None | _ => Some Running end.
Proof.
  intros Hf Hr Hn Ha Hsafe Hm. destruct (fp_length l Hf) as [_ Hl]. pose proof (lookup_lt_Some _ _ _ Ha) as Hlt. unfold ref_step. rewrite (GetOpcode_at l i _ s a Hr Hl Ha), bind_Done_true. cbv zeta.
  destruct Hm as [(-> & ->)|(-> & ->)].
  - pose proof (ready_pc l i _ s _ j Hr eq_refl) as Hr1. destruct (exec_total a _ e (re_ok _ _ _ _ Hr1) (ready_fetch _ _ _ _ Hr1 ltac:(lia)) Hsafe) as (ok & [s' e'] & -> & Hadv).
    exists (ok && true), (Some Running), s', e'. split; [done|]. split; [|done]. by apply (ready_advanced l j n _ _ Hr1).
  - rewrite (re_pc _ _ _ _ Hr), next_pc by lia. pose proof (ready_pc l i _ s _ (S i) Hr eq_refl) as Hr1. destruct (exec_total a _ e (re_ok _ _ _ _ Hr1) (ready_fetch _ _ _ _ Hr1 ltac:(lia)) Hsafe) as (ok & [s' e'] & -> & Hadv).
    exists (ok && true), None, s', e'. split; [done|]. split; [|done]. by apply (ready_advanced l (S i) n _ _ Hr1).
Qed.

(** The instruction outside a slot: it goes on behind it, or to a later place, by way of a slot or at once. *)
Lemma running_total l i n s e : forward_program l -> Forall safe_operation l -> ready l i (n + 1) s -> 0 <= n -> (i + 2 <= length l)%nat ->
  exists ok m s' e', ref_step Running s e = Done ok (Some m, s', e') /\
    ((m = Running /\ exists j, (i < j)%nat /\ (j + 2 <= length l)%nat /\ ready l j n s') \/
     (ready l (S i) n s' /\ (m = Leaving \/ exists j, m = Slot (4 * Z.of_nat j) /\ (i < j)%nat /\ (j + 2 <= length l)%nat))).
Proof.
  intros Hf Hso Hr Hn Hi. destruct (fp_length l Hf) as [_ Hl]. destruct (forward_lookup l i Hso ltac:(lia)) as (a & Ha & Hsafe). unfold ref_step. rewrite (GetOpcode_at l i _ s a Hr Hl Ha), bind_Done_true. cbv zeta.
  rewrite (re_pc _ _ _ _ Hr), next_pc by lia. pose proof (ready_pc l i _ s _ (S i) Hr eq_refl) as Hr1.
  assert (Macro.is_exit a = true \/ (S i + 2 <= length l)%nat) as Hnext.
  { destruct (decide (S i + 2 <= length l)%nat); [by right|left]. destruct (fp_leaves l Hf) as (b & Hb & _ & Hx). replace (length l - 2)%nat with i in Hb by lia. congruence. }
  assert (forall s' : MacroInterpreterImpl, ready l (S i) n s' -> (if Macro.is_exit a then Leaving else Running) = Running /\ (exists j, (i < j)%nat /\ (j + 2 <= length l)%nat /\ ready l j n s') \/
    ready l (S i) n s' /\ ((if Macro.is_exit a then Leaving else Running) = Leaving \/ exists j, (if Macro.is_exit a then Leaving else Running) = Slot (4 * Z.of_nat j) /\ (i < j)%nat /\ (j + 2 <= length l)%nat)) as Hgo.
  { intros s' Hs'. destruct (Macro.is_exit a); [right; split; [done|by left]|]. destruct Hnext as [|Hx]; [done|]. left. split; [done|]. exists (S i). split; [lia|]. done. }
  destruct (decide _) as [Hb|Hb].
  - destruct (GetRegister_ok (Macro.src_a a) s (re_ok _ _ _ _ Hr)) as (v & -> & _); [apply opcode_field_range; lia|]. rewrite bind_Done_true. destruct (fp_forward l Hf i a Ha Hb) as (k & Hk & Hk1 & Hk2).
    unfold Macro.GetBranchTarget. rewrite Hk, branch_pc by lia. destruct (EvaluateBranchCondition _ _).
    + destruct (Macro.branch_annul a); (do 4 eexists; split; [done|]).
      * left. split; [done|]. exists (i + k)%nat. split; [lia|]. split; [lia|]. apply (ready_less l _ (n + 1)); [by apply (ready_pc l i)|lia].
      * right. split; [apply (ready_less l _ (n + 1)); [done|lia]|]. right. exists (i + k)%nat. split; [done|]. lia.
    + do 4 eexists. split; [done|]. apply Hgo, (ready_less l _ (n + 1)); [done|lia].
  - destruct (exec_total a _ e (re_ok _ _ _ _ Hr1) (ready_fetch _ _ _ _ Hr1 ltac:(lia)) Hsafe) as (ok & [s' e'] & -> & Hadv). exists (ok && true). do 3 eexists. split; [done|]. apply Hgo. by apply (ready_advanced l (S i) n _ _ Hr1).
Qed.

Lemma forward_round l i n s e : forward_program l -> Forall safe_operation l -> ready l i (n + 2) s -> 0 <= n -> (i + 2 <= length l)%nat ->
  exists ok b s' e', ref_round s e = Done ok (b, s', e') /\ (b = true -> exists j, (i < j)%nat /\ (j + 2 <= length l)%nat /\ ready l j n s').
Proof.
  intros Hf Hso Hr Hn Hi. unfold ref_round. replace (n + 2) with (n + 1 + 1) in Hr by lia. destruct (running_total l i (n + 1) s e Hf Hso Hr ltac:(lia) Hi) as (ok & m & s1 & e1 & E1 & Hm).
  destruct Hm as [(-> & j & Hj1 & Hj2 & Hrj)|(Hr1 & Hm)].
  - exists (ok && true), true, s1, e1. split; [by eapply bind_intro; [exact E1|]|]. intros _. exists j. split; [done|]. split; [done|]. apply (ready_less l j (n + 1)); [done|lia].
  - destruct (forward_lookup l (S i) Hso ltac:(lia)) as (a & Ha & Hsafe). destruct Hm as [->|(j & -> & Hj1 & Hj2)].
    + destruct (slot_total l (S i) n s1 e1 a Leaving 0 (S (S i)) Hf Hr1 Hn Ha Hsafe) as (ok2 & o & s2 & e2 & E2 & _ & _); [by right|].
      exists (ok && (ok2 && true)), false, s2, e2. split; [|done]. eapply bind_intro; [exact E1|]. by eapply bind_intro; [exact E2|].
    + destruct (slot_total l (S i) n s1 e1 a (Slot (4 * Z.of_nat j)) (4 * Z.of_nat j) j Hf Hr1 Hn Ha Hsafe) as (ok2 & o & s2 & e2 & E2 & Hr2 & _); [by left|].
      exists (ok && (ok2 && true)), true, s2, e2. split; [eapply bind_intro; [exact E1|]; by eapply bind_intro; [exact E2|]|]. intros _. by exists j.
Qed.

Lemma ready_program l i n s : forward_program l -> (i < length l)%nat -> ready l i n s -> program_ok s.
Proof. intros Hf Hi [Hc Hp Hd _ _]. destruct (fp_length l Hf). split; [rewrite Hc; apply Hf|rewrite Hc; lia|done|rewrite Hp; unfold in_u; lia]. Qed.

Lemma forward_loop l d fuel : forall i s e, forward_program l -> Forall safe_operation l -> ready l i (2 * Z.of_nat fuel) s -> (i + 2 <= length l)%nat -> (length l <= fuel + i + 1)%nat ->
  exists ok s' e', Execute_loop (S (S d)) fuel s e = Done ok (Some (s', e')).
Proof.
  induction fuel as [|f IH]; intros i s e Hf Hso Hr Hi Hfuel; [lia|]. cbn [Execute_loop]. rewrite Step_round by (apply (ready_program l i (2 * Z.of_nat (S f)) s Hf); [lia|done]).
  replace (2 * Z.of_nat (S f)) with (2 * Z.of_nat f + 2) in Hr by lia. destruct (forward_round l i _ s e Hf Hso Hr ltac:(lia) Hi) as (ok & b & s1 & e1 & E1 & Hb). destruct b.
  - destruct (Hb eq_refl) as (j & Hj1 & Hj2 & Hrj). destruct (IH j s1 e1 Hf Hso Hrj Hj2 ltac:(lia)) as (ok2 & s2 & e2 & E2). exists (ok && ok2), s2, e2. by eapply bind_intro; [exact E1|].
  - exists (ok && true), s1, e1. by eapply bind_intro; [exact E1|].
Qed.

(** *** Rounds that end go forward, whatever the operations do *)

Definition at_instruction l (i : nat) s : Prop := code s = l /\ pc s = 4 * Z.of_nat i /\ delayed_pc s = None.

Lemma at_jump l i s p j : at_instruction l i s -> p = 4 * Z.of_nat j -> at_instruction l j (with_pc p s).
Proof. intros (? & ? & ?) ->. done. Qed.
Lemma at_same l i s s' : at_instruction l i s -> same_place s s' -> at_instruction l i s'.
Proof. intros (? & ? & ?) (? & ? & ? & _). split_and!; congruence. Qed.

Lemma at_opcode l i s ok a : at_instruction l i s -> GetOpcode s = Done ok a -> l !! i = Some a.
Proof.
  intros (Hc & Hp & _) [_ Ha]%GetOpcode_Done. rewrite Hc, Hp in Ha. replace (4 * Z.of_nat i / 4) with (Z.of_nat i) in Ha by (rewrite Z.mul_comm, Z.div_mul; lia). by rewrite Nat2Z.id in Ha.
Qed.

(** Where an instruction outside a slot leads: on behind it, or to a later place, by way of a slot or at once. *)
Definition leads l i (o : option mode) s : Prop :=
  (o = Some Running /\ exists j, (i < j)%nat /\ (j + 2 <= length l)%nat /\ at_instruction l j s) \/
  (at_instruction l (S i) s /\ (o = Some Leaving \/ exists j, o = Some (Slot (4 * Z.of_nat j)) /\ (i < j)%nat /\ (j + 2 <= length l)%nat)).

Lemma running_leads l i s e ok o s' e' : forward_program l -> at_instruction l i s -> (i + 2 <= length l)%nat -> ref_step Running s e = Done ok (o, s', e') -> leads l i o s'.
Proof.
  intros Hf Hat Hi H. destruct (fp_length l Hf) as [_ Hl]. pose proof (proj1 (proj2 Hat)) as Hp. unfold ref_step in H. run_inv. pose proof (at_opcode l i s _ a Hat R) as Ha.
  pose proof (at_jump l i s (u32 (pc s + 4)) (S i) Hat ltac:(rewrite Hp; apply next_pc; lia)) as Hnext.
  assert (forall s', at_instruction l (S i) s' -> leads l i (Some (if Macro.is_exit a then Leaving else Running)) s') as Hgo.
  { intros s1 Hs1. destruct (Macro.is_exit a) eqn:Hx; [right; split; [done|by left]|left]. split; [done|]. exists (S i). split; [lia|]. split; [|done].
    destruct (decide (S i + 2 <= length l)%nat); [done|]. destruct (fp_leaves l Hf) as (b & Hb & _ & Hbx). replace (length l - 2)%nat with i in Hb by lia. congruence. }
  cbv zeta in *. destruct (decide _) as [Hb|Hb].
  - run_inv. destruct (fp_forward l Hf i a Ha Hb) as (k & Hk & Hk1 & Hk2). destruct (EvaluateBranchCondition _ _); [|run_inv; by apply Hgo].
    assert (u32 (pc s + Macro.GetBranchTarget a) = 4 * Z.of_nat (i + k)) as Et by (unfold Macro.GetBranchTarget; rewrite Hk, Hp; apply branch_pc; lia).
    destruct (Macro.branch_annul a); run_inv.
    + left. split; [done|]. exists (i + k)%nat. split; [lia|]. split; [lia|]. by apply (at_jump l i).
    + right. split; [done|]. right. exists (i + k)%nat. rewrite Et. split; [done|]. lia.
  - run_inv. match goal with H : exec_operation _ _ _ = _ |- _ => apply exec_place in H as Hpl end. apply Hgo. by apply (at_same l (S i) _ _ Hnext).
Qed.

Lemma round_forward l i s e ok s' e' : forward_program l -> at_instruction l i s -> (i + 2 <= length l)%nat -> ref_round s e = Done ok (true, s', e') ->
  exists j, (i < j)%nat /\ (j + 2 <= length l)%nat /\ at_instruction l j s'.
Proof.
  intros Hf Hat Hi H. unfold ref_round in H. apply bind_Done in H as ([[o s1] e1] & ok1 & ok2 & H1 & H2 & _). cbv beta iota in H2.
  destruct (running_leads l i s e ok1 o s1 e1 Hf Hat Hi H1) as [(-> & j & Hj1 & Hj2 & Hj)|(Hs1 & [->|(j & -> & Hj1 & Hj2)])].
  - apply mret_Done in H2 as [_ [= -> ->]]. by exists j.
  - run_inv. congruence.
  - exists j. split; [done|]. split; [done|]. unfold ref_step in H2. run_inv. match goal with H : exec_operation _ _ _ = _ |- _ => apply exec_place in H as Hpl end.
    by apply (at_same l j _ _ (at_jump l (S i) s1 _ j Hs1 eq_refl)).
Qed.

Lemma at_program l i s : forward_program l -> (i < length l)%nat -> at_instruction l i s -> program_ok s.
Proof. intros Hf Hi (Hc & Hp & Hd). destruct (fp_length l Hf). split; [rewrite Hc; apply Hf|rewrite Hc; lia|done|rewrite Hp; unfold in_u; lia]. Qed.

(** More rounds, or deeper recursion, change nothing, and the rounds are enough. *)
Lemma forward_rounds l d k fuel : forall i s e, forward_program l -> at_instruction l i s -> (i + 2 <= length l)%nat -> (length l <= fuel + i + 1)%nat ->
  Execute_loop (S (S d)) (fuel + k) s e = Execute_loop 2 fuel s e /\ forall ok, Execute_loop 2 fuel s e <> Done ok None.
Proof.
  induction fuel as [|f IH]; intros i s e Hf Hat Hi Hfuel; [lia|]. cbn [Execute_loop Nat.add]. pose proof (at_program l i s Hf ltac:(lia) Hat) as Hp. rewrite !Step_round by done.
  destruct (ref_round s e) as [|ok [[b s1] e1]] eqn:E1; [by split|]. destruct b; [|by split].
  destruct (round_forward l i s e ok s1 e1 Hf Hat Hi E1) as (j & Hj1 & Hj2 & Hj). destruct (IH j s1 e1 Hf Hj Hj2 ltac:(lia)) as [IH1 IH2]. split.
  - apply bind_at. exact IH1.
  - intros ok' H'. apply bind_Done in H' as (x & o1 & o2 & [= <- <-] & H2 & _). by apply (IH2 o2).
Qed.

(** *** The parameters a run does not reach do not matter *)

Definition trunc (m : nat) s : MacroInterpreterImpl := with_parameters (take m (parameters s)) s.

Section Truncation.
Context (ps : list Z).
Definition few_parameters s : Prop := parameters s = ps /\ 0 <= next_parameter_index s <= Z.of_nat (length ps) /\ Z.of_nat (length ps) < 2 ^ 32.

Lemma FetchParameter_trunc m s ok p s' : few_parameters s -> FetchParameter s = Done ok (p, s') -> next_parameter_index s' <= Z.of_nat m ->
  FetchParameter (trunc m s) = Done ok (p, trunc m s') /\ next_parameter_index s <= next_parameter_index s' /\ few_parameters s'.
Proof.
  intros (Hps & [H0 H1] & Hl) H Hm. rewrite <- Hps in H1, Hl. unfold FetchParameter in H. run_inv. unfold arr_get in *. destruct (Z.leb_spec 0 (next_parameter_index s)); [|lia].
  destruct (parameters s !! Z.to_nat (next_parameter_index s)) as [x|] eqn:Ex; [|done]. run_inv. pose proof (lookup_lt_Some _ _ _ Ex) as Hlt. cbn [next_parameter_index with_index] in *.
  rewrite u32_small in * by (unfold in_u; lia). split; [|split; [lia|split; [done|cbn; rewrite <- Hps; lia]]].
  assert (next_parameter_index s <? Z.of_nat (length (parameters s)) = true) as Ea by (apply Z.ltb_lt; lia). rewrite Ea in *. match goal with H : ASSERT true = Done _ _ |- _ => injection H as <- end.
  unfold FetchParameter. cbn [next_parameter_index trunc with_parameters parameters]. rewrite bind_assert_true by (apply Z.ltb_lt; rewrite length_take; lia).
  unfold arr_get. rewrite (proj2 (Z.leb_le 0 _)), lookup_take_lt, Ex by lia. cbn. rewrite u32_small by (unfold in_u; lia). done.
Qed.

Lemma SetRegister_trunc m reg v s ok s' : SetRegister reg v s = Done ok s' -> SetRegister reg v (trunc m s) = Done ok (trunc m s') /\ next_parameter_index s' = next_parameter_index s /\ parameters s' = parameters s.
Proof.
  unfold SetRegister. cbn [registers trunc with_parameters]. destruct (reg =? 0); intros H; [by injection H as <- <-|]. run_inv. match goal with H : arr_set _ _ _ = _ |- _ => rewrite H end. cbn. by rewrite ?andb_true_r.
Qed.
Lemma Send_trunc m v s e ok s' e' : Send v s e = Done ok (s', e') -> Send v (trunc m s) e = Done ok (trunc m s', e') /\ next_parameter_index s' = next_parameter_index s /\ parameters s' = parameters s.
Proof. unfold Send. cbn [method_address trunc with_parameters]. intros H. run_inv. match goal with H : CallMethod _ _ _ _ = _ |- _ => rewrite H end. done. Qed.
Lemma ALU_trunc m op a b s ok v s' : GetALUResult op a b s = Done ok (v, s') -> GetALUResult op a b (trunc m s) = Done ok (v, trunc m s') /\ next_parameter_index s' = next_parameter_index s /\ parameters s' = parameters s.
Proof. unfold GetALUResult. destruct op as [[]|]; cbv zeta; cbn [carry_flag trunc with_parameters]; intros H; run_inv; try done. match goal with H : ASSERT _ = _ |- _ => rewrite H end. done. Qed.

(** A part of a run that has ended does the same on the truncated state, if it has not gone past the parameters that are left. *)
Definition truncates m s s' (run : Prop) (run' : Prop) : Prop :=
  few_parameters s -> run -> next_parameter_index s' <= Z.of_nat m -> run' /\ next_parameter_index s <= next_parameter_index s' /\ few_parameters s'.

(** Go on from the state behind a part that keeps index and parameters. *)
Lemma truncates_keep m s s1 s' (run run' : Prop) : next_parameter_index s1 = next_parameter_index s -> parameters s1 = parameters s -> truncates m s1 s' run run' -> truncates m s s' run run'.
Proof. intros Hi Hp H Hf. unfold few_parameters in *. rewrite <- Hi, <- Hp in *. by apply H. Qed.

Lemma Send_truncates m v s e ok s' e' : truncates m s s' (Send v s e = Done ok (s', e')) (Send v (trunc m s) e = Done ok (trunc m s', e')).
Proof. intros Hf H _. destruct (Send_trunc m _ _ _ _ _ _ H) as (-> & Hi & Hp). split; [done|]. unfold few_parameters in *. rewrite Hi, Hp. by split; [lia|]. Qed.

Lemma finish_truncates m s s' (e e' : E) ok : truncates m s s' (mret (M := outcome) (s, e) = Done ok (s', e')) (mret (M := outcome) (trunc m s, e) = Done ok (trunc m s', e')).
Proof. intros Hf [= <- <- <-] _. split; [done|]. by split; [lia|]. Qed.

(** A fetch, a register, and what follows. *)
Lemma fetch_truncates m s s' e' ok (k k' : Z -> MacroInterpreterImpl -> outcome (MacroInterpreterImpl * E)) : (forall p s1, truncates m s1 s' (exists ok, k p s1 = Done ok (s', e')) (forall ok, k p s1 = Done ok (s', e') -> k' p (trunc m s1) = Done ok (trunc m s', e'))) ->
  truncates m s s' (('(p, s) ← FetchParameter s; k p s) = Done ok (s', e')) (('(p, s) ← FetchParameter (trunc m s); k' p s) = Done ok (trunc m s', e')).
Proof.
  intros Hk Hf H Hm. apply bind_Done in H as ([p s1] & o1 & o2 & H1 & H2 & ->). cbv beta iota in H2.
  assert (few_parameters s1 /\ next_parameter_index s <= next_parameter_index s1) as [Hf1 Hi1].
  { destruct (FetchParameter_trunc (Z.to_nat (next_parameter_index s1)) s o1 p s1 Hf H1) as (_ & ? & ?); [|done]. unfold FetchParameter in H1. run_inv. cbn. pose proof (u32_in (next_parameter_index s + 1)) as [? _]. lia. }
  destruct (Hk p s1 Hf1 (ex_intro _ o2 H2) Hm) as (Hrun & Hi2 & Hf2). destruct (FetchParameter_trunc m s o1 p s1 Hf H1 ltac:(lia)) as (E1 & _ & _).
  split; [|split; [lia|done]]. eapply bind_intro; [exact E1|]. by apply Hrun.
Qed.

Lemma register_truncates m reg v s s' e' ok (k k' : MacroInterpreterImpl -> outcome (MacroInterpreterImpl * E)) : (forall s1, truncates m s1 s' (exists ok, k s1 = Done ok (s', e')) (forall ok, k s1 = Done ok (s', e') -> k' (trunc m s1) = Done ok (trunc m s', e'))) ->
  truncates m s s' ((s ← SetRegister reg v s; k s) = Done ok (s', e')) ((s ← SetRegister reg v (trunc m s); k' s) = Done ok (trunc m s', e')).
Proof.
  intros Hk Hf H Hm. apply bind_Done in H as (s1 & o1 & o2 & H1 & H2 & ->). destruct (SetRegister_trunc m reg v s o1 s1 H1) as (E1 & Hi & Hp).
  assert (few_parameters s1) as Hf1 by (unfold few_parameters in *; by rewrite Hi, Hp). destruct (Hk s1 Hf1 (ex_intro _ o2 H2) Hm) as (Hrun & Hi2 & Hf2).
  split; [|split; [lia|done]]. eapply bind_intro; [exact E1|]. by apply Hrun.
Qed.

(** The form in which a continuation is asked for. *)
Lemma truncates_any m s s' (x x' : outcome (MacroInterpreterImpl * E)) e' : (forall ok, truncates m s s' (x = Done ok (s', e')) (x' = Done ok (trunc m s', e'))) ->
  truncates m s s' (exists ok, x = Done ok (s', e')) (forall ok, x = Done ok (s', e') -> x' = Done ok (trunc m s', e')).
Proof. intros Hx Hf [ok H] Hm. destruct (Hx ok Hf H Hm) as (_ & Hi & Hf'). split; [|done]. intros ok' H'. by apply (Hx ok' Hf H' Hm). Qed.

Lemma ProcessResult_truncates m op reg v s e ok s' e' :
  truncates m s s' (ProcessResult op reg v s e = Done ok (s', e')) (ProcessResult op reg v (trunc m s) e = Done ok (trunc m s', e')).
Proof.
  assert (forall s1 ok, truncates m s1 s' (mret (M := outcome) (SetMethodAddress v s1, e) = Done ok (s', e')) (mret (M := outcome) (SetMethodAddress v (trunc m s1), e) = Done ok (trunc m s', e'))) as Hmethod.
  { intros s1 ok1. apply (truncates_keep m s1 (with_method v s1)); [done|done|]. apply (finish_truncates m (with_method v s1)). }
  destruct op; cbn [ProcessResult].
  - apply fetch_truncates. intros p s1. apply truncates_any. intros ok1. apply register_truncates. intros s2. apply truncates_any. intros ok2. apply finish_truncates.
  - apply register_truncates. intros s2. apply truncates_any. intros ok2. apply finish_truncates.
  - apply register_truncates. intros s2. apply truncates_any. apply Hmethod.
  - apply fetch_truncates. intros p s1. apply truncates_any. intros ok1. apply register_truncates. intros s2. apply truncates_any. intros ok2. apply Send_truncates.
  - apply register_truncates. intros s2. apply truncates_any. intros ok2. apply Send_truncates.
  - apply fetch_truncates. intros p s1. apply truncates_any. intros ok1. apply register_truncates. intros s2. apply truncates_any. apply Hmethod.
  - apply register_truncates. intros s2. apply truncates_any. intros ok2. apply (truncates_keep m s2 (with_method v s2)); [done|done|]. apply (fetch_truncates m (with_method v s2)). intros p s3. apply truncates_any. intros ok3. apply Send_truncates.
  - apply register_truncates. intros s2. apply truncates_any. intros ok2. apply (truncates_keep m s2 (with_method v s2)); [done|done|]. apply (Send_truncates m _ (with_method v s2)).
Qed.

(** A part that does not touch the state. *)
Lemma pure_truncates {A} m s s' e' ok (x : outcome A) (k k' : A -> outcome (MacroInterpreterImpl * E)) : (forall a ok, truncates m s s' (k a = Done ok (s', e')) (k' a = Done ok (trunc m s', e'))) ->
  truncates m s s' ((x ≫= k) = Done ok (s', e')) ((x ≫= k') = Done ok (trunc m s', e')).
Proof. intros Hk Hf H Hm. apply bind_Done in H as (a & o1 & o2 & H1 & H2 & ->). destruct (Hk a o2 Hf H2 Hm) as (H3 & Hi & Hf'). split; [by eapply bind_intro|done]. Qed.

Lemma exec_truncates m opcode s e ok s' e' : truncates m s s' (exec_operation opcode s e = Done ok (s', e')) (exec_operation opcode (trunc m s) e = Done ok (trunc m s', e')).
Proof.
  unfold exec_operation. cbv zeta. change (GetRegister (Macro.src_a opcode) (trunc m s)) with (GetRegister (Macro.src_a opcode) s). change (GetRegister (Macro.src_b opcode) (trunc m s)) with (GetRegister (Macro.src_b opcode) s).
  destruct (Macro.operation opcode); repeat first [apply ProcessResult_truncates|apply finish_truncates|apply pure_truncates; intros].
  intros Hf H Hm. apply bind_Done in H as ([v s1] & o1 & o2 & H1 & H2 & ->). cbv beta iota in H2. destruct (ALU_trunc m _ _ _ _ _ _ _ H1) as (E1 & Hi & Hp).
  destruct (truncates_keep m s s1 s' _ _ Hi Hp (ProcessResult_truncates m _ _ v s1 e o2 s' e') Hf H2 Hm) as (H3 & Hx). split; [by eapply bind_intro|done].
Qed.
Lemma exec_at_truncates {A} m p opcode s e ok (o : A) o' s' e' :
  truncates m s s' (('(s, e) ← exec_operation opcode (with_pc p s) e; mret (o, s, e)) = Done ok (o', s', e')) (('(s, e) ← exec_operation opcode (with_pc p (trunc m s)) e; mret (o, s, e)) = Done ok (o', trunc m s', e')).
Proof.
  intros Hf H Hm. apply bind_Done in H as ([s1 e1] & o1 & o2 & H1 & H2 & ->). cbv beta iota in H2. injection H2 as <- <- <- <-.
  destruct (exec_truncates m opcode (with_pc p s) e o1 s1 e1 Hf H1 Hm) as (E1 & Hx). split; [|done]. by eapply bind_intro; [exact E1|].
Qed.

Lemma ref_step_truncates m md s e ok o s' e' : truncates m s s' (ref_step md s e = Done ok (o, s', e')) (ref_step md (trunc m s) e = Done ok (o, trunc m s', e')).
Proof.
  intros Hf H Hm. unfold ref_step in *. change (GetOpcode (trunc m s)) with (GetOpcode s). apply bind_Done in H as (a & o1 & o2 & H1 & H2 & ->). cbv zeta in *.
  match goal with |- (_ ≫= ?F) = _ /\ _ => assert (F a = Done o2 (o, trunc m s', e') /\ next_parameter_index s <= next_parameter_index s' /\ few_parameters s') as [Ha Hr]; [|split; [by eapply bind_intro; [exact H1|exact Ha]|exact Hr]] end. cbv beta.
  change (pc (trunc m s)) with (pc s). change (GetRegister (Macro.src_a a) (trunc m s)) with (GetRegister (Macro.src_a a) s).
  destruct md as [|t|]; [|by eapply exec_at_truncates..]. destruct (decide _); [|by eapply exec_at_truncates]. apply bind_Done in H2 as (v & o3 & o4 & H3 & H4 & ->).
  destruct (EvaluateBranchCondition _ v) eqn:Hv; [destruct (Macro.branch_annul _)|]; injection H4 as <- <- <- <-; (split; [eapply bind_intro; [exact H3|]; cbv beta; by rewrite Hv|split; [cbn; lia|exact Hf]]).
Qed.

Lemma ref_round_truncates m s e ok b s' e' : truncates m s s' (ref_round s e = Done ok (b, s', e')) (ref_round (trunc m s) e = Done ok (b, trunc m s', e')).
Proof.
  intros Hf H Hm. unfold ref_round in *. apply bind_Done in H as ([[o s1] e1] & o1 & o2 & H1 & H2 & ->). cbv beta iota in H2.
  assert (few_parameters s1) as Hf1.
  { destruct (ref_step_truncates (Z.to_nat (next_parameter_index s1)) Running s e o1 o s1 e1 Hf H1) as (_ & _ & ?); [|done]. lia. }
  destruct o as [[|t|]|].
  - injection H2 as <- <- <- <-. destruct (ref_step_truncates m Running s e o1 _ s1 e1 Hf H1 Hm) as (E1 & Hr). split; [|done]. by eapply bind_intro; [exact E1|].
  - apply bind_Done in H2 as ([[o3 s2] e2] & o4 & o5 & H3 & H4 & ->). cbv beta iota in H4. injection H4 as <- <- <- <-. destruct (ref_step_truncates m (Slot t) s1 e1 o4 o3 s2 e2 Hf1 H3 Hm) as (E3 & Hi3 & Hf3).
    destruct (ref_step_truncates m Running s e o1 _ s1 e1 Hf H1 ltac:(lia)) as (E1 & Hi1 & _). split; [|split; [lia|done]]. eapply bind_intro; [exact E1|]. by eapply bind_intro; [exact E3|].
  - apply bind_Done in H2 as ([[o3 s2] e2] & o4 & o5 & H3 & H4 & ->). cbv beta iota in H4. injection H4 as <- <- <- <-. destruct (ref_step_truncates m Leaving s1 e1 o4 o3 s2 e2 Hf1 H3 Hm) as (E3 & Hi3 & Hf3).
    destruct (ref_step_truncates m Running s e o1 _ s1 e1 Hf H1 ltac:(lia)) as (E1 & Hi1 & _). split; [|split; [lia|done]]. eapply bind_intro; [exact E1|]. by eapply bind_intro; [exact E3|].
  - injection H2 as <- <- <- <-. destruct (ref_step_truncates m Running s e o1 _ s1 e1 Hf H1 Hm) as (E1 & Hr). split; [|done]. by eapply bind_intro; [exact E1|].
Qed.

Lemma ref_round_program s e ok b s' e' : program_ok s -> ref_round s e = Done ok (b, s', e') -> program_ok s'.
Proof.
  intros Hp H. unfold ref_round in H. apply bind_Done in H as ([[o s1] e1] & o1 & o2 & H1 & H2 & ->). cbv beta iota in H2. destruct (ref_step_ok Running s e o1 o s1 e1 Hp I H1) as [Hp1 Hm1].
  destruct o as [[|t|]|]; [by injection H2 as _ _ <- _| | |by injection H2 as _ _ <- _]; apply bind_Done in H2 as ([[o3 s2] e2] & o4 & o5 & H3 & H4 & ->); cbv beta iota in H4; injection H4 as _ _ <- _; by apply (ref_step_ok _ s1 e1 o4 o3 s2 e2 Hp1 Hm1 H3).
Qed.

Lemma loop_truncates m d fuel : forall s e ok s' e', program_ok s -> truncates m s s' (Execute_loop (S (S d)) fuel s e = Done ok (Some (s', e'))) (Execute_loop (S (S d)) fuel (trunc m s) e = Done ok (Some (trunc m s', e'))).
Proof.
  induction fuel as [|f IH]; intros s e ok s' e' Hp Hf H Hm; cbn [Execute_loop] in *; [by apply mret_Done in H as [_ ?]|]. rewrite Step_round in H by done. apply bind_Done in H as ([[b s1] e1] & o1 & o2 & H1 & H2 & ->). cbv beta iota in H2.
  assert (few_parameters s1) as Hf1. { destruct (ref_round_truncates (Z.to_nat (next_parameter_index s1)) s e o1 b s1 e1 Hf H1) as (_ & _ & ?); [|done]. lia. }
  assert (program_ok (trunc m s)) as Hpt by (destruct Hp; by split). rewrite Step_round by done. destruct b.
  - destruct (IH s1 e1 o2 s' e' (ref_round_program s e o1 true s1 e1 Hp H1) Hf1 H2 Hm) as (E2 & Hi2 & Hf2). destruct (ref_round_truncates m s e o1 true s1 e1 Hf H1 ltac:(lia)) as (E1 & Hi1 & _).
    split; [by eapply bind_intro; [exact E1|]|]. split; [lia|done].
  - injection H2 as <- <- <-. destruct (ref_round_truncates m s e o1 false s1 e1 Hf H1 Hm) as (E1 & Hi1 & _). split; [by eapply bind_intro; [exact E1|]|]. split; [lia|done].
Qed.

End Truncation.

(** ** The beginning of a run *)

Definition started (params : list Z) p s : MacroInterpreterImpl := mkInterpreter [0; p; 0; 0; 0; 0; 0; 0] params (code s) None 0 0 1 false.

Lemma Execute_started depth fuel p params s e : Execute depth fuel (p :: params) s e =
  (o ← Execute_loop depth fuel (started (p :: params) p s) e;
   match o with None => mret None | Some (s, e) => ASSERT (next_parameter_index s =? Z.of_nat (length (parameters s)));; mret (Some (s, e)) end).
Proof. unfold Execute. change (arr_get (p :: params) 0) with (Done true p). rewrite bind_Done_true. change (arr_set (registers (Reset s)) 1 p) with (Done true [0; p; 0; 0; 0; 0; 0; 0]). rewrite bind_Done_true. reflexivity. Qed.

Lemma started_ok p params s : Forall (in_u 32) (p :: params) -> interpreter_ok (started (p :: params) p s).
Proof.
  intros Hp. split; [done| |done|done|by vm_compute]. pose proof (Forall_inv Hp) as H0. cbn. repeat (apply Forall_cons_2; [first [exact H0|by vm_compute]|]). apply Forall_nil_2.
Qed.

(** The run of the machine with a mode, from the same beginning. *)
Definition ref_execute (fuel : nat) (params : list Z) (s : MacroInterpreterImpl) (e : E) : outcome (option (MacroInterpreterImpl * E)) :=
  match params with
  | [] => Undef
  | p :: _ =>
      o ← ref_run fuel Running (started params p s) e;
      match o with None => mret None | Some (s, e) => ASSERT (next_parameter_index s =? Z.of_nat (length (parameters s)));; mret (Some (s, e)) end
  end.

(** ** Sending *)

(** The methods that [k] sends call, and the calls themselves. *)
Definition nth_method (m : Z) (k : Z) : Z := (ExtractValue Macro.address_field m + k * ExtractValue Macro.increment_field m) mod 2 ^ 12.
Fixpoint send_all (vs : list Z) (s : MacroInterpreterImpl) (e : E) : outcome (MacroInterpreterImpl * E) :=
  match vs with [] => mret (s, e) | v :: vs => '(s, e) ← Send v s e; send_all vs s e end.
Fixpoint call_all (m k : Z) (vs : list Z) (e : E) : outcome E :=
  match vs with [] => mret e | v :: vs => e ← CallMethod (nth_method m k) v true e; call_all m (k + 1) vs e end.

Lemma address_field_ok : field_ok Macro.address_field /\ field_ok Macro.increment_field.
Proof. by vm_compute. Qed.

(** The method address after [n] sends. *)
Definition bump (m : Z) : Z := Assign Macro.address_field m (u32 (ExtractValue Macro.address_field m + ExtractValue Macro.increment_field m)).
Definition method_after (m : Z) (n : nat) : Z := Nat.iter n bump m.

Lemma bump_fields m : ExtractValue Macro.address_field (bump m) = (ExtractValue Macro.address_field m + ExtractValue Macro.increment_field m) mod 2 ^ 12 /\ ExtractValue Macro.increment_field (bump m) = ExtractValue Macro.increment_field m.
Proof.
  destruct address_field_ok as [Fa Fi]. pose proof (opcode_field_range 12 6 m ltac:(lia) ltac:(lia) ltac:(lia)) as [G0 G1]. change (Macro.field 12 6 m) with (ExtractValue Macro.increment_field m) in *.
  pose proof (opcode_field_range 0 12 m ltac:(lia) ltac:(lia) ltac:(lia)) as [A0 A1]. change (Macro.field 0 12 m) with (ExtractValue Macro.address_field m) in *. unfold bump. split.
  - rewrite Extract_Assign by done. rewrite u32_small by (unfold in_u; lia). done.
  - apply Extract_Assign_other; [done|done|done|]. by left; vm_compute.
Qed.

Lemma nth_method_bump m k : nth_method (bump m) k = nth_method m (k + 1).
Proof. destruct (bump_fields m) as [Ea Ei]. unfold nth_method. rewrite Ea, Ei, Zplus_mod_idemp_l. f_equal. lia. Qed.

Lemma call_all_bump m vs : forall k e, call_all (bump m) k vs e = call_all m (k + 1) vs e.
Proof. induction vs as [|v vs IH]; intros k e; cbn [call_all]; [done|]. rewrite nth_method_bump. apply bind_ext. intros e'. apply IH. Qed.

Lemma method_after_S m n : method_after m (S n) = method_after (bump m) n.
Proof. unfold method_after. by rewrite Nat.iter_succ_r. Qed.

Lemma send_all_calls vs : forall s e, send_all vs s e = (e ← call_all (method_address s) 0 vs e; mret (with_method (method_after (method_address s) (length vs)) s, e)).
Proof.
  induction vs as [|v vs IH]; intros s e; cbn [send_all call_all length]; [rewrite bind_ret; by destruct s|]. unfold Send at 1. fold (bump (method_address s)). rewrite !bind_assoc.
  assert (nth_method (method_address s) 0 = ExtractValue Macro.address_field (method_address s)) as ->.
  { pose proof (opcode_field_range 0 12 (method_address s) ltac:(lia) ltac:(lia) ltac:(lia)) as [A0 A1]. change (Macro.field 0 12 (method_address s)) with (ExtractValue Macro.address_field (method_address s)) in *.
    unfold nth_method. rewrite Z.mul_0_l, Z.add_0_r. by apply Z.mod_small. }
  apply bind_ext. intros e'. rewrite bind_ret, IH. cbn [method_address with_method]. rewrite call_all_bump, method_after_S. done.
Qed.

(** ** The theorems *)

(** C29: Delay slots.  For a program without a branch in a delay slot the recursive interpreter and the machine with a mode have the same runs: whatever one of them ends with, state, engine and outcome of all assertions, the other ends with too. *)
Theorem macro_delay_slots d params s e ok r : slots_ok (code s) -> Z.of_nat (length (code s)) < 2 ^ 30 ->
  (exists n, Execute (S (S d)) n params s e = Done ok (Some r)) <-> (exists k, ref_execute k params s e = Done ok (Some r)).
Proof.
  intros Hs Hl. destruct params as [|p params]; [by split; intros [n Hn]|]. assert (program_ok (started (p :: params) p s)) as Hp by (by split).
  split.
  - intros [n Hn]. rewrite Execute_started in Hn. apply bind_Done in Hn as ([r'|] & o1 & o2 & H1 & H2 & ->); [|by apply mret_Done in H2 as [_ ?]].
    destruct (interpreter_machine d n _ e o1 r' Hp H1) as [k Hk]. exists k. by eapply bind_intro.
  - intros [k Hk]. cbn [ref_execute] in Hk. apply bind_Done in Hk as ([r'|] & o1 & o2 & H1 & H2 & ->); [|by apply mret_Done in H2 as [_ ?]].
    destruct (machine_interpreter d k _ e o1 r' Hp H1) as (n & _ & Hn). exists n. rewrite Execute_started. by eapply bind_intro.
Qed.

(** C30: Macros end.  Take a program whose branches all go forward, with no branch in a delay slot, and which leaves before its end.  With any parameters, registers of the engine and effects of its methods, one round per instruction is enough: the run does not go on after
    them, and with more rounds and a deeper recursion it is the same run; so a run without a result is one with undefined behaviour, such as a read behind the parameters.  When moreover no operation shifts by a register or has a field of 31 bits, the run takes some first part
    of any sufficiently long list of parameters: with exactly this part as parameters it ends, has used them all, and passes the final check for that. *)
Theorem macro_forward_terminates s e : forward_program (code s) ->
  (forall d k params, Execute (S (S d)) (length (code s) + k) params s e = Execute 2 (length (code s)) params s e /\ forall ok, Execute 2 (length (code s)) params s e <> Done ok None) /\
  (forall params, Forall safe_operation (code s) -> Forall (in_u 32) params -> 1 + 2 * Z.of_nat (length (code s)) <= Z.of_nat (length params) < 2 ^ 32 ->
    exists m ok s' e', (1 <= m <= length params)%nat /\ Execute 2 (length (code s)) (take m params) s e = Done ok (Some (s', e')) /\
      parameters s' = take m params /\ next_parameter_index s' = Z.of_nat (length (parameters s'))).
Proof.
  intros Hf. destruct (fp_length _ Hf) as [H2 H28]. split.
  - intros d k [|p params]; [by split|]. rewrite !Execute_started. destruct (forward_rounds (code s) d k (length (code s)) 0 (started (p :: params) p s) e Hf) as [E1 E2]; [done|lia|lia|]. rewrite E1. split; [done|].
    intros ok H. apply bind_Done in H as (r & o1 & o2 & H1 & H3 & _). destruct r as [[s1 e1]|]; [|by apply (E2 o1)]. by apply bind_Done in H3 as (? & ? & ? & _ & ? & _).
  - intros [|p params] Hs Hp Hl; [cbn in Hl; lia|]. destruct (forward_loop (code s) 0 (length (code s)) 0 (started (p :: params) p s) e Hf Hs) as (ok & s' & e' & E'); [|lia|lia|].
    { split; [done|done|done|by apply started_ok|]. cbn [next_parameter_index started parameters]. lia. }
    assert (program_ok (started (p :: params) p s)) as Hpo by (by apply (at_program (code s) 0); [|lia|]). assert (few_parameters (p :: params) (started (p :: params) p s)) as Hfew by (split; [done|cbn [started parameters next_parameter_index]; lia]).
    set (m := Z.to_nat (next_parameter_index s')). assert (next_parameter_index s' <= Z.of_nat m) as Hm by (unfold m; lia).
    destruct (loop_truncates (p :: params) m 0 _ _ _ _ _ _ Hpo Hfew E' Hm) as (E1 & Hi & Hps & Hx & _). cbn [next_parameter_index started] in Hi.
    assert (next_parameter_index s' = Z.of_nat (length (take m (p :: params)))) as Hend by (rewrite length_take; unfold m; lia).
    exists m, (ok && true), (trunc m s'), e'. split; [unfold m; lia|]. split; [|cbn [trunc parameters with_parameters next_parameter_index]; by rewrite Hps].
    destruct m as [|m'] eqn:Em; [unfold m in Em; lia|]. cbn [take]. rewrite Execute_started. eapply bind_intro; [exact E1|]. cbn [trunc parameters with_parameters next_parameter_index]. rewrite Hps, Hend, Z.eqb_refl. done.
Qed.

(** Registers.  However a macro runs, with whatever program, when it ends its registers, parameters and method address are 32-bit values and register 0 is zero. *)
Theorem macro_registers_in_range depth fuel params s e ok s' e' : Forall (in_u 32) params -> Execute depth fuel params s e = Done ok (Some (s', e')) -> interpreter_ok s'.
Proof.
  intros Hp H. destruct params as [|p params]; [done|]. rewrite Execute_started in H. apply bind_Done in H as ([[s1 e1]|] & o1 & o2 & H1 & H2 & ->); [|by apply mret_Done in H2 as [_ ?]].
  apply Execute_loop_keeps in H1; [|by apply started_ok]. run_inv. match goal with H : Some _ = Some _ |- _ => by injection H as <- <- end.
Qed.

(** Sending values one after the other calls the methods from the method address on, each the increment behind the one before, modulo the 4096 methods of the engine. *)
Theorem macro_sends vs s e : send_all vs s e = (e ← call_all (method_address s) 0 vs e; mret (with_method (method_after (method_address s) (length vs)) s, e)).
Proof. apply send_all_calls. Qed.
End Facts.

Lemma add_wide alo ahi blo bhi : in_u 32 alo -> in_u 32 ahi -> in_u 32 blo -> in_u 32 bhi ->
  let hi := ahi + bhi + (if 0xffffffff <? alo + blo then 1 else 0) in
  let a := alo + ahi * 2 ^ 32 in let b := blo + bhi * 2 ^ 32 in
  u32 (alo + blo) + u32 hi * 2 ^ 32 = u64 (a + b) /\ (0xffffffff <? hi) = (2 ^ 64 <=? a + b).
Proof.
  intros [A0 A1] [A2 A3] [B0 B1] [B2 B3] hi a b. unfold u32, u64, wrapu.
  assert (alo + blo = (if 0xffffffff <? alo + blo then 1 else 0) * 2 ^ 32 + (alo + blo) mod 2 ^ 32) as Hl by (destruct (Z.ltb_spec 0xffffffff (alo + blo)); Z.div_mod_to_equations; lia).
  pose proof (Z.mod_pos_bound (alo + blo) (2 ^ 32) ltac:(lia)) as Hl'. pose proof (Z.mod_pos_bound hi (2 ^ 32) ltac:(lia)) as Hh'.
  assert (0 <= (if 0xffffffff <? alo + blo then 1 else 0) <= 1) as Hc by (destruct (0xffffffff <? alo + blo); lia).
  assert (hi = (if 0xffffffff <? hi then 1 else 0) * 2 ^ 32 + hi mod 2 ^ 32) as Hh by (destruct (Z.ltb_spec 0xffffffff hi); Z.div_mod_to_equations; lia).
  split.
  - apply Z.mod_unique with (if 0xffffffff <? hi then 1 else 0); [lia|]. unfold a, b. unfold hi in Hh at 1. lia.
  - unfold a, b. destruct (Z.ltb_spec 0xffffffff hi), (Z.leb_spec (2 ^ 64) (alo + ahi * 2 ^ 32 + (blo + bhi * 2 ^ 32))); (done || unfold hi in *; lia).
Qed.

Lemma sub_wide alo ahi blo bhi : in_u 32 alo -> in_u 32 ahi -> in_u 32 blo -> in_u 32 bhi ->
  let lo := u64 (alo - blo) in
  let hi := u64 (ahi - bhi - (if lo <? 0x100000000 then 0 else 1)) in
  let a := alo + ahi * 2 ^ 32 in let b := blo + bhi * 2 ^ 32 in
  u32 lo + u32 hi * 2 ^ 32 = u64 (a - b) /\ (hi <? 0x100000000) = (b <=? a).
Proof.
  intros [A0 A1] [A2 A3] [B0 B1] [B2 B3] lo hi a b. unfold u32, u64, wrapu in *.
  set (c := if lo <? 0x100000000 then 0 else 1) in *. assert (0 <= c <= 1) as Hc by (unfold c; destruct (lo <? _); lia).
  assert (forall x, - 2 ^ 33 < x < 2 ^ 32 -> x mod 2 ^ 64 = x + (if x <? 0 then 2 ^ 64 else 0)) as Hm
    by (intros x Hx; destruct (Z.ltb_spec x 0); Z.div_mod_to_equations; lia).
  assert (lo mod 2 ^ 32 = alo - blo + c * 2 ^ 32) as Hl.
  { unfold c, lo. rewrite (Hm (alo - blo)) by lia. destruct (Z.ltb_spec (alo - blo) 0), (Z.ltb_spec (alo - blo + 2 ^ 64) 0x100000000), (Z.ltb_spec (alo - blo + 0) 0x100000000); try lia; Z.div_mod_to_equations; lia. }
  assert (hi = ahi - bhi - c + (if ahi - bhi - c <? 0 then 2 ^ 64 else 0)) as Hh by (apply Hm; lia).
  assert (hi mod 2 ^ 32 = ahi - bhi - c + (if ahi - bhi - c <? 0 then 2 ^ 32 else 0)) as Hh'.
  { rewrite Hh. destruct (Z.ltb_spec (ahi - bhi - c) 0); Z.div_mod_to_equations; lia. }
  assert (0 <= alo - blo + c * 2 ^ 32 < 2 ^ 32) as Hlr by (rewrite <- Hl; apply Z.mod_pos_bound; lia).
  split.
  - rewrite Hl, Hh'. symmetry. unfold a, b. destruct (Z.ltb_spec (ahi - bhi - c) 0); Z.div_mod_to_equations; lia.
  - rewrite Hh. unfold a, b. destruct (Z.ltb_spec (ahi - bhi - c) 0), (Z.leb_spec (blo + bhi * 2 ^ 32) (alo + ahi * 2 ^ 32)); try lia; (apply Z.ltb_lt || apply Z.ltb_ge); lia.
Qed.

(** Wide arithmetic.  Adding the low words and then the high words with carry computes the 64-bit sum, with the carry out of it in the flag; subtracting likewise computes the 64-bit difference, and the flag says that there was no borrow. *)
Theorem macro_wide_arithmetic alo ahi blo bhi s : in_u 32 alo -> in_u 32 ahi -> in_u 32 blo -> in_u 32 bhi ->
  let a := alo + ahi * 2 ^ 32 in let b := blo + bhi * 2 ^ 32 in
  (exists lo hi s1 s2, GetALUResult (Some Macro.Add) alo blo s = Done true (lo, s1) /\ GetALUResult (Some Macro.AddWithCarry) ahi bhi s1 = Done true (hi, s2) /\
     lo + hi * 2 ^ 32 = u64 (a + b) /\ carry_flag s2 = (2 ^ 64 <=? a + b)) /\
  (exists lo hi s1 s2, GetALUResult (Some Macro.Subtract) alo blo s = Done true (lo, s1) /\ GetALUResult (Some Macro.SubtractWithBorrow) ahi bhi s1 = Done true (hi, s2) /\
     lo + hi * 2 ^ 32 = u64 (a - b) /\ carry_flag s2 = (b <=? a)).
Proof.
  intros Ha Hb Hc Hd a b. split; do 4 eexists; (split; [reflexivity|]); (split; [reflexivity|]); cbn [carry_flag with_carry].
  - by apply add_wide.
  - by apply sub_wide.
Qed.

(** ** A run *)

(** An engine that notes the methods called, and whose registers are zero. *)
Definition calls := list (Z * Z).
#[global] Instance calls_Maxwell3D : Maxwell3D calls := {| CallMethod := fun a v _ e => mret (e ++ [(a, v)]); GetRegisterValue := fun m _ => ASSERT (m <? 0xE00);; mret 0 |}.
#[global] Instance calls_ok : EngineOk (E := calls).
Proof. split; intros; [by eexists true, _|]. exists (a <? 0xE00), 0. split; [cbn; by destruct (a <? 0xE00)|by vm_compute]. Qed.

(** Methods from 0x200 on; a branch over one instruction, with a send in its slot; an exit, with a send in its slot. *)
Definition add_immediate (result_op dst src_a imm exit : Z) : Z := 1 .| (result_op .<< 4) .| (exit .<< 7) .| (dst .<< 8) .| (src_a .<< 11) .| (imm .<< 14).
Definition demo_code : list Z :=
  [add_immediate 2 0 0 0x1200 0; 7 .| (1 .<< 4) .| (1 .<< 11) .| (3 .<< 14); add_immediate 4 2 1 5 0; add_immediate 1 2 0 9 0; add_immediate 3 3 2 1 1; add_immediate 4 3 3 0 0].
Definition demo_macro : MacroInterpreterImpl := MacroInterpreterImpl_new demo_code.
Definition demo_parameters : list Z := [40; 7; 0; 0; 0; 0; 0; 0; 0; 0; 0; 0; 0].

Example demo_runs : exists s, Execute 2 3 [40; 7] demo_macro ([] : calls) = Done true (Some (s, [(0x200, 45); (0x201, 46); (0x202, 7)])).
Proof. eexists. vm_compute. reflexivity. Qed.

Fixpoint slots_okb (l : list Z) : bool :=
  match l with
  | a :: (b :: _) as l' => negb (has_slot a && bool_decide (Macro.operation b = Macro.Branch)) && slots_okb l'
  | _ => true
  end.
Lemma slots_okb_spec l : slots_okb l = true -> slots_ok l.
Proof.
  unfold slots_ok. induction l as [|a [|b l] IH]; [done|by intros _ [|[|?]]|]. cbn [slots_okb]. intros [Ha%negb_true_iff Hl]%andb_true_iff [|i] x y Hx Hy Hs; cbn in Hx, Hy; [|by apply (IH Hl i x y)].
  injection Hx as ->. injection Hy as ->. rewrite Hs in Ha. by apply bool_decide_eq_false_1 in Ha.
Qed.

(** A branch that goes forward, from place [i] of a program of [n] instructions. *)
Definition forwardb (n i : nat) (a : Z) : bool :=
  negb (bool_decide (Macro.operation a = Macro.Branch)) || (1 <=? Macro.immediate a) && (Z.of_nat i + Macro.immediate a + 2 <=? Z.of_nat n).
Definition forward_programb (l : list Z) : bool :=
  let n := length l in
  (2 <=? n)%nat && (Z.of_nat n <? 2 ^ 28) && slots_okb l && forallb (fun p => forwardb n (fst p) (snd p)) (zip (seq 0 n) l) &&
  match l !! (n - 2)%nat with Some a => negb (bool_decide (Macro.operation a = Macro.Branch)) && Macro.is_exit a | None => false end.

Lemma forward_programb_spec l : forward_programb l = true -> forward_program l.
Proof.
  unfold forward_programb. rewrite !andb_true_iff. intros [[[[Hn Hz] Hs] Hb] Hx]. split.
  - split; [by apply Nat.leb_le|by apply Z.ltb_lt].
  - by apply slots_okb_spec.
  - intros i a Ha Hbr. rewrite forallb_forall in Hb. specialize (Hb (i, a)). pose proof (lookup_lt_Some _ _ _ Ha) as Hi. unfold forwardb in Hb. rewrite bool_decide_eq_true_2 in Hb by done. cbn [fst snd negb orb] in Hb.
    apply andb_true_iff in Hb as [H1%Z.leb_le H2%Z.leb_le].
    + exists (Z.to_nat (Macro.immediate a)). split; [lia|]. split; lia.
    + apply list_elem_of_In, list_elem_of_lookup. exists i. apply lookup_zip_Some. split; [|done]. rewrite lookup_seq. done.
  - destruct (l !! _) as [a|] eqn:Ha; [|done]. apply andb_true_iff in Hx as [Hx%negb_true_iff Hy]. exists a. split; [done|]. split; [by apply bool_decide_eq_false_1 in Hx|done].
Qed.

Lemma macro_delay_slots_witness :
  (exists n, Execute 2 n [40; 7] demo_macro ([] : calls) = Execute 2 3 [40; 7] demo_macro []) /\
  exists k, ref_execute k [40; 7] demo_macro ([] : calls) = Execute 2 3 [40; 7] demo_macro ([] : calls).
Proof.
  split; [by exists 3%nat|]. destruct demo_runs as [s Hs]. rewrite Hs.
  apply (proj1 (macro_delay_slots 0 [40; 7] demo_macro ([] : calls) true _ (slots_okb_spec (code demo_macro) eq_refl) ltac:(by vm_compute))). by exists 3%nat.
Defined.

Lemma macro_forward_terminates_witness : (forall ok, Execute 2 6 [40; 7] demo_macro ([] : calls) <> Done ok None) /\ exists m ok s' e', Execute 2 6 (take m demo_parameters) demo_macro ([] : calls) = Done ok (Some (s', e')) /\ next_parameter_index s' = Z.of_nat (length (parameters s')).
Proof.
  assert (forward_program (code demo_macro)) as Hf by (apply forward_programb_spec; vm_compute; reflexivity). destruct (macro_forward_terminates demo_macro [] Hf) as [H1 H2]. split; [exact (proj2 (H1 0%nat 0%nat [40; 7]))|].
  destruct (H2 demo_parameters) as (m & ok & s' & e' & _ & E & _ & Hi); [repeat constructor|repeat constructor; by vm_compute|by vm_compute|]. exists m, ok, s', e'. split; [exact E|exact Hi].
Defined.

Lemma macro_registers_in_range_witness : exists s' : MacroInterpreterImpl, registers s' !! 3%nat = Some 7 /\ interpreter_ok s'.
Proof.
  destruct demo_runs as [s Hs]. exists s. split; [vm_compute in Hs; by injection Hs as <-|]. apply (macro_registers_in_range 2 3 [40; 7] demo_macro [] true s _) with (2 := Hs). repeat constructor; by vm_compute.
Defined.

Lemma macro_wide_arithmetic_witness : exists lo hi s1 s2, GetALUResult (Some Macro.Add) 0xffffffff 3 demo_macro = Done true (lo, s1) /\ GetALUResult (Some Macro.AddWithCarry) 1 2 s1 = Done true (hi, s2) /\ lo + hi * 2 ^ 32 = 0x400000002.
Proof.
  destruct (macro_wide_arithmetic 0xffffffff 1 3 2 demo_macro) as [(lo & hi & s1 & s2 & H1 & H2 & H3 & _) _]; [by vm_compute..|]. exists lo, hi, s1, s2. split; [exact H1|]. split; [exact H2|]. rewrite H3. by vm_compute.
Defined.

(** A field of 31 bits has no mask: [(1 << 31) - 1] is out of the range of an [int]. *)
Lemma bitfield_mask_31 : Macro.GetBitfieldMask (31 .<< 22) = Undef.
Proof. by vm_compute. Qed.

(** Shifting by a register that holds 32 or more. *)
Lemma shift_by_register_undefined : exec_operation (E := calls) (4 .| (1 .<< 4) .| (1 .<< 11) .| (1 .<< 22)) (started [32] 32 demo_macro) [] = Undef.
Proof. by vm_compute. Qed.
