(* ===== verification/MacroJit.v ===== *)
(** * MacroJit: the compiled macros of the GPU

    Models the code generator of [MacroJITx64Impl] (video_core/macro.cpp) for the instructions that are not branches: the [Compile_] functions with their optimisations, as functions to lists of machine instructions, the flags of
    [OptimizerState], and what the instructions do to the registers, the [JITState] and the parameters. An operand of the assembler that the generator has not assigned is the parameter [unassigned], and so are the
    registers a called function leaves behind.

    The theorems say where the compiled code does what the interpreter of MacroInterpreter does, with the one convention for the carry it keeps after additions and the other after subtractions, and, for the instructions left out there,
    what it does instead. *)

From S2P Require Import Prelude BitField MacroInterpreter.

(** The registers the generated code uses. *)
Inductive Reg32 := RESULT | eax | ecx | METHOD_ADDRESS.
#[global] Instance Reg32_dec : EqDecision Reg32.
Proof. solve_decision. Defined.

(** The instructions the generator emits. *)
Inductive Instruction :=
  | mov_rr (d s : Reg32) | mov_ri (d : Reg32) (imm : Z)
  | add_rr (d s : Reg32) | adc_rr (d s : Reg32) | sub_rr (d s : Reg32) | sbb_rr (d s : Reg32)
  | xor_rr (d s : Reg32) | or_rr (d s : Reg32) | and_rr (d s : Reg32) | not_r (d : Reg32)
  | add_ri (d : Reg32) (imm : Z) | sub_ri (d : Reg32) (imm : Z) | and_ri (d : Reg32) (imm : Z) | inc_r (d : Reg32)
  | shr_ri (d : Reg32) (n : Z) | shl_ri (d : Reg32) (n : Z) | shr_cl (d : Reg32) | shl_cl (d : Reg32)
  | lea_sum                                  (* lea eax, [rcx + METHOD_ADDRESS] *)
  | test_ri (d : Reg32) (imm : Z) | je (over : nat)
  | load_register (d : Reg32) (index : Z)    (* mov d, [STATE + registers + 4 * index] *)
  | store_register (index : Z) (s : Reg32)
  | bt_carry | setc_carry                    (* bt [STATE + carry_flag], 0 and setc [STATE + carry_flag] *)
  | check_parameter                          (* cmp PARAMETERS, MAX_PARAMETER; jb; report the error *)
  | load_parameter | next_parameter          (* mov eax, [PARAMETERS] and add PARAMETERS, 4 *)
  | load_maxwell                             (* mov rax, [STATE]; mov RESULT, [rax + reg_array + 4 * RESULT] *)
  | check_maxwell                            (* cmp RESULT, NUM_REGS; jb; int3 *)
  | call_send (v : Reg32).

Record JITState := mkJit {
  j_result : Z; j_eax : Z; j_ecx : Z; j_method : Z;
  j_cf : bool; j_zf : bool;
  j_registers : list Z; j_carry : Z;
  j_parameters : list Z; j_next : Z
}.

Definition rd (r : Reg32) (c : JITState) : Z := match r with RESULT => j_result c | eax => j_eax c | ecx => j_ecx c | METHOD_ADDRESS => j_method c end.
Definition wr (r : Reg32) (v : Z) (c : JITState) : JITState :=
  let '(mkJit a b x m cf zf rs cy ps n) := c in
  match r with RESULT => mkJit v b x m cf zf rs cy ps n | eax => mkJit a v x m cf zf rs cy ps n | ecx => mkJit a b v m cf zf rs cy ps n | METHOD_ADDRESS => mkJit a b x v cf zf rs cy ps n end.
Definition set_cf (f : bool) (c : JITState) : JITState := mkJit (j_result c) (j_eax c) (j_ecx c) (j_method c) f (j_zf c) (j_registers c) (j_carry c) (j_parameters c) (j_next c).
Definition set_zf (f : bool) (c : JITState) : JITState := mkJit (j_result c) (j_eax c) (j_ecx c) (j_method c) (j_cf c) f (j_registers c) (j_carry c) (j_parameters c) (j_next c).
Definition set_registers (l : list Z) (c : JITState) : JITState := mkJit (j_result c) (j_eax c) (j_ecx c) (j_method c) (j_cf c) (j_zf c) l (j_carry c) (j_parameters c) (j_next c).
Definition set_carry (v : Z) (c : JITState) : JITState := mkJit (j_result c) (j_eax c) (j_ecx c) (j_method c) (j_cf c) (j_zf c) (j_registers c) v (j_parameters c) (j_next c).
Definition set_next (n : Z) (c : JITState) : JITState := mkJit (j_result c) (j_eax c) (j_ecx c) (j_method c) (j_cf c) (j_zf c) (j_registers c) (j_carry c) (j_parameters c) n.

Definition carry_in (c : JITState) : Z := if j_cf c then 1 else 0.

(** Shift counts are taken modulo 32; a count of zero leaves the carry flag. *)
Definition shr_by (d : Reg32) (n : Z) (c : JITState) : JITState :=
  let n := n mod 32 in if n =? 0 then c else set_cf (Z.testbit (rd d c) (n - 1)) (wr d (rd d c .>> n) c).
Definition shl_by (d : Reg32) (n : Z) (c : JITState) : JITState :=
  let n := n mod 32 in if n =? 0 then c else set_cf (Z.testbit (rd d c) (32 - n)) (wr d (u32 (rd d c .<< n)) c).

(** [Maxwell3D] with its registers, read directly and checked. *)
Class Maxwell3DRegs (E : Type) `{!Maxwell3D E} := {
  reg_array : Z -> E -> outcome Z;
  GetRegisterValue_spec : forall method e, GetRegisterValue method e = (ASSERT (method <? 0xE00);; reg_array method e)
}.

Section Machine.
Context {E : Type} `{Maxwell3DRegs E}.
(** What a call leaves in the registers it may use; the first one also receives the pointer to the engine. *)
Variable clobber : JITState -> Z * Z.

Definition called (c : JITState) : JITState := let '(a, b) := clobber c in wr eax a (wr ecx b c).

Definition exec_instruction (i : Instruction) (c : JITState) (e : E) : outcome (JITState * E) :=
  match i with
  | mov_rr d s => mret (wr d (rd s c) c, e)
  | mov_ri d imm => mret (wr d (u32 imm) c, e)
  | add_rr d s => let r := rd d c + rd s c in mret (set_cf (2 ^ 32 <=? r) (wr d (u32 r) c), e)
  | adc_rr d s => let r := rd d c + rd s c + carry_in c in mret (set_cf (2 ^ 32 <=? r) (wr d (u32 r) c), e)
  | sub_rr d s => let r := rd d c - rd s c in mret (set_cf (r <? 0) (wr d (u32 r) c), e)
  | sbb_rr d s => let r := rd d c - rd s c - carry_in c in mret (set_cf (r <? 0) (wr d (u32 r) c), e)
  | xor_rr d s => mret (set_cf false (wr d (rd d c .^ rd s c) c), e)
  | or_rr d s => mret (set_cf false (wr d (rd d c .| rd s c) c), e)
  | and_rr d s => mret (set_cf false (wr d (rd d c .& rd s c) c), e)
  | not_r d => mret (wr d (notu 32 (rd d c)) c, e)
  | add_ri d imm => let r := rd d c + u32 imm in mret (set_cf (2 ^ 32 <=? r) (wr d (u32 r) c), e)
  | sub_ri d imm => let r := rd d c - u32 imm in mret (set_cf (r <? 0) (wr d (u32 r) c), e)
  | and_ri d imm => mret (set_cf false (wr d (rd d c .& u32 imm) c), e)
  | inc_r d => mret (wr d (u32 (rd d c + 1)) c, e)
  | shr_ri d n => mret (shr_by d n c, e)
  | shl_ri d n => mret (shl_by d n c, e)
  | shr_cl d => mret (shr_by d (rd ecx c) c, e)
  | shl_cl d => mret (shl_by d (rd ecx c) c, e)
  | lea_sum => mret (wr eax (u32 (rd ecx c + rd METHOD_ADDRESS c)) c, e)
  | test_ri d imm => mret (set_zf ((rd d c .& u32 imm) =? 0) c, e)
  | je _ => mret (c, e)
  | load_register d index => v ← arr_get (j_registers c) index; mret (wr d v c, e)
  | store_register index s => l ← arr_set (j_registers c) index (rd s c); mret (set_registers l c, e)
  | bt_carry => mret (set_cf (Z.testbit (j_carry c) 0) c, e)
  | setc_carry => mret (set_carry (if j_cf c then 1 else 0) c, e)
  | check_parameter => mret (if j_next c <? Z.of_nat (length (j_parameters c)) then c else called c, e)
  | load_parameter => v ← arr_get (j_parameters c) (j_next c); mret (wr eax v c, e)
  | next_parameter => mret (set_next (j_next c + 1) c, e)
  | load_maxwell => v ← reg_array (rd RESULT c) e; mret (wr RESULT v (wr eax (fst (clobber c)) c), e)
  | check_maxwell => if rd RESULT c <? 0xE00 then mret (c, e) else Undef
  | call_send v =>
      e ← CallMethod (ExtractValue Macro.address_field (rd METHOD_ADDRESS c)) (rd v c) true e;
      mret (called c, e)
  end.

(** A block of code; [je] jumps over the instructions behind it. *)
Fixpoint run_code (over : nat) (l : list Instruction) (c : JITState) (e : E) : outcome (JITState * E) :=
  match l with
  | [] => mret (c, e)
  | i :: l =>
      match over with
      | S over => run_code over l c e
      | O => '(c, e) ← exec_instruction i c e; run_code (match i with je n => if j_zf c then n else 0%nat | _ => 0%nat end) l c e
      end
  end.
End Machine.

(** ** The code generator *)

Record OptimizerState := mkOptimizer { can_skip_carry : bool; has_delayed_pc : bool; zero_reg_skip : bool; skip_dummy_addimmediate : bool; optimize_for_method_move : bool; enable_asserts : bool }.

Definition uses_carry (op : option Macro.ALUOperation) : bool := match op with Some Macro.AddWithCarry | Some Macro.SubtractWithBorrow => true | _ => false end.

Definition scan_opcode (op : Z) (o : OptimizerState) : OptimizerState :=
  let o := if decide (Macro.operation op = Macro.ALU) then
             if uses_carry (Macro.alu_operation op) then mkOptimizer false (has_delayed_pc o) (zero_reg_skip o) (skip_dummy_addimmediate o) (optimize_for_method_move o) (enable_asserts o) else o
           else o in
  if decide (Macro.operation op = Macro.Branch) then
    if Macro.branch_annul op then o else mkOptimizer (can_skip_carry o) true (zero_reg_skip o) (skip_dummy_addimmediate o) (optimize_for_method_move o) (enable_asserts o)
  else o.
Fixpoint scan_code (l : list Z) (o : OptimizerState) : OptimizerState := match l with [] => o | op :: l => scan_code l (scan_opcode op o) end.
Definition Optimizer_ScanFlags (code : list Z) (o : OptimizerState) : OptimizerState :=
  scan_code code (mkOptimizer true false (zero_reg_skip o) (skip_dummy_addimmediate o) (optimize_for_method_move o) (enable_asserts o)).

(** The flags [Compile] works with. *)
Definition Compile_flags (code : list Z) : OptimizerState := Optimizer_ScanFlags code (mkOptimizer false false true true true false).

Definition Compile_GetRegister (index : Z) (dst : Reg32) : list Instruction := if index =? 0 then [xor_rr dst dst] else [load_register dst index].
(** The parameter is in [eax]. *)
Definition Compile_FetchParameter : list Instruction := [check_parameter; load_parameter; next_parameter].
Definition Compile_Send (value : Reg32) : list Instruction :=
  [call_send value; test_ri METHOD_ADDRESS 0x3f000; je 8;
   mov_rr ecx METHOD_ADDRESS; and_ri METHOD_ADDRESS 0xfff; shr_ri ecx 12; and_ri ecx 0x3f; lea_sum; shl_ri ecx 12; or_rr eax ecx;
   mov_rr METHOD_ADDRESS eax].

Definition SetRegister_code (reg_index : Z) (result : Reg32) : list Instruction := if reg_index =? 0 then [] else [store_register reg_index result].
Definition SetMethodAddress_code (reg : Reg32) : list Instruction := [mov_rr METHOD_ADDRESS reg].

Definition Compile_ProcessResult (op : Macro.ResultOperation) (reg : Z) : list Instruction :=
  match op with
  | Macro.IgnoreAndFetch => Compile_FetchParameter ++ SetRegister_code reg eax
  | Macro.Move => SetRegister_code reg RESULT
  | Macro.MoveAndSetMethod => SetRegister_code reg RESULT ++ SetMethodAddress_code RESULT
  | Macro.FetchAndSend => Compile_FetchParameter ++ SetRegister_code reg eax ++ Compile_Send RESULT
  | Macro.MoveAndSend => SetRegister_code reg RESULT ++ Compile_Send RESULT
  | Macro.FetchAndSetMethod => Compile_FetchParameter ++ SetRegister_code reg eax ++ SetMethodAddress_code RESULT
  | Macro.MoveAndSetMethodFetchAndSend => SetRegister_code reg RESULT ++ SetMethodAddress_code RESULT ++ Compile_FetchParameter ++ Compile_Send eax
  | Macro.MoveAndSetMethodSend => SetRegister_code reg RESULT ++ SetMethodAddress_code RESULT ++ [shr_ri RESULT 12; and_ri RESULT 63] ++ Compile_Send RESULT
  end.

Section Generator.
Variable unassigned : Reg32.
Variable o : OptimizerState.

Definition carry_code : list Instruction := if can_skip_carry o then [] else [setc_carry].

(** The operands are loaded unless a skipped operation leaves them out. *)
Definition ALU_operands (opcode : Z) : list Instruction * Reg32 * Reg32 :=
  let a := Macro.src_a opcode in let b := Macro.src_b opcode in
  if negb (zero_reg_skip o) || uses_carry (Macro.alu_operation opcode) then (Compile_GetRegister a RESULT ++ Compile_GetRegister b eax, RESULT, eax)
  else ((if a =? 0 then [] else Compile_GetRegister a RESULT) ++ (if b =? 0 then [] else Compile_GetRegister b eax),
        if a =? 0 then unassigned else RESULT, if b =? 0 then unassigned else eax).

Definition Compile_ALU (opcode : Z) : outcome (list Instruction) :=
  let is_a_zero := Macro.src_a opcode =? 0 in
  let is_b_zero := Macro.src_b opcode =? 0 in
  let valid_operation := negb is_a_zero && negb is_b_zero in
  let has_zero_register := is_a_zero || is_b_zero in
  let '(operands, src_a, src_b) := ALU_operands opcode in
  let emit_if (b : bool) (l : list Instruction) := if negb (zero_reg_skip o) || b then l else [] in
  body ← match Macro.alu_operation opcode with
         | Some Macro.Add => mret (emit_if valid_operation [add_rr src_a src_b] ++ carry_code)
         | Some Macro.AddWithCarry => mret [bt_carry; adc_rr src_a src_b; setc_carry]
         | Some Macro.Subtract =>
             let has_emitted := negb (zero_reg_skip o) || valid_operation in
             mret (emit_if valid_operation [sub_rr src_a src_b] ++ if has_emitted then carry_code else [])
         | Some Macro.SubtractWithBorrow => mret [bt_carry; sbb_rr src_a src_b; setc_carry]
         | Some Macro.Xor => mret (emit_if valid_operation [xor_rr src_a src_b])
         | Some Macro.Or => mret (emit_if valid_operation [or_rr src_a src_b])
         | Some Macro.And => mret (emit_if (negb has_zero_register) [and_rr src_a src_b])
         | Some Macro.AndNot => mret (emit_if (negb is_a_zero) [not_r src_b; and_rr src_a src_b])
         | Some Macro.Nand => mret (emit_if (negb is_a_zero) [and_rr src_a src_b; not_r src_a])
         | None => ASSERT false;; mret []
         end;
  mret (operands ++ body ++ Compile_ProcessResult (Macro.result_operation opcode) (Macro.dst opcode)).

(** A register plus the immediate, in [RESULT]. *)
Definition sum_code (opcode : Z) : list Instruction :=
  let imm := Macro.immediate opcode in
  if zero_reg_skip o && (Macro.src_a opcode =? 0) then if imm =? 0 then [xor_rr RESULT RESULT] else [mov_ri RESULT imm]
  else Compile_GetRegister (Macro.src_a opcode) RESULT ++
       if 2 <? imm then [add_ri RESULT imm] else if imm =? 1 then [inc_r RESULT] else if imm <? 0 then [sub_ri RESULT (- imm)] else [].

(** Whether [Compile_AddImmediate] emits nothing: a store to register 0, or a method that the next instruction sets again. *)
Definition dummy_addimmediate (opcode : Z) : bool :=
  skip_dummy_addimmediate o && match Macro.result_operation opcode with Macro.Move => Macro.dst opcode =? 0 | _ => false end.
Definition redundant_move (opcode : Z) (next : option Z) : bool :=
  optimize_for_method_move o &&
  match Macro.result_operation opcode, next with
  | Macro.MoveAndSetMethod, Some next => match Macro.result_operation next with Macro.MoveAndSetMethod => Macro.dst opcode =? Macro.dst next | _ => false end
  | _, _ => false
  end.
Definition Compile_AddImmediate (opcode : Z) (next : option Z) : outcome (list Instruction) :=
  if dummy_addimmediate opcode then mret []
  else if redundant_move opcode next then mret []
  else mret (sum_code opcode ++ Compile_ProcessResult (Macro.result_operation opcode) (Macro.dst opcode)).

Definition Compile_ExtractInsert (opcode : Z) : outcome (list Instruction) :=
  m ← Macro.GetBitfieldMask opcode;
  hole ← shl32 m (Macro.bf_dst_bit opcode);
  mret (Compile_GetRegister (Macro.src_a opcode) RESULT ++ Compile_GetRegister (Macro.src_b opcode) eax ++
        [and_ri RESULT (notu 32 hole); shr_ri eax (Macro.bf_src_bit opcode); and_ri eax m; shl_ri eax (Macro.bf_dst_bit opcode); or_rr RESULT eax] ++
        Compile_ProcessResult (Macro.result_operation opcode) (Macro.dst opcode)).
Definition Compile_ExtractShiftLeftImmediate (opcode : Z) : outcome (list Instruction) :=
  m ← Macro.GetBitfieldMask opcode;
  mret (Compile_GetRegister (Macro.src_a opcode) ecx ++ Compile_GetRegister (Macro.src_b opcode) RESULT ++
        [shr_cl RESULT; and_ri RESULT m; shl_ri RESULT (Macro.bf_dst_bit opcode)] ++ Compile_ProcessResult (Macro.result_operation opcode) (Macro.dst opcode)).
Definition Compile_ExtractShiftLeftRegister (opcode : Z) : outcome (list Instruction) :=
  m ← Macro.GetBitfieldMask opcode;
  mret (Compile_GetRegister (Macro.src_a opcode) ecx ++ Compile_GetRegister (Macro.src_b opcode) RESULT ++
        [shr_ri RESULT (Macro.bf_src_bit opcode); and_ri RESULT m; shl_cl RESULT] ++ Compile_ProcessResult (Macro.result_operation opcode) (Macro.dst opcode)).
Definition Compile_Read (opcode : Z) : outcome (list Instruction) :=
  mret (sum_code opcode ++ (if enable_asserts o then [check_maxwell] else []) ++ [load_maxwell] ++ Compile_ProcessResult (Macro.result_operation opcode) (Macro.dst opcode)).

(** The code of an instruction that is not a branch. *)
Definition Compile_operation (opcode : Z) (next : option Z) : outcome (list Instruction) :=
  match Macro.operation opcode with
  | Macro.ALU => Compile_ALU opcode
  | Macro.AddImmediate => Compile_AddImmediate opcode next
  | Macro.ExtractInsert => Compile_ExtractInsert opcode
  | Macro.ExtractShiftLeftImmediate => Compile_ExtractShiftLeftImmediate opcode
  | Macro.ExtractShiftLeftRegister => Compile_ExtractShiftLeftRegister opcode
  | Macro.Read => Compile_Read opcode
  | Macro.Unused | Macro.Branch => ASSERT false;; mret []
  end.
End Generator.

(** ** The compiled code and the interpreter *)

(** The same machine: the carry is kept negated after a subtraction ([borrow]), and not kept at all by a program that does not use it. *)
Record jit_related (o : OptimizerState) (borrow : bool) (s : MacroInterpreterImpl) (c : JITState) : Prop := {
  jr_registers : j_registers c = registers s;
  jr_address : ExtractValue Macro.address_field (j_method c) = ExtractValue Macro.address_field (method_address s);
  jr_increment : ExtractValue Macro.increment_field (j_method c) = ExtractValue Macro.increment_field (method_address s);
  jr_carry : can_skip_carry o = false -> j_carry c = if xorb (carry_flag s) borrow then 1 else 0;
  jr_parameters : j_parameters c = parameters s;
  jr_length : Z.of_nat (length (parameters s)) < 2 ^ 32;
  jr_next : j_next c = next_parameter_index s
}.

(** The fields of a state that is known. *)
Tactic Notation "jit_simpl" := cbn [wr rd set_cf set_zf set_carry set_registers set_next j_result j_eax j_ecx j_method j_cf j_zf j_registers j_carry j_parameters j_next registers method_address carry_flag parameters next_parameter_index with_carry with_registers with_method with_index] in *.

(** A related state with other registers of the processor. *)
Ltac jit_rel := match goal with H : jit_related _ _ _ _ |- _ => destruct H; split; cbn in *; first [done | congruence | by intuition] end.

Definition no_jump (i : Instruction) : bool := match i with je _ => false | _ => true end.

Lemma address_of m : ExtractValue Macro.address_field m = m .& 0xfff.
Proof. unfold ExtractValue. change (mask Macro.address_field) with 0xfff. by rewrite Z.shiftr_0_r. Qed.
Lemma increment_of m : ExtractValue Macro.increment_field m = (m .>> 12) .& 0x3f.
Proof. unfold ExtractValue. change (mask Macro.increment_field) with (0x3f .<< 12). cbn [position Macro.increment_field]. by rewrite Z.shiftr_land, Z.shiftr_shiftl_l. Qed.
Lemma increment_zero m : (m .& 0x3f000) = ExtractValue Macro.increment_field m .<< 12.
Proof.
  rewrite increment_of. apply Z.bits_inj'. intros i Hi. rewrite Z.land_spec, Z.shiftl_spec by done. change 0x3f000 with (0x3f .<< 12). rewrite Z.shiftl_spec by done. destruct (Z.ltb_spec i 12).
  - rewrite !(Z.testbit_neg_r _ (i - 12)) by lia. apply andb_false_r.
  - rewrite Z.land_spec, Z.shiftr_spec by lia. by replace (i - 12 + 12) with i by lia.
Qed.

(** The method address the code computes behind a send. *)
Lemma next_method_fields a i : 0 <= a -> in_u 6 i -> a + i < 2 ^ 12 ->
  ExtractValue Macro.address_field (u32 (i + a) .| u32 (i .<< 12)) = a + i /\ ExtractValue Macro.increment_field (u32 (i + a) .| u32 (i .<< 12)) = i.
Proof.
  intros Ha [Hi0 Hi1] Hs. rewrite Z.shiftl_mul_pow2, (u32_small (i * 2 ^ 12)), u32_small by lia.
  assert ((i + a) .| (i * 2 ^ 12) = i + a + i * 2 ^ 12) as ->.
  { symmetry. rewrite Z.add_nocarry_lxor, Z.lxor_lor; try done; apply Z.bits_inj_0; intros k; rewrite Z.land_spec, <- Z.shiftl_mul_pow2 by lia; destruct (Z.ltb_spec k 12);
      [rewrite Z.shiftl_spec_low by lia; apply andb_false_r| |rewrite Z.shiftl_spec_low by lia; apply andb_false_r|]; rewrite (Z.bits_above_log2 (i + a)); try done; try lia;
      (destruct (Z.eq_dec (i + a) 0) as [->|]; [cbn; lia|]; apply Z.lt_le_trans with 12; [apply Z.log2_lt_pow2; lia|lia]). }
  rewrite address_of, increment_of. change 0xfff with (Z.ones 12). change 0x3f with (Z.ones 6). rewrite !Z.land_ones, Z.shiftr_div_pow2 by lia. split.
  - rewrite Z.add_mod, Z.mod_mul, Z.add_0_r, Z.mod_mod, Z.mod_small by lia. lia.
  - rewrite Z.div_add, (Z.div_small (i + a)), Z.add_0_l, Z.mod_small by lia. done.
Qed.

Section Simulation.
Context {E : Type} `{Maxwell3DRegs E}.
Variable clobber : JITState -> Z * Z.
Variable unassigned : Reg32.
Variable o : OptimizerState.
Implicit Types (s : MacroInterpreterImpl) (c : JITState) (e : E).
Notation run := (run_code clobber 0).
Notation related := (jit_related o).

Lemma run_app l1 : forall l2 c e, forallb no_jump l1 = true -> run (l1 ++ l2) c e = ('(c, e) ← run l1 c e; run l2 c e).
Proof.
  induction l1 as [|i l1 IH]; intros l2 c e Hn; cbn [app run_code]; [by rewrite bind_ret|]. cbn [forallb] in Hn. apply andb_true_iff in Hn as [Hi Hn]. rewrite bind_assoc. apply bind_ext. intros [c' e'].
  destruct i; (done || by apply IH).
Qed.

(** Running one block, then the rest. *)
Lemma run_then l1 l2 c e ok1 ok2 c1 e1 r : forallb no_jump l1 = true -> run l1 c e = Done ok1 (c1, e1) -> run l2 c1 e1 = Done ok2 r -> run (l1 ++ l2) c e = Done (ok1 && ok2) r.
Proof. intros Hn H1 H2. rewrite run_app by done. by eapply bind_intro; [exact H1|]. Qed.

Lemma GetRegister_no_jump i d : forallb no_jump (Compile_GetRegister i d) = true.
Proof. unfold Compile_GetRegister. by destruct (i =? 0). Qed.
Lemma SetRegister_no_jump i d : forallb no_jump (SetRegister_code i d) = true.
Proof. unfold SetRegister_code. by destruct (i =? 0). Qed.

Lemma zero_register s v : interpreter_ok s -> GetRegister 0 s = Done true v -> v = 0.
Proof. intros Hs Hg. apply arr_get_inv in Hg as (_ & _ & Hg). pose proof (io_zero s Hs). change (Z.to_nat 0) with 0%nat in Hg. congruence. Qed.

(** Loading a register: only the register named, and the carry flag, change. *)
Lemma run_GetRegister b s c e i d v : interpreter_ok s -> related b s c -> GetRegister i s = Done true v -> exists f, run (Compile_GetRegister i d) c e = Done true (set_cf f (wr d v c), e).
Proof.
  intros Hs Hr Hg. unfold Compile_GetRegister. destruct (Z.eqb_spec i 0) as [->|].
  - assert (v = 0) as -> by (by apply (zero_register s)). exists false. cbn. by rewrite Z.lxor_nilpotent.
  - exists (j_cf c). cbn. rewrite (jr_registers _ _ _ _ Hr). unfold GetRegister in Hg. rewrite Hg. destruct c, d; done.
Qed.

Lemma run_SetRegister b s c e i r v s' ok : related b s c -> rd r c = v -> SetRegister i v s = Done ok s' -> exists l ok', run (SetRegister_code i r) c e = Done ok' (set_registers l c, e) /\ related b s' (set_registers l c).
Proof.
  intros Hr Hv Hs. unfold SetRegister, SetRegister_code in *. destruct (i =? 0).
  - apply mret_Done in Hs as [-> ->]. exists (j_registers c), true. split; [by destruct c|]. by destruct c.
  - apply bind_Done in Hs as (l & o1 & o2 & Hl & [-> ->]%mret_Done & ->). exists l. eexists. split; [cbn; by rewrite (jr_registers _ _ _ _ Hr), Hv, Hl|]. destruct Hr. by split.
Qed.

Lemma run_FetchParameter b s c e p s' ok : related b s c -> FetchParameter s = Done ok (p, s') -> exists c', run Compile_FetchParameter c e = Done true (c', e) /\ rd eax c' = p /\ rd RESULT c' = rd RESULT c /\ related b s' c'.
Proof.
  intros Hr Hf. unfold FetchParameter in Hf. apply bind_Done in Hf as (? & ? & ? & _ & Hf & ->). apply bind_Done in Hf as (p' & o1 & o2 & Hp & [-> [= -> ->]]%mret_Done & ->).
  assert (0 <= next_parameter_index s < Z.of_nat (length (parameters s))) as Hn.
  { apply arr_get_inv in Hp as (? & _ & El%lookup_lt_Some). lia. }
  pose proof (jr_length _ _ _ _ Hr) as Hl. pose proof (jr_next _ _ _ _ Hr) as Hx. pose proof (jr_parameters _ _ _ _ Hr) as Hq. cbn. rewrite Hx, Hq, (proj2 (Z.ltb_lt _ _)) by lia. cbn. rewrite Hx, Hq.
  destruct (arr_get_lt (parameters s) (next_parameter_index s) ltac:(lia)) as (q & Hp' & _). rewrite Hp in Hp'. injection Hp' as -> ->. rewrite Hp. cbn. eexists. split; [reflexivity|]. destruct c. cbn in *. split; [done|]. split; [done|].
  destruct Hr. split; try done. cbn in *. rewrite u32_small by lia. congruence.
Qed.

Lemma run_SetMethod b s c e r v : related b s c -> rd r c = v -> exists c', run (SetMethodAddress_code r) c e = Done true (c', e) /\ related b (SetMethodAddress v s) c' /\ c' = wr METHOD_ADDRESS v c.
Proof. intros Hr Hv. eexists. split; [reflexivity|]. rewrite Hv. split; [|done]. destruct c. cbn. jit_rel. Qed.

(** The address did not wrap around: in the state behind a send it is the increment at least. *)
Definition no_wrap s : Prop := ExtractValue Macro.increment_field (method_address s) <= ExtractValue Macro.address_field (method_address s).

(** The code behind the call of a send. *)
Definition bump_code : list Instruction := drop 1 (Compile_Send RESULT).

Lemma run_bump b s s' c e : related b s c -> s' = with_method (method_address s') s -> 
  let a := ExtractValue Macro.address_field (method_address s) in let i := ExtractValue Macro.increment_field (method_address s) in
  a + i < 2 ^ 12 -> ExtractValue Macro.address_field (method_address s') = a + i -> ExtractValue Macro.increment_field (method_address s') = i ->
  exists c', run bump_code c e = Done true (c', e) /\ related b s' c'.
Proof.
  intros Hr Es a i Hs Ea Ei. assert (in_u 6 i) as Hi by (apply (opcode_field_range 12 6); lia). assert (in_u 12 a) as Ha by (apply (opcode_field_range 0 12); lia).
  pose proof (jr_increment _ _ _ _ Hr) as Ji. pose proof (jr_address _ _ _ _ Hr) as Ja. fold i in Ji. fold a in Ja. destruct c as [ra rb rc m cf zf rs cy ps nx]. cbn [j_method] in Ji, Ja.
  change bump_code with [test_ri METHOD_ADDRESS 0x3f000; je 8; mov_rr ecx METHOD_ADDRESS; and_ri METHOD_ADDRESS 0xfff; shr_ri ecx 12; and_ri ecx 0x3f; lea_sum; shl_ri ecx 12; or_rr eax ecx; mov_rr METHOD_ADDRESS eax].
  cbn [run_code exec_instruction rd]. rewrite !bind_ret. cbn [j_zf set_zf j_method]. change (u32 0x3f000) with 0x3f000. rewrite increment_zero, Ji. destruct (Z.eqb_spec (i .<< 12) 0) as [Ez|Ez]; cbn [run_code exec_instruction rd].
  - assert (i = 0) as Hi0 by (rewrite Z.shiftl_mul_pow2 in Ez; lia). eexists. split; [reflexivity|]. rewrite Es. destruct Hr. split; cbn in *; try done; rewrite ?Ja, ?Ji, ?Ea, ?Ei; lia.
  - rewrite ?bind_ret. eexists. split; [reflexivity|]. change (u32 0xfff) with 0xfff. change (u32 0x3f) with 0x3f. unfold shr_by, shl_by. change (12 mod 32) with 12. cbn [Z.eqb wr rd set_cf set_zf j_result j_eax j_ecx j_method j_cf j_zf j_registers j_carry j_parameters j_next].
    rewrite <- increment_of, <- address_of, Ji, Ja. destruct (next_method_fields a i) as [F1 F2]; [apply Ha|done|done|]. rewrite Es. destruct Hr. split; cbn in *; try done; congruence.
Qed.

Lemma run_Send b s c e r v s' e' ok : related b s c -> rd r c = v -> no_wrap s' -> Send v s e = Done ok (s', e') -> exists ok' c', run (Compile_Send r) c e = Done ok' (c', e') /\ related b s' c'.
Proof.
  intros Hr Hv Hn Hs. unfold Send in Hs. apply bind_Done in Hs as (e1 & o1 & o2 & Hc & [-> [= -> ->]]%mret_Done & ->).
  destruct (bump_fields (method_address s)) as [Ba Bi]. unfold bump in Ba, Bi. unfold no_wrap in Hn. cbn [method_address with_method] in Hn. rewrite Ba, Bi in Hn.
  set (s' := with_method _ s). pose proof (opcode_field_range 12 6 (method_address s) ltac:(lia) ltac:(lia) ltac:(lia)) as Hi. pose proof (opcode_field_range 0 12 (method_address s) ltac:(lia) ltac:(lia) ltac:(lia)) as Ha.
  change (Macro.field 12 6 (method_address s)) with (ExtractValue Macro.increment_field (method_address s)) in Hi. change (Macro.field 0 12 (method_address s)) with (ExtractValue Macro.address_field (method_address s)) in Ha.
  assert (ExtractValue Macro.address_field (method_address s) + ExtractValue Macro.increment_field (method_address s) < 2 ^ 12) as Hs.
  { destruct Hi, Ha. destruct (Z.lt_ge_cases (ExtractValue Macro.address_field (method_address s) + ExtractValue Macro.increment_field (method_address s)) (2 ^ 12)) as [|Hge]; [done|].
    rewrite <- (Z.mod_unique _ _ 1 (ExtractValue Macro.address_field (method_address s) + ExtractValue Macro.increment_field (method_address s) - 2 ^ 12)) in Hn by lia. lia. }
  assert (related b s (called clobber c)) as Hr1. { unfold called. destruct (clobber c) as [x y]. destruct c. cbn. jit_rel. }
  destruct (run_bump b s s' (called clobber c) e1 Hr1) as (c' & E' & Hr'); [done|done|subst s'; cbn [method_address with_method]; rewrite Ba; apply Z.mod_small; destruct Hi, Ha; lia|done|].
  exists o1, c'. split; [|done]. rewrite <- (andb_true_r o1). apply (run_then [call_send r] bump_code c e o1 true (called clobber c) e1); [done| |done].
  cbn. rewrite (jr_address _ _ _ _ Hr), Hv, Hc. cbn. by rewrite !andb_true_r.
Qed.

Definition sends (op : Macro.ResultOperation) : bool :=
  match op with Macro.FetchAndSend | Macro.MoveAndSend | Macro.MoveAndSetMethodFetchAndSend | Macro.MoveAndSetMethodSend => true | _ => false end.

Lemma rd_set_registers r l c : rd r (set_registers l c) = rd r c.
Proof. by destruct r. Qed.

Lemma run_ProcessResult b s c e op reg v s' e' ok : related b s c -> rd RESULT c = v -> (sends op = true -> no_wrap s') -> ProcessResult op reg v s e = Done ok (s', e') ->
  exists ok' c', run (Compile_ProcessResult op reg) c e = Done ok' (c', e') /\ related b s' c'.
Proof.
  intros Hr Hv Hn Hp.
  assert (forall r w s1 e1 o1 c1, Send w s1 e1 = Done o1 (s', e') -> related b s1 c1 -> rd r c1 = w -> sends op = true -> exists ok' c', run (Compile_Send r) c1 e1 = Done ok' (c', e') /\ related b s' c') as Hsend
    by (intros; by eapply run_Send; eauto).
  destruct op; cbn [ProcessResult Compile_ProcessResult sends] in *.
  - apply bind_Done in Hp as ([p s1] & ? & ? & Hf & Hp & ->). apply bind_Done in Hp as (s2 & ? & ? & Hs & [-> [= -> ->]]%mret_Done & ->).
    destruct (run_FetchParameter b s c e p s1 _ Hr Hf) as (c1 & E1 & Ha & _ & Hr1). destruct (run_SetRegister b s1 c1 e reg eax p s2 _ Hr1 Ha Hs) as (l & ok2 & E2 & Hr2).
    eexists _, _. split; [by eapply (run_then Compile_FetchParameter); [|exact E1|exact E2]|done].
  - apply bind_Done in Hp as (s2 & ? & ? & Hs & [-> [= -> ->]]%mret_Done & ->). destruct (run_SetRegister b s c e reg RESULT v s2 _ Hr Hv Hs) as (l & ok2 & E2 & Hr2). eauto.
  - apply bind_Done in Hp as (s2 & ? & ? & Hs & [-> [= -> ->]]%mret_Done & ->). destruct (run_SetRegister b s c e reg RESULT v s2 _ Hr Hv Hs) as (l & ok2 & E2 & Hr2).
    destruct (run_SetMethod b s2 (set_registers l c) e RESULT v Hr2 Hv) as (c3 & E3 & Hr3 & _). eexists _, _. split; [by eapply (run_then (SetRegister_code _ _)); [apply SetRegister_no_jump|exact E2|exact E3]|done].
  - apply bind_Done in Hp as ([p s1] & ? & ? & Hf & Hp & ->). apply bind_Done in Hp as (s2 & ? & ? & Hs & Hp & ->).
    destruct (run_FetchParameter b s c e p s1 _ Hr Hf) as (c1 & E1 & Ha & Hv1 & Hr1). destruct (run_SetRegister b s1 c1 e reg eax p s2 _ Hr1 Ha Hs) as (l & ok2 & E2 & Hr2).
    destruct (Hsend RESULT v s2 e _ (set_registers l c1) Hp Hr2) as (ok3 & c3 & E3 & Hr3); [rewrite rd_set_registers; congruence|done|].
    eexists _, _. split; [eapply (run_then Compile_FetchParameter); [done|exact E1|]; by eapply run_then; [apply SetRegister_no_jump|exact E2|exact E3]|done].
  - apply bind_Done in Hp as (s2 & ? & ? & Hs & Hp & ->). destruct (run_SetRegister b s c e reg RESULT v s2 _ Hr Hv Hs) as (l & ok2 & E2 & Hr2).
    destruct (Hsend RESULT v s2 e _ (set_registers l c) Hp Hr2 Hv eq_refl) as (ok3 & c3 & E3 & Hr3). eexists _, _. split; [by eapply run_then; [apply SetRegister_no_jump|exact E2|exact E3]|done].
  - apply bind_Done in Hp as ([p s1] & ? & ? & Hf & Hp & ->). apply bind_Done in Hp as (s2 & ? & ? & Hs & [-> [= -> ->]]%mret_Done & ->).
    destruct (run_FetchParameter b s c e p s1 _ Hr Hf) as (c1 & E1 & Ha & Hv1 & Hr1). destruct (run_SetRegister b s1 c1 e reg eax p s2 _ Hr1 Ha Hs) as (l & ok2 & E2 & Hr2).
    destruct (run_SetMethod b s2 (set_registers l c1) e RESULT v Hr2) as (c3 & E3 & Hr3 & _); [rewrite rd_set_registers; congruence|].
    eexists _, _. split; [eapply (run_then Compile_FetchParameter); [done|exact E1|]; by eapply run_then; [apply SetRegister_no_jump|exact E2|exact E3]|done].
  - apply bind_Done in Hp as (s2 & ? & ? & Hs & Hp & ->). apply bind_Done in Hp as ([p s3] & ? & ? & Hf & Hp & ->). destruct (run_SetRegister b s c e reg RESULT v s2 _ Hr Hv Hs) as (l & ok2 & E2 & Hr2).
    destruct (run_SetMethod b s2 (set_registers l c) e RESULT v Hr2 Hv) as (c3 & E3 & Hr3 & _). destruct (run_FetchParameter b _ c3 e p s3 _ Hr3 Hf) as (c4 & E4 & Ha & _ & Hr4).
    destruct (Hsend eax p s3 e _ c4 Hp Hr4 Ha eq_refl) as (ok5 & c5 & E5 & Hr5).
    eexists _, _. split; [eapply run_then; [apply SetRegister_no_jump|exact E2|]; eapply (run_then (SetMethodAddress_code _)); [done|exact E3|]; by eapply (run_then Compile_FetchParameter); [|exact E4|exact E5]|done].
  - apply bind_Done in Hp as (s2 & ? & ? & Hs & Hp & ->). destruct (run_SetRegister b s c e reg RESULT v s2 _ Hr Hv Hs) as (l & ok2 & E2 & Hr2).
    destruct (run_SetMethod b s2 (set_registers l c) e RESULT v Hr2 Hv) as (c3 & E3 & Hr3 & Ec3).
    set (c4 := wr RESULT ((v .>> 12) .& 63) c3). assert (exists f, run [shr_ri RESULT 12; and_ri RESULT 63] c3 e = Done true (set_cf f c4, e)) as [f E4].
    { exists false. subst c3 c4. destruct c. cbn in *. by subst. }
    destruct (Hsend RESULT ((v .>> 12) .& 63) (SetMethodAddress v s2) e _ (set_cf f c4) Hp) as (ok5 & c5 & E5 & Hr5); [destruct c3; subst c4; cbn; jit_rel|by destruct c3|done|].
    eexists _, _. split; [eapply run_then; [apply SetRegister_no_jump|exact E2|]; eapply (run_then (SetMethodAddress_code _)); [done|exact E3|]; by eapply (run_then [_; _]); [|exact E4|exact E5]|done].
Qed.

(** ** Where the two agree *)

(** The convention for the carry behind an arithmetic instruction, or nothing where the compiled code does something else. *)
Definition ALU_agrees (opcode : Z) (borrow : bool) : option bool :=
  let a0 := Macro.src_a opcode =? 0 in let b0 := Macro.src_b opcode =? 0 in
  match Macro.alu_operation opcode with
  | Some Macro.AddWithCarry => if can_skip_carry o || borrow then None else Some false
  | Some Macro.SubtractWithBorrow => if can_skip_carry o || negb borrow then None else Some true
  | Some Macro.Add => if a0 || b0 && negb (can_skip_carry o) then None else Some false
  | Some Macro.Subtract => if a0 || b0 && negb (can_skip_carry o) then None else Some true
  | Some (Macro.Xor | Macro.Or) => if a0 then None else Some borrow
  | Some (Macro.And | Macro.AndNot | Macro.Nand) => if a0 || b0 then None else Some borrow
  | None => None
  end.

Definition sum_agrees (opcode : Z) : bool := (Macro.src_a opcode =? 0) || negb (Macro.immediate opcode =? 2).

Definition agrees (opcode : Z) (next : option Z) (borrow : bool) : option bool :=
  match Macro.operation opcode with
  | Macro.ALU => ALU_agrees opcode borrow
  | Macro.AddImmediate => if dummy_addimmediate o opcode || negb (redundant_move o opcode next) && sum_agrees opcode then Some borrow else None
  | Macro.Read => if sum_agrees opcode then Some borrow else None
  | Macro.Branch => None
  | _ => Some borrow
  end.

(** The generator works with the flags [Compile] sets. *)
Hypothesis Hzero : zero_reg_skip o = true.
Hypothesis Hasserts : enable_asserts o = false.

(** Two registers, one after the other. *)
Lemma run_operands b s c e i j v w d1 d2 : interpreter_ok s -> related b s c -> d1 <> d2 -> d1 <> METHOD_ADDRESS -> d2 <> METHOD_ADDRESS -> GetRegister i s = Done true v -> GetRegister j s = Done true w ->
  exists f, run (Compile_GetRegister i d1 ++ Compile_GetRegister j d2) c e = Done true (set_cf f (wr d2 w (wr d1 v c)), e).
Proof.
  intros Hs Hr Hd H1m H2m Hi Hj. destruct (run_GetRegister b s c e i d1 v Hs Hr Hi) as [f1 E1]. assert (related b s (set_cf f1 (wr d1 v c))) as Hr1 by (destruct c, d1; cbn; (done || jit_rel)).
  destruct (run_GetRegister b s _ e j d2 w Hs Hr1 Hj) as [f2 E2]. exists f2. rewrite (run_then _ _ c e true true _ e _ (GetRegister_no_jump i d1) E1 E2). by destruct c, d1, d2.
Qed.

Lemma operands_no_jump i j d1 d2 : forallb no_jump (Compile_GetRegister i d1 ++ Compile_GetRegister j d2) = true.
Proof. rewrite forallb_app. by rewrite !GetRegister_no_jump. Qed.

(** The carry flag of the processor and the carry of the interpreter. *)
Lemma add_flag x : (2 ^ 32 <=? x) = (0xffffffff <? x).
Proof. destruct (Z.leb_spec (2 ^ 32) x), (Z.ltb_spec 0xffffffff x); (done || lia). Qed.
Lemma sub_flag x : - 2 ^ 33 < x < 2 ^ 32 -> (x <? 0) = negb (u64 x <? 0x100000000) /\ u32 (u64 x) = u32 x.
Proof.
  intros Hx. unfold u32, u64, wrapu. split; [|Z.div_mod_to_equations; lia].
  destruct (Z.ltb_spec x 0), (Z.ltb_spec (x mod 2 ^ 64) 0x100000000); try done; Z.div_mod_to_equations; lia.
Qed.
Lemma testbit_flag (f : bool) : Z.testbit (if f then 1 else 0) 0 = f.
Proof. by destruct f. Qed.

(** The instructions behind the operands of an arithmetic instruction, both of them loaded. *)
Lemma run_ALU_body op s b b' c e va vb v s1 ok body :
  related b s c -> rd RESULT c = va -> rd eax c = vb -> in_u 32 va -> in_u 32 vb -> GetALUResult (Some op) va vb s = Done ok (v, s1) ->
  match op with
  | Macro.Add => body = add_rr RESULT eax :: carry_code o /\ b' = false
  | Macro.AddWithCarry => body = [bt_carry; adc_rr RESULT eax; setc_carry] /\ can_skip_carry o = false /\ b = false /\ b' = false
  | Macro.Subtract => body = sub_rr RESULT eax :: carry_code o /\ b' = true
  | Macro.SubtractWithBorrow => body = [bt_carry; sbb_rr RESULT eax; setc_carry] /\ can_skip_carry o = false /\ b = true /\ b' = true
  | Macro.Xor => body = [xor_rr RESULT eax] /\ b' = b
  | Macro.Or => body = [or_rr RESULT eax] /\ b' = b
  | Macro.And => body = [and_rr RESULT eax] /\ b' = b
  | Macro.AndNot => body = [not_r eax; and_rr RESULT eax] /\ b' = b
  | Macro.Nand => body = [and_rr RESULT eax; not_r RESULT] /\ b' = b
  end ->
  exists c1, run body c e = Done true (c1, e) /\ rd RESULT c1 = v /\ related b' s1 c1.
Proof.
  intros Hr Hva Hvb [A0 A1] [B0 B1] Hg Hb. destruct c as [ra rb rc m cf zf rs cy ps nx]. cbn [rd j_result j_eax] in Hva, Hvb. subst ra rb.
  destruct op; cbn [GetALUResult] in Hg; cbv zeta in Hg; injection Hg as _ <- <-.
  - destruct Hb as [-> ->]. unfold carry_code. destruct (can_skip_carry o) eqn:Ec; (eexists; split; [reflexivity|]); (split; [done|]); destruct Hr; split; jit_simpl; try done; intros Hsk; [congruence|]. by rewrite xorb_false_r, add_flag.
  - destruct Hb as (-> & Ec & -> & ->). pose proof (jr_carry _ _ _ _ Hr Ec) as Hc. jit_simpl. rewrite xorb_false_r in Hc. subst cy. eexists. split; [reflexivity|]. unfold carry_in. jit_simpl. rewrite testbit_flag.
    split; [done|]. destruct Hr; split; jit_simpl; try done. intros _. by rewrite xorb_false_r, add_flag.
  - destruct Hb as [-> ->]. destruct (sub_flag (va - vb)) as [Hf Hu]; [lia|]. rewrite Hu. unfold carry_code. destruct (can_skip_carry o) eqn:Ec; (eexists; split; [reflexivity|]); (split; [done|]); destruct Hr; split; jit_simpl; try done; intros Hsk; [congruence|].
    by rewrite xorb_true_r, Hf.
  - destruct Hb as (-> & Ec & -> & ->). pose proof (jr_carry _ _ _ _ Hr Ec) as Hc. jit_simpl. rewrite xorb_true_r in Hc. subst cy. eexists. split; [reflexivity|]. unfold carry_in. jit_simpl. rewrite testbit_flag.
    replace (if negb (carry_flag s) then 1 else 0) with (if carry_flag s then 0 else 1) by (by destruct (carry_flag s)). destruct (sub_flag (va - vb - (if carry_flag s then 0 else 1))) as [Hf Hu]; [destruct (carry_flag s); lia|]. rewrite Hu.
    split; [done|]. destruct Hr; split; jit_simpl; try done. intros _. by rewrite xorb_true_r, Hf.
  - destruct Hb as [-> ->]. eexists. split; [reflexivity|]. split; [done|]. jit_rel.
  - destruct Hb as [-> ->]. eexists. split; [reflexivity|]. split; [done|]. jit_rel.
  - destruct Hb as [-> ->]. eexists. split; [reflexivity|]. split; [done|]. jit_rel.
  - destruct Hb as [-> ->]. eexists. split; [reflexivity|]. split; [done|]. jit_rel.
  - destruct Hb as [-> ->]. eexists. split; [reflexivity|]. split; [done|]. jit_rel.
Qed.

(** The code in front of storing the result, and what it leaves. *)
Definition computes (code : list Instruction) b s c e (v : Z) : Prop := forallb no_jump code = true /\ exists c1, run code c e = Done true (c1, e) /\ rd RESULT c1 = v /\ related b s c1.

Lemma computes_then l1 l2 b s c c1 e v : forallb no_jump l1 = true -> run l1 c e = Done true (c1, e) -> computes l2 b s c1 e v -> computes (l1 ++ l2) b s c e v.
Proof. intros H1 E1 (H2 & c2 & E2 & Hv & Hr). split; [by rewrite forallb_app, H1, H2|]. exists c2. split; [|done]. by rewrite (run_then l1 l2 c e true true c1 e (c2, e)). Qed.

Lemma related_regs b s c f r v : related b s c -> r <> METHOD_ADDRESS -> related b s (set_cf f (wr r v c)).
Proof. intros Hr Hm. destruct c, r; cbn; (done || jit_rel). Qed.
Lemma related_wr b s c r v : related b s c -> r <> METHOD_ADDRESS -> related b s (wr r v c).
Proof. intros Hr Hm. destruct c, r; cbn; (done || jit_rel). Qed.
Lemma related_cf b s c f : related b s c -> related b s (set_cf f c).
Proof. intros Hr. destruct c. cbn. jit_rel. Qed.

(** An arithmetic instruction with both operands loaded. *)
Lemma both_operands op opcode body b b' s c e va vb v s1 ok : interpreter_ok s -> related b s c -> GetRegister (Macro.src_a opcode) s = Done true va -> GetRegister (Macro.src_b opcode) s = Done true vb ->
  in_u 32 va -> in_u 32 vb -> GetALUResult (Some op) va vb s = Done ok (v, s1) -> forallb no_jump body = true ->
  (forall c, related b s c -> rd RESULT c = va -> rd eax c = vb -> exists c1, run body c e = Done true (c1, e) /\ rd RESULT c1 = v /\ related b' s1 c1) ->
  computes ((Compile_GetRegister (Macro.src_a opcode) RESULT ++ Compile_GetRegister (Macro.src_b opcode) eax) ++ body) b' s1 c e v.
Proof.
  intros Hs Hr Ha Hb Hva Hvb Hg Hn Hbody. destruct (run_operands b s c e (Macro.src_a opcode) (Macro.src_b opcode) va vb RESULT eax Hs Hr) as [f E1]; [done..|]. eapply computes_then; [apply operands_no_jump|exact E1|]. split; [done|]. apply Hbody; [|by destruct c|by destruct c].
  by apply related_cf, related_wr; [apply related_wr|].
Qed.

Lemma carry_no_jump : forallb no_jump (carry_code o) = true.
Proof. unfold carry_code. by destruct (can_skip_carry o). Qed.

Lemma run_ALU opcode b b' s c e va vb v s1 ok : interpreter_ok s -> related b s c -> ALU_agrees opcode b = Some b' -> GetRegister (Macro.src_a opcode) s = Done true va -> GetRegister (Macro.src_b opcode) s = Done true vb ->
  in_u 32 va -> in_u 32 vb -> GetALUResult (Macro.alu_operation opcode) va vb s = Done ok (v, s1) ->
  exists code, Compile_ALU unassigned o opcode = Done true (code ++ Compile_ProcessResult (Macro.result_operation opcode) (Macro.dst opcode)) /\ computes code b' s1 c e v.
Proof.
  intros Hs Hr Hag Ha Hb Hva Hvb Hg. destruct (Macro.alu_operation opcode) as [op|] eqn:Eop; [|unfold ALU_agrees in Hag; by rewrite Eop in Hag].
  unfold ALU_agrees, Compile_ALU, ALU_operands in *. rewrite Eop in *. rewrite Hzero. cbn [negb orb]. destruct (uses_carry (Some op)) eqn:Eu.
  { assert (exists body, (op = Macro.AddWithCarry /\ body = [bt_carry; adc_rr RESULT eax; setc_carry] /\ can_skip_carry o = false /\ b = false /\ b' = false \/
                          op = Macro.SubtractWithBorrow /\ body = [bt_carry; sbb_rr RESULT eax; setc_carry] /\ can_skip_carry o = false /\ b = true /\ b' = true)) as (body & Hop).
    { destruct op; try done; [eexists; left|eexists; right]; (destruct (can_skip_carry o), b; try done); injection Hag as <-; done. }
    exists ((Compile_GetRegister (Macro.src_a opcode) RESULT ++ Compile_GetRegister (Macro.src_b opcode) eax) ++ body). split; [destruct Hop as [(-> & -> & _)|(-> & -> & _)]; rewrite bind_ret; by rewrite <- !app_assoc|].
    eapply both_operands; [done..|by destruct Hop as [(-> & -> & _)|(-> & -> & _)]|]. intros c' Hr' H1 H2. eapply (run_ALU_body op); [done..|]. destruct Hop as [(-> & -> & ?)|(-> & -> & ?)]; done. }
  destruct (Z.eqb_spec (Macro.src_a opcode) 0) as [Ea|Ea]; [by destruct op|]. destruct (Z.eqb_spec (Macro.src_b opcode) 0) as [Eb|Eb].
  - assert (vb = 0) as -> by (rewrite Eb in Hb; by apply (zero_register s)). exists (Compile_GetRegister (Macro.src_a opcode) RESULT).
    assert (v = va /\ related b' s1 c) as [-> Hr1].
    { destruct op; cbn in Hag, Hg; destruct (can_skip_carry o) eqn:Ec; try done; injection Hag as <-; injection Hg as _ <- <-; rewrite ?Z.lxor_0_r, ?Z.lor_0_r, ?Z.add_0_r, ?Z.sub_0_r, ?(proj2 (sub_flag va ltac:(destruct Hva; lia))), ?u32_small by (destruct Hva; lia);
        (split; [done|]); destruct Hr; split; try done; congruence. }
    split; [destruct op; cbn in Hag; unfold carry_code; destruct (can_skip_carry o) eqn:Ec; try done; rewrite bind_ret, !app_nil_r; done|].
    split; [apply GetRegister_no_jump|]. destruct (run_GetRegister b s c e (Macro.src_a opcode) RESULT va Hs Hr Ha) as [f E1]. eexists. split; [exact E1|]. split; [by destruct c|]. by apply related_regs.
  - exists ((Compile_GetRegister (Macro.src_a opcode) RESULT ++ Compile_GetRegister (Macro.src_b opcode) eax) ++
      match op with Macro.Add => add_rr RESULT eax :: carry_code o | Macro.Subtract => sub_rr RESULT eax :: carry_code o | Macro.Xor => [xor_rr RESULT eax] | Macro.Or => [or_rr RESULT eax]
      | Macro.And => [and_rr RESULT eax] | Macro.AndNot => [not_r eax; and_rr RESULT eax] | Macro.Nand => [and_rr RESULT eax; not_r RESULT] | _ => [] end).
    split; [destruct op; try done; rewrite bind_ret; by rewrite <- !app_assoc|].
    eapply both_operands; [done..|destruct op; try done; apply carry_no_jump|]. intros c' Hr' H1 H2. eapply (run_ALU_body op); [done..|]. destruct op; cbn in Hag; try done; by injection Hag as <-.
Qed.

Lemma u32_sub_r x y : u32 (x - u32 y) = u32 (x - y).
Proof. unfold u32, wrapu. apply Zminus_mod_idemp_r. Qed.

Lemma run_sum opcode b s c e va : interpreter_ok s -> related b s c -> sum_agrees opcode = true -> GetRegister (Macro.src_a opcode) s = Done true va -> in_u 32 va -> computes (sum_code o opcode) b s c e (u32 (va + Macro.immediate opcode)).
Proof.
  intros Hs Hr Hag Ha [V0 V1]. unfold sum_code, sum_agrees in *. rewrite Hzero. cbn [andb]. destruct (Z.eqb_spec (Macro.src_a opcode) 0) as [E0|E0].
  - assert (va = 0) as -> by (rewrite E0 in Ha; by apply (zero_register s)). destruct (Z.eqb_spec (Macro.immediate opcode) 0) as [->|]; (split; [done|]); (eexists; split; [reflexivity|]); (split; [destruct c; cbn; by rewrite ?Z.lxor_nilpotent|]);
      [by apply related_regs|by apply related_wr].
  - destruct (run_GetRegister b s c e (Macro.src_a opcode) RESULT va Hs Hr Ha) as [f E1]. eapply computes_then; [apply GetRegister_no_jump|exact E1|]. set (c1 := set_cf f (wr RESULT va c)). assert (rd RESULT c1 = va) as Hv by (by destruct c).
    assert (related b s c1) as Hr1 by (by apply related_regs). cbn [orb] in Hag. apply negb_true_iff, Z.eqb_neq in Hag.
    destruct (Z.ltb_spec 2 (Macro.immediate opcode)); [|destruct (Z.eqb_spec (Macro.immediate opcode) 1) as [->|]; [|destruct (Z.ltb_spec (Macro.immediate opcode) 0)]]; (split; [done|]); (eexists; split; [reflexivity|]); rewrite ?Hv.
    + split; [destruct c1; cbn [wr rd set_cf j_result]; unfold u32; by rewrite wrapu_add_r|]. by apply related_regs.
    + split; [by destruct c1|]. by apply related_wr.
    + split; [destruct c1; cbn [wr rd set_cf j_result]; rewrite u32_sub_r; f_equal; lia|]. by apply related_regs.
    + replace (Macro.immediate opcode) with 0 by lia. rewrite Z.add_0_r, u32_small by lia. done.
Qed.

(** Shifts by a count in range. *)
Lemma shr_by_spec d n c : in_u 5 n -> exists f, shr_by d n c = set_cf f (wr d (rd d c .>> n) c).
Proof.
  intros [H0 H1]. unfold shr_by. rewrite Z.mod_small by lia. destruct (Z.eqb_spec n 0) as [->|]; [|by eexists]. exists (j_cf c). rewrite Z.shiftr_0_r. by destruct c, d.
Qed.
Lemma shl_by_spec d n c : in_u 5 n -> in_u 32 (rd d c) -> exists f, shl_by d n c = set_cf f (wr d (u32 (rd d c .<< n)) c).
Proof.
  intros [H0 H1] Hr. unfold shl_by. rewrite Z.mod_small by lia. destruct (Z.eqb_spec n 0) as [->|]; [|by eexists]. exists (j_cf c). rewrite Z.shiftl_0_r, u32_small by done. by destruct c, d.
Qed.

Lemma mask_Done opcode ok m : Macro.GetBitfieldMask opcode = Done ok m -> ok = true /\ in_u 32 m.
Proof. unfold Macro.GetBitfieldMask. cbv zeta. destruct (_ && _); [|done]. intros [-> ->]%mret_Done. split; [done|apply u32_in]. Qed.
Lemma shl32_Done x n ok v : shl32 x n = Done ok v -> ok = true /\ v = u32 (x .<< n) /\ in_u 5 n.
Proof. unfold shl32. destruct (Z.leb_spec 0 n), (Z.ltb_spec n 32); try done. intros [-> ->]%mret_Done. by split_and!. Qed.
Lemma shr32_Done x n ok v : shr32 x n = Done ok v -> ok = true /\ v = x .>> n /\ in_u 5 n.
Proof. unfold shr32. destruct (Z.leb_spec 0 n), (Z.ltb_spec n 32); try done. intros [-> ->]%mret_Done. by split_and!. Qed.

Lemma in_u_small x : in_u 32 x -> u32 x = x.
Proof. apply u32_small. Qed.

(** The instructions of the field operations behind their operands. *)
Lemma insert_body b s c e va vb m bs bd : related b s c -> rd RESULT c = va -> rd eax c = vb -> in_u 32 va -> in_u 32 vb -> in_u 32 m -> in_u 5 bs -> in_u 5 bd ->
  computes [and_ri RESULT (notu 32 (u32 (m .<< bd))); shr_ri eax bs; and_ri eax m; shl_ri eax bd; or_rr RESULT eax] b s c e ((va .& notu 32 (u32 (m .<< bd))) .| u32 (((vb .>> bs) .& m) .<< bd)).
Proof.
  intros Hr Ha Hb Hva Hvb Hm Hs Hd. split; [done|]. cbn [run_code exec_instruction]. rewrite !bind_ret. eexists. split; [reflexivity|]. rewrite (in_u_small (notu 32 _)), (in_u_small m) by (done || by apply in_u_notu, u32_in).
  destruct (shr_by_spec eax bs (set_cf false (wr RESULT (rd RESULT c .& notu 32 (u32 (m .<< bd))) c)) Hs) as [f1 ->]. set (c2 := set_cf false (wr eax _ _)).
  assert (rd eax c2 = (vb .>> bs) .& m /\ rd RESULT c2 = va .& notu 32 (u32 (m .<< bd)) /\ related b s c2) as (H1 & H2 & H3).
  { subst c2. split; [destruct c; cbn in *; by subst|]. split; [destruct c; cbn in *; by subst|]. by repeat (first [apply related_regs|apply related_cf|apply related_wr]; [|done]). }
  destruct (shl_by_spec eax bd c2 Hd) as [f2 ->]; [rewrite H1; apply in_u_land; [lia|apply in_u_shiftr; (done || destruct Hs; lia)|apply Hm]|]. rewrite H1.
  split; [destruct c2; cbn in *; by subst|]. by apply related_regs; [apply related_regs|].
Qed.

Lemma shift_immediate_body b s c e va vb m bd : related b s c -> rd ecx c = va -> rd RESULT c = vb -> in_u 5 va -> in_u 32 vb -> in_u 32 m -> in_u 5 bd ->
  computes [shr_cl RESULT; and_ri RESULT m; shl_ri RESULT bd] b s c e (u32 (((vb .>> va) .& m) .<< bd)).
Proof.
  intros Hr Ha Hb Hva Hvb Hm Hd. split; [done|]. cbn [run_code exec_instruction]. rewrite !bind_ret. eexists. split; [reflexivity|]. rewrite (in_u_small m) by done. rewrite Ha.
  destruct (shr_by_spec RESULT va c Hva) as [f1 ->]. rewrite Hb. set (c2 := set_cf false (wr RESULT _ _)). assert (rd RESULT c2 = (vb .>> va) .& m /\ related b s c2) as [H1 H2].
  { subst c2. split; [by destruct c|]. by apply related_regs; [apply related_regs|]. }
  destruct (shl_by_spec RESULT bd c2 Hd) as [f2 ->]; [rewrite H1; apply in_u_land; [lia|apply in_u_shiftr; (done || destruct Hva; lia)|apply Hm]|]. rewrite H1. split; [by destruct c2|]. by apply related_regs.
Qed.

Lemma shift_register_body b s c e va vb m bs : related b s c -> rd ecx c = va -> rd RESULT c = vb -> in_u 5 va -> in_u 32 vb -> in_u 32 m -> in_u 5 bs ->
  computes [shr_ri RESULT bs; and_ri RESULT m; shl_cl RESULT] b s c e (u32 (((vb .>> bs) .& m) .<< va)).
Proof.
  intros Hr Ha Hb Hva Hvb Hm Hd. split; [done|]. cbn [run_code exec_instruction]. rewrite !bind_ret. eexists. split; [reflexivity|]. rewrite (in_u_small m) by done.
  destruct (shr_by_spec RESULT bs c Hd) as [f1 ->]. rewrite Hb. set (c2 := set_cf false (wr RESULT _ _)). assert (rd RESULT c2 = (vb .>> bs) .& m /\ rd ecx c2 = va /\ related b s c2) as (H1 & H3 & H2).
  { subst c2. split; [by destruct c|]. split; [by destruct c|]. by apply related_regs; [apply related_regs|]. }
  rewrite H3. destruct (shl_by_spec RESULT va c2 Hva) as [f2 ->]; [rewrite H1; apply in_u_land; [lia|apply in_u_shiftr; (done || destruct Hd; lia)|apply Hm]|]. rewrite H1. split; [by destruct c2|]. by apply related_regs.
Qed.

(** Computing a result, then storing it. *)
Lemma compute_store code opcode b s c e v s' e' ok : computes code b s c e v -> (sends (Macro.result_operation opcode) = true -> no_wrap s') ->
  ProcessResult (Macro.result_operation opcode) (Macro.dst opcode) v s e = Done ok (s', e') ->
  exists ok' c', run (code ++ Compile_ProcessResult (Macro.result_operation opcode) (Macro.dst opcode)) c e = Done ok' (c', e') /\ related b s' c'.
Proof.
  intros (Hn & c1 & E1 & Hv & Hr) Hw Hp. destruct (run_ProcessResult b s c1 e _ _ v s' e' ok Hr Hv Hw Hp) as (ok2 & c2 & E2 & Hr2). exists (true && ok2), c2. split; [|done]. by apply (run_then code _ c e true ok2 c1 e).
Qed.

(** Both operands, then the body, then storing. *)
Lemma operands_store opcode d1 d2 body b s c e va vb v s' e' ok : interpreter_ok s -> related b s c -> d1 <> d2 -> d1 <> METHOD_ADDRESS -> d2 <> METHOD_ADDRESS ->
  GetRegister (Macro.src_a opcode) s = Done true va -> GetRegister (Macro.src_b opcode) s = Done true vb ->
  (forall c, related b s c -> rd d1 c = va -> rd d2 c = vb -> computes body b s c e v) -> (sends (Macro.result_operation opcode) = true -> no_wrap s') ->
  ProcessResult (Macro.result_operation opcode) (Macro.dst opcode) v s e = Done ok (s', e') ->
  exists ok' c', run (Compile_GetRegister (Macro.src_a opcode) d1 ++ Compile_GetRegister (Macro.src_b opcode) d2 ++ body ++ Compile_ProcessResult (Macro.result_operation opcode) (Macro.dst opcode)) c e = Done ok' (c', e') /\ related b s' c'.
Proof.
  intros Hs Hr Hd H1 H2 Ha Hb Hbody Hw Hp. destruct (run_operands b s c e (Macro.src_a opcode) (Macro.src_b opcode) va vb d1 d2 Hs Hr) as [f E1]; [done..|].
  destruct (Hbody (set_cf f (wr d2 vb (wr d1 va c)))) as (Hn & c1 & E2 & Hv & Hr1); [by apply related_cf, related_wr; [apply related_wr|]|by destruct c, d1, d2|by destruct c, d1, d2|].
  destruct (compute_store ((Compile_GetRegister (Macro.src_a opcode) d1 ++ Compile_GetRegister (Macro.src_b opcode) d2) ++ body) opcode b s c e v s' e' ok) as (ok' & c' & E' & Hr'); [|done|done|].
  - eapply computes_then; [apply operands_no_jump|exact E1|]. split; [done|]. by exists c1.
  - exists ok', c'. split; [|done]. by rewrite <- E', <- !app_assoc.
Qed.

(** What is to be shown of every instruction. *)
Definition simulated opcode next b' c e s' e' : Prop :=
  exists okc code ok' c', Compile_operation unassigned o opcode next = Done okc code /\ run code c e = Done ok' (c', e') /\ related b' s' c'.

Section Operation.
Context (opcode : Z) (next : option Z) (b : bool) (s : MacroInterpreterImpl) (c : JITState) (e : E) (s' : MacroInterpreterImpl) (e' : E) (ok : bool).
Hypothesis Hs : interpreter_ok s.
Hypothesis Hr : related b s c.
Hypothesis Hw : sends (Macro.result_operation opcode) = true -> no_wrap s'.
Hypothesis He : exec_operation opcode s e = Done ok (s', e').

Lemma source_a : exists v, GetRegister (Macro.src_a opcode) s = Done true v /\ in_u 32 v.
Proof. apply GetRegister_ok; [done|]. apply opcode_field_range; lia. Qed.
Lemma source_b : exists v, GetRegister (Macro.src_b opcode) s = Done true v /\ in_u 32 v.
Proof. apply GetRegister_ok; [done|]. apply opcode_field_range; lia. Qed.

(** The operands and the operation. *)
Ltac start :=
  destruct source_a as (va & Ea & Ha); destruct source_b as (vb & Eb & Hb); unfold exec_operation in He;
  match goal with H : Macro.operation opcode = _ |- _ => unfold simulated, Compile_operation; rewrite H in He |- * end; cbv zeta in He; rewrite ?Ea, ?bind_Done_true, ?Eb, ?bind_Done_true in He.
(** The mask and the shifts of the field operations. *)
Ltac field_shift Hm He :=
  apply bind_Done in He as (? & ? & ? & Hm & He & ->);
  first [apply shr32_Done in Hm as (-> & -> & Hm)|let H := fresh "Hshl" in pose proof Hm as H; apply shl32_Done in Hm as (-> & -> & Hm)|let H := fresh "Hmask" in pose proof Hm as H; apply mask_Done in Hm as [-> Hm]].

Lemma jit_ALU b' : Macro.operation opcode = Macro.ALU -> ALU_agrees opcode b = Some b' -> simulated opcode next b' c e s' e'.
Proof.
  intros Ho Hag. start. apply bind_Done in He as ([v s1] & ? & ? & Hg & Hp & ->). destruct (run_ALU opcode b b' s c e va vb v s1 _ Hs Hr Hag Ea Eb Ha Hb Hg) as (code & Ec & Hc).
  destruct (compute_store code opcode b' s1 c e v s' e' _ Hc Hw Hp) as (ok' & c' & E' & Hr'). by eexists _, _, _, _.
Qed.

Lemma jit_AddImmediate : Macro.operation opcode = Macro.AddImmediate -> dummy_addimmediate o opcode || negb (redundant_move o opcode next) && sum_agrees opcode = true -> simulated opcode next b c e s' e'.
Proof.
  intros Ho Hag. start. unfold Compile_AddImmediate. destruct (dummy_addimmediate o opcode) eqn:Ed; cbn [orb] in Hag.
  - unfold dummy_addimmediate in Ed. destruct (Macro.result_operation opcode); try (by rewrite andb_false_r in Ed). apply andb_true_iff in Ed as [_ Ed]. cbn [ProcessResult] in He. unfold SetRegister in He. rewrite Ed, bind_ret in He.
    apply mret_Done in He as [-> [= -> ->]]. by eexists _, _, _, _.
  - apply andb_true_iff in Hag as [Hred%negb_true_iff Es]. rewrite Hred. destruct (compute_store _ opcode b s c e _ s' e' _ (run_sum opcode b s c e va Hs Hr Es Ea Ha) Hw He) as (ok' & c' & E' & Hr'). by eexists _, _, _, _.
Qed.

Lemma jit_ExtractInsert : Macro.operation opcode = Macro.ExtractInsert -> simulated opcode next b c e s' e'.
Proof.
  intros Ho. start. field_shift Um He. field_shift Ux He. field_shift Uy He. field_shift Uz He.
  destruct (operands_store opcode RESULT eax _ b s c e va vb _ s' e' _ Hs Hr ltac:(done) ltac:(done) ltac:(done) Ea Eb (fun c Hr H1 H2 => insert_body b s c e va vb _ _ _ Hr H1 H2 Ha Hb Um Ux Uy) Hw He) as (ok' & c' & E' & Hr').
  eexists true, _, ok', c'. split; [unfold Compile_ExtractInsert; rewrite Hmask, bind_Done_true, Hshl, bind_Done_true; reflexivity|]. done.
Qed.

Lemma jit_ExtractShiftLeftImmediate : Macro.operation opcode = Macro.ExtractShiftLeftImmediate -> simulated opcode next b c e s' e'.
Proof.
  intros Ho. start. field_shift Um He. field_shift Ux He. field_shift Uy He.
  destruct (operands_store opcode ecx RESULT _ b s c e va vb _ s' e' _ Hs Hr ltac:(done) ltac:(done) ltac:(done) Ea Eb (fun c Hr H1 H2 => shift_immediate_body b s c e va vb _ _ Hr H1 H2 Ux Hb Um Uy) Hw He) as (ok' & c' & E' & Hr').
  eexists true, _, ok', c'. split; [unfold Compile_ExtractShiftLeftImmediate; rewrite Hmask, bind_Done_true; reflexivity|]. done.
Qed.

Lemma jit_ExtractShiftLeftRegister : Macro.operation opcode = Macro.ExtractShiftLeftRegister -> simulated opcode next b c e s' e'.
Proof.
  intros Ho. start. field_shift Um He. field_shift Ux He. field_shift Uy He.
  destruct (operands_store opcode ecx RESULT _ b s c e va vb _ s' e' _ Hs Hr ltac:(done) ltac:(done) ltac:(done) Ea Eb (fun c Hr H1 H2 => shift_register_body b s c e va vb _ _ Hr H1 H2 Uy Hb Um Ux) Hw He) as (ok' & c' & E' & Hr').
  eexists true, _, ok', c'. split; [unfold Compile_ExtractShiftLeftRegister; rewrite Hmask, bind_Done_true; reflexivity|]. done.
Qed.

Lemma jit_Read : Macro.operation opcode = Macro.Read -> sum_agrees opcode = true -> simulated opcode next b c e s' e'.
Proof.
  intros Ho Es. start. apply bind_Done in He as (v & ? & ? & Hv & He' & ->). destruct (run_sum opcode b s c e va Hs Hr Es Ea Ha) as (Hn & c1 & E1 & Hv1 & Hr1).
  rewrite GetRegisterValue_spec in Hv. apply bind_Done in Hv as (? & ? & o2 & _ & Hv & ->).
  assert (computes [] b s (wr RESULT v (wr eax (fst (clobber c1)) c1)) e v) as Hc by (split; [done|]; eexists; split; [done|]; split; [by destruct c1|by apply related_wr; [apply related_wr|]]).
  destruct (compute_store [] opcode b s _ e v s' e' _ Hc Hw He') as (ok' & c' & E' & Hr').
  eexists true, _, _, c'. split; [done|]. split; [|done]. rewrite Hasserts. eapply run_then; [done|exact E1|]. eapply (run_then [load_maxwell]); [done| |exact E']. cbn [run_code exec_instruction]. rewrite Hv1, Hv. reflexivity.
Qed.

Lemma jit_operation b' : agrees opcode next b = Some b' -> simulated opcode next b' c e s' e'.
Proof.
  unfold agrees. intros Hag. destruct (Macro.operation opcode) eqn:Ho; try (injection Hag as <-).
  - by apply jit_ALU.
  - destruct (_ || _) eqn:Es; [|done]. injection Hag as <-. by apply jit_AddImmediate.
  - by apply jit_ExtractInsert.
  - by apply jit_ExtractShiftLeftImmediate.
  - by apply jit_ExtractShiftLeftRegister.
  - destruct (sum_agrees opcode) eqn:Es; [|done]. injection Hag as <-. by apply jit_Read.
  - unfold exec_operation in He. rewrite Ho in He. apply bind_Done in He as (? & ? & ? & _ & [-> [= -> ->]]%mret_Done & ->). unfold simulated, Compile_operation. rewrite Ho. by eexists _, _, _, _.
  - done.
Qed.
End Operation.
End Simulation.

(** ** Sequences of instructions *)

(** The code in front of the first instruction: the first parameter is register 1. *)
Definition Compile_entry : list Instruction := [xor_rr RESULT RESULT; xor_rr METHOD_ADDRESS METHOD_ADDRESS] ++ Compile_FetchParameter ++ [store_register 1 eax].
(** The state [Execute] calls the program with; the registers of the processor hold anything. *)
Definition JITState_new (a b x m : Z) (cf zf : bool) (params : list Z) : JITState := mkJit a b x m cf zf (replicate 8 0) 0 params 0.

Lemma scan_opcode_fixed op o : zero_reg_skip (scan_opcode op o) = zero_reg_skip o /\ enable_asserts (scan_opcode op o) = enable_asserts o /\
  can_skip_carry (scan_opcode op o) = can_skip_carry o && negb (bool_decide (Macro.operation op = Macro.ALU) && uses_carry (Macro.alu_operation op)).
Proof.
  unfold scan_opcode. destruct (decide (Macro.operation op = Macro.ALU)) as [E|E], (decide (Macro.operation op = Macro.Branch)); try congruence.
  - rewrite bool_decide_eq_true_2 by done. destruct (uses_carry _); cbn; by rewrite ?andb_false_r, ?andb_true_r.
  - rewrite bool_decide_eq_false_2 by done. destruct (Macro.branch_annul op); cbn; by rewrite ?andb_true_r.
  - rewrite bool_decide_eq_false_2 by done. by rewrite ?andb_true_r.
Qed.

Lemma scan_code_fixed l : forall o, zero_reg_skip (scan_code l o) = zero_reg_skip o /\ enable_asserts (scan_code l o) = enable_asserts o /\
  can_skip_carry (scan_code l o) = can_skip_carry o && forallb (fun op => negb (bool_decide (Macro.operation op = Macro.ALU) && uses_carry (Macro.alu_operation op))) l.
Proof.
  induction l as [|op l IH]; intros o; cbn [scan_code forallb]; [by rewrite andb_true_r|]. destruct (IH (scan_opcode op o)) as (-> & -> & ->), (scan_opcode_fixed op o) as (-> & -> & ->). by rewrite andb_assoc.
Qed.

(** The carry is left out exactly when no instruction of the program reads it. *)
Lemma Compile_flags_fixed prog : zero_reg_skip (Compile_flags prog) = true /\ enable_asserts (Compile_flags prog) = false /\
  can_skip_carry (Compile_flags prog) = forallb (fun op => negb (bool_decide (Macro.operation op = Macro.ALU) && uses_carry (Macro.alu_operation op))) prog.
Proof. apply scan_code_fixed. Qed.

Section Blocks.
Context {E : Type} `{Maxwell3DRegs E, !EngineOk (E := E)}.
Variable clobber : JITState -> Z * Z.
Variable unassigned : Reg32.
Implicit Types (s : MacroInterpreterImpl) (c : JITState) (e : E).

(** Instructions without branches and exits, one after the other: interpreted, and compiled, each with a look at the next one.  The compiler puts behind each instruction
    a test of the register that tells of a pending branch or exit, and a jump that is taken when there is one.  The entry clears this register, and only branches and instructions with the exit
    flag set it; the test is left out here, and so is the code for an exit: the blocks are meant for instructions in which neither occurs. *)
Fixpoint exec_block (l : list Z) s e : outcome (MacroInterpreterImpl * E) :=
  match l with [] => mret (s, e) | op :: l => '(s, e) ← exec_operation op s e; exec_block l s e end.
Fixpoint jit_block (o : OptimizerState) (l : list Z) c e : outcome (JITState * E) :=
  match l with
  | [] => mret (c, e)
  | op :: l => code ← Compile_operation unassigned o op (head l); '(c, e) ← run_code clobber 0 code c e; jit_block o l c e
  end.
Fixpoint block_agrees (o : OptimizerState) (l : list Z) (b : bool) : option bool :=
  match l with [] => Some b | op :: l => b ← agrees o op (head l) b; block_agrees o l b end.
Fixpoint block_no_wrap (l : list Z) s e : Prop :=
  match l with
  | [] => True
  | op :: l => match exec_operation op s e with Done _ (s, e) => (sends (Macro.result_operation op) = true -> no_wrap s) /\ block_no_wrap l s e | Undef => True end
  end.

Lemma jit_block_sound o l : zero_reg_skip o = true -> enable_asserts o = false -> forall b b' s c e ok s' e', interpreter_ok s -> jit_related o b s c -> block_agrees o l b = Some b' -> block_no_wrap l s e ->
  exec_block l s e = Done ok (s', e') -> exists ok' c', jit_block o l c e = Done ok' (c', e') /\ jit_related o b' s' c'.
Proof.
  intros Hz Ha. induction l as [|op l IH]; intros b b' s c e ok s' e' Hs Hr Hag Hw He; cbn [exec_block block_agrees block_no_wrap jit_block] in *.
  - apply mret_Done in He as [_ [= -> ->]]. injection Hag as <-. by eexists true, c.
  - apply bind_Done in He as ([s1 e1] & o1 & o2 & H1 & He & ->). rewrite H1 in Hw. destruct Hw as [Hw1 Hw]. apply bind_Some in Hag as (b1 & Hag1 & Hag).
    destruct (jit_operation clobber unassigned o Hz Ha op (head l) b s c e s1 e1 o1 Hs Hr Hw1 H1 b1 Hag1) as (okc & code & ok1 & c1 & Ec & E1 & Hr1).
    destruct (IH b1 b' s1 c1 e1 o2 s' e' (exec_keeps op s e s1 e1 _ Hs H1) Hr1 Hag Hw He) as (ok2 & c2 & E2 & Hr2). eexists _, c2. split; [|done]. eapply bind_intro; [exact Ec|]. by eapply bind_intro; [exact E1|].
Qed.

Lemma jit_entry o p params s e ra rb rx rm cf zf : Z.of_nat (length (p :: params)) < 2 ^ 32 ->
  exists c, run_code clobber 0 Compile_entry (JITState_new ra rb rx rm cf zf (p :: params)) e = Done true (c, e) /\ jit_related o false (started (p :: params) p s) c.
Proof.
  intros Hl. eexists. split.
  - unfold Compile_entry, JITState_new. cbn [app run_code exec_instruction Compile_FetchParameter]. rewrite !bind_ret. rewrite (proj2 (Z.ltb_lt _ _)) by (cbn [length j_next j_parameters]; cbn; lia). reflexivity.
  - cbn. rewrite !Z.lxor_nilpotent. by split.
Qed.
End Blocks.

(** ** The theorem *)

(** C28: Compiled macros.  From the entry of a compiled macro on, a sequence of instructions without branches on which generator and interpreter agree calls the same methods with the same values and leaves the same registers, parameters and method address as the interpreter, with the carry kept in the convention of the last arithmetic instruction, whatever the registers of the processor, the calls and an unassigned operand hold. *)
Theorem macro_jit_block {E : Type} `{Maxwell3DRegs E, !EngineOk (E := E)} clobber unassigned prog l p params s (e : E) b ok s' e' ra rb rx rm cf zf :
  Forall (in_u 32) (p :: params) -> Z.of_nat (length (p :: params)) < 2 ^ 32 -> let o := Compile_flags prog in
  block_agrees o l false = Some b -> block_no_wrap l (started (p :: params) p s) e -> exec_block l (started (p :: params) p s) e = Done ok (s', e') ->
  exists ok' c, ('(c, e) ← run_code clobber 0 Compile_entry (JITState_new ra rb rx rm cf zf (p :: params)) e; jit_block clobber unassigned o l c e) = Done ok' (c, e') /\ jit_related o b s' c.
Proof.
  intros Hp Hl o Hag Hw He. destruct (Compile_flags_fixed prog) as (Hz & Ha & _). destruct (jit_entry clobber o p params s e ra rb rx rm cf zf Hl) as (c & E1 & Hr).
  destruct (jit_block_sound clobber unassigned o l Hz Ha false b _ c e ok s' e' (started_ok p params s Hp) Hr Hag Hw He) as (ok2 & c2 & E2 & Hr2). eexists _, c2. split; [|done]. by eapply bind_intro; [exact E1|].
Qed.

(** ** A compiled block, and what the generator does where it does not agree *)

#[global] Instance calls_Maxwell3DRegs : Maxwell3DRegs calls := {| reg_array := fun _ _ => mret 0; GetRegisterValue_spec := fun _ _ => eq_refl |}.

Definition alu_opcode (result_op dst src_a src_b op : Z) : Z := (result_op .<< 4) .| (dst .<< 8) .| (src_a .<< 11) .| (src_b .<< 14) .| (op .<< 17).
(** Set the method, fetch a parameter, a sum and a difference of 64 bits, send both. *)
Definition demo_block : list Z :=
  [add_immediate 2 0 0 0x1200 0; add_immediate 0 2 0 0 0; alu_opcode 4 3 1 2 0; alu_opcode 4 4 1 0 1; alu_opcode 4 5 1 2 2; alu_opcode 4 6 1 2 3].
Definition no_clobber : JITState -> Z * Z := fun _ => (7, 9).
(** The registers, methods called and address that the interpreter and the compiled code of a block end with. *)
Definition interpreted (l : list Z) (params : list Z) : option (list Z * calls) :=
  match params with [] => None | p :: _ => match exec_block l (started params p demo_macro) ([] : calls) with Done _ (s, e) => Some (registers s, e) | Undef => None end end.
Definition compiled (l : list Z) (params : list Z) : option (list Z * calls) :=
  let o := Compile_flags l in
  match ('(c, e) ← run_code no_clobber 0 Compile_entry (JITState_new 1 2 3 4 false false params) ([] : calls); jit_block no_clobber eax o l c e) with Done _ (c, e) => Some (j_registers c, e) | Undef => None end.

Lemma macro_jit_block_witness : exists s' e' ok' c, exec_block demo_block (started [0xffffffff; 2] 0xffffffff demo_macro) ([] : calls) = Done true (s', e') /\
  e' = [(0x200, 1); (0x201, 0); (0x202, 0xfffffffd); (0x203, 0xfffffffd)] /\
  ('(c, e) ← run_code no_clobber 0 Compile_entry (JITState_new 1 2 3 4 false false [0xffffffff; 2]) ([] : calls); jit_block no_clobber eax (Compile_flags demo_block) demo_block c e) = Done ok' (c, e') /\
  jit_related (Compile_flags demo_block) true s' c.
Proof.
  assert (exists s', exec_block demo_block (started [0xffffffff; 2] 0xffffffff demo_macro) ([] : calls) = Done true (s', [(0x200, 1); (0x201, 0); (0x202, 0xfffffffd); (0x203, 0xfffffffd)])) as [s' Hs] by (eexists; vm_compute; reflexivity).
  exists s'. eexists.
  destruct (macro_jit_block no_clobber eax demo_block demo_block 0xffffffff [2] demo_macro ([] : calls) true true s' [(0x200, 1); (0x201, 0); (0x202, 0xfffffffd); (0x203, 0xfffffffd)] 1 2 3 4 false false) as (ok' & c & H1 & H2);
    [repeat constructor; by vm_compute|by vm_compute|by vm_compute|vm_compute; intuition discriminate|exact Hs|].
  exists ok', c. split; [exact Hs|]. split; [reflexivity|]. split; [exact H1|exact H2].
Defined.

(** Adding the immediate 2 to a register adds nothing. *)
Lemma jit_immediate_two : let l := [add_immediate 1 2 1 2 0] in interpreted l [40] = Some ([0; 40; 42; 0; 0; 0; 0; 0], []) /\ compiled l [40] = Some ([0; 40; 40; 0; 0; 0; 0; 0], []).
Proof. by vm_compute. Qed.

(** The conjunction with register 0 is the other operand. *)
Lemma jit_and_zero : let l := [alu_opcode 1 2 1 0 10] in interpreted l [40] = Some ([0; 40; 0; 0; 0; 0; 0; 0], []) /\ compiled l [40] = Some ([0; 40; 40; 0; 0; 0; 0; 0], []).
Proof. by vm_compute. Qed.

(** With register 0 as the first operand of an addition, the result is the one of the instruction before. *)
Lemma jit_first_operand_zero : let l := [add_immediate 1 2 0 5 0; alu_opcode 1 3 0 1 0] in
  interpreted l [40] = Some ([0; 40; 5; 40; 0; 0; 0; 0], []) /\ compiled l [40] = Some ([0; 40; 5; 5; 0; 0; 0; 0], []).
Proof. by vm_compute. Qed.

(** A subtraction with borrow behind an addition takes the carry for a borrow. *)
Lemma jit_borrow_after_add : let l := [alu_opcode 1 2 1 1 0; alu_opcode 1 3 1 2 3] in
  interpreted l [3] = Some ([0; 3; 6; 0xfffffffc; 0; 0; 0; 0], []) /\ compiled l [3] = Some ([0; 3; 6; 0xfffffffd; 0; 0; 0; 0], []).
Proof. by vm_compute. Qed.

(** A method address that passes the last method changes the increment: behind method 0xfff and 1 comes 4 in place of 3. *)
Lemma jit_method_wraps : let l := [add_immediate 2 0 0 0x2fff 0; add_immediate 4 0 0 5 0; add_immediate 4 0 0 5 0; add_immediate 4 0 0 5 0] in
  interpreted l [3] = Some ([0; 3; 0; 0; 0; 0; 0; 0], [(0xfff, 5); (1, 5); (3, 5)]) /\ compiled l [3] = Some ([0; 3; 0; 0; 0; 0; 0; 0], [(0xfff, 5); (1, 5); (4, 5)]).
Proof. by vm_compute. Qed.

(** A method that the next instruction sets again is not moved to its register either, even when the next instruction reads this register. *)
Lemma jit_redundant_move : let l := [add_immediate 2 2 0 5 0; add_immediate 2 2 2 1 0] in
  interpreted l [3] = Some ([0; 3; 6; 0; 0; 0; 0; 0], []) /\ compiled l [3] = Some ([0; 3; 1; 0; 0; 0; 0; 0], []).
Proof. by vm_compute. Qed.
